(* ===== verification/_CoqProject ===== *)
-Q . S2P
Prelude.v
Bits.v
NodeMeta.v
LeafMeta.v
LeafNode.v
LeafOps.v
Entries.v
PageLayout.v
LeafLayout.v
LeafRepr.v
LeafSearch.v
LeafInsert.v
LeafInit.v
LeafMerge.v
LeafRebuild.v
LeafSplit.v
LeafTheorems.v
RootSplit.v
InnerNode.v
InnerRepr.v
InnerSearch.v
InnerInsert.v
InnerSplit.v
InnerTheorems.v
SizeClasses.v
Config.v
FreeList.v
CircularBuffer.v
CircularInv.v
CircularOps.v
CircularAlloc.v
CircularSystem.v
CircularTheorems.v
Wal.v
WalTheorems.v
RwLock.v
RwLockTheorems.v
InnerLock.v
MappingTable.v
LeafConvert.v
SplitKey.v
SplitKeyProofs.v
StateError.v
Storage.v
StorageInstances.v
LeafEntry.v
MergeSplit.v
MergeTheorems.v
EntryInv.v
EntryLeaf.v
EntryInsert.v
EntryMove.v
EntryMerge.v
TreeLeaves.v
EntryRoot.v
SnapshotMgr.v
Tree.v
TreeShape.v
TreeInv.v
TreeSplit.v
TreeDescent.v
TreeWrite.v
TreeRead.v
TreeEvict.v
TreeLoops.v
WalInstance.v
TreeMerges.v
TreeInit.v
TreeCalm.v
TreeTheorems.v
Recovery.v
RangeScan.v
RangeScanTheorems.v
SnapshotTheorems.v
SnapshotFile.v
SnapshotFormat.v
SnapshotTree.v
SnapshotMerge.v
SnapshotSweep.v
SnapshotRestore.v
