(* ===== verification/Prelude.v ===== *)
(** * Verification of Bf-Tree

    Bf-Tree is a concurrent B-tree for larger-than-memory data.  Leaves live in a file as base
    pages; recent and hot records live in variable-length mini pages, or in full-page copies, in a
    circular buffer in memory.  Inner nodes are in memory and guarded by version locks; a mapping
    table translates the page numbers they hold to the place of a leaf.

    ** What is modelled, and where

    Values of a machine type are [Z] with the range checks of the type written out, bytes are
    [list Z], and a computation that can stop the program returns [outcome] (this file): [Panic]
    is a failed assertion, an index out of range, an overflow in a debug build or an access
    outside the object.  Stateful code is state passing; the operations on leaf entries and on the
    tree run in a state and error monad (StateError).

    - Bits, NodeMeta: integers of a width, little-endian fields and the packed page header
      (nodes/node_meta.rs).
    - LeafMeta, LeafNode, LeafOps: a leaf page as its bytes (nodes/leaf_node.rs): record
      descriptors, fences, search, insertion, reads, consolidation, growth, merging and splitting.
      Entries is the abstract page, a sorted list of entries with what a reader sees of it;
      PageLayout, LeafLayout and LeafRepr relate bytes and entries ([Repr]); LeafSearch,
      LeafInsert, LeafInit, LeafMerge, LeafRebuild, LeafSplit and LeafConvert prove each operation
      against the entries, LeafTheorems collects the results.  SplitKey and SplitKeyProofs are
      the choice of split keys, RootSplit the split of a root leaf.
    - InnerNode with InnerRepr, InnerSearch, InnerInsert, InnerSplit, InnerTheorems: inner nodes
      (nodes/inner_node.rs) against the list of separators and children they hold.
    - SizeClasses, Config: the sizes of mini pages (tree.rs) and the configuration (config.rs).
    - FreeList, CircularBuffer: the buffer of cached pages (circular_buffer/).  CircularInv,
      CircularOps and CircularAlloc are its invariant; CircularSystem is its use by any number of
      threads as a step relation, CircularTheorems the results.
    - Wal, WalTheorems: the write-ahead log (wal/).
    - RwLock, RwLockTheorems, InnerLock: the locks (utils/rw_lock.rs, utils/atomic_wait.rs,
      utils/inner_lock.rs) as step relations over all interleavings.
    - MappingTable: the mapping table (utils/mapping_table.rs).
    - Storage, LeafEntry: the storage of leaves (storage.rs, fs/) and the operations on a locked
      leaf (mini_page_op.rs).  The buffer and the table are interfaces there, with their laws;
      StorageInstances discharges the laws from CircularSystem and MappingTable.
    - MergeSplit, MergeTheorems: merging a mini page into a base page that must be split.
    - EntryInv, EntryLeaf, EntryInsert, EntryMove, EntryMerge, EntryRoot: what a leaf stands for, a
      map from the keys between its fences to values, and that reading, inserting, moving,
      merging and splitting through an entry implement it in each of its forms (base page, mini
      page over base page, full page).
    - Tree: the tree (tree.rs): the descent with its splits, writing, reading, eviction, the retry
      loops of the public operations and the constructor.  TreeLeaves, TreeShape and TreeInv are
      its invariant: levels of inner nodes over the leaves of the storage, and the map they
      represent ([tree_at], [represents]).  TreeSplit, TreeDescent, TreeWrite, TreeRead, TreeEvict and
      TreeLoops prove each part against the map, TreeMerges and TreeInit which configurations and
      workloads suffice, TreeCalm what an operation does that nothing disturbs; TreeTheorems collects the
      results.  WalInstance is the log as the tree uses it.
    - Recovery: the replay of the log (snapshot.rs, [recovery]).
    - RangeScan, RangeScanTheorems: the iterators of range_scan.rs and their entry points.
    - SnapshotMgr, SnapshotTheorems: the phases of a snapshot and the slots of the threads
      (snapshot.rs, [CPRSnapShotMgr]) as a step relation over all interleavings.
    - SnapshotFile, SnapshotTree: the snapshot file, the copies of pages in it, the sweep, the end of
      a snapshot and the recovery of a tree (snapshot.rs, fs/std_vfs.rs, utils/mod.rs).
      SnapshotFormat proves that the file is read back, SnapshotMerge that any copies of threads and
      sweep are merged into maps, and which copy of a page counts,
      SnapshotSweep what the sweep leaves in the file, SnapshotRestore that the recovered tree has
      the contents of the saved one.

    ** What the theorems show

    A tree of a usable configuration, on disk and with the record cache, as the default one is,
    serves insertions, deletions and reads as the empty map does, whatever other threads do to the
    locks it takes; the workload is one that keeps merges possible, inserts no empty value and
    reads into buffers that take every value ([tree_refines_map]).  Reads and scans that nothing
    disturbs and that draw no promotion answer at once (TreeTheorems, RangeScanTheorems).  A snapshot of a tree at rest
    is recovered as a tree with the same contents (SnapshotRestore).  The concurrent components, the
    circular buffer, the locks and the snapshot manager, keep their invariants in every
    interleaving, fail no assertion and lose no wake-up, within the bounds below.  Below them, every operation on a page is
    proved against the records of the page, and the log and the mapping table against the lists
    they stand for.  Some theorems show where the code stops or misses what it is meant to do
    ([merge_split_overflows], [spurious_failure_hangs], [wal_retry_forever], [wal_first_ack],
    [recovery_rejects_writes], [scan_mut_root_panics], [next_version_reported_early]).

    ** Bounds

    Loops of the source that are not structural take fuel that the theorems show to be enough
    ([FreeList.find_and_remove], the loops of the circular buffer, the log reader, the descent with
    two more than the number of inner nodes, and at least as much the sweep of a snapshot and the
    recovery of its nodes).  Retries that wait for another thread are steps of a relation, or end
    with [Waiting] when the fuel of the caller ends; how often a lock is found taken is an argument.
    Where a loop waits for another thread in a model that has no other steps, the end of the fuel is
    told apart from a failure ([StillWaiting], the [false] of [evict_loop]); elsewhere [Panic] stands
    for it too, and the theorems show that it does not occur.

    The theorems on trees ask for room in the page table and in the file offsets for the calls that
    are made ([budget]), and for an allocator of inner nodes that has that many free ([heap_ok]); the
    offsets of files are not bounded in the definitions, and within the budget do not reach the
    width of their type.  The split of a base page during a merge balances full keys although a page
    stores the common prefix of its keys once, and overflows when keys share much of a long prefix
    ([merge_split_overflows]).  The refinement of the map is therefore for workloads with
    [merges_fit]: any two keys share at most [shared] bytes, every key has at least [shortest], and
    twice a page takes a base page with its prefix written out, a mini page and one more record.
    With the default configuration and keys of sixteen bytes this allows records of 1384 bytes
    when keys share three bytes, and of 294 when they share seven.

    The theorems on the reader-writer lock and on the snapshot manager are for executions of fewer than
    2^32 steps, and for fewer than 2^31 - 2 threads on a lock: a sleeper compares a 32-bit counter with
    the value it last saw, and a counter that wraps around in between hides the wake it waits for.
    Interleavings of the circular buffer have no spurious failures of weak exchanges; what one does is
    [spurious_failure_hangs].  An allocation is one step for each time it takes the lock.

    The round trip of snapshots is for fewer than 2^40 nodes and leaves and versions below 2^61 - 1.

    ** Not modelled

    The backends of the file other than the standard one (operating system calls behind one
    interface), the metrics (write only), the parser of configuration files, and the conversion of
    floating point numbers, which with random choices, the contents of fresh memory and the order of
    a hash table are arguments.  The operations of the tree run without a snapshot manager: the
    guards they take and the copies they make of pages while a snapshot is under way appear as
    steps of SnapshotMgr and as a sequence of copies in SnapshotMerge, and the locks that
    the sweep tries are free.  The round trip of snapshots is in disk mode and excludes full pages,
    whose cached records come back in base pages that the invariant of leaves does not describe.
    Numbers of log records are not bounded by their width, and neither are the sums of sizes in
    [Config::validate], which panic on an overflow that only sizes near 2^64 reach.  Memory orderings weaker than
    sequential consistency are not represented: a step of a concurrent component is atomic at
    its compare-and-exchange or critical section. *)
From stdpp Require Import base numbers list option.
From Stdlib Require Import ZArith Lia.

Open Scope Z_scope.

(** ** Outcomes

    [Panic] stands for everything that stops a debug build of the program: an
    [assert!], [debug_assert!], [unwrap] or [unreachable!] that fires, a slice
    index out of range, an integer operation that leaves its type, and a raw
    pointer access outside the object. *)
Inductive outcome (A : Type) : Type :=
| Ret (a : A)
| Panic.
Arguments Ret {A} a.
Arguments Panic {A}.

Global Instance outcome_ret : MRet outcome := λ A a, Ret a.
Global Instance outcome_bind : MBind outcome := λ A B f m,
  match m with Ret a => f a | Panic => Panic end.

Global Instance outcome_eq_dec `{EqDecision A} : EqDecision (outcome A).
Proof. solve_decision. Defined.

Definition assert_ (b : bool) : outcome unit := if b then Ret tt else Panic.

(** [Option::unwrap], and an access by index, which panics past the end. *)
Definition unwrap {A} (o : option A) : outcome A := match o with Some a => Ret a | None => Panic end.

(** ** Machine integers: values are [Z]; arithmetic is checked. *)
Definition U16 : Z := 65536.
Definition as_u16 (z : Z) : Z := z mod U16.
Definition as_u32 (z : Z) : Z := z mod 2 ^ 32.
Definition add16 (a b : Z) : outcome Z := if a + b <? U16 then Ret (a + b) else Panic.
Definition mul16 (a b : Z) : outcome Z := if a * b <? U16 then Ret (a * b) else Panic.
Definition add32 (a b : Z) : outcome Z := if a + b <? 2 ^ 32 then Ret (a + b) else Panic.
Definition subu (a b : Z) : outcome Z := if b <=? a then Ret (a - b) else Panic.

(** ** Byte strings *)
Abbreviation bytes := (list Z).
Definition byte_ok (b : Z) : Prop := 0 <= b < 256.
Definition bytes_ok (l : bytes) : Prop := Forall byte_ok l.
Definition zlen {A} (l : list A) : Z := Z.of_nat (length l).

Definition sub_bytes (d : bytes) (off len : Z) : bytes :=
  take (Z.to_nat len) (drop (Z.to_nat off) d).

Definition splice (d : bytes) (off : Z) (bs : bytes) : bytes :=
  take (Z.to_nat off) d ++ bs ++ drop (Z.to_nat off + length bs) d.

(** A raw read or write is inside the object or the outcome is [Panic]. *)
Definition slice (d : bytes) (off len : Z) : outcome bytes :=
  if (0 <=? off) && (0 <=? len) && (off + len <=? zlen d)
  then Ret (sub_bytes d off len) else Panic.

Definition blit (d : bytes) (off : Z) (bs : bytes) : outcome bytes :=
  if (0 <=? off) && (off + zlen bs <=? zlen d)
  then Ret (splice d off bs) else Panic.

(** A raw slice of length zero touches no memory, wherever its pointer is. *)
Definition raw_read (d : bytes) (off len : Z) : outcome bytes :=
  if len =? 0 then Ret [] else slice d off len.

(** Checked slicing of a safe Rust slice: [k[n..]], [k[..n]]. *)
Definition slice_from (k : bytes) (n : Z) : outcome bytes :=
  if (0 <=? n) && (n <=? zlen k) then Ret (drop (Z.to_nat n) k) else Panic.

Definition slice_to (k : bytes) (n : Z) : outcome bytes :=
  if (0 <=? n) && (n <=? zlen k) then Ret (take (Z.to_nat n) k) else Panic.

(** A [for] loop over a list with a panicking body. *)
Fixpoint foldM {A B} (f : B → A → outcome B) (b : B) (l : list A) : outcome B :=
  match l with
  | [] => Ret b
  | x :: l' => b' ← f b x; foldM f b' l'
  end.

(** Rust's lexicographic [Ord] on byte slices. *)
Fixpoint cmp_bytes (a b : bytes) : comparison :=
  match a, b with
  | [], [] => Eq
  | [], _ :: _ => Lt
  | _ :: _, [] => Gt
  | x :: a', y :: b' =>
      match x ?= y with Eq => cmp_bytes a' b' | c => c end
  end.

Definition bytes_lt (a b : bytes) : Prop := cmp_bytes a b = Lt.

(** Little-endian encodings of unsigned integers. *)
Fixpoint le_bytes (n : nat) (z : Z) : bytes :=
  match n with
  | O => []
  | S n' => z mod 256 :: le_bytes n' (z / 256)
  end.

Fixpoint le_val (bs : bytes) : Z :=
  match bs with
  | [] => 0
  | b :: bs' => b + 256 * le_val bs'
  end.

(** ** Tactics *)

(** [inv_ret H]: from [H : m ≫= f = Ret b] obtain the intermediate values. *)
Lemma bind_Ret_inv {A B} (m : outcome A) (f : A → outcome B) b :
  m ≫= f = Ret b → ∃ a, m = Ret a ∧ f a = Ret b.
Proof. destruct m as [a|]; [by exists a | done]. Qed.

Lemma assert_Ret b u : assert_ b = Ret u → b = true.
Proof. by destruct b. Qed.

Ltac inv_ret H :=
  let a := fresh "a" in let Ha := fresh "Ha" in
  apply bind_Ret_inv in H as (a & Ha & H).

(** Run one bind of a known value. *)
Ltac ret_step := change (mbind ?f (Ret ?x)) with (f x); cbv beta.

(** Case analysis on a boolean comparison, with its proposition. *)
Ltac zcase e :=
  let E := fresh "E" in
  destruct e eqn:E;
  rewrite ?Z.ltb_lt, ?Z.ltb_ge, ?Z.leb_le, ?Z.leb_gt, ?Z.eqb_eq, ?Z.eqb_neq in E.

Ltac zbool :=
  repeat match goal with
  | H : (_ <? _) = true |- _ => apply Z.ltb_lt in H
  | H : (_ <? _) = false |- _ => apply Z.ltb_ge in H
  | H : (_ <=? _) = true |- _ => apply Z.leb_le in H
  | H : (_ <=? _) = false |- _ => apply Z.leb_gt in H
  | H : (_ =? _) = true |- _ => apply Z.eqb_eq in H
  | H : (_ =? _) = false |- _ => apply Z.eqb_neq in H
  | H : _ && _ = true |- _ => apply andb_prop in H as [? ?]
  | H : negb _ = true |- _ => apply negb_true_iff in H
  | H : negb _ = false |- _ => apply negb_false_iff in H
  end.

(** [lia] with division and remainder by constants. *)
Ltac dlia := Z.to_euclidean_division_equations; lia.

(** ** Checked arithmetic and assertions that succeed *)
Create HintDb outcome.

Lemma assert_true (b : bool) : b = true → assert_ b = Ret tt.
Proof. by intros ->. Qed.

Lemma add16_ok a b : a + b < U16 → add16 a b = Ret (a + b).
Proof. intros H. unfold add16. by apply Z.ltb_lt in H as ->. Qed.

Lemma mul16_ok a b : a * b < U16 → mul16 a b = Ret (a * b).
Proof. intros H. unfold mul16. by apply Z.ltb_lt in H as ->. Qed.

Lemma subu_ok a b : b <= a → subu a b = Ret (a - b).
Proof. intros H. unfold subu. by apply Z.leb_le in H as ->. Qed.

Lemma as_u32_id z : 0 <= z < 2 ^ 32 → as_u32 z = z.
Proof. intros. unfold as_u32. by apply Z.mod_small. Qed.

Lemma as_u16_id z : 0 <= z < U16 → as_u16 z = z.
Proof. apply Z.mod_small. Qed.

(** ** Lengths *)
Section zlen.
Context {A : Type}.
Implicit Types l k : list A.

Lemma zlen_nonneg l : 0 <= zlen l.
Proof. unfold zlen. lia. Qed.

Lemma zlen_nil : zlen (@nil A) = 0.
Proof. done. Qed.

Lemma zlen_cons x l : zlen (x :: l) = 1 + zlen l.
Proof. unfold zlen. cbn [length]. lia. Qed.

Lemma zlen_app l k : zlen (l ++ k) = zlen l + zlen k.
Proof. unfold zlen. rewrite length_app. lia. Qed.

Lemma zlen_take n l : 0 <= n <= zlen l → zlen (take (Z.to_nat n) l) = n.
Proof. unfold zlen. rewrite length_take. lia. Qed.

Lemma zlen_drop n l : 0 <= n <= zlen l → zlen (drop (Z.to_nat n) l) = zlen l - n.
Proof. unfold zlen. rewrite length_drop. lia. Qed.

Lemma zlen_nil_inv l : zlen l = 0 → l = [].
Proof. unfold zlen. destruct l; cbn [length]; [done | lia]. Qed.
End zlen.

Create Rewrite HintDb zlen.
Global Hint Rewrite @zlen_nil @zlen_cons @zlen_app : zlen.
Ltac zlen_simpl := autorewrite with zlen in *.

(** ** Windows of a byte array *)
Section windows.
Implicit Types d bs : bytes.

Lemma sub_lookup d off len i :
  sub_bytes d off len !! i =
    if decide (Z.of_nat i < len) then d !! (Z.to_nat off + i)%nat else None.
Proof.
  unfold sub_bytes. case_decide.
  - rewrite lookup_take_lt by lia. apply lookup_drop.
  - apply lookup_take_ge. lia.
Qed.

Lemma splice_lookup d off bs i :
  0 <= off → off + zlen bs <= zlen d →
  splice d off bs !! i =
    if decide (off <= Z.of_nat i < off + zlen bs)
    then bs !! (i - Z.to_nat off)%nat else d !! i.
Proof.
  unfold zlen. intros Ho Hb. unfold splice.
  assert (Hl : length (take (Z.to_nat off) d) = Z.to_nat off) by (rewrite length_take; lia).
  case_decide.
  - rewrite lookup_app_r by lia. rewrite lookup_app_l by lia. by rewrite Hl.
  - destruct (decide (Z.of_nat i < off)).
    + rewrite lookup_app_l by lia. apply lookup_take_lt. lia.
    + rewrite lookup_app_r by lia. rewrite lookup_app_r by lia.
      rewrite lookup_drop. f_equal. lia.
Qed.

Lemma zlen_sub d off len :
  0 <= off → 0 <= len → off + len <= zlen d → zlen (sub_bytes d off len) = len.
Proof. unfold zlen, sub_bytes. intros. rewrite length_take, length_drop. lia. Qed.

Lemma zlen_splice d off bs :
  0 <= off → off + zlen bs <= zlen d → zlen (splice d off bs) = zlen d.
Proof.
  unfold zlen, splice. intros.
  rewrite !length_app, length_take, length_drop. lia.
Qed.

Lemma sub_splice_in d off bs o len :
  0 <= off → off + zlen bs <= zlen d → off <= o → 0 <= len → o + len <= off + zlen bs →
  sub_bytes (splice d off bs) o len = sub_bytes bs (o - off) len.
Proof.
  intros. apply list_eq. intros i. rewrite !sub_lookup.
  case_decide; [|done]. rewrite splice_lookup by done.
  rewrite decide_True by lia. f_equal. lia.
Qed.

Lemma sub_all bs : sub_bytes bs 0 (zlen bs) = bs.
Proof.
  apply list_eq. intros i. rewrite sub_lookup. case_decide; [done|].
  symmetry. apply lookup_ge_None_2. unfold zlen in *. lia.
Qed.

Lemma sub_splice_same d off bs :
  0 <= off → off + zlen bs <= zlen d →
  sub_bytes (splice d off bs) off (zlen bs) = bs.
Proof.
  intros. pose proof (zlen_nonneg bs). rewrite sub_splice_in by lia.
  rewrite Z.sub_diag. apply sub_all.
Qed.

Lemma sub_splice_eq d off bs len :
  len = zlen bs → 0 <= off → off + len <= zlen d → sub_bytes (splice d off bs) off len = bs.
Proof. intros ->. apply sub_splice_same. Qed.

Lemma sub_splice_out d off bs o len :
  0 <= off → off + zlen bs <= zlen d → 0 <= o → 
  (o + len <= off ∨ off + zlen bs <= o) →
  sub_bytes (splice d off bs) o len = sub_bytes d o len.
Proof.
  intros. apply list_eq. intros i. rewrite !sub_lookup.
  case_decide; [|done]. rewrite splice_lookup by done.
  rewrite decide_False by lia. done.
Qed.

Lemma sub_sub d off len o l :
  0 <= off → 0 <= o → o + l <= len →
  sub_bytes (sub_bytes d off len) o l = sub_bytes d (off + o) l.
Proof.
  intros. apply list_eq. intros i. rewrite !sub_lookup.
  case_decide; [|done]. rewrite decide_True by lia. f_equal. lia.
Qed.

Lemma sub_app d off a b :
  0 <= off → 0 <= a → 0 <= b → off + a + b <= zlen d →
  sub_bytes d off (a + b) = sub_bytes d off a ++ sub_bytes d (off + a) b.
Proof.
  intros. apply list_eq. intros i.
  assert (Hl : length (sub_bytes d off a) = Z.to_nat a).
  { pose proof (zlen_sub d off a). unfold zlen in *. lia. }
  destruct (decide (Z.of_nat i < a)).
  - rewrite lookup_app_l by lia. rewrite !sub_lookup.
    by rewrite !decide_True by lia.
  - rewrite lookup_app_r by lia. rewrite !sub_lookup, Hl.
    repeat case_decide; try lia; [|done]. f_equal. lia.
Qed.

Lemma sub_zero d off : sub_bytes d off 0 = [].
Proof. done. Qed.

(** Reading past or at the front of a concatenation. *)
Lemma sub_skip a l off len : zlen a <= off → sub_bytes (a ++ l) off len = sub_bytes l (off - zlen a) len.
Proof.
  intros H. unfold sub_bytes, zlen in *. rewrite drop_app_ge by lia. do 2 f_equal. lia.
Qed.

Lemma sub_head a l off len : off = 0 → zlen a = len → sub_bytes (a ++ l) off len = a.
Proof. intros -> <-. unfold sub_bytes, zlen. rewrite Nat2Z.id. apply take_app_length. Qed.

Lemma splice_nil d off : splice d off [] = d.
Proof. unfold splice. cbn. rewrite Nat.add_0_r. apply take_drop. Qed.

Lemma splice_app d off b1 b2 :
  0 <= off → off + zlen b1 + zlen b2 <= zlen d →
  splice (splice d off b1) (off + zlen b1) b2 = splice d off (b1 ++ b2).
Proof.
  intros. pose proof (zlen_nonneg b1). pose proof (zlen_nonneg b2).
  apply list_eq. intros i.
  rewrite !splice_lookup; rewrite ?zlen_splice, ?zlen_app by lia; try lia.
  unfold zlen in *.
  repeat case_decide; try lia; try done.
  - rewrite lookup_app_r by lia. f_equal. lia.
  - rewrite lookup_app_l by lia. done.
Qed.

Lemma bytes_ok_sub d off len : bytes_ok d → bytes_ok (sub_bytes d off len).
Proof. intros. by apply Forall_take, Forall_drop. Qed.

Lemma bytes_ok_splice d off bs : bytes_ok d → bytes_ok bs → bytes_ok (splice d off bs).
Proof. intros. repeat apply Forall_app_2; auto using Forall_take, Forall_drop. Qed.

Lemma slice_ok d off len :
  0 <= off → 0 <= len → off + len <= zlen d → slice d off len = Ret (sub_bytes d off len).
Proof.
  intros H1 H2 H3. unfold slice.
  apply Z.leb_le in H1 as ->, H2 as ->, H3 as ->. done.
Qed.

Lemma raw_read_ok d off len :
  0 <= off → 0 <= len → off + len <= zlen d → raw_read d off len = Ret (sub_bytes d off len).
Proof.
  intros. unfold raw_read. zcase (len =? 0); [by subst | by apply slice_ok].
Qed.

Lemma slice_from_ok k n : 0 <= n <= zlen k → slice_from k n = Ret (drop (Z.to_nat n) k).
Proof. intros [H1 H2]. unfold slice_from. by apply Z.leb_le in H1 as ->, H2 as ->. Qed.

Lemma slice_to_ok k n : 0 <= n <= zlen k → slice_to k n = Ret (take (Z.to_nat n) k).
Proof. intros [H1 H2]. unfold slice_to. by apply Z.leb_le in H1 as ->, H2 as ->. Qed.

Lemma blit_ok d off bs :
  0 <= off → off + zlen bs <= zlen d → blit d off bs = Ret (splice d off bs).
Proof.
  intros H1 H3. unfold blit. apply Z.leb_le in H1 as ->, H3 as ->. done.
Qed.
End windows.

Lemma take_min_length {A} k (l : list A) : take (Nat.min k (length l)) l = take k l.
Proof.
  destruct (decide (k <= length l)%nat); [by rewrite Nat.min_l|].
  rewrite Nat.min_r by lia. by rewrite !take_ge by lia.
Qed.

(** ** Loops over index ranges *)
Lemma mapM_seqZ {A} (f : Z → outcome A) (start : Z) (l : list A) :
  (∀ j x, l !! j = Some x → f (start + Z.of_nat j) = Ret x) →
  mapM f (seqZ start (zlen l)) = Ret l.
Proof.
  revert start. induction l as [|x l IH]; intros start H; [done|].
  rewrite zlen_cons, seqZ_cons by (pose proof (zlen_nonneg l); lia). cbn [mapM].
  pose proof (H 0%nat x eq_refl) as H0. rewrite Z.add_0_r in H0. rewrite H0. ret_step.
  replace (Z.pred (1 + zlen l)) with (zlen l) by lia. rewrite IH; [done|].
  intros j y Hj. rewrite <- (H (S j) y Hj). f_equal. lia.
Qed.

Lemma mapM_map_fmap {A B C} (f : B → outcome C) (h : A → B) (g : A → C) (l : list A) :
  (∀ x, x ∈ l → f (h x) = Ret (g x)) → mapM f (map h l) = Ret (map g l).
Proof.
  induction l as [|x l IH]; intros H; [done|]. cbn [mapM map]. rewrite H by left. ret_step.
  rewrite IH; [done|]. intros y Hy. apply H. by right.
Qed.

Lemma foldM_seqZ {A B} (f : B → Z → outcome B) (h : B → A → outcome B) (start : Z) (l : list A) (b : B) :
  (∀ b' j x, l !! j = Some x → f b' (start + Z.of_nat j) = h b' x) →
  foldM f b (seqZ start (zlen l)) = foldM h b l.
Proof.
  revert start b. induction l as [|x l IH]; intros start b H; [done|].
  rewrite zlen_cons, seqZ_cons by (pose proof (zlen_nonneg l); lia). cbn [foldM].
  pose proof (H b 0%nat x eq_refl) as H0. rewrite Z.add_0_r in H0. rewrite H0.
  destruct (h b x) as [b'|]; [|done]. ret_step.
  replace (Z.pred (1 + zlen l)) with (zlen l) by lia. apply IH.
  intros b'' j y Hj. rewrite <- (H b'' (S j) y Hj). f_equal. lia.
Qed.

(** A loop whose body handles some elements and skips the others. *)
Lemma foldM_omap {A B C} (f : B → A → outcome B) (g : A → option C) (h : B → C → outcome B)
    (b : B) (l : list A) :
  (∀ b' x, x ∈ l → f b' x = match g x with Some c => h b' c | None => Ret b' end) →
  foldM f b l = foldM h b (omap g l).
Proof.
  revert b. induction l as [|x l IH]; intros b Hl; [done|]. cbn [foldM].
  rewrite (Hl b x) by left.
  assert (∀ b', foldM f b' l = foldM h b' (omap g l)) as IH'.
  { intros b'. apply IH. intros b'' y Hy. apply Hl. by right. }
  change (omap g (x :: l)) with
    (match g x with Some c => c :: omap g l | None => omap g l end).
  destruct (g x) as [c|]; [|ret_step; apply IH']. cbn [foldM].
  destruct (h b c) as [b'|]; [|done]. ret_step. apply IH'.
Qed.

(** ** The order on keys *)
Section cmp.
Implicit Types a b c p : bytes.

Lemma cmp_refl a : cmp_bytes a a = Eq.
Proof. induction a as [|x a IH]; cbn; [done|]. by rewrite Z.compare_refl. Qed.

Lemma cmp_eq a b : cmp_bytes a b = Eq ↔ a = b.
Proof.
  split; [|intros ->; apply cmp_refl].
  revert b. induction a as [|x a IH]; intros [|y b]; cbn; try done.
  destruct (Z.compare_spec x y); try done. intros. subst. f_equal. auto.
Qed.

Lemma cmp_opp a b : cmp_bytes b a = CompOpp (cmp_bytes a b).
Proof.
  revert b. induction a as [|x a IH]; intros [|y b]; cbn; try done.
  rewrite (Z.compare_antisym x y). destruct (x ?= y); cbn; auto.
Qed.

Lemma cmp_gt_lt a b : cmp_bytes a b = Gt ↔ cmp_bytes b a = Lt.
Proof. rewrite (cmp_opp a b). by destruct (cmp_bytes a b). Qed.

(** Comparing a prefix first, and the rest only on a tie, is the full comparison. *)
Lemma cmp_split n a b :
  cmp_bytes a b =
    match cmp_bytes (take n a) (take n b) with
    | Eq => cmp_bytes (drop n a) (drop n b)
    | o => o
    end.
Proof.
  revert a b. induction n as [|n IH]; intros [|x a] [|y b]; cbn; try done.
  destruct (x ?= y); auto.
Qed.

Lemma cmp_app_l p a b : cmp_bytes (p ++ a) (p ++ b) = cmp_bytes a b.
Proof. induction p as [|x p IH]; cbn; [done|]. by rewrite Z.compare_refl. Qed.

Lemma cmp_lt_trans a b c : bytes_lt a b → bytes_lt b c → bytes_lt a c.
Proof.
  unfold bytes_lt. revert b c.
  induction a as [|x a IH]; intros [|y b] [|z c]; cbn; try done.
  destruct (Z.compare_spec x y), (Z.compare_spec y z); try done; intros; subst.
  - rewrite Z.compare_refl. eauto.
  - by replace (y ?= z) with Lt by (symmetry; by apply Z.compare_lt_iff).
  - by replace (x ?= z) with Lt by (symmetry; by apply Z.compare_lt_iff).
  - replace (x ?= z) with Lt; [done|]. symmetry. apply Z.compare_lt_iff. lia.
Qed.

(** A key between two keys that share a prefix has that prefix. *)
Lemma cmp_between_prefix n a b k :
  take n a = take n b → cmp_bytes a k ≠ Gt → cmp_bytes k b ≠ Gt →
  take n k = take n a.
Proof.
  intros Hab H1 H2. rewrite (cmp_split n) in H1, H2. rewrite <- Hab in H2.
  rewrite (cmp_opp (take n a)) in H2.
  destruct (cmp_bytes (take n a) (take n k)) eqn:E; cbn in H2; try done.
  by apply cmp_eq in E.
Qed.
End cmp.

Global Instance bytes_lt_strict : StrictOrder bytes_lt.
Proof.
  split; [|intros a b c; apply cmp_lt_trans].
  intros a. unfold complement, bytes_lt. by rewrite cmp_refl.
Qed.

Lemma bytes_lt_irrefl a : ¬ bytes_lt a a.
Proof. unfold bytes_lt. by rewrite cmp_refl. Qed.

Lemma cmp_trichotomy a b : bytes_lt a b ∨ a = b ∨ bytes_lt b a.
Proof.
  unfold bytes_lt. rewrite (cmp_opp a b). destruct (cmp_bytes a b) eqn:E; auto.
  right; left. by apply cmp_eq.
Qed.

Lemma cmp_le_lt_trans a b c : cmp_bytes a b ≠ Gt → bytes_lt b c → bytes_lt a c.
Proof.
  intros H Hbc. destruct (cmp_bytes a b) eqn:E; [by apply cmp_eq in E as -> | | done].
  by eapply cmp_lt_trans.
Qed.

Lemma cmp_lt_le_trans a b c : bytes_lt a b → cmp_bytes b c ≠ Gt → bytes_lt a c.
Proof.
  intros Hab H. destruct (cmp_bytes b c) eqn:E; [by apply cmp_eq in E as <- | | done].
  by eapply cmp_lt_trans.
Qed.

(** ** Little-endian round trip *)
Lemma length_le_bytes n z : length (le_bytes n z) = n.
Proof. revert z. induction n; intros; cbn; auto. Qed.

Lemma bytes_ok_le n z : bytes_ok (le_bytes n z).
Proof.
  revert z. induction n as [|n IH]; intros z; cbn; constructor; [|apply IH].
  apply Z.mod_pos_bound. lia.
Qed.

Lemma le_val_bytes n z : 0 <= z < 256 ^ Z.of_nat n → le_val (le_bytes n z) = z.
Proof.
  revert z. induction n as [|n IH]; intros z Hz; cbn [le_bytes le_val].
  - cbn in Hz. lia.
  - rewrite Nat2Z.inj_succ, Z.pow_succ_r in Hz by lia.
    rewrite IH; [pose proof (Z.div_mod z 256); lia|].
    split; [apply Z.div_pos; lia | apply Z.div_lt_upper_bound; lia].
Qed.

Lemma le_val_bound bs : bytes_ok bs → 0 <= le_val bs < 256 ^ zlen bs.
Proof.
  induction 1 as [|b bs Hb _ IH]; cbn [le_val]; [change (256 ^ zlen []) with 1; lia|].
  unfold byte_ok in Hb. rewrite zlen_cons, Z.pow_add_r by (pose proof (zlen_nonneg bs); lia).
  lia.
Qed.

Lemma le_bytes_val bs : bytes_ok bs → le_bytes (length bs) (le_val bs) = bs.
Proof.
  induction 1 as [|b bs Hb _ IH]; cbn [le_val le_bytes length]; [done|].
  unfold byte_ok in Hb. f_equal.
  - rewrite Z.mul_comm, Z_mod_plus_full. apply Z.mod_small. lia.
  - etransitivity; [|exact IH]. f_equal.
    rewrite (Z.mul_comm 256), Z.div_add, Z.div_small by lia. done.
Qed.
