(* ===== verification/Bits.v ===== *)
(** Bit masks of the packed fields: a mask that is one bit reads it, a mask of the
    low bits is a remainder, and joining a high and a low field is an addition. *)
From stdpp Require Import base numbers.
From Stdlib Require Import ZArith Lia.
From S2P Require Import Prelude.

(** [x & mask != 0], the source's idiom for a flag. *)
Definition flag_set (e mask : Z) : bool := negb (Z.land e mask =? 0).

Section masks.
Implicit Types e q a n i : Z.

Lemma land_pow2 e i : 0 <= i → Z.land e (2 ^ i) = if Z.testbit e i then 2 ^ i else 0.
Proof.
  intros Hi. apply Z.bits_inj'. intros j Hj.
  rewrite Z.land_spec. destruct (decide (j = i)) as [->|Hne].
  - rewrite Z.pow2_bits_true by done.
    destruct (Z.testbit e i) eqn:E; [by rewrite Z.pow2_bits_true | by rewrite Z.bits_0].
  - rewrite Z.pow2_bits_false by done. rewrite andb_false_r.
    destruct (Z.testbit e i); [by rewrite Z.pow2_bits_false | by rewrite Z.bits_0].
Qed.

Lemma flag_set_testbit e i : 0 <= i → flag_set e (2 ^ i) = Z.testbit e i.
Proof.
  intros Hi. unfold flag_set. rewrite land_pow2 by done.
  destruct (Z.testbit e i); [|done].
  pose proof (Z.pow_pos_nonneg 2 i). apply negb_true_iff, Z.eqb_neq. lia.
Qed.

Lemma testbit_div e i : 0 <= i → Z.testbit e i = Z.odd (e / 2 ^ i).
Proof. intros. rewrite Z.testbit_odd, Z.shiftr_div_pow2 by done. done. Qed.

(** Bits above [n] depend on the quotient by [2^n] only. *)
Lemma testbit_high e e' n i :
  0 <= n <= i → e / 2 ^ n = e' / 2 ^ n → Z.testbit e i = Z.testbit e' i.
Proof.
  intros Hn He. rewrite !testbit_div by lia.
  replace i with (n + (i - n)) by lia.
  rewrite Z.pow_add_r by lia.
  rewrite <- !Z.div_div by (try apply Z.pow_nonzero; try apply Z.pow_pos_nonneg; lia).
  by rewrite He.
Qed.

Lemma testbit_small a n i : 0 <= a < 2 ^ n → 0 <= n <= i → Z.testbit a i = false.
Proof.
  intros Ha Hi. rewrite <- (Z.mod_small a (2 ^ n)) by done.
  by apply Z.mod_pow2_bits_high.
Qed.

Lemma lor_low q a n : 0 <= n → 0 <= a < 2 ^ n → Z.lor (q * 2 ^ n) a = q * 2 ^ n + a.
Proof.
  intros Hn Ha.
  assert (Z.land (q * 2 ^ n) a = 0) as Hl.
  { apply Z.bits_inj'. intros i Hi. rewrite Z.land_spec, Z.bits_0.
    destruct (decide (i < n)).
    - by rewrite Z.mul_pow2_bits_low.
    - rewrite (testbit_small a n) by lia. apply andb_false_r. }
  rewrite Z.add_nocarry_lxor by done. symmetry. by apply Z.lxor_lor.
Qed.

Lemma lor_low_comm q a n : 0 <= n → 0 <= a < 2 ^ n → Z.lor a (q * 2 ^ n) = q * 2 ^ n + a.
Proof. intros. rewrite Z.lor_comm. by apply lor_low. Qed.

Lemma land_low e n : 0 <= n → Z.land e (2 ^ n - 1) = e mod 2 ^ n.
Proof. intros. replace (2 ^ n - 1) with (Z.ones n).
  - by apply Z.land_ones.
  - rewrite Z.ones_equiv. lia. Qed.

(** [is_power_of_two] of the unsigned types. *)
Definition is_power_of_two (z : Z) : bool := (0 <? z) && (Z.land z (z - 1) =? 0).

Lemma power_of_two_log z : is_power_of_two z = true → z = 2 ^ Z.log2 z.
Proof.
  unfold is_power_of_two. intros [Hp%Z.ltb_lt Hl%Z.eqb_eq]%andb_true_iff.
  destruct (Z.log2_spec z Hp) as [Hlo Hhi]. destruct (decide (z = 2 ^ Z.log2 z)) as [|Hne]; [done|].
  assert (Z.log2 (z - 1) = Z.log2 z) as Hlog by (apply Z.log2_unique; [apply Z.log2_nonneg|lia]).
  exfalso. assert (Z.testbit (Z.land z (z - 1)) (Z.log2 z) = true) as Hb; [|by rewrite Hl, Z.bits_0 in Hb].
  rewrite Z.land_spec, Z.bit_log2 by lia. rewrite <- Hlog at 1. apply Z.bit_log2.
  pose proof (Z.pow_pos_nonneg 2 (Z.log2 z) ltac:(lia) (Z.log2_nonneg z)). lia.
Qed.

(** Masking with all bits of width [w] but the low [n]. *)
Lemma land_high e n w :
  0 <= n <= w → 0 <= e < 2 ^ w →
  Z.land e (2 ^ w - 2 ^ n) = (e / 2 ^ n) * 2 ^ n.
Proof.
  intros Hn He.
  replace (2 ^ w - 2 ^ n) with (Z.ones (w - n) * 2 ^ n).
  2:{ rewrite Z.ones_equiv, Z.mul_pred_l, <- Z.pow_add_r by lia. f_equal. f_equal. lia. }
  rewrite <- Z.shiftl_mul_pow2, <- Z.shiftl_mul_pow2, <- Z.shiftr_div_pow2 by lia.
  apply Z.bits_inj'. intros i Hi. rewrite Z.land_spec.
  destruct (decide (i < n)).
  - by rewrite !Z.shiftl_spec_low, andb_false_r.
  - rewrite !Z.shiftl_spec_high, Z.shiftr_spec by lia.
    replace (i - n + n) with i by lia.
    destruct (decide (i < w)).
    + rewrite Z.ones_spec_low by lia. apply andb_true_r.
    + rewrite Z.ones_spec_high by lia. rewrite andb_false_r. symmetry.
      apply (testbit_small e w); lia.
Qed.
End masks.
