(* ===== verification/NodeMeta.v ===== *)
(** The packed page header word (src/nodes/node_meta.rs) and page identifiers
    (src/nodes/page_id.rs), with the constants of src/nodes/mod.rs. *)
From stdpp Require Import base numbers.
From Stdlib Require Import ZArith Lia.
From S2P Require Import Prelude Bits.

(** ** Constants of src/nodes/mod.rs *)
Definition INNER_NODE_SIZE : Z := 4096.
Definition DISK_PAGE_SIZE : Z := 4096.
Definition MAX_LEAF_PAGE_SIZE : Z := 32768.
Definition MAX_KEY_LEN : Z := 2020.
Definition MAX_VALUE_LEN : Z := 16332.
Definition CACHE_LINE_SIZE : Z := 64.
Definition FENCE_KEY_CNT : Z := 2.
Definition KV_META_SIZE : Z := 8.

(** ** NodeMeta *)
Record NodeMeta := mkNodeMeta {
  encoded : Z;
  node_size : Z;
  remaining_size : Z;
}.

Definition HAS_FENCE_MASK : Z := 0x8000.
Definition SHOULD_SPLIT_MASK : Z := 0x4000.
Definition CHILDREN_IS_LEAF_MASK : Z := 0x2000.
Definition CACHE_LEAF_MASK : Z := 0x1000.
Definition VALUE_COUNT_MASK : Z := 0x0FFF.

(** [!mask] on a [u16]. *)
Definition not16 (m : Z) : Z := 65535 - m.

Definition NodeMeta_new (remaining : Z) (children_is_leaf has_fence : bool)
    (size : Z) (cache_only : bool) : outcome NodeMeta :=
  let e0 := 0 in
  let e1 := if children_is_leaf then Z.lor e0 CHILDREN_IS_LEAF_MASK else e0 in
  e2 ← (if has_fence
        then _ ← assert_ (negb children_is_leaf); Ret (Z.lor e1 HAS_FENCE_MASK)
        else Ret e1);
  let e3 := if cache_only then Z.lor e2 CACHE_LEAF_MASK else e2 in
  Ret (mkNodeMeta e3 size remaining).

Definition meta_count_with_fence (m : NodeMeta) : Z := Z.land (encoded m) VALUE_COUNT_MASK.

Definition has_fence (m : NodeMeta) : bool := flag_set (encoded m) HAS_FENCE_MASK.

Definition meta_count_without_fence (m : NodeMeta) : outcome Z :=
  if has_fence m then subu (meta_count_with_fence m) FENCE_KEY_CNT
  else Ret (Z.land (encoded m) VALUE_COUNT_MASK).

Definition set_value_count (m : NodeMeta) (count : Z) : NodeMeta :=
  mkNodeMeta (Z.lor (Z.land (encoded m) (not16 VALUE_COUNT_MASK)) count)
    (node_size m) (remaining_size m).

Definition children_is_leaf (m : NodeMeta) : bool := flag_set (encoded m) CHILDREN_IS_LEAF_MASK.

Definition is_cache_only_leaf (m : NodeMeta) : bool := flag_set (encoded m) CACHE_LEAF_MASK.

Definition increment_value_count (m : NodeMeta) : outcome NodeMeta :=
  e ← add16 (encoded m) 1; Ret (mkNodeMeta e (node_size m) (remaining_size m)).

Definition get_split_flag (m : NodeMeta) : bool := flag_set (encoded m) SHOULD_SPLIT_MASK.

Definition set_split_flag (m : NodeMeta) : NodeMeta :=
  mkNodeMeta (Z.lor (encoded m) SHOULD_SPLIT_MASK) (node_size m) (remaining_size m).

Definition set_remaining (m : NodeMeta) (r : Z) : NodeMeta :=
  mkNodeMeta (encoded m) (node_size m) r.

(** The word fits in [u16]. *)
Definition meta_ok (m : NodeMeta) : Prop := 0 <= encoded m < U16.

Section node_meta.
Implicit Types m : NodeMeta.

Lemma count_mod m : meta_count_with_fence m = encoded m mod 4096.
Proof. apply (land_low (encoded m) 12). lia. Qed.

Lemma count_bound m : 0 <= meta_count_with_fence m < 4096.
Proof. rewrite count_mod. apply Z.mod_pos_bound. lia. Qed.

Lemma has_fence_bit m : has_fence m = Z.testbit (encoded m) 15.
Proof. apply (flag_set_testbit _ 15). lia. Qed.

Lemma split_flag_bit m : get_split_flag m = Z.testbit (encoded m) 14.
Proof. apply (flag_set_testbit _ 14). lia. Qed.

Lemma children_is_leaf_bit m : children_is_leaf m = Z.testbit (encoded m) 13.
Proof. apply (flag_set_testbit _ 13). lia. Qed.

Lemma is_cache_only_bit m : is_cache_only_leaf m = Z.testbit (encoded m) 12.
Proof. apply (flag_set_testbit _ 12). lia. Qed.

(** Two headers agree on the four flags. *)
Definition same_flags m m' : Prop :=
  has_fence m' = has_fence m ∧ get_split_flag m' = get_split_flag m ∧
  children_is_leaf m' = children_is_leaf m ∧ is_cache_only_leaf m' = is_cache_only_leaf m.

Lemma same_flags_quot m m' :
  encoded m' / 4096 = encoded m / 4096 → same_flags m m'.
Proof.
  intros H. unfold same_flags.
  rewrite !has_fence_bit, !split_flag_bit, !children_is_leaf_bit, !is_cache_only_bit.
  repeat split; apply (testbit_high _ _ 12); lia || exact H.
Qed.

Lemma set_value_count_spec m c :
  meta_ok m → 0 <= c < 4096 →
  let m' := set_value_count m c in
  meta_ok m' ∧ meta_count_with_fence m' = c ∧ same_flags m m' ∧
  node_size m' = node_size m ∧ remaining_size m' = remaining_size m.
Proof.
  intros Hm Hc m'. unfold meta_ok, U16 in Hm |- *.
  assert (encoded m' = encoded m / 4096 * 4096 + c) as He.
  { cbn. change (not16 VALUE_COUNT_MASK) with (2 ^ 16 - 2 ^ 12).
    rewrite land_high by lia. change (2 ^ 12) with 4096. by apply (lor_low _ _ 12). }
  rewrite count_mod. repeat split; try done.
  - rewrite He. dlia.
  - rewrite He. dlia.
  - rewrite He. rewrite Z.add_comm, Z_mod_plus_full. by apply Z.mod_small.
  - apply same_flags_quot. rewrite He. dlia.
  - apply same_flags_quot. rewrite He. dlia.
  - apply same_flags_quot. rewrite He. dlia.
  - apply same_flags_quot. rewrite He. dlia.
Qed.

Lemma increment_spec m :
  meta_ok m → meta_count_with_fence m < 4095 →
  ∃ m', increment_value_count m = Ret m' ∧ meta_ok m' ∧
    meta_count_with_fence m' = meta_count_with_fence m + 1 ∧ same_flags m m' ∧
    node_size m' = node_size m ∧ remaining_size m' = remaining_size m.
Proof.
  unfold meta_ok, U16. intros Hm Hc. rewrite count_mod in Hc.
  unfold increment_value_count. rewrite add16_ok by (unfold U16; dlia).
  eexists. split; [reflexivity|]. rewrite !count_mod. cbn.
  repeat split; try dlia; apply same_flags_quot; cbn; dlia.
Qed.

Lemma NodeMeta_new_spec r cl hf s co :
  hf && cl = false →
  ∃ m, NodeMeta_new r cl hf s co = Ret m ∧ meta_ok m ∧ meta_count_with_fence m = 0 ∧
    has_fence m = hf ∧ get_split_flag m = false ∧ children_is_leaf m = cl ∧
    is_cache_only_leaf m = co ∧ node_size m = s ∧ remaining_size m = r.
Proof.
  intros H. destruct cl, hf, co; try done;
    (eexists; split; [reflexivity|]; unfold meta_ok, U16; cbn; repeat split; done || lia).
Qed.

Lemma set_split_flag_spec m :
  meta_ok m →
  let m' := set_split_flag m in
  meta_ok m' ∧ get_split_flag m' = true ∧
  meta_count_with_fence m' = meta_count_with_fence m ∧ has_fence m' = has_fence m ∧
  children_is_leaf m' = children_is_leaf m ∧ is_cache_only_leaf m' = is_cache_only_leaf m.
Proof.
  intros Hm m'. unfold meta_ok, U16 in Hm |- *.
  assert (∀ i, i ≠ 14 → 0 <= i → Z.testbit (encoded m') i = Z.testbit (encoded m) i) as Hb.
  { intros i Hi Hp. cbn. rewrite Z.lor_spec.
    rewrite (Z.pow2_bits_false 14) by lia. apply orb_false_r. }
  rewrite !has_fence_bit, !children_is_leaf_bit, !is_cache_only_bit, !split_flag_bit.
  assert (0 <= encoded m') as H0.
  { cbn. apply Z.lor_nonneg. unfold SHOULD_SPLIT_MASK. lia. }
  assert (encoded m' ≠ 0) as Hne.
  { cbn. intros [_ H]%Z.lor_eq_0_iff. done. }
  rewrite !(Hb 15), !(Hb 13), !(Hb 12) by lia. repeat split; [done| | |].
  - assert (Z.log2 (encoded m') < 16) as Hl.
    { cbn. rewrite Z.log2_lor by (unfold SHOULD_SPLIT_MASK; lia). apply Z.max_lub_lt; [|cbn; lia].
      destruct (decide (encoded m = 0)) as [->|]; [cbn; lia|]. apply Z.log2_lt_pow2; lia. }
    apply (Z.log2_lt_pow2 _ 16); [lia|done].
  - change (Z.testbit (Z.lor (encoded m) SHOULD_SPLIT_MASK) 14 = true).
    rewrite Z.lor_spec. apply orb_true_r.
  - unfold meta_count_with_fence. apply Z.bits_inj'. intros i Hi. rewrite !Z.land_spec.
    destruct (decide (i = 14)) as [->|]; [by rewrite !andb_false_r | by rewrite Hb].
Qed.
End node_meta.

(** ** PageID: a heap pointer of an inner node, or the id of a leaf *)
Record PageID := mkPageID { pid_value : Z }.

Global Instance PageID_eq_dec : EqDecision PageID.
Proof. solve_decision. Defined.

Definition U64 : Z := 2 ^ 64.
Definition ID_MASK : Z := 0x4000000000000000.
Definition ROOT_IS_LEAF_MASK : Z := 0x8000000000000000.

(** [!mask] on a [u64]. *)
Definition not64 (m : Z) : Z := 2 ^ 64 - 1 - m.

Definition PageID_new (v : Z) : PageID := mkPageID v.
Definition from_raw (v : Z) : PageID := PageID_new v.
Definition from_pointer (ptr : Z) : PageID := PageID_new ptr.
Definition from_id (id : Z) : PageID := PageID_new (Z.lor id ID_MASK).
Definition is_id (p : PageID) : bool := flag_set (pid_value p) ID_MASK.
Definition as_id (p : PageID) : outcome Z :=
  _ ← assert_ (is_id p); Ret (Z.land (pid_value p) (not64 ID_MASK)).
Definition is_inner_node_pointer (p : PageID) : bool := Z.land (pid_value p) ID_MASK =? 0.
Definition pid_raw (p : PageID) : Z := pid_value p.
Definition as_inner_node (p : PageID) : outcome Z :=
  _ ← assert_ (is_inner_node_pointer p); Ret (pid_value p).

(** [BfTree::get_root_page] (src/tree.rs): the root word carries its kind in bit 63. *)
Definition get_root_page (root_page_id : Z) : PageID * bool :=
  let root_is_leaf := flag_set root_page_id ROOT_IS_LEAF_MASK in
  let clean := Z.land root_page_id (not64 ROOT_IS_LEAF_MASK) in
  (if root_is_leaf then from_id clean else from_pointer clean, root_is_leaf).

Section page_id.
Implicit Types p : PageID.

Lemma is_id_bit p : is_id p = Z.testbit (pid_value p) 62.
Proof. apply (flag_set_testbit _ 62). lia. Qed.

Lemma is_pointer_not_id p : is_inner_node_pointer p = negb (is_id p).
Proof. unfold is_inner_node_pointer, is_id, flag_set. by rewrite negb_involutive. Qed.

Lemma not64_bit i j : 0 <= i < 64 → 0 <= j →
  Z.testbit (not64 (2 ^ i)) j = (j <? 64) && negb (j =? i).
Proof.
  intros Hi Hj. unfold not64.
  replace (2 ^ 64 - 1 - 2 ^ i) with (Z.lxor (Z.ones 64) (2 ^ i)).
  2:{ assert (Z.land (Z.lxor (Z.ones 64) (2 ^ i)) (2 ^ i) = 0) as H.
      { apply Z.bits_inj'. intros k Hk. rewrite Z.land_spec, Z.lxor_spec, Z.bits_0.
        destruct (decide (k = i)) as [->|].
        - by rewrite Z.ones_spec_low, Z.pow2_bits_true by lia.
        - rewrite Z.pow2_bits_false by lia. apply andb_false_r. }
      apply Z.add_nocarry_lxor in H.
      rewrite Z.lxor_assoc, Z.lxor_nilpotent, Z.lxor_0_r in H.
      rewrite Z.ones_equiv in H at 2. lia. }
  rewrite Z.lxor_spec. zcase (j <? 64); zcase (j =? i); subst;
    rewrite ?Z.ones_spec_low, ?Z.ones_spec_high by lia;
    rewrite ?Z.pow2_bits_true, ?Z.pow2_bits_false by lia; try done; lia.
Qed.

Lemma land_not64 v i : 0 <= i < 64 → 0 <= v < 2 ^ 64 →
  Z.testbit v i = false → Z.land v (not64 (2 ^ i)) = v.
Proof.
  intros Hi Hv Hb. apply Z.bits_inj'. intros j Hj.
  rewrite Z.land_spec, not64_bit by done.
  zcase (j <? 64); cbn; [|rewrite (testbit_small v 64) by lia; done].
  zcase (j =? i); cbn; [subst; by rewrite Hb | apply andb_true_r].
Qed.

Lemma land_lor_not64 v i : 0 <= i < 64 → 0 <= v < 2 ^ 64 →
  Z.testbit v i = false → Z.land (Z.lor v (2 ^ i)) (not64 (2 ^ i)) = v.
Proof.
  intros Hi Hv Hb. rewrite Z.land_lor_distr_l, land_not64 by done.
  assert (Z.land (2 ^ i) (not64 (2 ^ i)) = 0) as ->; [|apply Z.lor_0_r].
  apply Z.bits_inj'. intros j Hj. rewrite Z.land_spec, not64_bit, Z.bits_0 by done.
  zcase (j =? i); cbn; [by rewrite !andb_false_r|].
  by rewrite Z.pow2_bits_false by lia.
Qed.

Lemma as_id_from_id id : 0 <= id < 2 ^ 62 → as_id (from_id id) = Ret id.
Proof.
  intros H. unfold as_id. rewrite is_id_bit. cbn [pid_value from_id PageID_new].
  change ID_MASK with (2 ^ 62).
  rewrite Z.lor_spec. rewrite (Z.pow2_bits_true 62) by lia.
  rewrite orb_true_r. cbn. f_equal. apply (land_lor_not64 id 62); [lia | lia |].
  apply (testbit_small id 62); lia.
Qed.

Lemma from_id_is_id id : is_id (from_id id) = true.
Proof.
  rewrite is_id_bit. cbn [pid_value from_id PageID_new]. change ID_MASK with (2 ^ 62).
  by rewrite Z.lor_spec, (Z.pow2_bits_true 62), orb_true_r by lia.
Qed.

(** The root word round trips for a leaf id and for an inner node pointer. *)
Lemma get_root_page_leaf id : 0 <= id < 2 ^ 62 →
  get_root_page (Z.lor (pid_raw (from_id id)) ROOT_IS_LEAF_MASK) = (from_id id, true).
Proof.
  intros H. unfold get_root_page. change ROOT_IS_LEAF_MASK with (2 ^ 63).
  rewrite (flag_set_testbit _ 63) by lia.
  rewrite Z.lor_spec, (Z.pow2_bits_true 63), orb_true_r by lia.
  unfold pid_raw, from_id. cbn [pid_value PageID_new].
  change ID_MASK with (2 ^ 62).
  rewrite (land_lor_not64 _ 63).
  - f_equal. f_equal. rewrite <- Z.lor_assoc. by rewrite Z.lor_diag.
  - lia.
  - rewrite <- (Z.mul_1_l (2 ^ 62)), lor_low_comm by lia. lia.
  - rewrite Z.lor_spec, (Z.pow2_bits_false 62), orb_false_r by lia.
    apply (testbit_small id 62); lia.
Qed.

Lemma get_root_page_inner ptr : 0 <= ptr < 2 ^ 62 →
  get_root_page (pid_raw (from_pointer ptr)) = (from_pointer ptr, false) ∧
  as_inner_node (from_pointer ptr) = Ret ptr.
Proof.
  intros H. unfold get_root_page, as_inner_node. change ROOT_IS_LEAF_MASK with (2 ^ 63).
  rewrite (flag_set_testbit _ 63), is_pointer_not_id, is_id_bit by lia.
  cbn [pid_raw pid_value from_pointer PageID_new].
  rewrite !(testbit_small ptr 62) by lia.
  split; [|done]. f_equal. f_equal. apply (land_not64 ptr 63); [lia | lia |].
  apply (testbit_small ptr 62); lia.
Qed.
End page_id.
