(* ===== verification/LeafMeta.v ===== *)
(** Record descriptors of a leaf page (src/nodes/leaf_node.rs, [OpType] and
    [LeafKVMeta]): 8 bytes that pack the offset of a record, its operation type and
    key length, its reference bit and value length, and two preview bytes. *)
From stdpp Require Import base numbers list.
From Stdlib Require Import ZArith Lia.
From S2P Require Import Prelude Bits NodeMeta.

(** ** OpType *)
Inductive OpType := OpInsert | OpDelete | OpCache | OpPhantom.

Global Instance OpType_eq_dec : EqDecision OpType.
Proof. solve_decision. Defined.

Definition op_eqb (a b : OpType) : bool := bool_decide (a = b).

Definition op_u8 (o : OpType) : Z :=
  match o with OpInsert => 0 | OpDelete => 1 | OpCache => 2 | OpPhantom => 3 end.

(** [transmute] of a byte: only the four discriminants are values of the type. *)
Definition op_of_u8 (b : Z) : outcome OpType :=
  if b =? 0 then Ret OpInsert else if b =? 1 then Ret OpDelete
  else if b =? 2 then Ret OpCache else if b =? 3 then Ret OpPhantom else Panic.

Definition is_dirty (o : OpType) : bool :=
  match o with OpInsert | OpDelete => true | OpCache | OpPhantom => false end.

Definition is_absent (o : OpType) : bool :=
  match o with OpInsert | OpCache => false | OpPhantom | OpDelete => true end.

Definition is_cache (o : OpType) : bool :=
  match o with OpCache | OpPhantom => true | OpInsert | OpDelete => false end.

(** ** Layout constants *)
Definition PREVIEW_SIZE : Z := 2.
Definition LOW_FENCE_IDX : Z := 0.
Definition HIGH_FENCE_IDX : Z := 1.
Definition OP_TYPE_SHIFT : Z := 14.
Definition KEY_LEN_MASK : Z := 0x3FFF.
Definition REF_BIT_MASK : Z := 0x8000.
Definition VALUE_LEN_MASK : Z := 0x7FFF.

(** The loop stops at the first difference. *)
Fixpoint common_prefix_len (low_fence high_fence : bytes) : Z :=
  match low_fence, high_fence with
  | a :: low', b :: high' => if a =? b then 1 + common_prefix_len low' high' else 0
  | _, _ => 0
  end.

(** ** LeafKVMeta *)
Record LeafKVMeta := mkLeafKVMeta {
  offset : Z;
  op_type_key_len_in_byte : Z;
  ref_value_len_in_byte : Z;
  preview_bytes : bytes;
}.

Definition clear_ref (m : LeafKVMeta) : LeafKVMeta :=
  mkLeafKVMeta (offset m) (op_type_key_len_in_byte m)
    (Z.land (ref_value_len_in_byte m) (not16 REF_BIT_MASK)) (preview_bytes m).

Definition mark_as_ref (m : LeafKVMeta) : LeafKVMeta :=
  mkLeafKVMeta (offset m) (op_type_key_len_in_byte m)
    (Z.lor (ref_value_len_in_byte m) REF_BIT_MASK) (preview_bytes m).

Definition is_referenced (m : LeafKVMeta) : bool :=
  flag_set (ref_value_len_in_byte m) REF_BIT_MASK.

(** The first two bytes of the key after the prefix, zero padded. *)
Definition preview_of (key : bytes) (prefix_len : Z) : bytes :=
  let p := take 2 (drop (Z.to_nat prefix_len) key) in
  p ++ replicate (2 - length p) 0.

Definition make_prefixed_meta (off value_len : Z) (key : bytes) (prefix_len : Z)
    (op_type : OpType) : LeafKVMeta :=
  clear_ref (mkLeafKVMeta off
    (Z.lor (as_u16 (zlen key)) (Z.shiftl (op_u8 op_type) OP_TYPE_SHIFT))
    value_len (preview_of key prefix_len)).

Definition make_infinite_high_fence_key : LeafKVMeta := mkLeafKVMeta 65535 0 0 [0; 0].
Definition make_infinite_low_fence_key : LeafKVMeta := mkLeafKVMeta (65535 - 1) 0 0 [0; 0].
Definition is_infinite_low_fence_key (m : LeafKVMeta) : bool := offset m =? 65535 - 1.
Definition is_infinite_high_fence_key (m : LeafKVMeta) : bool := offset m =? 65535.

Definition value_len (m : LeafKVMeta) : Z := Z.land (ref_value_len_in_byte m) VALUE_LEN_MASK.

Definition set_value_len (m : LeafKVMeta) (v : Z) : LeafKVMeta :=
  mkLeafKVMeta (offset m) (op_type_key_len_in_byte m)
    (Z.lor (Z.land (ref_value_len_in_byte m) (not16 VALUE_LEN_MASK)) (Z.land v VALUE_LEN_MASK))
    (preview_bytes m).

Definition get_key_len (m : LeafKVMeta) : Z := Z.land (op_type_key_len_in_byte m) KEY_LEN_MASK.

Definition set_op_type (m : LeafKVMeta) (o : OpType) : LeafKVMeta :=
  mkLeafKVMeta (offset m) (Z.lor (get_key_len m) (Z.shiftl (op_u8 o) OP_TYPE_SHIFT))
    (ref_value_len_in_byte m) (preview_bytes m).

Definition op_type (m : LeafKVMeta) : outcome OpType :=
  op_of_u8 (Z.shiftr (op_type_key_len_in_byte m) OP_TYPE_SHIFT).

Definition mark_as_deleted (m : LeafKVMeta) : LeafKVMeta := set_op_type m OpDelete.

Definition set_offset (m : LeafKVMeta) (o : Z) : LeafKVMeta :=
  mkLeafKVMeta o (op_type_key_len_in_byte m) (ref_value_len_in_byte m) (preview_bytes m).

(** The [repr(C)] layout of a descriptor, little endian. *)
Definition encode_meta (m : LeafKVMeta) : bytes :=
  le_bytes 2 (offset m) ++ le_bytes 2 (op_type_key_len_in_byte m) ++
  le_bytes 2 (ref_value_len_in_byte m) ++ preview_bytes m.

Definition decode_meta (b : bytes) : LeafKVMeta :=
  mkLeafKVMeta (le_val (sub_bytes b 0 2)) (le_val (sub_bytes b 2 2))
    (le_val (sub_bytes b 4 2)) (sub_bytes b 6 2).

(** ** Packed descriptors: the arithmetic reading of the bit operations *)
Definition pack (off klen : Z) (o : OpType) (vlen : Z) (r : bool) (pv : bytes) : LeafKVMeta :=
  mkLeafKVMeta off (op_u8 o * 2 ^ 14 + klen) (Z.b2z r * 2 ^ 15 + vlen) pv.

Definition pack_ok (off klen vlen : Z) (pv : bytes) : Prop :=
  0 <= off < U16 ∧ 0 <= klen < 2 ^ 14 ∧ 0 <= vlen < 2 ^ 15 ∧ length pv = 2%nat ∧ bytes_ok pv.

Section packed.
Context (off klen : Z) (o : OpType) (vlen : Z) (r : bool) (pv : bytes).
Hypothesis Hok : pack_ok off klen vlen pv.

Lemma op_u8_range : 0 <= op_u8 o < 4.
Proof. destruct o; cbn; lia. Qed.

Lemma op_of_u8_u8 : op_of_u8 (op_u8 o) = Ret o.
Proof. by destruct o. Qed.

Lemma pack_key_len : get_key_len (pack off klen o vlen r pv) = klen.
Proof.
  destruct Hok as (_ & Hk & _). unfold get_key_len. cbn [op_type_key_len_in_byte pack].
  change KEY_LEN_MASK with (2 ^ 14 - 1). rewrite land_low by lia.
  rewrite Z.add_comm, Z_mod_plus_full. by apply Z.mod_small.
Qed.

Lemma pack_op : op_type (pack off klen o vlen r pv) = Ret o.
Proof.
  destruct Hok as (_ & Hk & _). unfold op_type. cbn [op_type_key_len_in_byte pack].
  rewrite Z.shiftr_div_pow2 by (unfold OP_TYPE_SHIFT; lia).
  change (2 ^ OP_TYPE_SHIFT) with (2 ^ 14).
  rewrite Z.div_add_l, Z.div_small, Z.add_0_r by lia. apply op_of_u8_u8.
Qed.

Lemma pack_value_len : value_len (pack off klen o vlen r pv) = vlen.
Proof.
  destruct Hok as (_ & _ & Hv & _). unfold value_len. cbn [ref_value_len_in_byte pack].
  change VALUE_LEN_MASK with (2 ^ 15 - 1). rewrite land_low by lia.
  rewrite Z.add_comm, Z_mod_plus_full. by apply Z.mod_small.
Qed.

Lemma pack_referenced : is_referenced (pack off klen o vlen r pv) = r.
Proof.
  destruct Hok as (_ & _ & Hv & _). unfold is_referenced. cbn [ref_value_len_in_byte pack].
  rewrite (flag_set_testbit _ 15), testbit_div by lia.
  rewrite Z.div_add_l, Z.div_small, Z.add_0_r by lia. by destruct r.
Qed.

Lemma pack_set_op o' :
  set_op_type (pack off klen o vlen r pv) o' = pack off klen o' vlen r pv.
Proof.
  unfold set_op_type. rewrite pack_key_len. unfold pack. f_equal.
  destruct Hok as (_ & Hk & _). unfold OP_TYPE_SHIFT.
  rewrite Z.shiftl_mul_pow2 by lia. apply lor_low_comm; lia.
Qed.

Lemma pack_set_value_len v :
  0 <= v < 2 ^ 15 →
  set_value_len (pack off klen o vlen r pv) v = pack off klen o v r pv.
Proof.
  intros Hv'. destruct Hok as (_ & _ & Hv & _).
  unfold set_value_len. unfold pack. f_equal. cbn [ref_value_len_in_byte].
  change (not16 VALUE_LEN_MASK) with (2 ^ 16 - 2 ^ 15).
  change VALUE_LEN_MASK with (2 ^ 15 - 1).
  rewrite land_low, Z.mod_small by lia.
  rewrite land_high by (destruct r; cbn; lia).
  rewrite Z.div_add_l, Z.div_small, Z.add_0_r by lia. by apply lor_low.
Qed.

Lemma pack_mark_as_ref :
  mark_as_ref (pack off klen o vlen r pv) = pack off klen o vlen true pv.
Proof.
  destruct Hok as (_ & _ & Hv & _). unfold mark_as_ref, pack. f_equal.
  cbn [ref_value_len_in_byte]. change REF_BIT_MASK with (2 ^ 15).
  rewrite <- lor_low by lia.
  rewrite <- Z.lor_assoc, (Z.lor_comm vlen), Z.lor_assoc.
  rewrite <- (lor_low (Z.b2z true)) by lia. f_equal. by destruct r.
Qed.

Lemma pack_set_offset o' :
  set_offset (pack off klen o vlen r pv) o' = pack o' klen o vlen r pv.
Proof. done. Qed.

Lemma zlen_encode_pack : zlen (encode_meta (pack off klen o vlen r pv)) = KV_META_SIZE.
Proof.
  destruct Hok as (_ & _ & _ & Hp & _). unfold encode_meta, zlen.
  rewrite !length_app, !length_le_bytes. cbn [preview_bytes pack]. by rewrite Hp.
Qed.

Lemma bytes_ok_encode_pack : bytes_ok (encode_meta (pack off klen o vlen r pv)).
Proof.
  destruct Hok as (_ & _ & _ & _ & Hp). unfold encode_meta, bytes_ok.
  rewrite !Forall_app. split_and!; auto using bytes_ok_le.
  all: apply bytes_ok_le.
Qed.

(** Writing a descriptor and reading it back. *)
Lemma decode_encode_pack :
  decode_meta (encode_meta (pack off klen o vlen r pv)) = pack off klen o vlen r pv.
Proof.
  destruct Hok as (Ho & Hk & Hv & Hp & _). pose proof op_u8_range.
  set (m := pack _ _ _ _ _ _).
  assert (∀ f, 0 <= f < U16 → ∃ a b, le_bytes 2 f = [a; b] ∧ le_val [a; b] = f) as Hf.
  { intros f Hr. do 2 eexists. split; [reflexivity|]. apply (le_val_bytes 2). cbn. exact Hr. }
  destruct (Hf (offset m)) as (a1 & b1 & E1 & V1); [done|].
  destruct (Hf (op_type_key_len_in_byte m)) as (a2 & b2 & E2 & V2);
    [unfold m, U16; cbn [op_type_key_len_in_byte pack]; lia|].
  destruct (Hf (ref_value_len_in_byte m)) as (a3 & b3 & E3 & V3);
    [unfold m, U16; cbn [ref_value_len_in_byte pack]; destruct r; cbn [Z.b2z]; lia|].
  unfold decode_meta, encode_meta. rewrite E1, E2, E3.
  change (preview_bytes m) with pv. destruct pv as [|p1 [|p2 []]]; try done.
  cbn [app]. set (l := a1 :: _).
  change (sub_bytes l 0 2) with [a1; b1]. change (sub_bytes l 2 2) with [a2; b2].
  change (sub_bytes l 4 2) with [a3; b3]. change (sub_bytes l 6 2) with [p1; p2].
  by rewrite V1, V2, V3.
Qed.
End packed.

Lemma preview_length key pl : length (preview_of key pl) = 2%nat.
Proof.
  unfold preview_of. rewrite length_app, length_replicate, length_take. lia.
Qed.

Lemma bytes_ok_preview key pl : bytes_ok key → bytes_ok (preview_of key pl).
Proof.
  intros H. apply Forall_app_2; [by apply Forall_take, Forall_drop|].
  apply Forall_replicate. unfold byte_ok. lia.
Qed.

(** The preview of a key starts with the key's first bytes after the prefix. *)
Lemma preview_take key pl k :
  (k <= 2)%nat → (k <= length key - Z.to_nat pl)%nat →
  take k (preview_of key pl) = take k (drop (Z.to_nat pl) key).
Proof.
  intros H2 Hk. unfold preview_of.
  rewrite take_app_le by (rewrite length_take, length_drop; lia).
  rewrite take_take. f_equal. lia.
Qed.

Lemma make_prefixed_meta_pack off vlen key pl o :
  zlen key < 2 ^ 14 → 0 <= vlen < 2 ^ 15 →
  make_prefixed_meta off vlen key pl o = pack off (zlen key) o vlen false (preview_of key pl).
Proof.
  intros Hk Hv. pose proof (zlen_nonneg key). unfold make_prefixed_meta, clear_ref, pack.
  cbn [ref_value_len_in_byte]. f_equal.
  - rewrite as_u16_id by (unfold U16; lia). unfold OP_TYPE_SHIFT.
    cbn [op_type_key_len_in_byte]. rewrite Z.shiftl_mul_pow2 by lia. apply lor_low_comm; lia.
  - change (not16 REF_BIT_MASK) with (2 ^ 15 - 1). rewrite land_low by lia.
    by rewrite Z.mod_small.
Qed.

Lemma pack_ok_prefixed off vlen key pl :
  0 <= off < U16 → zlen key < 2 ^ 14 → 0 <= vlen < 2 ^ 15 → bytes_ok key →
  pack_ok off (zlen key) vlen (preview_of key pl).
Proof.
  intros. pose proof (zlen_nonneg key).
  repeat split; try lia; auto using preview_length, bytes_ok_preview.
Qed.

(** ** The common prefix of two keys *)
Lemma common_prefix_len_bound a b :
  0 <= common_prefix_len a b ∧ common_prefix_len a b <= zlen a ∧ common_prefix_len a b <= zlen b.
Proof.
  revert b. induction a as [|x a IH]; intros [|y b]; cbn [common_prefix_len];
    rewrite ?zlen_cons, ?zlen_nil; try (pose proof (zlen_nonneg a); pose proof (zlen_nonneg b));
    try (unfold zlen; lia).
  specialize (IH b). destruct (x =? y); lia.
Qed.

Lemma common_prefix_take a b :
  take (Z.to_nat (common_prefix_len a b)) a = take (Z.to_nat (common_prefix_len a b)) b.
Proof.
  revert b. induction a as [|x a IH]; intros [|y b]; cbn [common_prefix_len]; try done.
  zcase (x =? y); [|done]. subst.
  pose proof (common_prefix_len_bound a b).
  replace (Z.to_nat (1 + common_prefix_len a b)) with (S (Z.to_nat (common_prefix_len a b))) by lia.
  cbn. f_equal. apply IH.
Qed.
