(* ===== verification/LeafNode.v ===== *)
(** The leaf page (src/nodes/leaf_node.rs): header, descriptor array and record
    heap of one page, on the bytes of the page.

    [data] is the byte array behind the header.  Descriptors grow from its start,
    8 bytes each; records grow from its end.  Every read and write of the source
    is a read or a write of these bytes. *)
From stdpp Require Import base numbers list.
From Stdlib Require Import ZArith Lia.
From S2P Require Import Prelude Bits NodeMeta LeafMeta.

Definition USIZE_MAX : Z := 2 ^ 64 - 1.

(** [MiniPageNextLevel]: a disk offset, or [usize::MAX] for none. *)
Definition next_level_null : Z := USIZE_MAX.
Definition next_level_is_null (v : Z) : bool := v =? USIZE_MAX.
Definition as_offset (v : Z) : outcome Z := _ ← assert_ (negb (next_level_is_null v)); Ret v.

(** [size_of::<LeafNode>()], checked by a constant assertion of the source. *)
Definition LEAF_HEADER : Z := 32.

Record LeafNode := mkLeafNode {
  meta : NodeMeta;
  prefix_len : Z;
  next_level : Z;
  lsn : Z;
  snapshot_version : Z;
  data : bytes;
}.

Definition set_meta (n : LeafNode) (m : NodeMeta) : LeafNode :=
  mkLeafNode m (prefix_len n) (next_level n) (lsn n) (snapshot_version n) (data n).
Definition set_data (n : LeafNode) (d : bytes) : LeafNode :=
  mkLeafNode (meta n) (prefix_len n) (next_level n) (lsn n) (snapshot_version n) d.
Definition set_snapshot (n : LeafNode) (v : Z) : LeafNode :=
  mkLeafNode (meta n) (prefix_len n) (next_level n) (lsn n) v (data n).

Definition max_data_size (size : Z) : outcome Z := subu size LEAF_HEADER.

Definition count (n : LeafNode) : Z := meta_count_with_fence (meta n).

Definition leaf_has_fence (n : LeafNode) : bool := has_fence (meta n).

Definition first_meta_pos_after_fence (n : LeafNode) : Z :=
  if leaf_has_fence n then FENCE_KEY_CNT else 0.

Definition is_base_page (n : LeafNode) : bool :=
  negb (is_cache_only_leaf (meta n)) && next_level_is_null (next_level n).

(** ** Descriptor access *)
Definition get_kv_meta (n : LeafNode) (index : Z) : outcome LeafKVMeta :=
  _ ← assert_ ((0 <=? index) && (index <? count n));
  raw ← slice (data n) (KV_META_SIZE * index) KV_META_SIZE;
  Ret (decode_meta raw).

Definition write_initial_kv_meta (n : LeafNode) (index : Z) (m : LeafKVMeta) : outcome LeafNode :=
  d ← blit (data n) (KV_META_SIZE * index) (encode_meta m);
  Ret (set_data n d).

(** [get_kv_meta_mut] followed by a mutation of the descriptor. *)
Definition update_kv_meta (n : LeafNode) (index : Z) (f : LeafKVMeta → LeafKVMeta) :
    outcome LeafNode :=
  m ← get_kv_meta n index; write_initial_kv_meta n index (f m).

(** [LeafMetaIter]: the descriptors after the fences, in order. *)
Definition meta_positions (n : LeafNode) : list Z :=
  seqZ (first_meta_pos_after_fence n) (count n - first_meta_pos_after_fence n).

Definition meta_iter (n : LeafNode) : outcome (list LeafKVMeta) :=
  mapM (get_kv_meta n) (meta_positions n).

(** ** Keys and values *)
Definition get_prefix (n : LeafNode) : outcome bytes :=
  m ← get_kv_meta n LOW_FENCE_IDX;
  raw_read (data n) (offset m) (prefix_len n).

Definition get_remaining_key (n : LeafNode) (m : LeafKVMeta) : outcome bytes :=
  len ← subu (get_key_len m) (prefix_len n);
  raw_read (data n) (offset m) len.

Definition get_full_key (n : LeafNode) (m : LeafKVMeta) : outcome bytes :=
  prefix ← get_prefix n;
  remaining ← get_remaining_key n m;
  Ret (prefix ++ remaining).

Definition get_low_fence_full_key (n : LeafNode) : outcome bytes :=
  m ← get_kv_meta n LOW_FENCE_IDX;
  raw_read (data n) (offset m) (get_key_len m).

Definition get_value (n : LeafNode) (m : LeafKVMeta) : outcome bytes :=
  o1 ← add16 (offset m) (get_key_len m);
  val_offset ← subu o1 (prefix_len n);
  raw_read (data n) val_offset (value_len m).

Definition get_low_fence_key (n : LeafNode) : outcome bytes :=
  _ ← assert_ (leaf_has_fence n);
  m ← get_kv_meta n LOW_FENCE_IDX;
  if is_infinite_low_fence_key m then Ret []
  else raw_read (data n) (offset m) (get_key_len m).

Definition get_high_fence_key (n : LeafNode) : outcome bytes :=
  _ ← assert_ (leaf_has_fence n);
  m ← get_kv_meta n HIGH_FENCE_IDX;
  if is_infinite_high_fence_key m then Ret [] else get_full_key n m.

Definition get_key_to_reach_this_node (n : LeafNode) : outcome bytes :=
  m ← get_kv_meta n (first_meta_pos_after_fence n);
  get_full_key n m.

(** ** Space accounting *)

(** One round of the debug sanity check of [current_lowest_offset]. *)
Definition min_offset_step (n : LeafNode) (min_offset i : Z) : outcome Z :=
  m ← get_kv_meta n i;
  if is_infinite_low_fence_key m || is_infinite_high_fence_key m then Ret min_offset
  else Ret (Z.min min_offset (offset m)).

Definition current_lowest_offset (n : LeafNode) : outcome Z :=
  let value_count := count n in
  metas ← mul16 value_count KV_META_SIZE;
  rt ← add16 metas (remaining_size (meta n));
  top ← max_data_size (node_size (meta n));
  min_offset ← foldM (min_offset_step n) (as_u16 top) (seqZ 0 value_count);
  _ ← assert_ (min_offset =? rt);
  Ret rt.

Definition full_with_fences (n : LeafNode) (requested_size max_fence_len : Z) : outcome bool :=
  if remaining_size (meta n) <? requested_size then Ret true
  else if leaf_has_fence n then
    let empty0 := remaining_size (meta n) in
    low ← get_kv_meta n LOW_FENCE_IDX;
    empty1 ← (if negb (is_infinite_low_fence_key low)
              then add16 empty0 (get_key_len low) else Ret empty0);
    high ← get_kv_meta n HIGH_FENCE_IDX;
    empty2 ← (if negb (is_infinite_high_fence_key high)
              then add16 empty1 (get_key_len high) else Ret empty1);
    need ← add16 requested_size (as_u16 max_fence_len);
    Ret (negb (need <=? empty2))
  else Ret false.

(** ** Initialisation *)
Definition set_remaining_size (n : LeafNode) (r : Z) : LeafNode :=
  set_meta n (set_remaining (meta n) r).

(** [self.meta.increment_value_count()] *)
Definition bump_count (n : LeafNode) : outcome LeafNode :=
  m ← increment_value_count (meta n); Ret (set_meta n m).

Definition install_fence_key (n : LeafNode) (key : bytes) (is_high_fence : bool) :
    outcome LeafNode :=
  let loc := count n in
  _ ← assert_ (loc =? (if is_high_fence then HIGH_FENCE_IDX else LOW_FENCE_IDX));
  cur_low_offset ← current_lowest_offset n;
  n1 ← bump_count n;
  r1 ← subu (remaining_size (meta n1)) KV_META_SIZE;
  let n2 := set_remaining_size n1 r1 in
  if zlen key =? 0 then
    write_initial_kv_meta n2 loc
      (if is_high_fence then make_infinite_high_fence_key else make_infinite_low_fence_key)
  else
    let plen := if is_high_fence then prefix_len n2 else 0 in
    post_fix_len ← subu (as_u16 (zlen key)) plen;
    let kv_len := post_fix_len + 0 in
    _ ← assert_ (kv_len <=? remaining_size (meta n2));
    off ← subu cur_low_offset kv_len;
    n3 ← write_initial_kv_meta n2 loc (make_prefixed_meta off 0 key plen OpInsert);
    suffix ← slice_from key plen;
    d ← blit (data n3) off (take (Z.to_nat post_fix_len) suffix);
    r2 ← subu (remaining_size (meta n3)) kv_len;
    Ret (set_remaining_size (set_data n3 d) r2).

Definition LEAF_SNAPSHOT_VERSION_CHANGED_FLAG : Z := 0x8000000000000000.
Definition LEAF_SNAPSHOT_VERSION_MASK : Z := 0x7FFFFFFFFFFFFFFF.

Definition initialize (n : LeafNode) (low_fence high_fence : bytes) (size next : Z)
    (fence cache_only : bool) (version : Z) : outcome LeafNode :=
  let n0 := set_snapshot n (Z.land version LEAF_SNAPSHOT_VERSION_MASK) in
  top ← max_data_size size;
  if negb fence then
    _ ← assert_ (zlen low_fence =? 0);
    _ ← assert_ (zlen high_fence =? 0);
    m ← NodeMeta_new (as_u16 top) false false (as_u16 size) cache_only;
    Ret (mkLeafNode m 0 next (lsn n0) (snapshot_version n0) (data n0))
  else
    m ← NodeMeta_new (as_u16 top) false true (as_u16 size) cache_only;
    let n1 := mkLeafNode m (common_prefix_len low_fence high_fence) next
                (lsn n0) (snapshot_version n0) (data n0) in
    n2 ← install_fence_key n1 low_fence false;
    install_fence_key n2 high_fence true.

(** The memory of a new page: the header is overwritten, the rest is whatever the
    allocator returned. *)
Definition uninit_page (mem : bytes) : LeafNode :=
  mkLeafNode (mkNodeMeta 0 0 0) 0 0 0 0 mem.

Definition initialize_mini_page (mem : LeafNode) (size next : Z) (cache_only : bool)
    (version : Z) : outcome LeafNode :=
  initialize mem [] [] size next false cache_only version.

Definition make_base_page (mem : bytes) (size version : Z) : outcome LeafNode :=
  initialize (uninit_page mem) [] [] size next_level_null true false version.

(** ** Search *)

(** The preview comparison of [lower_bound] and [key_cmp]: compare the preview
    bytes, and the stored key only when they agree. *)
Definition key_cmp (n : LeafNode) (m : LeafKVMeta) (key : bytes) : outcome comparison :=
  search_key_postfix ← slice_from key (prefix_len n);
  let search_key_prefix := take (Z.to_nat (Z.min (zlen key - prefix_len n) PREVIEW_SIZE))
                             search_key_postfix in
  rest ← subu (get_key_len m) (prefix_len n);
  prefix_key ← slice_to (preview_bytes m) (Z.min PREVIEW_SIZE rest);
  match cmp_bytes prefix_key search_key_prefix with
  | Eq =>
      full_key ← get_remaining_key n m;
      Ret (cmp_bytes full_key search_key_postfix)
  | c => Ret c
  end.

Fixpoint linear_search (n : LeafNode) (key : bytes) (index : Z) (fuel : nat) : outcome Z :=
  match fuel with
  | O => Panic
  | S fuel' =>
      if index <? count n then
        m ← get_kv_meta n index;
        c ← key_cmp n m key;
        match c with Lt => linear_search n key (index + 1) fuel' | _ => Ret index end
      else Ret index
  end.

Definition linear_lower_bound (n : LeafNode) (key : bytes) : outcome Z :=
  _ ← assert_ (prefix_len n <=? zlen key);
  linear_search n key (first_meta_pos_after_fence n) (S (Z.to_nat (count n))).

Fixpoint binary_search (n : LeafNode) (key : bytes) (lower upper : Z) (fuel : nat) : outcome Z :=
  match fuel with
  | O => Panic
  | S fuel' =>
      if lower <? upper then
        let mid := lower + (upper - lower) / 2 in
        m ← get_kv_meta n mid;
        c ← key_cmp n m key;
        match c with
        | Gt => binary_search n key lower mid fuel'
        | Eq => Ret mid
        | Lt => binary_search n key (mid + 1) upper fuel'
        end
      else Ret lower
  end.

Definition lower_bound (n : LeafNode) (key : bytes) : outcome Z :=
  _ ← slice_from key (prefix_len n);
  binary_search n key (first_meta_pos_after_fence n) (count n) (S (Z.to_nat (count n))).

(** ** Insertion *)

(** [pos_key.cmp(search_key_postfix) == Equal] for a descriptor at [pos]. *)
Definition key_at_equals (n : LeafNode) (pos : Z) (key : bytes) : outcome bool :=
  if pos <? count n then
    m ← get_kv_meta n pos;
    pos_key ← get_remaining_key n m;
    search_key_postfix ← slice_from key (prefix_len n);
    Ret (match cmp_bytes pos_key search_key_postfix with Eq => true | _ => false end)
  else Ret false.

(** The key exists: mark it deleted, overwrite its value in place, or move the
    record to fresh space when the new value is longer. *)
Definition insert_existing (n : LeafNode) (pos : Z) (key value : bytes) (op : OpType) :
    outcome (bool * LeafNode) :=
  if op_eqb op OpDelete then
    n' ← update_kv_meta n pos mark_as_deleted; Ret (true, n')
  else
    post_fix_len ← subu (as_u16 (zlen key)) (prefix_len n);
    let val_len := as_u16 (zlen value) in
    kv_len ← add16 post_fix_len val_len;
    pos_meta ← get_kv_meta n pos;
    pos_value ← get_value n pos_meta;
    if val_len <=? as_u16 (zlen pos_value) then
      d ← blit (data n) (offset pos_meta + post_fix_len) (take (Z.to_nat val_len) value);
      n' ← update_kv_meta (set_data n d) pos (λ m, set_op_type (set_value_len m val_len) op);
      Ret (true, n')
    else if remaining_size (meta n) <? kv_len then Ret (false, n)
    else
      _ ← assert_ (negb (op_eqb op OpCache));
      low ← current_lowest_offset n;
      off ← subu low kv_len;
      n1 ← update_kv_meta n pos
             (λ m, set_offset (set_op_type (set_value_len m val_len) op) off);
      suffix ← slice_from key (prefix_len n);
      d1 ← blit (data n1) off (take (Z.to_nat post_fix_len) suffix);
      d2 ← blit d1 (off + post_fix_len) (take (Z.to_nat val_len) value);
      r ← subu (remaining_size (meta n1)) kv_len;
      Ret (true, set_remaining_size (set_data n1 d2) r).

(** The key is new: shift the descriptors after [pos], write the new descriptor and
    the record below the lowest record. *)
Definition insert_new (n : LeafNode) (pos : Z) (key value : bytes) (op : OpType) :
    outcome LeafNode :=
  post_fix_len ← subu (as_u16 (zlen key)) (prefix_len n);
  let val_len := as_u16 (zlen value) in
  kv_len ← add16 post_fix_len val_len;
  low ← current_lowest_offset n;
  off ← subu low kv_len;
  let new_meta := make_prefixed_meta off val_len key (prefix_len n) op in
  moved ← subu (count n) pos;
  src ← slice (data n) (pos * KV_META_SIZE) (KV_META_SIZE * moved);
  d1 ← blit (data n) ((pos + 1) * KV_META_SIZE) src;
  n1 ← write_initial_kv_meta (set_data n d1) pos new_meta;
  suffix ← slice_from key (prefix_len n);
  d2 ← blit (data n1) off (take (Z.to_nat post_fix_len) suffix);
  d3 ← blit d2 (off + post_fix_len) (take (Z.to_nat val_len) value);
  used ← add16 kv_len KV_META_SIZE;
  r ← subu (remaining_size (meta n1)) used;
  bump_count (set_remaining_size (set_data n1 d3) r).

Definition insert (n : LeafNode) (key value : bytes) (op : OpType) (max_fence_len : Z) :
    outcome (bool * LeafNode) :=
  _ ← assert_ (prefix_len n <=? as_u16 (zlen key));
  _ ← assert_ (match op with
               | OpInsert | OpCache => negb (zlen value =? 0)
               | OpDelete | OpPhantom => true
               end);
  post_fix_len ← subu (as_u16 (zlen key)) (prefix_len n);
  kv_len ← add16 post_fix_len (as_u16 (zlen value));
  pos ← lower_bound n key;
  exists_ ← key_at_equals n pos key;
  if exists_ : bool then insert_existing n pos key value op
  else if op_eqb op OpDelete && is_base_page n then Ret (true, n)
  else
    required ← add16 kv_len KV_META_SIZE;
    full ← full_with_fences n required max_fence_len;
    if full : bool then Ret (false, n)
    else n' ← insert_new n pos key value op; Ret (true, n').

(** ** Reading *)
Inductive LeafReadResult :=
| Deleted
| NotFound
| Found (len : Z)
| InvalidKey.

(** [out_buffer[..len].copy_from_slice(v)] *)
Definition copy_to_buffer (out_buffer v : bytes) : outcome bytes :=
  if zlen v <=? zlen out_buffer then Ret (v ++ drop (length v) out_buffer) else Panic.

Definition read_by_key_inner (n : LeafNode) (search_key out_buffer : bytes)
    (use_binary_search : bool) : outcome (LeafReadResult * LeafNode * bytes) :=
  let val_count := count n in
  pos ← (if use_binary_search then lower_bound n search_key else linear_lower_bound n search_key);
  if val_count <=? pos then Ret (NotFound, n, out_buffer)
  else
    kv_meta ← get_kv_meta n pos;
    target_key ← get_remaining_key n kv_meta;
    n' ← (if negb (is_referenced kv_meta) then update_kv_meta n pos mark_as_ref else Ret n);
    input_post_key ← slice_from search_key (prefix_len n);
    match cmp_bytes target_key input_post_key with
    | Eq =>
        op ← op_type kv_meta;
        if is_absent op then Ret (Deleted, n', out_buffer)
        else
          val_ref ← get_value n kv_meta;
          out ← copy_to_buffer out_buffer val_ref;
          Ret (Found (value_len kv_meta), n', out)
    | _ => Ret (NotFound, n', out_buffer)
    end.

Definition read_by_key (n : LeafNode) (search_key out_buffer : bytes) :=
  read_by_key_inner n search_key out_buffer true.
