(* ===== verification/LeafOps.v ===== *)
(** The operations that rebuild leaf pages (src/nodes/leaf_node.rs): record type
    conversion, consolidation, copying, merging a mini page into a base page, and
    splitting, with the size computations that drive them. *)
From stdpp Require Import base numbers list.
From Stdlib Require Import ZArith Lia.
From S2P Require Import Prelude NodeMeta LeafMeta LeafNode.

(** ** Snapshot version word of a page *)
Definition get_clean_snapshot_version (n : LeafNode) : Z :=
  Z.land (snapshot_version n) LEAF_SNAPSHOT_VERSION_MASK.

Definition set_snapshot_version (n : LeafNode) (version : Z) (mark_changed : bool) : LeafNode :=
  let next_version := Z.land version LEAF_SNAPSHOT_VERSION_MASK in
  if negb mark_changed then set_snapshot n next_version
  else set_snapshot n (Z.lor next_version LEAF_SNAPSHOT_VERSION_CHANGED_FLAG).

Definition is_snapshot_version_changed (n : LeafNode) : bool :=
  negb (Z.land (snapshot_version n) LEAF_SNAPSHOT_VERSION_CHANGED_FLAG =? 0).

Definition set_snapshot_version_changed_flag (n : LeafNode) : LeafNode :=
  set_snapshot n (Z.lor (snapshot_version n) LEAF_SNAPSHOT_VERSION_CHANGED_FLAG).

Definition clear_snapshot_version_changed_flag (n : LeafNode) : LeafNode :=
  set_snapshot n (Z.land (snapshot_version n) LEAF_SNAPSHOT_VERSION_MASK).

Definition leaf_set_split_flag (n : LeafNode) : LeafNode := set_meta n (set_split_flag (meta n)).
Definition leaf_get_split_flag (n : LeafNode) : bool := get_split_flag (meta n).

(** ** Record type conversion *)

(** One round of a loop that rewrites the operation type of the record at [cur]. *)
Definition convert_step (f : OpType → outcome OpType) (n : LeafNode) (cur : Z) : outcome LeafNode :=
  m ← get_kv_meta n cur;
  op ← op_type m;
  op' ← f op;
  if op_eqb op op' then Ret n else write_initial_kv_meta n cur (set_op_type m op').

Definition to_cache (op : OpType) : outcome OpType :=
  match op with
  | OpInsert => Ret OpCache
  | OpDelete => Ret OpPhantom
  | OpCache | OpPhantom => Panic
  end.

Definition to_insert (op : OpType) : outcome OpType :=
  match op with
  | OpCache => Ret OpInsert
  | OpPhantom => Ret OpDelete
  | OpInsert | OpDelete => Ret op
  end.

Definition covert_insert_records_to_cache (n : LeafNode) : outcome LeafNode :=
  foldM (convert_step to_cache) n (meta_positions n).

Definition convert_cache_records_to_insert (n : LeafNode) : outcome LeafNode :=
  foldM (convert_step to_insert) n (meta_positions n).

(** ** Consolidation *)

(** The pairs copied out of the page before it is reset. *)
Definition collect_pair (n : LeafNode) (skip_tombstone : bool) (skip_key : option bytes)
    (m : LeafKVMeta) : outcome (list (bytes * bytes * OpType)) :=
  op ← op_type m;
  if skip_tombstone && op_eqb op OpDelete then Ret []
  else
    k ← get_full_key n m;
    match skip_key with
    | Some s_k =>
        match cmp_bytes s_k k with
        | Eq => Ret []
        | _ => v ← get_value n m; Ret [(k, v, op)]
        end
    | None => v ← get_value n m; Ret [(k, v, op)]
    end.

Definition collect_pairs (n : LeafNode) (skip_tombstone : bool) (skip_key : option bytes) :
    outcome (list (bytes * bytes * OpType)) :=
  metas ← meta_iter n;
  pairs ← mapM (collect_pair n skip_tombstone skip_key) metas;
  Ret (concat pairs).

(** [let rt = self.insert(..); assert!(rt);] *)
Definition insert_or_panic (n : LeafNode) (key value : bytes) (op : OpType) : outcome LeafNode :=
  rt ← insert n key value op 0;
  _ ← assert_ rt.1;
  Ret rt.2.

Definition reinsert (new_optype : OpType) (n : LeafNode) (p : bytes * bytes * OpType) :
    outcome LeafNode :=
  let '(key, value, op) := p in
  insert_or_panic n key value (if op_eqb op OpDelete then OpDelete else new_optype).

Definition consolidate_inner (n : LeafNode) (new_optype : OpType) (new_high_fence : option bytes)
    (skip_tombstone cache_only : bool) (skip_key : option bytes) (version : Z) :
    outcome LeafNode :=
  pairs ← collect_pairs n skip_tombstone skip_key;
  let fence := leaf_has_fence n in
  fences ← (if fence then
              high_fence ← match new_high_fence with
                           | None => get_high_fence_key n
                           | Some key => Ret key
                           end;
              low_fence ← get_low_fence_key n;
              Ret (low_fence, high_fence)
            else Ret ([], []));
  n1 ← initialize n fences.1 fences.2 (node_size (meta n)) (next_level n) fence cache_only version;
  foldM (reinsert new_optype) n1 pairs.

Definition consolidate (n : LeafNode) (version : Z) : outcome LeafNode :=
  consolidate_inner n OpInsert None true (is_cache_only_leaf (meta n)) None version.

Definition consolidate_after_merge (n : LeafNode) (version : Z) : outcome LeafNode :=
  _ ← assert_ (negb (is_base_page n));
  consolidate_inner n OpCache None false (is_cache_only_leaf (meta n)) None version.

Definition consolidate_after_split (n : LeafNode) (high_fence : bytes) (version : Z) :
    outcome LeafNode :=
  _ ← assert_ (is_cache_only_leaf (meta n) || is_base_page n);
  consolidate_inner n OpInsert (Some high_fence) true (is_cache_only_leaf (meta n)) None version.

Definition consolidate_skip_key (n : LeafNode) (key : bytes) (version : Z) : outcome LeafNode :=
  _ ← assert_ (negb (is_base_page n));
  _ ← assert_ (is_cache_only_leaf (meta n));
  consolidate_inner n OpInsert None true (is_cache_only_leaf (meta n)) (Some key) version.

(** ** Copying a mini page to a larger one *)
Definition copy_record (src : LeafNode) (discard_cold_cache : bool) (dst : LeafNode)
    (m : LeafKVMeta) : outcome LeafNode :=
  op ← op_type m;
  if discard_cold_cache && is_cache op && negb (is_referenced m) then Ret dst
  else
    value ← get_value src m;
    key ← get_full_key src m;
    insert_or_panic dst key value op.

Definition copy_initialize_to (n dst : LeafNode) (dst_size : Z) (discard_cold_cache : bool)
    (version : Z) : outcome LeafNode :=
  _ ← assert_ (negb (is_base_page n));
  _ ← assert_ (node_size (meta n) <=? dst_size);
  dst1 ← initialize dst [] [] dst_size (next_level n) false (is_cache_only_leaf (meta n)) version;
  metas ← meta_iter n;
  foldM (copy_record n discard_cold_cache) dst1 metas.

(** ** Size classes of mini pages *)

(** [iter().position(|x| size < x)] over all classes but the last. *)
Fixpoint first_larger (size : Z) (classes : list Z) : option (nat * Z) :=
  match classes with
  | [] => None
  | x :: rest =>
      if size <? x then Some (O, x)
      else match first_larger size rest with Some (i, y) => Some (S i, y) | None => None end
  end.

Definition get_chain_size_hint (key_len value_len : Z) (page_classes : list Z)
    (cache_only : bool) : outcome Z :=
  let initial_record_size := key_len + value_len + KV_META_SIZE + LEAF_HEADER in
  match last page_classes with
  | None => Panic
  | Some largest =>
      match first_larger initial_record_size (take (length page_classes - 1) page_classes) with
      | Some (_, s) => Ret s
      | None => if cache_only && (initial_record_size <=? largest) then Ret largest else Panic
      end
  end.

Definition new_size_if_upgrade (n : LeafNode) (incoming_size : Z) (page_classes : list Z)
    (cache_only : bool) : outcome (option Z) :=
  let request_size := node_size (meta n) + incoming_size in
  match last page_classes with
  | None => Panic
  | Some largest =>
      match first_larger request_size (take (length page_classes - 1) page_classes) with
      | Some (O, _) => Panic
      | Some (S _, s) => Ret (Some s)
      | None => if cache_only && (request_size <=? largest) then Ret (Some largest) else Ret None
      end
  end.

(** ** Merging a mini page into its base page *)
Fixpoint any_dirty (metas : list LeafKVMeta) : outcome bool :=
  match metas with
  | [] => Ret false
  | m :: rest => op ← op_type m; if is_dirty op then Ret true else any_dirty rest
  end.

Definition need_actually_merge_to_disk (n : LeafNode) : outcome bool :=
  metas ← meta_iter n; any_dirty metas.

Definition estimate_step (required_size : Z) (m : LeafKVMeta) : outcome Z :=
  op ← op_type m;
  if op_eqb op OpInsert then
    kv ← add16 (get_key_len m) (value_len m); Ret (required_size + (kv + KV_META_SIZE))
  else Ret required_size.

Definition estimate_merge_size (n : LeafNode) : outcome Z :=
  metas ← meta_iter n; foldM estimate_step 0 metas.

Definition merge_record (mini_page base : LeafNode) (m : LeafKVMeta) : outcome LeafNode :=
  c_key ← get_full_key mini_page m;
  c_type ← op_type m;
  if negb (is_dirty c_type) then Ret base
  else
    c_value ← get_value mini_page m;
    insert_or_panic base c_key c_value c_type.

Definition merge_mini_page (n mini_page : LeafNode) (max_fence_len : Z) :
    outcome (bool * LeafNode) :=
  size_required ← estimate_merge_size mini_page;
  full ← full_with_fences n (as_u16 size_required) max_fence_len;
  if full : bool then Ret (false, n)
  else
    let n1 := set_snapshot n (get_clean_snapshot_version mini_page) in
    metas ← meta_iter mini_page;
    n' ← foldM (merge_record mini_page) n1 metas;
    Ret (true, n').

(** ** Splitting *)
Definition record_size (m : LeafKVMeta) : outcome Z :=
  kv ← add16 (get_key_len m) (value_len m); add16 kv KV_META_SIZE.

Definition data_size_step (size : Z) (m : LeafKVMeta) : outcome Z :=
  s ← record_size m; add16 size s.

(** The second loop of [get_split_key], from record [i] on. *)
Fixpoint find_split (n : LeafNode) (cache_only : bool) (target cur_size : Z) (i : Z)
    (metas : list LeafKVMeta) : outcome (bytes * Z) :=
  match metas with
  | [] => Panic
  | m :: rest =>
      cur ← data_size_step cur_size m;
      if cache_only && (i =? 0) then find_split n cache_only target cur (i + 1) rest
      else if target <=? cur then key ← get_full_key n m; Ret (key, i)
      else find_split n cache_only target cur (i + 1) rest
  end.

Definition get_split_key (n : LeafNode) (cache_only : bool) : outcome (bytes * Z) :=
  metas ← meta_iter n;
  data_size ← foldM data_size_step 0 metas;
  find_split n cache_only (data_size / 2) 0 0 metas.

Fixpoint count_below (n : LeafNode) (key : bytes) (cnt : Z) (metas : list LeafKVMeta) : outcome Z :=
  match metas with
  | [] => Ret cnt
  | m :: rest =>
      k ← get_full_key n m;
      match cmp_bytes k key with Lt => count_below n key (cnt + 1) rest | _ => Ret cnt end
  end.

Definition get_kv_num_below_key (n : LeafNode) (merge_split_key : bytes) : outcome Z :=
  metas ← meta_iter n; count_below n merge_split_key 0 metas.

(** One round of the loop that moves records to the right sibling. *)
Definition move_record (n : LeafNode) (sibling : LeafNode) (i : Z) : outcome LeafNode :=
  m ← get_kv_meta n i;
  op ← op_type m;
  if op_eqb op OpDelete then Ret sibling
  else
    key ← get_full_key n m;
    value ← get_value n m;
    insert_or_panic sibling key value OpInsert.

Definition check_split_target (n : LeafNode) (cache_only : bool) : outcome unit :=
  if cache_only then assert_ (is_cache_only_leaf (meta n) && negb (leaf_has_fence n))
  else assert_ (is_base_page n && leaf_has_fence n).

Definition right_high_fence (n : LeafNode) : outcome bytes :=
  m ← get_kv_meta n HIGH_FENCE_IDX;
  if is_infinite_high_fence_key m then Ret [] else get_full_key n m.

Definition init_sibling (sibling : LeafNode) (low high : bytes) (cache_only : bool) (version : Z) :
    outcome LeafNode :=
  initialize sibling low high (node_size (meta sibling)) next_level_null (negb cache_only)
    cache_only version.

(** Moving the records from [new_cur_count] on, and truncating the left page. *)
Definition divide (n sibling : LeafNode) (new_cur_count sibling_cnt : Z) (cache_only : bool)
    (splitting_key : bytes) (version : Z) : outcome (LeafNode * LeafNode) :=
  let start := if cache_only then 0 else FENCE_KEY_CNT in
  sibling' ← foldM (move_record n) sibling (seqZ (new_cur_count + start) sibling_cnt);
  let n1 := set_meta n (set_value_count (meta n) (new_cur_count + start)) in
  n2 ← consolidate_after_split n1 splitting_key version;
  Ret (n2, sibling').

Definition split (n sibling : LeafNode) (cache_only : bool) (version : Z) :
    outcome (bytes * LeafNode * LeafNode) :=
  _ ← check_split_target n cache_only;
  current_count ← meta_count_without_fence (meta n);
  split ← get_split_key n cache_only;
  let '(splitting_key, new_cur_count) := split in
  sibling_cnt ← subu current_count new_cur_count;
  sibling1 ← (if negb cache_only then
                m ← get_kv_meta n (FENCE_KEY_CNT + new_cur_count);
                _ ← assert_ (negb (is_infinite_low_fence_key m));
                low ← get_full_key n m;
                high ← right_high_fence n;
                init_sibling sibling low high cache_only version
              else init_sibling sibling [] [] cache_only version);
  pages ← divide n sibling1 new_cur_count sibling_cnt cache_only splitting_key version;
  Ret (splitting_key, pages.1, pages.2).

Definition split_with_key (n sibling : LeafNode) (merge_split_key : bytes) (cache_only : bool)
    (version : Z) : outcome (LeafNode * LeafNode) :=
  _ ← check_split_target n cache_only;
  current_count ← meta_count_without_fence (meta n);
  new_cur_count ← get_kv_num_below_key n merge_split_key;
  sibling_cnt ← subu current_count new_cur_count;
  sibling1 ← (if negb cache_only then
                high ← right_high_fence n;
                init_sibling sibling merge_split_key high cache_only version
              else init_sibling sibling [] [] cache_only version);
  pages ← divide n sibling1 new_cur_count sibling_cnt cache_only merge_split_key version;
  _ ← (if negb cache_only then
         m ← get_kv_meta pages.1 HIGH_FENCE_IDX;
         left_high ← get_full_key pages.1 m;
         right_low ← get_low_fence_full_key pages.2;
         _ ← assert_ (bool_decide (left_high = merge_split_key));
         assert_ (bool_decide (right_low = merge_split_key))
       else Ret tt);
  Ret pages.

(** ** Scanning *)
Inductive ScanReturnField := FieldKey | FieldValue | FieldKeyAndValue.

Inductive GetScanRecordByPosResult :=
| EndOfLeaf
| ScanDeleted
| ScanFound (key_len value_len : Z)
| BoundKeyExceeded.

Definition exceeds (bound_key : option bytes) (key : bytes) : bool :=
  match bound_key with
  | Some bk => match cmp_bytes key bk with Gt => true | _ => false end
  | None => false
  end.

Definition get_record_by_pos_with_bound (n : LeafNode) (pos : Z) (out_buffer : bytes)
    (return_field : ScanReturnField) (bound_key : option bytes) :
    outcome (GetScanRecordByPosResult * bytes) :=
  if count n <=? pos then Ret (EndOfLeaf, out_buffer)
  else
    m ← get_kv_meta n pos;
    op ← op_type m;
    if is_absent op then Ret (ScanDeleted, out_buffer)
    else
      match return_field with
      | FieldValue =>
          over ← match bound_key with
                 | Some _ => k ← get_full_key n m; Ret (exceeds bound_key k)
                 | None => Ret false
                 end;
          if over : bool then Ret (BoundKeyExceeded, out_buffer)
          else
            value ← get_value n m;
            out ← copy_to_buffer out_buffer value;
            Ret (ScanFound 0 (value_len m), out)
      | FieldKey =>
          full_key ← get_full_key n m;
          if exceeds bound_key full_key then Ret (BoundKeyExceeded, out_buffer)
          else
            out ← copy_to_buffer out_buffer full_key;
            Ret (ScanFound (zlen full_key) 0, out)
      | FieldKeyAndValue =>
          full_key ← get_full_key n m;
          if exceeds bound_key full_key then Ret (BoundKeyExceeded, out_buffer)
          else
            value ← get_value n m;
            out ← copy_to_buffer out_buffer (full_key ++ value);
            Ret (ScanFound (zlen full_key) (value_len m), out)
      end.

(** An unprotected read of the first key of a page of the cache-only mode: [None] when what is read cannot
    be the page. *)
Definition try_get_key_to_reach_this_node (n : LeafNode) : outcome (option bytes) :=
  _ ← assert_ (is_cache_only_leaf (meta n));
  if count n <=? 0 then Ret None
  else
    raw ← slice (data n) 0 KV_META_SIZE;
    let m := decode_meta raw in
    last ← add16 (offset m) (get_key_len m);
    top ← max_data_size (node_size (meta n));
    if as_u16 top <? last then Ret None
    else
      len ← subu (get_key_len m) (prefix_len n);
      key ← raw_read (data n) (offset m) len;
      Ret (Some key).
