(* ===== verification/Entries.v ===== *)
(** The abstract contents of a leaf page: records in strict key order, each with the
    operation type the page stores for it.  This is the specification the page
    operations of src/nodes/leaf_node.rs are proved against. *)
From stdpp Require Import base numbers list sorting.
From Stdlib Require Import ZArith Lia.
From S2P Require Import Prelude NodeMeta LeafMeta.

Record entry := mkEntry { e_key : bytes; e_op : OpType; e_val : bytes }.

Definition key_eqb (a b : bytes) : bool := match cmp_bytes a b with Eq => true | _ => false end.

Definition entry_lt (a b : entry) : Prop := bytes_lt (e_key a) (e_key b).

Definition ordered (es : list entry) : Prop := StronglySorted entry_lt es.

(** The number of entries below a key that precede the first one not below it. *)
Fixpoint lb (key : bytes) (es : list entry) : nat :=
  match es with
  | [] => 0
  | e :: es' => match cmp_bytes (e_key e) key with Lt => S (lb key es') | _ => 0 end
  end.

Fixpoint find_entry (key : bytes) (es : list entry) : option entry :=
  match es with
  | [] => None
  | e :: es' => if key_eqb (e_key e) key then Some e else find_entry key es'
  end.

(** Inserted and cached records have a value: the debug assertion of [insert]. *)
Definition value_ok (op : OpType) (value : bytes) : bool :=
  match op with
  | OpInsert | OpCache => negb (zlen value =? 0)
  | OpDelete | OpPhantom => true
  end.

(** What a page holds for a key once [op] has been applied: a deletion keeps the old
    value bytes and changes only the operation type. *)
Definition overwrite (e : entry) (op : OpType) (val : bytes) : entry :=
  mkEntry (e_key e) op (if op_eqb op OpDelete then e_val e else val).

Fixpoint upsert (key : bytes) (op : OpType) (val : bytes) (es : list entry) : list entry :=
  match es with
  | [] => [mkEntry key op val]
  | e :: es' =>
      match cmp_bytes (e_key e) key with
      | Lt => e :: upsert key op val es'
      | Eq => overwrite e op val :: es'
      | Gt => mkEntry key op val :: es
      end
  end.

(** A deletion of a key a base page does not hold is dropped. *)
Definition apply_op (base : bool) (key : bytes) (op : OpType) (val : bytes) (es : list entry) :
    list entry :=
  match find_entry key es with
  | None => if op_eqb op OpDelete && base then es else upsert key op val es
  | Some _ => upsert key op val es
  end.

(** What a reader sees of an entry. *)
Definition visible (e : option entry) : option bytes :=
  match e with
  | Some e => if is_absent (e_op e) then None else Some (e_val e)
  | None => None
  end.

Section entries.
Implicit Types (key : bytes) (es : list entry) (e : entry).

Lemma key_eqb_eq a b : key_eqb a b = true ↔ a = b.
Proof. unfold key_eqb. rewrite <- cmp_eq. by destruct (cmp_bytes a b). Qed.

Lemma key_eqb_refl a : key_eqb a a = true.
Proof. by apply key_eqb_eq. Qed.

Lemma key_eqb_ne a b : key_eqb a b = false ↔ a ≠ b.
Proof. rewrite <- key_eqb_eq. by destruct (key_eqb a b). Qed.

Lemma lb_bound key es : (lb key es <= length es)%nat.
Proof. induction es as [|e es IH]; cbn; [done|]. destruct (cmp_bytes _ _); lia. Qed.

Lemma lb_below key es i e :
  (i < lb key es)%nat → es !! i = Some e → bytes_lt (e_key e) key.
Proof.
  revert i. induction es as [|e' es IH]; intros i; cbn; [lia|].
  destruct (cmp_bytes (e_key e') key) eqn:E; try lia.
  destruct i as [|i]; cbn; [by intros _ [= ->]|]. intros. apply (IH i); [lia | done].
Qed.

Lemma lb_at key es e : es !! lb key es = Some e → cmp_bytes (e_key e) key ≠ Lt.
Proof.
  induction es as [|e' es IH]; cbn; [done|].
  destruct (cmp_bytes (e_key e') key) eqn:E; cbn; auto; intros [= ->]; by rewrite E.
Qed.

Lemma ordered_lookup es i j a b :
  ordered es → (i < j)%nat → es !! i = Some a → es !! j = Some b → entry_lt a b.
Proof.
  intros Hs. revert i j. induction Hs as [|e es Hs IH Hall]; [done|].
  intros [|i] [|j] Hij Hi Hj; cbn in *; try lia.
  - injection Hi as <-. by apply (Forall_lookup_1 _ _ _ _ Hall Hj).
  - by apply (IH i j); [lia|..].
Qed.

Lemma lb_above key es i e :
  ordered es → (lb key es < i)%nat → es !! i = Some e → bytes_lt key (e_key e).
Proof.
  intros Hs Hi He.
  destruct (es !! lb key es) as [e'|] eqn:E.
  - pose proof (lb_at key es e' E) as Hge.
    pose proof (ordered_lookup es _ _ _ _ Hs Hi E He) as Hlt.
    eapply cmp_le_lt_trans; [|exact Hlt]. rewrite cmp_opp.
    by destruct (cmp_bytes (e_key e') key).
  - apply lookup_ge_None in E. pose proof (lookup_lt_Some _ _ _ He). lia.
Qed.

(** The position of a key is determined by one comparison. *)
Lemma lb_compare key es i e :
  ordered es → es !! i = Some e →
  match cmp_bytes (e_key e) key with
  | Lt => (i < lb key es)%nat
  | Eq => lb key es = i
  | Gt => (lb key es <= i)%nat
  end.
Proof.
  intros Hs Hi. destruct (Nat.lt_trichotomy i (lb key es)) as [H|[H|H]].
  - rewrite (lb_below key es i e H Hi). done.
  - rewrite H in Hi. pose proof (lb_at _ _ _ Hi). destruct (cmp_bytes (e_key e) key); try done; lia.
  - pose proof (lb_above key es i e Hs H Hi) as Hlt. apply cmp_gt_lt in Hlt as ->. lia.
Qed.

Lemma find_entry_none key es : Forall (λ e, e_key e ≠ key) es → find_entry key es = None.
Proof.
  induction 1 as [|e es He _ IH]; cbn; [done|]. by apply key_eqb_ne in He as ->.
Qed.

Lemma find_entry_elem key es e : find_entry key es = Some e → e ∈ es ∧ e_key e = key.
Proof.
  induction es as [|e' es IH]; cbn; [done|].
  destruct (key_eqb (e_key e') key) eqn:E.
  - intros [= ->]. apply key_eqb_eq in E. split; [left | done].
  - intros H. destruct (IH H). split; [by right | done].
Qed.

Lemma find_entry_app key es1 es2 :
  find_entry key (es1 ++ es2) =
    match find_entry key es1 with Some e => Some e | None => find_entry key es2 end.
Proof. induction es1 as [|e es1 IH]; cbn; [done|]. by destruct (key_eqb _ _). Qed.

Lemma find_entry_lb key es :
  ordered es →
  find_entry key es =
    match es !! lb key es with
    | Some e => if key_eqb (e_key e) key then Some e else None
    | None => None
    end.
Proof.
  induction 1 as [|e es Hs IH Hall]; [done|]. cbn. unfold key_eqb at 1.
  destruct (cmp_bytes (e_key e) key) eqn:E; cbn; [unfold key_eqb; by rewrite E|done|].
  unfold key_eqb. rewrite E. apply find_entry_none.
  eapply Forall_impl; [exact Hall|]. intros e' Hlt Heq. unfold entry_lt, bytes_lt in Hlt.
  rewrite Heq in Hlt. congruence.
Qed.

(** [upsert] replaces the entry at the key's position or inserts one there. *)
Lemma upsert_existing key op val es e :
  es !! lb key es = Some e → e_key e = key →
  upsert key op val es = <[lb key es := overwrite e op val]> es.
Proof.
  induction es as [|e' es IH]; cbn; [done|]. intros H Hk.
  destruct (cmp_bytes (e_key e') key) eqn:E; cbn in *; [by injection H as ->| |].
  - f_equal. auto.
  - injection H as ->. rewrite Hk, cmp_refl in E. done.
Qed.

Lemma upsert_new key op val es :
  match es !! lb key es with Some e => e_key e ≠ key | None => True end →
  upsert key op val es = take (lb key es) es ++ mkEntry key op val :: drop (lb key es) es.
Proof.
  induction es as [|e' es IH]; cbn; [done|].
  destruct (cmp_bytes (e_key e') key) eqn:E; cbn; [|by intros H; f_equal; auto|done].
  intros H. by apply cmp_eq in E.
Qed.

Lemma upsert_keys (P : bytes → Prop) key op val es :
  Forall (λ e, P (e_key e)) es → P key → Forall (λ e, P (e_key e)) (upsert key op val es).
Proof.
  intros Hes HP. induction Hes as [|e es He Hes IH]; cbn; [by repeat constructor|].
  destruct (cmp_bytes _ _); repeat constructor; done.
Qed.

Lemma upsert_recs (P : bytes → bytes → Prop) key op val es :
  Forall (λ e, P (e_key e) (e_val e)) es → P key val → Forall (λ e, P (e_key e) (e_val e)) (upsert key op val es).
Proof.
  intros Hes HP. induction Hes as [|e es He Hes IH]; cbn; [by repeat constructor|].
  destruct (cmp_bytes _ _) eqn:E; repeat constructor; try done. apply cmp_eq in E. cbn. rewrite <- E in HP. by destruct (op_eqb _ _).
Qed.

Lemma apply_op_recs (P : bytes → bytes → Prop) base key op val es :
  Forall (λ e, P (e_key e) (e_val e)) es → P key val → Forall (λ e, P (e_key e) (e_val e)) (apply_op base key op val es).
Proof.
  intros Hes HP. unfold apply_op. destruct (find_entry _ _); [|destruct (_ && _); [done|]]; by apply upsert_recs.
Qed.

Lemma upsert_nonempty key op val es : upsert key op val es ≠ [].
Proof. destruct es as [|e es]; cbn; [done|]. by destruct (cmp_bytes _ _). Qed.

Lemma apply_op_nonempty base key op val es : es ≠ [] → apply_op base key op val es ≠ [].
Proof.
  intros He. unfold apply_op. destruct (find_entry _ _); [|destruct (_ && _); [done|]]; apply upsert_nonempty.
Qed.

Lemma upsert_ordered key op val es : ordered es → ordered (upsert key op val es).
Proof.
  induction 1 as [|e es Hs IH Hall]; cbn; [by repeat constructor|].
  destruct (cmp_bytes (e_key e) key) eqn:E.
  - constructor; [done|]. exact Hall.
  - constructor; [done|]. apply (upsert_keys (bytes_lt (e_key e))); [exact Hall | done].
  - apply cmp_gt_lt in E. constructor; [by constructor|]. constructor; [done|].
    eapply Forall_impl; [exact Hall|]. intros e' H. unfold entry_lt. cbn.
    by transitivity (e_key e).
Qed.

(** What the specification holds for the key, and for every other key. *)
Lemma find_upsert_same key op val es :
  ordered es →
  find_entry key (upsert key op val es) =
    Some (match find_entry key es with
          | Some e => overwrite e op val
          | None => mkEntry key op val
          end).
Proof.
  induction 1 as [|e es Hs IH Hall]; cbn; [by rewrite key_eqb_refl|].
  unfold key_eqb at 1. destruct (cmp_bytes (e_key e) key) eqn:E; cbn.
  - apply cmp_eq in E. by rewrite E, key_eqb_refl.
  - unfold key_eqb. rewrite E. apply IH.
  - rewrite key_eqb_refl. f_equal. rewrite find_entry_none; [done|].
    apply cmp_gt_lt in E. eapply Forall_impl; [exact Hall|]. intros e' H <-.
    apply (bytes_lt_irrefl (e_key e)). by transitivity (e_key e').
Qed.

Lemma find_upsert_other key k op val es :
  k ≠ key → find_entry k (upsert key op val es) = find_entry k es.
Proof.
  intros Hne. assert (key_eqb key k = false) as Hk by (apply key_eqb_ne; congruence).
  induction es as [|e es IH]; cbn; [by rewrite Hk|].
  destruct (cmp_bytes (e_key e) key) eqn:E; cbn.
  - apply cmp_eq in E. by rewrite E, Hk.
  - by rewrite IH.
  - by rewrite Hk.
Qed.

Lemma apply_op_ordered base key op val es : ordered es → ordered (apply_op base key op val es).
Proof.
  intros H. unfold apply_op. destruct (find_entry key es); [by apply upsert_ordered|].
  destruct (_ && _); [done | by apply upsert_ordered].
Qed.

Lemma find_apply_other base key k op val es :
  k ≠ key → find_entry k (apply_op base key op val es) = find_entry k es.
Proof.
  intros H. unfold apply_op. destruct (find_entry key es); [by apply find_upsert_other|].
  destruct (_ && _); [done | by apply find_upsert_other].
Qed.

Lemma visible_apply_same base key op val es :
  ordered es →
  visible (find_entry key (apply_op base key op val es)) = visible (Some (mkEntry key op val)).
Proof.
  intros H. unfold apply_op. destruct (find_entry key es) as [e|] eqn:Hf.
  - rewrite find_upsert_same, Hf by done. cbn. by destruct op.
  - destruct (op_eqb op OpDelete && base) eqn:Hd.
    + rewrite Hf. apply andb_true_iff in Hd as [Hd _]. by destruct op.
    + by rewrite find_upsert_same, Hf by done.
Qed.

(** ** Merging the dirty records of a mini page *)
Definition merge_entry (acc : list entry) (e : entry) : list entry :=
  if is_dirty (e_op e) then apply_op true (e_key e) (e_op e) (e_val e) acc else acc.

Definition merge_entries (mini base : list entry) : list entry := foldl merge_entry base mini.

Lemma merge_entries_nonempty ms es : es ≠ [] → merge_entries ms es ≠ [].
Proof.
  unfold merge_entries. revert es. induction ms as [|e ms IH]; intros es He; [done|]. cbn. apply IH. unfold merge_entry.
  destruct (is_dirty _); [by apply apply_op_nonempty|done].
Qed.

(** What a reader sees of the mini page over the base page. *)
Definition overlay (mini base : list entry) (key : bytes) : option bytes :=
  match find_entry key mini with
  | Some e => if is_dirty (e_op e) then visible (Some e) else visible (find_entry key base)
  | None => visible (find_entry key base)
  end.

Lemma merge_entry_ordered acc e : ordered acc → ordered (merge_entry acc e).
Proof. intros H. unfold merge_entry. destruct (is_dirty _); [by apply apply_op_ordered | done]. Qed.

Lemma merge_visible mini base key :
  ordered mini → ordered base →
  visible (find_entry key (merge_entries mini base)) = overlay mini base key.
Proof.
  intros Hm. revert base. unfold overlay, merge_entries.
  induction Hm as [|e mini Hm IH Hall]; intros base Hb; [done|]. cbn [foldl find_entry].
  rewrite IH by by apply merge_entry_ordered. destruct (key_eqb (e_key e) key) eqn:Ek.
  - apply key_eqb_eq in Ek. rewrite find_entry_none.
    2:{ eapply Forall_impl; [exact Hall|]. intros e' Hlt Hk. unfold entry_lt in Hlt.
        rewrite Hk, <- Ek in Hlt. by apply bytes_lt_irrefl in Hlt. }
    unfold merge_entry. destruct (is_dirty (e_op e)) eqn:Hd; [|done].
    rewrite <- Ek, visible_apply_same by done. done.
  - apply key_eqb_ne in Ek.
    assert (find_entry key (merge_entry base e) = find_entry key base) as ->; [|done].
    unfold merge_entry. destruct (is_dirty _); [|done]. apply find_apply_other. congruence.
Qed.
End entries.
