(* ===== verification/PageLayout.v ===== *)
(** Slotted pages: the memory layout shared by leaf pages and inner nodes
    (src/nodes/leaf_node.rs, src/nodes/inner_node.rs).

    Behind a 32-byte header, descriptors of 8 bytes grow from the start of the page and
    records grow from its end.  A [slot] is a descriptor with the record bytes it owns.
    [PLayout m d ss] relates the header word and the bytes of a page to its slots in
    descriptor order; records may lie anywhere above the lowest offset, so the record
    part of the relation ignores the order of the slots.  What a descriptor is, is an
    interface: leaf pages and inner nodes each give an instance. *)
From stdpp Require Import base numbers list.
From Stdlib Require Import ZArith Lia.
From S2P Require Import Prelude Bits NodeMeta.

(** [size_of] of both page headers, checked by constant assertions of the source. *)
Definition PAGE_HEADER : Z := 32.

Class Descriptor (M : Type) := {
  d_off : M → Z;
  d_real : M → bool;
  d_enc : M → bytes;
  d_dec : bytes → M;
  d_real_off : ∀ m m', d_off m = d_off m' → d_real m = d_real m';
}.

Record slot (M : Type) := mkSlot { s_meta : M; s_body : bytes }.
Arguments mkSlot {M}.
Arguments s_meta {M}.
Arguments s_body {M}.

(** ** Inserting into a list *)
Definition insert_at {A} (pos : nat) (x : A) (l : list A) : list A :=
  take pos l ++ x :: drop pos l.

Section insert_at.
Context {A : Type}.
Implicit Types (l : list A) (x : A).

Lemma insert_at_perm pos x l : insert_at pos x l ≡ₚ x :: l.
Proof.
  unfold insert_at. rewrite <- Permutation_middle. by rewrite take_drop.
Qed.

Lemma zlen_insert_at pos x l : zlen (insert_at pos x l) = 1 + zlen l.
Proof. unfold zlen. rewrite (Permutation_length (insert_at_perm pos x l)). cbn. lia. Qed.

Lemma insert_at_lookup pos x l i :
  (pos <= length l)%nat →
  insert_at pos x l !! i =
    if decide (i < pos)%nat then l !! i
    else if decide (i = pos) then Some x else l !! (i - 1)%nat.
Proof.
  intros Hp. unfold insert_at. pose proof (length_take_le l pos Hp) as Hl.
  repeat case_decide.
  - rewrite lookup_app_l by lia. by apply lookup_take_lt.
  - subst. rewrite lookup_app_r by lia. by rewrite Hl, Nat.sub_diag.
  - rewrite lookup_app_r, Hl by lia.
    replace (i - pos)%nat with (S (i - pos - 1)) by lia.
    change (drop pos l !! (i - pos - 1)%nat = l !! (i - 1)%nat).
    rewrite lookup_drop. f_equal. lia.
Qed.

Lemma insert_perm i x y l : l !! i = Some y → <[i:=x]> l ≡ₚ x :: delete i l.
Proof.
  intros Hi. pose proof (lookup_lt_Some _ _ _ Hi).
  rewrite insert_take_drop, delete_take_drop by done.
  by rewrite <- Permutation_middle.
Qed.

Lemma delete_perm i y l : l !! i = Some y → l ≡ₚ y :: delete i l.
Proof. apply delete_Permutation. Qed.

Lemma insert_at_end x l : insert_at (length l) x l = l ++ [x].
Proof. unfold insert_at. by rewrite take_ge, drop_ge. Qed.
End insert_at.

Section page.
Context {M : Type} `{Descriptor M}.
Implicit Types (m : M).

Definition s_off (s : slot M) : Z := d_off (s_meta s).

(** A marker owns no record bytes. *)
Definition s_real (s : slot M) : bool := d_real (s_meta s).

Definition meta_wf (m : M) : Prop :=
  d_dec (d_enc m) = m ∧ zlen (d_enc m) = KV_META_SIZE ∧ bytes_ok (d_enc m).

(** ** Records *)
Definition stored (d : bytes) (s : slot M) : Prop :=
  s_real s = true →
  0 <= s_off s ∧ s_off s + zlen (s_body s) <= zlen d ∧
  sub_bytes d (s_off s) (zlen (s_body s)) = s_body s.

Definition sep (s t : slot M) : Prop :=
  s_real s = true → s_real t = true →
  s_off s + zlen (s_body s) <= s_off t ∨ s_off t + zlen (s_body t) <= s_off s.

Fixpoint apart (ss : list (slot M)) : Prop :=
  match ss with
  | [] => True
  | s :: ss' => Forall (sep s) ss' ∧ apart ss'
  end.

Definition heap (d : bytes) (ss : list (slot M)) : Prop := Forall (stored d) ss ∧ apart ss.

(** The lowest offset of a record, or the end of the page. *)
Fixpoint lowest (top : Z) (ss : list (slot M)) : Z :=
  match ss with
  | [] => top
  | s :: ss' => if s_real s then Z.min (s_off s) (lowest top ss') else lowest top ss'
  end.

(** ** Descriptors *)
Definition slots_at (d : bytes) (ss : list (slot M)) : Prop :=
  ∀ i s, ss !! i = Some s →
    sub_bytes d (KV_META_SIZE * Z.of_nat i) KV_META_SIZE = d_enc (s_meta s).

Record PLayout (h : NodeMeta) (d : bytes) (ss : list (slot M)) : Prop := {
  lo_size : PAGE_HEADER <= node_size h <= MAX_LEAF_PAGE_SIZE;
  lo_data : zlen d = node_size h - PAGE_HEADER;
  lo_bytes : bytes_ok d;
  lo_word : meta_ok h;
  lo_count : meta_count_with_fence h = zlen ss;
  lo_rem : 0 <= remaining_size h;
  lo_low : lowest (zlen d) ss = KV_META_SIZE * zlen ss + remaining_size h;
  lo_metas : slots_at d ss;
  lo_wf : Forall (λ s, meta_wf (s_meta s)) ss;
  lo_heap : heap d ss;
}.

(** ** Records: order is irrelevant, writes elsewhere are invisible *)
Implicit Types (s t : slot M) (ss : list (slot M)) (d v : bytes).

Lemma sep_sym s t : sep s t → sep t s.
Proof. unfold sep. intuition. Qed.

Lemma apart_perm ss ss' : ss ≡ₚ ss' → apart ss → apart ss'.
Proof.
  induction 1 as [|s ss ss' Hp IH|s t ss|]; cbn; try tauto.
  - intros [Hf Ha]. split; [by rewrite <- Hp | auto].
  - rewrite !Forall_cons. intuition auto using sep_sym.
Qed.

Lemma heap_perm d ss ss' : ss ≡ₚ ss' → heap d ss → heap d ss'.
Proof. intros Hp [Hf Ha]. split; [by rewrite <- Hp | by eapply apart_perm]. Qed.

Lemma lowest_perm top ss ss' : ss ≡ₚ ss' → lowest top ss = lowest top ss'.
Proof.
  induction 1 as [|s ss ss' _ IH|s t ss|]; cbn; [done|by rewrite IH| |congruence].
  destruct (s_real s), (s_real t); lia.
Qed.

Lemma lowest_le top ss s : s ∈ ss → s_real s = true → lowest top ss <= s_off s.
Proof.
  induction 1 as [s ss|s t ss _ IH]; cbn; intros Hr; [rewrite Hr; lia|].
  specialize (IH Hr). destruct (s_real t); lia.
Qed.

Lemma lowest_top top ss : lowest top ss <= top.
Proof. induction ss as [|s ss IH]; cbn; [|destruct (s_real s)]; lia. Qed.

Lemma stored_frame d o v s :
  stored d s → 0 <= o → o + zlen v <= zlen d →
  (s_real s = true → s_off s + zlen (s_body s) <= o ∨ o + zlen v <= s_off s) →
  stored (splice d o v) s.
Proof.
  intros Hs Ho Hv Hd Hr. destruct (Hs Hr) as (H1 & H2 & H3).
  rewrite zlen_splice by done. split_and!; [done..|].
  rewrite <- H3 at 2. apply sub_splice_out; auto with lia.
Qed.

(** A write below every record. *)
Lemma heap_frame_low d o v ss lo :
  heap d ss → 0 <= o → o + zlen v <= lo → lo <= lowest (zlen d) ss →
  heap (splice d o v) ss.
Proof.
  intros [Hf Ha] Ho Hv Hlo. split; [|done].
  pose proof (lowest_top (zlen d) ss).
  apply Forall_forall. intros s Hs. rewrite Forall_forall in Hf.
  apply stored_frame; [by apply Hf|lia|lia|]. intros Hr. right.
  pose proof (lowest_le (zlen d) ss s Hs Hr). lia.
Qed.

(** A new record below every record. *)
Lemma heap_add d s ss :
  heap d ss → s_real s = true → 0 <= s_off s →
  s_off s + zlen (s_body s) <= lowest (zlen d) ss →
  heap (splice d (s_off s) (s_body s)) (s :: ss).
Proof.
  intros Hh Hr Ho Hl. pose proof (lowest_top (zlen d) ss).
  assert (stored (splice d (s_off s) (s_body s)) s) as Hs.
  { intros _. rewrite zlen_splice by lia. split_and!; [lia..|]. apply sub_splice_same; lia. }
  destruct (heap_frame_low d (s_off s) (s_body s) ss _ Hh Ho Hl (Z.le_refl _)) as [Hf Ha].
  split; [by constructor|]. split; [|done].
  apply Forall_forall. intros t Ht _ Hrt. left.
  pose proof (lowest_le (zlen d) ss t Ht Hrt). lia.
Qed.

(** A write inside one record. *)
Lemma heap_modify d s ss k v m :
  heap d (s :: ss) → s_real s = true → d_off m = s_off s →
  0 <= k → k + zlen v <= zlen (s_body s) →
  heap (splice d (s_off s + k) v) (mkSlot m (splice (s_body s) k v) :: ss).
Proof.
  intros [Hf [Hsep Ha]] Hr Hm Hk Hv. apply Forall_cons in Hf as [Hs Hf].
  destruct (Hs Hr) as (H1 & H2 & H3). pose proof (zlen_nonneg v).
  assert (zlen (splice (s_body s) k v) = zlen (s_body s)) as Hlen by (apply zlen_splice; lia).
  split; [constructor|split; [|done]].
  - intros _. unfold s_off in *. cbn [s_meta s_body]. rewrite Hm, Hlen.
    rewrite zlen_splice by lia. split_and!; [lia..|].
    apply list_eq. intros i. rewrite sub_lookup, (splice_lookup (s_body s)) by lia.
    rewrite splice_lookup by lia.
    pose proof (f_equal (lookup i) H3) as Hi. rewrite sub_lookup in Hi. rewrite <- Hi.
    unfold zlen, s_off in *. repeat case_decide; try lia; try done.
    all: f_equal; lia.
  - apply Forall_forall. intros t Ht. rewrite Forall_forall in Hf, Hsep.
    apply stored_frame; [by apply Hf|lia|lia|]. intros Hrt.
    destruct (Hsep t Ht Hr Hrt); lia.
  - eapply Forall_impl; [exact Hsep|]. intros t Ht _ Hrt. specialize (Ht Hr Hrt).
    unfold s_off in *. cbn [s_meta s_body]. rewrite Hm, Hlen. done.
Qed.

(** A record may give up its last bytes. *)
Lemma heap_shrink d s ss k m :
  heap d (s :: ss) → s_real s = true → d_off m = s_off s → 0 <= k <= zlen (s_body s) →
  heap d (mkSlot m (take (Z.to_nat k) (s_body s)) :: ss).
Proof.
  intros [Hf [Hsep Ha]] Hr Hm Hk. apply Forall_cons in Hf as [Hs Hf].
  destruct (Hs Hr) as (H1 & H2 & H3). pose proof (zlen_take k (s_body s) Hk) as Hlen.
  split; [constructor; [|done]|split; [|done]].
  - intros _. unfold s_off in *. cbn [s_meta s_body]. rewrite Hm, Hlen.
    split_and!; [lia..|]. rewrite <- H3. unfold sub_bytes.
    rewrite take_take. f_equal. lia.
  - eapply Forall_impl; [exact Hsep|]. intros t Ht _ Hrt. specialize (Ht Hr Hrt).
    unfold s_off in *. cbn [s_meta s_body]. rewrite Hm, Hlen. lia.
Qed.

Lemma heap_tail d s ss : heap d (s :: ss) → heap d ss.
Proof. intros [Hf [_ Ha]]. apply Forall_cons in Hf as [_ Hf]. done. Qed.

(** ** Descriptor array *)

Lemma slots_frame d ss o v :
  slots_at d ss → KV_META_SIZE * zlen ss <= o → o + zlen v <= zlen d →
  slots_at (splice d o v) ss.
Proof.
  intros Hs Ho Hv i s Hi. rewrite <- (Hs i s Hi).
  pose proof (lookup_lt_Some _ _ _ Hi). unfold KV_META_SIZE, zlen in *.
  apply sub_splice_out; unfold zlen; lia.
Qed.

Lemma slots_set d ss i s t :
  slots_at d ss → ss !! i = Some s → zlen (d_enc (s_meta t)) = KV_META_SIZE →
  KV_META_SIZE * zlen ss <= zlen d →
  slots_at (splice d (KV_META_SIZE * Z.of_nat i) (d_enc (s_meta t))) (<[i:=t]> ss).
Proof.
  intros Hs Hi Hl Hd j u Hj. pose proof (lookup_lt_Some _ _ _ Hi).
  unfold KV_META_SIZE in *. unfold zlen in Hd.
  assert (8 * Z.of_nat i + 8 <= zlen d) by (unfold zlen; lia).
  destruct (decide (i = j)) as [->|Hne].
  - rewrite list_lookup_insert_eq in Hj by done. injection Hj as <-.
    apply sub_splice_eq; lia.
  - rewrite list_lookup_insert_ne in Hj by done. rewrite <- (Hs j u Hj).
    unfold KV_META_SIZE. apply sub_splice_out; lia.
Qed.

Lemma slots_same_meta d ss i s b :
  slots_at d ss → ss !! i = Some s → slots_at d (<[i:=mkSlot (s_meta s) b]> ss).
Proof.
  intros Hs Hi j t Hj. pose proof (lookup_lt_Some _ _ _ Hi).
  destruct (decide (i = j)) as [->|].
  - rewrite list_lookup_insert_eq in Hj by done. injection Hj as <-. exact (Hs _ _ Hi).
  - rewrite list_lookup_insert_ne in Hj by done. by apply Hs.
Qed.

(** Shifting the tail of the array by one and writing the new descriptor. *)
Lemma slots_insert d ss pos s :
  slots_at d ss → (pos <= length ss)%nat → zlen (d_enc (s_meta s)) = KV_META_SIZE →
  KV_META_SIZE * (zlen ss + 1) <= zlen d →
  let p := Z.of_nat pos in
  slots_at
    (splice
       (splice d (KV_META_SIZE * (p + 1)) (sub_bytes d (KV_META_SIZE * p) (KV_META_SIZE * (zlen ss - p))))
       (KV_META_SIZE * p) (d_enc (s_meta s)))
    (insert_at pos s ss).
Proof.
  intros Hs Hp Hl Hd p i u Hi. unfold KV_META_SIZE in *.
  assert (0 <= p <= zlen ss) as Hpz by (unfold zlen; lia).
  set (src := sub_bytes d _ _).
  assert (zlen src = 8 * (zlen ss - p)) as Hsrc by (apply zlen_sub; lia).
  assert (zlen (splice d (8 * (p + 1)) src) = zlen d) as Hd1 by (apply zlen_splice; lia).
  rewrite insert_at_lookup in Hi by done. repeat case_decide.
  - rewrite <- (Hs i u Hi). unfold KV_META_SIZE. rewrite !sub_splice_out; try lia. done.
  - injection Hi as <-. subst i. apply sub_splice_eq; lia.
  - pose proof (lookup_lt_Some _ _ _ Hi). rewrite <- (Hs _ u Hi).
    unfold KV_META_SIZE. rewrite sub_splice_out by lia. unfold zlen in Hsrc, Hpz.
    rewrite sub_splice_in by (unfold zlen in *; lia).
    unfold src. rewrite sub_sub by (unfold zlen in *; lia). f_equal. lia.
Qed.

(** ** Space: records do not overlap, so their sizes add up *)
Definition body_size (s : slot M) : Z := if s_real s then zlen (s_body s) else 0.

Definition total_size (ss : list (slot M)) : Z := foldr (λ s acc, body_size s + acc) 0 ss.

Definition extent (s : slot M) : list Z := if s_real s then seqZ (s_off s) (zlen (s_body s)) else [].

Lemma extent_length s : Z.of_nat (length (extent s)) = body_size s.
Proof.
  unfold extent, body_size. destruct (s_real s); [|done].
  rewrite length_seqZ. pose proof (zlen_nonneg (s_body s)). lia.
Qed.

Lemma extents_length ss : Z.of_nat (length (mjoin (map extent ss))) = total_size ss.
Proof.
  induction ss as [|s ss IH]; [done|]. cbn [map total_size foldr].
  change (mjoin (extent s :: map extent ss)) with (extent s ++ mjoin (map extent ss)).
  rewrite length_app, Nat2Z.inj_add, IH, extent_length. done.
Qed.

Lemma extents_nodup ss : apart ss → NoDup (mjoin (map extent ss)).
Proof.
  induction ss as [|s ss IH]; cbn; [constructor|]. intros [Hsep Ha].
  apply NoDup_app. split_and!; [|clear IH|by apply IH].
  - unfold extent. destruct (s_real s); [apply NoDup_seqZ | constructor].
  - intros x Hx Hin. rewrite list_elem_of_join in Hin. destruct Hin as (l & Hxl & Hl).
    apply list_elem_of_fmap in Hl as (t & -> & Ht). rewrite Forall_forall in Hsep.
    specialize (Hsep t Ht). unfold extent in *.
    destruct (s_real s) eqn:Hs; [|by apply elem_of_nil in Hx].
    destruct (s_real t) eqn:Hr; [|by apply elem_of_nil in Hxl].
    rewrite elem_of_seqZ in Hx, Hxl. destruct (Hsep Hs Hr); lia.
Qed.

Lemma heap_total d ss :
  heap d ss → lowest (zlen d) ss + total_size ss <= zlen d.
Proof.
  intros [Hst Ha]. pose proof (lowest_top (zlen d) ss) as Htop.
  rewrite <- extents_length.
  assert (mjoin (map extent ss) ⊆+ seqZ (lowest (zlen d) ss) (zlen d - lowest (zlen d) ss)) as Hsub.
  { apply NoDup_submseteq; [by apply extents_nodup|]. intros x Hx.
    rewrite list_elem_of_join in Hx. destruct Hx as (l & Hxl & Hl).
    apply list_elem_of_fmap in Hl as (t & -> & Ht). unfold extent in Hxl.
    destruct (s_real t) eqn:Hr; [|by apply elem_of_nil in Hxl].
    rewrite elem_of_seqZ in Hxl |- *. pose proof (lowest_le (zlen d) ss t Ht Hr).
    rewrite Forall_forall in Hst. destruct (Hst t Ht Hr) as (_ & ? & _). lia. }
  apply submseteq_length in Hsub. rewrite length_seqZ in Hsub. lia.
Qed.

(** ** Dropping the last descriptors *)
Lemma apart_app_l ss1 ss2 : apart (ss1 ++ ss2) → apart ss1.
Proof.
  induction ss1 as [|s ss1 IH]; cbn; [done|]. intros [Hf Ha]. split; [|auto].
  by apply Forall_app in Hf as [? _].
Qed.

Lemma lowest_min a b ss : lowest (Z.min a b) ss = Z.min b (lowest a ss).
Proof. induction ss as [|s ss IH]; cbn; [lia|]. destruct (s_real s); lia. Qed.

Lemma lowest_app_l top ss1 ss2 : lowest top (ss1 ++ ss2) <= lowest top ss1.
Proof.
  induction ss1 as [|s ss1 IH]; cbn; [apply lowest_top|]. destruct (s_real s); lia.
Qed.


(** ** A laid out page *)
Section layout.
Context (h : NodeMeta) (d : bytes) (ss : list (slot M)).
Hypothesis HL : PLayout h d ss.

Lemma playout_fits :
  KV_META_SIZE * zlen ss + remaining_size h <= zlen d ∧
  zlen d <= MAX_LEAF_PAGE_SIZE - PAGE_HEADER ∧ zlen ss <= 4092.
Proof.
  pose proof (lo_low _ _ _ HL). pose proof (lowest_top (zlen d) ss).
  pose proof (lo_rem _ _ _ HL). pose proof (lo_size _ _ _ HL). pose proof (lo_data _ _ _ HL).
  unfold KV_META_SIZE, PAGE_HEADER, MAX_LEAF_PAGE_SIZE in *. lia.
Qed.

Lemma playout_stored i s :
  ss !! i = Some s → s_real s = true →
  KV_META_SIZE * zlen ss + remaining_size h <= s_off s ∧
  s_off s + zlen (s_body s) <= zlen d ∧ sub_bytes d (s_off s) (zlen (s_body s)) = s_body s.
Proof.
  intros Hi Hr. destruct (lo_heap _ _ _ HL) as [Hf _].
  destruct (Forall_lookup_1 _ _ _ _ Hf Hi Hr) as (? & ? & ?).
  rewrite <- (lo_low _ _ _ HL).
  pose proof (lowest_le (zlen d) ss s (list_elem_of_lookup_2 _ _ _ Hi) Hr). done.
Qed.

(** Reading part of a record. *)
Lemma playout_read i s k len :
  ss !! i = Some s → s_real s = true → 0 <= k → 0 <= len → k + len <= zlen (s_body s) →
  raw_read d (s_off s + k) len = Ret (sub_bytes (s_body s) k len).
Proof.
  intros Hi Hr Hk Hl Hb. destruct (playout_stored i s Hi Hr) as (H1 & H2 & H3).
  pose proof playout_fits. pose proof (lo_rem _ _ _ HL). pose proof (zlen_nonneg ss).
  unfold KV_META_SIZE in *. rewrite raw_read_ok by lia. f_equal.
  transitivity (sub_bytes (sub_bytes d (s_off s) (zlen (s_body s))) k len).
  - by rewrite sub_sub by lia.
  - by rewrite H3.
Qed.

(** Reading a descriptor. *)
Lemma playout_meta i s :
  ss !! i = Some s →
  slice d (KV_META_SIZE * Z.of_nat i) KV_META_SIZE = Ret (d_enc (s_meta s)) ∧
  d_dec (d_enc (s_meta s)) = s_meta s ∧ Z.of_nat i < meta_count_with_fence h.
Proof.
  intros Hi. pose proof (lookup_lt_Some _ _ _ Hi) as Hlt. pose proof playout_fits.
  pose proof (lo_rem _ _ _ HL). assert (Z.of_nat i < zlen ss) by (unfold zlen; lia).
  pose proof (lo_metas _ _ _ HL i s Hi) as Hm. unfold KV_META_SIZE in *.
  split_and!; [|by apply (Forall_lookup_1 _ _ _ _ (lo_wf _ _ _ HL) Hi)|].
  - rewrite slice_ok by lia. by rewrite Hm.
  - by rewrite (lo_count _ _ _ HL).
Qed.

Lemma lowest_replace top i s t :
  ss !! i = Some s → s_real t = s_real s → s_off t = s_off s →
  lowest top (<[i:=t]> ss) = lowest top ss.
Proof.
  intros Hi Hr Ho. rewrite (lowest_perm _ _ _ (insert_perm i t s ss Hi)).
  rewrite (lowest_perm _ _ _ (delete_perm i s ss Hi)). cbn. by rewrite Hr, Ho.
Qed.

Lemma zlen_insert {A} i (x : A) l : zlen (<[i:=x]> l) = zlen l.
Proof. unfold zlen. by rewrite length_insert. Qed.

Lemma slot_in_bounds i s :
  ss !! i = Some s → 0 <= KV_META_SIZE * Z.of_nat i ∧
  KV_META_SIZE * Z.of_nat i + KV_META_SIZE <= KV_META_SIZE * zlen ss.
Proof. intros Hi. pose proof (lookup_lt_Some _ _ _ Hi). unfold KV_META_SIZE, zlen. lia. Qed.

(** Other bytes under the same header that keep the slots. *)
Lemma playout_data d' ss' :
  zlen d' = zlen d → bytes_ok d' → zlen ss' = zlen ss →
  lowest (zlen d') ss' = lowest (zlen d') ss →
  slots_at d' ss' → Forall (λ s, meta_wf (s_meta s)) ss' → heap d' ss' → PLayout h d' ss'.
Proof.
  intros Hd Hb Hs Hl Hm Hw Hh. destruct HL. split; auto; congruence.
Qed.

(** The bytes and the slots after a descriptor has been replaced, apart from its
    record. *)
Lemma playout_write_meta i s m :
  ss !! i = Some s → meta_wf m →
  let d' := splice d (KV_META_SIZE * Z.of_nat i) (d_enc m) in
  zlen d' = zlen d ∧ bytes_ok d' ∧ heap d' ss ∧
  (∀ b, slots_at d' (<[i:=mkSlot m b]> ss)) ∧
  (∀ b, Forall (λ s, meta_wf (s_meta s)) (<[i:=mkSlot m b]> ss)).
Proof.
  intros Hi Hm d'. pose proof Hm as (_ & Hlen & Hb).
  pose proof (slot_in_bounds i s Hi). pose proof playout_fits.
  pose proof (lo_rem _ _ _ HL). split_and!.
  - apply zlen_splice; lia.
  - apply bytes_ok_splice; [apply (lo_bytes _ _ _ HL) | done].
  - apply (heap_frame_low _ _ _ _ (KV_META_SIZE * zlen ss)); try lia; [apply (lo_heap _ _ _ HL)|].
    rewrite (lo_low _ _ _ HL). lia.
  - intros b. apply (slots_set d ss i s (mkSlot m b)); auto; [apply (lo_metas _ _ _ HL)|lia].
  - intros b. apply Forall_insert; [apply (lo_wf _ _ _ HL) | done].
Qed.

Lemma playout_set_meta i s m :
  ss !! i = Some s → meta_wf m → d_off m = s_off s →
  PLayout h (splice d (KV_META_SIZE * Z.of_nat i) (d_enc m)) (<[i:=mkSlot m (s_body s)]> ss).
Proof.
  intros Hi Hm Ho. destruct (playout_write_meta i s _ Hi Hm) as (Hl & Hb & Hh & Hs & Hw).
  assert (s_real (mkSlot m (s_body s)) = s_real s) as Hr by by apply d_real_off.
  assert (s_off (mkSlot m (s_body s)) = s_off s) as Hso by done.
  apply playout_data; auto using zlen_insert; [by apply (lowest_replace _ i s)|].
  apply (heap_perm _ (mkSlot m (s_body s) :: delete i ss)); [by rewrite (insert_perm i _ s)|].
  apply (heap_perm _ _ _ (delete_perm i s ss Hi)) in Hh. destruct Hh as [Hf [Hsep Ha]].
  apply Forall_cons in Hf as [Hst Hf]. split; [constructor; [|done]|split; [|done]].
  - unfold stored. rewrite Hr, Hso. exact Hst.
  - eapply Forall_impl; [exact Hsep|]. intros t. unfold sep. by rewrite Hr, Hso.
Qed.

(** Overwriting part of a record in place. *)
Lemma playout_overwrite i s k v :
  ss !! i = Some s → s_real s = true → bytes_ok v → 0 <= k → k + zlen v <= zlen (s_body s) →
  0 <= s_off s + k ∧ s_off s + k + zlen v <= zlen d ∧
  PLayout h (splice d (s_off s + k) v) (<[i:=mkSlot (s_meta s) (splice (s_body s) k v)]> ss).
Proof.
  intros Hi Hr Hv Hk Hb. destruct (playout_stored i s Hi Hr) as (H1 & H2 & _).
  pose proof playout_fits. pose proof (lo_rem _ _ _ HL). pose proof (zlen_nonneg ss).
  assert (0 <= KV_META_SIZE * zlen ss) by (unfold KV_META_SIZE; lia).
  split; [lia|]. split; [lia|]. apply playout_data; auto using zlen_insert.
  - apply zlen_splice; lia.
  - apply bytes_ok_splice; [apply (lo_bytes _ _ _ HL) | done].
  - by apply (lowest_replace _ i s).
  - apply slots_same_meta; [|done]. apply slots_frame; [apply (lo_metas _ _ _ HL)|lia..].
  - apply Forall_insert; [apply (lo_wf _ _ _ HL)|].
    by apply (Forall_lookup_1 _ _ _ _ (lo_wf _ _ _ HL) Hi).
  - eapply heap_perm; [symmetry; by apply (insert_perm i _ s)|].
    apply heap_modify; auto. eapply heap_perm; [|apply (lo_heap _ _ _ HL)].
    by apply delete_perm.
Qed.

Lemma playout_shrink i s k :
  ss !! i = Some s → s_real s = true → 0 <= k <= zlen (s_body s) →
  PLayout h d (<[i:=mkSlot (s_meta s) (take (Z.to_nat k) (s_body s))]> ss).
Proof.
  intros Hi Hr Hk. apply playout_data; auto using zlen_insert.
  - apply (lo_bytes _ _ _ HL).
  - by apply (lowest_replace _ i s).
  - apply slots_same_meta; [apply (lo_metas _ _ _ HL) | done].
  - apply Forall_insert; [apply (lo_wf _ _ _ HL)|].
    by apply (Forall_lookup_1 _ _ _ _ (lo_wf _ _ _ HL) Hi).
  - eapply heap_perm; [symmetry; by apply (insert_perm i _ s)|].
    apply heap_shrink; auto. eapply heap_perm; [|apply (lo_heap _ _ _ HL)].
    by apply delete_perm.
Qed.

(** The header after space has been taken. *)
Lemma playout_take_space d' ss' r h' :
  zlen d' = zlen d → bytes_ok d' → meta_ok h' → node_size h' = node_size h →
  meta_count_with_fence h' = zlen ss' → remaining_size h' = r → 0 <= r →
  lowest (zlen d') ss' = KV_META_SIZE * zlen ss' + r →
  slots_at d' ss' → Forall (λ s, meta_wf (s_meta s)) ss' → heap d' ss' → PLayout h' d' ss'.
Proof.
  intros Hd Hb Hm Hn Hc Hr H0 Hl Hs Hw Hh. destruct HL. split; auto; try congruence; lia.
Qed.

(** Moving a record to fresh space below every record. *)
Lemma playout_move i s t :
  ss !! i = Some s → s_real t = true → meta_wf (s_meta t) → bytes_ok (s_body t) →
  zlen (s_body t) <= remaining_size h →
  s_off t = KV_META_SIZE * zlen ss + remaining_size h - zlen (s_body t) →
  let d' := splice (splice d (KV_META_SIZE * Z.of_nat i) (d_enc (s_meta t)))
              (s_off t) (s_body t) in
  PLayout (set_remaining h (remaining_size h - zlen (s_body t))) d' (<[i:=t]> ss).
Proof.
  intros Hi Hr Hm Hb Hsp Ho d'. pose proof playout_fits as (Hf1 & _).
  pose proof (lo_low _ _ _ HL) as Hlow. pose proof (zlen_nonneg (s_body t)).
  destruct (playout_write_meta i s _ Hi Hm) as (Hl & Hbd & Hh & Hs & Hw).
  set (d1 := splice d _ _) in *.
  pose proof (zlen_nonneg ss). assert (0 <= KV_META_SIZE * zlen ss) by (unfold KV_META_SIZE; lia).
  assert (zlen d' = zlen d) as Hd by (unfold d'; rewrite zlen_splice; lia).
  assert (lowest (zlen d) ss <= lowest (zlen d) (delete i ss)) as Hdel.
  { rewrite (lowest_perm _ _ _ (delete_perm i s ss Hi)). cbn. destruct (s_real s); lia. }
  destruct t as [m b]. cbn [s_meta s_body] in *. unfold set_remaining.
  apply playout_take_space with (r := remaining_size h - zlen b);
    cbn [remaining_size node_size]; auto; try lia.
  - by apply bytes_ok_splice.
  - apply (lo_word _ _ _ HL).
  - rewrite zlen_insert. apply (lo_count _ _ _ HL).
  - rewrite zlen_insert, Hd, (lowest_perm _ _ _ (insert_perm i _ s ss Hi)). cbn.
    rewrite Hr. lia.
  - apply slots_frame; [apply Hs|rewrite zlen_insert; lia|lia].
  - eapply heap_perm; [symmetry; by apply (insert_perm i _ s)|].
    apply (heap_add d1 (mkSlot m b)); auto; cbn [s_body]; try lia; try (rewrite Hl; lia).
    eapply heap_tail, heap_perm; [|exact Hh]. by apply delete_perm.
Qed.

(** A new descriptor at [pos] and its record below every record. *)
Lemma playout_add pos t h' :
  (pos <= length ss)%nat → s_real t = true → meta_wf (s_meta t) → bytes_ok (s_body t) →
  KV_META_SIZE + zlen (s_body t) <= remaining_size h →
  s_off t = KV_META_SIZE * zlen ss + remaining_size h - zlen (s_body t) →
  let p := Z.of_nat pos in
  let d1 := splice d (KV_META_SIZE * (p + 1))
              (sub_bytes d (KV_META_SIZE * p) (KV_META_SIZE * (zlen ss - p))) in
  let d2 := splice d1 (KV_META_SIZE * p) (d_enc (s_meta t)) in
  let d' := splice d2 (s_off t) (s_body t) in
  meta_ok h' → node_size h' = node_size h → meta_count_with_fence h' = zlen ss + 1 →
  remaining_size h' = remaining_size h - (KV_META_SIZE + zlen (s_body t)) →
  PLayout h' d' (insert_at pos t ss).
Proof.
  intros Hp Hr Hm Hb Hsp Ho p d1 d2 d' Hmo Hmn Hmc Hmr.
  pose proof playout_fits as (Hf1 & _). pose proof Hm as (_ & Hlen & Hbm).
  pose proof (lo_low _ _ _ HL) as Hlow. pose proof (zlen_nonneg (s_body t)).
  assert (0 <= p <= zlen ss) as Hpz by (unfold zlen; lia).
  set (src := sub_bytes d _ _) in *. unfold KV_META_SIZE in *.
  assert (zlen src = 8 * (zlen ss - p)) as Hsrc by (apply zlen_sub; lia).
  assert (zlen d1 = zlen d) as Hd1 by (apply zlen_splice; lia).
  assert (zlen d2 = zlen d) as Hd2 by (unfold d2; rewrite zlen_splice; lia).
  assert (zlen d' = zlen d) as Hd by (unfold d'; rewrite zlen_splice; lia).
  assert (heap d2 ss) as Hh.
  { apply (heap_frame_low d1 _ _ _ (8 * (zlen ss + 1))); try (rewrite ?Hd1, ?Hlow; lia).
    apply (heap_frame_low _ _ _ _ (8 * (zlen ss + 1))); try (rewrite ?Hlow; lia).
    apply (lo_heap _ _ _ HL). }
  eapply playout_take_space; eauto; rewrite ?zlen_insert_at; try (unfold KV_META_SIZE; lia).
  - pose proof (lo_bytes _ _ _ HL). repeat apply bytes_ok_splice; auto. by apply bytes_ok_sub.
  - rewrite Hd, (lowest_perm _ _ _ (insert_at_perm pos t ss)). cbn [lowest].
    rewrite Hr. unfold KV_META_SIZE. lia.
  - apply slots_frame; [|rewrite zlen_insert_at; unfold KV_META_SIZE; lia|rewrite Hd2; lia].
    apply (slots_insert d ss pos t); auto; [apply (lo_metas _ _ _ HL)|unfold KV_META_SIZE; lia].
  - rewrite insert_at_perm. constructor; [done | apply (lo_wf _ _ _ HL)].
  - eapply heap_perm; [symmetry; apply insert_at_perm|].
    apply heap_add; auto; [lia|]. rewrite Hd2, Hlow. lia.
Qed.

(** Appending a descriptor with its record. *)
Lemma playout_append t h' :
  s_real t = true → meta_wf (s_meta t) → bytes_ok (s_body t) →
  KV_META_SIZE + zlen (s_body t) <= remaining_size h →
  s_off t = KV_META_SIZE * zlen ss + remaining_size h - zlen (s_body t) →
  meta_ok h' → node_size h' = node_size h → meta_count_with_fence h' = zlen ss + 1 →
  remaining_size h' = remaining_size h - (KV_META_SIZE + zlen (s_body t)) →
  let d' := splice (splice d (KV_META_SIZE * zlen ss) (d_enc (s_meta t))) (s_off t) (s_body t) in
  PLayout h' d' (ss ++ [t]).
Proof.
  intros. pose proof (playout_add (length ss) t h') as Ha. rewrite insert_at_end in Ha.
  unfold zlen in Ha at 3. rewrite Z.sub_diag, Z.mul_0_r, sub_zero, splice_nil in Ha.
  by apply Ha.
Qed.

Lemma playout_total :
  KV_META_SIZE * zlen ss + remaining_size h + total_size ss <= zlen d.
Proof. rewrite <- (lo_low _ _ _ HL). apply heap_total, (lo_heap _ _ _ HL). Qed.

(** The descriptor writes of an insertion stay inside the page. *)
Lemma playout_shift_ok pos m :
  (pos <= length ss)%nat → zlen (d_enc m) = KV_META_SIZE → KV_META_SIZE <= remaining_size h →
  let p := Z.of_nat pos in
  let src := sub_bytes d (KV_META_SIZE * p) (KV_META_SIZE * (zlen ss - p)) in
  let d1 := splice d (KV_META_SIZE * (p + 1)) src in
  let d2 := splice d1 (KV_META_SIZE * p) (d_enc m) in
  slice d (p * KV_META_SIZE) (KV_META_SIZE * (zlen ss - p)) = Ret src ∧
  blit d ((p + 1) * KV_META_SIZE) src = Ret d1 ∧
  blit d1 (p * KV_META_SIZE) (d_enc m) = Ret d2 ∧ zlen d2 = zlen d.
Proof.
  intros Hpos Hm Hrem p src d1 d2. pose proof playout_fits as (Hf & _).
  assert (0 <= p <= zlen ss) as Hp by (unfold zlen; lia). unfold KV_META_SIZE in *.
  assert (zlen src = 8 * (zlen ss - p)) as Hsrc by (apply zlen_sub; lia).
  assert (zlen d1 = zlen d) as Hd1 by (apply zlen_splice; lia).
  rewrite !(Z.mul_comm _ 8). split_and!.
  - apply slice_ok; lia.
  - apply blit_ok; lia.
  - apply blit_ok; lia.
  - unfold d2. rewrite zlen_splice; lia.
Qed.
End layout.

(** Dropping the last descriptors. *)
Lemma playout_prefix h d ss1 ss2 h' :
  PLayout h d (ss1 ++ ss2) → meta_ok h' → node_size h' = node_size h →
  meta_count_with_fence h' = zlen ss1 →
  remaining_size h' = lowest (zlen d) ss1 - KV_META_SIZE * zlen ss1 →
  PLayout h' d ss1.
Proof.
  intros HL Hm Hn Hc Hr. pose proof (lowest_app_l (zlen d) ss1 ss2) as Hlow.
  rewrite (lo_low _ _ _ HL), zlen_app in Hlow. pose proof (lo_rem _ _ _ HL).
  pose proof (zlen_nonneg ss2). unfold KV_META_SIZE in *.
  destruct HL. split; auto; try congruence; try lia.
  - unfold KV_META_SIZE. lia.
  - intros i s Hi. apply lo_metas0. rewrite lookup_app_l; [done|]. by eapply lookup_lt_Some.
  - by apply Forall_app in lo_wf0 as [? _].
  - destruct lo_heap0 as [Hst Ha]. split; [by apply Forall_app in Hst as [? _]|by eapply apart_app_l].
Qed.
End page.

Arguments lo_size {M _ h} d ss _.
Arguments lo_data {M _ h} d ss _.
Arguments lo_bytes {M _ h} d ss _.
Arguments lo_word {M _ h} d ss _.
Arguments lo_count {M _ h} d ss _.
Arguments lo_rem {M _ h} d ss _.
Arguments lo_low {M _ h} d ss _.
Arguments lo_metas {M _ h} d ss _.
Arguments lo_wf {M _ h} d ss _.
Arguments lo_heap {M _ h} d ss _.
