(* ===== verification/LeafLayout.v ===== *)
(** The memory layout of a leaf page: the leaf instance of the slotted page of
    PageLayout.v, and how the elementary reads and writes of src/nodes/leaf_node.rs
    act on it. *)
From stdpp Require Import base numbers list.
From Stdlib Require Import ZArith Lia.
From S2P Require Import Prelude Bits NodeMeta LeafMeta LeafNode.
From S2P Require Export PageLayout.

(** The infinite fences own no record bytes; their offset is a marker. *)
Definition not_infinite (m : LeafKVMeta) : bool :=
  negb (is_infinite_low_fence_key m || is_infinite_high_fence_key m).

Lemma not_infinite_offset m m' : offset m = offset m' → not_infinite m = not_infinite m'.
Proof.
  intros H. unfold not_infinite, is_infinite_low_fence_key, is_infinite_high_fence_key.
  by rewrite H.
Qed.

#[export] Instance leaf_descriptor : Descriptor LeafKVMeta := {|
  d_off := offset; d_real := not_infinite; d_enc := encode_meta; d_dec := decode_meta;
  d_real_off := not_infinite_offset |}.

Abbreviation slot := (PageLayout.slot LeafKVMeta).

Abbreviation Layout n ss := (PLayout (meta n) (data n) ss) (only parsing).

Lemma leaf_real (s : slot) :
  s_real s =
  negb (is_infinite_low_fence_key (s_meta s) || is_infinite_high_fence_key (s_meta s)).
Proof. done. Qed.

Lemma leaf_off (s : slot) : s_off s = offset (s_meta s).
Proof. done. Qed.

Lemma leaf_meta_len m : meta_wf m → zlen (encode_meta m) = KV_META_SIZE.
Proof. by intros (_ & ? & _). Qed.

(** ** Reading a laid out page *)
Section layout.
Context (n : LeafNode) (ss : list slot).
Hypothesis HL : Layout n ss.

Lemma layout_fits :
  KV_META_SIZE * zlen ss + remaining_size (meta n) <= zlen (data n) ∧
  zlen (data n) <= MAX_LEAF_PAGE_SIZE - LEAF_HEADER ∧ zlen ss <= 4092.
Proof. exact (playout_fits _ _ _ HL). Qed.

Lemma layout_count : count n = zlen ss.
Proof. exact (lo_count _ _ HL). Qed.

Lemma layout_size : LEAF_HEADER <= node_size (meta n) <= MAX_LEAF_PAGE_SIZE.
Proof. exact (lo_size _ _ HL). Qed.

Lemma layout_len : zlen (data n) = node_size (meta n) - LEAF_HEADER.
Proof. exact (lo_data _ _ HL). Qed.

Lemma layout_get i s : ss !! i = Some s → get_kv_meta n (Z.of_nat i) = Ret (s_meta s).
Proof.
  intros Hi. destruct (playout_meta _ _ _ HL i s Hi) as (Hs & Hd & Hlt).
  unfold get_kv_meta, count. rewrite assert_true.
  2:{ apply andb_true_iff; split; [apply Z.leb_le | apply Z.ltb_lt]; lia. }
  ret_step. rewrite Hs. ret_step. f_equal. exact Hd.
Qed.

Lemma layout_stored i s :
  ss !! i = Some s → s_real s = true →
  KV_META_SIZE * zlen ss + remaining_size (meta n) <= s_off s ∧
  s_off s + zlen (s_body s) <= zlen (data n) ∧
  sub_bytes (data n) (s_off s) (zlen (s_body s)) = s_body s.
Proof. apply (playout_stored _ _ _ HL). Qed.

(** Reading part of a record. *)
Lemma layout_read i s k len :
  ss !! i = Some s → s_real s = true → 0 <= k → 0 <= len → k + len <= zlen (s_body s) →
  raw_read (data n) (s_off s + k) len = Ret (sub_bytes (s_body s) k len).
Proof. apply (playout_read _ _ _ HL). Qed.

Lemma min_offset_loop (l1 l2 : list slot) acc :
  ss = l1 ++ l2 →
  foldM (min_offset_step n) acc (seqZ (zlen l1) (zlen l2)) = Ret (lowest acc l2).
Proof.
  revert l1 acc. induction l2 as [|s l2 IH]; intros l1 acc Hss; [done|].
  rewrite zlen_cons, seqZ_cons by (pose proof (zlen_nonneg l2); lia). cbn [foldM].
  assert (min_offset_step n acc (zlen l1) =
          Ret (if s_real s then Z.min acc (s_off s) else acc)) as ->.
  { unfold min_offset_step, zlen. rewrite (layout_get _ s).
    - rewrite leaf_real. ret_step. by destruct (_ || _).
    - subst. rewrite lookup_app_r by lia. by rewrite Nat.sub_diag. }
  ret_step.
  replace (Z.succ (zlen l1)) with (zlen (l1 ++ [s])) by (rewrite zlen_app, zlen_cons, zlen_nil; lia).
  replace (Z.pred (1 + zlen l2)) with (zlen l2) by lia.
  rewrite IH by (by rewrite <- app_assoc). f_equal. cbn [lowest].
  destruct (s_real s); [apply lowest_min | done].
Qed.

(** The debug sanity check of [current_lowest_offset] succeeds. *)
Lemma layout_lowest :
  current_lowest_offset n = Ret (KV_META_SIZE * zlen ss + remaining_size (meta n)).
Proof.
  pose proof layout_fits as (H1 & H2 & H3). pose proof (lo_rem _ _ HL).
  pose proof layout_len as Hd. pose proof layout_size.
  pose proof (zlen_nonneg ss).
  unfold KV_META_SIZE, LEAF_HEADER, MAX_LEAF_PAGE_SIZE in *.
  unfold current_lowest_offset, KV_META_SIZE. rewrite layout_count.
  rewrite mul16_ok by (unfold U16; lia). cbn.
  rewrite add16_ok by (unfold U16; lia). cbn.
  unfold max_data_size, LEAF_HEADER. rewrite subu_ok by lia. cbn.
  rewrite <- Hd, as_u16_id by (unfold U16; lia).
  rewrite (min_offset_loop [] ss) by done. cbn.
  rewrite (lo_low _ _ HL), assert_true.
  - cbn. f_equal. unfold KV_META_SIZE. lia.
  - apply Z.eqb_eq. unfold KV_META_SIZE. lia.
Qed.
End layout.

(** ** Writing a laid out page *)
Section updates.
Context (n : LeafNode) (ss : list slot).
Hypothesis HL : Layout n ss.

Lemma real_offset (m m' : LeafKVMeta) b b' :
  offset m' = offset m → s_real (mkSlot m' b') = s_real (mkSlot m b).
Proof. apply not_infinite_offset. Qed.

Lemma update_kv_meta_spec i s f :
  ss !! i = Some s → meta_wf (f (s_meta s)) →
  update_kv_meta n (Z.of_nat i) f =
    Ret (set_data n (splice (data n) (KV_META_SIZE * Z.of_nat i) (encode_meta (f (s_meta s))))).
Proof.
  intros Hi (_ & Hlen & _). cbn [d_enc leaf_descriptor] in Hlen. unfold update_kv_meta, write_initial_kv_meta.
  rewrite (layout_get n ss HL i s Hi). ret_step.
  pose proof (slot_in_bounds ss i s Hi). pose proof (layout_fits n ss HL).
  pose proof (lo_rem _ _ HL). by rewrite blit_ok by (rewrite ?Hlen; lia).
Qed.

Lemma layout_set_meta i s f :
  ss !! i = Some s → meta_wf (f (s_meta s)) → offset (f (s_meta s)) = s_off s →
  ∃ d, update_kv_meta n (Z.of_nat i) f = Ret (set_data n d) ∧
    Layout (set_data n d) (<[i:=mkSlot (f (s_meta s)) (s_body s)]> ss).
Proof.
  intros Hi Hm Ho. eexists. split; [by apply (update_kv_meta_spec i s)|].
  by apply (playout_set_meta _ _ _ HL).
Qed.

(** Overwriting part of a record in place. *)
Lemma layout_overwrite i s k v :
  ss !! i = Some s → s_real s = true → bytes_ok v → 0 <= k → k + zlen v <= zlen (s_body s) →
  ∃ d, blit (data n) (s_off s + k) v = Ret d ∧
    Layout (set_data n d) (<[i:=mkSlot (s_meta s) (splice (s_body s) k v)]> ss).
Proof.
  intros Hi Hr Hv Hk Hb.
  destruct (playout_overwrite _ _ _ HL i s k v) as (? & ? & HL'); auto.
  eexists. split; [by apply blit_ok | done].
Qed.

(** Moving a record to fresh space below every record. *)
Lemma layout_move i s t :
  ss !! i = Some s → s_real t = true → meta_wf (s_meta t) → bytes_ok (s_body t) →
  zlen (s_body t) <= remaining_size (meta n) →
  s_off t = KV_META_SIZE * zlen ss + remaining_size (meta n) - zlen (s_body t) →
  let d := splice (splice (data n) (KV_META_SIZE * Z.of_nat i) (encode_meta (s_meta t)))
             (s_off t) (s_body t) in
  Layout (set_remaining_size (set_data n d) (remaining_size (meta n) - zlen (s_body t)))
    (<[i:=t]> ss).
Proof. apply (playout_move _ _ _ HL). Qed.

(** A new descriptor at [pos] and its record below every record. *)
Lemma layout_add pos t m :
  (pos <= length ss)%nat → s_real t = true → meta_wf (s_meta t) → bytes_ok (s_body t) →
  KV_META_SIZE + zlen (s_body t) <= remaining_size (meta n) →
  s_off t = KV_META_SIZE * zlen ss + remaining_size (meta n) - zlen (s_body t) →
  let p := Z.of_nat pos in
  let d1 := splice (data n) (KV_META_SIZE * (p + 1))
              (sub_bytes (data n) (KV_META_SIZE * p) (KV_META_SIZE * (zlen ss - p))) in
  let d2 := splice d1 (KV_META_SIZE * p) (encode_meta (s_meta t)) in
  let d := splice d2 (s_off t) (s_body t) in
  meta_ok m → node_size m = node_size (meta n) → meta_count_with_fence m = zlen ss + 1 →
  remaining_size m = remaining_size (meta n) - (KV_META_SIZE + zlen (s_body t)) →
  Layout (set_meta (set_data n d) m) (insert_at pos t ss).
Proof. apply (playout_add _ _ _ HL). Qed.
End updates.

(** Overwriting the end of a record in place and updating its descriptor. *)
Lemma layout_rewrite n ss i s k v f :
  Layout n ss → ss !! i = Some s → s_real s = true → bytes_ok v → 0 <= k →
  k + zlen v <= zlen (s_body s) → meta_wf (f (s_meta s)) → offset (f (s_meta s)) = s_off s →
  ∃ d d', blit (data n) (s_off s + k) v = Ret d ∧
    update_kv_meta (set_data n d) (Z.of_nat i) f = Ret (set_data n d') ∧
    Layout (set_data n d')
      (<[i:=mkSlot (f (s_meta s)) (take (Z.to_nat (k + zlen v)) (splice (s_body s) k v))]> ss).
Proof.
  intros HL Hi Hr Hv Hk Hb Hm Ho. pose proof (lookup_lt_Some _ _ _ Hi) as Hlt.
  destruct (layout_overwrite n ss HL i s k v) as (d & Hd & HL1); auto.
  set (s1 := mkSlot (s_meta s) _) in HL1.
  assert (<[i:=s1]> ss !! i = Some s1) as Hs1 by by apply list_lookup_insert_eq.
  destruct (layout_set_meta _ _ HL1 i s1 f Hs1) as (d2 & Hd2 & HL2); auto.
  rewrite list_insert_insert_eq in HL2. set (s2 := mkSlot _ _) in HL2.
  assert (<[i:=s2]> ss !! i = Some s2) as Hs2 by by apply list_lookup_insert_eq.
  exists d, d2. split_and!; [done|done|].
  pose proof (playout_shrink _ _ _ HL2 i s2 (k + zlen v) Hs2) as HL3.
  rewrite list_insert_insert_eq in HL3. apply HL3.
  - destruct s as [m b]. rewrite <- Hr. by apply real_offset.
  - cbn [s2 s1 s_body]. pose proof (zlen_nonneg v). rewrite zlen_splice; lia.
Qed.

(** The descriptor writes of an insertion stay inside the page. *)
Lemma layout_shift_ok n ss pos m :
  Layout n ss → (pos <= length ss)%nat → zlen (encode_meta m) = KV_META_SIZE →
  KV_META_SIZE <= remaining_size (meta n) →
  let p := Z.of_nat pos in
  let src := sub_bytes (data n) (KV_META_SIZE * p) (KV_META_SIZE * (zlen ss - p)) in
  let d1 := splice (data n) (KV_META_SIZE * (p + 1)) src in
  let d2 := splice d1 (KV_META_SIZE * p) (encode_meta m) in
  slice (data n) (p * KV_META_SIZE) (KV_META_SIZE * (zlen ss - p)) = Ret src ∧
  blit (data n) ((p + 1) * KV_META_SIZE) src = Ret d1 ∧
  write_initial_kv_meta (set_data n d1) p m = Ret (set_data n d2) ∧ zlen d2 = zlen (data n).
Proof.
  intros HL Hpos Hm Hrem p src d1 d2.
  destruct (playout_shift_ok _ _ _ HL pos m Hpos Hm Hrem) as (? & ? & Hw & ?).
  split_and!; [done|done| |done].
  unfold write_initial_kv_meta. cbn [data set_data]. rewrite (Z.mul_comm KV_META_SIZE).
  unfold d1, d2, src, p. cbn [d_enc leaf_descriptor] in Hw. by rewrite Hw.
Qed.

Lemma layout_total n ss :
  Layout n ss →
  KV_META_SIZE * zlen ss + remaining_size (meta n) + total_size ss <= zlen (data n).
Proof. apply playout_total. Qed.

Lemma layout_prefix n ss1 ss2 m :
  Layout n (ss1 ++ ss2) → meta_ok m → node_size m = node_size (meta n) →
  meta_count_with_fence m = zlen ss1 →
  remaining_size m = lowest (zlen (data n)) ss1 - KV_META_SIZE * zlen ss1 →
  Layout (set_meta n m) ss1.
Proof. apply playout_prefix. Qed.
