(* ===== verification/LeafRepr.v ===== *)
(** The representation invariant of a leaf page: the bytes of the page hold optional
    fences and records in strict key order, and what the readers of
    src/nodes/leaf_node.rs return on such a page. *)
From stdpp Require Import base numbers list sorting.
From Stdlib Require Import ZArith Lia.
From S2P Require Import Prelude Bits NodeMeta LeafMeta LeafNode LeafLayout Entries.

(** The header fields a page keeps while its records change. *)
Definition same_header (n n' : LeafNode) : Prop :=
  prefix_len n' = prefix_len n ∧ next_level n' = next_level n ∧ lsn n' = lsn n ∧
  snapshot_version n' = snapshot_version n ∧
  node_size (meta n') = node_size (meta n) ∧ same_flags (meta n) (meta n').

Lemma same_flags_refl m : same_flags m m.
Proof. done. Qed.

Lemma same_header_refl n : same_header n n.
Proof. done. Qed.

Lemma same_header_trans n1 n2 n3 : same_header n1 n2 → same_header n2 n3 → same_header n1 n3.
Proof. unfold same_header, same_flags. intuition congruence. Qed.

(** A record of the page: its entry, its reference bit and where its bytes are. *)
Record krec := mkKrec { k_ent : entry; k_ref : bool; k_off : Z }.

Definition k_key (r : krec) : bytes := e_key (k_ent r).
Definition k_val (r : krec) : bytes := e_val (k_ent r).

Inductive fence := FInf | FAt (off : Z) (key : bytes).

Definition fence_key (f : fence) : bytes := match f with FInf => [] | FAt _ k => k end.

Record page := mkPage { p_fences : option (fence * fence); p_recs : list krec }.

Definition p_entries (p : page) : list entry := map k_ent (p_recs p).

(** ** Slots *)
Definition rec_slot (pl : Z) (r : krec) : slot :=
  mkSlot
    (pack (k_off r) (zlen (k_key r)) (e_op (k_ent r)) (zlen (k_val r)) (k_ref r)
       (preview_of (k_key r) pl))
    (drop (Z.to_nat pl) (k_key r) ++ k_val r).

Definition low_slot (f : fence) : slot :=
  match f with
  | FInf => mkSlot make_infinite_low_fence_key []
  | FAt off key => mkSlot (pack off (zlen key) OpInsert 0 false (preview_of key 0)) key
  end.

Definition high_slot (pl : Z) (f : fence) : slot :=
  match f with
  | FInf => mkSlot make_infinite_high_fence_key []
  | FAt off key =>
      mkSlot (pack off (zlen key) OpInsert 0 false (preview_of key pl)) (drop (Z.to_nat pl) key)
  end.

Definition fence_slots (pl : Z) (f : option (fence * fence)) : list slot :=
  match f with None => [] | Some (l, h) => [low_slot l; high_slot pl h] end.

Definition page_slots (pl : Z) (p : page) : list slot :=
  fence_slots pl (p_fences p) ++ map (rec_slot pl) (p_recs p).

(** ** Well-formed parts *)
Definition real_offset_ok (off : Z) : Prop := 0 <= off < 65534.

Definition entry_ok (e : entry) : Prop :=
  zlen (e_key e) < 2 ^ 14 ∧ zlen (e_val e) < 2 ^ 15 ∧ bytes_ok (e_key e) ∧ bytes_ok (e_val e) ∧
  value_ok (e_op e) (e_val e) = true.

Definition rec_ok (r : krec) : Prop := real_offset_ok (k_off r) ∧ entry_ok (k_ent r).

Definition fence_ok (f : fence) : Prop :=
  match f with
  | FInf => True
  | FAt off key => real_offset_ok off ∧ key ≠ [] ∧ zlen key < 2 ^ 14 ∧ bytes_ok key
  end.

(** The key range of a page: the low fence is included, the high fence is not. *)
Definition above_low (f : fence) (key : bytes) : Prop :=
  match f with FInf => True | FAt _ k => cmp_bytes k key ≠ Gt end.

Definition below_high (f : fence) (key : bytes) : Prop :=
  match f with FInf => True | FAt _ k => bytes_lt key k end.

Definition in_range (f : option (fence * fence)) (key : bytes) : Prop :=
  match f with None => True | Some (l, h) => above_low l key ∧ below_high h key end.

Definition fences_prefix (f : option (fence * fence)) : Z :=
  match f with None => 0 | Some (l, h) => common_prefix_len (fence_key l) (fence_key h) end.

Record Repr (n : LeafNode) (p : page) : Prop := {
  re_layout : Layout n (page_slots (prefix_len n) p);
  re_flag : leaf_has_fence n = bool_decide (is_Some (p_fences p));
  re_prefix : prefix_len n = fences_prefix (p_fences p);
  re_fences : match p_fences p with None => True | Some (l, h) => fence_ok l ∧ fence_ok h end;
  re_recs : Forall rec_ok (p_recs p);
  re_order : ordered (p_entries p);
  re_range : Forall (λ e, in_range (p_fences p) (e_key e)) (p_entries p);
}.

Definition leaf_wf (n : LeafNode) : Prop := ∃ p, Repr n p.

(** ** The contents of a page, read with the readers of the source *)
Definition read_entry (n : LeafNode) (i : Z) : outcome entry :=
  m ← get_kv_meta n i;
  key ← get_full_key n m;
  op ← op_type m;
  val ← get_value n m;
  Ret (mkEntry key op val).

Definition leaf_entries (n : LeafNode) : outcome (list entry) :=
  mapM (read_entry n) (meta_positions n).

(** The key lies between the fences of the page. *)
Definition key_in_fences (n : LeafNode) (key : bytes) : outcome bool :=
  if leaf_has_fence n then
    low ← get_low_fence_key n;
    high ← get_high_fence_key n;
    Ret (match cmp_bytes low key with Gt => false | _ => true end &&
         ((zlen high =? 0) || match cmp_bytes key high with Lt => true | _ => false end))
  else Ret true.

(** ** Slots of records and fences *)
Section slot_facts.
Implicit Types (r : krec) (pl : Z).

Lemma pack_meta_wf off klen o vlen b pv :
  pack_ok off klen vlen pv → meta_wf (pack off klen o vlen b pv).
Proof.
  intros H. split_and!; [by apply decode_encode_pack|by apply zlen_encode_pack|].
  by apply (bytes_ok_encode_pack off klen o vlen b pv).
Qed.

Lemma inf_meta_wf : meta_wf make_infinite_low_fence_key ∧ meta_wf make_infinite_high_fence_key.
Proof.
  split; (split_and!; [by vm_compute|by vm_compute|]);
    apply Forall_app_2; [apply bytes_ok_le| |apply bytes_ok_le|];
    (apply Forall_app_2; [apply bytes_ok_le|]; apply Forall_app_2; [apply bytes_ok_le|]);
    repeat constructor; cbn; lia.
Qed.

Lemma pack_real off klen o vlen b pv body :
  real_offset_ok off → s_real (mkSlot (pack off klen o vlen b pv) body) = true.
Proof.
  intros H. rewrite leaf_real. unfold is_infinite_low_fence_key, is_infinite_high_fence_key.
  cbn [s_meta offset pack]. unfold real_offset_ok in H.
  by rewrite !(proj2 (Z.eqb_neq _ _)) by lia.
Qed.

Lemma rec_pack_ok pl r :
  rec_ok r → pack_ok (k_off r) (zlen (k_key r)) (zlen (k_val r)) (preview_of (k_key r) pl).
Proof.
  intros [Ho (Hk & Hv & Hb & _)]. unfold real_offset_ok in Ho.
  apply pack_ok_prefixed; auto; [unfold U16; lia|].
  pose proof (zlen_nonneg (k_val r)). unfold k_val in *. lia.
Qed.

Lemma rec_real pl r : rec_ok r → s_real (rec_slot pl r) = true.
Proof. intros [Ho _]. by apply pack_real. Qed.

Lemma rec_off pl r : s_off (rec_slot pl r) = k_off r.
Proof. done. Qed.

Lemma rec_body_len pl r :
  0 <= pl <= zlen (k_key r) → zlen (s_body (rec_slot pl r)) = zlen (k_key r) - pl + zlen (k_val r).
Proof. intros H. cbn. by rewrite zlen_app, zlen_drop. Qed.
End slot_facts.

Lemma p_entries_lookup p i r : p_recs p !! i = Some r → p_entries p !! i = Some (k_ent r).
Proof. intros Hi. unfold p_entries. by rewrite list_lookup_fmap, Hi. Qed.

Lemma p_entries_lookup_inv p i e :
  p_entries p !! i = Some e → ∃ r, p_recs p !! i = Some r ∧ k_ent r = e.
Proof.
  unfold p_entries. rewrite list_lookup_fmap. destruct (p_recs p !! i) as [r|]; [|done].
  intros [= <-]. by exists r.
Qed.

Lemma low_in_range lo lk h key :
  in_range (Some (FAt lo lk, h)) key → in_range (Some (FAt lo lk, h)) lk.
Proof.
  intros [H1 H2]. split; [cbn; by rewrite cmp_refl|].
  destruct h as [|ho hk]; [done|]. by eapply cmp_le_lt_trans.
Qed.

(** ** A represented page *)
Section repr.
Context (n : LeafNode) (p : page).
Hypothesis HR : Repr n p.

Local Abbreviation pl := (prefix_len n).
Local Abbreviation fc := (length (fence_slots pl (p_fences p))).

Lemma repr_first : first_meta_pos_after_fence n = Z.of_nat fc.
Proof.
  unfold first_meta_pos_after_fence. rewrite (re_flag _ _ HR).
  by destruct (p_fences p) as [[l h]|].
Qed.

Lemma repr_count : count n = Z.of_nat fc + zlen (p_recs p).
Proof.
  rewrite (layout_count _ _ (re_layout _ _ HR)). unfold page_slots, zlen.
  rewrite length_app, length_map. lia.
Qed.

Lemma repr_slot i r : p_recs p !! i = Some r → page_slots pl p !! (fc + i)%nat = Some (rec_slot pl r).
Proof.
  intros Hi. unfold page_slots. rewrite lookup_app_r by lia.
  replace (fc + i - fc)%nat with i by lia. by rewrite list_lookup_fmap, Hi.
Qed.

Lemma repr_rec_ok i r : p_recs p !! i = Some r → rec_ok r.
Proof. intros Hi. exact (Forall_lookup_1 _ _ _ _ (re_recs _ _ HR) Hi). Qed.

Lemma repr_in_range i r : p_recs p !! i = Some r → in_range (p_fences p) (k_key r).
Proof.
  intros Hi. apply (Forall_lookup_1 _ _ i (k_ent r) (re_range _ _ HR)).
  unfold p_entries. by rewrite list_lookup_fmap, Hi.
Qed.

(** Keys in the range of the page share its prefix. *)
Lemma range_prefix key :
  in_range (p_fences p) key →
  0 <= pl <= zlen key ∧
  (∀ key', in_range (p_fences p) key' → take (Z.to_nat pl) key' = take (Z.to_nat pl) key).
Proof.
  rewrite (re_prefix _ _ HR). destruct (p_fences p) as [[l h]|]; cbn.
  2:{ intros _. split; [|done]. pose proof (zlen_nonneg key). lia. }
  destruct l as [|lo lk]; cbn; [intros _; split; [pose proof (zlen_nonneg key); lia|done]|].
  destruct h as [|ho hk]; cbn.
  - intros _. replace (common_prefix_len lk []) with 0 by by destruct lk.
    split; [pose proof (zlen_nonneg key); lia|done].
  - pose proof (common_prefix_take lk hk) as Ht. pose proof (common_prefix_len_bound lk hk) as Hb.
    assert (∀ k, cmp_bytes lk k ≠ Gt ∧ bytes_lt k hk →
      take (Z.to_nat (common_prefix_len lk hk)) k = take (Z.to_nat (common_prefix_len lk hk)) lk) as Hk.
    { intros k [H1 H2]. apply (cmp_between_prefix _ lk hk); auto. by rewrite H2. }
    intros H. split; [|intros k' H'; by rewrite (Hk _ H), (Hk _ H')].
    apply Hk in H. apply (f_equal length) in H. rewrite !length_take in H. unfold zlen in *. lia.
Qed.

(** ** Readers on the fences *)
Section fences.
Context (l h : fence).
Hypothesis Hf : p_fences p = Some (l, h).

Lemma fence_flag : leaf_has_fence n = true.
Proof. rewrite (re_flag _ _ HR), Hf. done. Qed.

Lemma low_fence_slot : page_slots pl p !! 0%nat = Some (low_slot l).
Proof. unfold page_slots. by rewrite Hf. Qed.

Lemma high_fence_slot : page_slots pl p !! 1%nat = Some (high_slot pl h).
Proof. unfold page_slots. by rewrite Hf. Qed.

Lemma low_fence_meta : get_kv_meta n LOW_FENCE_IDX = Ret (s_meta (low_slot l)).
Proof. apply (layout_get _ _ (re_layout _ _ HR) 0), low_fence_slot. Qed.

Lemma high_fence_meta : get_kv_meta n HIGH_FENCE_IDX = Ret (s_meta (high_slot pl h)).
Proof. apply (layout_get _ _ (re_layout _ _ HR) 1), high_fence_slot. Qed.

Lemma fences_ok : fence_ok l ∧ fence_ok h.
Proof. pose proof (re_fences _ _ HR) as H. by rewrite Hf in H. Qed.

Lemma fence_pl : pl = common_prefix_len (fence_key l) (fence_key h).
Proof. rewrite (re_prefix _ _ HR), Hf. done. Qed.

Lemma fence_pl_bound : 0 <= pl ∧ pl <= zlen (fence_key l) ∧ pl <= zlen (fence_key h).
Proof. rewrite fence_pl. apply common_prefix_len_bound. Qed.

(** Reading part of the uncompressed low fence. *)
Lemma read_low_fence len :
  0 <= len <= zlen (fence_key l) →
  raw_read (data n) (offset (s_meta (low_slot l))) len = Ret (take (Z.to_nat len) (fence_key l)).
Proof.
  intros Hlen. pose proof low_fence_slot as Hs. destruct fences_ok as [Hl _].
  destruct l as [|lo lk]; cbn [fence_key] in *.
  - replace len with 0 by (unfold zlen in Hlen; cbn in Hlen; lia). done.
  - destruct Hl as (Ho & _). change (offset (s_meta ?s)) with (s_off s). rewrite <- (Z.add_0_r (s_off _)).
    rewrite (layout_read _ _ (re_layout _ _ HR) _ _ 0 len Hs);
      [done|by apply pack_real|cbn [s_body low_slot]; lia..].
Qed.

(** The shared prefix is read from the low fence. *)
Lemma fence_prefix : get_prefix n = Ret (take (Z.to_nat pl) (fence_key l)).
Proof.
  unfold get_prefix. rewrite low_fence_meta. ret_step. apply read_low_fence.
  pose proof fence_pl_bound. lia.
Qed.

Lemma fence_key_len :
  get_key_len (s_meta (low_slot l)) = zlen (fence_key l) ∧
  get_key_len (s_meta (high_slot pl h)) = zlen (fence_key h).
Proof.
  destruct fences_ok as [Hl Hh].
  split; [destruct l as [|lo lk] | destruct h as [|ho hk]]; try done.
  - destruct Hl as (? & _ & ? & ?). unfold real_offset_ok in *.
    apply pack_key_len, pack_ok_prefixed; auto; unfold U16; lia.
  - destruct Hh as (? & _ & ? & ?). unfold real_offset_ok in *.
    apply pack_key_len, pack_ok_prefixed; auto; unfold U16; lia.
Qed.

Lemma fence_infinite :
  is_infinite_low_fence_key (s_meta (low_slot l)) = (zlen (fence_key l) =? 0) ∧
  is_infinite_high_fence_key (s_meta (high_slot pl h)) = (zlen (fence_key h) =? 0).
Proof.
  destruct fences_ok as [Hl Hh].
  assert (∀ k : bytes, k ≠ [] → zlen k ≠ 0) as Hne by (intros k Hk H; by apply zlen_nil_inv in H).
  split; [destruct l as [|lo lk] | destruct h as [|ho hk]]; try done.
  - destruct Hl as (Ho & Hk & _). unfold is_infinite_low_fence_key, real_offset_ok in *.
    cbn [s_meta low_slot offset pack fence_key].
    by rewrite !(proj2 (Z.eqb_neq _ _)) by (lia || auto).
  - destruct Hh as (Ho & Hk & _). unfold is_infinite_high_fence_key, real_offset_ok in *.
    cbn [s_meta high_slot offset pack fence_key].
    by rewrite !(proj2 (Z.eqb_neq _ _)) by (lia || auto).
Qed.

Lemma low_fence_key : get_low_fence_key n = Ret (fence_key l).
Proof.
  unfold get_low_fence_key. rewrite fence_flag, assert_true by done. ret_step.
  rewrite low_fence_meta. ret_step. destruct fence_key_len as [-> _].
  destruct fence_infinite as [-> _].
  zcase (zlen (fence_key l) =? 0); [by rewrite (zlen_nil_inv _ E)|].
  rewrite read_low_fence by (pose proof (zlen_nonneg (fence_key l)); lia).
  f_equal. apply take_ge. unfold zlen. lia.
Qed.

Lemma high_fence_key : get_high_fence_key n = Ret (fence_key h).
Proof.
  unfold get_high_fence_key. rewrite fence_flag, assert_true by done. ret_step.
  rewrite high_fence_meta. ret_step. destruct fence_infinite as [_ ->].
  zcase (zlen (fence_key h) =? 0); [by rewrite (zlen_nil_inv _ E)|].
  unfold get_full_key, get_remaining_key. rewrite fence_prefix. ret_step.
  destruct fence_key_len as [_ ->]. pose proof fence_pl_bound as Hb.
  rewrite subu_ok by lia. ret_step. pose proof high_fence_slot as Hs.
  pose proof fences_ok as [_ Hh]. pose proof fence_pl as Hpl.
  destruct h as [|ho hk]; [done|]. cbn [fence_key] in *.
  change (offset (s_meta ?s)) with (s_off s). rewrite <- (Z.add_0_r (s_off _)).
  rewrite (layout_read _ _ (re_layout _ _ HR) _ _ 0 _ Hs);
    [|by apply pack_real, Hh|try lia..].
  - ret_step. f_equal. unfold sub_bytes. cbn [s_body high_slot].
    rewrite drop_0, (take_ge (drop _ hk)) by (rewrite length_drop; unfold zlen; lia).
    rewrite Hpl, common_prefix_take. apply take_drop.
  - cbn [s_body high_slot]. rewrite zlen_drop; lia.
Qed.
End fences.

Lemma repr_key_in_fences key :
  key_in_fences n key = Ret true ↔ in_range (p_fences p) key.
Proof.
  unfold key_in_fences. destruct (p_fences p) as [[l h]|] eqn:Hf.
  - rewrite (fence_flag l h Hf), (low_fence_key l h Hf), (high_fence_key l h Hf). do 2 ret_step.
    pose proof (fences_ok l h Hf) as [Hl Hh]. cbn.
    assert (above_low l key ↔ (match cmp_bytes (fence_key l) key with Gt => false | _ => true end) = true) as ->.
    { destruct l as [|lo lk]; cbn; [by destruct key|]. by destruct (cmp_bytes lk key). }
    assert (below_high h key ↔ ((zlen (fence_key h) =? 0) ||
              match cmp_bytes key (fence_key h) with Lt => true | _ => false end) = true) as ->.
    { destruct h as [|ho hk]; cbn; [done|]. destruct Hh as (_ & Hk & _).
      rewrite (proj2 (Z.eqb_neq _ _)) by (intros H; by apply zlen_nil_inv in H).
      unfold bytes_lt. by destruct (cmp_bytes key hk). }
    rewrite <- andb_true_iff. split; [by intros [= ->]|by intros ->].
  - assert (leaf_has_fence n = false) as ->; [by rewrite (re_flag _ _ HR), Hf|done].
Qed.

(** ** Readers on a record *)
Section one_record.
Context (i : nat) (r : krec).
Hypothesis Hi : p_recs p !! i = Some r.

Lemma repr_get : get_kv_meta n (Z.of_nat (fc + i)) = Ret (s_meta (rec_slot pl r)).
Proof. apply (layout_get _ _ (re_layout _ _ HR)), repr_slot, Hi. Qed.

Lemma repr_prefix_bound : 0 <= pl <= zlen (k_key r).
Proof. by apply range_prefix, (repr_in_range i). Qed.

Lemma repr_key_len : get_key_len (s_meta (rec_slot pl r)) = zlen (k_key r).
Proof. apply pack_key_len, rec_pack_ok, (repr_rec_ok i r Hi). Qed.

Lemma repr_value_len : value_len (s_meta (rec_slot pl r)) = zlen (k_val r).
Proof. apply pack_value_len, rec_pack_ok, (repr_rec_ok i r Hi). Qed.

Lemma repr_op : op_type (s_meta (rec_slot pl r)) = Ret (e_op (k_ent r)).
Proof. eapply pack_op, rec_pack_ok, (repr_rec_ok i r Hi). Qed.

Lemma repr_referenced : is_referenced (s_meta (rec_slot pl r)) = k_ref r.
Proof. eapply pack_referenced, rec_pack_ok, (repr_rec_ok i r Hi). Qed.

Lemma repr_remaining_key :
  get_remaining_key n (s_meta (rec_slot pl r)) = Ret (drop (Z.to_nat pl) (k_key r)).
Proof.
  pose proof repr_prefix_bound as Hp. pose proof (zlen_nonneg (k_val r)).
  unfold get_remaining_key. rewrite repr_key_len, subu_ok by lia. ret_step.
  change (offset (s_meta (rec_slot pl r))) with (s_off (rec_slot pl r)).
  rewrite <- (Z.add_0_r (s_off _)).
  rewrite (layout_read _ _ (re_layout _ _ HR) _ _ _ _ (repr_slot i r Hi));
    rewrite ?rec_body_len by done; try lia; [|apply rec_real, (repr_rec_ok i r Hi)].
  f_equal. unfold sub_bytes. cbn [s_body rec_slot]. rewrite drop_0, take_app_length'; [done|].
  rewrite length_drop. unfold zlen. lia.
Qed.

Lemma repr_value : get_value n (s_meta (rec_slot pl r)) = Ret (k_val r).
Proof.
  pose proof repr_prefix_bound as Hp. pose proof (zlen_nonneg (k_val r)).
  pose proof (repr_rec_ok i r Hi) as Hok.
  destruct (layout_stored _ _ (re_layout _ _ HR) _ _ (repr_slot i r Hi)) as (H1 & H2 & _);
    [by apply rec_real|].
  rewrite rec_body_len, rec_off in * by done. destruct Hok as [_ (Hk & Hv & _)].
  pose proof (layout_fits _ _ (re_layout _ _ HR)) as (_ & Hf & _).
  unfold MAX_LEAF_PAGE_SIZE, LEAF_HEADER, k_key, k_val in *.
  unfold get_value. rewrite repr_key_len, repr_value_len.
  change (offset (s_meta (rec_slot pl r))) with (k_off r). unfold k_key, k_val.
  pose proof (lo_rem _ _ (re_layout _ _ HR)). pose proof (zlen_nonneg (page_slots pl p)).
  assert (0 <= KV_META_SIZE * zlen (page_slots pl p)) by (unfold KV_META_SIZE; lia).
  rewrite add16_ok by (unfold U16; lia). ret_step. rewrite subu_ok by lia. ret_step.
  replace (k_off r + zlen (e_key (k_ent r)) - pl)
    with (s_off (rec_slot pl r) + (zlen (e_key (k_ent r)) - pl)) by (rewrite rec_off; lia).
  rewrite (layout_read _ _ (re_layout _ _ HR) _ _ _ _ (repr_slot i r Hi));
    rewrite ?rec_body_len by done; unfold k_key, k_val; try lia;
    [|apply rec_real, (repr_rec_ok i r Hi)].
  f_equal. unfold sub_bytes. cbn [s_body rec_slot]. unfold k_key, k_val.
  rewrite drop_app_length' by (rewrite length_drop; unfold zlen; lia).
  apply take_ge. unfold zlen. lia.
Qed.

Lemma repr_prefix : get_prefix n = Ret (take (Z.to_nat pl) (k_key r)).
Proof.
  pose proof repr_prefix_bound as Hb. pose proof (repr_in_range i r Hi) as Hr.
  destruct (p_fences p) as [[l h]|] eqn:Hf.
  - rewrite (fence_prefix l h Hf). f_equal. destruct l as [|lo lk].
    + assert (pl = 0) as -> by (rewrite (re_prefix _ _ HR), Hf; done). done.
    + rewrite <- Hf in Hr. apply range_prefix; [done|]. rewrite Hf in Hr |- *. by eapply low_in_range.
  - assert (pl = 0) as H0 by (rewrite (re_prefix _ _ HR), Hf; done).
    unfold get_prefix. destruct (page_slots pl p !! 0%nat) as [s|] eqn:Hs.
    2:{ apply lookup_ge_None in Hs. pose proof (lookup_lt_Some _ _ _ (repr_slot i r Hi)). lia. }
    change LOW_FENCE_IDX with (Z.of_nat 0).
    rewrite (layout_get _ _ (re_layout _ _ HR) 0 s Hs). ret_step. by rewrite H0.
Qed.

Lemma repr_full_key : get_full_key n (s_meta (rec_slot pl r)) = Ret (k_key r).
Proof.
  unfold get_full_key. rewrite repr_prefix. ret_step. rewrite repr_remaining_key. ret_step.
  by rewrite take_drop.
Qed.

Lemma repr_read_entry : read_entry n (Z.of_nat (fc + i)) = Ret (k_ent r).
Proof.
  unfold read_entry. rewrite repr_get. ret_step. rewrite repr_full_key. ret_step.
  rewrite repr_op. ret_step. rewrite repr_value. ret_step. by destruct r as [[] ? ?].
Qed.

(** Comparing previews first gives the order of the full keys. *)
Lemma repr_key_cmp key :
  in_range (p_fences p) key →
  key_cmp n (s_meta (rec_slot pl r)) key = Ret (cmp_bytes (k_key r) key).
Proof.
  intros Hkey. destruct (range_prefix key Hkey) as [Hb Hsame].
  pose proof (Hsame _ (repr_in_range i r Hi)) as Hpre. pose proof repr_prefix_bound as Hbr.
  unfold key_cmp. rewrite slice_from_ok by done. ret_step.
  rewrite repr_key_len, subu_ok by lia. ret_step.
  rewrite slice_to_ok.
  2:{ cbn [preview_bytes s_meta rec_slot pack].
      pose proof (preview_length (k_key r) pl). unfold PREVIEW_SIZE, zlen in *. lia. }
  ret_step. change (preview_bytes (s_meta (rec_slot pl r))) with (preview_of (k_key r) pl).
  unfold PREVIEW_SIZE.
  rewrite preview_take by (unfold zlen in *; lia).
  rewrite (cmp_split (Z.to_nat pl) (k_key r)), Hpre, cmp_refl.
  set (a := drop _ (k_key r)). set (b := drop _ key).
  assert (length a = Z.to_nat (zlen (k_key r) - pl)) as Ha by (unfold a, zlen; rewrite length_drop; lia).
  assert (length b = Z.to_nat (zlen key - pl)) as Hlb by (unfold b, zlen; rewrite length_drop; lia).
  rewrite (cmp_split 2 a b).
  rewrite <- (take_min_length 2 a), <- (take_min_length 2 b).
  replace (Z.to_nat (Z.min 2 _)) with (Nat.min 2 (length a)) by lia.
  replace (Z.to_nat (Z.min _ 2)) with (Nat.min 2 (length b)) by lia.
  destruct (cmp_bytes (take _ a) (take _ b)) eqn:E; [|done..].
  rewrite repr_remaining_key. ret_step. fold a. f_equal.
  by rewrite (cmp_split 2 a b), <- (take_min_length 2 a), <- (take_min_length 2 b), E.
Qed.
End one_record.

(** ** The contents of the page *)
Lemma repr_positions : meta_positions n = seqZ (Z.of_nat fc) (zlen (p_recs p)).
Proof. unfold meta_positions. rewrite repr_first, repr_count. f_equal. lia. Qed.

Lemma repr_entries : leaf_entries n = Ret (p_entries p).
Proof.
  unfold leaf_entries. rewrite repr_positions.
  replace (zlen (p_recs p)) with (zlen (p_entries p))
    by (unfold p_entries, zlen; by rewrite length_map).
  apply mapM_seqZ. unfold p_entries.
  intros j e Hj. rewrite list_lookup_fmap in Hj.
  destruct (p_recs p !! j) as [r|] eqn:Hr; [|done]. injection Hj as <-.
  rewrite <- Nat2Z.inj_add. by apply repr_read_entry.
Qed.
End repr.
