(* ===== verification/LeafSearch.v ===== *)
(** Searching and reading a leaf page (src/nodes/leaf_node.rs, [lower_bound],
    [linear_lower_bound] and [read_by_key]): both searches find the position of a key,
    and a read returns what the page's entries hold; a scan copies its records in their order. *)
From stdpp Require Import base numbers list sorting.
From Stdlib Require Import ZArith Lia.
From S2P Require Import Prelude Bits NodeMeta LeafMeta LeafNode LeafOps LeafLayout Entries LeafRepr.

Section search.
Context (n : LeafNode) (p : page).
Hypothesis HR : Repr n p.
Context (key : bytes).
Hypothesis Hkey : in_range (p_fences p) key.

Local Abbreviation fc := (first_meta_pos_after_fence n).
Local Abbreviation es := (p_entries p).

(** The descriptor at a position and its comparison with the key. *)
Lemma probe i :
  (i < length (p_recs p))%nat →
  ∃ r, p_recs p !! i = Some r ∧ es !! i = Some (k_ent r) ∧
    get_kv_meta n (fc + Z.of_nat i) = Ret (s_meta (rec_slot (prefix_len n) r)) ∧
    key_cmp n (s_meta (rec_slot (prefix_len n) r)) key = Ret (cmp_bytes (k_key r) key).
Proof.
  intros [r Hr]%lookup_lt_is_Some_2. exists r. split; [done|]. split.
  { unfold p_entries. by rewrite list_lookup_fmap, Hr. }
  split; [|by apply (repr_key_cmp n p HR i r Hr)].
  rewrite (repr_first n p HR), <- Nat2Z.inj_add. by apply repr_get.
Qed.

Lemma entries_length : length es = length (p_recs p).
Proof. unfold p_entries. apply length_map. Qed.

Lemma count_split : count n = fc + Z.of_nat (length es).
Proof. rewrite (repr_count n p HR), (repr_first n p HR), entries_length. done. Qed.

(** The linear scan stops at the position of the key. *)
Lemma linear_search_spec i fuel :
  (i <= lb key es)%nat → (length es - i < fuel)%nat →
  linear_search n key (fc + Z.of_nat i) fuel = Ret (fc + Z.of_nat (lb key es)).
Proof.
  revert i. induction fuel as [|fuel IH]; intros i Hi Hf; [lia|]. cbn [linear_search].
  pose proof (lb_bound key es). rewrite count_split.
  zcase (fc + Z.of_nat i <? fc + Z.of_nat (length es)); [|repeat f_equal; lia].
  destruct (probe i) as (r & Hr & He & -> & Hc); [rewrite <- entries_length; lia|].
  ret_step. rewrite Hc. ret_step.
  pose proof (lb_compare key es i (k_ent r) (re_order _ _ HR) He) as Hcmp.
  unfold k_key. destruct (cmp_bytes (e_key (k_ent r)) key); [repeat f_equal; lia| |repeat f_equal; lia].
  replace (fc + Z.of_nat i + 1) with (fc + Z.of_nat (S i)) by lia. apply IH; lia.
Qed.

(** The binary search narrows an interval that contains the position of the key. *)
Lemma binary_search_spec lo hi fuel :
  (lo <= lb key es <= hi)%nat → (hi <= length es)%nat → (hi - lo < fuel)%nat →
  binary_search n key (fc + Z.of_nat lo) (fc + Z.of_nat hi) fuel =
    Ret (fc + Z.of_nat (lb key es)).
Proof.
  revert lo hi. induction fuel as [|fuel IH]; intros lo hi Hlb Hhi Hf; [lia|].
  cbn [binary_search]. zcase (fc + Z.of_nat lo <? fc + Z.of_nat hi); [|repeat f_equal; lia].
  set (mid := (lo + (hi - lo) / 2)%nat).
  pose proof (Nat.div_lt (hi - lo) 2) as Hd.
  replace (fc + Z.of_nat lo + (fc + Z.of_nat hi - (fc + Z.of_nat lo)) / 2) with (fc + Z.of_nat mid).
  2:{ replace (fc + Z.of_nat hi - (fc + Z.of_nat lo)) with (Z.of_nat (hi - lo)) by lia.
      unfold mid. rewrite Nat2Z.inj_add, Nat2Z.inj_div. lia. }
  destruct (probe mid) as (r & Hr & He & -> & Hc); [rewrite <- entries_length; lia|].
  ret_step. rewrite Hc. ret_step.
  pose proof (lb_compare key es mid (k_ent r) (re_order _ _ HR) He) as Hcmp.
  unfold k_key. destruct (cmp_bytes (e_key (k_ent r)) key).
  - by rewrite Hcmp.
  - replace (fc + Z.of_nat mid + 1) with (fc + Z.of_nat (S mid)) by lia. apply IH; lia.
  - apply IH; lia.
Qed.

Lemma lower_bound_lb : lower_bound n key = Ret (fc + Z.of_nat (lb key es)).
Proof.
  unfold lower_bound. destruct (range_prefix n p HR key Hkey) as [Hb _].
  rewrite slice_from_ok by done. ret_step. rewrite count_split.
  pose proof (lb_bound key es). pose proof (repr_first n p HR).
  rewrite <- (Z.add_0_r fc) at 1. apply (binary_search_spec 0); lia.
Qed.

Lemma linear_lower_bound_lb : linear_lower_bound n key = Ret (fc + Z.of_nat (lb key es)).
Proof.
  unfold linear_lower_bound. destruct (range_prefix n p HR key Hkey) as [Hb _].
  rewrite assert_true by (apply Z.leb_le; lia). ret_step.
  rewrite <- (Z.add_0_r fc) at 1. pose proof (repr_first n p HR).
  apply (linear_search_spec 0); [lia|]. rewrite count_split. lia.
Qed.

(** Equality of the compressed keys at the position found is equality of the keys. *)
Lemma suffix_cmp i r :
  p_recs p !! i = Some r →
  (match cmp_bytes (drop (Z.to_nat (prefix_len n)) (k_key r)) (drop (Z.to_nat (prefix_len n)) key)
   with Eq => true | _ => false end) = key_eqb (k_key r) key.
Proof.
  intros Hr. destruct (range_prefix n p HR key Hkey) as [_ Hs].
  unfold key_eqb. rewrite (cmp_split (Z.to_nat (prefix_len n)) (k_key r) key).
  by rewrite (Hs _ (repr_in_range n p HR i r Hr)), cmp_refl.
Qed.

Lemma key_at_equals_spec :
  key_at_equals n (fc + Z.of_nat (lb key es)) key =
    Ret (match find_entry key es with Some _ => true | None => false end).
Proof.
  unfold key_at_equals. rewrite count_split, find_entry_lb by apply (re_order _ _ HR).
  destruct (es !! lb key es) as [e|] eqn:He.
  - pose proof (lookup_lt_Some _ _ _ He).
    zcase (fc + Z.of_nat (lb key es) <? fc + Z.of_nat (length es)); [|lia].
    destruct (probe (lb key es)) as (r & Hr & He' & -> & _); [rewrite <- entries_length; lia|].
    ret_step. rewrite (repr_remaining_key n p HR _ r Hr). ret_step.
    destruct (range_prefix n p HR key Hkey) as [Hb _]. rewrite slice_from_ok by done. ret_step.
    rewrite (suffix_cmp _ r Hr). rewrite He in He'. injection He' as ->.
    change (e_key (k_ent r)) with (k_key r). by destruct (key_eqb _ _).
  - apply lookup_ge_None in He. zcase (fc + Z.of_nat (lb key es) <? fc + Z.of_nat (length es)); [lia|done].
Qed.
End search.

(** ** Replacing one record *)
Section replace.
Context (n : LeafNode) (p : page).
Hypothesis HR : Repr n p.

Definition set_rec (i : nat) (r : krec) : page :=
  mkPage (p_fences p) (<[i:=r]> (p_recs p)).

Lemma set_rec_entries i r : p_entries (set_rec i r) = <[i:=k_ent r]> (p_entries p).
Proof. unfold p_entries. cbn. apply list_fmap_insert. Qed.

Lemma set_rec_slots pl i r r0 :
  p_recs p !! i = Some r0 →
  page_slots pl (set_rec i r) =
    <[(length (fence_slots pl (p_fences p)) + i)%nat := rec_slot pl r]> (page_slots pl p).
Proof.
  intros Hi. unfold page_slots. cbn. rewrite insert_app_r, list_fmap_insert. done.
Qed.

Lemma ordered_replace es i e e' :
  ordered es → es !! i = Some e → e_key e' = e_key e → ordered (<[i:=e']> es).
Proof.
  intros Hs. revert i. induction Hs as [|x es Hs IH Hall]; intros i Hi Hk; [done|].
  destruct i as [|i]; cbn in *.
  - injection Hi as ->. constructor; [done|]. eapply Forall_impl; [exact Hall|].
    intros y. unfold entry_lt. by rewrite Hk.
  - constructor; [by apply IH|]. apply Forall_insert; [done|].
    pose proof (Forall_lookup_1 _ _ _ _ Hall Hi) as H. unfold entry_lt in *. by rewrite Hk.
Qed.

Lemma repr_set_rec n' i r r' :
  p_recs p !! i = Some r → k_key r' = k_key r → rec_ok r' →
  prefix_len n' = prefix_len n → leaf_has_fence n' = leaf_has_fence n →
  Layout n' (<[(length (fence_slots (prefix_len n) (p_fences p)) + i)%nat :=
                rec_slot (prefix_len n) r']> (page_slots (prefix_len n) p)) →
  Repr n' (set_rec i r').
Proof.
  intros Hi Hk Hok Hpl Hfl HL.
  assert (p_entries p !! i = Some (k_ent r)) as He.
  { unfold p_entries. by rewrite list_lookup_fmap, Hi. }
  pose proof (re_range _ _ HR) as Hrg.
  destruct HR. split; change (p_fences (set_rec i r')) with (p_fences p); auto; try congruence.
  - rewrite Hpl. by rewrite (set_rec_slots _ i r' r Hi).
  - by apply Forall_insert.
  - rewrite set_rec_entries. by eapply ordered_replace.
  - rewrite set_rec_entries. apply Forall_insert; [done|].
    change (e_key (k_ent r')) with (k_key r'). rewrite Hk.
    by apply (Forall_lookup_1 _ _ _ _ Hrg He).
Qed.

(** Changing bits of a descriptor that are not its offset. *)
Lemma update_rec i r f o v b :
  p_recs p !! i = Some r → entry_ok (mkEntry (k_key r) o v) → v = k_val r →
  (∀ pv, pack_ok (k_off r) (zlen (k_key r)) (zlen (k_val r)) pv →
    f (pack (k_off r) (zlen (k_key r)) (e_op (k_ent r)) (zlen (k_val r)) (k_ref r) pv) =
      pack (k_off r) (zlen (k_key r)) o (zlen (k_val r)) b pv) →
  ∃ d, update_kv_meta n (first_meta_pos_after_fence n + Z.of_nat i) f = Ret (set_data n d) ∧
    Repr (set_data n d) (set_rec i (mkKrec (mkEntry (k_key r) o v) b (k_off r))).
Proof.
  intros Hi Hok -> Hf. pose proof (repr_rec_ok n p HR i r Hi) as Hr.
  set (r' := mkKrec _ _ _).
  assert (rec_ok r') as Hr' by (split; [apply Hr | exact Hok]).
  assert (f (s_meta (rec_slot (prefix_len n) r)) = s_meta (rec_slot (prefix_len n) r')) as Hm
    by apply (Hf _ (rec_pack_ok _ _ Hr)).
  destruct (layout_set_meta n _ (re_layout _ _ HR) _ _ f (repr_slot n p i r Hi))
    as (d & Hd & HL).
  - rewrite Hm. apply pack_meta_wf, (rec_pack_ok _ r' Hr').
  - by rewrite Hm.
  - exists d. split.
    + rewrite (repr_first n p HR), <- Nat2Z.inj_add. exact Hd.
    + apply (repr_set_rec _ i r); auto. rewrite Hm in HL. exact HL.
Qed.
End replace.

(** ** Reading *)
Section read.
Context (n : LeafNode) (p : page).
Hypothesis HR : Repr n p.

(** Marking a record as referenced keeps the contents. *)
Lemma mark_ref_spec i r :
  p_recs p !! i = Some r →
  ∃ n' p', (if negb (is_referenced (s_meta (rec_slot (prefix_len n) r)))
            then update_kv_meta n (first_meta_pos_after_fence n + Z.of_nat i) mark_as_ref
            else Ret n) = Ret n' ∧
    Repr n' p' ∧ p_fences p' = p_fences p ∧ same_header n n' ∧ p_entries p' = p_entries p ∧
    Exists (λ r, k_ref r = true) (p_recs p').
Proof.
  intros Hi. pose proof (repr_rec_ok n p HR i r Hi) as [Hoff Hok].
  destruct (negb _) eqn:Href.
  2:{ exists n, p. split_and!; try done. apply Exists_exists. exists r. split; [by eapply list_elem_of_lookup_2|].
      rewrite (repr_referenced n p HR i r Hi) in Href. by destruct (k_ref r). }
  destruct (update_rec n p HR i r mark_as_ref (e_op (k_ent r)) (k_val r) true Hi)
    as (d & -> & HR'); [exact Hok|done|by intros; apply pack_mark_as_ref|].
  do 2 eexists. split; [done|]. split; [exact HR'|]. split; [done|]. split; [done|]. split.
  2:{ apply Exists_exists. eexists. split.
      - eapply list_elem_of_lookup_2. cbn. apply list_lookup_insert_eq. by eapply lookup_lt_Some.
      - done. }
  rewrite set_rec_entries. apply list_insert_id. unfold p_entries.
  rewrite list_lookup_fmap, Hi. cbn. f_equal. by destruct r as [[] ? ?].
Qed.

Definition read_result (e : option entry) (out_buffer : bytes) : LeafReadResult * bytes :=
  match e with
  | None => (NotFound, out_buffer)
  | Some e => if is_absent (e_op e) then (Deleted, out_buffer)
              else (Found (zlen (e_val e)), e_val e ++ drop (length (e_val e)) out_buffer)
  end.

Lemma read_repr key out_buffer bin :
  in_range (p_fences p) key →
  match visible (find_entry key (p_entries p)) with
  | Some v => zlen v <= zlen out_buffer
  | None => True
  end →
  ∃ n' p', read_by_key_inner n key out_buffer bin =
      Ret ((read_result (find_entry key (p_entries p)) out_buffer).1, n',
           (read_result (find_entry key (p_entries p)) out_buffer).2) ∧
    Repr n' p' ∧ p_fences p' = p_fences p ∧ same_header n n' ∧ p_entries p' = p_entries p ∧
    (find_entry key (p_entries p) ≠ None → Exists (λ r, k_ref r = true) (p_recs p')).
Proof.
  intros Hkey Hbuf. unfold read_by_key_inner.
  assert ((if bin then lower_bound n key else linear_lower_bound n key) =
          Ret (first_meta_pos_after_fence n + Z.of_nat (lb key (p_entries p)))) as ->.
  { destruct bin; [by apply lower_bound_lb | by apply linear_lower_bound_lb]. }
  ret_step. rewrite (count_split n p HR).
  rewrite find_entry_lb in Hbuf |- * by apply (re_order _ _ HR).
  destruct (p_entries p !! lb key (p_entries p)) as [e|] eqn:He.
  2:{ apply lookup_ge_None in He. zcase (first_meta_pos_after_fence n + Z.of_nat (length (p_entries p))
        <=? first_meta_pos_after_fence n + Z.of_nat (lb key (p_entries p))); [|lia].
      by exists n, p. }
  pose proof (lookup_lt_Some _ _ _ He) as Hlt.
  zcase (first_meta_pos_after_fence n + Z.of_nat (length (p_entries p))
    <=? first_meta_pos_after_fence n + Z.of_nat (lb key (p_entries p))); [lia|].
  destruct (probe n p HR key Hkey (lb key (p_entries p))) as (r & Hr & He' & -> & _);
    [by rewrite <- (entries_length p)|]. rewrite He in He'. injection He' as ->.
  ret_step. rewrite (repr_remaining_key n p HR _ r Hr). ret_step.
  destruct (mark_ref_spec _ r Hr) as (n' & p' & -> & HR' & Hf' & Hh' & He' & Hx'). ret_step.
  destruct (range_prefix n p HR key Hkey) as [Hb _]. rewrite slice_from_ok by done. ret_step.
  pose proof (suffix_cmp n p HR key Hkey _ r Hr) as Hcmp. unfold k_key in Hcmp at 2.
  exists n', p'. split; [|by split_and!]. rewrite <- Hcmp in Hbuf |- *.
  destruct (cmp_bytes _ _); [|done..].
  rewrite (repr_op n p HR _ r Hr). ret_step. cbn [visible read_result] in *.
  destruct (is_absent (e_op (k_ent r))); [done|].
  rewrite (repr_value n p HR _ r Hr). ret_step. unfold copy_to_buffer.
  apply Z.leb_le in Hbuf. unfold k_val. rewrite Hbuf. ret_step.
  by rewrite (repr_value_len n p HR _ r Hr).
Qed.
End read.

(** ** A scan of the page ([get_record_by_pos_with_bound]): the records come out one by one, in the order of their keys *)

(** What a scan copies for a record. *)
Definition field_bytes (field : ScanReturnField) (e : entry) : bytes :=
  match field with
  | FieldKey => e_key e
  | FieldValue => e_val e
  | FieldKeyAndValue => e_key e ++ e_val e
  end.

(** The lengths it reports: those of the key and of the value, zero for what is not asked for. *)
Definition field_lens (field : ScanReturnField) (e : entry) : Z * Z :=
  match field with
  | FieldKey => (zlen (e_key e), 0)
  | FieldValue => (0, zlen (e_val e))
  | FieldKeyAndValue => (zlen (e_key e), zlen (e_val e))
  end.

(** What the scan of a page with the entries [es] finds at the [i]-th one. *)
Definition scan_entry (es : list entry) (i : nat) (out_buffer : bytes) (field : ScanReturnField) (bound : option bytes) :
    GetScanRecordByPosResult * bytes :=
  match es !! i with
  | None => (EndOfLeaf, out_buffer)
  | Some e =>
      if is_absent (e_op e) then (ScanDeleted, out_buffer)
      else if exceeds bound (e_key e) then (BoundKeyExceeded, out_buffer)
      else (ScanFound (field_lens field e).1 (field_lens field e).2,
            field_bytes field e ++ drop (length (field_bytes field e)) out_buffer)
  end.

Section scan_page.
Context (n : LeafNode) (p : page).
Hypothesis HR : Repr n p.
Local Abbreviation fc := (first_meta_pos_after_fence n).
Local Abbreviation es := (p_entries p).

Lemma lookup_record i e : es !! i = Some e → ∃ r, p_recs p !! i = Some r ∧ k_ent r = e.
Proof. unfold p_entries. rewrite list_lookup_fmap. destruct (p_recs p !! i) as [r|]; [|done]. intros [= <-]. by exists r. Qed.

Lemma copy_fits out v : zlen v <= zlen out → copy_to_buffer out v = Ret (v ++ drop (length v) out).
Proof. intros H. unfold copy_to_buffer. by rewrite (proj2 (Z.leb_le _ _) H). Qed.

(** The buffer has room for a record of the page that is there. *)
Lemma scan_entry_spec i out field bound :
  (∀ e, es !! i = Some e → is_absent (e_op e) = false → exceeds bound (e_key e) = false → zlen (field_bytes field e) <= zlen out) →
  get_record_by_pos_with_bound n (fc + Z.of_nat i) out field bound = Ret (scan_entry es i out field bound).
Proof.
  intros Hout. unfold get_record_by_pos_with_bound, scan_entry. rewrite (count_split n p HR).
  destruct (es !! i) as [e|] eqn:He.
  2:{ apply lookup_ge_None in He. zcase (fc + Z.of_nat (length es) <=? fc + Z.of_nat i); [done|lia]. }
  pose proof (lookup_lt_Some _ _ _ He). zcase (fc + Z.of_nat (length es) <=? fc + Z.of_nat i); [lia|].
  destruct (lookup_record i e He) as (r & Hr & <-).
  rewrite (repr_first n p HR), <- Nat2Z.inj_add, (repr_get n p HR i r Hr). ret_step.
  rewrite (repr_op n p HR i r Hr). ret_step. specialize (Hout _ eq_refl). destruct (is_absent (e_op (k_ent r))); [done|].
  rewrite (repr_full_key n p HR i r Hr), (repr_value n p HR i r Hr), (repr_value_len n p HR i r Hr). unfold k_key, k_val.
  specialize (Hout eq_refl). destruct field; cbn [field_bytes field_lens fst snd] in *.
  - ret_step. destruct (exceeds _ _); [done|]. rewrite copy_fits by auto. by ret_step.
  - assert ((match bound with Some _ => k ← Ret (e_key (k_ent r)); Ret (exceeds bound k) | None => Ret false end) =
            Ret (exceeds bound (e_key (k_ent r)))) as -> by by destruct bound.
    ret_step. destruct (exceeds _ _); [done|]. ret_step. rewrite copy_fits by auto. by ret_step.
  - ret_step. destruct (exceeds _ _); [done|]. ret_step. rewrite copy_fits by auto. by ret_step.
Qed.
End scan_page.
