(* ===== verification/LeafInsert.v ===== *)
(** Insertion into a leaf page (src/nodes/leaf_node.rs, [insert]): every branch keeps
    the representation invariant and changes the page's entries as specified. *)
From stdpp Require Import base numbers list sorting.
From Stdlib Require Import ZArith Lia.
From S2P Require Import Prelude Bits NodeMeta LeafMeta LeafNode LeafLayout Entries LeafRepr LeafSearch.

(** The bytes a record takes: key after the prefix, and value. *)
Definition kv_size (n : LeafNode) (key value : bytes) : Z :=
  zlen key - prefix_len n + zlen value.

(** Why an insertion is refused. *)
Definition no_room (n : LeafNode) (key value : bytes) (max_fence_len : Z) : Prop :=
  remaining_size (meta n) < kv_size n key value ∨
  full_with_fences n (kv_size n key value + KV_META_SIZE) max_fence_len = Ret true.

Section insert.
Context (n : LeafNode) (p : page).
Hypothesis HR : Repr n p.
Context (key value : bytes) (op : OpType).
Hypothesis Hkey : in_range (p_fences p) key.
Hypothesis Hok : entry_ok (mkEntry key op value).

Local Abbreviation pl := (prefix_len n).
Local Abbreviation fc := (first_meta_pos_after_fence n).
Local Abbreviation es := (p_entries p).
Local Abbreviation nf := (length (fence_slots pl (p_fences p))).
Local Abbreviation kv := (kv_size n key value).

(** [n'] holds the entry, in the same page, with at most the record's space gone. *)
Definition inserted (n' : LeafNode) : Prop :=
  ∃ p', Repr n' p' ∧ p_fences p' = p_fences p ∧ p_entries p' = upsert key op value es ∧
    same_header n n' ∧
    remaining_size (meta n) - (kv + KV_META_SIZE) <= remaining_size (meta n') <= remaining_size (meta n) ∧
    (op_eqb op OpDelete = true → find_entry key es ≠ None →
     remaining_size (meta n') = remaining_size (meta n)).

Lemma key_bounds :
  0 <= pl <= zlen key ∧ zlen key < 2 ^ 14 ∧ 0 <= zlen value < 2 ^ 15 ∧ 0 <= kv.
Proof.
  destruct (range_prefix n p HR key Hkey) as [Hb _]. destruct Hok as (Hk & Hv & _).
  cbn in Hk, Hv. pose proof (zlen_nonneg value). unfold kv_size. lia.
Qed.

Lemma key_u16 : as_u16 (zlen key) = zlen key.
Proof. pose proof key_bounds. apply as_u16_id. unfold U16. lia. Qed.

Lemma value_u16 : as_u16 (zlen value) = zlen value.
Proof. pose proof key_bounds. apply as_u16_id. unfold U16. lia. Qed.

Lemma post_fix_ok : subu (as_u16 (zlen key)) pl = Ret (zlen key - pl).
Proof. pose proof key_bounds. rewrite key_u16, subu_ok by lia. done. Qed.

Lemma kv_len_ok : add16 (zlen key - pl) (as_u16 (zlen value)) = Ret kv.
Proof.
  pose proof key_bounds. rewrite value_u16, add16_ok by (unfold U16; lia). done.
Qed.

Lemma suffix_all : take (Z.to_nat (zlen key - pl)) (drop (Z.to_nat pl) key) = drop (Z.to_nat pl) key.
Proof. apply take_ge. rewrite length_drop. unfold zlen. lia. Qed.

Lemma value_all : take (Z.to_nat (zlen value)) value = value.
Proof. apply take_ge. unfold zlen. lia. Qed.

Lemma rem_bounds :
  0 <= remaining_size (meta n) ∧
  KV_META_SIZE * zlen (page_slots pl p) + remaining_size (meta n) <= 32736 ∧
  0 <= KV_META_SIZE * zlen (page_slots pl p).
Proof.
  pose proof (lo_rem _ _ (re_layout _ _ HR)).
  pose proof (layout_fits _ _ (re_layout _ _ HR)) as (? & ? & ?).
  pose proof (zlen_nonneg (page_slots pl p)).
  unfold MAX_LEAF_PAGE_SIZE, LEAF_HEADER, KV_META_SIZE in *. lia.
Qed.

(** ** The key is present *)
Section existing.
Context (r : krec).
Hypothesis Hr : p_recs p !! lb key es = Some r.
Hypothesis Hkr : k_key r = key.

Local Abbreviation pos := (fc + Z.of_nat (lb key es)).

Lemma existing_upsert b o :
  p_entries (set_rec p (lb key es) (mkKrec (overwrite (k_ent r) op value) b o)) =
    upsert key op value es.
Proof.
  rewrite set_rec_entries. symmetry. apply upsert_existing; [|exact Hkr].
  by apply p_entries_lookup.
Qed.

Lemma existing_data_inserted d b o :
  Repr (set_data n d) (set_rec p (lb key es) (mkKrec (overwrite (k_ent r) op value) b o)) →
  inserted (set_data n d).
Proof.
  intros HR'. eexists. split; [exact HR'|]. split; [done|]. split; [apply existing_upsert|].
  split; [done|]. split; [|done].
  pose proof key_bounds. cbn [set_data meta]. unfold KV_META_SIZE. lia.
Qed.

Lemma overwrite_ent : op_eqb op OpDelete = false → overwrite (k_ent r) op value = mkEntry key op value.
Proof. intros H. unfold overwrite. rewrite H. by rewrite <- Hkr. Qed.

Lemma insert_delete :
  op = OpDelete →
  ∃ n', insert_existing n pos key value op = Ret (true, n') ∧ inserted n'.
Proof.
  intros Hop. unfold insert_existing. rewrite Hop. cbn [op_eqb bool_decide decide].
  change (op_eqb OpDelete OpDelete) with true. cbv iota.
  pose proof (repr_rec_ok n p HR _ r Hr) as [_ (H1 & H2 & H3 & H4 & _)].
  destruct (update_rec n p HR _ r mark_as_deleted OpDelete (k_val r) (k_ref r) Hr)
    as (d & -> & HR'); [done|done|by intros; apply pack_set_op|].
  ret_step. eexists. split; [done|].
  apply (existing_data_inserted d (k_ref r) (k_off r)). unfold overwrite. rewrite Hop. exact HR'.
Qed.

(** The first steps of the two branches that write a value. *)
Lemma existing_value_prefix :
  op_eqb op OpDelete = false →
  insert_existing n pos key value op =
    (if zlen value <=? zlen (k_val r) then
       d ← blit (data n) (k_off r + (zlen key - pl)) value;
       n' ← update_kv_meta (set_data n d) pos (λ m, set_op_type (set_value_len m (zlen value)) op);
       Ret (true, n')
     else if remaining_size (meta n) <? kv then Ret (false, n)
     else
       _ ← assert_ (negb (op_eqb op OpCache));
       low ← current_lowest_offset n;
       off ← subu low kv;
       n1 ← update_kv_meta n pos
              (λ m, set_offset (set_op_type (set_value_len m (zlen value)) op) off);
       suffix ← slice_from key pl;
       d1 ← blit (data n1) off (take (Z.to_nat (zlen key - pl)) suffix);
       d2 ← blit d1 (off + (zlen key - pl)) value;
       r ← subu (remaining_size (meta n1)) kv;
       Ret (true, set_remaining_size (set_data n1 d2) r)).
Proof.
  intros Hop. unfold insert_existing. rewrite Hop, post_fix_ok. ret_step.
  rewrite kv_len_ok, value_u16. ret_step.
  rewrite (repr_first n p HR), <- Nat2Z.inj_add, (repr_get n p HR _ r Hr). ret_step.
  rewrite (repr_value n p HR _ r Hr). ret_step.
  pose proof (repr_rec_ok n p HR _ r Hr) as [_ (_ & Hv & _)].
  pose proof (zlen_nonneg (k_val r)). rewrite as_u16_id by (unfold U16, k_val in *; lia).
  by rewrite value_all.
Qed.

Lemma new_rec_ok b o : real_offset_ok o → rec_ok (mkKrec (mkEntry key op value) b o).
Proof. done. Qed.

Lemma new_pack_ok o :
  real_offset_ok o → pack_ok o (zlen key) (zlen value) (preview_of key pl).
Proof. intros Ho. apply (rec_pack_ok pl (mkKrec (mkEntry key op value) false o)). done. Qed.

Lemma shrink_body old :
  zlen value <= zlen old →
  take (Z.to_nat (zlen key - pl + zlen value))
    (splice (drop (Z.to_nat pl) key ++ old) (zlen key - pl) value) =
  drop (Z.to_nat pl) key ++ value.
Proof.
  intros H. pose proof key_bounds as (Hb & _).
  assert (length (drop (Z.to_nat pl) key) = Z.to_nat (zlen key - pl)) as Hl.
  { rewrite length_drop. unfold zlen in *. lia. }
  unfold splice. rewrite (take_app_length' (drop _ key)) by lia. rewrite app_assoc.
  apply take_app_length'. rewrite length_app, Hl. unfold zlen in *. lia.
Qed.

Lemma set_value_pack o :
  pack_ok (k_off r) (zlen (k_key r)) (zlen (k_val r)) (preview_of (k_key r) pl) → real_offset_ok o →
  set_offset (set_op_type (set_value_len (s_meta (rec_slot pl r)) (zlen value)) op) o =
    s_meta (rec_slot pl (mkKrec (mkEntry key op value) (k_ref r) o)).
Proof.
  intros Hp Ho. pose proof key_bounds as (_ & _ & Hv & _). cbn [s_meta rec_slot].
  rewrite pack_set_value_len by done.
  rewrite pack_set_op; [by rewrite pack_set_offset, Hkr|].
  destruct Hp as (? & ? & ? & ? & ?). done.
Qed.

Lemma insert_in_place :
  op_eqb op OpDelete = false → zlen value <= zlen (k_val r) →
  ∃ n', insert_existing n pos key value op = Ret (true, n') ∧ inserted n'.
Proof.
  intros Hop Hlen. rewrite existing_value_prefix by done.
  apply Z.leb_le in Hlen as Hlen'. rewrite Hlen'.
  pose proof key_bounds as (Hb & Hk & Hv & _). pose proof Hok as (_ & _ & _ & Hvb & _).
  pose proof (repr_rec_ok n p HR _ r Hr) as Hrec. pose proof (proj1 Hrec) as Hoff.
  pose proof (repr_slot n p _ r Hr) as Hs.
  set (r' := mkKrec (mkEntry key op value) (k_ref r) (k_off r)).
  assert (set_op_type (set_value_len (s_meta (rec_slot pl r)) (zlen value)) op =
          s_meta (rec_slot pl r')) as Hf.
  { unfold r'. by rewrite <- set_value_pack by (done || by apply rec_pack_ok). }
  destruct (layout_rewrite _ _ _ _ (zlen key - pl) value
              (λ m, set_op_type (set_value_len m (zlen value)) op) (re_layout _ _ HR) Hs)
    as (d & d' & Hd & Hu & HL); auto; rewrite ?rec_body_len, ?Hf; rewrite ?Hkr; try lia.
  { by apply rec_real. }
  { by apply pack_meta_wf, new_pack_ok. }
  change (k_off r) with (s_off (rec_slot pl r)). rewrite Hd. ret_step.
  rewrite (repr_first n p HR), <- Nat2Z.inj_add, Hu. ret_step. eexists. split; [done|].
  apply (existing_data_inserted d' (k_ref r) (k_off r)).
  rewrite overwrite_ent by done. apply (repr_set_rec n p HR _ _ r); auto.
  { by apply new_rec_ok. }
  rewrite Hf in HL. cbn [s_body rec_slot] in HL. rewrite Hkr, shrink_body in HL by done. exact HL.
Qed.

(** Writing key and value one after the other writes the record. *)
Lemma write_record d off :
  0 <= off → off + kv <= zlen d →
  blit d off (drop (Z.to_nat pl) key) = Ret (splice d off (drop (Z.to_nat pl) key)) ∧
  blit (splice d off (drop (Z.to_nat pl) key)) (off + (zlen key - pl)) value =
    Ret (splice d off (drop (Z.to_nat pl) key ++ value)).
Proof.
  intros Ho Hd. pose proof key_bounds as (Hb & _ & Hv & _). unfold kv_size in Hd.
  assert (zlen (drop (Z.to_nat pl) key) = zlen key - pl) as Hl by by apply zlen_drop.
  split; [apply blit_ok; lia|].
  rewrite blit_ok by (rewrite ?zlen_splice; lia). f_equal. rewrite <- Hl. apply splice_app; lia.
Qed.

Lemma insert_move :
  op_eqb op OpDelete = false → op ≠ OpCache → zlen (k_val r) < zlen value →
  kv <= remaining_size (meta n) →
  ∃ n', insert_existing n pos key value op = Ret (true, n') ∧ inserted n'.
Proof.
  intros Hop Hoc Hlen Hroom. rewrite existing_value_prefix by done.
  zcase (zlen value <=? zlen (k_val r)); [lia|]. zcase (remaining_size (meta n) <? kv); [lia|].
  rewrite assert_true by (by destruct op). ret_step.
  pose proof key_bounds as (Hb & Hk & Hv & Hkv). pose proof rem_bounds as (Hr0 & Hr1 & Hr2).
  pose proof (layout_fits _ _ (re_layout _ _ HR)) as (Hfit & _).
  pose proof Hok as (_ & _ & Hkb & Hvb & _). pose proof (repr_rec_ok n p HR _ r Hr) as Hrec.
  rewrite (layout_lowest _ _ (re_layout _ _ HR)). ret_step.
  rewrite subu_ok by lia. ret_step. set (off := KV_META_SIZE * _ + _ - _).
  assert (real_offset_ok off) as Hoff by (unfold real_offset_ok, off; lia).
  set (r' := mkKrec (mkEntry key op value) (k_ref r) off).
  pose proof (repr_slot n p _ r Hr) as Hs.
  assert (set_offset (set_op_type (set_value_len (s_meta (rec_slot pl r)) (zlen value)) op) off =
          s_meta (rec_slot pl r')) as Hf by (apply set_value_pack; [by apply rec_pack_ok|done]).
  assert (meta_wf (s_meta (rec_slot pl r'))) as Hwf by by apply pack_meta_wf, new_pack_ok.
  rewrite (repr_first n p HR), <- Nat2Z.inj_add.
  rewrite (update_kv_meta_spec _ _ (re_layout _ _ HR) _ _ _ Hs) by (rewrite Hf; done).
  rewrite Hf. ret_step. rewrite slice_from_ok by done. ret_step. rewrite suffix_all.
  cbn [set_data data meta]. set (d1 := splice (data n) _ _).
  assert (zlen d1 = zlen (data n)) as Hd1 by apply (playout_write_meta _ _ _ (re_layout _ _ HR) _ _ _ Hs Hwf).
  destruct (write_record d1 off) as [-> Hw]; [unfold off; lia..|]. ret_step.
  rewrite Hw. ret_step. rewrite subu_ok by lia. ret_step. eexists. split; [done|].
  assert (zlen (s_body (rec_slot pl r')) = kv) as Hbody by (by rewrite rec_body_len).
  pose proof (layout_move _ _ (re_layout _ _ HR) _ _ (rec_slot pl r') Hs) as HL.
  rewrite Hbody in HL. exists (set_rec p (lb key es) r'). split.
  - apply (repr_set_rec n p HR _ _ r); auto; [by apply new_rec_ok|].
    apply HL; auto; [by apply pack_real|].
    apply Forall_app_2; [by apply Forall_drop|done].
  - split; [done|]. split.
    + rewrite <- (existing_upsert (k_ref r) off). unfold r'. by rewrite overwrite_ent.
    + split; [done|]. split; [|by rewrite Hop].
      cbn [set_remaining_size set_meta set_remaining meta remaining_size].
      unfold KV_META_SIZE. lia.
Qed.
End existing.

(** ** The key is new *)
Lemma insert_at_slots q i r' :
  page_slots q (mkPage (p_fences p) (insert_at i r' (p_recs p))) =
    insert_at (length (fence_slots q (p_fences p)) + i) (rec_slot q r') (page_slots q p).
Proof.
  unfold page_slots, insert_at. cbn [p_fences p_recs].
  rewrite take_app_add, drop_app_add, map_app, <- app_assoc. cbn [map].
  by rewrite !fmap_take, !fmap_drop.
Qed.

Lemma repr_insert_rec n' r' :
  find_entry key es = None → k_ent r' = mkEntry key op value → rec_ok r' →
  prefix_len n' = pl → leaf_has_fence n' = leaf_has_fence n →
  Layout n' (insert_at (nf + lb key es) (rec_slot pl r') (page_slots pl p)) →
  let p' := mkPage (p_fences p) (insert_at (lb key es) r' (p_recs p)) in
  Repr n' p' ∧ p_entries p' = upsert key op value es.
Proof.
  intros Hnone Hent Hr' Hpl Hfl HL p'.
  assert (p_entries p' = upsert key op value es) as He.
  { rewrite upsert_new.
    - unfold p', p_entries at 1, insert_at. cbn [p_recs]. rewrite map_app. cbn [map].
      rewrite Hent. unfold p_entries. by rewrite <- !fmap_take, <- !fmap_drop.
    - rewrite find_entry_lb in Hnone by apply (re_order _ _ HR).
      destruct (es !! _) as [e|]; [|done]. apply key_eqb_ne.
      by destruct (key_eqb (e_key e) key). }
  split; [|done]. pose proof (re_range _ _ HR). pose proof (re_order _ _ HR).
  destruct HR. split; change (p_fences p') with (p_fences p); rewrite ?He; auto; try congruence.
  - unfold p'. by rewrite Hpl, insert_at_slots.
  - unfold p'. cbn [p_recs]. rewrite insert_at_perm. by constructor.
  - by apply upsert_ordered.
  - by apply (upsert_keys (in_range (p_fences p))).
Qed.

Lemma slots_len : zlen (page_slots pl p) = Z.of_nat nf + Z.of_nat (length es).
Proof. unfold page_slots, zlen. rewrite length_app, length_map, entries_length. lia. Qed.

(** The offset below the lowest record. *)
Local Abbreviation low := (KV_META_SIZE * zlen (page_slots pl p) + remaining_size (meta n)).

Lemma fresh_offset : kv <= remaining_size (meta n) → real_offset_ok (low - kv).
Proof. intros H. pose proof rem_bounds. pose proof key_bounds. unfold real_offset_ok. lia. Qed.

(** The header update of an insertion. *)
Lemma insert_new_header r' :
  find_entry key es = None → k_ent r' = mkEntry key op value → rec_ok r' →
  k_off r' = low - kv → kv + KV_META_SIZE <= remaining_size (meta n) →
  let j := (nf + lb key es)%nat in
  let d1 := splice (data n) (KV_META_SIZE * (Z.of_nat j + 1))
              (sub_bytes (data n) (KV_META_SIZE * Z.of_nat j)
                 (KV_META_SIZE * (zlen (page_slots pl p) - Z.of_nat j))) in
  let d2 := splice d1 (KV_META_SIZE * Z.of_nat j) (encode_meta (s_meta (rec_slot pl r'))) in
  let d := splice d2 (low - kv) (drop (Z.to_nat pl) key ++ value) in
  ∃ n', bump_count (set_remaining_size (set_data n d)
                     (remaining_size (meta n) - (kv + KV_META_SIZE))) = Ret n' ∧ inserted n'.
Proof.
  intros Hnone Hent Hr' Hoff Hroom j d1 d2 d.
  pose proof (layout_fits _ _ (re_layout _ _ HR)) as (Hfit & _ & Hcnt).
  pose proof key_bounds as (Hb & _ & _ & Hkv). pose proof Hok as (_ & _ & Hkb & Hvb & _).
  pose proof (lb_bound key es). pose proof slots_len. assert (0 < KV_META_SIZE) as Hkm by done.
  set (m0 := set_remaining (meta n) (remaining_size (meta n) - (kv + KV_META_SIZE))).
  destruct (increment_spec m0) as (m & Hm & Hmo & Hmc & Hmf & Hmn & Hmr).
  { apply (lo_word _ _ (re_layout _ _ HR)). }
  { pose proof (layout_count _ _ (re_layout _ _ HR)) as Hc. unfold count in Hc.
    change (meta_count_with_fence m0) with (meta_count_with_fence (meta n)). lia. }
  unfold bump_count. change (meta (set_remaining_size _ _)) with m0. rewrite Hm. ret_step.
  eexists. split; [done|].
  assert (k_key r' = key ∧ k_val r' = value) as [Hkk Hvv] by (unfold k_key, k_val; by rewrite Hent).
  assert (s_body (rec_slot pl r') = drop (Z.to_nat pl) key ++ value) as Hbody
    by (cbn [s_body rec_slot]; by rewrite Hkk, Hvv).
  assert (zlen (s_body (rec_slot pl r')) = kv) as Hbl by (rewrite rec_body_len; rewrite Hkk, ?Hvv; done).
  destruct (repr_insert_rec (set_meta (set_data n d) m) r') as [HR' He']; auto.
  { apply Hmf. }
  { unfold d. rewrite <- Hbody, <- Hoff. apply layout_add; rewrite ?Hbl; auto.
    - apply (re_layout _ _ HR).
    - unfold zlen in *. lia.
    - by apply rec_real.
    - by apply pack_meta_wf, rec_pack_ok.
    - rewrite Hbody. apply Forall_app_2; [by apply Forall_drop|done].
    - lia.
    - rewrite Hmc. pose proof (layout_count _ _ (re_layout _ _ HR)) as Hc. unfold count in Hc.
      change (meta_count_with_fence m0) with (meta_count_with_fence (meta n)). lia.
    - rewrite Hmr. cbn [m0 set_remaining remaining_size]. lia. }
  eexists. split; [exact HR'|]. split; [done|]. split; [exact He'|].
  split; [by split_and!|]. split; [|by rewrite Hnone].
  cbn [set_meta meta]. rewrite Hmr. cbn [m0 set_remaining remaining_size]. lia.
Qed.

Lemma insert_new_ok :
  find_entry key es = None → kv + KV_META_SIZE <= remaining_size (meta n) →
  ∃ n', insert_new n (fc + Z.of_nat (lb key es)) key value op = Ret n' ∧ inserted n'.
Proof.
  intros Hnone Hroom. unfold insert_new. rewrite post_fix_ok. ret_step.
  rewrite kv_len_ok, value_u16. ret_step.
  pose proof key_bounds as (Hb & Hk & Hv & Hkv). pose proof rem_bounds as (Hr0 & Hr1 & Hr2).
  pose proof (layout_fits _ _ (re_layout _ _ HR)) as (Hfit & _ & Hcnt).
  assert (0 < KV_META_SIZE) as Hkm by done. pose proof (lb_bound key es) as Hlb.
  rewrite (layout_lowest _ _ (re_layout _ _ HR)). ret_step.
  rewrite (subu_ok low kv) by lia. ret_step. pose proof (fresh_offset ltac:(lia)) as Hoff.
  set (r' := mkKrec (mkEntry key op value) false (low - kv)).
  rewrite make_prefixed_meta_pack by lia.
  change (pack _ _ _ _ _ _) with (s_meta (rec_slot pl r')).
  assert (meta_wf (s_meta (rec_slot pl r'))) as Hwf by by apply pack_meta_wf, new_pack_ok.
  rewrite (layout_count _ _ (re_layout _ _ HR)), (repr_first n p HR), <- Nat2Z.inj_add.
  pose proof slots_len as Hzs. set (j := (nf + lb key es)%nat).
  assert (j <= length (page_slots pl p))%nat as Hj by (unfold j, zlen in *; lia).
  rewrite subu_ok by (unfold zlen; lia). ret_step.
  destruct (layout_shift_ok _ _ j (s_meta (rec_slot pl r')) (re_layout _ _ HR) Hj)
    as (-> & Hd1 & Hd2 & Hlen); [apply Hwf|lia|].
  ret_step. rewrite Hd1. ret_step. rewrite Hd2. ret_step.
  rewrite slice_from_ok by done. ret_step. rewrite suffix_all, value_all. cbn [data set_data].
  destruct (write_record (splice (splice (data n) (KV_META_SIZE * (Z.of_nat j + 1))
     (sub_bytes (data n) (KV_META_SIZE * Z.of_nat j) (KV_META_SIZE * (zlen (page_slots pl p) - Z.of_nat j))))
     (KV_META_SIZE * Z.of_nat j) (encode_meta (s_meta (rec_slot pl r')))) (low - kv)) as [-> Hw]; [lia..|].
  ret_step. rewrite Hw. ret_step.
  rewrite add16_ok by (unfold U16, KV_META_SIZE in *; lia). ret_step.
  cbn [meta set_data]. rewrite subu_ok by lia. ret_step.
  by apply (insert_new_header r').
Qed.
End insert.

(** ** Space checks *)
Definition fence_bytes (p : page) : Z :=
  match p_fences p with
  | None => 0
  | Some (l, h) => zlen (fence_key l) + zlen (fence_key h)
  end.

Section space.
Context (n : LeafNode) (p : page).
Hypothesis HR : Repr n p.

Lemma fence_len_bound l h :
  p_fences p = Some (l, h) →
  0 <= zlen (fence_key l) < 2 ^ 14 ∧ 0 <= zlen (fence_key h) < 2 ^ 14.
Proof.
  intros Hf. destruct (fences_ok n p HR l h Hf) as [Hl Hh].
  split; split; try apply zlen_nonneg.
  - destruct l as [|lo lk]; [done|]. apply Hl.
  - destruct h as [|ho hk]; [done|]. apply Hh.
Qed.

Lemma full_spec req mfl :
  0 <= mfl < 2 ^ 15 → 0 <= req →
  full_with_fences n req mfl =
    Ret ((remaining_size (meta n) <? req) ||
         (leaf_has_fence n && (remaining_size (meta n) + fence_bytes p <? req + mfl))).
Proof.
  intros Hm Hq. unfold full_with_fences. pose proof (rem_bounds n p HR) as (Hr0 & Hr1 & Hr2).
  zcase (remaining_size (meta n) <? req); [done|]. cbn [orb].
  rewrite (re_flag _ _ HR). unfold fence_bytes.
  destruct (p_fences p) as [[l h]|] eqn:Hf; [|done]. cbn [bool_decide andb].
  change (bool_decide (is_Some (Some (l, h)))) with true. cbn [andb].
  destruct (fence_len_bound l h Hf) as [Hl Hh].
  rewrite (low_fence_meta n p HR l h Hf). ret_step.
  destruct (fence_infinite n p HR l h Hf) as [-> Hi].
  destruct (fence_key_len n p HR l h Hf) as [-> Hk].
  assert ((if negb (zlen (fence_key l) =? 0)
           then add16 (remaining_size (meta n)) (zlen (fence_key l)) else Ret (remaining_size (meta n)))
          = Ret (remaining_size (meta n) + zlen (fence_key l))) as ->.
  { zcase (zlen (fence_key l) =? 0); cbn [negb]; [f_equal; lia|]. apply add16_ok. unfold U16. lia. }
  ret_step. rewrite (high_fence_meta n p HR l h Hf). ret_step. rewrite Hi, Hk.
  set (e1 := _ + zlen (fence_key l)).
  assert ((if negb (zlen (fence_key h) =? 0) then add16 e1 (zlen (fence_key h)) else Ret e1)
          = Ret (e1 + zlen (fence_key h))) as ->.
  { zcase (zlen (fence_key h) =? 0); cbn [negb]; [f_equal; lia|]. apply add16_ok. unfold U16, e1. lia. }
  ret_step. rewrite as_u16_id by (unfold U16; lia).
  rewrite add16_ok by (unfold U16; lia). ret_step. f_equal. unfold e1.
  rewrite Z.add_assoc. apply eq_sym, Z.ltb_antisym.
Qed.

(** ** The whole operation *)
Context (key value : bytes) (op : OpType) (mfl : Z).
Hypothesis Hkey : in_range (p_fences p) key.
Hypothesis Hok : entry_ok (mkEntry key op value).
Hypothesis Hmfl : 0 <= mfl < 2 ^ 15.

(** Cached copies are only inserted for keys the page does not hold. *)
Hypothesis Hcache : op = OpCache → find_entry key (p_entries p) = None.

Definition insert_done (n' : LeafNode) : Prop :=
  ∃ p', Repr n' p' ∧ p_fences p' = p_fences p ∧
    p_entries p' = apply_op (is_base_page n) key op value (p_entries p) ∧ same_header n n' ∧
    remaining_size (meta n) -
      (if op_eqb op OpDelete && is_base_page n then 0 else kv_size n key value + KV_META_SIZE)
      <= remaining_size (meta n').

Lemma inserted_done n' :
  (find_entry key (p_entries p) = None → op_eqb op OpDelete && is_base_page n = false) →
  inserted n p key value op n' → insert_done n'.
Proof.
  intros Hd (p' & HR' & Hf & He & Hh & Hr & Hdel). exists p'. split_and!; auto; try apply Hh.
  - unfold apply_op. destruct (find_entry key (p_entries p)); [done|]. by rewrite Hd.
  - destruct (op_eqb op OpDelete) eqn:Ho; cbn [andb] in *; [|lia].
    destruct (find_entry key (p_entries p)) as [e|] eqn:Hf'; [|rewrite Hd by done; lia].
    rewrite Hdel by done. pose proof (key_bounds n p HR key value op Hkey Hok).
    unfold KV_META_SIZE. destruct (is_base_page n); lia.
Qed.

Lemma insert_existing_ok e :
  find_entry key (p_entries p) = Some e →
  ∃ b n', insert_existing n (first_meta_pos_after_fence n + Z.of_nat (lb key (p_entries p))) key value op
            = Ret (b, n') ∧
    if b then insert_done n'
    else n' = n ∧ remaining_size (meta n) < kv_size n key value ∧ op_eqb op OpDelete = false.
Proof.
  intros Hfind.
  assert (∃ r, p_recs p !! lb key (p_entries p) = Some r ∧ k_key r = key) as (r & Hr & Hk).
  { rewrite find_entry_lb in Hfind by apply (re_order _ _ HR).
    destruct (p_entries p !! _) as [e'|] eqn:He; [|done].
    destruct (key_eqb (e_key e') key) eqn:Ek; [|done]. apply key_eqb_eq in Ek.
    apply p_entries_lookup_inv in He as (r & Hr & <-). by exists r. }
  assert (∀ n', inserted n p key value op n' → insert_done n') as Hdone.
  { intros n'. apply inserted_done. congruence. }
  destruct (op_eqb op OpDelete) eqn:Hop.
  { apply bool_decide_eq_true in Hop.
    destruct (insert_delete n p HR key value op Hkey Hok r Hr Hk Hop) as (n' & -> & Hi).
    exists true, n'. auto. }
  destruct (Z.le_gt_cases (zlen value) (zlen (k_val r))) as [Hle|Hgt].
  { destruct (insert_in_place n p HR key value op Hkey Hok r Hr Hk Hop Hle) as (n' & -> & Hi).
    exists true, n'. auto. }
  destruct (Z.le_gt_cases (kv_size n key value) (remaining_size (meta n))) as [Hroom|Hno].
  - destruct (insert_move n p HR key value op Hkey Hok r Hr Hk Hop) as (n' & -> & Hi); auto;
      [intros ->; by rewrite (Hcache eq_refl) in Hfind|].
    exists true, n'. auto.
  - exists false, n. rewrite (existing_value_prefix n p HR key value op Hkey Hok r Hr Hop).
    zcase (zlen value <=? zlen (k_val r)); [lia|].
    zcase (remaining_size (meta n) <? kv_size n key value); [done|lia].
Qed.

Lemma insert_repr :
  ∃ b n', insert n key value op mfl = Ret (b, n') ∧
    if b then insert_done n'
    else n' = n ∧ no_room n key value mfl ∧ op_eqb op OpDelete && is_base_page n = false.
Proof.
  pose proof (key_bounds n p HR key value op Hkey Hok) as (Hb & Hk & Hv & Hkv).
  unfold insert. rewrite (key_u16 n p HR key value op Hkey Hok).
  change (match op with OpInsert | OpCache => _ | _ => _ end) with (value_ok op value).
  rewrite (assert_true (_ <=? _)) by (apply Z.leb_le; lia). ret_step.
  rewrite (assert_true (value_ok op value)) by apply Hok. ret_step. rewrite subu_ok by lia. ret_step.
  rewrite (kv_len_ok n p HR key value op Hkey Hok). ret_step.
  rewrite (lower_bound_lb n p HR key Hkey). ret_step.
  rewrite (key_at_equals_spec n p HR key Hkey). ret_step.
  pose proof insert_existing_ok as Hex. pose proof inserted_done as Hdone.
  destruct (find_entry key (p_entries p)) as [e|] eqn:Hfind.
  { destruct (Hex e eq_refl) as (b & n' & -> & Hi). exists b, n'. split; [done|].
    destruct b; [done|]. destruct Hi as (-> & Hi & ->). split_and!; [done|by left|done]. }
  destruct (op_eqb op OpDelete && is_base_page n) eqn:Hdel.
  { exists true, n. split; [done|]. exists p. unfold apply_op. rewrite Hfind, Hdel.
    split_and!; auto using same_header_refl. lia. }
  rewrite add16_ok by (unfold U16, KV_META_SIZE, kv_size; lia). ret_step.
  destruct (full_with_fences n (kv_size n key value + KV_META_SIZE) mfl) as [full|] eqn:Hfull.
  2:{ rewrite full_spec in Hfull; [done|lia|unfold KV_META_SIZE; lia]. }
  ret_step. destruct full; [exists false, n; split_and!; [done|done|by right|done]|].
  rewrite full_spec in Hfull by (unfold KV_META_SIZE in *; lia).
  injection Hfull as [Hrem _]%orb_false_iff. apply Z.ltb_ge in Hrem.
  destruct (insert_new_ok n p HR key value op Hkey Hok Hfind Hrem) as (n' & -> & Hi).
  ret_step. exists true, n'. split; [done|]. by apply Hdone.
Qed.
End space.
