(* ===== verification/LeafInit.v ===== *)
(** Initialising a leaf page (src/nodes/leaf_node.rs, [initialize],
    [install_fence_key], [initialize_mini_page], [make_base_page]): a fresh page
    represents an empty set of records between its fences, whatever the memory held. *)
From stdpp Require Import base numbers list sorting.
From Stdlib Require Import ZArith Lia.
From S2P Require Import Prelude Bits NodeMeta LeafMeta LeafNode LeafLayout Entries LeafRepr.

Section append.
Context (n : LeafNode) (ss : list slot).
Hypothesis HL : Layout n ss.

(** Appending a descriptor with its record. *)
Lemma layout_append t m :
  s_real t = true → meta_wf (s_meta t) → bytes_ok (s_body t) →
  KV_META_SIZE + zlen (s_body t) <= remaining_size (meta n) →
  s_off t = KV_META_SIZE * zlen ss + remaining_size (meta n) - zlen (s_body t) →
  meta_ok m → node_size m = node_size (meta n) → meta_count_with_fence m = zlen ss + 1 →
  remaining_size m = remaining_size (meta n) - (KV_META_SIZE + zlen (s_body t)) →
  let d := splice (splice (data n) (KV_META_SIZE * zlen ss) (encode_meta (s_meta t)))
             (s_off t) (s_body t) in
  Layout (set_meta (set_data n d) m) (ss ++ [t]).
Proof. apply (playout_append _ _ _ HL). Qed.

(** Appending a marker that owns no record. *)
Lemma layout_append_marker t m :
  s_real t = false → meta_wf (s_meta t) → KV_META_SIZE <= remaining_size (meta n) →
  meta_ok m → node_size m = node_size (meta n) → meta_count_with_fence m = zlen ss + 1 →
  remaining_size m = remaining_size (meta n) - KV_META_SIZE →
  let d := splice (data n) (KV_META_SIZE * zlen ss) (encode_meta (s_meta t)) in
  Layout (set_meta (set_data n d) m) (ss ++ [t]).
Proof.
  intros Hr Hm Hsp Hmo Hmn Hmc Hmr d.
  pose proof Hm as (_ & Hlen & Hb). cbn [d_enc leaf_descriptor] in Hlen, Hb.
  pose proof (layout_fits n ss HL) as (Hf & _). pose proof (zlen_nonneg ss).
  pose proof (lo_low _ _ HL) as Hlow. unfold KV_META_SIZE in *.
  assert (zlen d = zlen (data n)) as Hd by (apply zlen_splice; lia).
  assert (ss ++ [t] ≡ₚ t :: ss) as Hp by (by rewrite Permutation_app_comm).
  change (PLayout m d (ss ++ [t])). eapply playout_take_space; eauto; rewrite ?zlen_app, ?zlen_cons, ?zlen_nil;
    unfold KV_META_SIZE; try lia.
  - apply bytes_ok_splice; [apply (lo_bytes _ _ HL)|done].
  - rewrite Hd, (lowest_perm _ _ _ Hp). cbn [lowest]. rewrite Hr. lia.
  - pose proof (slots_insert (data n) ss (length ss) t (lo_metas _ _ HL)) as H1.
    rewrite insert_at_end in H1. unfold zlen in H1 at 3.
    rewrite Z.sub_diag, Z.mul_0_r, sub_zero, splice_nil in H1. apply H1; auto.
    unfold KV_META_SIZE, zlen in *. lia.
  - rewrite Hp. constructor; [done|apply (lo_wf _ _ HL)].
  - apply (heap_perm _ (t :: ss)); [by rewrite Hp|]. split; [constructor|split].
    + intros Hr'. congruence.
    + apply (heap_frame_low _ _ _ _ (8 * (zlen ss + 1)) (lo_heap _ _ HL)); lia.
    + apply Forall_true. intros t' Hr'. congruence.
    + apply (lo_heap _ _ HL).
Qed.
End append.

(** ** Fences *)
Section install.
Context (n : LeafNode) (ss : list slot) (key : bytes) (high : bool).
Hypothesis HL : Layout n ss.
Hypothesis Hidx : zlen ss = if high then HIGH_FENCE_IDX else LOW_FENCE_IDX.

Local Abbreviation plen := (if high then prefix_len n else 0).

Hypothesis Hpl : 0 <= plen <= zlen key.
Hypothesis Hkey : zlen key < 2 ^ 14.
Hypothesis Hbytes : bytes_ok key.
Hypothesis Hroom : KV_META_SIZE + (zlen key - plen) <= remaining_size (meta n).

Definition fence_slot (f : fence) : slot := if high then high_slot (prefix_len n) f else low_slot f.

Lemma fence_slot_at off :
  fence_slot (FAt off key) =
    mkSlot (pack off (zlen key) OpInsert 0 false (preview_of key plen)) (drop (Z.to_nat plen) key).
Proof. unfold fence_slot. by destruct high. Qed.

Definition installed (n' : LeafNode) : Prop :=
  ∃ f, fence_ok f ∧ fence_key f = key ∧ Layout n' (ss ++ [fence_slot f]) ∧ same_header n n' ∧
    remaining_size (meta n') = remaining_size (meta n) - (KV_META_SIZE + (zlen key - plen)).

(** The header once the fence is counted. *)
Lemma install_count :
  ∃ m, bump_count n = Ret (set_meta n m) ∧ meta_ok m ∧ meta_count_with_fence m = zlen ss + 1 ∧
    same_flags (meta n) m ∧ node_size m = node_size (meta n) ∧
    remaining_size m = remaining_size (meta n).
Proof.
  pose proof (layout_fits n ss HL) as (_ & _ & Hc). pose proof (layout_count _ _ HL) as Hcnt.
  unfold count in Hcnt.
  destruct (increment_spec (meta n) (lo_word _ _ HL)) as (m & Hm & Hmo & Hmc & Hrest); [lia|].
  exists m. unfold bump_count. rewrite Hm. split; [done|]. split; [done|]. rewrite Hmc, Hcnt. done.
Qed.

Lemma install_infinite : key = [] → ∃ n', install_fence_key n key high = Ret n' ∧ installed n'.
Proof.
  intros Hnil. unfold install_fence_key. rewrite (layout_count _ _ HL), Hidx.
  rewrite assert_true by (destruct high; done). ret_step.
  rewrite (layout_lowest _ _ HL). ret_step.
  destruct install_count as (m & -> & Hmo & Hmc & Hmf & Hmn & Hmr). ret_step.
  assert (zlen key = 0) as Hz by by rewrite Hnil. assert (plen = 0) as Hp0 by lia.
  cbn [meta set_meta]. rewrite subu_ok by (rewrite Hmr; lia). ret_step.
  rewrite Hz. cbn [Z.eqb]. 
  set (t := if high then make_infinite_high_fence_key else make_infinite_low_fence_key).
  assert (s_meta (fence_slot FInf) = t) as Ht by (unfold fence_slot, t; by destruct high).
  assert (meta_wf t) as Hwf by (unfold t; destruct high; apply inf_meta_wf).
  pose proof (layout_fits n ss HL) as (Hf & _). pose proof (zlen_nonneg ss).
  unfold write_initial_kv_meta. rewrite <- Hidx.
  change (data (set_remaining_size _ _)) with (data n).
  rewrite blit_ok by (pose proof (leaf_meta_len _ Hwf); unfold KV_META_SIZE in *; lia). ret_step.
  eexists. split; [done|]. exists FInf. split_and!; [done|done| |done|].
  - rewrite <- Ht. apply (layout_append_marker n ss HL (fence_slot FInf)); auto.
    + unfold fence_slot. by destruct high.
    + by rewrite Ht.
    + lia.
    + cbn. by rewrite Hmr.
  - cbn [set_remaining_size set_data set_meta set_remaining meta remaining_size]. lia.
Qed.

Lemma install_key : key ≠ [] → ∃ n', install_fence_key n key high = Ret n' ∧ installed n'.
Proof.
  intros Hne. unfold install_fence_key. rewrite (layout_count _ _ HL), Hidx.
  rewrite assert_true by (destruct high; done). ret_step.
  rewrite (layout_lowest _ _ HL). ret_step.
  destruct install_count as (m & -> & Hmo & Hmc & Hmf & Hmn & Hmr). ret_step.
  pose proof (layout_fits n ss HL) as (Hf & Hmax & _). pose proof (zlen_nonneg ss).
  assert (0 <= KV_META_SIZE * zlen ss) as Hn0 by (unfold KV_META_SIZE; lia).
  unfold MAX_LEAF_PAGE_SIZE, LEAF_HEADER in Hmax.
  assert (0 < KV_META_SIZE) as Hkm by done.
  assert (zlen key ≠ 0) as Hz by (intros Hz; by apply zlen_nil_inv in Hz).
  cbn [meta set_meta]. rewrite (subu_ok (remaining_size m)) by lia. ret_step.
  rewrite (proj2 (Z.eqb_neq _ _) Hz).
  change (prefix_len (set_remaining_size _ _)) with (prefix_len n).
  rewrite as_u16_id by (unfold U16; lia). rewrite subu_ok by lia. ret_step. rewrite Z.add_0_r.
  cbn [set_remaining_size set_meta set_remaining meta remaining_size].
  rewrite assert_true by (apply Z.leb_le; lia). ret_step. rewrite subu_ok by lia. ret_step.
  rewrite make_prefixed_meta_pack by lia. set (off := _ + _ - _).
  assert (real_offset_ok off) as Hoff by (unfold real_offset_ok, off; lia).
  pose proof (fence_slot_at off) as Ht. set (t := fence_slot (FAt off key)) in *.
  assert (meta_wf (s_meta t)) as Hwf.
  { rewrite Ht. apply pack_meta_wf, pack_ok_prefixed; auto; unfold real_offset_ok, U16 in *; lia. }
  change (pack _ _ _ _ _ _) with (s_meta (mkSlot (pack off (zlen key) OpInsert 0 false (preview_of key plen))
    (drop (Z.to_nat plen) key))). rewrite <- Ht. pose proof (leaf_meta_len _ Hwf) as Hml.
  assert (s_off t = off) as Hso by by rewrite Ht.
  assert (zlen (s_body t) = zlen key - plen) as Hbl by (rewrite Ht; by apply zlen_drop).
  unfold write_initial_kv_meta. rewrite <- Hidx.
  change (data (set_remaining_size _ _)) with (data n).
  rewrite blit_ok by (rewrite ?Hml; lia). do 2 ret_step. rewrite slice_from_ok by done. ret_step.
  rewrite take_ge by (rewrite length_drop; unfold zlen; lia).
  replace (drop (Z.to_nat plen) key) with (s_body t) by by rewrite Ht.
  cbn [set_remaining_size set_remaining set_meta set_data data meta remaining_size].
  rewrite blit_ok by (rewrite ?zlen_splice; unfold off; lia). ret_step.
  rewrite subu_ok by lia. ret_step. eexists. split; [done|]. exists (FAt off key).
  split_and!; [done|done| |done|].
  - pose proof (layout_append n ss HL t
      (set_remaining m (remaining_size m - KV_META_SIZE - (zlen key - plen)))) as HA.
    rewrite Hso in HA. apply HA; auto; rewrite ?Hbl; cbn [set_remaining remaining_size]; try lia.
    + rewrite Ht. by apply pack_real.
    + rewrite Ht. by apply Forall_drop.
  - cbn [set_remaining_size set_data set_meta set_remaining meta remaining_size]. lia.
Qed.

Lemma install_fence_spec : ∃ n', install_fence_key n key high = Ret n' ∧ installed n'.
Proof.
  destruct (decide (key = [])); [by apply install_infinite | by apply install_key].
Qed.
End install.

(** ** Fresh pages *)

(** The header [initialize] writes. *)
Definition fresh_header (n : LeafNode) (size next version : Z) (fence cache_only : bool)
    (n' : LeafNode) : Prop :=
  node_size (meta n') = size ∧ next_level n' = next ∧ lsn n' = lsn n ∧
  snapshot_version n' = Z.land version LEAF_SNAPSHOT_VERSION_MASK ∧
  leaf_has_fence n' = fence ∧ is_cache_only_leaf (meta n') = cache_only ∧
  get_split_flag (meta n') = false ∧ children_is_leaf (meta n') = false.

Section init.
Context (n : LeafNode) (size next version : Z) (cache_only : bool).
Hypothesis Hsize : LEAF_HEADER <= size <= MAX_LEAF_PAGE_SIZE.
Hypothesis Hdata : zlen (data n) = size - LEAF_HEADER.
Hypothesis Hbytes : bytes_ok (data n).

(** The page after its header has been reset. *)
Lemma init_header fence pl :
  ∃ m, NodeMeta_new (as_u16 (size - LEAF_HEADER)) false fence (as_u16 size) cache_only = Ret m ∧
    let n1 := mkLeafNode m pl next (lsn n) (Z.land version LEAF_SNAPSHOT_VERSION_MASK) (data n) in
    Layout n1 [] ∧ fresh_header n size next version fence cache_only n1 ∧
    remaining_size m = size - LEAF_HEADER.
Proof.
  unfold LEAF_HEADER, MAX_LEAF_PAGE_SIZE in *.
  rewrite !as_u16_id by (unfold U16; lia).
  destruct (NodeMeta_new_spec (size - 32) false fence size cache_only)
    as (m & Hm & Hmo & Hmc & Hmf & Hms & Hml & Hmco & Hmn & Hmr); [apply andb_false_r|].
  exists m. split; [done|]. split_and!; [|by split_and!|done].
  split; cbn [meta data count lowest]; unfold count; cbn [meta];
    unfold LEAF_HEADER, MAX_LEAF_PAGE_SIZE; rewrite ?Hmn, ?Hmr; try done; try lia.
Qed.

Lemma initialize_mini_repr :
  ∃ n', initialize n [] [] size next false cache_only version = Ret n' ∧
    Repr n' (mkPage None []) ∧ fresh_header n size next version false cache_only n' ∧
    remaining_size (meta n') = size - LEAF_HEADER.
Proof.
  unfold initialize, max_data_size. rewrite subu_ok by lia. ret_step. cbn [negb].
  rewrite !assert_true by done. do 2 ret_step.
  destruct (init_header false 0) as (m & -> & HL & Hh & Hr). ret_step.
  eexists. split; [done|]. split_and!; [|exact Hh|exact Hr].
  split; try done; try constructor; apply Hh || exact HL.
Qed.

Lemma initialize_fence_repr low high :
  zlen low < 2 ^ 14 → zlen high < 2 ^ 14 → bytes_ok low → bytes_ok high →
  2 * KV_META_SIZE + zlen low + (zlen high - common_prefix_len low high) <= size - LEAF_HEADER →
  ∃ n' l h, initialize n low high size next true cache_only version = Ret n' ∧
    Repr n' (mkPage (Some (l, h)) []) ∧ fence_key l = low ∧ fence_key h = high ∧
    fresh_header n size next version true cache_only n' ∧
    remaining_size (meta n') =
      size - LEAF_HEADER - (2 * KV_META_SIZE + zlen low + (zlen high - common_prefix_len low high)).
Proof.
  intros Hl Hh Hlb Hhb Hroom. unfold initialize, max_data_size. rewrite subu_ok by lia. ret_step.
  cbn [negb]. destruct (init_header true (common_prefix_len low high)) as (m & -> & HL & Hhd & Hr).
  ret_step. cbn [lsn snapshot_version data set_snapshot].
  set (n1 := mkLeafNode _ _ _ _ _ _) in *.
  pose proof (common_prefix_len_bound low high) as Hcp. assert (0 < KV_META_SIZE) as Hkm by done.
  pose proof (zlen_nonneg low). change (remaining_size m) with (remaining_size (meta n1)) in Hr.
  destruct (install_fence_spec n1 [] low false HL eq_refl) as (n2 & -> & l & Hlok & Hlk & HL2 & Hh2 & Hr2);
    auto; [lia|lia|]. ret_step.
  destruct (install_fence_spec n2 _ high true HL2 eq_refl) as (n3 & -> & h & Hhok & Hhk & HL3 & Hh3 & Hr3);
    auto; rewrite ?(proj1 Hh2); try (change (prefix_len n1) with (common_prefix_len low high); lia).
  pose proof (same_header_trans _ _ _ Hh2 Hh3) as (Hp & Hn & Hls & Hv & Hns & Hf1 & Hf2 & Hf3 & Hf4).
  destruct Hhd as (H1 & H2 & H3 & H4 & H5 & H6 & H7 & H8).
  exists n3, l, h. split; [done|]. split_and!; auto.
  - split; cbn [p_fences p_recs]; auto; unfold leaf_has_fence; try apply SSorted_nil.
    + rewrite Hp. cbn in HL3. unfold page_slots. cbn [p_fences p_recs map fence_slots app].
      unfold fence_slot in HL3. rewrite (proj1 Hh2) in HL3. exact HL3.
    + rewrite Hf1. exact H5.
    + rewrite Hp. cbn [fences_prefix]. by rewrite Hlk, Hhk.
  - unfold fresh_header, leaf_has_fence. rewrite Hns, Hn, Hls, Hv, Hf1, Hf2, Hf3, Hf4. by split_and!.
  - rewrite Hr3, Hr2, (proj1 Hh2), Hr. change (prefix_len n1) with (common_prefix_len low high). lia.
Qed.
End init.
