(* ===== verification/LeafMerge.v ===== *)
(** Merging a mini page into its base page (src/nodes/leaf_node.rs,
    [estimate_merge_size], [merge_mini_page]): the space check is sufficient, so the
    merge never fails half way, and the base page afterwards reads as the mini page's
    dirty records over the old base page. *)
From stdpp Require Import base numbers list sorting.
From Stdlib Require Import ZArith Lia.
From S2P Require Import Prelude Bits NodeMeta LeafMeta LeafNode LeafOps LeafLayout Entries LeafRepr LeafSearch LeafInsert.

(** ** Iterating over a represented page *)
Definition rec_meta (n : LeafNode) (r : krec) : LeafKVMeta := s_meta (rec_slot (prefix_len n) r).

Section iterate.
Context (n : LeafNode) (p : page).
Hypothesis HR : Repr n p.

Lemma repr_meta_iter : meta_iter n = Ret (map (rec_meta n) (p_recs p)).
Proof.
  unfold meta_iter. rewrite (repr_positions n p HR).
  replace (zlen (p_recs p)) with (zlen (map (rec_meta n) (p_recs p)))
    by (unfold zlen; by rewrite length_map).
  apply mapM_seqZ. intros j m Hj. rewrite list_lookup_fmap in Hj.
  destruct (p_recs p !! j) as [r|] eqn:Hr; [|done]. injection Hj as <-.
  rewrite <- Nat2Z.inj_add. by apply repr_get.
Qed.

(** What the readers return on a record met by the iteration. *)
Lemma rec_readers r :
  r ∈ p_recs p →
  get_full_key n (rec_meta n r) = Ret (k_key r) ∧ get_value n (rec_meta n r) = Ret (k_val r) ∧
  op_type (rec_meta n r) = Ret (e_op (k_ent r)) ∧ get_key_len (rec_meta n r) = zlen (k_key r) ∧
  value_len (rec_meta n r) = zlen (k_val r) ∧ is_referenced (rec_meta n r) = k_ref r ∧
  rec_ok r ∧ in_range (p_fences p) (k_key r).
Proof.
  intros [i Hi]%list_elem_of_lookup. split_and!.
  - by apply (repr_full_key n p HR i).
  - by apply (repr_value n p HR i).
  - by apply (repr_op n p HR i).
  - by apply (repr_key_len n p HR i).
  - by apply (repr_value_len n p HR i).
  - by apply (repr_referenced n p HR i).
  - by apply (repr_rec_ok n p HR i).
  - by apply (repr_in_range n p HR i).
Qed.
End iterate.

(** ** Insertions that must succeed *)
Lemma insert_or_panic_ok n p key value op :
  Repr n p → in_range (p_fences p) key → entry_ok (mkEntry key op value) →
  (op = OpCache → find_entry key (p_entries p) = None) →
  op_eqb op OpDelete && is_base_page n = true ∨
    kv_size n key value + KV_META_SIZE <= remaining_size (meta n) →
  ∃ n', insert_or_panic n key value op = Ret n' ∧ insert_done n p key value op n'.
Proof.
  intros HR Hkey Hok Hc Hroom. unfold insert_or_panic.
  destruct (insert_repr n p HR key value op 0 Hkey Hok ltac:(lia) Hc) as (b & n' & -> & Hb).
  ret_step. destruct b; [by exists n'|]. exfalso. destruct Hb as (_ & Hno & Hdel).
  destruct Hroom as [Hd|Hroom]; [congruence|].
  pose proof (key_bounds n p HR key value op Hkey Hok) as (_ & _ & _ & Hkv).
  assert (0 <= fence_bytes p) as Hfb.
  { unfold fence_bytes. destruct (p_fences p) as [[l h]|]; [|done].
    pose proof (zlen_nonneg (fence_key l)). pose proof (zlen_nonneg (fence_key h)). lia. }
  destruct Hno as [Hno|Hfull]; [unfold KV_META_SIZE in *; lia|].
  rewrite (full_spec n p HR) in Hfull by (unfold KV_META_SIZE; lia).
  injection Hfull as [Hf|Hf]%orb_true_iff; [apply Z.ltb_lt in Hf; lia|].
  apply andb_true_iff in Hf as [_ Hf]. apply Z.ltb_lt in Hf. lia.
Qed.

(** ** The space a merge asks for *)
Definition rec_need (r : krec) : Z := zlen (k_key r) + zlen (k_val r) + KV_META_SIZE.

Definition merge_need (rs : list krec) : Z :=
  foldr (λ r acc, (if op_eqb (e_op (k_ent r)) OpInsert then rec_need r else 0) + acc) 0 rs.

Lemma rec_need_nonneg r : 0 <= rec_need r.
Proof.
  unfold rec_need, KV_META_SIZE. pose proof (zlen_nonneg (k_key r)). pose proof (zlen_nonneg (k_val r)).
  lia.
Qed.

Lemma merge_need_nonneg rs : 0 <= merge_need rs.
Proof.
  unfold merge_need. induction rs as [|r rs IH]; cbn; [done|].
  pose proof (rec_need_nonneg r). destruct (op_eqb _ _); lia.
Qed.

Section estimate.
Context (n : LeafNode) (p : page).
Hypothesis HR : Repr n p.
Hypothesis Hmini : p_fences p = None.

Lemma mini_prefix : prefix_len n = 0.
Proof. by rewrite (re_prefix _ _ HR), Hmini. Qed.

(** Records of an uncompressed page occupy their full size. *)
Lemma merge_need_fits : merge_need (p_recs p) + remaining_size (meta n) <= zlen (data n).
Proof.
  pose proof (layout_total n _ (re_layout _ _ HR)) as Ht. unfold page_slots in Ht.
  rewrite Hmini in Ht. cbn [fence_slots app] in Ht. rewrite mini_prefix in Ht.
  pose proof (re_recs _ _ HR) as Hok.
  assert (merge_need (p_recs p) <=
          KV_META_SIZE * zlen (map (rec_slot 0) (p_recs p)) + total_size (map (rec_slot 0) (p_recs p)));
    [|lia].
  clear Ht. induction Hok as [|r rs Hr Hrs IH]; cbn [map total_size foldr merge_need]; [done|].
  rewrite zlen_cons. pose proof (rec_body_len 0 r) as Hb. pose proof (zlen_nonneg (k_key r)).
  assert (body_size (rec_slot 0 r) = zlen (k_key r) + zlen (k_val r)) as ->.
  { unfold body_size. rewrite (rec_real 0 r Hr), Hb by lia. lia. }
  pose proof (rec_need_nonneg r).
  assert (rec_need r = zlen (k_key r) + zlen (k_val r) + KV_META_SIZE) by done.
  unfold KV_META_SIZE, total_size, merge_need in *.
  destruct (op_eqb _ _); lia.
Qed.

Lemma estimate_loop rs acc :
  (∀ r, r ∈ rs → r ∈ p_recs p) →
  foldM estimate_step acc (map (rec_meta n) rs) = Ret (acc + merge_need rs).
Proof.
  revert acc. induction rs as [|r rs IH]; intros acc Hin; cbn [map foldM merge_need foldr];
    [f_equal; lia|].
  destruct (rec_readers n p HR r) as (_ & _ & Hop & Hk & Hv & _ & (_ & Hok) & _); [apply Hin; left|].
  destruct Hok as (Hkl & Hvl & _). fold (k_key r) (k_val r) in Hkl, Hvl.
  assert (estimate_step acc (rec_meta n r) =
          Ret (acc + if op_eqb (e_op (k_ent r)) OpInsert then rec_need r else 0)) as ->.
  { unfold estimate_step. rewrite Hop. ret_step. destruct (op_eqb _ _); [|f_equal; lia].
    rewrite Hk, Hv, add16_ok by (unfold U16; lia). done. }
  ret_step. rewrite IH by (intros r' Hr'; apply Hin; by right).
  f_equal. unfold merge_need. lia.
Qed.

Lemma estimate_spec : estimate_merge_size n = Ret (merge_need (p_recs p)).
Proof.
  unfold estimate_merge_size. rewrite (repr_meta_iter n p HR). ret_step.
  rewrite estimate_loop by done. done.
Qed.
End estimate.

(** ** The merge loop *)
Section merge.
Context (mini : LeafNode) (pm : page).
Hypothesis HM : Repr mini pm.

Lemma same_header_base n n' : same_header n n' → is_base_page n' = is_base_page n.
Proof.
  intros (_ & Hn & _ & _ & _ & Hf). unfold is_base_page. rewrite Hn.
  by destruct Hf as (_ & _ & _ & ->).
Qed.

(** The space one record of the mini page may take in the base page. *)
Definition merge_need1 (r : krec) : Z :=
  if op_eqb (e_op (k_ent r)) OpInsert then rec_need r else 0.

Lemma merge_step r base pb :
  Repr base pb → is_base_page base = true → r ∈ p_recs pm →
  (is_dirty (e_op (k_ent r)) = true → in_range (p_fences pb) (k_key r)) →
  merge_need1 r <= remaining_size (meta base) →
  ∃ n' p', merge_record mini base (rec_meta mini r) = Ret n' ∧
    Repr n' p' ∧ p_fences p' = p_fences pb ∧ same_header base n' ∧
    p_entries p' = merge_entry (p_entries pb) (k_ent r) ∧
    remaining_size (meta base) - merge_need1 r <= remaining_size (meta n').
Proof.
  intros HB Hbase Hin Hrange Hneed.
  destruct (rec_readers mini pm HM r Hin) as (Hk & Hv & Hop & _ & _ & _ & (_ & Hok) & _).
  unfold merge_record. rewrite Hk. ret_step. rewrite Hop. ret_step.
  unfold merge_entry. destruct (is_dirty (e_op (k_ent r))) eqn:Hd; cbn [negb].
  2:{ exists base, pb. split_and!; auto using same_header_refl. unfold merge_need1.
      destruct (op_eqb _ _); [|lia]. pose proof (rec_need_nonneg r). lia. }
  rewrite Hv. ret_step. specialize (Hrange eq_refl).
  pose proof (range_prefix base pb HB _ Hrange) as [Hpl _].
  assert (op_eqb (e_op (k_ent r)) OpDelete = negb (op_eqb (e_op (k_ent r)) OpInsert)) as Hio
    by by destruct (e_op (k_ent r)).
  destruct (insert_or_panic_ok base pb (k_key r) (k_val r) (e_op (k_ent r)) HB Hrange)
    as (n' & -> & p' & HR' & Hf' & He' & Hh' & Hr').
  - by destruct r as [[] ? ?].
  - intros Hc. by rewrite Hc in Hd.
  - rewrite Hio, Hbase. unfold merge_need1, rec_need, kv_size in *.
    destruct (op_eqb _ OpInsert); cbn [negb andb]; [right; lia|by left].
  - exists n', p'. rewrite Hbase in He', Hr'. split_and!; auto.
    unfold merge_need1, rec_need, kv_size in *. rewrite Hio in Hr'.
    destruct (op_eqb _ OpInsert); cbn [negb andb] in Hr'; lia.
Qed.

Lemma merge_loop rs base pb :
  Repr base pb → is_base_page base = true →
  (∀ r, r ∈ rs → r ∈ p_recs pm) →
  (∀ r, r ∈ rs → is_dirty (e_op (k_ent r)) = true → in_range (p_fences pb) (k_key r)) →
  merge_need rs <= remaining_size (meta base) →
  ∃ n' p', foldM (merge_record mini) base (map (rec_meta mini) rs) = Ret n' ∧
    Repr n' p' ∧ p_fences p' = p_fences pb ∧ same_header base n' ∧
    p_entries p' = merge_entries (map k_ent rs) (p_entries pb).
Proof.
  revert base pb. induction rs as [|r rs IH]; intros base pb HB Hbase Hin Hrange Hneed;
    [by exists base, pb|].
  change (merge_need (r :: rs)) with (merge_need1 r + merge_need rs) in Hneed.
  pose proof (merge_need_nonneg rs) as Hnn. cbn [map foldM].
  destruct (merge_step r base pb) as (n1 & p1 & -> & HR1 & Hf1 & Hh1 & He1 & Hr1); auto.
  { apply Hin. left. }
  { apply Hrange. left. }
  { lia. }
  ret_step. destruct (IH n1 p1) as (n2 & p2 & Hrun & HR2 & Hf2 & Hh2 & He2); auto; try lia.
  - by rewrite (same_header_base _ _ Hh1).
  - intros r' Hr'. apply Hin. by right.
  - intros r' Hr' Hd. rewrite Hf1. apply Hrange; [by right|done].
  - exists n2, p2. split_and!; auto; [congruence|by eapply same_header_trans|].
    by rewrite He2, He1.
Qed.

Lemma set_snapshot_repr n p v : Repr n p → Repr (set_snapshot n v) p.
Proof. intros [[] ? ? ? ? ? ?]. split; [by split|done..]. Qed.

Lemma merge_repr base pb mfl :
  Repr base pb → is_base_page base = true → p_fences pm = None → 0 <= mfl < 2 ^ 15 →
  (∀ e, e ∈ p_entries pm → is_dirty (e_op e) = true → in_range (p_fences pb) (e_key e)) →
  ∃ b n', merge_mini_page base mini mfl = Ret (b, n') ∧
    if b then ∃ p', Repr n' p' ∧ p_fences p' = p_fences pb ∧
      p_entries p' = merge_entries (p_entries pm) (p_entries pb) ∧
      same_header (set_snapshot base (get_clean_snapshot_version mini)) n'
    else n' = base ∧ full_with_fences base (merge_need (p_recs pm)) mfl = Ret true.
Proof.
  intros HB Hbase Hmini Hmfl Hrange. unfold merge_mini_page.
  rewrite (estimate_spec mini pm HM). ret_step.
  pose proof (merge_need_nonneg (p_recs pm)) as Hnn.
  pose proof (merge_need_fits mini pm HM Hmini) as Hfit.
  pose proof (layout_fits _ _ (re_layout _ _ HM)) as (_ & Hmax & _).
  pose proof (lo_rem _ _ (re_layout _ _ HM)). unfold MAX_LEAF_PAGE_SIZE, LEAF_HEADER in Hmax.
  rewrite as_u16_id by (unfold U16; lia).
  destruct (full_with_fences base (merge_need (p_recs pm)) mfl) as [full|] eqn:Hfull.
  2:{ by rewrite (full_spec base pb HB) in Hfull by lia. }
  ret_step. destruct full; [by exists false, base|].
  rewrite (full_spec base pb HB) in Hfull by lia.
  injection Hfull as [Hrem _]%orb_false_iff. apply Z.ltb_ge in Hrem.
  rewrite (repr_meta_iter mini pm HM). ret_step.
  destruct (merge_loop (p_recs pm) (set_snapshot base (get_clean_snapshot_version mini)) pb)
    as (n' & p' & -> & HR' & Hf' & Hh' & He'); auto using set_snapshot_repr.
  - intros r Hr Hd. apply (Hrange (k_ent r)); [|done]. by apply list_elem_of_fmap_2.
  - ret_step. exists true, n'. split; [done|]. exists p'. by split_and!.
Qed.
End merge.
