(* ===== verification/LeafRebuild.v ===== *)
(** Rebuilding leaf pages (src/nodes/leaf_node.rs, [consolidate_inner] and its callers,
    [copy_initialize_to], [split_with_key]): a fresh page is filled with the records
    that are kept, in order; the records fit, and the result holds exactly them. *)
From stdpp Require Import base numbers list sorting.
From Stdlib Require Import ZArith Lia.
From S2P Require Import Prelude Bits NodeMeta LeafMeta LeafNode LeafOps LeafLayout Entries LeafRepr LeafSearch LeafInsert LeafInit LeafMerge.

(** ** Filling a page in key order *)
Definition entry_need (pl : Z) (e : entry) : Z :=
  zlen (e_key e) - pl + zlen (e_val e) + KV_META_SIZE.

Definition total_need (pl : Z) (es : list entry) : Z :=
  foldr (λ e acc, entry_need pl e + acc) 0 es.

Definition fill_step (n : LeafNode) (e : entry) : outcome LeafNode :=
  insert_or_panic n (e_key e) (e_val e) (e_op e).

Definition fill (n : LeafNode) (es : list entry) : outcome LeafNode := foldM fill_step n es.

(** A key above every entry is appended. *)
Lemma upsert_append key op val es :
  Forall (λ e, bytes_lt (e_key e) key) es → upsert key op val es = es ++ [mkEntry key op val].
Proof. induction 1 as [|e es He _ IH]; cbn; [done|]. rewrite He. by rewrite IH. Qed.

Lemma ordered_app es e es' :
  ordered (es ++ e :: es') → Forall (λ x, bytes_lt (e_key x) (e_key e)) es.
Proof.
  induction es as [|x es IH]; cbn; [constructor|]. intros H.
  apply StronglySorted_inv in H as [Hs Hall]. constructor; [|auto].
  apply Forall_app in Hall as [_ Hall]. by apply Forall_cons in Hall as [? _].
Qed.

Section fill.

Lemma total_need_nonneg pl es :
  Forall (λ e, 0 <= pl <= zlen (e_key e)) es → 0 <= total_need pl es.
Proof.
  unfold total_need. induction 1 as [|e es He _ IH]; cbn; [done|].
  unfold entry_need at 1. pose proof (zlen_nonneg (e_val e)). unfold KV_META_SIZE. lia.
Qed.

Lemma fill_spec n p es :
  Repr n p → Forall entry_ok es → Forall (λ e, in_range (p_fences p) (e_key e)) es →
  ordered (p_entries p ++ es) →
  Forall (λ e, op_eqb (e_op e) OpDelete && is_base_page n = false) es →
  total_need (prefix_len n) es <= remaining_size (meta n) →
  ∃ n' p', fill n es = Ret n' ∧ Repr n' p' ∧ p_fences p' = p_fences p ∧
    p_entries p' = p_entries p ++ es ∧ same_header n n' ∧
    remaining_size (meta n) - total_need (prefix_len n) es <= remaining_size (meta n').
Proof.
  intros HR Hok. revert n p HR. induction Hok as [|e es He Hes IH]; intros n p HR Hrange Hord Hdel Hneed.
  { exists n, p. rewrite app_nil_r. split_and!; auto using same_header_refl. cbn. lia. }
  apply Forall_cons in Hrange as [Hre Hrange]. apply Forall_cons in Hdel as [Hde Hdel].
  change (total_need (prefix_len n) (e :: es))
    with (entry_need (prefix_len n) e + total_need (prefix_len n) es) in Hneed |- *.
  assert (0 <= total_need (prefix_len n) es) as Hnn.
  { apply total_need_nonneg. eapply Forall_impl; [exact Hrange|]. intros e' He'.
    by apply (range_prefix n p HR). }
  pose proof (ordered_app _ _ _ Hord) as Hlt.
  assert (find_entry (e_key e) (p_entries p) = None) as Hnone.
  { apply find_entry_none. eapply Forall_impl; [exact Hlt|]. intros x Hx Heq. cbv beta in Hx.
    rewrite Heq in Hx. by apply bytes_lt_irrefl in Hx. }
  change (fill n (e :: es)) with (n1 ← fill_step n e; fill n1 es).
  destruct (insert_or_panic_ok n p (e_key e) (e_val e) (e_op e) HR Hre)
    as (n1 & Hrun & p1 & HR1 & Hf1 & He1 & Hh1 & Hr1); [by destruct e|done| |].
  { right. change (kv_size n (e_key e) (e_val e) + KV_META_SIZE) with (entry_need (prefix_len n) e). lia. }
  unfold fill_step. rewrite Hrun. ret_step. rewrite Hde in Hr1.
  unfold apply_op in He1. rewrite Hnone, Hde, upsert_append in He1 by done.
  assert (p_entries p1 = p_entries p ++ [e]) as He1' by (rewrite He1; by destruct e).
  pose proof (proj1 Hh1) as Hpl.
  change (kv_size n (e_key e) (e_val e) + KV_META_SIZE) with (entry_need (prefix_len n) e) in Hr1.
  destruct (IH n1 p1 HR1) as (n2 & p2 & Hrun2 & HR2 & Hf2 & He2 & Hh2 & Hr2).
  - by rewrite Hf1.
  - by rewrite He1', <- app_assoc.
  - by rewrite (same_header_base _ _ Hh1).
  - rewrite Hpl. lia.
  - exists n2, p2. rewrite Hpl in Hr2. split_and!; auto; [congruence| |by eapply same_header_trans|lia].
    by rewrite He2, He1', <- app_assoc.
Qed.
End fill.

(** ** The space a page's records take *)
Section usage.
Context (n : LeafNode) (p : page).
Hypothesis HR : Repr n p.

Definition fence_need (pl : Z) (f : option (fence * fence)) : Z :=
  match f with
  | None => 0
  | Some (l, h) => 2 * KV_META_SIZE + zlen (fence_key l) + (zlen (fence_key h) - pl)
  end.

Lemma total_size_app ss1 ss2 : total_size (ss1 ++ ss2) = total_size ss1 + total_size ss2.
Proof. unfold total_size. induction ss1 as [|s ss1 IH]; cbn; [done|]. rewrite IH. lia. Qed.

Lemma fence_slots_size :
  KV_META_SIZE * zlen (fence_slots (prefix_len n) (p_fences p)) +
    total_size (fence_slots (prefix_len n) (p_fences p)) =
  fence_need (prefix_len n) (p_fences p).
Proof.
  destruct (p_fences p) as [[l h]|] eqn:Hf; [|done]. cbn [fence_slots fence_need].
  destruct (fences_ok n p HR l h Hf) as [Hl Hh].
  pose proof (fence_pl_bound n p HR l h Hf) as Hpl.
  assert (body_size (low_slot l) = zlen (fence_key l)) as Hbl.
  { unfold body_size. destruct l as [|lo lk]; [done|]. unfold low_slot. rewrite pack_real by apply Hl. done. }
  assert (body_size (high_slot (prefix_len n) h) = zlen (fence_key h) - prefix_len n) as Hbh.
  { unfold body_size. destruct h as [|ho hk].
    - change (zlen (fence_key FInf)) with 0 in *.
      change (s_real (high_slot (prefix_len n) FInf)) with false. cbv iota. lia.
    - unfold high_slot. rewrite pack_real by apply Hh. cbn [s_body fence_key]. apply zlen_drop. cbn [fence_key] in Hpl. lia. }
  unfold total_size. cbn [foldr]. rewrite Hbl, Hbh. unfold zlen at 1. cbn [length]. lia.
Qed.

Lemma rec_slots_size :
  KV_META_SIZE * zlen (map (rec_slot (prefix_len n)) (p_recs p)) +
    total_size (map (rec_slot (prefix_len n)) (p_recs p)) =
  total_need (prefix_len n) (p_entries p).
Proof.
  assert (Forall (λ r, rec_ok r ∧ 0 <= prefix_len n <= zlen (k_key r)) (p_recs p)) as H.
  { apply Forall_lookup_2. intros i r Hi. split; [by apply (repr_rec_ok n p HR i)|].
    by apply (repr_prefix_bound n p HR i). }
  unfold p_entries, total_need, total_size. clear HR.
  induction H as [|r rs [Hr Hb] Hrs IH]; cbn [map foldr]; [done|]. rewrite zlen_cons.
  assert (body_size (rec_slot (prefix_len n) r) + KV_META_SIZE = entry_need (prefix_len n) (k_ent r)).
  { unfold body_size. rewrite rec_real, rec_body_len by done. done. }
  lia.
Qed.

Lemma page_usage :
  fence_need (prefix_len n) (p_fences p) + total_need (prefix_len n) (p_entries p) +
    remaining_size (meta n) <= zlen (data n).
Proof.
  pose proof (layout_total n _ (re_layout _ _ HR)) as Ht. unfold page_slots in Ht.
  rewrite zlen_app, total_size_app in Ht.
  pose proof fence_slots_size. pose proof rec_slots_size. lia.
Qed.
End usage.

(** The space that fences and entries take in a page between the two keys. *)
Definition page_need (low high : bytes) (es : list entry) : Z :=
  2 * KV_META_SIZE + zlen low + (zlen high - common_prefix_len low high) + total_need (common_prefix_len low high) es.

(** ** What consolidation keeps *)
Definition kept (skip_tombstone : bool) (skip_key : option bytes) (e : entry) : bool :=
  negb (skip_tombstone && op_eqb (e_op e) OpDelete) &&
  match skip_key with Some k => negb (key_eqb k (e_key e)) | None => true end.

Definition retag (new_op : OpType) (e : entry) : entry :=
  mkEntry (e_key e) (if op_eqb (e_op e) OpDelete then OpDelete else new_op) (e_val e).

Definition consolidated (new_op : OpType) (skip_tombstone : bool) (skip_key : option bytes)
    (es : list entry) : list entry :=
  omap (λ e, if kept skip_tombstone skip_key e then Some (retag new_op e) else None) es.

Section consolidated.
Context (new_op : OpType) (st : bool) (sk : option bytes).

Lemma consolidated_cons e es :
  consolidated new_op st sk (e :: es) =
    if kept st sk e then retag new_op e :: consolidated new_op st sk es
    else consolidated new_op st sk es.
Proof. unfold consolidated. cbn. by destruct (kept st sk e). Qed.

Lemma consolidated_forall (P Q : entry → Prop) es :
  Forall P es → (∀ e, P e → kept st sk e = true → Q (retag new_op e)) →
  Forall Q (consolidated new_op st sk es).
Proof.
  intros H HPQ. induction H as [|e es He _ IH]; [constructor|].
  rewrite consolidated_cons. destruct (kept st sk e) eqn:Hk; [constructor; auto|done].
Qed.

Lemma consolidated_ordered es : ordered es → ordered (consolidated new_op st sk es).
Proof.
  induction 1 as [|e es Hs IH Hall]; [constructor|]. rewrite consolidated_cons.
  destruct (kept st sk e); [|done]. constructor; [done|].
  by apply (consolidated_forall (entry_lt e)).
Qed.

Lemma consolidated_need pl es :
  Forall (λ e, 0 <= pl <= zlen (e_key e)) es →
  total_need pl (consolidated new_op st sk es) <= total_need pl es.
Proof.
  intros H. induction H as [|e es He Hes IH]; [done|]. rewrite consolidated_cons.
  change (total_need pl (e :: es)) with (entry_need pl e + total_need pl es).
  assert (0 <= entry_need pl e) as Hn.
  { unfold entry_need, KV_META_SIZE. pose proof (zlen_nonneg (e_val e)). lia. }
  destruct (kept st sk e); [|lia].
  change (total_need pl (retag new_op e :: ?x)) with (entry_need pl e + total_need pl x). lia.
Qed.
End consolidated.

(** ** Collecting and putting back *)
Section collect.
Context (n : LeafNode) (p : page).
Hypothesis HR : Repr n p.
Context (new_op : OpType) (st : bool) (sk : option bytes).

Definition pair_of (e : entry) : bytes * bytes * OpType := (e_key e, e_val e, e_op e).

Lemma collect_spec :
  collect_pairs n st sk =
    Ret (concat (map (λ r, if kept st sk (k_ent r) then [pair_of (k_ent r)] else []) (p_recs p))).
Proof.
  unfold collect_pairs. rewrite (repr_meta_iter n p HR). ret_step.
  rewrite (mapM_map_fmap _ (rec_meta n) (λ r, if kept st sk (k_ent r) then [pair_of (k_ent r)] else [])); [done|].
  intros r Hr. destruct (rec_readers n p HR r Hr) as (Hk & Hv & Hop & _).
  unfold collect_pair, kept. rewrite Hop. ret_step.
  destruct (st && op_eqb (e_op (k_ent r)) OpDelete); [done|]. cbn [negb andb].
  rewrite Hk. ret_step. destruct sk as [k|]; [|by rewrite Hv].
  unfold key_eqb. change (e_key (k_ent r)) with (k_key r).
  destruct (cmp_bytes k (k_key r)); cbn [negb]; [done|by rewrite Hv..].
Qed.

Lemma reinsert_fill n1 rs :
  foldM (reinsert new_op) n1
    (concat (map (λ r, if kept st sk (k_ent r) then [pair_of (k_ent r)] else []) rs)) =
  fill n1 (consolidated new_op st sk (map k_ent rs)).
Proof.
  revert n1. induction rs as [|r rs IH]; intros n1; [done|]. cbn [map concat].
  rewrite consolidated_cons. destruct (kept st sk (k_ent r)); [|apply IH].
  cbn [app foldM]. change (fill n1 (?e :: ?l)) with (n2 ← fill_step n1 e; fill n2 l).
  change (fill_step n1 (retag new_op (k_ent r))) with (reinsert new_op n1 (pair_of (k_ent r))).
  destruct (reinsert new_op n1 (pair_of (k_ent r))) as [n2|]; [|done]. ret_step. apply IH.
Qed.
End collect.

(** ** Consolidation *)
Lemma fresh_same n size next version fence co n1 n2 :
  fresh_header n size next version fence co n1 → same_header n1 n2 →
  fresh_header n size next version fence co n2.
Proof.
  unfold fresh_header, same_header, same_flags, leaf_has_fence. intuition congruence.
Qed.

(** The key range in terms of the fence keys. *)
Lemma above_low_key f key : fence_ok f → above_low f key ↔ cmp_bytes (fence_key f) key ≠ Gt.
Proof. destruct f as [|o k]; cbn; [|done]. intros _. by destruct key. Qed.

Lemma below_high_key f key :
  fence_ok f → below_high f key ↔ fence_key f = [] ∨ bytes_lt key (fence_key f).
Proof.
  destruct f as [|o k]; cbn; [intros _; split; [by left|done]|]. intros (_ & Hk & _). split; [by right|].
  by intros [?|?].
Qed.

Lemma between_prefix_len low high key :
  cmp_bytes low key ≠ Gt → high = [] ∨ bytes_lt key high →
  0 <= common_prefix_len low high <= zlen key.
Proof.
  intros Hl Hh. pose proof (common_prefix_len_bound low high) as Hb.
  split; [lia|]. destruct Hh as [->|Hh].
  { replace (common_prefix_len low []) with 0 by by destruct low. apply zlen_nonneg. }
  pose proof (cmp_between_prefix (Z.to_nat (common_prefix_len low high)) low high key
    (common_prefix_take low high) Hl) as Ht.
  rewrite Hh in Ht. specialize (Ht ltac:(done)). apply (f_equal length) in Ht.
  rewrite !length_take in Ht. unfold zlen in *. lia.
Qed.

Section consolidate.
Context (n : LeafNode) (p : page).
Hypothesis HR : Repr n p.
Context (new_op : OpType) (st co : bool) (sk : option bytes) (version : Z).

Local Abbreviation es := (p_entries p).
Local Abbreviation es' := (consolidated new_op st sk es).

(** Inserted and cached records keep a value. *)
Hypothesis Hval : Forall (λ e, kept st sk e = true → value_ok (e_op (retag new_op e)) (e_val e) = true) es.

(** A base page takes no tombstones back. *)
Hypothesis Htomb : negb co && next_level_is_null (next_level n) = true → st = true.
Hypothesis Hnew : new_op ≠ OpDelete.

Lemma repr_page :
  LEAF_HEADER <= node_size (meta n) <= MAX_LEAF_PAGE_SIZE ∧
  zlen (data n) = node_size (meta n) - LEAF_HEADER ∧ bytes_ok (data n).
Proof. destruct (re_layout _ _ HR). auto. Qed.

Lemma consolidated_ok : Forall entry_ok es'.
Proof.
  assert (Forall (λ e, entry_ok e ∧ (kept st sk e = true → value_ok (e_op (retag new_op e)) (e_val e) = true)) es) as H.
  { apply Forall_and. split; [|exact Hval]. unfold p_entries. apply Forall_fmap.
    eapply Forall_impl; [apply (re_recs _ _ HR)|]. intros r [_ Hr]. exact Hr. }
  eapply consolidated_forall; [exact H|]. intros e [(H1 & H2 & H3 & H4 & _) H5] Hk.
  unfold entry_ok. split_and!; auto.
Qed.

Lemma consolidated_no_delete n1 :
  is_base_page n1 = negb co && next_level_is_null (next_level n) →
  Forall (λ e, op_eqb (e_op e) OpDelete && is_base_page n1 = false) es'.
Proof.
  intros Hb. apply (consolidated_forall new_op st sk (λ _, True)); [by apply Forall_true|].
  intros e _ Hk. rewrite Hb. destruct (negb co && _) eqn:E; [|apply andb_false_r].
  rewrite andb_true_r. rewrite (Htomb eq_refl) in Hk. unfold kept in Hk.
  apply andb_true_iff in Hk as [Hk _]. cbn [andb] in Hk. apply negb_true_iff in Hk.
  unfold retag. cbn [e_op]. rewrite Hk. by destruct new_op.
Qed.

Lemma fresh_base n1 fence :
  fresh_header n (node_size (meta n)) (next_level n) version fence co n1 →
  is_base_page n1 = negb co && next_level_is_null (next_level n).
Proof. intros (_ & Hn & _ & _ & _ & Hc & _). unfold is_base_page. by rewrite Hn, Hc. Qed.

Lemma consolidate_plain_spec nh :
  p_fences p = None →
  ∃ n' p', consolidate_inner n new_op nh st co sk version = Ret n' ∧ Repr n' p' ∧
    p_fences p' = None ∧ p_entries p' = es' ∧
    fresh_header n (node_size (meta n)) (next_level n) version false co n'.
Proof.
  intros Hf. unfold consolidate_inner. rewrite (collect_spec n p HR). ret_step.
  assert (leaf_has_fence n = false) as -> by by rewrite (re_flag _ _ HR), Hf.
  ret_step. cbn [fst snd]. destruct repr_page as (Hs & Hd & Hb).
  destruct (initialize_mini_repr n (node_size (meta n)) (next_level n) version co Hs Hd Hb)
    as (n1 & -> & HR1 & Hh1 & Hr1). ret_step. rewrite reinsert_fill.
  destruct (fill_spec n1 (mkPage None []) es') as (n2 & p2 & Hrun & HR2 & Hf2 & He2 & Hh2 & _); auto.
  - apply consolidated_ok.
  - by apply Forall_true.
  - apply consolidated_ordered, (re_order _ _ HR).
  - by apply consolidated_no_delete, (fresh_base n1 false).
  - pose proof (page_usage n p HR) as Hu. rewrite (re_prefix _ _ HR1), Hr1, <- Hd.
    assert (prefix_len n = 0) as Hp by by rewrite (re_prefix _ _ HR), Hf.
    rewrite Hf, Hp in Hu. cbn [fences_prefix p_fences fence_need] in *.
    pose proof (lo_rem _ _ (re_layout _ _ HR)).
    pose proof (consolidated_need new_op st sk 0 es) as Hc.
    assert (Forall (λ e, 0 <= 0 <= zlen (e_key e)) es) as H0
      by (apply Forall_true; intros e; pose proof (zlen_nonneg (e_key e)); lia).
    specialize (Hc H0). lia.
  - exists n2, p2. split_and!; auto. by eapply fresh_same.
Qed.

(** With fences: the low fence stays, the high fence may be lowered. *)
Lemma consolidate_fenced_spec nh l h :
  p_fences p = Some (l, h) →
  let hk := match nh with None => fence_key h | Some k => k end in
  zlen hk < 2 ^ 14 → bytes_ok hk →
  Forall (λ e, kept st sk e = true → hk = [] ∨ bytes_lt (e_key e) hk) es →
  page_need (fence_key l) hk es' <= zlen (data n) →
  ∃ n' p' l' h', consolidate_inner n new_op nh st co sk version = Ret n' ∧ Repr n' p' ∧
    p_fences p' = Some (l', h') ∧ fence_key l' = fence_key l ∧ fence_key h' = hk ∧
    p_entries p' = es' ∧ fresh_header n (node_size (meta n)) (next_level n) version true co n' ∧
    zlen (data n) - page_need (fence_key l) hk es' <= remaining_size (meta n').
Proof.
  intros Hf hk Hhl Hhb Hbelow Hroom. unfold page_need in *. set (pl' := common_prefix_len (fence_key l) hk) in *.
  unfold consolidate_inner.
  rewrite (collect_spec n p HR). ret_step. rewrite (fence_flag n p HR l h Hf).
  assert ((match nh with None => get_high_fence_key n | Some key => Ret key end) = Ret hk) as ->.
  { unfold hk. destruct nh; [done|]. by apply (high_fence_key n p HR l h). }
  ret_step. rewrite (low_fence_key n p HR l h Hf). do 2 ret_step. cbn [fst snd].
  destruct repr_page as (Hs & Hd & Hb). destruct (fence_len_bound n p HR l h Hf) as [[_ Hll] _].
  destruct (fences_ok n p HR l h Hf) as [Hlok _].
  assert (Forall (λ e, cmp_bytes (fence_key l) (e_key e) ≠ Gt ∧ (hk = [] ∨ bytes_lt (e_key e) hk)) es') as Hin.
  { eapply consolidated_forall; [apply Forall_and; split; [exact Hbelow|exact (re_range _ _ HR)]|].
    intros e [H1 H2] Hk. rewrite Hf in H2. split; [by apply above_low_key, H2|by apply H1]. }
  destruct (initialize_fence_repr n (node_size (meta n)) (next_level n) version co Hs Hd Hb (fence_key l) hk)
    as (n1 & l' & h' & -> & HR1 & Hl' & Hh' & Hfresh & Hr1); auto.
  { destruct l as [|lo lk]; [constructor|apply Hlok]. }
  { fold pl'. pose proof (total_need_nonneg pl' es') as Hnn. lapply Hnn; [lia|].
    eapply Forall_impl; [exact Hin|]. intros e [H1 H2]. by apply between_prefix_len. }
  ret_step. rewrite reinsert_fill. fold pl' in Hr1.
  assert (prefix_len n1 = pl') as Hpl by (rewrite (re_prefix _ _ HR1); cbn; by rewrite Hl', Hh').
  destruct (fences_ok n1 _ HR1 l' h' eq_refl) as [Hlok' Hhok'].
  destruct (fill_spec n1 _ es' HR1) as (n2 & p2 & Hrun & HR2 & Hf2 & He2 & Hh2 & Hr2).
  - apply consolidated_ok.
  - eapply Forall_impl; [exact Hin|]. intros e [H1 H2]. split.
    + apply above_low_key; [done|]. by rewrite Hl'.
    + apply below_high_key; [done|]. by rewrite Hh'.
  - apply consolidated_ordered, (re_order _ _ HR).
  - by apply consolidated_no_delete, (fresh_base n1 true).
  - rewrite Hpl, Hr1. lia.
  - exists n2, p2, l', h'. split_and!; auto; [by eapply fresh_same|]. rewrite Hpl in Hr2. lia.
Qed.
End consolidate.
