(* ===== verification/LeafSplit.v ===== *)
(** Copying and splitting leaf pages (src/nodes/leaf_node.rs, [copy_initialize_to],
    [get_kv_num_below_key], [split_with_key]): a copy holds the records of the mini
    page, and the two halves of a split hold the records on either side of the key. *)
From stdpp Require Import base numbers list sorting.
From Stdlib Require Import ZArith Lia.
From S2P Require Import Prelude Bits NodeMeta LeafMeta LeafNode LeafOps LeafLayout Entries LeafRepr LeafSearch LeafInsert LeafInit LeafMerge LeafRebuild.

(** ** Copying a mini page *)
Definition copied (discard : bool) (r : krec) : option entry :=
  if discard && is_cache (e_op (k_ent r)) && negb (k_ref r) then None else Some (k_ent r).

Lemma omap_forall {A B} (f : A → option B) (P : A → Prop) (Q : B → Prop) l :
  Forall P l → (∀ x y, P x → f x = Some y → Q y) → Forall Q (omap f l).
Proof.
  intros H HPQ. induction H as [|x l Hx _ IH]; [constructor|]. cbn.
  destruct (f x) eqn:E; [constructor; eauto|done].
Qed.

Lemma omap_map {A B C} (f : B → option C) (g : A → B) l : omap f (map g l) = omap (λ x, f (g x)) l.
Proof. induction l as [|x l IH]; cbn; [done|]. by rewrite IH. Qed.

Lemma copied_sublist discard rs : omap (copied discard) rs `sublist_of` map k_ent rs.
Proof.
  induction rs as [|r rs IH]; [constructor|]. cbn. unfold copied at 1.
  destruct (_ && _); [by constructor|by constructor].
Qed.

Lemma ordered_sublist es es' : es' `sublist_of` es → ordered es → ordered es'.
Proof.
  induction 1 as [|e es' es Hs IH|e es' es Hs IH]; intros Ho; [done| |].
  - apply StronglySorted_inv in Ho as [Ho Hall]. constructor; [by apply IH|].
    apply Forall_forall. intros x Hx. rewrite Forall_forall in Hall. apply Hall.
    by eapply elem_of_sublist.
  - apply StronglySorted_inv in Ho as [Ho _]. by apply IH.
Qed.

Lemma total_need_sublist pl es es' :
  es' `sublist_of` es → Forall (λ e, 0 <= pl <= zlen (e_key e)) es →
  total_need pl es' <= total_need pl es.
Proof.
  unfold total_need. induction 1 as [|e es' es Hs IH|e es' es Hs IH]; [done|..];
    intros [He Hes]%Forall_cons; cbn [foldr]; specialize (IH Hes); [lia|].
  unfold entry_need at 2. pose proof (zlen_nonneg (e_val e)). unfold KV_META_SIZE. lia.
Qed.

Section copy.
Context (n dst : LeafNode) (p : page).
Hypothesis HR : Repr n p.
Hypothesis Hmini : p_fences p = None.
Hypothesis Hbase : is_base_page n = false.
Context (dst_size version : Z) (discard : bool).
Hypothesis Hsize : node_size (meta n) <= dst_size <= MAX_LEAF_PAGE_SIZE.
Hypothesis Hdst : zlen (data dst) = dst_size - LEAF_HEADER.
Hypothesis Hbytes : bytes_ok (data dst).

Lemma copy_record_step d r :
  r ∈ p_recs p →
  copy_record n discard d (rec_meta n r) =
    match copied discard r with Some e => fill_step d e | None => Ret d end.
Proof.
  intros Hr. destruct (rec_readers n p HR r Hr) as (Hk & Hv & Hop & _ & _ & Href & _).
  unfold copy_record, copied. rewrite Hop, Href. ret_step.
  destruct (discard && _ && _); [done|]. rewrite Hv. ret_step. rewrite Hk. done.
Qed.

Lemma foldM_map {A B C} (f : B → C → outcome B) (g : A → C) b l :
  foldM f b (map g l) = foldM (λ b x, f b (g x)) b l.
Proof. revert b. induction l as [|x l IH]; intros b; cbn; [done|]. destruct (f b (g x)); [apply IH|done]. Qed.

Lemma copy_repr :
  ∃ n' p', copy_initialize_to n dst dst_size discard version = Ret n' ∧ Repr n' p' ∧
    p_fences p' = None ∧ p_entries p' = omap (copied discard) (p_recs p) ∧
    fresh_header dst dst_size (next_level n) version false (is_cache_only_leaf (meta n)) n' ∧
    dst_size - node_size (meta n) <= remaining_size (meta n').
Proof.
  unfold copy_initialize_to. rewrite Hbase.
  rewrite (assert_true (negb false)), (assert_true (_ <=? _)) by (done || apply Z.leb_le; lia).
  do 2 ret_step. destruct (repr_page n p HR) as (Hs & Hd & Hb).
  destruct (initialize_mini_repr dst dst_size (next_level n) version (is_cache_only_leaf (meta n)))
    as (n1 & -> & HR1 & Hh1 & Hr1); [lia|done|done|].
  ret_step. rewrite (repr_meta_iter n p HR). ret_step. rewrite foldM_map.
  rewrite (foldM_omap _ (copied discard) fill_step)
    by (intros; by apply copy_record_step).
  pose proof (copied_sublist discard (p_recs p)) as Hsub. fold (p_entries p) in Hsub.
  assert (total_need 0 (omap (copied discard) (p_recs p)) <= node_size (meta n) - LEAF_HEADER) as Hneed.
  { pose proof (page_usage n p HR) as Hu. rewrite (mini_prefix n p HR Hmini), Hmini in Hu.
    cbn [fence_need] in Hu. pose proof (lo_rem _ _ (re_layout _ _ HR)).
    assert (Forall (λ e, 0 <= 0 <= zlen (e_key e)) (p_entries p)) as H0
      by (apply Forall_true; intros e; pose proof (zlen_nonneg (e_key e)); lia).
    pose proof (total_need_sublist 0 _ _ Hsub H0). lia. }
  destruct (fill_spec n1 (mkPage None []) (omap (copied discard) (p_recs p)))
    as (n2 & p2 & Hrun & HR2 & Hf2 & He2 & Hh2 & Hr2); auto.
  - apply (omap_forall _ rec_ok); [apply (re_recs _ _ HR)|]. intros r e [_ Hr]. unfold copied.
    destruct (_ && _); [done|]. by intros [= <-].
  - by apply Forall_true.
  - apply (ordered_sublist (p_entries p)); [done|apply (re_order _ _ HR)].
  - apply Forall_true. intros e. destruct Hh1 as (_ & Hn & _ & _ & _ & Hc & _).
    unfold is_base_page in *. rewrite Hn, Hc, Hbase. apply andb_false_r.
  - rewrite (re_prefix _ _ HR1), Hr1. cbn [fences_prefix p_fences]. lia.
  - exists n2, p2. unfold fill in Hrun. split_and!; auto; [by eapply fresh_same|].
    rewrite (re_prefix _ _ HR1), Hr1 in Hr2. cbn [fences_prefix p_fences] in Hr2. lia.
Qed.
End copy.

(** ** The prefix of a narrower range *)
Lemma common_prefix_ge k a b :
  (k <= length a)%nat → (k <= length b)%nat → take k a = take k b →
  Z.of_nat k <= common_prefix_len a b.
Proof.
  revert a b. induction k as [|k IH]; intros a b Ha Hb Ht; [apply common_prefix_len_bound|].
  destruct a as [|x a], b as [|y b]; cbn in *; try lia. injection Ht as -> Ht.
  rewrite Z.eqb_refl. specialize (IH a b ltac:(lia) ltac:(lia) Ht). lia.
Qed.

Lemma narrow_prefix low high key :
  cmp_bytes low key ≠ Gt → high = [] ∨ bytes_lt key high →
  common_prefix_len low high <= common_prefix_len low key ∧
  common_prefix_len low high <= common_prefix_len key high.
Proof.
  intros Hl Hh. pose proof (common_prefix_len_bound low high) as Hb.
  pose proof (common_prefix_len_bound low key). pose proof (common_prefix_len_bound key high).
  destruct (between_prefix_len low high key Hl Hh) as [_ Hk].
  destruct Hh as [->|Hh]; [replace (common_prefix_len low []) with 0 by (by destruct low); lia|].
  pose proof (common_prefix_take low high) as Ht. set (k := Z.to_nat (common_prefix_len low high)) in *.
  assert (take k key = take k low) as Htk.
  { apply (cmp_between_prefix k low high); auto. by rewrite Hh. }
  replace (common_prefix_len low high) with (Z.of_nat k) by lia. unfold zlen in *.
  split; apply common_prefix_ge; try lia; congruence.
Qed.

(** ** Fences read back *)
Lemma high_fence_full n p l h :
  Repr n p → p_fences p = Some (l, h) → fence_key h ≠ [] →
  ∃ m, get_kv_meta n HIGH_FENCE_IDX = Ret m ∧ get_full_key n m = Ret (fence_key h).
Proof.
  intros HR Hf Hne. exists (s_meta (high_slot (prefix_len n) h)).
  split; [by apply (high_fence_meta n p HR l h)|].
  pose proof (high_fence_key n p HR l h Hf) as H. unfold get_high_fence_key in H.
  rewrite (fence_flag n p HR l h Hf), (high_fence_meta n p HR l h Hf) in H.
  change (mbind ?f (Ret ?x)) with (f x) in H. cbv beta in H.
  destruct (fence_infinite n p HR l h Hf) as [_ Hi]. rewrite Hi in H.
  zcase (zlen (fence_key h) =? 0); [by apply zlen_nil_inv in E|done].
Qed.

Lemma low_fence_full n p l h :
  Repr n p → p_fences p = Some (l, h) → get_low_fence_full_key n = Ret (fence_key l).
Proof.
  intros HR Hf. unfold get_low_fence_full_key. rewrite (low_fence_meta n p HR l h Hf). ret_step.
  destruct (fence_key_len n p HR l h Hf) as [-> _].
  rewrite (read_low_fence n p HR l h Hf) by (pose proof (zlen_nonneg (fence_key l)); lia).
  f_equal. apply take_ge. unfold zlen. lia.
Qed.

(** ** Splitting a base page at a key *)
Lemma lb_take key es : ordered es → Forall (λ e, bytes_lt (e_key e) key) (take (lb key es) es).
Proof.
  intros _. induction es as [|e es IH]; cbn; [constructor|].
  destruct (cmp_bytes (e_key e) key) eqn:E; cbn; [constructor|by constructor|constructor].
Qed.

Lemma lb_drop key es :
  ordered es → Forall (λ e, cmp_bytes key (e_key e) ≠ Gt) (drop (lb key es) es).
Proof.
  intros Ho. apply Forall_lookup_2. intros i e Hi. rewrite lookup_drop in Hi.
  pose proof (lb_compare key es _ e Ho Hi) as Hc. rewrite cmp_opp.
  destruct (cmp_bytes (e_key e) key); cbn; [done|lia|done].
Qed.

Section split.
Context (n : LeafNode) (p : page) (l h : fence).
Hypothesis HR : Repr n p.
Hypothesis Hf : p_fences p = Some (l, h).

Lemma count_below_spec key rs cnt :
  (∀ r, r ∈ rs → r ∈ p_recs p) →
  count_below n key cnt (map (rec_meta n) rs) = Ret (cnt + Z.of_nat (lb key (map k_ent rs))).
Proof.
  revert cnt. induction rs as [|r rs IH]; intros cnt Hin; cbn [map count_below lb]; [f_equal; lia|].
  destruct (rec_readers n p HR r) as (-> & _); [apply Hin; left|]. ret_step. unfold k_key.
  destruct (cmp_bytes (e_key (k_ent r)) key); [f_equal; lia| |f_equal; lia].
  rewrite IH by (intros r' Hr'; apply Hin; by right). f_equal. lia.
Qed.

Lemma kv_num_below_spec key : get_kv_num_below_key n key = Ret (Z.of_nat (lb key (p_entries p))).
Proof.
  unfold get_kv_num_below_key. rewrite (repr_meta_iter n p HR). ret_step.
  by rewrite count_below_spec.
Qed.

Lemma records_count : meta_count_without_fence (meta n) = Ret (zlen (p_recs p)).
Proof.
  unfold meta_count_without_fence. pose proof (fence_flag n p HR l h Hf) as Hfl.
  pose proof (repr_count n p HR) as Hc. rewrite Hf in Hc. cbn [fence_slots length] in Hc.
  unfold leaf_has_fence in Hfl. rewrite Hfl. unfold count in Hc. rewrite Hc.
  pose proof (zlen_nonneg (p_recs p)).
  unfold FENCE_KEY_CNT. rewrite subu_ok by lia. f_equal. lia.
Qed.

Lemma right_high_spec : right_high_fence n = Ret (fence_key h).
Proof.
  pose proof (high_fence_key n p HR l h Hf) as H. unfold get_high_fence_key in H.
  by rewrite (fence_flag n p HR l h Hf) in H.
Qed.

(** The records moved to the right sibling. *)
Lemma move_records_fill sib k :
  (k <= length (p_recs p))%nat →
  foldM (move_record n) sib (seqZ (Z.of_nat k + FENCE_KEY_CNT) (zlen (p_recs p) - Z.of_nat k)) =
    fill sib (consolidated OpInsert true None (drop k (p_entries p))).
Proof.
  intros Hk. pose proof (repr_first n p HR) as Hfc. unfold first_meta_pos_after_fence in Hfc.
  rewrite (fence_flag n p HR l h Hf) in Hfc.
  replace (zlen (p_recs p) - Z.of_nat k) with (zlen (drop k (p_recs p)))
    by (unfold zlen; rewrite length_drop; lia).
  rewrite (foldM_seqZ _ (λ b r, if kept true None (k_ent r) then fill_step b (retag OpInsert (k_ent r)) else Ret b)).
  - unfold fill, consolidated, p_entries. rewrite <- fmap_drop, omap_map.
    apply foldM_omap. intros b r _. cbn. by destruct (kept true None (k_ent r)).
  - intros b j r Hr. rewrite lookup_drop in Hr. unfold move_record.
    replace (Z.of_nat k + FENCE_KEY_CNT + Z.of_nat j) with
      (Z.of_nat (length (fence_slots (prefix_len n) (p_fences p)) + (k + j))) by lia.
    rewrite (repr_get n p HR _ r Hr). ret_step. rewrite (repr_op n p HR _ r Hr). ret_step.
    unfold kept, retag, fill_step. cbn [andb]. destruct (op_eqb _ OpDelete); [done|].
    cbn [negb andb e_key e_val e_op].
    rewrite (repr_full_key n p HR _ r Hr). ret_step. by rewrite (repr_value n p HR _ r Hr).
Qed.

(** The left page once its count is lowered; its free space is not yet accounted. *)
Lemma truncate_repr k :
  (k <= length (p_recs p))%nat →
  ∃ r, Repr (set_remaining_size
               (set_meta n (set_value_count (meta n) (Z.of_nat k + FENCE_KEY_CNT))) r)
         (mkPage (p_fences p) (take k (p_recs p))).
Proof.
  intros Hk. pose proof (re_layout _ _ HR) as HL.
  pose proof (layout_fits _ _ HL) as (Hfit & _ & Hcnt).
  assert (zlen (page_slots (prefix_len n) p) = 2 + zlen (p_recs p)) as Hz.
  { unfold page_slots, zlen. rewrite length_app, length_map, Hf. cbn [length fence_slots]. lia. }
  destruct (set_value_count_spec (meta n) (Z.of_nat k + FENCE_KEY_CNT)) as (Hm1 & Hm2 & Hm3 & Hm4 & _).
  { apply (lo_word _ _ HL). }
  { unfold FENCE_KEY_CNT. pose proof (lo_rem _ _ HL). unfold zlen in *. lia. }
  set (p' := mkPage (p_fences p) (take k (p_recs p))).
  exists (lowest (zlen (data n)) (page_slots (prefix_len n) p')
          - KV_META_SIZE * zlen (page_slots (prefix_len n) p')).
  assert (page_slots (prefix_len n) p =
          page_slots (prefix_len n) p' ++ map (rec_slot (prefix_len n)) (drop k (p_recs p))) as Hsplit.
  { unfold page_slots, p'. cbn [p_fences p_recs]. rewrite <- app_assoc, <- map_app. by rewrite take_drop. }
  destruct HR as [_ Hfl Hp Hfe Hrec Hord Hran]. split; auto; unfold p'; cbn [p_recs p_fences].
  - rewrite Hsplit in HL. apply (layout_prefix n _ _ (set_remaining (set_value_count (meta n) (Z.of_nat k + FENCE_KEY_CNT)) _) HL); auto.
    etransitivity; [exact Hm2|]. unfold page_slots, p', zlen. rewrite length_app, length_map, Hf. cbn [p_recs length fence_slots p_fences].
    rewrite length_take. unfold FENCE_KEY_CNT. lia.
  - rewrite <- Hfl. apply Hm3.
  - by apply Forall_take.
  - unfold p_entries. cbn [p_recs]. rewrite fmap_take. apply (ordered_sublist (p_entries p)); [apply sublist_take|done].
  - unfold p_entries. cbn [p_recs]. rewrite fmap_take. by apply Forall_take.
Qed.

(** Records of a base page that survive keep a value. *)
Lemma kept_value es :
  Forall entry_ok es → Forall (λ e, e_op e ≠ OpPhantom) es →
  Forall (λ e, kept true None e = true → value_ok (e_op (retag OpInsert e)) (e_val e) = true) es.
Proof.
  intros H1 H2. eapply Forall_impl; [apply Forall_and; split; [exact H1|exact H2]|].
  intros e [(_ & _ & _ & _ & Hv) Hp] Hk. unfold kept, retag in *. cbn [e_op andb] in *.
  by destruct (e_op e).
Qed.

Lemma entries_ok : Forall entry_ok (p_entries p).
Proof.
  unfold p_entries. apply Forall_fmap. eapply Forall_impl; [apply (re_recs _ _ HR)|].
  by intros r [_ Hr].
Qed.

Lemma total_need_mono pl pl' es : pl <= pl' → total_need pl' es <= total_need pl es.
Proof.
  intros H. unfold total_need. induction es as [|e es IH]; cbn [foldr]; [done|].
  assert (entry_need pl' e <= entry_need pl e) by (unfold entry_need; lia). lia.
Qed.

Context (sk : bytes) (version : Z).
Hypothesis Hbase : is_base_page n = true.
Hypothesis Hphantom : Forall (λ e, e_op e ≠ OpPhantom) (p_entries p).
Hypothesis Hsk : in_range (p_fences p) sk.
Hypothesis Hsk0 : sk ≠ [].
Hypothesis Hsklen : zlen sk < 2 ^ 14.
Hypothesis Hskb : bytes_ok sk.

Local Abbreviation es := (p_entries p).
Local Abbreviation k := (lb sk es).

Lemma sk_range :
  cmp_bytes (fence_key l) sk ≠ Gt ∧ (fence_key h = [] ∨ bytes_lt sk (fence_key h)).
Proof.
  destruct (fences_ok n p HR l h Hf) as [Hl Hh]. rewrite Hf in Hsk.
  split; [by apply above_low_key, Hsk|by apply below_high_key, Hsk].
Qed.

(** Any part of the records fits between fences that share a longer prefix. *)
Lemma part_fits part pl' :
  part `sublist_of` es → prefix_len n <= pl' →
  fence_need (prefix_len n) (p_fences p) + total_need pl' (consolidated OpInsert true None part)
    + remaining_size (meta n) <= zlen (data n).
Proof.
  intros Hsub Hpl. pose proof (page_usage n p HR) as Hu.
  assert (Forall (λ e, 0 <= prefix_len n <= zlen (e_key e)) es) as Hb.
  { eapply Forall_impl; [apply (re_range _ _ HR)|]. intros e He. by apply (range_prefix n p HR). }
  pose proof (total_need_sublist _ _ _ Hsub Hb).
  assert (Forall (λ e, 0 <= prefix_len n <= zlen (e_key e)) part) as Hb'.
  { apply Forall_forall. intros e He. rewrite Forall_forall in Hb. apply Hb. by eapply elem_of_sublist. }
  pose proof (consolidated_need OpInsert true None (prefix_len n) part Hb').
  pose proof (total_need_mono (prefix_len n) pl' (consolidated OpInsert true None part) Hpl). lia.
Qed.

(** The split key fits where the old fences were. *)
Lemma reserve_fits :
  zlen sk <= zlen (fence_key l) + remaining_size (meta n) →
  zlen sk <= zlen (fence_key h) + remaining_size (meta n) →
  page_need (fence_key l) sk (consolidated OpInsert true None (take k es)) <= zlen (data n) ∧
  page_need sk (fence_key h) (consolidated OpInsert true None (drop k es)) <= zlen (data n).
Proof.
  intros Hlow Hhigh. destruct (narrow_prefix _ _ _ (proj1 sk_range) (proj2 sk_range)) as [Hpl1 Hpl2].
  rewrite <- (fence_pl n p HR l h Hf) in Hpl1, Hpl2.
  pose proof (part_fits (take k es) _ (sublist_take _ _) Hpl1) as H1.
  pose proof (part_fits (drop k es) _ (sublist_drop _ _) Hpl2) as H2.
  rewrite Hf in H1, H2. cbn [fence_need] in H1, H2. unfold page_need. lia.
Qed.

(** There is room for the records of the left half. *)
Hypothesis Hleft_room : page_need (fence_key l) sk (consolidated OpInsert true None (take k es)) <= zlen (data n).

(** The left half. *)
Lemma split_left :
  ∃ left pl l' h',
    consolidate_after_split (set_meta n (set_value_count (meta n) (Z.of_nat k + FENCE_KEY_CNT))) sk version
      = Ret left ∧ Repr left pl ∧ p_fences pl = Some (l', h') ∧ fence_key l' = fence_key l ∧
    fence_key h' = sk ∧ p_entries pl = consolidated OpInsert true None (take k es) ∧
    fresh_header n (node_size (meta n)) (next_level n) version true false left ∧
    zlen (data n) - page_need (fence_key l) sk (consolidated OpInsert true None (take k es)) <= remaining_size (meta left).
Proof.
  pose proof (lb_bound sk es) as Hkb. rewrite (entries_length p) in Hkb.
  destruct (truncate_repr k Hkb) as [r HT]. set (n1 := set_meta n _) in *.
  assert (is_cache_only_leaf (meta n1) = is_cache_only_leaf (meta n)) as Hco.
  { destruct (set_value_count_spec (meta n) (Z.of_nat k + FENCE_KEY_CNT)) as (_ & _ & Hfl & _).
    - apply (lo_word _ _ (re_layout _ _ HR)).
    - pose proof (layout_fits _ _ (re_layout _ _ HR)) as (_ & _ & Hc).
      rewrite <- (layout_count _ _ (re_layout _ _ HR)), (repr_count n p HR), Hf in Hc.
      cbn [fence_slots length] in Hc. unfold FENCE_KEY_CNT, zlen in *. lia.
    - apply Hfl. }
  pose proof Hbase as Hb0. apply andb_true_iff in Hb0 as [Hcf Hnull]. apply negb_true_iff in Hcf.
  unfold consolidate_after_split. rewrite Hco, Hcf. cbn [orb].
  rewrite assert_true by (unfold is_base_page; by rewrite Hco, Hcf). ret_step.
  change (consolidate_inner n1 ?a ?b ?c ?d ?e ?f) with (consolidate_inner (set_remaining_size n1 r) a b c d e f).
  set (pt := mkPage (p_fences p) (take k (p_recs p))) in *.
  assert (p_entries pt = take k es) as Het by (unfold pt, p_entries; cbn [p_recs]; by rewrite fmap_take).
  destruct (consolidate_fenced_spec (set_remaining_size n1 r) pt HT OpInsert true false None version)
    with (nh := Some sk) (l := l) (h := h) as (left & pl & l' & h' & Hrun & HL & Hfl & Hl' & Hh' & He & Hfr & Hrem); auto.
  - rewrite Het. apply kept_value; apply Forall_take; [apply entries_ok|done].
  - rewrite Het. eapply Forall_impl; [apply lb_take, (re_order _ _ HR)|]. intros e He _. by right.
  - by rewrite Het.
  - rewrite Het in He, Hrem. exists left, pl, l', h'. split_and!; auto.
Qed.

Hypothesis Hright_room : page_need sk (fence_key h) (consolidated OpInsert true None (drop k es)) <= zlen (data n).

Context (sib : LeafNode).
Hypothesis Hsib_size : node_size (meta sib) = node_size (meta n).
Hypothesis Hsib_data : zlen (data sib) = node_size (meta sib) - LEAF_HEADER.
Hypothesis Hsib_bytes : bytes_ok (data sib).

(** The right half. *)
Lemma split_right :
  ∃ sib1 right pr l' h',
    init_sibling sib sk (fence_key h) false version = Ret sib1 ∧
    foldM (move_record n) sib1 (seqZ (Z.of_nat k + FENCE_KEY_CNT) (zlen (p_recs p) - Z.of_nat k))
      = Ret right ∧
    Repr right pr ∧ p_fences pr = Some (l', h') ∧ fence_key l' = sk ∧ fence_key h' = fence_key h ∧
    p_entries pr = consolidated OpInsert true None (drop k es) ∧
    fresh_header sib (node_size (meta n)) next_level_null version true false right ∧
    zlen (data n) - page_need sk (fence_key h) (consolidated OpInsert true None (drop k es)) <= remaining_size (meta right).
Proof.
  pose proof (lb_bound sk es) as Hkb. rewrite (entries_length p) in Hkb.
  destruct (repr_page n p HR) as (Hs & Hd & _). destruct (fence_len_bound n p HR l h Hf) as [_ [_ Hhl]].
  destruct (fences_ok n p HR l h Hf) as [_ Hhok]. pose proof sk_range as [Hge Hlt].
  pose proof Hright_room as Hfit. unfold page_need in Hfit |- *.
  set (pl2 := common_prefix_len sk (fence_key h)) in *. set (right_es := consolidated OpInsert true None (drop k es)) in *.
  assert (Forall (λ e, cmp_bytes sk (e_key e) ≠ Gt ∧ (fence_key h = [] ∨ bytes_lt (e_key e) (fence_key h))) right_es) as Hin.
  { eapply consolidated_forall; [apply Forall_and; split; [apply lb_drop, (re_order _ _ HR)|
      apply Forall_drop, (re_range _ _ HR)]|].
    intros e [H1 H2] _. rewrite Hf in H2. split; [done|by apply below_high_key, H2]. }
  assert (0 <= total_need pl2 right_es) as Hnn.
  { apply total_need_nonneg. eapply Forall_impl; [exact Hin|]. intros e [H1 H2]. by apply between_prefix_len. }
  unfold init_sibling. rewrite Hsib_size. cbn [negb].
  destruct (initialize_fence_repr sib (node_size (meta n)) next_level_null version false Hs)
    with (low := sk) (high := fence_key h) as (s1 & l' & h' & Hi & HR1 & Hl' & Hh' & Hfr & Hr1); auto.
  { by rewrite <- Hsib_size. }
  { destruct h as [|ho hk]; [constructor|apply Hhok]. }
  { fold pl2. lia. }
  fold pl2 in Hr1. rewrite Hi. exists s1. rewrite (move_records_fill s1 k Hkb).
  destruct (fences_ok s1 _ HR1 l' h' eq_refl) as [Hlok' Hhok'].
  assert (prefix_len s1 = pl2) as Hpl by (rewrite (re_prefix _ _ HR1); cbn; by rewrite Hl', Hh').
  destruct (fill_spec s1 _ right_es HR1) as (s2 & p2 & Hrun & HR2 & Hf2 & He2 & Hh2 & Hr2).
  - eapply consolidated_forall; [apply Forall_and; split; [apply Forall_drop, entries_ok|
      apply kept_value; apply Forall_drop; [apply entries_ok|done]]|].
    intros e [(H1 & H2 & H3 & H4 & _) H5] Hk. unfold entry_ok. split_and!; auto.
  - eapply Forall_impl; [exact Hin|]. intros e [H1 H2]. split.
    + apply above_low_key; [done|]. by rewrite Hl'.
    + apply below_high_key; [done|]. by rewrite Hh'.
  - apply consolidated_ordered, (ordered_sublist es); [apply sublist_drop|apply (re_order _ _ HR)].
  - apply (consolidated_forall OpInsert true None (λ _, True)); [by apply Forall_true|].
    intros e _ Hk. unfold kept, retag in *. cbn [andb e_op] in *. by destruct (op_eqb (e_op e) OpDelete).
  - rewrite Hpl, Hr1. lia.
  - exists s2, p2, l', h'. split_and!; auto; [by eapply fresh_same|]. rewrite Hpl in Hr2. lia.
Qed.

(** The split as a whole. *)
Lemma split_with_key_repr :
  ∃ left right pl pr l1 h1 l2 h2, split_with_key n sib sk false version = Ret (left, right) ∧
    Repr left pl ∧ p_fences pl = Some (l1, h1) ∧ fence_key l1 = fence_key l ∧ fence_key h1 = sk ∧
    p_entries pl = consolidated OpInsert true None (take k es) ∧
    Repr right pr ∧ p_fences pr = Some (l2, h2) ∧ fence_key l2 = sk ∧ fence_key h2 = fence_key h ∧
    p_entries pr = consolidated OpInsert true None (drop k es) ∧
    fresh_header n (node_size (meta n)) (next_level n) version true false left ∧
    fresh_header sib (node_size (meta n)) next_level_null version true false right ∧
    zlen (data n) - page_need (fence_key l) sk (p_entries pl) <= remaining_size (meta left) ∧
    zlen (data n) - page_need sk (fence_key h) (p_entries pr) <= remaining_size (meta right).
Proof.
  unfold split_with_key, check_split_target. rewrite Hbase, (fence_flag n p HR l h Hf).
  rewrite assert_true by done. ret_step. rewrite records_count. ret_step.
  rewrite kv_num_below_spec. ret_step.
  pose proof (lb_bound sk es) as Hkb. rewrite (entries_length p) in Hkb.
  rewrite subu_ok by (unfold zlen; lia). ret_step. cbn [negb]. rewrite right_high_spec. ret_step.
  destruct split_right as (s1 & right & pr & l2 & h2 & -> & Hmove & HRr & Hfr & Hl2 & Hh2 & Her & Hfrr & Hremr).
  ret_step. unfold divide. rewrite Hmove. ret_step.
  destruct split_left as (left & pl & l1 & h1 & -> & HRl & Hfl & Hl1 & Hh1 & Hel & Hfrl & Hreml).
  do 2 ret_step. cbn [fst snd].
  destruct (high_fence_full left pl l1 h1 HRl Hfl) as (m & -> & Hm); [by rewrite Hh1|].
  ret_step. rewrite Hm. ret_step. rewrite (low_fence_full right pr l2 h2 HRr Hfr). ret_step.
  rewrite Hh1, Hl2, !bool_decide_eq_true_2 by done. do 3 ret_step.
  exists left, right, pl, pr, l1, h1, l2, h2. rewrite <- Hel in Hreml. rewrite <- Her in Hremr. by split_and!.
Qed.
End split.

(** Consolidation with the fences of the page. *)
Lemma consolidate_same_fences n p l h :
  Repr n p → p_fences p = Some (l, h) → ∀ version,
  Forall (λ e, kept true None e = true → value_ok (e_op (retag OpInsert e)) (e_val e) = true) (p_entries p) →
  ∃ n' p' l' h',
    consolidate_inner n OpInsert None true (is_cache_only_leaf (meta n)) None version = Ret n' ∧
    Repr n' p' ∧ p_fences p' = Some (l', h') ∧ fence_key l' = fence_key l ∧ fence_key h' = fence_key h ∧
    p_entries p' = consolidated OpInsert true None (p_entries p) ∧
    fresh_header n (node_size (meta n)) (next_level n) version true (is_cache_only_leaf (meta n)) n' ∧
    zlen (data n) - page_need (fence_key l) (fence_key h) (p_entries p') <= remaining_size (meta n').
Proof.
  intros HR Hf version Hv. destruct (fences_ok n p HR l h Hf) as [_ Hh].
  destruct (consolidate_fenced_spec n p HR OpInsert true (is_cache_only_leaf (meta n)) None version Hv)
    with (nh := @None bytes) (l := l) (h := h) as (n' & p' & l' & h' & Hrun & HR' & Hf' & Hl' & Hh' & He' & Hfr & Hrem); auto.
  - by destruct (fence_len_bound n p HR l h Hf) as [_ [_ ?]].
  - destruct h as [|ho hk]; [constructor|apply Hh].
  - eapply Forall_impl; [apply (re_range _ _ HR)|]. intros e He _. rewrite Hf in He.
    by apply below_high_key, He.
  - unfold page_need. pose proof (page_usage n p HR) as Hu. rewrite Hf in Hu. cbn [fence_need] in Hu.
    rewrite <- (fence_pl n p HR l h Hf).
    assert (Forall (λ e, 0 <= prefix_len n <= zlen (e_key e)) (p_entries p)) as Hb.
    { eapply Forall_impl; [apply (re_range _ _ HR)|]. intros e He. by apply (range_prefix n p HR). }
    pose proof (consolidated_need OpInsert true None _ _ Hb).
    pose proof (lo_rem _ _ (re_layout _ _ HR)). lia.
  - exists n', p', l', h'. rewrite <- He' in Hrem. by split_and!.
Qed.
