(* ===== verification/LeafTheorems.v ===== *)
(** The correctness theorems of the leaf page (src/nodes/leaf_node.rs), stated on
    [leaf_wf] pages with the contents that the page's own readers return
    ([leaf_entries]), and concrete pages that satisfy their hypotheses. *)
From stdpp Require Import base numbers list sorting.
From Stdlib Require Import ZArith Lia.
From S2P Require Import Prelude Bits NodeMeta LeafMeta LeafNode LeafOps LeafLayout Entries LeafRepr LeafSearch LeafInsert LeafInit LeafMerge LeafRebuild LeafSplit.

(** ** Contents *)
Lemma wf_entries n : leaf_wf n → ∃ p, Repr n p ∧ leaf_entries n = Ret (p_entries p).
Proof. intros [p HR]. exists p. split; [done|by apply repr_entries]. Qed.

Lemma entries_eq n p es : Repr n p → leaf_entries n = Ret es → es = p_entries p.
Proof. intros HR He. rewrite (repr_entries n p HR) in He. congruence. Qed.

Lemma consolidated_find new_op st sk es key :
  ordered es →
  find_entry key (consolidated new_op st sk es) =
    match find_entry key es with
    | Some e => if kept st sk e then Some (retag new_op e) else None
    | None => None
    end.
Proof.
  induction 1 as [|e es Hs IH Hall]; [done|]. rewrite consolidated_cons. cbn [find_entry].
  destruct (key_eqb (e_key e) key) eqn:Ek.
  - destruct (kept st sk e); cbn [find_entry retag e_key]; [by rewrite Ek|].
    rewrite IH, find_entry_none; [done|]. apply key_eqb_eq in Ek.
    eapply Forall_impl; [exact Hall|]. intros e' Hlt Hk. unfold entry_lt in Hlt.
    rewrite Hk, <- Ek in Hlt. by apply bytes_lt_irrefl in Hlt.
  - destruct (kept st sk e); cbn [find_entry retag e_key]; [by rewrite Ek|done].
Qed.

(** Dropping tombstones and retagging keeps the value of every key. *)
Lemma consolidated_visible es key :
  ordered es → Forall (λ e, e_op e ≠ OpPhantom) es →
  visible (find_entry key (consolidated OpInsert true None es)) = visible (find_entry key es).
Proof.
  intros Ho Hp. rewrite consolidated_find by done.
  destruct (find_entry key es) as [e|] eqn:He; [|done].
  apply find_entry_elem in He as [He _]. rewrite Forall_forall in Hp. specialize (Hp e He).
  unfold kept, retag, visible. cbn [andb e_op e_val]. by destruct (e_op e).
Qed.

Lemma consolidated_gone es key :
  ordered es → Forall (λ e, e_op e ≠ OpPhantom) es →
  find_entry key (consolidated OpInsert true None es) = None ↔ visible (find_entry key es) = None.
Proof.
  intros Ho Hp. rewrite consolidated_find by done.
  destruct (find_entry key es) as [e|] eqn:He; [|done].
  apply find_entry_elem in He as [He _]. rewrite Forall_forall in Hp. specialize (Hp e He).
  unfold kept, retag, visible. cbn [andb e_op e_val]. by destruct (e_op e).
Qed.

Lemma find_apply_insert base key value es :
  ordered es →
  find_entry key (apply_op base key OpInsert value es) =
    Some (match find_entry key es with
          | Some e => overwrite e OpInsert value
          | None => mkEntry key OpInsert value
          end).
Proof.
  intros Ho. rewrite <- (find_upsert_same key OpInsert value es Ho).
  unfold apply_op. change (op_eqb OpInsert OpDelete) with false. by destruct (find_entry key es).
Qed.

(** Both halves of a split, seen by a reader. *)
Lemma split_visible es key k :
  ordered es → Forall (λ e, e_op e ≠ OpPhantom) es →
  visible (find_entry k es) =
    visible (match cmp_bytes k key with
             | Lt => find_entry k (consolidated OpInsert true None (take (lb key es) es))
             | _ => find_entry k (consolidated OpInsert true None (drop (lb key es) es))
             end).
Proof.
  intros Ho Hp. rewrite <- (take_drop (lb key es) es) at 1. rewrite find_entry_app.
  assert (ordered (take (lb key es) es)) as Ho1 by (eapply ordered_sublist, Ho; apply sublist_take).
  assert (ordered (drop (lb key es) es)) as Ho2 by (eapply ordered_sublist, Ho; apply sublist_drop).
  assert (cmp_bytes k key = Lt → find_entry k (drop (lb key es) es) = None) as Hd.
  { intros Hlt. apply find_entry_none. eapply Forall_impl; [by apply lb_drop|]. intros e He <-.
    cbv beta in He. by rewrite (proj2 (cmp_gt_lt _ _) Hlt) in He. }
  assert (cmp_bytes k key ≠ Lt → find_entry k (take (lb key es) es) = None) as Ht.
  { intros Hge. apply find_entry_none. eapply Forall_impl; [by apply lb_take|]. by intros e He <-. }
  destruct (cmp_bytes k key) eqn:E.
  - rewrite Ht by done. symmetry. apply consolidated_visible; [done|by apply Forall_drop].
  - rewrite Hd, consolidated_visible by (done || by apply Forall_take).
    by destruct (find_entry k (take _ es)).
  - rewrite Ht by done. symmetry. apply consolidated_visible; [done|by apply Forall_drop].
Qed.

(** ** Sample pages *)
Definition page_of (o : outcome LeafNode) : LeafNode :=
  match o with Ret n => n | Panic => uninit_page [] end.

Definition ins (n : LeafNode) (key value : bytes) (op : OpType) : LeafNode :=
  match insert n key value op 16 with Ret (_, n') => n' | Panic => uninit_page [] end.

Lemma base_page_wf mem size version :
  LEAF_HEADER + 2 * KV_META_SIZE <= size <= MAX_LEAF_PAGE_SIZE →
  zlen mem = size - LEAF_HEADER → bytes_ok mem →
  ∃ n p, make_base_page mem size version = Ret n ∧ Repr n p ∧ p_recs p = [] ∧
    p_fences p = Some (FInf, FInf) ∧ is_base_page n = true ∧ node_size (meta n) = size ∧
    snapshot_version n = Z.land version LEAF_SNAPSHOT_VERSION_MASK ∧
    remaining_size (meta n) = size - LEAF_HEADER - 2 * KV_META_SIZE ∧ leaf_get_split_flag n = false.
Proof.
  intros Hs Hd Hb. assert (0 < KV_META_SIZE) as Hkm by done.
  destruct (initialize_fence_repr (uninit_page mem) size next_level_null version false
              ltac:(lia) Hd Hb [] [] ltac:(done) ltac:(done) ltac:(constructor) ltac:(constructor))
    as (n & l & h & Hi & HR & Hl & Hh & Hfr & Hr).
  { rewrite !zlen_nil. cbn [common_prefix_len]. lia. }
  destruct (fences_ok n _ HR l h eq_refl) as [Hlok Hhok].
  exists n, (mkPage (Some (l, h)) []). split; [exact Hi|]. split; [done|]. split; [done|].
  split.
  { destruct l as [|lo lk]; [|by destruct Hlok as (_ & ? & _)].
    destruct h as [|ho hk]; [done|by destruct Hhok as (_ & ? & _)]. }
  destruct Hfr as (H1 & H2 & _ & H4 & _ & H6 & H7 & _). split_and!; auto.
  unfold is_base_page. by rewrite H2, H6.
Qed.

Lemma ins_wf n key value op :
  leaf_wf n → key_in_fences n key = Ret true → entry_ok (mkEntry key op value) → op ≠ OpCache →
  leaf_wf (ins n key value op).
Proof.
  intros [p HR] Hk Hok Hc. unfold ins.
  destruct (insert_repr n p HR key value op 16) as (b & n' & -> & Hb); auto; try done.
  { by apply (repr_key_in_fences n p HR). }
  destruct b; [|destruct Hb as (-> & _); by exists p].
  destruct Hb as (p' & HR' & _). by exists p'.
Qed.

Definition sample_empty : LeafNode := page_of (make_base_page (replicate 224 0) 256 7).

Lemma sample_empty_wf : leaf_wf sample_empty.
Proof.
  destruct (base_page_wf (replicate 224 0) 256 7) as (n & p & Hn & HR & _).
  - unfold LEAF_HEADER, KV_META_SIZE, MAX_LEAF_PAGE_SIZE. lia.
  - done.
  - apply Forall_replicate. unfold byte_ok. lia.
  - unfold sample_empty. rewrite Hn. by exists p.
Qed.

Ltac solve_entry_ok :=
  unfold entry_ok, bytes_ok, byte_ok; cbn [e_key e_val e_op]; split_and!;
  try (unfold zlen; cbn [length]; lia); try reflexivity; repeat constructor; lia.

(** A page with two live records and a tombstone. *)
Definition sample : LeafNode :=
  ins (ins (ins (ins sample_empty [5; 1] [1; 2; 3] OpInsert) [3] [9] OpInsert)
    [7; 7; 7] [4; 4] OpInsert) [3] [] OpDelete.

Lemma sample_wf : leaf_wf sample.
Proof.
  unfold sample. repeat (apply ins_wf; [|by vm_compute|solve_entry_ok|done]).
  apply sample_empty_wf.
Qed.

(** ** Insertion *)

(** C13: inserting a record into a well-formed page never panics (no failed assertion,
    no integer overflow, no access outside the page).  Either the page then holds
    exactly the specified entries, with its header kept, or the insertion is refused
    for lack of space and the page is unchanged. *)
Theorem insert_correct n es key value op max_fence_len :
  leaf_wf n → leaf_entries n = Ret es → key_in_fences n key = Ret true →
  entry_ok (mkEntry key op value) → 0 <= max_fence_len < 2 ^ 15 →
  (op = OpCache → find_entry key es = None) →
  ∃ b n', insert n key value op max_fence_len = Ret (b, n') ∧
    if b then
      leaf_wf n' ∧ leaf_entries n' = Ret (apply_op (is_base_page n) key op value es) ∧
      same_header n n'
    else n' = n ∧ no_room n key value max_fence_len.
Proof.
  intros [p HR] He Hk Hok Hm Hc. rewrite (entries_eq n p es HR He) in *.
  apply (repr_key_in_fences n p HR) in Hk.
  destruct (insert_repr n p HR key value op max_fence_len Hk Hok Hm Hc) as (b & n' & -> & Hb).
  exists b, n'. split; [done|]. destruct b; [|destruct Hb as (? & ? & _); done].
  destruct Hb as (p' & HR' & _ & <- & Hh & _).
  split_and!; [by exists p'|by apply repr_entries|done].
Qed.

Lemma insert_correct_witness :
  ∃ b n', insert sample [6] [8; 8] OpInsert 16 = Ret (b, n') ∧
    if b then
      leaf_wf n' ∧
      leaf_entries n' = Ret (apply_op (is_base_page sample) [6] OpInsert [8; 8]
        [mkEntry [3] OpDelete [9]; mkEntry [5; 1] OpInsert [1; 2; 3]; mkEntry [7; 7; 7] OpInsert [4; 4]]) ∧
      same_header sample n'
    else n' = sample ∧ no_room sample [6] [8; 8] 16.
Proof.
  apply (insert_correct sample
    [mkEntry [3] OpDelete [9]; mkEntry [5; 1] OpInsert [1; 2; 3]; mkEntry [7; 7; 7] OpInsert [4; 4]]).
  - apply sample_wf.
  - by vm_compute.
  - by vm_compute.
  - solve_entry_ok.
  - lia.
  - done.
Defined.

(** C16: a record that has been inserted is read back with its value, and every other
    key of the page reads as before, by the binary and by the linear search. *)
Theorem insert_then_read n es key value max_fence_len n' k out_buffer bin :
  leaf_wf n → leaf_entries n = Ret es → key_in_fences n key = Ret true →
  entry_ok (mkEntry key OpInsert value) → 0 <= max_fence_len < 2 ^ 15 →
  insert n key value OpInsert max_fence_len = Ret (true, n') →
  key_in_fences n' k = Ret true → zlen value <= zlen out_buffer →
  (match visible (find_entry k es) with Some v => zlen v <= zlen out_buffer | None => True end) →
  ∃ n'', read_by_key_inner n' k out_buffer bin =
    if key_eqb k key
    then Ret (Found (zlen value), n'', value ++ drop (length value) out_buffer)
    else Ret ((read_result (find_entry k es) out_buffer).1, n'',
              (read_result (find_entry k es) out_buffer).2).
Proof.
  intros [p HR] He Hk Hok Hm Hins Hk' Hbuf Hbuf'. rewrite (entries_eq n p es HR He) in *.
  apply (repr_key_in_fences n p HR) in Hk.
  destruct (insert_repr n p HR key value OpInsert max_fence_len Hk Hok Hm ltac:(done))
    as (b & n1 & Hrun & Hb). rewrite Hrun in Hins. injection Hins as -> ->.
  destruct Hb as (p' & HR' & Hf' & He' & _). apply (repr_key_in_fences n' p' HR') in Hk'.
  pose proof (re_order _ _ HR) as Hord.
  destruct (read_repr n' p' HR' k out_buffer bin Hk') as (n'' & p'' & Hr & _); rewrite He' in *.
  - destruct (key_eqb k key) eqn:Ek.
    + apply key_eqb_eq in Ek as ->. by rewrite visible_apply_same.
    + apply key_eqb_ne in Ek. by rewrite find_apply_other.
  - exists n''. rewrite Hr. destruct (key_eqb k key) eqn:Ek.
    + apply key_eqb_eq in Ek as ->. rewrite (find_apply_insert _ _ _ _ Hord).
      destruct (find_entry key (p_entries p)); done.
    + apply key_eqb_ne in Ek. by rewrite find_apply_other.
Qed.

Lemma insert_then_read_witness :
  ∃ n'', read_by_key_inner (ins sample [6] [8; 8] OpInsert) [5; 1] (replicate 4 0) true =
    Ret (Found 3, n'', [1; 2; 3; 0]).
Proof.
  apply (insert_then_read sample
    [mkEntry [3] OpDelete [9]; mkEntry [5; 1] OpInsert [1; 2; 3]; mkEntry [7; 7; 7] OpInsert [4; 4]]
    [6] [8; 8] 16 (ins sample [6] [8; 8] OpInsert) [5; 1] (replicate 4 0) true).
  - apply sample_wf.
  - by vm_compute.
  - by vm_compute.
  - solve_entry_ok.
  - lia.
  - by vm_compute.
  - by vm_compute.
  - by vm_compute.
  - by vm_compute.
Defined.

(** ** Reading and searching *)

(** C17: a read of a well-formed page never panics and returns what the page's entries
    hold for the key; it changes reference bits only. *)
Theorem read_by_key_correct n es key out_buffer bin :
  leaf_wf n → leaf_entries n = Ret es → key_in_fences n key = Ret true →
  (match visible (find_entry key es) with Some v => zlen v <= zlen out_buffer | None => True end) →
  ∃ n', read_by_key_inner n key out_buffer bin =
      Ret ((read_result (find_entry key es) out_buffer).1, n',
           (read_result (find_entry key es) out_buffer).2) ∧
    leaf_wf n' ∧ leaf_entries n' = Ret es.
Proof.
  intros [p HR] He Hk Hbuf. rewrite (entries_eq n p es HR He) in *.
  apply (repr_key_in_fences n p HR) in Hk.
  destruct (read_repr n p HR key out_buffer bin Hk Hbuf) as (n' & p' & -> & HR' & _ & _ & He' & _).
  exists n'. split; [done|]. split; [by exists p'|]. rewrite <- He'. by apply repr_entries.
Qed.

Lemma read_by_key_correct_witness :
  ∃ n', read_by_key_inner sample [3] (replicate 4 0) false = Ret (Deleted, n', [0; 0; 0; 0]) ∧
    leaf_wf n' ∧ leaf_entries n' =
      Ret [mkEntry [3] OpDelete [9]; mkEntry [5; 1] OpInsert [1; 2; 3]; mkEntry [7; 7; 7] OpInsert [4; 4]].
Proof.
  apply (read_by_key_correct sample
    [mkEntry [3] OpDelete [9]; mkEntry [5; 1] OpInsert [1; 2; 3]; mkEntry [7; 7; 7] OpInsert [4; 4]]
    [3] (replicate 4 0) false).
  - apply sample_wf.
  - by vm_compute.
  - by vm_compute.
  - done.
Defined.

(** C18: the binary search with preview bytes returns the same position as the linear
    scan, namely the number of records below the key (after the fences). *)
Theorem lower_bound_correct n es key :
  leaf_wf n → leaf_entries n = Ret es → key_in_fences n key = Ret true →
  lower_bound n key = linear_lower_bound n key ∧
  lower_bound n key = Ret (first_meta_pos_after_fence n + Z.of_nat (lb key es)) ∧
  (∀ i e, es !! i = Some e → bytes_lt (e_key e) key ↔ (i < lb key es)%nat).
Proof.
  intros [p HR] He Hk. rewrite (entries_eq n p es HR He) in *.
  apply (repr_key_in_fences n p HR) in Hk.
  rewrite (lower_bound_lb n p HR key Hk), (linear_lower_bound_lb n p HR key Hk).
  split_and!; [done|done|]. intros i e Hi.
  pose proof (lb_compare key _ i e (re_order _ _ HR) Hi) as Hc. unfold bytes_lt.
  destruct (cmp_bytes (e_key e) key); split; try done; lia.
Qed.

Lemma lower_bound_correct_witness :
  lower_bound sample [6] = linear_lower_bound sample [6] ∧ lower_bound sample [6] = Ret 4 ∧
  (∀ i e, [mkEntry [3] OpDelete [9]; mkEntry [5; 1] OpInsert [1; 2; 3]; mkEntry [7; 7; 7] OpInsert [4; 4]] !! i
     = Some e → bytes_lt (e_key e) [6] ↔ (i < 2)%nat).
Proof.
  apply (lower_bound_correct sample
    [mkEntry [3] OpDelete [9]; mkEntry [5; 1] OpInsert [1; 2; 3]; mkEntry [7; 7; 7] OpInsert [4; 4]] [6]).
  - apply sample_wf.
  - by vm_compute.
  - by vm_compute.
Defined.

(** ** Merging *)
Definition sample_mini_empty : LeafNode :=
  page_of (initialize_mini_page (uninit_page (replicate 96 0)) 128 4096 false 9).

Lemma sample_mini_empty_wf : leaf_wf sample_mini_empty.
Proof.
  destruct (initialize_mini_repr (uninit_page (replicate 96 0)) 128 4096 9 false) as (n & Hn & HR & _).
  - unfold LEAF_HEADER, MAX_LEAF_PAGE_SIZE. lia.
  - done.
  - apply Forall_replicate. unfold byte_ok. lia.
  - unfold sample_mini_empty, initialize_mini_page. rewrite Hn. by eexists.
Qed.

(** A mini page with an update, a deletion and a cached negative result. *)
Definition sample_mini : LeafNode :=
  ins (ins (ins sample_mini_empty [5; 1] [6; 6; 6; 6] OpInsert) [7; 7; 7] [] OpDelete) [8] [] OpPhantom.

Lemma sample_mini_wf : leaf_wf sample_mini.
Proof.
  unfold sample_mini. repeat (apply ins_wf; [|by vm_compute|solve_entry_ok|done]).
  apply sample_mini_empty_wf.
Qed.

(** C14: merging a mini page into its base page never panics.  If the space check
    passes, every key then reads as the mini page's dirty record if it has one and as
    the old base page otherwise; if it fails, the base page is unchanged. *)
Theorem merge_correct base mini es ms max_fence_len :
  leaf_wf base → leaf_entries base = Ret es → is_base_page base = true →
  leaf_wf mini → leaf_entries mini = Ret ms → leaf_has_fence mini = false →
  0 <= max_fence_len < 2 ^ 15 →
  (∀ e, e ∈ ms → is_dirty (e_op e) = true → key_in_fences base (e_key e) = Ret true) →
  ∃ b n', merge_mini_page base mini max_fence_len = Ret (b, n') ∧
    if b then
      leaf_wf n' ∧ snapshot_version n' = get_clean_snapshot_version mini ∧
      ∃ es', leaf_entries n' = Ret es' ∧ ∀ key, visible (find_entry key es') = overlay ms es key
    else n' = base.
Proof.
  intros [pb HB] Heb Hbase [pm HM] Hem Hnf Hm Hrange.
  rewrite (entries_eq base pb es HB Heb), (entries_eq mini pm ms HM Hem) in *.
  assert (p_fences pm = None) as Hmini.
  { pose proof (re_flag _ _ HM) as Hfl. rewrite Hnf in Hfl. by destruct (p_fences pm). }
  destruct (merge_repr mini pm HM base pb max_fence_len HB Hbase Hmini Hm) as (b & n' & -> & Hb).
  { intros e He Hd. by apply (repr_key_in_fences base pb HB), Hrange. }
  exists b, n'. split; [done|]. destruct b; [|apply Hb].
  destruct Hb as (p' & HR' & _ & He' & _ & _ & _ & Hv & _). split_and!; [by exists p'|done|].
  exists (p_entries p'). split; [by apply repr_entries|]. intros key. rewrite He'.
  apply merge_visible; [apply (re_order _ _ HM)|apply (re_order _ _ HB)].
Qed.

Lemma merge_correct_witness :
  ∃ b n', merge_mini_page sample sample_mini 16 = Ret (b, n') ∧
    if b then
      leaf_wf n' ∧ snapshot_version n' = get_clean_snapshot_version sample_mini ∧
      ∃ es', leaf_entries n' = Ret es' ∧ ∀ key, visible (find_entry key es') =
        overlay [mkEntry [5; 1] OpInsert [6; 6; 6; 6]; mkEntry [7; 7; 7] OpDelete []; mkEntry [8] OpPhantom []]
          [mkEntry [3] OpDelete [9]; mkEntry [5; 1] OpInsert [1; 2; 3]; mkEntry [7; 7; 7] OpInsert [4; 4]] key
    else n' = sample.
Proof.
  apply (merge_correct sample sample_mini).
  - apply sample_wf.
  - by vm_compute.
  - by vm_compute.
  - apply sample_mini_wf.
  - by vm_compute.
  - by vm_compute.
  - lia.
  - intros e He _. rewrite !elem_of_cons in He.
    destruct He as [->|[->|[->|[]%elem_of_nil]]]; by vm_compute.
Defined.

(** ** Rebuilding *)

(** C19: consolidating a page without phantom records never panics: the records that
    are not deleted are written back, in the same page with the same fences, and every
    key has the value it had; a key without a value, deleted or not there before, is not
    there any more. *)
Theorem consolidate_correct n es version :
  leaf_wf n → leaf_entries n = Ret es → Forall (λ e, e_op e ≠ OpPhantom) es →
  ∃ n' es', consolidate n version = Ret n' ∧ leaf_wf n' ∧ leaf_entries n' = Ret es' ∧
    es' = consolidated OpInsert true None es ∧
    (∀ key, visible (find_entry key es') = visible (find_entry key es)) ∧
    (∀ key, find_entry key es' = None ↔ visible (find_entry key es) = None) ∧
    (∀ key, key_in_fences n' key = Ret true ↔ key_in_fences n key = Ret true) ∧
    node_size (meta n') = node_size (meta n) ∧ is_base_page n' = is_base_page n.
Proof.
  intros [p HR] He Hp. rewrite (entries_eq n p es HR He) in *. unfold consolidate.
  pose proof (kept_value _ (entries_ok n p HR) Hp) as Hv.
  assert (∃ n' p', consolidate_inner n OpInsert None true (is_cache_only_leaf (meta n)) None version = Ret n' ∧
    Repr n' p' ∧ p_entries p' = consolidated OpInsert true None (p_entries p) ∧
    (∀ key, in_range (p_fences p') key ↔ in_range (p_fences p) key) ∧
    ∃ fence, fresh_header n (node_size (meta n)) (next_level n) version fence (is_cache_only_leaf (meta n)) n')
    as (n' & p' & Hrun & HR' & He' & Hr' & fence & Hfr).
  { destruct (p_fences p) as [[l h]|] eqn:Hf.
    - destruct (consolidate_same_fences n p l h HR Hf version Hv)
        as (n' & p' & l' & h' & Hrun & HR' & Hf' & Hl' & Hh' & He' & Hfr & _).
      exists n', p'. split_and!; auto; [|by exists true]. intros key. rewrite Hf'.
      destruct (fences_ok n p HR l h Hf) as [Hlo Hho]. destruct (fences_ok n' p' HR' l' h' Hf') as [Hlo' Hho'].
      unfold in_range. rewrite !above_low_key, !below_high_key, Hl', Hh' by done. done.
    - destruct (consolidate_plain_spec n p HR OpInsert true (is_cache_only_leaf (meta n)) None version Hv)
        with (nh := @None bytes) as (n' & p' & Hrun & HR' & Hf' & He' & Hfr); auto.
      exists n', p'. split_and!; auto; [by rewrite Hf'|by exists false]. }
  exists n', (p_entries p'). split_and!; auto.
  - by exists p'.
  - by apply repr_entries.
  - intros key. rewrite He'. apply consolidated_visible; [apply (re_order _ _ HR)|done].
  - intros key. rewrite He'. apply consolidated_gone; [apply (re_order _ _ HR)|done].
  - intros key. by rewrite (repr_key_in_fences n' p' HR'), (repr_key_in_fences n p HR).
  - apply Hfr.
  - destruct Hfr as (_ & Hn & _ & _ & _ & Hc & _). unfold is_base_page. by rewrite Hn, Hc.
Qed.

Lemma consolidate_correct_witness :
  ∃ n' es', consolidate sample 8 = Ret n' ∧ leaf_wf n' ∧ leaf_entries n' = Ret es' ∧
    es' = [mkEntry [5; 1] OpInsert [1; 2; 3]; mkEntry [7; 7; 7] OpInsert [4; 4]] ∧
    (∀ key, visible (find_entry key es') = visible (find_entry key
      [mkEntry [3] OpDelete [9]; mkEntry [5; 1] OpInsert [1; 2; 3]; mkEntry [7; 7; 7] OpInsert [4; 4]])) ∧
    (∀ key, find_entry key es' = None ↔ visible (find_entry key
      [mkEntry [3] OpDelete [9]; mkEntry [5; 1] OpInsert [1; 2; 3]; mkEntry [7; 7; 7] OpInsert [4; 4]]) = None) ∧
    (∀ key, key_in_fences n' key = Ret true ↔ key_in_fences sample key = Ret true) ∧
    node_size (meta n') = node_size (meta sample) ∧ is_base_page n' = is_base_page sample.
Proof.
  apply (consolidate_correct sample
    [mkEntry [3] OpDelete [9]; mkEntry [5; 1] OpInsert [1; 2; 3]; mkEntry [7; 7; 7] OpInsert [4; 4]]).
  - apply sample_wf.
  - by vm_compute.
  - by repeat constructor.
Defined.

(** C15: splitting a base page at a key never panics when the key fits in the space of
    either old fence: the two pages together read as the old page, each key on the side
    the split key puts it, and the split key is the fence between them. *)
Theorem split_with_key_correct n sib es key low high version :
  leaf_wf n → leaf_entries n = Ret es → Forall (λ e, e_op e ≠ OpPhantom) es →
  is_base_page n = true → leaf_has_fence n = true →
  get_low_fence_key n = Ret low → get_high_fence_key n = Ret high →
  key_in_fences n key = Ret true → key ≠ [] → zlen key < 2 ^ 14 → bytes_ok key →
  zlen key <= zlen low + remaining_size (meta n) → zlen key <= zlen high + remaining_size (meta n) →
  node_size (meta sib) = node_size (meta n) →
  zlen (data sib) = node_size (meta sib) - LEAF_HEADER → bytes_ok (data sib) →
  ∃ left right els ers, split_with_key n sib key false version = Ret (left, right) ∧
    leaf_wf left ∧ leaf_wf right ∧ leaf_entries left = Ret els ∧ leaf_entries right = Ret ers ∧
    get_low_fence_key left = Ret low ∧ get_high_fence_key left = Ret key ∧
    get_low_fence_key right = Ret key ∧ get_high_fence_key right = Ret high ∧
    (∀ k, visible (find_entry k es) =
       visible (match cmp_bytes k key with Lt => find_entry k els | _ => find_entry k ers end)).
Proof.
  intros [p HR] He Hp Hbase Hfl Hlow Hhigh Hk H0 Hkl Hkb Hr1 Hr2 Hs Hd Hb.
  rewrite (entries_eq n p es HR He) in *. apply (repr_key_in_fences n p HR) in Hk.
  assert (∃ l h, p_fences p = Some (l, h)) as (l & h & Hf).
  { rewrite (re_flag _ _ HR) in Hfl. destruct (p_fences p) as [[l h]|]; [by exists l, h|done]. }
  rewrite (low_fence_key n p HR l h Hf) in Hlow. rewrite (high_fence_key n p HR l h Hf) in Hhigh.
  injection Hlow as <-. injection Hhigh as <-.
  destruct (reserve_fits n p l h HR Hf key Hk Hr1 Hr2) as [Hrl Hrr].
  destruct (split_with_key_repr n p l h HR Hf key version Hbase Hp Hk H0 Hkl Hkb Hrl Hrr sib Hs Hd Hb)
    as (left & right & pl & pr & l1 & h1 & l2 & h2 & -> & HL & Hfl1 & Hl1 & Hh1 & Hel & HRr & Hfr & Hl2 & Hh2 & Her & _).
  exists left, right, (p_entries pl), (p_entries pr). split; [done|].
  rewrite (low_fence_key left pl HL l1 h1 Hfl1), (high_fence_key left pl HL l1 h1 Hfl1).
  rewrite (low_fence_key right pr HRr l2 h2 Hfr), (high_fence_key right pr HRr l2 h2 Hfr).
  rewrite Hl1, Hh1, Hl2, Hh2.
  split_and!; [by exists pl|by exists pr|by apply repr_entries|by apply repr_entries|done..|].
  intros k. rewrite Hel, Her. apply split_visible; [apply (re_order _ _ HR)|done].
Qed.

(** A sibling page as allocated: its header has the page size, its bytes are arbitrary. *)
Definition sample_sibling : LeafNode :=
  mkLeafNode (mkNodeMeta 0 256 0) 0 0 0 0 (replicate 224 1).

Lemma split_with_key_correct_witness :
  ∃ left right els ers, split_with_key sample sample_sibling [5; 5] false 8 = Ret (left, right) ∧
    leaf_wf left ∧ leaf_wf right ∧ leaf_entries left = Ret els ∧ leaf_entries right = Ret ers ∧
    get_low_fence_key left = Ret [] ∧ get_high_fence_key left = Ret [5; 5] ∧
    get_low_fence_key right = Ret [5; 5] ∧ get_high_fence_key right = Ret [] ∧
    (∀ k, visible (find_entry k
         [mkEntry [3] OpDelete [9]; mkEntry [5; 1] OpInsert [1; 2; 3]; mkEntry [7; 7; 7] OpInsert [4; 4]]) =
       visible (match cmp_bytes k [5; 5] with Lt => find_entry k els | _ => find_entry k ers end)).
Proof.
  apply split_with_key_correct.
  - apply sample_wf.
  - by vm_compute.
  - by repeat constructor.
  - by vm_compute.
  - by vm_compute.
  - by vm_compute.
  - by vm_compute.
  - by vm_compute.
  - done.
  - by vm_compute.
  - repeat constructor; unfold byte_ok; lia.
  - by vm_compute.
  - by vm_compute.
  - by vm_compute.
  - by vm_compute.
  - apply Forall_replicate. unfold byte_ok. lia.
Defined.

(** Copying a mini page to a larger allocation never panics; the copy holds a
    subset of the records in order, and drops only unreferenced cached records, and
    only when asked to. *)
Theorem copy_initialize_correct n dst es dst_size discard version :
  leaf_wf n → leaf_entries n = Ret es → is_base_page n = false → leaf_has_fence n = false →
  node_size (meta n) <= dst_size <= MAX_LEAF_PAGE_SIZE →
  zlen (data dst) = dst_size - LEAF_HEADER → bytes_ok (data dst) →
  ∃ n' es', copy_initialize_to n dst dst_size discard version = Ret n' ∧ leaf_wf n' ∧
    leaf_entries n' = Ret es' ∧ es' `sublist_of` es ∧
    (∀ e, e ∈ es → discard && is_cache (e_op e) = false → e ∈ es') ∧
    node_size (meta n') = dst_size ∧ next_level n' = next_level n.
Proof.
  intros [p HR] He Hbase Hnf Hs Hd Hb. rewrite (entries_eq n p es HR He) in *.
  assert (p_fences p = None) as Hmini.
  { pose proof (re_flag _ _ HR) as Hfl. rewrite Hnf in Hfl. by destruct (p_fences p). }
  destruct (copy_repr n dst p HR Hmini Hbase dst_size version discard Hs Hd Hb)
    as (n' & p' & -> & HR' & _ & He' & Hfr & _).
  exists n', (p_entries p'). split_and!; auto.
  - by exists p'.
  - by apply repr_entries.
  - rewrite He'. apply copied_sublist.
  - intros e Hin Hk. rewrite He'. unfold p_entries in Hin.
    apply list_elem_of_fmap in Hin as (r & -> & Hr).
    apply list_elem_of_omap. exists r. split; [done|]. unfold copied. by rewrite Hk.
  - apply Hfr.
  - apply Hfr.
Qed.

Lemma copy_initialize_correct_witness :
  ∃ n' es', copy_initialize_to sample_mini (uninit_page (replicate 224 3)) 256 true 9 = Ret n' ∧
    leaf_wf n' ∧ leaf_entries n' = Ret es' ∧
    es' `sublist_of` [mkEntry [5; 1] OpInsert [6; 6; 6; 6]; mkEntry [7; 7; 7] OpDelete []; mkEntry [8] OpPhantom []] ∧
    (∀ e, e ∈ [mkEntry [5; 1] OpInsert [6; 6; 6; 6]; mkEntry [7; 7; 7] OpDelete []; mkEntry [8] OpPhantom []] →
       true && is_cache (e_op e) = false → e ∈ es') ∧
    node_size (meta n') = 256 ∧ next_level n' = next_level sample_mini.
Proof.
  apply copy_initialize_correct.
  - apply sample_mini_wf.
  - by vm_compute.
  - by vm_compute.
  - by vm_compute.
  - by vm_compute.
  - by vm_compute.
  - apply Forall_replicate. unfold byte_ok. lia.
Defined.

(** A fresh base page is well formed whatever the allocated memory held: it is
    empty, every key lies between its infinite fences, and all space behind the two
    fence descriptors is free. *)
Theorem make_base_page_correct mem size version :
  LEAF_HEADER + 2 * KV_META_SIZE <= size <= MAX_LEAF_PAGE_SIZE →
  zlen mem = size - LEAF_HEADER → bytes_ok mem →
  ∃ n, make_base_page mem size version = Ret n ∧ leaf_wf n ∧ leaf_entries n = Ret [] ∧
    is_base_page n = true ∧ (∀ key, key_in_fences n key = Ret true) ∧
    remaining_size (meta n) = size - LEAF_HEADER - 2 * KV_META_SIZE.
Proof.
  intros Hs Hd Hb. destruct (base_page_wf mem size version Hs Hd Hb)
    as (n & p & Hn & HR & Hr & Hf & Hbase & _ & _ & Hrem & _).
  exists n. split_and!; auto; [by exists p| |].
  - rewrite (repr_entries n p HR). unfold p_entries. by rewrite Hr.
  - intros key. apply (repr_key_in_fences n p HR). by rewrite Hf.
Qed.

Lemma make_base_page_correct_witness :
  ∃ n, make_base_page (replicate 4064 17) 4096 3 = Ret n ∧ leaf_wf n ∧ leaf_entries n = Ret [] ∧
    is_base_page n = true ∧ (∀ key, key_in_fences n key = Ret true) ∧
    remaining_size (meta n) = 4048.
Proof.
  apply (make_base_page_correct (replicate 4064 17) 4096 3).
  - unfold LEAF_HEADER, KV_META_SIZE, MAX_LEAF_PAGE_SIZE. lia.
  - by vm_compute.
  - apply Forall_replicate. unfold byte_ok. lia.
Defined.

(** The accounting of a well-formed page: descriptors, records and free space do
    not overlap and fit in the page, so the 12-bit record count never overflows. *)
Theorem leaf_space_bounds n es :
  leaf_wf n → leaf_entries n = Ret es →
  total_need (prefix_len n) es + remaining_size (meta n) <= node_size (meta n) - LEAF_HEADER ∧
  0 <= count n <= 4092 ∧ 0 <= remaining_size (meta n).
Proof.
  intros [p HR] He. rewrite (entries_eq n p es HR He). pose proof (re_layout _ _ HR) as HL.
  pose proof (page_usage n p HR) as Hu. pose proof (layout_fits n _ HL) as (_ & _ & Hc).
  pose proof (lo_rem _ _ HL). rewrite (layout_count _ _ HL). rewrite <- (layout_len _ _ HL).
  pose proof (zlen_nonneg (page_slots (prefix_len n) p)).
  assert (0 <= fence_need (prefix_len n) (p_fences p)); [|lia].
  destruct (p_fences p) as [[l h]|] eqn:Hf; [|done]. cbn [fence_need].
  pose proof (fence_pl_bound n p HR l h Hf). unfold KV_META_SIZE. lia.
Qed.

Lemma leaf_space_bounds_witness :
  total_need (prefix_len sample)
      [mkEntry [3] OpDelete [9]; mkEntry [5; 1] OpInsert [1; 2; 3]; mkEntry [7; 7; 7] OpInsert [4; 4]]
    + remaining_size (meta sample) <= node_size (meta sample) - LEAF_HEADER ∧
  0 <= count sample <= 4092 ∧ 0 <= remaining_size (meta sample).
Proof.
  apply leaf_space_bounds.
  - apply sample_wf.
  - by vm_compute.
Defined.
