(* ===== verification/RootSplit.v ===== *)
(** The split of the root leaf ([LeafNode::split] and [get_split_key] of src/nodes/leaf_node.rs): the key
    that halves the records, and the two pages around it. *)
From stdpp Require Import base numbers list sorting option.
From Stdlib Require Import ZArith Lia.
From S2P Require Import Prelude Bits NodeMeta LeafMeta LeafNode LeafOps LeafLayout Entries LeafRepr LeafSearch LeafInsert LeafInit LeafMerge LeafRebuild LeafSplit.

Lemma total_need_cons pl e es : total_need pl (e :: es) = entry_need pl e + total_need pl es.
Proof. done. Qed.

Lemma total_need_app pl es es' : total_need pl (es ++ es') = total_need pl es + total_need pl es'.
Proof. induction es as [|e es IH]; [done|]. cbn [app]. rewrite !total_need_cons, IH. lia. Qed.

Lemma entry_need_pos e : KV_META_SIZE <= entry_need 0 e.
Proof. unfold entry_need. pose proof (zlen_nonneg (e_key e)). pose proof (zlen_nonneg (e_val e)). lia. Qed.

Lemma total_need_pos es : 0 <= total_need 0 es.
Proof.
  induction es as [|e es IH]; [done|]. rewrite total_need_cons. pose proof (entry_need_pos e). unfold KV_META_SIZE in *. lia.
Qed.

Section split.
Context (n : LeafNode) (p : page).
Hypothesis HR : Repr n p.
Abbreviation ents rs := (map k_ent rs).

Lemma size_step r acc :
  r ∈ p_recs p → 0 <= acc → acc + entry_need 0 (k_ent r) < U16 →
  data_size_step acc (rec_meta n r) = Ret (acc + entry_need 0 (k_ent r)).
Proof.
  intros Hr Ha Hlt. destruct (rec_readers n p HR r Hr) as (_ & _ & _ & Hk & Hv & _). unfold data_size_step, record_size.
  rewrite Hk, Hv. unfold entry_need, k_key, k_val, KV_META_SIZE in *. pose proof (zlen_nonneg (e_key (k_ent r))).
  pose proof (zlen_nonneg (e_val (k_ent r))). rewrite add16_ok by lia. ret_step. rewrite add16_ok by lia. ret_step.
  rewrite add16_ok by lia. f_equal. lia.
Qed.

Lemma data_size_spec rs acc :
  rs ⊆ p_recs p → 0 <= acc → acc + total_need 0 (ents rs) < U16 →
  foldM data_size_step acc (map (rec_meta n) rs) = Ret (acc + total_need 0 (ents rs)).
Proof.
  revert acc. induction rs as [|r rs IH]; intros acc Hin Ha Hlt; [by cbn; f_equal; lia|]. cbn [map foldM].
  cbn [map] in Hlt. rewrite total_need_cons in Hlt. pose proof (entry_need_pos (k_ent r)). pose proof (total_need_pos (ents rs)).
  unfold KV_META_SIZE in *. rewrite size_step; [|apply Hin; by left|lia..]. ret_step.
  rewrite IH; [|intros x Hx; apply Hin; by right|lia..]. cbn [map]. rewrite total_need_cons. f_equal. lia.
Qed.

(** The second loop stops at the record that reaches the target. *)
Lemma find_split_spec target rs cur i :
  rs ⊆ p_recs p → rs ≠ [] → 0 <= cur → cur + total_need 0 (ents rs) < U16 → target <= cur + total_need 0 (ents rs) →
  ∃ j r, rs !! j = Some r ∧ find_split n false target cur i (map (rec_meta n) rs) = Ret (k_key r, i + Z.of_nat j) ∧
    target <= cur + total_need 0 (take (S j) (ents rs)) ∧ ((0 < j)%nat → cur + total_need 0 (take j (ents rs)) < target).
Proof.
  revert cur i. induction rs as [|r rs IH]; intros cur i Hin Hne Hc Hlt Ht; [done|]. cbn [map find_split andb].
  cbn [map] in Hlt, Ht. rewrite total_need_cons in Hlt, Ht. pose proof (entry_need_pos (k_ent r)) as Hp.
  pose proof (total_need_pos (ents rs)). unfold KV_META_SIZE in Hp.
  rewrite size_step; [|apply Hin; by left|lia..]. ret_step. zcase (target <=? cur + entry_need 0 (k_ent r)).
  - destruct (rec_readers n p HR r) as (Hk & _); [apply Hin; by left|]. rewrite Hk. ret_step.
    exists 0%nat, r. split; [done|]. split; [do 2 f_equal; lia|]. split; [|lia]. cbn [map take]. rewrite total_need_cons.
    change (total_need 0 (take 0 (ents rs))) with 0. lia.
  - destruct rs as [|r' rs]; [cbn in Ht; lia|].
    destruct (IH (cur + entry_need 0 (k_ent r)) (i + 1)) as (j & x & Hj & Hrun & H1 & H2); [intros y Hy; apply Hin; by right|done|lia..|].
    exists (S j), x. split; [done|]. split; [rewrite Hrun; do 2 f_equal; lia|]. cbn [map take] in *. rewrite !total_need_cons in *.
    split; [lia|]. intros _. destruct j as [|j]; [change (total_need 0 (take 0 _)) with 0; lia|]. cbn [take] in *. rewrite total_need_cons in *. specialize (H2 ltac:(lia)). lia.
Qed.
End split.

Section root.
Context (n : LeafNode) (p : page) (rmax kmax : Z).
Hypothesis HR : Repr n p.
Hypothesis Hf : p_fences p = Some (FInf, FInf).
Hypothesis Hbase : is_base_page n = true.
Hypothesis Hphantom : Forall (λ e, e_op e ≠ OpPhantom) (p_entries p).
Hypothesis Hne : p_entries p ≠ [].
Hypothesis Hsmall : Forall (λ e, e_key e ≠ [] ∧ zlen (e_key e) <= kmax ∧ entry_need 0 e <= rmax) (p_entries p).
Hypothesis Hroom : 2 * rmax + 2 * kmax + 1 <= zlen (data n) - 2 * KV_META_SIZE.
Abbreviation es := (p_entries p).

Lemma root_prefix : prefix_len n = 0.
Proof. by rewrite (re_prefix _ _ HR), Hf. Qed.

Lemma root_usage : total_need 0 es <= zlen (data n) - 2 * KV_META_SIZE ∧ zlen (data n) < U16.
Proof.
  pose proof (page_usage n p HR) as Hu. rewrite root_prefix, Hf in Hu. pose proof (lo_rem _ _ (re_layout _ _ HR)).
  destruct (repr_page n p HR) as (Hs & Hd & _). cbn [fence_need] in Hu. unfold LEAF_HEADER, MAX_LEAF_PAGE_SIZE, U16 in *.
  split; [|lia]. unfold KV_META_SIZE in *. change (zlen (fence_key FInf)) with 0 in Hu. cbn [fence_key] in Hu. lia.
Qed.

(** The key of the split, and how it halves the records. *)
Lemma root_split_key :
  ∃ e, let j := lb (e_key e) es in
    es !! j = Some e ∧ get_split_key n false = Ret (e_key e, Z.of_nat j) ∧
    total_need 0 es <= 2 * (total_need 0 (take j es) + entry_need 0 e) + 1.
Proof.
  unfold get_split_key. rewrite (repr_meta_iter n p HR). ret_step. destruct root_usage as [Hu1 Hu2].
  assert (total_need 0 es < U16) as Htot by (unfold KV_META_SIZE in *; lia).
  rewrite (data_size_spec n p HR (p_recs p) 0) by (done || fold (p_entries p); lia). ret_step. fold (p_entries p).
  pose proof (total_need_pos es). rewrite Z.add_0_l.
  destruct (find_split_spec n p HR (total_need 0 es / 2) (p_recs p) 0 0) as (j & r & Hj & Hrun & H1 & _); [done| |lia| | |].
  { intros Hn. apply Hne. unfold p_entries. by rewrite Hn. }
  { fold (p_entries p). lia. }
  { fold (p_entries p). rewrite Z.add_0_l. apply Z.div_le_upper_bound; lia. }
  fold (p_entries p) in H1. assert (es !! j = Some (k_ent r)) as He by (unfold p_entries; by rewrite list_lookup_fmap, Hj).
  assert (lb (k_key r) es = j) as Hlb.
  { pose proof (lb_compare (k_key r) es j (k_ent r) (re_order _ _ HR) He) as Hc. unfold k_key in *. by rewrite cmp_refl in Hc. }
  exists (k_ent r). unfold k_key in Hlb. cbv zeta. rewrite Hlb. split; [done|]. split; [rewrite Hrun; do 2 f_equal; lia|].
  rewrite (take_S_r _ _ _ He), total_need_app in H1. cbn [total_need foldr] in H1.
  pose proof (Z.mod_pos_bound (total_need 0 es) 2). pose proof (Z.div_mod (total_need 0 es) 2). lia.
Qed.

(** Both halves have room for their records and the new fence. *)
Lemma root_halves_fit e :
  let j := lb (e_key e) es in
  es !! j = Some e → total_need 0 es <= 2 * (total_need 0 (take j es) + entry_need 0 e) + 1 →
  page_need [] (e_key e) (consolidated OpInsert true None (take j es)) <= zlen (data n) ∧
  page_need (e_key e) [] (consolidated OpInsert true None (drop j es)) <= zlen (data n).
Proof.
  intros j He Hbal. destruct root_usage as [Hu _]. destruct (Forall_lookup_1 _ _ _ _ Hsmall He) as (_ & Hk & Hr).
  assert (common_prefix_len (e_key e) [] = 0) as Hcp by by destruct (e_key e).
  assert (∀ l, total_need 0 (consolidated OpInsert true None l) <= total_need 0 l) as Hcn.
  { intros l. apply consolidated_need. apply Forall_true. intros x. pose proof (zlen_nonneg (e_key x)). lia. }
  pose proof (Hcn (take j es)). pose proof (Hcn (drop j es)).
  assert (total_need 0 es = total_need 0 (take j es) + total_need 0 (drop j es)) as Hsplit by by rewrite <- total_need_app, take_drop.
  assert (entry_need 0 e <= total_need 0 (drop j es)) as Hd.
  { rewrite (drop_S _ _ _ He), total_need_cons. pose proof (total_need_pos (drop (S j) es)). lia. }
  unfold page_need. rewrite Hcp. cbn [common_prefix_len]. change (zlen []) with 0.
  pose proof (zlen_nonneg (e_val e)). unfold entry_need, KV_META_SIZE in *. split; lia.
Qed.

(** The split follows the one at a given key. *)
Lemma split_at_key e sib version pages :
  let j := lb (e_key e) es in
  es !! j = Some e → get_split_key n false = Ret (e_key e, Z.of_nat j) → split_with_key n sib (e_key e) false version = Ret pages →
  LeafOps.split n sib false version = Ret (e_key e, pages.1, pages.2).
Proof.
  intros j He Hkey Hrun. unfold LeafOps.split. unfold split_with_key in Hrun.
  destruct (check_split_target n false) as [[]|]; [|done]. cbn [mbind outcome_bind] in Hrun |- *.
  rewrite (records_count n p FInf FInf HR Hf) in Hrun |- *. cbn [mbind outcome_bind] in Hrun |- *.
  rewrite Hkey. rewrite (kv_num_below_spec n p HR) in Hrun. cbn [mbind outcome_bind] in Hrun |- *.
  fold j in Hrun. destruct (subu _ _) as [cnt|]; [|done]. cbn [mbind outcome_bind negb] in Hrun |- *.
  unfold p_entries in He. rewrite list_lookup_fmap in He. destruct (p_recs p !! j) as [r|] eqn:Hr; [|done]. injection He as <-.
  assert (Z.of_nat (length (fence_slots (prefix_len n) (p_fences p)) + j) = FENCE_KEY_CNT + Z.of_nat j) as Hidx
    by (rewrite Hf; cbn [fence_slots length]; unfold FENCE_KEY_CNT; lia).
  rewrite <- Hidx, (repr_get n p HR j r Hr). ret_step.
  assert (not_infinite (s_meta (rec_slot (prefix_len n) r)) = true) as Hreal.
  { pose proof (rec_real (prefix_len n) r (repr_rec_ok n p HR j r Hr)) as H. rewrite leaf_real in H. exact H. }
  unfold not_infinite in Hreal. apply negb_true_iff, orb_false_iff in Hreal as [-> _]. rewrite assert_true by done. ret_step.
  rewrite (repr_full_key n p HR j r Hr). ret_step. change (e_key (k_ent r)) with (k_key r) in *.
  destruct (right_high_fence n) as [high|]; [|done]. cbn [mbind outcome_bind] in Hrun |- *.
  destruct (init_sibling _ _ _ _ _) as [s1|]; [|done]. cbn [mbind outcome_bind] in Hrun |- *.
  destruct (divide _ _ _ _ _ _ _) as [pages'|]; [|done]. cbn [mbind outcome_bind] in Hrun |- *.
  apply bind_Ret_inv in Hrun as (? & _ & Hrun). by injection Hrun as ->.
Qed.

(** The halves of the root leaf: two base pages that meet at the key of the split. *)
Lemma root_split_spec sib version :
  node_size (meta sib) = node_size (meta n) → zlen (data sib) = node_size (meta sib) - LEAF_HEADER → bytes_ok (data sib) →
  ∃ e left right pl pr l1 h1 l2 h2,
    e ∈ es ∧ LeafOps.split n sib false version = Ret (e_key e, left, right) ∧
    Repr left pl ∧ p_fences pl = Some (l1, h1) ∧ fence_key l1 = [] ∧ fence_key h1 = e_key e ∧
    p_entries pl = consolidated OpInsert true None (take (lb (e_key e) es) es) ∧
    Repr right pr ∧ p_fences pr = Some (l2, h2) ∧ fence_key l2 = e_key e ∧ fence_key h2 = [] ∧
    p_entries pr = consolidated OpInsert true None (drop (lb (e_key e) es) es) ∧
    fresh_header n (node_size (meta n)) (next_level n) version true false left ∧
    fresh_header sib (node_size (meta n)) next_level_null version true false right ∧
    zlen (data n) - page_need [] (e_key e) (p_entries pl) <= remaining_size (meta left) ∧
    zlen (data n) - page_need (e_key e) [] (p_entries pr) <= remaining_size (meta right).
Proof.
  intros Hs1 Hs2 Hs3. destruct root_split_key as (e & He & Hkey & Hbal).
  destruct (root_halves_fit e He Hbal) as [Hl Hr]. destruct (Forall_lookup_1 _ _ _ _ Hsmall He) as (Hk0 & _).
  assert (in_range (p_fences p) (e_key e)) as Hin by by rewrite Hf.
  pose proof (Forall_lookup_1 _ _ _ _ (entries_ok n p HR) He) as (Hk14 & _ & Hkb & _).
  destruct (split_with_key_repr n p FInf FInf HR Hf (e_key e) version Hbase Hphantom Hin Hk0 Hk14 Hkb Hl Hr sib Hs1 Hs2 Hs3)
    as (left & right & pl & pr & l1 & h1 & l2 & h2 & Hsplit & H1 & H2 & H3 & H4 & H5 & H6 & H7 & H8 & H9 & H10 & H11 & H12 & H13 & H14).
  exists e, left, right, pl, pr, l1, h1, l2, h2. split; [by eapply list_elem_of_lookup_2|].
  split; [by eapply (split_at_key e sib version (left, right))|]. by split_and!.
Qed.
End root.
