(* ===== verification/InnerNode.v ===== *)
(** Inner nodes (src/nodes/inner_node.rs): the descriptors, the node, its operations and
    its builder, as executable definitions.

    The structure of the node is the source's: a header, a lock word, a disk offset, a
    version word and the page bytes behind them.  A raw pointer access is a read or
    write of the byte list that panics outside of it. *)
From stdpp Require Import base numbers list option.
From Stdlib Require Import ZArith Lia.
From S2P Require Import Prelude Bits NodeMeta.

Definition INVALID_DISK_OFFSET : Z := 2 ^ 64 - 1.
Definition INNER_NODE_ROOT_FLAG : Z := 0x8000000000000000.
Definition INNER_NODE_SNAPSHOT_VERSION_MASK : Z := 0x7FFFFFFFFFFFFFFF.

(** [size_of::<InnerNode>()] and [size_of::<PageID>()]. *)
Definition INNER_HEADER : Z := 32.
Definition PAGE_ID_SIZE : Z := 8.

(** ** InnerKVMeta *)
Definition KEY_LOOK_AHEAD_SIZE : Z := 4.

Record InnerKVMeta := mkInnerKVMeta {
  offset : Z;
  key_len : Z;
  key_prefix : bytes;
}.

(** The [repr(C)] image of a descriptor. *)
Definition encode_meta (m : InnerKVMeta) : bytes :=
  le_bytes 2 (offset m) ++ le_bytes 2 (key_len m) ++ key_prefix m.

Definition decode_meta (raw : bytes) : InnerKVMeta :=
  mkInnerKVMeta (le_val (sub_bytes raw 0 2)) (le_val (sub_bytes raw 2 2)) (sub_bytes raw 4 4).

Definition make_prefixed_meta (key : bytes) (off : Z) : InnerKVMeta :=
  let min_len := Z.min (zlen key) KEY_LOOK_AHEAD_SIZE in
  mkInnerKVMeta off (as_u16 (zlen key))
    (splice [0; 0; 0; 0] 0 (take (Z.to_nat min_len) key)).

(** ** InnerNode *)
Record InnerNode := mkInnerNode {
  meta : NodeMeta;
  version_lock : Z;
  disk_offset : Z;
  snapshot_version : Z;
  data : bytes;
}.

Definition set_data (n : InnerNode) (d : bytes) : InnerNode :=
  mkInnerNode (meta n) (version_lock n) (disk_offset n) (snapshot_version n) d.

Definition set_meta (n : InnerNode) (m : NodeMeta) : InnerNode :=
  mkInnerNode m (version_lock n) (disk_offset n) (snapshot_version n) (data n).

Definition set_disk_offset (n : InnerNode) (off : Z) : InnerNode :=
  mkInnerNode (meta n) (version_lock n) off (snapshot_version n) (data n).

Definition set_version_word (n : InnerNode) (v : Z) : InnerNode :=
  mkInnerNode (meta n) (version_lock n) (disk_offset n) v (data n).

Definition set_lock (n : InnerNode) (v : Z) : InnerNode :=
  mkInnerNode (meta n) v (disk_offset n) (snapshot_version n) (data n).

Definition count (n : InnerNode) : Z := meta_count_with_fence (meta n).

Definition max_data_size : Z := INNER_NODE_SIZE - INNER_HEADER.

Definition get_kv_meta (n : InnerNode) (index : Z) : outcome InnerKVMeta :=
  raw ← slice (data n) (index * KV_META_SIZE) KV_META_SIZE;
  Ret (decode_meta raw).

Definition min_offset_step (n : InnerNode) (acc i : Z) : outcome Z :=
  m ← get_kv_meta n i; Ret (Z.min acc (offset m)).

Definition current_lowest_offset (n : InnerNode) : outcome Z :=
  let value_count := count n in
  s ← mul16 value_count KV_META_SIZE;
  rt ← add16 s (remaining_size (meta n));
  min_offset ← foldM (min_offset_step n) (as_u16 max_data_size) (seqZ 0 value_count);
  _ ← assert_ (min_offset =? rt);
  Ret rt.

(** ** The version word: a root flag and a snapshot version *)
Definition get_clean_snapshot_version (n : InnerNode) : Z :=
  Z.land (snapshot_version n) INNER_NODE_SNAPSHOT_VERSION_MASK.

Definition set_snapshot_version (n : InnerNode) (v : Z) : outcome InnerNode :=
  _ ← assert_ (Z.land v INNER_NODE_ROOT_FLAG =? 0);
  let root_flag := Z.land (snapshot_version n) INNER_NODE_ROOT_FLAG in
  Ret (set_version_word n (Z.lor (Z.land v INNER_NODE_SNAPSHOT_VERSION_MASK) root_flag)).

Definition is_root (n : InnerNode) : bool := flag_set (snapshot_version n) INNER_NODE_ROOT_FLAG.

Definition set_root (n : InnerNode) (root : bool) : InnerNode :=
  set_version_word n
    (if root then Z.lor (snapshot_version n) INNER_NODE_ROOT_FLAG
     else Z.land (snapshot_version n) INNER_NODE_SNAPSHOT_VERSION_MASK).

(** ** Reading *)

(** [(len as usize).saturating_sub(KEY_LOOK_AHEAD_SIZE)] *)
Definition post_len (len : Z) : Z := Z.max 0 (len - KEY_LOOK_AHEAD_SIZE).

Definition get_post_key_ref (n : InnerNode) (m : InnerKVMeta) : outcome bytes :=
  raw_read (data n) (offset m) (post_len (key_len m)).

Definition prefix_span (m : InnerKVMeta) : outcome bytes :=
  slice_to (key_prefix m) (Z.min KEY_LOOK_AHEAD_SIZE (key_len m)).

Definition get_full_key (n : InnerNode) (m : InnerKVMeta) : outcome bytes :=
  post ← raw_read (data n) (offset m) (post_len (key_len m));
  pre ← prefix_span m;
  Ret (pre ++ post).

Definition get_value (n : InnerNode) (m : InnerKVMeta) : outcome PageID :=
  raw ← slice (data n) (offset m + post_len (key_len m)) PAGE_ID_SIZE;
  Ret (from_raw (le_val raw)).

Definition key_compare (n : InnerNode) (key : bytes) (m : InnerKVMeta) : outcome comparison :=
  let cut := Z.min KEY_LOOK_AHEAD_SIZE (zlen key) in
  search_key_prefix ← slice_to key cut;
  search_key_postfix ← slice_from key cut;
  prefix_key ← prefix_span m;
  match cmp_bytes prefix_key search_key_prefix with
  | Eq => rest_key ← get_post_key_ref n m; Ret (cmp_bytes rest_key search_key_postfix)
  | c => Ret c
  end.

(** The comparison inside [lower_bound]: the record is read only when the prefixes agree
    and one of the keys goes on. *)
Definition search_compare (n : InnerNode) (search_key_prefix search_key_postfix : bytes)
    (m : InnerKVMeta) : outcome comparison :=
  prefix_key ← prefix_span m;
  match cmp_bytes prefix_key search_key_prefix with
  | Eq =>
      if (KEY_LOOK_AHEAD_SIZE <? key_len m) || negb (zlen search_key_postfix =? 0)
      then rest_key ← get_post_key_ref n m; Ret (cmp_bytes rest_key search_key_postfix)
      else Ret Eq
  | c => Ret c
  end.

Fixpoint search (n : InnerNode) (prefix postfix : bytes) (lower upper : Z) (fuel : nat) :
    outcome Z :=
  match fuel with
  | O => Panic
  | S fuel' =>
      if lower <? upper then
        let mid := lower + (upper - lower) / 2 in
        m ← get_kv_meta n mid;
        c ← search_compare n prefix postfix m;
        match c with
        | Gt => search n prefix postfix lower mid fuel'
        | Eq => Ret mid
        | Lt => search n prefix postfix (mid + 1) upper fuel'
        end
      else subu lower 1
  end.

Definition lower_bound (n : InnerNode) (key : bytes) : outcome Z :=
  let cut := Z.min KEY_LOOK_AHEAD_SIZE (zlen key) in
  search_key_prefix ← slice_to key cut;
  search_key_postfix ← slice_from key cut;
  search n search_key_prefix search_key_postfix 1 (count n) (S (Z.to_nat (count n))).

(** ** Initialisation *)
Definition write_meta (n : InnerNode) (pos : Z) (m : InnerKVMeta) : outcome InnerNode :=
  d ← blit (data n) (pos * KV_META_SIZE) (encode_meta m); Ret (set_data n d).

Definition write_page_id (n : InnerNode) (off : Z) (p : PageID) : outcome InnerNode :=
  d ← blit (data n) off (le_bytes 8 (pid_raw p)); Ret (set_data n d).

(** [remaining_size -= len] and [increment_value_count]. *)
Definition take_space (n : InnerNode) (len : Z) : outcome InnerNode :=
  r ← subu (remaining_size (meta n)) len;
  m ← increment_value_count (set_remaining (meta n) r);
  Ret (set_meta n m).

Definition reinitialize (n : InnerNode) (left_most_page_id : PageID) (is_leaf : bool)
    (off : Z) : outcome InnerNode :=
  m ← NodeMeta_new (as_u16 max_data_size) is_leaf false (as_u16 INNER_NODE_SIZE) false;
  let n1 := set_disk_offset (set_meta n m) off in
  low ← current_lowest_offset n1;
  o ← subu low PAGE_ID_SIZE;
  n2 ← write_meta n1 0 (mkInnerKVMeta o 0 [0; 0; 0; 0]);
  n3 ← write_page_id n2 o left_most_page_id;
  take_space n3 (PAGE_ID_SIZE + KV_META_SIZE).

(** ** Insertion *)

(** [max(key.len(), KEY_LOOK_AHEAD_SIZE) - KEY_LOOK_AHEAD_SIZE], and the space of a
    record with its descriptor. *)
Definition post_key_len (key : bytes) : Z :=
  Z.max (zlen key) KEY_LOOK_AHEAD_SIZE - KEY_LOOK_AHEAD_SIZE.
Definition required_len (key : bytes) : Z := post_key_len key + PAGE_ID_SIZE + KV_META_SIZE.

Definition have_space_for (n : InnerNode) (key : bytes) : bool :=
  as_u16 (required_len key) <=? remaining_size (meta n).

(** The new record: descriptors shifted, descriptor, key bytes and child written. *)
Definition insert_new (n : InnerNode) (key : bytes) (child : PageID) (new_meta : InnerKVMeta) :
    outcome InnerNode :=
  lb ← lower_bound n key;
  let pos := lb + 1 in
  k ← subu (count n) pos;
  src ← slice (data n) (pos * KV_META_SIZE) (KV_META_SIZE * k);
  d1 ← blit (data n) ((pos + 1) * KV_META_SIZE) src;
  n2 ← write_meta (set_data n d1) pos new_meta;
  post ← raw_read key KEY_LOOK_AHEAD_SIZE (post_key_len key);
  d3 ← blit (data n2) (offset new_meta) post;
  n4 ← write_page_id (set_data n2 d3) (offset new_meta + post_key_len key) child;
  take_space n4 (as_u16 (required_len key)).

(** The descriptor at [pos] when it is there and holds [key]. *)
Definition find_existing (n : InnerNode) (key : bytes) (pos : Z) : outcome (option InnerKVMeta) :=
  if (0 <? pos) && (pos <? count n)
  then m ← get_kv_meta n pos;
       c ← key_compare n key m;
       Ret (match c with Eq => Some m | _ => None end)
  else Ret None.

Definition insert (n : InnerNode) (key : bytes) (child : PageID) : outcome (bool * InnerNode) :=
  let kv_len := post_key_len key + PAGE_ID_SIZE in
  if remaining_size (meta n) <? as_u16 (required_len key) then Ret (false, n)
  else
    low ← current_lowest_offset n;
    off ← subu low (as_u16 kv_len);
    let new_meta := make_prefixed_meta key off in
    pos ← lower_bound n key;
    existing ← find_existing n key pos;
    match existing with
    | Some m => n' ← write_page_id n (offset m + post_key_len key) child; Ret (true, n')
    | None => n' ← insert_new n key child new_meta; Ret (true, n')
    end.

(** ** Consolidation and splitting *)
Definition read_pair (n : InnerNode) (i : Z) : outcome (bytes * PageID) :=
  m ← get_kv_meta n i; k ← get_full_key n m; v ← get_value n m; Ret (k, v).

(** The result of the insertion is not looked at. *)
Definition reinsert (n : InnerNode) (kv : bytes * PageID) : outcome InnerNode :=
  r ← insert n kv.1 kv.2; Ret r.2.

Definition consolidate (n : InnerNode) (version : Z) : outcome InnerNode :=
  pairs ← mapM (read_pair n) (seqZ 1 (count n - 1));
  m0 ← get_kv_meta n 0;
  left_most_page_id ← get_value n m0;
  n1 ← reinitialize n left_most_page_id (children_is_leaf (meta n)) (disk_offset n);
  n2 ← set_snapshot_version n1 version;
  foldM reinsert n2 pairs.

Definition get_split_key (n : InnerNode) : outcome bytes :=
  m ← get_kv_meta n (count n - count n / 2); get_full_key n m.

Definition update_at_pos (n : InnerNode) (pos : Z) (new_id : PageID) : outcome InnerNode :=
  m ← get_kv_meta n (as_u16 pos);
  let post := Z.max (key_len m) KEY_LOOK_AHEAD_SIZE - KEY_LOOK_AHEAD_SIZE in
  write_page_id n (offset m + post) new_id.

Definition update (n : InnerNode) (key : bytes) (new_id : PageID) : outcome InnerNode :=
  _ ← assert_ (negb (is_inner_node_pointer new_id));
  pos ← lower_bound n key;
  update_at_pos n pos new_id.

(** ** Iterators and statistics *)
Definition key_iter (n : InnerNode) : outcome (list bytes) :=
  mapM (λ i, m ← get_kv_meta n (as_u16 i); get_full_key n m) (seqZ 0 (count n)).

Definition get_child_iter (n : InnerNode) : outcome (list PageID) :=
  mapM (λ i, m ← get_kv_meta n (as_u16 i); get_value n m) (seqZ 0 (count n)).

Record InnerStats := mkInnerStats {
  child_keys : list bytes;
  child_id : list PageID;
  child_is_leaf : bool;
}.

Definition get_stats (n : InnerNode) : outcome InnerStats :=
  keys ← key_iter n; ids ← get_child_iter n;
  Ret (mkInnerStats keys ids (children_is_leaf (meta n))).

Definition is_valid_disk_offset (n : InnerNode) : bool :=
  negb (disk_offset n =? INVALID_DISK_OFFSET).

(** ** The node as bytes.  [repr(C)] leaves two bytes of padding after the header word;
    their value is an argument. *)
Definition as_slice (pad : bytes) (n : InnerNode) : bytes :=
  le_bytes 2 (encoded (meta n)) ++ le_bytes 2 (node_size (meta n)) ++
  le_bytes 2 (remaining_size (meta n)) ++ pad ++ le_bytes 8 (version_lock n) ++
  le_bytes 8 (disk_offset n) ++ le_bytes 8 (snapshot_version n) ++ data n.

Definition node_of_bytes (raw : bytes) : InnerNode :=
  mkInnerNode
    (mkNodeMeta (le_val (sub_bytes raw 0 2)) (le_val (sub_bytes raw 2 2))
       (le_val (sub_bytes raw 4 2)))
    (le_val (sub_bytes raw 8 8)) (le_val (sub_bytes raw 16 8)) (le_val (sub_bytes raw 24 8))
    (sub_bytes raw 32 (INNER_NODE_SIZE - INNER_HEADER)).

(** ** InnerNodeBuilder: [raw_node] is the allocated memory behind [raw_ptr]. *)
Record InnerNodeBuilder := mkInnerNodeBuilder {
  left_most_page_id : option PageID;
  b_children_is_leaf : option bool;
  b_disk_offset : option Z;
  records : list (bytes * PageID);
  raw_ptr : Z;
  raw_node : InnerNode;
}.

Definition builder_new (ptr : Z) (memory : InnerNode) : InnerNodeBuilder :=
  mkInnerNodeBuilder None None None [] ptr memory.

Definition set_left_most_page_id (b : InnerNodeBuilder) (p : PageID) : InnerNodeBuilder :=
  mkInnerNodeBuilder (Some p) (b_children_is_leaf b) (b_disk_offset b) (records b)
    (raw_ptr b) (raw_node b).

Definition set_children_is_leaf (b : InnerNodeBuilder) (is_leaf : bool) : InnerNodeBuilder :=
  mkInnerNodeBuilder (left_most_page_id b) (Some is_leaf) (b_disk_offset b) (records b)
    (raw_ptr b) (raw_node b).

Definition builder_set_disk_offset (b : InnerNodeBuilder) (off : Z) : InnerNodeBuilder :=
  mkInnerNodeBuilder (left_most_page_id b) (b_children_is_leaf b) (Some off) (records b)
    (raw_ptr b) (raw_node b).

Definition add_record (b : InnerNodeBuilder) (key : bytes) (value : PageID) : InnerNodeBuilder :=
  mkInnerNodeBuilder (left_most_page_id b) (b_children_is_leaf b) (b_disk_offset b)
    (records b ++ [(key, value)]) (raw_ptr b) (raw_node b).

Definition get_page_id (b : InnerNodeBuilder) : PageID := from_pointer (raw_ptr b).

Definition build_insert (n : InnerNode) (kv : bytes * PageID) : outcome InnerNode :=
  r ← insert n kv.1 kv.2; _ ← assert_ r.1; Ret r.2.

Definition build (b : InnerNodeBuilder) (version : Z) : outcome InnerNode :=
  let off := default INVALID_DISK_OFFSET (b_disk_offset b) in
  let n0 := set_version_word (set_lock (raw_node b) 0) 0 in
  left ← unwrap (left_most_page_id b);
  is_leaf ← unwrap (b_children_is_leaf b);
  n1 ← reinitialize n0 left is_leaf off;
  n2 ← foldM build_insert n1 (records b);
  set_snapshot_version n2 version.

Definition build_from_slice (b : InnerNodeBuilder) (raw : bytes) : outcome InnerNode :=
  image ← slice raw 0 INNER_NODE_SIZE;
  Ret (set_lock (node_of_bytes image) 0).

Definition split_step (n : InnerNode) (new_node_count : Z) (b : InnerNodeBuilder) (i : Z) :
    outcome InnerNodeBuilder :=
  kv ← read_pair n (new_node_count + i); Ret (add_record b kv.1 kv.2).

(** Moves the upper half of the children to the builder and rebuilds the lower half in
    place; returns the separator as well. *)
Definition split (n : InnerNode) (new_node : InnerNodeBuilder) (version : Z) :
    outcome (bytes * InnerNode * InnerNodeBuilder) :=
  let current_count := count n in
  let sibling_node_count := current_count / 2 in
  let new_node_count := current_count - sibling_node_count in
  rt_meta ← get_kv_meta n new_node_count;
  split_key ← get_full_key n rt_meta;
  split_value ← get_value n rt_meta;
  let b1 := set_left_most_page_id
              (set_children_is_leaf new_node (children_is_leaf (meta n))) split_value in
  b2 ← foldM (split_step n new_node_count) b1 (seqZ 1 (sibling_node_count - 1));
  n' ← consolidate (set_meta n (set_value_count (meta n) new_node_count)) version;
  Ret (split_key, n', b2).
