(* ===== verification/InnerRepr.v ===== *)
(** What an inner node (InnerNode.v) represents: a left-most child and a sorted list of
    separators with their children.  [IRepr n r0 rs] lays these out as the slots of
    PageLayout.v; the readers of the node return the slots' contents. *)
From stdpp Require Import base numbers list option sorting.
From Stdlib Require Import ZArith Lia.
From S2P Require Import Prelude Bits NodeMeta PageLayout InnerNode.

(** ** The abstract node *)
Abbreviation separators := (list (bytes * PageID)).

(** The child whose subtree holds [key]. *)
Fixpoint route (left : PageID) (kvs : separators) (key : bytes) : PageID :=
  match kvs with
  | [] => left
  | (k, c) :: kvs' =>
      match cmp_bytes k key with Gt => left | _ => route c kvs' key end
  end.

(** Insertion into sorted separators; an equal separator keeps its place. *)
Fixpoint put (key : bytes) (child : PageID) (kvs : separators) : separators :=
  match kvs with
  | [] => [(key, child)]
  | (k, c) :: kvs' =>
      match cmp_bytes k key with
      | Lt => (k, c) :: put key child kvs'
      | Eq => (k, child) :: kvs'
      | Gt => (key, child) :: kvs
      end
  end.

(** The number of separators not above [key]. *)
Fixpoint rank (key : bytes) (kvs : separators) : nat :=
  match kvs with
  | [] => O
  | (k, _) :: kvs' => match cmp_bytes k key with Gt => O | _ => S (rank key kvs') end
  end.

Definition sorted (kvs : separators) : Prop := StronglySorted bytes_lt (map fst kvs).

Section spec.
Implicit Types (kvs : separators) (key : bytes) (c : PageID).

Lemma rank_length key kvs : (rank key kvs <= length kvs)%nat.
Proof. induction kvs as [|[k c] kvs IH]; cbn; [lia|]. destruct (cmp_bytes k key); lia. Qed.

(** On sorted separators the rank is where the comparison changes. *)
Lemma rank_unique key kvs m :
  (m <= length kvs)%nat →
  (∀ i k c, kvs !! i = Some (k, c) → (i < m)%nat → cmp_bytes k key ≠ Gt) →
  (∀ k c, kvs !! m = Some (k, c) → cmp_bytes k key = Gt) →
  rank key kvs = m.
Proof.
  revert m. induction kvs as [|[k c] kvs IH]; intros m Hm Hlo Hhi; cbn in *; [lia|].
  destruct m as [|m]; [by rewrite (Hhi k c)|].
  pose proof (Hlo 0%nat k c eq_refl ltac:(lia)) as H0.
  assert (rank key kvs = m) as Hr.
  { apply IH; [lia| |apply Hhi]. intros i k' c' Hi Hlt. apply (Hlo (S i) k' c'); [done|lia]. }
  rewrite Hr. by destruct (cmp_bytes k key).
Qed.

Lemma sorted_lookup kvs i j k c k' c' :
  sorted kvs → kvs !! i = Some (k, c) → kvs !! j = Some (k', c') → (i < j)%nat → bytes_lt k k'.
Proof.
  unfold sorted. revert i j. induction kvs as [|[k0 c0] kvs IH]; intros i j Hs Hi Hj Hij; [done|].
  cbn in Hs. apply StronglySorted_inv in Hs as [Hs Hf]. destruct j as [|j]; [lia|].
  destruct i as [|i]; cbn in Hi, Hj; [|apply (IH i j); auto; lia].
  simplify_eq. rewrite Forall_forall in Hf. apply Hf.
  apply list_elem_of_fmap. exists (k', c'). split; [done|]. by eapply list_elem_of_lookup_2.
Qed.

Lemma route_rank left kvs key :
  route left kvs key = default left (snd <$> (((@nil Z), left) :: kvs) !! rank key kvs).
Proof.
  revert left. induction kvs as [|[k c] kvs IH]; intros left; [done|]. cbn [route rank].
  destruct (cmp_bytes k key); [| |done]; rewrite (IH c); cbn [lookup list_lookup];
    destruct (rank key kvs) eqn:E; try done; cbn;
    by destruct (kvs !! n) eqn:E2;
      [|apply lookup_ge_None in E2; pose proof (rank_length key kvs); lia].
Qed.

Lemma rank_split key kvs m k c :
  rank key kvs = m → kvs !! m = Some (k, c) → cmp_bytes k key = Gt.
Proof.
  intros <-. induction kvs as [|[k0 c0] kvs IH]; cbn; [done|].
  destruct (cmp_bytes k0 key) eqn:E; cbn; auto. by intros [= -> ->].
Qed.

Lemma rank_below key kvs i k c :
  kvs !! i = Some (k, c) → (i < rank key kvs)%nat → cmp_bytes k key ≠ Gt.
Proof.
  revert i. induction kvs as [|[k0 c0] kvs IH]; intros i; cbn; [done|].
  destruct (cmp_bytes k0 key) eqn:E; [..|lia]; (destruct i as [|i]; cbn;
    [intros [= -> ->]; congruence | intros; apply (IH i); auto; lia]).
Qed.

Lemma rank_zero_notin key kvs : sorted kvs → rank key kvs = O → key ∉ map fst kvs.
Proof.
  unfold sorted. destruct kvs as [|[k c] kvs]; cbn; [intros; apply not_elem_of_nil|].
  intros [_ Hf]%StronglySorted_inv Hr Hin. destruct (cmp_bytes k key) eqn:E; try done.
  apply elem_of_cons in Hin as [->|Hin]; [by rewrite cmp_refl in E|].
  rewrite Forall_forall in Hf. apply Hf in Hin. unfold bytes_lt in Hin. congruence.
Qed.

Lemma rank_lt_notin key kvs i k c :
  sorted kvs → rank key kvs = S i → kvs !! i = Some (k, c) → bytes_lt k key → key ∉ map fst kvs.
Proof.
  intros Hs Hr Hi Hlt (j & Hj)%list_elem_of_lookup. rewrite list_lookup_fmap in Hj.
  destruct (kvs !! j) as [[k' c']|] eqn:Ej; [|done]. cbn in Hj. injection Hj as ->.
  destruct (decide (j <= i)%nat) as [Hle|Hgt].
  - destruct (decide (j = i)) as [->|]; [simplify_eq; by apply bytes_lt_irrefl in Hlt|].
    pose proof (sorted_lookup kvs j i _ _ _ _ Hs Ej Hi ltac:(lia)) as Hji.
    apply (bytes_lt_irrefl key). by eapply cmp_lt_trans.
  - destruct (lookup_lt_is_Some_2 kvs (S i)) as [[k1 c1] Hk1].
    { apply lookup_lt_Some in Ej. lia. }
    pose proof (rank_split key kvs (S i) k1 c1 Hr Hk1) as Hgt1. apply cmp_gt_lt in Hgt1.
    destruct (decide (j = S i)) as [->|]; [simplify_eq; by apply bytes_lt_irrefl in Hgt1|].
    pose proof (sorted_lookup kvs (S i) j _ _ _ _ Hs Hk1 Ej ltac:(lia)) as H1.
    apply (bytes_lt_irrefl key). by eapply cmp_lt_trans.
Qed.

(** The separator at the rank's end is the only one that can equal the key. *)
Lemma put_existing key child kvs i c :
  sorted kvs → kvs !! i = Some (key, c) → put key child kvs = <[i:=(key, child)]> kvs.
Proof.
  unfold sorted. revert i. induction kvs as [|[k0 c0] kvs IH]; intros i Hs Hi; [done|].
  cbn in Hs. apply StronglySorted_inv in Hs as [Hs Hf]. destruct i as [|i]; cbn in Hi.
  - simplify_eq. cbn. by rewrite cmp_refl.
  - cbn. rewrite Forall_forall in Hf.
    assert (bytes_lt k0 key) as ->; [|f_equal; by apply IH]. apply Hf.
    apply list_elem_of_fmap. exists (key, c). split; [done|]. by eapply list_elem_of_lookup_2.
Qed.

Lemma put_new key child kvs :
  sorted kvs → key ∉ map fst kvs → put key child kvs = insert_at (rank key kvs) (key, child) kvs.
Proof.
  unfold sorted, insert_at. induction kvs as [|[k0 c0] kvs IH]; intros Hs Hn; [done|].
  cbn in *. apply StronglySorted_inv in Hs as [Hs Hf]. apply not_elem_of_cons in Hn as [Hne Hn].
  destruct (cmp_bytes k0 key) eqn:E; [by apply cmp_eq in E as ->| |done].
  cbn. f_equal. by apply IH.
Qed.

Lemma put_keys key child kvs k : k ∈ map fst (put key child kvs) ↔ k = key ∨ k ∈ map fst kvs.
Proof.
  induction kvs as [|[k0 c0] kvs IH]; cbn.
  - rewrite list_elem_of_singleton, elem_of_nil. tauto.
  - destruct (cmp_bytes k0 key) eqn:E; cbn; rewrite ?elem_of_cons, ?IH; try tauto.
    apply cmp_eq in E as ->. tauto.
Qed.

Lemma put_sorted key child kvs : sorted kvs → sorted (put key child kvs).
Proof.
  unfold sorted. induction kvs as [|[k0 c0] kvs IH]; intros Hs; cbn in *;
    [constructor; constructor|].
  pose proof Hs as Hs0. apply StronglySorted_inv in Hs as [Hs Hf].
  destruct (cmp_bytes k0 key) eqn:E; cbn.
  - done.
  - constructor; [by apply IH|]. apply Forall_forall. intros k Hk.
    apply put_keys in Hk as [->|Hk]; [done|]. rewrite Forall_forall in Hf. by apply Hf.
  - constructor; [done|]. apply cmp_gt_lt in E. constructor; [done|].
    eapply Forall_impl; [exact Hf|]. intros k Hk. by eapply cmp_lt_trans.
Qed.

(** Splitting at a separator: keys below it go left, the others go right. *)
Lemma route_app left kvs1 sk c kvs2 key :
  sorted (kvs1 ++ (sk, c) :: kvs2) →
  route left (kvs1 ++ (sk, c) :: kvs2) key =
    match cmp_bytes sk key with Gt => route left kvs1 key | _ => route c kvs2 key end.
Proof.
  unfold sorted. revert left. induction kvs1 as [|[k0 c0] kvs1 IH]; intros left Hs; cbn in *; [done|].
  apply StronglySorted_inv in Hs as [Hs Hf]. rewrite Forall_forall in Hf.
  assert (bytes_lt k0 sk) as Hlt.
  { apply Hf. rewrite map_app. apply elem_of_app. right. left. }
  rewrite (IH c0 Hs). destruct (cmp_bytes k0 key) eqn:E; try done.
  destruct (cmp_bytes sk key) eqn:E2; [apply cmp_eq in E2 as ->| |done].
  - unfold bytes_lt in Hlt. congruence.
  - apply cmp_gt_lt in E. pose proof (cmp_lt_trans _ _ _ E2 E) as Hks.
    unfold bytes_lt in *. pose proof (cmp_lt_trans _ _ _ Hks Hlt) as Hbad.
    by apply bytes_lt_irrefl in Hbad.
Qed.
End spec.

(** ** Descriptors *)
#[export] Instance inner_descriptor : Descriptor InnerKVMeta := {|
  d_off := offset; d_real := λ _, true; d_enc := encode_meta; d_dec := decode_meta;
  d_real_off := λ _ _ _, eq_refl |}.

(** A child with the offset of its record. *)
Record irec := mkIrec { ir_key : bytes; ir_child : PageID; ir_off : Z }.

Definition ir_body (r : irec) : bytes := drop 4 (ir_key r) ++ le_bytes 8 (pid_value (ir_child r)).

Definition ir_slot (r : irec) : slot InnerKVMeta :=
  mkSlot (make_prefixed_meta (ir_key r) (ir_off r)) (ir_body r).

Definition pid_ok (p : PageID) : Prop := 0 <= pid_value p < 2 ^ 64.

Lemma from_id_ok id : 0 <= id < 2 ^ 62 → pid_ok (from_id id).
Proof.
  intros H. unfold pid_ok, from_id. cbn [pid_value PageID_new]. change ID_MASK with (2 ^ 62).
  rewrite <- (Z.mul_1_l (2 ^ 62)), lor_low_comm by lia. lia.
Qed.

Lemma from_pointer_ok ptr : 0 <= ptr < 2 ^ 62 → pid_ok (from_pointer ptr).
Proof. unfold pid_ok. cbn. lia. Qed.

Definition ikey_ok (k : bytes) : Prop := bytes_ok k ∧ zlen k < U16.

Definition irec_ok (r : irec) : Prop :=
  ikey_ok (ir_key r) ∧ pid_ok (ir_child r) ∧ 0 <= ir_off r < U16.

Definition ir_pair (r : irec) : bytes * PageID := (ir_key r, ir_child r).

Record IRepr (n : InnerNode) (r0 : irec) (rs : list irec) : Prop := {
  ir_layout : PLayout (meta n) (data n) (map ir_slot (r0 :: rs));
  ir_dummy : ir_key r0 = [];
  ir_ok : Forall irec_ok (r0 :: rs);
  ir_sorted : sorted (map ir_pair rs);
  ir_node : node_size (meta n) = INNER_NODE_SIZE;
}.

Section descriptors.
Implicit Types (r : irec) (k key : bytes).

Lemma prefix_eq k off :
  key_prefix (make_prefixed_meta k off) = take 4 k ++ replicate (4 - length k) 0.
Proof.
  cbn [make_prefixed_meta key_prefix]. unfold KEY_LOOK_AHEAD_SIZE, zlen, splice.
  replace (Z.to_nat (Z.min (Z.of_nat (length k)) 4)) with (Nat.min 4 (length k)) by lia.
  rewrite take_min_length. cbn [take app].
  destruct k as [|a [|b [|c [|e k]]]]; done.
Qed.

Lemma prefix_length k off : zlen (key_prefix (make_prefixed_meta k off)) = 4.
Proof. rewrite prefix_eq. unfold zlen. rewrite length_app, length_take, length_replicate. lia. Qed.

Lemma ir_meta_wf r : irec_ok r → meta_wf (s_meta (ir_slot r)).
Proof.
  intros ((Hk & Hlen) & _ & Ho). pose proof (prefix_length (ir_key r) (ir_off r)) as Hp.
  unfold meta_wf, ir_slot. cbn [s_meta d_enc d_dec inner_descriptor].
  assert (bytes_ok (key_prefix (make_prefixed_meta (ir_key r) (ir_off r)))) as Hb.
  { rewrite prefix_eq. apply Forall_app_2; [by apply Forall_take|].
    apply Forall_replicate. unfold byte_ok. lia. }
  set (m := make_prefixed_meta _ _) in *. unfold U16 in *.
  assert (0 <= key_len m < 65536) as Hkl.
  { unfold m. cbn [key_len make_prefixed_meta]. unfold as_u16, U16. apply Z.mod_pos_bound. lia. }
  assert (offset m = ir_off r) as Hoff by done. split_and!.
  - unfold decode_meta, encode_meta. destruct m as [o kl kp]. cbn [offset key_len key_prefix] in *.
    unfold sub_bytes. change (Z.to_nat 0) with 0%nat. change (Z.to_nat 2) with 2%nat.
    change (Z.to_nat 4) with 4%nat. rewrite drop_0.
    assert (∀ z, length (le_bytes 2 z) = 2%nat) as H2 by (intros; apply length_le_bytes).
    assert (∀ z, 0 <= z < 65536 → le_val (le_bytes 2 z) = z) as Hle by (intros; by apply le_val_bytes).
    f_equal.
    + rewrite take_app_length' by by rewrite H2. apply Hle. lia.
    + rewrite drop_app_length', take_app_length' by by rewrite H2. by apply Hle.
    + rewrite app_assoc, drop_app_length' by by rewrite length_app, !H2.
      apply take_ge. unfold zlen in Hp. lia.
  - unfold encode_meta. rewrite !zlen_app, Hp. unfold zlen. by rewrite !length_le_bytes.
  - apply Forall_app_2; [apply bytes_ok_le|]. apply Forall_app_2; [apply bytes_ok_le|done].
Qed.

Lemma ir_body_len r : zlen (ir_body r) = post_key_len (ir_key r) + PAGE_ID_SIZE.
Proof.
  unfold ir_body, post_key_len, PAGE_ID_SIZE, KEY_LOOK_AHEAD_SIZE, zlen.
  rewrite length_app, length_drop, length_le_bytes. lia.
Qed.

Lemma ir_key_len r : irec_ok r → key_len (s_meta (ir_slot r)) = zlen (ir_key r).
Proof.
  intros ((_ & ?) & _). cbn. apply as_u16_id. pose proof (zlen_nonneg (ir_key r)). lia.
Qed.

Lemma post_len_key k : post_len (zlen k) = post_key_len k.
Proof. unfold post_len, post_key_len, KEY_LOOK_AHEAD_SIZE. pose proof (zlen_nonneg k). lia. Qed.

Lemma ir_prefix_span r :
  irec_ok r → prefix_span (s_meta (ir_slot r)) = Ret (take 4 (ir_key r)).
Proof.
  intros Hr. unfold prefix_span. rewrite (ir_key_len r Hr).
  pose proof (prefix_length (ir_key r) (ir_off r)) as Hp. cbn [s_meta ir_slot].
  pose proof (zlen_nonneg (ir_key r)). unfold KEY_LOOK_AHEAD_SIZE.
  rewrite slice_to_ok by lia. rewrite prefix_eq. f_equal.
  unfold zlen in *. rewrite take_app_le.
  - rewrite take_take. destruct (decide (length (ir_key r) <= 4)%nat).
    + rewrite !take_ge by lia. done.
    + by rewrite Nat.min_l by lia; f_equal; lia.
  - rewrite length_take. lia.
Qed.

Lemma drop_post k : zlen (drop 4 k) = post_key_len k.
Proof. unfold post_key_len, KEY_LOOK_AHEAD_SIZE, zlen. rewrite length_drop. lia. Qed.

Lemma body_post r : sub_bytes (ir_body r) 0 (post_key_len (ir_key r)) = drop 4 (ir_key r).
Proof.
  unfold sub_bytes, ir_body. cbn [Z.to_nat drop]. apply take_app_length'.
  rewrite <- drop_post. unfold zlen. lia.
Qed.

Lemma body_child r :
  sub_bytes (ir_body r) (post_key_len (ir_key r)) 8 = le_bytes 8 (pid_value (ir_child r)).
Proof.
  unfold sub_bytes, ir_body. rewrite drop_app_length'.
  - apply take_ge. by rewrite length_le_bytes.
  - rewrite <- drop_post. unfold zlen. lia.
Qed.
End descriptors.
