(* ===== verification/InnerSearch.v ===== *)
(** Reading an inner node: its children, its separators, and the search that routes a key
    to a child (src/nodes/inner_node.rs). *)
From stdpp Require Import base numbers list option sorting.
From Stdlib Require Import ZArith Lia.
From S2P Require Import Prelude Bits NodeMeta PageLayout InnerNode InnerRepr.

Section readers.
Context (n : InnerNode) (r0 : irec) (rs : list irec).
Hypothesis HR : IRepr n r0 rs.
Implicit Types (r : irec) (key : bytes).

Lemma inner_count : count n = 1 + zlen rs.
Proof.
  unfold count. rewrite (lo_count _ _ (ir_layout _ _ _ HR)). unfold zlen. rewrite length_map.
  cbn [length]. lia.
Qed.

Lemma inner_rec_ok i r : (r0 :: rs) !! i = Some r → irec_ok r.
Proof. apply Forall_lookup_1, (ir_ok _ _ _ HR). Qed.

Lemma inner_slot i r : (r0 :: rs) !! i = Some r → map ir_slot (r0 :: rs) !! i = Some (ir_slot r).
Proof. intros Hi. by rewrite list_lookup_fmap, Hi. Qed.

Lemma inner_get i r : (r0 :: rs) !! i = Some r → get_kv_meta n (Z.of_nat i) = Ret (s_meta (ir_slot r)).
Proof.
  intros Hi. destruct (playout_meta _ _ _ (ir_layout _ _ _ HR) i _ (inner_slot i r Hi)) as (Hs & Hd & _).
  unfold get_kv_meta. rewrite (Z.mul_comm _ KV_META_SIZE), Hs. ret_step. f_equal. exact Hd.
Qed.

Lemma post_key_len_nonneg key : 0 <= post_key_len key.
Proof. rewrite <- drop_post. apply zlen_nonneg. Qed.

Lemma inner_post i r :
  (r0 :: rs) !! i = Some r → get_post_key_ref n (s_meta (ir_slot r)) = Ret (drop 4 (ir_key r)).
Proof.
  intros Hi. pose proof (inner_rec_ok i r Hi) as Hr. unfold get_post_key_ref.
  rewrite (ir_key_len r Hr), post_len_key. pose proof (post_key_len_nonneg (ir_key r)).
  pose proof (playout_read _ _ _ (ir_layout _ _ _ HR) i _ 0 (post_key_len (ir_key r))
    (inner_slot i r Hi) eq_refl) as Hread.
  rewrite Z.add_0_r in Hread. change (s_off (ir_slot r)) with (offset (s_meta (ir_slot r))) in Hread.
  rewrite Hread; [|lia|lia|].
  - f_equal. apply body_post.
  - change (s_body (ir_slot r)) with (ir_body r). rewrite ir_body_len. unfold PAGE_ID_SIZE. lia.
Qed.

Lemma inner_key i r :
  (r0 :: rs) !! i = Some r → get_full_key n (s_meta (ir_slot r)) = Ret (ir_key r).
Proof.
  intros Hi. pose proof (inner_rec_ok i r Hi) as Hr. pose proof (inner_post i r Hi) as Hp.
  unfold get_full_key. unfold get_post_key_ref in Hp. rewrite Hp. ret_step.
  rewrite (ir_prefix_span r Hr). ret_step. by rewrite take_drop.
Qed.

Lemma inner_value i r :
  (r0 :: rs) !! i = Some r → get_value n (s_meta (ir_slot r)) = Ret (ir_child r).
Proof.
  intros Hi. pose proof (inner_rec_ok i r Hi) as Hr. unfold get_value.
  rewrite (ir_key_len r Hr), post_len_key. pose proof (post_key_len_nonneg (ir_key r)).
  pose proof (playout_read _ _ _ (ir_layout _ _ _ HR) i _ (post_key_len (ir_key r)) 8
    (inner_slot i r Hi) eq_refl) as Hread.
  change (s_off (ir_slot r)) with (offset (s_meta (ir_slot r))) in Hread.
  change (s_body (ir_slot r)) with (ir_body r) in Hread.
  rewrite ir_body_len in Hread. unfold PAGE_ID_SIZE in *.
  change (slice (data n) ?o 8) with (raw_read (data n) o 8).
  rewrite Hread by lia. ret_step. rewrite body_child. destruct Hr as (_ & Hp & _).
  rewrite le_val_bytes by exact Hp. by destruct (ir_child r).
Qed.

Lemma inner_pair i r :
  (r0 :: rs) !! i = Some r → read_pair n (Z.of_nat i) = Ret (ir_pair r).
Proof.
  intros Hi. unfold read_pair. rewrite (inner_get i r Hi). ret_step.
  rewrite (inner_key i r Hi). ret_step. rewrite (inner_value i r Hi). done.
Qed.

Lemma inner_pairs : mapM (read_pair n) (seqZ 1 (count n - 1)) = Ret (map ir_pair rs).
Proof.
  rewrite inner_count. replace (1 + zlen rs - 1) with (zlen (map ir_pair rs))
    by (unfold zlen; rewrite length_map; lia).
  apply mapM_seqZ. intros j x Hj. rewrite list_lookup_fmap in Hj.
  destruct (rs !! j) as [r|] eqn:E; [|done]. cbn in Hj. injection Hj as <-.
  replace (1 + Z.of_nat j) with (Z.of_nat (S j)) by lia. by apply inner_pair.
Qed.

(** Comparing with a key in two steps is comparing the keys. *)
Lemma cut_key key :
  slice_to key (Z.min KEY_LOOK_AHEAD_SIZE (zlen key)) = Ret (take 4 key) ∧
  slice_from key (Z.min KEY_LOOK_AHEAD_SIZE (zlen key)) = Ret (drop 4 key).
Proof.
  unfold KEY_LOOK_AHEAD_SIZE. pose proof (zlen_nonneg key).
  rewrite slice_to_ok, slice_from_ok by lia. unfold zlen in *.
  destruct (decide (4 <= length key)%nat).
  - by replace (Z.to_nat (Z.min 4 (Z.of_nat (length key)))) with 4%nat by lia.
  - replace (Z.to_nat (Z.min 4 (Z.of_nat (length key)))) with (length key) by lia.
    rewrite !take_ge, !drop_ge by lia. done.
Qed.

Lemma inner_key_compare i r key :
  (r0 :: rs) !! i = Some r → key_compare n key (s_meta (ir_slot r)) = Ret (cmp_bytes (ir_key r) key).
Proof.
  intros Hi. destruct (cut_key key) as [H1 H2]. unfold key_compare.
  rewrite H1. ret_step. rewrite H2. ret_step.
  rewrite (ir_prefix_span r (inner_rec_ok i r Hi)). ret_step.
  rewrite (cmp_split 4 (ir_key r) key).
  destruct (cmp_bytes (take 4 (ir_key r)) (take 4 key)); [|done|done].
  by rewrite (inner_post i r Hi).
Qed.

Lemma inner_search_compare i r key :
  (r0 :: rs) !! i = Some r →
  search_compare n (take 4 key) (drop 4 key) (s_meta (ir_slot r)) = Ret (cmp_bytes (ir_key r) key).
Proof.
  intros Hi. pose proof (inner_rec_ok i r Hi) as Hr. unfold search_compare.
  rewrite (ir_prefix_span r Hr). ret_step.
  rewrite (cmp_split 4 (ir_key r) key).
  destruct (cmp_bytes (take 4 (ir_key r)) (take 4 key)); [|done|done].
  rewrite (inner_post i r Hi). ret_step. rewrite (ir_key_len r Hr).
  unfold KEY_LOOK_AHEAD_SIZE.
  zcase (4 <? zlen (ir_key r)); [done|]. zcase (zlen (drop 4 key) =? 0); [|done]. cbn [orb negb].
  apply zlen_nil_inv in E0 as ->. rewrite drop_ge; [done|]. unfold zlen in E. lia.
Qed.

(** The search keeps: separators below [lower] are at most the key, those from [upper] on
    are above it. *)
Lemma search_rank key lower upper fuel :
  let kvs := map ir_pair rs in
  1 <= lower <= upper → upper <= count n → upper - lower < Z.of_nat fuel →
  (∀ i k c, kvs !! i = Some (k, c) → Z.of_nat i + 1 < lower → cmp_bytes k key ≠ Gt) →
  (∀ i k c, kvs !! i = Some (k, c) → upper <= Z.of_nat i + 1 → cmp_bytes k key = Gt) →
  search n (take 4 key) (drop 4 key) lower upper fuel = Ret (Z.of_nat (rank key kvs)).
Proof.
  intros kvs. revert lower upper. assert (length kvs = length rs) as Hlen by apply length_map.
  pose proof inner_count as Hc. unfold zlen in Hc.
  induction fuel as [|fuel IH]; intros lower upper Hl Hu Hf Hlo Hhi; [lia|]. cbn [search].
  zcase (lower <? upper).
  2:{ rewrite subu_ok by lia. f_equal. rewrite (rank_unique key kvs (Z.to_nat (lower - 1))); [lia|lia|..].
      - intros i k c Hi Hlt. apply (Hlo i k c Hi). lia.
      - intros k c Hi. apply (Hhi _ k c Hi). lia. }
  set (mid := lower + (upper - lower) / 2).
  assert (lower <= mid < upper) as Hmid by (unfold mid; dlia).
  destruct (lookup_lt_is_Some_2 rs (Z.to_nat (mid - 1))) as [r Hr]; [lia|].
  assert ((r0 :: rs) !! Z.to_nat mid = Some r) as Hr'.
  { replace (Z.to_nat mid) with (S (Z.to_nat (mid - 1))) by lia. done. }
  assert (kvs !! Z.to_nat (mid - 1) = Some (ir_pair r)) as Hk by (unfold kvs; by rewrite list_lookup_fmap, Hr).
  pose proof (inner_get _ _ Hr') as Hg. rewrite Z2Nat.id in Hg by lia. rewrite Hg. ret_step.
  rewrite (inner_search_compare _ _ key Hr'). ret_step.
  assert (∀ i k c, kvs !! i = Some (k, c) → (i < Z.to_nat (mid - 1))%nat → bytes_lt k (ir_key r)) as Hb.
  { intros i k c Hi Hlt. by apply (sorted_lookup kvs i _ k c _ (ir_child r) (ir_sorted _ _ _ HR) Hi Hk). }
  assert (∀ i k c, kvs !! i = Some (k, c) → (Z.to_nat (mid - 1) < i)%nat → bytes_lt (ir_key r) k) as Ha.
  { intros i k c Hi Hlt. by apply (sorted_lookup kvs _ i _ (ir_child r) k c (ir_sorted _ _ _ HR) Hk Hi). }
  destruct (cmp_bytes (ir_key r) key) eqn:Ecmp.
  - apply cmp_eq in Ecmp. f_equal. rewrite (rank_unique key kvs (Z.to_nat mid)); [lia|lia|..].
    + intros i k c Hi Hlt. destruct (decide (i = Z.to_nat (mid - 1))) as [->|].
      * rewrite Hi in Hk. injection Hk as -> _. rewrite Ecmp, cmp_refl. done.
      * rewrite <- Ecmp, (Hb i k c Hi) by lia. done.
    + intros k c Hi. rewrite <- Ecmp. apply cmp_gt_lt, (Ha _ k c Hi). lia.
  - apply IH; try lia; [|by intros; eapply Hhi]. intros i k c Hi Hlt.
    destruct (decide (i = Z.to_nat (mid - 1))) as [->|].
    + rewrite Hi in Hk. injection Hk as -> _. by rewrite Ecmp.
    + rewrite (cmp_lt_trans _ _ _ (Hb i k c Hi ltac:(lia)) Ecmp). done.
  - apply IH; try lia; [by intros; eapply Hlo|]. intros i k c Hi Hlt.
    destruct (decide (i = Z.to_nat (mid - 1))) as [->|].
    + rewrite Hi in Hk. by injection Hk as -> _.
    + apply cmp_gt_lt. apply cmp_gt_lt in Ecmp. eapply cmp_lt_trans; [exact Ecmp|]. apply (Ha i k c Hi). lia.
Qed.

Lemma inner_lower_bound key : lower_bound n key = Ret (Z.of_nat (rank key (map ir_pair rs))).
Proof.
  destruct (cut_key key) as [H1 H2]. unfold lower_bound. rewrite H1. ret_step. rewrite H2. ret_step.
  pose proof inner_count as Hc. pose proof (zlen_nonneg rs). apply search_rank; try lia.
  intros i k c Hi Hlt. apply lookup_lt_Some in Hi. rewrite length_map in Hi. unfold zlen in *. lia.
Qed.

Lemma min_offset_fold (l : list irec) acc :
  foldM (λ a r, Ret (Z.min a (ir_off r))) acc l = Ret (lowest acc (map ir_slot l)).
Proof.
  revert acc. induction l as [|r l IH]; intros acc; [done|]. cbn [foldM map lowest]. ret_step.
  rewrite IH. f_equal. apply lowest_min.
Qed.

Lemma min_offset_scan acc :
  foldM (min_offset_step n) acc (seqZ 0 (1 + zlen rs)) = Ret (lowest acc (map ir_slot (r0 :: rs))).
Proof.
  rewrite <- min_offset_fold, <- zlen_cons with (x := r0). apply foldM_seqZ.
  intros b j r Hj. unfold min_offset_step. rewrite Z.add_0_l. rewrite (inner_get j r Hj). done.
Qed.

(** The sanity check of [current_lowest_offset] succeeds. *)
Lemma inner_lowest :
  current_lowest_offset n = Ret (KV_META_SIZE * (1 + zlen rs) + remaining_size (meta n)).
Proof.
  pose proof (playout_fits _ _ _ (ir_layout _ _ _ HR)) as (H1 & H2 & H3).
  pose proof (lo_rem _ _ (ir_layout _ _ _ HR)). pose proof (lo_data _ _ (ir_layout _ _ _ HR)) as Hd.
  rewrite (ir_node _ _ _ HR) in Hd. pose proof (lo_low _ _ (ir_layout _ _ _ HR)) as Hlow.
  assert (zlen (map ir_slot (r0 :: rs)) = 1 + zlen rs) as Hz by (unfold zlen; rewrite length_map; cbn [length]; lia).
  rewrite Hz in *. pose proof (zlen_nonneg rs).
  unfold KV_META_SIZE, PAGE_HEADER, MAX_LEAF_PAGE_SIZE, INNER_NODE_SIZE in *.
  unfold current_lowest_offset, KV_META_SIZE. rewrite inner_count.
  rewrite mul16_ok by (unfold U16; lia). ret_step. rewrite add16_ok by (unfold U16; lia). ret_step.
  rewrite min_offset_scan. ret_step.
  change (as_u16 max_data_size) with (4096 - 32). rewrite <- Hd, Hlow.
  rewrite assert_true by (apply Z.eqb_eq; lia). ret_step. f_equal. lia.
Qed.
End readers.
