(* ===== verification/InnerInsert.v ===== *)
(** Writing an inner node: replacing a child, inserting a separator, initialisation
    (src/nodes/inner_node.rs). *)
From stdpp Require Import base numbers list option sorting.
From Stdlib Require Import ZArith Lia.
From S2P Require Import Prelude Bits NodeMeta PageLayout InnerNode InnerRepr InnerSearch.

(** The fields an insertion leaves alone. *)
Definition same_inner (n n' : InnerNode) : Prop :=
  version_lock n' = version_lock n ∧ disk_offset n' = disk_offset n ∧
  snapshot_version n' = snapshot_version n ∧ same_flags (meta n) (meta n').

Lemma same_inner_trans n1 n2 n3 : same_inner n1 n2 → same_inner n2 n3 → same_inner n1 n3.
Proof. unfold same_inner, same_flags. intuition congruence. Qed.

Lemma same_inner_refl n : same_inner n n.
Proof. by repeat split. Qed.

Lemma map_insert_at {A B} (f : A → B) pos x l :
  map f (insert_at pos x l) = insert_at pos (f x) (map f l).
Proof. unfold insert_at. rewrite map_app. cbn [map]. by rewrite firstn_map, skipn_map. Qed.

(** ** The bytes of a record, and the header *)
Lemma raw_read_post key : raw_read key KEY_LOOK_AHEAD_SIZE (post_key_len key) = Ret (drop 4 key).
Proof.
  unfold raw_read. zcase (post_key_len key =? 0).
  - rewrite drop_ge; [done|]. rewrite <- drop_post in E. unfold zlen in E. rewrite length_drop in E. lia.
  - pose proof (post_key_len_nonneg key). unfold post_key_len, KEY_LOOK_AHEAD_SIZE in *.
    rewrite slice_ok by lia. f_equal. apply take_ge. rewrite length_drop. unfold zlen. lia.
Qed.

Lemma write_body d off (r : irec) :
  0 <= off → off + (post_key_len (ir_key r) + PAGE_ID_SIZE) <= zlen d →
  ∃ d3, blit d off (drop 4 (ir_key r)) = Ret d3 ∧
    blit d3 (off + post_key_len (ir_key r)) (le_bytes 8 (pid_raw (ir_child r))) =
      Ret (splice d off (ir_body r)).
Proof.
  intros H1 H2. pose proof (post_key_len_nonneg (ir_key r)). unfold PAGE_ID_SIZE in *.
  assert (zlen (le_bytes 8 (pid_raw (ir_child r))) = 8) as H8 by (unfold zlen; by rewrite length_le_bytes).
  eexists. split; [rewrite blit_ok by (rewrite ?drop_post; lia); done|].
  rewrite blit_ok by (rewrite ?zlen_splice; rewrite ?drop_post; lia). f_equal.
  rewrite <- drop_post. apply splice_app; rewrite ?drop_post; lia.
Qed.

Lemma take_space_spec n len :
  meta_ok (meta n) → count n < 4095 → len <= remaining_size (meta n) →
  ∃ m, take_space n len = Ret (set_meta n m) ∧ meta_ok m ∧
    meta_count_with_fence m = count n + 1 ∧ same_flags (meta n) m ∧
    node_size m = node_size (meta n) ∧ remaining_size m = remaining_size (meta n) - len.
Proof.
  intros Hm Hc Hl. unfold take_space. rewrite subu_ok by done. ret_step.
  destruct (increment_spec (set_remaining (meta n) (remaining_size (meta n) - len)))
    as (m & -> & ? & ? & ? & ? & ?); [done|done|]. by exists m.
Qed.

Section write.
Context (n : InnerNode) (r0 : irec) (rs : list irec).
Hypothesis HR : IRepr n r0 rs.
Implicit Types (r : irec) (key : bytes) (child : PageID).

Lemma inner_slots_len : zlen (map ir_slot (r0 :: rs)) = 1 + zlen rs.
Proof. unfold zlen. rewrite length_map. cbn [length]. lia. Qed.

Definition with_child r child : irec := mkIrec (ir_key r) child (ir_off r).

Lemma with_child_body r child :
  splice (ir_body r) (post_key_len (ir_key r)) (le_bytes 8 (pid_value child)) =
  ir_body (with_child r child).
Proof.
  unfold splice, ir_body. cbn [with_child ir_key ir_child].
  assert (Z.to_nat (post_key_len (ir_key r)) = length (drop 4 (ir_key r))) as ->.
  { rewrite <- drop_post. unfold zlen. lia. }
  rewrite take_app_length, length_le_bytes, (drop_ge (_ ++ _)), app_nil_r; [done|].
  rewrite length_app, length_le_bytes. lia.
Qed.

Lemma with_child_ok r child : irec_ok r → pid_ok child → irec_ok (with_child r child).
Proof. intros (? & _ & ?) ?. done. Qed.

(** Overwriting a child in place. *)
Lemma write_child_layout i r child :
  (r0 :: rs) !! i = Some r → pid_ok child →
  ∃ d, write_page_id n (ir_off r + post_key_len (ir_key r)) child = Ret (set_data n d) ∧
    PLayout (meta n) d (map ir_slot (<[i:=with_child r child]> (r0 :: rs))).
Proof.
  intros Hi Hc. pose proof (inner_slot _ _ i r Hi) as Hs. pose proof (post_key_len_nonneg (ir_key r)).
  destruct (playout_overwrite _ _ _ (ir_layout _ _ _ HR) i _ (post_key_len (ir_key r))
    (le_bytes 8 (pid_value child)) Hs) as (H1 & H2 & HL); auto using bytes_ok_le.
  { change (s_body (ir_slot r)) with (ir_body r). rewrite ir_body_len.
    unfold zlen. rewrite length_le_bytes. done. }
  change (s_off (ir_slot r)) with (ir_off r) in *.
  change (s_body (ir_slot r)) with (ir_body r) in *.
  unfold write_page_id, pid_raw. eexists. split; [by rewrite blit_ok|].
  rewrite with_child_body in HL. change (map ?f ?l) with (f <$> l) in *.
  rewrite list_fmap_insert. exact HL.
Qed.

Lemma write_left_repr child :
  pid_ok child →
  ∃ n', write_page_id n (ir_off r0) child = Ret n' ∧ IRepr n' (with_child r0 child) rs ∧
    meta n' = meta n ∧ same_inner n n'.
Proof.
  intros Hc. destruct (write_child_layout 0 r0 child eq_refl Hc) as (d & Hd & HL).
  rewrite (ir_dummy _ _ _ HR) in Hd. change (post_key_len []) with 0 in Hd. rewrite Z.add_0_r in Hd.
  eexists. split; [exact Hd|]. split; [|done]. pose proof HR as [_ Hdummy Hok Hsort Hn].
  apply Forall_cons in Hok as [H0 Hok]. split; auto. constructor; [|done]. by apply with_child_ok.
Qed.

Lemma write_child_repr i r child :
  rs !! i = Some r → pid_ok child →
  ∃ n', write_page_id n (ir_off r + post_key_len (ir_key r)) child = Ret n' ∧
    IRepr n' r0 (<[i:=with_child r child]> rs) ∧ meta n' = meta n ∧ same_inner n n'.
Proof.
  intros Hi Hc. destruct (write_child_layout (S i) r child Hi Hc) as (d & Hd & HL).
  eexists. split; [exact Hd|]. split; [|done]. pose proof HR as [_ Hdummy Hok Hsort Hn].
  apply Forall_cons in Hok as [H0 Hok]. split; auto.
  - constructor; [done|]. apply Forall_insert; [done|].
    apply with_child_ok; [by apply (Forall_lookup_1 _ _ _ _ Hok Hi)|done].
  - unfold sorted in *. rewrite !map_map in *. change (map ?f ?l) with (f <$> l) in *.
    rewrite list_fmap_insert. cbn. by rewrite list_insert_id by by rewrite list_lookup_fmap, Hi.
Qed.

(** The writes of a new record. *)
Lemma insert_new_repr key child :
  ikey_ok key → required_len key < U16 → pid_ok child →
  required_len key <= remaining_size (meta n) → key ∉ map fst (map ir_pair rs) →
  let off := KV_META_SIZE * (1 + zlen rs) + remaining_size (meta n) - (post_key_len key + PAGE_ID_SIZE) in
  let r := mkIrec key child off in
  ∃ n', insert_new n key child (make_prefixed_meta key off) = Ret n' ∧
    IRepr n' r0 (insert_at (rank key (map ir_pair rs)) r rs) ∧ same_inner n n' ∧
    remaining_size (meta n') = remaining_size (meta n) - required_len key.
Proof.
  intros Hk Hreq Hc Hrem Hnew off r. pose proof (ir_layout _ _ _ HR) as HL.
  pose proof (playout_fits _ _ _ HL) as (Hf1 & Hf2 & Hf3). pose proof inner_slots_len as Hz.
  rewrite Hz in *. pose proof (zlen_nonneg rs). pose proof (post_key_len_nonneg key) as Hp0.
  pose proof (rank_length key (map ir_pair rs)) as Hrk. rewrite length_map in Hrk.
  set (p := rank key (map ir_pair rs)) in *. assert (0 < KV_META_SIZE) as HKV by done.
  assert (0 <= off ∧ off + (post_key_len key + PAGE_ID_SIZE) <= zlen (data n)) as [Ho1 Ho2].
  { unfold off, required_len in *. lia. }
  assert (irec_ok r) as Hr.
  { split_and!; try apply Hk; try apply Hc; try done; cbn [r ir_off]; unfold PAGE_ID_SIZE, U16,
      PAGE_HEADER, MAX_LEAF_PAGE_SIZE in *; lia. }
  pose proof (ir_meta_wf r Hr) as Hwf. pose proof (ir_body_len r) as Hbl.
  destruct (playout_shift_ok _ _ _ HL (S p) (s_meta (ir_slot r))) as (Hsl & Hb1 & Hb2 & Hd2);
    [rewrite length_map; cbn [length]; lia|apply Hwf|unfold required_len, PAGE_ID_SIZE in *; lia|].
  pose proof (playout_add _ _ _ HL (S p) (ir_slot r)) as Hadd. rewrite Hz in *.
  unfold insert_new. rewrite (inner_lower_bound _ _ _ HR). ret_step. fold p.
  replace (Z.of_nat p + 1) with (Z.of_nat (S p)) by lia.
  rewrite (inner_count _ _ _ HR), subu_ok by (unfold zlen; lia). ret_step.
  rewrite Hsl. ret_step. rewrite Hb1. ret_step. unfold write_meta. cbn [data set_data].
  change (encode_meta (make_prefixed_meta key off)) with (d_enc (s_meta (ir_slot r))).
  rewrite Hb2. do 2 ret_step. cbn [data set_data]. set (d2 := splice _ _ (d_enc _)) in *.
  rewrite raw_read_post. ret_step. change (offset (make_prefixed_meta key off)) with off.
  destruct (write_body d2 off r) as (d3 & Hb3 & Hb4); [lia|rewrite Hd2; cbn [r ir_key]; lia|].
  change (ir_key r) with key in *. change (ir_child r) with child in Hb4. rewrite Hb3. ret_step.
  unfold write_page_id. cbn [data set_data]. rewrite Hb4. do 2 ret_step.
  rewrite as_u16_id by (unfold required_len, KV_META_SIZE, PAGE_ID_SIZE in *; lia).
  change (take_space _ ?l) with (take_space (set_data n (splice d2 off (ir_body r))) l).
  destruct (take_space_spec (set_data n (splice d2 off (ir_body r))) (required_len key)) as (m & -> & Hm1 & Hm2 & Hm3 & Hm4 & Hm5); cbn [meta set_data]; try done.
  { apply (lo_word _ _ HL). }
  { unfold count. cbn [meta set_data]. rewrite (lo_count _ _ HL), Hz. lia. }
  eexists. split; [done|]. split; [|by repeat split; try apply Hm3].
  split; cbn [meta data set_meta set_data]; try apply HR.
  - change (map ir_slot (r0 :: ?l)) with (ir_slot r0 :: map ir_slot l). rewrite map_insert_at.
    apply Hadd; auto; try (change (s_body (ir_slot r)) with (ir_body r); rewrite Hbl; cbn [ir_key r]).
    + rewrite length_map. cbn [length]. lia.
    + apply Forall_app_2; [apply Forall_drop, Hk|apply bytes_ok_le].
    + unfold required_len in Hrem. lia.
    + done.
    + rewrite Hm2. unfold count. cbn [meta set_data]. rewrite (lo_count _ _ HL), Hz. lia.
    + rewrite Hm5. cbn [meta set_data]. unfold required_len. lia.
  - apply Forall_cons. pose proof (ir_ok _ _ _ HR) as Hok. apply Forall_cons in Hok as [? Hok].
    split; [done|]. rewrite insert_at_perm. by constructor.
  - rewrite map_insert_at. change (ir_pair r) with (key, child). unfold p. rewrite <- put_new; [|apply HR|done].
    apply put_sorted, HR.
  - rewrite Hm4. apply HR.
Qed.
(** Whether the separator is there already is what [insert] finds at the rank. *)
Lemma insert_probe key :
  let kvs := map ir_pair rs in
  find_existing n key (Z.of_nat (rank key kvs)) = Ret None ∧ key ∉ map fst kvs ∨
  ∃ i r, rs !! i = Some r ∧ ir_key r = key ∧
    find_existing n key (Z.of_nat (rank key kvs)) = Ret (Some (s_meta (ir_slot r))).
Proof.
  intros kvs. pose proof (rank_length key kvs) as Hrk. unfold kvs in Hrk at 2. rewrite length_map in Hrk.
  unfold find_existing. rewrite (inner_count _ _ _ HR). destruct (rank key kvs) as [|i] eqn:Erank.
  - left. split; [done|]. apply rank_zero_notin; [apply HR|done].
  - rewrite (proj2 (Z.ltb_lt _ _)) by lia. rewrite (proj2 (Z.ltb_lt _ _)) by (unfold zlen; lia). cbn [andb].
    destruct (lookup_lt_is_Some_2 rs i) as [r Hr]; [lia|].
    rewrite (inner_get _ _ _ HR (S i) r Hr). ret_step.
    rewrite (inner_key_compare _ _ _ HR (S i) r key Hr). ret_step.
    assert (kvs !! i = Some (ir_pair r)) as Hk by (unfold kvs; by rewrite list_lookup_fmap, Hr).
    destruct (cmp_bytes (ir_key r) key) eqn:Ecmp.
    + right. exists i, r. apply cmp_eq in Ecmp. done.
    + left. split; [done|]. by apply (rank_lt_notin key kvs i (ir_key r) (ir_child r) (ir_sorted _ _ _ HR)).
    + exfalso. apply (rank_below key kvs i (ir_key r) (ir_child r)); [done|lia|done].
Qed.

Lemma inner_insert_repr key child :
  ikey_ok key → required_len key < U16 → pid_ok child →
  let kvs := map ir_pair rs in
  if remaining_size (meta n) <? required_len key then insert n key child = Ret (false, n)
  else ∃ n' rs', insert n key child = Ret (true, n') ∧ IRepr n' r0 rs' ∧
    map ir_pair rs' = put key child kvs ∧ same_inner n n' ∧
    (key ∉ map fst kvs → remaining_size (meta n') = remaining_size (meta n) - required_len key).
Proof.
  intros Hk Hreq Hc kvs. pose proof (post_key_len_nonneg key) as Hp0.
  assert (as_u16 (required_len key) = required_len key) as Hu
    by (apply as_u16_id; unfold required_len, PAGE_ID_SIZE, KV_META_SIZE in *; lia).
  assert (as_u16 (post_key_len key + PAGE_ID_SIZE) = post_key_len key + PAGE_ID_SIZE) as Hu2
    by (apply as_u16_id; unfold required_len, PAGE_ID_SIZE, KV_META_SIZE in *; lia).
  unfold insert. rewrite Hu, Hu2. zcase (remaining_size (meta n) <? required_len key); [done|].
  rewrite (inner_lowest _ _ _ HR). ret_step. pose proof (zlen_nonneg rs).
  assert (0 < KV_META_SIZE) by done.
  rewrite subu_ok by (unfold required_len in *; lia). ret_step.
  rewrite (inner_lower_bound _ _ _ HR). ret_step.
  destruct (insert_probe key) as [[-> Hnew]|(i & r & Hi & Hrk & ->)]; ret_step.
  - destruct (insert_new_repr key child) as (n' & -> & HR' & Hsame & Hrem); auto.
    ret_step. eexists n', _. split; [done|]. split; [exact HR'|]. split; [|done].
    rewrite map_insert_at. symmetry. by apply put_new; [apply HR|].
  - destruct (write_child_repr i r child Hi Hc) as (n' & Hw & HR' & Hm & Hsame).
    change (offset (s_meta (ir_slot r))) with (ir_off r). rewrite <- Hrk, Hw. ret_step.
    exists n', (<[i:=with_child r child]> rs). split; [done|]. split; [done|].
    assert (kvs !! i = Some (ir_pair r)) as Hkv by (unfold kvs; by rewrite list_lookup_fmap, Hi).
    split; [|split; [done|]].
    + change (map ?f ?l) with (f <$> l). rewrite list_fmap_insert. symmetry.
      apply (put_existing _ _ _ _ (ir_child r)); [apply HR|done].
    + intros []. apply list_elem_of_fmap. exists (ir_pair r). split; [done|].
      by eapply list_elem_of_lookup_2.
Qed.
End write.
