(* ===== verification/InnerSplit.v ===== *)
(** Rebuilding inner nodes: initialisation, consolidation, the builder and the split
    (src/nodes/inner_node.rs). *)
From stdpp Require Import base numbers list option sorting.
From Stdlib Require Import ZArith Lia.
From S2P Require Import Prelude Bits NodeMeta PageLayout InnerNode InnerRepr InnerSearch InnerInsert.

(** ** Initialisation *)

(** The memory of a node: all of its bytes, whatever they are. *)
Definition raw_ok (n : InnerNode) : Prop := zlen (data n) = max_data_size ∧ bytes_ok (data n).

Lemma repr_raw_ok n r0 rs : IRepr n r0 rs → raw_ok n.
Proof.
  intros HR. pose proof (lo_data _ _ (ir_layout _ _ _ HR)) as Hd. rewrite (ir_node _ _ _ HR) in Hd.
  split; [exact Hd|]. apply (lo_bytes _ _ (ir_layout _ _ _ HR)).
Qed.

Lemma empty_layout n m :
  raw_ok n → meta_ok m → meta_count_with_fence m = 0 → node_size m = INNER_NODE_SIZE →
  remaining_size m = max_data_size → PLayout (M := InnerKVMeta) m (data n) [].
Proof.
  intros [Hd Hb] Hm Hc Hn Hr.
  unfold max_data_size, INNER_NODE_SIZE, INNER_HEADER in *.
  split; try assumption; try (unfold PAGE_HEADER, MAX_LEAF_PAGE_SIZE; rewrite ?zlen_nil; lia).
  - change (zlen (data n) = KV_META_SIZE * 0 + remaining_size m). lia.
  - intros i s Hi. by rewrite lookup_nil in Hi.
  - constructor.
  - by split.
Qed.

Lemma reinitialize_repr n left is_leaf off :
  raw_ok n → pid_ok left →
  ∃ n' r0, reinitialize n left is_leaf off = Ret n' ∧ IRepr n' r0 [] ∧ ir_child r0 = left ∧
    remaining_size (meta n') = max_data_size - 16 ∧ children_is_leaf (meta n') = is_leaf ∧
    get_split_flag (meta n') = false ∧ version_lock n' = version_lock n ∧ disk_offset n' = off ∧
    snapshot_version n' = snapshot_version n.
Proof.
  intros Hraw Hleft. unfold reinitialize. change (as_u16 max_data_size) with max_data_size.
  change (as_u16 INNER_NODE_SIZE) with INNER_NODE_SIZE.
  destruct (NodeMeta_new_spec max_data_size is_leaf false INNER_NODE_SIZE false eq_refl)
    as (m & -> & Hm & Hc & _ & Hsf & Hcl & _ & Hn & Hr). ret_step.
  pose proof (empty_layout n m Hraw Hm Hc Hn Hr) as HL. destruct Hraw as [Hd Hb].
  set (n1 := set_disk_offset (set_meta n m) off).
  assert (current_lowest_offset n1 = Ret 4064) as ->.
  { unfold current_lowest_offset, count. cbn [n1 meta set_disk_offset set_meta].
    rewrite Hc, Hr. done. }
  ret_step. change (subu 4064 PAGE_ID_SIZE) with (Ret 4056 : outcome Z). ret_step.
  set (r0 := mkIrec [] left 4056).
  assert (irec_ok r0) as Hr0.
  { split; [by split; [constructor|]|]. split; [exact Hleft|]. cbn. unfold U16. lia. }
  pose proof (ir_meta_wf r0 Hr0) as Hwf. pose proof (playout_append _ _ _ HL (ir_slot r0)) as Hadd.
  assert (zlen (encode_meta (mkInnerKVMeta 4056 0 [0; 0; 0; 0])) = 8) as H8 by done.
  unfold write_meta. change (data n1) with (data n).
  change (max_data_size) with 4064 in *. rewrite blit_ok by lia. do 2 ret_step.
  unfold write_page_id. cbn [data set_data]. rewrite blit_ok; [|lia|].
  2:{ rewrite zlen_splice by lia. unfold zlen at 1. rewrite length_le_bytes. lia. }
  do 2 ret_step. match goal with |- context [take_space ?x _] => set (n2 := x) end.
  destruct (take_space_spec n2 (PAGE_ID_SIZE + KV_META_SIZE))
    as (m' & -> & Hm1 & Hm2 & Hm3 & Hm4 & Hm5); 
    [done|change (meta_count_with_fence m < 4095); lia|change (meta n2) with m; by rewrite Hr|].
  change (meta n2) with m in *. unfold count in Hm2. change (meta n2) with m in Hm2.
  eexists _, r0. split; [done|]. destruct Hm3 as (_ & Hf1 & Hf2 & _).
  split_and!; try done; cbn [meta set_meta]; try congruence.
  - split; cbn [meta data set_meta]; [|done|by constructor|constructor|congruence].
    change (zlen (s_body (ir_slot r0))) with 8 in Hadd.
    apply (Hadd m'); try done; rewrite ?Hm2, ?Hm5, ?Hr, ?Hc; try done.
    apply Forall_app_2; [constructor|apply bytes_ok_le].
  - rewrite Hm5, Hr. done.
Qed.

(** ** Filling an empty node *)
Definition space_of (kvs : separators) : Z := foldr (λ kv acc, required_len kv.1 + acc) 0 kvs.

Definition pair_ok (kv : bytes * PageID) : Prop :=
  ikey_ok kv.1 ∧ required_len kv.1 < U16 ∧ pid_ok kv.2.

Lemma required_pos key : 16 <= required_len key.
Proof. pose proof (post_key_len_nonneg key). unfold required_len, PAGE_ID_SIZE, KV_META_SIZE. lia. Qed.

Lemma space_nonneg kvs : 0 <= space_of kvs.
Proof. induction kvs as [|kv kvs IH]; cbn [space_of foldr]; [lia|]. pose proof (required_pos kv.1). unfold space_of in IH. lia. Qed.

Lemma put_last key c (kvs : separators) :
  Forall (λ k, bytes_lt k key) (map fst kvs) → put key c kvs = kvs ++ [(key, c)].
Proof.
  induction kvs as [|[k c0] kvs IH]; cbn; [done|]. intros [Hk Hf]%Forall_cons.
  unfold bytes_lt in Hk. rewrite Hk. f_equal. by apply IH.
Qed.

Lemma sorted_app_inv (kvs1 : separators) kv kvs2 :
  sorted (kvs1 ++ kv :: kvs2) → Forall (λ k, bytes_lt k kv.1) (map fst kvs1).
Proof.
  unfold sorted. induction kvs1 as [|kv1 kvs1 IH]; cbn; [constructor|].
  intros [Hs Hf]%StronglySorted_inv. constructor; [|by apply IH].
  rewrite Forall_forall in Hf. apply Hf. rewrite map_app. apply elem_of_app. right. left.
Qed.

(** Both loops of the source: [f] inserts a pair and the insertions all succeed. *)
Lemma fill_repr (f : InnerNode → bytes * PageID → outcome InnerNode) kvs n r0 rs :
  (∀ n k c n', insert n k c = Ret (true, n') → f n (k, c) = Ret n') →
  IRepr n r0 rs → Forall pair_ok kvs → sorted (map ir_pair rs ++ kvs) →
  space_of kvs <= remaining_size (meta n) →
  ∃ n' rs', foldM f n kvs = Ret n' ∧ IRepr n' r0 rs' ∧ map ir_pair rs' = map ir_pair rs ++ kvs ∧
    same_inner n n' ∧ remaining_size (meta n') = remaining_size (meta n) - space_of kvs.
Proof.
  intros Hf. revert n rs. induction kvs as [|[k c] kvs IH]; intros n rs HR Hok Hs Hsp.
  - exists n, rs. cbn. rewrite app_nil_r. split_and!; try done. lia.
  - apply Forall_cons in Hok as [(Hk & Hreq & Hc) Hok]. cbn [fst snd] in *.
    assert (space_of ((k, c) :: kvs) = required_len k + space_of kvs) as Hsum by done.
    pose proof (space_nonneg kvs). pose proof (sorted_app_inv _ _ _ Hs) as Hlt. cbn [fst] in Hlt.
    pose proof (inner_insert_repr n r0 rs HR k c Hk Hreq Hc) as Hins. cbv zeta in Hins.
    rewrite (proj2 (Z.ltb_ge _ _)) in Hins by lia.
    destruct Hins as (n1 & rs1 & Hi & HR1 & Hp1 & Hsame & Hrem). rewrite put_last in Hp1 by done.
    assert (remaining_size (meta n1) = remaining_size (meta n) - required_len k) as Hrem1.
    { apply Hrem. intros Hin. rewrite Forall_forall in Hlt. by apply Hlt, bytes_lt_irrefl in Hin. }
    destruct (IH n1 rs1 HR1 Hok) as (n' & rs' & Hfold & HR' & Hp' & Hsame' & Hrem').
    { rewrite Hp1, <- app_assoc. exact Hs. }
    { lia. }
    exists n', rs'. cbn [foldM]. rewrite (Hf _ _ _ _ Hi). ret_step.
    split; [done|]. split; [done|]. split; [by rewrite Hp', Hp1, <- app_assoc|].
    split; [by eapply same_inner_trans|]. lia.
Qed.

(** The space of the records of a node, and that they fit an empty one. *)
Lemma total_space (rs : list irec) :
  total_size (map ir_slot rs) + KV_META_SIZE * zlen rs = space_of (map ir_pair rs).
Proof.
  induction rs as [|r rs IH]; [done|]. rewrite zlen_cons.
  change (total_size (map ir_slot (r :: rs))) with (zlen (ir_body r) + total_size (map ir_slot rs)).
  change (space_of (map ir_pair (r :: rs))) with (required_len (ir_key r) + space_of (map ir_pair rs)).
  rewrite ir_body_len. unfold required_len. lia.
Qed.

Lemma repr_space n r0 rs :
  IRepr n r0 rs → space_of (map ir_pair rs) + 16 + remaining_size (meta n) <= max_data_size.
Proof.
  intros HR. pose proof (playout_total _ _ _ (ir_layout _ _ _ HR)) as Ht.
  pose proof (proj1 (repr_raw_ok _ _ _ HR)) as Hd. pose proof (total_space rs) as Hs.
  rewrite Hd, inner_slots_len in Ht.
  change (total_size (map ir_slot (r0 :: rs))) with (zlen (ir_body r0) + total_size (map ir_slot rs)) in Ht.
  rewrite ir_body_len, (ir_dummy _ _ _ HR) in Ht. change (post_key_len []) with 0 in Ht.
  unfold PAGE_ID_SIZE, KV_META_SIZE in *. lia.
Qed.

Lemma repr_pairs_ok n r0 rs : IRepr n r0 rs → Forall pair_ok (map ir_pair rs).
Proof.
  intros HR. apply Forall_forall. intros kv Hin. pose proof (repr_space _ _ _ HR) as Hsp.
  pose proof (lo_rem _ _ (ir_layout _ _ _ HR)) as Hrem.
  apply list_elem_of_fmap in Hin as (r & -> & Hin).
  pose proof (ir_ok _ _ _ HR) as Hok. apply Forall_cons in Hok as [_ Hok].
  rewrite Forall_forall in Hok. destruct (Hok r Hin) as (Hk & Hc & _).
  assert (required_len (ir_key r) <= space_of (map ir_pair rs)) as Hle.
  { clear -Hin. induction rs as [|r' rs IH]; [by apply elem_of_nil in Hin|].
    cbn [map space_of foldr]. pose proof (space_nonneg (map ir_pair rs)) as Hn.
    pose proof (required_pos (ir_key r')). unfold space_of in *.
    apply elem_of_cons in Hin as [->|Hin]; [cbn; lia|]. apply IH in Hin. cbn. lia. }
  split_and!; try done. change ((ir_pair r).1) with (ir_key r).
  change max_data_size with 4064 in Hsp. unfold U16. lia.
Qed.

(** ** The version word *)
Section version_word.
Implicit Types (n : InnerNode) (v : Z).

Lemma is_root_bit n : is_root n = Z.testbit (snapshot_version n) 63.
Proof. apply (flag_set_testbit _ 63). lia. Qed.

Lemma clean_mod n : get_clean_snapshot_version n = snapshot_version n mod 2 ^ 63.
Proof. apply (land_low _ 63). lia. Qed.

Lemma root_flag_bit i : 0 <= i → Z.testbit INNER_NODE_ROOT_FLAG i = (i =? 63).
Proof.
  intros Hi. change INNER_NODE_ROOT_FLAG with (2 ^ 63). zcase (i =? 63).
  - subst. by apply Z.pow2_bits_true.
  - apply Z.pow2_bits_false. lia.
Qed.

Lemma version_mask_bit i : 0 <= i → Z.testbit INNER_NODE_SNAPSHOT_VERSION_MASK i = (i <? 63).
Proof.
  intros Hi. change INNER_NODE_SNAPSHOT_VERSION_MASK with (Z.ones 63). zcase (i <? 63).
  - apply Z.ones_spec_low. lia.
  - apply Z.ones_spec_high. lia.
Qed.

Lemma set_snapshot_version_spec n v :
  0 <= v < 2 ^ 63 →
  ∃ w, set_snapshot_version n v = Ret (set_version_word n w) ∧
    get_clean_snapshot_version (set_version_word n w) = v ∧
    is_root (set_version_word n w) = is_root n.
Proof.
  intros Hv. unfold set_snapshot_version.
  assert (∀ i, 63 <= i → Z.testbit v i = false) as Hb by (intros; apply (testbit_small v 63); lia).
  assert (Z.land v INNER_NODE_ROOT_FLAG = 0) as ->.
  { change INNER_NODE_ROOT_FLAG with (2 ^ 63). rewrite land_pow2 by lia. by rewrite Hb. }
  rewrite assert_true by done. ret_step. eexists. split; [done|]. rewrite !is_root_bit.
  cbn [snapshot_version set_version_word]. split.
  - unfold get_clean_snapshot_version. cbn [snapshot_version set_version_word].
    apply Z.bits_inj'. intros i Hi. rewrite !Z.land_spec, Z.lor_spec, !Z.land_spec.
    rewrite version_mask_bit, root_flag_bit by done. zcase (i <? 63).
    + rewrite (proj2 (Z.eqb_neq _ _)) by lia. by rewrite !andb_true_r, andb_false_r, orb_false_r.
    + rewrite Hb by lia. by rewrite !andb_false_r.
  - rewrite Z.lor_spec, !Z.land_spec, version_mask_bit, root_flag_bit by done.
    cbn. by rewrite andb_false_r, andb_true_r.
Qed.

Lemma set_root_spec n b :
  is_root (set_root n b) = b ∧
  get_clean_snapshot_version (set_root n b) = get_clean_snapshot_version n.
Proof.
  rewrite is_root_bit. unfold set_root, get_clean_snapshot_version.
  cbn [snapshot_version set_version_word]. split.
  - destruct b; rewrite ?Z.lor_spec, ?Z.land_spec, ?version_mask_bit, ?root_flag_bit by done;
      cbn; [apply orb_true_r | apply andb_false_r].
  - apply Z.bits_inj'. intros i Hi. rewrite !Z.land_spec.
    destruct b; rewrite ?Z.lor_spec, ?Z.land_spec, ?version_mask_bit, ?root_flag_bit by done;
      zcase (i <? 63); rewrite ?andb_true_r, ?andb_false_r; try done.
    rewrite (proj2 (Z.eqb_neq _ _)) by lia. by rewrite orb_false_r.
Qed.
End version_word.

Lemma set_version_repr n r0 rs w : IRepr n r0 rs → IRepr (set_version_word n w) r0 rs.
Proof. by intros []. Qed.

(** ** Consolidation *)

(** A consolidation needs readable pairs only; the header's free space may be stale. *)
Lemma consolidate_spec n kvs left version :
  mapM (read_pair n) (seqZ 1 (count n - 1)) = Ret kvs →
  (m0 ← get_kv_meta n 0; get_value n m0) = Ret left →
  raw_ok n → Forall pair_ok kvs → sorted kvs → space_of kvs + 16 <= max_data_size →
  pid_ok left → 0 <= version < 2 ^ 63 →
  ∃ n' r0 rs, consolidate n version = Ret n' ∧ IRepr n' r0 rs ∧ ir_child r0 = left ∧
    map ir_pair rs = kvs ∧ version_lock n' = version_lock n ∧ disk_offset n' = disk_offset n ∧
    is_root n' = is_root n ∧ get_clean_snapshot_version n' = version ∧
    children_is_leaf (meta n') = children_is_leaf (meta n) ∧
    remaining_size (meta n') = max_data_size - 16 - space_of kvs ∧ get_split_flag (meta n') = false.
Proof.
  intros Hread Hleft Hraw Hok Hs Hsp Hl Hv. unfold consolidate. rewrite Hread. ret_step.
  destruct (get_kv_meta n 0) as [m0|]; [|done]. cbv beta in Hleft. change (get_value n m0 = Ret left) in Hleft.
  ret_step. rewrite Hleft. ret_step.
  destruct (reinitialize_repr n left (children_is_leaf (meta n)) (disk_offset n) Hraw Hl)
    as (n1 & r0 & -> & HR1 & Hc & Hr1 & Hcl & Hsf & Hvl & Hdo & Hsv). ret_step.
  destruct (set_snapshot_version_spec n1 version Hv) as (w & -> & Hclean & Hroot). ret_step.
  destruct (fill_repr reinsert kvs (set_version_word n1 w) r0 []) as (n' & rs & Hf & HR & Hp & Hsame & Hrem);
    auto using set_version_repr.
  { intros ? ? ? ? Hi. unfold reinsert. cbn [fst snd]. by rewrite Hi. }
  { cbn [meta set_version_word]. lia. }
  destruct Hsame as (Hs1 & Hs2 & Hs3 & _ & Hs5 & Hs4 & _). exists n', r0, rs.
  cbn [meta set_version_word version_lock disk_offset] in *.
  split; [done|]. split; [done|]. split; [done|]. split; [done|].
  split; [congruence|]. split; [congruence|]. split.
  { rewrite is_root_bit, Hs3, <- is_root_bit, Hroot, !is_root_bit. by rewrite Hsv. }
  split; [unfold get_clean_snapshot_version in *; by rewrite Hs3|].
  split; [congruence|]. split; [lia|congruence].
Qed.

Section consolidate.
Context (n : InnerNode) (r0 : irec) (rs1 rs2 : list irec).
Hypothesis HR : IRepr n r0 (rs1 ++ rs2).

Lemma read_left : (m0 ← get_kv_meta n 0; get_value n m0) = Ret (ir_child r0).
Proof.
  change 0 with (Z.of_nat 0). rewrite (inner_get _ _ _ HR 0 r0 eq_refl). ret_step. by apply (inner_value _ _ _ HR 0).
Qed.

Lemma read_prefix : mapM (read_pair n) (seqZ 1 (zlen rs1)) = Ret (map ir_pair rs1).
Proof.
  replace (zlen rs1) with (zlen (map ir_pair rs1)) by (unfold zlen; by rewrite length_map).
  apply mapM_seqZ. intros j x Hj. rewrite list_lookup_fmap in Hj.
  destruct (rs1 !! j) as [r|] eqn:E; [|done]. injection Hj as <-.
  replace (1 + Z.of_nat j) with (Z.of_nat (S j)) by lia. apply (inner_pair _ _ _ HR).
  change ((rs1 ++ rs2) !! j = Some r). rewrite lookup_app_l; [done|]. by eapply lookup_lt_Some.
Qed.

Lemma sorted_prefix (kvs1 kvs2 : separators) : sorted (kvs1 ++ kvs2) → sorted kvs1.
Proof.
  unfold sorted. induction kvs1 as [|kv kvs1 IH]; cbn; [constructor|].
  intros [Hs Hf]%StronglySorted_inv. rewrite map_app in Hf. apply Forall_app in Hf as [Hf _].
  constructor; auto.
Qed.

Lemma sorted_suffix (kvs1 kvs2 : separators) : sorted (kvs1 ++ kvs2) → sorted kvs2.
Proof.
  unfold sorted. induction kvs1 as [|kv kvs1 IH]; cbn; [done|]. intros [Hs _]%StronglySorted_inv. auto.
Qed.

Lemma space_app kvs1 kvs2 : space_of (kvs1 ++ kvs2) = space_of kvs1 + space_of kvs2.
Proof.
  unfold space_of. induction kvs1 as [|kv kvs1 IH]; cbn; [done|]. rewrite IH. lia.
Qed.

(** Consolidating the first children of a node. *)
Lemma consolidate_prefix m version :
  meta_count_with_fence m = 1 + zlen rs1 → children_is_leaf m = children_is_leaf (meta n) →
  0 <= version < 2 ^ 63 →
  ∃ n' r0' rs', consolidate (set_meta n m) version = Ret n' ∧ IRepr n' r0' rs' ∧
    ir_child r0' = ir_child r0 ∧ map ir_pair rs' = map ir_pair rs1 ∧
    version_lock n' = version_lock n ∧ disk_offset n' = disk_offset n ∧ is_root n' = is_root n ∧
    get_clean_snapshot_version n' = version ∧
    children_is_leaf (meta n') = children_is_leaf (meta n) ∧
    remaining_size (meta n') = max_data_size - 16 - space_of (map ir_pair rs1) ∧ get_split_flag (meta n') = false.
Proof.
  intros Hc Hcl Hv. pose proof (repr_space _ _ _ HR) as Hsp. pose proof (repr_pairs_ok _ _ _ HR) as Hok.
  pose proof (ir_sorted _ _ _ HR) as Hs. pose proof (lo_rem _ _ (ir_layout _ _ _ HR)).
  rewrite map_app in Hsp, Hok, Hs. rewrite space_app in Hsp. pose proof (space_nonneg (map ir_pair rs2)).
  destruct (consolidate_spec (set_meta n m) (map ir_pair rs1) (ir_child r0) version)
    as (n' & r0' & rs' & ? & ? & ? & ? & ? & ? & Hroot & ? & ? & ? & ?).
  - unfold count. cbn [meta set_meta]. rewrite Hc.
    replace (1 + zlen rs1 - 1) with (zlen rs1) by lia. exact read_prefix.
  - exact read_left.
  - apply (repr_raw_ok _ _ _ HR).
  - by apply Forall_app in Hok as [? _].
  - by eapply sorted_prefix.
  - lia.
  - pose proof (ir_ok _ _ _ HR) as Ho. apply Forall_cons in Ho as [(_ & ? & _) _]. done.
  - done.
  - exists n', r0', rs'. rewrite <- Hcl. by split_and!.
Qed.
End consolidate.

(** ** The builder *)
Lemma build_repr b left is_leaf version :
  left_most_page_id b = Some left → b_children_is_leaf b = Some is_leaf → raw_ok (raw_node b) →
  pid_ok left → Forall pair_ok (records b) → sorted (records b) →
  space_of (records b) + 16 <= max_data_size → 0 <= version < 2 ^ 63 →
  ∃ n' r0 rs, build b version = Ret n' ∧ IRepr n' r0 rs ∧ ir_child r0 = left ∧
    map ir_pair rs = records b ∧ version_lock n' = 0 ∧ is_root n' = false ∧
    disk_offset n' = default INVALID_DISK_OFFSET (b_disk_offset b) ∧
    get_clean_snapshot_version n' = version ∧ children_is_leaf (meta n') = is_leaf ∧
    remaining_size (meta n') = max_data_size - 16 - space_of (records b) ∧ get_split_flag (meta n') = false.
Proof.
  intros Hlm Hcl Hraw Hl Hok Hs Hsp Hv. unfold build. rewrite Hlm, Hcl. cbn [unwrap]. do 2 ret_step.
  destruct (reinitialize_repr (set_version_word (set_lock (raw_node b) 0) 0) left is_leaf
      (default INVALID_DISK_OFFSET (b_disk_offset b)) Hraw Hl)
    as (n1 & r0 & -> & HR1 & Hc & Hr1 & Hcl1 & Hsf & Hvl & Hdo & Hsv). ret_step.
  destruct (fill_repr build_insert (records b) n1 r0 []) as (n2 & rs & -> & HR & Hp & Hsame & Hrem);
    auto; [|lia|].
  { intros ? ? ? ? Hi. unfold build_insert. cbn [fst snd]. by rewrite Hi. }
  ret_step. destruct (set_snapshot_version_spec n2 version Hv) as (w & -> & Hclean & Hroot).
  destruct Hsame as (Hs1 & Hs2 & Hs3 & _ & Hs5 & Hs4 & _).
  exists (set_version_word n2 w), r0, rs. cbn [meta set_version_word version_lock disk_offset].
  split; [done|]. split; [by apply set_version_repr|]. split; [done|]. split; [done|].
  split; [by rewrite Hs1, Hvl|]. split; [by rewrite Hroot, is_root_bit, Hs3, Hsv|].
  split; [congruence|]. split; [done|]. split; [congruence|]. split; [lia|congruence].
Qed.

(** ** Splitting *)
Definition add_records (b : InnerNodeBuilder) (kvs : separators) : InnerNodeBuilder :=
  foldl (λ b kv, add_record b kv.1 kv.2) b kvs.

Lemma add_records_fields b kvs :
  let b' := add_records b kvs in
  records b' = records b ++ kvs ∧ left_most_page_id b' = left_most_page_id b ∧
  b_children_is_leaf b' = b_children_is_leaf b ∧ b_disk_offset b' = b_disk_offset b ∧
  raw_ptr b' = raw_ptr b ∧ raw_node b' = raw_node b.
Proof.
  cbv zeta. revert b. induction kvs as [|[k c] kvs IH]; intros b; cbn [add_records foldl].
  - by rewrite app_nil_r.
  - destruct (IH (add_record b k c)) as (H1 & H2 & H3 & H4 & H5 & H6).
    unfold add_records in *. cbn [fst snd]. rewrite H1, H2, H3, H4, H5, H6. cbn.
    by rewrite <- app_assoc.
Qed.

Lemma split_loop n r0 rs1 r rs2 b :
  IRepr n r0 (rs1 ++ r :: rs2) →
  foldM (split_step n (1 + zlen rs1)) b (seqZ 1 (zlen rs2)) = Ret (add_records b (map ir_pair rs2)).
Proof.
  intros HR. rewrite (foldM_seqZ _ (λ b r, Ret (add_record b (ir_key r) (ir_child r)))).
  - clear HR. revert b. induction rs2 as [|r' rs2 IH]; intros b; [done|]. cbn [foldM map].
    ret_step. apply IH.
  - intros b' j r' Hj. unfold split_step.
    replace (1 + zlen rs1 + (1 + Z.of_nat j)) with (Z.of_nat (S (length rs1 + S j))) by (unfold zlen; lia).
    rewrite (inner_pair _ _ _ HR _ r'); [done|].
    change ((rs1 ++ r :: rs2) !! (length rs1 + S j)%nat = Some r').
    rewrite lookup_app_r by lia. by replace (length rs1 + S j - length rs1)%nat with (S j) by lia.
Qed.

(** The node keeps the first half of its children, the builder gets the rest; the first
    separator of the rest moves up. *)
Lemma split_repr n r0 rs1 r rs2 b version :
  IRepr n r0 (rs1 ++ r :: rs2) →
  zlen rs1 = count n - count n / 2 - 1 → records b = [] → 0 <= version < 2 ^ 63 →
  ∃ n' r0' rs' b', split n b version = Ret (ir_key r, n', b') ∧
    IRepr n' r0' rs' ∧ ir_child r0' = ir_child r0 ∧ map ir_pair rs' = map ir_pair rs1 ∧
    version_lock n' = version_lock n ∧ disk_offset n' = disk_offset n ∧ is_root n' = is_root n ∧
    get_clean_snapshot_version n' = version ∧
    children_is_leaf (meta n') = children_is_leaf (meta n) ∧
    records b' = map ir_pair rs2 ∧ left_most_page_id b' = Some (ir_child r) ∧
    b_children_is_leaf b' = Some (children_is_leaf (meta n)) ∧
    b_disk_offset b' = b_disk_offset b ∧ raw_ptr b' = raw_ptr b ∧ raw_node b' = raw_node b ∧
    remaining_size (meta n') = max_data_size - 16 - space_of (map ir_pair rs1) ∧ get_split_flag (meta n') = false.
Proof.
  intros HR Hlen Hb Hv. pose proof (inner_count _ _ _ HR) as Hc. rewrite zlen_app, zlen_cons in Hc.
  pose proof (playout_fits _ _ _ (ir_layout _ _ _ HR)) as (_ & _ & Hmax).
  rewrite inner_slots_len, zlen_app, zlen_cons in Hmax.
  pose proof (zlen_nonneg rs1). pose proof (zlen_nonneg rs2).
  unfold split. replace (count n - count n / 2) with (1 + zlen rs1) by lia.
  assert ((r0 :: rs1 ++ r :: rs2) !! S (length rs1) = Some r) as Hi by (by apply list_lookup_middle).
  pose proof (inner_get _ _ _ HR _ _ Hi) as Hg.
  replace (Z.of_nat (S (length rs1))) with (1 + zlen rs1) in Hg by (unfold zlen; lia).
  rewrite Hg. ret_step. rewrite (inner_key _ _ _ HR _ _ Hi). ret_step.
  rewrite (inner_value _ _ _ HR _ _ Hi). ret_step.
  replace (count n / 2 - 1) with (zlen rs2) by lia. rewrite (split_loop _ _ _ _ _ _ HR). ret_step.
  destruct (set_value_count_spec (meta n) (1 + zlen rs1)) as (_ & Hc1 & (_ & _ & Hf & _) & _ & _).
  { apply (lo_word _ _ (ir_layout _ _ _ HR)). }
  { lia. }
  destruct (consolidate_prefix n r0 rs1 (r :: rs2) HR _ version Hc1 Hf Hv)
    as (n' & r0' & rs' & -> & HR' & ? & ? & ? & ? & ? & ? & ? & ? & ?). ret_step.
  set (b1 := set_left_most_page_id _ _).
  destruct (add_records_fields b1 (map ir_pair rs2)) as (E1 & E2 & E3 & E4 & E5 & E6).
  exists n', r0', rs', (add_records b1 (map ir_pair rs2)). rewrite E1, E2, E3, E4, E5, E6.
  cbn [b1 set_left_most_page_id set_children_is_leaf records left_most_page_id b_children_is_leaf
       b_disk_offset raw_ptr raw_node]. rewrite Hb. by split_and!.
Qed.

(** ** Redirecting a child *)
Lemma update_at_pos_repr n r0 rs pos child :
  IRepr n r0 rs → 0 <= pos < count n → pid_ok child →
  ∃ n' r0' rs', update_at_pos n pos child = Ret n' ∧ IRepr n' r0' rs' ∧ meta n' = meta n ∧
    same_inner n n' ∧ map ir_key rs' = map ir_key rs ∧
    map ir_child (r0' :: rs') = <[Z.to_nat pos:=child]> (map ir_child (r0 :: rs)).
Proof.
  intros HR Hpos Hc. pose proof (inner_count _ _ _ HR) as Hcnt.
  pose proof (playout_fits _ _ _ (ir_layout _ _ _ HR)) as (_ & _ & Hmax). rewrite inner_slots_len in Hmax.
  unfold update_at_pos. rewrite as_u16_id by (unfold U16; lia).
  destruct (lookup_lt_is_Some_2 (r0 :: rs) (Z.to_nat pos)) as [r Hr]; [cbn [length]; unfold zlen in *; lia|].
  pose proof (inner_get _ _ _ HR _ _ Hr) as Hg. rewrite Z2Nat.id in Hg by lia. rewrite Hg. ret_step.
  rewrite (ir_key_len r (inner_rec_ok _ _ _ HR _ _ Hr)).
  change (Z.max (zlen (ir_key r)) KEY_LOOK_AHEAD_SIZE - KEY_LOOK_AHEAD_SIZE) with (post_key_len (ir_key r)).
  change (offset (s_meta (ir_slot r))) with (ir_off r).
  destruct (Z.to_nat pos) as [|i] eqn:Ei.
  - injection Hr as <-. destruct (write_left_repr _ _ _ HR child Hc) as (n' & Hw & HR' & Hm & Hs).
    rewrite (ir_dummy _ _ _ HR). change (post_key_len []) with 0. rewrite Z.add_0_r, Hw.
    by exists n', (with_child r0 child), rs.
  - change (rs !! i = Some r) in Hr.
    destruct (write_child_repr _ _ _ HR i r child Hr Hc) as (n' & -> & HR' & Hm & Hs).
    exists n', r0, (<[i:=with_child r child]> rs). split_and!; try done; try apply Hs.
    + change (map ?f ?l) with (f <$> l). rewrite list_fmap_insert. cbn [with_child ir_key].
      by rewrite list_insert_id by by rewrite list_lookup_fmap, Hr.
    + cbn. f_equal. apply (list_fmap_insert ir_child).
Qed.
