(* ===== verification/InnerTheorems.v ===== *)
(** The properties of inner nodes (src/nodes/inner_node.rs). *)
From stdpp Require Import base numbers list option sorting.
From Stdlib Require Import ZArith Lia.
From S2P Require Import Prelude Bits NodeMeta PageLayout InnerNode InnerRepr InnerSearch InnerInsert InnerSplit.

(** A well-formed node, and what its readers return. *)
Definition inner_wf (n : InnerNode) : Prop := ∃ r0 rs, IRepr n r0 rs.

Definition inner_view (n : InnerNode) : outcome (PageID * separators) :=
  left ← (m0 ← get_kv_meta n 0; get_value n m0);
  kvs ← mapM (read_pair n) (seqZ 1 (count n - 1));
  Ret (left, kvs).

(** The descent step of a traversal: search, then follow the child at that position. *)
Definition next_child (n : InnerNode) (key : bytes) : outcome PageID :=
  pos ← lower_bound n key; m ← get_kv_meta n (as_u16 pos); get_value n m.

Lemma view_repr n r0 rs : IRepr n r0 rs → inner_view n = Ret (ir_child r0, map ir_pair rs).
Proof.
  intros HR. unfold inner_view. rewrite <- (app_nil_r rs) in HR. rewrite (read_left _ _ _ _ HR). ret_step.
  rewrite app_nil_r in HR. rewrite (inner_pairs _ _ _ HR). done.
Qed.

Lemma view_inv n left kvs :
  inner_wf n → inner_view n = Ret (left, kvs) →
  ∃ r0 rs, IRepr n r0 rs ∧ left = ir_child r0 ∧ kvs = map ir_pair rs.
Proof.
  intros (r0 & rs & HR) Hv. rewrite (view_repr _ _ _ HR) in Hv. injection Hv as <- <-. by exists r0, rs.
Qed.

Lemma next_child_repr n r0 rs key :
  IRepr n r0 rs → next_child n key = Ret (route (ir_child r0) (map ir_pair rs) key).
Proof.
  intros HR. unfold next_child. rewrite (inner_lower_bound _ _ _ HR). ret_step.
  pose proof (rank_length key (map ir_pair rs)) as Hr. rewrite length_map in Hr.
  pose proof (playout_fits _ _ _ (ir_layout _ _ _ HR)) as (_ & _ & Hmax).
  rewrite inner_slots_len in Hmax. rewrite as_u16_id by (unfold U16, zlen in *; lia).
  destruct (lookup_lt_is_Some_2 (r0 :: rs) (rank key (map ir_pair rs))) as [r Hi]; [cbn; lia|].
  rewrite (inner_get _ _ _ HR _ _ Hi). ret_step. rewrite (inner_value _ _ _ HR _ _ Hi), route_rank.
  destruct (rank key (map ir_pair rs)) as [|i]; cbn in Hi |- *; [by injection Hi as ->|].
  change (map ir_pair rs !! i) with ((ir_pair <$> rs) !! i).
  rewrite list_lookup_fmap. change (rs !! i = Some r) in Hi. by rewrite Hi.
Qed.

(** Inserting a separator changes the route of the keys it is the closest one for. *)
Lemma route_put left sk c kvs key :
  sorted kvs → sk ∉ map fst kvs →
  route left (put sk c kvs) key =
    if decide (rank key kvs = rank sk kvs) then
      match cmp_bytes sk key with Gt => route left kvs key | _ => c end
    else route left kvs key.
Proof.
  unfold sorted. revert left. induction kvs as [|[k0 c0] kvs IH]; intros left Hs Hn; cbn in *.
  - rewrite decide_True by done. by destruct (cmp_bytes sk key).
  - apply StronglySorted_inv in Hs as [Hs Hf]. apply not_elem_of_cons in Hn as [Hne Hn].
    destruct (cmp_bytes k0 sk) eqn:E0; [by apply cmp_eq in E0 as ->| |].
    + cbn. destruct (cmp_bytes k0 key) eqn:E1.
      * rewrite IH by done. repeat case_decide; try done; lia.
      * rewrite IH by done. repeat case_decide; try done; lia.
      * by rewrite decide_False by lia.
    + cbn. apply cmp_gt_lt in E0. destruct (cmp_bytes k0 key) eqn:E1; cbn.
      * apply cmp_eq in E1 as <-. unfold bytes_lt in E0. by rewrite E0, decide_False by lia.
      * assert (bytes_lt sk key) as Hlt by by eapply cmp_lt_trans.
        unfold bytes_lt in Hlt. by rewrite Hlt, decide_False by lia.
      * rewrite decide_True by done. by destruct (cmp_bytes sk key).
Qed.

Section shared.
Context (n : InnerNode) (r0 : irec) (rs : list irec) (key : bytes) (child : PageID).
Hypotheses (HR : IRepr n r0 rs) (Hk : bytes_ok key) (Hlen : zlen key <= MAX_KEY_LEN) (Hc : pid_ok child).

Lemma short_key : ikey_ok key ∧ 16 <= required_len key < U16.
Proof.
  pose proof (zlen_nonneg key). pose proof (required_pos key).
  unfold MAX_KEY_LEN, ikey_ok, U16, required_len, post_key_len, KEY_LOOK_AHEAD_SIZE, PAGE_ID_SIZE, KV_META_SIZE in *.
  split; [split; [exact Hk|lia]|lia].
Qed.

Lemma insert_cases :
  (have_space_for n key = false ∧ insert n key child = Ret (false, n)) ∨
  (have_space_for n key = true ∧
   ∃ n' rs', insert n key child = Ret (true, n') ∧ IRepr n' r0 rs' ∧
     map ir_pair rs' = put key child (map ir_pair rs) ∧ same_inner n n').
Proof.
  destruct short_key as [Hik Hreq].
  pose proof (inner_insert_repr n r0 rs HR key child Hik (proj2 Hreq) Hc) as Hins. cbv zeta in Hins.
  unfold have_space_for. rewrite as_u16_id by lia.
  zcase (remaining_size (meta n) <? required_len key).
  - left. split; [by apply Z.leb_gt|done].
  - right. split; [by apply Z.leb_le|]. destruct Hins as (n' & rs' & ? & ? & ? & ? & _).
    by exists n', rs'.
Qed.
End shared.

(** The middle separator of a node with at least two children. *)
Lemma split_at_middle n r0 rs :
  IRepr n r0 rs → 2 <= count n →
  ∃ rs1 r rs2, rs = rs1 ++ r :: rs2 ∧ zlen rs1 = count n - count n / 2 - 1.
Proof.
  intros HR Hc. rewrite (inner_count _ _ _ HR) in *. set (i := Z.to_nat (1 + zlen rs - (1 + zlen rs) / 2 - 1)).
  assert (0 <= 1 + zlen rs - (1 + zlen rs) / 2 - 1 < zlen rs) as Hi by dlia.
  destruct (lookup_lt_is_Some_2 rs i) as [r Hr]; [unfold i, zlen in *; lia|].
  exists (take i rs), r, (drop (S i) rs). split; [by rewrite take_drop_middle|].
  unfold zlen at 1. rewrite length_take. unfold i, zlen in *. lia.
Qed.

(** Reading back the image of a node. *)
Lemma node_of_image pad n :
  zlen pad = 2 → 0 <= encoded (meta n) < U16 → 0 <= node_size (meta n) < U16 →
  0 <= remaining_size (meta n) < U16 → 0 <= version_lock n < 2 ^ 64 →
  0 <= disk_offset n < 2 ^ 64 → 0 <= snapshot_version n < 2 ^ 64 → zlen (data n) = max_data_size →
  node_of_bytes (as_slice pad n) = n.
Proof.
  destruct n as [[e ns r] vl off sv dd]. cbn [meta encoded node_size remaining_size version_lock
    disk_offset snapshot_version data]. intros Hpad He Hn Hr Hv Ho Hs Hd.
  unfold node_of_bytes, as_slice. cbn [meta encoded node_size remaining_size version_lock
    disk_offset snapshot_version data]. rewrite <- (app_nil_r dd) at 1 2 3 4 5 6 7.
  assert (∀ z, zlen (le_bytes 2 z) = 2) as H2 by (intros; unfold zlen; by rewrite length_le_bytes).
  assert (∀ z, zlen (le_bytes 8 z) = 8) as H8 by (intros; unfold zlen; by rewrite length_le_bytes).
  f_equal; [f_equal|..];
    repeat (rewrite sub_skip by (rewrite ?H2, ?H8, ?Hpad; lia); rewrite ?H2, ?H8, ?Hpad);
    rewrite sub_head by (rewrite ?H2, ?H8, ?Hd; done); try done; by apply le_val_bytes.
Qed.

Section inner.
Implicit Types (n : InnerNode) (key : bytes) (child left : PageID) (kvs : separators).

(** C20: the descent step of a traversal succeeds on every well-formed inner node and
    every key and returns the child of the last separator that is not above the key, or
    the left-most child when all separators are above it: the binary search with its
    four-byte look-ahead agrees with a left-to-right scan of the separators. *)
Theorem next_child_correct n key left kvs :
  inner_wf n → inner_view n = Ret (left, kvs) → next_child n key = Ret (route left kvs key).
Proof.
  intros Hwf Hv. destruct (view_inv _ _ _ Hwf Hv) as (r0 & rs & HR & -> & ->).
  by apply next_child_repr.
Qed.

(** C21: inserting a separator into a well-formed inner node either reports that the
    record does not fit and changes nothing, or keeps the node well-formed and makes its
    separators the sorted ones with the new one added, an equal separator having its
    child replaced; the lock word, the disk offset, the version word and the flags stay.
    Which of the two happens is what [have_space_for] says. *)
Theorem inner_insert_correct n key child left kvs :
  inner_wf n → inner_view n = Ret (left, kvs) →
  bytes_ok key → zlen key <= MAX_KEY_LEN → pid_ok child →
  (have_space_for n key = false ∧ insert n key child = Ret (false, n)) ∨
  (have_space_for n key = true ∧
   ∃ n', insert n key child = Ret (true, n') ∧ inner_wf n' ∧
     inner_view n' = Ret (left, put key child kvs) ∧ same_inner n n').
Proof.
  intros Hwf Hv Hk Hlen Hc. destruct (view_inv _ _ _ Hwf Hv) as (r0 & rs & HR & -> & ->).
  destruct (insert_cases n r0 rs key child HR Hk Hlen Hc) as [?|(? & n' & rs' & Hi & HR' & Hp & Hs)];
    [by left|]. right. split; [done|]. exists n'. split; [done|]. split; [by exists r0, rs'|].
  split; [|done]. by rewrite (view_repr _ _ _ HR'), Hp.
Qed.

(** After a separator for a new right sibling has been inserted, the keys routed to
    the child it splits that are not below the separator go to the sibling, and every
    other key is routed as before. *)
Theorem inner_insert_routes n n' sk child key left kvs :
  inner_wf n → inner_view n = Ret (left, kvs) → sk ∉ map fst kvs →
  bytes_ok sk → zlen sk <= MAX_KEY_LEN → pid_ok child → insert n sk child = Ret (true, n') →
  next_child n' key =
    if decide (lower_bound n key = lower_bound n sk ∧ cmp_bytes sk key ≠ Gt)
    then Ret child else next_child n key.
Proof.
  intros Hwf Hv Hnew Hk Hlen Hc Hins. destruct (view_inv _ _ _ Hwf Hv) as (r0 & rs & HR & -> & ->).
  destruct (insert_cases n r0 rs sk child HR Hk Hlen Hc) as [[_ Hf]|(_ & n1 & rs1 & Ht & HR1 & Hp & _)];
    [congruence|]. rewrite Ht in Hins. injection Hins as <-.
  rewrite (next_child_repr _ _ _ key HR1), (next_child_repr _ _ _ key HR), Hp.
  rewrite route_put by (apply HR || done). rewrite !(inner_lower_bound _ _ _ HR).
  destruct (decide (rank key (map ir_pair rs) = rank sk (map ir_pair rs))) as [Heq|Hne].
  - rewrite Heq. destruct (cmp_bytes sk key) eqn:E; [by rewrite decide_True|by rewrite decide_True|].
    rewrite decide_False; [done|]. by intros [_ []].
  - rewrite decide_False; [done|]. intros [[= Hz%Nat2Z.inj] _]. done.
Qed.

(** C22: splitting a well-formed inner node with at least two children succeeds: the node
    keeps the lower half of its children, the node that the builder then builds holds
    the upper half, both are well-formed, and for every key the original route is the
    route in the lower node when the key is below the returned separator and the route in
    the upper node otherwise.  No child is lost or duplicated. *)
Theorem inner_split_correct n b version left kvs :
  inner_wf n → inner_view n = Ret (left, kvs) → 2 <= count n →
  records b = [] → raw_ok (raw_node b) → 0 <= version < 2 ^ 63 →
  ∃ sk c kvs1 kvs2 n' b' right,
    kvs = kvs1 ++ (sk, c) :: kvs2 ∧
    split n b version = Ret (sk, n', b') ∧ build b' version = Ret right ∧
    inner_wf n' ∧ inner_view n' = Ret (left, kvs1) ∧
    inner_wf right ∧ inner_view right = Ret (c, kvs2) ∧
    is_root n' = is_root n ∧ is_root right = false ∧
    children_is_leaf (meta n') = children_is_leaf (meta n) ∧
    children_is_leaf (meta right) = children_is_leaf (meta n) ∧
    ∀ key, next_child n key =
      match cmp_bytes sk key with Gt => next_child n' key | _ => next_child right key end.
Proof.
  intros Hwf Hv Hcnt Hb Hraw Hver. destruct (view_inv _ _ _ Hwf Hv) as (r0 & rs & HR & -> & ->).
  destruct (split_at_middle n r0 rs HR Hcnt) as (rs1 & r & rs2 & -> & Hlen).
  destruct (split_repr n r0 rs1 r rs2 b version HR Hlen Hb Hver) as
    (n' & r0' & rs' & b' & Hsp & HR' & Hl & Hp & _ & _ & Hroot & _ & Hcl & Hrec & Hlm & Hbl & _ & _ & Hrn & _).
  pose proof (ir_sorted _ _ _ HR) as Hs. rewrite map_app in Hs. cbn [map] in Hs.
  assert (sorted (map ir_pair rs2)) as Hs2.
  { apply (sorted_suffix (map ir_pair rs1 ++ [ir_pair r])). by rewrite <- app_assoc. }
  pose proof (repr_pairs_ok _ _ _ HR) as Hok. rewrite map_app in Hok. cbn [map] in Hok.
  apply Forall_app in Hok as [_ [Hr Hok]%Forall_cons].
  pose proof (repr_space _ _ _ HR) as Hspace. rewrite map_app, space_app in Hspace.
  change (space_of (map ir_pair (r :: rs2))) with (required_len (ir_key r) + space_of (map ir_pair rs2)) in Hspace.
  pose proof (space_nonneg (map ir_pair rs1)). pose proof (required_pos (ir_key r)).
  pose proof (lo_rem _ _ (ir_layout _ _ _ HR)).
  destruct (build_repr b' (ir_child r) (children_is_leaf (meta n)) version) as
    (right & q0 & qs & Hbuild & HRq & Hql & Hqp & _ & Hqroot & _ & _ & Hqcl & _);
    rewrite ?Hrec, ?Hrn; auto; [apply Hr|lia|].
  exists (ir_key r), (ir_child r), (map ir_pair rs1), (map ir_pair rs2), n', b', right.
  split; [by rewrite map_app|]. split; [done|]. split; [done|]. split; [by exists r0', rs'|].
  split; [by rewrite (view_repr _ _ _ HR'), Hl, Hp|]. split; [by exists q0, qs|].
  split; [by rewrite (view_repr _ _ _ HRq), Hql, Hqp, Hrec|]. split_and!; try done. intros key.
  rewrite (next_child_repr _ _ _ key HR), (next_child_repr _ _ _ key HR'), (next_child_repr _ _ _ key HRq).
  rewrite Hl, Hp, Hql, Hqp, Hrec, map_app. cbn [map]. rewrite (route_app _ _ (ir_key r) (ir_child r)) by done.
  by destruct (cmp_bytes (ir_key r) key).
Qed.

(** Consolidating a well-formed inner node keeps its children, its separators, its
    lock word, its disk offset and its root flag, stores the given snapshot version, and
    frees all the space not taken by the live records. *)
Theorem inner_consolidate_correct n version left kvs :
  inner_wf n → inner_view n = Ret (left, kvs) → 0 <= version < 2 ^ 63 →
  ∃ n', consolidate n version = Ret n' ∧ inner_wf n' ∧ inner_view n' = Ret (left, kvs) ∧
    version_lock n' = version_lock n ∧ disk_offset n' = disk_offset n ∧
    is_root n' = is_root n ∧ get_clean_snapshot_version n' = version ∧
    remaining_size (meta n') = max_data_size - 16 - space_of kvs ∧
    remaining_size (meta n) <= remaining_size (meta n').
Proof.
  intros Hwf Hv Hver. destruct (view_inv _ _ _ Hwf Hv) as (r0 & rs & HR & -> & ->).
  pose proof (repr_space _ _ _ HR). pose proof HR as HR0. rewrite <- (app_nil_r rs) in HR0.
  destruct (consolidate_prefix n r0 rs [] HR0 (meta n) version (inner_count _ _ _ HR) eq_refl Hver)
    as (n' & r0' & rs' & Hc & HR' & Hl & Hp & ? & ? & ? & ? & _ & Hrem & _).
  replace (set_meta n (meta n)) with n in Hc by by destruct n.
  exists n'. split; [done|]. split; [by exists r0', rs'|].
  split; [by rewrite (view_repr _ _ _ HR'), Hl, Hp|]. split_and!; try done. lia.
Qed.

(** Redirecting the child at a position changes that child and nothing else. *)
Theorem update_at_pos_correct n pos child left kvs :
  inner_wf n → inner_view n = Ret (left, kvs) → 0 <= pos < count n → pid_ok child →
  ∃ n' left' kvs', update_at_pos n pos child = Ret n' ∧ inner_wf n' ∧
    inner_view n' = Ret (left', kvs') ∧ map fst kvs' = map fst kvs ∧
    left' :: map snd kvs' = <[Z.to_nat pos:=child]> (left :: map snd kvs) ∧
    meta n' = meta n ∧ same_inner n n'.
Proof.
  intros Hwf Hv Hpos Hc. destruct (view_inv _ _ _ Hwf Hv) as (r0 & rs & HR & -> & ->).
  destruct (update_at_pos_repr n r0 rs pos child HR Hpos Hc)
    as (n' & r0' & rs' & Hu & HR' & Hm & Hs & Hk & Hch).
  exists n', (ir_child r0'), (map ir_pair rs'). rewrite (view_repr _ _ _ HR'), !map_map.
  split; [done|]. split; [by exists r0', rs'|]. split; [done|]. split; [exact Hk|]. by split.
Qed.

Lemma image_read pad n r0 rs b :
  IRepr n r0 rs → zlen pad = 2 → 0 <= version_lock n < 2 ^ 64 → 0 <= disk_offset n < 2 ^ 64 → 0 <= snapshot_version n < 2 ^ 64 →
  zlen (as_slice pad n) = INNER_NODE_SIZE ∧ build_from_slice b (as_slice pad n) = Ret (set_lock n 0).
Proof.
  intros HR Hpad Hv Ho Hs. destruct (repr_raw_ok _ _ _ HR) as [Hd _].
  pose proof (playout_fits _ _ _ (ir_layout _ _ _ HR)) as (Hf & _ & _).
  pose proof (lo_rem _ _ (ir_layout _ _ _ HR)). rewrite inner_slots_len in Hf. pose proof (zlen_nonneg rs).
  assert (zlen (as_slice pad n) = INNER_NODE_SIZE) as Hlen.
  { unfold as_slice. rewrite !zlen_app, Hpad, Hd. unfold zlen. rewrite !length_le_bytes. done. }
  split; [done|]. unfold build_from_slice. rewrite slice_ok by (rewrite ?Hlen; done). ret_step.
  rewrite <- Hlen, sub_all. rewrite node_of_image; try done.
  - apply (lo_word _ _ (ir_layout _ _ _ HR)).
  - by rewrite (ir_node _ _ _ HR).
  - change max_data_size with 4064 in Hd. unfold U16, KV_META_SIZE in *. lia.
Qed.

(** C23: the image of a well-formed inner node, written to a disk page and read back into
    fresh memory, is the node with its lock released, whatever the padding bytes are. *)
Theorem inner_image_roundtrip pad n b :
  inner_wf n → zlen pad = 2 → 0 <= version_lock n < 2 ^ 64 → 0 <= disk_offset n < 2 ^ 64 →
  0 <= snapshot_version n < 2 ^ 64 →
  zlen (as_slice pad n) = INNER_NODE_SIZE ∧
  build_from_slice b (as_slice pad n) = Ret (set_lock n 0).
Proof. intros (r0 & rs & HR) Hpad Hv Ho Hs. by eapply image_read. Qed.
End inner.

(** ** Witnesses: a node built over uninitialised memory *)
Definition fresh_memory : InnerNode :=
  mkInnerNode (mkNodeMeta 0xABCD 7 9) 5 6 (2 ^ 64 - 1) (replicate 4064 170).

Definition sample_builder : InnerNodeBuilder :=
  add_records
    (set_children_is_leaf (set_left_most_page_id (builder_new 4096 fresh_memory) (from_id 1)) true)
    [([98], from_id 2); ([98; 99; 100; 101; 102], from_id 3); ([98; 99; 100; 101; 103; 1], from_id 4)].

Definition sample_node : InnerNode :=
  match build sample_builder 17 with Ret n => n | Panic => fresh_memory end.

Definition sample_seps : separators := records sample_builder.

Lemma fresh_raw_ok : raw_ok fresh_memory.
Proof. split; [by vm_compute|]. apply Forall_replicate. unfold byte_ok. lia. Qed.

Lemma small_key_ok k : forallb (λ b, (0 <=? b) && (b <? 256)) k = true → bytes_ok k.
Proof.
  intros H. apply Forall_forall. intros b Hb. rewrite forallb_forall in H.
  apply list_elem_of_In, H in Hb. zbool. by split.
Qed.

Lemma inner_sample_wf : inner_wf sample_node.
Proof.
  destruct (build_repr sample_builder (from_id 1) true 17) as (n' & r0 & rs & Hb & HR & _).
  - reflexivity.
  - reflexivity.
  - exact fresh_raw_ok.
  - by vm_compute.
  - change (Forall pair_ok sample_seps). repeat constructor; try by vm_compute.
    all: by apply small_key_ok.
  - change (sorted sample_seps). unfold sorted. repeat constructor.
  - by vm_compute.
  - lia.
  - exists r0, rs. unfold sample_node. by rewrite Hb.
Qed.

Lemma sample_view : inner_view sample_node = Ret (from_id 1, sample_seps).
Proof. by vm_compute. Qed.

Lemma next_child_correct_witness :
  next_child sample_node [98; 99; 100; 101; 102; 0] = Ret (from_id 3).
Proof. rewrite (next_child_correct sample_node _ _ _ inner_sample_wf sample_view). by vm_compute. Defined.

Lemma inner_insert_correct_witness :
  ∃ n', insert sample_node [97] (from_id 9) = Ret (true, n') ∧
    inner_view n' = Ret (from_id 1, ([97], from_id 9) :: sample_seps).
Proof.
  destruct (inner_insert_correct sample_node [97] (from_id 9) _ _ inner_sample_wf sample_view)
    as [[Hf _]|(_ & n' & Hi & _ & Hv & _)]; [by apply small_key_ok|by vm_compute|by vm_compute| |].
  - exfalso. vm_compute in Hf. discriminate.
  - exists n'. split; [exact Hi|exact Hv].
Defined.

Definition sample_after : InnerNode :=
  match insert sample_node [97] (from_id 9) with Ret (_, n) => n | Panic => sample_node end.

Lemma sample_after_ok : insert sample_node [97] (from_id 9) = Ret (true, sample_after).
Proof. by vm_compute. Qed.

Lemma sample_new_key : ([97] : bytes) ∉ map fst sample_seps.
Proof. apply (bool_decide_unpack _). by vm_compute. Qed.

Lemma inner_insert_routes_witness : next_child sample_after [97; 200] = Ret (from_id 9).
Proof.
  rewrite (inner_insert_routes sample_node sample_after [97] (from_id 9) [97; 200] _ _
    inner_sample_wf sample_view sample_new_key).
  - by vm_compute.
  - by apply small_key_ok.
  - by vm_compute.
  - by vm_compute.
  - exact sample_after_ok.
Defined.

Lemma inner_split_correct_witness :
  ∃ sk n' b' right,
    split sample_node (builder_new 8192 fresh_memory) 18 = Ret (sk, n', b') ∧
    build b' 18 = Ret right ∧ inner_wf n' ∧ inner_wf right.
Proof.
  destruct (inner_split_correct sample_node (builder_new 8192 fresh_memory) 18 _ _ inner_sample_wf sample_view)
    as (sk & c & kvs1 & kvs2 & n' & b' & right & _ & Hs & Hb & Hw & _ & Hw' & _).
  - by vm_compute.
  - reflexivity.
  - exact fresh_raw_ok.
  - lia.
  - exists sk, n', b', right. split; [exact Hs|]. split; [exact Hb|]. split; [exact Hw|exact Hw'].
Defined.

Lemma inner_consolidate_correct_witness :
  ∃ n', consolidate sample_node 19 = Ret n' ∧ get_clean_snapshot_version n' = 19.
Proof.
  destruct (inner_consolidate_correct sample_node 19 _ _ inner_sample_wf sample_view)
    as (n' & Hc & _ & _ & _ & _ & _ & Hv & _); [lia|]. exists n'. split; [exact Hc|exact Hv].
Defined.

Lemma update_at_pos_correct_witness :
  ∃ n', update_at_pos sample_node 2 (from_id 12) = Ret n' ∧ inner_wf n'.
Proof.
  destruct (update_at_pos_correct sample_node 2 (from_id 12) _ _ inner_sample_wf sample_view)
    as (n' & _ & _ & Hu & Hw & _); [by vm_compute|by vm_compute|].
  exists n'. split; [exact Hu|exact Hw].
Defined.

Lemma inner_image_roundtrip_witness :
  build_from_slice (builder_new 4096 fresh_memory) (as_slice [7; 7] sample_node) =
    Ret (set_lock sample_node 0).
Proof.
  apply (inner_image_roundtrip [7; 7] sample_node); [apply inner_sample_wf|..]; by vm_compute.
Defined.
