(* ===== verification/SizeClasses.v ===== *)
(** The size classes of memory pages (src/tree.rs, [create_mem_page_size_classes]) and the
    guarantees its documentation states for merging and splitting. *)
From stdpp Require Import base numbers list option sorting.
From Stdlib Require Import ZArith Lia.
From S2P Require Import Prelude Bits NodeMeta LeafNode.

(** [base.pow(e)] on [i32]. *)
Definition pow2_i32 (e : Z) : outcome Z := if e <? 31 then Ret (2 ^ e) else Panic.

(** Rounding up to the cache line, as the code writes it. *)
Definition align_line (s : Z) : Z :=
  if s mod CACHE_LINE_SIZE =? 0 then s else (s / CACHE_LINE_SIZE + 1) * CACHE_LINE_SIZE.

Definition class_at (c e : Z) : outcome Z :=
  p ← pow2_i32 e; Ret (align_line (p * c + LEAF_HEADER)).

(** [if classes.is_empty() || last < s { push }] *)
Definition push_larger (classes : list Z) (s : Z) : list Z :=
  match last classes with
  | None => classes ++ [s]
  | Some l => if l <? s then classes ++ [s] else classes
  end.

Fixpoint class_loop (c max_mini e size_class : Z) (classes : list Z) (fuel : nat) :
    outcome (list Z) :=
  match fuel with
  | O => Panic
  | S fuel' =>
      if size_class <=? max_mini then
        next ← class_at c (e + 1);
        class_loop c max_mini (e + 1) next (push_larger classes size_class) fuel'
      else Ret classes
  end.

Definition is_empty (l : list Z) : bool := match l with [] => true | _ => false end.

(** The largest mini page size that leaves room for merging (splitting, in cache-only
    mode). *)
Definition largest_mini (record leaf_page max_fence : Z) (cache_only : bool) : outcome Z :=
  if cache_only then
    m ← subu leaf_page record;
    _ ← assert_ (2 * record + LEAF_HEADER <=? leaf_page);
    Ret (m / CACHE_LINE_SIZE * CACHE_LINE_SIZE)
  else
    m1 ← subu leaf_page record;
    m2 ← subu m1 max_fence;
    m ← subu m2 (2 * KV_META_SIZE);
    let mini := m / CACHE_LINE_SIZE * CACHE_LINE_SIZE in
    _ ← assert_ (record + LEAF_HEADER <=? mini);
    Ret mini.

Definition create_mem_page_size_classes (min_record max_record leaf_page max_fence : Z)
    (cache_only : bool) : outcome (list Z) :=
  _ ← assert_ (1 <? min_record);
  _ ← assert_ (min_record <=? max_record);
  _ ← assert_ (0 <? max_fence);
  _ ← assert_ (max_fence / 2 <? max_record);
  _ ← assert_ (leaf_page <=? MAX_LEAF_PAGE_SIZE);
  _ ← assert_ (max_fence / 2 <=? MAX_KEY_LEN);
  _ ← assert_ (leaf_page / min_record <=? 4096);
  _ ← assert_ (leaf_page mod (if cache_only then CACHE_LINE_SIZE else DISK_PAGE_SIZE) =? 0);
  let record := max_record + KV_META_SIZE in
  max_mini ← largest_mini record leaf_page max_fence cache_only;
  let c := min_record + KV_META_SIZE in
  first ← class_at c 0;
  classes ← class_loop c max_mini 0 first [] 32;
  _ ← (if cache_only then Ret tt else assert_ (negb (is_empty classes)));
  let classes1 := push_larger classes max_mini in
  let classes2 := push_larger classes1 leaf_page in
  _ ← assert_ (if cache_only then negb (is_empty classes2) else 2 <=? zlen classes2);
  Ret classes2.

(** ** Lemmas *)
Definition ascending (l : list Z) : Prop := StronglySorted Z.lt l.

Definition on_line (s : Z) : Prop := s mod CACHE_LINE_SIZE = 0.

Lemma align_line_spec s : on_line (align_line s) ∧ s <= align_line s < s + CACHE_LINE_SIZE.
Proof.
  unfold align_line, on_line, CACHE_LINE_SIZE. zcase (s mod 64 =? 0); [lia|].
  rewrite Z.mod_mul by lia. dlia.
Qed.

(** An aligned bound that is met stays met after rounding up. *)
Lemma align_line_le s b : on_line b → s <= b → align_line s <= b.
Proof. pose proof (align_line_spec s) as [H1 H2]. unfold on_line, CACHE_LINE_SIZE in *. dlia. Qed.

Lemma ascending_last l m : ascending l → last l = Some m → Forall (λ x, x <= m) l.
Proof.
  unfold ascending. induction l as [|x l IH]; [done|]. intros [Hs Hf]%StronglySorted_inv Hl.
  destruct l as [|y l]; [injection Hl as <-; by repeat constructor|].
  rewrite last_cons_cons in Hl. pose proof (IH Hs Hl) as Hall. constructor; [|done].
  apply Forall_cons in Hf as [? _], Hall as [? _]. lia.
Qed.

Lemma ascending_snoc l s : ascending l → Forall (λ x, x < s) l → ascending (l ++ [s]).
Proof.
  unfold ascending. induction l as [|x l IH]; intros Hs Hf; cbn; [by repeat constructor|].
  apply StronglySorted_inv in Hs as [Hs Hx]. apply Forall_cons in Hf as [? Hf].
  constructor; [by apply IH|]. apply Forall_app. split; [done|]. by constructor.
Qed.

(** Pushing keeps the order and ends in the larger of the two. *)
Lemma push_larger_spec l s :
  ascending l → Forall on_line l → on_line s →
  ascending (push_larger l s) ∧ Forall on_line (push_larger l s) ∧
  last (push_larger l s) = Some (match last l with Some m => Z.max m s | None => s end).
Proof.
  intros Ha Hl Hs. unfold push_larger. destruct (last l) as [m|] eqn:E.
  - pose proof (ascending_last l m Ha E) as Hm. zcase (m <? s).
    + split; [|split].
      * apply ascending_snoc; [done|]. eapply Forall_impl; [exact Hm|]. cbn. lia.
      * apply Forall_app. by split; [|constructor].
      * rewrite last_snoc. f_equal. lia.
    + split_and!; [done..|]. rewrite E. f_equal. lia.
  - apply last_None in E as ->. cbn. split_and!; [by repeat constructor|by constructor|done].
Qed.

Lemma push_larger_Forall (Q : Z → Prop) l s : Forall Q l → Q s → Forall Q (push_larger l s).
Proof.
  intros Hl Hs. unfold push_larger. assert (Forall Q (l ++ [s])) by (apply Forall_app; by split; [|constructor]).
  destruct (last l) as [m|]; [|done]. by destruct (m <? s).
Qed.

Section loop.
Context (c max_mini : Z).
Hypotheses (Hc : 10 <= c) (Hline : on_line max_mini) (Hmax : max_mini <= MAX_LEAF_PAGE_SIZE).

Lemma class_at_spec e :
  0 <= e < 31 → ∃ s, class_at c e = Ret s ∧ on_line s ∧ 2 ^ e * c + LEAF_HEADER <= s ∧
    (2 ^ e * c + LEAF_HEADER <= max_mini → s <= max_mini).
Proof.
  intros He. unfold class_at, pow2_i32. rewrite (proj2 (Z.ltb_lt _ _)) by lia. ret_step.
  eexists. split; [done|]. destruct (align_line_spec (2 ^ e * c + LEAF_HEADER)) as [H1 H2].
  split_and!; [done|lia|]. by apply align_line_le.
Qed.

(** The loop ends: the classes double, and a page has at most 2^15 bytes. *)
Lemma class_loop_spec fuel e s l :
  0 <= e → 13 < e + Z.of_nat fuel → e <= 13 → (e = 13 → max_mini < s) →
  2 ^ e * c + LEAF_HEADER <= s → on_line s →
  ascending l → Forall on_line l → Forall (λ x, 0 < x <= max_mini) l →
  ∃ l', class_loop c max_mini e s l fuel = Ret l' ∧ ascending l' ∧ Forall on_line l' ∧
    Forall (λ x, 0 < x <= max_mini) l' ∧ (l ≠ [] ∨ s <= max_mini → l' ≠ []).
Proof.
  revert e s l. induction fuel as [|fuel IH]; intros e s l H0 Hf He Hend Hs Hos Ha Hol Hle; [lia|].
  cbn [class_loop]. zcase (s <=? max_mini).
  - destruct (class_at_spec (e + 1)) as (s' & -> & Hs1 & Hs2 & _); [lia|]. ret_step.
    destruct (push_larger_spec l s Ha Hol Hos) as (Ha' & Hol' & Hlast).
    destruct (decide (e = 13)) as [->|]; [specialize (Hend eq_refl); lia|].
    assert (push_larger l s ≠ []) as Hne by (intros Hn; by rewrite Hn in Hlast).
    assert (Forall (λ x, 0 < x <= max_mini) (push_larger l s)) as Hle'.
    { apply push_larger_Forall; [done|]. pose proof (Z.pow_pos_nonneg 2 e ltac:(lia) H0). unfold LEAF_HEADER in Hs. nia. }
    destruct (IH (e + 1) s' (push_larger l s)) as (l' & -> & ? & ? & ? & Hn); auto; try lia.
    { intros He13. assert (2 ^ (e + 1) = 8192) as Hp by by rewrite He13.
      unfold MAX_LEAF_PAGE_SIZE in *. unfold LEAF_HEADER in *. lia. }
    exists l'. split_and!; auto.
  - exists l. split_and!; auto. intros [?|?]; [done|lia].
Qed.
End loop.

(** The list ends with the largest mini page and the full page. *)
Lemma classes_tail l mini leaf :
  ascending l → Forall (λ x, 0 < x <= mini) l → mini < leaf →
  ∃ front, push_larger (push_larger l mini) leaf = front ++ [mini; leaf].
Proof.
  intros Ha Hle Hlt. assert (∃ front, push_larger l mini = front ++ [mini]) as [front ->].
  { unfold push_larger. destruct (last l) as [m|] eqn:E; [|by exists l].
    zcase (m <? mini); [by exists l|]. apply last_Some in E as [l' ->]. exists l'.
    apply Forall_app in Hle as [_ [? _]%Forall_cons]. do 2 f_equal. lia. }
  exists front. unfold push_larger. rewrite last_snoc, (proj2 (Z.ltb_lt _ _)) by done.
  by rewrite <- app_assoc.
Qed.

(** The largest mini page. *)
Definition max_mini_of (max_record leaf_page max_fence : Z) (cache_only : bool) : Z :=
  (if cache_only then leaf_page - (max_record + KV_META_SIZE)
   else leaf_page - (max_record + KV_META_SIZE) - max_fence - 2 * KV_META_SIZE)
  / CACHE_LINE_SIZE * CACHE_LINE_SIZE.

(** What the assertions ask of the configuration. *)
Record params_ok (min_record max_record leaf_page max_fence : Z) (cache_only : bool) : Prop := {
  po_min : 1 < min_record <= max_record;
  po_fence : 0 < max_fence;
  po_half : max_fence / 2 < max_record ∧ max_fence / 2 <= MAX_KEY_LEN;
  po_leaf : leaf_page <= MAX_LEAF_PAGE_SIZE;
  po_count : leaf_page / min_record <= 4096;
  po_line : leaf_page mod (if cache_only then CACHE_LINE_SIZE else DISK_PAGE_SIZE) = 0;
  po_room : if cache_only then 2 * (max_record + KV_META_SIZE) + LEAF_HEADER <= leaf_page
            else max_record + KV_META_SIZE + LEAF_HEADER
                 <= max_mini_of max_record leaf_page max_fence false;
}.

Section classes.
Context (min_record max_record leaf_page max_fence : Z) (cache_only : bool).
Hypothesis HP : params_ok min_record max_record leaf_page max_fence cache_only.
Let mini := max_mini_of max_record leaf_page max_fence cache_only.
Let c := min_record + KV_META_SIZE.

Lemma mini_bounds :
  on_line mini ∧ on_line leaf_page ∧ 10 <= c ∧ 0 <= mini ∧
  mini + (max_record + KV_META_SIZE) + (if cache_only then 0 else max_fence + 2 * KV_META_SIZE)
    <= leaf_page ∧ mini < leaf_page.
Proof.
  destruct HP as [Hm Hf Hh Hl _ Hln Hr]. unfold on_line, mini, c, max_mini_of, KV_META_SIZE,
    CACHE_LINE_SIZE, LEAF_HEADER, DISK_PAGE_SIZE in *.
  rewrite Z.mod_mul by lia. destruct cache_only; dlia.
Qed.

(** The branches that compute the largest mini page agree with its closed form. *)
Lemma mini_computed : largest_mini (max_record + KV_META_SIZE) leaf_page max_fence cache_only = Ret mini.
Proof.
  destruct mini_bounds as (_ & _ & Hc & H0 & Hb & _). pose proof (po_room _ _ _ _ _ HP) as Hr.
  pose proof (po_fence _ _ _ _ _ HP). unfold largest_mini, mini, max_mini_of in *.
  assert (0 < KV_META_SIZE) by done. destruct cache_only.
  - rewrite subu_ok by lia. ret_step. by rewrite (proj2 (Z.leb_le _ _) Hr).
  - rewrite !subu_ok by lia. ret_step. rewrite !subu_ok by lia. ret_step. rewrite subu_ok by lia.
    ret_step. by rewrite (proj2 (Z.leb_le _ _) Hr).
Qed.

Lemma classes_spec :
  ∃ front,
    create_mem_page_size_classes min_record max_record leaf_page max_fence cache_only =
      Ret (front ++ [mini; leaf_page]) ∧ ascending (front ++ [mini; leaf_page]) ∧
    Forall on_line (front ++ [mini; leaf_page]) ∧
    (CACHE_LINE_SIZE < leaf_page → Forall (λ c, 8 <= c <= MAX_LEAF_PAGE_SIZE) (front ++ [mini; leaf_page])).
Proof.
  destruct mini_bounds as (Hl1 & Hl2 & Hc & H0 & Hmini & Hlt). pose proof HP as [Hm Hf Hh Hl Hcnt Hln Hr].
  destruct (class_at_spec c mini Hl1 0) as (s & Hs & Hs1 & Hs2 & Hs3); [lia|].
  change (2 ^ 0) with 1 in *.
  pose proof (class_loop_spec c mini Hc Hl1 ltac:(lia) 32 0 s []) as Hloop.
  destruct Hloop as (l & Hloop & Ha & Ho & Hle & Hne); try lia; try done; try by constructor.
  assert (cache_only = false → is_empty l = false) as Hnonempty.
  { intros Hco. destruct l; [|done]. exfalso. apply Hne; [|done]. right. apply Hs3.
    unfold mini, c in *. rewrite Hco in *. unfold KV_META_SIZE, LEAF_HEADER in *. lia. }
  destruct (classes_tail l mini leaf_page Ha Hle Hlt) as (front & Hfront).
  destruct (push_larger_spec l mini Ha Ho Hl1) as (Ha1 & Ho1 & _).
  destruct (push_larger_spec _ leaf_page Ha1 Ho1 Hl2) as (Ha2 & Ho2 & _).
  exists front. rewrite <- Hfront. split_and!; [|done|done|].
  2:{ intros Hbig. assert (0 < mini) as Hm0.
      { unfold mini, max_mini_of, KV_META_SIZE, CACHE_LINE_SIZE, LEAF_HEADER in *. destruct cache_only; dlia. }
      assert (Forall (λ c, 0 < c <= MAX_LEAF_PAGE_SIZE) (push_larger (push_larger l mini) leaf_page)) as Hpos.
      { repeat apply push_larger_Forall; [|lia..]. eapply Forall_impl; [exact Hle|]. cbn. lia. }
      apply Forall_forall. intros x Hx. rewrite Forall_forall in Hpos, Ho2. specialize (Hpos x Hx). specialize (Ho2 x Hx).
      unfold on_line, CACHE_LINE_SIZE in Ho2. cbn in Hpos. dlia. }
  unfold create_mem_page_size_classes.
  rewrite (assert_true (1 <? _)) by (apply Z.ltb_lt; lia). ret_step.
  rewrite (assert_true (min_record <=? _)) by (apply Z.leb_le; lia). ret_step.
  rewrite (assert_true (0 <? _)) by (apply Z.ltb_lt; lia). ret_step.
  rewrite (assert_true (_ / 2 <? _)) by (apply Z.ltb_lt; lia). ret_step.
  rewrite (assert_true (leaf_page <=? _)) by (apply Z.leb_le; lia). ret_step.
  rewrite (assert_true (_ / 2 <=? _)) by (apply Z.leb_le; lia). ret_step.
  rewrite (assert_true (_ <=? 4096)) by (apply Z.leb_le; lia). ret_step.
  rewrite (assert_true (_ =? _)) by (by apply Z.eqb_eq). ret_step.
  rewrite mini_computed. ret_step. fold c. rewrite Hs. ret_step. fold mini. rewrite Hloop. ret_step.
  assert (negb (is_empty (push_larger (push_larger l mini) leaf_page)) = true ∧
          (2 <=? zlen (push_larger (push_larger l mini) leaf_page)) = true) as [He1 He2].
  { rewrite Hfront. split; [by destruct front|]. apply Z.leb_le. rewrite zlen_app. pose proof (zlen_nonneg front).
    rewrite !zlen_cons, zlen_nil. lia. }
  destruct cache_only; ret_step; [by rewrite He1|].
  rewrite Hnonempty by done. cbn [negb assert_]. ret_step. by rewrite He2.
Qed.
End classes.

(** C30: for every configuration that passes the assertions the size classes are computed:
    strictly ascending multiples of the cache line that end with the largest mini page
    and the leaf page, where the leaf page exceeds the largest mini page by a record with
    its descriptor (and, outside cache-only mode, both fences with theirs), so that a full
    mini page and one more record always fit, and a record always fits the largest mini
    page (half a page, in cache-only mode). *)
Theorem size_classes_correct min_record max_record leaf_page max_fence cache_only :
  params_ok min_record max_record leaf_page max_fence cache_only →
  ∃ front mini,
    create_mem_page_size_classes min_record max_record leaf_page max_fence cache_only =
      Ret (front ++ [mini; leaf_page]) ∧
    StronglySorted Z.lt (front ++ [mini; leaf_page]) ∧
    Forall (λ s, s mod CACHE_LINE_SIZE = 0) (front ++ [mini; leaf_page]) ∧
    (if cache_only then max_record + KV_META_SIZE <= leaf_page - mini ∧
                        2 * (max_record + KV_META_SIZE) <= leaf_page - LEAF_HEADER
     else max_record + KV_META_SIZE <= leaf_page - mini - (2 * KV_META_SIZE + max_fence) ∧
          max_record + KV_META_SIZE + LEAF_HEADER <= mini).
Proof.
  intros HP. destruct (classes_spec _ _ _ _ _ HP) as (front & Hc & Ha & Ho & _).
  destruct (mini_bounds _ _ _ _ _ HP) as (_ & _ & _ & _ & Hb & _).
  pose proof (po_room _ _ _ _ _ HP) as Hr.
  exists front, (max_mini_of max_record leaf_page max_fence cache_only). split; [done|].
  split; [done|]. split; [done|]. destruct cache_only; lia.
Qed.

Lemma assert_inv {A} b (k : unit → outcome A) x :
  (u ← assert_ b; k u) = Ret x → b = true ∧ k tt = Ret x.
Proof. destruct b; [done|]. intros H. discriminate H. Qed.

Lemma subu_inv {A} a b (k : Z → outcome A) x :
  (u ← subu a b; k u) = Ret x → b <= a ∧ k (a - b) = Ret x.
Proof. unfold subu. zcase (b <=? a); [done|]. intros H. discriminate H. Qed.

Lemma classes_inv min_record max_record leaf_page max_fence cache_only l :
  create_mem_page_size_classes min_record max_record leaf_page max_fence cache_only = Ret l →
  params_ok min_record max_record leaf_page max_fence cache_only.
Proof.
  intros H. unfold create_mem_page_size_classes in H.
  do 8 (let E := fresh "E" in apply assert_inv in H as [E H]). zbool.
  inv_ret H. clear H. split; try done.
  unfold largest_mini in Ha. destruct cache_only.
  - apply subu_inv in Ha as [? Ha]. apply assert_inv in Ha as [? _]. zbool. done.
  - do 3 (apply subu_inv in Ha as [? Ha]). apply assert_inv in Ha as [? _]. zbool. done.
Qed.

(** The computation succeeds exactly for the configurations that satisfy the stated
    requirements; every other configuration stops it. *)
Theorem size_classes_defined min_record max_record leaf_page max_fence cache_only :
  (∃ l, create_mem_page_size_classes min_record max_record leaf_page max_fence cache_only = Ret l) ↔
  params_ok min_record max_record leaf_page max_fence cache_only.
Proof.
  split; [intros [l Hl]; by eapply classes_inv|].
  intros HP. destruct (classes_spec _ _ _ _ _ HP) as (front & Hc & _). by eexists.
Qed.

(** The configuration of the default tree. *)
Lemma default_params : params_ok 4 1952 4096 32 false.
Proof. split; done. Qed.

Lemma size_classes_correct_witness :
  ∃ front mini, create_mem_page_size_classes 4 1952 4096 32 false = Ret (front ++ [mini; 4096]).
Proof.
  destruct (size_classes_correct _ _ _ _ _ default_params) as (front & mini & H & _). by exists front, mini.
Defined.
