(* ===== verification/Config.v ===== *)
(** The configuration (src/config.rs): defaults, constructors, setters and [validate],
    and what a validated configuration gives to the constructors that assert on it.

    The copy-on-access ratio is a floating point number that the definitions only carry
    around: its type and its default are arguments.  Error messages are left out of the
    errors, but the arithmetic of their arguments is kept, since it can overflow. *)
From stdpp Require Import base numbers list option strings.
From Stdlib Require Import ZArith Lia.
From S2P Require Import Prelude Bits NodeMeta LeafNode SizeClasses.

Definition DEFAULT_PROMOTION_RATE_DEBUG : Z := 50.
Definition DEFAULT_PROMOTION_RATE_RLEASE : Z := 30.
Definition DEFAULT_MAX_MINI_PAGE_SIZE : Z := 2048.
Definition DEFAULT_CIRCULAR_BUFFER_SIZE : Z := 1024 * 1024 * 32.
Definition DEFAULT_MIN_RECORD_SIZE : Z := 4.
Definition DEFAULT_MAX_RECORD_SIZE : Z := 1952.
Definition DEFAULT_LEAF_PAGE_SIZE : Z := 4096.
Definition DEFAULT_MAX_KEY_LEN : Z := 16.

Inductive StorageBackend := Memory | Std | StdDirect | IoUringPolling | IoUringBlocking | Spdk.

Global Instance StorageBackend_eq_dec : EqDecision StorageBackend.
Proof. solve_decision. Defined.

(** [StorageBackend::default()] *)
Definition StorageBackend_default : StorageBackend := Std.

Record WalConfig := mkWalConfig {
  wal_file_path : string;
  flush_interval_ms : Z;
  segment_size : Z;
  wal_storage_backend : StorageBackend;
}.

Definition WalConfig_new (path : string) : WalConfig :=
  mkWalConfig path 1 (1024 * 1024 * 1024) Std.

Definition set_flush_interval (w : WalConfig) (ms : Z) : WalConfig :=
  mkWalConfig (wal_file_path w) ms (segment_size w) (wal_storage_backend w).
Definition set_segment_size (w : WalConfig) (size : Z) : WalConfig :=
  mkWalConfig (wal_file_path w) (flush_interval_ms w) size (wal_storage_backend w).
Definition set_wal_storage_backend (w : WalConfig) (backend : StorageBackend) : WalConfig :=
  mkWalConfig (wal_file_path w) (flush_interval_ms w) (segment_size w) backend.

Inductive ConfigError :=
| MinimumRecordSize | MaximumRecordSize | LeafPageSize | MaxKeyLen | CircularBufferSize
| SnapshotFileInvalid | SnapshotDisabled.

Section config.
Context {F : Type} (DEFAULT_COPY_ON_ACCESS_RATIO : F).

Record Config := mkConfig {
  read_promotion_rate : Z;
  scan_promotion_rate : Z;
  storage_backend : StorageBackend;
  snapshot_backend : StorageBackend;
  cb_size_byte : Z;
  cb_min_record_size : Z;
  cb_max_record_size : Z;
  leaf_page_size : Z;
  cb_max_key_len : Z;
  max_fence_len : Z;
  cb_copy_on_access_ratio : F;
  read_record_cache : bool;
  file_path : string;
  use_snapshot : bool;
  snapshot_version : Z;
  max_mini_page_size : Z;
  mini_page_binary_search : bool;
  write_ahead_log : option WalConfig;
  write_load_full_page : bool;
  cache_only : bool;
}.

(** [cfg!(debug_assertions)] is an argument. *)
Definition default_rate (debug : bool) : Z :=
  if debug then DEFAULT_PROMOTION_RATE_DEBUG else DEFAULT_PROMOTION_RATE_RLEASE.

Definition Config_default (debug : bool) : Config := {|
  snapshot_version := 0;
  read_promotion_rate := default_rate debug;
  scan_promotion_rate := default_rate debug;
  use_snapshot := false;
  cb_size_byte := DEFAULT_CIRCULAR_BUFFER_SIZE;
  cb_min_record_size := DEFAULT_MIN_RECORD_SIZE;
  cb_max_record_size := DEFAULT_MAX_RECORD_SIZE;
  leaf_page_size := DEFAULT_LEAF_PAGE_SIZE;
  cb_max_key_len := DEFAULT_MAX_KEY_LEN;
  max_fence_len := DEFAULT_MAX_KEY_LEN * 2;
  cb_copy_on_access_ratio := DEFAULT_COPY_ON_ACCESS_RATIO;
  file_path := "";
  read_record_cache := true;
  max_mini_page_size := DEFAULT_MAX_MINI_PAGE_SIZE;
  mini_page_binary_search := true;
  storage_backend := Memory;
  snapshot_backend := Std;
  write_ahead_log := None;
  write_load_full_page := true;
  cache_only := false |}.

(** The record with the fields that the sizes depend on replaced. *)
Definition with_sizes (c : Config) (min max leaf key fence cb : Z) : Config :=
  mkConfig (read_promotion_rate c) (scan_promotion_rate c) (storage_backend c)
    (snapshot_backend c) cb min max leaf key fence (cb_copy_on_access_ratio c)
    (read_record_cache c) (file_path c) (use_snapshot c) (snapshot_version c)
    (max_mini_page_size c) (mini_page_binary_search c) (write_ahead_log c)
    (write_load_full_page c) (cache_only c).

Definition set_cb_max_key_len (c : Config) (k : Z) : Config :=
  with_sizes c (cb_min_record_size c) (cb_max_record_size c) (leaf_page_size c) k (k * 2)
    (cb_size_byte c).
Definition set_max_fence_len (c : Config) (f : Z) : Config :=
  with_sizes c (cb_min_record_size c) (cb_max_record_size c) (leaf_page_size c)
    (cb_max_key_len c) f (cb_size_byte c).
Definition set_cb_min_record_size (c : Config) (s : Z) : Config :=
  with_sizes c s (cb_max_record_size c) (leaf_page_size c) (cb_max_key_len c)
    (max_fence_len c) (cb_size_byte c).
Definition set_cb_max_record_size (c : Config) (s : Z) : Config :=
  with_sizes c (cb_min_record_size c) s (leaf_page_size c) (cb_max_key_len c)
    (max_fence_len c) (cb_size_byte c).
Definition set_leaf_page_size (c : Config) (s : Z) : Config :=
  with_sizes c (cb_min_record_size c) (cb_max_record_size c) s (cb_max_key_len c)
    (max_fence_len c) (cb_size_byte c).
Definition set_cb_size_byte (c : Config) (s : Z) : Config :=
  with_sizes c (cb_min_record_size c) (cb_max_record_size c) (leaf_page_size c)
    (cb_max_key_len c) (max_fence_len c) s.

(** The other setters. *)
Definition set_storage_backend (c : Config) (x : StorageBackend) : Config :=
  mkConfig (read_promotion_rate c) (scan_promotion_rate c) x (snapshot_backend c) (cb_size_byte c)
    (cb_min_record_size c) (cb_max_record_size c) (leaf_page_size c) (cb_max_key_len c)
    (max_fence_len c) (cb_copy_on_access_ratio c) (read_record_cache c) (file_path c)
    (use_snapshot c) (snapshot_version c) (max_mini_page_size c) (mini_page_binary_search c)
    (write_ahead_log c) (write_load_full_page c) (cache_only c).
Definition set_write_load_full_page (c : Config) (x : bool) : Config :=
  mkConfig (read_promotion_rate c) (scan_promotion_rate c) (storage_backend c) (snapshot_backend c)
    (cb_size_byte c) (cb_min_record_size c) (cb_max_record_size c) (leaf_page_size c)
    (cb_max_key_len c) (max_fence_len c) (cb_copy_on_access_ratio c) (read_record_cache c)
    (file_path c) (use_snapshot c) (snapshot_version c) (max_mini_page_size c)
    (mini_page_binary_search c) (write_ahead_log c) x (cache_only c).
Definition set_scan_promotion_rate (c : Config) (x : Z) : Config :=
  mkConfig (read_promotion_rate c) x (storage_backend c) (snapshot_backend c) (cb_size_byte c)
    (cb_min_record_size c) (cb_max_record_size c) (leaf_page_size c) (cb_max_key_len c)
    (max_fence_len c) (cb_copy_on_access_ratio c) (read_record_cache c) (file_path c)
    (use_snapshot c) (snapshot_version c) (max_mini_page_size c) (mini_page_binary_search c)
    (write_ahead_log c) (write_load_full_page c) (cache_only c).
Definition set_read_record_cache (c : Config) (x : bool) : Config :=
  mkConfig (read_promotion_rate c) (scan_promotion_rate c) (storage_backend c) (snapshot_backend c)
    (cb_size_byte c) (cb_min_record_size c) (cb_max_record_size c) (leaf_page_size c)
    (cb_max_key_len c) (max_fence_len c) (cb_copy_on_access_ratio c) x (file_path c)
    (use_snapshot c) (snapshot_version c) (max_mini_page_size c) (mini_page_binary_search c)
    (write_ahead_log c) (write_load_full_page c) (cache_only c).
Definition set_max_mini_page_size (c : Config) (x : Z) : Config :=
  mkConfig (read_promotion_rate c) (scan_promotion_rate c) (storage_backend c) (snapshot_backend c)
    (cb_size_byte c) (cb_min_record_size c) (cb_max_record_size c) (leaf_page_size c)
    (cb_max_key_len c) (max_fence_len c) (cb_copy_on_access_ratio c) (read_record_cache c)
    (file_path c) (use_snapshot c) (snapshot_version c) x (mini_page_binary_search c)
    (write_ahead_log c) (write_load_full_page c) (cache_only c).
Definition set_mini_page_binary_search (c : Config) (x : bool) : Config :=
  mkConfig (read_promotion_rate c) (scan_promotion_rate c) (storage_backend c) (snapshot_backend c)
    (cb_size_byte c) (cb_min_record_size c) (cb_max_record_size c) (leaf_page_size c)
    (cb_max_key_len c) (max_fence_len c) (cb_copy_on_access_ratio c) (read_record_cache c)
    (file_path c) (use_snapshot c) (snapshot_version c) (max_mini_page_size c) x (write_ahead_log c)
    (write_load_full_page c) (cache_only c).
Definition set_read_promotion_rate (c : Config) (x : Z) : Config :=
  mkConfig x (scan_promotion_rate c) (storage_backend c) (snapshot_backend c) (cb_size_byte c)
    (cb_min_record_size c) (cb_max_record_size c) (leaf_page_size c) (cb_max_key_len c)
    (max_fence_len c) (cb_copy_on_access_ratio c) (read_record_cache c) (file_path c)
    (use_snapshot c) (snapshot_version c) (max_mini_page_size c) (mini_page_binary_search c)
    (write_ahead_log c) (write_load_full_page c) (cache_only c).
Definition set_cb_copy_on_access_ratio (c : Config) (x : F) : Config :=
  mkConfig (read_promotion_rate c) (scan_promotion_rate c) (storage_backend c) (snapshot_backend c)
    (cb_size_byte c) (cb_min_record_size c) (cb_max_record_size c) (leaf_page_size c)
    (cb_max_key_len c) (max_fence_len c) x (read_record_cache c) (file_path c) (use_snapshot c)
    (snapshot_version c) (max_mini_page_size c) (mini_page_binary_search c) (write_ahead_log c)
    (write_load_full_page c) (cache_only c).
Definition set_cache_only (c : Config) (x : bool) : Config :=
  mkConfig (read_promotion_rate c) (scan_promotion_rate c) (storage_backend c) (snapshot_backend c)
    (cb_size_byte c) (cb_min_record_size c) (cb_max_record_size c) (leaf_page_size c)
    (cb_max_key_len c) (max_fence_len c) (cb_copy_on_access_ratio c) (read_record_cache c)
    (file_path c) (use_snapshot c) (snapshot_version c) (max_mini_page_size c)
    (mini_page_binary_search c) (write_ahead_log c) (write_load_full_page c) x.
Definition set_file_path (c : Config) (x : string) : Config :=
  mkConfig (read_promotion_rate c) (scan_promotion_rate c) (storage_backend c) (snapshot_backend c)
    (cb_size_byte c) (cb_min_record_size c) (cb_max_record_size c) (leaf_page_size c)
    (cb_max_key_len c) (max_fence_len c) (cb_copy_on_access_ratio c) (read_record_cache c) x
    (use_snapshot c) (snapshot_version c) (max_mini_page_size c) (mini_page_binary_search c)
    (write_ahead_log c) (write_load_full_page c) (cache_only c).
Definition set_use_snapshot (c : Config) (x : bool) : Config :=
  mkConfig (read_promotion_rate c) (scan_promotion_rate c) (storage_backend c) (snapshot_backend c)
    (cb_size_byte c) (cb_min_record_size c) (cb_max_record_size c) (leaf_page_size c)
    (cb_max_key_len c) (max_fence_len c) (cb_copy_on_access_ratio c) (read_record_cache c)
    (file_path c) x (snapshot_version c) (max_mini_page_size c) (mini_page_binary_search c)
    (write_ahead_log c) (write_load_full_page c) (cache_only c).
Definition set_snapshot_version (c : Config) (x : Z) : Config :=
  mkConfig (read_promotion_rate c) (scan_promotion_rate c) (storage_backend c) (snapshot_backend c)
    (cb_size_byte c) (cb_min_record_size c) (cb_max_record_size c) (leaf_page_size c)
    (cb_max_key_len c) (max_fence_len c) (cb_copy_on_access_ratio c) (read_record_cache c)
    (file_path c) (use_snapshot c) x (max_mini_page_size c) (mini_page_binary_search c)
    (write_ahead_log c) (write_load_full_page c) (cache_only c).
Definition enable_write_ahead_log (c : Config) (x : WalConfig) : Config :=
  mkConfig (read_promotion_rate c) (scan_promotion_rate c) (storage_backend c) (snapshot_backend c)
    (cb_size_byte c) (cb_min_record_size c) (cb_max_record_size c) (leaf_page_size c)
    (cb_max_key_len c) (max_fence_len c) (cb_copy_on_access_ratio c) (read_record_cache c)
    (file_path c) (use_snapshot c) (snapshot_version c) (max_mini_page_size c)
    (mini_page_binary_search c) (Some x) (write_load_full_page c) (cache_only c).

(** [Config::new]: the kind of storage is in the path's prefix. *)
Definition Config_new (debug : bool) (path : string) (circular_buffer_size : Z) : Config :=
  let is_memory := String.prefix ":memory:" path in
  let is_cache := String.prefix ":cache:" path in
  let cache_only := if is_memory then false else is_cache in
  let backend := if is_memory then Memory else if is_cache then Memory else StorageBackend_default in
  set_file_path (set_cb_size_byte (set_cache_only (set_storage_backend (Config_default debug) backend)
    cache_only) circular_buffer_size) path.

(** A configuration file that has been read and parsed. *)
Record ConfigFile := mkConfigFile {
  cf_cb_size_byte : Z;
  cf_cb_min_record_size : Z;
  cf_cb_max_record_size : Z;
  cf_cb_max_key_len : Z;
  cf_leaf_page_size : Z;
  cf_index_file_path : string;
  cf_use_snapshot : bool;
  cf_snapshot_version : Z;
  cf_backend_storage : string;
  cf_read_promotion_rate : Z;
  cf_write_load_full_page : bool;
  cf_cache_only : bool;
}.

Definition new_with_config_file (debug : bool) (f : ConfigFile) : Config := {|
  snapshot_version := cf_snapshot_version f;
  read_promotion_rate := cf_read_promotion_rate f;
  scan_promotion_rate := default_rate debug;
  use_snapshot := cf_use_snapshot f;
  cb_size_byte := cf_cb_size_byte f;
  cb_min_record_size := cf_cb_min_record_size f;
  cb_max_record_size := cf_cb_max_record_size f;
  leaf_page_size := cf_leaf_page_size f;
  cb_max_key_len := cf_cb_max_key_len f;
  max_fence_len := cf_cb_max_key_len f * 2;
  cb_copy_on_access_ratio := DEFAULT_COPY_ON_ACCESS_RATIO;
  file_path := cf_index_file_path f;
  read_record_cache := true;
  max_mini_page_size := DEFAULT_MAX_MINI_PAGE_SIZE;
  mini_page_binary_search := true;
  storage_backend := if bool_decide (cf_backend_storage f = "disk"%string) then StorageBackend_default else Memory;
  snapshot_backend := Std;
  write_ahead_log := None;
  write_load_full_page := cf_write_load_full_page f;
  cache_only := cf_cache_only f |}.

Definition get_cb_max_record_size (c : Config) : Z := cb_max_record_size c.
Definition get_cb_size_byte (c : Config) : Z := cb_size_byte c.
Definition get_leaf_page_size (c : Config) : Z := leaf_page_size c.
Definition is_memory_backend (c : Config) : bool := bool_decide (storage_backend c = Memory).

(** ** Validation *)
(** The checks on the largest record, cache-only or not. *)
Definition validate_records (c : Config) : outcome (option ConfigError) :=
  let record := cb_max_record_size c + KV_META_SIZE in
  if cache_only c then
    if leaf_page_size c <? 2 * record + LEAF_HEADER then
      a ← subu (leaf_page_size c) LEAF_HEADER;
      _ ← subu (a / 2) KV_META_SIZE;
      Ret (Some MaximumRecordSize)
    else Ret None
  else
    a ← subu (leaf_page_size c) (max_fence_len c);
    room ← subu a (2 * KV_META_SIZE);
    if room <? record then Ret (Some MaximumRecordSize)
    else
      m1 ← subu (leaf_page_size c) record;
      m2 ← subu m1 (max_fence_len c);
      m3 ← subu m2 (2 * KV_META_SIZE);
      let mini := m3 / CACHE_LINE_SIZE * CACHE_LINE_SIZE in
      if mini <? record + LEAF_HEADER then
        b ← subu mini LEAF_HEADER;
        _ ← subu b KV_META_SIZE;
        Ret (Some MaximumRecordSize)
      else Ret None.

(** [None] is [Ok(())]. *)
Definition validate (c : Config) : outcome (option ConfigError) :=
  if cb_min_record_size c <=? 1 then Ret (Some MinimumRecordSize)
  else if cb_max_record_size c <? cb_min_record_size c then Ret (Some MaximumRecordSize)
  else if max_fence_len c =? 0 then Ret (Some MaxKeyLen)
  else if cb_max_record_size c <? max_fence_len c / 2 then Ret (Some MaxKeyLen)
  else if MAX_LEAF_PAGE_SIZE <? leaf_page_size c then Ret (Some LeafPageSize)
  else if MAX_KEY_LEN <? max_fence_len c / 2 then Ret (Some MaxKeyLen)
  else if negb (is_power_of_two (cb_size_byte c)) then Ret (Some CircularBufferSize)
  else if 4096 <? leaf_page_size c / cb_min_record_size c then Ret (Some MinimumRecordSize)
  else if negb (cache_only c) && negb (leaf_page_size c mod DISK_PAGE_SIZE =? 0)
  then Ret (Some LeafPageSize)
  else if cache_only c && negb (leaf_page_size c mod CACHE_LINE_SIZE =? 0)
  then Ret (Some LeafPageSize)
  else
    e ← validate_records c;
    match e with
    | Some e => Ret (Some e)
    | None =>
        if cache_only c then
          if cb_size_byte c <? 4 * leaf_page_size c then Ret (Some CircularBufferSize) else Ret None
        else if cb_size_byte c <? 2 * leaf_page_size c then Ret (Some CircularBufferSize)
        else Ret None
    end.

(** The fields are unsigned. *)
Definition sizes_unsigned (c : Config) : Prop :=
  0 <= cb_min_record_size c ∧ 0 <= cb_max_record_size c ∧ 0 <= leaf_page_size c ∧
  0 <= max_fence_len c ∧ 0 <= cb_size_byte c.

Lemma validate_records_ok c :
  sizes_unsigned c → validate_records c = Ret None →
  if cache_only c
  then 2 * (cb_max_record_size c + KV_META_SIZE) + LEAF_HEADER <= leaf_page_size c
  else cb_max_record_size c + KV_META_SIZE + LEAF_HEADER
       <= max_mini_of (cb_max_record_size c) (leaf_page_size c) (max_fence_len c) false.
Proof.
  intros Hu. unfold validate_records, max_mini_of. destruct (cache_only c).
  - zcase (leaf_page_size c <? 2 * (cb_max_record_size c + KV_META_SIZE) + LEAF_HEADER); [|done].
    intros H. apply subu_inv in H as [_ H]. by apply subu_inv in H as [_ H].
  - intros H. apply subu_inv in H as [H1 H]. apply subu_inv in H as [H2 H].
    zcase (leaf_page_size c - max_fence_len c - 2 * KV_META_SIZE <? cb_max_record_size c + KV_META_SIZE); [done|].
    do 3 (apply subu_inv in H as [? H]). cbv zeta in H.
    match type of H with (if ?b then _ else _) = _ => destruct b eqn:E2 end.
    + apply subu_inv in H as [_ H]. by apply subu_inv in H as [_ H].
    + by apply Z.ltb_ge in E2.
Qed.

(** What a configuration that passes [validate] has. *)
Lemma validated c :
  sizes_unsigned c → validate c = Ret None → max_fence_len c / 2 < cb_max_record_size c →
  params_ok (cb_min_record_size c) (cb_max_record_size c) (leaf_page_size c) (max_fence_len c)
    (cache_only c) ∧
  is_power_of_two (cb_size_byte c) = true ∧ leaf_page_size c + 8 <= cb_size_byte c.
Proof.
  intros Hu H Hstrict. unfold validate in H.
  repeat match type of H with
  | (if ?b then Ret (Some _) else _) = _ => destruct b eqn:?; [done|]
  end. zbool. inv_ret H. destruct a; [done|]. pose proof (validate_records_ok c Hu Ha) as Hr.
  assert (params_ok (cb_min_record_size c) (cb_max_record_size c) (leaf_page_size c)
    (max_fence_len c) (cache_only c)) as HP.
  { destruct Hu as (?&?&?&?&?). split; try lia; [|done].
    destruct (cache_only c); cbn [negb andb] in *; zbool; done. }
  split; [done|]. split; [done|].
  destruct (mini_bounds _ _ _ _ _ HP) as (_ & _ & _ & ? & ? & ?). pose proof (po_min _ _ _ _ _ HP).
  assert (0 < KV_META_SIZE) by done. pose proof (po_fence _ _ _ _ _ HP).
  destruct (cache_only c).
  - zcase (cb_size_byte c <? 4 * leaf_page_size c); [done|]. unfold KV_META_SIZE in *. lia.
  - zcase (cb_size_byte c <? 2 * leaf_page_size c); [done|]. unfold KV_META_SIZE in *. lia.
Qed.

(** C31: a configuration that passes [validate] and whose longest key is shorter than its
    longest record satisfies every assertion of the size class computation, and its
    circular buffer has a power-of-two size that holds a leaf page with its header. *)
Theorem validate_sound c :
  sizes_unsigned c → validate c = Ret None → max_fence_len c / 2 < cb_max_record_size c →
  params_ok (cb_min_record_size c) (cb_max_record_size c) (leaf_page_size c) (max_fence_len c)
    (cache_only c) ∧
  is_power_of_two (cb_size_byte c) = true ∧ leaf_page_size c + 8 <= cb_size_byte c.
Proof. apply validated. Qed.
End config.

Arguments Config F : clear implicits.

Lemma validate_sound_witness :
  leaf_page_size (Config_default tt true) + 8 <= cb_size_byte (Config_default tt true).
Proof.
  apply (validate_sound (Config_default tt true)); [|by vm_compute..].
  unfold sizes_unsigned. cbn. unfold DEFAULT_MIN_RECORD_SIZE, DEFAULT_MAX_RECORD_SIZE,
    DEFAULT_LEAF_PAGE_SIZE, DEFAULT_MAX_KEY_LEN, DEFAULT_CIRCULAR_BUFFER_SIZE. lia.
Defined.

(** A longest key as long as the longest record passes [validate], and the size class
    computation, which asserts a strict inequality, stops on it. *)
Definition long_key_config : Config unit :=
  set_leaf_page_size (set_cb_max_key_len (Config_default tt true) 1952) 16384.

Lemma validate_accepts_unusable :
  validate long_key_config = Ret None ∧
  create_mem_page_size_classes (cb_min_record_size long_key_config)
    (cb_max_record_size long_key_config) (leaf_page_size long_key_config)
    (max_fence_len long_key_config) (cache_only long_key_config) = Panic.
Proof. by vm_compute. Qed.

(** For a record size close to the page size the arguments of the error message
    underflow, and [validate] stops instead of reporting. *)
Lemma validate_overflows :
  validate (set_cb_max_record_size (Config_default tt true) 4000) = Panic.
Proof. by vm_compute. Qed.
