(* ===== verification/FreeList.v ===== *)
(** The free list of the circular buffer (src/circular_buffer/freelist.rs): one singly
    linked list of freed blocks per size class, threaded through the blocks themselves.

    A pointer is its address, null is 0, and [links] is the part of the memory that holds
    the [next] pointers.  Each operation runs under the mutex of one list; whether
    [try_lock] finds it taken is an argument. *)
From stdpp Require Import base numbers list option gmap.
From Stdlib Require Import ZArith Lia.
From S2P Require Import Prelude SizeClasses.

Definition NULL : Z := 0.

(** [size_of] and [align_of] of [ListNode]. *)
Definition LIST_NODE_SIZE : Z := 8.

Inductive FreeListError := FreeListWouldBlock | SizeTooSmall.

(** The classes in descending order, and the head of each list. *)
Record FreeList := mkFreeList { size_classes : list Z; list_heads : list Z }.

Definition create_free_list_size_classes (min_record_size max_record_size leaf_page_size max_fence_len : Z)
    (cache_only : bool) : outcome (list Z) :=
  size_classes ← create_mem_page_size_classes min_record_size max_record_size leaf_page_size max_fence_len cache_only;
  Ret (reverse size_classes).

Definition FreeList_new (min_record_size max_record_size leaf_page_size max_fence_len : Z)
    (cache_only : bool) : outcome FreeList :=
  size_classes ← create_free_list_size_classes min_record_size max_record_size leaf_page_size max_fence_len cache_only;
  Ret (mkFreeList size_classes (replicate (length size_classes) NULL)).

(** [iter().position(p)] *)
Fixpoint position (p : Z → bool) (l : list Z) : option nat :=
  match l with
  | [] => None
  | x :: l' => if p x then Some O else S <$> position p l'
  end.

Definition expect {A} (o : option A) : outcome A :=
  match o with Some a => Ret a | None => Panic end.

Definition size_class_smaller_than (fl : FreeList) (size : Z) : outcome nat :=
  expect (position (λ s, s <=? size) (size_classes fl)).

Definition size_class_larger_than (fl : FreeList) (size : Z) : outcome nat :=
  pos ← expect (position (λ s, size <=? s) (reverse (size_classes fl)));
  Ret (length (size_classes fl) - 1 - pos)%nat.

Definition get_head (fl : FreeList) (i : nat) : outcome Z := expect (list_heads fl !! i).

Definition set_head (fl : FreeList) (i : nat) (p : Z) : FreeList :=
  mkFreeList (size_classes fl) (<[i:=p]> (list_heads fl)).

(** Dereferencing a node. *)
Definition next_of (links : gmap Z Z) (p : Z) : outcome Z := expect (links !! p).

Definition remove (fl : FreeList) (links : gmap Z Z) (size : Z) :
    outcome (option Z * FreeList) :=
  idx ← size_class_larger_than fl size;
  node ← get_head fl idx;
  if node =? NULL then Ret (None, fl)
  else
    new ← next_of links node;
    Ret (Some node, set_head fl idx new).

Definition from_u8_ptr_unchecked (addr : Z) : outcome Z :=
  _ ← assert_ (addr mod LIST_NODE_SIZE =? 0); Ret addr.

Definition try_add (fl : FreeList) (links : gmap Z Z) (ptr size : Z) (contended : bool) :
    outcome (FreeListError + FreeList * gmap Z Z) :=
  smallest ← expect (last (size_classes fl));
  if size <? smallest then Ret (inl SizeTooSmall)
  else
    idx ← size_class_smaller_than fl size;
    head ← get_head fl idx;
    if contended then Ret (inl FreeListWouldBlock)
    else
      class ← expect (size_classes fl !! idx);
      _ ← assert_ (LIST_NODE_SIZE <=? class);
      node ← from_u8_ptr_unchecked ptr;
      Ret (inr (set_head fl idx node, <[node:=head]> links)).

(** The walk of [find_and_remove] from [node]; the second result says whether the head or
    the link of the previous node has to change, and to what. *)
Fixpoint find_loop (links : gmap Z Z) (ptr prev node : Z) (fuel : nat) :
    outcome (option (Z * Z)) :=
  match fuel with
  | O => Panic
  | S fuel' =>
      if node =? NULL then Ret None
      else if node =? ptr then n ← next_of links node; Ret (Some (prev, n))
      else n ← next_of links node; find_loop links ptr node n fuel'
  end.

Definition find_and_remove (fl : FreeList) (links : gmap Z Z) (ptr size : Z) :
    outcome (bool * FreeList * gmap Z Z) :=
  idx ← size_class_smaller_than fl size;
  node ← get_head fl idx;
  found ← find_loop links ptr NULL node (S (base.size links));
  match found with
  | None => Ret (false, fl, links)
  | Some (prev, n) =>
      if prev =? NULL then Ret (true, set_head fl idx n, links)
      else Ret (true, fl, <[prev:=n]> links)
  end.

(** ** Lists in memory *)
Fixpoint chain (links : gmap Z Z) (head : Z) (l : list Z) : Prop :=
  match l with
  | [] => head = NULL
  | p :: l' => head = p ∧ p ≠ NULL ∧ ∃ n, links !! p = Some n ∧ chain links n l'
  end.

Record FLRepr (fl : FreeList) (links : gmap Z Z) (ls : list (list Z)) : Prop := {
  fl_classes : length ls = length (size_classes fl);
  fl_heads : length (list_heads fl) = length (size_classes fl);
  fl_chains : ∀ i h l, list_heads fl !! i = Some h → ls !! i = Some l → chain links h l;
  fl_nodup : NoDup (mjoin ls);
}.

Section chains.
Implicit Types (links : gmap Z Z) (l : list Z).

Lemma chain_frame links p n h l : p ∉ l → chain links h l → chain (<[p:=n]> links) h l.
Proof.
  revert h. induction l as [|q l IH]; cbn; [done|]. intros h Hp (-> & Hq & m & Hm & Hc).
  apply not_elem_of_cons in Hp as [Hne Hp]. split_and!; [done..|]. exists m.
  by rewrite lookup_insert_ne by done; auto.
Qed.

Lemma chain_subset links h l p : chain links h l → p ∈ l → is_Some (links !! p) ∧ p ≠ NULL.
Proof.
  revert h. induction l as [|q l IH]; intros h Hc Hp; [by apply elem_of_nil in Hp|].
  destruct Hc as (-> & Hq & m & Hm & Hc). apply elem_of_cons in Hp as [->|Hp]; [by eauto|by eapply IH].
Qed.

Lemma chain_agree links links' h l :
  (∀ p, p ∈ l → links' !! p = links !! p) → chain links h l → chain links' h l.
Proof.
  revert h. induction l as [|q l IH]; intros h Ha; cbn; [done|]. intros (-> & Hq & n & Hn & Hc).
  split_and!; [done..|]. exists n. rewrite Ha by left. split; [done|]. apply IH; [|done].
  intros p Hp. apply Ha. by right.
Qed.

(** A list in memory is no longer than the memory. *)
Lemma chain_length links h l : NoDup l → chain links h l → (length l <= size links)%nat.
Proof.
  intros Hnd Hc. rewrite <- (size_list_to_set (C := gset Z) l Hnd), <- size_dom.
  apply subseteq_size. intros p Hp. apply elem_of_list_to_set in Hp. apply elem_of_dom.
  by eapply chain_subset.
Qed.

(** The walk finds the first node at [ptr] and its predecessor. *)
Lemma find_loop_found links ptr l1 l2 prev h fuel :
  chain links h (l1 ++ ptr :: l2) → ptr ∉ l1 → (length l1 < fuel)%nat →
  ∃ n, find_loop links ptr prev h fuel = Ret (Some (default prev (last l1), n)) ∧
    links !! ptr = Some n ∧ chain links n l2.
Proof.
  revert prev h fuel. induction l1 as [|q l1 IH]; intros prev h fuel Hc Hp Hf;
    (destruct fuel as [|fuel]; [cbn in Hf; lia|]); cbn [find_loop].
  - cbn in Hc. destruct Hc as (-> & Hq & n & Hn & Hc). exists n.
    rewrite (proj2 (Z.eqb_neq _ _) Hq), Z.eqb_refl. unfold next_of. by rewrite Hn.
  - cbn in Hc. destruct Hc as (-> & Hq & n & Hn & Hc). apply not_elem_of_cons in Hp as [Hne Hp].
    rewrite (proj2 (Z.eqb_neq _ _) Hq), (proj2 (Z.eqb_neq _ _) (not_eq_sym Hne)).
    unfold next_of. rewrite Hn. cbn [expect]. ret_step.
    destruct (IH q n fuel Hc Hp) as (n' & -> & ? & ?); [cbn in Hf; lia|]. exists n'.
    split; [|done]. by destruct l1 using rev_ind; [|rewrite !last_snoc, app_comm_cons, last_snoc].
Qed.

Lemma find_loop_absent links ptr l prev h fuel :
  chain links h l → ptr ∉ l → (length l < fuel)%nat → find_loop links ptr prev h fuel = Ret None.
Proof.
  revert prev h fuel. induction l as [|q l IH]; intros prev h fuel Hc Hp Hf;
    (destruct fuel as [|fuel]; [cbn in Hf; lia|]); cbn [find_loop chain] in *; [by subst|].
  destruct Hc as (-> & Hq & n & Hn & Hc). apply not_elem_of_cons in Hp as [Hne Hp].
  rewrite (proj2 (Z.eqb_neq _ _) Hq), (proj2 (Z.eqb_neq _ _) (not_eq_sym Hne)).
  unfold next_of. rewrite Hn. cbn [expect]. ret_step. apply IH; [done..|cbn in Hf; lia].
Qed.

(** Unlinking a node behind its predecessor. *)
Lemma chain_unlink links h l1 prev ptr l2 n :
  NoDup (l1 ++ prev :: ptr :: l2) → chain links h (l1 ++ prev :: ptr :: l2) →
  links !! ptr = Some n → chain (<[prev:=n]> links) h (l1 ++ prev :: l2).
Proof.
  revert h. induction l1 as [|q l1 IH]; intros h Hnd Hc Hn; cbn in *.
  - apply NoDup_cons in Hnd as [Hp1 [Hp2 Hnd]%NoDup_cons].
    destruct Hc as (-> & Hq & m & Hm & (-> & Hptr & n' & Hn' & Hc)). simplify_eq.
    split_and!; [done..|]. eexists. rewrite lookup_insert_eq. split; [done|].
    apply chain_frame; [|done]. apply not_elem_of_cons in Hp1. tauto.
  - apply NoDup_cons in Hnd as [Hq' Hnd]. destruct Hc as (-> & Hq & m & Hm & Hc).
    split_and!; [done..|]. exists m. split; [|by apply IH].
    rewrite lookup_insert_ne; [done|]. intros ->. apply Hq', elem_of_app. right. left.
Qed.
End chains.

(** ** Size classes *)
Section classes.
Implicit Types (l : list Z) (p : Z → bool).

Lemma position_Some p l i :
  position p l = Some i ↔ ∃ x, l !! i = Some x ∧ p x = true ∧ ∀ j y, (j < i)%nat → l !! j = Some y → p y = false.
Proof.
  revert i. induction l as [|x l IH]; intros i; cbn; [split; [done|by intros (? & ? & _)]|].
  destruct (p x) eqn:Ep.
  - split; [intros [= <-]|intros (y & Hy & Hpy & Hlt)].
    + exists x. split_and!; [done..|]. intros; lia.
    + destruct i as [|i]; [done|]. specialize (Hlt 0%nat x ltac:(lia) eq_refl). congruence.
  - rewrite fmap_Some. split.
    + intros (j & (y & Hy & Hpy & Hlt)%IH & ->). exists y. split_and!; [done..|].
      intros [|k] z Hk Hz; [by simplify_eq/=|]. apply (Hlt k); [lia|done].
    + intros (y & Hy & Hpy & Hlt). destruct i as [|i]; [simplify_eq/=; congruence|]. exists i. split; [|done].
      apply IH. exists y. split_and!; [done..|]. intros k z Hk Hz. apply (Hlt (S k)); [lia|done].
Qed.

Lemma position_ex p l x : x ∈ l → p x = true → is_Some (position p l).
Proof.
  induction l as [|y l IH]; cbn; intros Hx Hp; [by apply elem_of_nil in Hx|].
  destruct (p y) eqn:E; [by eauto|]. apply elem_of_cons in Hx as [->|Hx]; [congruence|].
  destruct (IH Hx Hp) as [i ->]. by exists (S i).
Qed.

Definition descending l : Prop := ∀ i j x y, l !! i = Some x → l !! j = Some y → (i < j)%nat → y < x.

Lemma smaller_spec fl size s :
  descending (size_classes fl) → s ∈ size_classes fl → s <= size →
  ∃ i c, size_class_smaller_than fl size = Ret i ∧ size_classes fl !! i = Some c ∧ c <= size ∧
    ∀ c', c' ∈ size_classes fl → c' <= size → c' <= c.
Proof.
  intros Hd Hs Hle. unfold size_class_smaller_than.
  destruct (position_ex (λ s, s <=? size) _ s Hs) as [i Hi]; [by apply Z.leb_le|].
  rewrite Hi. apply position_Some in Hi as (c & Hc & Hcs & Hlt). exists i, c. zbool.
  split_and!; [done..|]. intros c' (j & Hj)%list_elem_of_lookup Hc'.
  destruct (decide (j < i)%nat) as [Hji|].
  - specialize (Hlt j c' Hji Hj). cbn in Hlt. zbool. lia.
  - destruct (decide (i = j)) as [->|]; [simplify_eq; lia|].
    specialize (Hd i j c c' Hc Hj ltac:(lia)). lia.
Qed.

Lemma larger_spec fl size s :
  descending (size_classes fl) → s ∈ size_classes fl → size <= s →
  ∃ i c, size_class_larger_than fl size = Ret i ∧ size_classes fl !! i = Some c ∧ size <= c ∧
    ∀ c', c' ∈ size_classes fl → size <= c' → c <= c'.
Proof.
  intros Hd Hs Hle. unfold size_class_larger_than. set (cs := size_classes fl) in *.
  assert (s ∈ reverse cs) as Hr by by apply elem_of_reverse.
  destruct (position_ex (λ s, size <=? s) _ s Hr) as [k Hk]; [by apply Z.leb_le|].
  rewrite Hk. cbn [expect]. ret_step. apply position_Some in Hk as (c & Hc & Hcs & Hlt). zbool.
  pose proof (lookup_lt_Some _ _ _ Hc) as Hkl. rewrite length_reverse in Hkl.
  assert (∀ j y, cs !! j = Some y → reverse cs !! (length cs - 1 - j)%nat = Some y) as Hrev.
  { intros j y Hj. pose proof (lookup_lt_Some _ _ _ Hj). rewrite reverse_lookup by lia.
    rewrite <- Hj. f_equal. lia. }
  rewrite reverse_lookup in Hc by lia.
  replace (length cs - S k)%nat with (length cs - 1 - k)%nat in Hc by lia.
  eexists _, c. split_and!; [done..|]. intros c' (j & Hj)%list_elem_of_lookup Hc'.
  pose proof (lookup_lt_Some _ _ _ Hj). set (i := (length cs - 1 - k)%nat) in *.
  destruct (decide (i < j)%nat) as [Hij|].
  - specialize (Hlt (length cs - 1 - j)%nat c' ltac:(lia) (Hrev j c' Hj)). cbn in Hlt. zbool. lia.
  - destruct (decide (i = j)) as [<-|]; [simplify_eq; lia|].
    specialize (Hd j i c' c Hj Hc ltac:(lia)). lia.
Qed.
End classes.

(** ** The operations on the lists *)
Section operations.
Context (fl : FreeList) (links : gmap Z Z) (ls : list (list Z)).
Hypothesis HR : FLRepr fl links ls.

Lemma join_insert i (l x : list Z) :
  ls !! i = Some l → mjoin (<[i:=x]> ls) ≡ₚ x ++ mjoin (delete i ls) ∧ mjoin ls ≡ₚ l ++ mjoin (delete i ls).
Proof.
  clear HR. revert i. induction ls as [|y ys IH]; intros i Hi; [done|]. destruct i as [|i]; cbn in Hi |- *.
  - by simplify_eq.
  - destruct (IH i Hi) as [H1 H2]. rewrite H1, H2 at 1. rewrite !(assoc_L (++)), (comm (++) y). by rewrite (comm (++) y l).
Qed.

Lemma lists_apart i j l l' p :
  ls !! i = Some l → ls !! j = Some l' → i ≠ j → p ∈ l → p ∉ l'.
Proof.
  intros Hi Hj Hne Hp Hp'. pose proof (fl_nodup _ _ _ HR) as Hnd.
  rewrite (proj2 (join_insert i l [] Hi)) in Hnd. apply NoDup_app in Hnd as (_ & Hd & _).
  apply (Hd p Hp). apply list_elem_of_join. exists l'. split; [done|].
  destruct (decide (j < i)%nat).
  - apply list_elem_of_lookup. exists j. by rewrite list_lookup_delete_lt.
  - apply list_elem_of_lookup. exists (j - 1)%nat. rewrite list_lookup_delete_ge by lia.
    by replace (S (j - 1)) with j by lia.
Qed.

Lemma list_at i c : size_classes fl !! i = Some c → ∃ h l, get_head fl i = Ret h ∧
  list_heads fl !! i = Some h ∧ ls !! i = Some l ∧ chain links h l ∧ NoDup l.
Proof.
  intros Hc. pose proof (lookup_lt_Some _ _ _ Hc) as Hlt.
  destruct (lookup_lt_is_Some_2 (list_heads fl) i) as [h Hh]; [rewrite (fl_heads _ _ _ HR); done|].
  destruct (lookup_lt_is_Some_2 ls i) as [l Hl]; [rewrite (fl_classes _ _ _ HR); done|].
  exists h, l. unfold get_head. rewrite Hh. split_and!; [done..| |].
  - by apply (fl_chains _ _ _ HR i).
  - pose proof (fl_nodup _ _ _ HR) as Hnd. rewrite (proj2 (join_insert i l [] Hl)) in Hnd.
    by apply NoDup_app in Hnd as (? & _).
Qed.

(** Replacing one list, in memory and in the model. *)
Lemma repr_update i l l' h' links' :
  ls !! i = Some l → chain links' h' l' → NoDup (l' ++ mjoin (delete i ls)) →
  (∀ j m k, j ≠ i → ls !! j = Some m → chain links k m → chain links' k m) →
  FLRepr (set_head fl i h') links' (<[i:=l']> ls).
Proof.
  intros Hl Hc Hnd Hfr. split; cbn [set_head size_classes list_heads].
  - rewrite length_insert. apply (fl_classes _ _ _ HR).
  - rewrite length_insert. apply (fl_heads _ _ _ HR).
  - intros j k m Hk Hm. destruct (decide (j = i)) as [->|Hne].
    + pose proof (lookup_lt_Some _ _ _ Hk) as Hlt. rewrite length_insert in Hlt.
      rewrite list_lookup_insert_eq in Hk by done.
      rewrite list_lookup_insert_eq in Hm by (by eapply lookup_lt_Some). by simplify_eq.
    + rewrite list_lookup_insert_ne in Hk by done. rewrite list_lookup_insert_ne in Hm by done.
      apply (Hfr j); [done..|]. by apply (fl_chains _ _ _ HR j).
  - by rewrite (proj1 (join_insert i l l' Hl)).
Qed.

(** Memory outside of the lists does not matter. *)
Lemma repr_agree links' : (∀ p, p ∈ mjoin ls → links' !! p = links !! p) → FLRepr fl links' ls.
Proof.
  intros Ha. split; try apply HR. intros i h l Hh Hl. apply (chain_agree links); [|by apply (fl_chains _ _ _ HR i)].
  intros p Hp. apply Ha, list_elem_of_join. exists l. split; [done|]. by eapply list_elem_of_lookup_2.
Qed.

Lemma remove_repr size i c :
  size_class_larger_than fl size = Ret i → size_classes fl !! i = Some c →
  (ls !! i = Some [] ∧ remove fl links size = Ret (None, fl)) ∨
  ∃ p l fl', ls !! i = Some (p :: l) ∧ remove fl links size = Ret (Some p, fl') ∧
    size_classes fl' = size_classes fl ∧ FLRepr fl' links (<[i:=l]> ls).
Proof.
  intros Hi Hc. destruct (list_at i c Hc) as (h & l & Hg & Hh & Hl & Hch & _).
  unfold remove. rewrite Hi. ret_step. rewrite Hg. ret_step. destruct l as [|p l]; cbn in Hch.
  - subst. by left.
  - right. destruct Hch as (-> & Hp & n & Hn & Hch). rewrite (proj2 (Z.eqb_neq _ _) Hp).
    unfold next_of. rewrite Hn. cbn [expect]. ret_step. exists p, l, (set_head fl i n).
    split_and!; [done..|]. apply (repr_update i (p :: l)); auto.
    pose proof (fl_nodup _ _ _ HR) as Hnd. rewrite (proj2 (join_insert i (p :: l) [] Hl)) in Hnd.
    by apply NoDup_cons in Hnd as [_ ?].
Qed.

Lemma try_add_repr ptr size i c smallest :
  last (size_classes fl) = Some smallest → smallest <= size →
  size_class_smaller_than fl size = Ret i → size_classes fl !! i = Some c → 8 <= c →
  ptr ≠ NULL → ptr mod 8 = 0 → ptr ∉ mjoin ls →
  ∃ l fl', ls !! i = Some l ∧ size_classes fl' = size_classes fl ∧
    try_add fl links ptr size false =
      Ret (inr (fl', <[ptr:=default NULL (head l)]> links)) ∧
    FLRepr fl' (<[ptr:=default NULL (head l)]> links) (<[i:=ptr :: l]> ls).
Proof.
  intros Hlast Hle Hi Hc H8 Hp Hal Hnew. destruct (list_at i c Hc) as (h & l & Hg & Hh & Hl & Hch & Hnd).
  assert (default NULL (head l) = h) as Hhd.
  { destruct l; cbn in Hch; [by subst|]. by destruct Hch as (-> & _). }
  assert (∀ j m, ls !! j = Some m → ptr ∉ m) as Hfresh.
  { intros j m Hj Hin. apply Hnew, list_elem_of_join. exists m. split; [done|]. by eapply list_elem_of_lookup_2. }
  exists l, (set_head fl i ptr). rewrite Hhd. split_and!; [done..| |].
  - unfold try_add. rewrite Hlast. cbn [expect]. ret_step. rewrite (proj2 (Z.ltb_ge _ _) Hle), Hi. ret_step.
    rewrite Hg. ret_step. rewrite Hc. cbn [expect]. ret_step. unfold LIST_NODE_SIZE, from_u8_ptr_unchecked.
    rewrite (assert_true (_ <=? _)) by (by apply Z.leb_le). ret_step.
    rewrite (assert_true (_ =? _)) by (by apply Z.eqb_eq). done.
  - apply (repr_update i l); [done| | |].
    + cbn. split_and!; [done..|]. exists h. rewrite lookup_insert_eq. split; [done|].
      apply chain_frame; [by eapply Hfresh|done].
    + pose proof (fl_nodup _ _ _ HR) as Hj. rewrite (proj2 (join_insert i l [] Hl)) in Hj, Hnew.
      by apply NoDup_cons.
    + intros j m k Hne Hj Hk. apply chain_frame; [by eapply Hfresh|done].
Qed.

Lemma find_and_remove_repr ptr size i c :
  size_class_smaller_than fl size = Ret i → size_classes fl !! i = Some c →
  (∃ l, ls !! i = Some l ∧ (ptr ∉ l) ∧ find_and_remove fl links ptr size = Ret (false, fl, links)) ∨
  ∃ l1 l2 fl' links', ls !! i = Some (l1 ++ ptr :: l2) ∧ size_classes fl' = size_classes fl ∧
    find_and_remove fl links ptr size = Ret (true, fl', links') ∧
    FLRepr fl' links' (<[i:=l1 ++ l2]> ls) ∧
    ∀ q, q ∉ mjoin ls → links' !! q = links !! q.
Proof.
  intros Hi Hc. destruct (list_at i c Hc) as (h & l & Hg & Hh & Hl & Hch & Hnd).
  pose proof (chain_length _ _ _ Hnd Hch) as Hlen. unfold find_and_remove. rewrite Hi. ret_step. rewrite Hg. ret_step.
  destruct (decide (ptr ∈ l)) as [Hin|Hout].
  2:{ left. exists l. rewrite (find_loop_absent links ptr l) by (done || lia). done. }
  right. apply list_elem_of_split in Hin as (l1 & l2 & ->).
  assert (ptr ∉ l1) as Hp1.
  { apply NoDup_app in Hnd as (_ & Hd & _). intros Hp. apply (Hd ptr Hp). left. }
  destruct (find_loop_found links ptr l1 l2 NULL h (S (base.size links)) Hch Hp1) as (n & -> & Hn & Hc2).
  { rewrite length_app in Hlen. cbn in Hlen. lia. }
  ret_step. assert (NoDup ((l1 ++ l2) ++ mjoin (delete i ls))) as Hnd'.
  { pose proof (fl_nodup _ _ _ HR) as Hj. rewrite (proj2 (join_insert i _ [] Hl)) in Hj.
    rewrite <- Permutation_middle in Hj. by apply NoDup_cons in Hj as [_ ?]. }
  destruct l1 as [|prev l1] using rev_ind; [|clear IHl1].
  - exists [], l2, (set_head fl i n), links. cbn. split_and!; try done. by apply (repr_update i (ptr :: l2)).
  - rewrite last_snoc. change (default NULL (Some prev)) with prev. rewrite <- !app_assoc in *. cbn [app] in *.
    assert (prev ≠ NULL) as Hprev.
    { apply (chain_subset links h (l1 ++ prev :: ptr :: l2)); [done|]. apply elem_of_app. right. left. }
    rewrite (proj2 (Z.eqb_neq _ _) Hprev). exists (l1 ++ [prev]), l2, fl, (<[prev:=n]> links).
    rewrite <- !app_assoc. cbn [app]. split_and!; try done.
    + replace fl with (set_head fl i h) at 1.
      2:{ unfold set_head. rewrite list_insert_id by done. by destruct fl. }
      apply (repr_update i (l1 ++ prev :: ptr :: l2)); [done|by apply (chain_unlink _ _ _ _ ptr)|by rewrite <- !app_assoc|].
      intros j m k Hne Hj Hk. apply chain_frame; [|done].
      apply (lists_apart i j _ m prev Hl Hj); [done|]. apply elem_of_app. right. left.
    + intros q Hq. apply lookup_insert_ne. intros <-. apply Hq, list_elem_of_join.
      exists (l1 ++ prev :: ptr :: l2). split; [apply elem_of_app; right; left|]. by eapply list_elem_of_lookup_2.
Qed.
End operations.
