(* ===== verification/CircularBuffer.v ===== *)
(** The circular buffer (src/circular_buffer/mod.rs): a ring of variable-length blocks with
    a head, an eviction cursor and a tail, and a free list for early reuse.

    Block descriptors live in the buffer's memory at physical addresses; logical addresses
    grow without bound and are reduced modulo the capacity.  [metas] holds the descriptors
    that can still be in memory and [links] the free list pointers: memory handed to a
    caller loses both.  Every definition is one critical section or one atomic access of
    the source; the outcome of [compare_exchange_weak], of [try_lock] and of the eviction
    callback are arguments. *)
From stdpp Require Import base numbers list option gmap.
From Stdlib Require Import ZArith Lia.
From S2P Require Import Prelude Bits FreeList.

(** ** Block states *)
Inductive MetaState := NotReady | Ready | Tombstone | BeginTombStone | FreeListed | Evicted.

Global Instance MetaState_eq_dec : EqDecision MetaState.
Proof. solve_decision. Defined.

Record AllocMeta := mkAllocMeta { m_size : Z; m_state : MetaState }.

Definition CB_ALLOC_META_SIZE : Z := 8.
Definition BUFFER_ALIGNMENT : Z := 4096.

Definition AllocMeta_new (size : Z) (tombstone : bool) : AllocMeta :=
  mkAllocMeta size (if tombstone then Tombstone else NotReady).

(** [compare_exchange] of the state byte. *)
Definition compare_exchange (m : AllocMeta) (expected new : MetaState) : option AllocMeta :=
  if decide (m_state m = expected) then Some (mkAllocMeta (m_size m) new) else None.

Definition exchange_or_panic (m : AllocMeta) (expected new : MetaState) : outcome AllocMeta :=
  match compare_exchange m expected new with Some m' => Ret m' | None => Panic end.

Definition to_ready (m : AllocMeta) := exchange_or_panic m NotReady Ready.
Definition try_begin_tombstone (m : AllocMeta) := compare_exchange m Ready BeginTombStone.
Definition revert_to_ready (m : AllocMeta) := exchange_or_panic m BeginTombStone Ready.
Definition free_list_to_tombstone (m : AllocMeta) := exchange_or_panic m FreeListed Tombstone.
Definition to_freelist (m : AllocMeta) := exchange_or_panic m BeginTombStone FreeListed.
Definition to_tombstone (m : AllocMeta) := exchange_or_panic m BeginTombStone Tombstone.
Definition tombstone_to_evicted (m : AllocMeta) := exchange_or_panic m Tombstone Evicted.
Definition is_tombstoned (m : AllocMeta) : bool := bool_decide (m_state m = Tombstone).
Definition is_evicted (m : AllocMeta) : bool := bool_decide (m_state m = Evicted).
Definition is_freelisted (m : AllocMeta) : bool := bool_decide (m_state m = FreeListed).

Definition align_up (addr align : Z) : Z := Z.land (addr + align - 1) (Z.lnot (align - 1)).

Inductive CircularBufferError := Full | EmptyAlloc | WouldBlock.

(** ** The buffer *)
Record States := mkStates { head_addr : Z; evicting_addr : Z; tail_addr : Z }.

Record CircularBuffer := mkCB {
  states : States;
  capacity : Z;
  data_ptr : Z;
  free_list : FreeList;
  copy_on_access_threshold : Z;
  metas : gmap Z AllocMeta;
  links : gmap Z Z;
}.

Definition set_states (b : CircularBuffer) (s : States) : CircularBuffer :=
  mkCB s (capacity b) (data_ptr b) (free_list b) (copy_on_access_threshold b) (metas b) (links b).
Definition set_metas (b : CircularBuffer) (m : gmap Z AllocMeta) : CircularBuffer :=
  mkCB (states b) (capacity b) (data_ptr b) (free_list b) (copy_on_access_threshold b) m (links b).
Definition set_free (b : CircularBuffer) (fl : FreeList) (l : gmap Z Z) : CircularBuffer :=
  mkCB (states b) (capacity b) (data_ptr b) fl (copy_on_access_threshold b) (metas b) l.

Definition set_tail (b : CircularBuffer) (t : Z) : CircularBuffer :=
  set_states b (mkStates (head_addr (states b)) (evicting_addr (states b)) t).
Definition set_evicting (b : CircularBuffer) (e : Z) : CircularBuffer :=
  set_states b (mkStates (head_addr (states b)) e (tail_addr (states b))).
Definition set_head_addr (b : CircularBuffer) (h : Z) : CircularBuffer :=
  set_states b (mkStates h (evicting_addr (states b)) (tail_addr (states b))).

(** The threshold is computed from a floating point ratio and is an argument, as is the
    address of the allocation. *)
Definition CircularBuffer_new (cap threshold min_record_size max_record_size leaf_page_size max_fence_len : Z)
    (ptr : Z) (cache_only : bool) : outcome CircularBuffer :=
  _ ← assert_ (is_power_of_two cap);
  _ ← assert_ (leaf_page_size + CB_ALLOC_META_SIZE <=? cap);
  fl ← FreeList_new min_record_size max_record_size leaf_page_size max_fence_len cache_only;
  Ret (mkCB (mkStates 0 0 0) cap ptr fl threshold ∅ ∅).

Definition logical_to_physical (b : CircularBuffer) (addr : Z) : Z :=
  data_ptr b + Z.land addr (capacity b - 1).

Definition debug_check_ptr_is_from_me (b : CircularBuffer) (ptr : Z) : outcome unit :=
  offset ← subu ptr (data_ptr b); assert_ (offset <=? capacity b).

Definition distance_to_tail (b : CircularBuffer) (ptr : Z) : Z :=
  let tail_ptr := logical_to_physical b (tail_addr (states b)) in
  if ptr <=? tail_ptr then tail_ptr - ptr else capacity b - (ptr - tail_ptr).

Definition ptr_is_copy_on_access (b : CircularBuffer) (ptr : Z) : bool :=
  copy_on_access_threshold b <=? distance_to_tail b ptr.

Definition get_meta (b : CircularBuffer) (logical_address : Z) : outcome AllocMeta :=
  let ptr := logical_to_physical b logical_address in
  _ ← debug_check_ptr_is_from_me b ptr;
  expect (metas b !! ptr).

Definition get_meta_from_data_ptr (b : CircularBuffer) (ptr : Z) : outcome AllocMeta :=
  _ ← assert_ (ptr mod 8 =? 0);
  expect (metas b !! (ptr - CB_ALLOC_META_SIZE)).

(** Writing back the descriptor of a data pointer. *)
Definition put_meta (b : CircularBuffer) (ptr : Z) (m : AllocMeta) : CircularBuffer :=
  set_metas b (<[ptr - CB_ALLOC_META_SIZE := m]> (metas b)).

(** Update of the descriptor behind a data pointer. *)
Definition update_meta (b : CircularBuffer) (ptr : Z) (f : AllocMeta → outcome AllocMeta) :
    outcome CircularBuffer :=
  m ← get_meta_from_data_ptr b ptr; m' ← f m; Ret (put_meta b ptr m').

(** ** Allocation *)

(** The loop over recycled blocks.  [weak] says for each [compare_exchange_weak] whether it
    is spared a spurious failure; the list is extended by [true]. *)
Fixpoint alloc_recycled (b : CircularBuffer) (size : Z) (weak : list bool) (fuel : nat) :
    outcome (option Z * CircularBuffer) :=
  match fuel with
  | O => Panic
  | S fuel' =>
      r ← remove (free_list b) (links b) size;
      match r with
      | (None, _) => Ret (None, b)
      | (Some raw_ptr, fl') =>
          let b1 := set_free b fl' (links b) in
          old_meta ← get_meta_from_data_ptr b1 raw_ptr;
          if ptr_is_copy_on_access b1 raw_ptr then
            m' ← free_list_to_tombstone old_meta;
            alloc_recycled (put_meta b1 raw_ptr m') size weak fuel'
          else
            _ ← assert_ (size <=? m_size old_meta);
            match (if default true (head weak) then compare_exchange old_meta FreeListed NotReady
                   else None) with
            | Some m' =>
                Ret (Some raw_ptr, set_free (put_meta b1 raw_ptr m') fl' (delete raw_ptr (links b)))
            | None => alloc_recycled b1 size (tail weak) fuel'
            end
      end
  end.

(** The memory [a, a + len) is handed to a caller, who may write anything into it. *)
Definition hand_out {V} (a len : Z) (m : gmap Z V) : gmap Z V :=
  filter (λ kv, ¬ (a <= kv.1 < a + len)) m.

(** The allocation at the tail; [inl None] asks for another attempt after the end of the
    buffer has been filled up. *)
Definition alloc_tail (b : CircularBuffer) (size : Z) :
    outcome ((option CircularBufferError + Z) * CircularBuffer) :=
  let s := states b in
  used ← subu (tail_addr s) (head_addr s);
  logical_remaining ← subu (capacity b) used;
  let physical_remaining := capacity b - Z.land (tail_addr s) (capacity b - 1) in
  let aligned_size := align_up size CB_ALLOC_META_SIZE in
  let required := aligned_size + CB_ALLOC_META_SIZE in
  if logical_remaining <? required then Ret (inl (Some Full), b)
  else
    let physical_addr := logical_to_physical b (tail_addr s) in
    if physical_remaining <? required then
      _ ← assert_ (CB_ALLOC_META_SIZE <=? physical_remaining);
      let meta := AllocMeta_new (as_u32 (physical_remaining - CB_ALLOC_META_SIZE)) true in
      Ret (inl None, set_tail (set_metas b (<[physical_addr := meta]> (metas b)))
                       (tail_addr s + physical_remaining))
    else
      let meta := AllocMeta_new (as_u32 aligned_size) false in
      let return_addr := tail_addr s + CB_ALLOC_META_SIZE in
      let b1 := set_metas b (<[physical_addr := meta]> (hand_out physical_addr required (metas b))) in
      let b2 := set_free b1 (free_list b) (hand_out physical_addr required (links b)) in
      Ret (inr (logical_to_physical b return_addr), set_tail b2 (tail_addr s + required)).

(** One critical section of [alloc], from the lock of the states to its release. *)
Definition alloc_pass (b : CircularBuffer) (size : Z) (weak : list bool) :
    outcome ((option CircularBufferError + Z) * CircularBuffer) :=
  if size =? 0 then Ret (inl (Some EmptyAlloc), b)
  else
    smallest ← expect (last (size_classes (free_list b)));
    _ ← assert_ (smallest <=? size);
    r ← alloc_recycled b size weak (S (base.size (links b)));
    match r with
    | (Some ptr, b') => Ret (inr ptr, b')
    | (None, b') => alloc_tail b' size
    end.

Fixpoint alloc_rec (b : CircularBuffer) (size : Z) (weak : list bool) (fuel : nat) :
    outcome ((CircularBufferError + Z) * CircularBuffer) :=
  match fuel with
  | O => Panic
  | S fuel' =>
      r ← alloc_pass b size weak;
      match r with
      | (inr ptr, b') => Ret (inr ptr, b')
      | (inl (Some e), b') => Ret (inl e, b')
      | (inl None, b') => alloc_rec b' size [] fuel'
      end
  end.

(** Undisturbed, the source recurses once at most: see [alloc_spec]. *)
Definition alloc (b : CircularBuffer) (size : Z) (weak : list bool) :
    outcome ((CircularBufferError + Z) * CircularBuffer) := alloc_rec b size weak 2.

(** ** Handles *)

(** Dropping a [CircularBufferPtr]. *)
Definition drop_ptr (b : CircularBuffer) (ptr : Z) : outcome CircularBuffer :=
  update_meta b ptr to_ready.

Definition acquire_exclusive_dealloc_handle (b : CircularBuffer) (ptr : Z) :
    outcome ((CircularBufferError + Z) * CircularBuffer) :=
  _ ← debug_check_ptr_is_from_me b ptr;
  m ← get_meta_from_data_ptr b ptr;
  match try_begin_tombstone m with
  | Some m' => Ret (inr ptr, put_meta b ptr m')
  | None => Ret (inl WouldBlock, b)
  end.

(** Dropping a [TombstoneHandle]. *)
Definition drop_handle (b : CircularBuffer) (ptr : Z) : outcome CircularBuffer :=
  update_meta b ptr revert_to_ready.

Definition dealloc_inner (b : CircularBuffer) (ptr : Z) (add_to_freelist contended : bool) :
    outcome CircularBuffer :=
  _ ← debug_check_ptr_is_from_me b ptr;
  m ← get_meta_from_data_ptr b ptr;
  if negb add_to_freelist || ptr_is_copy_on_access b ptr then
    m' ← to_tombstone m; Ret (put_meta b ptr m')
  else
    r ← try_add (free_list b) (links b) ptr (m_size m) contended;
    match r with
    | inr (fl', links') => m' ← to_freelist m; Ret (put_meta (set_free b fl' links') ptr m')
    | inl _ => m' ← to_tombstone m; Ret (put_meta b ptr m')
    end.

Definition dealloc (b : CircularBuffer) (ptr : Z) (contended : bool) : outcome CircularBuffer :=
  dealloc_inner b ptr true contended.

Definition check_ptr_is_ready (b : CircularBuffer) (ptr : Z) : outcome unit :=
  m ← get_meta_from_data_ptr b ptr; assert_ (bool_decide (m_state m = Ready)).

(** ** Eviction *)

(** Step 1 of [evict_one]: reserve the block at the cursor. *)
Definition evict_reserve (b : CircularBuffer) : outcome (option (Z * Z) * CircularBuffer) :=
  let evicting := evicting_addr (states b) in
  if evicting =? tail_addr (states b) then Ret (None, b)
  else
    m ← get_meta b evicting;
    let advance := m_size m + CB_ALLOC_META_SIZE in
    Ret (Some (evicting, evicting + advance), set_evicting b (evicting + advance)).

(** The callback accepted the block: its memory is retired. *)
Definition evict_finish (b : CircularBuffer) (ptr : Z) : outcome CircularBuffer :=
  b1 ← dealloc_inner b ptr false false; update_meta b1 ptr tombstone_to_evicted.

(** The handle was not available: the block is in use, retired or recycled. *)
Definition evict_unowned (b : CircularBuffer) (start ptr : Z) : outcome (bool * CircularBuffer) :=
  m ← get_meta b start;
  match m_state m with
  | Tombstone => b' ← update_meta b ptr tombstone_to_evicted; Ret (true, b')
  | FreeListed =>
      r ← find_and_remove (free_list b) (links b) ptr (m_size m);
      match r with
      | (true, fl', links') =>
          b1 ← update_meta (set_free b fl' links') ptr free_list_to_tombstone;
          b2 ← update_meta b1 ptr tombstone_to_evicted;
          Ret (true, b2)
      | (false, fl', links') => Ret (false, set_free b fl' links')
      end
  | _ => Ret (false, b)
  end.

(** Step 2, one round of the loop: [accept] is the callback's answer. *)
Definition evict_attempt (b : CircularBuffer) (start : Z) (accept : bool) :
    outcome (bool * CircularBuffer) :=
  let ptr := logical_to_physical b start + CB_ALLOC_META_SIZE in
  h ← acquire_exclusive_dealloc_handle b ptr;
  match h with
  | (inr _, b1) =>
      if accept then b2 ← evict_finish b1 ptr; Ret (true, b2)
      else b2 ← drop_handle b1 ptr; Ret (false, b2)
  | (inl _, b1) => evict_unowned b1 start ptr
  end.

(** [fuel] rounds of the loop; the answer is whether one of them has evicted the block, and [false] when the
    thread still waits. *)
Fixpoint evict_loop (b : CircularBuffer) (start : Z) (answers : list bool) (fuel : nat) :
    outcome (bool * CircularBuffer) :=
  match fuel with
  | O => Ret (false, b)
  | S fuel' =>
      r ← evict_attempt b start (default true (head answers));
      match r with
      | (true, b') => Ret (true, b')
      | (false, b') => evict_loop b' start (tail answers) fuel'
      end
  end.

(** Step 3: the head passes the evicted blocks. *)
Fixpoint bump_loop (b : CircularBuffer) (old_addr : Z) (fuel : nat) :
    outcome ((CircularBufferError + Z) * CircularBuffer) :=
  match fuel with
  | O => Panic
  | S fuel' =>
      let head := head_addr (states b) in
      if head <? evicting_addr (states b) then
        m ← get_meta b head;
        if negb (is_evicted m) then Ret (inl WouldBlock, b)
        else bump_loop (set_head_addr b (head + (m_size m + CB_ALLOC_META_SIZE))) old_addr fuel'
      else Ret (inr (head - old_addr), b)
  end.

Definition try_bump_head_address_to_evicting_addr (b : CircularBuffer) :
    outcome ((CircularBufferError + Z) * CircularBuffer) :=
  bump_loop b (head_addr (states b))
    (S (Z.to_nat ((evicting_addr (states b) - head_addr (states b)) / CB_ALLOC_META_SIZE))).

(** What an eviction has done after [fuel] rounds of its loop. *)
Inductive eviction := NothingToEvict | Evicts (advance : Z) | StillWaiting.

(** One eviction with nobody else running. *)
Definition evict_one (b : CircularBuffer) (answers : list bool) (fuel : nat) :
    outcome (eviction * CircularBuffer) :=
  r ← evict_reserve b;
  match r with
  | (None, b1) => Ret (NothingToEvict, b1)
  | (Some (start, finish), b1) =>
      d ← evict_loop b1 start answers fuel;
      match d with
      | (true, b2) => t ← try_bump_head_address_to_evicting_addr b2; Ret (Evicts (finish - start), t.2)
      | (false, b2) => Ret (StillWaiting, b2)
      end
  end.

(** [evict_n] with a callback that always accepts; [None] when an eviction still waits after one round. *)
Fixpoint evict_n (b : CircularBuffer) (n : nat) (cur_evicted : Z) : outcome (option Z * CircularBuffer) :=
  match n with
  | O => Ret (Some cur_evicted, b)
  | S n' =>
      r ← evict_one b [] 1;
      match r with
      | (NothingToEvict, b1) => Ret (Some cur_evicted, b1)
      | (Evicts v, b1) => evict_n b1 n' (cur_evicted + v)
      | (StillWaiting, b1) => Ret (None, b1)
      end
  end.

Fixpoint drain_loop (b : CircularBuffer) (fuel : nat) : outcome CircularBuffer :=
  match fuel with
  | O => Panic
  | S fuel' =>
      r ← evict_one b [] 1;
      match r with
      | (NothingToEvict, b1) => Ret b1
      | (Evicts _, b1) => drain_loop b1 fuel'
      | (StillWaiting, _) => Panic
      end
  end.

(** [drain] with a callback that always accepts: an eviction and the final wait need one round each. *)
Definition drain (b : CircularBuffer) : outcome CircularBuffer :=
  b1 ← drain_loop b (S (Z.to_nat ((tail_addr (states b) - evicting_addr (states b)) / CB_ALLOC_META_SIZE)));
  t ← try_bump_head_address_to_evicting_addr b1;
  match t with
  | (inr _, b2) =>
      _ ← assert_ (evicting_addr (states b2) =? head_addr (states b2));
      _ ← assert_ (head_addr (states b2) =? tail_addr (states b2));
      Ret b2
  | (inl _, _) => Panic
  end.

(** [AllocatedIter]: the descriptors from the head to the tail. *)
Fixpoint iter_loop (b : CircularBuffer) (head : Z) (fuel : nat) : outcome (list AllocMeta) :=
  match fuel with
  | O => Panic
  | S fuel' =>
      if head =? tail_addr (states b) then Ret []
      else
        m ← get_meta b head;
        rest ← iter_loop b (head + (m_size m + CB_ALLOC_META_SIZE)) fuel';
        Ret (m :: rest)
  end.

Definition iter (b : CircularBuffer) : outcome (list AllocMeta) :=
  iter_loop b (head_addr (states b))
    (S (Z.to_nat ((tail_addr (states b) - head_addr (states b)) / CB_ALLOC_META_SIZE))).

(** The check when the buffer is dropped. *)
Definition drop_check (b : CircularBuffer) : outcome unit :=
  ms ← iter b; assert_ (forallb (λ m, is_tombstoned m || is_freelisted m) ms).

(** ** Metrics *)
Record CircularBufferMetrics := mkMetrics {
  mx_capacity : Z;
  mx_head_addr : Z;
  mx_tail_addr : Z;
  mx_evicting_addr : Z;
  head_tail_distance : Z;
  allocated_cnt : Z;
  not_ready_cnt : Z;
  ready_cnt : Z;
  tombstone_cnt : Z;
  tombstone_size : Z;
  begin_tombstone_cnt : Z;
  free_listed_cnt : Z;
  evicted_cnt : Z;
  size_cnt : gmap Z Z;
}.

Definition CircularBufferMetrics_new (cap : Z) (s : States) : outcome CircularBufferMetrics :=
  d ← subu (tail_addr s) (head_addr s);
  Ret (mkMetrics cap (head_addr s) (tail_addr s) (evicting_addr s) d 0 0 0 0 0 0 0 0 ∅).

Definition of_state (s t : MetaState) : Z := if decide (s = t) then 1 else 0.

(** The body of the loop of [get_metrics]. *)
Definition count_meta (x : CircularBufferMetrics) (m : AllocMeta) : CircularBufferMetrics :=
  let s := m_state m in
  mkMetrics (mx_capacity x) (mx_head_addr x) (mx_tail_addr x) (mx_evicting_addr x) (head_tail_distance x)
    (allocated_cnt x + 1)
    (not_ready_cnt x + of_state s NotReady)
    (ready_cnt x + of_state s Ready)
    (tombstone_cnt x + of_state s Tombstone)
    (tombstone_size x + of_state s Tombstone * m_size m)
    (begin_tombstone_cnt x + of_state s BeginTombStone)
    (free_listed_cnt x + of_state s FreeListed)
    (evicted_cnt x + of_state s Evicted)
    (<[m_size m := default 0 (size_cnt x !! m_size m) + 1]> (size_cnt x)).

Definition get_metrics (b : CircularBuffer) : outcome CircularBufferMetrics :=
  x ← CircularBufferMetrics_new (capacity b) (states b);
  ms ← iter b;
  Ret (foldl count_meta x ms).
