(* ===== verification/CircularInv.v ===== *)
(** The invariant of the circular buffer (CircularBuffer.v): the descriptors between the
    head and the tail tile the ring, no block wraps around its end, blocks are disjoint
    in memory, only reserved blocks are evicted, and the free list holds exactly the
    recycled blocks, each under the largest class that fits it. *)
From stdpp Require Import base numbers list option gmap.
From Stdlib Require Import ZArith Lia.
From S2P Require Import Prelude Bits NodeMeta FreeList CircularBuffer.

(** A block: its logical address and its descriptor. *)
Record blk := mkBlk { k_addr : Z; k_meta : AllocMeta }.

#[export] Instance alloc_meta_eq_dec : EqDecision AllocMeta.
Proof. solve_decision. Defined.

#[export] Instance blk_eq_dec : EqDecision blk.
Proof. solve_decision. Defined.

Definition k_size (k : blk) : Z := m_size (k_meta k).
Definition k_state (k : blk) : MetaState := m_state (k_meta k).
Definition k_end (k : blk) : Z := k_addr k + (k_size k + CB_ALLOC_META_SIZE).

Definition set_state (s : MetaState) (k : blk) : blk :=
  mkBlk (k_addr k) (mkAllocMeta (k_size k) s).

Fixpoint tiles (a z : Z) (ks : list blk) : Prop :=
  match ks with
  | [] => a = z
  | k :: ks' => k_addr k = a ∧ tiles (k_end k) z ks'
  end.

Definition blk_ok (cap : Z) (k : blk) : Prop :=
  k_addr k mod 8 = 0 ∧ k_size k mod 8 = 0 ∧ 0 <= k_size k ∧
  k_addr k mod cap + (k_size k + CB_ALLOC_META_SIZE) <= cap.

(** The address of the block's data. *)
Definition k_ptr (b : CircularBuffer) (k : blk) : Z :=
  logical_to_physical b (k_addr k) + CB_ALLOC_META_SIZE.

Record CoreInv (b : CircularBuffer) (ks : list blk) : Prop := {
  ci_cap : ∃ w, 3 <= w ∧ capacity b = 2 ^ w;
  ci_base : 0 < data_ptr b ∧ data_ptr b mod 8 = 0;
  ci_order : 0 <= head_addr (states b) <= evicting_addr (states b);
  ci_tail : evicting_addr (states b) <= tail_addr (states b) <= head_addr (states b) + capacity b;
  ci_align : head_addr (states b) mod 8 = 0;
  ci_tiles : tiles (head_addr (states b)) (tail_addr (states b)) ks;
  ci_blocks : Forall (blk_ok (capacity b)) ks;
  ci_cursor : evicting_addr (states b) = tail_addr (states b) ∨
              ∃ k, k ∈ ks ∧ k_addr k = evicting_addr (states b);
  ci_metas : ∀ k, k ∈ ks → metas b !! logical_to_physical b (k_addr k) = Some (k_meta k);
  ci_evicted : ∀ k, k ∈ ks → k_state k = Evicted → k_addr k < evicting_addr (states b);
}.

(** The free list holds the recycled blocks, each in the class its size gives. *)
Definition listed (ls : list (list Z)) (i : nat) (p : Z) : Prop := ∃ l, ls !! i = Some l ∧ p ∈ l.

Definition recycled (b : CircularBuffer) (ks : list blk) (i : nat) (p : Z) : Prop :=
  ∃ k, k ∈ ks ∧ p = k_ptr b k ∧ k_state k = FreeListed ∧
    size_class_smaller_than (free_list b) (k_size k) = Ret i.

Record FreeInv (b : CircularBuffer) (ks : list blk) (ls : list (list Z)) : Prop := {
  fi_repr : FLRepr (free_list b) (links b) ls;
  fi_desc : descending (size_classes (free_list b));
  fi_min : Forall (λ c, 8 <= c <= MAX_LEAF_PAGE_SIZE) (size_classes (free_list b));
  fi_some : is_Some (last (size_classes (free_list b)));
  fi_listed : ∀ i p, listed ls i p ↔ recycled b ks i p;
  fi_fits : ∀ k, k ∈ ks → k_state k = FreeListed →
    ∃ c, last (size_classes (free_list b)) = Some c ∧ c <= k_size k;
}.

Definition CBInv (b : CircularBuffer) (ks : list blk) (ls : list (list Z)) : Prop :=
  CoreInv b ks ∧ FreeInv b ks ls.

(** ** Tilings *)
Section tiling.
Implicit Types (k : blk) (ks : list blk).

Lemma tiles_app a z ks1 ks2 : tiles a z (ks1 ++ ks2) ↔ ∃ m, tiles a m ks1 ∧ tiles m z ks2.
Proof.
  revert a. induction ks1 as [|k ks1 IH]; intros a; cbn.
  - split; [by exists a|]. by intros (m & -> & ?).
  - rewrite IH. split; [intros (? & m & ? & ?); by exists m|intros (m & (? & ?) & ?); split; [done|by exists m]].
Qed.

Lemma tiles_le cap a z ks : Forall (blk_ok cap) ks → tiles a z ks → a + 8 * zlen ks <= z.
Proof.
  intros Hf. revert a. induction Hf as [|k ks (_ & _ & Hs & _) _ IH]; intros a Ht; cbn in Ht.
  - subst. change (zlen (@nil blk)) with 0. lia.
  - destruct Ht as [<- Ht]. apply IH in Ht. rewrite zlen_cons. unfold k_end, CB_ALLOC_META_SIZE in Ht. lia.
Qed.

(** Every block lies between the ends. *)
Lemma tiles_bounds cap a z ks k :
  Forall (blk_ok cap) ks → tiles a z ks → k ∈ ks → a <= k_addr k ∧ k_end k <= z.
Proof.
  intros Hf Ht (ks1 & ks2 & ->)%list_elem_of_split. apply Forall_app in Hf as [Hf1 Hf2].
  apply tiles_app in Ht as (m & Ht1 & Ht2). cbn in Ht2. destruct Ht2 as [Hm Ht2].
  apply Forall_cons in Hf2 as [Hk Hf2]. apply (tiles_le _ _ _ _ Hf1) in Ht1.
  apply (tiles_le _ _ _ _ Hf2) in Ht2. pose proof (zlen_nonneg ks1). pose proof (zlen_nonneg ks2). lia.
Qed.

(** Two blocks of a tiling do not overlap. *)
Lemma tiles_disjoint cap a z ks i j k k' :
  Forall (blk_ok cap) ks → tiles a z ks → ks !! i = Some k → ks !! j = Some k' → (i < j)%nat →
  k_end k <= k_addr k'.
Proof.
  intros Hf Ht Hi Hj Hij. rewrite <- (take_drop_middle ks i k Hi) in Ht, Hf.
  apply Forall_app in Hf as [_ [Hk Hf]%Forall_cons]. apply tiles_app in Ht as (m & _ & [_ Ht]).
  apply (tiles_bounds cap _ _ _ k') in Ht; [lia|done|]. apply list_elem_of_lookup.
  exists (j - S i)%nat. rewrite lookup_drop. rewrite <- Hj. f_equal. lia.
Qed.

Lemma tiles_set_state a z ks i k s :
  ks !! i = Some k → tiles a z ks → tiles a z (<[i:=set_state s k]> ks).
Proof.
  revert a i. induction ks as [|k' ks IH]; intros a i Hi; [done|].
  destruct i as [|i]; cbn in *; [by simplify_eq|]. intros [-> Ht]. split; [done|]. by apply IH.
Qed.

Lemma blk_end_aligned cap k : blk_ok cap k → k_end k mod 8 = 0.
Proof.
  intros (H1 & H2 & _). unfold k_end, CB_ALLOC_META_SIZE. dlia.
Qed.

Lemma tiles_aligned cap a z ks : Forall (blk_ok cap) ks → tiles a z ks → a mod 8 = 0 → z mod 8 = 0.
Proof.
  intros Hf. revert a. induction Hf as [|k ks Hk _ IH]; intros a; cbn; [by intros ->|].
  intros [<- Ht] _. apply (IH _ Ht). by eapply blk_end_aligned.
Qed.
End tiling.

(** ** Addresses *)

(** Blocks that are apart on the ring's window are apart in memory. *)
Lemma ring_apart cap a1 l1 a2 l2 :
  0 < cap → 0 <= a1 → 0 < l1 → 0 < l2 → a1 + l1 <= a2 → a2 + l2 <= a1 + cap →
  a1 mod cap + l1 <= cap → a2 mod cap + l2 <= cap →
  a1 mod cap + l1 <= a2 mod cap ∨ a2 mod cap + l2 <= a1 mod cap.
Proof.
  intros Hc H1 Hl1 Hl2 H12 H21 Hb1 Hb2.
  pose proof (Z.div_mod a1 cap ltac:(lia)). pose proof (Z.div_mod a2 cap ltac:(lia)).
  pose proof (Z.mod_pos_bound a1 cap Hc). pose proof (Z.mod_pos_bound a2 cap Hc).
  set (q1 := a1 / cap) in *. set (q2 := a2 / cap) in *.
  assert (q2 = q1 ∨ q2 = q1 + 1) as [Hq|Hq] by nia; rewrite Hq in *; [left|right]; nia.
Qed.

Section addresses.
Context (b : CircularBuffer) (ks : list blk).
Hypothesis HC : CoreInv b ks.

Lemma cap_pos : 8 <= capacity b.
Proof.
  destruct (ci_cap _ _ HC) as (w & Hw & ->). change 8 with (2 ^ 3). by apply Z.pow_le_mono_r.
Qed.

Lemma phys_mod a : logical_to_physical b a = data_ptr b + a mod capacity b.
Proof.
  unfold logical_to_physical. destruct (ci_cap _ _ HC) as (w & Hw & ->). by rewrite land_low by lia.
Qed.

Lemma phys_aligned a : a mod 8 = 0 → logical_to_physical b a mod 8 = 0.
Proof.
  intros Ha. rewrite phys_mod. destruct (ci_base _ _ HC) as [_ Hb].
  destruct (ci_cap _ _ HC) as (w & Hw & ->).
  assert (2 ^ w = 8 * 2 ^ (w - 3)) as -> by (rewrite <- (Z.pow_add_r 2 3) by lia; f_equal; lia).
  assert (0 < 2 ^ (w - 3)) by (apply Z.pow_pos_nonneg; lia).
  rewrite Z.add_mod, Hb by lia. rewrite Z.rem_mul_r by lia. rewrite Ha.
  rewrite Z.add_0_l, Z.add_0_l, Z.mul_comm, Z.mod_mul by lia. done.
Qed.

Lemma blk_in k : k ∈ ks → blk_ok (capacity b) k ∧ head_addr (states b) <= k_addr k ∧
  k_end k <= tail_addr (states b) ∧ 0 <= k_addr k.
Proof.
  intros Hk. pose proof (ci_blocks _ _ HC) as Hf. pose proof (ci_order _ _ HC).
  destruct (tiles_bounds _ _ _ _ k Hf (ci_tiles _ _ HC) Hk) as [H1 H2].
  rewrite Forall_forall in Hf. split_and!; [by apply Hf|done|done|lia].
Qed.

(** The memory of two blocks is disjoint. *)
Lemma blocks_apart i j k k' :
  ks !! i = Some k → ks !! j = Some k' → i ≠ j →
  k_addr k mod capacity b + (k_size k + CB_ALLOC_META_SIZE) <= k_addr k' mod capacity b ∨
  k_addr k' mod capacity b + (k_size k' + CB_ALLOC_META_SIZE) <= k_addr k mod capacity b.
Proof.
  assert (∀ i j k k', ks !! i = Some k → ks !! j = Some k' → (i < j)%nat →
    k_addr k mod capacity b + (k_size k + CB_ALLOC_META_SIZE) <= k_addr k' mod capacity b ∨
    k_addr k' mod capacity b + (k_size k' + CB_ALLOC_META_SIZE) <= k_addr k mod capacity b) as Hlt.
  { clear i j k k'. intros i j k k' Hi Hj Hij. pose proof cap_pos.
    destruct (blk_in k) as ((_ & _ & Hs & Hb) & Hh & _ & H0); [by eapply list_elem_of_lookup_2|].
    destruct (blk_in k') as ((_ & _ & Hs' & Hb') & _ & Ht & _); [by eapply list_elem_of_lookup_2|].
    pose proof (tiles_disjoint _ _ _ _ i j k k' (ci_blocks _ _ HC) (ci_tiles _ _ HC) Hi Hj Hij) as Hd.
    pose proof (ci_tail _ _ HC). unfold k_end, CB_ALLOC_META_SIZE in *. apply ring_apart; lia. }
  intros Hi Hj Hne. destruct (decide (i < j)%nat); [by eapply Hlt|].
  destruct (Hlt j i k' k Hj Hi ltac:(lia)); auto.
Qed.

Lemma phys_inj i j k k' :
  ks !! i = Some k → ks !! j = Some k' → logical_to_physical b (k_addr k) = logical_to_physical b (k_addr k') → i = j.
Proof.
  intros Hi Hj Heq. destruct (decide (i = j)) as [|Hne]; [done|]. exfalso. rewrite !phys_mod in Heq.
  destruct (blk_in k) as ((_ & _ & Hs & _) & _); [by eapply list_elem_of_lookup_2|].
  destruct (blk_in k') as ((_ & _ & Hs' & _) & _); [by eapply list_elem_of_lookup_2|].
  unfold CB_ALLOC_META_SIZE in *. destruct (blocks_apart i j k k' Hi Hj Hne); unfold CB_ALLOC_META_SIZE in *; lia.
Qed.

(** Reading descriptors. *)
Lemma from_me a : debug_check_ptr_is_from_me b (logical_to_physical b a) = Ret tt.
Proof.
  unfold debug_check_ptr_is_from_me. rewrite phys_mod. pose proof cap_pos.
  pose proof (Z.mod_pos_bound a (capacity b) ltac:(lia)). rewrite subu_ok by lia. ret_step.
  apply assert_true, Z.leb_le. lia.
Qed.

Lemma get_meta_blk k : k ∈ ks → get_meta b (k_addr k) = Ret (k_meta k).
Proof. intros Hk. unfold get_meta. rewrite from_me. ret_step. by rewrite (ci_metas _ _ HC k Hk). Qed.

Lemma ptr_aligned k : k ∈ ks → k_ptr b k mod 8 = 0.
Proof.
  intros Hk. destruct (blk_in k Hk) as ((Ha & _) & _). pose proof (phys_aligned _ Ha).
  unfold k_ptr, CB_ALLOC_META_SIZE. dlia.
Qed.

Lemma get_meta_ptr k : k ∈ ks → get_meta_from_data_ptr b (k_ptr b k) = Ret (k_meta k).
Proof.
  intros Hk. unfold get_meta_from_data_ptr. rewrite assert_true by (by apply Z.eqb_eq, ptr_aligned).
  ret_step. unfold k_ptr. rewrite Z.add_simpl_r. by rewrite (ci_metas _ _ HC k Hk).
Qed.

Lemma ptr_from_me k : k ∈ ks → debug_check_ptr_is_from_me b (k_ptr b k) = Ret tt.
Proof.
  intros Hk. destruct (blk_in k Hk) as ((_ & _ & Hs & Hb) & _). pose proof cap_pos.
  unfold debug_check_ptr_is_from_me, k_ptr. rewrite phys_mod.
  pose proof (Z.mod_pos_bound (k_addr k) (capacity b) ltac:(lia)). unfold CB_ALLOC_META_SIZE in *.
  rewrite subu_ok by lia. ret_step. apply assert_true, Z.leb_le. lia.
Qed.
End addresses.

(** ** Changing the state of a block *)
Section set_state.
Context (b : CircularBuffer) (ks : list blk) (n : nat) (k : blk) (s : MetaState).
Hypotheses (HC : CoreInv b ks) (Hn : ks !! n = Some k).

Definition mark : CircularBuffer := put_meta b (k_ptr b k) (mkAllocMeta (k_size k) s).

Lemma set_state_elem k' :
  k' ∈ <[n:=set_state s k]> ks ↔
    k' = set_state s k ∨ (k' ∈ ks ∧ logical_to_physical b (k_addr k') ≠ logical_to_physical b (k_addr k)).
Proof.
  pose proof (lookup_lt_Some _ _ _ Hn) as Hlt. rewrite !list_elem_of_lookup. split.
  - intros (j & Hj). destruct (decide (j = n)) as [->|Hne].
    + rewrite list_lookup_insert_eq in Hj by done. left. by simplify_eq.
    + rewrite list_lookup_insert_ne in Hj by done. right. split; [by exists j|].
      intros Heq. by apply Hne, (phys_inj b ks HC j n k' k).
  - intros [->|((j & Hj) & Hne)].
    + exists n. by apply list_lookup_insert_eq.
    + exists j. rewrite list_lookup_insert_ne; [done|]. intros <-. by simplify_eq.
Qed.

Lemma core_set_state :
  (s = Evicted → k_addr k < evicting_addr (states b)) → CoreInv mark (<[n:=set_state s k]> ks).
Proof.
  intros Hev. pose proof HC as [Hcap Hbase Hord Htail Hal Ht Hok Hcur Hm Hevd].
  split; cbn [mark put_meta set_metas states capacity data_ptr]; auto.
  - by apply tiles_set_state.
  - apply Forall_insert; [done|]. by apply (Forall_lookup_1 _ _ _ _ Hok Hn).
  - destruct Hcur as [|(k' & (j & Hj)%list_elem_of_lookup & Hk')]; [by left|]. right.
    destruct (decide (j = n)) as [->|Hne].
    + simplify_eq. exists (set_state s k). split; [|done]. apply set_state_elem. by left.
    + exists k'. split; [|done]. apply list_elem_of_lookup. exists j. by rewrite list_lookup_insert_ne.
  - intros k' [->|[Hk' Hne]]%set_state_elem; cbn [mark put_meta set_metas metas].
    + unfold k_ptr. rewrite Z.add_simpl_r. apply lookup_insert_eq.
    + unfold k_ptr. rewrite Z.add_simpl_r, lookup_insert_ne by (intros Heq; by apply Hne). by apply Hm.
  - intros k' [->|[Hk' Hne]]%set_state_elem; [done|]. by apply Hevd.
Qed.

Lemma recycled_set i p :
  recycled mark (<[n:=set_state s k]> ks) i p ↔
    (recycled b ks i p ∧ p ≠ k_ptr b k) ∨
    (s = FreeListed ∧ p = k_ptr b k ∧ size_class_smaller_than (free_list b) (k_size k) = Ret i).
Proof.
  unfold recycled. split.
  - intros (k' & [->|[Hk' Hne]]%set_state_elem & -> & Hs & Hi); [by right|]. left.
    split; [by exists k'|]. unfold k_ptr in *. intros Heq. apply Hne.
    change (logical_to_physical mark) with (logical_to_physical b) in *. lia.
  - intros [((k' & Hk' & -> & Hs & Hi) & Hne)|(Hs & -> & Hi)].
    + exists k'. split_and!; try done. apply set_state_elem. right. split; [done|].
      intros Heq. apply Hne. unfold k_ptr. by rewrite Heq.
    + exists (set_state s k). split_and!; try done. apply set_state_elem. by left.
Qed.

(** Neither state is [FreeListed]: the free list is not concerned. *)
Lemma free_set_state ls :
  FreeInv b ks ls → k_state k ≠ FreeListed → s ≠ FreeListed → FreeInv mark (<[n:=set_state s k]> ks) ls.
Proof.
  intros [Hr Hd Hmin Hsome Hl Hf] Hk Hs. split; auto.
  - intros i p. rewrite recycled_set, Hl. split; [|by intros [[? _]|(? & _)]]. intros Hrec. left.
    split; [done|]. intros ->. destruct Hrec as (k' & (j & Hj)%list_elem_of_lookup & Heq & Hst & _).
    assert (j = n) as -> by (apply (phys_inj b ks HC j n k' k Hj Hn); unfold k_ptr in Heq; lia).
    by simplify_eq.
  - intros k' [->|[Hk' _]]%set_state_elem Hst; [done|]. by apply Hf.
Qed.
End set_state.

(** ** Changing the free list *)
Section lists.
Implicit Types (ls : list (list Z)) (p q : Z).

Lemma listed_insert ls j l l' i q :
  ls !! j = Some l → listed (<[j:=l']> ls) i q ↔ (i = j ∧ q ∈ l') ∨ (i ≠ j ∧ listed ls i q).
Proof.
  intros Hj. pose proof (lookup_lt_Some _ _ _ Hj) as Hlt. unfold listed. split.
  - intros (m & Hm & Hq). destruct (decide (i = j)) as [->|Hne].
    + rewrite list_lookup_insert_eq in Hm by done. left. by simplify_eq.
    + rewrite list_lookup_insert_ne in Hm by done. right. split; [done|by exists m].
  - intros [[-> Hq]|[Hne (m & Hm & Hq)]].
    + exists l'. by rewrite list_lookup_insert_eq.
    + exists m. by rewrite list_lookup_insert_ne.
Qed.

Lemma listed_unique fl lk ls i j p : FLRepr fl lk ls → listed ls i p → listed ls j p → i = j.
Proof.
  intros HR (l & Hl & Hp) (l' & Hl' & Hp'). destruct (decide (i = j)) as [|Hne]; [done|].
  exfalso. by apply (lists_apart _ _ _ HR i j l l' p).
Qed.

Lemma listed_remove fl lk ls j l1 p l2 i q :
  FLRepr fl lk ls → ls !! j = Some (l1 ++ p :: l2) →
  listed (<[j:=l1 ++ l2]> ls) i q ↔ listed ls i q ∧ q ≠ p.
Proof.
  intros HR Hj. rewrite (listed_insert ls j _ _ _ _ Hj).
  assert (NoDup (l1 ++ p :: l2)) as Hnd.
  { pose proof (fl_nodup _ _ _ HR) as Hnd. rewrite (proj2 (join_insert ls j _ [] Hj)) in Hnd.
    by apply NoDup_app in Hnd as (? & _). }
  rewrite <- Permutation_middle in Hnd. apply NoDup_cons in Hnd as [Hp Hnd]. split.
  - intros [[-> Hq]|[Hne Hq]].
    + split; [|by intros ->]. exists (l1 ++ p :: l2). split; [done|].
      apply elem_of_app in Hq as [?|?]; apply elem_of_app; [by left|right; by right].
    + split; [done|]. intros ->. apply Hne. eapply (listed_unique _ _ _ _ _ p HR Hq).
      exists (l1 ++ p :: l2). split; [done|]. apply elem_of_app. right. left.
  - intros [(l & Hl & Hq) Hne]. destruct (decide (i = j)) as [->|]; [|right; split; [done|by exists l]].
    left. split; [done|]. simplify_eq. apply elem_of_app in Hq as [?|[?|?]%elem_of_cons]; [|done|];
      apply elem_of_app; auto.
Qed.

Lemma listed_add ls j l p i q :
  ls !! j = Some l → listed (<[j:=p :: l]> ls) i q ↔ listed ls i q ∨ (i = j ∧ q = p).
Proof.
  intros Hj. rewrite (listed_insert ls j l _ _ _ Hj), elem_of_cons. split.
  - intros [[-> [->|Hq]]|[Hne Hq]]; [by right|left; by exists l|by left].
  - intros [(m & Hm & Hq)|[-> ->]]; [|by left; auto].
    destruct (decide (i = j)) as [->|]; [simplify_eq; auto|]. right. split; [done|by exists m].
Qed.
End lists.

Section free_changes.
Context (b : CircularBuffer) (ks : list blk) (ls : list (list Z)) (n : nat) (k : blk).
Hypotheses (HC : CoreInv b ks) (HF : FreeInv b ks ls) (Hn : ks !! n = Some k).

Lemma k_in : k ∈ ks.
Proof. by eapply list_elem_of_lookup_2. Qed.

(** A recycled block is in the list of its class. *)
Lemma recycled_at :
  k_state k = FreeListed →
  ∃ i c, size_class_smaller_than (free_list b) (k_size k) = Ret i ∧
    size_classes (free_list b) !! i = Some c ∧ c <= k_size k ∧ listed ls i (k_ptr b k).
Proof.
  intros Hs. destruct (fi_fits _ _ _ HF k k_in Hs) as (c0 & Hlast & Hle).
  assert (c0 ∈ size_classes (free_list b)) as Hin.
  { rewrite last_lookup in Hlast. by eapply list_elem_of_lookup_2. }
  destruct (smaller_spec _ _ c0 (fi_desc _ _ _ HF) Hin Hle) as (i & c & Hi & Hc & Hcs & _).
  exists i, c. split_and!; [done..|]. apply (fi_listed _ _ _ HF). by exists k; split; [apply k_in|].
Qed.

(** Unlisting the block while it leaves the recycled state. *)
Lemma free_unlist s j l1 l2 fl' lk' :
  ls !! j = Some (l1 ++ k_ptr b k :: l2) → s ≠ FreeListed →
  size_classes fl' = size_classes (free_list b) → FLRepr fl' lk' (<[j:=l1 ++ l2]> ls) →
  FreeInv (set_free (mark b k s) fl' lk') (<[n:=set_state s k]> ks) (<[j:=l1 ++ l2]> ls).
Proof.
  intros Hj Hs Hcl HR. pose proof HF as [HR0 Hd Hmin Hsome Hl Hf].
  assert (∀ x, size_class_smaller_than fl' x = size_class_smaller_than (free_list b) x) as Hsm
    by (intros x; unfold size_class_smaller_than; by rewrite Hcl).
  split; cbn [set_free free_list links]; rewrite ?Hcl; auto.
  - intros i p. rewrite (listed_remove _ _ _ _ _ _ _ _ _ HR0 Hj), Hl.
    pose proof (recycled_set b ks n k s HC Hn i p) as Hrec. split.
    + intros Hrp. destruct (proj2 Hrec (or_introl Hrp)) as (k' & ? & ? & ? & Hi).
      exists k'. split_and!; try done. cbn [set_free free_list]. by rewrite Hsm.
    + intros (k' & Hk' & Hp & Hst & Hi). cbn [set_free free_list] in Hi. rewrite Hsm in Hi.
      destruct (proj1 Hrec) as [?|(? & _)]; [by exists k'|done|done].
  - intros k' [->|[Hk' _]]%(set_state_elem b ks n k s HC Hn) Hst; [done|]. by apply Hf.
Qed.

(** Listing the block while it enters the recycled state. *)
Lemma free_list_add j l c fl' lk' :
  k_state k ≠ FreeListed → ls !! j = Some l →
  size_class_smaller_than (free_list b) (k_size k) = Ret j →
  last (size_classes (free_list b)) = Some c → c <= k_size k →
  size_classes fl' = size_classes (free_list b) → FLRepr fl' lk' (<[j:=k_ptr b k :: l]> ls) →
  FreeInv (set_free (mark b k FreeListed) fl' lk') (<[n:=set_state FreeListed k]> ks)
    (<[j:=k_ptr b k :: l]> ls).
Proof.
  intros Hk Hj Hsmall Hlast Hle Hcl HR. pose proof HF as [HR0 Hd Hmin Hsome Hl Hf].
  assert (∀ x, size_class_smaller_than fl' x = size_class_smaller_than (free_list b) x) as Hsm
    by (intros x; unfold size_class_smaller_than; by rewrite Hcl).
  split; cbn [set_free free_list links]; rewrite ?Hcl; auto.
  - intros i p. rewrite (listed_add _ _ _ _ _ _ Hj), Hl.
    pose proof (recycled_set b ks n k FreeListed HC Hn i p) as Hrec. split.
    + intros Hrp. assert (recycled b ks i p ∧ p ≠ k_ptr b k ∨ FreeListed = FreeListed ∧ p = k_ptr b k ∧
        size_class_smaller_than (free_list b) (k_size k) = Ret i) as Hcase.
      { destruct Hrp as [Hr|[-> ->]]; [|by right]. left. split; [done|]. intros ->.
        destruct Hr as (k' & (m & Hm)%list_elem_of_lookup & Heq & Hst & _).
        assert (m = n) as -> by (apply (phys_inj b ks HC m n k' k Hm Hn); unfold k_ptr in Heq; lia).
        by simplify_eq. }
      destruct (proj2 Hrec Hcase) as (k' & ? & ? & ? & Hi).
      exists k'. split_and!; try done. cbn [set_free free_list]. by rewrite Hsm.
    + intros (k' & Hk' & Hp & Hst & Hi). cbn [set_free free_list] in Hi. rewrite Hsm in Hi.
      destruct (proj1 Hrec) as [[? _]|(_ & -> & Hi')]; [by exists k'|by left|]. right.
      rewrite Hsmall in Hi'. by injection Hi'.
  - intros k' [->|[Hk' _]]%(set_state_elem b ks n k FreeListed HC Hn) Hst; [by exists c|]. by apply Hf.
Qed.

(** A block that is not recycled is not listed. *)
Lemma not_listed : k_state k ≠ FreeListed → k_ptr b k ∉ mjoin ls.
Proof.
  intros Hk (l & Hp & (i & Hi)%list_elem_of_lookup)%list_elem_of_join.
  assert (listed ls i (k_ptr b k)) as Hls by by exists l.
  apply (fi_listed _ _ _ HF) in Hls as (k' & (m & Hm)%list_elem_of_lookup & Heq & Hst & _).
  assert (m = n) as -> by (apply (phys_inj b ks HC m n k' k Hm Hn); unfold k_ptr in Heq; lia).
  by simplify_eq.
Qed.
End free_changes.
