(* ===== verification/CircularOps.v ===== *)
(** The operations of the circular buffer on well-formed states: handles, deallocation,
    eviction and allocation (src/circular_buffer/mod.rs). *)
From stdpp Require Import base numbers list option gmap.
From Stdlib Require Import ZArith Lia.
From S2P Require Import Prelude Bits FreeList CircularBuffer CircularInv.

Lemma core_set_free b ks fl lk : CoreInv b ks → CoreInv (set_free b fl lk) ks.
Proof. by intros []. Qed.

(** ** Handles *)
Section handles.
Context (b : CircularBuffer) (ks : list blk) (ls : list (list Z)) (n : nat) (k : blk).
Hypotheses (HI : CBInv b ks ls) (Hn : ks !! n = Some k).

Lemma inv_mark s :
  k_state k ≠ FreeListed → s ≠ FreeListed → (s = Evicted → k_addr k < evicting_addr (states b)) →
  CBInv (mark b k s) (<[n:=set_state s k]> ks) ls.
Proof.
  intros Hk Hs He. destruct HI as [HC HF]. split; [by apply core_set_state|by apply free_set_state].
Qed.

Lemma update_meta_blk f s :
  f (k_meta k) = Ret (mkAllocMeta (k_size k) s) → update_meta b (k_ptr b k) f = Ret (mark b k s).
Proof.
  intros Hf. unfold update_meta. rewrite (get_meta_ptr b ks (proj1 HI) k) by by eapply list_elem_of_lookup_2.
  ret_step. by rewrite Hf.
Qed.

Lemma exchange_blk expected new :
  k_state k = expected → exchange_or_panic (k_meta k) expected new = Ret (mkAllocMeta (k_size k) new).
Proof. intros Hs. unfold exchange_or_panic, compare_exchange. by rewrite decide_True. Qed.

Lemma drop_ptr_spec : k_state k = NotReady → drop_ptr b (k_ptr b k) = Ret (mark b k Ready).
Proof. intros Hs. by apply update_meta_blk, exchange_blk. Qed.

Lemma drop_handle_spec : k_state k = BeginTombStone → drop_handle b (k_ptr b k) = Ret (mark b k Ready).
Proof. intros Hs. by apply update_meta_blk, exchange_blk. Qed.

Lemma acquire_spec :
  acquire_exclusive_dealloc_handle b (k_ptr b k) =
    Ret (if decide (k_state k = Ready) then (inr (k_ptr b k), mark b k BeginTombStone)
         else (inl WouldBlock, b)).
Proof.
  assert (k ∈ ks) as Hk by by eapply list_elem_of_lookup_2. destruct HI as [HC _].
  unfold acquire_exclusive_dealloc_handle. rewrite (ptr_from_me b ks HC k Hk). ret_step.
  rewrite (get_meta_ptr b ks HC k Hk). ret_step. unfold try_begin_tombstone, compare_exchange.
  change (m_state (k_meta k)) with (k_state k). by case_decide.
Qed.

(** A deallocated block is retired or recycled, and the invariant is kept. *)
Lemma dealloc_inner_spec add contended :
  k_state k = BeginTombStone →
  ∃ s b' ls', dealloc_inner b (k_ptr b k) add contended = Ret b' ∧
    (s = Tombstone ∨ s = FreeListed ∧ add = true) ∧ states b' = states b ∧
    (s = Tombstone → b' = mark b k Tombstone) ∧
    capacity b' = capacity b ∧ data_ptr b' = data_ptr b ∧ CBInv b' (<[n:=set_state s k]> ks) ls'.
Proof.
  intros Hs. assert (k ∈ ks) as Hk by by eapply list_elem_of_lookup_2. pose proof HI as [HC HF].
  unfold dealloc_inner. rewrite (ptr_from_me b ks HC k Hk). ret_step.
  rewrite (get_meta_ptr b ks HC k Hk). ret_step. unfold to_tombstone, to_freelist.
  rewrite !exchange_blk by done.
  assert (∃ b' ls', Ret (put_meta b (k_ptr b k) (mkAllocMeta (k_size k) Tombstone)) = Ret b' ∧
    states b' = states b ∧ (Tombstone = Tombstone → b' = mark b k Tombstone) ∧ capacity b' = capacity b ∧
    data_ptr b' = data_ptr b ∧ CBInv b' (<[n:=set_state Tombstone k]> ks) ls') as (bt & lst & Ht & Ht').
  { eexists _, ls. split; [done|]. split_and!; try done; by apply inv_mark; rewrite ?Hs. }
  destruct (negb add || ptr_is_copy_on_access b (k_ptr b k)) eqn:Eadd.
  { exists Tombstone, bt, lst. ret_step. split; [done|]. split; [by left|done]. }
  apply orb_false_iff in Eadd as [Eadd _]. apply negb_false_iff in Eadd.
  change (m_size (k_meta k)) with (k_size k). destruct (fi_some _ _ _ HF) as [c0 Hlast].
  destruct (decide (c0 <= k_size k)) as [Hle|Hgt].
  2:{ unfold try_add. rewrite Hlast. cbn [expect]. ret_step. rewrite (proj2 (Z.ltb_lt _ _)) by lia. ret_step.
      exists Tombstone, bt, lst. split; [done|]. split; [by left|done]. }
  assert (c0 ∈ size_classes (free_list b)) as Hin.
  { rewrite last_lookup in Hlast. by eapply list_elem_of_lookup_2. }
  destruct (smaller_spec _ _ c0 (fi_desc _ _ _ HF) Hin Hle) as (i & c & Hi & Hc & Hcs & _).
  pose proof (Forall_lookup_1 _ _ _ _ (fi_min _ _ _ HF) Hc) as [H8 _].
  destruct contended.
  { destruct (list_at _ _ _ (fi_repr _ _ _ HF) i c Hc) as (h & l & Hg & _).
    unfold try_add. rewrite Hlast. cbn [expect]. ret_step. rewrite (proj2 (Z.ltb_ge _ _) Hle), Hi. ret_step.
    rewrite Hg. do 2 ret_step. exists Tombstone, bt, lst. split; [done|]. split; [by left|done]. }
  destruct (try_add_repr _ _ _ (fi_repr _ _ _ HF) (k_ptr b k) (k_size k) i c c0 Hlast Hle Hi Hc H8)
    as (l & fl' & Hl & Hcl & -> & HR).
  { unfold k_ptr. rewrite (phys_mod b ks HC). pose proof (cap_pos b ks HC). pose proof (proj1 (ci_base _ _ HC)).
    pose proof (Z.mod_pos_bound (k_addr k) (capacity b) ltac:(lia)). unfold NULL, CB_ALLOC_META_SIZE. lia. }
  { by apply (ptr_aligned b ks). }
  { apply (not_listed b ks ls n k HC HF Hn). by rewrite Hs. }
  ret_step. exists FreeListed. eexists _, (<[i:=k_ptr b k :: l]> ls). split; [done|]. split; [by right|].
  do 4 (split; [done|]). split.
  - change (CoreInv (set_free (mark b k FreeListed) fl' (<[k_ptr b k:=default NULL (head l)]> (links b)))
      (<[n:=set_state FreeListed k]> ks)).
    by apply core_set_free, (core_set_state b ks n k FreeListed HC Hn).
  - apply (free_list_add b ks ls n k HC HF Hn i l c0); auto. by rewrite Hs.
Qed.
End handles.

(** ** Eviction *)
(** The ring is where it was. *)
Definition same_place (b b' : CircularBuffer) : Prop :=
  capacity b' = capacity b ∧ data_ptr b' = data_ptr b ∧ states b' = states b.

Section evict.
Context (b : CircularBuffer) (ks : list blk) (ls : list (list Z)).
Hypothesis HI : CBInv b ks ls.

Lemma free_set_states s : FreeInv b ks ls → FreeInv (set_states b s) ks ls.
Proof. by intros []. Qed.

(** The reservation moves the cursor past one block. *)
Lemma evict_reserve_spec :
  (evicting_addr (states b) = tail_addr (states b) ∧ evict_reserve b = Ret (None, b)) ∨
  ∃ k, k ∈ ks ∧ k_addr k = evicting_addr (states b) ∧
    evict_reserve b = Ret (Some (k_addr k, k_end k), set_evicting b (k_end k)) ∧
    CBInv (set_evicting b (k_end k)) ks ls.
Proof.
  destruct HI as [HC HF]. unfold evict_reserve. destruct (ci_cursor _ _ HC) as [Heq|(k & Hk & Ha)].
  { left. by rewrite Heq, Z.eqb_refl. }
  destruct (blk_in b ks HC k Hk) as ((_ & _ & Hs & _) & Hh & Ht & _). right. exists k.
  unfold k_end, CB_ALLOC_META_SIZE in Ht. rewrite <- Ha.
  rewrite (proj2 (Z.eqb_neq _ _)) by lia. rewrite (get_meta_blk b ks HC k Hk). ret_step.
  split_and!; try done. split; [|by apply free_set_states]. pose proof (ci_order _ _ HC).
  pose proof HC as [? ? ? ? ? Htl Hok ? ? Hev].
  split; cbn [set_evicting set_states states head_addr evicting_addr tail_addr capacity data_ptr]; auto.
  - unfold k_end, CB_ALLOC_META_SIZE. lia.
  - unfold k_end, CB_ALLOC_META_SIZE. lia.
  - apply list_elem_of_split in Hk as (ks1 & ks2 & ->). apply tiles_app in Htl as (m & _ & [_ Htl]).
    destruct ks2 as [|k2 ks2]; cbn in Htl; [by left|]. right. exists k2. destruct Htl as [Hk2 _].
    split; [|done]. apply elem_of_app. right. right. left.
  - intros k' Hk' He. specialize (Hev k' Hk' He). unfold k_end, CB_ALLOC_META_SIZE. lia.
Qed.

Lemma set_state_lookup n k s :
  ks !! n = Some k → <[n:=set_state s k]> ks !! n = Some (set_state s k).
Proof. intros Hn. apply list_lookup_insert_eq. by eapply lookup_lt_Some. Qed.

(** Retiring a block the evictor owns. *)
Lemma evict_finish_spec n k :
  ks !! n = Some k → k_state k = BeginTombStone → k_addr k < evicting_addr (states b) →
  ∃ b', evict_finish b (k_ptr b k) = Ret b' ∧ same_place b b' ∧
    CBInv b' (<[n:=set_state Evicted k]> ks) ls.
Proof.
  intros Hn Hs Ha. unfold evict_finish. pose proof HI as [HC _].
  unfold dealloc_inner. assert (k ∈ ks) as Hk by by eapply list_elem_of_lookup_2.
  rewrite (ptr_from_me b ks HC k Hk). ret_step. rewrite (get_meta_ptr b ks HC k Hk). ret_step.
  cbn [negb orb]. unfold to_tombstone. rewrite (exchange_blk k) by done. do 2 ret_step.
  pose proof (inv_mark b ks ls n k HI Hn Tombstone ltac:(by rewrite Hs) ltac:(done) ltac:(done)) as HI1.
  change (put_meta b (k_ptr b k) _) with (mark b k Tombstone).
  change (k_ptr b k) with (k_ptr (mark b k Tombstone) (set_state Tombstone k)).
  pose proof (set_state_lookup n k Tombstone Hn) as Hn1.
  rewrite (update_meta_blk _ _ _ n (set_state Tombstone k) HI1 Hn1 tombstone_to_evicted Evicted)
    by (by apply exchange_blk).
  eexists. split; [done|]. split; [done|].
  pose proof (inv_mark _ _ _ n (set_state Tombstone k) HI1 Hn1 Evicted ltac:(done) ltac:(done) (λ _, Ha)) as HI2.
  by rewrite list_insert_insert_eq in HI2.
Qed.

(** Retiring a block that is retired or recycled already. *)
Lemma evict_unowned_spec n k :
  ks !! n = Some k → k_addr k < evicting_addr (states b) → k_state k ≠ Ready →
  ∃ r b' ls', evict_unowned b (k_addr k) (k_ptr b k) = Ret (r, b') ∧ same_place b b' ∧
    (if r then (k_state k = Tombstone ∨ k_state k = FreeListed) ∧
               CBInv b' (<[n:=set_state Evicted k]> ks) ls'
     else k_state k ≠ Tombstone ∧ k_state k ≠ FreeListed ∧ b' = b).
Proof.
  intros Hn Ha Hnr. pose proof HI as [HC HF]. assert (k ∈ ks) as Hk by by eapply list_elem_of_lookup_2.
  unfold evict_unowned. rewrite (get_meta_blk b ks HC k Hk). ret_step.
  change (m_state (k_meta k)) with (k_state k). change (m_size (k_meta k)) with (k_size k).
  destruct (k_state k) eqn:Hs; try done; try (by exists false, b, ls).
  - rewrite (update_meta_blk b ks ls n k HI Hn tombstone_to_evicted Evicted) by (by apply exchange_blk).
    ret_step. eexists true, _, ls. split; [done|]. split; [done|]. split; [by left|].
    apply (inv_mark b ks ls n k HI Hn Evicted); rewrite ?Hs; done.
  - destruct (recycled_at b ks ls n k HF Hn Hs) as (i & c & Hi & Hc & Hcs & Hlst).
    destruct (find_and_remove_repr _ _ _ (fi_repr _ _ _ HF) (k_ptr b k) (k_size k) i c Hi Hc)
      as [(l & Hl & Hout & _)|(l1 & l2 & fl' & lk' & Hl & Hcl & -> & HR & _)].
    { destruct Hlst as (l' & Hl' & Hp). by simplify_eq. }
    ret_step. cbv beta iota. set (b0 := set_free b fl' lk').
    assert (get_meta_from_data_ptr b0 (k_ptr b k) = Ret (k_meta k)) as Hg
      by apply (get_meta_ptr b ks HC k Hk).
    set (b1 := put_meta b0 (k_ptr b k) (mkAllocMeta (k_size k) Tombstone)).
    assert (update_meta b0 (k_ptr b k) free_list_to_tombstone = Ret b1) as ->.
    { unfold update_meta. rewrite Hg. ret_step. unfold free_list_to_tombstone. by rewrite (exchange_blk k). }
    ret_step.
    assert (CBInv b1 (<[n:=set_state Tombstone k]> ks) (<[i:=l1 ++ l2]> ls)) as HI1.
    { split; [|by apply (free_unlist b ks ls n k HC HF Hn Tombstone i)].
      change b1 with (set_free (mark b k Tombstone) fl' lk').
      by apply core_set_free, (core_set_state b ks n k Tombstone HC Hn). }
    pose proof (set_state_lookup n k Tombstone Hn) as Hn1.
    change (k_ptr b k) with (k_ptr b1 (set_state Tombstone k)).
    rewrite (update_meta_blk _ _ _ n (set_state Tombstone k) HI1 Hn1 tombstone_to_evicted Evicted)
      by (by apply exchange_blk).
    ret_step. eexists true, _, _. split; [done|]. split; [done|]. split; [by right|].
    pose proof (inv_mark _ _ _ n (set_state Tombstone k) HI1 Hn1 Evicted ltac:(done) ltac:(done) (λ _, Ha)) as HI2.
    rewrite list_insert_insert_eq in HI2. exact HI2.
Qed.

End evict.

(** One round of the eviction loop on a reserved block. *)
Lemma evict_attempt_spec b ks ls n k accept :
  CBInv b ks ls → ks !! n = Some k → k_addr k < evicting_addr (states b) →
  ∃ r b' ks' ls', evict_attempt b (k_addr k) accept = Ret (r, b') ∧ states b' = states b ∧
    CBInv b' ks' ls' ∧
    (if r then ks' = <[n:=set_state Evicted k]> ks
     else ks' = ks ∧ (k_state k = Ready ∧ accept = false ∨
                      k_state k = NotReady ∨ k_state k = BeginTombStone ∨ k_state k = Evicted)).
Proof.
  intros HI Hn Ha. unfold evict_attempt. change (logical_to_physical b (k_addr k) + CB_ALLOC_META_SIZE) with (k_ptr b k).
  rewrite (acquire_spec b ks ls n k HI Hn). ret_step. destruct (decide (k_state k = Ready)) as [Hs|Hs].
  - pose proof (inv_mark b ks ls n k HI Hn BeginTombStone ltac:(by rewrite Hs) ltac:(done) ltac:(done)) as HI1.
    pose proof (set_state_lookup ks n k BeginTombStone Hn) as Hn1.
    change (k_ptr b k) with (k_ptr (mark b k BeginTombStone) (set_state BeginTombStone k)).
    destruct accept.
    + rewrite <- (list_insert_insert_eq ks n _ (set_state BeginTombStone k)).
      destruct (evict_finish_spec _ _ _ HI1 n (set_state BeginTombStone k) Hn1 eq_refl Ha) as (b' & -> & (_ & _ & Hst) & HI').
      ret_step. eexists true, b', _, ls. split; [done|]. split; [done|]. split; [exact HI'|done].
    + rewrite (drop_handle_spec _ _ _ n (set_state BeginTombStone k) HI1 Hn1 eq_refl). ret_step.
      pose proof (inv_mark _ _ _ n (set_state BeginTombStone k) HI1 Hn1 Ready ltac:(done) ltac:(done) ltac:(done)) as HI2.
      rewrite list_insert_insert_eq in HI2.
      eexists false, _, ks, ls. split; [done|]. split; [done|]. split; [|auto].
      replace ks with (<[n:=set_state Ready (set_state BeginTombStone k)]> ks) at 1; [exact HI2|].
      apply list_insert_id. rewrite Hn. destruct k as [a [sz st]]. cbn in Hs. by subst.
  - destruct (evict_unowned_spec b ks ls HI n k Hn Ha Hs) as (r & b' & ls' & -> & (_ & _ & Hst) & Hr). destruct r.
    + destruct Hr as [_ HI']. by exists true, b', (<[n:=set_state Evicted k]> ks), ls'.
    + destruct Hr as (H1 & H2 & ->). exists false, b, ks, ls. split_and!; try done.
      destruct (k_state k); try done; auto.
Qed.

(** ** The head *)
Lemma cursor_boundary b ks k :
  CoreInv b ks → k ∈ ks → k_addr k < evicting_addr (states b) → k_end k <= evicting_addr (states b).
Proof.
  intros HC Hk Hlt. destruct (blk_in b ks HC k Hk) as (_ & _ & Ht & _).
  destruct (ci_cursor _ _ HC) as [->|(k' & Hk' & Hcur)]; [done|]. rewrite <- Hcur in *.
  apply list_elem_of_lookup in Hk as [i Hi], Hk' as [j Hj].
  pose proof (ci_blocks _ _ HC) as Hok. destruct (decide (i < j)%nat) as [Hij|Hij].
  - by apply (tiles_disjoint _ _ _ _ i j k k' Hok (ci_tiles _ _ HC)).
  - destruct (decide (i = j)) as [->|]; [simplify_eq; lia|].
    pose proof (tiles_disjoint _ _ _ _ j i k' k Hok (ci_tiles _ _ HC) Hj Hi ltac:(lia)) as Hd.
    rewrite Forall_forall in Hok. destruct (Hok k') as (_ & _ & ? & _); [by eapply list_elem_of_lookup_2|].
    unfold k_end, CB_ALLOC_META_SIZE in Hd. lia.
Qed.

(** The head passes an evicted block. *)
Lemma inv_pass_head b k ks ls :
  CBInv b (k :: ks) ls → k_state k = Evicted → CBInv (set_head_addr b (k_end k)) ks ls.
Proof.
  intros [HC HF] Hs. assert (k ∈ k :: ks) as Hk by left.
  pose proof (ci_evicted _ _ HC k Hk Hs) as Hlt. pose proof (cursor_boundary b _ k HC Hk Hlt) as Hend.
  destruct (blk_in b _ HC k Hk) as (Hok & _ & _ & _).
  pose proof HC as [Hcap Hbase Hord Htail Hal [Ha Ht] Hoks Hcur Hm Hev].
  assert (k_addr k < k_end k) as Hlt2.
  { destruct Hok as (_ & _ & ? & _). unfold k_end, CB_ALLOC_META_SIZE. lia. }
  split; [split|]; cbn [set_head_addr set_states states head_addr evicting_addr tail_addr capacity data_ptr]; auto.
  - lia.
  - lia.
  - by eapply blk_end_aligned.
  - by apply Forall_cons in Hoks as [_ ?].
  - destruct Hcur as [?|(k' & [->|Hk']%elem_of_cons & Heq)]; [by left|lia|right; by exists k'].
  - intros k' Hk'. apply Hm. by right.
  - intros k' Hk'. apply Hev. by right.
  - destruct HF as [HR Hd Hmin Hsome Hl Hf]. split; auto.
    + intros i p. rewrite Hl. unfold recycled. split; intros (k' & Hk' & ? & Hst & ?).
      * apply elem_of_cons in Hk' as [->|Hk']; [congruence|by exists k'].
      * exists k'. split; [by right|done].
    + intros k' Hk'. apply Hf. by right.
Qed.

Lemma bump_loop_spec fuel b ks ls old :
  CBInv b ks ls → evicting_addr (states b) - head_addr (states b) < 8 * Z.of_nat fuel →
  ∃ r b' ks1 ks2, bump_loop b old fuel = Ret (r, b') ∧ ks = ks1 ++ ks2 ∧ CBInv b' ks2 ls ∧
    Forall (λ k, k_state k = Evicted) ks1 ∧
    evicting_addr (states b') = evicting_addr (states b) ∧ tail_addr (states b') = tail_addr (states b) ∧
    match r with
    | inr d => head_addr (states b') = evicting_addr (states b) ∧ d = head_addr (states b') - old
    | inl e => e = WouldBlock ∧ ∃ k ks2', ks2 = k :: ks2' ∧ k_state k ≠ Evicted ∧
                 k_addr k < evicting_addr (states b)
    end.
Proof.
  revert b ks. induction fuel as [|fuel IH]; intros b ks HI Hf.
  { pose proof (ci_order _ _ (proj1 HI)). lia. }
  pose proof HI as [HC _]. cbn [bump_loop]. zcase (head_addr (states b) <? evicting_addr (states b)).
  2:{ pose proof (ci_order _ _ HC). eexists _, b, [], ks. split; [done|]. split_and!; try done. lia. }
  pose proof (ci_tiles _ _ HC) as Ht. destruct ks as [|k ks]; cbn in Ht.
  { pose proof (ci_tail _ _ HC). lia. }
  destruct Ht as [Ha _]. assert (k ∈ k :: ks) as Hk by left. rewrite <- Ha.
  rewrite (get_meta_blk b _ HC k Hk). ret_step. unfold is_evicted.
  change (m_state (k_meta k)) with (k_state k). case_bool_decide as Hs; cbn [negb].
  - destruct (IH (set_head_addr b (k_end k)) ks) as (r & b' & ks1 & ks2 & H1 & -> & H3 & H4 & H5 & H6 & H7).
    { by apply inv_pass_head. }
    { destruct (blk_in b _ HC k Hk) as ((_ & _ & ? & _) & _). cbn.
      unfold k_end, CB_ALLOC_META_SIZE. lia. }
    exists r, b', (k :: ks1), ks2. split; [exact H1|]. split_and!; try done. by constructor.
  - eexists _, b, [], (k :: ks). split; [done|]. split_and!; try done. exists k, ks. split_and!; try done. lia.
Qed.

Lemma bump_loop_frame fuel b old r b' :
  bump_loop b old fuel = Ret (r, b') → capacity b' = capacity b ∧ data_ptr b' = data_ptr b.
Proof.
  revert b. induction fuel as [|fuel IH]; intros b Hr; cbn [bump_loop] in Hr; [done|].
  destruct (head_addr (states b) <? evicting_addr (states b)); [|by simplify_eq].
  inv_ret Hr. destruct (negb (is_evicted a)); [by simplify_eq|]. by apply IH in Hr.
Qed.

Lemma bump_fuel a c : 0 <= c - a → c - a < 8 * Z.of_nat (S (Z.to_nat ((c - a) / CB_ALLOC_META_SIZE))).
Proof. intros H. unfold CB_ALLOC_META_SIZE. rewrite Nat2Z.inj_succ, Z2Nat.id by dlia. dlia. Qed.

Lemma try_bump_spec b ks ls :
  CBInv b ks ls →
  ∃ r b' ks1 ks2, try_bump_head_address_to_evicting_addr b = Ret (r, b') ∧ ks = ks1 ++ ks2 ∧
    CBInv b' ks2 ls ∧ Forall (λ k, k_state k = Evicted) ks1 ∧
    evicting_addr (states b') = evicting_addr (states b) ∧ tail_addr (states b') = tail_addr (states b) ∧
    match r with
    | inr d => head_addr (states b') = evicting_addr (states b) ∧
               d = head_addr (states b') - head_addr (states b)
    | inl e => e = WouldBlock ∧ ∃ k ks2', ks2 = k :: ks2' ∧ k_state k ≠ Evicted ∧
                 k_addr k < evicting_addr (states b)
    end.
Proof.
  intros HI. apply bump_loop_spec; [done|]. apply bump_fuel. pose proof (ci_order _ _ (proj1 HI)). lia.
Qed.

(** ** Evicting with nobody else running *)

(** The blocks that an eviction alone can retire, with a callback that accepts. *)
Definition evictable (s : MetaState) : Prop := s = Ready ∨ s = Tombstone ∨ s = FreeListed.

(** Every reserved block has been evicted: no eviction is under way. *)
Definition settled (b : CircularBuffer) (ks : list blk) : Prop :=
  ∀ k, k ∈ ks → k_addr k < evicting_addr (states b) → k_state k = Evicted.

Lemma same_block b ks k k' :
  CoreInv b ks → k ∈ ks → k' ∈ ks → k_addr k <= k_addr k' < k_end k → k' = k.
Proof.
  intros HC Hk Hk' Hr. destruct (blk_in b ks HC k' Hk') as ((_ & _ & Hs' & _) & _).
  apply list_elem_of_lookup in Hk as [i Hi], Hk' as [j Hj].
  pose proof (λ x y z t, tiles_disjoint _ _ _ _ x y z t (ci_blocks _ _ HC) (ci_tiles _ _ HC)) as Hd.
  destruct (decide (i = j)) as [->|]; [by simplify_eq|]. exfalso.
  destruct (decide (i < j)%nat) as [Hij|]; [specialize (Hd i j k k' Hi Hj Hij); lia|].
  specialize (Hd j i k' k Hj Hi ltac:(lia)). unfold k_end, CB_ALLOC_META_SIZE in *. lia.
Qed.

Lemma evict_one_spec b ks ls :
  CBInv b ks ls → settled b ks → (∀ k, k ∈ ks → k_state k ≠ Evicted → evictable (k_state k)) →
  (evicting_addr (states b) = tail_addr (states b) ∧ evict_one b [] 1 = Ret (NothingToEvict, b)) ∨
  ∃ k b' ks2 ls', evict_one b [] 1 = Ret (Evicts (k_size k + CB_ALLOC_META_SIZE), b') ∧
    k ∈ ks ∧ k_addr k = evicting_addr (states b) ∧ CBInv b' ks2 ls' ∧ (∀ k', k' ∈ ks2 → k' ∈ ks) ∧
    head_addr (states b') = k_end k ∧ evicting_addr (states b') = k_end k ∧
    tail_addr (states b') = tail_addr (states b).
Proof.
  intros HI Hset Hall. unfold evict_one. pose proof HI as [HC _].
  destruct (evict_reserve_spec b ks ls HI) as [[? ->]|(k & Hk & Ha & -> & HI1)]; [by left|]. right. ret_step.
  destruct (blk_in b _ HC k Hk) as ((_ & _ & Hsz & _) & _).
  apply list_elem_of_lookup in Hk as [n Hn]. assert (k ∈ ks) as Hk by by eapply list_elem_of_lookup_2.
  assert (k_addr k < k_end k) as Hlt by (unfold k_end, CB_ALLOC_META_SIZE; lia).
  assert (evictable (k_state k)) as Hek.
  { apply Hall; [done|]. intros He. pose proof (ci_evicted _ _ HC k Hk He). lia. }
  destruct (evict_attempt_spec _ _ _ n k true HI1 Hn Hlt) as (r & b2 & ks' & ls' & Hatt & Hst & HI2 & Hr).
  cbn [evict_loop head default from_option]. change (default true None) with true. rewrite Hatt. ret_step. destruct r.
  2:{ exfalso. destruct Hr as [_ Hr]. destruct Hek as [E|[E|E]]; rewrite E in Hr; destruct Hr as [[_ ?]|[?|[?|?]]]; done. }
  subst ks'. ret_step. destruct (try_bump_spec b2 _ _ HI2) as (t & b3 & ks1 & ks2 & -> & Hks & HI3 & Hev & He & Ht & Hres).
  ret_step. cbn [snd]. rewrite Hst in *. cbn [set_evicting set_states states evicting_addr tail_addr head_addr] in *.
  assert (∀ k', k' ∈ ks2 → k' = set_state Evicted k ∨ k' ∈ ks ∧ k' ≠ k) as Hsub.
  { intros k' Hk'. assert (k' ∈ <[n:=set_state Evicted k]> ks) as Hin by (rewrite Hks; apply elem_of_app; by right).
    apply (set_state_elem b ks n k Evicted HC Hn) in Hin as [->|[Hin Hphys]]; [by left|].
    right. split; [done|]. by intros ->. }
  destruct t as [e|d].
  { exfalso. destruct Hres as (_ & k' & ks2' & -> & Hne & Hk'lt).
    destruct (Hsub k' ltac:(left)) as [->|[Hin Hneq]]; [done|].
    destruct (decide (k_addr k' < evicting_addr (states b))) as [Hl|Hl]; [by apply Hne, Hset|].
    apply Hneq, (same_block b ks k k' HC Hk Hin). lia. }
  destruct Hres as [Hh _]. exists k, b3, ks2, ls'.
  replace (k_end k - k_addr k) with (k_size k + CB_ALLOC_META_SIZE) by (unfold k_end; lia).
  split_and!; try done. intros k' Hk'. destruct (Hsub k' Hk') as [->|[? _]]; [|done].
  destruct (blk_in b3 _ (proj1 HI3) _ Hk') as (_ & Hlo & _). rewrite Hh in Hlo. cbn in Hlo. lia.
Qed.

(** No eviction is under way and nobody holds a block. *)
Definition quiet (b : CircularBuffer) (ks : list blk) : Prop :=
  settled b ks ∧ ∀ k, k ∈ ks → k_state k ≠ Evicted → evictable (k_state k).

Lemma drain_loop_spec fuel b ks ls :
  CBInv b ks ls → quiet b ks → tail_addr (states b) - evicting_addr (states b) < 8 * Z.of_nat fuel →
  ∃ b' ks' ls', drain_loop b fuel = Ret b' ∧ CBInv b' ks' ls' ∧ quiet b' ks' ∧
    evicting_addr (states b') = tail_addr (states b') ∧ tail_addr (states b') = tail_addr (states b).
Proof.
  revert b ks ls. induction fuel as [|fuel IH]; intros b ks ls HI [Hset Hall] Hf.
  { pose proof (ci_tail _ _ (proj1 HI)). lia. }
  cbn [drain_loop]. destruct (evict_one_spec b ks ls HI Hset Hall)
    as [[Heq ->]|(k & b1 & ks1 & ls1 & -> & Hk & Ha & HI1 & Hsub & Hh & He & Ht)]; ret_step.
  { by exists b, ks, ls. }
  destruct (blk_in b ks (proj1 HI) k Hk) as ((_ & _ & Hs & _) & _).
  destruct (IH b1 ks1 ls1 HI1) as (b' & ks' & ls' & -> & HI' & Hq & Heq & Htl).
  - split.
    + intros k' Hk' Hlt. destruct (blk_in b1 ks1 (proj1 HI1) k' Hk') as (_ & Hlo & _). lia.
    + intros k' Hk'. apply Hall. by apply Hsub.
  - rewrite Ht, He. unfold k_end, CB_ALLOC_META_SIZE. lia.
  - exists b', ks', ls'. split_and!; try apply Hq; done || congruence.
Qed.

Lemma drain_spec b ks ls :
  CBInv b ks ls → quiet b ks →
  ∃ b' ls', drain b = Ret b' ∧ CBInv b' [] ls' ∧ head_addr (states b') = tail_addr (states b') ∧
    evicting_addr (states b') = tail_addr (states b') ∧ tail_addr (states b') = tail_addr (states b).
Proof.
  intros HI Hq. unfold drain. pose proof (ci_tail _ _ (proj1 HI)) as Htail.
  pose proof (bump_fuel (evicting_addr (states b)) (tail_addr (states b)) ltac:(lia)) as Hfuel.
  destruct (drain_loop_spec _ b ks ls HI Hq Hfuel)
    as (b1 & ks1 & ls1 & -> & HI1 & [Hset _] & Heq & Ht). ret_step.
  destruct (try_bump_spec b1 ks1 ls1 HI1) as (t & b2 & ks2 & ks3 & -> & -> & HI2 & _ & He & Htl & Hres).
  ret_step. destruct t as [e|d].
  { exfalso. destruct Hres as (_ & k & ks3' & -> & Hne & Hlt). apply Hne, Hset; [|done].
    apply elem_of_app. right. left. }
  destruct Hres as [Hh _]. exists b2, ls1. rewrite He, Htl, Hh, Heq, Z.eqb_refl. cbn [assert_]. ret_step.
  cbn [assert_]. ret_step. split; [done|]. split; [|by rewrite Ht].
  assert (ks3 = []) as ->; [|done]. pose proof (ci_tiles _ _ (proj1 HI2)) as Htiles.
  rewrite Hh, Htl, Heq in Htiles. apply (tiles_le _ _ _ _ (ci_blocks _ _ (proj1 HI2))) in Htiles.
  apply zlen_nil_inv. pose proof (zlen_nonneg ks3). lia.
Qed.
