(* ===== verification/CircularAlloc.v ===== *)
(** Allocation from the circular buffer (src/circular_buffer/mod.rs, [alloc]): recycled
    blocks first, then fresh memory at the tail. *)
From stdpp Require Import base numbers list option gmap.
From Stdlib Require Import ZArith Lia.
From S2P Require Import Prelude Bits NodeMeta FreeList CircularBuffer CircularInv CircularOps.

Lemma align_up_spec z : align_up z 8 mod 8 = 0 ∧ z <= align_up z 8 < z + 8.
Proof.
  unfold align_up. rewrite <- Z.ldiff_land. change (8 - 1) with (Z.ones 3).
  rewrite Z.ldiff_ones_r by lia. rewrite Z.shiftl_mul_pow2, Z.shiftr_div_pow2 by lia.
  change (2 ^ 3) with 8. rewrite Z.mod_mul by lia. dlia.
Qed.

(** ** Blocks keep their place; only recycled ones change state *)
Definition evolves (k k' : blk) : Prop :=
  k_addr k' = k_addr k ∧ k_size k' = k_size k ∧
  (k' = k ∨ k_state k = FreeListed ∧ (k_state k' = Tombstone ∨ k_state k' = NotReady)).

Lemma evolves_refl ks : Forall2 evolves ks ks.
Proof. apply Forall2_same_length_lookup. split; [done|]. intros i x y Hx Hy. simplify_eq. by split_and!; [..|left]. Qed.

Lemma evolves_trans ks1 ks2 ks3 : Forall2 evolves ks1 ks2 → Forall2 evolves ks2 ks3 → Forall2 evolves ks1 ks3.
Proof.
  assert (Transitive evolves) as Ht; [|apply (_ : Transitive (Forall2 evolves))].
  intros k1 k2 k3 (H1 & H2 & H3) (H4 & H5 & H6). split_and!; [congruence..|].
  destruct H3 as [->|[H3 H3']], H6 as [->|[H6 H6']]; auto.
Qed.

Lemma evolves_set ks n k s :
  ks !! n = Some k → k_state k = FreeListed → s = Tombstone ∨ s = NotReady →
  Forall2 evolves ks (<[n:=set_state s k]> ks).
Proof.
  intros Hn Hs Hns. apply Forall2_same_length_lookup. rewrite length_insert. split; [done|].
  intros i x y Hx Hy. destruct (decide (i = n)) as [->|Hne].
  - rewrite list_lookup_insert_eq in Hy by (by eapply lookup_lt_Some). simplify_eq. by split_and!; [..|right].
  - rewrite list_lookup_insert_ne in Hy by done. simplify_eq. by split_and!; [..|left].
Qed.

Lemma evolves_keeps ks ks' k : Forall2 evolves ks ks' → k ∈ ks → k_state k ≠ FreeListed → k ∈ ks'.
Proof.
  intros H (i & Hi)%list_elem_of_lookup Hs. destruct (Forall2_lookup_l _ _ _ _ _ H Hi) as (k' & Hi' & _ & _ & [->|[? _]]);
    [by eapply list_elem_of_lookup_2|done].
Qed.

(** ** Recycled blocks *)
Section recycled.
Context (size : Z) (i : nat) (c : Z).

(** The block at the front of a list. *)
Lemma front_block b ks ls p l :
  CBInv b ks ls → ls !! i = Some (p :: l) → size_classes (free_list b) !! i = Some c →
  ∃ n k, ks !! n = Some k ∧ p = k_ptr b k ∧ k_state k = FreeListed ∧ c <= k_size k.
Proof.
  intros [HC HF] Hl Hc. assert (listed ls i p) as Hlst by (exists (p :: l); split; [done|left]).
  apply (fi_listed _ _ _ HF) in Hlst as (k & Hk & -> & Hs & Hi).
  destruct (fi_fits _ _ _ HF k Hk Hs) as (c0 & Hlast & Hle).
  apply list_elem_of_lookup in Hk as [n Hn]. exists n, k. split_and!; [done..|].
  assert (c0 ∈ size_classes (free_list b)) as Hin.
  { rewrite last_lookup in Hlast. by eapply list_elem_of_lookup_2. }
  destruct (smaller_spec _ _ c0 (fi_desc _ _ _ HF) Hin Hle) as (j & c' & Hj & Hc' & Hcs & _).
  rewrite Hi in Hj. injection Hj as <-. by simplify_eq.
Qed.

(** What taking a recycled block gives: a block that was recycled, or none is left. *)
Definition recycled_result (ks : list blk) (r : option Z) (b' : CircularBuffer) (ks' : list blk)
    (ls' : list (list Z)) : Prop :=
  match r with
  | None => ls' !! i = Some [] ∧ ∀ k1, k1 ∈ ks' → k_state k1 = NotReady → k1 ∈ ks
  | Some p => ∃ n k k', ks !! n = Some k ∧ ks' !! n = Some k' ∧ p = k_ptr b' k' ∧
      k_state k = FreeListed ∧ k_state k' = NotReady ∧ size <= k_size k' ∧
      ∀ k1, k1 ∈ ks' → k_state k1 = NotReady → k1 ∈ ks ∨ k1 = k'
  end.

Lemma elem_set_state (ks : list blk) (n : nat) k s k1 : k1 ∈ <[n:=set_state s k]> ks → k1 ∈ ks ∨ k1 = set_state s k.
Proof.
  intros (j & Hj)%list_elem_of_lookup. apply list_lookup_insert_Some in Hj as [(_ & <- & _)|[_ ?]]; [by right|].
  left. by eapply list_elem_of_lookup_2.
Qed.

(** Passing over a block that has become too old. *)
Lemma recycled_skip ks n k r b' ks' ls' :
  ks !! n = Some k → recycled_result (<[n:=set_state Tombstone k]> ks) r b' ks' ls' →
  recycled_result ks r b' ks' ls'.
Proof.
  intros Hn. assert (∀ k1, k1 ∈ <[n:=set_state Tombstone k]> ks → k_state k1 = NotReady → k1 ∈ ks) as Hold.
  { intros k1 [?| ->]%elem_set_state ?; done. }
  destruct r as [p|]; cbn.
  - intros (m & k1 & k2 & Hm & Hm' & -> & Hs1 & Hs2 & Hle & Honly). exists m.
    destruct (decide (m = n)) as [->|Hne].
    + rewrite list_lookup_insert_eq in Hm by (by eapply lookup_lt_Some). by simplify_eq.
    + rewrite list_lookup_insert_ne in Hm by done. exists k1, k2. split_and!; try done.
      intros k3 Hk3 Hs3. destruct (Honly k3 Hk3 Hs3) as [?|?]; [left; by apply Hold|by right].
  - intros [? Honly]. split; [done|]. auto.
Qed.

Lemma alloc_recycled_spec fuel b ks ls l :
  CBInv b ks ls → size_class_larger_than (free_list b) size = Ret i →
  size_classes (free_list b) !! i = Some c → size <= c → ls !! i = Some l → (length l < fuel)%nat →
  ∃ r b' ks' ls', alloc_recycled b size [] fuel = Ret (r, b') ∧ CBInv b' ks' ls' ∧
    Forall2 evolves ks ks' ∧ states b' = states b ∧ capacity b' = capacity b ∧ data_ptr b' = data_ptr b ∧
    size_classes (free_list b') = size_classes (free_list b) ∧
    recycled_result ks r b' ks' ls'.
Proof.
  revert b ks ls l. induction fuel as [|fuel IH]; intros b ks ls l HI Hlg Hc Hsz Hl Hf; [lia|].
  cbn [alloc_recycled]. pose proof HI as [HC HF].
  destruct (remove_repr _ _ _ (fi_repr _ _ _ HF) size i c Hlg Hc)
    as [[Hnil ->]|(p & l' & fl' & Hl' & -> & Hcl & HR)]; ret_step; cbv beta iota.
  { exists None, b, ks, ls. split_and!; try done. apply evolves_refl. }
  rewrite Hl in Hl'. injection Hl' as ->.
  destruct (front_block b ks ls p l' HI Hl Hc) as (n & k & Hn & -> & Hs & Hck).
  assert (k ∈ ks) as Hk by by eapply list_elem_of_lookup_2.
  set (b1 := set_free b fl' (links b)).
  assert (get_meta_from_data_ptr b1 (k_ptr b k) = Ret (k_meta k)) as -> by apply (get_meta_ptr b ks HC k Hk).
  ret_step. change (ptr_is_copy_on_access b1 (k_ptr b k)) with (ptr_is_copy_on_access b (k_ptr b k)).
  assert (∀ s, s ≠ FreeListed → s ≠ Evicted →
    CBInv (set_free (mark b k s) fl' (links b)) (<[n:=set_state s k]> ks) (<[i:=l']> ls)) as Hmark.
  { intros s Hs1 Hs2. split; [by apply core_set_free, (core_set_state b ks n k s HC Hn)|].
    by apply (free_unlist b ks ls n k HC HF Hn s i []). }
  destruct (ptr_is_copy_on_access b (k_ptr b k)).
  - unfold free_list_to_tombstone. rewrite (exchange_blk k) by done. ret_step.
    change (put_meta b1 (k_ptr b k) _) with (set_free (mark b k Tombstone) fl' (links b)).
    specialize (Hmark Tombstone ltac:(done) ltac:(done)).
    destruct (IH _ _ _ l' Hmark) as (r & b' & ks' & ls' & Hr & HI' & Hev & H1 & H2 & H3 & H4 & Hres).
    + unfold size_class_larger_than. cbn [set_free free_list]. by rewrite Hcl.
    + cbn [set_free free_list]. by rewrite Hcl.
    + done.
    + apply list_lookup_insert_eq. by eapply lookup_lt_Some.
    + cbn in Hf. lia.
    + exists r, b', ks', ls'. split; [done|]. split; [done|].
      split; [eapply evolves_trans; [|exact Hev]; apply evolves_set; auto|]. cbn [set_free free_list] in H4.
      rewrite Hcl in H4. split_and!; try done. by eapply recycled_skip.
  - rewrite assert_true by (apply Z.leb_le; change (m_size (k_meta k)) with (k_size k); lia). ret_step.
    cbn [head default from_option]. change (default true None) with true. unfold compare_exchange. rewrite decide_True by done.
    specialize (Hmark NotReady ltac:(done) ltac:(done)). destruct Hmark as [HC' HF'].
    exists (Some (k_ptr b k)). eexists _, (<[n:=set_state NotReady k]> ks), (<[i:=l']> ls). split; [done|].
    split; [|split; [apply evolves_set; auto|]].
    + split; [by apply (core_set_free _ _ fl' (delete (k_ptr b k) (links b))) in HC'|].
      destruct HF' as [HR' ? ? ? ? ?]. split; auto. apply (repr_agree _ _ _ HR').
      intros q (m & Hq & (j & Hj)%list_elem_of_lookup)%list_elem_of_join.
      apply lookup_delete_ne. intros <-. 
      assert (listed (<[i:=l']> ls) j (k_ptr b k)) as Hlst by by exists m.
      by apply (listed_remove _ _ _ i [] _ l' _ _ (fi_repr _ _ _ HF) Hl) in Hlst as [_ ?].
    + do 3 (split; [done|]). split; [exact Hcl|]. exists n, k, (set_state NotReady k). split_and!; try done.
      * by apply set_state_lookup.
      * change (k_size (set_state NotReady k)) with (k_size k). lia.
      * intros k1 [?|?]%elem_set_state _; auto.
Qed.
End recycled.

(** ** Fresh memory *)
Lemma elem_of_snoc {A} (x y : A) l : x ∈ l ++ [y] ↔ x ∈ l ∨ x = y.
Proof. rewrite elem_of_app. by rewrite list_elem_of_singleton. Qed.

Lemma hand_out_lookup {V} (m : gmap Z V) a len q : ¬ (a <= q < a + len) → hand_out a len m !! q = m !! q.
Proof.
  intros Hq. unfold hand_out. destruct (m !! q) as [v|] eqn:E.
  - by apply map_lookup_filter_Some.
  - apply map_lookup_filter_None. by left.
Qed.

Section append.
Context (b : CircularBuffer) (ks : list blk) (ls : list (list Z)) (k : blk).
Hypotheses (HI : CBInv b ks ls) (Ha : k_addr k = tail_addr (states b)) (Hok : blk_ok (capacity b) k).
Hypotheses (Hfit : k_end k <= head_addr (states b) + capacity b) (Hs : k_state k ≠ Evicted) (Hs2 : k_state k ≠ FreeListed).

(** The new block's memory is apart from every block's. *)
Lemma fresh_apart k' :
  k' ∈ ks →
  let a := logical_to_physical b (k_addr k) in
  let a' := logical_to_physical b (k_addr k') in
  a' + (k_size k' + CB_ALLOC_META_SIZE) <= a ∨ a + (k_size k + CB_ALLOC_META_SIZE) <= a'.
Proof.
  intros Hk' a a'. pose proof HI as [HC _]. destruct (blk_in b ks HC k' Hk') as ((_ & _ & Hs' & Hb') & Hh & Ht & H0).
  destruct Hok as (_ & _ & Hsz & Hb). pose proof (cap_pos b ks HC). unfold a, a'. rewrite !(phys_mod b ks HC).
  unfold k_end, CB_ALLOC_META_SIZE in *.
  destruct (ring_apart (capacity b) (k_addr k') (k_size k' + 8) (k_addr k) (k_size k + 8)); lia.
Qed.

Lemma inv_append metas' links' :
  metas' !! logical_to_physical b (k_addr k) = Some (k_meta k) →
  (∀ q, (∃ k', k' ∈ ks ∧ logical_to_physical b (k_addr k') <= q < logical_to_physical b (k_addr k') + (k_size k' + CB_ALLOC_META_SIZE)) →
     metas' !! q = metas b !! q ∧ links' !! q = links b !! q) →
  CBInv (set_tail (set_free (set_metas b metas') (free_list b) links') (k_end k)) (ks ++ [k]) ls.
Proof.
  intros Hm Hframe. pose proof HI as [HC HF].
  pose proof HC as [Hcap Hbase Hord Htail Hal Ht Hoks Hcur Hms Hev]. pose proof HF as [HR Hd Hmin Hsome Hl Hf].
  assert (k_addr k < k_end k) as Hlt.
  { destruct Hok as (_ & _ & ? & _). unfold k_end, CB_ALLOC_META_SIZE. lia. }
  assert (∀ k', k' ∈ ks → 0 <= k_size k') as Hpos.
  { intros k' Hk'. by destruct (blk_in b ks HC k' Hk') as ((_ & _ & ? & _) & _). }
  split; split; cbn [set_tail set_states set_free set_metas states head_addr evicting_addr tail_addr capacity data_ptr free_list links metas]; auto.
  - lia.
  - apply tiles_app. exists (tail_addr (states b)). split; [done|]. split; done.
  - apply Forall_app. split; [done|]. by constructor.
  - right. destruct Hcur as [Heq|(k' & Hk' & Heq)].
    + exists k. rewrite Ha. split; [|done]. apply elem_of_snoc. by right.
    + exists k'. split; [|done]. apply elem_of_snoc. by left.
  - intros k' [Hk'| ->]%elem_of_snoc; [|exact Hm].
    change (metas' !! logical_to_physical b (k_addr k') = Some (k_meta k')).
    rewrite <- (Hms k' Hk'). apply Hframe. exists k'. split; [done|]. specialize (Hpos k' Hk').
    unfold CB_ALLOC_META_SIZE. lia.
  - intros k' [Hk'| ->]%elem_of_snoc; [by apply Hev|done].
  - apply (repr_agree _ _ _ HR). intros p (l & Hp & (i & Hi)%list_elem_of_lookup)%list_elem_of_join.
    assert (listed ls i p) as Hlst by by exists l. apply Hl in Hlst as (k' & Hk' & -> & Hst & _).
    apply Hframe. exists k'. split; [done|]. destruct (Hf k' Hk' Hst) as (c & Hc & Hle).
    rewrite last_lookup in Hc. pose proof (Forall_lookup_1 _ _ _ _ Hmin Hc) as H8. cbn in H8.
    unfold k_ptr, CB_ALLOC_META_SIZE. lia.
  - intros i p. rewrite Hl. unfold recycled. split; intros (k' & Hk' & ? & Hst & ?).
    + exists k'. split; [apply elem_of_snoc; by left|done].
    + apply elem_of_snoc in Hk' as [Hk'| ->]; [by exists k'|done].
  - intros k' [Hk'| ->]%elem_of_snoc Hst; [by apply Hf|done].
Qed.

End append.

Section alloc_tail.
Context (b : CircularBuffer) (ks : list blk) (ls : list (list Z)).
Hypothesis (HI : CBInv b ks ls).

(** The contiguous memory left before the end of the buffer. *)
Definition rest : Z := capacity b - tail_addr (states b) mod capacity b.

Lemma rest_spec : rest mod 8 = 0 ∧ 8 <= rest <= capacity b ∧ (tail_addr (states b) + rest) mod capacity b = 0.
Proof.
  pose proof HI as [HC _]. pose proof (cap_pos b ks HC). destruct (ci_cap _ _ HC) as (w & Hw & Hcap).
  pose proof (tiles_aligned _ _ _ _ (ci_blocks _ _ HC) (ci_tiles _ _ HC) (ci_align _ _ HC)) as Hta.
  pose proof (Z.mod_pos_bound (tail_addr (states b)) (capacity b) ltac:(lia)).
  assert (rest mod 8 = 0) as H8.
  { assert (capacity b mod 8 = 0) as Hc8.
    { rewrite Hcap. replace w with (w - 3 + 3) by lia. rewrite Z.pow_add_r by lia. apply Z.mod_mul. lia. }
    unfold rest. rewrite Zminus_mod, Hc8, Z.mod_mod_divide by (by apply Z.mod_divide). by rewrite Hta. }
  split; [done|]. split; [unfold rest in *; dlia|].
  unfold rest. rewrite (Z.div_mod (tail_addr (states b)) (capacity b)) at 1 by lia.
  replace (_ + _) with ((tail_addr (states b) / capacity b + 1) * capacity b) by lia. apply Z.mod_mul. lia.
Qed.

(** A block of [len] bytes at the tail. *)
Definition fresh (len : Z) (ts : bool) : blk := mkBlk (tail_addr (states b)) (AllocMeta_new (len - CB_ALLOC_META_SIZE) ts).

Lemma fresh_end len ts : k_end (fresh len ts) = tail_addr (states b) + len.
Proof. unfold k_end, k_size. cbn. lia. Qed.

Lemma fresh_ok len ts : len mod 8 = 0 → 8 <= len <= rest → blk_ok (capacity b) (fresh len ts).
Proof.
  intros H8 Hl. pose proof HI as [HC _].
  pose proof (tiles_aligned _ _ _ _ (ci_blocks _ _ HC) (ci_tiles _ _ HC) (ci_align _ _ HC)) as Hta.
  unfold blk_ok, fresh, k_size. cbn. unfold rest, CB_ALLOC_META_SIZE in *. split_and!; [done|dlia|lia|lia].
Qed.

(** Appending a fresh block whose memory is handed out. *)
Lemma inv_fresh len ts :
  len mod 8 = 0 → 8 <= len <= rest → tail_addr (states b) + len <= head_addr (states b) + capacity b →
  let pa := logical_to_physical b (tail_addr (states b)) in
  let m := AllocMeta_new (len - CB_ALLOC_META_SIZE) ts in
  let done m' l' := CBInv (set_tail (set_free (set_metas b m') (free_list b) l') (tail_addr (states b) + len))
                      (ks ++ [fresh len ts]) ls in
  done (<[pa:=m]> (metas b)) (links b) ∧ done (<[pa:=m]> (hand_out pa len (metas b))) (hand_out pa len (links b)).
Proof.
  intros H8 Hl Hfit pa m dn. pose proof (fresh_ok len ts H8 Hl) as Hok.
  assert (∀ q, (∃ k', k' ∈ ks ∧ logical_to_physical b (k_addr k') <= q <
     logical_to_physical b (k_addr k') + (k_size k' + CB_ALLOC_META_SIZE)) → ¬ (pa <= q < pa + len)) as Hap.
  { intros q (k' & Hk' & Hq). pose proof (fresh_apart b ks ls (fresh len ts) HI eq_refl Hok) as Hf.
    rewrite fresh_end in Hf. specialize (Hf Hfit k' Hk'). cbn zeta in Hf.
    change (k_addr (fresh len ts)) with (tail_addr (states b)) in Hf. fold pa in Hf.
    change (k_size (fresh len ts)) with (len - CB_ALLOC_META_SIZE) in Hf. lia. }
  assert (k_state (fresh len ts) ≠ Evicted ∧ k_state (fresh len ts) ≠ FreeListed) as [He Hfl] by by destruct ts.
  unfold dn. rewrite <- (fresh_end len ts).
  split; apply (inv_append b ks ls (fresh len ts) HI eq_refl Hok); rewrite ?fresh_end; try done;
    try apply lookup_insert_eq; intros q Hq%Hap; change (k_addr (fresh len ts)) with (tail_addr (states b));
    fold pa; rewrite ?lookup_insert_ne by lia; rewrite ?hand_out_lookup by done; done.
Qed.

Lemma phys_next : 8 < rest →
  logical_to_physical b (tail_addr (states b) + CB_ALLOC_META_SIZE) =
  logical_to_physical b (tail_addr (states b)) + CB_ALLOC_META_SIZE.
Proof.
  intros Hr. pose proof HI as [HC _]. pose proof (cap_pos b ks HC). rewrite !(phys_mod b ks HC).
  pose proof (Z.mod_pos_bound (tail_addr (states b)) (capacity b) ltac:(lia)).
  unfold rest, CB_ALLOC_META_SIZE in *. rewrite <- Zplus_mod_idemp_l.
  rewrite (Z.mod_small (tail_addr (states b) mod capacity b + 8)) by lia. lia.
Qed.

Lemma alloc_tail_spec size :
  0 < size <= MAX_LEAF_PAGE_SIZE →
  let required := align_up size CB_ALLOC_META_SIZE + CB_ALLOC_META_SIZE in
  ∃ r b' new, alloc_tail b size = Ret (r, b') ∧ CBInv b' (ks ++ new) ls ∧ free_list b' = free_list b ∧
    capacity b' = capacity b ∧ data_ptr b' = data_ptr b ∧ head_addr (states b') = head_addr (states b) ∧
    evicting_addr (states b') = evicting_addr (states b) ∧
    match r with
    | inl (Some e) => e = Full ∧ b' = b ∧ new = [] ∧
        capacity b - (tail_addr (states b) - head_addr (states b)) < required
    | inl None => (∃ f, new = [f] ∧ k_state f = Tombstone) ∧ tail_addr (states b') mod capacity b = 0 ∧
        tail_addr (states b) mod capacity b ≠ 0
    | inr p => ∃ k, new = [k] ∧ p = k_ptr b' k ∧ k_state k = NotReady ∧ size <= k_size k
    end.
Proof.
  intros Hsz required. pose proof HI as [HC HF]. pose proof (ci_order _ _ HC). pose proof (ci_tail _ _ HC).
  destruct (align_up_spec size) as [Hal Has]. destruct rest_spec as (Hr8 & Hrest & Hwrap).
  assert (required mod 8 = 0 ∧ 8 <= required) as [Hq8 Hq] by (unfold required, CB_ALLOC_META_SIZE in *; dlia).
  unfold alloc_tail. rewrite !subu_ok by lia. ret_step. rewrite !subu_ok by lia. ret_step.
  fold required. assert (capacity b - Z.land (tail_addr (states b)) (capacity b - 1) = rest) as ->.
  { destruct (ci_cap _ _ HC) as (w & Hw & Hcap). unfold rest. rewrite Hcap, land_low by lia. done. }
  zcase (capacity b - (tail_addr (states b) - head_addr (states b)) <? required).
  { exists (inl (Some Full)), b, []. rewrite app_nil_r. by split_and!. }
  assert (required <= MAX_LEAF_PAGE_SIZE + 16) as Hmax by (unfold required, CB_ALLOC_META_SIZE in *; lia).
  unfold MAX_LEAF_PAGE_SIZE in Hmax.
  zcase (rest <? required).
  - rewrite assert_true by (apply Z.leb_le; unfold CB_ALLOC_META_SIZE; lia). ret_step.
    rewrite as_u32_id by (unfold required, CB_ALLOC_META_SIZE in *; lia). exists (inl None). eexists _, [fresh rest true]. split; [done|].
    split; [apply (inv_fresh rest true); [done|lia|lia]|]. split_and!; try done; [by eexists|].
    intros Hz. unfold rest in *. lia.
  - rewrite as_u32_id by (unfold required, CB_ALLOC_META_SIZE in *; lia). exists (inr (logical_to_physical b (tail_addr (states b) + CB_ALLOC_META_SIZE))).
    eexists _, [fresh required false]. split; [done|]. destruct (inv_fresh required false Hq8) as [_ Hi]; [lia|lia|].
    replace (required - CB_ALLOC_META_SIZE) with (align_up size CB_ALLOC_META_SIZE) in Hi by (unfold required; lia).
    split; [exact Hi|]. split_and!; try done. exists (fresh required false). split_and!; try done.
    + apply phys_next. unfold required, CB_ALLOC_META_SIZE in *. dlia.
    + change (k_size (fresh required false)) with (required - CB_ALLOC_META_SIZE). unfold required, CB_ALLOC_META_SIZE in *. lia.
Qed.
End alloc_tail.

(** ** The whole allocation *)

Lemma tiles_end a z z' ks : tiles a z ks → tiles a z' ks → z = z'.
Proof. revert a. induction ks as [|k ks IH]; cbn; [congruence|]. intros a [_ H] [_ H']. by eapply IH. Qed.

(** No block has become [NotReady]. *)
Definition none_given (ks ks' : list blk) : Prop := ∀ k1, k1 ∈ ks' → k_state k1 = NotReady → k1 ∈ ks.

(** What an allocation leaves of the blocks it found, and what it gives. *)
Definition grown (b : CircularBuffer) (ks : list blk) (b' : CircularBuffer) (ks' : list blk) : Prop :=
  (∃ ks1 new, ks' = ks1 ++ new ∧ Forall2 evolves ks ks1 ∧ Forall (λ k, tail_addr (states b) <= k_addr k ∧ (k_state k = Tombstone ∨ k_state k = NotReady)) new) ∧
  capacity b' = capacity b ∧ data_ptr b' = data_ptr b ∧ head_addr (states b') = head_addr (states b) ∧
  tail_addr (states b) <= tail_addr (states b') ∧ evicting_addr (states b') = evicting_addr (states b) ∧
  size_classes (free_list b') = size_classes (free_list b).

Definition alloc_result (b : CircularBuffer) (ks : list blk) (size : Z) (r : CircularBufferError + Z)
    (b' : CircularBuffer) (ks' : list blk) : Prop :=
  match r with
  | inl e => e = Full ∧
      capacity b - (tail_addr (states b') - head_addr (states b)) <
        align_up size CB_ALLOC_META_SIZE + CB_ALLOC_META_SIZE ∧
      none_given ks ks'
  | inr p => ∃ k, k ∈ ks' ∧ p = k_ptr b' k ∧ k_state k = NotReady ∧ size <= k_size k ∧
      (∀ k0, k0 ∈ ks → k_addr k0 = k_addr k → k_state k0 = FreeListed) ∧
      ∀ k1, k1 ∈ ks' → k_state k1 = NotReady → k1 ∈ ks ∨ k1 = k
  end.

Lemma evolves_addr ks ks1 k : Forall2 evolves ks ks1 → k ∈ ks → ∃ k', k' ∈ ks1 ∧ k_addr k' = k_addr k ∧
  (k' = k ∨ k_state k = FreeListed ∧ (k_state k' = Tombstone ∨ k_state k' = NotReady)).
Proof.
  intros H (i & Hi)%list_elem_of_lookup. destruct (Forall2_lookup_l _ _ _ _ _ H Hi) as (k' & Hi' & Ha & _ & Hk).
  exists k'. split; [by eapply list_elem_of_lookup_2|done].
Qed.

Lemma grown_trans b1 ks1 b2 ks2 b3 ks3 : grown b1 ks1 b2 ks2 → grown b2 ks2 b3 ks3 → grown b1 ks1 b3 ks3.
Proof.
  intros ((l1 & n1 & -> & He1 & Hn1) & H1 & H2 & H3 & H4 & H5 & H5') ((l2 & n2 & -> & He2 & Hn2) & H6 & H7 & H8 & H9 & H10 & H10').
  split; [|split_and!; (lia || congruence)].
  apply Forall2_app_inv_l in He2 as (m1 & m2 & Hm1 & Hm2 & ->).
  exists m1, (m2 ++ n2). rewrite <- app_assoc. split; [done|]. split; [by eapply evolves_trans|].
  apply Forall_app. split; [|eapply Forall_impl; [exact Hn2|]; intros k [? ?]; split; [lia|done]].
  apply Forall_lookup. intros i k Hi. destruct (Forall2_lookup_r _ _ _ _ _ Hm2 Hi) as (k0 & Hi0 & Ha & _ & Hk).
  pose proof (Forall_lookup_1 _ _ _ _ Hn1 Hi0) as [Hk0 Hs0]. rewrite Ha. split; [done|].
  destruct Hk as [->|[_ ?]]; done.
Qed.

Section alloc.
Context (size s c0 : Z).

(** The buffer serves requests of this size. *)
Definition serves (b : CircularBuffer) : Prop :=
  s ∈ size_classes (free_list b) ∧ size <= s ∧ last (size_classes (free_list b)) = Some c0 ∧ c0 <= size.

Lemma recycled_step b ks ls :
  CBInv b ks ls → serves b →
  ∃ r b' ks' ls', alloc_recycled b size [] (S (base.size (links b))) = Ret (r, b') ∧ CBInv b' ks' ls' ∧
    grown b ks b' ks' ∧ states b' = states b ∧
    match r with
    | None => none_given ks ks'
    | Some p => alloc_result b ks size (inr p) b' ks'
    end.
Proof.
  intros HI (Hs & Hle & Hlast & Hsm). pose proof HI as [HC HF].
  destruct (larger_spec _ _ _ (fi_desc _ _ _ HF) Hs Hle) as (i & c & Hi & Hc & Hcs & _).
  assert (is_Some (ls !! i)) as [l Hl].
  { apply lookup_lt_is_Some. rewrite (fl_classes _ _ _ (fi_repr _ _ _ HF)). by eapply lookup_lt_Some. }
  assert (length l < S (base.size (links b)))%nat as Hf.
  { destruct (list_at _ _ _ (fi_repr _ _ _ HF) i c Hc) as (h & l' & _ & _ & Hl' & Hch & Hnd). simplify_eq.
    pose proof (chain_length _ _ _ Hnd Hch). lia. }
  destruct (alloc_recycled_spec size i c _ b ks ls l HI Hi Hc Hcs Hl Hf)
    as (r & b' & ks' & ls' & Hr & HI' & Hev & Hst & Hcap & Hdp & Hcl & Hres).
  exists r, b', ks', ls'. split; [done|]. split; [done|]. split; [|split; [done|]].
  - split; [exists ks', []; by rewrite app_nil_r|]. rewrite Hst. split_and!; (done || lia).
  - destruct r as [p|]; [|by destruct Hres]. destruct Hres as (n & k & k' & Hn & Hn' & -> & Hk & Hk' & Hsz & Honly).
    exists k'. split_and!; [by eapply list_elem_of_lookup_2|done..| |done].
    intros k0 (m & Hm)%list_elem_of_lookup Ha.
    destruct (Forall2_lookup_lr _ _ _ _ _ _ Hev Hn Hn') as (Ha' & _).
    enough (m = n) as -> by congruence. apply (phys_inj b ks HC m n k0 k Hm Hn). congruence.
Qed.

Lemma tail_step b ks ls :
  CBInv b ks ls → 0 < size <= MAX_LEAF_PAGE_SIZE →
  ∃ r b' ks', alloc_tail b size = Ret (r, b') ∧ CBInv b' ks' ls ∧ grown b ks b' ks' ∧
    match r with
    | inl None => tail_addr (states b') mod capacity b = 0 ∧ tail_addr (states b) mod capacity b ≠ 0 ∧
        none_given ks ks'
    | inl (Some e) => alloc_result b ks size (inl e) b' ks'
    | inr p => alloc_result b ks size (inr p) b' ks'
    end.
Proof.
  intros HI Hpos. pose proof HI as [HC HF].
  destruct (alloc_tail_spec b ks ls HI size Hpos) as (r & b' & new & Hr & HI' & Hfl & Hcap & Hdp & Hh & Hevi & Hres).
  exists r, b', (ks ++ new). split; [done|]. split; [done|].
  assert (tail_addr (states b) <= tail_addr (states b') ∧ Forall (λ k, tail_addr (states b) <= k_addr k) new) as [Hle Hnew].
  { destruct HI' as [HC' _]. pose proof (ci_tiles _ _ HC') as Ht. rewrite Hh in Ht.
    apply tiles_app in Ht as (m & Ht1 & Ht2). rewrite <- (tiles_end _ _ _ _ (ci_tiles _ _ HC) Ht1) in Ht2.
    pose proof (proj2 (proj1 (Forall_app _ _ _) (ci_blocks _ _ HC'))) as Hok.
    split; [pose proof (tiles_le _ _ _ _ Hok Ht2); pose proof (zlen_nonneg new); lia|].
    apply Forall_forall. intros k Hk. by apply (tiles_bounds _ _ _ _ k Hok Ht2). }
  assert (Forall (λ k, k_state k = Tombstone ∨ k_state k = NotReady) new) as Hst.
  { destruct r as [[e|]|p]; [destruct Hres as (_ & _ & -> & _)|destruct Hres as [(f & -> & ?) _]|
      destruct Hres as (k & -> & _ & ? & _)]; rewrite ?Forall_singleton; auto. }
  split.
  { split; [exists ks, new; split_and!; [done|apply evolves_refl|by apply Forall_and]|]. by rewrite Hfl. }
  destruct r as [[e|]|p].
  - destruct Hres as (-> & -> & -> & ?). split_and!; [done..|]. intros k1 Hk1 _. by rewrite app_nil_r in Hk1.
  - destruct Hres as ((f & -> & Hf) & ? & ?). split_and!; [done..|]. intros k1 [?| ->]%elem_of_snoc ?; [done|congruence].
  - destruct Hres as (k & -> & -> & Hs & Hsz). exists k. split_and!; [apply elem_of_snoc; by right|done..| |].
    2:{ intros k1 [?| ->]%elem_of_snoc _; auto. }
    intros k0 Hk0 Ha. destruct (blk_in b ks HC k0 Hk0) as ((_ & _ & ? & _) & _ & Ht & _).
    apply Forall_cons in Hnew as [Hnew _]. cbn in Hnew. unfold k_end, CB_ALLOC_META_SIZE in Ht. exfalso. lia.
Qed.

(** A result stands for the blocks there were before recycled ones were passed over. *)
Lemma alloc_result_grown b ks b1 ks1 r b' ks' :
  grown b ks b1 ks1 → none_given ks ks1 → alloc_result b1 ks1 size r b' ks' → alloc_result b ks size r b' ks'.
Proof.
  intros ((l & n & -> & Hev & _) & Hcap & _ & Hh & _) Hng Hr. destruct r as [e|p]; cbn in *.
  { rewrite <- Hcap, <- Hh. destruct Hr as (-> & ? & Hng'). split_and!; [done..|]. intros k1 Hk1 Hs1. auto. }
  destruct Hr as (k & Hk & -> & Hs & Hsz & Hold & Honly). exists k. split_and!; [done..| |].
  - intros k0 Hk0 Ha. destruct (evolves_addr _ _ _ Hev Hk0) as (k' & Hk' & Ha' & [->|[? _]]); [|done].
    apply Hold; [|done]. apply elem_of_app. by left.
  - intros k1 Hk1 Hs1. destruct (Honly k1 Hk1 Hs1) as [?|?]; auto.
Qed.

(** One pass either ends or leaves the tail at the start of the buffer, where the next one ends. *)
Lemma alloc_pass_spec b ks ls :
  CBInv b ks ls → serves b →
  ∃ r b' ks' ls', alloc_pass b size [] = Ret (r, b') ∧ CBInv b' ks' ls' ∧ grown b ks b' ks' ∧
    match r with
    | inr p => alloc_result b ks size (inr p) b' ks'
    | inl (Some e) => alloc_result b ks size (inl e) b' ks'
    | inl None => tail_addr (states b') mod capacity b = 0 ∧ tail_addr (states b) mod capacity b ≠ 0 ∧ none_given ks ks'
    end.
Proof.
  intros HI Hsv. pose proof HI as [_ HF]. pose proof Hsv as (Hs & Hle & Hlast & Hsm).
  assert (0 < size <= MAX_LEAF_PAGE_SIZE) as Hpos.
  { pose proof Hlast as Hl. rewrite last_lookup in Hl. pose proof (Forall_lookup_1 _ _ _ _ (fi_min _ _ _ HF) Hl) as H8.
    pose proof (proj1 (Forall_forall _ _) (fi_min _ _ _ HF) s Hs). cbn in *. lia. }
  unfold alloc_pass. rewrite (proj2 (Z.eqb_neq size 0)) by lia. rewrite Hlast. cbn [expect]. ret_step.
  rewrite assert_true by (by apply Z.leb_le). ret_step.
  destruct (recycled_step b ks ls HI Hsv) as (r & b1 & ks1 & ls1 & -> & HI1 & Hg1 & Hst & Hres). ret_step.
  destruct r as [p|]; cbv beta iota.
  { by exists (inr p), b1, ks1, ls1. }
  destruct (tail_step b1 ks1 ls1 HI1 Hpos) as (r & b2 & ks2 & -> & HI2 & Hg2 & Hr).
  exists r, b2, ks2, ls1. split; [done|]. split; [done|]. split; [by eapply grown_trans|].
  destruct r as [[e|]|p].
  - by eapply alloc_result_grown.
  - destruct Hg1 as (_ & <- & _). rewrite Hst in Hr. destruct Hr as (? & ? & Hng). split_and!; [done..|].
    intros k1 Hk1 Hs1. auto.
  - by eapply alloc_result_grown.
Qed.

Lemma serves_grown b ks b' ks' : grown b ks b' ks' → serves b → serves b'.
Proof. intros (_ & _ & _ & _ & _ & _ & Hcl). unfold serves. by rewrite Hcl. Qed.

Lemma alloc_spec b ks ls :
  CBInv b ks ls → serves b →
  ∃ r b' ks' ls', alloc b size [] = Ret (r, b') ∧ CBInv b' ks' ls' ∧ grown b ks b' ks' ∧
    alloc_result b ks size r b' ks'.
Proof.
  intros HI Hsv. unfold alloc. cbn [alloc_rec]. destruct (alloc_pass_spec b ks ls HI Hsv) as (r & b1 & ks1 & ls1 & -> & HI1 & Hg1 & Hres). ret_step.
  destruct r as [[e|]|p]; [by exists (inl e), b1, ks1, ls1| |by exists (inr p), b1, ks1, ls1]. destruct Hres as (Ht & _ & Hng).
  destruct (alloc_pass_spec b1 ks1 ls1 HI1 (serves_grown _ _ _ _ Hg1 Hsv)) as (r & b2 & ks2 & ls2 & -> & HI2 & Hg2 & Hres). ret_step.
  destruct r as [[e|]|p]; [exists (inl e), b2, ks2, ls2| |exists (inr p), b2, ks2, ls2];
    try (split_and!; [done..|by eapply grown_trans|by eapply alloc_result_grown]).
  destruct Hg1 as (_ & Hcap & _). destruct Hres as (_ & Hn & _). by rewrite Hcap in Hn.
Qed.
End alloc.
