(* ===== verification/CircularSystem.v ===== *)
(** The circular buffer under concurrent use: the threads of the tree hold pointers, handles
    and eviction reservations, and their operations (CircularBuffer.v) interleave.

    A step is one operation between two synchronisation points of the code: a pass of [alloc]
    (which fills up the end of the buffer, releases the lock and starts over when a block does
    not fit there), the reservation of [evict_one] and the advance of the head hold the lock of
    the states; the exchange that takes a recycled block does not fail spuriously.  A
    descriptor changes by one compare-and-exchange, the free list by one critical section
    of its lock.  The ghost sets record who may call what: the [CircularBufferPtr]s not yet
    dropped, the blocks the page table refers to, the [TombstoneHandle]s, and the
    evictions that have reserved, or hold the handle of, a block. *)
From stdpp Require Import base numbers list option gmap fin_maps.
From Stdlib Require Import ZArith Lia.
From S2P Require Import Prelude Bits NodeMeta FreeList CircularBuffer CircularInv CircularOps CircularAlloc.

Record sys := mkSys {
  buf : CircularBuffer;
  ptrs : gset Z;
  live : gset Z;
  handles : gset Z;
  claimed : gset Z;
  reserved : gset Z;
}.

Inductive op :=
| Alloc (size : Z)
| DropPtr (p : Z)
| Acquire (p : Z)
| DropHandle (p : Z)
| Dealloc (p : Z) (contended : bool)
| Reserve
| Claim (start : Z)
| Finish (start : Z)
| Refuse (start : Z)
| Bump.

Definition served (b : CircularBuffer) (size : Z) : bool :=
  match last (size_classes (free_list b)), head (size_classes (free_list b)) with
  | Some lo, Some hi => (lo <=? size) && (size <=? hi)
  | _, _ => false
  end.

Definition guarded {A} (P : Prop) `{Decision P} (m : outcome A) : option (outcome A) :=
  if decide P then Some m else None.

Definition data_of (b : CircularBuffer) (start : Z) : Z := logical_to_physical b start + CB_ALLOC_META_SIZE.

(** The operations; [None] where the types of the source rule the call out. *)
Definition exec (s : sys) (o : op) : option (outcome sys) :=
  let '(mkSys b P L H C R) := s in
  match o with
  | Alloc size => guarded (served b size = true) (
      r ← alloc_pass b size [];
      Ret match r with (inr p, b') => mkSys b' ({[p]} ∪ P) L H C R | (inl _, b') => mkSys b' P L H C R end)
  | DropPtr p => guarded (p ∈ P) (b' ← drop_ptr b p; Ret (mkSys b' (P ∖ {[p]}) ({[p]} ∪ L) H C R))
  | Acquire p => guarded (p ∈ L) (
      r ← acquire_exclusive_dealloc_handle b p;
      Ret match r with (inr _, b') => mkSys b' P L ({[p]} ∪ H) C R | (inl _, b') => mkSys b' P L H C R end)
  | DropHandle p => guarded (p ∈ H) (b' ← drop_handle b p; Ret (mkSys b' P L (H ∖ {[p]}) C R))
  | Dealloc p contended => guarded (p ∈ H) (
      b' ← dealloc b p contended; Ret (mkSys b' P (L ∖ {[p]}) (H ∖ {[p]}) C R))
  | Reserve => Some (
      r ← evict_reserve b;
      Ret match r with (Some (start, _), b') => mkSys b' P L H C ({[start]} ∪ R) | (None, b') => mkSys b' P L H C R end)
  | Claim start => guarded (start ∈ R) (
      r ← acquire_exclusive_dealloc_handle b (data_of b start);
      match r with
      | (inr _, b') => Ret (mkSys b' P L H ({[start]} ∪ C) (R ∖ {[start]}))
      | (inl _, b1) =>
          u ← evict_unowned b1 start (data_of b start);
          Ret match u with
              | (true, b') => mkSys b' P L H C (R ∖ {[start]})
              | (false, b') => mkSys b' P L H C R
              end
      end)
  | Finish start => guarded (start ∈ C) (
      b' ← evict_finish b (data_of b start);
      Ret (mkSys b' P (L ∖ {[data_of b start]}) H (C ∖ {[start]}) R))
  | Refuse start => guarded (start ∈ C) (
      b' ← drop_handle b (data_of b start);
      Ret (mkSys b' P L H (C ∖ {[start]}) ({[start]} ∪ R)))
  | Bump => Some (r ← try_bump_head_address_to_evicting_addr b; Ret (mkSys r.2 P L H C R))
  end.

Definition step (s s' : sys) : Prop := ∃ o, exec s o = Some (Ret s').

Definition start_of (b : CircularBuffer) : sys := mkSys b ∅ ∅ ∅ ∅ ∅.

(** ** The discipline *)

(** What the sets say of a block in state [st] at address [a], with its data at [p], when
    the eviction cursor is at [e]. *)
Definition standing (P L H C R : gset Z) (e p a : Z) (st : MetaState) : Prop :=
  match st with
  | NotReady => p ∈ P ∧ (p ∉ L) ∧ (p ∉ H) ∧ (a ∉ C)
  | Ready => (p ∉ P) ∧ p ∈ L ∧ (p ∉ H) ∧ (a ∉ C)
  | BeginTombStone => (p ∉ P) ∧ p ∈ L ∧ (p ∈ H ∧ (a ∉ C) ∨ (p ∉ H) ∧ a ∈ C ∧ (a ∉ R))
  | Tombstone | FreeListed => (p ∉ P) ∧ (p ∉ L) ∧ (p ∉ H) ∧ (a ∉ C)
  | Evicted => (p ∉ P) ∧ (p ∉ L) ∧ (p ∉ H) ∧ (a ∉ C) ∧ (a ∉ R)
  end ∧
  (a ∈ R ∨ a ∈ C → a < e) ∧ (a < e → st = Evicted ∨ a ∈ R ∨ a ∈ C).

Definition owned (s : sys) (k : blk) : Prop :=
  standing (ptrs s) (live s) (handles s) (claimed s) (reserved s) (evicting_addr (states (buf s)))
    (k_ptr (buf s) k) (k_addr k) (k_state k).

Record SysInv (s : sys) (ks : list blk) (ls : list (list Z)) : Prop := {
  si_cb : CBInv (buf s) ks ls;
  si_owned : ∀ k, k ∈ ks → owned s k;
  si_ptrs : ∀ p, p ∈ ptrs s ∪ live s ∪ handles s → ∃ k, k ∈ ks ∧ p = k_ptr (buf s) k;
  si_addrs : ∀ a, a ∈ claimed s ∪ reserved s → ∃ k, k ∈ ks ∧ a = k_addr k;
}.

(** The sets differ at one block at most. *)
Definition elsewhere (s s' : sys) (p a : Z) : Prop :=
  (∀ q, q ≠ p → (q ∈ ptrs s' ↔ q ∈ ptrs s) ∧ (q ∈ live s' ↔ q ∈ live s) ∧ (q ∈ handles s' ↔ q ∈ handles s)) ∧
  (∀ c, c ≠ a → (c ∈ claimed s' ↔ c ∈ claimed s) ∧ (c ∈ reserved s' ↔ c ∈ reserved s)).

Lemma owned_elsewhere s s' p a k :
  elsewhere s s' p a → k_ptr (buf s') k = k_ptr (buf s) k → states (buf s') = states (buf s) →
  k_ptr (buf s) k ≠ p → k_addr k ≠ a → owned s k → owned s' k.
Proof.
  intros [Hq Hc] Hp Hst Hne Hna. unfold owned, standing. rewrite Hp, Hst.
  destruct (Hq _ Hne) as (E1 & E2 & E3), (Hc _ Hna) as (E4 & E5).
  destruct (k_state k); tauto.
Qed.

Lemma k_ptr_same b b' k : capacity b' = capacity b → data_ptr b' = data_ptr b → k_ptr b' k = k_ptr b k.
Proof. intros Hc Hd. unfold k_ptr, logical_to_physical. by rewrite Hc, Hd. Qed.

(** One block changes its state, and its place in the sets. *)
Section update.
Context (s s' : sys) (ks : list blk) (ls ls' : list (list Z)) (n : nat) (k : blk) (st : MetaState).
Hypotheses (HI : SysInv s ks ls) (Hn : ks !! n = Some k).
Hypotheses (Hcap : capacity (buf s') = capacity (buf s)) (Hdp : data_ptr (buf s') = data_ptr (buf s)).
Hypotheses (Hst : states (buf s') = states (buf s)).

Lemma sys_update :
  CBInv (buf s') (<[n:=set_state st k]> ks) ls' →
  elsewhere s s' (k_ptr (buf s) k) (k_addr k) → owned s' (set_state st k) →
  SysInv s' (<[n:=set_state st k]> ks) ls'.
Proof.
  intros HI' Hel Hown. pose proof HI as [[HC HF] Ho Hp Ha].
  pose proof (set_state_elem (buf s) ks n k st HC Hn) as Hel'.
  assert (set_state st k ∈ <[n:=set_state st k]> ks) as Hk by (apply Hel'; by left).
  assert (∀ k0, k0 ∈ ks → k_ptr (buf s) k0 ≠ k_ptr (buf s) k → k0 ∈ <[n:=set_state st k]> ks) as Hother.
  { intros k0 Hk0 Hne. apply Hel'. right. split; [done|]. unfold k_ptr in Hne. lia. }
  split; [done|..].
  - intros k' [->|[Hk' Hne]]%Hel'; [done|].
    apply (owned_elsewhere s s' _ _ k' Hel); [by apply k_ptr_same|done| | |by apply Ho].
    + unfold k_ptr. lia.
    + congruence.
  - intros q Hq. destruct (decide (q = k_ptr (buf s) k)) as [->|Hne].
    + exists (set_state st k). split; [done|]. exact (eq_sym (k_ptr_same _ _ k Hcap Hdp)).
    + destruct (proj1 Hel q Hne) as (E1 & E2 & E3).
      destruct (Hp q) as (k0 & Hk0 & ->); [rewrite !elem_of_union in *; tauto|]. exists k0. split; [by apply Hother|].
      exact (eq_sym (k_ptr_same _ _ k0 Hcap Hdp)).
  - intros a Hq. destruct (decide (a = k_addr k)) as [->|Hne]; [by exists (set_state st k)|].
    destruct (proj2 Hel a Hne) as (E1 & E2). destruct (Ha a) as (k0 & Hk0 & ->); [rewrite !elem_of_union in *; tauto|].
    exists k0. split; [|done]. apply Hother; [done|]. intros Heq.
    apply list_elem_of_lookup in Hk0 as (m & Hm).
    assert (m = n) as ->; [|by simplify_eq]. apply (phys_inj (buf s) ks HC m n k0 k Hm Hn). unfold k_ptr in Heq. lia.
Qed.
End update.

(** ** Who holds what *)
Section holders.
Context (s : sys) (ks : list blk) (ls : list (list Z)).
Hypothesis HI : SysInv s ks ls.

Lemma block_of_ptr p : p ∈ ptrs s ∪ live s ∪ handles s → ∃ n k, ks !! n = Some k ∧ p = k_ptr (buf s) k ∧ owned s k.
Proof.
  intros (k & Hk & ->)%(si_ptrs _ _ _ HI). pose proof (si_owned _ _ _ HI k Hk).
  apply list_elem_of_lookup in Hk as (n & Hn). by exists n, k.
Qed.

Lemma block_of_start a : a ∈ claimed s ∪ reserved s → ∃ n k, ks !! n = Some k ∧ a = k_addr k ∧ owned s k.
Proof.
  intros (k & Hk & ->)%(si_addrs _ _ _ HI). pose proof (si_owned _ _ _ HI k Hk).
  apply list_elem_of_lookup in Hk as (n & Hn). by exists n, k.
Qed.

Lemma ptr_holder p : p ∈ ptrs s → ∃ n k, ks !! n = Some k ∧ p = k_ptr (buf s) k ∧ owned s k ∧ k_state k = NotReady.
Proof.
  intros Hp. destruct (block_of_ptr p) as (n & k & Hn & -> & Ho); [rewrite !elem_of_union; tauto|].
  exists n, k. split_and!; try done. unfold owned, standing in Ho. destruct (k_state k); tauto.
Qed.

Lemma live_holder p :
  p ∈ live s → ∃ n k, ks !! n = Some k ∧ p = k_ptr (buf s) k ∧ owned s k ∧
    (k_state k = Ready ∨ k_state k = BeginTombStone).
Proof.
  intros Hp. destruct (block_of_ptr p) as (n & k & Hn & -> & Ho); [rewrite !elem_of_union; tauto|].
  exists n, k. split_and!; try done. unfold owned, standing in Ho. destruct (k_state k); tauto.
Qed.

Lemma handle_holder p :
  p ∈ handles s → ∃ n k, ks !! n = Some k ∧ p = k_ptr (buf s) k ∧ owned s k ∧ k_state k = BeginTombStone.
Proof.
  intros Hp. destruct (block_of_ptr p) as (n & k & Hn & -> & Ho); [rewrite !elem_of_union; tauto|].
  exists n, k. split_and!; try done. unfold owned, standing in Ho. destruct (k_state k); tauto.
Qed.

Lemma claim_holder a :
  a ∈ claimed s → ∃ n k, ks !! n = Some k ∧ a = k_addr k ∧ owned s k ∧ k_state k = BeginTombStone.
Proof.
  intros Hp. destruct (block_of_start a) as (n & k & Hn & -> & Ho); [rewrite !elem_of_union; tauto|].
  exists n, k. split_and!; try done. unfold owned, standing in Ho. destruct (k_state k); tauto.
Qed.
End holders.

(** ** Single operations *)
Definition safe (s : sys) (o : op) : Prop :=
  exec s o = None ∨ ∃ s' ks' ls', exec s o = Some (Ret s') ∧ SysInv s' ks' ls'.

Ltac elsewhere_tac := split; intros; cbn [ptrs live handles claimed reserved]; set_unfold; tauto.

(** The standing of the block after the change, from its standing before. *)
Lemma owned_at b b' P L H C R k st :
  capacity b' = capacity b → data_ptr b' = data_ptr b → states b' = states b →
  standing P L H C R (evicting_addr (states b)) (k_ptr b k) (k_addr k) st →
  owned (mkSys b' P L H C R) (set_state st k).
Proof.
  intros Hc Hd Hs Hst. unfold owned. cbn [buf ptrs live handles claimed reserved].
  change (k_ptr b' (set_state st k)) with (k_ptr b' k). by rewrite (k_ptr_same b b' k Hc Hd), Hs.
Qed.

Ltac standing_tac Ho Hk :=
  unfold owned in Ho; cbn [buf ptrs live handles claimed reserved] in Ho; rewrite Hk in Ho;
  match goal with
  | |- standing _ _ _ _ _ ?e ?p ?a _ =>
      generalize dependent e; intros; generalize dependent p; generalize dependent a; intros;
      unfold standing in *; set_unfold; intuition congruence
  end.

Section operations.
Context (b : CircularBuffer) (P L H C R : gset Z) (ks : list blk) (ls : list (list Z)).
Hypothesis HI : SysInv (mkSys b P L H C R) ks ls.
Let HB : CBInv b ks ls := si_cb _ _ _ HI.

Lemma drop_ptr_safe p : safe (mkSys b P L H C R) (DropPtr p).
Proof.
  unfold safe, exec, guarded. destruct (decide (p ∈ P)) as [Hp|]; [right|by left].
  destruct (ptr_holder _ ks ls HI p Hp) as (n & k & Hn & -> & Ho & Hk). cbn [buf] in *.
  rewrite (drop_ptr_spec b ks ls n k HB Hn Hk). ret_step. eexists _, _, _. split; [done|].
  eapply (sys_update _ _ ks ls ls n k Ready HI Hn); try done.
  - apply (inv_mark b ks ls n k HB Hn); [congruence|done..].
  - elsewhere_tac.
  - apply (owned_at b); [done..|]. standing_tac Ho Hk.
Qed.

Lemma drop_handle_safe p : safe (mkSys b P L H C R) (DropHandle p).
Proof.
  unfold safe, exec, guarded. destruct (decide (p ∈ H)) as [Hp|]; [right|by left].
  destruct (handle_holder _ ks ls HI p Hp) as (n & k & Hn & -> & Ho & Hk). cbn [buf] in *.
  rewrite (drop_handle_spec b ks ls n k HB Hn Hk). ret_step. eexists _, _, _. split; [done|].
  eapply (sys_update _ _ ks ls ls n k Ready HI Hn); try done.
  - apply (inv_mark b ks ls n k HB Hn); [congruence|done..].
  - elsewhere_tac.
  - apply (owned_at b); [done..|]. standing_tac Ho Hk.
Qed.

Lemma acquire_safe p : safe (mkSys b P L H C R) (Acquire p).
Proof.
  unfold safe, exec, guarded. destruct (decide (p ∈ L)) as [Hp|]; [right|by left].
  destruct (live_holder _ ks ls HI p Hp) as (n & k & Hn & -> & Ho & _). cbn [buf] in *.
  rewrite (acquire_spec b ks ls n k HB Hn).
  destruct (decide (k_state k = Ready)) as [Hk|_]; ret_step; eexists _, _, _; (split; [done|]); [|exact HI].
  eapply (sys_update _ _ ks ls ls n k BeginTombStone HI Hn); try done.
  - apply (inv_mark b ks ls n k HB Hn); [congruence|done..].
  - elsewhere_tac.
  - apply (owned_at b); [done..|]. standing_tac Ho Hk.
Qed.

Lemma dealloc_safe p contended : safe (mkSys b P L H C R) (Dealloc p contended).
Proof.
  unfold safe, exec, guarded, dealloc. destruct (decide (p ∈ H)) as [Hp|]; [right|by left].
  destruct (handle_holder _ ks ls HI p Hp) as (n & k & Hn & -> & Ho & Hk). cbn [buf] in *.
  destruct (dealloc_inner_spec b ks ls n k HB Hn true contended Hk)
    as (st & b' & ls' & -> & Hst & Hsts & _ & Hcap & Hdp & HI').
  ret_step. eexists _, _, _. split; [done|].
  eapply (sys_update _ _ ks ls ls' n k st HI Hn); try done.
  - elsewhere_tac.
  - apply (owned_at b); [done..|]. destruct Hst as [->|[-> _]]; standing_tac Ho Hk.
Qed.

Lemma refuse_safe a : safe (mkSys b P L H C R) (Refuse a).
Proof.
  unfold safe, exec, guarded. destruct (decide (a ∈ C)) as [Hp|]; [right|by left].
  destruct (claim_holder _ ks ls HI a Hp) as (n & k & Hn & -> & Ho & Hk). cbn [buf] in *.
  change (data_of b (k_addr k)) with (k_ptr b k).
  rewrite (drop_handle_spec b ks ls n k HB Hn Hk). ret_step. eexists _, _, _. split; [done|].
  eapply (sys_update _ _ ks ls ls n k Ready HI Hn); try done.
  - apply (inv_mark b ks ls n k HB Hn); [congruence|done..].
  - elsewhere_tac.
  - apply (owned_at b); [done..|]. standing_tac Ho Hk.
Qed.

Lemma finish_safe a : safe (mkSys b P L H C R) (Finish a).
Proof.
  unfold safe, exec, guarded. destruct (decide (a ∈ C)) as [Hp|]; [right|by left].
  destruct (claim_holder _ ks ls HI a Hp) as (n & k & Hn & -> & Ho & Hk). cbn [buf] in *.
  change (data_of b (k_addr k)) with (k_ptr b k).
  destruct (evict_finish_spec b ks ls HB n k Hn Hk) as (b' & -> & (Hcap & Hdp & Hst) & HI').
  { unfold owned, standing in Ho. rewrite Hk in Ho. cbn in Ho. tauto. }
  ret_step. eexists _, _, _. split; [done|].
  eapply (sys_update _ _ ks ls ls n k Evicted HI Hn); try done.
  - elsewhere_tac.
  - apply (owned_at b); [done..|]. standing_tac Ho Hk.
Qed.

Lemma claim_safe a : safe (mkSys b P L H C R) (Claim a).
Proof.
  unfold safe, exec, guarded. destruct (decide (a ∈ R)) as [Hp|]; [right|by left].
  destruct (block_of_start _ ks ls HI a) as (n & k & Hn & -> & Ho); [rewrite elem_of_union; by right|]. cbn [buf] in *.
  change (data_of b (k_addr k)) with (k_ptr b k).
  assert (k_addr k < evicting_addr (states b)) as Ha by (unfold owned, standing in Ho; cbn in Ho; tauto).
  rewrite (acquire_spec b ks ls n k HB Hn). destruct (decide (k_state k = Ready)) as [Hk|Hk]; ret_step.
  - eexists _, _, _. split; [done|]. eapply (sys_update _ _ ks ls ls n k BeginTombStone HI Hn); try done.
    + apply (inv_mark b ks ls n k HB Hn); [congruence|done..].
    + elsewhere_tac.
    + apply (owned_at b); [done..|]. standing_tac Ho Hk.
  - destruct (evict_unowned_spec b ks ls HB n k Hn Ha Hk) as (r & b' & ls' & -> & (Hcap & Hdp & Hst) & Hr).
    ret_step. destruct r; cbv beta iota.
    + destruct Hr as [Hs HI']. eexists _, _, _. split; [done|].
      eapply (sys_update _ _ ks ls ls' n k Evicted HI Hn); try done.
      * elsewhere_tac.
      * apply (owned_at b); [done..|]. destruct Hs as [Hs|Hs]; standing_tac Ho Hs.
    + destruct Hr as (_ & _ & ->). eexists _, _, _. split; [done|]. exact HI.
Qed.

Lemma reserve_safe : safe (mkSys b P L H C R) Reserve.
Proof.
  right. unfold exec. destruct (evict_reserve_spec b ks ls HB) as [[_ ->]|(k & Hk & Ha & -> & HI')]; ret_step;
    eexists _, ks, ls; (split; [done|]); [exact HI|].
  pose proof HB as [HC _]. split; cbn [buf ptrs live handles claimed reserved].
  - done.
  - intros k' Hk'. pose proof (si_owned _ _ _ HI k' Hk') as Ho. destruct (blk_in b ks HC k Hk) as ((_ & _ & Hsz & _) & _).
    assert (k_addr k < k_end k) as Hend by (unfold k_end, CB_ALLOC_META_SIZE; lia).
    assert (k_addr k' < k_end k ↔ k_addr k' < evicting_addr (states b) ∨ k_addr k' = k_addr k) as Hlt.
    { split; [|lia]. intros ?. destruct (decide (k_addr k' < evicting_addr (states b))); [by left|].
      right. by rewrite (same_block b ks k k' HC Hk Hk') by lia. }
    assert (k_addr k' = k_addr k → k_state k' ≠ Evicted) as Hnev.
    { intros Heq Hev. pose proof (ci_evicted _ _ HC k' Hk' Hev). lia. }
    unfold owned in *. cbn [buf ptrs live handles claimed reserved states set_evicting set_states evicting_addr] in *.
    change (k_ptr (set_evicting b (k_end k)) k') with (k_ptr b k'). unfold standing in *.
    destruct (k_state k'); set_unfold; rewrite Hlt; intuition (congruence || lia).
  - apply (si_ptrs _ _ _ HI).
  - intros a Hin. destruct (decide (a = k_addr k)) as [->|Hne]; [by exists k|].
    apply (si_addrs _ _ _ HI). cbn. rewrite !elem_of_union, elem_of_singleton in *. tauto.
Qed.

(** Blocks the head has passed are in no set. *)
Lemma bump_safe : safe (mkSys b P L H C R) Bump.
Proof.
  right. unfold exec. destruct (try_bump_spec b ks ls HB) as (r & b' & ks1 & ks2 & Hb & Hks & HI' & Hev & Hec & _ & _).
  rewrite Hb. destruct (bump_loop_frame _ _ _ _ _ Hb) as [Hcap Hdp]. ret_step.
  eexists _, ks2, ls. split; [done|]. cbn [snd].
  assert (∀ k, k ∈ ks → k ∈ ks2 ∨ standing P L H C R (evicting_addr (states b)) (k_ptr b k) (k_addr k) Evicted) as Hk.
  { intros k Hk. pose proof (si_owned _ _ _ HI k Hk) as Ho. rewrite Hks in Hk. apply elem_of_app in Hk as [Hk|?]; [right|by left].
    rewrite Forall_forall in Hev. unfold owned in Ho. by rewrite (Hev k Hk) in Ho. }
  split; cbn [buf ptrs live handles claimed reserved].
  - done.
  - intros k Hk2. assert (k ∈ ks) as Hin by (rewrite Hks; apply elem_of_app; by right).
    pose proof (si_owned _ _ _ HI k Hin) as Ho. unfold owned in *. cbn [buf ptrs live handles claimed reserved] in *.
    by rewrite Hec, (k_ptr_same b b' k Hcap Hdp).
  - intros p Hp. destruct (si_ptrs _ _ _ HI p Hp) as (k & Hin & ->). cbn [buf].
    exists k. rewrite (k_ptr_same b b' k Hcap Hdp). split; [|done]. destruct (Hk k Hin) as [?|[Hs _]]; [done|].
    rewrite !elem_of_union in Hp. tauto.
  - intros a Hp. destruct (si_addrs _ _ _ HI a Hp) as (k & Hin & ->).
    exists k. split; [|done]. destruct (Hk k Hin) as [?|[Hs _]]; [done|].
    rewrite !elem_of_union in Hp. tauto.
Qed.
End operations.

(** ** Allocation *)
Section allocation.
Context (b b' : CircularBuffer) (P L H C R : gset Z) (ks ks' : list blk) (ls ls' : list (list Z)).
Hypotheses (HI : SysInv (mkSys b P L H C R) ks ls) (HI' : CBInv b' ks' ls') (HG : grown b ks b' ks').

Lemma grown_ptr k : k_ptr b' k = k_ptr b k.
Proof. destruct HG as (_ & Hcap & Hdp & _). by apply k_ptr_same. Qed.

(** The blocks there were are at their places. *)
Lemma grown_old k : k ∈ ks → ∃ k', k' ∈ ks' ∧ k_addr k' = k_addr k ∧ k_ptr b' k' = k_ptr b k.
Proof.
  intros Hk. pose proof HG as ((l & n & Heq & Hev & _) & _). destruct (evolves_addr _ _ _ Hev Hk) as (k' & Hk' & Ha & _).
  exists k'. split; [rewrite Heq; apply elem_of_app; by left|]. split; [done|]. rewrite grown_ptr. unfold k_ptr. by rewrite Ha.
Qed.

Lemma ptr_inj k1 k2 : k1 ∈ ks' → k2 ∈ ks' → k_ptr b' k1 = k_ptr b' k2 → k1 = k2.
Proof.
  intros (i & Hi)%list_elem_of_lookup (j & Hj)%list_elem_of_lookup Heq.
  assert (i = j) as ->; [|by simplify_eq]. apply (phys_inj b' ks' (proj1 HI') i j k1 k2 Hi Hj). unfold k_ptr in Heq. lia.
Qed.

(** A block is as it was, or was recycled, or is new: then nobody refers to it. *)
Lemma grown_block k :
  k ∈ ks' → k ∈ ks ∨ (k_state k = Tombstone ∨ k_state k = NotReady) ∧
    standing P L H C R (evicting_addr (states b)) (k_ptr b k) (k_addr k) Tombstone.
Proof.
  intros Hk. pose proof HG as ((l & n & Heq & Hev & Hnew) & _). rewrite Heq in Hk. apply elem_of_app in Hk as [Hk|Hk].
  - apply list_elem_of_lookup in Hk as (i & Hi). destruct (Forall2_lookup_r _ _ _ _ _ Hev Hi) as (k0 & Hi0 & Ha & _ & Hc).
    assert (k0 ∈ ks) as Hk0 by by eapply list_elem_of_lookup_2.
    destruct Hc as [->|[Hfl Hs]]; [by left|right]. split; [done|].
    pose proof (si_owned _ _ _ HI k0 Hk0) as Ho. unfold owned in Ho. rewrite Hfl in Ho.
    replace (k_ptr b k) with (k_ptr b k0) by (unfold k_ptr; by rewrite Ha). rewrite Ha.
    cbn [buf ptrs live handles claimed reserved] in Ho. unfold standing in *. intuition congruence.
  - right. rewrite Forall_forall in Hnew. destruct (Hnew k Hk) as [Ht Hs]. split; [done|].
    pose proof HI as [[HC _] _ Hp Ha]. cbn [buf ptrs live handles claimed reserved] in *.
    assert (∀ k0, k0 ∈ ks → k_addr k0 ≠ k_addr k) as Hne.
    { intros k0 Hk0 He. destruct (blk_in b ks HC k0 Hk0) as ((_ & _ & ? & _) & _ & Hend & _).
      unfold k_end, CB_ALLOC_META_SIZE in Hend. lia. }
    assert (k_ptr b k ∉ P ∪ L ∪ H) as H1.
    { intros (k0 & Hk0 & He)%Hp. destruct (grown_old k0 Hk0) as (k1 & Hk1 & Ha1 & Hp1).
      apply (Hne k0 Hk0). rewrite <- Ha1. f_equal. apply ptr_inj; [done|rewrite Heq; apply elem_of_app; by right|].
      rewrite Hp1, grown_ptr. done. }
    assert (k_addr k ∉ C ∪ R) as H2 by (intros (k0 & Hk0 & He)%Ha; by apply (Hne k0 Hk0)).
    pose proof (ci_tail _ _ HC). rewrite !not_elem_of_union in *. unfold standing. intuition lia.
Qed.
End allocation.

Lemma served_serves b ks ls size :
  CBInv b ks ls → served b size = true → ∃ s c0, serves size s c0 b.
Proof.
  intros _ Hs. unfold served in Hs. destruct (last _) as [lo|] eqn:E1; [|done].
  destruct (head _) as [hi|] eqn:E2; [|done]. apply andb_true_iff in Hs as [H1 H2]. zbool.
  exists hi, lo. split_and!; try done. apply list_elem_of_lookup. exists O. by rewrite <- head_lookup.
Qed.

(** The sets after an allocation. *)
Lemma alloc_sys b b' P P' L H C R ks ks' ls ls' :
  SysInv (mkSys b P L H C R) ks ls → CBInv b' ks' ls' → grown b ks b' ks' →
  (∀ k, k ∈ ks' → k_state k = NotReady → k ∈ ks ∨ k_ptr b' k ∈ P') → P ⊆ P' →
  (∀ p, p ∈ P' → p ∈ P ∨ ∃ k, k ∈ ks' ∧ p = k_ptr b' k ∧ k_state k = NotReady ∧ k ∉ ks) →
  SysInv (mkSys b' P' L H C R) ks' ls'.
Proof.
  intros HI HI' HG Hnr HPP HP'. split; cbn [buf ptrs live handles claimed reserved]; [done|..].
  - intros k Hk. unfold owned. cbn [buf ptrs live handles claimed reserved].
    pose proof HG as (_ & _ & _ & _ & _ & -> & _). rewrite (grown_ptr b b' ks ks' HG).
    assert (k_state k ≠ NotReady → k_ptr b k ∈ P' → k_ptr b k ∈ P) as Hback.
    { intros Hs [?|(k1 & Hk1 & Heq & Hs1 & _)]%HP'; [done|]. rewrite <- (grown_ptr b b' ks ks' HG) in Heq.
      apply (ptr_inj b' ks' ls' HI' k k1 Hk Hk1) in Heq as ->. done. }
    specialize (Hnr k Hk). specialize (HPP (k_ptr b k)). rewrite (grown_ptr b b' ks ks' HG) in Hnr.
    destruct (decide (k ∈ ks)) as [Hin|Hout].
    + pose proof (si_owned _ _ _ HI k Hin) as Ho. unfold owned in Ho. cbn [buf ptrs live handles claimed reserved] in Ho.
      unfold standing in *. destruct (k_state k); intuition congruence.
    + destruct (grown_block b b' P L H C R ks ks' ls ls' HI HI' HG k Hk) as [?|[Hs Hst]]; [done|].
      unfold standing in *. destruct Hs as [Hs|Hs]; rewrite Hs in *; intuition congruence.
  - intros p Hp. assert ((∃ k, k ∈ ks' ∧ p = k_ptr b' k) ∨ p ∈ P ∪ L ∪ H) as [?|Hold]; [|done|].
    { rewrite !elem_of_union in *. destruct Hp as [[Hp|?]|?]; [|tauto..].
      destruct (HP' p Hp) as [?|(k & Hk & -> & _)]; [tauto|]. left. by exists k. }
    destruct (si_ptrs _ _ _ HI p Hold) as (k & Hk & ->). cbn [buf]. destruct (grown_old b b' ks ks' HG k Hk) as (k' & Hk' & _ & <-).
    by exists k'.
  - intros a Hp. destruct (si_addrs _ _ _ HI a Hp) as (k & Hk & ->).
    destruct (grown_old b b' ks ks' HG k Hk) as (k' & Hk' & <- & _). by exists k'.
Qed.

(** The system after an allocation that has ended. *)
Lemma alloc_done b b' P L H C R ks ks' ls ls' size r :
  SysInv (mkSys b P L H C R) ks ls → CBInv b' ks' ls' → grown b ks b' ks' → alloc_result b ks size r b' ks' →
  SysInv (mkSys b' (match r with inr p => {[p]} ∪ P | inl _ => P end) L H C R) ks' ls'.
Proof.
  intros HI HI' HG Hres. destruct r as [e|p].
  - apply (alloc_sys b b' P P L H C R ks ks' ls ls' HI HI' HG); [|done|auto].
    intros k Hk Hn. left. by apply Hres.
  - destruct Hres as (k & Hk & -> & Hst & _ & Hold & Honly).
    apply (alloc_sys b b' P _ L H C R ks ks' ls ls' HI HI' HG).
    + intros k1 Hk1 Hs1. destruct (Honly k1 Hk1 Hs1) as [?| ->]; [by left|right]. apply elem_of_union_l. by apply elem_of_singleton.
    + apply union_subseteq_r.
    + intros q [Hq%elem_of_singleton|?]%elem_of_union; [right|by left]. exists k. split_and!; try done.
      intros Hin. specialize (Hold k Hin eq_refl). congruence.
Qed.

Lemma alloc_safe b P L H C R ks ls size : SysInv (mkSys b P L H C R) ks ls → safe (mkSys b P L H C R) (Alloc size).
Proof.
  intros HI. unfold safe, exec, guarded. destruct (decide (served b size = true)) as [Hsv|]; [right|by left].
  pose proof (si_cb _ _ _ HI) as HB. destruct (served_serves _ _ _ _ HB Hsv) as (s & c0 & Hs).
  destruct (alloc_pass_spec size s c0 b ks ls HB Hs) as (r & b' & ks' & ls' & -> & HI' & HG & Hres). ret_step.
  destruct r as [[e|]|p]; cbv beta iota; eexists _, ks', ls'; (split; [done|]).
  - by apply (alloc_done b b' P L H C R ks ks' ls ls' size (inl e)).
  - apply (alloc_sys b b' P P L H C R ks ks' ls ls' HI HI' HG); [|done|auto]. intros k Hk Hn. left. by apply Hres.
  - by apply (alloc_done b b' P L H C R ks ks' ls ls' size (inr p)).
Qed.

(** ** Every interleaving *)
Lemma exec_safe s ks ls o : SysInv s ks ls → safe s o.
Proof.
  intros HI. destruct s as [b P L H C R]. destruct o.
  - by eapply alloc_safe.
  - by eapply drop_ptr_safe.
  - by eapply acquire_safe.
  - by eapply drop_handle_safe.
  - by eapply dealloc_safe.
  - by eapply reserve_safe.
  - by eapply claim_safe.
  - by eapply finish_safe.
  - by eapply refuse_safe.
  - by eapply bump_safe.
Qed.

Lemma step_inv s ks ls s' : SysInv s ks ls → step s s' → ∃ ks' ls', SysInv s' ks' ls'.
Proof.
  intros HI [o Ho]. destruct (exec_safe s ks ls o HI) as [Hn|(s1 & ks' & ls' & He & HI')]; [congruence|].
  exists ks', ls'. rewrite Ho in He. by injection He as ->.
Qed.

Lemma reachable_inv s ks ls s' : SysInv s ks ls → rtc step s s' → ∃ ks' ls', SysInv s' ks' ls'.
Proof.
  intros HI Hr. revert ks ls HI. induction Hr as [s|s1 s2 s3 H12 _ IH]; intros ks ls HI; [by exists ks, ls|].
  destruct (step_inv _ _ _ _ HI H12) as (ks' & ls' & HI'). by eapply IH.
Qed.

Lemma start_inv b ks ls : CBInv b ks ls → ks = [] → SysInv (start_of b) ks ls.
Proof.
  intros HB ->. split; cbn [start_of buf ptrs live handles claimed reserved]; [done|by intros k ?%not_elem_of_nil|..].
  - intros p Hp. exfalso. by rewrite !elem_of_union, !elem_of_empty in Hp; destruct Hp as [[]|].
  - intros p Hp. exfalso. by rewrite !elem_of_union, !elem_of_empty in Hp; destruct Hp as [].
Qed.
