(* ===== verification/CircularTheorems.v ===== *)
(** What the circular buffer promises its users: it is set up correctly, no interleaving of
    its operations stops it, the memory it hands out is disjoint, allocation fails only when
    the buffer is full, and it can be emptied. *)
From stdpp Require Import base numbers list option gmap sorting.
From Stdlib Require Import ZArith Lia.
From S2P Require Import Prelude Bits NodeMeta SizeClasses FreeList CircularBuffer CircularInv CircularOps CircularAlloc CircularSystem.

(** ** A new buffer *)
Lemma ascending_lookup l i j x y :
  ascending l → l !! i = Some x → l !! j = Some y → (i < j)%nat → x < y.
Proof.
  intros Hs. revert i j. induction Hs as [|z l Hs IH Hf]; intros i j Hi Hj Hij; [done|].
  destruct i as [|i], j as [|j]; cbn in *; try lia.
  - simplify_eq. by apply (Forall_lookup_1 _ _ _ _ Hf Hj).
  - apply (IH i j Hi Hj). lia.
Qed.

Lemma descending_reverse l : ascending l → descending (reverse l).
Proof.
  intros Hl i j x y Hi Hj Hij. apply reverse_lookup_Some in Hi as [Hi Hi'], Hj as [Hj Hj'].
  apply (ascending_lookup l _ _ _ _ Hl Hj Hi). lia.
Qed.

Lemma join_nils n : mjoin (replicate n (@nil Z)) = [].
Proof. induction n as [|n IH]; [done|]. exact IH. Qed.

Section new.
Context (cap threshold min_record max_record leaf_page max_fence ptr : Z) (cache_only : bool) (b : CircularBuffer).
Hypothesis Hnew : CircularBuffer_new cap threshold min_record max_record leaf_page max_fence ptr cache_only = Ret b.
Hypotheses (Hptr : 0 < ptr) (Hal : ptr mod 8 = 0) (Hleaf : CACHE_LINE_SIZE < leaf_page).

Lemma new_inv : CBInv b [] (replicate (length (size_classes (free_list b))) []) ∧ capacity b = cap ∧
  head (size_classes (free_list b)) = Some leaf_page.
Proof.
  pose proof Hnew as Hn. unfold CircularBuffer_new in Hn. apply assert_inv in Hn as [Hpow Hn].
  apply assert_inv in Hn as [Hcap Hn]. zbool. unfold FreeList_new, create_free_list_size_classes in Hn.
  destruct (create_mem_page_size_classes _ _ _ _ _) as [l|] eqn:E; [|done].
  pose proof (classes_inv _ _ _ _ _ _ E) as HP.
  destruct (classes_spec _ _ _ _ _ HP) as (front & E' & Hasc & _ & Hmin). specialize (Hmin Hleaf).
  rewrite E' in E. injection E as <-. set (l := front ++ _) in *. injection Hn as <-.
  assert (reverse l = leaf_page :: reverse (front ++ [max_mini_of max_record leaf_page max_fence cache_only])) as Hrev.
  { unfold l. rewrite (cons_middle _ _ [leaf_page]), (assoc_L (++)). by rewrite reverse_snoc. }
  split; [|split; [done|cbn; by rewrite Hrev]].
  split; split; cbn [states capacity data_ptr free_list metas links head_addr evicting_addr tail_addr size_classes list_heads]; try lia; try done.
  - exists (Z.log2 cap). split; [|by apply power_of_two_log]. apply Z.log2_le_pow2; unfold CACHE_LINE_SIZE, CB_ALLOC_META_SIZE in *; lia.
  - unfold CB_ALLOC_META_SIZE, CACHE_LINE_SIZE in *. lia.
  - by intros k ?%not_elem_of_nil.
  - by intros k ?%not_elem_of_nil.
  - split; cbn [size_classes list_heads].
    + by rewrite length_replicate.
    + by rewrite length_replicate.
    + intros i h m Hh Hm. apply lookup_replicate in Hh as [-> _], Hm as [-> _]. done.
    + rewrite join_nils. constructor.
  - by apply descending_reverse.
  - by apply Forall_reverse.
  - rewrite Hrev, last_cons. by destruct (last _).
  - intros i p. split.
    + intros (m & Hm & Hp). apply lookup_replicate in Hm as [-> _]. by apply not_elem_of_nil in Hp.
    + intros (k & Hk & _). by apply not_elem_of_nil in Hk.
  - by intros k ?%not_elem_of_nil.
Qed.
End new.

(** A buffer as the tree builds it, and the states its users can bring it to. *)
Definition built (b : CircularBuffer) : Prop :=
  ∃ cap threshold min_record max_record leaf_page max_fence ptr cache_only,
    CircularBuffer_new cap threshold min_record max_record leaf_page max_fence ptr cache_only = Ret b ∧
    0 < ptr ∧ ptr mod 8 = 0 ∧ CACHE_LINE_SIZE < leaf_page.

Definition reachable (s : sys) : Prop := ∃ b, built b ∧ rtc step (start_of b) s.

Lemma reachable_sys s : reachable s → ∃ ks ls, SysInv s ks ls.
Proof.
  intros (b & (cap & th & mi & ma & le & fe & ptr & co & Hn & Hp & Hal & Hl) & Hr).
  destruct (new_inv _ _ _ _ _ _ _ _ _ Hn Hp Hal Hl) as (HB & _).
  by apply (reachable_inv _ _ _ _ (start_inv b [] _ HB eq_refl) Hr).
Qed.

(** ** Running sequences of operations *)
Fixpoint run (s : sys) (ops : list op) : option sys :=
  match ops with
  | [] => Some s
  | o :: ops' => match exec s o with Some (Ret s') => run s' ops' | _ => None end
  end.

Lemma run_steps s ops s' : run s ops = Some s' → rtc step s s'.
Proof.
  revert s. induction ops as [|o ops IH]; intros s Hr; cbn in Hr; [by simplify_eq|].
  destruct (exec s o) as [[s1|]|] eqn:E; [|done..]. eapply rtc_l; [by exists o|]. by apply IH.
Qed.

(** The block a pointer refers to. *)
Lemma pointer_block s ks ls p :
  SysInv s ks ls → p ∈ ptrs s ∪ live s → ∃ n k, ks !! n = Some k ∧ p = k_ptr (buf s) k ∧
    get_meta_from_data_ptr (buf s) p = Ret (k_meta k) ∧
    (k_state k = NotReady ∨ k_state k = Ready ∨ k_state k = BeginTombStone) ∧
    data_ptr (buf s) <= p ∧ p + k_size k <= data_ptr (buf s) + capacity (buf s).
Proof.
  intros HI Hp. destruct (block_of_ptr s ks ls HI p) as (n & k & Hn & -> & Ho); [by apply elem_of_union_l|].
  exists n, k. pose proof HI as [[HC HF] _ _ _]. assert (k ∈ ks) as Hk by by eapply list_elem_of_lookup_2.
  split; [done|]. split; [done|]. split; [by apply (get_meta_ptr _ ks)|]. split.
  - unfold owned, standing in Ho. rewrite elem_of_union in Hp. destruct (k_state k); tauto.
  - destruct (blk_in _ ks HC k Hk) as ((_ & _ & Hs & Hb) & _). pose proof (cap_pos _ ks HC).
    unfold k_ptr. rewrite (phys_mod _ ks HC). pose proof (Z.mod_pos_bound (k_addr k) (capacity (buf s)) ltac:(lia)).
    unfold CB_ALLOC_META_SIZE in *. lia.
Qed.

Lemma ptrs_apart b ks i j k k' :
  CoreInv b ks → ks !! i = Some k → ks !! j = Some k' → i ≠ j →
  k_ptr b k + k_size k <= k_ptr b k' - CB_ALLOC_META_SIZE ∨ k_ptr b k' + k_size k' <= k_ptr b k - CB_ALLOC_META_SIZE.
Proof.
  intros HC Hi Hj Hne. unfold k_ptr. rewrite !(phys_mod b ks HC).
  destruct (blocks_apart b ks HC i j k k' Hi Hj Hne); lia.
Qed.

(** C24: whatever the threads do within what their pointers, handles and reservations allow,
    and however their critical sections interleave, no operation of the circular buffer panics
    on a size that it serves: no assertion, no state transition of a descriptor and no
    arithmetic fails.  Exchanges fail only when another thread has changed the word. *)
Theorem circular_never_stops s o : reachable s → exec s o ≠ Some Panic.
Proof.
  intros (ks & ls & HI)%reachable_sys He.
  destruct (exec_safe s ks ls o HI) as [Hn|(s' & _ & _ & Hr & _)]; congruence.
Qed.

(** C25: in every reachable state the memory behind two different pointers that are in use,
    handed out or referred to by the page table, is disjoint, descriptors included, and
    lies within the buffer. *)
Theorem circular_isolation s p q :
  reachable s → p ∈ ptrs s ∪ live s → q ∈ ptrs s ∪ live s → p ≠ q →
  ∃ m m', get_meta_from_data_ptr (buf s) p = Ret m ∧ get_meta_from_data_ptr (buf s) q = Ret m' ∧
    data_ptr (buf s) <= p ∧ p + m_size m <= data_ptr (buf s) + capacity (buf s) ∧
    (p + m_size m <= q - CB_ALLOC_META_SIZE ∨ q + m_size m' <= p - CB_ALLOC_META_SIZE).
Proof.
  intros (ks & ls & HI)%reachable_sys Hp Hq Hne.
  destruct (pointer_block s ks ls p HI Hp) as (i & k & Hi & -> & Hm & _ & Hb1 & Hb2).
  destruct (pointer_block s ks ls q HI Hq) as (j & k' & Hj & -> & Hm' & _).
  exists (k_meta k), (k_meta k'). split_and!; [done..|].
  apply (ptrs_apart _ ks i j k k' (proj1 (si_cb _ _ _ HI)) Hi Hj). intros ->. by simplify_eq.
Qed.

(** C26: an allocation of a size between the smallest and the largest class returns.  It
    fails only when the buffer is full, with less free space than the aligned request and
    its descriptor need.  Otherwise it gives an aligned block of at least that size that
    nobody refers to, disjoint from the blocks in use, whose descriptors it leaves as they
    were. *)
Theorem alloc_correct s size :
  reachable s → served (buf s) size = true →
  ∃ r b', alloc (buf s) size [] = Ret (r, b') ∧
  match r with
  | inl e => e = Full ∧ capacity (buf s) - (tail_addr (states b') - head_addr (states (buf s))) <
                        align_up size CB_ALLOC_META_SIZE + CB_ALLOC_META_SIZE
  | inr p => (p ∉ ptrs s ∪ live s) ∧ p mod 8 = 0 ∧
      ∃ m, get_meta_from_data_ptr b' p = Ret m ∧ m_state m = NotReady ∧ size <= m_size m ∧
      ∀ q, q ∈ ptrs s ∪ live s → ∃ mq, get_meta_from_data_ptr (buf s) q = Ret mq ∧
        get_meta_from_data_ptr b' q = Ret mq ∧
        (p + m_size m <= q - CB_ALLOC_META_SIZE ∨ q + m_size mq <= p - CB_ALLOC_META_SIZE)
  end.
Proof.
  intros (ks & ls & HI)%reachable_sys Hsv. pose proof (si_cb _ _ _ HI) as HB.
  destruct (served_serves _ _ _ _ HB Hsv) as (c & c0 & Hs).
  destruct (alloc_spec size c c0 _ ks ls HB Hs) as (r & b' & ks' & ls' & Hr & HB' & HG & Hres).
  exists r, b'. split; [done|]. destruct r as [e|p]; [by destruct Hres as (? & ? & _)|].
  destruct Hres as (k & Hk & -> & Hst & Hsz & Hold & _). pose proof HB' as [HC' _].
  assert (∀ q, q ∈ ptrs s ∪ live s → ∃ kq, kq ∈ ks ∧ kq ∈ ks' ∧ q = k_ptr b' kq ∧ kq ≠ k ∧
    get_meta_from_data_ptr (buf s) q = Ret (k_meta kq)) as Huse.
  { intros q Hq. destruct (pointer_block s ks ls q HI Hq) as (j & kq & Hj & -> & Hm & Hsq & _).
    assert (kq ∈ ks) as Hin by by eapply list_elem_of_lookup_2. exists kq. split; [done|].
    assert (k_state kq ≠ FreeListed) as Hnf by (by destruct Hsq as [->|[->| ->]]).
    split; [destruct HG as ((l & n & -> & Hev & _) & _); apply elem_of_app; left; by eapply evolves_keeps|].
    split; [by rewrite (grown_ptr _ b' ks ks' HG)|]. split; [|done]. intros ->. by specialize (Hold k Hin eq_refl). }
  split; [|split; [by apply (ptr_aligned b' ks')|]].
  { intros Hin. destruct (Huse _ Hin) as (kq & _ & Hkq & Heq & Hne & _). by apply Hne, eq_sym, (ptr_inj b' ks' ls'). }
  exists (k_meta k). split_and!; [by apply (get_meta_ptr b' ks')|done..|]. intros q Hq.
  destruct (Huse q Hq) as (kq & _ & Hkq & -> & Hne & Hm). exists (k_meta kq).
  split_and!; [done|by apply (get_meta_ptr b' ks')|].
  apply list_elem_of_lookup in Hk as (i & Hi), Hkq as (j & Hj).
  apply (ptrs_apart b' ks' i j k kq HC' Hi Hj). intros ->. by simplify_eq.
Qed.

(** ** Walking the buffer *)
Lemma iter_loop_spec fuel b all ks a :
  CoreInv b all → (∀ k, k ∈ ks → k ∈ all) → tiles a (tail_addr (states b)) ks → (length ks < fuel)%nat →
  iter_loop b a fuel = Ret (k_meta <$> ks).
Proof.
  intros HC. revert ks a. induction fuel as [|fuel IH]; intros ks a Hin Ht Hf; [lia|]. cbn [iter_loop].
  destruct ks as [|k ks]; cbn in Ht; [subst; by rewrite Z.eqb_refl|]. destruct Ht as [<- Ht].
  assert (k ∈ all) as Hk by (apply Hin; left). destruct (blk_in b all HC k Hk) as ((_ & _ & Hs & _) & _ & Hend & _).
  rewrite (proj2 (Z.eqb_neq _ _)) by (unfold k_end, CB_ALLOC_META_SIZE in Hend; lia).
  rewrite (get_meta_blk b all HC k Hk). ret_step.
  change (k_addr k + (m_size (k_meta k) + CB_ALLOC_META_SIZE)) with (k_end k).
  rewrite (IH ks (k_end k)); [done|intros k' Hk'; apply Hin; by right|done|cbn in Hf; lia].
Qed.

Lemma iter_spec b ks : CoreInv b ks → iter b = Ret (k_meta <$> ks).
Proof.
  intros HC. apply (iter_loop_spec _ b ks ks); [done|auto|by apply ci_tiles|].
  pose proof (tiles_le _ _ _ _ (ci_blocks _ _ HC) (ci_tiles _ _ HC)) as Hle. unfold zlen in Hle.
  unfold CB_ALLOC_META_SIZE. assert (Z.of_nat (length ks) <= (tail_addr (states b) - head_addr (states b)) / 8) by dlia. lia.
Qed.

(** Nobody holds anything: only what the page table refers to is in use. *)
Definition idle (s : sys) : Prop := ptrs s = ∅ ∧ handles s = ∅ ∧ claimed s = ∅ ∧ reserved s = ∅.

Lemma idle_quiet s ks ls : SysInv s ks ls → idle s → quiet (buf s) ks.
Proof.
  intros HI (H1 & H2 & H3 & H4). split.
  - intros k Hk Ha. destruct (si_owned _ _ _ HI k Hk) as (_ & _ & Hc). rewrite H3, H4, !elem_of_empty in Hc. tauto.
  - intros k Hk Hs. destruct (si_owned _ _ _ HI k Hk) as (Ho & _). rewrite H1, H2, H3 in Ho. unfold evictable.
    destruct (k_state k); rewrite ?elem_of_empty in Ho; tauto.
Qed.

(** C27: when no pointer, handle or eviction is outstanding, draining the buffer with a
    callback that accepts every block returns, leaves no block, the head at the tail, and
    a buffer whose final check passes. *)
Theorem drain_correct s :
  reachable s → idle s →
  ∃ b', drain (buf s) = Ret b' ∧ iter b' = Ret [] ∧ head_addr (states b') = tail_addr (states b') ∧
    evicting_addr (states b') = tail_addr (states b') ∧ tail_addr (states b') = tail_addr (states (buf s)) ∧
    drop_check b' = Ret tt.
Proof.
  intros (ks & ls & HI)%reachable_sys Hid. pose proof (idle_quiet s ks ls HI Hid) as Hq.
  destruct (drain_spec _ ks ls (si_cb _ _ _ HI) Hq) as (b' & ls' & Hd & [HC _] & H1 & H2 & H3).
  exists b'. pose proof (iter_spec b' [] HC) as Hit. split_and!; try done. unfold drop_check. by rewrite Hit.
Qed.

(** C28: when nothing is outstanding, one eviction returns: nothing if every block has been
    evicted, otherwise the size of the block at the cursor with its descriptor; the head
    and the cursor are then behind that block, so the space up to there is free again, and
    the tail has not moved. *)
Theorem evict_one_correct s :
  reachable s → idle s →
  (evicting_addr (states (buf s)) = tail_addr (states (buf s)) ∧ evict_one (buf s) [] 1 = Ret (NothingToEvict, buf s)) ∨
  ∃ m b', get_meta (buf s) (evicting_addr (states (buf s))) = Ret m ∧
    evict_one (buf s) [] 1 = Ret (Evicts (m_size m + CB_ALLOC_META_SIZE), b') ∧
    head_addr (states b') = evicting_addr (states (buf s)) + (m_size m + CB_ALLOC_META_SIZE) ∧
    evicting_addr (states b') = head_addr (states b') ∧ tail_addr (states b') = tail_addr (states (buf s)).
Proof.
  intros (ks & ls & HI)%reachable_sys Hid. destruct (idle_quiet s ks ls HI Hid) as [Hse Hev].
  destruct (evict_one_spec _ ks ls (si_cb _ _ _ HI) Hse Hev) as [?|(k & b' & ks2 & ls' & He & Hk & Ha & _ & _ & H1 & H2 & H3)];
    [by left|right].
  exists (k_meta k), b'. rewrite <- Ha. split; [by apply (get_meta_blk _ ks (proj1 (si_cb _ _ _ HI)))|].
  split; [done|]. by rewrite H1, H2, H3.
Qed.

(** ** Metrics *)

(** Sums over the blocks. *)
Definition total (g : blk → Z) (ks : list blk) : Z := foldr (λ k acc, g k + acc) 0 ks.

Definition is_in (S : gset Z) (p : Z) : Z := if decide (p ∈ S) then 1 else 0.

Lemma total_ext g h ks : (∀ k, k ∈ ks → g k = h k) → total g ks = total h ks.
Proof.
  induction ks as [|k ks IH]; intros Hgh; [done|]. cbn. rewrite (Hgh k) by left. f_equal.
  apply IH. intros k' Hk'. apply Hgh. by right.
Qed.

Lemma total_add g h ks : total g ks + total h ks = total (λ k, g k + h k) ks.
Proof. induction ks as [|k ks IH]; cbn; [done|]. unfold total in *. lia. Qed.

Lemma count_spec ks x :
  let y := foldl count_meta x (k_meta <$> ks) in
  let n st := total (λ k, of_state (k_state k) st) ks in
  allocated_cnt y = allocated_cnt x + zlen ks ∧ not_ready_cnt y = not_ready_cnt x + n NotReady ∧
  ready_cnt y = ready_cnt x + n Ready ∧ tombstone_cnt y = tombstone_cnt x + n Tombstone ∧
  begin_tombstone_cnt y = begin_tombstone_cnt x + n BeginTombStone ∧
  free_listed_cnt y = free_listed_cnt x + n FreeListed ∧ evicted_cnt y = evicted_cnt x + n Evicted ∧
  tombstone_size y = tombstone_size x + total (λ k, of_state (k_state k) Tombstone * k_size k) ks.
Proof.
  revert x. induction ks as [|k ks IH]; intros x; [cbn; rewrite zlen_nil; lia|].
  rewrite zlen_cons. cbn [fmap list_fmap foldl]. destruct (IH (count_meta x (k_meta k))) as (H1 & H2 & H3 & H4 & H5 & H6 & H7 & H8).
  cbn zeta in *. rewrite H1, H2, H3, H4, H5, H6, H7, H8. cbn [count_meta allocated_cnt not_ready_cnt ready_cnt tombstone_cnt
    tombstone_size begin_tombstone_cnt free_listed_cnt evicted_cnt total foldr]. unfold total, k_size, k_state. lia.
Qed.

Lemma total_set (S : gset Z) (f : blk → Z) ks :
  NoDup (f <$> ks) → (∀ p, p ∈ S → p ∈ f <$> ks) → total (λ k, is_in S (f k)) ks = Z.of_nat (size S).
Proof.
  revert S. induction ks as [|k ks IH]; intros S Hnd Hin.
  { replace S with (∅ : gset Z); [by rewrite size_empty|]. apply set_eq. intros p.
    split; [by intros ?%not_elem_of_empty|]. by intros ?%Hin%not_elem_of_nil. }
  cbn [fmap list_fmap] in *. apply NoDup_cons in Hnd as [Hk Hnd]. cbn [total foldr]. fold (total (λ k, is_in S (f k)) ks).
  rewrite (total_ext _ (λ k', is_in (S ∖ {[f k]}) (f k'))).
  2:{ intros k' Hk'. unfold is_in. assert (f k' ≠ f k) as Hne.
      { intros Heq. apply Hk. rewrite <- Heq. by apply list_elem_of_fmap_2. }
      destruct (decide (f k' ∈ S)) as [Hi|Hi], (decide (f k' ∈ S ∖ {[f k]})) as [Hd|Hd]; try done; exfalso;
        rewrite elem_of_difference, elem_of_singleton in Hd; tauto. }
  rewrite IH; [|done|].
  - unfold is_in. destruct (decide (f k ∈ S)) as [Hs|Hs].
    + rewrite size_difference by (by apply singleton_subseteq_l). rewrite size_singleton.
      assert (size S ≠ 0)%nat; [|lia]. intros He%size_empty_inv. set_solver.
    + f_equal. rewrite difference_disjoint; [done|]. set_solver.
  - intros p [Hp Hne]%elem_of_difference. apply Hin in Hp. apply elem_of_cons in Hp as [->|?]; [set_solver|done].
Qed.

Section counted.
Context (s : sys) (ks : list blk) (ls : list (list Z)).
Hypothesis HI : SysInv s ks ls.

Lemma nodup_ptrs : NoDup (k_ptr (buf s) <$> ks) ∧ NoDup (k_addr <$> ks).
Proof.
  pose proof (proj1 (si_cb _ _ _ HI)) as HC. split; apply NoDup_alt; intros i j x Hi Hj;
    rewrite list_lookup_fmap in Hi, Hj; apply fmap_Some in Hi as (k & Hi & ->), Hj as (k' & Hj & Heq);
    apply (phys_inj (buf s) ks HC i j k k' Hi Hj).
  - unfold k_ptr in Heq. lia.
  - by rewrite Heq.
Qed.

Lemma set_total S :
  (∀ p, p ∈ S → p ∈ ptrs s ∪ live s ∪ handles s) → total (λ k, is_in S (k_ptr (buf s) k)) ks = Z.of_nat (size S).
Proof.
  intros Hin. apply (total_set S (k_ptr (buf s))); [apply nodup_ptrs|]. intros p Hp.
  destruct (si_ptrs _ _ _ HI p (Hin p Hp)) as (k & Hk & ->). by apply list_elem_of_fmap_2.
Qed.

Lemma claimed_total : total (λ k, is_in (claimed s) (k_addr k)) ks = Z.of_nat (size (claimed s)).
Proof.
  apply (total_set (claimed s) k_addr); [apply nodup_ptrs|]. intros a Ha.
  destruct (si_addrs _ _ _ HI a) as (k & Hk & ->); [by apply elem_of_union_l|]. by apply list_elem_of_fmap_2.
Qed.

Ltac by_standing :=
  let k := fresh "k" in let Hk := fresh "Hk" in let Ho := fresh "Ho" in
  apply total_ext; intros k Hk; pose proof (proj1 (si_owned _ _ _ HI k Hk)) as Ho; unfold of_state, is_in;
  repeat match goal with |- context [decide (?x ∈ ?X)] => destruct (decide (x ∈ X)) end;
  destruct (k_state k); cbn in *; try done; tauto.

Lemma ptrs_counted : total (λ k, of_state (k_state k) NotReady) ks = Z.of_nat (size (ptrs s)).
Proof. rewrite <- (set_total (ptrs s)) by (intros; by do 2 apply elem_of_union_l). by_standing. Qed.

Lemma live_counted :
  total (λ k, of_state (k_state k) Ready + of_state (k_state k) BeginTombStone) ks = Z.of_nat (size (live s)).
Proof.
  rewrite <- (set_total (live s)) by (intros; by apply elem_of_union_l, elem_of_union_r). by_standing.
Qed.

Lemma handles_counted :
  total (λ k, of_state (k_state k) BeginTombStone) ks = Z.of_nat (size (handles s)) + Z.of_nat (size (claimed s)).
Proof.
  rewrite <- (set_total (handles s)) by (intros; by apply elem_of_union_r). rewrite <- claimed_total, total_add. by_standing.
Qed.
End counted.

(** The metrics of a reachable state add up: the blocks between head and tail are the
    sum of the six states, the blocks not ready are the pointers handed out and not yet
    dropped, the blocks ready or about to be retired are those the page table refers to,
    and the latter are the handles and the evictions in progress. *)
Theorem metrics_correct s :
  reachable s →
  ∃ x, get_metrics (buf s) = Ret x ∧
    head_tail_distance x = tail_addr (states (buf s)) - head_addr (states (buf s)) ∧
    allocated_cnt x = not_ready_cnt x + ready_cnt x + tombstone_cnt x + begin_tombstone_cnt x +
                      free_listed_cnt x + evicted_cnt x ∧
    not_ready_cnt x = Z.of_nat (size (ptrs s)) ∧
    ready_cnt x + begin_tombstone_cnt x = Z.of_nat (size (live s)) ∧
    begin_tombstone_cnt x = Z.of_nat (size (handles s)) + Z.of_nat (size (claimed s)).
Proof.
  intros (ks & ls & HI)%reachable_sys. pose proof (proj1 (si_cb _ _ _ HI)) as HC.
  unfold get_metrics, CircularBufferMetrics_new. pose proof (ci_order _ _ HC). pose proof (ci_tail _ _ HC).
  rewrite subu_ok by lia. ret_step. rewrite (iter_spec _ ks HC). ret_step. eexists. split; [done|].
  set (x0 := mkMetrics _ _ _ _ _ _ _ _ _ _ _ _ _ _).
  destruct (count_spec ks x0) as (-> & -> & -> & -> & -> & -> & -> & _). split.
  { clear. revert x0. assert (∀ ms x, head_tail_distance (foldl count_meta x ms) = head_tail_distance x) as Hd; [|intros x0; apply Hd].
    intros ms. induction ms as [|m ms IH]; intros x; [done|]. cbn [foldl]. by rewrite IH. }
  cbn [x0 allocated_cnt not_ready_cnt ready_cnt tombstone_cnt begin_tombstone_cnt free_listed_cnt evicted_cnt].
  pose proof (ptrs_counted s ks ls HI). pose proof (live_counted s ks ls HI) as Hl. pose proof (handles_counted s ks ls HI).
  rewrite <- total_add in Hl. split_and!; [|lia..].
  rewrite !Z.add_0_l, !total_add. clear. induction ks as [|k ks IH]; [done|].
  rewrite zlen_cons, IH. cbn. unfold of_state. by destruct (k_state k).
Qed.

(** ** Concrete runs *)
Definition sample_buf : CircularBuffer :=
  match CircularBuffer_new 8192 7372 64 1952 4096 32 4096 false with
  | Ret b => b
  | Panic => mkCB (mkStates 0 0 0) 0 0 (mkFreeList [] []) 0 ∅ ∅
  end.

Definition sample_of (ops : list op) : sys := default (start_of sample_buf) (run (start_of sample_buf) ops).

Lemma sample_reachable ops : run (start_of sample_buf) ops = Some (sample_of ops) → reachable (sample_of ops).
Proof.
  intros Hr. exists sample_buf. split; [|by eapply run_steps].
  exists 8192, 7372, 64, 1952, 4096, 32, 4096, false. split; [vm_compute; reflexivity|]. split_and!; reflexivity.
Qed.

(** Two blocks in use, one of them reserved for eviction, and one recycled. *)
Definition sample_ops : list op :=
  [Alloc 128; DropPtr 4104; Alloc 640; Alloc 1216; DropPtr 4888; Acquire 4888; Dealloc 4888 false; Reserve].

Lemma sample_run : run (start_of sample_buf) sample_ops = Some (sample_of sample_ops).
Proof. vm_compute. reflexivity. Qed.

Lemma circular_never_stops_witness : exec (sample_of sample_ops) (Claim 0) ≠ Some Panic.
Proof. apply circular_never_stops. apply sample_reachable, sample_run. Defined.

Lemma circular_isolation_witness :
  ∃ m m', get_meta_from_data_ptr (buf (sample_of sample_ops)) 4104 = Ret m ∧
    get_meta_from_data_ptr (buf (sample_of sample_ops)) 4240 = Ret m' ∧ 4104 + m_size m <= 4240 - 8.
Proof.
  destruct (circular_isolation (sample_of sample_ops) 4104 4240) as (m & m' & H1 & H2 & _ & _ & Hd).
  - apply sample_reachable, sample_run.
  - apply (bool_decide_unpack _). vm_compute. exact I.
  - apply (bool_decide_unpack _). vm_compute. exact I.
  - discriminate.
  - exists m, m'. split; [exact H1|]. split; [exact H2|]. unfold CB_ALLOC_META_SIZE in Hd.
    assert (m = mkAllocMeta 128 Ready) as -> by (vm_compute in H1; injection H1 as <-; reflexivity).
    cbn [m_size] in *. lia.
Defined.

Lemma alloc_correct_witness :
  ∃ p b', alloc (buf (sample_of sample_ops)) 1200 [] = Ret (inr p, b') ∧ (p ∉ ptrs (sample_of sample_ops) ∪ live (sample_of sample_ops)).
Proof.
  destruct (alloc_correct (sample_of sample_ops) 1200) as (r & b' & Hr & Hres).
  - apply sample_reachable, sample_run.
  - vm_compute. reflexivity.
  - destruct r as [e|p]; [exfalso; vm_compute in Hr; discriminate Hr|]. exists p, b'. split; [exact Hr|apply Hres].
Defined.

Definition idle_ops : list op := [Alloc 128; DropPtr 4104; Alloc 640; DropPtr 4240].

Lemma idle_run : run (start_of sample_buf) idle_ops = Some (sample_of idle_ops).
Proof. vm_compute. reflexivity. Qed.

Lemma drain_correct_witness : ∃ b', drain (buf (sample_of idle_ops)) = Ret b' ∧ iter b' = Ret [].
Proof.
  destruct (drain_correct (sample_of idle_ops)) as (b' & Hd & Hi & _).
  - apply sample_reachable, idle_run.
  - split_and!; vm_compute; reflexivity.
  - exists b'. exact (conj Hd Hi).
Defined.

Lemma evict_one_correct_witness : ∃ n b', evict_one (buf (sample_of idle_ops)) [] 1 = Ret (Evicts n, b') ∧ head_addr (states b') = n.
Proof.
  destruct (evict_one_correct (sample_of idle_ops)) as [[H _]|(m & b' & Hm & He & Hh & _)].
  - apply sample_reachable, idle_run.
  - split_and!; vm_compute; reflexivity.
  - exfalso. vm_compute in H. discriminate H.
  - eexists _, b'. split; [exact He|]. rewrite Hh. exact (Z.add_0_l _).
Defined.

Lemma metrics_correct_witness : ∃ x, get_metrics (buf (sample_of sample_ops)) = Ret x ∧ not_ready_cnt x = 1.
Proof.
  destruct (metrics_correct (sample_of sample_ops)) as (x & Hx & _ & _ & Hn & _).
  - apply sample_reachable, sample_run.
  - exists x. split; [exact Hx|]. rewrite Hn. vm_compute. reflexivity.
Defined.

(** ** A spurious failure of the weak exchange *)

(** A block is allocated, deallocated and so in its free list. *)
Definition recycling_ops : list op := [Alloc 128; DropPtr 4104; Acquire 4104; Dealloc 4104 false].

(** The buffer after a recycled block is popped from its list and [compare_exchange_weak] fails
    spuriously: the block stays [FreeListed] but is on no list.  The eviction has reserved it. *)
Definition leaked_reserved : CircularBuffer :=
  match alloc (buf (sample_of recycling_ops)) 128 [false] with
  | Ret (_, b) => match evict_reserve b with Ret (_, b') => b' | Panic => sample_buf end
  | Panic => sample_buf
  end.

Lemma leaked_attempt accept : evict_attempt leaked_reserved 0 accept = Ret (false, leaked_reserved).
Proof. destruct accept; vm_compute; reflexivity. Qed.

(** C29: one spurious failure of [compare_exchange_weak] in [alloc] is enough for an eviction that never ends.  From a
    state that four operations reach, [alloc] with one spurious failure returns, and so does the reservation of an
    eviction; but then no number of rounds of its loop evicts the block, whatever the callback answers: every round
    returns, fails no assertion, and leaves the buffer as it was. *)
Theorem spurious_failure_hangs :
  ∃ s p b start finish b1, run (start_of sample_buf) recycling_ops = Some s ∧
    alloc (buf s) 128 [false] = Ret (inr p, b) ∧ evict_reserve b = Ret (Some (start, finish), b1) ∧
    (∀ accept, evict_attempt b1 start accept = Ret (false, b1)) ∧
    ∀ answers rounds, evict_loop b1 start answers rounds = Ret (false, b1).
Proof.
  exists (sample_of recycling_ops). eexists _, _, 0, _, leaked_reserved. split; [vm_compute; reflexivity|].
  split; [vm_compute; reflexivity|]. split; [vm_compute; reflexivity|]. split; [exact leaked_attempt|].
  intros answers rounds. revert answers. induction rounds as [|n IH]; intros answers; [done|]. cbn [evict_loop]. rewrite leaked_attempt. ret_step. apply IH.
Qed.
