(* ===== verification/Wal.v ===== *)
(** The write-ahead log (src/wal/mod.rs, src/wal/operations.rs): log records and their
    encoding, the buffer and its flush to the file, and the reader.

    The file is its bytes; a write past its end extends it with zeros.  The contents of a
    fresh buffer are whatever the allocator returns, so they are an argument.  Threads
    enter through one mutex: [append] is what [append_and_wait] does while it holds it, and
    [acknowledged] is the condition its last loop waits for. *)
From stdpp Require Import base numbers list option.
From Stdlib Require Import ZArith Lia.
From S2P Require Import Prelude LeafMeta.

(** ** Log records *)

(** The trait [LogEntryImpl]. *)
Class LogEntryImpl (E : Type) := {
  log_size : E → outcome Z;
  write_to_buffer : E → bytes → outcome bytes;
  read_from_buffer : bytes → outcome E;
}.

Record WriteOp := mkWriteOp { wkey : bytes; wvalue : bytes; wop_type : OpType }.

Definition make_insert (key value : bytes) : WriteOp := mkWriteOp key value OpInsert.
Definition make_delete (key : bytes) : WriteOp := mkWriteOp key [] OpDelete.

Definition WriteOp_log_size (e : WriteOp) : Z := 2 + 2 + 1 + zlen (wkey e) + zlen (wvalue e).

Definition WriteOp_write_to_buffer (e : WriteOp) (buffer : bytes) : outcome bytes :=
  _ ← assert_ (zlen buffer =? WriteOp_log_size e);
  b1 ← blit buffer 0 (le_bytes 2 (as_u16 (zlen (wkey e))));
  b2 ← blit b1 2 (le_bytes 2 (as_u16 (zlen (wvalue e))));
  b3 ← blit b2 4 [op_u8 (wop_type e)];
  let key_offset := 5 + zlen (wkey e) in
  b4 ← blit b3 5 (wkey e);
  _ ← assert_ (zlen b4 - key_offset =? zlen (wvalue e));
  blit b4 key_offset (wvalue e).

Definition WriteOp_read_from_buffer (buffer : bytes) : outcome WriteOp :=
  k ← slice buffer 0 2;
  v ← slice buffer 2 2;
  o ← slice buffer 4 1;
  op_type ← op_of_u8 (le_val o);
  key ← slice buffer 5 (le_val k);
  value ← slice_from buffer (5 + le_val k);
  _ ← assert_ (zlen value =? le_val v);
  Ret (mkWriteOp key value op_type).

#[export] Instance WriteOp_log : LogEntryImpl WriteOp := {
  log_size e := Ret (WriteOp_log_size e);
  write_to_buffer := WriteOp_write_to_buffer;
  read_from_buffer := WriteOp_read_from_buffer;
}.

Inductive LogEntry := Write (op : WriteOp) | Split.

Definition LogEntryTagVal_from (e : LogEntry) : Z := match e with Write _ => 0 | Split => 1 end.

(** [todo!()] panics. *)
Definition LogEntry_log_size (e : LogEntry) : outcome Z :=
  match e with Write op => Ret (1 + WriteOp_log_size op) | Split => Panic end.

Definition LogEntry_write_to_buffer (e : LogEntry) (buffer : bytes) : outcome bytes :=
  b ← blit buffer 0 [LogEntryTagVal_from e];
  match e with
  | Write op => rest ← slice_from b 1; r ← WriteOp_write_to_buffer op rest; Ret (take 1 b ++ r)
  | Split => Panic
  end.

Definition LogEntry_read_from_buffer (buffer : bytes) : outcome LogEntry :=
  t ← slice buffer 0 1;
  if le_val t =? 0 then rest ← slice_from buffer 1; op ← WriteOp_read_from_buffer rest; Ret (Write op)
  else if le_val t =? 1 then Ret Split
  else Panic.

#[export] Instance LogEntry_log : LogEntryImpl LogEntry := {
  log_size := LogEntry_log_size;
  write_to_buffer := LogEntry_write_to_buffer;
  read_from_buffer := LogEntry_read_from_buffer;
}.

(** ** Headers *)
Record LogHeader := mkLogHeader { log_len : Z; lsn : Z; page_offset : Z }.

Definition LogHeader_size : Z := 24.

Definition LogHeader_as_slice (h : LogHeader) : bytes :=
  le_bytes 8 (log_len h) ++ le_bytes 8 (lsn h) ++ le_bytes 8 (page_offset h).

Definition LogHeader_from_slice (buffer : bytes) : outcome LogHeader :=
  l ← slice buffer 0 8;
  n ← slice buffer 8 8;
  p ← slice buffer 16 8;
  Ret (mkLogHeader (le_val l) (le_val n) (le_val p)).

(** ** The log *)
Record WriteAheadLogInner := mkWal {
  buffer : bytes;
  file : bytes;
  buffer_cursor : Z;
  file_offset : Z;
  next_lsn : Z;
  flushed_lsn : Z;
  need_flush : bool;
}.

Definition buffer_size (w : WriteAheadLogInner) : Z := zlen (buffer w).

(** A log over an empty file; [mem] is the memory of the segment buffer. *)
Definition WriteAheadLog_new (mem : bytes) : WriteAheadLogInner := mkWal mem [] 0 0 0 0 false.

Definition file_write (f : bytes) (off : Z) (bs : bytes) : bytes :=
  splice (f ++ replicate (Z.to_nat (off + zlen bs - zlen f)) 0) off bs.

Definition clear_next_header (w : WriteAheadLogInner) : outcome WriteAheadLogInner :=
  if buffer_cursor w + 8 <=? buffer_size w then
    b ← blit (buffer w) (buffer_cursor w) (replicate 8 0);
    Ret (mkWal b (file w) (buffer_cursor w) (file_offset w) (next_lsn w) (flushed_lsn w) (need_flush w))
  else Ret w.

Definition should_inplace_flush (w : WriteAheadLogInner) : bool := buffer_cursor w <? buffer_size w / 2.

Definition flush (w : WriteAheadLogInner) : outcome WriteAheadLogInner :=
  if buffer_cursor w =? 0 then Ret w
  else
    w1 ← clear_next_header w;
    let f := file_write (file w1) (file_offset w1) (buffer w1) in
    let '(off, cur) := if should_inplace_flush w1 then (file_offset w1, buffer_cursor w1)
                       else (file_offset w1 + buffer_size w1, 0) in
    last ← subu (next_lsn w1) 1;
    Ret (mkWal (buffer w1) f cur off (next_lsn w1) last false).

Definition alloc_lsn (w : WriteAheadLogInner) : Z * WriteAheadLogInner :=
  (next_lsn w, mkWal (buffer w) (file w) (buffer_cursor w) (file_offset w) (next_lsn w + 1) (flushed_lsn w) (need_flush w)).

(** The slice [alloc_buffer] returns is the range [size] bytes from the old cursor. *)
Definition alloc_buffer (w : WriteAheadLogInner) (size : Z) : outcome (Z * WriteAheadLogInner) :=
  _ ← assert_ (buffer_cursor w + size <=? buffer_size w);
  Ret (buffer_cursor w, mkWal (buffer w) (file w) (buffer_cursor w + size) (file_offset w) (next_lsn w) (flushed_lsn w) (need_flush w)).

(** One pass of [append_and_wait] up to its waiting: [None] when the record does not fit and
    the caller starts over. *)
Definition append `{LogEntryImpl E} (w : WriteAheadLogInner) (e : E) (page_offset : Z) :
    outcome (option Z * WriteAheadLogInner) :=
  n ← log_size e;
  let required_bytes := LogHeader_size + n in
  remaining ← subu (buffer_size w) (buffer_cursor w);
  if remaining <? required_bytes then
    Ret (None, mkWal (buffer w) (file w) (buffer_cursor w) (file_offset w) (next_lsn w) (flushed_lsn w) true)
  else
    let '(l, w1) := alloc_lsn w in
    a ← alloc_buffer w1 required_bytes;
    let '(off, w2) := a in
    mem ← slice (buffer w2) off required_bytes;
    b1 ← blit mem 0 (LogHeader_as_slice (mkLogHeader required_bytes l page_offset));
    rest ← slice_from b1 LogHeader_size;
    r ← write_to_buffer e rest;
    b ← blit (buffer w2) off (take (Z.to_nat LogHeader_size) b1 ++ r);
    Ret (Some l, mkWal b (file w2) (buffer_cursor w2) (file_offset w2) (next_lsn w2) (flushed_lsn w2) (need_flush w2)).

(** The loop [while inner.flushed_lsn < lsn] has ended. *)
Definition acknowledged (w : WriteAheadLogInner) (l : Z) : bool := negb (flushed_lsn w <? l).

(** One turn of the background job; [elapsed] says whether the interval is over. *)
Definition background_flush_job (w : WriteAheadLogInner) (elapsed : bool) : outcome WriteAheadLogInner :=
  if need_flush w || elapsed then flush w else Ret w.

(** ** The reader *)

(** [WalEntryIter] over a segment, from [cur]. *)
Fixpoint entry_iter (data : bytes) (cur : Z) (fuel : nat) : outcome (list (LogHeader * bytes)) :=
  match fuel with
  | O => Panic
  | S fuel' =>
      if zlen data <=? cur + LogHeader_size then Ret []
      else
        s ← slice_from data cur;
        header ← LogHeader_from_slice s;
        if log_len header =? 0 then Ret []
        else
          let data_start := cur + LogHeader_size in
          data_end ← subu (data_start + log_len header) LogHeader_size;
          d ← slice data data_start (data_end - data_start);
          rest ← entry_iter data (cur + log_len header) fuel';
          Ret ((header, d) :: rest)
  end.

Definition read_segment (data : bytes) : outcome (list (LogHeader * bytes)) :=
  entry_iter data 0 (S (length data)).

(** [WalSegmentIter]: [read_exact_at] fails on a short file. *)
Fixpoint segment_iter (f : bytes) (segment_size cursor : Z) (fuel : nat) : outcome (list bytes) :=
  match fuel with
  | O => Panic
  | S fuel' =>
      if zlen f <=? cursor then Ret []
      else
        s ← slice f cursor segment_size;
        rest ← segment_iter f segment_size (cursor + segment_size) fuel';
        Ret (s :: rest)
  end.

(** All entries of a log file, segment by segment. *)
Definition read_log (f : bytes) (segment_size : Z) : outcome (list (LogHeader * bytes)) :=
  segs ← segment_iter f segment_size 0 (S (length f));
  es ← mapM read_segment segs;
  Ret (mjoin es).
