(* ===== verification/WalTheorems.v ===== *)
(** Correctness of the write-ahead log (Wal.v): records are read back as they were written,
    a flushed log file reads as the records appended so far, and what the acknowledgement
    of a record guarantees. *)
From stdpp Require Import base numbers list option.
From Stdlib Require Import ZArith Lia.
From S2P Require Import Prelude LeafMeta Wal.

(** ** Records *)

(** What the log needs of a kind of record: records that satisfy [ok] have an encoding
    that fills the buffer given and is read back. *)
Class LogEntrySound (E : Type) `{LogEntryImpl E} (ok : E → Prop) := {
  payload : E → bytes;
  payload_size e : ok e → log_size e = Ret (zlen (payload e)) ∧ 0 < zlen (payload e);
  payload_write e mem : ok e → zlen mem = zlen (payload e) → write_to_buffer e mem = Ret (payload e);
  payload_read e : ok e → read_from_buffer (payload e) = Ret e;
}.

(** The lengths fit the fields of the encoding. *)
Definition write_op_ok (e : WriteOp) : Prop := zlen (wkey e) < U16 ∧ zlen (wvalue e) < U16.

Definition write_op_bytes (e : WriteOp) : bytes :=
  le_bytes 2 (zlen (wkey e)) ++ le_bytes 2 (zlen (wvalue e)) ++ [op_u8 (wop_type e)] ++ wkey e ++ wvalue e.

Lemma zlen_le_bytes n z : zlen (le_bytes n z) = Z.of_nat n.
Proof. unfold zlen. by rewrite length_le_bytes. Qed.

Lemma splice_all d bs : zlen bs = zlen d → splice d 0 bs = bs.
Proof.
  unfold zlen, splice. intros Hl. cbn. rewrite drop_ge by lia. apply app_nil_r.
Qed.

Lemma sub_mid a m l off len : zlen a = off → zlen m = len → sub_bytes (a ++ m ++ l) off len = m.
Proof. intros <- <-. rewrite sub_skip by lia. by apply sub_head; [lia|]. Qed.

Lemma write_op_len e : zlen (write_op_bytes e) = WriteOp_log_size e.
Proof. unfold write_op_bytes, WriteOp_log_size. rewrite !zlen_app, !zlen_le_bytes, zlen_cons, zlen_nil. lia. Qed.

(** Consecutive copies to the front of a buffer. *)
Lemma blit_next d a b : zlen a + zlen b <= zlen d → blit (splice d 0 a) (zlen a) b = Ret (splice d 0 (a ++ b)).
Proof.
  intros Hl. pose proof (zlen_nonneg a). pose proof (zlen_nonneg b).
  rewrite blit_ok by (rewrite ?zlen_splice; lia). by rewrite <- (splice_app d 0) by lia.
Qed.

Lemma write_op_write e mem : write_op_ok e → zlen mem = WriteOp_log_size e →
  WriteOp_write_to_buffer e mem = Ret (write_op_bytes e).
Proof.
  intros [Hk Hv] Hm. unfold WriteOp_write_to_buffer. rewrite assert_true by (by apply Z.eqb_eq). ret_step.
  pose proof (zlen_nonneg (wkey e)). pose proof (zlen_nonneg (wvalue e)). rewrite !as_u16_id by lia.
  unfold WriteOp_log_size in Hm.
  set (k := le_bytes 2 (zlen (wkey e))). set (v := le_bytes 2 (zlen (wvalue e))).
  assert (zlen k = 2 ∧ zlen v = 2) as [Hk2 Hv2] by (split; apply zlen_le_bytes).
  rewrite blit_ok by lia. ret_step.
  rewrite <- Hk2, blit_next by lia. ret_step.
  replace 4 with (zlen (k ++ v)) by (rewrite zlen_app; lia).
  rewrite blit_next by (rewrite zlen_app, zlen_cons, zlen_nil; lia). ret_step.
  replace 5 with (zlen ((k ++ v) ++ [op_u8 (wop_type e)])) by (rewrite !zlen_app, zlen_cons, zlen_nil; lia).
  rewrite blit_next by (rewrite !zlen_app, zlen_cons, zlen_nil; lia). ret_step.
  rewrite <- zlen_app.
  assert (zlen (((k ++ v) ++ [op_u8 (wop_type e)]) ++ wkey e) = 5 + zlen (wkey e)) as H5
    by (rewrite !zlen_app, zlen_cons, zlen_nil; lia).
  rewrite assert_true by (apply Z.eqb_eq; rewrite zlen_splice; lia). ret_step.
  rewrite blit_next by (rewrite !zlen_app, zlen_cons, zlen_nil; lia).
  f_equal. rewrite splice_all by (rewrite !zlen_app, zlen_cons, zlen_nil; lia). unfold write_op_bytes.
  by rewrite <- !(assoc_L (++)).
Qed.

Lemma write_op_read e : write_op_ok e → WriteOp_read_from_buffer (write_op_bytes e) = Ret e.
Proof.
  intros [Hk Hv]. pose proof (write_op_len e) as Hl. unfold WriteOp_log_size in Hl. unfold write_op_bytes in *.
  pose proof (zlen_nonneg (wkey e)). pose proof (zlen_nonneg (wvalue e)).
  set (k := le_bytes 2 (zlen (wkey e))) in *. set (v := le_bytes 2 (zlen (wvalue e))) in *.
  assert (zlen k = 2 ∧ zlen v = 2) as [Hk2 Hv2] by (split; apply zlen_le_bytes).
  assert (le_val k = zlen (wkey e) ∧ le_val v = zlen (wvalue e)) as [Hlk Hlv]
    by (split; apply le_val_bytes; unfold U16 in *; cbn; lia).
  set (all := k ++ v ++ [op_u8 (wop_type e)] ++ wkey e ++ wvalue e) in *.
  assert (sub_bytes all 0 2 = k) as E0 by by apply sub_head.
  assert (sub_bytes all 2 2 = v) as E2 by by apply sub_mid.
  assert (all = (k ++ v) ++ [op_u8 (wop_type e)] ++ wkey e ++ wvalue e) as Ha1 by by rewrite <- (assoc_L (++)).
  assert (all = ((k ++ v) ++ [op_u8 (wop_type e)]) ++ wkey e ++ wvalue e) as Ha2 by by rewrite <- !(assoc_L (++)).
  assert (sub_bytes all 4 1 = [op_u8 (wop_type e)]) as E4.
  { rewrite Ha1. apply sub_mid; [rewrite zlen_app; lia|done]. }
  assert (zlen ((k ++ v) ++ [op_u8 (wop_type e)]) = 5) as H5 by (rewrite !zlen_app, zlen_cons, zlen_nil; lia).
  assert (sub_bytes all 5 (zlen (wkey e)) = wkey e) as E5 by (rewrite Ha2; by apply sub_mid).
  unfold WriteOp_read_from_buffer. rewrite !slice_ok by lia. ret_step. rewrite E0, Hlk. ret_step. ret_step.
  rewrite E2, E4, Hlv. cbn [le_val]. rewrite Z.mul_0_r, Z.add_0_r, op_of_u8_u8. ret_step.
  rewrite slice_ok by lia. ret_step. rewrite E5, slice_from_ok by lia. ret_step.
  rewrite Ha2, (assoc_L (++) _ (wkey e)), drop_app_length' by (unfold zlen in *; rewrite length_app; lia).
  rewrite assert_true by (by apply Z.eqb_eq). ret_step. by destruct e.
Qed.

#[export] Program Instance WriteOp_sound : LogEntrySound WriteOp write_op_ok := {
  payload := write_op_bytes;
}.
Next Obligation. intros e _. rewrite write_op_len. split; [done|]. unfold WriteOp_log_size. pose proof (zlen_nonneg (wkey e)). pose proof (zlen_nonneg (wvalue e)). lia. Qed.
Next Obligation. intros e mem Hok Hm. rewrite write_op_len in Hm. by apply write_op_write. Qed.
Next Obligation. apply write_op_read. Qed.

Definition log_entry_ok (e : LogEntry) : Prop := match e with Write op => write_op_ok op | Split => False end.

Definition log_entry_bytes (e : LogEntry) : bytes :=
  match e with Write op => 0 :: write_op_bytes op | Split => [] end.

#[export] Program Instance LogEntry_sound : LogEntrySound LogEntry log_entry_ok := {
  payload := log_entry_bytes;
}.
Next Obligation.
  intros [op|] Hok; [|done]. unfold log_size, LogEntry_log, LogEntry_log_size, log_entry_bytes. rewrite zlen_cons, write_op_len. split; [done|].
  unfold WriteOp_log_size. pose proof (zlen_nonneg (wkey op)). pose proof (zlen_nonneg (wvalue op)). lia.
Qed.
Next Obligation.
  intros [op|] mem Hok Hm; [|done]. unfold write_to_buffer, LogEntry_log, LogEntry_write_to_buffer, log_entry_bytes, LogEntryTagVal_from in *. rewrite zlen_cons in Hm.
  destruct mem as [|x mem]; [rewrite zlen_nil in Hm; pose proof (zlen_nonneg (write_op_bytes op)); lia|].
  rewrite zlen_cons in Hm. rewrite blit_ok by (unfold zlen; cbn [length]; lia).
  ret_step. change (splice (x :: mem) 0 [0]) with (0 :: mem).
  rewrite slice_from_ok by (rewrite ?zlen_cons; pose proof (zlen_nonneg mem); lia). ret_step.
  change (drop (Z.to_nat 1) (0 :: mem)) with mem. rewrite write_op_write; [done|done|]. rewrite write_op_len in Hm. lia.
Qed.
Next Obligation.
  intros [op|] Hok; [|done]. unfold read_from_buffer, LogEntry_log, LogEntry_read_from_buffer, log_entry_bytes. pose proof (zlen_nonneg (write_op_bytes op)).
  rewrite slice_ok by (rewrite ?zlen_cons; lia). ret_step. cbn [sub_bytes take drop le_val].
  change (sub_bytes (0 :: write_op_bytes op) 0 1) with [0]. cbn [le_val]. cbn [Z.eqb].
  rewrite slice_from_ok by (rewrite ?zlen_cons; lia). ret_step.
  change (drop (Z.to_nat 1) (0 :: write_op_bytes op)) with (write_op_bytes op). by rewrite write_op_read.
Qed.

(** A log record whose key and value are shorter than 64 KiB is encoded to its declared size and
    decoded to the same record. *)
Theorem log_record_roundtrip e mem :
  log_entry_ok e → log_size e = Ret (zlen mem) →
  ∃ bs, write_to_buffer e mem = Ret bs ∧ zlen bs = zlen mem ∧ read_from_buffer bs = Ret e.
Proof.
  intros Hok Hs. destruct (payload_size e Hok) as [Hp _]. rewrite Hs in Hp. injection Hp as Hp.
  exists (payload e). split_and!; [by apply payload_write|done|by apply payload_read].
Qed.

Lemma log_record_roundtrip_witness :
  ∃ bs, write_to_buffer (Write (make_insert [1; 2] [3])) (replicate 9 7) = Ret bs ∧
    read_from_buffer bs = Ret (Write (make_insert [1; 2] [3])).
Proof.
  destruct (log_record_roundtrip (Write (make_insert [1; 2] [3])) (replicate 9 7)) as (bs & H1 & _ & H2).
  - by split.
  - by vm_compute.
  - by exists bs.
Defined.

(** ** Segments *)
Definition U64 : Z := 2 ^ 64.

(** An entry of the log: its header and its payload. *)
Abbreviation entry := (LogHeader * bytes)%type.

Definition entry_ok (e : entry) : Prop :=
  log_len e.1 = LogHeader_size + zlen e.2 ∧ 0 < zlen e.2 ∧ log_len e.1 < U64 ∧
  0 <= lsn e.1 < U64 ∧ 0 <= page_offset e.1 < U64.

Definition encode (e : entry) : bytes := LogHeader_as_slice e.1 ++ e.2.

Definition image (es : list entry) : bytes := mjoin (encode <$> es).

Lemma zlen_header h : zlen (LogHeader_as_slice h) = LogHeader_size.
Proof. unfold LogHeader_as_slice. rewrite !zlen_app, !zlen_le_bytes. done. Qed.

Lemma zlen_encode e : entry_ok e → zlen (encode e) = log_len e.1.
Proof. intros (-> & _). unfold encode. by rewrite zlen_app, zlen_header. Qed.

Lemma header_read e l : entry_ok e → LogHeader_from_slice (encode e ++ l) = Ret e.1.
Proof.
  intros Hok. pose proof Hok as (Hl & Hp & Hb & Hn & Ho). unfold encode, LogHeader_as_slice, U64 in *.
  assert (256 ^ Z.of_nat 8 = 2 ^ 64) as H64 by done.
  assert (∀ z, zlen (le_bytes 8 z) = 8) as H8 by (intros; apply zlen_le_bytes).
  pose proof (zlen_nonneg l). pose proof (zlen_nonneg e.2). unfold LogHeader_size in Hl.
  set (a := le_bytes 8 (log_len e.1)). set (b := le_bytes 8 (lsn e.1)). set (c := le_bytes 8 (page_offset e.1)).
  rewrite <- !(assoc_L (++)). unfold LogHeader_from_slice.
  rewrite !slice_ok by (rewrite ?zlen_app, ?H8; unfold a, b, c; rewrite ?H8; lia). ret_step. ret_step. ret_step.
  rewrite sub_head by (done || apply H8). rewrite (sub_mid a b) by apply H8.
  rewrite (assoc_L (++) a b), (sub_mid (a ++ b) c) by (rewrite ?zlen_app; unfold a, b, c; rewrite ?H8; lia).
  unfold a, b, c. rewrite !le_val_bytes by lia. by destruct e as [[] ?].
Qed.

Lemma image_cons e es : image (e :: es) = encode e ++ image es.
Proof. done. Qed.

Lemma image_app es1 es2 : image (es1 ++ es2) = image es1 ++ image es2.
Proof. unfold image. by rewrite fmap_app, join_app. Qed.

Lemma image_length es : Forall entry_ok es → (length es <= length (image es))%nat.
Proof.
  induction 1 as [|e es He _ IH]; [done|]. rewrite image_cons, length_app.
  pose proof (zlen_encode e He). destruct He as (Hl & Hp & _). unfold zlen, LogHeader_size in *. cbn [length]. lia.
Qed.

(** Where the reader stops. *)
Definition stops (t : bytes) : Prop := zlen t <= LogHeader_size ∨ ∃ l, t = replicate 8 0 ++ l.

Lemma entry_iter_spec fuel pre es t :
  Forall entry_ok es → stops t → (length es < fuel)%nat →
  entry_iter (pre ++ image es ++ t) (zlen pre) fuel = Ret es.
Proof.
  revert pre es. induction fuel as [|fuel IH]; intros pre es Hok Hs Hf; [lia|]. cbn [entry_iter].
  rewrite !zlen_app. destruct es as [|e es].
  - change (image []) with (@nil Z). rewrite zlen_nil, app_nil_l.
    zcase (zlen pre + (0 + zlen t) <=? zlen pre + LogHeader_size); [done|].
    destruct Hs as [Hs|[l ->]]; [unfold LogHeader_size in *; lia|]. set (z := replicate 8 0) in *.
    assert (zlen z = 8) as Hz by done. rewrite zlen_app, Hz in E. unfold LogHeader_size in E.
    pose proof (zlen_nonneg pre). pose proof (zlen_nonneg l).
    rewrite slice_from_ok by (rewrite ?zlen_app; lia). ret_step. rewrite drop_app_length' by (unfold zlen; lia).
    unfold LogHeader_from_slice. rewrite !slice_ok by (rewrite ?zlen_app; lia).
    ret_step. ret_step. ret_step. rewrite sub_head by (done || lia). done.
  - apply Forall_cons_1 in Hok as [He Hok]. pose proof (zlen_encode e He) as Hle. pose proof He as (Hl & Hp & _).
    rewrite image_cons.
    pose proof (zlen_nonneg (image es)). pose proof (zlen_nonneg t). pose proof (zlen_nonneg pre). unfold LogHeader_size in *.
    rewrite zlen_app. zcase (zlen pre + (zlen (encode e) + zlen (image es) + zlen t) <=? zlen pre + 24); [lia|].
    rewrite slice_from_ok by (rewrite !zlen_app; lia). ret_step. rewrite drop_app_length' by (unfold zlen; lia).
    rewrite <- (assoc_L (++)), header_read by done. ret_step. zcase (log_len e.1 =? 0); [lia|].
    rewrite subu_ok by lia. ret_step. rewrite slice_ok by (rewrite ?zlen_app; lia). ret_step.
    assert (sub_bytes (pre ++ encode e ++ image es ++ t) (zlen pre + 24) (zlen pre + 24 + log_len e.1 - 24 - (zlen pre + 24)) = e.2) as ->.
    { unfold encode. rewrite <- (assoc_L (++)), (assoc_L (++) pre). apply sub_mid; [rewrite zlen_app, zlen_header; unfold LogHeader_size; lia|lia]. }
    rewrite <- Hle, <- zlen_app, (assoc_L (++) pre). rewrite (IH (pre ++ encode e) es Hok Hs) by (cbn in Hf; lia).
    ret_step. by destruct e.
Qed.

Lemma read_segment_spec es t : Forall entry_ok es → stops t → read_segment (image es ++ t) = Ret es.
Proof.
  intros Hok Hs. unfold read_segment. apply (entry_iter_spec _ [] es t Hok Hs).
  pose proof (image_length es Hok). rewrite length_app. lia.
Qed.

(** A segment of the file that holds the entries [es]. *)
Definition segment_of (size : Z) (es : list entry) (s : bytes) : Prop :=
  zlen s = size ∧ Forall entry_ok es ∧ ∃ t, s = image es ++ t ∧ stops t.

Lemma segment_iter_spec size fuel pre segs :
  0 < size → Forall (λ s, zlen s = size) segs → (length segs < fuel)%nat →
  segment_iter (pre ++ mjoin segs) size (zlen pre) fuel = Ret segs.
Proof.
  intros Hs. revert pre segs. induction fuel as [|fuel IH]; intros pre segs Hok Hf; [lia|].
  cbn [segment_iter]. rewrite zlen_app. destruct Hok as [|s segs Hl Hok].
  - change (mjoin []) with (@nil Z). zcase (zlen pre + zlen (@nil Z) <=? zlen pre); [done|]. rewrite zlen_nil in *. lia.
  - change (mjoin (s :: segs)) with (s ++ mjoin segs). pose proof (zlen_nonneg (mjoin segs)). pose proof (zlen_nonneg pre).
    rewrite zlen_app. zcase (zlen pre + (zlen s + zlen (mjoin segs)) <=? zlen pre); [lia|].
    rewrite slice_ok by (rewrite ?zlen_app; lia). ret_step. rewrite sub_mid by done.
    rewrite <- Hl at 2. rewrite <- zlen_app, (assoc_L (++) pre). rewrite IH by (done || cbn in Hf; lia). done.
Qed.

Lemma join_length size (segs : list bytes) : 0 < size → Forall (λ s, zlen s = size) segs → (length segs <= length (mjoin segs))%nat.
Proof.
  intros Hs. induction 1 as [|s segs Hl _ IH]; [done|]. change (mjoin (s :: segs)) with (s ++ mjoin segs).
  rewrite length_app. unfold zlen in Hl. cbn [length]. lia.
Qed.

Lemma segments_read size parts segs :
  Forall2 (segment_of size) parts segs → mapM read_segment segs = Ret parts.
Proof.
  induction 1 as [|es s parts segs (_ & Hok & t & -> & Ht) _ IH]; [done|].
  cbn [mapM]. rewrite read_segment_spec by done. ret_step. rewrite IH. done.
Qed.

Lemma segments_sized size parts segs :
  Forall2 (segment_of size) parts segs → Forall (λ s, zlen s = size) segs.
Proof. induction 1 as [|es s parts segs (Hl & _) _ IH]; by constructor. Qed.

Lemma read_log_spec size parts segs :
  0 < size → Forall2 (segment_of size) parts segs → read_log (mjoin segs) size = Ret (mjoin parts).
Proof.
  intros Hs H. unfold read_log. pose proof (segments_sized _ _ _ H) as Hz.
  rewrite (segment_iter_spec size _ [] segs) by (done || pose proof (join_length size segs Hs Hz); lia).
  ret_step. rewrite (segments_read _ _ _ H). done.
Qed.

Lemma file_write_end f size bs : zlen bs = size → file_write f (zlen f) bs = f ++ bs.
Proof.
  intros Hb. unfold file_write, splice, zlen in *. rewrite !Nat2Z.id.
  rewrite take_app_length, drop_ge, app_nil_r; [done|]. rewrite length_app, length_replicate. lia.
Qed.

Lemma file_write_last f s bs : zlen s = zlen bs → file_write (f ++ s) (zlen f) bs = f ++ bs.
Proof.
  intros Hb. unfold file_write, splice, zlen in *. rewrite !length_app.
  replace (Z.to_nat (Z.of_nat (length f) + Z.of_nat (length bs) - Z.of_nat (length f + length s))) with 0%nat by lia. cbn [replicate]. rewrite app_nil_r, !Nat2Z.id, take_app_length, drop_ge; [by rewrite app_nil_r|].
  rewrite length_app. lia.
Qed.

(** ** The invariant of the log *)

(** [closed]: the entries of the segments the buffer has left; [cur]: the entries in the
    buffer; [d]: how many of them the file has; [part]: their segment of the file, if any. *)
Record WalInv (size : Z) (w : WriteAheadLogInner) (closed : list (list entry)) (cur : list entry)
    (d : nat) (part : list (list entry)) (segs : list bytes) : Prop := {
  wi_size : zlen (buffer w) = size;
  wi_cur : Forall entry_ok cur;
  wi_buffer : ∃ t, buffer w = image cur ++ t;
  wi_cursor : buffer_cursor w = zlen (image cur);
  wi_file : file w = mjoin segs;
  wi_segs : Forall2 (segment_of size) (closed ++ part) segs;
  wi_offset : file_offset w = size * Z.of_nat (length closed);
  wi_d : (d <= length cur)%nat;
  wi_part : part = [] ∧ d = 0%nat ∨ part = [take d cur];
  wi_next : next_lsn w = Z.of_nat (length (mjoin closed ++ cur));
  wi_flushed : flushed_lsn w = Z.max 0 (Z.of_nat (length (mjoin closed) + d) - 1);
  wi_lsn : ∀ i e, (mjoin closed ++ cur) !! i = Some e → lsn e.1 = Z.of_nat i;
}.

Lemma join_sized size (segs : list bytes) :
  Forall (λ s, zlen s = size) segs → zlen (mjoin segs) = size * Z.of_nat (length segs).
Proof.
  induction 1 as [|s segs Hl _ IH]; [by rewrite Z.mul_0_r|]. change (mjoin (s :: segs)) with (s ++ mjoin segs).
  rewrite zlen_app, IH, Hl. cbn [length]. lia.
Qed.

(** The durable entries are a prefix of the log, and the file reads as them. *)
Lemma inv_read size w closed cur d part segs :
  0 < size → WalInv size w closed cur d part segs →
  read_log (file w) size = Ret (take (length (mjoin closed) + d) (mjoin closed ++ cur)).
Proof.
  intros Hs [? ? ? ? Hf Hsg ? Hd Hp ? ? ?]. rewrite Hf, (read_log_spec _ _ _ Hs Hsg). f_equal.
  rewrite take_app_add, join_app. f_equal. destruct Hp as [[-> ->]| ->]; [done|]. apply app_nil_r.
Qed.

(** The flush clears the header behind the entries, so that the reader stops there. *)
Lemma clear_next_header_spec size w closed cur d part segs :
  WalInv size w closed cur d part segs →
  ∃ b, clear_next_header w =
      Ret (mkWal b (file w) (buffer_cursor w) (file_offset w) (next_lsn w) (flushed_lsn w) (need_flush w)) ∧
    segment_of size cur b.
Proof.
  intros [Hz Hok [t Hb] Hc _ _ _ _ _ _ _ _]. unfold clear_next_header, buffer_size.
  pose proof (zlen_nonneg (image cur)). rewrite Hb in Hz |- *. rewrite zlen_app in *.
  zcase (buffer_cursor w + 8 <=? zlen (image cur) + zlen t).
  - rewrite blit_ok by (rewrite ?zlen_app; change (zlen (replicate 8 0)) with 8; lia). ret_step.
    eexists. split; [done|]. split; [by rewrite zlen_splice by (rewrite ?zlen_app; change (zlen (replicate 8 0)) with 8; lia); rewrite zlen_app|].
    split; [done|]. exists (replicate 8 0 ++ drop 8 t). split; [|right; eauto].
    unfold splice. rewrite Hc. unfold zlen. rewrite Nat2Z.id, take_app_length. do 2 f_equal.
    rewrite drop_app_ge by lia. f_equal. rewrite length_replicate. lia.
  - exists (buffer w). split; [by destruct w|]. rewrite Hb. split; [by rewrite zlen_app|]. split; [done|].
    exists t. split; [done|]. left. unfold LogHeader_size. lia.
Qed.

Lemma flush_inv size w closed cur d part segs :
  0 < size → WalInv size w closed cur d part segs →
  ∃ w' closed' cur' d' part' segs', flush w = Ret w' ∧ WalInv size w' closed' cur' d' part' segs' ∧
    mjoin closed' ++ cur' = mjoin closed ++ cur ∧
    (length (mjoin closed') + d' = length (mjoin closed ++ cur))%nat.
Proof.
  intros Hs Hinv. destruct (clear_next_header_spec _ _ _ _ _ _ _ Hinv) as (b & Hcl & Hseg).
  pose proof Hinv as [Hz Hok [t Hb] Hc Hf Hsg Ho Hd Hp Hn Hfl Hl]. unfold flush.
  zcase (buffer_cursor w =? 0).
  { assert (cur = []) as ->.
    { pose proof (image_length cur Hok) as Hi. unfold zlen in Hc. destruct cur; [done|]. cbn [length] in Hi. lia. }
    exists w, closed, [], d, part, segs. split_and!; [done|done|done|]. rewrite length_app. cbn in *. lia. }
  rewrite Hcl. ret_step. cbn [file file_offset buffer buffer_cursor next_lsn].
  pose proof Hsg as Hsg2. apply Forall2_app_inv_l in Hsg2 as (cs & ps & Hcs & Hps & ->).
  assert (zlen (mjoin cs) = size * Z.of_nat (length closed)) as Hcz.
  { rewrite (join_sized size) by (by eapply segments_sized). by rewrite (Forall2_length Hcs). }
  assert (file_write (file w) (file_offset w) b = mjoin (cs ++ [b])) as ->.
  { destruct Hseg as [Hbz _]. rewrite Hf, !join_app, Ho, <- Hcz. change (mjoin [b]) with (b ++ []). rewrite app_nil_r.
    destruct Hp as [[-> ->]| ->].
    - apply Forall2_nil_inv_l in Hps as ->. change (mjoin []) with (@nil Z). rewrite app_nil_r. by apply (file_write_end _ size).
    - apply Forall2_cons_inv_l in Hps as (s & ? & [Hsz _] & ->%Forall2_nil_inv_l & ->).
      change (mjoin [s]) with (s ++ []). rewrite app_nil_r. apply file_write_last. congruence. }
  assert (Forall2 (segment_of size) (closed ++ [cur]) (cs ++ [b])) as Hall by (apply Forall2_app; [done|]; by constructor; [|constructor]).
  assert (cur ≠ []) as Hne by (intros ->; by rewrite Hc in E).
  assert (0 < next_lsn w) as Hpos by (rewrite Hn, length_app; destruct cur; [done|cbn [length]; lia]).
  unfold should_inplace_flush. cbn [buffer_cursor buffer_size buffer file_offset].
  destruct (buffer_cursor w <? buffer_size _ / 2); rewrite subu_ok by lia; ret_step.
  - eexists _, closed, cur, (length cur), [cur], (cs ++ [b]). split_and!; [done| |done|by rewrite length_app].
    split; try done; cbn.
    + apply Hseg.
    + destruct Hseg as (_ & _ & t' & -> & _). by exists t'.
    + right. by rewrite firstn_all.
    + rewrite Hn, <- length_app. lia.
  - eexists _, (closed ++ [cur]), [], 0%nat, [], (cs ++ [b]).
    assert (mjoin (closed ++ [cur]) = mjoin closed ++ cur) as Hj by (rewrite join_app; change (mjoin [cur]) with (cur ++ []); by rewrite app_nil_r).
    split_and!; [done| |by rewrite Hj, app_nil_r|rewrite Hj; lia].
    split; try done; cbn; rewrite ?Hj, ?app_nil_r; try done.
    + apply Hseg.
    + by exists b.
    + rewrite Ho, length_app. unfold buffer_size. cbn. destruct Hseg as [-> _]. lia.
    + by left.
    + rewrite Hn. lia.
Qed.

(** ** Runs of the log *)
Section runs.
Context {E : Type} `{Hsound : LogEntrySound E ok}.

(** The steps of the log: a worker appends a record, the background job takes its turn. *)
Inductive wal_op := OAppend (e : E) (page_offset : Z) | OFlushJob (elapsed : bool).

Definition wal_op_ok (o : wal_op) : Prop := match o with OAppend e p => ok e ∧ 0 <= p < U64 | OFlushJob _ => True end.

(** A run keeps the records accepted, with the number each was given. *)
Definition wal_step (s : WriteAheadLogInner * list (Z * Z * E)) (o : wal_op) :
    outcome (WriteAheadLogInner * list (Z * Z * E)) :=
  match o with
  | OAppend e p =>
      r ← append s.1 e p;
      Ret (r.2, match r.1 with Some l => s.2 ++ [(l, p, e)] | None => s.2 end)
  | OFlushJob elapsed => w ← background_flush_job s.1 elapsed; Ret (w, s.2)
  end.

Fixpoint wal_run (s : WriteAheadLogInner * list (Z * Z * E)) (os : list wal_op) :
    outcome (WriteAheadLogInner * list (Z * Z * E)) :=
  match os with
  | [] => Ret s
  | o :: os' => s' ← wal_step s o; wal_run s' os'
  end.

Definition to_entry (r : Z * Z * E) : entry :=
  (mkLogHeader (LogHeader_size + zlen (payload r.2)) r.1.1 r.1.2, payload r.2).

(** What the reader returns for a record. *)
Definition reads_as (x : entry) (r : Z * Z * E) : Prop :=
  lsn x.1 = r.1.1 ∧ page_offset x.1 = r.1.2 ∧ read_from_buffer x.2 = Ret r.2.

Lemma append_inv size w closed cur d part segs e p :
  ok e → 0 <= p < U64 → size < U64 → next_lsn w < U64 → WalInv size w closed cur d part segs →
  (∃ w', append w e p = Ret (None, w') ∧ WalInv size w' closed cur d part segs ∧ next_lsn w' = next_lsn w ∧
    buffer_size w - buffer_cursor w < LogHeader_size + zlen (payload e)) ∨
  (∃ w', append w e p = Ret (Some (next_lsn w), w') ∧ next_lsn w' = next_lsn w + 1 ∧
    file w' = file w ∧ flushed_lsn w' = flushed_lsn w ∧
    WalInv size w' closed (cur ++ [to_entry (next_lsn w, p, e)]) d part segs).
Proof.
  intros Hok Hpo Hsz Hlsn Hinv. destruct (payload_size e Hok) as [Hps Hp0].
  pose proof Hinv as [Hz Hcok [t Hb] Hc Hf Hsg Ho Hd Hp Hn Hfl Hl]. unfold append. rewrite Hps. ret_step.
  pose proof (zlen_nonneg (image cur)) as Hi0. unfold buffer_size. rewrite Hb in Hz. rewrite zlen_app in Hz.
  pose proof (zlen_nonneg t) as Ht0. rewrite subu_ok by (rewrite Hb, zlen_app; lia). ret_step.
  set (req := LogHeader_size + zlen (payload e)). assert (0 < LogHeader_size) by done.
  zcase (zlen (buffer w) - buffer_cursor w <? req).
  { left. eexists. split_and!; [done| |done|done]. split; try done; cbn; try done; [by rewrite Hb, zlen_app|by exists t]. }
  right. unfold alloc_buffer, alloc_lsn, buffer_size. cbn [buffer buffer_cursor].
  rewrite Hb, zlen_app in E0. rewrite assert_true by (apply Z.leb_le; rewrite Hb, zlen_app; lia). ret_step. ret_step.
  cbn [buffer buffer_cursor file file_offset next_lsn flushed_lsn need_flush].
  rewrite slice_ok by (rewrite ?Hb, ?zlen_app; unfold req in *; lia). ret_step.
  set (h := LogHeader_as_slice (mkLogHeader req (next_lsn w) p)).
  assert (zlen h = LogHeader_size) as Hh by apply zlen_header.
  assert (zlen (sub_bytes (buffer w) (buffer_cursor w) req) = req) as Hm
    by (rewrite zlen_sub; rewrite ?Hb, ?zlen_app; unfold req in *; lia).
  rewrite blit_ok by (rewrite ?Hm; unfold req; lia). ret_step.
  rewrite slice_from_ok by (rewrite zlen_splice; rewrite ?Hm; unfold req; lia). ret_step.
  rewrite (payload_write e) by (done || (rewrite zlen_drop; rewrite zlen_splice; rewrite ?Hm; unfold req; lia)). ret_step.
  assert (take (Z.to_nat LogHeader_size) (splice (sub_bytes (buffer w) (buffer_cursor w) req) 0 h) = h) as ->.
  { unfold splice. change (take (Z.to_nat 0) ?l) with (@nil Z). rewrite app_nil_l. apply take_app_length'. unfold zlen in Hh. lia. }
  change (h ++ payload e) with (encode (to_entry (next_lsn w, p, e))).
  set (x := to_entry (next_lsn w, p, e)).
  assert (entry_ok x) as Hx.
  { unfold entry_ok, x, to_entry, req in *. cbn. split_and!; try lia. }
  assert (zlen (encode x) = req) as Hex by by rewrite zlen_encode. assert (lsn x.1 = next_lsn w) as Hxl by done.
  rewrite blit_ok by (rewrite ?Hb, ?zlen_app, ?Hex; lia). ret_step.
  eexists. split_and!; [done..|]. clearbody x. split; cbn [buffer file buffer_cursor file_offset next_lsn flushed_lsn need_flush]; try done.
  - rewrite zlen_splice; rewrite ?Hb, ?zlen_app, ?Hex; lia.
  - by apply Forall_app_2; [|constructor].
  - rewrite image_app, Hb, Hc. exists (drop (length (encode x)) t). unfold splice, zlen.
    rewrite Nat2Z.id, take_app_length. change (image [x]) with (encode x ++ []). rewrite app_nil_r, <- (assoc_L (++)).
    do 2 f_equal. rewrite drop_app_ge by lia. f_equal. lia.
  - rewrite image_app, zlen_app. change (image [x]) with (encode x ++ []). rewrite app_nil_r. lia.
  - rewrite length_app. lia.
  - rewrite take_app_le by done. done.
  - rewrite Hn, (assoc_L (++)), (length_app _ [x]). cbn [length]. lia.
  - intros i y. rewrite (assoc_L (++)). intros [Hy|[Hi Hy]]%lookup_app_Some; [by apply Hl|].
    apply list_lookup_singleton_Some in Hy as [Hi' <-]. lia.
Qed.
(** The state of a run: the invariant, over the entries of the records accepted. *)
Definition run_inv (size : Z) (s : WriteAheadLogInner * list (Z * Z * E)) : Prop :=
  Forall (λ r, ok r.2) s.2 ∧
  ∃ closed cur d part segs, WalInv size s.1 closed cur d part segs ∧ mjoin closed ++ cur = to_entry <$> s.2.

Lemma start_run_inv mem : run_inv (zlen mem) (WriteAheadLog_new mem, []).
Proof.
  split; [constructor|]. exists [], [], 0%nat, [], []. split; [|done].
  split; try done; cbn; [by exists mem|lia|by left].
Qed.

Lemma wal_step_inv size s o :
  0 < size → size < U64 → wal_op_ok o → next_lsn s.1 < U64 → run_inv size s →
  ∃ s', wal_step s o = Ret s' ∧ run_inv size s' ∧ next_lsn s.1 <= next_lsn s'.1 <= next_lsn s.1 + 1.
Proof.
  intros Hs Hsz Hok Hn (Hlog & closed & cur & d & part & segs & Hinv & Hr). destruct s as [w log]; cbn [fst snd] in *.
  destruct o as [e p|elapsed]; cbn [wal_step fst snd].
  - destruct Hok as [Hok Hp].
    destruct (append_inv size w _ _ _ _ _ e p Hok Hp Hsz Hn Hinv) as [(w' & -> & Hi & Hl & _)|(w' & -> & Hl & _ & _ & Hi)]; ret_step.
    + eexists. split; [done|]. split; [|cbn; lia]. split; [done|]. by exists closed, cur, d, part, segs.
    + eexists. split; [done|]. split; [|cbn; lia]. split; [by apply Forall_app_2; [|constructor]|].
      eexists closed, _, d, part, segs. split; [done|]. change (_.2) with (log ++ [(next_lsn w, p, e)]). by rewrite (assoc_L (++)), Hr, fmap_app.
  - unfold background_flush_job. destruct (_ || _).
    + destruct (flush_inv size w _ _ _ _ _ Hs Hinv) as (w' & c' & u' & d' & p' & s' & -> & Hi & He & _). ret_step.
      eexists. split; [done|]. split; [split; [done|]; exists c', u', d', p', s'; split; [done|by rewrite He]|].
      cbn. rewrite (wi_next _ _ _ _ _ _ _ Hi), (wi_next _ _ _ _ _ _ _ Hinv), He. lia.
    + ret_step. eexists. split; [done|]. split; [|cbn; lia]. split; [done|]. by exists closed, cur, d, part, segs.
Qed.

Lemma wal_run_inv size s os :
  0 < size → size < U64 → Forall wal_op_ok os → next_lsn s.1 + Z.of_nat (length os) < U64 → run_inv size s →
  ∃ s', wal_run s os = Ret s' ∧ run_inv size s'.
Proof.
  intros Hs Hsz Hok. revert s. induction Hok as [|o os Ho _ IH]; intros s Hn Hinv; [by exists s|].
  cbn [length wal_run] in *. destruct (wal_step_inv size s o) as (s1 & -> & H1 & Hn1); [done|done|done|lia|done|].
  ret_step. apply IH; [lia|done].
Qed.

Lemma entries_read rs : Forall (λ r, ok r.2) rs → Forall2 reads_as (to_entry <$> rs) rs.
Proof.
  induction 1 as [|r rs Hr _ IH]; constructor; [|done]. split_and!; [done..|]. by apply payload_read.
Qed.

(** What the file reads as, in a state of a run. *)
Lemma run_inv_read size s :
  0 < size → run_inv size s →
  ∃ n es, read_log (file s.1) size = Ret es ∧ (n <= length s.2)%nat ∧ Forall2 reads_as es (take n s.2) ∧
    flushed_lsn s.1 = Z.max 0 (Z.of_nat n - 1).
Proof.
  intros Hs (Hlog & closed & cur & d & part & segs & Hinv & Hr). exists (length (mjoin closed) + d)%nat.
  rewrite (inv_read _ _ _ _ _ _ _ Hs Hinv), Hr. eexists. split; [done|]. split; [|split].
  - apply (f_equal length) in Hr. rewrite length_app, length_fmap in Hr. pose proof (wi_d _ _ _ _ _ _ _ Hinv). lia.
  - rewrite <- fmap_take. apply entries_read. by apply Forall_take.
  - apply (wi_flushed _ _ _ _ _ _ _ Hinv).
Qed.

Lemma run_inv_lsn size s i r : run_inv size s → s.2 !! i = Some r → r.1.1 = Z.of_nat i.
Proof.
  intros (Hlog & closed & cur & d & part & segs & Hinv & Hr) Hi.
  apply (wi_lsn _ _ _ _ _ _ _ Hinv i (to_entry r)). rewrite Hr, list_lookup_fmap, Hi. done.
Qed.

Lemma run_inv_flush size s :
  0 < size → run_inv size s →
  ∃ w', flush s.1 = Ret w' ∧ read_log (file w') size = Ret (to_entry <$> s.2) ∧ Forall2 reads_as (to_entry <$> s.2) s.2.
Proof.
  intros Hs (Hlog & closed & cur & d & part & segs & Hinv & Hr).
  destruct (flush_inv size _ _ _ _ _ _ Hs Hinv) as (w' & c' & u' & d' & p' & s' & -> & Hi & He & Hl).
  eexists. split; [done|]. rewrite (inv_read _ _ _ _ _ _ _ Hs Hi), Hl, He, firstn_all, Hr.
  split; [done|]. by apply entries_read.
Qed.
End runs.

(** C32: the log is durable.  From a fresh log with a segment buffer of any size, every sequence of
    appends and turns of the background job runs to its end without a panic; records are numbered
    in the order they were accepted; the log file read back segment by segment is a prefix of the
    records accepted, in order, each decoded to the record written; a record whose number is
    acknowledged (and is not 0) is in the file; and after a flush the file holds all of them. *)
Theorem wal_durable {E : Type} `{Hsound : LogEntrySound E ok} (mem : bytes) (os : list (wal_op (E := E))) :
  0 < zlen mem < U64 → Forall (wal_op_ok (ok := ok)) os → Z.of_nat (length os) < U64 →
  ∃ w log n es, wal_run (WriteAheadLog_new mem, []) os = Ret (w, log) ∧
    (∀ i r, log !! i = Some r → r.1.1 = Z.of_nat i) ∧
    read_log (file w) (zlen mem) = Ret es ∧ (n <= length log)%nat ∧ Forall2 reads_as es (take n log) ∧
    (∀ l, 0 < l → acknowledged w l = true → l < Z.of_nat n) ∧
    ∃ w' es', flush w = Ret w' ∧ read_log (file w') (zlen mem) = Ret es' ∧ Forall2 reads_as es' log.
Proof.
  intros [Hm1 Hm2] Hok Hl.
  destruct (wal_run_inv (zlen mem) (WriteAheadLog_new mem, []) os Hm1 Hm2 Hok Hl (start_run_inv mem)) as ([w log] & Hr & Hinv).
  destruct (run_inv_read _ _ Hm1 Hinv) as (n & es & He & Hn & Hf & Hfl). cbn [fst snd] in *.
  exists w, log, n, es. split_and!; try done.
  - intros i r. apply (run_inv_lsn _ _ _ _ Hinv).
  - unfold acknowledged. intros l Hl0 Ha. zbool. lia.
  - destruct (run_inv_flush _ (w, log) Hm1 Hinv) as (w' & H1 & H2 & H3). by exists w', (to_entry <$> log).
Qed.

Definition wal_sample : list (wal_op (E := WriteOp)) :=
  [OAppend (make_insert [1; 2] [3]) 512; OFlushJob true; OAppend (make_delete [1; 2]) 512;
   OAppend (make_insert [5] [6]) 1024; OFlushJob false; OFlushJob true].

Lemma wal_durable_witness :
  ∃ w log, wal_run (WriteAheadLog_new (replicate 90 7), []) wal_sample = Ret (w, log) ∧ length log = 2%nat ∧
    ∃ n es, read_log (file w) 90 = Ret es ∧ Forall2 reads_as es (take n log) ∧ acknowledged w 1 = true ∧ 1 < Z.of_nat n.
Proof.
  destruct (wal_durable (replicate 90 7) wal_sample) as (w & log & n & es & Hr & _ & He & _ & Hf & Ha & _).
  - by vm_compute.
  - unfold wal_sample. repeat (apply Forall_cons_2; [by vm_compute|]). apply Forall_nil_2.
  - by vm_compute.
  - exists w, log. split; [done|].
    assert (length log = 2%nat ∧ acknowledged w 1 = true) as [Hl Hk].
    { revert Hr. vm_compute. intros [= <- <-]. by split. }
    split; [done|]. exists n, es. split_and!; [done|done|done|]. by apply Ha.
Defined.

(** A record that does not fit behind the entries of a buffer less than half full. *)
Definition stuck (w : WriteAheadLogInner) (req : Z) : Prop :=
  0 < buffer_cursor w < buffer_size w / 2 ∧ buffer_size w - buffer_cursor w < req ∧ 0 < next_lsn w.

Lemma flush_stuck w req : stuck w req → ∃ w', flush w = Ret w' ∧ stuck w' req ∧ next_lsn w' = next_lsn w.
Proof.
  intros ([H1 H2] & H3 & H4). unfold flush, stuck, buffer_size in *. zcase (buffer_cursor w =? 0); [lia|].
  assert (∃ b, clear_next_header w =
    Ret (mkWal b (file w) (buffer_cursor w) (file_offset w) (next_lsn w) (flushed_lsn w) (need_flush w)) ∧
    zlen b = zlen (buffer w)) as (b & -> & Hb).
  { unfold clear_next_header, buffer_size. zcase (buffer_cursor w + 8 <=? zlen (buffer w)).
    - rewrite blit_ok by (change (zlen (replicate 8 0)) with 8; lia). ret_step. eexists. split; [done|].
      apply zlen_splice; change (zlen (replicate 8 0)) with 8; lia.
    - exists (buffer w). split; [by destruct w|done]. }
  ret_step. unfold should_inplace_flush, buffer_size. cbn [buffer buffer_cursor file file_offset next_lsn].
  rewrite Hb. zcase (buffer_cursor w <? zlen (buffer w) / 2); [|lia].
  rewrite subu_ok by lia. ret_step. eexists. split; [done|]. cbn. rewrite Hb. done.
Qed.

Lemma append_stuck w e p req :
  log_size e = Ret (req - LogHeader_size) → stuck w req →
  ∃ w', append w e p = Ret (None, w') ∧ stuck w' req ∧ need_flush w' = true.
Proof.
  intros Hs ([H1 H2] & H3 & H4). unfold append, stuck, buffer_size in *. rewrite Hs. ret_step.
  rewrite subu_ok by (pose proof (zlen_nonneg (buffer w)); pose proof (Z.div_le_upper_bound (zlen (buffer w)) 2 (zlen (buffer w))); lia).
  ret_step. zcase (zlen (buffer w) - buffer_cursor w <? LogHeader_size + (req - LogHeader_size)); [|lia].
  eexists. split; [done|]. done.
Qed.

(** C33: a record that does not fit behind the entries of a buffer less than half full is never
    accepted, however often its worker retries and the background job flushes: the flush is in
    place, so the room never grows. *)
Theorem wal_retry_forever (w : WriteAheadLogInner) (log : list (Z * Z * LogEntry)) e p n k :
  log_size e = Ret n → stuck w (LogHeader_size + n) →
  ∃ w', wal_run (w, log) (mjoin (replicate k [OAppend e p; OFlushJob false])) = Ret (w', log) ∧
    stuck w' (LogHeader_size + n).
Proof.
  intros Hn. revert w. induction k as [|k IH]; intros w Hs; [by exists w|].
  change (mjoin (replicate (S k) ?l)) with (l ++ mjoin (replicate k l)). cbn [app wal_run wal_step fst snd].
  destruct (append_stuck w e p (LogHeader_size + n)) as (w1 & -> & H1 & Hf); [by rewrite Hn; f_equal; lia|done|].
  ret_step. ret_step. cbn [fst snd]. unfold background_flush_job. rewrite Hf. cbn [orb].
  destruct (flush_stuck w1 _ H1) as (w2 & -> & H2 & _). ret_step. ret_step. by apply IH.
Qed.

Lemma wal_retry_forever_witness :
  ∃ w w', wal_run (WriteAheadLog_new (replicate 80 0), []) [OAppend (Write (make_insert [1] [2])) 0] = Ret (w, [(0, 0, Write (make_insert [1] [2]))]) ∧
    24 + 46 <= zlen (buffer w) ∧
    wal_run (w, [(0, 0, Write (make_insert [1] [2]))])
      (mjoin (replicate 100 [OAppend (Write (make_insert (replicate 40 9) [])) 0; OFlushJob false])) =
      Ret (w', [(0, 0, Write (make_insert [1] [2]))]).
Proof.
  eexists. destruct (wal_retry_forever
    (match wal_run (WriteAheadLog_new (replicate 80 0), []) [OAppend (Write (make_insert [1] [2])) 0] with
     | Ret s => s.1 | Panic => WriteAheadLog_new [] end)
    [(0, 0, Write (make_insert [1] [2]))] (Write (make_insert (replicate 40 9) [])) 0 46 100) as (w' & Hw & _).
  - by vm_compute.
  - by vm_compute.
  - exists w'. split_and!; [vm_compute; reflexivity|by vm_compute|]. exact Hw.
Defined.

(** C34: the first record of a log is acknowledged before anything is written to the file. *)
Theorem wal_first_ack (mem : bytes) (e : LogEntry) p n :
  log_entry_ok e → 0 <= p < U64 → log_size e = Ret n → LogHeader_size + n <= zlen mem < U64 →
  ∃ w, append (WriteAheadLog_new mem) e p = Ret (Some 0, w) ∧ acknowledged w 0 = true ∧ file w = [].
Proof.
  intros Hok Hp Hn [Hm1 Hm2]. destruct (payload_size e Hok) as [Hs Hp0]. rewrite Hn in Hs. injection Hs as ->.
  destruct (start_run_inv (E := LogEntry) mem) as (_ & closed & cur & d & part & segs & Hinv & _).
  assert (next_lsn (WriteAheadLog_new mem) < U64) as H0 by done.
  destruct (append_inv _ _ _ _ _ _ _ e p Hok Hp Hm2 H0 Hinv)
    as [(w & _ & _ & _ & Hb)|(w & Ha & _ & Hf & Hl & _)].
  - change (zlen mem - 0 < LogHeader_size + zlen (log_entry_bytes e)) in Hb. lia.
  - exists w. split_and!; [done| |done]. unfold acknowledged. by rewrite Hl.
Qed.

Lemma wal_first_ack_witness :
  ∃ w, append (WriteAheadLog_new (replicate 64 0)) (Write (make_insert [1] [2])) 0 = Ret (Some 0, w) ∧ file w = [].
Proof.
  destruct (wal_first_ack (replicate 64 0) (Write (make_insert [1] [2])) 0 8) as (w & H1 & _ & H2);
    [by vm_compute..|by exists w].
Defined.
