(* ===== verification/RwLock.v ===== *)
(** The upgradable reader-writer lock (src/utils/rw_lock.rs) and its futex waits
    (src/utils/atomic_wait.rs): every thread is at a point of the code between two accesses
    to the shared words, and a step runs one thread over one access.

    Accesses are interleaved and see the latest value.  A weak compare-and-exchange may fail
    when the value is the expected one, a futex wait may return without a wake, and which of
    the sleeping threads a wake chooses is free; all are arguments of the step. *)
From stdpp Require Import base numbers list option.
From Stdlib Require Import ZArith Lia.
From S2P Require Import Prelude.

Definition u32_MAX : Z := 2 ^ 32 - 1.


(** The shared words. *)
Record RwLock := mkRwLock { lock_val : Z; writer_wake_counter : Z }.

Definition RwLock_new : RwLock := mkRwLock 0 0.

(** Where a thread is. *)
Inductive pc :=
  | Idle
  | ReadTop (v : Z) | ReadWait (v : Z) | ReadAsleep | ReadReload
  | TryRead (v : Z) | TryWrite (s : Z)
  | Reading | ReadDropBump | ReadDropWake
  | WriteTop (s : Z) | WriteCounter | WriteLoad (w : Z) | WriteWait (w : Z) | WriteAsleep | WriteReload
  | Writing | WriteDropBump | WriteDropWake | WriteDropWakeAll.

Definition is_multiple_of_2 (v : Z) : bool := v mod 2 =? 0.

(** [compare_exchange]: whether it succeeded, and the value found. *)
Definition compare_exchange (cur old : Z) (spurious : bool) : bool := (cur =? old) && negb spurious.

(** The [loop] of [read] at its top with [v]; the second test follows a failed exchange. *)
Definition read_bottom (v : Z) : pc := if is_multiple_of_2 v then ReadTop v else ReadWait v.

Definition read_top (l : RwLock) (v : Z) (spurious : bool) : outcome (RwLock * pc) :=
  if is_multiple_of_2 v then
    v2 ← add32 v 2;
    if compare_exchange (lock_val l) v spurious then Ret (mkRwLock v2 (writer_wake_counter l), Reading)
    else Ret (l, read_bottom (lock_val l))
  else Ret (l, read_bottom v).

Definition try_read (l : RwLock) (v : Z) (spurious : bool) : outcome (RwLock * pc) :=
  if is_multiple_of_2 v then
    new_v ← add32 v 2;
    if compare_exchange (lock_val l) v spurious then Ret (mkRwLock new_v (writer_wake_counter l), Reading)
    else Ret (l, Idle)
  else Ret (l, Idle).

(** The [loop] of [write] with [s], up to the load of the wake counter. *)
Definition write_top (l : RwLock) (s : Z) : outcome (RwLock * pc) :=
  if s <=? 1 then
    if compare_exchange (lock_val l) s false then Ret (mkRwLock u32_MAX (writer_wake_counter l), Writing)
    else Ret (l, WriteTop (lock_val l))
  else if is_multiple_of_2 s then
    s1 ← add32 s 1;
    if compare_exchange (lock_val l) s false then Ret (mkRwLock s1 (writer_wake_counter l), WriteCounter)
    else Ret (l, WriteTop (lock_val l))
  else Ret (l, WriteCounter).

Definition write_load (l : RwLock) (w : Z) : pc :=
  let s := lock_val l in
  if (2 <=? s) && negb (is_multiple_of_2 s) then WriteWait w else WriteTop s.

Definition try_write (l : RwLock) (s : Z) (spurious : bool) : RwLock * pc :=
  if s <=? 1 then
    if compare_exchange (lock_val l) s spurious then (mkRwLock u32_MAX (writer_wake_counter l), Writing)
    else (l, Idle)
  else (l, Idle).

(** Dropping a read guard: [fetch_sub] wraps. *)
Definition read_drop (l : RwLock) : RwLock * pc :=
  (mkRwLock ((lock_val l - 2) mod 2 ^ 32) (writer_wake_counter l),
   if lock_val l =? 3 then ReadDropBump else Idle).

Definition try_upgrade (l : RwLock) (spurious : bool) : RwLock * pc :=
  if compare_exchange (lock_val l) 2 spurious then (mkRwLock u32_MAX (writer_wake_counter l), Writing)
  else (l, Reading).

Definition write_drop (l : RwLock) : RwLock * pc := (mkRwLock 0 (writer_wake_counter l), WriteDropBump).

Definition bump (l : RwLock) : RwLock := mkRwLock (lock_val l) ((writer_wake_counter l + 1) mod 2 ^ 32).

(** ** Futexes *)

(** [wait] sleeps when the word has the expected value and returns otherwise. *)
Definition wait (word value : Z) (asleep woken : pc) : pc := if word =? value then asleep else woken.

(** [wake_one] on the counter wakes one of its sleepers when there is one: [who], if it is
    one, and the first otherwise. *)
Definition is_write_asleep (p : pc) : bool := match p with WriteAsleep => true | _ => false end.

Fixpoint wake_first (ths : list pc) : list pc :=
  match ths with
  | [] => []
  | p :: ths' => if is_write_asleep p then WriteReload :: ths' else p :: wake_first ths'
  end.

Definition wake_one (ths : list pc) (who : nat) : list pc :=
  match ths !! who with
  | Some WriteAsleep => <[who := WriteReload]> ths
  | _ => wake_first ths
  end.

(** [wake_all] on the lock word wakes the readers asleep. *)
Definition wake_all (ths : list pc) : list pc :=
  (λ p, match p with ReadAsleep => ReadReload | _ => p end) <$> ths.

(** ** Steps of the system *)
Record system := mkSystem { shared : RwLock; threads : list pc }.

(** What the environment chooses for the thread that runs: the call of an idle thread, what the
    holder of a read guard does, a spurious failure or return, the sleeper that is woken. *)
Inductive lock_choice :=
  | CallRead | CallTryRead | CallWrite | CallTryWrite
  | Go (spurious : bool) | Upgrade (spurious : bool) | Wake (who : nat).

(** The step of a thread that changes the shared words and its own place. *)
Definition local_step (l : RwLock) (p : pc) (c : lock_choice) : outcome (RwLock * pc) :=
  match p, c with
  | Idle, CallRead => Ret (l, ReadTop (lock_val l))
  | Idle, CallTryRead => Ret (l, TryRead (lock_val l))
  | Idle, CallWrite => Ret (l, WriteTop (lock_val l))
  | Idle, CallTryWrite => Ret (l, TryWrite (lock_val l))
  | ReadTop v, Go sp => read_top l v sp
  | ReadWait v, _ => Ret (l, wait (lock_val l) v ReadAsleep ReadReload)
  | ReadAsleep, Go true => Ret (l, ReadReload)
  | ReadReload, _ => Ret (l, ReadTop (lock_val l))
  | TryRead v, Go sp => try_read l v sp
  | TryWrite s, Go sp => Ret (try_write l s sp)
  | Reading, Go _ => Ret (read_drop l)
  | Reading, Upgrade sp => Ret (try_upgrade l sp)
  | ReadDropBump, _ => Ret (bump l, ReadDropWake)
  | WriteTop s, _ => write_top l s
  | WriteCounter, _ => Ret (l, WriteLoad (writer_wake_counter l))
  | WriteLoad w, _ => Ret (l, write_load l w)
  | WriteWait w, _ => Ret (l, wait (writer_wake_counter l) w WriteAsleep WriteReload)
  | WriteAsleep, Go true => Ret (l, WriteReload)
  | WriteReload, _ => Ret (l, WriteTop (lock_val l))
  | Writing, _ => Ret (write_drop l)
  | WriteDropBump, _ => Ret (bump l, WriteDropWake)
  | _, _ => Ret (l, p)
  end.

(** The step of thread [i]; the wakes change other threads. *)
Definition lock_exec (st : system) (i : nat) (c : lock_choice) : outcome system :=
  match threads st !! i with
  | None => Ret st
  | Some ReadDropWake =>
      Ret (mkSystem (shared st) (wake_one (<[i := Idle]> (threads st)) (match c with Wake who => who | _ => 0%nat end)))
  | Some WriteDropWake =>
      Ret (mkSystem (shared st) (wake_one (<[i := WriteDropWakeAll]> (threads st)) (match c with Wake who => who | _ => 0%nat end)))
  | Some WriteDropWakeAll => Ret (mkSystem (shared st) (wake_all (<[i := Idle]> (threads st))))
  | Some p =>
      r ← local_step (shared st) p c;
      Ret (mkSystem r.1 (<[i := r.2]> (threads st)))
  end.

Fixpoint lock_run (st : system) (sched : list (nat * lock_choice)) : outcome system :=
  match sched with
  | [] => Ret st
  | (i, c) :: rest => st' ← lock_exec st i c; lock_run st' rest
  end.

(** [n] threads and a fresh lock. *)
Definition lock_initial (n : nat) : system := mkSystem RwLock_new (replicate n Idle).
