(* ===== verification/RwLockTheorems.v ===== *)
(** Correctness of the reader-writer lock (RwLock.v): its invariant, mutual exclusion, and that
    no thread is left asleep when all others are done. *)
From stdpp Require Import base numbers list option.
From Stdlib Require Import ZArith Lia.
From S2P Require Import Prelude RwLock.

(** ** Counting threads *)
Definition cnt (f : pc → bool) (ths : list pc) : Z := foldr (λ p a, Z.b2z (f p) + a) 0 ths.

Lemma cnt_cons f p ths : cnt f (p :: ths) = Z.b2z (f p) + cnt f ths.
Proof. done. Qed.

Lemma cnt_nonneg f ths : 0 <= cnt f ths <= Z.of_nat (length ths).
Proof.
  induction ths as [|p ths IH]; [done|]. rewrite cnt_cons. cbn [length]. destruct (f p); cbn [Z.b2z]; lia.
Qed.

Lemma cnt_insert f ths i p q :
  ths !! i = Some p → cnt f (<[i := q]> ths) = cnt f ths - Z.b2z (f p) + Z.b2z (f q).
Proof.
  revert i. induction ths as [|x ths IH]; intros [|i] Hi; try done; cbn in Hi.
  - injection Hi as ->. change (<[0%nat := q]> (p :: ths)) with (q :: ths). rewrite !cnt_cons. lia.
  - change (<[S i := q]> (x :: ths)) with (x :: <[i := q]> ths). rewrite !cnt_cons, (IH i Hi). lia.
Qed.

Lemma cnt_lookup f ths i p : ths !! i = Some p → f p = true → 0 < cnt f ths.
Proof.
  intros Hi Hf. revert i Hi. induction ths as [|x ths IH]; intros [|i] Hi; try done; cbn in Hi; rewrite cnt_cons.
  - injection Hi as ->. rewrite Hf. pose proof (cnt_nonneg f ths). cbn [Z.b2z]. lia.
  - specialize (IH i Hi). destruct (f x); cbn [Z.b2z]; lia.
Qed.

Lemma cnt_pos_inv f ths : 0 < cnt f ths → ∃ i p, ths !! i = Some p ∧ f p = true.
Proof.
  induction ths as [|x ths IH]; [done|]. rewrite cnt_cons. intros H. destruct (f x) eqn:Hx; [by exists 0%nat, x|].
  destruct IH as (i & p & Hi & Hp); [cbn [Z.b2z] in H; lia|]. by exists (S i), p.
Qed.

(** Two threads of a class. *)
Lemma cnt_two f ths i j p q :
  ths !! i = Some p → ths !! j = Some q → f p = true → f q = true → f Idle = false → i ≠ j → 2 <= cnt f ths.
Proof.
  intros Hi Hj Hp Hq H0 Hij. pose proof (cnt_insert f ths i p Idle Hi) as H. rewrite Hp, H0 in H.
  assert (0 < cnt f (<[i := Idle]> ths)) by (apply (cnt_lookup _ _ j q); [by rewrite list_lookup_insert_ne|done]).
  cbn [Z.b2z] in H. lia.
Qed.

(** ** Classes of places *)
Definition is_reading (p : pc) : bool := match p with Reading => true | _ => false end.
Definition is_writing (p : pc) : bool := match p with Writing => true | _ => false end.
Definition is_read_asleep (p : pc) : bool := match p with ReadAsleep => true | _ => false end.

(** About to bump the wake counter; about to wake a writer; about to wake the readers. *)
Definition bumping (p : pc) : bool := match p with ReadDropBump | WriteDropBump => true | _ => false end.
Definition waking (p : pc) : bool :=
  match p with ReadDropBump | WriteDropBump | ReadDropWake | WriteDropWake => true | _ => false end.
Definition draining (p : pc) : bool :=
  match p with WriteDropBump | WriteDropWake | WriteDropWakeAll => true | _ => false end.

(** Inside [write], and awake there. *)
Definition write_awake (p : pc) : bool :=
  match p with WriteTop _ | WriteCounter | WriteLoad _ | WriteWait _ | WriteReload => true | _ => false end.
Definition in_write (p : pc) : bool := write_awake p || is_write_asleep p.

(** ** The invariant *)

(** A reader with a pending writer, or a writer, holds the lock. *)
Definition contended (v : Z) : Prop := 2 <= v ∧ v mod 2 = 1.

(** A value of the lock word a thread has read: the word of a lock with at most [n] readers. *)
Definition word_ok (n v : Z) : Prop := 0 <= v ∧ (v <= 2 * n + 1 ∨ v = u32_MAX).

(** What a thread knows at its place. *)
Definition place_ok (n : Z) (l : RwLock) (bumpers : Z) (p : pc) : Prop :=
  match p with
  | ReadTop v | TryRead v | WriteTop v => word_ok n v
  | ReadWait v => v mod 2 = 1
  | WriteLoad w => w <= writer_wake_counter l
  | WriteWait w =>
      w < writer_wake_counter l ∨ w = writer_wake_counter l ∧ (contended (lock_val l) ∨ 0 < bumpers)
  | _ => True
  end.

Record LockInv (n k : Z) (st : system) : Prop := {
  li_threads : Z.of_nat (length (threads st)) = n;
  li_val :
    lock_val (shared st) = u32_MAX ∧ cnt is_writing (threads st) = 1 ∧ cnt is_reading (threads st) = 0 ∨
    cnt is_writing (threads st) = 0 ∧ lock_val (shared st) = 2 * cnt is_reading (threads st) ∨
    cnt is_writing (threads st) = 0 ∧ lock_val (shared st) = 2 * cnt is_reading (threads st) + 1 ∧
      0 < cnt in_write (threads st);
  li_read_asleep : 0 < cnt is_read_asleep (threads st) →
    lock_val (shared st) mod 2 = 1 ∨ 0 < cnt draining (threads st);
  li_write_asleep : 0 < cnt is_write_asleep (threads st) →
    contended (lock_val (shared st)) ∨ 0 < cnt waking (threads st) ∨ 0 < cnt write_awake (threads st);
  li_places : Forall (place_ok n (shared st) (cnt bumping (threads st))) (threads st);
  li_counter : 0 <= writer_wake_counter (shared st) <= k;
}.

(** What a thread knows is kept when the lock is released only under a bump of the counter. *)
Lemma place_ok_mono n l l' b b' p :
  writer_wake_counter l <= writer_wake_counter l' →
  (writer_wake_counter l = writer_wake_counter l' → contended (lock_val l) ∨ 0 < b → contended (lock_val l') ∨ 0 < b') →
  place_ok n l b p → place_ok n l' b' p.
Proof.
  intros Hc Hb. destruct p; cbn; try done; [lia|]. intros [H|[-> H]]; [lia|].
  destruct (decide (writer_wake_counter l = writer_wake_counter l')) as [He|He]; [|lia]. right. tauto.
Qed.

Lemma place_insert n l l' b b' ths i q :
  Forall (place_ok n l b) ths →
  writer_wake_counter l <= writer_wake_counter l' →
  (writer_wake_counter l = writer_wake_counter l' → contended (lock_val l) ∨ 0 < b → contended (lock_val l') ∨ 0 < b') →
  place_ok n l' b' q → Forall (place_ok n l' b') (<[i := q]> ths).
Proof.
  intros Hf Hc Hb Hq. apply Forall_insert; [|done]. revert Hf. apply Forall_impl. intros p. by apply place_ok_mono.
Qed.

Lemma inv_word n k st : LockInv n k st → word_ok n (lock_val (shared st)).
Proof.
  intros [Hn Hv _ _ _ _]. pose proof (cnt_nonneg is_reading (threads st)). unfold word_ok, u32_MAX in *. lia.
Qed.

(** ** Every step keeps the invariant *)
Section preservation.
Variables (n k : Z) (st : system).
Hypothesis Hn : n < 2 ^ 31 - 2.
Hypothesis Hk : k + 1 < 2 ^ 32.
Hypothesis Hinv : LockInv n k st.
Abbreviation ths := (threads st).
Abbreviation l := (shared st).

(** Replacing the place of one thread by another of the same word, when the counts allow it. *)
Definition allows (l' : RwLock) (p q : pc) : Prop :=
  let d f := cnt f ths - Z.b2z (f p) + Z.b2z (f q) in
  (lock_val l' = u32_MAX ∧ d is_writing = 1 ∧ d is_reading = 0 ∨
   d is_writing = 0 ∧ lock_val l' = 2 * d is_reading ∨
   d is_writing = 0 ∧ lock_val l' = 2 * d is_reading + 1 ∧ 0 < d in_write) ∧
  (0 < d is_read_asleep → lock_val l' mod 2 = 1 ∨ 0 < d draining) ∧
  (0 < d is_write_asleep → contended (lock_val l') ∨ 0 < d waking ∨ 0 < d write_awake) ∧
  writer_wake_counter l <= writer_wake_counter l' <= k + 1 ∧
  (writer_wake_counter l = writer_wake_counter l' →
     contended (lock_val l) ∨ 0 < cnt bumping ths → contended (lock_val l') ∨ 0 < d bumping) ∧
  place_ok n l' (d bumping) q.

Lemma allows_inv i l' p q :
  ths !! i = Some p → allows l' p q → LockInv n (k + 1) (mkSystem l' (<[i := q]> ths)).
Proof.
  intros Hi (Hv & Hr & Hw & Hc & Hb & Hq). pose proof Hinv as [Hlen _ _ _ Hp Hct].
  split; cbn [shared threads]; rewrite ?length_insert, ?(cnt_insert _ _ _ _ _ Hi); try done; [|lia].
  apply (place_insert _ l l' (cnt bumping ths)); [done|lia|tauto|done].
Qed.

Lemma place_at i p : ths !! i = Some p → place_ok n l (cnt bumping ths) p.
Proof. apply Forall_lookup_1. apply Hinv. Qed.

(** The counts of the classes a place is in are positive; all are non-negative. *)
Ltac count_facts Hi :=
  let go f := (let H := fresh "Hpos" in pose proof (cnt_nonneg f ths) as [H _];
               try (let H' := fresh "Hin" in pose proof (cnt_lookup f ths _ _ Hi eq_refl) as H')) in
  go is_reading; go is_writing; go is_read_asleep; go is_write_asleep; go bumping; go waking; go draining;
  go write_awake; go in_write.

(** Close a case: the counts of the new place, arithmetic for the rest. *)
Ltac lock_case Hi :=
  count_facts Hi; unfold allows; cbv zeta;
  cbn [is_reading is_writing is_read_asleep is_write_asleep bumping waking draining write_awake in_write orb
       Z.b2z place_ok lock_val writer_wake_counter];
  rewrite ?Z.sub_0_r, ?Z.add_0_r; unfold contended, word_ok, u32_MAX in *;
  split_and!; first [done | assumption | intros; first [tauto | lia | dlia]].

Lemma read_top_inv i v sp : ths !! i = Some (ReadTop v) →
  ∃ l' q, read_top l v sp = Ret (l', q) ∧ allows l' (ReadTop v) q.
Proof.
  intros Hi. pose proof (place_at i _ Hi) as Hp. pose proof (inv_word _ _ _ Hinv) as Hw.
  pose proof Hinv as [_ Hv Hra Hwa _ Hc]. cbn [place_ok] in Hp. unfold read_top, is_multiple_of_2.
  zcase (v mod 2 =? 0).
  - unfold add32. zcase (v + 2 <? 2 ^ 32); [|unfold word_ok, u32_MAX in *; dlia]. ret_step.
    unfold compare_exchange. zcase (lock_val l =? v); destruct sp; cbn [andb negb];
      eexists _, _; (split; [done|]); unfold read_bottom, is_multiple_of_2.
    2: { lock_case Hi. }
    all: zcase (lock_val l mod 2 =? 0); lock_case Hi.
  - eexists _, _. split; [done|]. unfold read_bottom, is_multiple_of_2. zcase (v mod 2 =? 0); lock_case Hi.
Qed.
Lemma try_read_inv i v sp : ths !! i = Some (TryRead v) →
  ∃ l' q, try_read l v sp = Ret (l', q) ∧ allows l' (TryRead v) q.
Proof.
  intros Hi. pose proof (place_at i _ Hi) as Hp.
  pose proof Hinv as [_ Hv Hra Hwa _ Hc]. cbn [place_ok] in Hp. unfold try_read, is_multiple_of_2.
  zcase (v mod 2 =? 0).
  - unfold add32. zcase (v + 2 <? 2 ^ 32); [|unfold word_ok, u32_MAX in *; dlia]. ret_step.
    unfold compare_exchange. zcase (lock_val l =? v); destruct sp; cbn [andb negb];
      eexists _, _; (split; [done|]); lock_case Hi.
  - eexists _, _. split; [done|]. lock_case Hi.
Qed.

Lemma write_top_inv i s : ths !! i = Some (WriteTop s) →
  ∃ l' q, write_top l s = Ret (l', q) ∧ allows l' (WriteTop s) q.
Proof.
  intros Hi. pose proof (place_at i _ Hi) as Hp. pose proof (inv_word _ _ _ Hinv) as Hw.
  pose proof Hinv as [_ Hv Hra Hwa _ Hc]. cbn [place_ok] in Hp. unfold write_top, is_multiple_of_2, compare_exchange.
  zcase (s <=? 1).
  - zcase (lock_val l =? s); cbn [andb negb]; eexists _, _; (split; [done|]); lock_case Hi.
  - zcase (s mod 2 =? 0).
    + unfold add32. zcase (s + 1 <? 2 ^ 32); [|unfold word_ok, u32_MAX in *; dlia]. ret_step.
      zcase (lock_val l =? s); cbn [andb negb]; eexists _, _; (split; [done|]); lock_case Hi.
    + eexists _, _. split; [done|]. lock_case Hi.
Qed.

Lemma write_load_inv i w : ths !! i = Some (WriteLoad w) → allows l (WriteLoad w) (write_load l w).
Proof.
  intros Hi. pose proof (place_at i _ Hi) as Hp. pose proof (inv_word _ _ _ Hinv) as Hw.
  pose proof Hinv as [_ Hv Hra Hwa _ Hc]. cbn [place_ok] in Hp. unfold write_load, is_multiple_of_2.
  zcase (2 <=? lock_val l); cbn [andb]; [zcase (lock_val l mod 2 =? 0); cbn [negb]|]; lock_case Hi.
Qed.

Lemma try_write_inv i s sp : ths !! i = Some (TryWrite s) →
  allows (try_write l s sp).1 (TryWrite s) (try_write l s sp).2.
Proof.
  intros Hi. pose proof Hinv as [_ Hv Hra Hwa _ Hc]. unfold try_write, compare_exchange.
  zcase (s <=? 1); [zcase (lock_val l =? s); destruct sp; cbn [andb negb]|]; cbn [fst snd]; lock_case Hi.
Qed.

Lemma read_drop_inv i : ths !! i = Some Reading → allows (read_drop l).1 Reading (read_drop l).2.
Proof.
  intros Hi. pose proof (inv_word _ _ _ Hinv) as Hw. pose proof Hinv as [_ Hv Hra Hwa _ Hc].
  pose proof (cnt_lookup is_reading ths i Reading Hi eq_refl) as Hr. unfold read_drop. cbn [fst snd].
  rewrite Z.mod_small by (unfold word_ok, u32_MAX in *; lia).
  zcase (lock_val l =? 3); lock_case Hi.
Qed.

Lemma try_upgrade_inv i sp : ths !! i = Some Reading → allows (try_upgrade l sp).1 Reading (try_upgrade l sp).2.
Proof.
  intros Hi. pose proof Hinv as [_ Hv Hra Hwa _ Hc]. unfold try_upgrade, compare_exchange.
  zcase (lock_val l =? 2); destruct sp; cbn [andb negb fst snd]; lock_case Hi.
Qed.

Lemma bump_ctr : writer_wake_counter (bump l) = writer_wake_counter l + 1.
Proof. pose proof (li_counter _ _ _ Hinv). cbn. apply Z.mod_small. lia. Qed.

Lemma bump_inv i p q : ths !! i = Some p →
  p = ReadDropBump ∧ q = ReadDropWake ∨ p = WriteDropBump ∧ q = WriteDropWake → allows (bump l) p q.
Proof.
  intros Hi Hq. pose proof bump_ctr as Hb. pose proof Hinv as [_ Hv Hra Hwa _ Hc].
  change (lock_val l) with (lock_val (bump l)) in *.
  destruct Hq as [[-> ->]|[-> ->]]; count_facts Hi; unfold allows; cbv zeta; rewrite Hb;
    cbn [is_reading is_writing is_read_asleep is_write_asleep bumping waking draining write_awake in_write orb Z.b2z place_ok];
    split_and!; first [done | lia | intros; lia].
Qed.

(** A step that changes nothing. *)
Lemma stay i p : ths !! i = Some p → allows l p p.
Proof.
  intros Hi. pose proof (place_at i _ Hi) as Hp. pose proof Hinv as [_ Hv Hra Hwa _ Hc].
  unfold allows. cbv zeta. rewrite !Z.sub_add. split_and!; tauto || lia.
Qed.

(** The waits. *)
Lemma read_wait_inv i v : ths !! i = Some (ReadWait v) → allows l (ReadWait v) (wait (lock_val l) v ReadAsleep ReadReload).
Proof.
  intros Hi. pose proof (place_at i _ Hi) as Hp. pose proof Hinv as [_ Hv Hra Hwa _ Hc]. cbn [place_ok] in Hp.
  unfold wait. zcase (lock_val l =? v); lock_case Hi.
Qed.

Lemma write_wait_inv i w : ths !! i = Some (WriteWait w) →
  allows l (WriteWait w) (wait (writer_wake_counter l) w WriteAsleep WriteReload).
Proof.
  intros Hi. pose proof (place_at i _ Hi) as Hp. pose proof Hinv as [_ Hv Hra Hwa _ Hc]. cbn [place_ok] in Hp.
  assert (cnt bumping ths <= cnt waking ths) by (clear; induction ths as [|x t IH]; [done|]; rewrite !cnt_cons; destruct x; cbn [bumping waking Z.b2z]; lia).
  unfold wait. zcase (writer_wake_counter l =? w); lock_case Hi.
Qed.

Ltac lock_step Hi := eexists _, _; (split; [reflexivity|]); lock_case Hi.
Ltac lock_stay Hi := eexists _, _; (split; [reflexivity|]); exact (stay _ _ Hi).

Lemma local_inv i p c : ths !! i = Some p →
  ∃ l' q, local_step l p c = Ret (l', q) ∧ allows l' p q.
Proof.
  intros Hi. pose proof (inv_word _ _ _ Hinv) as Hw. pose proof Hinv as [_ Hv Hra Hwa _ Hc].
  destruct p.
  - destruct c; (lock_stay Hi || lock_step Hi).
  - destruct c; try lock_stay Hi. by apply read_top_inv with (i := i).
  - eexists _, _. split; [done|]. by apply read_wait_inv with (i := i).
  - destruct c as [| | | |[]| |]; (lock_stay Hi || lock_step Hi).
  - lock_step Hi.
  - destruct c; try lock_stay Hi. by apply try_read_inv with (i := i).
  - destruct c; try lock_stay Hi. eexists _, _. split; [|by apply try_write_inv with (i := i)]. cbn. by rewrite <- surjective_pairing.
  - destruct c; try lock_stay Hi.
    + eexists _, _. split; [|by apply read_drop_inv with (i := i)]. done.
    + eexists _, _. split; [|by apply try_upgrade_inv with (i := i)]. cbn. by rewrite <- surjective_pairing.
  - eexists _, _. split; [done|]. apply bump_inv with (i := i); [done|by left].
  - lock_stay Hi.
  - by apply write_top_inv with (i := i).
  - lock_step Hi.
  - eexists _, _. split; [done|]. by apply write_load_inv with (i := i).
  - eexists _, _. split; [done|]. by apply write_wait_inv with (i := i).
  - destruct c as [| | | |[]| |]; (lock_stay Hi || lock_step Hi).
  - lock_step Hi.
  - lock_step Hi.
  - eexists _, _. split; [done|]. apply bump_inv with (i := i); [done|by right].
  - lock_stay Hi.
  - lock_stay Hi.
Qed.
Lemma wake_first_spec t :
  cnt is_write_asleep t = 0 ∧ wake_first t = t ∨
  ∃ j, t !! j = Some WriteAsleep ∧ wake_first t = <[j := WriteReload]> t.
Proof.
  induction t as [|p t IH]; [by left|]. rewrite cnt_cons. cbn [wake_first]. destruct (is_write_asleep p) eqn:Hp.
  - right. exists 0%nat. by destruct p.
  - destruct IH as [[H1 ->]|(j & Hj & ->)]; [left; by rewrite H1|]. right. by exists (S j).
Qed.

(** [wake_one] wakes one sleeper when there is one. *)
Lemma wake_one_spec t who :
  cnt is_write_asleep t = 0 ∧ wake_one t who = t ∨
  ∃ j, t !! j = Some WriteAsleep ∧ wake_one t who = <[j := WriteReload]> t.
Proof.
  unfold wake_one. destruct (t !! who) as [p|] eqn:Hw; [|apply wake_first_spec].
  destruct p; try apply wake_first_spec. right. by exists who.
Qed.

(** The wake of a writer, by a thread that was waking and is at [q] now. *)
Lemma wake_one_inv i p q who :
  ths !! i = Some p → p = ReadDropWake ∧ q = Idle ∨ p = WriteDropWake ∧ q = WriteDropWakeAll →
  LockInv n (k + 1) (mkSystem l (wake_one (<[i := q]> ths) who)).
Proof.
  intros Hi Hpq. pose proof Hinv as [Hlen Hv Hra Hwa Hp Hc].
  assert (Forall (place_ok n l (cnt bumping ths)) (<[i := q]> ths)) as Hf.
  { apply Forall_insert; [done|]. by destruct Hpq as [[_ ->]|[_ ->]]. }
  assert (∀ f, f Idle = false → cnt f (<[i := q]> ths) = cnt f ths - Z.b2z (f p) + Z.b2z (f q)) as Hq
    by (intros; by apply cnt_insert).
  destruct (wake_one_spec (<[i := q]> ths) who) as [[H0 ->]|(j & Hj & ->)].
  - split; cbn [shared threads]; rewrite ?length_insert, ?Hq in * by done; destruct Hpq as [[-> ->]|[-> ->]];
      count_facts Hi; cbn [is_reading is_writing is_read_asleep is_write_asleep bumping waking draining write_awake in_write orb Z.b2z] in *;
      rewrite ?Z.sub_0_r, ?Z.add_0_r in *; first [done | assumption | lia].
  - assert (∀ f, cnt f (<[j := WriteReload]> (<[i := q]> ths)) =
      cnt f (<[i := q]> ths) - Z.b2z (f WriteAsleep) + Z.b2z (f WriteReload)) as Hq2 by (intros; by apply cnt_insert).
    assert (0 <= cnt write_awake (<[i := q]> ths)) as Hpos by apply cnt_nonneg.
    split; cbn [shared threads]; rewrite ?length_insert, ?Hq2, ?Hq in * by done; destruct Hpq as [[-> ->]|[-> ->]];
      cbn [is_reading is_writing is_read_asleep is_write_asleep bumping waking draining write_awake in_write orb Z.b2z] in *;
      rewrite ?Z.sub_0_r, ?Z.add_0_r, ?Z.sub_add in *;
      first [done | assumption | lia | apply Forall_insert; done].
Qed.

Lemma cnt_wake_all f t : f ReadAsleep = f ReadReload → cnt f (wake_all t) = cnt f t.
Proof.
  intros Hf. induction t as [|p t IH]; [done|]. change (wake_all (p :: t)) with ((match p with ReadAsleep => ReadReload | _ => p end) :: wake_all t).
  rewrite !cnt_cons, IH. by destruct p; rewrite ?Hf.
Qed.

Lemma cnt_wake_all_asleep t : cnt is_read_asleep (wake_all t) = 0.
Proof.
  induction t as [|p t IH]; [done|]. change (wake_all (p :: t)) with ((match p with ReadAsleep => ReadReload | _ => p end) :: wake_all t).
  rewrite cnt_cons, IH. by destruct p.
Qed.

Lemma wake_all_inv i : ths !! i = Some WriteDropWakeAll →
  LockInv n (k + 1) (mkSystem l (wake_all (<[i := Idle]> ths))).
Proof.
  intros Hi. pose proof Hinv as [Hlen Hv Hra Hwa Hp Hc].
  split; cbn [shared threads]; rewrite ?cnt_wake_all_asleep, ?cnt_wake_all by done;
    rewrite ?(cnt_insert _ _ _ _ _ Hi);
    cbn [is_reading is_writing is_read_asleep is_write_asleep bumping waking draining write_awake in_write orb Z.b2z];
    rewrite ?Z.sub_0_r, ?Z.add_0_r; try (done || lia).
  - unfold wake_all. by rewrite length_fmap, length_insert.
  - apply (Forall_insert _ _ i Idle) in Hp; [|done]. apply Forall_fmap. revert Hp. apply Forall_impl. by intros [].
Qed.

Lemma exec_inv i c : ∃ st', lock_exec st i c = Ret st' ∧ LockInv n (k + 1) st'.
Proof.
  unfold lock_exec. destruct (ths !! i) as [p|] eqn:Hi.
  2: { exists st. split; [done|]. pose proof Hinv as []. split; try done. lia. }
  destruct (local_inv i p c Hi) as (l' & q & Hs & Ha). pose proof (allows_inv i l' p q Hi Ha).
  destruct p; try (rewrite Hs; ret_step; eexists; (split; [done|]); done).
  - eexists. split; [done|]. apply (wake_one_inv i ReadDropWake); [done|by left].
  - eexists. split; [done|]. apply (wake_one_inv i WriteDropWake); [done|by right].
  - eexists. split; [done|]. by apply wake_all_inv.
Qed.
End preservation.

Lemma initial_inv n : LockInv (Z.of_nat n) 0 (lock_initial n).
Proof.
  assert (∀ f, f Idle = false → cnt f (replicate n Idle) = 0) as H0.
  { intros f Hf. induction n as [|n IH]; [done|]. cbn [replicate]. by rewrite cnt_cons, IH, Hf. }
  split; cbn [shared threads lock_initial RwLock_new lock_val writer_wake_counter]; rewrite ?H0 by done; try (lia || done).
  - by rewrite length_replicate.
  - by apply Forall_replicate.
Qed.

Lemma lock_run_inv n k st sched :
  n < 2 ^ 31 - 2 → k + Z.of_nat (length sched) < 2 ^ 32 → LockInv n k st →
  ∃ st', lock_run st sched = Ret st' ∧ LockInv n (k + Z.of_nat (length sched)) st'.
Proof.
  intros Hn. revert k st. induction sched as [|[i c] sched IH]; intros k st Hk Hinv.
  - exists st. rewrite Z.add_0_r. done.
  - cbn [length lock_run] in *. destruct (exec_inv n k st Hn ltac:(lia) Hinv i c) as (s1 & -> & H1). ret_step.
    destruct (IH (k + 1) s1 ltac:(lia) H1) as (s2 & -> & H2). exists s2. split; [done|].
    by replace (k + Z.of_nat (S (length sched))) with (k + 1 + Z.of_nat (length sched)) by lia.
Qed.

Lemma reachable_lock n sched : Z.of_nat n < 2 ^ 31 - 2 → Z.of_nat (length sched) < 2 ^ 32 →
  ∃ st, lock_run (lock_initial n) sched = Ret st ∧ LockInv (Z.of_nat n) (Z.of_nat (length sched)) st.
Proof. intros Hn Hk. apply (lock_run_inv _ 0); [done|lia|apply initial_inv]. Qed.

(** C35: the lock is exclusive.  From a fresh lock, any number of threads (below 2{^31} - 2) and any
    schedule of fewer than 2{^32} steps of their calls, upgrades, drops, sleeps, wakes and spurious failures runs without an
    arithmetic overflow, and in the state reached at most one thread holds a write guard, and then
    none holds a read guard; when a thread reads, the lock word counts the readers. *)
Theorem rwlock_exclusive n sched :
  Z.of_nat n < 2 ^ 31 - 2 → Z.of_nat (length sched) < 2 ^ 32 →
  ∃ st, lock_run (lock_initial n) sched = Ret st ∧
    (∀ i j p, threads st !! i = Some Writing → threads st !! j = Some p → p = Writing ∨ p = Reading → i = j) ∧
    (∀ i, threads st !! i = Some Reading →
       lock_val (shared st) / 2 = Z.of_nat (length (filter (λ p, is_reading p = true) (threads st)))).
Proof.
  intros Hn Hk. destruct (reachable_lock n sched Hn Hk) as (st & Hr & [Hlen Hv _ _ _ _]).
  exists st. split_and!; [done| |].
  - intros i j p Hi Hj Hp. pose proof (cnt_lookup is_writing _ _ _ Hi eq_refl). destruct Hp as [-> | ->].
    + destruct (decide (i = j)) as [|Hij]; [done|]. pose proof (cnt_two is_writing _ _ _ _ _ Hi Hj eq_refl eq_refl eq_refl Hij). lia.
    + pose proof (cnt_lookup is_reading _ _ _ Hj eq_refl). lia.
  - intros i Hi. pose proof (cnt_lookup is_reading _ _ _ Hi eq_refl).
    assert (∀ t, cnt is_reading t = Z.of_nat (length (filter (λ p, is_reading p = true) t))) as <-.
    { induction t as [|p t IH]; [done|]. rewrite cnt_cons, filter_cons, IH. destruct (is_reading p); cbn [Z.b2z];
        [rewrite decide_True by done; cbn [length]; lia|by rewrite decide_False]. }
    dlia.
Qed.

Definition asleep (p : pc) : bool := is_read_asleep p || is_write_asleep p.
Definition running (p : pc) : bool := match p with Idle => false | _ => negb (asleep p) end.

(** C36: no wake-up is lost.  In every state reached from a fresh lock, when a thread sleeps in
    [read] or [write], some other thread is running inside the lock's code or holds a guard; so the
    threads are never all asleep or done with a sleeper left behind.  The threads are fewer than
    2{^31} - 2 and the schedule has fewer than 2{^32} steps, so that neither the count of readers
    nor the 32-bit counter that a writer waits on wraps around. *)
Theorem rwlock_no_lost_wakeup n sched :
  Z.of_nat n < 2 ^ 31 - 2 → Z.of_nat (length sched) < 2 ^ 32 →
  ∃ st, lock_run (lock_initial n) sched = Ret st ∧
    ∀ i p, threads st !! i = Some p → asleep p = true →
      ∃ j q, threads st !! j = Some q ∧ running q = true.
Proof.
  intros Hn Hk. destruct (reachable_lock n sched Hn Hk) as (st & Hr & [Hlen Hv Hra Hwa _ _]).
  exists st. split; [done|]. intros i p Hi Hp.
  assert (∀ f, 0 < cnt f (threads st) → (∀ q, f q = true → running q = true) →
    ∃ j q, threads st !! j = Some q ∧ running q = true) as Hrun.
  { intros f (j & q & Hj & Hq)%cnt_pos_inv Hf. eauto. }
  assert (0 < cnt is_reading (threads st) ∨ 0 < cnt is_writing (threads st) ∨ 0 < cnt draining (threads st) ∨
    0 < cnt waking (threads st) ∨ 0 < cnt write_awake (threads st)) as H.
  { assert (cnt in_write (threads st) = cnt write_awake (threads st) + cnt is_write_asleep (threads st)) as Hio.
    { clear. induction (threads st) as [|x t IH]; [done|]. rewrite !cnt_cons, IH. destruct x; cbn [in_write write_awake is_write_asleep orb Z.b2z]; lia. }
    pose proof (cnt_nonneg is_reading (threads st)). pose proof (cnt_nonneg write_awake (threads st)).
    unfold asleep in Hp. apply orb_prop in Hp as [Hp|Hp]; pose proof (cnt_lookup _ _ _ _ Hi Hp); unfold contended in *; dlia. }
  destruct H as [H|[H|[H|[H|H]]]]; (apply (Hrun _ H); by intros []).
Qed.

(** Two writers and a reader: the second writer and a reader end up asleep behind the first. *)
Definition lock_sample : list (nat * lock_choice) :=
  [(0, CallWrite); (0, Go false); (1, CallWrite); (1, Go false); (1, Go false); (1, Go false); (1, Go false);
   (2, CallRead); (2, Go false); (2, Go false)]%nat.

Lemma rwlock_exclusive_witness :
  ∃ st, lock_run (lock_initial 3) lock_sample = Ret st ∧ threads st = [Writing; WriteAsleep; ReadAsleep] ∧
    ∀ j p, threads st !! j = Some p → p = Writing ∨ p = Reading → 0%nat = j.
Proof.
  destruct (rwlock_exclusive 3 lock_sample) as (st & Hr & He & _); [done..|].
  exists st. split; [done|]. assert (threads st = [Writing; WriteAsleep; ReadAsleep]) as Ht.
  { revert Hr. vm_compute. by intros [= <-]. }
  split; [done|]. intros j p. apply He. by rewrite Ht.
Defined.

Lemma rwlock_no_lost_wakeup_witness :
  ∃ st, lock_run (lock_initial 3) (lock_sample ++ [(0, Go false); (0, Go false); (0, Go false)]%nat) = Ret st ∧
    threads st !! 2%nat = Some ReadAsleep ∧ ∃ j q, threads st !! j = Some q ∧ running q = true.
Proof.
  destruct (rwlock_no_lost_wakeup 3 (lock_sample ++ [(0, Go false); (0, Go false); (0, Go false)]%nat)) as (st & Hr & He); [done..|].
  assert (threads st !! 2%nat = Some ReadAsleep) as H2.
  { revert Hr. vm_compute. by intros [= <-]. }
  exists st. split; [exact Hr|]. split; [exact H2|]. exact (He 2%nat ReadAsleep H2 eq_refl).
Defined.
