(* ===== verification/InnerLock.v ===== *)
(** The optimistic lock of inner nodes (src/utils/inner_lock.rs): readers take the version of
    the node, read it without a lock, and check the version afterwards; a writer makes the
    version odd in its second bit while it writes.

    The node is a list of cells; each step of a thread is one access to the version or to a
    cell, and accesses are interleaved.  [mark_obsolete] has no caller and is left out. *)
From stdpp Require Import base numbers list option.
From Stdlib Require Import ZArith Lia.
From S2P Require Import Prelude Bits.

Definition is_locked (version : Z) : bool := Z.land version 2 =? 2.

(** A node under its version word. *)
Record vnode := mkVNode { version : Z; cells : list Z }.

(** What a thread has: nothing; a read guard, with the cells it has read so far; a write guard. *)
Inductive guard :=
  | NoGuard
  | ReadGuard (v : Z) (seen : list (nat * Z))
  | WriteGuard (seen : list (nat * Z)).

Definition ReadGuard_try_read (n : vnode) : option guard :=
  if is_locked (version n) then None else Some (ReadGuard (version n) []).

Definition check_version (n : vnode) (v : Z) : bool := version n =? v.

(** [upgrade]: the new version is computed before the exchange; a weak exchange may fail. *)
Definition upgrade (n : vnode) (v : Z) (seen : list (nat * Z)) (spurious : bool) : outcome (vnode * guard) :=
  if v + 2 <? 2 ^ 64 then
    if (version n =? v) && negb spurious then Ret (mkVNode (v + 2) (cells n), WriteGuard seen)
    else Ret (n, ReadGuard v seen)
  else Panic.

(** Dropping a write guard; [fetch_add] wraps. *)
Definition WriteGuard_drop (n : vnode) : vnode := mkVNode ((version n + 2) mod 2 ^ 64) (cells n).

Definition downgrade (n : vnode) (seen : list (nat * Z)) : outcome (vnode * guard) :=
  if version n + 2 <? 2 ^ 64 then Ret (mkVNode (version n + 2) (cells n), ReadGuard (version n + 2) seen)
  else Panic.

(** Steps of a thread. *)
Inductive access :=
  | ATryRead | ARead (cell : nat) | AUpgrade (spurious : bool)
  | AWrite (cell : nat) (x : Z) | ADowngrade | ADrop.

Definition thread_step (n : vnode) (g : guard) (a : access) : outcome (vnode * guard) :=
  match g, a with
  | NoGuard, ATryRead => Ret (n, default NoGuard (ReadGuard_try_read n))
  | ReadGuard v seen, ARead c =>
      match cells n !! c with Some x => Ret (n, ReadGuard v ((c, x) :: seen)) | None => Ret (n, g) end
  | ReadGuard v seen, AUpgrade sp => upgrade n v seen sp
  | ReadGuard _ _, ADrop => Ret (n, NoGuard)
  | WriteGuard seen, AWrite c x => Ret (mkVNode (version n) (<[c := x]> (cells n)), WriteGuard [])
  | WriteGuard seen, ADowngrade => downgrade n seen
  | WriteGuard _, ADrop => Ret (WriteGuard_drop n, NoGuard)
  | _, _ => Ret (n, g)
  end.

Record vsystem := mkVSystem { vshared : vnode; guards : list guard }.

Definition node_exec (s : vsystem) (i : nat) (a : access) : outcome vsystem :=
  match guards s !! i with
  | None => Ret s
  | Some g => r ← thread_step (vshared s) g a; Ret (mkVSystem r.1 (<[i := r.2]> (guards s)))
  end.

Fixpoint node_run (s : vsystem) (sched : list (nat * access)) : outcome vsystem :=
  match sched with
  | [] => Ret s
  | (i, a) :: rest => s' ← node_exec s i a; node_run s' rest
  end.

(** A fresh node: its version is zero. *)
Definition node_initial (cs : list Z) (n : nat) : vsystem := mkVSystem (mkVNode 0 cs) (replicate n NoGuard).

(** ** The invariant *)

(** The cells a thread has seen are those of the node. *)
Definition consistent (n : vnode) (seen : list (nat * Z)) : Prop := Forall (λ p, cells n !! p.1 = Some p.2) seen.

Definition is_writer (g : guard) : bool := match g with WriteGuard _ => true | _ => false end.

(** A guard whose version is still that of the node has seen the node as it is. *)
Definition guard_ok (n : vnode) (g : guard) : Prop :=
  match g with
  | NoGuard => True
  | ReadGuard v seen => 0 <= v <= version n ∧ v mod 4 = 0 ∧ (version n = v → consistent n seen)
  | WriteGuard seen => consistent n seen
  end.

Record NodeInv (k : Z) (s : vsystem) : Prop := {
  ni_guards : ∀ i g, guards s !! i = Some g → guard_ok (vshared s) g;
  ni_lock : version (vshared s) mod 4 = 0 ∧ (∀ i g, guards s !! i = Some g → is_writer g = false) ∨
    version (vshared s) mod 4 = 2 ∧ ∃ i g, guards s !! i = Some g ∧ is_writer g = true ∧
      ∀ j h, guards s !! j = Some h → is_writer h = true → j = i;
  ni_version : 0 <= version (vshared s) <= 2 * k;
}.

Lemma is_locked_mod v : 0 <= v → v mod 4 = 0 ∨ v mod 4 = 2 → is_locked v = (v mod 4 =? 2).
Proof.
  intros Hv Hm. unfold is_locked. change 2 with (2 ^ 1) at 1. rewrite land_pow2 by lia. rewrite testbit_div by lia.
  change (2 ^ 1) with 2. rewrite Zodd_mod. destruct Hm as [Hm|Hm]; rewrite Hm.
  - replace (v / 2 mod 2) with 0 by dlia. done.
  - replace (v / 2 mod 2) with 1 by dlia. done.
Qed.

(** Lookups in the list of guards after a step of thread [i]. *)
Lemma guard_insert (gs : list guard) (i j : nat) (g h : guard) :
  (<[i := g]> gs) !! j = Some h → (j = i ∧ h = g) ∨ (j ≠ i ∧ gs !! j = Some h).
Proof.
  destruct (decide (j = i)) as [->|Hij].
  - intros H. left. split; [done|]. pose proof (lookup_lt_Some _ _ _ H) as Hl. rewrite length_insert in Hl.
    rewrite list_lookup_insert_eq in H by done. congruence.
  - rewrite list_lookup_insert_ne by done. by right.
Qed.

Section preservation.
Variables (k : Z) (s : vsystem) (i : nat) (g : guard).
Hypothesis Hk : 2 * (k + 1) < 2 ^ 64.
Hypothesis Hinv : NodeInv k s.
Hypothesis Hi : guards s !! i = Some g.
Abbreviation n := (vshared s).

(** Steps that leave the node alone. *)
Lemma keep_inv g' : is_writer g = false → is_writer g' = false → guard_ok n g' →
  NodeInv (k + 1) (mkVSystem n (<[i := g']> (guards s))).
Proof.
  intros Hw Hw' Hg. destruct Hinv as [Hgs Hl Hv]. split; cbn [vshared guards]; [| |lia].
  - intros j h [[-> ->]|[_ Hj]]%guard_insert; [done|]. by apply (Hgs j).
  - destruct Hl as [[Hm Hn]|(Hm & a & w & Ha & Hwa & Hu)].
    + left. split; [done|]. intros j h [[-> ->]|[_ Hj]]%guard_insert; [done|by apply (Hn j)].
    + right. split; [done|]. exists a, w. split_and!; [|done|].
      * rewrite list_lookup_insert_ne; [done|]. intros <-. rewrite Hi in Ha. injection Ha as <-. congruence.
      * intros j h [[-> ->]|[_ Hj]]%guard_insert Hh; [congruence|by apply (Hu j h)].
Qed.

(** Steps of the writer on the cells, at the same version. *)
Lemma write_inv cs g' : is_writer g = true → is_writer g' = true → consistent (mkVNode (version n) cs) (match g' with WriteGuard seen => seen | _ => [] end) →
  NodeInv (k + 1) (mkVSystem (mkVNode (version n) cs) (<[i := g']> (guards s))).
Proof.
  intros Hw Hw' Hc. destruct Hinv as [Hgs Hl Hv]. destruct Hl as [[Hm Hn]|(Hm & a & w & Ha & Hwa & Hu)]; [by rewrite (Hn i g Hi) in Hw|].
  pose proof (Hu i g Hi Hw) as Hia. split; cbn [vshared guards version]; [| |lia].
  - intros j h [[-> ->]|[Hij Hj]]%guard_insert; [by destruct g'|].
    specialize (Hgs j h Hj). destruct h as [|v seen|seen]; [done| |].
    + cbn in *. split_and!; [lia|lia|dlia|]. intros Hvn. exfalso. dlia.
    + destruct Hij. rewrite (Hu j _ Hj eq_refl). done.
  - right. split; [done|]. exists i, g'. split_and!; [by apply list_lookup_insert_eq, (lookup_lt_Some _ _ _ Hi)|done|].
    intros j h [[-> ->]|[_ Hj]]%guard_insert Hh; [done|]. rewrite Hia. by apply (Hu j h).
Qed.

(** The release of the write lock. *)
Lemma release_inv g' : is_writer g = true → is_writer g' = false → guard_ok (mkVNode (version n + 2) (cells n)) g' →
  NodeInv (k + 1) (mkVSystem (mkVNode (version n + 2) (cells n)) (<[i := g']> (guards s))).
Proof.
  intros Hw Hw' Hg. destruct Hinv as [Hgs Hl Hv]. destruct Hl as [[Hm Hn]|(Hm & a & w & Ha & Hwa & Hu)]; [by rewrite (Hn i g Hi) in Hw|].
  split; cbn [vshared guards version]; [| |lia].
  - intros j h [[-> ->]|[Hij Hj]]%guard_insert; [done|]. specialize (Hgs j h Hj). destruct h as [|v seen|seen]; [done| |done].
    cbn in *. split_and!; [lia|lia|dlia|lia].
  - left. split; [dlia|]. intros j h [[-> ->]|[Hij Hj]]%guard_insert; [done|].
    destruct (is_writer h) eqn:Hh; [|done]. destruct Hij. rewrite (Hu j h Hj Hh). symmetry. by apply (Hu i g).
Qed.

(** Taking the write lock at the version of the read guard. *)
Lemma lock_inv v seen : g = ReadGuard v seen → version n = v →
  NodeInv (k + 1) (mkVSystem (mkVNode (v + 2) (cells n)) (<[i := WriteGuard seen]> (guards s))).
Proof.
  intros -> <-. destruct Hinv as [Hgs Hl Hv]. pose proof (Hgs i _ Hi) as (Hv1 & Hv2 & Hs).
  destruct Hl as [[Hm Hn]|(Hm & _)]; [|lia]. split; cbn [vshared guards version]; [| |lia].
  - intros j h [[-> ->]|[Hij Hj]]%guard_insert; [by apply Hs|]. specialize (Hgs j h Hj). destruct h as [|u sn|sn]; [done| |by specialize (Hn j _ Hj)].
    cbn in *. split_and!; [lia|lia|lia|lia].
  - right. split; [dlia|]. exists i, (WriteGuard seen). split_and!; [by apply list_lookup_insert_eq, (lookup_lt_Some _ _ _ Hi)|done|].
    intros j h [[-> ->]|[_ Hj]]%guard_insert Hh; [done|]. by rewrite (Hn j h Hj) in Hh.
Qed.

End preservation.

Lemma thread_step_inv k s i g a :
  2 * (k + 1) < 2 ^ 64 → NodeInv k s → guards s !! i = Some g →
  ∃ n' g', thread_step (vshared s) g a = Ret (n', g') ∧ NodeInv (k + 1) (mkVSystem n' (<[i := g']> (guards s))).
Proof.
  intros Hk Hinv Hi. pose proof Hinv as [Hgs Hl Hv]. pose proof (Hgs i g Hi) as Hg.
  destruct g as [|v seen|seen].
  - destruct a; try (eexists _, _; (split; [done|]); by apply (keep_inv k s i NoGuard)).
    cbn [thread_step]. unfold ReadGuard_try_read.
    rewrite is_locked_mod by (lia || (destruct Hl as [[]|[]]; lia)).
    zcase (version (vshared s) mod 4 =? 2); change (default NoGuard ?x) with (match x with Some y => y | None => NoGuard end); cbv iota; eexists _, _; (split; [done|]); apply (keep_inv k s i NoGuard); try done.
    cbn [guard_ok]. split_and!; [lia|lia| |by constructor]. destruct Hl as [[]|[]]; lia.
  - destruct Hg as (H1 & H2 & H3). destruct a; try (eexists _, _; (split; [done|]); by apply (keep_inv k s i (ReadGuard v seen))).
    + cbn [thread_step]. destruct (cells (vshared s) !! cell) as [x|] eqn:Hx; eexists _, _; (split; [done|]);
        apply (keep_inv k s i (ReadGuard v seen)); try done.
      cbn [guard_ok]. split_and!; [lia|lia|done|]. intros Hvn. constructor; [done|by apply H3].
    + cbn [thread_step]. unfold upgrade. zcase (v + 2 <? 2 ^ 64); [|lia].
      zcase (version (vshared s) =? v); destruct spurious; cbn [andb negb]; eexists _, _; (split; [done|]);
        try (by apply (keep_inv k s i (ReadGuard v seen))). by apply (lock_inv k s i (ReadGuard v seen)).
  - assert (version (vshared s) mod 4 = 2) as Hlk by (destruct Hl as [[_ Hn]|[Hm _]]; [by specialize (Hn i _ Hi)|done]).
    assert (NodeInv (k + 1) (mkVSystem (vshared s) (<[i := WriteGuard seen]> (guards s)))) as Hsame.
    { replace (vshared s) with (mkVNode (version (vshared s)) (cells (vshared s))) by (by destruct (vshared s)).
      by apply (write_inv k s i (WriteGuard seen)). }
    destruct a; try (eexists _, _; (split; [done|]); exact Hsame).
    + eexists _, _. split; [done|]. apply (write_inv k s i (WriteGuard seen)); try done. constructor.
    + cbn [thread_step]. unfold downgrade. zcase (version (vshared s) + 2 <? 2 ^ 64); [|lia].
      eexists _, _. split; [done|]. apply (release_inv k s i (WriteGuard seen)); try done. cbn. split_and!; [lia|lia|dlia|done].
    + eexists _, _. split; [done|]. unfold WriteGuard_drop. rewrite Z.mod_small by lia. by apply (release_inv k s i (WriteGuard seen)).
Qed.

Lemma node_run_inv k s sched :
  2 * (k + Z.of_nat (length sched)) < 2 ^ 64 → NodeInv k s →
  ∃ s', node_run s sched = Ret s' ∧ NodeInv (k + Z.of_nat (length sched)) s'.
Proof.
  revert k s. induction sched as [|[i a] sched IH]; intros k s Hk Hinv.
  - exists s. by rewrite Z.add_0_r.
  - cbn [length node_run] in *.
    assert (∃ s1, node_exec s i a = Ret s1 ∧ NodeInv (k + 1) s1) as (s1 & -> & H1).
    { unfold node_exec. destruct (guards s !! i) as [g|] eqn:Hi.
      - destruct (thread_step_inv k s i g a) as (n' & g' & -> & H); [lia|done|done|]. by eexists.
      - exists s. split; [done|]. destruct Hinv. split; try done. lia. }
    ret_step. destruct (IH (k + 1) s1 ltac:(lia) H1) as (s2 & -> & H2). exists s2. split; [done|].
    by replace (k + Z.of_nat (S (length sched))) with (k + 1 + Z.of_nat (length sched)) by lia.
Qed.

Lemma node_initial_inv cs n : NodeInv 0 (node_initial cs n).
Proof.
  split; cbn [vshared guards node_initial version]; [| |lia].
  - intros i g [-> _]%lookup_replicate. done.
  - left. split; [done|]. by intros i g [-> _]%lookup_replicate.
Qed.

(** C37: optimistic reads are validated.  From a fresh node, whatever any number of threads do, no
    version overflows, and in the state reached: a reader whose version check succeeds has seen
    exactly the cells the node has now, and no thread is writing; a thread that obtained the write
    lock is the only one, and what it had read under its read guard is still there. *)
Theorem optimistic_read_valid cs n sched :
  2 * Z.of_nat (length sched) < 2 ^ 64 →
  ∃ s, node_run (node_initial cs n) sched = Ret s ∧
    (∀ i v seen, guards s !! i = Some (ReadGuard v seen) → check_version (vshared s) v = true →
       consistent (vshared s) seen ∧ ∀ j g, guards s !! j = Some g → is_writer g = false) ∧
    (∀ i seen, guards s !! i = Some (WriteGuard seen) →
       consistent (vshared s) seen ∧ ∀ j g, guards s !! j = Some g → is_writer g = true → j = i).
Proof.
  intros Hk. destruct (node_run_inv 0 _ sched Hk (node_initial_inv cs n)) as (s & Hr & [Hg Hl _]).
  exists s. split_and!; [done| |].
  - intros i v seen Hi Hc%Z.eqb_eq. destruct (Hg i _ Hi) as (_ & Hm & Hs). split; [by apply Hs|].
    destruct Hl as [[_ Hn]|[Hm2 _]]; [done|]. rewrite Hc in Hm2. lia.
  - intros i seen Hi. split; [exact (Hg i _ Hi)|].
    destruct Hl as [[_ Hn]|(_ & a & w & Ha & _ & Hu)]; [by specialize (Hn i _ Hi)|].
    intros j g Hj Hw. rewrite (Hu j g Hj Hw). symmetry. by apply (Hu i _ Hi).
Qed.

(** Thread 0 writes while thread 1 reads: the check of thread 1 fails, that of thread 2 succeeds. *)
Lemma optimistic_read_valid_witness :
  ∃ s, node_run (node_initial [10; 20] 3)
      [(1, ATryRead); (0, ATryRead); (0, AUpgrade false); (1, ARead 0); (0, AWrite 0 11); (1, ARead 1);
       (0, AWrite 1 21); (0, ADrop); (2, ATryRead); (2, ARead 1)]%nat = Ret s ∧
    check_version (vshared s) 0 = false ∧ check_version (vshared s) 4 = true ∧ consistent (vshared s) [(1%nat, 21)].
Proof.
  destruct (optimistic_read_valid [10; 20] 3
      [(1, ATryRead); (0, ATryRead); (0, AUpgrade false); (1, ARead 0); (0, AWrite 0 11); (1, ARead 1);
       (0, AWrite 1 21); (0, ADrop); (2, ATryRead); (2, ARead 1)]%nat) as (s & Hr & Hv & _); [done|].
  assert (guards s !! 2%nat = Some (ReadGuard 4 [(1%nat, 21)]) ∧ version (vshared s) = 4) as [H2 H4].
  { revert Hr. vm_compute. by intros [= <-]. }
  exists s. unfold check_version in *. rewrite H4 in *. split_and!; [exact Hr|done|done|]. by apply (Hv 2%nat 4 _ H2).
Defined.
