(* ===== verification/MappingTable.v ===== *)
(** The mapping table (src/utils/mapping_table.rs): records in batches that are allocated as
    they are needed, addressed by the number their insertion returned.

    A record or batch that is not initialised is [None]; reading it is undefined behaviour
    in the source and [Panic] here.  The table refines a list that only grows. *)
From stdpp Require Import base numbers list option.
From Stdlib Require Import ZArith Lia.
From S2P Require Import Prelude.

Definition MAX_BATCHES : Z := 128.
Definition DEFAULT_RECORD_PER_BATCH : Z := 1024 * 1024.

(** The struct [RecordBatch]. *)
Abbreviation RecordBatch T := (list (option T)).

Section table.
Context {T : Type}.

Definition RecordBatch_new (record_per_batch : Z) : RecordBatch T := replicate (Z.to_nat record_per_batch) None.

Record MappingTable := mkTable {
  next_id : Z;
  current_initialized_batch : Z;
  batches : list (option (RecordBatch T));
  record_per_batch : Z;
}.

Definition MappingTable_new (rpb : Z) : MappingTable :=
  mkTable 0 0 (Some (RecordBatch_new rpb) :: replicate (Z.to_nat (MAX_BATCHES - 1)) None) rpb.

Definition get_batch_id (t : MappingTable) (id : Z) : Z := id / record_per_batch t.
Definition get_record_id (t : MappingTable) (id : Z) : Z := id mod record_per_batch t.

Definition get_record (b : RecordBatch T) (id : Z) : outcome T :=
  match b !! Z.to_nat id with Some (Some x) => Ret x | _ => Panic end.

Definition get_batch (t : MappingTable) (batch_id : Z) : outcome (RecordBatch T) :=
  match batches t !! Z.to_nat batch_id with Some (Some b) => Ret b | _ => Panic end.

Definition table_get (t : MappingTable) (id : Z) : outcome T :=
  b ← get_batch t (get_batch_id t id);
  get_record b (get_record_id t id).

Definition table_set (t : MappingTable) (id : Z) (val : T) : outcome MappingTable :=
  let batch_id := get_batch_id t id in
  let record_id := get_record_id t id in
  t1 ← (if current_initialized_batch t <? batch_id then
          if MAX_BATCHES <=? batch_id then Panic
          else Ret (mkTable (next_id t) batch_id
                      (<[Z.to_nat batch_id := Some (RecordBatch_new (record_per_batch t))]> (batches t))
                      (record_per_batch t))
        else Ret t);
  b ← get_batch t1 batch_id;
  if record_id <? zlen b then
    Ret (mkTable (next_id t1) (current_initialized_batch t1)
           (<[Z.to_nat batch_id := Some (<[Z.to_nat record_id := Some val]> b)]> (batches t1)) (record_per_batch t1))
  else Panic.

Definition peek_next_id (t : MappingTable) : Z := next_id t.

Definition table_insert (t : MappingTable) (val : T) : outcome (Z * T * MappingTable) :=
  let page_id := next_id t in
  t1 ← table_set (mkTable (page_id + 1) (current_initialized_batch t) (batches t) (record_per_batch t)) page_id val;
  x ← table_get t1 page_id;
  Ret (page_id, x, t1).

(** A write through the lock of the record that [table_get] refers to. *)
Definition table_write (t : MappingTable) (id : Z) (val : T) : outcome MappingTable :=
  _ ← table_get t id; table_set t id val.

Definition new_from_iter_step (t : MappingTable) (p : Z * T) : outcome MappingTable :=
  table_set (mkTable (p.1 + 1) (current_initialized_batch t) (batches t) (record_per_batch t)) p.1 p.2.

Definition new_from_iter (rpb : Z) (mapping : list (Z * T)) : outcome MappingTable :=
  foldM new_from_iter_step (MappingTable_new rpb) mapping.
End table.
Arguments MappingTable : clear implicits.

(** ** The table is a list that grows *)
Section refinement.
Context {T : Type}.
Variable rpb : Z.
Hypothesis Hrpb : 0 < rpb.

(** The table holds the list [l], except that its next number may already be taken. *)
Record Holds (t : MappingTable T) (l : list T) : Prop := {
  h_rpb : record_per_batch t = rpb;
  h_cur : 0 <= current_initialized_batch t < MAX_BATCHES;
  h_batches : zlen (batches t) = MAX_BATCHES;
  h_init : ∀ b, 0 <= b <= current_initialized_batch t →
    ∃ d, batches t !! Z.to_nat b = Some (Some d) ∧ zlen d = rpb;
  h_records : ∀ i x, 0 <= i → l !! Z.to_nat i = Some x →
    ∃ d, batches t !! Z.to_nat (i / rpb) = Some (Some d) ∧ d !! Z.to_nat (i mod rpb) = Some (Some x);
  h_room : zlen l <= (current_initialized_batch t + 1) * rpb;
}.

Definition TRepr (t : MappingTable T) (l : list T) : Prop := Holds t l ∧ next_id t = zlen l.

Lemma holds_get t l i x : Holds t l → 0 <= i → l !! Z.to_nat i = Some x → table_get t i = Ret x.
Proof.
  intros H Hi Hx. destruct (h_records _ _ H i x Hi Hx) as (d & Hd & Hr).
  unfold table_get, get_batch, get_batch_id, get_record_id. rewrite (h_rpb _ _ H), Hd. ret_step.
  unfold get_record. by rewrite Hr.
Qed.

Lemma new_repr : TRepr (MappingTable_new rpb) [].
Proof.
  split; [|done]. split; cbn [record_per_batch current_initialized_batch batches MappingTable_new]; [done|unfold MAX_BATCHES; lia|done|..].
  - intros b Hb. assert (b = 0) as -> by lia. eexists. split; [done|]. unfold zlen, RecordBatch_new. rewrite length_replicate. lia.
  - intros i x. by rewrite lookup_nil.
  - rewrite zlen_nil. lia.
Qed.

(** Two numbers with the same batch and the same place are equal. *)
Lemma place_inj i j : i / rpb = j / rpb → i mod rpb = j mod rpb → i = j.
Proof. intros H1 H2. rewrite (Z.div_mod i rpb), (Z.div_mod j rpb), H1, H2 by lia. done. Qed.

Lemma batch_of_len t l : Holds t l → zlen l / rpb <= current_initialized_batch t + 1.
Proof. intros H. pose proof (h_room _ _ H). apply Z.div_le_upper_bound; lia. Qed.

(** Opening the batch of the next number. *)
Lemma open_batch t l : Holds t l → zlen l < MAX_BATCHES * rpb →
  ∃ t1, (if current_initialized_batch t <? zlen l / rpb then
          if MAX_BATCHES <=? zlen l / rpb then Panic
          else Ret (mkTable (next_id t) (zlen l / rpb)
                      (<[Z.to_nat (zlen l / rpb) := Some (RecordBatch_new rpb)]> (batches t)) rpb)
        else Ret t) = Ret t1 ∧ Holds t1 l ∧ zlen l / rpb <= current_initialized_batch t1 ∧ next_id t1 = next_id t.
Proof.
  intros H Hl. pose proof (batch_of_len _ _ H) as Hb. pose proof H as [Hr Hc Hbs Hin Hrec Hroom].
  pose proof (zlen_nonneg l). assert (0 <= zlen l / rpb) by (apply Z.div_pos; lia).
  zcase (current_initialized_batch t <? zlen l / rpb); [|by exists t].
  assert (zlen l / rpb < MAX_BATCHES) by (apply Z.div_lt_upper_bound; lia).
  zcase (MAX_BATCHES <=? zlen l / rpb); [lia|]. eexists. split; [done|]. split; [|done].
  assert (zlen l / rpb = current_initialized_batch t + 1) as He by lia.
  split; cbn [record_per_batch current_initialized_batch batches]; [done|lia| | | |].
  - unfold zlen in *. by rewrite length_insert.
  - intros b Hb2. destruct (decide (b = zlen l / rpb)) as [->|Hne].
    + eexists. split; [apply list_lookup_insert_eq; unfold zlen, MAX_BATCHES in *; lia|].
      unfold zlen, RecordBatch_new. rewrite length_replicate. lia.
    + rewrite list_lookup_insert_ne by lia. apply Hin. lia.
  - intros i x Hi Hx. destruct (Hrec i x Hi Hx) as (d & Hd & Hdr). exists d. split; [|done].
    rewrite list_lookup_insert_ne; [done|]. apply lookup_lt_Some in Hx. pose proof (Z.div_pos i rpb).
    assert (i / rpb < current_initialized_batch t + 1) by (apply Z.div_lt_upper_bound; unfold zlen in *; lia). lia.
  - nia.
Qed.

Lemma set_next t l v : Holds t l → zlen l < MAX_BATCHES * rpb →
  ∃ t', table_set t (zlen l) v = Ret t' ∧ Holds t' (l ++ [v]) ∧ next_id t' = next_id t.
Proof.
  intros H Hl. pose proof (zlen_nonneg l). assert (0 <= zlen l / rpb) as Hq by (apply Z.div_pos; lia).
  pose proof (Z.mod_pos_bound (zlen l) rpb Hrpb) as Hm.
  destruct (open_batch t l H Hl) as (t1 & Ho & H1 & Hb & Hn). unfold table_set, get_batch_id, get_record_id.
  rewrite (h_rpb _ _ H), Ho. ret_step. unfold get_batch.
  destruct (h_init _ _ H1 (zlen l / rpb) ltac:(lia)) as (d & Hd & Hdl). rewrite Hd. ret_step.
  zcase (zlen l mod rpb <? zlen d); [|lia]. eexists. split; [done|]. split; [|done].
  pose proof H1 as [Hr Hc Hbs Hin Hrec Hroom]. pose proof (lookup_lt_Some _ _ _ Hd) as Hlt.
  split; cbn [record_per_batch current_initialized_batch batches]; [done|done| | | |].
  - unfold zlen in *. by rewrite length_insert.
  - intros b Hb2. destruct (decide (b = zlen l / rpb)) as [->|Hne].
    + rewrite list_lookup_insert_eq by done. eexists. split; [done|]. unfold zlen in *. by rewrite length_insert.
    + rewrite list_lookup_insert_ne by lia. apply Hin. lia.
  - intros i x Hi [Hx|[Hge Hx]]%lookup_app_Some.
    + destruct (Hrec i x Hi Hx) as (d' & Hd' & Hdr). pose proof (lookup_lt_Some _ _ _ Hx) as Hil.
      pose proof (Z.mod_pos_bound i rpb Hrpb). pose proof (Z.div_pos i rpb Hi Hrpb).
      destruct (decide (i / rpb = zlen l / rpb)) as [He|Hne].
      * rewrite He in *. rewrite Hd in Hd'. injection Hd' as <-. rewrite list_lookup_insert_eq by done. eexists. split; [done|].
        rewrite list_lookup_insert_ne; [done|]. intros Hmm. assert (zlen l = i) by (apply place_inj; [done|lia]). unfold zlen in *. lia.
      * rewrite list_lookup_insert_ne by lia. by exists d'.
    + assert (i = zlen l) as ->.
      { apply list_lookup_singleton_Some in Hx as [Hi0 _]. unfold zlen. lia. }
      apply list_lookup_singleton_Some in Hx as [_ ->]. rewrite list_lookup_insert_eq by done. eexists. split; [done|].
      rewrite list_lookup_insert_eq; [done|]. unfold zlen in *. lia.
  - rewrite zlen_app. change (zlen [v]) with 1.
    pose proof (Z.mul_div_le (zlen l) rpb Hrpb). pose proof (Z.div_mod (zlen l) rpb ltac:(lia)). nia.
Qed.
Lemma insert_next t l v : TRepr t l → zlen l < MAX_BATCHES * rpb →
  ∃ t', table_insert t v = Ret (zlen l, v, t') ∧ TRepr t' (l ++ [v]).
Proof.
  intros [H Hn] Hl. unfold table_insert. rewrite Hn.
  assert (Holds (mkTable (zlen l + 1) (current_initialized_batch t) (batches t) (record_per_batch t)) l) as H1 by (by destruct H).
  destruct (set_next _ l v H1 Hl) as (t' & -> & H2 & Hn2). ret_step.
  rewrite (holds_get t' (l ++ [v]) (zlen l) v H2); [|apply zlen_nonneg|].
  - ret_step. exists t'. split; [done|]. split; [done|]. rewrite Hn2, zlen_app. done.
  - unfold zlen. rewrite Nat2Z.id. by apply list_lookup_middle.
Qed.

Lemma insert_full t l v : TRepr t l → zlen l = MAX_BATCHES * rpb → table_insert t v = Panic.
Proof.
  intros [H Hn] Hl. unfold table_insert, table_set, get_batch_id. cbn [record_per_batch current_initialized_batch].
  pose proof (h_cur _ _ H). rewrite Hn, (h_rpb _ _ H), Hl, Z.div_mul by lia.
  zcase (current_initialized_batch t <? MAX_BATCHES); [|lia]. zcase (MAX_BATCHES <=? MAX_BATCHES); [done|lia].
Qed.

(** A write changes one record. *)
Lemma write_repr t l i v : TRepr t l → 0 <= i < zlen l →
  ∃ t', table_write t i v = Ret t' ∧ TRepr t' (<[Z.to_nat i := v]> l).
Proof.
  intros [H Hn] Hi. destruct (lookup_lt_is_Some_2 l (Z.to_nat i)) as [x Hx]; [unfold zlen in *; lia|].
  unfold table_write. rewrite (holds_get t l i x H) by (done || lia). ret_step.
  destruct (h_records _ _ H i x ltac:(lia) Hx) as (d & Hd & Hr).
  pose proof H as [Hp Hc Hbs Hin Hrec Hroom]. pose proof (lookup_lt_Some _ _ _ Hd) as Hlt. pose proof (lookup_lt_Some _ _ _ Hr) as Hrt.
  pose proof (Z.mod_pos_bound i rpb Hrpb) as Hm. pose proof (Z.div_pos i rpb ltac:(lia) Hrpb) as Hq.
  assert (i / rpb < current_initialized_batch t + 1) by (apply Z.div_lt_upper_bound; lia).
  destruct (Hin (i / rpb) ltac:(lia)) as (d0 & Hd0 & Hl). rewrite Hd in Hd0. injection Hd0 as <-.
  unfold table_set, get_batch_id, get_record_id. rewrite Hp. zcase (current_initialized_batch t <? i / rpb); [lia|]. ret_step.
  unfold get_batch. rewrite Hd. ret_step. zcase (i mod rpb <? zlen d); [|lia]. eexists. split; [done|].
  split; [split; cbn [record_per_batch current_initialized_batch batches]; try done|cbn; unfold zlen in *; by rewrite length_insert].
  - unfold zlen in *. by rewrite length_insert.
  - intros b Hb2. destruct (decide (b = i / rpb)) as [->|Hne].
    + rewrite list_lookup_insert_eq by done. eexists. split; [done|]. unfold zlen in *. by rewrite length_insert.
    + rewrite list_lookup_insert_ne by lia. by apply Hin.
  - intros j y Hj Hy. pose proof (Z.mod_pos_bound j rpb Hrpb). pose proof (Z.div_pos j rpb Hj Hrpb).
    destruct (decide (j = i)) as [->|Hne].
    + rewrite list_lookup_insert_eq in Hy by (unfold zlen in *; lia). injection Hy as <-.
      rewrite list_lookup_insert_eq by done. eexists. split; [done|]. by rewrite list_lookup_insert_eq.
    + rewrite list_lookup_insert_ne in Hy by lia. destruct (Hrec j y Hj Hy) as (d' & Hd' & Hdr).
      destruct (decide (j / rpb = i / rpb)) as [He|Hn2].
      * rewrite He in *. rewrite Hd in Hd'. injection Hd' as <-. rewrite list_lookup_insert_eq by done. eexists. split; [done|].
        rewrite list_lookup_insert_ne; [done|]. intros Hmm. apply Hne, place_inj; [done|lia].
      * rewrite list_lookup_insert_ne by lia. by exists d'.
  - unfold zlen in *. by rewrite length_insert.
Qed.

(** The next record of an iterator in the order of its numbers. *)
Lemma iter_next t l v : TRepr t l → zlen l < MAX_BATCHES * rpb →
  ∃ t', new_from_iter_step t (zlen l, v) = Ret t' ∧ table_insert t v = Ret (zlen l, v, t') ∧ TRepr t' (l ++ [v]).
Proof.
  intros H Hl. destruct (insert_next t l v H Hl) as (t' & Hi & Hr). exists t'. split; [|done].
  destruct H as [_ Hn]. unfold table_insert in Hi. rewrite Hn in Hi.
  apply bind_Ret_inv in Hi as (t1 & Ht1 & Hi). apply bind_Ret_inv in Hi as (x & _ & Hi). injection Hi as _ ->. done.
Qed.
End refinement.

(** Inserting a list of records. *)
Fixpoint insert_all {T} (t : MappingTable T) (vs : list T) : outcome (list Z * MappingTable T) :=
  match vs with
  | [] => Ret ([], t)
  | v :: vs' =>
      r ← table_insert t v;
      rest ← insert_all r.2 vs';
      Ret (r.1.1 :: rest.1, rest.2)
  end.

Lemma insert_all_spec {T} rpb (t : MappingTable T) l vs :
  0 < rpb → TRepr rpb t l → zlen l + zlen vs <= MAX_BATCHES * rpb →
  ∃ t', insert_all t vs = Ret (seqZ (zlen l) (zlen vs), t') ∧ TRepr rpb t' (l ++ vs) ∧
    foldM new_from_iter_step t (zip (seqZ (zlen l) (zlen vs)) vs) = Ret t'.
Proof.
  intros Hr. revert t l. induction vs as [|v vs IH]; intros t l H Hl.
  - exists t. by rewrite app_nil_r.
  - rewrite zlen_cons in *. pose proof (zlen_nonneg vs).
    destruct (iter_next rpb Hr t l v H) as (t1 & Hs & Hi & H1); [lia|]. cbn [insert_all]. rewrite Hi. ret_step. cbn [fst snd].
    assert (zlen (l ++ [v]) = zlen l + 1) as Hl1 by (rewrite zlen_app; done).
    destruct (IH t1 (l ++ [v]) H1) as (t2 & -> & H2 & Hf); [lia|]. ret_step. cbn [fst snd].
    rewrite (seqZ_cons _ (1 + zlen vs)) by lia. rewrite Hl1 in *. unfold Z.succ. replace (Z.pred (1 + zlen vs)) with (zlen vs) by lia.
    exists t2. split; [done|]. split; [by rewrite <- (assoc_L (++)) in H2|]. cbn [zip zip_with foldM]. rewrite Hs. ret_step. done.
Qed.

(** C38: the mapping table is a list that grows.  Inserting any records into a fresh table returns the
    numbers 0, 1, 2, ... and every number reads as its record; rebuilding a table from its records
    in the order of their numbers gives the same table; the insertion after the last of the 128
    batches is filled panics, and none before it. *)
Theorem mapping_table_correct {T} rpb (vs : list T) :
  0 < rpb → zlen vs <= MAX_BATCHES * rpb →
  ∃ t, insert_all (MappingTable_new rpb) vs = Ret (seqZ 0 (zlen vs), t) ∧
    peek_next_id t = zlen vs ∧
    (∀ i x, 0 <= i → vs !! Z.to_nat i = Some x → table_get t i = Ret x) ∧
    new_from_iter rpb (zip (seqZ 0 (zlen vs)) vs) = Ret t ∧
    (∀ v, table_insert t v = Panic ↔ zlen vs = MAX_BATCHES * rpb).
Proof.
  intros Hr Hl. destruct (insert_all_spec rpb (MappingTable_new rpb) [] vs Hr (new_repr rpb Hr) Hl) as (t & Hi & H & Hf).
  exists t. split_and!; [done|apply H| |done|].
  - intros i x Hi0 Hx. by apply (holds_get rpb t vs); [apply H|..].
  - intros v. split; [|by apply (insert_full rpb Hr t vs)]. intros Hp.
    destruct (decide (zlen vs = MAX_BATCHES * rpb)) as [|Hne]; [done|].
    destruct (insert_next rpb Hr t vs v H) as (t' & Ht' & _); [lia|congruence].
Qed.

Lemma mapping_table_correct_witness :
  ∃ t, insert_all (MappingTable_new 2) [7; 8; 9] = Ret ([0; 1; 2], t) ∧ table_get t 2 = Ret 9 ∧ table_insert t 1 ≠ Panic.
Proof.
  destruct (mapping_table_correct 2 [7; 8; 9]) as (t & Hi & _ & Hg & _ & Hp); [done..|].
  exists t. split; [exact Hi|]. split; [by apply Hg|]. by rewrite Hp.
Defined.

(** A table rebuilt from records that are not in the order of their numbers gives out numbers
    that are taken: the next insertion overwrites a record. *)
Theorem new_from_iter_overwrites {T} (a b c : T) :
  ∃ t t', new_from_iter 4 [(1, a); (0, b)] = Ret t ∧ table_get t 1 = Ret a ∧
    table_insert t c = Ret (1, c, t') ∧ table_get t' 1 = Ret c.
Proof. eexists _, _. split; [vm_compute; reflexivity|]. split; [vm_compute; reflexivity|]. split; vm_compute; reflexivity. Qed.
