(* ===== verification/LeafConvert.v ===== *)
(** Pages that change role: the records of a base page become cached when it is promoted to
    a full page and dirty again when it is written back
    ([covert_insert_records_to_cache], [convert_cache_records_to_insert]); the test for dirty
    records; and the sizes of mini pages: a record fits in the page that
    [get_chain_size_hint] or [new_size_if_upgrade] chooses for it. *)
From stdpp Require Import base numbers list sorting.
From Stdlib Require Import ZArith Lia.
From S2P Require Import Prelude Bits NodeMeta LeafMeta LeafNode LeafOps LeafLayout Entries LeafRepr LeafSearch LeafInsert LeafInit LeafMerge LeafRebuild LeafSplit SizeClasses.

(** ** Rewriting the operation types *)
Definition with_op (f : OpType → OpType) (e : entry) : entry := mkEntry (e_key e) (f (e_op e)) (e_val e).

Section convert.
Context (f : OpType → outcome OpType) (g : OpType → OpType).
(** The conversions keep records with a value from becoming records that need one. *)
Hypothesis Hg : ∀ op v, value_ok op v = true → value_ok (g op) v = true.

Definition with_rec_op (r : krec) : krec := mkKrec (with_op g (k_ent r)) (k_ref r) (k_off r).

Lemma convert_step_spec n p i r :
  Repr n p → p_recs p !! i = Some r → f (e_op (k_ent r)) = Ret (g (e_op (k_ent r))) →
  ∃ n', convert_step f n (first_meta_pos_after_fence n + Z.of_nat i) = Ret n' ∧
    Repr n' (mkPage (p_fences p) (<[i := with_rec_op r]> (p_recs p))) ∧
    same_header n n' ∧ meta n' = meta n.
Proof.
  intros HR Hi Hf. pose proof (repr_rec_ok n p HR i r Hi) as (Hoff & Hk & Hv & Hbk & Hbv & Hval).
  unfold convert_step. rewrite (repr_first n p HR), <- Nat2Z.inj_add, (repr_get n p HR i r Hi). ret_step.
  rewrite (repr_op n p HR i r Hi). ret_step. rewrite Hf. ret_step.
  destruct (op_eqb _ _) eqn:Heq.
  { apply bool_decide_eq_true in Heq. exists n. split; [done|]. split; [|done].
    assert (with_rec_op r = r) as -> by (unfold with_rec_op, with_op; rewrite <- Heq; by destruct r as [[] ? ?]).
    rewrite list_insert_id by done. by destruct p. }
  destruct (update_rec n p HR i r (λ m, set_op_type m (g (e_op (k_ent r)))) (g (e_op (k_ent r))) (k_val r) (k_ref r) Hi)
    as (d & Hd & HR').
  - split_and!; try done. by apply Hg.
  - done.
  - intros pv Hpv. by apply pack_set_op.
  - rewrite (repr_first n p HR), <- Nat2Z.inj_add in Hd. unfold update_kv_meta in Hd.
    rewrite (repr_get n p HR i r Hi) in Hd. exists (set_data n d). split; [exact Hd|]. split; [exact HR'|done].
Qed.

Lemma convert_loop n p rs1 rs2 :
  Repr n p → p_recs p = map with_rec_op rs1 ++ rs2 →
  Forall (λ r, f (e_op (k_ent r)) = Ret (g (e_op (k_ent r)))) rs2 →
  ∃ n', foldM (convert_step f) n (seqZ (first_meta_pos_after_fence n + zlen rs1) (zlen rs2)) = Ret n' ∧
    Repr n' (mkPage (p_fences p) (map with_rec_op (rs1 ++ rs2))) ∧ same_header n n' ∧ meta n' = meta n.
Proof.
  revert n p rs1. induction rs2 as [|r rs2 IH]; intros n p rs1 HR Hp Hf.
  - exists n. split; [done|]. split; [|done]. rewrite app_nil_r in *. rewrite <- Hp. by destruct p.
  - apply Forall_cons_1 in Hf as [Hr Hf]. rewrite zlen_cons. pose proof (zlen_nonneg rs2).
    rewrite seqZ_cons by lia. cbn [foldM].
    assert (p_recs p !! length rs1 = Some r) as Hi by (rewrite Hp; apply list_lookup_middle; by rewrite length_map).
    destruct (convert_step_spec n p _ r HR Hi Hr) as (n1 & Hs & HR1 & Hh1 & Hm1). change (Z.of_nat (length rs1)) with (zlen rs1) in Hs. rewrite Hs. ret_step.
    replace (Z.pred (1 + zlen rs2)) with (zlen rs2) by lia.
    replace (Z.succ (first_meta_pos_after_fence n + zlen rs1)) with (first_meta_pos_after_fence n1 + zlen (rs1 ++ [r])).
    2:{ rewrite zlen_app. unfold first_meta_pos_after_fence, leaf_has_fence. rewrite Hm1. change (zlen [r]) with 1. lia. }
    destruct (IH n1 _ (rs1 ++ [r]) HR1) as (n2 & -> & HR2 & Hh2 & Hm2).
    + cbn [p_recs]. rewrite Hp, map_app, <- (assoc_L (++)). cbn.
      replace (length rs1) with (length (map with_rec_op rs1) + 0)%nat by (rewrite length_map; lia).
      by rewrite insert_app_r.
    + done.
    + exists n2. split; [done|]. rewrite <- (assoc_L (++)) in HR2. split; [exact HR2|].
      split; [by eapply same_header_trans|congruence].
Qed.

(** A conversion rewrites every operation type and nothing else. *)
Lemma convert_spec n p :
  Repr n p → Forall (λ e, f (e_op e) = Ret (g (e_op e))) (p_entries p) →
  ∃ n' p', foldM (convert_step f) n (meta_positions n) = Ret n' ∧ Repr n' p' ∧
    p_fences p' = p_fences p ∧ p_entries p' = map (with_op g) (p_entries p) ∧ same_header n n' ∧ meta n' = meta n.
Proof.
  intros HR Hf. rewrite (repr_positions n p HR). unfold p_entries in Hf. rewrite Forall_map in Hf.
  destruct (convert_loop n p [] (p_recs p) HR eq_refl Hf) as (n' & Hn & HR' & Hh & Hm).
  rewrite zlen_nil, Z.add_0_r, (repr_first n p HR) in Hn. eexists n', _. split; [exact Hn|]. split; [exact HR'|].
  split_and!; try done. unfold p_entries. cbn [p_recs]. rewrite app_nil_l, !map_map. done.
Qed.
End convert.

Lemma find_with_op g es key : find_entry key (map (with_op g) es) = with_op g <$> find_entry key es.
Proof. induction es as [|e es IH]; [done|]. cbn. destruct (key_eqb (e_key e) key); [done|exact IH]. Qed.

(** Reading does not see the difference between dirty and clean records. *)
Lemma with_op_visible g es key :
  (∀ op, is_absent (g op) = is_absent op) →
  visible (find_entry key (map (with_op g) es)) = visible (find_entry key es).
Proof. intros Hg. rewrite find_with_op. destruct (find_entry key es); [|done]. cbn. by rewrite Hg. Qed.

Definition cached (op : OpType) : OpType := match op with OpInsert => OpCache | OpDelete => OpPhantom | _ => op end.
Definition dirtied (op : OpType) : OpType := match op with OpCache => OpInsert | OpPhantom => OpDelete | _ => op end.

Lemma to_cache_spec n p :
  Repr n p → Forall (λ e, is_dirty (e_op e) = true) (p_entries p) →
  ∃ n' p', covert_insert_records_to_cache n = Ret n' ∧ Repr n' p' ∧ p_fences p' = p_fences p ∧
    p_entries p' = map (with_op cached) (p_entries p) ∧ same_header n n' ∧ meta n' = meta n.
Proof.
  intros HR Hd. apply (convert_spec to_cache cached); [by intros []|done|].
  eapply Forall_impl; [exact Hd|]. intros [k [] v]; done.
Qed.

Lemma to_insert_spec n p :
  Repr n p →
  ∃ n' p', convert_cache_records_to_insert n = Ret n' ∧ Repr n' p' ∧ p_fences p' = p_fences p ∧
    p_entries p' = map (with_op dirtied) (p_entries p) ∧ same_header n n' ∧ meta n' = meta n.
Proof.
  intros HR. apply (convert_spec to_insert dirtied); [by intros []|done|].
  apply Forall_forall. intros [k [] v] _; done.
Qed.

Lemma cached_visible es key : visible (find_entry key (map (with_op cached) es)) = visible (find_entry key es).
Proof. apply with_op_visible. by intros []. Qed.

Lemma dirtied_visible es key : visible (find_entry key (map (with_op dirtied) es)) = visible (find_entry key es).
Proof. apply with_op_visible. by intros []. Qed.

Lemma dirtied_dirty es : Forall (λ e, is_dirty (e_op e) = true) (map (with_op dirtied) es).
Proof. apply Forall_map, Forall_forall. intros [k [] v] _; done. Qed.

(** ** Dirty records *)
Lemma need_merge_spec n p : Repr n p →
  need_actually_merge_to_disk n = Ret (existsb (λ e, is_dirty (e_op e)) (p_entries p)).
Proof.
  intros HR. unfold need_actually_merge_to_disk. rewrite (repr_meta_iter n p HR). ret_step.
  assert (∀ rs, rs ⊆ p_recs p → any_dirty (map (rec_meta n) rs) = Ret (existsb (λ e, is_dirty (e_op e)) (map k_ent rs))) as Hloop.
  { induction rs as [|r rs IH]; intros Hin; [done|]. cbn [map any_dirty existsb].
    assert (r ∈ p_recs p) as (i & Hi)%list_elem_of_lookup by (apply Hin; by left).
    rewrite (repr_op n p HR i r Hi : op_type (rec_meta n r) = _). ret_step. destruct (is_dirty _); [done|].
    apply IH. intros x Hx. apply Hin. by right. }
  by apply Hloop.
Qed.

(** ** Sizes of mini pages *)
Lemma first_larger_spec size l :
  match first_larger size l with
  | Some (i, x) => l !! i = Some x ∧ size < x ∧ ∀ j y, (j < i)%nat → l !! j = Some y → y <= size
  | None => Forall (λ y, y <= size) l
  end.
Proof.
  induction l as [|x l IH]; cbn [first_larger]; [constructor|]. zcase (size <? x).
  { split_and!; [done|done|lia]. }
  destruct (first_larger size l) as [[i y]|]; [|by constructor]. destruct IH as (H1 & H2 & H3).
  split_and!; [done|done|]. intros [|j] z Hj Hz; [injection Hz as <-; lia|]. apply (H3 j); [lia|done].
Qed.

Section sizes.
Context (front : list Z) (mini leaf : Z).
Hypothesis Hasc : ascending (front ++ [mini; leaf]).
Abbreviation classes := (front ++ [mini; leaf]).

Lemma classes_last : last classes = Some leaf.
Proof. rewrite (cons_middle mini front [leaf]), (assoc_L (++)). by rewrite last_snoc. Qed.

Lemma classes_front : take (length classes - 1) classes = front ++ [mini].
Proof.
  rewrite (cons_middle mini front [leaf]), (assoc_L (++)). rewrite length_app. cbn [length].
  rewrite Nat.add_sub. apply take_app_length.
Qed.

Lemma mini_classes_sorted : ascending (front ++ [mini]).
Proof.
  pose proof Hasc as H. rewrite (cons_middle mini front [leaf]), (assoc_L (++)) in H.
  by apply StronglySorted_app_1_l in H.
Qed.

Lemma mini_class_max s : s ∈ front ++ [mini] → s <= mini.
Proof.
  intros Hs. pose proof mini_classes_sorted as H. rewrite elem_of_app in Hs.
  destruct Hs as [Hs| ->%list_elem_of_singleton]; [|lia].
  pose proof (StronglySorted_app_1_elem_of _ _ _ s mini H Hs ltac:(by apply list_elem_of_singleton)). lia.
Qed.

(** A record below the largest mini page gets a mini page it fits in. *)
Lemma chain_size_hint_spec klen vlen :
  klen + vlen + KV_META_SIZE + LEAF_HEADER < mini →
  ∃ s, get_chain_size_hint klen vlen classes false = Ret s ∧ s ∈ front ++ [mini] ∧
    klen + vlen + KV_META_SIZE + LEAF_HEADER < s.
Proof.
  intros Hlt. unfold get_chain_size_hint. rewrite classes_last, classes_front.
  pose proof (first_larger_spec (klen + vlen + KV_META_SIZE + LEAF_HEADER) (front ++ [mini])) as Hs.
  destruct (first_larger _ _) as [[i s]|].
  - exists s. destruct Hs as (H1 & H2 & _). split_and!; [done|by eapply list_elem_of_lookup_2|done].
  - apply Forall_app in Hs as [_ Hs]. apply Forall_cons_1 in Hs as [Hs _]. lia.
Qed.

(** A mini page of one of the sizes grows to a larger one that holds its records and the new
    one, or has reached the largest. *)
Lemma new_size_spec n incoming :
  0 <= incoming → node_size (meta n) ∈ front ++ [mini] →
  ∃ r, new_size_if_upgrade n incoming classes false = Ret r ∧
    match r with
    | Some s => s ∈ front ++ [mini] ∧ node_size (meta n) + incoming < s
    | None => mini <= node_size (meta n) + incoming
    end.
Proof.
  intros H0 Hn. unfold new_size_if_upgrade. rewrite classes_last, classes_front.
  pose proof (first_larger_spec (node_size (meta n) + incoming) (front ++ [mini])) as Hs.
  destruct (first_larger _ _) as [[[|i] s]|].
  - exfalso. destruct Hs as (H1 & H2 & _). pose proof mini_classes_sorted as Ha.
    apply list_elem_of_lookup in Hn as (j & Hj). destruct j as [|j]; [rewrite H1 in Hj; injection Hj as ->; lia|].
    assert (s < node_size (meta n)); [|lia]. destruct (front ++ [mini]) as [|x l]; [done|]. cbn in H1, Hj. injection H1 as ->.
    apply StronglySorted_inv in Ha as [_ Ha]. by apply (Forall_lookup_1 _ _ _ _ Ha Hj).
  - exists (Some s). destruct Hs as (H1 & H2 & _). split_and!; [done|by eapply list_elem_of_lookup_2|done].
  - exists None. split; [done|]. apply Forall_app in Hs as [_ Hs]. by apply Forall_cons_1 in Hs as [Hs _].
Qed.
End sizes.
