(* ===== verification/SplitKey.v ===== *)
(** The choice of the key at which a leaf page is split when a mini page is merged into it
    ([get_merge_split_key]) and when a record is inserted in cache-only mode
    ([get_cache_only_insert_split_key], both in src/nodes/leaf_node.rs).

    Sizes are summed in 16 bits and compared as signed 16-bit differences; the sums and
    differences that overflow are panics. *)
From stdpp Require Import base numbers list sorting.
From Stdlib Require Import ZArith Lia.
From S2P Require Import Prelude Bits NodeMeta LeafMeta LeafNode LeafOps.

(** [as i16], the checked difference of two [i16] and [abs]. *)
Definition as_i16 (z : Z) : Z := if z mod U16 <? 2 ^ 15 then z mod U16 else z mod U16 - U16.
Definition i16_MAX : Z := 2 ^ 15 - 1.
Definition sub_i16 (a b : Z) : outcome Z :=
  if (- 2 ^ 15 <=? a - b) && (a - b <? 2 ^ 15) then Ret (a - b) else Panic.
Definition abs_i16 (a : Z) : outcome Z := if a =? - 2 ^ 15 then Panic else Ret (Z.abs a).

Definition size_diff (left_side right_side : Z) : outcome Z :=
  d ← sub_i16 (as_i16 left_side) (as_i16 right_side); abs_i16 d.

(** The two candidates and how unbalanced they are. *)
Record candidates := mkCands {
  split_key_1 : option bytes;
  split_key_2 : option bytes;
  diff_1 : Z;
  diff_2 : Z;
}.

Definition no_candidates : candidates := mkCands None None i16_MAX i16_MAX.

(** A record of size [size] (descriptor included) has been counted in [merged]: past the target
    it becomes a candidate; [None] when there are two already. *)
Definition consider (total target merged size : Z) (key : outcome bytes) (c : candidates) :
    outcome (option candidates) :=
  if target <=? merged then
    k ← key;
    match split_key_2 c with
    | Some _ => Ret None
    | None =>
        left_side ← subu merged size;
        right_side ← subu total left_side;
        d ← size_diff left_side right_side;
        match split_key_1 c with
        | None => Ret (Some (mkCands (Some k) None d (diff_2 c)))
        | Some _ => Ret (Some (mkCands (split_key_1 c) (Some k) (diff_1 c) d))
        end
    end
  else Ret (Some c).

(** ** Merging a mini page *)

(** The records of the base page, with their positions. *)
Definition positioned (n : LeafNode) : outcome (list (Z * LeafKVMeta)) :=
  metas ← meta_iter n; Ret (zip (meta_positions n) metas).

(** First pass, inner loop: the base records below the key of the mini page. *)
Fixpoint sum_below (base : LeafNode) (key : bytes) (total : Z) (rest : list (Z * LeafKVMeta)) :
    outcome (Z * list (Z * LeafKVMeta)) :=
  match rest with
  | [] => Ret (total, [])
  | (_, m) :: rest' =>
      k ← get_full_key base m;
      match cmp_bytes k key with
      | Lt => t ← data_size_step total m; sum_below base key t rest'
      | _ => Ret (total, rest)
      end
  end.

(** A base record with the key of the mini page's record is skipped and remembered. *)
Definition skip_equal (base : LeafNode) (key : bytes) (rest : list (Z * LeafKVMeta)) :
    outcome (option Z * list (Z * LeafKVMeta)) :=
  match rest with
  | [] => Ret (None, [])
  | (pos, m) :: rest' =>
      k ← get_full_key base m;
      match cmp_bytes k key with Eq => Ret (Some pos, rest') | _ => Ret (None, rest) end
  end.

(** First pass: the total size of the merged records and the duplicates in the base page. *)
Fixpoint sum_merged (base mini : LeafNode) (minis : list LeafKVMeta) (rest : list (Z * LeafKVMeta))
    (total : Z) (dups : list Z) : outcome (Z * list Z) :=
  match minis with
  | [] => t ← foldM (λ t pm, data_size_step t pm.2) total rest; Ret (t, dups)
  | m :: minis' =>
      op ← op_type m;
      if negb (is_dirty op) then sum_merged base mini minis' rest total dups
      else
        key ← get_full_key mini m;
        r1 ← sum_below base key total rest;
        r2 ← skip_equal base key r1.2;
        t ← data_size_step r1.1 m;
        sum_merged base mini minis' r2.2 t (match r2.1 with Some pos => dups ++ [pos] | None => dups end)
  end.

(** Second pass, over base records: until the key of the mini page ([Some]), or to the end. *)
Fixpoint pick_base (base : LeafNode) (bound : option bytes) (total target merged : Z) (c : candidates)
    (rest : list (Z * LeafKVMeta)) : outcome (Z * candidates * list (Z * LeafKVMeta)) :=
  match rest with
  | [] => Ret (merged, c, [])
  | (_, m) :: rest' =>
      stop ← match bound with
             | Some key => k ← get_full_key base m; Ret (match cmp_bytes k key with Lt => false | _ => true end)
             | None => Ret false
             end;
      if stop : bool then Ret (merged, c, rest)
      else
        merged' ← data_size_step merged m;
        size ← record_size m;
        r ← consider total target merged' size (get_full_key base m) c;
        match r with
        | None => Ret (merged', c, rest)
        | Some c' => pick_base base bound total target merged' c' rest'
        end
  end.

Fixpoint pick_merged (base mini : LeafNode) (minis : list LeafKVMeta) (rest : list (Z * LeafKVMeta))
    (total target merged : Z) (c : candidates) : outcome (Z * candidates * list (Z * LeafKVMeta)) :=
  match minis with
  | [] => Ret (merged, c, rest)
  | m :: minis' =>
      op ← op_type m;
      if negb (is_dirty op) then pick_merged base mini minis' rest total target merged c
      else
        key ← get_full_key mini m;
        r1 ← pick_base base (Some key) total target merged c rest;
        let '(merged1, c1, rest1) := r1 in
        r2 ← skip_equal base key rest1;
        merged2 ← data_size_step merged1 m;
        size ← record_size m;
        r ← consider total target merged2 size (Ret key) c1;
        match r with
        | None => Ret (merged2, c1, r2.2)
        | Some c2 => pick_merged base mini minis' r2.2 total target merged2 c2
        end
  end.

Definition mark_deleted (n : LeafNode) (pos : Z) : outcome LeafNode := update_kv_meta n pos mark_as_deleted.

(** The better balanced candidate; the first when it is the only one. *)
Definition better (c : candidates) : outcome bytes :=
  match split_key_1 c with
  | None => Panic
  | Some k1 =>
      match split_key_2 c with
      | None => Ret k1
      | Some k2 => if diff_1 c <? diff_2 c then Ret k1 else Ret k2
      end
  end.

Definition keys_differ (c : candidates) : outcome unit :=
  match split_key_1 c, split_key_2 c with
  | Some k1, Some k2 => assert_ (match cmp_bytes k1 k2 with Eq => false | _ => true end)
  | _, _ => Ret tt
  end.

(** A split at the low fence is moved to the second candidate. *)
Definition off_low_fence (n : LeafNode) (c : candidates) (key : bytes) : outcome bytes :=
  m ← get_kv_meta n LOW_FENCE_IDX;
  if is_infinite_low_fence_key m then Ret key
  else
    low ← get_low_fence_key n;
    match cmp_bytes key low with
    | Eq => match split_key_2 c with Some k2 => Ret k2 | None => Panic end
    | _ => Ret key
    end.

Definition not_high_fence (n : LeafNode) (key : bytes) : outcome unit :=
  m ← get_kv_meta n HIGH_FENCE_IDX;
  if is_infinite_high_fence_key m then Ret tt
  else
    high ← get_high_fence_key n;
    assert_ (match cmp_bytes key high with Eq => false | _ => true end).

(** Returns the key, and the base page with the records the mini page replaces marked. *)
Definition get_merge_split_key (n mini_page : LeafNode) : outcome (bytes * LeafNode) :=
  minis ← meta_iter mini_page;
  base ← positioned n;
  sums ← sum_merged n mini_page minis base 0 [];
  let '(total, dups) := sums in
  let target := total / 2 in
  r1 ← pick_merged n mini_page minis base total target 0 no_candidates;
  let '(merged, c1, rest) := r1 in
  r2 ← pick_base n None total target merged c1 rest;
  let c := r2.1.2 in
  n' ← foldM mark_deleted n dups;
  key ← better c;
  _ ← keys_differ c;
  key' ← off_low_fence n' c key;
  _ ← not_high_fence n' key';
  Ret (key', n').

(** ** Inserting a record in cache-only mode *)

(** The new record is counted unless two candidates are there. *)
Definition count_new (total target new_size : Z) (key : bytes) (merged : Z) (c : candidates) :
    outcome (Z * candidates) :=
  match split_key_2 c with
  | Some _ => Ret (merged, c)
  | None =>
      merged' ← add16 merged new_size;
      r ← consider total target merged' new_size (Ret key) c;
      Ret (merged', default c r)
  end.

Definition get_cache_only_insert_split_key (n : LeafNode) (key : bytes) (new_record_size : Z) : outcome bytes :=
  metas ← positioned n;
  t ← foldM (λ t pm, data_size_step t pm.2) 0 metas;
  new_size ← add16 new_record_size KV_META_SIZE;
  total ← add16 t new_size;
  let target := total / 2 in
  r1 ← pick_base n (Some key) total target 0 no_candidates metas;
  let '(merged1, c1, rest) := r1 in
  r2 ← count_new total target new_size key merged1 c1;
  let '(merged2, c2) := r2 in
  r3 ← pick_base n None total target merged2 c2 rest;
  better r3.1.2.
