(* ===== verification/SplitKeyProofs.v ===== *)
(** The split keys of SplitKey.v are those of a reference definition: list the merged records
    in key order, with their sizes; the candidates are the record that reaches half of the
    total size and the one after it. *)
From stdpp Require Import base numbers list sorting.
From Stdlib Require Import ZArith Lia.
From S2P Require Import Prelude Bits NodeMeta LeafMeta LeafNode LeafOps LeafLayout Entries LeafRepr LeafSearch LeafInsert LeafMerge LeafRebuild LeafSplit SplitKey.

(** ** The reference *)

(** A record: its key and its size with the descriptor. *)
Abbreviation item := (bytes * Z)%type.

Definition item_of (r : krec) : item := (k_key r, rec_need r).

Definition items_size (l : list item) : Z := foldr (λ it acc, it.2 + acc) 0 l.

(** The base records below the key of a mini record come first; one with its key is replaced. *)
Fixpoint below (key : bytes) (l : list item) : nat :=
  match l with
  | [] => O
  | it :: l' => match cmp_bytes it.1 key with Lt => S (below key l') | _ => O end
  end.

Definition drop_equal (key : bytes) (l : list item) : list item :=
  match l with
  | [] => []
  | it :: l' => match cmp_bytes it.1 key with Eq => l' | _ => l end
  end.

Fixpoint merged_items (minis bases : list item) : list item :=
  match minis with
  | [] => bases
  | m :: minis' =>
      take (below m.1 bases) bases ++ m :: merged_items minis' (drop_equal m.1 (drop (below m.1 bases) bases))
  end.

Definition diff (total left_side : Z) : Z := Z.abs (left_side - (total - left_side)).

(** The candidates, from the records in order. *)
Fixpoint pick (total target merged : Z) (c : candidates) (l : list item) : candidates :=
  match l with
  | [] => c
  | it :: l' =>
      if target <=? merged + it.2 then
        match split_key_1 c, split_key_2 c with
        | _, Some _ => c
        | None, None => pick total target (merged + it.2) (mkCands (Some it.1) None (diff total merged) (diff_2 c)) l'
        | Some k, None => mkCands (Some k) (Some it.1) (diff_1 c) (diff total merged)
        end
      else pick total target (merged + it.2) c l'
  end.

Definition candidates_of (l : list item) : candidates :=
  pick (items_size l) (items_size l / 2) 0 no_candidates l.

(** ** Facts about the reference *)
Lemma items_size_app l1 l2 : items_size (l1 ++ l2) = items_size l1 + items_size l2.
Proof. induction l1 as [|x l1 IH]; cbn; [done|]. unfold items_size in *. lia. Qed.

Lemma items_size_cons it l : items_size (it :: l) = it.2 + items_size l.
Proof. done. Qed.

Definition positive (l : list item) : Prop := Forall (λ it, 0 < it.2) l.

Lemma items_size_nonneg l : positive l → 0 <= items_size l.
Proof. induction 1 as [|x l Hx _ IH]; cbn in *; [done|]. unfold items_size in *. lia. Qed.

Lemma pick_done total target merged c l k : split_key_2 c = Some k → pick total target merged c l = c.
Proof.
  revert merged. induction l as [|it l IH]; intros merged Hk; [done|]. cbn [pick]. rewrite Hk.
  destruct (target <=? _); [by destruct (split_key_1 c)|]. by apply IH.
Qed.

(** Once a first candidate is there the second is the next record. *)
Lemma pick_second total target merged c l k :
  positive l → target <= merged → split_key_1 c = Some k → split_key_2 c = None →
  pick total target merged c l =
    match l with [] => c | it :: _ => mkCands (Some k) (Some it.1) (diff_1 c) (diff total merged) end.
Proof.
  intros Hp Hm H1 H2. destruct l as [|it l]; [done|]. apply Forall_cons_1 in Hp as [Hp _]. cbn [pick].
  zcase (target <=? merged + it.2); [by rewrite H1, H2|lia].
Qed.

Lemma pick_first total target merged l :
  positive l → merged < target <= merged + items_size l →
  ∃ l1 it l2, l = l1 ++ it :: l2 ∧ merged + items_size l1 < target <= merged + items_size l1 + it.2 ∧
    pick total target merged no_candidates l =
      match l2 with
      | [] => mkCands (Some it.1) None (diff total (merged + items_size l1)) i16_MAX
      | it2 :: _ => mkCands (Some it.1) (Some it2.1) (diff total (merged + items_size l1))
                      (diff total (merged + items_size l1 + it.2))
      end.
Proof.
  intros Hp. revert merged. induction Hp as [|it l Hit Hp IH]; intros merged Hm; [cbn in Hm; lia|].
  cbn [pick split_key_1 split_key_2 no_candidates]. change (items_size (it :: l)) with (it.2 + items_size l) in Hm.
  zcase (target <=? merged + it.2).
  - exists [], it, l. split; [done|]. split; [cbn; lia|].
    rewrite (pick_second _ _ _ _ _ it.1) by (done || lia). cbn [items_size foldr]. rewrite Z.add_0_r. by destruct l.
  - destruct (IH (merged + it.2)) as (l1 & it1 & l2 & -> & Hb & ->); [lia|].
    exists (it :: l1), it1, l2. change (items_size (it :: l1)) with (it.2 + items_size l1).
    rewrite Z.add_assoc. split_and!; [done|lia|lia|done].
Qed.

Lemma below_bound key l : (below key l <= length l)%nat.
Proof. induction l as [|it l IH]; cbn; [done|]. destruct (cmp_bytes _ _); lia. Qed.

Lemma size_split k l : items_size l = items_size (take k l) + items_size (drop k l).
Proof. rewrite <- items_size_app. by rewrite take_drop. Qed.

Lemma positive_take k l : positive l → positive (take k l).
Proof. by apply Forall_take. Qed.
Lemma positive_drop k l : positive l → positive (drop k l).
Proof. by apply Forall_drop. Qed.

Lemma positive_drop_equal key l : positive l → positive (drop_equal key l).
Proof. intros Hp. destruct Hp as [|it l Hit Hp]; cbn; [by constructor|]. destruct (cmp_bytes _ _); by repeat constructor. Qed.

Lemma drop_equal_size key l : positive l → items_size (drop_equal key l) <= items_size l.
Proof.
  intros Hp. destruct Hp as [|it l Hit Hp]; cbn; [done|]. destruct (cmp_bytes _ _); cbn; lia.
Qed.

Lemma merged_size ms bs :
  positive ms → positive bs → positive (merged_items ms bs) ∧ items_size (merged_items ms bs) <= items_size ms + items_size bs.
Proof.
  intros Hm. revert bs. induction Hm as [|m ms Hm0 Hm IH]; intros bs Hb; cbn [merged_items]; [split; [done|]; cbn; lia|].
  set (k := below m.1 bs). destruct (IH (drop_equal m.1 (drop k bs))) as [Hp Hs].
  { by apply positive_drop_equal, positive_drop. }
  split.
  { apply Forall_app. split; [by apply positive_take|]. by constructor. }
  rewrite items_size_app. cbn [items_size foldr]. fold (items_size (merged_items ms (drop_equal m.1 (drop k bs)))).
  fold (items_size ms). pose proof (drop_equal_size m.1 (drop k bs) (positive_drop k _ Hb)).
  pose proof (size_split k bs). lia.
Qed.

(** ** One record *)
Lemma size_diff_ok a b : 0 <= a < 2 ^ 15 → 0 <= b < 2 ^ 15 → size_diff a b = Ret (Z.abs (a - b)).
Proof.
  intros Ha Hb. unfold size_diff, as_i16, sub_i16, abs_i16, U16.
  rewrite !Z.mod_small by lia. zcase (a <? 2 ^ 15); [|lia]. zcase (b <? 2 ^ 15); [|lia].
  zcase (- 2 ^ 15 <=? a - b); [|lia]. zcase (a - b <? 2 ^ 15); [|lia]. cbn [andb]. ret_step.
  zcase (a - b =? - 2 ^ 15); [lia|done].
Qed.

Definition considered (total target merged : Z) (it : item) (c : candidates) : candidates :=
  if target <=? merged + it.2 then
    match split_key_1 c with
    | None => mkCands (Some it.1) None (diff total merged) (diff_2 c)
    | Some k => mkCands (Some k) (Some it.1) (diff_1 c) (diff total merged)
    end
  else c.

Lemma consider_ok total target merged it c :
  0 <= merged <= total → 0 <= it.2 → total < 2 ^ 15 → split_key_2 c = None →
  consider total target (merged + it.2) it.2 (Ret it.1) c = Ret (Some (considered total target merged it c)).
Proof.
  intros Hm Hi Ht Hc. unfold consider, considered. destruct (target <=? _); [|done]. ret_step. rewrite Hc.
  rewrite subu_ok by lia. ret_step. replace (merged + it.2 - it.2) with merged by lia.
  rewrite subu_ok by lia. ret_step. rewrite size_diff_ok by lia. ret_step. unfold diff. by destruct (split_key_1 c).
Qed.

Lemma consider_done total target merged size key k c :
  target <= merged → split_key_2 c = Some k → consider total target merged size (Ret key) c = Ret None.
Proof. intros Ht Hc. unfold consider. zcase (target <=? merged); [|lia]. ret_step. by rewrite Hc. Qed.

(** Taking one record into account is the first step of [pick]. *)
Lemma pick_step total target merged it c l :
  split_key_2 c = None →
  pick total target merged c (it :: l) = pick total target (merged + it.2) (considered total target merged it c) l.
Proof.
  intros Hc. cbn [pick]. unfold considered. destruct (target <=? _); [|done]. rewrite Hc.
  destruct (split_key_1 c) as [k|]; [|done]. by rewrite (pick_done _ _ _ _ _ it.1).
Qed.

(** The candidates are looked for past the target only. *)
Definition past (target merged : Z) (c : candidates) : Prop := split_key_2 c ≠ None → target <= merged.

Lemma past_considered target total merged it c :
  0 <= it.2 → past target merged c → past target (merged + it.2) (considered total target merged it c).
Proof.
  intros Hi Hp. unfold past, considered in *. zcase (target <=? merged + it.2); [lia|].
  intros H. specialize (Hp H). lia.
Qed.

(** ** The base page *)
Section passes.
Context (n : LeafNode) (p : page).
Hypothesis HR : Repr n p.

Definition met (rs : list (Z * krec)) : list (Z * LeafKVMeta) := map (λ x, (x.1, rec_meta n x.2)) rs.
Definition its (rs : list (Z * krec)) : list item := map (λ x, item_of x.2) rs.
Definition known (rs : list (Z * krec)) : Prop := Forall (λ x, x.2 ∈ p_recs p) rs.

Lemma its_positive rs : positive (its rs).
Proof. apply Forall_map, Forall_true. intros x. cbn. unfold rec_need, KV_META_SIZE. pose proof (zlen_nonneg (k_key x.2)). pose proof (zlen_nonneg (k_val x.2)). lia. Qed.

Lemma known_drop k rs : known rs → known (drop k rs).
Proof. by apply Forall_drop. Qed.

Lemma met_key r : r ∈ p_recs p → get_full_key n (rec_meta n r) = Ret (k_key r).
Proof. intros Hr. by apply (rec_readers n p HR r). Qed.

Lemma met_size r : r ∈ p_recs p → rec_need r < U16 → record_size (rec_meta n r) = Ret (rec_need r).
Proof.
  intros Hr Hs. destruct (rec_readers n p HR r Hr) as (_ & _ & _ & Hk & Hv & _).
  unfold record_size. rewrite Hk, Hv. unfold add16, rec_need, KV_META_SIZE in *.
  pose proof (zlen_nonneg (k_key r)). pose proof (zlen_nonneg (k_val r)).
  zcase (zlen (k_key r) + zlen (k_val r) <? U16); [|lia]. ret_step.
  by zcase (zlen (k_key r) + zlen (k_val r) + 8 <? U16); [|lia].
Qed.

Lemma met_step r total :
  r ∈ p_recs p → 0 <= total → total + rec_need r < U16 → data_size_step total (rec_meta n r) = Ret (total + rec_need r).
Proof.
  intros Hr Ht Hs. unfold data_size_step. rewrite met_size by (done || lia). ret_step. unfold add16.
  by zcase (total + rec_need r <? U16); [|lia].
Qed.

Lemma sum_below_spec key rs total :
  known rs → 0 <= total → total + items_size (its rs) < U16 →
  sum_below n key total (met rs) =
    Ret (total + items_size (take (below key (its rs)) (its rs)), met (drop (below key (its rs)) rs)).
Proof.
  intros Hk. revert total. induction Hk as [|[z r] rs Hr Hk IH]; intros total Ht Hs; cbn [met its map sum_below below].
  { cbn. by rewrite Z.add_0_r. }
  cbn [snd fst] in *. rewrite met_key by done. ret_step. cbn [item_of fst].
  pose proof (items_size_nonneg _ (its_positive rs)). unfold its in Hs. cbn [map items_size foldr item_of snd] in Hs.
  fold (its rs) in Hs. fold (items_size (its rs)) in Hs. pose proof (rec_need_nonneg r).
  destruct (cmp_bytes (k_key r) key); cbn [take drop]; [by rewrite Z.add_0_r| |by rewrite Z.add_0_r].
  rewrite met_step by (done || lia). ret_step. fold (met rs). rewrite IH by lia. f_equal. f_equal.
  cbn [take items_size foldr item_of snd fst drop]. unfold its, items_size. lia.
Qed.

Definition skipped (key : bytes) (rs : list (Z * krec)) : list (Z * krec) :=
  match rs with
  | (z, r) :: rs' => match cmp_bytes (k_key r) key with Eq => rs' | _ => rs end
  | [] => []
  end.

Definition dup (key : bytes) (rs : list (Z * krec)) : option Z :=
  match rs with
  | (z, r) :: rs' => match cmp_bytes (k_key r) key with Eq => Some z | _ => None end
  | [] => None
  end.

Lemma skip_equal_eq key rs : known rs → skip_equal n key (met rs) = Ret (dup key rs, met (skipped key rs)).
Proof.
  intros Hk. destruct Hk as [|[z r] rs Hr Hk]; [done|]. cbn [met map skip_equal fst snd skipped dup].
  rewrite met_key by done. ret_step. by destruct (cmp_bytes _ _).
Qed.

Lemma skipped_its key rs : its (skipped key rs) = drop_equal key (its rs).
Proof. destruct rs as [|[z r] rs]; [done|]. cbn. by destruct (cmp_bytes _ _). Qed.

Lemma skipped_known key rs : known rs → known (skipped key rs).
Proof. intros Hk. destruct Hk as [|[z r] rs Hr Hk]; cbn; [constructor|]. destruct (cmp_bytes _ _); by try constructor. Qed.

(** How many records of the base page a run of [pick_base] may take. *)
Definition upto (bound : option bytes) (l : list item) : nat :=
  match bound with Some key => below key l | None => length l end.

Definition run (total target merged : Z) (c : candidates) (bound : option bytes) (rs : list (Z * krec))
    (res : Z * candidates * list (Z * LeafKVMeta)) : Prop :=
  ∃ merged' c' rs', res = (merged', c', met rs') ∧ known rs' ∧ past target merged' c' ∧ 0 <= merged' ∧
    (∀ l, pick total target merged c (take (upto bound (its rs)) (its rs) ++ l) = pick total target merged' c' l) ∧
    (split_key_2 c' = None →
      merged' = merged + items_size (take (upto bound (its rs)) (its rs)) ∧ rs' = drop (upto bound (its rs)) rs) ∧
    merged' <= merged + items_size (its rs) ∧ items_size (its rs') <= items_size (its rs).

Lemma run_stop total target merged c bound rs :
  known rs → past target merged c → 0 <= merged → upto bound (its rs) = 0%nat →
  run total target merged c bound rs (merged, c, met rs).
Proof.
  intros Hk Hp Hm Hu. exists merged, c, rs. pose proof (items_size_nonneg _ (its_positive rs)).
  unfold run. rewrite Hu. split_and!; try done; try lia. intros _. split; [by rewrite Z.add_0_r|done].
Qed.

Lemma run_done total target merged c bound rs k r :
  known rs → past target merged c → 0 <= merged → split_key_2 c = Some k → rec_need r <= items_size (its rs) →
  run total target merged c bound rs (merged + rec_need r, c, met rs).
Proof.
  intros Hk Hp Hm Hc Hr. exists (merged + rec_need r), c, rs. pose proof (rec_need_nonneg r).
  split_and!; try done; try lia.
  - intros H'. specialize (Hp H'). lia.
  - intros l. by rewrite !(pick_done _ _ _ _ _ k).
  - by rewrite Hc.
Qed.

Lemma run_step total target merged c bound z r rs res :
  let it := item_of r in
  split_key_2 c = None → upto bound (its ((z, r) :: rs)) = S (upto bound (its rs)) →
  run total target (merged + it.2) (considered total target merged it c) bound rs res →
  run total target merged c bound ((z, r) :: rs) res.
Proof.
  intros it Hc Hu (merged' & c' & rs' & -> & Hk & Hp & Hm & Hpick & Hend & Hb1 & Hb2).
  exists merged', c', rs'. rewrite Hu. change (its ((z, r) :: rs)) with (it :: its rs).
  rewrite items_size_cons. cbn [take drop].
  pose proof (rec_need_nonneg r) as Hr. change (rec_need r) with (it.2) in Hr.
  split_and!; try done; try lia.
  - intros l. change ((it :: take (upto bound (its rs)) (its rs)) ++ l) with (it :: (take (upto bound (its rs)) (its rs) ++ l)).
    by rewrite pick_step.
  - intros H. destruct (Hend H) as [-> ->]. split; [|done].
    rewrite items_size_cons. lia.
Qed.

Lemma pick_base_spec bound total target rs merged c :
  known rs → past target merged c → 0 <= merged → total < 2 ^ 15 → merged + items_size (its rs) < U16 →
  (split_key_2 c = None → merged + items_size (take (upto bound (its rs)) (its rs)) <= total) →
  ∃ res, pick_base n bound total target merged c (met rs) = Ret res ∧ run total target merged c bound rs res.
Proof.
  intros Hk. revert merged c. induction Hk as [|[z r] rs Hr Hk IH]; intros merged c Hp Hm Ht Hs Htot.
  { eexists. split; [done|]. apply (run_stop _ _ _ _ _ []); [constructor|done|done|by destruct bound]. }
  cbn [snd] in Hr. cbn [met map pick_base fst snd]. fold (met rs).
  assert (∃ b : bool, upto bound (its ((z, r) :: rs)) = (if b then 0%nat else S (upto bound (its rs))) ∧
    match bound with
    | Some key => k ← get_full_key n (rec_meta n r); Ret (match cmp_bytes k key with Lt => false | _ => true end)
    | None => Ret false
    end = Ret b) as (b & Hu & ->).
  { destruct bound as [key|]; [|by exists false]. rewrite met_key by done. ret_step. cbn.
    destruct (cmp_bytes (k_key r) key); [by exists true|by exists false|by exists true]. }
  ret_step. destruct b.
  { eexists. split; [done|]. apply (run_stop _ _ _ _ _ ((z, r) :: rs)); [by constructor|done..]. }
  rewrite Hu in Htot. change (its ((z, r) :: rs)) with (item_of r :: its rs) in Hs, Htot. cbn [take] in Htot.
  rewrite items_size_cons in Hs, Htot. cbn [item_of snd] in Hs, Htot.
  pose proof (rec_need_nonneg r). pose proof (items_size_nonneg _ (its_positive rs)).
  pose proof (items_size_nonneg _ (positive_take (upto bound (its rs)) _ (its_positive rs))).
  rewrite met_step by (done || lia). ret_step. rewrite met_size by (done || lia). ret_step. rewrite met_key by done.
  destruct (split_key_2 c) as [k|] eqn:Hc.
  - assert (target <= merged) by (apply Hp; by rewrite Hc).
    rewrite (consider_done _ _ _ _ _ k) by (done || lia). ret_step. eexists. split; [done|].
    apply (run_done _ _ _ _ _ ((z, r) :: rs) k); [by constructor|done..|].
    change (its ((z, r) :: rs)) with (item_of r :: its rs).
    rewrite items_size_cons. cbn [item_of snd]. lia.
  - specialize (Htot eq_refl). rewrite (consider_ok _ _ _ (item_of r)) by (done || cbn [item_of snd]; lia). ret_step.
    destruct (IH (merged + rec_need r) (considered total target merged (item_of r) c)) as (res & Hres & Hrun); try lia.
    { by apply (past_considered _ _ _ (item_of r)). }
    exists res. split; [exact Hres|]. by apply run_step.
Qed.
End passes.

(** ** Both pages *)
Definition dirty_rec (r : krec) : bool := is_dirty (e_op (k_ent r)).
Definition dirty_recs (rs : list krec) : list krec := List.filter dirty_rec rs.

(** The positions of the base records that a record of the mini page replaces. *)
Fixpoint duplicates (minis : list item) (rs : list (Z * krec)) : list Z :=
  match minis with
  | [] => []
  | m :: minis' =>
      let rest := drop (below m.1 (its rs)) rs in
      option_list (dup m.1 rest) ++ duplicates minis' (skipped m.1 rest)
  end.

Section merging.
Context (n mini : LeafNode) (p q : page).
Hypothesis HR : Repr n p.
Hypothesis HQ : Repr mini q.

Lemma its_drop k rs : its (drop k rs) = drop k (its rs).
Proof. unfold its. apply fmap_drop. Qed.

Lemma sum_rest rs total :
  known p rs → 0 <= total → total + items_size (its rs) < U16 →
  foldM (λ t pm, data_size_step t pm.2) total (met n rs) = Ret (total + items_size (its rs)).
Proof.
  intros Hk. revert total. induction Hk as [|[z r] rs Hr Hk IH]; intros total Ht Hs; cbn [met map foldM fst snd].
  { by rewrite Z.add_0_r. }
  cbn [snd] in Hr. change (its ((z, r) :: rs)) with (item_of r :: its rs) in *. rewrite items_size_cons in *.
  cbn [item_of snd] in *. pose proof (items_size_nonneg _ (its_positive rs)). pose proof (rec_need_nonneg r).
  rewrite (met_step n p HR) by (done || lia). ret_step. fold (met n rs). rewrite IH by lia. f_equal. lia.
Qed.

Definition minis_of (ms : list krec) : list item := map item_of (dirty_recs ms).

Lemma minis_positive ms : positive (minis_of ms).
Proof. apply Forall_map, Forall_true. intros r. cbn. unfold rec_need, KV_META_SIZE. pose proof (zlen_nonneg (k_key r)). pose proof (zlen_nonneg (k_val r)). lia. Qed.

Lemma option_list_app {A} (l : list A) o : match o with Some x => l ++ [x] | None => l end = l ++ option_list o.
Proof. destruct o; cbn; [done|by rewrite app_nil_r]. Qed.

Lemma sum_merged_spec ms rs total dups :
  Forall (λ r, r ∈ p_recs q) ms → known p rs → 0 <= total →
  total + items_size (minis_of ms) + items_size (its rs) < U16 →
  sum_merged n mini (map (rec_meta mini) ms) (met n rs) total dups =
    Ret (total + items_size (merged_items (minis_of ms) (its rs)), dups ++ duplicates (minis_of ms) rs).
Proof.
  intros Hms. revert rs total dups. induction Hms as [|m ms Hm Hms IH]; intros rs total dups Hk Ht Hs; cbn [map sum_merged].
  { rewrite sum_rest by (done || (cbn in Hs; lia)). ret_step. cbn. by rewrite app_nil_r. }
  destruct (rec_readers mini q HQ m Hm) as (Hkey & _ & Hop & _). rewrite Hop. ret_step.
  unfold minis_of, dirty_recs in *. cbn [List.filter] in *. fold (dirty_rec m).
  destruct (dirty_rec m); cbn [negb map] in *; [|by apply IH].
  rewrite Hkey. ret_step. rewrite items_size_cons in Hs. cbn [item_of snd] in Hs.
  set (mi := map item_of (List.filter dirty_rec ms)) in *. pose proof (items_size_nonneg _ (minis_positive ms)) as Hmi.
  change (minis_of ms) with mi in Hmi. pose proof (rec_need_nonneg m).
  pose proof (items_size_nonneg _ (its_positive rs)).
  rewrite (sum_below_spec n p HR) by (done || lia). ret_step. set (k := below (k_key m) (its rs)).
  cbn [fst snd]. rewrite (skip_equal_eq n p HR) by (by apply known_drop). ret_step. cbn [fst snd].
  pose proof (size_split k (its rs)). pose proof (items_size_nonneg _ (positive_take k _ (its_positive rs))).
  pose proof (items_size_nonneg _ (positive_drop k _ (its_positive rs))).
  pose proof (drop_equal_size (k_key m) _ (positive_drop k _ (its_positive rs))).
  rewrite (met_step mini q HQ) by (done || lia). ret_step.
  rewrite IH; [|by apply skipped_known, known_drop|lia|rewrite skipped_its, its_drop; lia].
  rewrite option_list_app, <- app_assoc. cbn [merged_items duplicates item_of fst]. fold k.
  rewrite items_size_app, items_size_cons, skipped_its, its_drop. cbn [item_of snd]. f_equal. f_equal. lia.
Qed.

Definition ran (total target all : Z) (goal : candidates) (res : Z * candidates * list (Z * LeafKVMeta)) : Prop :=
  ∃ merged' c' rs', res = (merged', c', met n rs') ∧ known p rs' ∧ past target merged' c' ∧ 0 <= merged' ∧
    goal = pick total target merged' c' (its rs') ∧ merged' <= all ∧ items_size (its rs') <= all ∧
    (split_key_2 c' = None → merged' + items_size (its rs') <= total).

Lemma skip_size key k rs :
  items_size (its (skipped key (drop k rs))) <= items_size (drop k (its rs)).
Proof. rewrite skipped_its, its_drop. apply drop_equal_size, positive_drop, its_positive. Qed.

Lemma pick_merged_spec all total target ms rs merged c :
  Forall (λ r, r ∈ p_recs q) ms → known p rs → past target merged c → 0 <= merged → total < 2 ^ 15 → all < 2 ^ 15 →
  merged + items_size (minis_of ms) + items_size (its rs) <= all →
  (split_key_2 c = None → merged + items_size (merged_items (minis_of ms) (its rs)) <= total) →
  ∃ res, pick_merged n mini (map (rec_meta mini) ms) (met n rs) total target merged c = Ret res ∧
    ran total target all (pick total target merged c (merged_items (minis_of ms) (its rs))) res.
Proof.
  intros Hms Hk Hp Hm Ht Hall. revert rs merged c Hk Hp Hm.
  induction Hms as [|m ms Hmq Hms IH]; intros rs merged c Hk Hp Hm Hs Htot; cbn [map pick_merged].
  { cbn in Hs, Htot. pose proof (items_size_nonneg _ (its_positive rs)). eexists. split; [done|].
    exists merged, c, rs. cbn. split_and!; done || lia. }
  destruct (rec_readers mini q HQ m Hmq) as (Hkey & _ & Hop & _). rewrite Hop. ret_step.
  unfold minis_of, dirty_recs in *. cbn [List.filter] in *. fold (dirty_rec m).
  destruct (dirty_rec m); cbn [negb map] in *; [|by apply IH].
  rewrite Hkey. ret_step. set (mi := map item_of (List.filter dirty_rec ms)) in *.
  pose proof (items_size_nonneg _ (minis_positive ms)) as Hmi. change (minis_of ms) with mi in Hmi.
  pose proof (rec_need_nonneg m). pose proof (items_size_nonneg _ (its_positive rs)).
  cbn [merged_items item_of fst] in *. rewrite items_size_app, !items_size_cons in *. cbn [item_of snd] in *.
  set (k := below (k_key m) (its rs)) in *. set (rest := drop_equal (k_key m) (drop k (its rs))) in *.
  assert (0 <= items_size (merged_items mi rest)).
  { apply items_size_nonneg, merged_size; [apply (minis_positive ms)|apply positive_drop_equal, positive_drop, its_positive]. }
  destruct (pick_base_spec n p HR (Some (k_key m)) total target rs merged c) as (r1 & -> & Hrun);
    [done..|unfold U16; lia|cbn [upto]; fold k; intros H'; specialize (Htot H'); lia|]. ret_step.
  destruct Hrun as (m1 & c1 & rs1 & -> & Hk1 & Hp1 & Hm1 & Hpick & Hend & Hb1 & Hb2). cbn [upto] in Hpick, Hend. fold k in Hpick, Hend.
  rewrite (skip_equal_eq n p HR) by done. ret_step. cbn [snd].
  rewrite (met_step mini q HQ) by (done || unfold U16; lia). ret_step.
  rewrite (met_size mini q HQ) by (done || unfold U16; lia). ret_step. rewrite Hpick.
  destruct (split_key_2 c1) as [k2|] eqn:Hc1.
  - assert (target <= m1) by (apply Hp1; by rewrite Hc1).
    rewrite (consider_done _ _ _ _ _ k2) by (done || lia). ret_step. eexists. split; [done|].
    exists (m1 + rec_need m), c1, (skipped (k_key m) rs1).
    rewrite !(pick_done _ _ _ _ _ k2) by done. rewrite Hc1. pose proof (skip_size (k_key m) 0 rs1) as Hsk. rewrite !drop_0 in Hsk.
    split_and!; try done; try lia; [by apply skipped_known|]. intros H'. specialize (Hp1 H'). lia.
  - destruct (Hend eq_refl) as [-> ->]. pose proof (size_split k (its rs)). pose proof (skip_size (k_key m) k rs).
    assert (merged + (items_size (take k (its rs)) + (rec_need m + items_size (merged_items mi rest))) <= total) as Htot'.
    { apply Htot. destruct (split_key_2 c) as [k2|] eqn:Hc; [|done]. specialize (Hpick []).
      rewrite (pick_done _ _ _ _ _ k2) in Hpick by done. cbn [pick] in Hpick. congruence. }
    rewrite (consider_ok _ _ _ (item_of m)) by (done || cbn [item_of snd]; lia). ret_step.
    rewrite pick_step by done.
    destruct (IH (skipped (k_key m) (drop k rs)) (merged + items_size (take k (its rs)) + rec_need m)
      (considered total target (merged + items_size (take k (its rs))) (item_of m) c1)) as (res & Hres & Hran);
      [by apply skipped_known, known_drop|by apply (past_considered _ _ _ (item_of m))|lia|lia|
       intros _; rewrite skipped_its, its_drop; fold rest; lia|].
    exists res. split; [exact Hres|]. by rewrite skipped_its, its_drop in Hran.
Qed.
End merging.

(** ** Order *)
Definition item_lt (a b : item) : Prop := bytes_lt a.1 b.1.
Abbreviation in_order l := (StronglySorted item_lt l).

Lemma in_order_app l1 l2 :
  in_order (l1 ++ l2) ↔ in_order l1 ∧ in_order l2 ∧ Forall (λ a, Forall (item_lt a) l2) l1.
Proof.
  induction l1 as [|a l1 IH]; cbn; [split; [by intros; repeat constructor|tauto]|]. split.
  - intros H. apply StronglySorted_inv in H as [H Ha]. apply IH in H as (H1 & H2 & H3).
    apply Forall_app in Ha as [Ha1 Ha2]. split_and!; [by constructor|done|by constructor].
  - intros (H1 & H2 & H3). apply StronglySorted_inv in H1 as [H1 Ha]. apply Forall_cons_1 in H3 as [H3 H4].
    constructor; [by apply IH|]. by apply Forall_app.
Qed.

Lemma in_order_drop k l : in_order l → in_order (drop k l).
Proof. rewrite <- (take_drop k l) at 1. intros H%in_order_app. tauto. Qed.

Lemma below_take key l : in_order l → Forall (λ a, bytes_lt a.1 key) (take (below key l) l).
Proof.
  induction 1 as [|a l Hs IH Ha]; cbn [below take]; [done|].
  destruct (cmp_bytes a.1 key) eqn:E; cbn [take]; [constructor| |constructor]. by constructor.
Qed.

(** What is left of the base page after a record of the mini page lies above it. *)
Lemma above_rest key l :
  in_order l → Forall (λ a, bytes_lt key a.1) (drop_equal key (drop (below key l) l)).
Proof.
  induction 1 as [|a l Hs IH Ha]; cbn [below]; [constructor|].
  destruct (cmp_bytes a.1 key) eqn:E; cbn [drop drop_equal]; [| |]; rewrite ?E.
  - apply cmp_eq in E. eapply Forall_impl; [exact Ha|]. unfold item_lt. by rewrite E.
  - exact IH.
  - apply cmp_gt_lt in E. constructor; [done|]. eapply Forall_impl; [exact Ha|]. intros b Hb.
    by eapply cmp_lt_trans.
Qed.

Lemma drop_equal_sub key l x : x ∈ drop_equal key l → x ∈ l.
Proof. destruct l as [|a l]; cbn; [done|]. destruct (cmp_bytes _ _); intros ?; [by right|done..]. Qed.

Lemma drop_equal_order key l : in_order l → in_order (drop_equal key l).
Proof. intros H. destruct H as [|a l Hs Ha]; cbn; [constructor|]. destruct (cmp_bytes _ _); [done|by constructor..]. Qed.

(** The merged records come from the two pages, *)
Lemma merged_sub ms bs x : x ∈ merged_items ms bs → x ∈ ms ∨ x ∈ bs.
Proof.
  revert bs. induction ms as [|m ms IH]; intros bs; cbn [merged_items]; [by right|].
  rewrite elem_of_app, !elem_of_cons. set (k := below m.1 bs).
  assert (∀ y, y ∈ take k bs ∨ y ∈ drop k bs → y ∈ bs) as Hsub.
  { intros y Hy. by rewrite <- (take_drop k bs), elem_of_app. }
  intros [Hx|[->|Hx]]; [by auto|by auto|]. destruct (IH _ Hx) as [?|H]; [by auto|].
  right. apply Hsub. right. by apply drop_equal_sub in H.
Qed.

(** in key order, *)
Lemma merged_order ms bs : in_order ms → in_order bs → in_order (merged_items ms bs).
Proof.
  intros Hms. revert bs. induction Hms as [|m ms Hms IH Hm]; intros bs Hbs; cbn [merged_items]; [done|].
  set (k := below m.1 bs). pose proof (below_take m.1 bs Hbs) as Ht. fold k in Ht.
  pose proof (above_rest m.1 bs Hbs) as Ha. fold k in Ha. set (rest := drop_equal m.1 (drop k bs)) in *.
  assert (Forall (λ a, bytes_lt m.1 a.1) (merged_items ms rest)) as Hr.
  { apply Forall_forall. intros x [Hx|Hx]%merged_sub; [by apply (Forall_forall (item_lt m) ms)|].
    by apply (Forall_forall (λ a, bytes_lt m.1 a.1) rest). }
  apply in_order_app. split_and!.
  - rewrite <- (take_drop k bs) in Hbs. by apply in_order_app in Hbs as (? & _ & _).
  - constructor; [|exact Hr]. apply IH, drop_equal_order, in_order_drop, Hbs.
  - eapply Forall_impl; [exact Ht|]. intros a Hlt. constructor; [exact Hlt|].
    eapply Forall_impl; [exact Hr|]. intros b Hb. exact (cmp_lt_trans _ _ _ Hlt Hb).
Qed.

(** and every record of the mini page is there. *)
Lemma merged_minis ms bs x : x ∈ ms → x ∈ merged_items ms bs.
Proof.
  revert bs. induction ms as [|m ms IH]; intros bs Hx; [by apply not_elem_of_nil in Hx|]. cbn [merged_items].
  apply elem_of_app. right. apply elem_of_cons. apply elem_of_cons in Hx as [->|Hx]; [by left|right; by apply IH].
Qed.

(** ** The replaced records of the base page *)
Lemma elem_take_drop {A} k (l : list A) x : x ∈ l → x ∈ take k l ∨ x ∈ drop k l.
Proof. rewrite <- (take_drop k l) at 1. apply elem_of_app. Qed.

Lemma elem_drop {A} k (l : list A) x : x ∈ drop k l → x ∈ l.
Proof. intros H. rewrite <- (take_drop k l). apply elem_of_app. by right. Qed.

Lemma skipped_sub key rs x : x ∈ skipped key rs → x ∈ rs.
Proof. destruct rs as [|[z r] rs]; cbn; [done|]. destruct (cmp_bytes _ _); intros ?; [by right|done..]. Qed.

Lemma its_elem x rs : x ∈ rs → item_of x.2 ∈ its rs.
Proof. intros H. apply (list_elem_of_fmap_2 (λ y, item_of y.2) _ _ H). Qed.

Lemma dup_or_skipped key z r rs :
  in_order (its rs) → (z, r) ∈ rs → cmp_bytes (k_key r) key ≠ Lt → Forall (λ a, cmp_bytes a.1 key ≠ Lt) (its rs) →
  if decide (k_key r = key) then dup key rs = Some z else (z, r) ∈ skipped key rs.
Proof.
  intros Ho Hin Hge Hall. destruct rs as [|[z0 r0] rs]; [by apply not_elem_of_nil in Hin|].
  apply StronglySorted_inv in Ho as [_ Ha]. apply Forall_cons_1 in Hall as [H0 _]. cbn [fst snd item_of] in *. cbn [dup skipped].
  apply elem_of_cons in Hin as [[= -> ->]|Hin].
  - case_decide as Hk; [by rewrite Hk, cmp_refl|]. destruct (cmp_bytes (k_key r0) key) eqn:E; [by apply cmp_eq in E|by left|by left].
  - rewrite Forall_forall in Ha. specialize (Ha _ (its_elem _ _ Hin)). cbn in Ha.
    case_decide as Hk; [|destruct (cmp_bytes (k_key r0) key); [done|by right|by right]].
    exfalso. apply H0. rewrite <- Hk. exact Ha.
Qed.

Lemma below_at key l : in_order l → Forall (λ a, cmp_bytes a.1 key ≠ Lt) (drop (below key l) l).
Proof.
  induction 1 as [|a l Hs IH Ha]; cbn [below]; [constructor|].
  destruct (cmp_bytes a.1 key) eqn:E; cbn [drop]; [| exact IH |].
  - apply cmp_eq in E. constructor; [by rewrite E, cmp_refl|]. eapply Forall_impl; [exact Ha|].
    intros b Hb. rewrite <- E. rewrite (proj2 (cmp_gt_lt _ _) Hb). done.
  - constructor; [by rewrite E|]. apply cmp_gt_lt in E. eapply Forall_impl; [exact Ha|].
    intros b Hb. by rewrite (proj2 (cmp_gt_lt _ _) (cmp_lt_trans _ _ _ E Hb)).
Qed.

Lemma dup_inv key rs z : dup key rs = Some z → ∃ r, (z, r) ∈ rs ∧ k_key r = key.
Proof.
  destruct rs as [|[z0 r0] rs]; [done|]. cbn. destruct (cmp_bytes _ _) eqn:E; [|done|done].
  intros [= ->]. apply cmp_eq in E. exists r0. split; [by left|done].
Qed.

(** The positions found are those of the keys that the mini page has too. *)
Lemma duplicates_spec ms rs z :
  in_order ms → in_order (its rs) →
  z ∈ duplicates ms rs ↔ ∃ r, (z, r) ∈ rs ∧ k_key r ∈ ms.*1.
Proof.
  intros Hms. revert rs. induction Hms as [|m ms Hms IH Hm]; intros rs Hrs.
  { cbn. split; [by intros H%not_elem_of_nil|by intros (r & _ & H%not_elem_of_nil)]. }
  cbn [duplicates]. set (k := below m.1 (its rs)). set (rest := drop k rs).
  assert (its rest = drop k (its rs)) as Hrest by apply its_drop.
  assert (in_order (its rest)) as Ho by (rewrite Hrest; by apply in_order_drop).
  rewrite elem_of_app, IH by (rewrite skipped_its; by apply drop_equal_order). rewrite fmap_cons. split.
  - intros [Hz|(r & Hr & Hk)].
    + destruct (dup m.1 rest) as [z'|] eqn:Hd; [|by apply not_elem_of_nil in Hz].
      apply list_elem_of_singleton in Hz as ->. apply dup_inv in Hd as (r & Hr & Hk). exists r.
      split; [by eapply elem_drop|]. rewrite Hk. by left.
    + exists r. split; [by eapply elem_drop, skipped_sub|by right].
  - intros (r & Hr & Hk).
    assert (cmp_bytes (k_key r) m.1 ≠ Lt) as Hge.
    { apply elem_of_cons in Hk as [->|Hk]; [by rewrite cmp_refl|].
      apply list_elem_of_fmap in Hk as (x & -> & Hx). rewrite Forall_forall in Hm.
      by rewrite (proj2 (cmp_gt_lt _ _) (Hm _ Hx)). }
    destruct (elem_take_drop k rs _ Hr) as [Ht|Hd].
    { exfalso. apply Hge. pose proof (below_take m.1 (its rs) Hrs) as Hb. rewrite Forall_forall in Hb.
      apply (Hb (item_of r)). fold k. unfold its. rewrite <- fmap_take. apply (its_elem _ _ Ht). }
    pose proof (dup_or_skipped m.1 z r rest Ho Hd Hge) as H. rewrite Hrest in H.
    specialize (H (below_at _ _ Hrs)). case_decide as Hkm; [left; rewrite H; by left|].
    right. exists r. split; [done|]. by apply elem_of_cons in Hk as [?|?].
Qed.

Definition deleted (r : krec) : krec := mkKrec (mkEntry (k_key r) OpDelete (k_val r)) (k_ref r) (k_off r).

Lemma mark_spec n p dups :
  Repr n p → Forall (λ z, ∃ i r, z = first_meta_pos_after_fence n + Z.of_nat i ∧ p_recs p !! i = Some r) dups →
  ∃ d p', foldM mark_deleted n dups = Ret (set_data n d) ∧ Repr (set_data n d) p' ∧ p_fences p' = p_fences p ∧
    ∀ i, p_recs p' !! i =
      (λ r, if bool_decide (first_meta_pos_after_fence n + Z.of_nat i ∈ dups) then deleted r else r) <$> p_recs p !! i.
Proof.
  revert n p. induction dups as [|z dups IH]; intros n p HR Hd; cbn [foldM].
  { exists (data n), p. destruct n. split_and!; try done. intros i. by destruct (_ !! i). }
  apply Forall_cons_1 in Hd as [(i & r & -> & Hi) Hd].
  pose proof (repr_rec_ok n p HR _ r Hi) as [_ (H1 & H2 & H3 & H4 & _)].
  destruct (update_rec n p HR i r mark_as_deleted OpDelete (k_val r) (k_ref r) Hi)
    as (d & Hu & HR1); [done|done|by intros; apply pack_set_op|].
  change (mark_deleted n ?z) with (update_kv_meta n z mark_as_deleted). rewrite Hu. ret_step. fold (deleted r) in HR1.
  destruct (IH _ _ HR1) as (d' & p' & Hf & HR' & Hfe & Hl).
  { eapply Forall_impl; [exact Hd|]. intros z (j & r' & -> & Hj). exists j. cbn [set_rec p_recs].
    destruct (decide (i = j)) as [->|Hij]; [eexists; split; [done|]; by rewrite list_lookup_insert_eq by (by eapply lookup_lt_Some)|].
    rewrite list_lookup_insert_ne by done. eauto. }
  exists d', p'. split_and!; try done. intros j. rewrite Hl. cbn [set_rec p_recs].
  change (first_meta_pos_after_fence (set_data n d)) with (first_meta_pos_after_fence n).
  set (f := first_meta_pos_after_fence n). destruct (decide (i = j)) as [->|Hij].
  - rewrite list_lookup_insert_eq, Hi by (by eapply lookup_lt_Some). cbn.
    rewrite (bool_decide_eq_true_2 (_ ∈ _ :: dups)) by (by left). by case_bool_decide.
  - rewrite list_lookup_insert_ne by done. destruct (p_recs p !! j) as [r'|]; [|done]. cbn.
    erewrite bool_decide_ext; [done|]. rewrite elem_of_cons. split; [by right|]. intros [H|?]; [lia|done].
Qed.

(** ** The chosen key *)

(** The key cuts the records in two non-empty halves whose sizes differ by no more than the
    size of one record. *)
Definition balanced (l : list item) (key : bytes) : Prop :=
  ∃ l1 it l2 it', l = l1 ++ it :: l2 ∧ l1 ≠ [] ∧ key = it.1 ∧ it' ∈ l ∧
    Z.abs (items_size l1 - items_size (it :: l2)) <= it'.2.

Lemma chosen l :
  positive l → (2 <= length l)%nat →
  ∃ key, better (candidates_of l) = Ret key ∧ (in_order l → keys_differ (candidates_of l) = Ret tt) ∧ balanced l key.
Proof.
  intros Hp Hlen.
  assert (2 <= items_size l) as Hsz.
  { destruct Hp as [|a l Ha Hp]; [cbn in Hlen; lia|]. destruct Hp as [|b l Hb Hp]; [cbn in Hlen; lia|].
    rewrite !items_size_cons. pose proof (items_size_nonneg l Hp). lia. }
  destruct (pick_first (items_size l) (items_size l / 2) 0 l Hp) as (l1 & it & l2 & Hl & Hb & Hpick); [dlia|].
  unfold candidates_of. rewrite Hpick, !Z.add_0_l in *. clear Hpick.
  assert (items_size l = items_size l1 + it.2 + items_size l2) as Hs by (rewrite Hl, items_size_app, items_size_cons; lia).
  rewrite Hl in Hp. apply Forall_app in Hp as [Hp1 Hp]. apply Forall_cons_1 in Hp as [Hit Hp2].
  pose proof (items_size_nonneg _ Hp1). pose proof (items_size_nonneg _ Hp2).
  destruct l2 as [|it2 l2].
  { exists it.1. split_and!; [done|done|]. exists l1, it, [], it. rewrite items_size_cons. change (items_size []) with 0 in *.
    split_and!; [done| |done|rewrite Hl, elem_of_app, elem_of_cons; tauto|dlia].
    intros ->. rewrite Hl in Hlen. cbn in Hlen. lia. }
  unfold better, keys_differ. cbn [split_key_1 split_key_2 diff_1 diff_2].
  assert (in_order l → assert_ (match cmp_bytes it.1 it2.1 with Eq => false | _ => true end) = Ret tt) as Hdiff.
  { intros Ho. enough (cmp_bytes it.1 it2.1 = Lt) as -> by done. rewrite Hl in Ho. apply in_order_app in Ho as (_ & Ho & _). apply StronglySorted_inv in Ho as [_ Ho].
    by apply Forall_cons_1 in Ho as [Ho _]. }
  rewrite items_size_cons in Hs. apply Forall_cons_1 in Hp2 as [Hit2 Hp2]. unfold diff in *.
  pose proof (items_size_nonneg _ Hp2).
  destruct (Z.ltb_spec (Z.abs (items_size l1 - (items_size l - items_size l1)))
                       (Z.abs (items_size l1 + it.2 - (items_size l - (items_size l1 + it.2))))) as [Hlt|Hge].
  - exists it.1. split_and!; [done|done|]. exists l1, it, (it2 :: l2), it. rewrite !items_size_cons.
    split_and!; [done| |done|rewrite Hl, elem_of_app, elem_of_cons; tauto|dlia].
    intros ->. change (items_size []) with 0 in *. dlia.
  - exists it2.1. split_and!; [done|done|]. exists (l1 ++ [it]), it2, l2, it. rewrite items_size_app, !items_size_cons.
    change (items_size []) with 0. rewrite <- app_assoc.
    split_and!; [done|by destruct l1|done|rewrite Hl, elem_of_app, elem_of_cons; tauto|dlia].
Qed.

(** It lies above the first record. *)
Lemma balanced_above l key f :
  in_order l → balanced l key → Forall (λ a, cmp_bytes f a.1 ≠ Gt) l → bytes_lt f key.
Proof.
  intros Ho (l1 & it & l2 & _ & -> & Hne & -> & _) Hf. destruct l1 as [|a l1]; [done|].
  apply in_order_app in Ho as (_ & _ & Ho). apply Forall_cons_1 in Ho as [Ho _]. apply Forall_cons_1 in Ho as [Ho _].
  apply Forall_cons_1 in Hf as [Hf _]. by eapply cmp_le_lt_trans.
Qed.

Lemma balanced_elem l key : balanced l key → ∃ it, it ∈ l ∧ key = it.1.
Proof.
  intros (l1 & it & l2 & _ & -> & _ & -> & _). exists it. split; [|done].
  apply elem_of_app. right. by left.
Qed.

(** ** [get_merge_split_key] *)
Definition entry_item (e : entry) : item := (e_key e, zlen (e_key e) + zlen (e_val e) + KV_META_SIZE).

Definition dirty_entries (es : list entry) : list entry := List.filter (λ e, is_dirty (e_op e)) es.

(** The records of the base page once those of the mini page replace them. *)
Definition replaced (ms : list entry) (e : entry) : entry :=
  if bool_decide (e_key e ∈ map e_key (dirty_entries ms)) then overwrite e OpDelete [] else e.

Definition merged_entries (ms es : list entry) : list item :=
  merged_items (map entry_item (dirty_entries ms)) (map entry_item es).

Lemma ordered_items es : ordered es → in_order (map entry_item es).
Proof.
  induction 1 as [|e es Hs IH Ha]; cbn; constructor; [done|]. apply Forall_map.
  eapply Forall_impl; [exact Ha|]. by intros e'.
Qed.

Lemma dirty_ordered es : ordered es → ordered (dirty_entries es).
Proof.
  intros H. eapply ordered_sublist, H. induction es as [|e es IH]; cbn; [constructor|].
  apply StronglySorted_inv in H as [H _]. destruct (is_dirty _); [by apply sublist_skip, IH|by apply sublist_cons, IH].
Qed.

Lemma minis_entries ms : minis_of ms = map entry_item (dirty_entries (map k_ent ms)).
Proof.
  induction ms as [|m ms IH]; [done|]. unfold minis_of, dirty_recs, dirty_entries in *. cbn [map List.filter].
  unfold dirty_rec at 1. destruct (is_dirty _); cbn [map]; by rewrite IH.
Qed.

Section split_key.
Context (n mini : LeafNode) (p q : page) (l h : fence).
Hypothesis HR : Repr n p.
Hypothesis HQ : Repr mini q.
Hypothesis Hfence : p_fences p = Some (l, h).

Definition numbered : list (Z * krec) := zip (meta_positions n) (p_recs p).

Lemma numbered_lookup z r :
  (z, r) ∈ numbered ↔ ∃ i, z = first_meta_pos_after_fence n + Z.of_nat i ∧ p_recs p !! i = Some r.
Proof.
  unfold numbered. rewrite (repr_positions n p HR), (repr_first n p HR), list_elem_of_lookup.
  setoid_rewrite lookup_zip_with_Some. split.
  - intros (i & z' & r' & [= <- <-] & Hz & Hr). apply lookup_seqZ in Hz as [Hz _]. exists i. split; [lia|done].
  - intros (i & -> & Hr). exists i. eexists _, _. split; [done|]. split; [|done]. apply lookup_seqZ.
    apply lookup_lt_Some in Hr. unfold zlen. lia.
Qed.

Lemma numbered_recs : map snd numbered = p_recs p.
Proof.
  unfold numbered. rewrite (repr_positions n p HR). apply (snd_zip (A:=Z)). rewrite length_seqZ. unfold zlen. lia.
Qed.

Lemma numbered_its : its numbered = map entry_item (p_entries p).
Proof.
  unfold its, p_entries. rewrite map_map, <- numbered_recs, map_map. by apply map_ext.
Qed.

Lemma positioned_spec : positioned n = Ret (met n numbered).
Proof.
  unfold positioned. rewrite (repr_meta_iter n p HR). ret_step. f_equal. unfold numbered, met.
  generalize (meta_positions n) (p_recs p). intros zs. induction zs as [|z zs IH]; intros [|r rs]; cbn; [done..|].
  f_equal. apply IH.
Qed.

Lemma numbered_known : known p numbered.
Proof.
  apply Forall_forall. intros [z r] (i & _ & Hi)%numbered_lookup. by eapply list_elem_of_lookup_2.
Qed.

Lemma replaced_entries p' :
  (∀ i, p_recs p' !! i =
    (λ r, if bool_decide (first_meta_pos_after_fence n + Z.of_nat i ∈ duplicates (minis_of (p_recs q)) numbered)
          then deleted r else r) <$> p_recs p !! i) →
  p_entries p' = map (replaced (p_entries q)) (p_entries p).
Proof.
  intros Hl. apply list_eq. intros i. unfold p_entries. rewrite map_map, !list_lookup_fmap, Hl.
  destruct (p_recs p !! i) as [r|] eqn:Hr; [|done]. cbn. f_equal. unfold replaced.
  assert (first_meta_pos_after_fence n + Z.of_nat i ∈ duplicates (minis_of (p_recs q)) numbered ↔
    e_key (k_ent r) ∈ map e_key (dirty_entries (map k_ent (p_recs q)))) as Hiff; [|rewrite (bool_decide_ext _ _ Hiff); by case_bool_decide].
  rewrite duplicates_spec; [|rewrite minis_entries; apply ordered_items, dirty_ordered, (re_order _ _ HQ)
    |rewrite numbered_its; apply ordered_items, (re_order _ _ HR)].
  rewrite minis_entries. change (?f <$> map entry_item ?x) with (map f (map entry_item x)). rewrite map_map. split.
  - intros (r' & (j & Hj & Hr')%numbered_lookup & Hk). assert (j = i) as -> by lia. rewrite Hr in Hr'. injection Hr' as <-. exact Hk.
  - intros Hk. exists r. split; [|done]. apply numbered_lookup. eauto.
Qed.

Lemma low_kept n' p' key :
  Repr n' p' → p_fences p' = Some (l, h) → bytes_lt (fence_key l) key →
  ∀ c, off_low_fence n' c key = Ret key.
Proof.
  intros HR' Hf Hlt c. unfold off_low_fence. rewrite (low_fence_meta n' p' HR' l h Hf). ret_step.
  destruct (is_infinite_low_fence_key _); [done|]. rewrite (low_fence_key n' p' HR' l h Hf). ret_step.
  by rewrite (proj2 (cmp_gt_lt _ _) Hlt).
Qed.

Lemma high_kept n' p' key :
  Repr n' p' → p_fences p' = Some (l, h) → below_high h key → not_high_fence n' key = Ret tt.
Proof.
  intros HR' Hf Hlt. unfold not_high_fence. rewrite (high_fence_meta n' p' HR' l h Hf). ret_step.
  destruct (is_infinite_high_fence_key _) eqn:E; [done|]. rewrite (high_fence_key n' p' HR' l h Hf). ret_step.
  destruct h as [|ho hk]; [done|]. cbn in Hlt |- *. by rewrite Hlt.
Qed.

Hypothesis Hrange : Forall (λ e, in_range (p_fences p) (e_key e)) (dirty_entries (p_entries q)).
Hypothesis Hsize : items_size (map entry_item (dirty_entries (p_entries q))) + items_size (map entry_item (p_entries p)) < 2 ^ 15.

Abbreviation merged := (merged_entries (p_entries q) (p_entries p)).

Lemma merged_in_range it : it ∈ merged → in_range (p_fences p) it.1.
Proof.
  intros [H|H]%merged_sub; apply list_elem_of_fmap in H as (e & -> & He); cbn.
  - rewrite Forall_forall in Hrange. by apply Hrange.
  - pose proof (re_range _ _ HR) as Hr. rewrite Forall_forall in Hr. by apply Hr.
Qed.

Lemma merged_bounds :
  in_order merged ∧ positive merged ∧ items_size merged < 2 ^ 15.
Proof.
  assert (∀ es, positive (map entry_item es)) as Hpos.
  { intros es. apply Forall_map, Forall_true. intros e. cbn. unfold KV_META_SIZE.
    pose proof (zlen_nonneg (e_key e)). pose proof (zlen_nonneg (e_val e)). lia. }
  destruct (merged_size _ _ (Hpos (dirty_entries (p_entries q))) (Hpos (p_entries p))) as [Hp Hs].
  split_and!; [|done|unfold merged_entries in *; lia].
  apply merged_order; apply ordered_items; [apply dirty_ordered, (re_order _ _ HQ)|apply (re_order _ _ HR)].
Qed.

(** Both passes, on the whole pages. *)
Lemma passes_spec :
  ∃ merged1 c1 rest r2,
    sum_merged n mini (map (rec_meta mini) (p_recs q)) (met n numbered) 0 [] =
      Ret (items_size merged, duplicates (minis_of (p_recs q)) numbered) ∧
    pick_merged n mini (map (rec_meta mini) (p_recs q)) (met n numbered) (items_size merged)
      (items_size merged / 2) 0 no_candidates = Ret (merged1, c1, rest) ∧
    pick_base n None (items_size merged) (items_size merged / 2) merged1 c1 rest = Ret r2 ∧
    r2.1.2 = candidates_of merged.
Proof.
  pose proof merged_bounds as (_ & Hpos & Hm). pose proof (items_size_nonneg _ Hpos).
  assert (Forall (λ r, r ∈ p_recs q) (p_recs q)) as Hall by (by apply Forall_forall).
  unfold merged_entries, p_entries in Hm, Hsize |- *. rewrite <- minis_entries in *.
  fold (p_entries p) in Hm, Hsize |- *. rewrite <- numbered_its in *.
  pose proof numbered_known as Hk.
  rewrite (sum_merged_spec n mini p q HR HQ) by (done || lia || unfold U16; lia).
  set (total := items_size (merged_items (minis_of (p_recs q)) (its numbered))) in *.
  destruct (pick_merged_spec n mini p q HR HQ (2 ^ 15 - 1) total (total / 2) (p_recs q) numbered 0 no_candidates)
    as (r1 & Hr1 & m1 & c1 & rs & -> & Hk1 & Hp1 & Hm1 & Hgoal & Hb1 & Hb2 & Hb3);
    [done|done|intros Hno; by destruct Hno|lia|lia|lia|lia|by intros; lia|].
  destruct (pick_base_spec n p HR None total (total / 2) rs m1 c1) as (r2 & Hr2 & Hrun);
    [done..|unfold U16; lia|intros H'; cbn [upto]; rewrite take_ge by done; by apply Hb3|].
  exists m1, c1, (met n rs), r2. split_and!; [done|done|done|].
  destruct Hrun as (m2 & c2 & rs2 & -> & _ & _ & _ & Hpick & _). cbn [fst snd].
  specialize (Hpick []). cbn [upto pick] in Hpick. rewrite take_ge, app_nil_r in Hpick by done.
  unfold candidates_of. fold total. congruence.
Qed.

Lemma get_merge_split_key_spec :
  (2 <= length merged)%nat →
  ∃ key d p', get_merge_split_key n mini = Ret (key, set_data n d) ∧ Repr (set_data n d) p' ∧
    p_fences p' = p_fences p ∧ p_entries p' = map (replaced (p_entries q)) (p_entries p) ∧
    balanced merged key ∧ bytes_lt (fence_key l) key ∧ below_high h key.
Proof.
  intros Hlen. pose proof merged_bounds as (Ho & Hpos & _).
  destruct (chosen _ Hpos Hlen) as (key & Hbetter & Hdiff & Hbal).
  destruct (balanced_elem _ _ Hbal) as (it & Hit & Hkey). pose proof (merged_in_range it Hit) as Hin.
  rewrite Hfence, <- Hkey in Hin. destruct Hin as [_ Hhigh].
  assert (bytes_lt (fence_key l) key) as Hlow.
  { apply (balanced_above _ _ _ Ho Hbal). apply Forall_forall. intros a Ha%merged_in_range.
    rewrite Hfence in Ha. destruct Ha as [Ha _]. destruct l as [|lo lk]; [by destruct a.1|done]. }
  destruct passes_spec as (m1 & c1 & rest & r2 & Hsum & Hpm & Hpb & Hc).
  destruct (mark_spec n p (duplicates (minis_of (p_recs q)) numbered) HR) as (d & p' & Hmark & HR' & Hf' & Hrecs).
  { apply Forall_forall. intros z Hz. apply duplicates_spec in Hz as (r & Hr & _);
      [|rewrite minis_entries; apply ordered_items, dirty_ordered, (re_order _ _ HQ)
       |rewrite numbered_its; apply ordered_items, (re_order _ _ HR)].
    apply numbered_lookup in Hr as (i & -> & Hi). eauto. }
  exists key, d, p'. split_and!; auto; [|by apply replaced_entries].
  unfold get_merge_split_key. rewrite (repr_meta_iter mini q HQ). ret_step. rewrite positioned_spec. ret_step.
  rewrite Hsum. ret_step. cbv beta iota zeta. rewrite Hpm. ret_step. cbv beta iota zeta. rewrite Hpb. ret_step. rewrite Hc, Hmark. ret_step.
  rewrite Hbetter. ret_step. rewrite Hdiff by done. ret_step. rewrite Hfence in Hf'.
  rewrite (low_kept _ p') by done. ret_step. by rewrite (high_kept _ p').
Qed.
End split_key.

(** ** [get_cache_only_insert_split_key] *)
Section cache_only.
Context (n : LeafNode) (p : page).
Hypothesis HR : Repr n p.

(** The records with the new one before the first record not below it. *)
Definition with_new (it : item) (l : list item) : list item :=
  take (below it.1 l) l ++ it :: drop (below it.1 l) l.

Lemma with_new_facts it l :
  positive l → 0 < it.2 →
  positive (with_new it l) ∧ items_size (with_new it l) = items_size l + it.2 ∧ length (with_new it l) = S (length l).
Proof.
  intros Hp Hi. unfold with_new. set (k := below it.1 l). split_and!.
  - apply Forall_app. split; [by apply positive_take|]. constructor; [done|by apply positive_drop].
  - rewrite items_size_app, items_size_cons. pose proof (size_split k l). lia.
  - rewrite length_app, length_cons, length_take, length_drop. pose proof (below_bound it.1 l). lia.
Qed.

(** Counting the new record is the step of [pick] on it. *)
Lemma count_new_spec total target it m1 c1 :
  0 < it.2 → past target m1 c1 → 0 <= m1 → m1 + it.2 < U16 → total < 2 ^ 15 →
  (split_key_2 c1 = None → m1 <= total) →
  ∃ m2 c2, count_new total target it.2 it.1 m1 c1 = Ret (m2, c2) ∧ past target m2 c2 ∧ m1 <= m2 <= m1 + it.2 ∧
    (∀ l, pick total target m1 c1 (it :: l) = pick total target m2 c2 l) ∧
    (split_key_2 c2 = None → split_key_2 c1 = None ∧ m2 = m1 + it.2).
Proof.
  intros Hit Hp Hm Hs Ht Htot. unfold count_new. destruct (split_key_2 c1) as [k2|] eqn:Hc1.
  - exists m1, c1. split_and!; [done|done|lia|lia| |congruence]. intros l. by rewrite !(pick_done _ _ _ _ _ k2).
  - eexists _, _. unfold add16. zcase (m1 + it.2 <? U16); [|lia]. ret_step. specialize (Htot eq_refl).
    rewrite consider_ok by (done || lia). ret_step. split; [done|]. cbn [default].
    split_and!; [apply past_considered; [lia|done]|lia|lia|by intros; apply pick_step|done].
Qed.

(** The search for the candidates, on records of the page. *)
Lemma cache_only_passes it rs :
  let total := items_size (its rs) + it.2 in
  known p rs → 0 < it.2 → total < 2 ^ 15 →
  ∃ m1 c1 rest m2 c2 r3,
    pick_base n (Some it.1) total (total / 2) 0 no_candidates (met n rs) = Ret (m1, c1, rest) ∧
    count_new total (total / 2) it.2 it.1 m1 c1 = Ret (m2, c2) ∧
    pick_base n None total (total / 2) m2 c2 rest = Ret r3 ∧
    r3.1.2 = pick total (total / 2) 0 no_candidates (with_new it (its rs)).
Proof.
  intros total Hk Hit Ht. set (k := below it.1 (its rs)). pose proof (its_positive rs) as Hpos.
  pose proof (size_split k (its rs)). pose proof (items_size_nonneg _ Hpos).
  pose proof (items_size_nonneg _ (positive_take k _ Hpos)). pose proof (items_size_nonneg _ (positive_drop k _ Hpos)).
  destruct (pick_base_spec n p HR (Some it.1) total (total / 2) rs 0 no_candidates)
    as (r1 & Hr1 & m1 & c1 & rs1 & -> & Hk1 & Hp1 & Hm1 & Hpick & Hend & Hb1 & Hb2);
    [done|intros Hno; by destruct Hno|lia|lia|unfold U16; lia|cbn [upto]; fold k; unfold total; lia|].
  cbn [upto] in *. fold k in Hpick, Hend.
  destruct (count_new_spec total (total / 2) it m1 c1) as (m2 & c2 & Hr2 & Hp2 & Hb3 & Hstep & Hroom);
    [done..|unfold U16; lia|done|intros H'; destruct (Hend H'); unfold total; lia|].
  destruct (pick_base_spec n p HR None total (total / 2) rs1 m2 c2) as (r3 & Hr3 & Hrun);
    [done|done|lia|done|unfold U16; lia| |].
  { intros H'. cbn [upto]. rewrite take_ge by done. destruct (Hroom H') as [Hc ->]. destruct (Hend Hc) as [-> ->].
    rewrite its_drop. unfold total. lia. }
  exists m1, c1, (met n rs1), m2, c2, r3. split_and!; [done..|].
  destruct Hrun as (m3 & c3 & rs3 & -> & _ & _ & _ & Hpick3 & _). cbn [fst snd].
  specialize (Hpick3 []). cbn [upto pick] in Hpick3. rewrite take_ge, app_nil_r in Hpick3 by done. rewrite <- Hpick3.
  unfold with_new. fold k. rewrite Hpick, Hstep. destruct (split_key_2 c2) as [k2|] eqn:Hc2.
  - by rewrite !(pick_done _ _ _ _ _ k2).
  - destruct (Hroom eq_refl) as [Hc _]. destruct (Hend Hc) as [_ ->]. by rewrite its_drop.
Qed.

Lemma get_cache_only_insert_split_key_spec key size :
  0 <= size → items_size (map entry_item (p_entries p)) + size + KV_META_SIZE < 2 ^ 15 → p_recs p ≠ [] →
  ∃ k, get_cache_only_insert_split_key n key size = Ret k ∧
    balanced (with_new (key, size + KV_META_SIZE) (map entry_item (p_entries p))) k.
Proof.
  intros Hsz Hs Hne. set (it := (key, size + KV_META_SIZE) : item). assert (0 < KV_META_SIZE) by done.
  pose proof (numbered_known n p HR) as Hk. rewrite <- (numbered_its n p HR) in *. set (rs := numbered n p) in *.
  pose proof (its_positive rs) as Hpos. pose proof (items_size_nonneg _ Hpos).
  destruct (with_new_facts it (its rs) Hpos ltac:(cbn; lia)) as (Hp & Hsize & Hlen).
  destruct (chosen (with_new it (its rs)) Hp) as (k & Hbetter & _ & Hbal).
  { rewrite Hlen. unfold its, rs. rewrite length_map, <- (length_map snd), (numbered_recs n p HR).
    destruct (p_recs p); [done|cbn; lia]. }
  exists k. split; [|done]. unfold candidates_of in Hbetter. rewrite Hsize in Hbetter.
  destruct (cache_only_passes it rs Hk ltac:(cbn; lia)) as (m1 & c1 & rest & m2 & c2 & r3 & H1 & H2 & H3 & H4);
    [cbn; lia|]. rewrite <- H4 in Hbetter.
  unfold get_cache_only_insert_split_key. rewrite (positioned_spec n p HR). ret_step. fold rs.
  rewrite (sum_rest n p HR) by (done || unfold U16; lia). ret_step. rewrite add16_ok by (unfold U16; lia). ret_step.
  rewrite Z.add_0_l, add16_ok by (unfold U16; lia). ret_step.
  cbn [it fst snd] in H1, H2, H3. cbv zeta. rewrite H1. ret_step. cbv beta iota.
  rewrite H2. ret_step. cbv beta iota. rewrite H3. by ret_step.
Qed.
End cache_only.
