(* ===== verification/StateError.v ===== *)
(** Computations with a state and errors: [SE E S A] takes a state of type [S] and ends with a value or an
    error of type [E] and a new state, or stops the program.  An error keeps the state, as the
    early returns of the source do; what goes out of scope is written out with [on_error].

    [wp] is the weakest precondition of such a computation, with a rule per operation. *)
From stdpp Require Import base tactics.
From S2P Require Import Prelude.

Definition SE (E S A : Type) : Type := S → outcome ((E + A) * S).

Section operations.
Context {E S : Type}.

Global Instance SE_ret : MRet (SE E S) := λ A a s, Ret (inr a, s).
Global Instance SE_bind : MBind (SE E S) := λ A A' f m s,
  match m s with
  | Ret (inr a, s') => f a s'
  | Ret (inl err, s') => Ret (inl err, s')
  | Panic => Panic
  end.

Definition throw {A} (err : E) : SE E S A := λ s, Ret (inl err, s).
Definition lift {A} (m : outcome A) : SE E S A := λ s, match m with Ret a => Ret (inr a, s) | Panic => Panic end.
Definition get : SE E S S := λ s, Ret (inr s, s).
Definition modify (f : S → S) : SE E S unit := λ s, Ret (inr tt, f s).

(** What goes out of scope when [m] fails. *)
Definition on_error {A} (m : SE E S A) (cleanup : SE E S unit) : SE E S A := λ s,
  match m s with
  | Ret (inl err, s1) =>
      match cleanup s1 with
      | Ret (_, s2) => Ret (inl err, s2)
      | Panic => Panic
      end
  | r => r
  end.

(** The caller looks at the result, error or not. *)
Definition result {A} (m : SE E S A) : SE E S (E + A) := λ s,
  match m s with
  | Ret (r, s') => Ret (inr r, s')
  | Panic => Panic
  end.

(** The caller does not look at it. *)
Definition ignore {A} (m : SE E S A) : SE E S unit := result m ≫= λ _, mret tt.
End operations.

Section wp.
Context {E S : Type}.

(** [m] run in [s] ends as [Q] says; a panic is allowed only under [X]. *)
Definition wp {A} (X : Prop) (m : SE E S A) (Q : E + A → S → Prop) (s : S) : Prop :=
  match m s with Ret (r, s') => Q r s' | Panic => X end.

Lemma wp_bind {A A'} X (m : SE E S A) (f : A → SE E S A') Q s :
  wp X m (λ r s', match r with inr a => wp X (f a) Q s' | inl err => Q (inl err) s' end) s → wp X (m ≫= f) Q s.
Proof. unfold wp, mbind, SE_bind. destruct (m s) as [[[err|a] s']|]; done. Qed.

Lemma wp_mono {A} X (m : SE E S A) (Q Q' : E + A → S → Prop) s :
  wp X m Q s → (∀ r s', Q r s' → Q' r s') → wp X m Q' s.
Proof. unfold wp. destruct (m s) as [[r s']|]; auto. Qed.

(** What holds of every run that returns. *)
Lemma wp_run {A} X (m : SE E S A) (Q R : E + A → S → Prop) s :
  wp X m Q s → (∀ r s', m s = Ret (r, s') → R r s') → wp X m (λ r s', Q r s' ∧ R r s') s.
Proof. unfold wp. destruct (m s) as [[r s']|]; [|done]. auto. Qed.

Lemma wp_ret {A} X (a : A) (Q : E + A → S → Prop) s : Q (inr a) s → wp X (mret a) Q s.
Proof. done. Qed.

Lemma wp_throw {A} X err (Q : E + A → S → Prop) s : Q (inl err) s → wp (A:=A) X (throw err) Q s.
Proof. done. Qed.

Lemma wp_lift {A} X (m : outcome A) a (Q : E + A → S → Prop) s : m = Ret a → Q (inr a) s → wp X (lift m) Q s.
Proof. intros ->. done. Qed.

Lemma wp_get X (Q : E + S → S → Prop) s : Q (inr s) s → wp X get Q s.
Proof. done. Qed.

Lemma wp_modify X f (Q : E + unit → S → Prop) s : Q (inr tt) (f s) → wp X (modify f) Q s.
Proof. done. Qed.

Lemma wp_on_error {A} X (m : SE E S A) c (Q : E + A → S → Prop) s :
  wp X m (λ r s', match r with inr _ => Q r s' | inl err => wp X c (λ _, Q (inl err)) s' end) s → wp X (on_error m c) Q s.
Proof.
  unfold wp, on_error. destruct (m s) as [[[err|a] s']|]; [|done|done]. destruct (c s') as [[r s'']|]; done.
Qed.

Lemma wp_result {A} X (m : SE E S A) (Q : E + (E + A) → S → Prop) s :
  wp X m (λ r, Q (inr r)) s → wp X (result m) Q s.
Proof. unfold wp, result. destruct (m s) as [[r s']|]; done. Qed.

Lemma wp_ignore {A} X (m : SE E S A) (Q : E + unit → S → Prop) s :
  wp X m (λ _, Q (inr tt)) s → wp X (ignore m) Q s.
Proof. intros H. apply wp_bind, wp_result. exact H. Qed.

Lemma wp_Ret {A} (m : SE E S A) Q s : wp False m Q s → ∃ r s', m s = Ret (r, s') ∧ Q r s'.
Proof. unfold wp. destruct (m s) as [[r s']|]; [by exists r, s'|done]. Qed.
End wp.

(** One step of a monadic program, when its first operation computes. *)
Ltac wp_step := first
  [ apply wp_bind; apply wp_get; cbv beta iota
  | apply wp_bind; apply wp_modify; cbv beta iota
  | apply wp_bind; apply wp_ret; cbv beta iota
  | apply wp_get | apply wp_modify | apply wp_ret | apply wp_throw ].
