(* ===== verification/Storage.v ===== *)
(** Leaf storage (src/storage.rs): the page table, the buffer pool of mini and full pages and the
    file of base pages, as the operations on leaf entries use them.

    The circular buffer and the mapping table are used through the interfaces [PageBuffer] and
    [PageMap]; their laws are discharged in StorageInstances.v.  Base pages live at the offsets
    of a file ([OffsetAlloc] of src/fs/mod.rs hands them out), cached pages at addresses of the
    buffer.  The contents of memory that has just been allocated is an argument. *)
From stdpp Require Import base numbers list option gmap.
From Stdlib Require Import ZArith Lia.
From S2P Require Import Prelude Bits NodeMeta LeafMeta LeafNode LeafOps CircularBuffer.

Inductive TreeError := Locked | CircularBufferFull | NeedRestart.

Inductive PageLocation :=
| Mini (ptr : Z)
| FullPage (ptr : Z)
| Base (offset : Z)
| Null.

Global Instance PageLocation_eq_dec : EqDecision PageLocation.
Proof. solve_decision. Defined.

Definition INVALID_SNAPSHOT_VERSION : Z := 2 ^ 63 - 1.

(** [From<CircularBufferError> for TreeError]; the last case is unreachable. *)
Definition error_of (e : CircularBufferError) : outcome TreeError :=
  match e with
  | WouldBlock => Ret Locked
  | CircularBuffer.Full => Ret CircularBufferFull
  | EmptyAlloc => Panic
  end.

(** What an eviction finds in the block it has reserved: the handle of its page, a block that nobody
    uses, or a block whose owner is at work. *)
Inductive claim := Claimed (ptr : Z) | Gone | Busy.

(** ** What the entries use of the circular buffer *)
Class PageBuffer (B : Type) := {
  buf_alloc : B → Z → outcome ((CircularBufferError + Z) * B);
  (** The drop of a [CircularBufferPtr]. *)
  buf_publish : B → Z → outcome B;
  buf_acquire : B → Z → outcome (bool * B);
  (** The drop of a [TombstoneHandle]. *)
  buf_release : B → Z → outcome B;
  buf_dealloc : B → Z → outcome B;
  buf_copy_on_access : B → Z → bool;
  (** The steps of [evict_one]: reserve the block at the cursor, from its start to its end; try to
      obtain its handle; retire the block, or give the handle back; advance the head. *)
  buf_reserve : B → outcome (option (Z * Z) * B);
  buf_claim : B → Z → outcome (claim * B);
  buf_evict : B → Z → outcome B;
  buf_refuse : B → Z → outcome B;
  buf_bump : B → outcome B;
}.

(** A block handed out, a block the page table refers to, and one that is being retired. *)
Inductive owner := New | Live | Held.

Class PageBufferLaws (B : Type) `{PageBuffer B} := {
  buf_inv : B → Prop;
  buf_owner : B → Z → option owner;
  buf_serves : B → Z → Prop;
  buf_alloc_law b size : buf_inv b → buf_serves b size →
    ∃ r b', buf_alloc b size = Ret (r, b') ∧ buf_inv b' ∧ (∀ s, buf_serves b' s ↔ buf_serves b s) ∧
      match r with
      | inl e => e = CircularBuffer.Full ∧ ∀ q, buf_owner b' q = buf_owner b q
      | inr p => buf_owner b p = None ∧ ∀ q, buf_owner b' q = if decide (q = p) then Some New else buf_owner b q
      end;
  buf_publish_law b p : buf_inv b → buf_owner b p = Some New →
    ∃ b', buf_publish b p = Ret b' ∧ buf_inv b' ∧ (∀ s, buf_serves b' s ↔ buf_serves b s) ∧
      ∀ q, buf_owner b' q = if decide (q = p) then Some Live else buf_owner b q;
  buf_acquire_law b p : buf_inv b → buf_owner b p = Some Live →
    ∃ ok b', buf_acquire b p = Ret (ok, b') ∧ buf_inv b' ∧ (∀ s, buf_serves b' s ↔ buf_serves b s) ∧
      ∀ q, buf_owner b' q = if ok && bool_decide (q = p) then Some Held else buf_owner b q;
  buf_release_law b p : buf_inv b → buf_owner b p = Some Held →
    ∃ b', buf_release b p = Ret b' ∧ buf_inv b' ∧ (∀ s, buf_serves b' s ↔ buf_serves b s) ∧
      ∀ q, buf_owner b' q = if decide (q = p) then Some Live else buf_owner b q;
  buf_dealloc_law b p : buf_inv b → buf_owner b p = Some Held →
    ∃ b', buf_dealloc b p = Ret b' ∧ buf_inv b' ∧ (∀ s, buf_serves b' s ↔ buf_serves b s) ∧
      ∀ q, buf_owner b' q = if decide (q = p) then None else buf_owner b q;
  buf_reserved : B → Z → Prop;
  buf_claimed : B → Z → Z → Prop;
  buf_reserve_law b : buf_inv b →
    ∃ r b', buf_reserve b = Ret (r, b') ∧ buf_inv b' ∧ (∀ s, buf_serves b' s ↔ buf_serves b s) ∧
      (∀ q, buf_owner b' q = buf_owner b q) ∧
      match r with Some (start, finish) => buf_reserved b' start ∧ start < finish | None => True end;
  buf_claim_law b start : buf_inv b → buf_reserved b start →
    ∃ r b', buf_claim b start = Ret (r, b') ∧ buf_inv b' ∧ (∀ s, buf_serves b' s ↔ buf_serves b s) ∧
      (∀ q, buf_owner b' q = buf_owner b q) ∧
      match r with
      | Claimed p => buf_claimed b' start p ∧ buf_owner b p = Some Live
      | Gone => True
      | Busy => buf_reserved b' start
      end;
  buf_evict_law b start p : buf_inv b → buf_claimed b start p →
    ∃ b', buf_evict b start = Ret b' ∧ buf_inv b' ∧ (∀ s, buf_serves b' s ↔ buf_serves b s) ∧
      ∀ q, buf_owner b' q = if decide (q = p) then None else buf_owner b q;
  buf_refuse_law b start p : buf_inv b → buf_claimed b start p →
    ∃ b', buf_refuse b start = Ret b' ∧ buf_inv b' ∧ (∀ s, buf_serves b' s ↔ buf_serves b s) ∧
      (∀ q, buf_owner b' q = buf_owner b q) ∧ buf_reserved b' start;
  buf_bump_law b : buf_inv b →
    ∃ b', buf_bump b = Ret b' ∧ buf_inv b' ∧ (∀ s, buf_serves b' s ↔ buf_serves b s) ∧
      ∀ q, buf_owner b' q = buf_owner b q;
}.

(** ** What they use of the mapping table *)
Class PageMap (T : Type) := {
  map_get : T → Z → outcome PageLocation;
  (** The write through the lock of the entry. *)
  map_put : T → Z → PageLocation → outcome T;
  map_insert : T → PageLocation → outcome (Z * T);
}.

Class PageMapLaws (T : Type) `{PageMap T} := {
  map_list : T → list PageLocation → Prop;
  (** There is room for a number of new entries. *)
  map_room : T → nat → Prop;
  map_length_law t l l' : map_list t l → map_list t l' → length l = length l';
  map_room_law t n : map_room t (S n) → map_room t n;
  map_get_law t l i loc : map_list t l → 0 <= i → l !! Z.to_nat i = Some loc → map_get t i = Ret loc;
  map_put_law t l i loc : map_list t l → 0 <= i < zlen l →
    ∃ t', map_put t i loc = Ret t' ∧ map_list t' (<[Z.to_nat i := loc]> l) ∧ ∀ n, map_room t n → map_room t' n;
  map_insert_law t l loc : map_list t l → map_room t 1 →
    ∃ t', map_insert t loc = Ret (zlen l, t') ∧ map_list t' (l ++ [loc]) ∧ ∀ n, map_room t (S n) → map_room t' n;
}.

(** ** The storage *)
Section storage.
Context {B T : Type} `{PageBuffer B} `{PageMap T}.

Record LeafStorage := mkStorage {
  circular_buffer : B;
  cache_pages : gmap Z LeafNode;
  disk : gmap Z LeafNode;
  next_available_offset : Z;
  page_table : T;
}.

Definition set_buffer (s : LeafStorage) (b : B) : LeafStorage :=
  mkStorage b (cache_pages s) (disk s) (next_available_offset s) (page_table s).
Definition set_cache (s : LeafStorage) (c : gmap Z LeafNode) : LeafStorage :=
  mkStorage (circular_buffer s) c (disk s) (next_available_offset s) (page_table s).
Definition set_disk (s : LeafStorage) (d : gmap Z LeafNode) : LeafStorage :=
  mkStorage (circular_buffer s) (cache_pages s) d (next_available_offset s) (page_table s).
Definition set_next_offset (s : LeafStorage) (o : Z) : LeafStorage :=
  mkStorage (circular_buffer s) (cache_pages s) (disk s) o (page_table s).
Definition set_table (s : LeafStorage) (t : T) : LeafStorage :=
  mkStorage (circular_buffer s) (cache_pages s) (disk s) (next_available_offset s) t.

(** What fresh memory of the buffer, a fresh temporary page and a page of the file never written hold. *)
Record memory := mkMemory {
  fresh_block : Z → Z → LeafNode;
  fresh_page : Z → bytes;
  unwritten : Z → LeafNode;
}.
Context (mem : memory).

Definition OffsetAlloc_new_with (offset : Z) : Z := if offset <? DISK_PAGE_SIZE then DISK_PAGE_SIZE else offset.

Definition alloc_offset (s : LeafStorage) (size : Z) : Z * LeafStorage :=
  (next_available_offset s, set_next_offset s (next_available_offset s + size)).

Definition vfs_read (s : LeafStorage) (offset : Z) : LeafNode := default (unwritten mem offset) (disk s !! offset).
Definition vfs_write (s : LeafStorage) (offset : Z) (n : LeafNode) : LeafStorage :=
  set_disk s (<[offset := n]> (disk s)).

(** Dereferencing a pointer that is not a block in use is undefined behaviour. *)
Definition load_cache_page (s : LeafStorage) (ptr : Z) : outcome LeafNode :=
  match cache_pages s !! ptr with Some n => Ret n | None => Panic end.
Definition store_cache_page (s : LeafStorage) (ptr : Z) (n : LeafNode) : LeafStorage :=
  set_cache s (<[ptr := n]> (cache_pages s)).

Definition alloc_mini_page (s : LeafStorage) (size : Z) : outcome ((TreeError + Z) * LeafStorage) :=
  r ← buf_alloc (circular_buffer s) size;
  let s1 := set_buffer s r.2 in
  match r.1 with
  | inl e => e' ← error_of e; Ret (inl e', s1)
  | inr ptr => Ret (inr ptr, store_cache_page s1 ptr (fresh_block mem ptr size))
  end.

(** The drop of the pointer of an allocation. *)
Definition publish (s : LeafStorage) (ptr : Z) : outcome LeafStorage :=
  b ← buf_publish (circular_buffer s) ptr; Ret (set_buffer s b).

Definition begin_dealloc_mini_page (s : LeafStorage) (ptr : Z) : outcome ((TreeError + unit) * LeafStorage) :=
  r ← buf_acquire (circular_buffer s) ptr;
  Ret ((if r.1 : bool then inr tt else inl NeedRestart), set_buffer s r.2).

(** The drop of a handle that was not used. *)
Definition release (s : LeafStorage) (ptr : Z) : outcome LeafStorage :=
  b ← buf_release (circular_buffer s) ptr; Ret (set_buffer s b).

Definition dealloc_block (s : LeafStorage) (ptr : Z) : outcome LeafStorage :=
  b ← buf_dealloc (circular_buffer s) ptr;
  Ret (set_cache (set_buffer s b) (delete ptr (cache_pages s))).

Definition finish_dealloc_mini_page (s : LeafStorage) (ptr : Z) : outcome LeafStorage :=
  _ ← load_cache_page s ptr; dealloc_block s ptr.

Definition mini_page_copy_on_access (s : LeafStorage) (ptr : Z) : bool :=
  buf_copy_on_access (circular_buffer s) ptr.

(** The handle is dropped when there is no block to move to. *)
Definition move_full_page_to_tail (s : LeafStorage) (ptr size : Z) : outcome ((TreeError + Z) * LeafStorage) :=
  r ← alloc_mini_page s size;
  let '(res, s1) := r in
  match res with
  | inl e => s2 ← release s1 ptr; Ret (inl e, s2)
  | inr new_page =>
      n ← load_cache_page s1 ptr;
      s2 ← dealloc_block (store_cache_page s1 new_page n) ptr;
      Ret (inr new_page, s2)
  end.

Definition move_mini_page_to_tail (s : LeafStorage) (ptr size : Z) : outcome ((TreeError + Z) * LeafStorage) :=
  r ← alloc_mini_page s size;
  let '(res, s1) := r in
  match res with
  | inl e => s2 ← release s1 ptr; Ret (inl e, s2)
  | inr new_page =>
      n ← load_cache_page s1 ptr;
      dst ← load_cache_page s1 new_page;
      let snapshot_ver := get_clean_snapshot_version n in
      dst1 ← copy_initialize_to n dst size true snapshot_ver;
      let dst2 := set_snapshot_version dst1 (get_clean_snapshot_version n) false in
      let dst3 := if is_snapshot_version_changed n then set_snapshot_version_changed_flag dst2 else dst2 in
      s2 ← dealloc_block (store_cache_page s1 new_page dst3) ptr;
      _ ← assert_ (0 <? meta_count_with_fence (meta dst3));
      Ret (inr new_page, s2)
  end.
End storage.
Arguments LeafStorage : clear implicits.
