(* ===== verification/StorageInstances.v ===== *)
(** The circular buffer and the mapping table as the leaf storage uses them: the interfaces of
    Storage.v and their laws, from the operations under concurrent use (CircularSystem.v) and
    from the table that refines a growing list (MappingTable.v).

    [contended] is whether a deallocation finds the lock of its free list taken. *)
From stdpp Require Import base numbers list option gmap fin_maps.
From Stdlib Require Import ZArith Lia.
From S2P Require Import Prelude Bits NodeMeta FreeList CircularBuffer CircularInv CircularOps CircularAlloc CircularSystem MappingTable Storage.

(** ** The circular buffer *)
Section buffer.
Context (contended : bool).

Definition sys_alloc (s : sys) (size : Z) : outcome ((CircularBufferError + Z) * sys) :=
  r ← alloc (buf s) size [];
  Ret (r.1, mkSys r.2 (match r.1 with inr p => {[p]} ∪ ptrs s | inl _ => ptrs s end)
              (live s) (handles s) (claimed s) (reserved s)).

Definition sys_publish (s : sys) (p : Z) : outcome sys :=
  b ← drop_ptr (buf s) p;
  Ret (mkSys b (ptrs s ∖ {[p]}) ({[p]} ∪ live s) (handles s) (claimed s) (reserved s)).

Definition sys_acquire (s : sys) (p : Z) : outcome (bool * sys) :=
  r ← acquire_exclusive_dealloc_handle (buf s) p;
  Ret match r with
      | (inr _, b) => (true, mkSys b (ptrs s) (live s) ({[p]} ∪ handles s) (claimed s) (reserved s))
      | (inl _, b) => (false, mkSys b (ptrs s) (live s) (handles s) (claimed s) (reserved s))
      end.

Definition sys_release (s : sys) (p : Z) : outcome sys :=
  b ← drop_handle (buf s) p;
  Ret (mkSys b (ptrs s) (live s) (handles s ∖ {[p]}) (claimed s) (reserved s)).

Definition sys_dealloc (s : sys) (p : Z) : outcome sys :=
  b ← dealloc (buf s) p contended;
  Ret (mkSys b (ptrs s) (live s ∖ {[p]}) (handles s ∖ {[p]}) (claimed s) (reserved s)).

Definition sys_reserve (s : sys) : outcome (option (Z * Z) * sys) :=
  r ← evict_reserve (buf s);
  Ret (r.1, mkSys r.2 (ptrs s) (live s) (handles s) (claimed s)
              (match r.1 with Some (start, _) => {[start]} ∪ reserved s | None => reserved s end)).

Definition sys_claim (s : sys) (start : Z) : outcome (claim * sys) :=
  let ptr := data_of (buf s) start in
  r ← acquire_exclusive_dealloc_handle (buf s) ptr;
  match r with
  | (inr _, b) => Ret (Claimed ptr, mkSys b (ptrs s) (live s) (handles s) ({[start]} ∪ claimed s) (reserved s ∖ {[start]}))
  | (inl _, b1) =>
      u ← evict_unowned b1 start ptr;
      Ret match u with
          | (true, b) => (Gone, mkSys b (ptrs s) (live s) (handles s) (claimed s) (reserved s ∖ {[start]}))
          | (false, b) => (Busy, mkSys b (ptrs s) (live s) (handles s) (claimed s) (reserved s))
          end
  end.

Definition sys_evict (s : sys) (start : Z) : outcome sys :=
  let ptr := data_of (buf s) start in
  b ← evict_finish (buf s) ptr;
  Ret (mkSys b (ptrs s) (live s ∖ {[ptr]}) (handles s) (claimed s ∖ {[start]}) (reserved s)).

Definition sys_refuse (s : sys) (start : Z) : outcome sys :=
  b ← drop_handle (buf s) (data_of (buf s) start);
  Ret (mkSys b (ptrs s) (live s) (handles s) (claimed s ∖ {[start]}) ({[start]} ∪ reserved s)).

Definition sys_bump (s : sys) : outcome sys :=
  r ← try_bump_head_address_to_evicting_addr (buf s);
  Ret (mkSys r.2 (ptrs s) (live s) (handles s) (claimed s) (reserved s)).

Definition sys_buffer : PageBuffer sys := {|
  buf_alloc := sys_alloc;
  buf_publish := sys_publish;
  buf_acquire := sys_acquire;
  buf_release := sys_release;
  buf_dealloc := sys_dealloc;
  buf_copy_on_access s p := ptr_is_copy_on_access (buf s) p;
  buf_reserve := sys_reserve;
  buf_claim := sys_claim;
  buf_evict := sys_evict;
  buf_refuse := sys_refuse;
  buf_bump := sys_bump;
|}.

(** These are the steps of the system; an allocation is one or two of them. *)
Lemma sys_steps s p :
  exec s (DropPtr p) = guarded (p ∈ ptrs s) (sys_publish s p) ∧
  exec s (Acquire p) = guarded (p ∈ live s) (r ← sys_acquire s p; Ret r.2) ∧
  exec s (DropHandle p) = guarded (p ∈ handles s) (sys_release s p) ∧
  exec s (Dealloc p contended) = guarded (p ∈ handles s) (sys_dealloc s p).
Proof.
  destruct s as [b P L H C R]. unfold sys_alloc, sys_publish, sys_acquire, sys_release, sys_dealloc.
  split_and!; try done; cbn [exec buf ptrs live handles claimed reserved].
  - destruct (acquire_exclusive_dealloc_handle b p) as [[[e|q] b']|]; done.
Qed.

Lemma sys_evict_steps s start :
  exec s Reserve = Some (r ← sys_reserve s; Ret r.2) ∧
  exec s (Claim start) = guarded (start ∈ reserved s) (r ← sys_claim s start; Ret r.2) ∧
  exec s (Finish start) = guarded (start ∈ claimed s) (sys_evict s start) ∧
  exec s (Refuse start) = guarded (start ∈ claimed s) (sys_refuse s start) ∧
  exec s Bump = Some (sys_bump s).
Proof.
  destruct s as [b P L H C R]. unfold sys_reserve, sys_claim, sys_evict, sys_refuse, sys_bump.
  split_and!; try done; cbn [exec buf ptrs live handles claimed reserved].
  - destruct (evict_reserve b) as [[[[a z]|] b']|]; done.
  - destruct (acquire_exclusive_dealloc_handle b (data_of b start)) as [[[e|q] b']|]; [|done|done]. cbn.
    destruct (evict_unowned b' start (data_of b start)) as [[[] b'']|]; done.
Qed.

Definition sys_inv (s : sys) : Prop := ∃ ks ls, SysInv s ks ls.

Definition sys_owner (s : sys) (p : Z) : option owner :=
  if decide (p ∈ ptrs s) then Some New
  else if decide (p ∈ handles s) then Some Held
  else if decide (p ∈ live s) then Some Live else None.

Definition sys_serves (s : sys) (size : Z) : Prop := served (buf s) size = true.

(** The size classes do not change. *)
Lemma update_meta_classes b p f b' : update_meta b p f = Ret b' → free_list b' = free_list b.
Proof.
  unfold update_meta. intros (m & _ & H)%bind_Ret_inv. apply bind_Ret_inv in H as (m' & _ & H). by injection H as <-.
Qed.
Lemma serves_same b b' size : size_classes (free_list b') = size_classes (free_list b) → served b' size = served b size.
Proof. intros H. unfold served. by rewrite H. Qed.

Lemma acquire_classes b p r b' : acquire_exclusive_dealloc_handle b p = Ret (r, b') → free_list b' = free_list b.
Proof.
  unfold acquire_exclusive_dealloc_handle. intros (u & _ & H)%bind_Ret_inv. apply bind_Ret_inv in H as (m & _ & H).
  destruct (try_begin_tombstone m); by injection H as _ <-.
Qed.

Lemma dealloc_classes b p b' : dealloc b p contended = Ret b' → size_classes (free_list b') = size_classes (free_list b).
Proof.
  unfold dealloc, dealloc_inner. intros (u & _ & H)%bind_Ret_inv. apply bind_Ret_inv in H as (m & _ & H).
  destruct (_ || _); [apply bind_Ret_inv in H as (m' & _ & H); by injection H as <-|].
  apply bind_Ret_inv in H as (r & Hr & H). destruct r as [e|[fl' links']].
  - apply bind_Ret_inv in H as (m' & _ & H). by injection H as <-.
  - apply bind_Ret_inv in H as (m' & _ & H). injection H as <-. cbn.
    unfold try_add in Hr. apply bind_Ret_inv in Hr as (c & _ & Hr). destruct (m_size m <? c); [done|].
    apply bind_Ret_inv in Hr as (i & _ & Hr). apply bind_Ret_inv in Hr as (h & _ & Hr). destruct contended; [done|].
    apply bind_Ret_inv in Hr as (k & _ & Hr). apply bind_Ret_inv in Hr as (u' & _ & Hr).
    apply bind_Ret_inv in Hr as (n & _ & Hr). by injection Hr as <- _.
Qed.

Lemma handles_live s ks ls p : SysInv s ks ls → p ∈ handles s → p ∈ live s ∧ (p ∉ ptrs s).
Proof.
  intros HI Hp. destruct (handle_holder s ks ls HI p Hp) as (n & k & _ & -> & Ho & Hk).
  unfold owned in Ho. rewrite Hk in Ho. unfold standing in Ho. tauto.
Qed.

Lemma live_not_new s ks ls p : SysInv s ks ls → p ∈ live s → p ∉ ptrs s.
Proof.
  intros HI Hp. destruct (live_holder s ks ls HI p Hp) as (n & k & _ & -> & Ho & Hk).
  unfold owned, standing in Ho. destruct (k_state k); tauto.
Qed.

(** A step that the system allows returns, and keeps the invariant. *)
Lemma sys_step_safe s o (P : Prop) `{!Decision P} m :
  sys_inv s → exec s o = guarded P m → P → ∃ s', m = Ret s' ∧ sys_inv s'.
Proof.
  intros (ks & ls & HI) He HP. unfold guarded in He. rewrite decide_True in He by done.
  destruct (exec_safe s ks ls o HI) as [Hn|(s' & ks' & ls' & Hr & HI')]; [congruence|].
  exists s'. split; [congruence|]. by exists ks', ls'.
Qed.

Lemma sys_alloc_law s size :
  sys_inv s → sys_serves s size →
  ∃ r s', sys_alloc s size = Ret (r, s') ∧ sys_inv s' ∧ (∀ z, sys_serves s' z ↔ sys_serves s z) ∧
    match r with
    | inl e => e = CircularBuffer.Full ∧ ∀ q, sys_owner s' q = sys_owner s q
    | inr p => sys_owner s p = None ∧ ∀ q, sys_owner s' q = if decide (q = p) then Some New else sys_owner s q
    end.
Proof.
  intros (ks & ls & HI) Hs. pose proof (si_cb _ _ _ HI) as HB. destruct (served_serves _ _ _ _ HB Hs) as (c & c0 & Hsv).
  destruct (alloc_spec size c c0 _ ks ls HB Hsv) as (r' & b' & ks' & ls' & Ha & HB' & HG & Hres).
  unfold sys_alloc. rewrite Ha. eexists r', _. split; [by ret_step|]. cbn [fst snd].
  split; [exists ks', ls'; destruct s as [b P L H C R]; by apply (alloc_done b b' P L H C R ks ks' ls ls' size r')|].
  split; [intros z; unfold sys_serves; cbn [buf snd]; rewrite (serves_same (buf s) b'); [done|apply HG]|].
  destruct r' as [e|p]; [by destruct Hres as [-> _]|]. destruct s as [b P L H C R]. cbn [fst snd buf ptrs live handles claimed reserved] in *.
  destruct Hres as (k & Hk & -> & Hst & Hsz & Hold & _).
  assert ((k_ptr b' k ∉ P) ∧ (k_ptr b' k ∉ L) ∧ (k_ptr b' k ∉ H)) as (H1 & H2 & H3).
  { rewrite (grown_ptr b b' ks ks' HG).
    destruct (grown_block b b' P L H C R ks ks' ls ls' HI HB' HG k Hk) as [Hin|[_ Hstd]]; [|unfold standing in Hstd; tauto].
    specialize (Hold k Hin eq_refl). congruence. }
  unfold sys_owner. cbn [ptrs live handles]. split; [by rewrite !decide_False|].
  intros q. destruct (decide (q = k_ptr b' k)) as [->|Hne]; [by rewrite decide_True by set_solver|].
  assert (q ∈ {[k_ptr b' k]} ∪ P ↔ q ∈ P) as Hiff by set_solver. repeat case_decide; tauto || done.
Qed.

Ltac owner_tac := unfold sys_owner; cbn [ptrs live handles]; repeat case_decide; set_unfold; intuition (done || congruence).

Lemma owner_new s p : sys_owner s p = Some New → p ∈ ptrs s.
Proof. unfold sys_owner. repeat case_decide; done. Qed.
Lemma owner_held s p : sys_owner s p = Some Held → p ∈ handles s ∧ (p ∉ ptrs s).
Proof. unfold sys_owner. repeat case_decide; done. Qed.
Lemma owner_live s p : sys_owner s p = Some Live → p ∈ live s ∧ (p ∉ handles s) ∧ (p ∉ ptrs s).
Proof. unfold sys_owner. repeat case_decide; done. Qed.

Lemma new_not_live s ks ls p : SysInv s ks ls → p ∈ ptrs s → (p ∉ live s) ∧ (p ∉ handles s).
Proof. intros HI Hp. split; intros Hl; [by apply (live_not_new s ks ls p HI Hl)|by destruct (handles_live s ks ls p HI Hl)]. Qed.

Lemma sys_publish_law s p :
  sys_inv s → sys_owner s p = Some New →
  ∃ s', sys_publish s p = Ret s' ∧ sys_inv s' ∧ (∀ z, sys_serves s' z ↔ sys_serves s z) ∧
    ∀ q, sys_owner s' q = if decide (q = p) then Some Live else sys_owner s q.
Proof.
  intros Hi Ho. pose proof (owner_new _ _ Ho) as Hp. destruct (sys_steps s p) as (Hex & _).
  destruct (sys_step_safe s _ _ _ Hi Hex Hp) as (s' & Hr & Hi'). exists s'. split_and!; [done..| |].
  - unfold sys_publish in Hr. apply bind_Ret_inv in Hr as (b & Hb & [= <-]). intros z. unfold sys_serves. cbn [buf].
    rewrite (serves_same (buf s)); [done|]. by rewrite (update_meta_classes _ _ _ _ Hb).
  - destruct Hi as (ks & ls & HI). destruct (new_not_live s ks ls p HI Hp).
    unfold sys_publish in Hr. apply bind_Ret_inv in Hr as (b & Hb & [= <-]). intros q. owner_tac.
Qed.

Lemma sys_acquire_law s p :
  sys_inv s → sys_owner s p = Some Live →
  ∃ ok s', sys_acquire s p = Ret (ok, s') ∧ sys_inv s' ∧ (∀ z, sys_serves s' z ↔ sys_serves s z) ∧
    ∀ q, sys_owner s' q = if ok && bool_decide (q = p) then Some Held else sys_owner s q.
Proof.
  intros Hi Ho. destruct (owner_live _ _ Ho) as (Hp & Hnh & Hnp). destruct (sys_steps s p) as (_ & Hex & _).
  destruct (sys_step_safe s _ _ _ Hi Hex Hp) as (s' & Hr & Hi'). apply bind_Ret_inv in Hr as ([ok s1] & Hr & [= ->]).
  exists ok, s'. split_and!; [done..| |]; unfold sys_acquire in Hr; apply bind_Ret_inv in Hr as ([r b] & Hb & Hr).
  - intros z. unfold sys_serves. rewrite (serves_same (buf s)); [done|].
    destruct r; injection Hr as _ <-; cbn [buf]; by rewrite (acquire_classes _ _ _ _ Hb).
  - intros q. destruct r; injection Hr as <- <-; [done|]. case_bool_decide; owner_tac.
Qed.

Lemma sys_release_law s p :
  sys_inv s → sys_owner s p = Some Held →
  ∃ s', sys_release s p = Ret s' ∧ sys_inv s' ∧ (∀ z, sys_serves s' z ↔ sys_serves s z) ∧
    ∀ q, sys_owner s' q = if decide (q = p) then Some Live else sys_owner s q.
Proof.
  intros Hi Ho. destruct (owner_held _ _ Ho) as [Hp Hnp]. destruct (sys_steps s p) as (_ & _ & Hex & _).
  destruct (sys_step_safe s _ _ _ Hi Hex Hp) as (s' & Hr & Hi'). exists s'. split_and!; [done..| |].
  - unfold sys_release in Hr. apply bind_Ret_inv in Hr as (b & Hb & [= <-]). intros z. unfold sys_serves. cbn [buf].
    rewrite (serves_same (buf s)); [done|]. by rewrite (update_meta_classes _ _ _ _ Hb).
  - destruct Hi as (ks & ls & HI). destruct (handles_live s ks ls p HI Hp).
    unfold sys_release in Hr. apply bind_Ret_inv in Hr as (b & Hb & [= <-]). intros q. owner_tac.
Qed.

Lemma sys_dealloc_law s p :
  sys_inv s → sys_owner s p = Some Held →
  ∃ s', sys_dealloc s p = Ret s' ∧ sys_inv s' ∧ (∀ z, sys_serves s' z ↔ sys_serves s z) ∧
    ∀ q, sys_owner s' q = if decide (q = p) then None else sys_owner s q.
Proof.
  intros Hi Ho. destruct (owner_held _ _ Ho) as [Hp Hnp]. destruct (sys_steps s p) as (_ & _ & _ & Hex).
  destruct (sys_step_safe s _ _ _ Hi Hex Hp) as (s' & Hr & Hi'). exists s'. split_and!; [done..| |].
  - unfold sys_dealloc in Hr. apply bind_Ret_inv in Hr as (b & Hb & [= <-]). intros z. unfold sys_serves. cbn [buf].
    rewrite (serves_same (buf s)); [done|]. by apply dealloc_classes in Hb.
  - unfold sys_dealloc in Hr. apply bind_Ret_inv in Hr as (b & Hb & [= <-]). intros q. owner_tac.
Qed.

Definition sys_reserved (s : sys) (start : Z) : Prop := start ∈ reserved s.
Definition sys_claimed (s : sys) (start p : Z) : Prop := start ∈ claimed s ∧ p = data_of (buf s) start.

Lemma finish_classes b p b' : evict_finish b p = Ret b' → size_classes (free_list b') = size_classes (free_list b).
Proof.
  unfold evict_finish, dealloc_inner. intros (b1 & H1 & H2)%bind_Ret_inv.
  apply bind_Ret_inv in H1 as (u & _ & H1). apply bind_Ret_inv in H1 as (m & _ & H1). cbn [negb orb] in H1.
  apply bind_Ret_inv in H1 as (m' & _ & [= <-]). by rewrite (update_meta_classes _ _ _ _ H2).
Qed.

Lemma unowned_classes b start p r b' :
  evict_unowned b start p = Ret (r, b') → size_classes (free_list b') = size_classes (free_list b).
Proof.
  unfold evict_unowned. intros (m & _ & H)%bind_Ret_inv. destruct (m_state m); try by injection H as _ <-.
  - apply bind_Ret_inv in H as (b1 & H1 & [= _ <-]). by rewrite (update_meta_classes _ _ _ _ H1).
  - apply bind_Ret_inv in H as ([[f fl'] links'] & Hf & H).
    assert (size_classes fl' = size_classes (free_list b)) as Hc.
    { unfold find_and_remove in Hf. apply bind_Ret_inv in Hf as (i & _ & Hf). apply bind_Ret_inv in Hf as (h & _ & Hf).
      apply bind_Ret_inv in Hf as (x & _ & Hf). destruct x as [[prev n]|]; [|by injection Hf as _ <- _].
      destruct (prev =? NULL); by injection Hf as _ <- _. }
    destruct f; [|by injection H as _ <-]. apply bind_Ret_inv in H as (b1 & H1 & H). apply bind_Ret_inv in H as (b2 & H2 & [= _ <-]).
    by rewrite (update_meta_classes _ _ _ _ H2), (update_meta_classes _ _ _ _ H1).
Qed.

Lemma sys_reserve_law s : sys_inv s →
  ∃ r s', sys_reserve s = Ret (r, s') ∧ sys_inv s' ∧ (∀ z, sys_serves s' z ↔ sys_serves s z) ∧
    (∀ q, sys_owner s' q = sys_owner s q) ∧
    match r with Some (start, finish) => sys_reserved s' start ∧ start < finish | None => True end.
Proof.
  intros (ks & ls & HI). destruct (sys_evict_steps s 0) as (Hex & _).
  destruct (exec_safe s ks ls Reserve HI) as [Hn|(s' & ks' & ls' & Hr & HI')]; [congruence|].
  rewrite Hex in Hr. injection Hr as Hr. apply bind_Ret_inv in Hr as ([r s1] & Hr & [= ->]).
  exists r, s'. split; [done|]. split; [by exists ks', ls'|]. unfold sys_reserve in Hr.
  destruct (evict_reserve_spec (buf s) ks ls (si_cb _ _ _ HI)) as [[_ He]|(k & Hk & Ha & He & _)];
    rewrite He in Hr; injection Hr as <- <-; [done|]. split; [done|]. split; [done|]. split.
  - unfold sys_reserved. cbn. set_solver.
  - destruct (blk_in (buf s) ks (proj1 (si_cb _ _ _ HI)) k Hk) as ((_ & _ & Hs & _) & _).
    unfold k_end, CB_ALLOC_META_SIZE. lia.
Qed.

Lemma sys_claim_law s start : sys_inv s → sys_reserved s start →
  ∃ r s', sys_claim s start = Ret (r, s') ∧ sys_inv s' ∧ (∀ z, sys_serves s' z ↔ sys_serves s z) ∧
    (∀ q, sys_owner s' q = sys_owner s q) ∧
    match r with
    | Claimed p => sys_claimed s' start p ∧ sys_owner s p = Some Live
    | Gone => True
    | Busy => sys_reserved s' start
    end.
Proof.
  intros Hi Hp. destruct (sys_evict_steps s start) as (_ & Hex & _).
  destruct (sys_step_safe s _ _ _ Hi Hex Hp) as (s' & Hr & Hi'). apply bind_Ret_inv in Hr as ([r s1] & Hr & [= ->]).
  exists r, s'. split; [done|]. split; [done|]. unfold sys_claim in Hr. apply bind_Ret_inv in Hr as ([[e|q] b] & Hb & Hr).
  - apply bind_Ret_inv in Hr as ([f b'] & Hu & Hr).
    assert (size_classes (free_list b') = size_classes (free_list (buf s))) as Hc.
    { rewrite (unowned_classes _ _ _ _ _ Hu). by rewrite (acquire_classes _ _ _ _ Hb). }
    destruct f; injection Hr as <- <-; (split; [intros z; by apply eq_iff_eq_true, serves_same|]); done.
  - injection Hr as <- <-. split; [intros z; apply eq_iff_eq_true, serves_same; cbn; by rewrite (acquire_classes _ _ _ _ Hb)|].
    split; [done|]. destruct Hi as (ks & ls & HI), Hi' as (ks' & ls' & HI').
    assert (data_of b start = data_of (buf s) start) as Hd.
    { unfold acquire_exclusive_dealloc_handle in Hb. apply bind_Ret_inv in Hb as (u & _ & Hb).
      apply bind_Ret_inv in Hb as (m & _ & Hb). destruct (try_begin_tombstone m); [by injection Hb as _ <-|done]. }
    split; [split; [cbn; set_solver|by cbn; rewrite Hd]|].
    destruct (claim_holder _ ks' ls' HI' start) as (n & k & _ & -> & Ho & Hk); [cbn; set_solver|].
    unfold owned in Ho. rewrite Hk in Ho. cbn [buf ptrs live handles claimed reserved] in Ho.
    change (k_ptr b k) with (data_of b (k_addr k)) in Ho. rewrite Hd in Ho. unfold standing in Ho.
    assert (k_addr k ∈ {[k_addr k]} ∪ claimed s) by set_solver. unfold sys_owner. repeat case_decide; tauto.
Qed.

Lemma claimed_alone s ks ls start p :
  SysInv s ks ls → sys_claimed s start p → p ∈ live s ∧ (p ∉ handles s) ∧ (p ∉ ptrs s).
Proof.
  intros HI [Hc ->]. destruct (claim_holder _ ks ls HI start Hc) as (n & k & _ & -> & Ho & Hk).
  unfold owned in Ho. rewrite Hk in Ho. change (k_ptr (buf s) k) with (data_of (buf s) (k_addr k)) in Ho.
  unfold standing in Ho. tauto.
Qed.

Lemma sys_evict_law s start p : sys_inv s → sys_claimed s start p →
  ∃ s', sys_evict s start = Ret s' ∧ sys_inv s' ∧ (∀ z, sys_serves s' z ↔ sys_serves s z) ∧
    ∀ q, sys_owner s' q = if decide (q = p) then None else sys_owner s q.
Proof.
  intros Hi Hc. pose proof Hc as [Hp Hptr]. destruct (sys_evict_steps s start) as (_ & _ & Hex & _).
  destruct (sys_step_safe s _ _ _ Hi Hex Hp) as (s' & Hr & Hi'). exists s'. split; [done|]. split; [done|].
  unfold sys_evict in Hr. apply bind_Ret_inv in Hr as (b & Hb & [= <-]). rewrite <- Hptr in *. split.
  - intros z. apply eq_iff_eq_true, serves_same. cbn [buf]. by apply finish_classes in Hb.
  - destruct Hi as (ks & ls & HI). destruct (claimed_alone s ks ls start p HI Hc) as (? & ? & ?). intros q. owner_tac.
Qed.

Lemma sys_refuse_law s start p : sys_inv s → sys_claimed s start p →
  ∃ s', sys_refuse s start = Ret s' ∧ sys_inv s' ∧ (∀ z, sys_serves s' z ↔ sys_serves s z) ∧
    (∀ q, sys_owner s' q = sys_owner s q) ∧ sys_reserved s' start.
Proof.
  intros Hi [Hp Hptr]. destruct (sys_evict_steps s start) as (_ & _ & _ & Hex & _).
  destruct (sys_step_safe s _ _ _ Hi Hex Hp) as (s' & Hr & Hi'). exists s'. split; [done|]. split; [done|].
  unfold sys_refuse in Hr. apply bind_Ret_inv in Hr as (b & Hb & [= <-]).
  split; [intros z; apply eq_iff_eq_true, serves_same; cbn; by rewrite (update_meta_classes _ _ _ _ Hb)|].
  split; [done|]. unfold sys_reserved. cbn. set_solver.
Qed.

Lemma bump_classes b old fuel r b' : bump_loop b old fuel = Ret (r, b') → free_list b' = free_list b.
Proof.
  revert b. induction fuel as [|fuel IH]; intros b H; [done|]. cbn [bump_loop] in H.
  destruct (_ <? _); [|by injection H as _ <-]. apply bind_Ret_inv in H as (m & _ & H).
  destruct (negb _); [by injection H as _ <-|]. by apply IH in H.
Qed.

Lemma sys_bump_law s : sys_inv s →
  ∃ s', sys_bump s = Ret s' ∧ sys_inv s' ∧ (∀ z, sys_serves s' z ↔ sys_serves s z) ∧
    ∀ q, sys_owner s' q = sys_owner s q.
Proof.
  intros (ks & ls & HI). destruct (sys_evict_steps s 0) as (_ & _ & _ & _ & Hex).
  destruct (exec_safe s ks ls Bump HI) as [Hn|(s' & ks' & ls' & Hr & HI')]; [congruence|].
  rewrite Hex in Hr. injection Hr as Hr. exists s'. split; [done|]. split; [by exists ks', ls'|].
  unfold sys_bump in Hr. apply bind_Ret_inv in Hr as ([r b] & Hb & [= <-]). split; [|done].
  intros z. apply eq_iff_eq_true, serves_same. cbn. by rewrite (bump_classes _ _ _ _ _ Hb).
Qed.

Definition sys_buffer_laws : @PageBufferLaws sys sys_buffer :=
  @Build_PageBufferLaws sys sys_buffer sys_inv sys_owner sys_serves
    sys_alloc_law sys_publish_law sys_acquire_law sys_release_law sys_dealloc_law
    sys_reserved sys_claimed sys_reserve_law sys_claim_law sys_evict_law sys_refuse_law sys_bump_law.
End buffer.

(** ** The mapping table *)
Definition table_map : PageMap (MappingTable PageLocation) := {|
  map_get := table_get;
  map_put := table_write;
  map_insert t loc := r ← table_insert t loc; Ret (r.1.1, r.2);
|}.

Definition table_list (t : MappingTable PageLocation) (l : list PageLocation) : Prop :=
  0 < record_per_batch t ∧ TRepr (record_per_batch t) t l.

Definition table_room (t : MappingTable PageLocation) (n : nat) : Prop := next_id t + Z.of_nat n <= MAX_BATCHES * record_per_batch t.

Lemma table_length_law t l l' : table_list t l → table_list t l' → length l = length l'.
Proof. intros [_ [_ H1]] [_ [_ H2]]. unfold zlen in *. lia. Qed.

Lemma table_room_law t n : table_room t (S n) → table_room t n.
Proof. unfold table_room. lia. Qed.

Lemma table_get_law t l i loc : table_list t l → 0 <= i → l !! Z.to_nat i = Some loc → table_get t i = Ret loc.
Proof. intros [_ [H _]]. by eapply holds_get. Qed.

Lemma table_put_law t l i loc : table_list t l → 0 <= i < zlen l →
  ∃ t', table_write t i loc = Ret t' ∧ table_list t' (<[Z.to_nat i := loc]> l) ∧ ∀ n, table_room t n → table_room t' n.
Proof.
  intros [Hr H] Hi. destruct (write_repr _ Hr t l i loc H Hi) as (t' & Ht & H'). exists t'. split; [done|].
  unfold table_list, table_room. rewrite (h_rpb _ _ _ (proj1 H')), (proj2 H'), (proj2 H). unfold zlen. by rewrite length_insert.
Qed.

Lemma table_insert_law t l loc : table_list t l → table_room t 1 →
  ∃ t', (r ← table_insert t loc; Ret (r.1.1, r.2)) = Ret (zlen l, t') ∧ table_list t' (l ++ [loc]) ∧
    ∀ n, table_room t (S n) → table_room t' n.
Proof.
  intros [Hr H] Hroom. unfold table_room in *. rewrite (proj2 H) in Hroom |- *.
  destruct (insert_next _ Hr t l loc H) as (t' & -> & H'); [lia|]. exists t'. split; [done|].
  unfold table_list. rewrite (h_rpb _ _ _ (proj1 H')), (proj2 H'), zlen_app. split; [done|]. intros n. unfold zlen. cbn. lia.
Qed.

Definition table_map_laws : @PageMapLaws (MappingTable PageLocation) table_map :=
  @Build_PageMapLaws _ table_map table_list table_room table_length_law table_room_law table_get_law table_put_law table_insert_law.
