(* ===== verification/LeafEntry.v ===== *)
(** Operations on a locked entry of the page table (src/mini_page_op.rs): a leaf is a base page of
    the file, a mini page with recent records over a base page, or a full page that caches a
    base page; in cache-only mode a mini page alone, or nothing.

    The operations run in the state and error monad of StateError.v: the state is the storage, the location
    under the lock of the entry, the temporary copy of the base page and the parent node.
    The drops of pointers and handles on the way out of an error are written out.
    What a concurrent writer may do to the parent node is an argument ([Race]).  The snapshot
    manager is absent: its guard is unprotected and carries [INVALID_SNAPSHOT_VERSION]. *)
From stdpp Require Import base numbers list option gmap.
From Stdlib Require Import ZArith Lia.
From S2P Require Import Prelude Bits NodeMeta LeafMeta LeafNode LeafOps InnerNode SplitKey Config StateError Storage.

(** The pages of this file are leaf nodes unless an inner node is named. *)
Abbreviation leaf_insert := LeafNode.insert.
Abbreviation leaf_meta := LeafNode.meta.

Record TmpBuffer := mkTmp { buffer_dirty : bool; buffer_page : LeafNode }.

(** [TmpBuffer::from_leaf_node]. *)
Definition tmp_from_leaf_node (n : LeafNode) (size : Z) : outcome TmpBuffer :=
  _ ← assert_ (node_size (leaf_meta n) =? size); Ret (mkTmp true n).

Inductive LeafRead := ReadMini (r : LeafReadResult) | ReadFull (r : LeafReadResult) | ReadBase (r : LeafReadResult) | ReadNone.

(** What the reader of a tree is told. *)
Definition result_of (r : LeafRead) : LeafReadResult :=
  match r with ReadMini r | ReadFull r | ReadBase r => r | ReadNone => NotFound end.

Inductive ScanPosition := ScanBase (pos : Z) | ScanFull (pos : Z) | ScanMini (pos : Z) | ScanNull.
Inductive ScanError := NeedMergeMiniPage.
Inductive MergeResult := NoSplit | MergeAndSplit.

(** Whether the version of the parent is unchanged, and whether its lock is obtained. *)
Record Race := mkRace { version_ok : bool; upgrade_ok : bool }.

Section entry.
Context {B T F : Type} `{PageBuffer B} `{PageMap T}.

Record env := mkEnv {
  store : LeafStorage B T;
  location : PageLocation;
  tmp_buffer : option TmpBuffer;
  parent_node : option InnerNode;
}.

Definition set_store (e : env) (s : LeafStorage B T) : env := mkEnv s (location e) (tmp_buffer e) (parent_node e).
Definition set_location (e : env) (l : PageLocation) : env := mkEnv (store e) l (tmp_buffer e) (parent_node e).
Definition set_tmp (e : env) (b : option TmpBuffer) : env := mkEnv (store e) (location e) b (parent_node e).
Definition set_parent (e : env) (p : option InnerNode) : env := mkEnv (store e) (location e) (tmp_buffer e) p.

(** ** The monad *)
Abbreviation M := (SE TreeError env).

(** An operation on the storage. *)
Definition on_store {A} (f : LeafStorage B T → outcome ((TreeError + A) * LeafStorage B T)) : M A := λ e,
  match f (store e) with Ret (r, s) => Ret (r, set_store e s) | Panic => Panic end.
Definition on_store' (f : LeafStorage B T → outcome (LeafStorage B T)) : M unit :=
  on_store (λ s, s' ← f s; Ret (inr tt, s')).

Context (mem : memory) (cfg : @Config F) (size_classes : list Z).

(** ** Pages *)
Definition cache_page (ptr : Z) : M LeafNode := e ← get; lift (load_cache_page (store e) ptr).
Definition put_cache_page (ptr : Z) (n : LeafNode) : M unit :=
  modify (λ e, set_store e (store_cache_page (store e) ptr n)).

Definition load_base_page (offset : Z) : M LeafNode := λ e,
  match tmp_buffer e with
  | Some b => Ret (inr (buffer_page b), e)
  | None =>
      let n := vfs_read mem (store e) offset in
      Ret (inr n, set_tmp e (Some (mkTmp false n)))
  end.

Definition load_base_page_from_buffer : M LeafNode := λ e,
  match tmp_buffer e with
  | Some b => if is_base_page (buffer_page b) then Ret (inr (buffer_page b), e) else Panic
  | None => Panic
  end.

(** The offset of the base page of the entry. *)
Definition base_offset_of (s : LeafStorage B T) (l : PageLocation) : outcome Z :=
  match l with
  | Mini ptr | FullPage ptr => n ← load_cache_page s ptr; as_offset (next_level n)
  | Base offset => Ret offset
  | Null => Panic
  end.

Definition load_base_page_mut : M LeafNode := λ e,
  match tmp_buffer e with
  | Some b => Ret (inr (buffer_page b), set_tmp e (Some (mkTmp true (buffer_page b))))
  | None =>
      match base_offset_of (store e) (location e) with
      | Ret offset =>
          let n := vfs_read mem (store e) offset in
          Ret (inr n, set_tmp e (Some (mkTmp true n)))
      | Panic => Panic
      end
  end.

(** Writes through the reference that [load_base_page_mut] returned. *)
Definition put_base_page (n : LeafNode) : M unit := modify (λ e, set_tmp e (Some (mkTmp true n))).

(** The drop of the entry: a changed copy goes back to the file. *)
Definition drop_entry (e : env) : outcome (LeafStorage B T) :=
  match tmp_buffer e with
  | Some (mkTmp true n) =>
      offset ← base_offset_of (store e) (location e);
      Ret (vfs_write (store e) offset n)
  | _ => Ret (store e)
  end.

(** ** The page table *)

(** [get] and [get_mut], with the parent the caller holds; the write back of the location at
    the drop is the write through the lock. *)
Definition get_entry (s : LeafStorage B T) (pid : Z) (p : option InnerNode) : outcome env :=
  l ← map_get (page_table s) pid; Ret (mkEnv s l None p).

Definition put_entry (e : env) (pid : Z) : outcome (LeafStorage B T) :=
  s ← drop_entry e;
  t ← map_put (page_table s) pid (location e);
  Ret (set_table s t).

(** A new base page with its entry: the entry holds the page as its changed copy. *)
Definition alloc_base_page_mapping (s : LeafStorage B T) (version : Z) : outcome (Z * env) :=
  let '(offset, s1) := alloc_offset s (leaf_page_size cfg) in
  r ← map_insert (page_table s1) (Base offset);
  let '(pid, t) := r in
  base ← make_base_page (fresh_page mem (leaf_page_size cfg)) (leaf_page_size cfg) version;
  buffer ← tmp_from_leaf_node base (leaf_page_size cfg);
  Ret (pid, mkEnv (set_table s1 t) (Base offset) (Some buffer) None).

Definition insert_mini_page_mapping (s : LeafStorage B T) (mini_loc : PageLocation) : outcome (Z * LeafStorage B T) :=
  match mini_loc with
  | Mini _ => r ← map_insert (page_table s) mini_loc; Ret (r.1, set_table s r.2)
  | _ => Panic
  end.

(** ** Reading *)
Definition read_cached (key out_buffer : bytes) (ptr : Z) (binary : bool) : M (LeafReadResult * bytes) :=
  n ← cache_page ptr;
  r ← lift (read_by_key_inner n key out_buffer binary);
  _ ← put_cache_page ptr r.1.2;
  mret (r.1.1, r.2).

(** The reference bits that a read sets in the copy of a base page. *)
Definition read_base (key out_buffer : bytes) (offset : Z) : M (LeafReadResult * bytes) :=
  n ← load_base_page offset;
  r ← lift (read_by_key n key out_buffer);
  _ ← modify (λ e, set_tmp e (match tmp_buffer e with Some b => Some (mkTmp (buffer_dirty b) r.1.2) | None => None end));
  mret (r.1.1, r.2).

Definition entry_read (key out_buffer : bytes) (binary cache_only : bool) : M (LeafRead * bytes) :=
  e ← get;
  match location e with
  | Base offset => r ← read_base key out_buffer offset; mret (ReadBase r.1, r.2)
  | FullPage ptr => r ← read_cached key out_buffer ptr true; mret (ReadFull r.1, r.2)
  | Mini ptr =>
      r ← read_cached key out_buffer ptr binary;
      match r.1 with
      | NotFound =>
          if cache_only then mret (ReadNone, r.2)
          else
            n ← cache_page ptr;
            offset ← lift (as_offset (next_level n));
            r' ← read_base key r.2 offset;
            mret (ReadBase r'.1, r'.2)
      | _ => mret (ReadMini r.1, r.2)
      end
  | Null => mret (ReadNone, out_buffer)
  end.

Definition cache_page_about_to_evict : M bool :=
  e ← get;
  match location e with
  | Mini ptr | FullPage ptr => mret (mini_page_copy_on_access (store e) ptr)
  | Base _ => mret false
  | Null => lift Panic
  end.

Definition entry_get_split_flag : M bool :=
  e ← get;
  match location e with
  | Base offset => n ← load_base_page offset; mret (leaf_get_split_flag n)
  | FullPage ptr | Mini ptr => n ← cache_page ptr; mret (leaf_get_split_flag n)
  | Null => mret false
  end.

(** ** Scanning *)
Definition get_scan_position (key : bytes) (cache_only : bool) : M (ScanError + ScanPosition) :=
  e ← get;
  match location e with
  | Base offset =>
      n ← load_base_page offset; pos ← lift (LeafNode.lower_bound n key); mret (inr (ScanBase (as_u32 pos)))
  | FullPage ptr =>
      n ← cache_page ptr; pos ← lift (LeafNode.lower_bound n key); mret (inr (ScanFull (as_u32 pos)))
  | Mini ptr =>
      if cache_only then
        n ← cache_page ptr; pos ← lift (LeafNode.lower_bound n key); mret (inr (ScanMini (as_u32 pos)))
      else mret (inl NeedMergeMiniPage)
  | Null => _ ← lift (assert_ cache_only); mret (inr ScanNull)
  end.

Definition scan_record_by_pos_with_bound (pos : ScanPosition) (out_buffer : bytes) (return_field : ScanReturnField)
    (end_key : option bytes) : M (GetScanRecordByPosResult * bytes) :=
  e ← get;
  match pos with
  | ScanBase pos =>
      n ← load_base_page_from_buffer; lift (get_record_by_pos_with_bound n pos out_buffer return_field end_key)
  | ScanFull pos =>
      match location e with
      | FullPage ptr => n ← cache_page ptr; lift (get_record_by_pos_with_bound n pos out_buffer return_field end_key)
      | _ => lift Panic
      end
  | ScanMini pos =>
      match location e with
      | Mini ptr => n ← cache_page ptr; lift (get_record_by_pos_with_bound n pos out_buffer return_field end_key)
      | _ => lift Panic
      end
  | ScanNull => mret (EndOfLeaf, out_buffer)
  end.

Definition get_right_sibling : M bytes :=
  e ← get;
  match location e with
  | Base offset => n ← load_base_page offset; lift (get_high_fence_key n)
  | FullPage ptr => n ← cache_page ptr; lift (get_high_fence_key n)
  | Mini ptr =>
      mini ← cache_page ptr;
      offset ← lift (as_offset (next_level mini));
      n ← load_base_page offset;
      lift (get_high_fence_key n)
  | Null => lift Panic
  end.

(** ** Changing the location *)
Definition create_cache_page_loc (l : PageLocation) : M unit := modify (λ e, set_location e l).

Definition change_to_base_loc : M unit :=
  e ← get;
  match location e with
  | Base _ | Null => lift Panic
  | Mini ptr | FullPage ptr =>
      n ← cache_page ptr;
      offset ← lift (as_offset (next_level n));
      modify (λ e, set_location e (Base offset))
  end.

Definition change_to_null_loc : M unit := modify (λ e, set_location e Null).

Definition get_disk_offset : M Z := e ← get; lift (base_offset_of (store e) (location e)).

Definition set_lsn (n : LeafNode) (l : Z) : LeafNode :=
  mkLeafNode (leaf_meta n) (prefix_len n) (next_level n) l (LeafNode.snapshot_version n) (LeafNode.data n).
Definition set_next_level (n : LeafNode) (next : Z) : LeafNode :=
  mkLeafNode (leaf_meta n) (prefix_len n) next (lsn n) (LeafNode.snapshot_version n) (LeafNode.data n).

Definition update_lsn (l : Z) : M unit :=
  e ← get;
  match location e with
  | Base _ => n ← load_base_page_mut; put_base_page (set_lsn n l)
  | FullPage ptr | Mini ptr => n ← cache_page ptr; put_cache_page ptr (set_lsn n l)
  | Null => lift Panic
  end.

(** The offset goes back to the file system, which does nothing with it. *)
Definition dealloc_self (cache_only : bool) : M unit :=
  e ← get;
  _ ← match location e with
      | Base offset => n ← load_base_page offset; lift (assert_ (next_level_is_null (next_level n)))
      | Mini ptr | FullPage ptr =>
          n ← cache_page ptr;
          _ ← (λ e, match on_store (λ s, begin_dealloc_mini_page s ptr) e with
                    | Ret (inl _, _) => Panic
                    | r => r
                    end);
          _ ← on_store' (λ s, finish_dealloc_mini_page s ptr);
          if cache_only then mret tt else _ ← lift (as_offset (next_level n)); mret tt
      | Null => mret tt
      end;
  modify (λ e, set_tmp e None).

(** The drop of the pointer of a new page, when the page is in place. *)
Definition publish_page (ptr : Z) : M unit := on_store' (λ s, publish s ptr).

Definition move_cache_page_to_tail : M unit :=
  e ← get;
  match location e with
  | Mini ptr =>
      n ← cache_page ptr;
      _ ← on_store (λ s, begin_dealloc_mini_page s ptr);
      new_page ← on_store (λ s, move_mini_page_to_tail mem s ptr (node_size (leaf_meta n)));
      _ ← publish_page new_page;
      modify (λ e, set_location e (Mini new_page))
  | FullPage ptr =>
      n ← cache_page ptr;
      _ ← lift (assert_ (node_size (leaf_meta n) =? leaf_page_size cfg));
      _ ← on_store (λ s, begin_dealloc_mini_page s ptr);
      new_page ← on_store (λ s, move_full_page_to_tail mem s ptr (node_size (leaf_meta n)));
      _ ← publish_page new_page;
      modify (λ e, set_location e (FullPage new_page))
  | Base _ | Null => lift Panic
  end.

(** ** Merging *)
Definition merge_full_page (ptr : Z) : M unit :=
  n ← cache_page ptr;
  _ ← lift (assert_ (node_size (leaf_meta n) =? leaf_page_size cfg));
  need ← lift (need_actually_merge_to_disk n);
  if negb need && negb (is_snapshot_version_changed n) then change_to_base_loc
  else
    n1 ← lift (convert_cache_records_to_insert n);
    let n2 := clear_snapshot_version_changed_flag n1 in
    _ ← put_cache_page ptr n2;
    _ ← change_to_base_loc;
    e ← get;
    _ ← lift (assert_ (match tmp_buffer e with Some b => buffer_dirty b | None => true end));
    put_base_page (set_next_level n2 next_level_null).

Definition merge_full_page_and_dealloc (ptr : Z) : M unit :=
  _ ← on_store (λ s, begin_dealloc_mini_page s ptr);
  _ ← merge_full_page ptr;
  on_store' (λ s, finish_dealloc_mini_page s ptr).

(** One record of the mini page goes to the half it belongs to. *)
Definition merge_split_record (mini : LeafNode) (split_key : bytes) (pages : LeafNode * LeafNode) (m : LeafKVMeta) :
    outcome (LeafNode * LeafNode) :=
  op ← op_type m;
  if negb (is_dirty op) then Ret pages
  else
    key ← LeafNode.get_full_key mini m;
    value ← LeafNode.get_value mini m;
    match cmp_bytes key split_key with
    | Gt | Eq =>
        r ← leaf_insert pages.2 key value op (max_fence_len cfg);
        _ ← assert_ r.1; Ret (pages.1, r.2)
    | Lt =>
        r ← leaf_insert pages.1 key value op (max_fence_len cfg);
        _ ← assert_ r.1; Ret (r.2, pages.2)
    end.

(** A base page with one record is consolidated first. *)
Definition consolidate_single (base : LeafNode) : outcome LeafNode :=
  cnt ← meta_count_without_fence (leaf_meta base);
  if cnt =? 1 then
    let version := LeafOps.get_clean_snapshot_version base in
    base1 ← consolidate_inner base OpInsert None true false None version;
    Ret (LeafOps.set_snapshot_version base1 version false)
  else Ret base.

(** [parent.expect(..)] *)
Definition expect_parent : M unit := e ← get; _ ← lift (unwrap (parent_node e)); mret tt.

Definition parent_upgrade (race : Race) : M InnerNode :=
  if upgrade_ok race then e ← get; lift (unwrap (parent_node e)) else throw Locked.

Definition parent_set_split_flag (p : InnerNode) : M unit :=
  modify (λ e, set_parent e (Some (InnerNode.set_meta p (set_split_flag (InnerNode.meta p))))).

(** The part of [try_merge_mini_page] that splits the base page. *)
Definition merge_and_split (mini base : LeafNode) (race : Race) : M MergeResult :=
  x_parent ← parent_upgrade race;
  kb ← lift (get_merge_split_key base mini);
  let '(split_key, base1) := kb in
  _ ← put_base_page base1;
  if have_space_for x_parent split_key then
    e ← get;
    r ← lift (alloc_base_page_mapping (store e) INVALID_SNAPSHOT_VERSION);
    let '(sibling_id, sibling) := r in
    _ ← modify (λ e, set_store e (store sibling));
    sibling_page ← lift (match tmp_buffer sibling with Some b => Ret (buffer_page b) | None => Panic end);
    halves ← lift (split_with_key base1 sibling_page split_key false INVALID_SNAPSHOT_VERSION);
    p' ← lift (InnerNode.insert x_parent split_key (from_id sibling_id));
    _ ← modify (λ e, set_parent e (Some p'.2));
    metas ← lift (meta_iter mini);
    pages ← lift (foldM (merge_split_record mini split_key) halves metas);
    _ ← put_base_page pages.1;
    _ ← on_store' (λ s, drop_entry (mkEnv s (location sibling) (Some (mkTmp true pages.2)) None));
    mret MergeAndSplit
  else
    _ ← parent_set_split_flag x_parent;
    throw NeedRestart.

Definition try_merge_mini_page (ptr : Z) (race : Race) : M MergeResult :=
  if negb (version_ok race) then throw Locked
  else
    mini ← cache_page ptr;
    need ← lift (need_actually_merge_to_disk mini);
    if negb need && negb (is_snapshot_version_changed mini) then mret NoSplit
    else
      base ← load_base_page_mut;
      base1 ← lift (consolidate_single base);
      _ ← put_base_page base1;
      r ← lift (merge_mini_page base1 mini (max_fence_len cfg));
      _ ← put_base_page r.2;
      if r.1 : bool then mret NoSplit else merge_and_split mini r.2 race.

Definition merge_mini_page_and_dealloc (ptr : Z) (race : Race) : M unit :=
  _ ← on_store (λ s, begin_dealloc_mini_page s ptr);
  _ ← on_error (try_merge_mini_page ptr race) (on_store' (λ s, release s ptr));
  _ ← change_to_base_loc;
  on_store' (λ s, finish_dealloc_mini_page s ptr).

Definition upgrade_to_full_page (base_page : LeafNode) (base_page_offset : Z) : M PageLocation :=
  ptr ← on_store (λ s, alloc_mini_page mem s (leaf_page_size cfg));
  _ ← lift (assert_ (node_size (leaf_meta base_page) =? leaf_page_size cfg));
  n ← lift (covert_insert_records_to_cache base_page);
  _ ← put_cache_page ptr (set_next_level n base_page_offset);
  _ ← publish_page ptr;
  mret (FullPage ptr).

(** ** Inserting *)
Definition key_value_physical_size (key value : bytes) : Z := zlen key + zlen value + KV_META_SIZE.

(** A new page of the buffer with a header. *)
Definition new_mini_page (size next : Z) (cache_only : bool) : M Z :=
  ptr ← on_store (λ s, alloc_mini_page mem s size);
  n ← cache_page ptr;
  n1 ← lift (initialize_mini_page n size next cache_only INVALID_SNAPSHOT_VERSION);
  _ ← put_cache_page ptr n1;
  mret ptr.

(** Inserts in the page at [ptr]; whether it did. *)
Definition insert_cached (ptr : Z) (key value : bytes) (op : OpType) (max_fence : Z) : M bool :=
  n ← cache_page ptr;
  r ← lift (leaf_insert n key value op max_fence);
  _ ← put_cache_page ptr r.2;
  mret r.1.

(** The root leaf has no mini page. *)
Definition insert_root_base (key value : bytes) (op : OpType) : M unit :=
  n ← load_base_page_mut;
  r ← lift (leaf_insert n key value op (max_fence_len cfg));
  if r.1 : bool then put_base_page r.2
  else
    _ ← put_base_page (leaf_set_split_flag r.2);
    throw NeedRestart.

Definition insert_base (offset : Z) (key value : bytes) (op : OpType) (cache_only : bool) : M unit :=
  size ← lift (get_chain_size_hint (zlen key) (zlen value) size_classes cache_only);
  ptr ← new_mini_page size offset false;
  _ ← create_cache_page_loc (Mini ptr);
  ok ← insert_cached ptr key value op 0;
  _ ← lift (assert_ ok);
  publish_page ptr.

Definition insert_full (ptr : Z) (key value : bytes) (op : OpType) : M unit :=
  ok ← insert_cached ptr key value op (max_fence_len cfg);
  if ok : bool then mret tt
  else
    _ ← merge_full_page_and_dealloc ptr;
    throw NeedRestart.

(** Moving to a larger mini page. *)
Definition insert_upgrade (ptr s : Z) (key value : bytes) (op : OpType) (cache_only : bool) : M unit :=
  _ ← on_store (λ st, begin_dealloc_mini_page st ptr);
  n ← cache_page ptr;
  new_ptr ← on_error (new_mini_page s (next_level n) cache_only) (on_store' (λ st, release st ptr));
  dst ← cache_page new_ptr;
  dst1 ← lift (copy_initialize_to n dst s true INVALID_SNAPSHOT_VERSION);
  let dst2 := if is_snapshot_version_changed n then set_snapshot_version_changed_flag dst1 else dst1 in
  _ ← put_cache_page new_ptr dst2;
  _ ← create_cache_page_loc (Mini new_ptr);
  rt ← insert_cached new_ptr key value op 0;
  _ ← publish_page new_ptr;
  _ ← on_store' (λ st, finish_dealloc_mini_page st ptr);
  lift (assert_ rt).

(** The split of a page of the cache-only mode under the lock of the parent; the record goes to
    the half it belongs to. *)
Definition split_cache_only (ptr : Z) (cur : LeafNode) (split_key : bytes) (x_parent : InnerNode)
    (key value : bytes) (op : OpType) : M unit :=
  if have_space_for x_parent split_key then
    new_ptr ← new_mini_page (leaf_page_size cfg) next_level_null true;
    e ← get;
    t ← lift (insert_mini_page_mapping (store e) (Mini new_ptr));
    _ ← modify (λ e, set_store e t.2);
    sibling ← cache_page new_ptr;
    halves ← lift (split_with_key cur sibling split_key true INVALID_SNAPSHOT_VERSION);
    p' ← lift (InnerNode.insert x_parent split_key (from_id t.1));
    _ ← modify (λ e, set_parent e (Some p'.2));
    _ ← put_cache_page ptr halves.1;
    _ ← put_cache_page new_ptr halves.2;
    let target := match cmp_bytes key split_key with Lt => ptr | _ => new_ptr end in
    ok ← insert_cached target key value op 0;
    _ ← lift (assert_ ok);
    left ← cache_page ptr;
    right ← cache_page new_ptr;
    _ ← lift (assert_ (0 <? meta_count_with_fence (leaf_meta left)));
    _ ← lift (assert_ (0 <? meta_count_with_fence (leaf_meta right)));
    publish_page new_ptr
  else
    _ ← parent_set_split_flag x_parent;
    throw NeedRestart.

(** In cache-only mode a page that cannot grow is consolidated, and split when that is not enough. *)
Definition insert_split_cache_only (ptr : Z) (key value : bytes) (op : OpType) (race : Race) : M unit :=
  cur ← cache_page ptr;
  _ ← lift (assert_ (node_size (leaf_meta cur) =? leaf_page_size cfg));
  cur1 ← lift (consolidate_skip_key cur key INVALID_SNAPSHOT_VERSION);
  r ← lift (leaf_insert cur1 key value op 0);
  _ ← put_cache_page ptr r.2;
  if r.1 : bool then mret tt
  else
    cnt ← lift (meta_count_without_fence (leaf_meta r.2));
    _ ← lift (assert_ (0 <? cnt));
    split_key ← lift (get_cache_only_insert_split_key r.2 key (as_u16 (zlen key + zlen value)));
    _ ← expect_parent;
    _ ← (if version_ok race then mret tt else throw Locked);
    x_parent ← parent_upgrade race;
    split_cache_only ptr r.2 split_key x_parent key value op.

(** A mini page at its largest size is merged, and the base page may come back as a full page. *)
Definition insert_merge (ptr : Z) (race : Race) : M unit :=
  n ← cache_page ptr;
  let base_offset := next_level n in
  _ ← expect_parent;
  _ ← merge_mini_page_and_dealloc ptr race;
  _ ← (if write_load_full_page cfg then
         offset ← lift (as_offset base_offset);
         base ← load_base_page offset;
         cnt ← lift (meta_count_without_fence (leaf_meta base));
         if cnt =? 0 then mret tt
         else l ← upgrade_to_full_page base base_offset; create_cache_page_loc l
       else mret tt);
  throw NeedRestart.

(** The root page in cache-only mode.  A page that had room is filled again by the caller. *)
Definition insert_root_cache_only (ptr : Z) (key value : bytes) (op : OpType) : M bool :=
  ok ← insert_cached ptr key value op 0;
  if ok : bool then mret false
  else
    n ← cache_page ptr;
    n1 ← lift (consolidate_inner n OpInsert None true true None INVALID_SNAPSHOT_VERSION);
    _ ← put_cache_page ptr n1;
    ok ← insert_cached ptr key value op 0;
    if ok : bool then mret true
    else
      n2 ← cache_page ptr;
      _ ← put_cache_page ptr (leaf_set_split_flag n2);
      throw NeedRestart.

Definition insert_mini (ptr : Z) (key value : bytes) (op : OpType) (cache_only : bool) (race : Race) : M unit :=
  e ← get;
  done ← (if cache_only && bool_decide (parent_node e = None)
          then insert_root_cache_only ptr key value op else mret false);
  if done : bool then mret tt
  else
    n ← cache_page ptr;
    _ ← lift (assert_ (if cache_only then next_level_is_null (next_level n)
                       else negb (next_level_is_null (next_level n))));
    ok ← insert_cached ptr key value op 0;
    if ok : bool then mret tt
    else
      new_size ← lift (new_size_if_upgrade n (key_value_physical_size key value) size_classes cache_only);
      match new_size with
      | Some s => insert_upgrade ptr s key value op cache_only
      | None =>
          if cache_only then insert_split_cache_only ptr key value op race
          else insert_merge ptr race
      end.

(** [LeafEntryXLocked::insert]. *)
Definition entry_insert (key value : bytes) (op : OpType) (race : Race) : M unit :=
  let co := cache_only cfg in
  e ← get;
  match location e with
  | Base offset =>
      if co then lift Panic
      else match parent_node e with
           | None => insert_root_base key value op
           | Some _ => insert_base offset key value op co
           end
  | FullPage ptr => if co then lift Panic else insert_full ptr key value op
  | Mini ptr => insert_mini ptr key value op co race
  | Null => lift Panic
  end.
End entry.
