(* ===== verification/MergeSplit.v ===== *)
(** A merge that splits the base page (src/mini_page_op.rs, the second half of
    [try_merge_mini_page]): the halves of the base page, cut at the key of SplitKey.v, absorb the
    dirty records of the mini page, and together they read as the mini page over the old base
    page. *)
From stdpp Require Import base numbers list sorting.
From Stdlib Require Import ZArith Lia.
From S2P Require Import Prelude Bits NodeMeta LeafMeta LeafNode LeafOps LeafLayout Entries LeafRepr LeafSearch LeafInsert LeafInit LeafMerge LeafRebuild LeafSplit LeafTheorems SplitKey SplitKeyProofs Config LeafEntry.

(** ** An insertion with room *)
Lemma insert_fits n p key value op mfl :
  Repr n p → in_range (p_fences p) key → entry_ok (mkEntry key op value) → 0 <= mfl < 2 ^ 15 →
  (op = OpCache → find_entry key (p_entries p) = None) →
  op_eqb op OpDelete && is_base_page n = true ∨
    kv_size n key value + KV_META_SIZE <= remaining_size (meta n) ∧
    kv_size n key value + KV_META_SIZE + mfl <= remaining_size (meta n) + fence_bytes p →
  ∃ n', insert n key value op mfl = Ret (true, n') ∧ insert_done n p key value op n'.
Proof.
  intros HR Hkey Hok Hmfl Hc Hroom.
  destruct (insert_repr n p HR key value op mfl Hkey Hok Hmfl Hc) as (b & n' & Hrun & Hb).
  destruct b; [by exists n'|]. exfalso. destruct Hb as (_ & Hno & Hdel).
  destruct Hroom as [Hd|[Hr1 Hr2]]; [congruence|].
  pose proof (key_bounds n p HR key value op Hkey Hok) as (_ & _ & _ & Hkv).
  destruct Hno as [Hno|Hfull]; [unfold KV_META_SIZE in *; lia|].
  rewrite (full_spec n p HR) in Hfull by (unfold KV_META_SIZE; lia).
  injection Hfull as [Hf|Hf]%orb_true_iff; [apply Z.ltb_lt in Hf; lia|].
  apply andb_true_iff in Hf as [_ Hf]. apply Z.ltb_lt in Hf. lia.
Qed.

(** ** Sums over the merged records *)
Definition weigh (P : bytes → bool) (l : list item) : Z := foldr (λ it acc, (if P it.1 then it.2 else 0) + acc) 0 l.

Lemma weigh_app P l1 l2 : weigh P (l1 ++ l2) = weigh P l1 + weigh P l2.
Proof. unfold weigh. induction l1 as [|x l1 IH]; cbn [app foldr]; [done|]. rewrite IH. lia. Qed.

Lemma weigh_cons P it l : weigh P (it :: l) = (if P it.1 then it.2 else 0) + weigh P l.
Proof. done. Qed.

Lemma weigh_nonneg P l : positive l → 0 <= weigh P l.
Proof. induction 1 as [|x l Hx _ IH]; [done|]. rewrite weigh_cons. destruct (P x.1); lia. Qed.

Lemma weigh_all P l : Forall (λ it, P it.1 = true) l → weigh P l = items_size l.
Proof. induction 1 as [|x l Hx _ IH]; [done|]. rewrite weigh_cons, items_size_cons, Hx. lia. Qed.

Lemma weigh_none P l : Forall (λ it, P it.1 = false) l → weigh P l = 0.
Proof. induction 1 as [|x l Hx _ IH]; [done|]. rewrite weigh_cons, Hx. lia. Qed.

Definition fresh (ms : list item) (k : bytes) : bool := negb (bool_decide (k ∈ ms.*1)).

Lemma fresh_below m ms (l : list item) :
  in_order (m :: ms) → Forall (λ a, bytes_lt a.1 m.1) l → Forall (λ a, fresh (m :: ms) a.1 = true) l.
Proof.
  intros Ho Hl. apply StronglySorted_inv in Ho as [_ Hm]. eapply Forall_impl; [exact Hl|]. intros a Ha. cbv beta in Ha.
  unfold fresh. rewrite bool_decide_eq_false_2; [done|]. rewrite fmap_cons, elem_of_cons. intros [Heq|Hin].
  - rewrite Heq in Ha. by apply bytes_lt_irrefl in Ha.
  - apply list_elem_of_fmap in Hin as (x & Hx & Hin). rewrite Forall_forall in Hm. specialize (Hm x Hin).
    unfold item_lt in Hm. rewrite <- Hx in Hm. apply (bytes_lt_irrefl a.1). by eapply cmp_lt_trans.
Qed.

Lemma fresh_above m ms (l : list item) :
  Forall (λ a, bytes_lt m.1 a.1) l → Forall (λ a, fresh (m :: ms) a.1 = fresh ms a.1) l.
Proof.
  intros Hl. eapply Forall_impl; [exact Hl|]. intros a Ha. cbv beta in Ha. unfold fresh. f_equal. apply bool_decide_ext.
  rewrite fmap_cons, elem_of_cons. split; [|by right]. intros [Heq|?]; [|done].
  rewrite Heq in Ha. by apply bytes_lt_irrefl in Ha.
Qed.

Lemma weigh_ext P Q (l : list item) : Forall (λ a, P a.1 = Q a.1) l → weigh P l = weigh Q l.
Proof. induction 1 as [|x l Hx _ IH]; [done|]. rewrite !weigh_cons, Hx, IH. done. Qed.

(** Below the key of a record of the mini page, at it, and above. *)
Lemma below_split key l :
  in_order l →
  ∃ mid, l = take (below key l) l ++ mid ++ drop_equal key (drop (below key l) l) ∧ Forall (λ a, a.1 = key) mid.
Proof.
  intros Ho. generalize (below key l). intros k. pose proof (take_drop k l) as Ht.
  destruct (drop k l) as [|a l']; cbn [drop_equal]; [by exists []|].
  destruct (cmp_bytes a.1 key) eqn:E; [|by exists []..].
  exists [a]. apply cmp_eq in E. split; [done|by repeat constructor].
Qed.

(** Every record is counted once: those of the mini page and those of the base page that they
    do not replace. *)
Lemma merged_weigh P ms bs :
  in_order ms → in_order bs →
  weigh P (merged_items ms bs) = weigh P ms + weigh (λ k, P k && fresh ms k) bs.
Proof.
  intros Hms. revert bs. induction Hms as [|m ms Hms IH Hm]; intros bs Hbs; cbn [merged_items].
  { erewrite (weigh_ext (λ k, P k && fresh [] k)); [done|]. apply Forall_true. intros a. by rewrite andb_true_r. }
  set (k := below m.1 bs). set (rest := drop_equal m.1 (drop k bs)).
  assert (in_order rest) as Hrest by (apply drop_equal_order, in_order_drop, Hbs).
  destruct (below_split m.1 bs Hbs) as (mid & Hsplit & Hmid). fold k rest in Hsplit.
  rewrite Hsplit at 2. rewrite !weigh_app, weigh_cons, IH by done.
  rewrite (weigh_none _ mid).
  2:{ eapply Forall_impl; [exact Hmid|]. intros a ->. unfold fresh. rewrite bool_decide_eq_true_2 by (by left).
      by rewrite andb_false_r. }
  rewrite (weigh_ext (λ k, P k && fresh (m :: ms) k) (λ k, P k && fresh ms k) rest).
  2:{ eapply Forall_impl; [apply fresh_above, above_rest, Hbs|]. by intros a ->. }
  rewrite (weigh_ext (λ k, P k && fresh (m :: ms) k) P (take k bs)).
  2:{ eapply Forall_impl; [apply (fresh_below m ms); [by constructor|by apply below_take]|]. intros a ->. by rewrite andb_true_r. }
  rewrite weigh_cons. lia.
Qed.

(** ** The halves after the split *)
Definition is_below (sk k : bytes) : bool := match cmp_bytes k sk with Lt => true | _ => false end.

Lemma replaced_key ms e : e_key (replaced ms e) = e_key e.
Proof. unfold replaced. by case_bool_decide. Qed.

Lemma lb_replaced ms sk es : lb sk (map (replaced ms) es) = lb sk es.
Proof. induction es as [|e es IH]; [done|]. cbn [map lb]. by rewrite replaced_key, IH. Qed.

Lemma entry_items_positive es : positive (map entry_item es).
Proof.
  apply Forall_map, Forall_true. intros e. cbn. unfold KV_META_SIZE.
  pose proof (zlen_nonneg (e_key e)). pose proof (zlen_nonneg (e_val e)). lia.
Qed.

Lemma dirty_items_keys ms : (map entry_item (dirty_entries ms)).*1 = map e_key (dirty_entries ms).
Proof. change (?f <$> map entry_item ?x) with (map f (map entry_item x)). by rewrite map_map. Qed.

(** What is kept of some records takes no more than their sizes. *)
Lemma consolidated_weigh pl ms Q part :
  Forall (λ e, 0 <= pl <= zlen (e_key e) ∧ Q (e_key e) = true) part →
  total_need pl (consolidated OpInsert true None (map (replaced ms) part)) <=
    weigh (λ k, Q k && fresh (map entry_item (dirty_entries ms)) k) (map entry_item part).
Proof.
  induction 1 as [|e part [Hpl HQ] _ IH]; [done|]. cbn [map]. rewrite consolidated_cons, weigh_cons.
  change (entry_item e).1 with (e_key e). unfold fresh at 1. rewrite dirty_items_keys, HQ. cbn [andb].
  assert (entry_need pl (retag OpInsert e) <= (entry_item e).2) as Hneed.
  { unfold entry_need, retag. cbn [e_key e_val entry_item snd]. lia. }
  pose proof (weigh_nonneg (λ k, Q k && fresh (map entry_item (dirty_entries ms)) k) _ (entry_items_positive part)).
  assert (0 <= (entry_item e).2) as Hpos.
  { cbn. unfold KV_META_SIZE. pose proof (zlen_nonneg (e_key e)). pose proof (zlen_nonneg (e_val e)). lia. }
  unfold replaced at 1 2. case_bool_decide as Hin; cbn [negb].
  - change (kept true None (overwrite e OpDelete [])) with false. cbv iota. lia.
  - destruct (kept true None e); [|lia]. change (total_need pl (?x :: ?l)) with (entry_need pl x + total_need pl l). lia.
Qed.

Section halves.
Context (ms es : list entry).
Hypothesis Hms : ordered ms.
Hypothesis Hes : ordered es.
Let minis := map entry_item (dirty_entries ms).

Lemma weigh_half Q part rest :
  part ++ rest = es ∨ rest ++ part = es →
  weigh Q (map entry_item part) <= weigh Q (map entry_item es).
Proof.
  intros [<-|<-]; rewrite map_app, weigh_app; pose proof (weigh_nonneg Q _ (entry_items_positive rest)); lia.
Qed.

(** A half of the base page and the records of the mini page that go there. *)
Lemma half_size Q part rest half pl :
  part ++ rest = es ∨ rest ++ part = es →
  Forall (λ e, Q (e_key e) = true) part → Forall (λ e, 0 <= pl <= zlen (e_key e)) part →
  half = consolidated OpInsert true None (map (replaced ms) part) →
  total_need pl half + weigh Q minis <= weigh Q (merged_entries ms es).
Proof.
  intros Hp HQ Hpl ->. unfold merged_entries.
  rewrite merged_weigh by (apply ordered_items; first [by apply dirty_ordered|done]). fold minis.
  pose proof (consolidated_weigh pl ms Q part) as Hc. lapply Hc; [clear Hc; intros Hc|by apply Forall_and].
  fold minis in Hc. pose proof (weigh_half (λ k, Q k && fresh minis k) part rest Hp). lia.
Qed.

Context (sk : bytes).
Let k := lb sk es.
Let left_es := consolidated OpInsert true None (take (lb sk (map (replaced ms) es)) (map (replaced ms) es)).
Let right_es := consolidated OpInsert true None (drop (lb sk (map (replaced ms) es)) (map (replaced ms) es)).

Lemma halves_take : left_es = consolidated OpInsert true None (map (replaced ms) (take k es)).
Proof. unfold left_es. by rewrite lb_replaced, firstn_map. Qed.
Lemma halves_drop : right_es = consolidated OpInsert true None (map (replaced ms) (drop k es)).
Proof. unfold right_es. by rewrite lb_replaced, skipn_map. Qed.

Lemma take_below : Forall (λ e, is_below sk (e_key e) = true) (take k es).
Proof.
  eapply Forall_impl; [apply lb_take, Hes|]. intros e He. unfold is_below. cbv beta in He. by rewrite He.
Qed.

Lemma drop_above : Forall (λ e, negb (is_below sk (e_key e)) = true) (drop k es).
Proof.
  eapply Forall_impl; [apply lb_drop, Hes|]. intros e He. cbv beta in He. unfold is_below.
  rewrite (cmp_opp sk (e_key e)). by destruct (cmp_bytes sk (e_key e)).
Qed.

End halves.

(** ** The records of the mini page *)
Section records.
Context {F : Type} (cfg : @Config F) (mini : LeafNode) (q : page) (sk : bytes).
Hypothesis HQ : Repr mini q.
Hypothesis Hmfl : 0 <= max_fence_len cfg < 2 ^ 15.

(** [need] bytes fit in the page and leave the reserve for fences. *)
Definition has_room (n : LeafNode) (p : page) (need : Z) : Prop :=
  need <= remaining_size (meta n) ∧ need + max_fence_len cfg <= remaining_size (meta n) + fence_bytes p.

(** A page between the fences that takes dirty records. *)
Definition takes (n : LeafNode) (p : page) (rs : list krec) (Q : bytes → bool) : Prop :=
  Repr n p ∧ is_base_page n = true ∧
  (∀ r, r ∈ rs → dirty_rec r = true → Q (k_key r) = true → in_range (p_fences p) (k_key r)) ∧
  has_room n p (weigh Q (minis_of rs)).

Lemma minis_cons r rs : minis_of (r :: rs) = (if dirty_rec r then [item_of r] else []) ++ minis_of rs.
Proof. unfold minis_of, dirty_recs. cbn [List.filter]. by destruct (dirty_rec r). Qed.

Lemma takes_skip n p r rs Q :
  takes n p (r :: rs) Q → dirty_rec r && Q (k_key r) = false → takes n p rs Q.
Proof.
  intros (HR & Hb & Hin & Hroom) Hskip. split_and!; [done|done|intros r' Hr'; apply Hin; by right|].
  rewrite minis_cons, weigh_app in Hroom. destruct (dirty_rec r); cbn [andb] in Hskip; [|exact Hroom].
  rewrite weigh_cons in Hroom. cbn [item_of fst] in Hroom. rewrite Hskip in Hroom. exact Hroom.
Qed.

Lemma takes_insert n p r rs Q :
  takes n p (r :: rs) Q → r ∈ p_recs q → dirty_rec r = true → Q (k_key r) = true →
  ∃ n' p', insert n (k_key r) (k_val r) (e_op (k_ent r)) (max_fence_len cfg) = Ret (true, n') ∧
    takes n' p' rs Q ∧ p_fences p' = p_fences p ∧ same_header n n' ∧
    p_entries p' = merge_entry (p_entries p) (k_ent r).
Proof.
  intros (HR & Hb & Hin & Hroom) Hr Hd HQr. pose proof (Hin r ltac:(by left) Hd HQr) as Hrange.
  destruct (rec_readers mini q HQ r Hr) as (_ & _ & _ & _ & _ & _ & (_ & Hok) & _).
  pose proof (range_prefix n p HR _ Hrange) as [Hpl _].
  assert (weigh Q (minis_of (r :: rs)) = rec_need r + weigh Q (minis_of rs)) as Hw.
  { rewrite minis_cons, Hd. cbn [app]. rewrite weigh_cons. cbn [item_of fst snd]. by rewrite HQr. }
  pose proof (weigh_nonneg Q _ (minis_positive rs)) as Hnn. destruct Hroom as [Hr1 Hr2]. rewrite Hw in Hr1, Hr2.
  assert (kv_size n (k_key r) (k_val r) + KV_META_SIZE <= rec_need r) as Hkv by (unfold kv_size, rec_need; lia).
  destruct (insert_fits n p (k_key r) (k_val r) (e_op (k_ent r)) (max_fence_len cfg)) as (n' & Hi & p' & HR' & Hf' & He' & Hh' & Hrem);
    [done|done|by destruct r as [[] ? ?]|done|by intros Hc; unfold dirty_rec in Hd; rewrite Hc in Hd|right; lia|].
  exists n', p'. split; [done|]. rewrite Hb in He', Hrem. pose proof (rec_need_nonneg r).
  assert (fence_bytes p' = fence_bytes p) as Hfb by (unfold fence_bytes; by rewrite Hf').
  split_and!; try done.
  - split_and!; [done|by rewrite (same_header_base _ _ Hh')|intros r' Hr'; rewrite Hf'; apply Hin; by right|].
    unfold has_room. rewrite Hfb. destruct (op_eqb _ _ && _); lia.
  - rewrite He'. unfold merge_entry. unfold dirty_rec in Hd. by rewrite Hd.
Qed.

Definition going (Q : bytes → bool) (rs : list krec) : list entry := List.filter (λ e, Q (e_key e)) (map k_ent rs).

Lemma going_cons Q r rs : going Q (r :: rs) = if Q (k_key r) then k_ent r :: going Q rs else going Q rs.
Proof. done. Qed.

Lemma merge_clean r Q rs es : dirty_rec r = false → merge_entries (going Q (r :: rs)) es = merge_entries (going Q rs) es.
Proof.
  intros Hd. rewrite going_cons. destruct (Q _); [|done]. unfold merge_entries. cbn [foldl].
  unfold merge_entry at 2. unfold dirty_rec in Hd. by rewrite Hd.
Qed.

(** The record at the head goes to one of the pages. *)
Lemma merge_split_step r left right :
  r ∈ p_recs q →
  merge_split_record cfg mini sk (left, right) (rec_meta mini r) =
    if negb (dirty_rec r) then Ret (left, right)
    else if is_below sk (k_key r) then
      x ← insert left (k_key r) (k_val r) (e_op (k_ent r)) (max_fence_len cfg); _ ← assert_ x.1; Ret (x.2, right)
    else
      x ← insert right (k_key r) (k_val r) (e_op (k_ent r)) (max_fence_len cfg); _ ← assert_ x.1; Ret (left, x.2).
Proof.
  intros Hr. destruct (rec_readers mini q HQ r Hr) as (Hkey & Hval & Hop & _). unfold merge_split_record.
  rewrite Hop. ret_step. fold (dirty_rec r). destruct (negb (dirty_rec r)); [done|].
  rewrite Hkey. ret_step. rewrite Hval. ret_step. unfold is_below. by destruct (cmp_bytes (k_key r) sk).
Qed.

Definition merged_pages (rs : list krec) (left right : LeafNode) (lp rp : page) (pages : LeafNode * LeafNode) : Prop :=
  ∃ lp' rp',
    Repr pages.1 lp' ∧ p_fences lp' = p_fences lp ∧ same_header left pages.1 ∧
    p_entries lp' = merge_entries (going (is_below sk) rs) (p_entries lp) ∧
    Repr pages.2 rp' ∧ p_fences rp' = p_fences rp ∧ same_header right pages.2 ∧
    p_entries rp' = merge_entries (going (λ k, negb (is_below sk k)) rs) (p_entries rp).

Lemma merge_split_loop rs left lp right rp :
  (∀ r, r ∈ rs → r ∈ p_recs q) →
  takes left lp rs (is_below sk) → takes right rp rs (λ k, negb (is_below sk k)) →
  ∃ pages, foldM (merge_split_record cfg mini sk) (left, right) (map (rec_meta mini) rs) = Ret pages ∧
    merged_pages rs left right lp rp pages.
Proof.
  revert left lp right rp. induction rs as [|r rs IH]; intros left lp right rp Hin HL HRt.
  { exists (left, right). split; [done|]. exists lp, rp. destruct HL, HRt. by split_and!. }
  assert (r ∈ p_recs q) as Hr by (apply Hin; by left).
  assert (∀ r', r' ∈ rs → r' ∈ p_recs q) as Hin' by (intros r' Hr'; apply Hin; by right).
  cbn [map foldM]. rewrite merge_split_step by done. unfold merged_pages. destruct (dirty_rec r) eqn:Hd; cbn [negb].
  2:{ ret_step. rewrite !merge_clean by done. apply IH; [done|..]; eapply takes_skip; try done; by rewrite Hd. }
  rewrite !going_cons. destruct (is_below sk (k_key r)) eqn:Hb; cbn [negb].
  - destruct (takes_insert left lp r rs _ HL Hr Hd Hb) as (n' & p' & -> & HL' & Hf & Hh & He). ret_step. cbn [fst snd]. rewrite (assert_true true) by done. do 2 ret_step.
    destruct (IH n' p' right rp Hin' HL') as (pages & -> & lp' & rp' & H1 & H2 & H3 & H4 & H5 & H6 & H7 & H8).
    { eapply takes_skip; [exact HRt|]. by rewrite Hd, Hb. }
    exists pages. split; [done|]. exists lp', rp'. cbn [merge_entries foldl]. rewrite <- He, <- Hf.
    split_and!; try done. by eapply same_header_trans.
  - destruct (takes_insert right rp r rs _ HRt Hr Hd) as (n' & p' & -> & HR' & Hf & Hh & He); [by rewrite Hb|]. ret_step. cbn [fst snd]. rewrite (assert_true true) by done. do 2 ret_step.
    destruct (IH left lp n' p' Hin') as (pages & -> & lp' & rp' & H1 & H2 & H3 & H4 & H5 & H6 & H7 & H8); [|done|].
    { eapply takes_skip; [exact HL|]. by rewrite Hd, Hb. }
    exists pages. split; [done|]. exists lp', rp'. cbn [merge_entries foldl]. rewrite <- He, <- Hf.
    split_and!; try done. by eapply same_header_trans.
Qed.
End records.

(** ** What the two pages read as *)
Definition all_dirty (es : list entry) : Prop := Forall (λ e, is_dirty (e_op e) = true) es.

Lemma upsert_dirty key op val es : is_dirty op = true → all_dirty es → all_dirty (upsert key op val es).
Proof.
  intros Hop. induction 1 as [|e es He Hes IH]; cbn [upsert]; [by repeat constructor|].
  destruct (cmp_bytes _ _); repeat constructor; done.
Qed.

Lemma merge_entries_dirty ms es : all_dirty es → all_dirty (merge_entries ms es).
Proof.
  unfold merge_entries. revert es. induction ms as [|m ms IH]; intros es Hes; [done|]. cbn [foldl]. apply IH.
  unfold merge_entry. destruct (is_dirty (e_op m)) eqn:Hd; [|done]. unfold apply_op.
  destruct (find_entry _ _); [by apply upsert_dirty|]. destruct (_ && _); [done|by apply upsert_dirty].
Qed.

Lemma consolidated_dirty es : all_dirty (consolidated OpInsert true None es).
Proof.
  eapply (consolidated_forall OpInsert true None (λ _, True)); [by apply Forall_true|].
  intros e _ Hk. unfold kept, retag in *. cbn [e_op andb] in *. by destruct (e_op e).
Qed.

Lemma find_going Q k rs :
  find_entry k (going Q rs) = if Q k then find_entry k (map k_ent rs) else None.
Proof.
  induction rs as [|r rs IH]; [by destruct (Q k)|]. rewrite going_cons. cbn [map find_entry]. change (e_key (k_ent r)) with (k_key r).
  destruct (Q (k_key r)) eqn:HQ; cbn [find_entry]; change (e_key (k_ent r)) with (k_key r);
    destruct (key_eqb (k_key r) k) eqn:Hk; try done.
  - apply key_eqb_eq in Hk as <-. by rewrite HQ.
  - apply key_eqb_eq in Hk as <-. rewrite IH. by rewrite HQ.
Qed.

Lemma going_ordered Q rs : ordered (map k_ent rs) → ordered (going Q rs).
Proof.
  intros H. eapply ordered_sublist, H. unfold going. generalize (map k_ent rs). intros l.
  induction l as [|e l IH]; cbn; [constructor|]. destruct (Q _); [by apply sublist_skip|by apply sublist_cons].
Qed.

Lemma find_replaced ms es k :
  find_entry k (map (replaced ms) es) = replaced ms <$> find_entry k es.
Proof.
  induction es as [|e es IH]; [done|]. cbn [map find_entry]. rewrite replaced_key. by destruct (key_eqb _ _).
Qed.

Lemma find_entry_unique es e : ordered es → e ∈ es → find_entry (e_key e) es = Some e.
Proof.
  induction 1 as [|e' es Hs IH Ha]; intros Hin; [by apply not_elem_of_nil in Hin|]. cbn [find_entry].
  apply elem_of_cons in Hin as [<-|Hin]; [by rewrite key_eqb_refl|].
  rewrite Forall_forall in Ha. specialize (Ha e Hin). destruct (key_eqb (e_key e') (e_key e)) eqn:Ek; [|by apply IH].
  apply key_eqb_eq in Ek. unfold entry_lt in Ha. rewrite Ek in Ha. by apply bytes_lt_irrefl in Ha.
Qed.

Lemma elem_of_dirty ms e : e ∈ dirty_entries ms ↔ e ∈ ms ∧ is_dirty (e_op e) = true.
Proof. unfold dirty_entries. rewrite !list_elem_of_In, filter_In. done. Qed.

(** A key that the mini page does not replace reads as before. *)
Lemma replaced_visible ms es k :
  (∀ e, find_entry k ms = Some e → is_dirty (e_op e) = false) → ordered ms →
  visible (find_entry k (map (replaced ms) es)) = visible (find_entry k es).
Proof.
  intros Hk Ho. rewrite find_replaced. destruct (find_entry k es) as [e|] eqn:He; [|done]. cbn [fmap option_fmap option_map].
  unfold replaced. case_bool_decide as Hin; [|done]. exfalso.
  apply find_entry_elem in He as [_ <-]. apply list_elem_of_fmap in Hin as (e' & Heq & Hin).
  apply elem_of_dirty in Hin as [Hin Hd]. rewrite Heq in Hk.
  rewrite (Hk e' (find_entry_unique ms e' Ho Hin)) in Hd. done.
Qed.

Lemma replaced_ordered ms es : ordered es → ordered (map (replaced ms) es).
Proof.
  induction 1 as [|e es Hs IH Ha]; cbn; constructor; [done|]. apply Forall_map.
  eapply Forall_impl; [exact Ha|]. intros e'. unfold entry_lt. by rewrite !replaced_key.
Qed.

Lemma replaced_forall (P : entry → Prop) ms es :
  Forall P es → (∀ e, P e → P (overwrite e OpDelete [])) → Forall P (map (replaced ms) es).
Proof.
  intros H Hd. apply Forall_map. eapply Forall_impl; [exact H|]. intros e He. unfold replaced. case_bool_decide; auto.
Qed.

(** The halves with the records of the mini page read as the mini page over the base page. *)
Lemma halves_visible (rs : list krec) es sk k :
  let ms := map k_ent rs in
  let es' := map (replaced ms) es in
  ordered ms → ordered es → all_dirty es →
  overlay ms es k = visible (if is_below sk k
    then find_entry k (merge_entries (going (is_below sk) rs) (consolidated OpInsert true None (take (lb sk es') es')))
    else find_entry k (merge_entries (going (λ k, negb (is_below sk k)) rs) (consolidated OpInsert true None (drop (lb sk es') es')))).
Proof.
  intros ms es' Hms Hes Hd.
  assert (ordered es') as Ho by by apply replaced_ordered.
  assert (Forall (λ e, e_op e ≠ OpPhantom) es') as Hph.
  { apply replaced_forall; [|done]. eapply Forall_impl; [exact Hd|]. intros e He Hp. cbv beta in He. by rewrite Hp in He. }
  pose proof (split_visible es' sk k Ho Hph) as Hsv.
  assert (ordered (consolidated OpInsert true None (take (lb sk es') es'))) as Ho1
    by (apply consolidated_ordered; eapply ordered_sublist, Ho; apply sublist_take).
  assert (ordered (consolidated OpInsert true None (drop (lb sk es') es'))) as Ho2
    by (apply consolidated_ordered; eapply ordered_sublist, Ho; apply sublist_drop).
  pose proof (λ Q, going_ordered Q rs Hms) as Hgo. unfold is_below in *.
  assert (∀ half, ordered half → visible (find_entry k es') = visible (find_entry k half) →
    ∀ Q, Q k = true → overlay ms es k = visible (find_entry k (merge_entries (going Q rs) half))) as Hhalf.
  { intros half Hoh Hv Q HQk. rewrite merge_visible by done. unfold overlay. rewrite find_going, HQk. fold ms.
    destruct (find_entry k ms) as [e|] eqn:He; [destruct (is_dirty (e_op e)) eqn:Hde; [done|]|];
      rewrite <- Hv; symmetry; apply replaced_visible; auto; congruence. }
  destruct (cmp_bytes k sk) eqn:Hcmp; apply Hhalf; auto; by rewrite Hcmp.
Qed.

(** ** The records of the halves *)
Section recs.
Context (Q : bytes → bytes → Prop).
Abbreviation all es := (Forall (λ e, Q (e_key e) (e_val e)) es).

Lemma merge_entries_recs ms es : all ms → all es → all (merge_entries ms es).
Proof.
  intros Hm. revert es. unfold merge_entries. induction Hm as [|e ms He Hm IH]; intros es Hes; [done|]. cbn. apply IH.
  unfold merge_entry. destruct (is_dirty _); [by apply apply_op_recs|done].
Qed.

Lemma consolidated_recs op st sk es : all es → all (consolidated op st sk es).
Proof.
  intros H. apply Forall_forall. intros x Hx. unfold consolidated in Hx.
  apply list_elem_of_omap in Hx as (y & Hy & Hx). destruct (kept _ _ _); [|done]. injection Hx as <-.
  rewrite Forall_forall in H. by apply (H y).
Qed.

Lemma replaced_recs ms es : all es → all (map (replaced ms) es).
Proof.
  intros H. apply Forall_map. eapply Forall_impl; [exact H|]. intros e He. unfold replaced. by destruct (bool_decide _).
Qed.

Lemma half_recs ms minis es part half :
  all ms → all es → minis ⊆ ms → part `sublist_of` map (replaced ms) es →
  half = merge_entries minis (consolidated OpInsert true None part) → all half.
Proof.
  intros Hm He Hsub Hpart ->. apply merge_entries_recs.
  - rewrite Forall_forall in Hm |- *. auto.
  - apply consolidated_recs, Forall_forall. intros e Hin. apply (replaced_recs ms) in He. rewrite Forall_forall in He.
    by eapply He, elem_of_sublist.
Qed.
End recs.

(** A base page between two fence keys. *)
Definition base_ok (size : Z) (n : LeafNode) (p : page) (low high : bytes) : Prop :=
  Repr n p ∧ is_base_page n = true ∧ node_size (meta n) = size ∧ all_dirty (p_entries p) ∧
  ∃ l h, p_fences p = Some (l, h) ∧ fence_key l = low ∧ fence_key h = high.

Lemma base_ok_range size n p low high key :
  base_ok size n p low high → in_range (p_fences p) key ↔ cmp_bytes low key ≠ Gt ∧ (high = [] ∨ bytes_lt key high).
Proof.
  intros (HR & _ & _ & _ & l & h & Hf & <- & <-). destruct (fences_ok n p HR l h Hf) as [Hl Hh].
  rewrite Hf. cbn. by rewrite above_low_key, below_high_key.
Qed.

(** ** Pages without records *)

(** The keys of the fences are at the end of such a page, from [z] on. *)
Definition roomy (z : Z) (p : page) : Prop :=
  p_entries p = [] → ∀ l h off key, p_fences p = Some (l, h) → FAt off key = l ∨ FAt off key = h → z <= off.

Lemma roomy_kept z p p' : p_fences p' = p_fences p → (p_entries p' = [] → p_entries p = []) → roomy z p → roomy z p'.
Proof. intros Hf He H He'. rewrite Hf. by apply H, He. Qed.

Lemma roomy_records z p : p_entries p ≠ [] → roomy z p.
Proof. by intros Hne ?. Qed.

Lemma lowest_fences n p l h :
  Repr n p → p_fences p = Some (l, h) → p_entries p = [] →
  lowest (zlen (data n)) (fence_slots (prefix_len n) (p_fences p)) = 2 * KV_META_SIZE + remaining_size (meta n).
Proof.
  intros HR Hf He. pose proof (lo_low _ _ (re_layout _ _ HR)) as Hlow. unfold page_slots in Hlow. unfold p_entries in He.
  apply map_eq_nil in He. rewrite He, app_nil_r in Hlow. rewrite Hlow, Hf. unfold zlen. cbn [fence_slots length]. lia.
Qed.

Lemma roomy_fresh n p l h size :
  Repr n p → p_fences p = Some (l, h) → size - page_need (fence_key l) (fence_key h) (p_entries p) <= remaining_size (meta n) →
  roomy (size - zlen (fence_key l) - zlen (fence_key h)) p.
Proof.
  intros HR Hf Hrem He l' h' off key Hf' Hin. rewrite Hf in Hf'. injection Hf' as <- <-.
  pose proof (lowest_fences n p l h HR Hf He) as Hlow. rewrite He in Hrem. unfold page_need in Hrem. cbn in Hrem.
  pose proof (common_prefix_len_bound (fence_key l) (fence_key h)). destruct (fences_ok n p HR l h Hf) as [Hl Hh].
  assert (∀ s, s ∈ fence_slots (prefix_len n) (p_fences p) → s_real s = true → 2 * KV_META_SIZE + remaining_size (meta n) <= s_off s) as Hle.
  { intros s Hs Hr. rewrite <- Hlow. by apply lowest_le. }
  rewrite Hf in Hle. destruct Hin as [<-|<-].
  - pose proof (Hle (low_slot (FAt off key)) ltac:(by left) ltac:(by apply pack_real, Hl)) as Ho. change (s_off _) with off in Ho. lia.
  - pose proof (Hle (high_slot (prefix_len n) (FAt off key)) ltac:(by right; left) ltac:(by apply pack_real, Hh)) as Ho. change (s_off _) with off in Ho. lia.
Qed.

Lemma roomy_space n p l h z :
  Repr n p → p_fences p = Some (l, h) → p_entries p = [] → roomy z p → z <= zlen (data n) → z - 2 * KV_META_SIZE <= remaining_size (meta n).
Proof.
  intros HR Hf He Hroom Hz. pose proof (lowest_fences n p l h HR Hf He) as Hlow. destruct (fences_ok n p HR l h Hf) as [Hl Hh].
  assert (z <= lowest (zlen (data n)) (fence_slots (prefix_len n) (p_fences p))); [|lia]. rewrite Hf. clear Hlow.
  assert (∀ top s, z <= top → (s_real s = true → z <= s_off s) → ∀ ss, z <= lowest top ss → z <= lowest top (s :: ss)) as Hstep.
  { intros top s Ht Hs ss Hss. cbn [lowest]. destruct (s_real s); [|exact Hss]. specialize (Hs eq_refl). lia. }
  apply Hstep; [done| |apply Hstep; [done| |exact Hz]]; [destruct l as [|lo lk]|destruct h as [|ho hk]]; intros Hr; try by vm_compute in Hr.
  - by apply (Hroom He _ _ lo lk Hf); left.
  - by apply (Hroom He _ _ ho hk Hf); right.
Qed.

(** ** The whole step *)
Section whole.
Context {F : Type} (cfg : @Config F) (n mini : LeafNode) (p q : page) (l h : fence).
Hypothesis Hmfl : 0 <= max_fence_len cfg < 2 ^ 15.
Hypothesis HR : Repr n p.
Hypothesis HQ : Repr mini q.
Hypothesis Hfence : p_fences p = Some (l, h).
Hypothesis Hbase : is_base_page n = true.
Hypothesis Hdirty : all_dirty (p_entries p).
Hypothesis Hrange : Forall (λ e, in_range (p_fences p) (e_key e)) (dirty_entries (p_entries q)).

Abbreviation ms := (p_entries q).
Abbreviation es := (p_entries p).
Abbreviation merged := (merged_entries (p_entries q) (p_entries p)).

(** Keys leave room for two fences. *)
Definition short_keys : Prop :=
  2 * zlen (fence_key l) <= max_fence_len cfg ∧ 2 * zlen (fence_key h) <= max_fence_len cfg ∧
  Forall (λ it, 2 * zlen it.1 <= max_fence_len cfg) merged.

(** Half of the merged records and one more fit in a page with its fences. *)
Definition merge_fits : Prop :=
  items_size merged < 2 ^ 15 ∧
  Forall (λ it, items_size merged + it.2 <= 2 * (zlen (data n) - 2 * KV_META_SIZE - max_fence_len cfg)) merged.

Hypothesis Hshort : short_keys.
Hypothesis Hfits : merge_fits.
Hypothesis Hsize : items_size (map entry_item (dirty_entries ms)) + items_size (map entry_item es) < 2 ^ 15.
Hypothesis Htwo : (2 <= length merged)%nat.

(** Both halves fit. *)
Lemma balanced_fits sk :
  balanced merged sk →
  2 * KV_META_SIZE + max_fence_len cfg + weigh (is_below sk) merged <= zlen (data n) ∧
  2 * KV_META_SIZE + max_fence_len cfg + weigh (λ k, negb (is_below sk k)) merged <= zlen (data n).
Proof.
  intros (l1 & it & l2 & it' & Hm & _ & -> & Hin & Hbal).
  destruct (merged_bounds n mini p q HR HQ Hsize) as (Ho & Hpos & _).
  destruct Hfits as [_ Hf]. rewrite Forall_forall in Hf. specialize (Hf it' Hin).
  rewrite Hm in Ho. apply in_order_app in Ho as (_ & Ho2 & Hlt). apply StronglySorted_inv in Ho2 as [_ Hgt].
  assert (Forall (λ a, is_below it.1 a.1 = true) l1) as H1.
  { eapply Forall_impl; [exact Hlt|]. intros a Ha. apply Forall_cons_1 in Ha as [Ha _]. unfold is_below. by rewrite Ha. }
  assert (Forall (λ a, is_below it.1 a.1 = false) (it :: l2)) as H2.
  { constructor; [unfold is_below; by rewrite cmp_refl|]. eapply Forall_impl; [exact Hgt|]. intros a Ha.
    unfold is_below. by rewrite (proj2 (cmp_gt_lt _ _) Ha). }
  assert (items_size merged = items_size l1 + items_size (it :: l2)) as Hs by (by rewrite Hm, items_size_app).
  rewrite Hm at 1 2. rewrite !weigh_app, (weigh_all _ l1 H1), (weigh_none _ _ H2).
  rewrite (weigh_none (λ k, negb (is_below it.1 k)) l1), (weigh_all (λ k, negb (is_below it.1 k)) (it :: l2)).
  - lia.
  - eapply Forall_impl; [exact H2|]. by intros a ->.
  - eapply Forall_impl; [exact H1|]. by intros a ->.
Qed.

Lemma merged_key_ok it : it ∈ merged → zlen it.1 < 2 ^ 14 ∧ bytes_ok it.1.
Proof.
  assert (∀ r page, Repr r page → Forall entry_ok (p_entries page)) as Hok by (intros; by eapply entries_ok).
  pose proof (Hok _ _ HQ) as H1. pose proof (Hok _ _ HR) as H2. rewrite Forall_forall in H1, H2.
  intros [H|H]%merged_sub; apply list_elem_of_fmap in H as (e & -> & He); cbn.
  - apply elem_of_dirty in He as [He _]. destruct (H1 e He) as (? & _ & ? & _). done.
  - destruct (H2 e He) as (? & _ & ? & _). done.
Qed.

(** A page between two fences after the split, ready for its part of the mini page. *)
Lemma half_takes half hp lo hi Q part rest :
  Repr half hp → is_base_page half = true →
  (∃ fl fh, p_fences hp = Some (fl, fh) ∧ fence_key fl = lo ∧ fence_key fh = hi) →
  2 * zlen lo <= max_fence_len cfg → 2 * zlen hi <= max_fence_len cfg →
  zlen (data n) - page_need lo hi (p_entries hp) <= remaining_size (meta half) →
  part ++ rest = es ∨ rest ++ part = es →
  Forall (λ e, Q (e_key e) = true) part →
  Forall (λ e, 0 <= common_prefix_len lo hi <= zlen (e_key e)) part →
  p_entries hp = consolidated OpInsert true None (map (replaced ms) part) →
  2 * KV_META_SIZE + max_fence_len cfg + weigh Q merged <= zlen (data n) →
  (∀ e, e ∈ dirty_entries ms → Q (e_key e) = true → in_range (p_fences hp) (e_key e)) →
  takes cfg half hp (p_recs q) Q.
Proof.
  intros HRh Hb (fl & fh & Hf & Hlo & Hhi) Hlo2 Hhi2 Hrem Hpart HQ' Hpl He Hfit Hin.
  split_and!; [done|done| |].
  - intros r Hr Hd HQr. apply (Hin (k_ent r)); [|done]. apply elem_of_dirty. split; [|done].
    by apply list_elem_of_fmap_2.
  - pose proof (half_size ms es (re_order _ _ HQ) (re_order _ _ HR) Q part rest (p_entries hp)
      (common_prefix_len lo hi) Hpart HQ' Hpl He) as Hsz.
    rewrite minis_entries. fold (p_entries q). unfold page_need in Hrem. unfold has_room, fence_bytes. rewrite Hf, Hlo, Hhi.
    pose proof (common_prefix_len_bound lo hi). lia.
Qed.

Lemma part_prefix lo hi part :
  Forall (λ e, cmp_bytes lo (e_key e) ≠ Gt ∧ (hi = [] ∨ bytes_lt (e_key e) hi)) part →
  Forall (λ e, 0 <= common_prefix_len lo hi <= zlen (e_key e)) part.
Proof. intros H. eapply Forall_impl; [exact H|]. intros e [H1 H2]. by apply between_prefix_len. Qed.

(** The keys of the two parts of the base page lie between the new fences. *)
Lemma parts_between sk :
  Forall (λ e, cmp_bytes (fence_key l) (e_key e) ≠ Gt ∧ (sk = [] ∨ bytes_lt (e_key e) sk)) (take (lb sk es) es) ∧
  Forall (λ e, cmp_bytes sk (e_key e) ≠ Gt ∧ (fence_key h = [] ∨ bytes_lt (e_key e) (fence_key h))) (drop (lb sk es) es).
Proof.
  destruct (fences_ok n p HR l h Hfence) as [Hl Hh].
  assert (Forall (λ e, cmp_bytes (fence_key l) (e_key e) ≠ Gt ∧ (fence_key h = [] ∨ bytes_lt (e_key e) (fence_key h))) es) as Hr.
  { eapply Forall_impl; [apply (re_range _ _ HR)|]. intros e He. rewrite Hfence in He. cbn in He.
    by rewrite above_low_key, below_high_key in He. }
  pose proof (lb_take sk es (re_order _ _ HR)) as H1. pose proof (lb_drop sk es (re_order _ _ HR)) as H2.
  rewrite Forall_forall in Hr, H1, H2. split; apply Forall_forall; intros e He.
  - split; [apply Hr; by eapply elem_of_sublist, sublist_take|right; by apply H1].
  - split; [by apply H2|apply Hr; by eapply elem_of_sublist, sublist_drop].
Qed.

(** The space for one half of the base page. *)
Lemma half_need lo hi Q part rest :
  2 * zlen lo <= max_fence_len cfg → 2 * zlen hi <= max_fence_len cfg →
  part ++ rest = es ∨ rest ++ part = es →
  Forall (λ e, Q (e_key e) = true) part →
  Forall (λ e, cmp_bytes lo (e_key e) ≠ Gt ∧ (hi = [] ∨ bytes_lt (e_key e) hi)) part →
  2 * KV_META_SIZE + max_fence_len cfg + weigh Q merged <= zlen (data n) →
  page_need lo hi (consolidated OpInsert true None (map (replaced ms) part)) <= zlen (data n).
Proof.
  intros Hlo Hhi Hpart HQ' Hbt Hfit. pose proof (common_prefix_len_bound lo hi).
  pose proof (half_size ms es (re_order _ _ HQ) (re_order _ _ HR) Q part rest _ _ Hpart HQ' (part_prefix _ _ _ Hbt) eq_refl) as Hsz.
  pose proof (weigh_nonneg Q _ (entry_items_positive (dirty_entries ms))). unfold page_need. lia.
Qed.

Lemma fresh_is_base m size version half :
  fresh_header m size next_level_null version true false half → is_base_page half = true ∧ node_size (meta half) = size.
Proof. intros (Hs & Hn & _ & _ & _ & Hc & _). unfold is_base_page. by rewrite Hn, Hc. Qed.

(** The records of the mini page of one side lie between its fences. *)
Lemma minis_between half hp lo hi Q :
  base_ok (node_size (meta n)) half hp lo hi →
  (∀ e, e ∈ dirty_entries ms → Q (e_key e) = true → cmp_bytes lo (e_key e) ≠ Gt ∧ (hi = [] ∨ bytes_lt (e_key e) hi)) →
  ∀ e, e ∈ dirty_entries ms → Q (e_key e) = true → in_range (p_fences hp) (e_key e).
Proof. intros Hok Hin e He HQe. apply (base_ok_range _ _ _ _ _ _ Hok). by apply Hin. Qed.

Section at_key.
Context (sk : bytes) (d : bytes) (p1 : page) (sib : LeafNode) (version : Z).
Abbreviation n1 := (set_data n d).
Hypothesis HR1 : Repr (set_data n d) p1.
Hypothesis Hf1 : p_fences p1 = p_fences p.
Hypothesis He1 : p_entries p1 = map (replaced ms) es.
Hypothesis Hbal : balanced merged sk.
Hypothesis Hlow : bytes_lt (fence_key l) sk.
Hypothesis Hhigh : fence_key h = [] ∨ bytes_lt sk (fence_key h).
Hypothesis Hsib_size : node_size (meta sib) = node_size (meta n).
Hypothesis Hsib_data : zlen (data sib) = node_size (meta sib) - LEAF_HEADER.
Hypothesis Hsib_bytes : bytes_ok (data sib).

Lemma sk_facts : 2 * zlen sk <= max_fence_len cfg ∧ zlen sk < 2 ^ 14 ∧ bytes_ok sk ∧ sk ≠ [] ∧ in_range (p_fences p1) sk.
Proof.
  destruct Hshort as (_ & _ & Hsk). destruct (balanced_elem _ _ Hbal) as (it & Hit & Hitk).
  rewrite Forall_forall in Hsk. specialize (Hsk it Hit). destruct (merged_key_ok it Hit) as [Hk14 Hkb]. rewrite <- Hitk in *.
  split_and!; [done..|intros ->; by destruct (fence_key l)|].
  rewrite Hf1, Hfence. cbn. destruct (fences_ok n p HR l h Hfence) as [Hlok Hhok].
  rewrite above_low_key, below_high_key by done. split; [by rewrite Hlow|done].
Qed.

(** Both halves have room for the split. *)
Lemma split_rooms :
  let left_es := consolidated OpInsert true None (take (lb sk (p_entries p1)) (p_entries p1)) in
  let right_es := consolidated OpInsert true None (drop (lb sk (p_entries p1)) (p_entries p1)) in
  zlen (data n1) = zlen (data n) ∧
  page_need (fence_key l) sk left_es <= zlen (data n1) ∧ page_need sk (fence_key h) right_es <= zlen (data n1).
Proof.
  assert (zlen (data n1) = zlen (data n)) as Hdat.
  { destruct (repr_page n p HR) as (_ & -> & _). by destruct (repr_page n1 p1 HR1) as (_ & -> & _). }
  rewrite Hdat, He1, halves_take, halves_drop. split; [done|].
  destruct sk_facts as (Hs & _). destruct Hshort as (Hsl & Hsh & _).
  destruct (balanced_fits sk Hbal) as [Hfl Hfr]. destruct (parts_between sk) as [Hbl Hbr].
  pose proof (take_drop (lb sk es) es) as Htd. split.
  - by eapply (half_need (fence_key l) sk (is_below sk) _ (drop (lb sk es) es)); try done; [by left|apply (take_below es), (re_order _ _ HR)].
  - by eapply (half_need sk (fence_key h) (λ k, negb (is_below sk k)) _ (take (lb sk es) es)); try done; [by right|apply (drop_above es), (re_order _ _ HR)].
Qed.

Lemma split_ready :
  ∃ left right lp rp, split_with_key n1 sib sk false version = Ret (left, right) ∧
    base_ok (node_size (meta n)) left lp (fence_key l) sk ∧ base_ok (node_size (meta n)) right rp sk (fence_key h) ∧
    p_entries lp = consolidated OpInsert true None (take (lb sk (p_entries p1)) (p_entries p1)) ∧
    p_entries rp = consolidated OpInsert true None (drop (lb sk (p_entries p1)) (p_entries p1)) ∧
    zlen (data n) - page_need (fence_key l) sk (p_entries lp) <= remaining_size (meta left) ∧
    zlen (data n) - page_need sk (fence_key h) (p_entries rp) <= remaining_size (meta right) ∧
    leaf_get_split_flag left = false ∧ leaf_get_split_flag right = false.
Proof.
  destruct sk_facts as (_ & Hk14 & Hkb & Hsk0 & Hin). destruct split_rooms as (Hdat & Hnl & Hnr).
  assert (Forall (λ e, e_op e ≠ OpPhantom) (p_entries p1)) as Hph.
  { rewrite He1. apply replaced_forall; [|done]. eapply Forall_impl; [exact Hdirty|].
    intros e He Hp. cbv beta in He. by rewrite Hp in He. }
  destruct (split_with_key_repr n1 p1 l h HR1 (eq_trans Hf1 Hfence) sk version Hbase Hph Hin Hsk0 Hk14 Hkb Hnl Hnr sib
              Hsib_size Hsib_data Hsib_bytes)
    as (left & right & lp & rp & l1 & h1 & l2 & h2 & Hsplit & HRl & Hfl1 & Hl1 & Hh1 & Hel & HRr & Hfr2 & Hl2 & Hh2 & Her & Hhl & Hhr & Hreml & Hremr).
  exists left, right, lp, rp. rewrite Hdat in Hreml, Hremr. pose proof Hbase as Hb. apply andb_true_iff in Hb as [_ Hnull].
  apply Z.eqb_eq in Hnull. change (next_level n1) with (next_level n) in Hhl. rewrite Hnull in Hhl.
  destruct (fresh_is_base _ _ _ _ Hhl) as [Hbl Hnl']. destruct (fresh_is_base _ _ _ _ Hhr) as [Hbr Hnr'].
  split_and!; try done.
  - split_and!; try done; [rewrite Hel; apply consolidated_dirty|by eexists _, _].
  - split_and!; try done; [rewrite Her; apply consolidated_dirty|by eexists _, _].
  - apply Hhl.
  - apply Hhr.
Qed.
(** Both halves take their part of the mini page. *)
Lemma split_takes left right lp rp :
  base_ok (node_size (meta n)) left lp (fence_key l) sk → base_ok (node_size (meta n)) right rp sk (fence_key h) →
  p_entries lp = consolidated OpInsert true None (take (lb sk (p_entries p1)) (p_entries p1)) →
  p_entries rp = consolidated OpInsert true None (drop (lb sk (p_entries p1)) (p_entries p1)) →
  zlen (data n) - page_need (fence_key l) sk (p_entries lp) <= remaining_size (meta left) →
  zlen (data n) - page_need sk (fence_key h) (p_entries rp) <= remaining_size (meta right) →
  takes cfg left lp (p_recs q) (is_below sk) ∧ takes cfg right rp (p_recs q) (λ k, negb (is_below sk k)).
Proof.
  intros HL HRt Hel Her Hrl Hrr. rewrite He1, halves_take in Hel. rewrite He1, halves_drop in Her.
  destruct sk_facts as (Hs & _). destruct Hshort as (Hsl & Hsh & _).
  destruct (balanced_fits sk Hbal) as [Hfl Hfr]. destruct (parts_between sk) as [Hbl Hbr].
  pose proof (take_drop (lb sk es) es) as Htd. pose proof (fences_ok n p HR l h Hfence) as [Hlok Hhok].
  assert (∀ e, e ∈ dirty_entries ms → cmp_bytes (fence_key l) (e_key e) ≠ Gt ∧ (fence_key h = [] ∨ bytes_lt (e_key e) (fence_key h))) as Hin.
  { intros e He. rewrite Forall_forall in Hrange. specialize (Hrange e He). rewrite Hfence in Hrange. cbn in Hrange.
    by rewrite above_low_key, below_high_key in Hrange. }
  pose proof HL as (HRl & Hb1 & _ & _ & Hf1'). pose proof HRt as (HRr & Hb2 & _ & _ & Hf2'). split.
  - apply (half_takes left lp (fence_key l) sk (is_below sk) (take (lb sk es) es) (drop (lb sk es) es)); try done; [by left|apply (take_below es), (re_order _ _ HR)|by apply part_prefix|].
    apply (minis_between _ _ _ _ (is_below sk) HL). intros e He Hb. split; [by apply Hin|]. unfold is_below in Hb.
    right. unfold bytes_lt. by destruct (cmp_bytes (e_key e) sk).
  - apply (half_takes right rp sk (fence_key h) (λ k, negb (is_below sk k)) (drop (lb sk es) es) (take (lb sk es) es)); try done; [by right|apply (drop_above es), (re_order _ _ HR)|by apply part_prefix|].
    apply (minis_between _ _ _ _ (λ k, negb (is_below sk k)) HRt). intros e He Hb. split; [|by apply Hin]. unfold is_below in Hb.
    rewrite (cmp_opp (e_key e) sk). by destruct (cmp_bytes (e_key e) sk).
Qed.
End at_key.

Lemma merge_split_spec sib version :
  node_size (meta sib) = node_size (meta n) → zlen (data sib) = node_size (meta sib) - LEAF_HEADER → bytes_ok (data sib) →
  ∃ key d halves pages lp rp,
    get_merge_split_key n mini = Ret (key, set_data n d) ∧
    split_with_key (set_data n d) sib key false version = Ret halves ∧
    foldM (merge_split_record cfg mini key) halves (map (rec_meta mini) (p_recs q)) = Ret pages ∧
    base_ok (node_size (meta n)) pages.1 lp (fence_key l) key ∧
    base_ok (node_size (meta n)) pages.2 rp key (fence_key h) ∧
    bytes_lt (fence_key l) key ∧ (fence_key h = [] ∨ bytes_lt key (fence_key h)) ∧
    2 * zlen key <= max_fence_len cfg ∧ bytes_ok key ∧
    (leaf_get_split_flag pages.1 = false ∧ leaf_get_split_flag pages.2 = false) ∧
    (roomy (zlen (data n) - zlen (fence_key l) - zlen key) lp ∧ roomy (zlen (data n) - zlen key - zlen (fence_key h)) rp) ∧
    (∀ Q : bytes → bytes → Prop, Forall (λ e, Q (e_key e) (e_val e)) ms → Forall (λ e, Q (e_key e) (e_val e)) es →
       Forall (λ e, Q (e_key e) (e_val e)) (p_entries lp) ∧ Forall (λ e, Q (e_key e) (e_val e)) (p_entries rp)) ∧
    ∀ k, overlay ms es k = visible (if is_below key k then find_entry k (p_entries lp) else find_entry k (p_entries rp)).
Proof.
  intros Hs1 Hs2 Hs3.
  destruct (get_merge_split_key_spec n mini p q l h HR HQ Hfence Hrange Hsize Htwo)
    as (sk & d & p1 & Hkey & HR1 & Hf1 & He1 & Hbal & Hlow & Hhigh).
  destruct (fences_ok n p HR l h Hfence) as [_ Hhok]. apply below_high_key in Hhigh; [|done].
  destruct (sk_facts sk p1) as (Hs & _ & Hkb & _); [done..|].
  destruct (split_ready sk d p1 sib version) as (left & right & lp & rp & Hsplit & HL & HRt & Hel & Her & Hrl & Hrr & Hgl & Hgr); [done..|].
  destruct (split_takes sk p1) with (left := left) (right := right) (lp := lp) (rp := rp) as [Htl Htr]; [done..|].
  destruct (merge_split_loop cfg mini q sk HQ Hmfl (p_recs q) left lp right rp) as (pages & Hloop & lp' & rp' & H1 & H2 & H3 & H4 & H5 & H6 & H7 & H8);
    [done..|].
  exists sk, d, (left, right), pages, lp', rp'. destruct HL as (_ & Hb1 & Hn1 & Hd1 & Hx1). destruct HRt as (_ & Hb2 & Hn2 & Hd2 & Hx2).
  split_and!; try done.
  - split_and!; [done|by rewrite (same_header_base _ _ H3)|by destruct H3 as (_ & _ & _ & _ & -> & _)| |by rewrite H2].
    rewrite H4. by apply merge_entries_dirty.
  - split_and!; [done|by rewrite (same_header_base _ _ H7)|by destruct H7 as (_ & _ & _ & _ & -> & _)| |by rewrite H6].
    rewrite H8. by apply merge_entries_dirty.
  - destruct H3 as (_ & _ & _ & _ & _ & _ & H & _). unfold leaf_get_split_flag in *. by rewrite H.
  - destruct H7 as (_ & _ & _ & _ & _ & _ & H & _). unfold leaf_get_split_flag in *. by rewrite H.
  - destruct Hx1 as (fl & fh & Hfl & Hk1 & Hk2). pose proof Htl as (HRl & _). apply (roomy_kept _ lp); [done| |rewrite <- Hk1, <- Hk2 in Hrl |- *; by eapply roomy_fresh].
    intros H0. rewrite H4 in H0. destruct (decide (p_entries lp = [])) as [|Hne]; [done|]. by destruct (merge_entries_nonempty (going (is_below sk) (p_recs q)) _ Hne).
  - destruct Hx2 as (fl & fh & Hfl & Hk1 & Hk2). pose proof Htr as (HRr & _). apply (roomy_kept _ rp); [done| |rewrite <- Hk1, <- Hk2 in Hrr |- *; by eapply roomy_fresh].
    intros H0. rewrite H8 in H0. destruct (decide (p_entries rp = [])) as [|Hne]; [done|]. by destruct (merge_entries_nonempty (going (λ k, negb (is_below sk k)) (p_recs q)) _ Hne).
  - intros Q Hqm Hqe. rewrite Hel, He1 in H4. rewrite Her, He1 in H8.
    assert (∀ Q', going Q' (p_recs q) ⊆ ms) as Hgo.
    { intros Q' e He. unfold going in He. apply list_elem_of_In, filter_In in He as [He _]. by apply list_elem_of_In. }
    split; [eapply half_recs; [exact Hqm|exact Hqe| | |exact H4]|eapply half_recs; [exact Hqm|exact Hqe| | |exact H8]];
      auto using sublist_take, sublist_drop.
  - intros k. rewrite H4, H8, Hel, Her, He1. unfold p_entries at 1 3 5. apply halves_visible; [apply (re_order _ _ HQ)|apply (re_order _ _ HR)|done].
Qed.
End whole.
