(* ===== verification/MergeTheorems.v ===== *)
(** What holds of a merge that splits the base page: the choice of the split key
    ([get_merge_split_key] of src/nodes/leaf_node.rs) and the distribution of the records over the
    two halves (the loop of [try_merge_mini_page] in src/mini_page_op.rs); and a merge that stops
    the program under the default configuration. *)
From stdpp Require Import base numbers list sorting gmap.
From Stdlib Require Import ZArith Lia.
From S2P Require Import Prelude Bits NodeMeta LeafMeta LeafNode LeafOps Entries PageLayout LeafLayout LeafRepr LeafSearch LeafMerge LeafRebuild LeafSplit LeafTheorems SplitKey SplitKeyProofs Config Storage LeafEntry MergeSplit.

(** The abstract pages of a base page and a mini page of it. *)
Lemma merge_pages base mini es ms low high :
  leaf_wf base → leaf_entries base = Ret es → leaf_has_fence base = true →
  get_low_fence_key base = Ret low → get_high_fence_key base = Ret high →
  leaf_wf mini → leaf_entries mini = Ret ms →
  (∀ e, e ∈ ms → is_dirty (e_op e) = true → key_in_fences base (e_key e) = Ret true) →
  ∃ p q l h, Repr base p ∧ Repr mini q ∧ p_fences p = Some (l, h) ∧ fence_key l = low ∧ fence_key h = high ∧
    es = p_entries p ∧ ms = p_entries q ∧
    Forall (λ e, in_range (p_fences p) (e_key e)) (dirty_entries (p_entries q)).
Proof.
  intros [p HR] He Hfl Hlow Hhigh [q HQ] Hm Hrange.
  rewrite (entries_eq base p es HR He), (entries_eq mini q ms HQ Hm) in *.
  assert (∃ l h, p_fences p = Some (l, h)) as (l & h & Hf).
  { rewrite (re_flag _ _ HR) in Hfl. destruct (p_fences p) as [[l h]|]; [by exists l, h|done]. }
  rewrite (low_fence_key base p HR l h Hf) in Hlow. rewrite (high_fence_key base p HR l h Hf) in Hhigh.
  injection Hlow as <-. injection Hhigh as <-.
  exists p, q, l, h. split_and!; try done. apply Forall_forall. intros e [He' Hd]%elem_of_dirty.
  apply (repr_key_in_fences base p HR). by apply Hrange.
Qed.

(** With two records to distribute and sizes that fit in 15 bits, a split key is
    found: it is above the low fence and below the high fence, neither side is empty, and the two sides differ
    by at most the size of one record.  The base page keeps its fences; the records that the
    mini page replaces are marked as deleted. *)
Theorem get_merge_split_key_correct base mini es ms low high :
  leaf_wf base → leaf_entries base = Ret es → leaf_has_fence base = true →
  get_low_fence_key base = Ret low → get_high_fence_key base = Ret high →
  leaf_wf mini → leaf_entries mini = Ret ms →
  (∀ e, e ∈ ms → is_dirty (e_op e) = true → key_in_fences base (e_key e) = Ret true) →
  items_size (map entry_item (dirty_entries ms)) + items_size (map entry_item es) < 2 ^ 15 →
  (2 <= length (merged_entries ms es))%nat →
  ∃ key base', get_merge_split_key base mini = Ret (key, base') ∧
    balanced (merged_entries ms es) key ∧ bytes_lt low key ∧ (high = [] ∨ bytes_lt key high) ∧
    leaf_wf base' ∧ leaf_entries base' = Ret (map (replaced ms) es) ∧
    get_low_fence_key base' = Ret low ∧ get_high_fence_key base' = Ret high.
Proof.
  intros Hwf He Hfl Hlow Hhigh Hwf' Hm Hrange Hsize Htwo.
  destruct (merge_pages base mini es ms low high) as (p & q & l & h & HR & HQ & Hf & <- & <- & -> & -> & Hin); [done..|].
  destruct (get_merge_split_key_spec base mini p q l h HR HQ Hf Hin Hsize Htwo)
    as (key & d & p1 & Hkey & HR1 & Hf1 & He1 & Hbal & Hlt & Hbelow).
  destruct (fences_ok base p HR l h Hf) as [_ Hhok]. apply below_high_key in Hbelow; [|done].
  exists key, (set_data base d). rewrite Hf in Hf1.
  rewrite (low_fence_key _ p1 HR1 l h Hf1), (high_fence_key _ p1 HR1 l h Hf1).
  split_and!; try done; [by exists p1|]. rewrite <- He1. by apply repr_entries.
Qed.

Lemma get_merge_split_key_correct_witness :
  let ms := [mkEntry [5; 1] OpInsert [6; 6; 6; 6]; mkEntry [7; 7; 7] OpDelete []; mkEntry [8] OpPhantom []] in
  let es := [mkEntry [3] OpDelete [9]; mkEntry [5; 1] OpInsert [1; 2; 3]; mkEntry [7; 7; 7] OpInsert [4; 4]] in
  ∃ key base', get_merge_split_key sample sample_mini = Ret (key, base') ∧
    balanced (merged_entries ms es) key ∧ bytes_lt [] key ∧ ([] = @nil Z ∨ bytes_lt key []) ∧
    leaf_wf base' ∧ leaf_entries base' = Ret (map (replaced ms) es) ∧
    get_low_fence_key base' = Ret [] ∧ get_high_fence_key base' = Ret [].
Proof.
  intros ms es. apply (get_merge_split_key_correct sample sample_mini es ms).
  - apply sample_wf.
  - by vm_compute.
  - by vm_compute.
  - by vm_compute.
  - by vm_compute.
  - apply sample_mini_wf.
  - by vm_compute.
  - intros e He _. unfold ms in He. rewrite !elem_of_cons in He.
    destruct He as [->|[->|[->|[]%elem_of_nil]]]; by vm_compute.
  - by vm_compute.
  - vm_compute. lia.
Defined.

(** C39: a merge that splits the base page stores every record.  When half of the
    merged records and one more fit in a page between fences, the split key is found, the page
    is split and every record of the mini page fits in its half; the halves are well formed, the
    split key is the fence between them, and every key reads as the mini page over the base
    page did. *)
Theorem merge_split_correct {F} (cfg : @Config F) base mini sib es ms low high version :
  leaf_wf base → leaf_entries base = Ret es → leaf_has_fence base = true → is_base_page base = true →
  get_low_fence_key base = Ret low → get_high_fence_key base = Ret high →
  leaf_wf mini → leaf_entries mini = Ret ms →
  (∀ e, e ∈ ms → is_dirty (e_op e) = true → key_in_fences base (e_key e) = Ret true) →
  all_dirty es → 0 <= max_fence_len cfg < 2 ^ 15 →
  items_size (map entry_item (dirty_entries ms)) + items_size (map entry_item es) < 2 ^ 15 →
  (2 <= length (merged_entries ms es))%nat →
  2 * zlen low <= max_fence_len cfg → 2 * zlen high <= max_fence_len cfg →
  Forall (λ it, 2 * zlen it.1 <= max_fence_len cfg ∧
    items_size (merged_entries ms es) + it.2 <= 2 * (zlen (data base) - 2 * KV_META_SIZE - max_fence_len cfg))
    (merged_entries ms es) →
  node_size (meta sib) = node_size (meta base) → zlen (data sib) = node_size (meta sib) - LEAF_HEADER →
  bytes_ok (data sib) →
  ∃ key base1 halves metas left right els ers,
    get_merge_split_key base mini = Ret (key, base1) ∧ split_with_key base1 sib key false version = Ret halves ∧
    meta_iter mini = Ret metas ∧ foldM (merge_split_record cfg mini key) halves metas = Ret (left, right) ∧
    leaf_wf left ∧ leaf_wf right ∧ leaf_entries left = Ret els ∧ leaf_entries right = Ret ers ∧
    get_low_fence_key left = Ret low ∧ get_high_fence_key left = Ret key ∧
    get_low_fence_key right = Ret key ∧ get_high_fence_key right = Ret high ∧
    ∀ k, overlay ms es k = visible (match cmp_bytes k key with Lt => find_entry k els | _ => find_entry k ers end).
Proof.
  intros Hwf He Hfl Hb Hlow Hhigh Hwf' Hm Hrange Hd Hmfl Hsize Htwo Hl Hh Hfit Hs1 Hs2 Hs3.
  destruct (merge_pages base mini es ms low high) as (p & q & l & h & HR & HQ & Hf & <- & <- & -> & -> & Hin); [done..|].
  apply Forall_and in Hfit as [Hkeys Hfit].
  destruct (merge_split_spec cfg base mini p q l h Hmfl HR HQ Hf Hb Hd Hin) with (sib := sib) (version := version)
    as (key & d & halves & [left right] & lp & rp & Hkey & Hsplit & Hloop & HL & HRt & _ & _ & _ & _ & _ & _ & _ & Hview); try done.
  { split; [|done]. pose proof (merged_bounds base mini p q HR HQ Hsize) as (_ & _ & Hbd). exact Hbd. }
  destruct HL as (HRl & _ & _ & _ & l1 & h1 & Hf1 & Hl1 & Hh1). destruct HRt as (HRr & _ & _ & _ & l2 & h2 & Hf2 & Hl2 & Hh2).
  exists key, (set_data base d), halves, (map (rec_meta mini) (p_recs q)), left, right, (p_entries lp), (p_entries rp).
  cbn [fst snd] in *.
  rewrite (low_fence_key left lp HRl l1 h1 Hf1), (high_fence_key left lp HRl l1 h1 Hf1).
  rewrite (low_fence_key right rp HRr l2 h2 Hf2), (high_fence_key right rp HRr l2 h2 Hf2).
  rewrite Hl1, Hh1, Hl2, Hh2.
  split_and!; try done; [by apply repr_meta_iter|by exists lp|by exists rp|by apply repr_entries|by apply repr_entries|].
  intros k. rewrite Hview. unfold is_below. by destruct (cmp_bytes k key).
Qed.

Definition sample_config : @Config unit := set_max_fence_len (Config_default tt true) 16.

Lemma merge_split_correct_witness :
  let ms := [mkEntry [5; 1] OpInsert [6; 6; 6; 6]; mkEntry [7; 7; 7] OpDelete []; mkEntry [8] OpPhantom []] in
  let es := [mkEntry [3] OpDelete [9]; mkEntry [5; 1] OpInsert [1; 2; 3]; mkEntry [7; 7; 7] OpInsert [4; 4]] in
  ∃ key base1 halves metas left right els ers,
    get_merge_split_key sample sample_mini = Ret (key, base1) ∧
    split_with_key base1 sample_sibling key false 7 = Ret halves ∧
    meta_iter sample_mini = Ret metas ∧
    foldM (merge_split_record sample_config sample_mini key) halves metas = Ret (left, right) ∧
    leaf_wf left ∧ leaf_wf right ∧ leaf_entries left = Ret els ∧ leaf_entries right = Ret ers ∧
    get_low_fence_key left = Ret [] ∧ get_high_fence_key left = Ret key ∧
    get_low_fence_key right = Ret key ∧ get_high_fence_key right = Ret [] ∧
    ∀ k, overlay ms es k = visible (match cmp_bytes k key with Lt => find_entry k els | _ => find_entry k ers end).
Proof.
  intros ms es. apply (merge_split_correct sample_config sample sample_mini sample_sibling es ms).
  - apply sample_wf.
  - by vm_compute.
  - by vm_compute.
  - by vm_compute.
  - by vm_compute.
  - by vm_compute.
  - apply sample_mini_wf.
  - by vm_compute.
  - intros e He _. unfold ms in He. rewrite !elem_of_cons in He.
    destruct He as [->|[->|[->|[]%elem_of_nil]]]; by vm_compute.
  - by repeat constructor.
  - vm_compute. by split.
  - by vm_compute.
  - vm_compute. lia.
  - by vm_compute.
  - by vm_compute.
  - repeat constructor; by vm_compute.
  - by vm_compute.
  - by vm_compute.
  - apply Forall_replicate. unfold byte_ok. lia.
Defined.

(** ** A merge that does not fit *)

(** Keys of up to 512 bytes and records of up to 1492. *)
Definition wide_config : @Config unit := set_cb_max_record_size (set_cb_max_key_len (Config_default tt true) 512) 1492.

(** Keys with a long common prefix. *)
Definition long_key (i : Z) : bytes := replicate 510 7 ++ [i / 200; i mod 200].

Definition insert_all (n : LeafNode) (kvs : list (bytes * bytes)) : outcome LeafNode :=
  foldM (λ n kv, r ← LeafNode.insert n kv.1 kv.2 OpInsert (max_fence_len wide_config); _ ← assert_ r.1; Ret r.2) n kvs.

Definition base_records : list (bytes * bytes) :=
  map (λ i, (long_key (Z.of_nat i), [1])) (seq 1 10) ++ map (λ i, (long_key (Z.of_nat i), replicate 980 1)) (seq 100 3).

(** A base page between fences with the same prefix. *)
Definition prefixed_base : outcome LeafNode :=
  b ← initialize (uninit_page (replicate 4064 0)) (long_key 0) (long_key 30000) 4096 next_level_null true false 0;
  insert_all b base_records.

(** A mini page with one more large record. *)
Definition large_mini : outcome LeafNode :=
  m ← initialize_mini_page (uninit_page (replicate 1504 0)) 1536 4096 false 0;
  insert_all m [(long_key 2000, replicate 980 2)].

(** The steps of [try_merge_mini_page] on two pages that need a split; whether the last one panics. *)
Definition merge_steps (base mini sib : outcome LeafNode) : outcome (bool * bool) :=
  base ← base; mini ← mini;
  r ← merge_mini_page base mini (max_fence_len wide_config);
  kb ← get_merge_split_key r.2 mini;
  sib ← sib;
  halves ← split_with_key kb.2 sib kb.1 false 0;
  metas ← meta_iter mini;
  Ret (r.1, match foldM (merge_split_record wide_config mini kb.1) halves metas with Ret _ => false | Panic => true end).

Lemma merge_steps_inv base mini sib b :
  merge_steps base mini sib = Ret (b, true) →
  ∃ base0 mini0 base1 sib0 key base2 halves metas, base = Ret base0 ∧ mini = Ret mini0 ∧
    merge_mini_page base0 mini0 (max_fence_len wide_config) = Ret (b, base1) ∧
    get_merge_split_key base1 mini0 = Ret (key, base2) ∧ sib = Ret sib0 ∧
    split_with_key base2 sib0 key false 0 = Ret halves ∧ meta_iter mini0 = Ret metas ∧
    foldM (merge_split_record wide_config mini0 key) halves metas = Panic.
Proof.
  unfold merge_steps. intros H. destruct base as [base|]; [|done]. destruct mini as [mini|]; [|done].
  cbn [mbind outcome_bind] in H.
  destruct (merge_mini_page base mini _) as [[b' base1]|] eqn:Hm; [|done]. cbn [mbind outcome_bind fst snd] in H.
  destruct (get_merge_split_key base1 mini) as [[key base2]|] eqn:Hk; [|done]. cbn [mbind outcome_bind fst snd] in H.
  destruct sib as [sib|]; [|done]. cbn [mbind outcome_bind fst snd] in H.
  destruct (split_with_key _ _ _ _ _) as [halves|] eqn:Hs; [|done]. cbn [mbind outcome_bind fst snd] in H.
  destruct (meta_iter mini) as [metas|] eqn:Hi; [|done]. cbn [mbind outcome_bind fst snd] in H.
  destruct (foldM _ _ _) eqn:Hf; [done|]. injection H as ->.
  by exists base, mini, base1, sib, key, base2, halves, metas.
Qed.

Lemma wide_merge_panics :
  merge_steps prefixed_base large_mini (make_base_page (replicate 4064 0) 4096 0) = Ret (false, true).
Proof. by vm_compute. Qed.

(** C40: a valid configuration under which a merge stops the program.  The records respect
    the limits of the configuration, the merge needs a split, and the split key and the split
    succeed; but the split key counts whole keys where the pages store their common prefix
    once, so the half that has to take the large record of the mini page has no room for it. *)
Theorem merge_split_overflows :
  validate wide_config = Ret None ∧
  Forall (λ kv, zlen kv.1 <= cb_max_key_len wide_config ∧ zlen kv.1 + zlen kv.2 <= cb_max_record_size wide_config)
    ((long_key 2000, replicate 980 2) :: base_records) ∧
  ∃ base mini base1 sib key base2 halves metas, prefixed_base = Ret base ∧ large_mini = Ret mini ∧
    merge_mini_page base mini (max_fence_len wide_config) = Ret (false, base1) ∧
    get_merge_split_key base1 mini = Ret (key, base2) ∧
    make_base_page (replicate 4064 0) 4096 0 = Ret sib ∧
    split_with_key base2 sib key false 0 = Ret halves ∧ meta_iter mini = Ret metas ∧
    foldM (merge_split_record wide_config mini key) halves metas = Panic.
Proof.
  split; [by vm_compute|]. split; [apply (bool_decide_eq_true_1 _); by vm_compute|].
  exact (merge_steps_inv _ _ _ _ wide_merge_panics).
Qed.
