(* ===== verification/EntryInv.v ===== *)
(** What a leaf entry stands for: the invariant of the storage and of an entry, with the map from
    keys to values that the entry represents, and the reasoning rules for the operations of
    LeafEntry.v. *)
From stdpp Require Import base numbers list sorting option gmap.
From Stdlib Require Import ZArith Lia.
From S2P Require Import Prelude Bits NodeMeta LeafMeta LeafNode LeafOps LeafLayout Entries LeafRepr LeafSearch LeafInsert LeafInit LeafMerge LeafRebuild LeafSplit LeafTheorems SizeClasses LeafConvert SplitKey SplitKeyProofs Config CircularBuffer StateError Storage LeafEntry MergeSplit.

(** ** Rules for the operations on the storage *)
Section wp.
Context {B T : Type}.
Abbreviation env := (@env B T).

Lemma wp_on_store {A} X (f : LeafStorage B T → outcome ((TreeError + A) * LeafStorage B T)) r s Q (e : env) :
  f (store e) = Ret (r, s) → Q r (set_store e s) → wp X (on_store f) Q e.
Proof. unfold wp, on_store. by intros ->. Qed.

Lemma wp_on_store' X (f : LeafStorage B T → outcome (LeafStorage B T)) s Q (e : env) :
  f (store e) = Ret s → Q (inr tt) (set_store e s) → wp X (on_store' f) Q e.
Proof. unfold wp, on_store', on_store. by intros ->. Qed.

End wp.

(** ** The storage *)
Section inv.
Context {B T F : Type} `{HPB : PageBuffer B} `{HBL : !PageBufferLaws B} `{HPM : PageMap T} `{HML : !PageMapLaws T}.
Context (mem : memory) (cfg : @Config F) (front : list Z) (mini : Z).
Abbreviation P := (leaf_page_size cfg).
Abbreviation mfl := (max_fence_len cfg).
Abbreviation classes := (front ++ [mini; leaf_page_size cfg]).
Abbreviation storage := (LeafStorage B T).

(** The configuration, as [Config::validate] and the size classes give it. *)
Record Setup : Prop := {
  su_disk_mode : cache_only cfg = false;
  su_classes : ascending classes;
  su_header : Forall (λ s, LEAF_HEADER <= s) classes;
  su_leaf : LEAF_HEADER + 2 * KV_META_SIZE + mfl <= P <= MAX_LEAF_PAGE_SIZE;
  su_fence : 0 <= mfl < 2 ^ 15;
  su_key : mfl <= 2 * MAX_KEY_LEN;
  su_record : cb_max_record_size cfg + KV_META_SIZE + LEAF_HEADER < mini;
  su_margin : cb_max_record_size cfg + KV_META_SIZE <= P - mini - mfl - 2 * KV_META_SIZE;
  su_block : ∀ p s, LEAF_HEADER <= s →
    zlen (data (fresh_block mem p s)) = s - LEAF_HEADER ∧ bytes_ok (data (fresh_block mem p s));
  su_page : zlen (fresh_page mem P) = P - LEAF_HEADER ∧ bytes_ok (fresh_page mem P);
}.

Record SInv (s : storage) : Prop := {
  si_buffer : buf_inv (circular_buffer s);
  si_serves : Forall (buf_serves (circular_buffer s)) classes;
  si_offset : 0 <= next_available_offset s;
}.

(** The page [n] is at [ptr], which is in use as [o] says. *)
Definition owns (s : storage) (ptr : Z) (o : owner) (n : LeafNode) : Prop :=
  cache_pages s !! ptr = Some n ∧ buf_owner (circular_buffer s) ptr = Some o.
Abbreviation live s ptr n := (owns s ptr Live n).

(** A step that concerns the page at [ptr] alone. *)
Record step_at (ptr : Z) (s s' : storage) : Prop := {
  sa_inv : SInv s';
  sa_disk : disk s' = disk s;
  sa_offset : next_available_offset s' = next_available_offset s;
  sa_table : page_table s' = page_table s;
  sa_others : ∀ q, q ≠ ptr → cache_pages s' !! q = cache_pages s !! q ∧
    buf_owner (circular_buffer s') q = buf_owner (circular_buffer s) q;
}.

Lemma sa_owns ptr s s' : step_at ptr s s' → ∀ q o n, q ≠ ptr → owns s q o n → owns s' q o n.
Proof. intros Hst q o n Hq [H1 H2]. destruct (sa_others _ _ _ Hst q Hq) as [H3 H4]. split; congruence. Qed.

(** The pages in use change hands: afterwards those of [new] are, and those that were and are not in
    [old]; what is in [new] and not in [old] was not in use. *)
Abbreviation in_use s q := (buf_owner (circular_buffer s) q = Some Live).
Definition handed (old new : list Z) (s s' : storage) : Prop := ∀ q,
  (in_use s' q → (q ∈ new) ∨ ((q ∉ old) ∧ in_use s q)) ∧
  (q ∈ new → (q ∈ old) ∨ ¬ in_use s q) ∧
  (q ∉ old → in_use s q → in_use s' q).

(** What an operation on an entry leaves alone: the cached pages other than [ptrs] and the pages
    of the file other than [offs] that were allocated; and the page table. *)
Record untouched (ptrs offs : list Z) (s s' : storage) : Prop := {
  un_cache : ∀ q n, q ∉ ptrs → live s q n → live s' q n;
  un_disk : ∀ o, o < next_available_offset s → o ∉ offs → vfs_read mem s' o = vfs_read mem s o;
  un_offset : next_available_offset s <= next_available_offset s';
}.

Record frame (ptrs offs : list Z) (s s' : storage) : Prop := {
  fr_rest : untouched ptrs offs s s';
  fr_table : page_table s' = page_table s;
  fr_offset : next_available_offset s' = next_available_offset s;
}.

Lemma untouched_trans ptrs offs s1 s2 s3 : untouched ptrs offs s1 s2 → untouched ptrs offs s2 s3 → untouched ptrs offs s1 s3.
Proof.
  intros [H1 H2 H3] [H1' H2' H3']. split; [eauto| |lia].
  intros o Ho Hn. rewrite H2' by (done || lia). by apply H2.
Qed.

Lemma frame_refl ptrs offs s : frame ptrs offs s s.
Proof. by split. Qed.

Lemma frame_trans ptrs offs s1 s2 s3 : frame ptrs offs s1 s2 → frame ptrs offs s2 s3 → frame ptrs offs s1 s3.
Proof. intros [H1 H2 H3] [H1' H2' H3']. split; [by eapply untouched_trans|congruence..]. Qed.

Lemma frame_weaken ptrs offs ptrs' offs' s s' :
  ptrs ⊆ ptrs' → offs ⊆ offs' → frame ptrs offs s s' → frame ptrs' offs' s s'.
Proof. intros Hp Ho [[H1 H2 H3] H4 H5]. split; [|done..]. split; auto. Qed.

Lemma step_at_refl ptr s : SInv s → step_at ptr s s.
Proof. by split. Qed.

Lemma step_at_trans ptr s1 s2 s3 : step_at ptr s1 s2 → step_at ptr s2 s3 → step_at ptr s1 s3.
Proof.
  intros [? ? ? ? H1] [? ? ? ? H2]. split; try congruence. intros q Hq. destruct (H1 q Hq), (H2 q Hq). split; congruence.
Qed.

Lemma handed_refl l s : handed l l s s.
Proof. intros q. split; [|by auto]. intros Hq. destruct (decide (q ∈ l)); auto. Qed.

Lemma handed_trans old mid new s1 s2 s3 : handed old mid s1 s2 → handed mid new s2 s3 → handed old new s1 s3.
Proof.
  intros H1 H2 q. destruct (H1 q) as (A1 & A2 & A3), (H2 q) as (B1 & B2 & B3). split; [|split].
  - intros Hq. destruct (B1 Hq) as [?|[Hn Hl]]; [by left|]. by destruct (A1 Hl) as [?|?]; [|right].
  - intros Hq. destruct (B2 Hq) as [?|Hn]; [auto|]. destruct (decide (q ∈ old)); [by left|]. right. auto.
  - intros Ho Hu. apply B3; [|auto]. intros Hm. by destruct (A2 Hm).
Qed.

Lemma handed_new ptr s s' : step_at ptr s s' → ¬ in_use s ptr → handed [] [ptr] s s'.
Proof.
  intros Hst Hf q. rewrite list_elem_of_singleton. destruct (decide (q = ptr)) as [->|Hne]; [by split; [left|split; [right|]]|].
  rewrite (proj2 (sa_others _ _ _ Hst q Hne)). split; [|by split]. right. split; [apply not_elem_of_nil|done].
Qed.

Lemma handed_in_place ptr s s' : step_at ptr s s' → handed [ptr] [ptr] s s'.
Proof.
  intros Hst q. rewrite list_elem_of_singleton. destruct (decide (q = ptr)) as [->|Hne]; [by split; [left|split; [left|]]|].
  rewrite (proj2 (sa_others _ _ _ Hst q Hne)). auto.
Qed.

Lemma handed_gone ptr s s' : step_at ptr s s' → ¬ in_use s' ptr → handed [ptr] [] s s'.
Proof.
  intros Hst Hg q. rewrite list_elem_of_singleton. split; [|split; [by intros ?%elem_of_nil|]].
  - intros Hq. right. assert (q ≠ ptr) as Hne by by intros ->. split; [done|]. by rewrite <- (proj2 (sa_others _ _ _ Hst q Hne)).
  - intros Hne. by rewrite (proj2 (sa_others _ _ _ Hst q Hne)).
Qed.

Lemma handed_other l ptr s s' : step_at ptr s s' → ¬ in_use s ptr → ¬ in_use s' ptr → handed l l s s'.
Proof.
  intros Hst Hf Hg q. destruct (decide (q = ptr)) as [->|Hne]; [by split; [|split; [left|]]|].
  rewrite (proj2 (sa_others _ _ _ Hst q Hne)). split; [|by auto]. intros Hq. destruct (decide (q ∈ l)); auto.
Qed.

Lemma handed_same l s s' : (∀ q, in_use s' q ↔ in_use s q) → handed l l s s'.
Proof. intros H q. rewrite H. split; [|by auto]. intros Hq. destruct (decide (q ∈ l)); auto. Qed.

Lemma handed_all l s s' : (∀ ptr, step_at ptr s s') → handed l l s s'.
Proof. intros Hst. apply handed_same. intros q. by rewrite (proj2 (sa_others _ _ _ (Hst (q + 1)) q ltac:(lia))). Qed.

Lemma owns_not_live s ptr o n : owns s ptr o n → o ≠ Live → ¬ in_use s ptr.
Proof. intros [_ ->] Ho [= ->]. done. Qed.

Lemma step_at_frame ptr s s' offs : step_at ptr s s' → frame [ptr] offs s s'.
Proof.
  intros Hst. pose proof (sa_owns _ _ _ Hst) as Hq. destruct Hst as [Hi Hd Ho Ht _]. split; [|done..]. split; [|by intros; unfold vfs_read; rewrite Hd|lia].
  intros q n Hn. apply Hq. by rewrite list_elem_of_singleton in Hn.
Qed.

(** A step on a page that was not in use concerns no page in use. *)
Lemma step_at_frame_fresh ptr s s' ptrs offs :
  step_at ptr s s' → buf_owner (circular_buffer s) ptr = None → frame ptrs offs s s'.
Proof.
  intros Hst Hn. pose proof (sa_owns _ _ _ Hst) as Hq. destruct Hst as [Hi Hd Ho Ht _].
  split; [|done..]. split; [|by intros; unfold vfs_read; rewrite Hd|lia]. intros q n _ Hl. apply Hq; [|done]. intros ->. destruct Hl. congruence.
Qed.

Lemma step_at_frame_new ptr s s' ptrs offs n :
  step_at ptr s s' → owns s ptr New n → frame ptrs offs s s'.
Proof.
  intros Hst [_ Hn]. pose proof (sa_owns _ _ _ Hst) as Hq. destruct Hst as [Hi Hd Ho Ht _].
  split; [|done..]. split; [|by intros; unfold vfs_read; rewrite Hd|lia]. intros q n' _ Hl. apply Hq; [|done]. intros ->. destruct Hl. congruence.
Qed.

Lemma step_all_frame s s' ptrs offs : (∀ ptr, step_at ptr s s') → frame ptrs offs s s'.
Proof.
  intros H. pose proof (H 0) as [Hi Hd Ho Ht _]. split; [|done..]. split; [|by intros; unfold vfs_read; rewrite Hd|lia].
  intros q n _. apply (sa_owns _ _ _ (H (q + 1))). lia.
Qed.

Lemma set_buffer_step ptr s b :
  SInv s → buf_inv b → (∀ z, buf_serves b z ↔ buf_serves (circular_buffer s) z) →
  (∀ q, q ≠ ptr → buf_owner b q = buf_owner (circular_buffer s) q) → step_at ptr s (set_buffer s b).
Proof.
  intros [Hb Hs Ho] Hb' Hs' Hq. split; [split|..]; try done.
  - eapply Forall_impl; [exact Hs|]. intros z. cbn. by rewrite Hs'.
  - intros q Hne. split; [done|]. by apply Hq.
Qed.

Lemma store_cache_step ptr s n : SInv s → step_at ptr s (store_cache_page s ptr n).
Proof.
  intros [Hb Hs Ho]. split; [by split|done..|]. intros q Hne. split; [|done]. cbn. by rewrite lookup_insert_ne.
Qed.

Lemma store_cache_owns s ptr o n n' : owns s ptr o n → owns (store_cache_page s ptr n') ptr o n'.
Proof. intros [_ Ho]. split; [|done]. cbn. by rewrite lookup_insert_eq. Qed.

Lemma owns_load s ptr o n : owns s ptr o n → load_cache_page s ptr = Ret n.
Proof. intros [Hc _]. unfold load_cache_page. by rewrite Hc. Qed.

Lemma alloc_page_spec s size :
  SInv s → size ∈ classes →
  ∃ r s', alloc_mini_page mem s size = Ret (r, s') ∧
  match r with
  | inl err => err = CircularBufferFull ∧ ∀ ptr, step_at ptr s s'
  | inr ptr => buf_owner (circular_buffer s) ptr = None ∧ step_at ptr s s' ∧ owns s' ptr New (fresh_block mem ptr size)
  end.
Proof.
  intros HI Hin. unfold alloc_mini_page. pose proof HI as [Hb Hs Ho].
  destruct (buf_alloc_law (circular_buffer s) size Hb) as (r & b' & -> & Hb' & Hs' & Hr); [by apply (Forall_forall _ classes)|].
  ret_step. cbn [fst snd]. destruct r as [err|ptr].
  - destruct Hr as [-> Hq]. cbn [error_of]. ret_step. eexists _, _. split; [done|]. split; [done|]. intros ptr.
    by apply set_buffer_step.
  - destruct Hr as [Hn Hq]. eexists _, _. split; [done|]. split; [done|].
    assert (step_at ptr s (set_buffer s b')) as Hst.
    { apply set_buffer_step; try done. intros q Hne. rewrite Hq. by case_decide. }
    split; [eapply step_at_trans; [exact Hst|]; apply store_cache_step, Hst|].
    split; cbn; [by rewrite lookup_insert_eq|]. rewrite Hq. by case_decide.
Qed.

Lemma publish_spec s ptr n :
  SInv s → owns s ptr New n → ∃ s', publish s ptr = Ret s' ∧ step_at ptr s s' ∧ live s' ptr n.
Proof.
  intros HI [Hc Ho]. unfold publish. destruct (buf_publish_law _ ptr (si_buffer _ HI) Ho) as (b & -> & Hb & Hs & Hq).
  ret_step. eexists. split; [done|]. split.
  - apply set_buffer_step; try done. intros q Hne. rewrite Hq. by case_decide.
  - split; [done|]. cbn. rewrite Hq. by case_decide.
Qed.

Lemma begin_dealloc_spec s ptr n :
  SInv s → live s ptr n →
  ∃ r s', begin_dealloc_mini_page s ptr = Ret (r, s') ∧ step_at ptr s s' ∧
    match r with inr _ => owns s' ptr Held n | inl err => err = NeedRestart ∧ live s' ptr n end.
Proof.
  intros HI [Hc Ho]. unfold begin_dealloc_mini_page.
  destruct (buf_acquire_law _ ptr (si_buffer _ HI) Ho) as (ok & b & -> & Hb & Hs & Hq). ret_step. cbn [fst snd].
  eexists _, _. split; [done|]. split.
  - apply set_buffer_step; try done. intros q Hne. rewrite Hq. rewrite bool_decide_eq_false_2 by done. by rewrite andb_false_r.
  - assert (∀ o, buf_owner b ptr = Some o → owns (set_buffer s b) ptr o n) as Hown by by intros.
    destruct ok; [apply Hown; rewrite Hq, bool_decide_eq_true_2; done|]. split; [done|]. apply Hown. by rewrite Hq.
Qed.

Lemma release_spec s ptr n :
  SInv s → owns s ptr Held n → ∃ s', release s ptr = Ret s' ∧ step_at ptr s s' ∧ live s' ptr n.
Proof.
  intros HI [Hc Ho]. unfold release. destruct (buf_release_law _ ptr (si_buffer _ HI) Ho) as (b & -> & Hb & Hs & Hq).
  ret_step. eexists. split; [done|]. split.
  - apply set_buffer_step; try done. intros q Hne. rewrite Hq. by case_decide.
  - split; [done|]. cbn. rewrite Hq. by case_decide.
Qed.

Lemma dealloc_spec s ptr n :
  SInv s → owns s ptr Held n →
  ∃ s', dealloc_block s ptr = Ret s' ∧ step_at ptr s s' ∧ buf_owner (circular_buffer s') ptr ≠ Some Live.
Proof.
  intros HI [Hc Ho]. unfold dealloc_block. destruct (buf_dealloc_law _ ptr (si_buffer _ HI) Ho) as (b & -> & Hb & Hs & Hq).
  ret_step. eexists. split; [done|].
  assert (step_at ptr s (set_buffer s b)) as [[Hb1 Hs1 Ho1] Hd Hof Ht Hown].
  { apply set_buffer_step; try done. intros q Hne. rewrite Hq. by case_decide. }
  split; [split; [by split|done..|]|].
  - intros q Hne. destruct (Hown q Hne) as [H1 H2]. split; [|done]. cbn in *. by rewrite lookup_delete_ne.
  - cbn. rewrite Hq. by case_decide.
Qed.

Lemma finish_dealloc_spec s ptr n :
  SInv s → owns s ptr Held n →
  ∃ s', finish_dealloc_mini_page s ptr = Ret s' ∧ step_at ptr s s' ∧ buf_owner (circular_buffer s') ptr ≠ Some Live.
Proof.
  intros HI Ho. unfold finish_dealloc_mini_page. rewrite (owns_load _ _ _ _ Ho). ret_step. by eapply dealloc_spec.
Qed.
End inv.
