(* ===== verification/EntryLeaf.v ===== *)
(** The leaf that an entry of the page table stands for: a map from the keys between two fences to
    values, stored as a base page, as a mini page over a base page, or as a full page.
    Loading, dropping and reading an entry ([LeafOperations] of src/mini_page_op.rs). *)
From stdpp Require Import base numbers list sorting option gmap.
From Stdlib Require Import ZArith Lia.
From S2P Require Import Prelude Bits NodeMeta LeafMeta LeafNode LeafOps LeafLayout Entries LeafRepr LeafSearch LeafInsert LeafInit LeafMerge LeafRebuild LeafSplit LeafTheorems SizeClasses LeafConvert SplitKey SplitKeyProofs Config CircularBuffer StateError Storage LeafEntry MergeSplit EntryInv.

(** A leaf as its users see it. *)
Record leaf := mkLeaf { lf_offset : Z; lf_view : bytes → option bytes; lf_low : bytes; lf_high : bytes }.

Definition in_bounds (low high key : bytes) : Prop := cmp_bytes low key ≠ Gt ∧ (high = [] ∨ bytes_lt key high).

(** The pointer of a location into the buffer. *)
Definition pointers (l : PageLocation) : list Z :=
  match l with Mini ptr | FullPage ptr => [ptr] | Base _ | Null => [] end.

(** The records that are written: a bound on their size, which may be stricter than that of the configuration, and the
    keys among which theirs are. *)
Class RecordBound := { record_bound : Z; client_key : bytes → Prop }.

Section leaf.
Context {B T F : Type} {RB : RecordBound} `{HPB : PageBuffer B} `{HBL : !PageBufferLaws B} `{HPM : PageMap T} `{HML : !PageMapLaws T}.
Context (mem : memory) (cfg : @Config F) (front : list Z) (mini : Z).
Abbreviation P := (leaf_page_size cfg).
Abbreviation mfl := (max_fence_len cfg).
Abbreviation storage := (LeafStorage B T).
Abbreviation env := (@env B T).
Abbreviation SInv := (SInv cfg front mini).
Abbreviation frame := (frame mem).
Abbreviation step_at := (step_at cfg front mini).

(** What the configuration and the clients allow for a record. *)
Definition limits (key value : bytes) : Prop :=
  (key ≠ [] ∧ client_key key) ∧ 2 * zlen key <= mfl ∧ (zlen key + zlen value <= cb_max_record_size cfg ∧ zlen key + zlen value <= record_bound).
Definition within (es : list entry) : Prop := Forall (λ e, limits (e_key e) (e_val e)) es.

(** A fence is the key of a record that was written, or nothing. *)
Definition fence_in (low : bytes) : Prop := 2 * zlen low <= mfl ∧ (low = [] ∨ client_key low).

(** Only the root leaf is told to split, and only when it has a record. *)
Record base_inv (n : LeafNode) (p : page) (low high : bytes) : Prop := {
  bi_ok : base_ok P n p low high;
  bi_short : within (p_entries p);
  bi_low : fence_in low;
  bi_high : fence_in high;
  bi_flag : leaf_get_split_flag n = true → low = [] ∧ high = [] ∧ p_entries p ≠ [];
  bi_room : roomy (P - LEAF_HEADER - zlen low - zlen high) p;
}.

(** A mini page over a base page with the entries [es]: its clean records are copies. *)
Record mini_inv (n : LeafNode) (q : page) (off : Z) (es : list entry) (low high : bytes) : Prop := {
  mi_repr : Repr n q;
  mi_fences : p_fences q = None;
  mi_mode : is_cache_only_leaf (meta n) = false;
  mi_next : next_level n = off;
  mi_size : node_size (meta n) ∈ front ++ [mini];
  mi_bounds : Forall (λ e, in_bounds low high (e_key e)) (p_entries q);
  mi_short : within (p_entries q);
  mi_flag : leaf_get_split_flag n = false;
  mi_clean : ∀ k e, find_entry k (p_entries q) = Some e → is_dirty (e_op e) = false →
    visible (Some e) = visible (find_entry k es);
}.

(** A full page over a base page: it answers for every key. *)
Record full_inv (n : LeafNode) (q : page) (off : Z) (es : list entry) (low high : bytes) : Prop := {
  fi_repr : Repr n q;
  fi_fences : ∃ l h, p_fences q = Some (l, h) ∧ fence_key l = low ∧ fence_key h = high;
  fi_mode : is_cache_only_leaf (meta n) = false;
  fi_next : next_level n = off;
  fi_size : node_size (meta n) = P;
  fi_short : within (p_entries q);
  fi_flag : leaf_get_split_flag n = true → low = [] ∧ high = [];
  fi_view : ∀ k, overlay (p_entries q) es k = visible (find_entry k (p_entries q));
}.

(** The location of a leaf whose base page has the entries [es].  A cached page has a record, which
    leads an eviction to the leaf. *)
Definition placed (s : storage) (es : list entry) (lf : leaf) (loc : PageLocation) : Prop :=
  match loc with
  | Base o => o = lf_offset lf ∧ ∀ k, lf_view lf k = visible (find_entry k es)
  | Mini ptr => ∃ n q, owns s ptr Live n ∧ mini_inv n q (lf_offset lf) es (lf_low lf) (lf_high lf) ∧
      p_entries q ≠ [] ∧ ∀ k, lf_view lf k = overlay (p_entries q) es k
  | FullPage ptr => ∃ n q, owns s ptr Live n ∧ full_inv n q (lf_offset lf) es (lf_low lf) (lf_high lf) ∧
      p_entries q ≠ [] ∧ ∀ k, lf_view lf k = visible (find_entry k (p_entries q))
  | Null => False
  end.

Definition offset_ok (s : storage) (o : Z) : Prop := 0 <= o < next_available_offset s ∧ next_level_is_null o = false.

(** A leaf at rest. *)
Definition leaf_at (s : storage) (lf : leaf) (loc : PageLocation) : Prop :=
  offset_ok s (lf_offset lf) ∧
  ∃ p, base_inv (vfs_read mem s (lf_offset lf)) p (lf_low lf) (lf_high lf) ∧ placed s (p_entries p) lf loc.

(** The base page of a leaf that is locked: the temporary copy, or else the page of the file.
    An unchanged copy has the entries of the page of the file. *)
Definition base_now (e : env) (lf : leaf) (n : LeafNode) (p : page) : Prop :=
  base_inv n p (lf_low lf) (lf_high lf) ∧
  match tmp_buffer e with
  | None => n = vfs_read mem (store e) (lf_offset lf)
  | Some b => n = buffer_page b ∧ (buffer_dirty b = false →
      ∃ dp, base_inv (vfs_read mem (store e) (lf_offset lf)) dp (lf_low lf) (lf_high lf) ∧ p_entries dp = p_entries p)
  end.

(** A leaf under the lock of its entry, with its base page. *)
Record entry_with (e : env) (lf : leaf) (n : LeafNode) (p : page) : Prop := {
  en_store : SInv (store e);
  en_offset : offset_ok (store e) (lf_offset lf);
  en_base : base_now e lf n p;
}.

Definition entry_at (e : env) (lf : leaf) : Prop :=
  ∃ n p, entry_with e lf n p ∧ placed (store e) (p_entries p) lf (location e).

(** ** Loading and dropping *)
Lemma entry_at_get s lf loc par :
  SInv s → leaf_at s lf loc → entry_at (mkEnv s loc None par) lf.
Proof. intros HI (Ho & p & Hb & Hp). by exists (vfs_read mem s (lf_offset lf)), p. Qed.

Lemma base_offset_spec s es lf loc :
  offset_ok s (lf_offset lf) → placed s es lf loc → base_offset_of s loc = Ret (lf_offset lf).
Proof.
  assert (∀ n, offset_ok s (lf_offset lf) → next_level n = lf_offset lf → as_offset (next_level n) = Ret (lf_offset lf)) as Has.
  { intros n [_ Ho] ->. unfold as_offset. by rewrite Ho. }
  intros Ho. destruct loc as [ptr|ptr|o|]; cbn; [| |by intros [-> _]|done].
  - intros (n & q & Hl & Hm & _). rewrite (owns_load _ _ _ _ Hl). ret_step. apply Has; [done|apply Hm].
  - intros (n & q & Hl & Hm & _). rewrite (owns_load _ _ _ _ Hl). ret_step. apply Has; [done|apply Hm].
Qed.

Lemma placed_mono s s' es es' lf loc :
  (∀ k, visible (find_entry k es') = visible (find_entry k es)) →
  (∀ ptr n, ptr ∈ pointers loc → owns s ptr Live n → owns s' ptr Live n) → placed s es lf loc → placed s' es' lf loc.
Proof.
  intros He Ho. destruct loc as [ptr|ptr|o|]; cbn in *; [| | |done].
  - intros (n & q & Hl & [] & Hne & Hv). exists n, q. split; [apply Ho; [left|done]|]. split; [|split; [done|]].
    + split; try done. intros k x Hk Hd. rewrite He. eauto.
    + intros k. rewrite Hv. unfold overlay. by rewrite He.
  - intros (n & q & Hl & [] & Hne & Hv). exists n, q. split; [apply Ho; [left|done]|]. split; [|done].
    split; try done. intros k. rewrite <- fi_view0. unfold overlay. by rewrite He.
  - intros [-> Hv]. split; [done|]. intros k. by rewrite Hv, He.
Qed.

(** Dropping an entry leaves the leaf at rest; only its page of the file is written. *)
Lemma drop_entry_spec e lf :
  entry_at e lf →
  ∃ s', drop_entry e = Ret s' ∧ SInv s' ∧ leaf_at s' lf (location e) ∧ frame [] [lf_offset lf] (store e) s' ∧
    page_table s' = page_table (store e) ∧ cache_pages s' = cache_pages (store e) ∧ circular_buffer s' = circular_buffer (store e) ∧
    next_available_offset s' = next_available_offset (store e).
Proof.
  intros (n & p & [HI Ho (Hb & Ht)] & Hp). unfold drop_entry.
  destruct (tmp_buffer e) as [[[] pg]|]; cbn in Ht.
  - destruct Ht as [-> _]. rewrite (base_offset_spec _ _ _ _ Ho Hp). ret_step. eexists. split; [done|].
    pose proof HI as [Hi1 Hi2 Hi3]. split_and!; try done.
    + split; [done|]. exists p. unfold vfs_read, vfs_write. cbn. rewrite lookup_insert_eq. cbn. split; [done|].
      by eapply placed_mono; [| |exact Hp].
    + split; [|done..]. split; [done| |done].
      intros o _ Hne. unfold vfs_read, vfs_write. cbn. rewrite lookup_insert_ne; [done|].
      intros <-. apply Hne. by left.
  - destruct Ht as (-> & dp & Hd & He); [done|]. exists (store e). split_and!; try done.
    split; [done|]. exists dp. split; [done|]. by rewrite He.
  - subst n. exists (store e). split_and!; try done. split; [done|]. by exists p.
Qed.

(** Other leaves do not notice what an operation does within its frame. *)
Lemma leaf_at_frame ptrs offs s s' lf loc :
  untouched mem ptrs offs s s' → lf_offset lf ∉ offs → (∀ ptr, ptr ∈ pointers loc → ptr ∉ ptrs) →
  leaf_at s lf loc → leaf_at s' lf loc.
Proof.
  intros [Hc Hd Ho] Hoff Hptr ((Hr & Hn) & p & Hb & Hp). split; [split; [lia|done]|].
  exists p. rewrite Hd by (done || lia). split; [done|]. eapply placed_mono; [| |exact Hp]; [done|].
  intros ptr n Hin. apply Hc. by apply Hptr.
Qed.

Lemma set_tmp_same (e : env) b : tmp_buffer e = b → set_tmp e b = e.
Proof. by destruct e as [? ? ? ?]; cbn; intros ->. Qed.

Lemma load_base_spec X e lf n p (Q : TreeError + LeafNode → env → Prop) :
  entry_with e lf n p →
  (∀ d, entry_with (set_tmp e (Some (mkTmp d n))) lf n p → (tmp_buffer e = None → d = false) → Q (inr n) (set_tmp e (Some (mkTmp d n)))) →
  wp X (load_base_page mem (lf_offset lf)) Q e.
Proof.
  intros [HI Ho (Hb & Ht)] HQ. unfold wp, load_base_page.
  destruct (tmp_buffer e) as [[d pg]|] eqn:Htmp; cbn in Ht.
  - destruct Ht as [-> Hd]. specialize (HQ d). rewrite set_tmp_same in HQ by done. apply HQ; [|done].
    split; [done|done|]. split; [done|]. rewrite Htmp. by split.
  - subst n. apply HQ; [|done]. split; [done|done|]. split; [done|]. cbn. split; [done|]. intros _. by exists p.
Qed.

(** A changed copy of the base page. *)
Lemma entry_with_put e lf n p n' p' lf' :
  entry_with e lf n p → lf_offset lf' = lf_offset lf → base_inv n' p' (lf_low lf') (lf_high lf') →
  entry_with (set_tmp e (Some (mkTmp true n'))) lf' n' p'.
Proof. intros [HI Ho _] Hoff Hb. split; [done|by rewrite Hoff|]. split; [done|]. by split. Qed.

Lemma load_base_mut_spec X e lf n p (Q : TreeError + LeafNode → env → Prop) :
  entry_with e lf n p → base_offset_of (store e) (location e) = Ret (lf_offset lf) →
  Q (inr n) (set_tmp e (Some (mkTmp true n))) → wp X (load_base_page_mut mem) Q e.
Proof.
  intros [HI Ho (Hb & Ht)] Hoff HQ. unfold wp, load_base_page_mut.
  destruct (tmp_buffer e) as [[d pg]|] eqn:Htmp; cbn in Ht.
  - by destruct Ht as [-> _].
  - subst n. by rewrite Hoff.
Qed.

(** ** Reading *)
(** What a reader is told about a value. *)
Definition answers (x : option bytes) (out_buffer : bytes) (r : LeafReadResult) (out : bytes) : Prop :=
  match x with
  | Some v => r = Found (zlen v) ∧ out = v ++ drop (length v) out_buffer
  | None => (r = NotFound ∨ r = Deleted) ∧ out = out_buffer
  end.

Lemma read_result_answers o out : answers (visible o) out (read_result o out).1 (read_result o out).2.
Proof. destruct o as [e|]; cbn; [|auto]. destruct (is_absent (e_op e)); cbn; auto. Qed.

(** A page that was read: the same records, and a hit is marked. *)
Definition touched (key : bytes) (n : LeafNode) (p : page) (n' : LeafNode) (p' : page) : Prop :=
  Repr n' p' ∧ p_fences p' = p_fences p ∧ same_header n n' ∧ p_entries p' = p_entries p ∧
  (find_entry key (p_entries p) ≠ None → Exists (λ r, k_ref r = true) (p_recs p')).

(** A mini page that can be moved to the tail of the buffer: some record goes along. *)
Definition movable (s : storage) (loc : PageLocation) : Prop :=
  match loc with
  | Mini ptr => ∃ n q, owns s ptr Live n ∧ Repr n q ∧ omap (copied true) (p_recs q) ≠ []
  | _ => True
  end.

Lemma copied_some d rs r : r ∈ rs → copied d r ≠ None → omap (copied d) rs ≠ [].
Proof.
  intros Hr Hc. destruct (copied d r) as [e|] eqn:He; [|done].
  assert (e ∈ omap (copied d) rs) as Hin by (apply list_elem_of_omap; by exists r). intros Hn. rewrite Hn in Hin.
  by apply not_elem_of_nil in Hin.
Qed.

Lemma marked_movable rs : Exists (λ r, k_ref r = true) rs → omap (copied true) rs ≠ [].
Proof.
  intros (r & Hr & Hk)%Exists_exists. apply (copied_some true rs r Hr). unfold copied. rewrite Hk. cbn. by rewrite andb_false_r.
Qed.

Lemma same_header_flag n n' : same_header n n' → leaf_get_split_flag n' = leaf_get_split_flag n.
Proof. intros (_ & _ & _ & _ & _ & Hf). apply Hf. Qed.

Lemma same_header_mode n n' : same_header n n' → is_cache_only_leaf (meta n') = is_cache_only_leaf (meta n).
Proof. intros (_ & _ & _ & _ & _ & Hf). apply Hf. Qed.

Lemma base_inv_same n p n' p' low high :
  base_inv n p low high → Repr n' p' → p_fences p' = p_fences p → same_header n n' → p_entries p' = p_entries p →
  base_inv n' p' low high.
Proof.
  intros [(HR & Hb & Hs & Hd & Hf) H2 H3 H4 H5 H6] HR' Hf' Hh He.
  split; [|by rewrite He|done|done|by rewrite (same_header_flag _ _ Hh), He|by apply (roomy_kept _ p); rewrite ?He].
  split_and!; [done|by rewrite (same_header_base _ _ Hh)| |by rewrite He|by rewrite Hf'].
  by destruct Hh as (_ & _ & _ & _ & -> & _).
Qed.

Lemma mini_inv_same n q n' q' off es low high :
  mini_inv n q off es low high → Repr n' q' → p_fences q' = p_fences q → same_header n n' → p_entries q' = p_entries q →
  mini_inv n' q' off es low high.
Proof.
  intros [] HR' Hf' Hh He. pose proof Hh as (_ & Hn & _ & _ & Hs & _). split; try rewrite He; try done.
  - by rewrite Hf'.
  - by rewrite (same_header_mode _ _ Hh).
  - by rewrite Hn.
  - by rewrite Hs.
  - by rewrite (same_header_flag _ _ Hh).
Qed.

Lemma full_inv_same n q n' q' off es low high :
  full_inv n q off es low high → Repr n' q' → p_fences q' = p_fences q → same_header n n' → p_entries q' = p_entries q →
  full_inv n' q' off es low high.
Proof.
  intros [] HR' Hf' Hh He. pose proof Hh as (_ & Hn & _ & _ & Hs & _). split; try rewrite He; try done.
  - by rewrite Hf'.
  - by rewrite (same_header_mode _ _ Hh).
  - by rewrite Hn.
  - by rewrite Hs.
  - by rewrite (same_header_flag _ _ Hh).
Qed.

Lemma wp_cache_page X (e : env) ptr o n (Q : TreeError + LeafNode → env → Prop) :
  owns (store e) ptr o n → Q (inr n) e → wp X (cache_page ptr) Q e.
Proof. intros Ho HQ. unfold cache_page. wp_step. by eapply wp_lift; [by eapply owns_load|]. Qed.

Definition buffer_fits (x : option bytes) (out : bytes) : Prop := match x with Some v => zlen v <= zlen out | None => True end.

Lemma read_cached_spec X (e : env) ptr n q key out bin :
  owns (store e) ptr Live n → Repr n q → in_range (p_fences q) key → buffer_fits (visible (find_entry key (p_entries q))) out →
  wp X (read_cached key out ptr bin) (λ r e', r = inr (read_result (find_entry key (p_entries q)) out) ∧
    ∃ n' q', touched key n q n' q' ∧ e' = set_store e (store_cache_page (store e) ptr n')) e.
Proof.
  intros Ho HR Hin Hbuf. unfold read_cached. apply wp_bind. eapply wp_cache_page; [done|].
  destruct (read_repr n q HR key out bin Hin Hbuf) as (n' & q' & Hrd & Ht).
  apply wp_bind. eapply wp_lift; [exact Hrd|]. cbn [fst snd]. unfold put_cache_page. wp_step. wp_step.
  split; [by destruct (read_result _ _)|]. by exists n', q'.
Qed.

Lemma read_base_spec X e lf n p key out :
  entry_with e lf n p → in_bounds (lf_low lf) (lf_high lf) key →
  buffer_fits (visible (find_entry key (p_entries p))) out →
  wp X (read_base mem key out (lf_offset lf)) (λ r e', r = inr (read_result (find_entry key (p_entries p)) out) ∧
    ∃ b n' p', e' = set_tmp e b ∧ entry_with e' lf n' p' ∧ p_entries p' = p_entries p ∧ (tmp_buffer e = None → drop_entry e' = Ret (store e'))) e.
Proof.
  intros He Hk Hbuf. unfold read_base. apply wp_bind. eapply load_base_spec; [done|]. intros d [HI Ho (Hb & _ & Hd)] Hclean.
  cbn [set_tmp tmp_buffer store buffer_dirty] in *.
  pose proof (bi_ok _ _ _ _ Hb) as Hok. pose proof Hok as (HR & _).
  destruct (read_repr n p HR key out true) as (n' & p' & Hrd & HR' & Hf' & Hh' & He' & _); [by apply (base_ok_range _ _ _ _ _ _ Hok)|done|].
  apply wp_bind. eapply wp_lift; [exact Hrd|]. cbn [fst snd]. wp_step. wp_step. split; [by destruct (read_result _ _)|].
  exists (Some (mkTmp d n')), n', p'. split; [done|]. split; [|split; [done|]; intros Hnone; unfold drop_entry; cbn; by rewrite (Hclean Hnone)]. split; [done|done|].
  split; [by eapply base_inv_same|]. split; [done|]. intros Hd0. destruct (Hd Hd0) as (dp & Hdp & Hde). exists dp. by rewrite He'.
Qed.

(** What an operation on a locked leaf leaves to the others. *)
Definition apart (e e' : env) : Prop :=
  frame (pointers (location e)) [] (store e) (store e') ∧
  handed (pointers (location e)) (pointers (location e')) (store e) (store e').
Definition keeps (e e' : env) : Prop := apart e e' ∧ parent_node e' = parent_node e.

(** An operation on the page of the leaf in its place. *)
Lemma apart_in_place e e' ptr :
  pointers (location e) = [ptr] → location e' = location e → step_at ptr (store e) (store e') → apart e e'.
Proof.
  intros Hp Hl Hst. split; rewrite ?Hl, ?Hp; [by apply (step_at_frame mem cfg front mini)|by eapply handed_in_place].
Qed.

Lemma apart_all e e' : location e' = location e → (∀ ptr, step_at ptr (store e) (store e')) → apart e e'.
Proof.
  intros Hl Hst. split; rewrite ?Hl; [by apply (step_all_frame mem cfg front mini)|by eapply handed_all].
Qed.

(** A new page for the leaf. *)
Lemma apart_new e e' ptr :
  pointers (location e) = [] → pointers (location e') = [ptr] → buf_owner (circular_buffer (store e)) ptr = None →
  step_at ptr (store e) (store e') → apart e e'.
Proof.
  intros Hp Hp' Hfree Hst. split; rewrite ?Hp, ?Hp'; [by apply (step_at_frame_fresh mem cfg front mini ptr)|eapply handed_new; [done|congruence]].
Qed.

(** The page [ptr] of the leaf gives way to a new page [new]: it is held, the new page comes, and
    it goes. *)
Lemma apart_replace e e' ptr new s1 s2 n :
  pointers (location e) = [ptr] → pointers (location e') = [new] → step_at ptr (store e) s1 → owns s1 ptr Held n →
  buf_owner (circular_buffer s1) new = None → step_at new s1 s2 → step_at ptr s2 (store e') →
  buf_owner (circular_buffer (store e')) ptr ≠ Some Live → apart e e'.
Proof.
  intros Hp Hp' Hst1 Hheld Hfree Hst2 Hst3 Hgone. split; rewrite ?Hp, ?Hp'.
  - eapply frame_trans; [by apply (step_at_frame mem cfg front mini)|].
    eapply frame_trans; [by apply (step_at_frame_fresh mem cfg front mini new)|]. by apply (step_at_frame mem cfg front mini).
  - eapply handed_trans; [eapply handed_gone; [exact Hst1|by eapply owns_not_live]|].
    eapply handed_trans; [eapply handed_new; [exact Hst2|congruence]|]. eapply handed_other; [done| |done].
    eapply (owns_not_live _ _ Held n); [|done]. apply (sa_owns _ _ _ _ _ _ Hst2); [|done]. intros ->. destruct Hheld. congruence.
Qed.

(** The page of the leaf is gone. *)
Lemma apart_gone e e' ptr :
  pointers (location e) = [ptr] → pointers (location e') = [] → step_at ptr (store e) (store e') →
  buf_owner (circular_buffer (store e')) ptr ≠ Some Live → apart e e'.
Proof.
  intros Hp Hp' Hst Hgone. split; rewrite ?Hp, ?Hp'; [by apply (step_at_frame mem cfg front mini)|by eapply handed_gone].
Qed.

Lemma apart_trans e1 e2 e3 : apart e1 e2 → apart e2 e3 → apart e1 e3.
Proof.
  intros [[[C1 D1 O1] T1 N1] H1] [[[C2 D2 O2] T2 N2] H2]. split; [|by eapply handed_trans]. split; [|congruence..]. split; [| |lia].
  - intros q n Hq Hl. apply C2; [|by apply C1]. intros Hin. destruct (H1 q) as (_ & Hf & _). destruct (Hf Hin) as [?|Hn]; [done|].
    apply Hn, Hl.
  - intros o Ho _. rewrite D2 by (lia || apply not_elem_of_nil). apply D1; [done|apply not_elem_of_nil].
Qed.

(** A page of the buffer that was read or changed in place. *)
Lemma entry_with_store e lf bn p s' :
  entry_with e lf bn p → SInv s' → disk s' = disk (store e) → next_available_offset s' = next_available_offset (store e) →
  entry_with (set_store e s') lf bn p.
Proof.
  intros [HI [Ho1 Ho2] (Hb & Ht)] HI' Hd Hn. split; [done|split; cbn; [by rewrite Hn|done]|]. split; [done|].
  cbn. destruct (tmp_buffer e) as [b|]; unfold vfs_read in *; by rewrite Hd.
Qed.

Lemma entry_with_step ptr e lf bn p s' :
  entry_with e lf bn p → step_at ptr (store e) s' → entry_with (set_store e s') lf bn p.
Proof. intros He [Hi Hd Hn _ _]. by apply entry_with_store. Qed.

Lemma mini_clean_view n q off es low high key e :
  mini_inv n q off es low high → find_entry key (p_entries q) = Some e → overlay (p_entries q) es key = visible (Some e).
Proof.
  intros Hm Hf. unfold overlay. rewrite Hf. destruct (is_dirty (e_op e)) eqn:Hd; [done|].
  symmetry. by apply (mi_clean _ _ _ _ _ _ Hm).
Qed.

Lemma keeps_store_cache e ptr n' b :
  SInv (store e) → pointers (location e) = [ptr] → keeps e (set_tmp (set_store e (store_cache_page (store e) ptr n')) b).
Proof. intros HI Hp. split; [|done]. by apply (apart_in_place _ _ ptr), store_cache_step. Qed.

Lemma keeps_tmp e b : keeps e (set_tmp e b).
Proof. split; [|done]. split; [apply frame_refl|apply handed_refl]. Qed.

(** Where the answer came from: a cached page, which a hit has marked, or the base page, when the
    cached page has no record for the key. *)
Definition read_kind (e : env) (key : bytes) (res : LeafRead) : Prop :=
  match res with
  | ReadMini _ | ReadFull _ => movable (store e) (location e) ∧ pointers (location e) ≠ []
  | ReadBase _ => (∀ ptr, location e ≠ FullPage ptr) ∧
      ∀ ptr n q, location e = Mini ptr → owns (store e) ptr Live n → Repr n q → find_entry key (p_entries q) = None
  | ReadNone => False
  end.

Definition read_post (e : env) (lf : leaf) (key out : bytes) (r : TreeError + LeafRead * bytes) (e' : env) : Prop :=
  ∃ res buf, r = inr (res, buf) ∧ answers (lf_view lf key) out (result_of res) buf ∧
    entry_at e' lf ∧ keeps e e' ∧ location e' = location e ∧
    next_available_offset (store e') = next_available_offset (store e) ∧ (tmp_buffer e = None → drop_entry e' = Ret (store e')) ∧
    read_kind e' key res.

(** Reading a mini page, and the base page below it on a miss. *)
Lemma read_mini_spec X e lf ptr key out bin :
  entry_at e lf → location e = Mini ptr → in_bounds (lf_low lf) (lf_high lf) key → buffer_fits (lf_view lf key) out →
  wp X (entry_read mem key out bin false) (read_post e lf key out) e.
Proof.
  intros (bn & p & He & Hp) Hl Hk Hbuf. rewrite Hl in Hp. pose proof He as [HI Ho Hb].
  destruct Hp as (n & q & Hown & Hm & Hne & Hv). unfold entry_read. wp_step. rewrite Hl. apply wp_bind.
  eapply wp_mono.
  { eapply (read_cached_spec X e ptr n q key out bin); [done|apply Hm|by rewrite (mi_fences _ _ _ _ _ _ Hm)|].
    destruct (find_entry key (p_entries q)) as [x|] eqn:Hf; [|done].
    by rewrite <- (mini_clean_view _ _ _ _ _ _ _ _ Hm Hf), <- Hv. }
  intros r e1 [-> (n' & q' & Ht & ->)]. destruct Ht as (HR' & Hf' & Hh' & He' & Hmark).
  set (e1 := set_store e _). assert (entry_with e1 lf bn p) as He1.
  { by eapply (entry_with_step ptr), store_cache_step. }
  assert (mini_inv n' q' (lf_offset lf) (p_entries p) (lf_low lf) (lf_high lf)) as Hm' by by eapply mini_inv_same.
  assert (∀ es', p_entries q = p_entries q' → es' = p_entries p → placed (store e1) es' lf (Mini ptr)) as Hpl.
  { intros es' Heq ->. exists n', q'. split; [by eapply store_cache_owns|]. split; [done|]. by rewrite <- Heq. }
 
  rewrite <- He' in Hv, Hmark |- *. destruct (find_entry key (p_entries q')) as [x|] eqn:Hf; cbn [read_result].
  - assert (lf_view lf key = visible (Some x)) as Hvk by (rewrite Hv; by eapply mini_clean_view).
    cbn in Hvk. destruct (is_absent (e_op x)); cbn [fst snd]; wp_step;
      (eexists _, _; split; [done|]; rewrite Hvk; split; [cbn; auto|]; split; [exists bn, p; change (location e1) with (location e); rewrite Hl; auto|]);
      (split; [pose proof (keeps_store_cache e ptr n' (tmp_buffer e) HI) as Hk1; rewrite Hl in Hk1; by apply Hk1|]);
      (do 2 (split; [done|]); split; [intros Hnone; unfold drop_entry; cbn; by rewrite Hnone|]);
      (split; change (location e1) with (location e); rewrite Hl; [|done]; exists n', q';
       split; [by eapply store_cache_owns|]; split; [done|by apply marked_movable, Hmark]).
  - cbn [fst snd]. apply wp_bind. eapply wp_cache_page; [by eapply store_cache_owns|].
    apply wp_bind. eapply wp_lift; [unfold as_offset; rewrite (mi_next _ _ _ _ _ _ Hm'); destruct Ho as [_ ->]; done|].
    apply wp_bind. assert (lf_view lf key = visible (find_entry key (p_entries p))) as Hvk.
    { rewrite Hv. unfold overlay. by rewrite Hf. }
    eapply wp_mono; [eapply read_base_spec; [done|done|by rewrite <- Hvk]|].
    intros r e2 [-> (b & n2 & p2 & -> & He2 & Hpe & Hclean)]. wp_step. eexists _, _. split; [done|]. cbn [fst snd result_of].
    split; [rewrite Hvk; apply read_result_answers|]. split; [exists n2, p2; split; [done|]; change (location _) with (location e); rewrite Hl; by apply Hpl|].
    split; [by apply keeps_store_cache; [|rewrite Hl]|]. do 2 (split; [done|]). split; [done|].
    split; change (location (set_tmp e1 b)) with (location e); rewrite Hl; [done|]. intros ptr' n3 q3 [= <-] [Hc3 _] HR3.
    assert (n3 = n') as ->. { cbn in Hc3. rewrite lookup_insert_eq in Hc3. by injection Hc3. }
    pose proof (repr_entries _ _ HR3) as H3. rewrite (repr_entries _ _ HR') in H3. by injection H3 as <-.
Qed.

Lemma full_range n q off es low high key : full_inv n q off es low high → in_bounds low high key → in_range (p_fences q) key.
Proof.
  intros [HR (l & h & Hf & <- & <-) _ _ _ _ _ _] [H1 H2]. destruct (fences_ok n q HR l h Hf) as [Hl Hh].
  rewrite Hf. cbn. by rewrite above_low_key, below_high_key.
Qed.

Lemma read_full_spec X e lf ptr key out bin :
  entry_at e lf → location e = FullPage ptr → in_bounds (lf_low lf) (lf_high lf) key → buffer_fits (lf_view lf key) out →
  wp X (entry_read mem key out bin false) (read_post e lf key out) e.
Proof.
  intros (bn & p & He & Hp) Hl Hk Hbuf. rewrite Hl in Hp. pose proof He as [HI Ho Hb].
  destruct Hp as (n & q & Hown & Hm & Hne & Hv). unfold entry_read. wp_step. rewrite Hl. apply wp_bind.
  eapply wp_mono.
  { eapply (read_cached_spec X e ptr n q key out true); [done|apply Hm|by eapply full_range|by rewrite <- Hv]. }
  intros r e1 [-> (n' & q' & Ht & ->)]. destruct Ht as (HR' & Hf' & Hh' & He' & _). wp_step.
  eexists _, _. split; [done|]. cbn [fst snd result_of]. rewrite Hv. split; [apply read_result_answers|]. split.
  - exists bn, p. split; [by eapply (entry_with_step ptr), store_cache_step|]. cbn [location set_store store]. rewrite Hl.
    exists n', q'. split; [by eapply store_cache_owns|]. split; [by eapply full_inv_same|]. split; [by rewrite He'|]. intros k. by rewrite Hv, He'.
  - split; [|do 2 (split; [done|]); split; [intros Hnone; unfold drop_entry; cbn; by rewrite Hnone|by split; cbn [location set_store]; rewrite Hl]]. split; [|done].
    apply (apart_in_place _ _ ptr); [by rewrite Hl|done|by apply store_cache_step].
Qed.

Lemma read_base_leaf_spec X e lf o key out bin :
  entry_at e lf → location e = Base o → in_bounds (lf_low lf) (lf_high lf) key → buffer_fits (lf_view lf key) out →
  wp X (entry_read mem key out bin false) (read_post e lf key out) e.
Proof.
  intros (bn & p & He & Hp) Hl Hk Hbuf. rewrite Hl in Hp. destruct Hp as [-> Hv].
  unfold entry_read. wp_step. rewrite Hl. apply wp_bind. eapply wp_mono; [eapply read_base_spec; [done|done|by rewrite <- Hv]|].
  intros r e2 [-> (b & n2 & p2 & -> & He2 & Hpe & Hclean)]. wp_step. eexists _, _. split; [done|]. cbn [fst snd result_of].
  rewrite Hv. split; [apply read_result_answers|]. split; [|split; [apply keeps_tmp|do 2 (split; [done|]); split; [done|by split; cbn [location set_tmp]; rewrite Hl]]].
  exists n2, p2. split; [done|]. cbn [location set_tmp store]. rewrite Hl. split; [done|]. by rewrite Hpe.
Qed.

(** Reading a leaf answers with its value for the key and changes nothing that is read later. *)
Lemma entry_read_spec X e lf key out bin :
  entry_at e lf → in_bounds (lf_low lf) (lf_high lf) key → buffer_fits (lf_view lf key) out →
  wp X (entry_read mem key out bin false) (read_post e lf key out) e.
Proof.
  intros He Hk Hbuf. destruct (location e) as [ptr|ptr|o|] eqn:Hl.
  - by eapply read_mini_spec.
  - by eapply read_full_spec.
  - by eapply read_base_leaf_spec.
  - destruct He as (n & p & _ & Hp). by rewrite Hl in Hp.
Qed.
End leaf.
