(* ===== verification/EntryInsert.v ===== *)
(** Inserting into a leaf under the lock of its entry ([LeafEntryXLocked::insert] of
    src/mini_page_op.rs): in the mini page or the full page, in a larger mini page, and in a new
    mini page over a base page. *)
From stdpp Require Import base numbers list sorting option gmap.
From Stdlib Require Import ZArith Lia.
From S2P Require Import Prelude Bits NodeMeta LeafMeta LeafNode LeafOps LeafLayout Entries LeafRepr LeafSearch LeafInsert LeafInit LeafMerge LeafRebuild LeafSplit LeafTheorems SizeClasses LeafConvert SplitKey SplitKeyProofs Config CircularBuffer StateError Storage LeafEntry MergeSplit EntryInv EntryLeaf.

(** A view with one value changed. *)
Definition view_insert (v : bytes → option bytes) (key : bytes) (x : option bytes) (k : bytes) : option bytes :=
  if bool_decide (k = key) then x else v k.

Definition leaf_update (lf : leaf) (key : bytes) (x : option bytes) : leaf :=
  mkLeaf (lf_offset lf) (view_insert (lf_view lf) key x) (lf_low lf) (lf_high lf).

(** What a larger copy of a mini page holds: records are missing only when they are clean. *)
Lemma copied_find d rs k :
  ordered (map k_ent rs) →
  match find_entry k (map k_ent rs) with
  | None => find_entry k (omap (copied d) rs) = None
  | Some e => find_entry k (omap (copied d) rs) = Some e ∨
      (find_entry k (omap (copied d) rs) = None ∧ is_dirty (e_op e) = false)
  end.
Proof.
  intros Ho. induction rs as [|r rs IH]; [done|]. apply StronglySorted_inv in Ho as [Ho Hlt]. specialize (IH Ho).
  cbn [map find_entry omap list_omap].
  destruct (copied d r) as [y|] eqn:Hc; unfold copied in Hc; destruct (_ && _) eqn:Hd in Hc; try done.
  - injection Hc as <-. cbn [find_entry]. destruct (key_eqb (e_key (k_ent r)) k); [by left|done].
  - destruct (key_eqb (e_key (k_ent r)) k) eqn:Hk; [|done]. right. apply key_eqb_eq in Hk. split.
    + apply find_entry_none, Forall_forall. intros e He Heq.
      assert (e ∈ map k_ent rs) as Hin by (eapply elem_of_sublist; [exact He|apply copied_sublist]).
      rewrite Forall_forall in Hlt. specialize (Hlt e Hin). unfold entry_lt in Hlt.
      rewrite Heq, <- Hk in Hlt. by apply bytes_lt_irrefl in Hlt.
    + apply andb_true_iff in Hd as [Hd _]. apply andb_true_iff in Hd as [_ Hd]. by destruct (e_op (k_ent r)).
Qed.

(** The fields of the header that are not part of the contents. *)
Lemma repr_header n n' p :
  Repr n p → meta n' = meta n → data n' = data n → prefix_len n' = prefix_len n → Repr n' p.
Proof.
  intros [HL Hf Hp Hfe Hr Ho Hra] Hm Hd Hpl. split; try done.
  - by rewrite Hm, Hd, Hpl.
  - unfold leaf_has_fence in *. by rewrite Hm.
  - by rewrite Hpl.
Qed.

Lemma split_flag_repr n p : Repr n p → Repr (leaf_set_split_flag n) p.
Proof.
  intros [HL Hf Hp Hfe Hr Ho Hra].
  destruct (set_split_flag_spec (meta n) (lo_word _ _ HL)) as (H1 & _ & H3 & H4 & _).
  split; try done.
  - destruct HL. split; try done. by cbn -[meta_count_with_fence]; rewrite H3.
  - unfold leaf_has_fence in *. cbn -[has_fence]. by rewrite H4.
Qed.

Lemma set_tmp_twice {B T} (e : @env B T) a b : set_tmp (set_tmp e a) b = set_tmp e b.
Proof. done. Qed.

Section insert.
Context {B T F : Type} {RB : RecordBound} `{HPB : PageBuffer B} `{HBL : !PageBufferLaws B} `{HPM : PageMap T} `{HML : !PageMapLaws T}.
Context (mem : memory) (cfg : @Config F) (front : list Z) (mini : Z).
Abbreviation P := (leaf_page_size cfg).
Abbreviation mfl := (max_fence_len cfg).
Abbreviation classes := (front ++ [mini; leaf_page_size cfg]).
Abbreviation storage := (LeafStorage B T).
Abbreviation env := (@env B T).
Abbreviation SInv := (SInv cfg front mini).
Abbreviation frame := (frame mem).
Abbreviation step_at := (step_at cfg front mini).
Abbreviation mini_inv := (mini_inv cfg front mini).
Abbreviation full_inv := (full_inv cfg).
Abbreviation base_inv := (base_inv cfg).
Abbreviation entry_at := (entry_at mem cfg front mini).
Abbreviation entry_with := (entry_with mem cfg front mini).
Abbreviation placed := (placed cfg front mini).
Abbreviation keeps := (keeps mem).

Hypothesis Hsetup : Setup mem cfg front mini.

(** The record to insert. *)
Context (key value : bytes) (op : OpType).
Hypothesis Hok : entry_ok (mkEntry key op value).
Hypothesis Hlim : limits cfg key value.

Abbreviation new_value := (visible (Some (mkEntry key op value))).

Lemma record_fits : zlen key + zlen value + KV_META_SIZE + LEAF_HEADER < mini.
Proof. destruct Hlim as (_ & _ & Hl). pose proof (su_record _ _ _ _ Hsetup). lia. Qed.

(** A clean record is a copy of what the base page holds, and the mini page has none for the key. *)
Definition clean_ok (ms es : list entry) : Prop :=
  is_dirty op = false → find_entry key ms = None ∧ new_value = visible (find_entry key es).

Lemma mini_not_base n q off es low high :
  mini_inv n q off es low high → next_level_is_null off = false → is_base_page n = false.
Proof. intros Hm Ho. unfold is_base_page. by rewrite (mi_next _ _ _ _ _ _ _ _ _ Hm), Ho, andb_false_r. Qed.

Lemma full_not_base n q off es low high :
  full_inv n q off es low high → next_level_is_null off = false → is_base_page n = false.
Proof. intros Hm Ho. unfold is_base_page. by rewrite (fi_next _ _ _ _ _ _ _ Hm), Ho, andb_false_r. Qed.

(** A mini page after an insertion has a record, and can be moved when the record is dirty. *)
Definition filled (q : page) : Prop :=
  p_entries q ≠ [] ∧ (is_dirty op = true → omap (copied true) (p_recs q) ≠ []).

Lemma insert_filled q q' :
  ordered (p_entries q) → p_entries q' = upsert key op value (p_entries q) → filled q'.
Proof.
  intros Ho He. pose proof (find_upsert_same key op value _ Ho) as Hf. rewrite <- He in Hf.
  assert (∃ e, find_entry key (p_entries q') = Some e ∧ e_op e = op) as (e & Hf' & Hop).
  { rewrite Hf. eexists. split; [done|]. by destruct (find_entry key (p_entries q)). }
  apply find_entry_elem in Hf' as [Hin _]. split; [intros Hn; rewrite Hn in Hin; by apply not_elem_of_nil in Hin|].
  intros Hd. apply list_elem_of_fmap in Hin as (r & -> & Hr). apply (copied_some true _ r Hr). unfold copied.
  rewrite Hop. by destruct op.
Qed.

(** The records of a mini page after an insertion. *)
Lemma overlay_insert ms es k :
  ordered ms → clean_ok ms es →
  overlay (apply_op false key op value ms) es k = view_insert (overlay ms es) key new_value k.
Proof.
  intros Ho Hc. unfold view_insert. case_bool_decide as Hk.
  - subst k. unfold overlay. pose proof (visible_apply_same false key op value ms Ho) as Hv.
    unfold apply_op in *. rewrite andb_false_r in *. destruct (find_entry key ms) as [e|] eqn:Hf;
      rewrite find_upsert_same, Hf in * by done; cbn [e_op overwrite] in *.
    + destruct (is_dirty op) eqn:Hd; [done|]. by destruct (Hc Hd).
    + destruct (is_dirty op) eqn:Hd; [done|]. by destruct (Hc Hd).
  - unfold overlay. by rewrite find_apply_other.
Qed.

Lemma mini_insert_done n q off es low high n' :
  mini_inv n q off es low high → next_level_is_null off = false → in_bounds low high key → clean_ok (p_entries q) es →
  insert_done n q key value op n' →
  ∃ q', mini_inv n' q' off es low high ∧ filled q' ∧
    ∀ k, overlay (p_entries q') es k = view_insert (overlay (p_entries q) es) key new_value k.
Proof.
  intros Hm Ho Hb Hc (q' & HR' & Hf' & He' & Hh & _). exists q'. pose proof Hh as (_ & Hn & _ & _ & Hs & _).
  rewrite (mini_not_base _ _ _ _ _ _ Hm Ho) in He'. pose proof (re_order _ _ (mi_repr _ _ _ _ _ _ _ _ _ Hm)) as Hord.
  destruct Hm as [HR Hf Hmode Hnext Hsize Hbnd Hsh Hflag Hcl].
  assert (apply_op false key op value (p_entries q) = upsert key op value (p_entries q)) as Hup.
  { unfold apply_op. rewrite andb_false_r. by destruct (find_entry _ _). }
  split; [|split; [by eapply insert_filled; [|by rewrite He', Hup]|intros k; rewrite He'; by apply overlay_insert]].
  split; try done.
  - by rewrite Hf'.
  - by rewrite (same_header_mode _ _ Hh).
  - by rewrite Hn.
  - by rewrite Hs.
  - rewrite He', Hup. by apply (upsert_keys (in_bounds low high)).
  - unfold within. rewrite He', Hup. by apply (upsert_recs (limits cfg)).
  - by rewrite (same_header_flag _ _ Hh).
  - intros k e Hfe Hd. rewrite He' in Hfe. destruct (decide (k = key)) as [->|Hne].
    + rewrite Hup, find_upsert_same in Hfe by done. injection Hfe as <-.
      destruct (find_entry key (p_entries q)) as [x|] eqn:Hx; cbn [e_op overwrite] in Hd; destruct (Hc Hd) as [Hc1 Hc2];
        [congruence|done].
    + rewrite find_apply_other in Hfe by done. by eapply Hcl.
Qed.

Lemma clean_cache ms es : clean_ok ms es → op = OpCache → find_entry key ms = None.
Proof. intros Hc Hop. destruct Hc as [Hc _]; [by rewrite Hop|done]. Qed.

Lemma mini_insert n q off es low high :
  mini_inv n q off es low high → next_level_is_null off = false → in_bounds low high key → clean_ok (p_entries q) es →
  ∃ b n', LeafNode.insert n key value op 0 = Ret (b, n') ∧
    if b then ∃ q', mini_inv n' q' off es low high ∧ filled q' ∧
      ∀ k, overlay (p_entries q') es k = view_insert (overlay (p_entries q) es) key new_value k
    else n' = n.
Proof.
  intros Hm Ho Hb Hc. destruct (insert_repr n q (mi_repr _ _ _ _ _ _ _ _ _ Hm) key value op 0) as (b & n' & Hrun & Hr).
  - by rewrite (mi_fences _ _ _ _ _ _ _ _ _ Hm).
  - done.
  - lia.
  - by eapply clean_cache.
  - exists b, n'. split; [done|]. destruct b; [|by destruct Hr]. by eapply mini_insert_done.
Qed.

(** A mini page with room for the record. *)
Lemma mini_insert_room n q off es low high :
  mini_inv n q off es low high → next_level_is_null off = false → in_bounds low high key → clean_ok (p_entries q) es →
  zlen key + zlen value + KV_META_SIZE <= remaining_size (meta n) →
  ∃ n' q', LeafNode.insert n key value op 0 = Ret (true, n') ∧ mini_inv n' q' off es low high ∧ filled q' ∧
    ∀ k, overlay (p_entries q') es k = view_insert (overlay (p_entries q) es) key new_value k.
Proof.
  intros Hm Ho Hb Hc Hroom. pose proof (mi_repr _ _ _ _ _ _ _ _ _ Hm) as HR. pose proof (mi_fences _ _ _ _ _ _ _ _ _ Hm) as Hf.
  destruct (insert_fits n q key value op 0) as (n' & Hrun & Hdone); [done|by rewrite Hf|done|lia|by eapply clean_cache| |].
  - right. unfold kv_size, fence_bytes. rewrite (mini_prefix n q HR Hf), Hf. lia.
  - destruct (mini_insert_done n q off es low high n') as (q' & Hq); try done. by exists n', q'.
Qed.

(** ** New pages *)
Lemma mini_class s : s ∈ front ++ [mini] → s ∈ classes ∧ LEAF_HEADER <= s <= MAX_LEAF_PAGE_SIZE.
Proof.
  intros Hs. assert (s ∈ classes) as Hin.
  { rewrite elem_of_app in *. destruct Hs as [Hs| ->%list_elem_of_singleton]; [by left|right; by left]. }
  split; [done|]. destruct Hsetup as [_ Hasc Hh Hl _ _ _]. rewrite Forall_forall in Hh. split; [by apply Hh|].
  rewrite (cons_middle mini front [P]), (assoc_L (++)) in Hasc.
  pose proof (StronglySorted_app_1_elem_of _ _ _ s P Hasc Hs ltac:(by apply list_elem_of_singleton)). lia.
Qed.

Lemma new_mini_page_spec X (e : env) size next :
  SInv (store e) → size ∈ front ++ [mini] →
  wp X (new_mini_page mem size next false) (λ r e', ∃ s', e' = set_store e s' ∧
    match r with
    | inr ptr => buf_owner (circular_buffer (store e)) ptr = None ∧ step_at ptr (store e) s' ∧
        ∃ m n, owns s' ptr New n ∧ Repr n (mkPage None []) ∧
          fresh_header m size next INVALID_SNAPSHOT_VERSION false false n ∧ remaining_size (meta n) = size - LEAF_HEADER
    | inl err => err = CircularBufferFull ∧ ∀ ptr, step_at ptr (store e) s'
    end) e.
Proof.
  intros HI Hs. destruct (mini_class size Hs) as [Hin Hsz]. unfold new_mini_page. apply wp_bind.
  destruct (alloc_page_spec mem cfg front mini (store e) size HI Hin) as (r & s1 & Hrun & Hr).
  eapply wp_on_store; [exact Hrun|]. destruct r as [err|ptr]; [by exists s1|]. destruct Hr as (Hfree & Hst & Hown).
  apply wp_bind. eapply wp_cache_page; [exact Hown|].
  destruct (su_block _ _ _ _ Hsetup ptr size) as [Hd Hb]; [lia|].
  destruct (initialize_mini_repr (fresh_block mem ptr size) size next INVALID_SNAPSHOT_VERSION false Hsz Hd Hb)
    as (n & Hinit & HR & Hh & Hrem).
  apply wp_bind. eapply wp_lift; [exact Hinit|]. unfold put_cache_page. wp_step. wp_step.
  eexists. split; [done|]. split; [done|]. split; [eapply step_at_trans; [exact Hst|]; apply store_cache_step, Hst|].
  exists (fresh_block mem ptr size), n. split; [by eapply store_cache_owns|done].
Qed.

(** A new mini page over a base page. *)
Lemma fresh_mini_inv m size off es low high n :
  size ∈ front ++ [mini] → Repr n (mkPage None []) → fresh_header m size off INVALID_SNAPSHOT_VERSION false false n →
  mini_inv n (mkPage None []) off es low high.
Proof.
  intros Hs HR (H1 & H2 & _ & _ & _ & H3 & H4 & _). split; [done|done|done|done|by rewrite H1|by constructor|by constructor|done..].
Qed.

Lemma insert_cached_spec X (e : env) ptr o n mf b n' (Q : TreeError + bool → env → Prop) :
  owns (store e) ptr o n → LeafNode.insert n key value op mf = Ret (b, n') →
  Q (inr b) (set_store e (store_cache_page (store e) ptr n')) → wp X (insert_cached ptr key value op mf) Q e.
Proof.
  intros Ho Hi HQ. unfold insert_cached. apply wp_bind. eapply wp_cache_page; [exact Ho|].
  apply wp_bind. eapply wp_lift; [exact Hi|]. unfold put_cache_page. wp_step. by wp_step.
Qed.

Lemma publish_page_spec X (e : env) ptr n (Q : TreeError + unit → env → Prop) :
  SInv (store e) → owns (store e) ptr New n →
  (∀ s', step_at ptr (store e) s' → owns s' ptr Live n → Q (inr tt) (set_store e s')) → wp X (publish_page ptr) Q e.
Proof.
  intros HI Ho HQ. destruct (publish_spec cfg front mini (store e) ptr n HI Ho) as (s' & Hp & Hst & Hl).
  unfold publish_page. eapply wp_on_store'; [exact Hp|]. by apply HQ.
Qed.

(** Errors leave the leaf as it was. *)
Definition insert_post (e : env) (lf : leaf) (errs : list TreeError) (r : TreeError + unit) (e' : env) : Prop :=
  match r with
  | inr _ => entry_at e' (leaf_update lf key new_value) ∧ keeps e e' ∧ (is_dirty op = true → movable (store e') (location e'))
  | inl err => err ∈ errs ∧ entry_at e' lf ∧ keeps e e'
  end.

Lemma entry_with_update (e : env) lf n p x : entry_with e lf n p → entry_with e (leaf_update lf key x) n p.
Proof. by intros [HI Ho Hb]. Qed.

Lemma entry_with_location (e : env) lf n p l : entry_with e lf n p → entry_with (set_location e l) lf n p.
Proof. by intros [HI Ho Hb]. Qed.

Lemma insert_base_spec X e lf :
  entry_at e lf → location e = Base (lf_offset lf) → in_bounds (lf_low lf) (lf_high lf) key →
  (is_dirty op = false → new_value = lf_view lf key) →
  wp X (insert_base mem classes (lf_offset lf) key value op false) (insert_post e lf [CircularBufferFull]) e.
Proof.
  intros (bn & p & He & Hp) Hl Hk Hc. rewrite Hl in Hp. destruct Hp as [_ Hv]. pose proof He as [HI [Ho1 Ho2] Hb].
  unfold insert_base.
  destruct (chain_size_hint_spec front mini P (zlen key) (zlen value) record_fits) as (s & Hhint & Hs & Hfit).
  apply wp_bind. eapply wp_lift; [exact Hhint|]. apply wp_bind. eapply wp_mono; [by apply new_mini_page_spec|].
  intros r e1 (s1 & -> & Hr). destruct r as [err|ptr].
  { destruct Hr as [-> Hst]. split; [by left|]. split; [|split; [by apply (apart_all mem cfg front mini)|done]].
    exists bn, p. split; [by apply (entry_with_step _ _ _ _ 0)|]. cbn [location set_store]. by rewrite Hl. }
  destruct Hr as (Hfree & Hst1 & m & n & Hown & HR & Hh & Hrem). unfold create_cache_page_loc. wp_step. apply wp_bind.
  pose proof (fresh_mini_inv m s (lf_offset lf) (p_entries p) (lf_low lf) (lf_high lf) n Hs HR Hh) as Hmi.
  destruct (mini_insert_room n _ _ _ _ _ Hmi Ho2 Hk) as (n' & q' & Hins & Hmi' & [Hne Hmv] & Hv'); [|lia|].
  { intros Hd. by rewrite <- Hv, <- Hc. }
  eapply insert_cached_spec; [exact Hown|exact Hins|]. apply wp_bind. eapply wp_lift; [done|].
  assert (step_at ptr (store e) (store_cache_page s1 ptr n')) as Hst2.
  { eapply step_at_trans; [exact Hst1|]. apply store_cache_step, Hst1. }
  eapply publish_page_spec; [apply Hst2|by eapply store_cache_owns|]. intros s3 Hst3 Hlive. cbn [set_store set_location store] in *.
  pose proof (step_at_trans _ _ _ _ _ _ _ Hst2 Hst3) as Hst. split; [|split; [split; [|done]|]].
  - exists bn, p. split; [by eapply (entry_with_location (set_store e s3)), entry_with_update, entry_with_step|].
    exists n', q'. split; [done|]. split; [done|]. split; [done|]. intros k. rewrite Hv'. cbn. unfold view_insert. case_bool_decide; [done|].
    by rewrite Hv.
  - by apply (apart_new mem cfg front mini _ _ ptr); [rewrite Hl|..].
  - intros Hd. exists n', q'. split; [done|]. split; [apply Hmi'|by apply Hmv].
Qed.

(** ** The root leaf *)
Lemma base_inv_split_flag n p : base_inv n p [] [] → p_entries p ≠ [] → base_inv (leaf_set_split_flag n) p [] [].
Proof.
  intros [(HR & Hb & Hs & Hd & Hf) H2 H3 H4 H5 Hroom] Hne. split; [|done..]. split_and!; try done; [by apply split_flag_repr|].
  destruct (set_split_flag_spec (meta n) (lo_word _ _ (re_layout _ _ HR))) as (_ & _ & _ & _ & _ & H6).
  unfold is_base_page in *. cbn -[is_cache_only_leaf]. by rewrite H6.
Qed.

Lemma base_inv_insert n p low high n' :
  base_inv n p low high → is_dirty op = true → insert_done n p key value op n' →
  ∃ p', base_inv n' p' low high ∧
    ∀ k, visible (find_entry k (p_entries p')) = view_insert (λ k, visible (find_entry k (p_entries p))) key new_value k.
Proof.
  intros [(HR & Hb & Hs & Hd & Hf) Hsh Hl Hh Hflag Hroom] Hdop (p' & HR' & Hf' & He' & Hhd & _). exists p'. split.
  - split; [|..]; try done.
    + split_and!; [done|by rewrite (same_header_base _ _ Hhd)|by destruct Hhd as (_ & _ & _ & _ & -> & _)| |by rewrite Hf'].
      rewrite He'. unfold apply_op. destruct (find_entry _ _); [|destruct (_ && _); [done|]]; by apply upsert_dirty.
    + unfold within. rewrite He'. by apply (apply_op_recs (limits cfg)).
    + rewrite (same_header_flag _ _ Hhd). intros Hfl. destruct (Hflag Hfl) as (? & ? & Hne). split; [done|]. split; [done|].
      rewrite He'. by apply apply_op_nonempty.
    + apply (roomy_kept _ p); [done| |done]. rewrite He'. intros H0. destruct (decide (p_entries p = [])) as [|Hne]; [done|]. by destruct (apply_op_nonempty (is_base_page n) key op value _ Hne).
  - intros k. rewrite He'. unfold view_insert. case_bool_decide as Hk.
    + subst k. apply visible_apply_same, (re_order _ _ HR).
    + by rewrite find_apply_other.
Qed.

(** An empty page without fence keys is as large as a page can be. *)
Lemma empty_root_space n p :
  base_inv n p [] [] → p_entries p = [] → remaining_size (meta n) = P - LEAF_HEADER - 2 * KV_META_SIZE.
Proof.
  intros [(HR & _ & Hs & _ & l & h & Hf & Hl & Hh) _ _ _ _ _] He. destruct (repr_page n p HR) as (_ & Hd & _).
  pose proof (lo_low _ _ (re_layout _ _ HR)) as Hlow. destruct (fences_ok n p HR l h Hf) as [Hlok Hhok].
  destruct l as [|? ?]; [|by destruct Hlok as (_ & ? & _)]. destruct h as [|? ?]; [|by destruct Hhok as (_ & ? & _)].
  unfold page_slots in Hlow. unfold p_entries in He. apply map_eq_nil in He. rewrite Hf, He in Hlow. cbn in Hlow.
  change (zlen [_; _]) with 2 in Hlow. change (not_infinite _) with false in Hlow. cbn iota in Hlow. rewrite Hd, Hs in Hlow.
  unfold KV_META_SIZE in *. lia.
Qed.

Lemma refused_nonempty n p : base_inv n p [] [] → no_room n key value mfl → p_entries p ≠ [].
Proof.
  intros Hb Hno He. pose proof (empty_root_space n p Hb He) as Hrem.
  destruct Hb as [(HR & _ & Hs & _ & l & h & Hf & Hl & Hh) _ _ _ _ _]. destruct Hlim as (_ & Hk1 & Hk2).
  pose proof (su_margin _ _ _ _ Hsetup). pose proof (su_record _ _ _ _ Hsetup). pose proof (su_fence _ _ _ _ Hsetup).
  assert (prefix_len n = 0) as Hpl by (rewrite (re_prefix _ _ HR), Hf; cbn; by rewrite Hl, Hh).
  pose proof (zlen_nonneg key). pose proof (zlen_nonneg value). unfold kv_size, LEAF_HEADER, KV_META_SIZE in *.
  destruct Hno as [Hno|Hno]; unfold kv_size in Hno; rewrite Hpl in Hno; [lia|].
  rewrite (full_spec n p HR) in Hno by (done || unfold KV_META_SIZE; lia). injection Hno as Hno.
  unfold fence_bytes in Hno. rewrite Hf, Hl, Hh in Hno. change (zlen []) with 0 in Hno. unfold KV_META_SIZE in *.
  apply orb_true_iff in Hno as [Hno|[_ Hno]%andb_true_iff]; apply Z.ltb_lt in Hno; lia.
Qed.

Lemma insert_root_base_spec X e lf :
  entry_at e lf → location e = Base (lf_offset lf) → in_bounds (lf_low lf) (lf_high lf) key → is_dirty op = true →
  lf_low lf = [] → lf_high lf = [] →
  wp X (insert_root_base mem cfg key value op) (insert_post e lf [NeedRestart]) e.
Proof.
  intros (bn & p & He & Hp) Hl Hk Hd Hlow Hhigh. unfold insert_root_base. apply wp_bind. eapply load_base_mut_spec; [done|eapply base_offset_spec; [apply He|done]|].
  rewrite Hl in Hp. destruct Hp as [_ Hv]. pose proof He as [HI Ho (Hb & _)]. pose proof (bi_ok _ _ _ _ _ Hb) as Hbok.
  destruct (insert_repr bn p (proj1 Hbok) key value op mfl) as (b & n' & Hrun & Hr).
  - by apply (base_ok_range _ _ _ _ _ _ Hbok).
  - done.
  - apply Hsetup.
  - by intros ->.
  - apply wp_bind. eapply wp_lift; [exact Hrun|]. cbn [fst snd]. destruct b.
    + unfold put_base_page. wp_step. rewrite set_tmp_twice. destruct (base_inv_insert bn p _ _ n' Hb Hd Hr) as (p' & Hb' & Hv').
      split; [|split; [apply keeps_tmp|by cbn [set_tmp location]; rewrite Hl]]. exists n', p'. split; [by eapply (entry_with_put _ _ _ _ e lf bn p)|].
      cbn [set_tmp location store]. rewrite Hl. split; [done|]. intros k. rewrite Hv'. cbn. unfold view_insert.
      case_bool_decide; [done|apply Hv].
    + destruct Hr as [-> Hno]. unfold put_base_page. wp_step. wp_step. rewrite set_tmp_twice. split; [by left|]. split; [|apply keeps_tmp].
      exists (leaf_set_split_flag bn), p. split.
      { eapply (entry_with_put _ _ _ _ e lf bn p); [done|done|]. rewrite Hlow, Hhigh in *. apply base_inv_split_flag; [done|]. eapply refused_nonempty; [done|apply Hno]. }
      cbn [set_tmp location store]. by rewrite Hl.
Qed.

(** ** A larger mini page *)
Lemma copied_mini_inv n q off es low high m size version n' q' :
  mini_inv n q off es low high → Repr n' q' → p_fences q' = None → p_entries q' = omap (copied true) (p_recs q) →
  fresh_header m size (next_level n) version false (is_cache_only_leaf (meta n)) n' → size ∈ front ++ [mini] →
  mini_inv n' q' off es low high ∧
  (∀ k, find_entry k (p_entries q) = None → find_entry k (p_entries q') = None) ∧
  (∀ k, overlay (p_entries q') es k = overlay (p_entries q) es k).
Proof.
  intros [HR Hf Hmode Hnext Hsize Hbnd Hsh Hflag Hcl] HR' Hf' He' (H1 & H2 & _ & _ & _ & H3 & H4 & _) Hs.
  pose proof (λ k, copied_find true (p_recs q) k (re_order _ _ HR)) as Hfind. fold (p_entries q) in Hfind. rewrite <- He' in Hfind.
  assert (p_entries q' ⊆ p_entries q) as Hsub.
  { rewrite He'. intros e He. eapply elem_of_sublist; [exact He|apply copied_sublist]. }
  rewrite !Forall_forall in Hbnd. unfold within in Hsh. rewrite Forall_forall in Hsh. split.
  - split; try done; try (apply Forall_forall; auto); try by rewrite ?H1, ?H2, ?H3.
    intros k e Hk Hd. specialize (Hfind k). destruct (find_entry k (p_entries q)) as [x|] eqn:Hx; [|congruence].
    destruct Hfind as [Hq|[Hq _]]; rewrite Hq in Hk; [|done]. injection Hk as <-. by eapply Hcl.
  - split; intros k; [intros Hn; specialize (Hfind k); by rewrite Hn in Hfind|]. unfold overlay. specialize (Hfind k).
    destruct (find_entry k (p_entries q)) as [x|]; [|by rewrite Hfind]. destruct Hfind as [->|[-> ->]]; done.
Qed.

(** The flag of a changed snapshot version is not part of the contents. *)
Lemma changed_flag_same (b : bool) n q off es low high :
  mini_inv n q off es low high → mini_inv (if b then set_snapshot_version_changed_flag n else n) q off es low high.
Proof. destruct b; [|done]. intros []. split; try done. by apply set_snapshot_repr. Qed.

(** ** The handle of a page that is retired *)
Lemma begin_wp X (e : env) ptr n (Q : TreeError + unit → env → Prop) :
  SInv (store e) → owns (store e) ptr Live n →
  (∀ s', step_at ptr (store e) s' → owns s' ptr Live n → Q (inl NeedRestart) (set_store e s')) →
  (∀ s', step_at ptr (store e) s' → owns s' ptr Held n → Q (inr tt) (set_store e s')) →
  wp X (on_store (λ s, begin_dealloc_mini_page s ptr)) Q e.
Proof.
  intros HI Ho Hf Hs. destruct (begin_dealloc_spec cfg front mini (store e) ptr n HI Ho) as (r & s' & Hrun & Hst & Hr).
  eapply wp_on_store; [exact Hrun|]. destruct r as [err|[]]; [destruct Hr as [-> Hr]|]; auto.
Qed.

Lemma release_wp X (e : env) ptr n (Q : TreeError + unit → env → Prop) :
  SInv (store e) → owns (store e) ptr Held n →
  (∀ s', step_at ptr (store e) s' → owns s' ptr Live n → Q (inr tt) (set_store e s')) →
  wp X (on_store' (λ s, release s ptr)) Q e.
Proof.
  intros HI Ho HQ. destruct (release_spec cfg front mini (store e) ptr n HI Ho) as (s' & Hrun & Hst & Hr).
  eapply wp_on_store'; [exact Hrun|]. auto.
Qed.

Lemma finish_wp X (e : env) ptr n (Q : TreeError + unit → env → Prop) :
  SInv (store e) → owns (store e) ptr Held n →
  (∀ s', step_at ptr (store e) s' → buf_owner (circular_buffer s') ptr ≠ Some Live → Q (inr tt) (set_store e s')) →
  wp X (on_store' (λ s, finish_dealloc_mini_page s ptr)) Q e.
Proof.
  intros HI Ho HQ. destruct (finish_dealloc_spec cfg front mini (store e) ptr n HI Ho) as (s' & Hrun & Hst & Hgone).
  eapply wp_on_store'; [exact Hrun|]. auto.
Qed.

(** The mini page at [ptr] of a leaf. *)
Definition mini_at (s : storage) (ptr : Z) (o : owner) (n : LeafNode) (q : page) (es : list entry) (lf : leaf) : Prop :=
  owns s ptr o n ∧ mini_inv n q (lf_offset lf) es (lf_low lf) (lf_high lf) ∧ p_entries q ≠ [] ∧
  ∀ k, lf_view lf k = overlay (p_entries q) es k.

Lemma mini_at_placed s ptr n q es lf : mini_at s ptr Live n q es lf → placed s es lf (Mini ptr).
Proof. intros (H1 & H2 & H3 & H4). by exists n, q. Qed.

(** The records go to the new page, where the new record has room. *)
Lemma upgrade_copy n q off es low high m dst size :
  mini_inv n q off es low high → next_level_is_null off = false → size ∈ front ++ [mini] →
  node_size (meta n) + key_value_physical_size key value < size →
  Repr dst (mkPage None []) → fresh_header m size (next_level n) INVALID_SNAPSHOT_VERSION false false dst →
  ∃ dst1 q1, copy_initialize_to n dst size true INVALID_SNAPSHOT_VERSION = Ret dst1 ∧
    mini_inv dst1 q1 off es low high ∧ (∀ k, overlay (p_entries q1) es k = overlay (p_entries q) es k) ∧
    (∀ k, find_entry k (p_entries q) = None → find_entry k (p_entries q1) = None) ∧
    zlen key + zlen value + KV_META_SIZE <= remaining_size (meta dst1).
Proof.
  intros Hm Ho Hs Hsize HRd (Hh & _). destruct (mini_class size Hs) as [_ Hsz].
  destruct (repr_page dst _ HRd) as (_ & Hd & Hb). rewrite Hh in Hd.
  destruct (copy_repr n dst q (mi_repr _ _ _ _ _ _ _ _ _ Hm) (mi_fences _ _ _ _ _ _ _ _ _ Hm) (mini_not_base _ _ _ _ _ _ Hm Ho)
    size INVALID_SNAPSHOT_VERSION true) as (dst1 & q1 & Hcopy & HR1 & Hf1 & He1 & Hh1 & Hrem); [|done|done|].
  { unfold key_value_physical_size in Hsize. pose proof (zlen_nonneg key). pose proof (zlen_nonneg value).
    unfold KV_META_SIZE in *. lia. }
  destruct (copied_mini_inv n q off es low high dst size INVALID_SNAPSHOT_VERSION dst1 q1 Hm HR1 Hf1 He1 Hh1 Hs) as (Hm1 & Hn1 & Hv1).
  exists dst1, q1. split_and!; try done. unfold key_value_physical_size in Hsize. lia.
Qed.

(** The old page while the new one is filled. *)
Lemma insert_upgrade_spec X e lf ptr n q bn p size :
  entry_with e lf bn p → location e = Mini ptr → mini_at (store e) ptr Live n q (p_entries p) lf →
  in_bounds (lf_low lf) (lf_high lf) key → clean_ok (p_entries q) (p_entries p) →
  size ∈ front ++ [mini] → node_size (meta n) + key_value_physical_size key value < size →
  wp X (insert_upgrade mem ptr size key value op false) (insert_post e lf [NeedRestart; CircularBufferFull]) e.
Proof.
  intros He Hl (Hown & Hm & Hne0 & Hv) Hk Hc Hs Hsize. unfold insert_upgrade. apply wp_bind.
  assert (∀ s', step_at ptr (store e) s' → owns s' ptr Live n → entry_at (set_store e s') lf ∧ keeps e (set_store e s')) as Herr.
  { intros s' Hst Ho. split; [exists bn, p; split; [by eapply entry_with_step|]|].
    - cbn [location set_store store]. rewrite Hl. by exists n, q.
    - split; [|done]. by apply (apart_in_place mem cfg front mini _ _ ptr); [rewrite Hl|..]. }
  eapply begin_wp; [apply He|exact Hown|intros s1 Hst1 Ho1; split; [by left|by apply Herr]|].
  intros s1 Hst1 Hheld. apply wp_bind. eapply wp_cache_page; [exact Hheld|]. apply wp_bind. apply wp_on_error.
  eapply wp_mono; [apply new_mini_page_spec; [apply Hst1|done]|].
  intros r e2 (s2 & -> & Hr). cbn [set_store store] in *. destruct r as [err|new].
  { destruct Hr as [-> Hst2]. pose proof (Hst2 (ptr + 1)) as Hst2'.
    assert (owns s2 ptr Held n) as Hheld2 by (apply (sa_owns _ _ _ _ _ _ Hst2'); [lia|done]).
    eapply release_wp; [apply Hst2'|exact Hheld2|]. intros s3 Hst3 Hlive. split; [right; by left|]. apply Herr; [|done].
    eapply step_at_trans; [exact Hst1|]. eapply step_at_trans; [apply Hst2|exact Hst3]. }
  destruct Hr as (Hfree & Hst2 & m & dst & Hdst & HRd & Hhd & _).
  assert (new ≠ ptr) as Hne by (intros ->; destruct Hheld; congruence).
  destruct (upgrade_copy n q _ _ _ _ m dst size Hm (proj2 (en_offset _ _ _ _ _ _ _ _ He)) Hs Hsize HRd Hhd)
    as (dst1 & q1 & Hcopy & Hm1 & Hv1 & Hn1 & Hroom).
  apply wp_bind. eapply wp_cache_page; [exact Hdst|]. apply wp_bind. eapply wp_lift; [exact Hcopy|].
  apply (changed_flag_same (is_snapshot_version_changed n)) in Hm1.
  assert (zlen key + zlen value + KV_META_SIZE <= remaining_size
    (meta (if is_snapshot_version_changed n then set_snapshot_version_changed_flag dst1 else dst1))) as Hroom2.
  { by destruct (is_snapshot_version_changed n). }
  set (dst2 := if is_snapshot_version_changed n then _ else dst1) in *. unfold put_cache_page, create_cache_page_loc. wp_step. wp_step.
  destruct (mini_insert_room dst2 q1 _ _ _ _ Hm1 (proj2 (en_offset _ _ _ _ _ _ _ _ He)) Hk) as (dst3 & q3 & Hins & Hm3 & [Hne3 Hmv3] & Hv3);
    [intros Hd; destruct (Hc Hd); auto|done|].
  apply wp_bind. eapply insert_cached_spec; [by eapply store_cache_owns|exact Hins|]. apply wp_bind.
  cbn [set_store set_location store].
  assert (step_at new s1 (store_cache_page (store_cache_page s2 new dst2) new dst3)) as Hst3.
  { eapply step_at_trans; [exact Hst2|]. eapply step_at_trans; apply store_cache_step; [apply Hst2|]. apply store_cache_step, Hst2. }
  eapply publish_page_spec; [apply Hst3|by eapply store_cache_owns, store_cache_owns|]. intros s4 Hst4 Hlive.
  cbn [set_store set_location store location tmp_buffer parent_node] in *.
  pose proof (step_at_trans _ _ _ _ _ _ _ Hst3 Hst4) as Hst. apply wp_bind.
  assert (owns s4 ptr Held n) as Hheld4 by by apply (sa_owns _ _ _ _ _ _ Hst).
  eapply finish_wp; [apply Hst|exact Hheld4|]. intros s5 Hst5 Hgone. eapply wp_lift; [done|].
  cbn [set_store set_location store location tmp_buffer parent_node] in *. split; [|split; [split; [|done]|]].
  - exists bn, p. split.
    + apply (entry_with_location (set_store e s5)), entry_with_update. apply (entry_with_step _ _ _ _ ptr (set_store e s4)); [|done].
      apply (entry_with_step _ _ _ _ new (set_store e s1)); [|done]. by apply (entry_with_step _ _ _ _ ptr).
    + exists dst3, q3. split; [by apply (sa_owns _ _ _ _ _ _ Hst5)|]. split; [done|]. split; [done|]. intros k. rewrite Hv3. cbn.
      unfold view_insert. case_bool_decide; [done|]. by rewrite Hv1.
  - by apply (apart_replace mem cfg front mini _ _ ptr new s1 s4 n); [rewrite Hl|..].
  - intros Hd. exists dst3, q3. split; [by apply (sa_owns _ _ _ _ _ _ Hst5)|]. split; [apply Hm3|by apply Hmv3].
Qed.
End insert.
