(* ===== verification/EntryMove.v ===== *)
(** Moving a cached page to the tail of the buffer, the split flag of a leaf and the number of its last
    log record (src/mini_page_op.rs, src/storage.rs): what a leaf holds does not change. *)
From stdpp Require Import base numbers list sorting option gmap.
From Stdlib Require Import ZArith Lia.
From S2P Require Import Prelude Bits NodeMeta LeafMeta LeafNode LeafOps LeafLayout Entries LeafRepr LeafSearch LeafInsert LeafInit LeafMerge LeafRebuild LeafSplit LeafTheorems SizeClasses LeafConvert SplitKey SplitKeyProofs Config CircularBuffer StateError Storage LeafEntry MergeSplit EntryInv EntryLeaf EntryInsert.

(** Two readings of a page without fences have equally many records. *)
Lemma mini_count n p p' : Repr n p → Repr n p' → p_fences p = None → length (p_recs p') = length (p_recs p) ∧ p_fences p' = None.
Proof.
  intros HR HR' Hf. pose proof (re_flag _ _ HR) as H1. rewrite (re_flag _ _ HR'), Hf in H1.
  assert (p_fences p' = None) as Hf'.
  { destruct (p_fences p') as [f|]; [|done]. by destruct f. }
  split; [|done]. pose proof (repr_count n p HR) as Hc. rewrite (repr_count n p' HR'), Hf, Hf' in Hc. unfold zlen in Hc. lia.
Qed.

Section move.
Context {B T F : Type} {RB : RecordBound} `{HPB : PageBuffer B} `{HBL : !PageBufferLaws B} `{HPM : PageMap T} `{HML : !PageMapLaws T}.
Context (mem : memory) (cfg : @Config F) (front : list Z) (mini : Z).
Abbreviation P := (leaf_page_size cfg).
Abbreviation classes := (front ++ [mini; leaf_page_size cfg]).
Abbreviation storage := (LeafStorage B T).
Abbreviation env := (@env B T).
Abbreviation SInv := (SInv cfg front mini).
Abbreviation frame := (frame mem).
Abbreviation step_at := (step_at cfg front mini).
Abbreviation mini_inv := (mini_inv cfg front mini).
Abbreviation full_inv := (full_inv cfg).
Abbreviation entry_at := (entry_at mem cfg front mini).
Abbreviation entry_with := (entry_with mem cfg front mini).
Abbreviation placed := (placed cfg front mini).
Abbreviation keeps := (keeps mem).

Hypothesis Hsetup : Setup mem cfg front mini.

(** The snapshot version is not part of the contents. *)
Lemma snapshot_mini n q off es low high v : mini_inv n q off es low high → mini_inv (set_snapshot n v) q off es low high.
Proof. intros []. split; try done. by apply set_snapshot_repr. Qed.

(** The copy of a mini page for its new place. *)
Lemma copy_mini n q off es low high q0 dst version :
  mini_inv n q off es low high → next_level_is_null off = false → Repr n q0 → omap (copied true) (p_recs q0) ≠ [] →
  zlen (data dst) = node_size (meta n) - LEAF_HEADER → bytes_ok (data dst) →
  ∃ dst1 q1, copy_initialize_to n dst (node_size (meta n)) true version = Ret dst1 ∧ mini_inv dst1 q1 off es low high ∧
    p_entries q1 ≠ [] ∧ ∀ k, overlay (p_entries q1) es k = overlay (p_entries q) es k.
Proof.
  intros Hm Ho HR0 Hne Hd Hb. pose proof (mi_size _ _ _ _ _ _ _ _ _ Hm) as Hs.
  destruct (mini_class mem cfg front mini Hsetup _ Hs) as [_ Hsz].
  pose proof (mi_repr _ _ _ _ _ _ _ _ _ Hm) as HR. pose proof (mi_fences _ _ _ _ _ _ _ _ _ Hm) as Hf.
  pose proof (mini_not_base _ _ _ _ _ _ _ _ _ Hm Ho) as Hnb. destruct (mini_count n q q0 HR HR0 Hf) as [_ Hf0].
  destruct (copy_repr n dst q HR Hf Hnb (node_size (meta n)) version true) as (dst1 & q1 & Hcopy & HR1 & Hf1 & He1 & Hh1 & _); [lia|done|done|].
  destruct (copy_repr n dst q0 HR0 Hf0 Hnb (node_size (meta n)) version true) as (dst2 & q2 & Hcopy2 & HR2 & Hf2 & He2 & _); [lia|done|done|].
  rewrite Hcopy in Hcopy2. injection Hcopy2 as <-.
  destruct (copied_mini_inv cfg front mini n q off es low high dst _ version dst1 q1 Hm HR1 Hf1 He1 Hh1 Hs) as (Hm1 & _ & Hv1).
  exists dst1, q1. split_and!; try done. destruct (mini_count dst1 q1 q2 HR1 HR2 Hf1) as [Hc _].
  intros Hn. apply (f_equal length) in Hn. unfold p_entries in Hn. rewrite length_map, <- Hc in Hn.
  apply Hne. rewrite <- He2. unfold p_entries. by destruct (p_recs q2).
Qed.

Lemma mini_nonempty_count n q off es low high : mini_inv n q off es low high → p_entries q ≠ [] → (0 <? meta_count_with_fence (meta n)) = true.
Proof.
  intros [HR Hf _ _ _ _ _ _ _] Hne. pose proof (repr_count n q HR) as Hc. rewrite Hf in Hc. cbn in Hc. unfold count in Hc.
  rewrite Hc. apply Z.ltb_lt. unfold p_entries in Hne. destruct (p_recs q); [done|]. unfold zlen. cbn. lia.
Qed.

(** What a page becomes at the tail: a new page [new] that [Q] holds of, and the old one is gone. *)
Definition moved (s : storage) (ptr : Z) (n : LeafNode) (Q : LeafNode → Prop) (r : TreeError + Z) (s' : storage) : Prop :=
  match r with
  | inl _ => step_at ptr s s' ∧ owns s' ptr Live n
  | inr new => buf_owner (circular_buffer s) new = None ∧
      ∃ s1 n', step_at new s s1 ∧ step_at ptr s1 s' ∧ buf_owner (circular_buffer s') ptr ≠ Some Live ∧ owns s' new New n' ∧ Q n'
  end.

Lemma move_mini_spec s ptr n q q0 off es low high :
  SInv s → owns s ptr Held n → mini_inv n q off es low high → next_level_is_null off = false →
  Repr n q0 → omap (copied true) (p_recs q0) ≠ [] →
  ∃ r s', move_mini_page_to_tail mem s ptr (node_size (meta n)) = Ret (r, s') ∧
    moved s ptr n (λ n', ∃ q', mini_inv n' q' off es low high ∧ p_entries q' ≠ [] ∧
      ∀ k, overlay (p_entries q') es k = overlay (p_entries q) es k) r s'.
Proof.
  intros HI Hown Hm Ho HR0 Hne. unfold move_mini_page_to_tail.
  pose proof (mi_size _ _ _ _ _ _ _ _ _ Hm) as Hs. destruct (mini_class mem cfg front mini Hsetup _ Hs) as [Hin Hsz].
  destruct (alloc_page_spec mem cfg front mini s (node_size (meta n)) HI Hin) as (r & s1 & -> & Hr). ret_step.
  destruct r as [err|new].
  { destruct Hr as [_ Hst]. assert (owns s1 ptr Held n) as Ho1 by (apply (sa_owns _ _ _ _ _ _ (Hst (ptr + 1))); [lia|done]).
    destruct (release_spec cfg front mini s1 ptr n (sa_inv _ _ _ _ _ _ (Hst ptr)) Ho1) as (s2 & -> & Hst2 & Hl). ret_step.
    eexists _, _. split; [done|]. split; [by eapply step_at_trans|done]. }
  destruct Hr as (Hfree & Hst & Hnew). assert (new ≠ ptr) as Hne' by (intros ->; destruct Hown; congruence).
  assert (owns s1 ptr Held n) as Ho1 by (by apply (sa_owns _ _ _ _ _ _ Hst)).
  rewrite (owns_load _ _ _ _ Ho1). ret_step. rewrite (owns_load _ _ _ _ Hnew). ret_step.
  destruct (su_block _ _ _ _ Hsetup new (node_size (meta n))) as [Hd Hb]; [lia|].
  destruct (copy_mini n q off es low high q0 _ (get_clean_snapshot_version n) Hm Ho HR0 Hne Hd Hb) as (dst1 & q1 & -> & Hm1 & Hne1 & Hv1). ret_step.
  set (dst3 := if is_snapshot_version_changed n then _ else _).
  assert (mini_inv dst3 q1 off es low high) as Hm3 by (unfold dst3; destruct (is_snapshot_version_changed n); repeat apply snapshot_mini; done).
  assert (step_at new s (store_cache_page s1 new dst3)) as Hst1 by (eapply step_at_trans; [exact Hst|]; apply store_cache_step, Hst).
  assert (owns (store_cache_page s1 new dst3) ptr Held n) as Ho2 by by apply (sa_owns _ _ _ _ _ _ Hst1).
  destruct (dealloc_spec cfg front mini _ ptr n (sa_inv _ _ _ _ _ _ Hst1) Ho2) as (s2 & -> & Hst2 & Hgone). ret_step.
  rewrite assert_true by (by eapply mini_nonempty_count). ret_step. eexists _, _. split; [done|]. split; [done|].
  exists (store_cache_page s1 new dst3), dst3. split_and!; try done; [|by exists q1].
  apply (sa_owns _ _ _ _ _ _ Hst2); [done|]. by eapply store_cache_owns.
Qed.

Lemma move_full_spec s ptr n :
  SInv s → owns s ptr Held n → node_size (meta n) = P →
  ∃ r s', move_full_page_to_tail mem s ptr (node_size (meta n)) = Ret (r, s') ∧ moved s ptr n (eq n) r s'.
Proof.
  intros HI Hown Hs. unfold move_full_page_to_tail. rewrite Hs.
  assert (P ∈ classes) as Hin by (apply elem_of_app; right; right; by left).
  destruct (alloc_page_spec mem cfg front mini s P HI Hin) as (r & s1 & -> & Hr). ret_step.
  destruct r as [err|new].
  { destruct Hr as [_ Hst]. assert (owns s1 ptr Held n) as Ho1 by (apply (sa_owns _ _ _ _ _ _ (Hst (ptr + 1))); [lia|done]).
    destruct (release_spec cfg front mini s1 ptr n (sa_inv _ _ _ _ _ _ (Hst ptr)) Ho1) as (s2 & -> & Hst2 & Hl). ret_step.
    eexists _, _. split; [done|]. split; [by eapply step_at_trans|done]. }
  destruct Hr as (Hfree & Hst & Hnew). assert (new ≠ ptr) as Hne' by (intros ->; destruct Hown; congruence).
  assert (owns s1 ptr Held n) as Ho1 by (by apply (sa_owns _ _ _ _ _ _ Hst)).
  rewrite (owns_load _ _ _ _ Ho1). ret_step.
  assert (step_at new s (store_cache_page s1 new n)) as Hst1 by (eapply step_at_trans; [exact Hst|]; apply store_cache_step, Hst).
  assert (owns (store_cache_page s1 new n) ptr Held n) as Ho2 by by apply (sa_owns _ _ _ _ _ _ Hst1).
  destruct (dealloc_spec cfg front mini _ ptr n (sa_inv _ _ _ _ _ _ Hst1) Ho2) as (s2 & -> & Hst2 & Hgone). ret_step.
  eexists _, _. split; [done|]. split; [done|]. exists (store_cache_page s1 new n), n. split_and!; try done.
  apply (sa_owns _ _ _ _ _ _ Hst2); [done|]. by eapply store_cache_owns.
Qed.

(** The two cases of a move together. *)
Lemma move_finish X (e : env) lf ptr n bn p loc f s1 r s' (Q : LeafNode → Prop) :
  entry_with e lf bn p → pointers (location e) = [ptr] → (∀ new, pointers (loc new) = [new]) →
  step_at ptr (store e) s1 → owns s1 ptr Held n → f s1 = Ret (r, s') → moved s1 ptr n Q r s' →
  (∀ s2 : storage, owns s2 ptr Live n → placed s2 (p_entries p) lf (location e)) →
  (∀ (s2 : storage) new n', owns s2 new Live n' → Q n' → placed s2 (p_entries p) lf (loc new)) →
  wp X (new_page ← on_store f; _ ← publish_page new_page; modify (λ e, set_location e (loc new_page)))
    (λ _ e', entry_at e' lf ∧ keeps e e') (set_store e s1).
Proof.
  intros He Hp Hloc Hst1 Hown Hf Hr Hold Hnew. apply wp_bind. eapply wp_on_store; [exact Hf|]. destruct r as [err|new].
  - destruct Hr as [Hst Hl]. split.
    + exists bn, p. split; [by apply (entry_with_step _ _ _ _ ptr (set_store e s1)), Hst; apply (entry_with_step _ _ _ _ ptr)|by apply Hold].
    + split; [|done]. apply (apart_in_place mem cfg front mini _ _ ptr); [done..|]. by eapply step_at_trans.
  - destruct Hr as (Hfree & s2 & n' & Hst2 & Hst3 & Hgone & Hn' & HQ). apply wp_bind.
    eapply publish_page_spec; [apply Hst3|exact Hn'|]. intros s4 Hst4 Hlive. wp_step. cbn [set_store store] in *. split.
    + exists bn, p. split; [|by apply (Hnew s4 new n')]. apply (entry_with_location mem cfg front mini (set_store e s4)).
      apply (entry_with_step _ _ _ _ new (set_store e s')); [|done]. apply (entry_with_step _ _ _ _ ptr (set_store e s2)); [|done].
      apply (entry_with_step _ _ _ _ new (set_store e s1)); [|done]. by apply (entry_with_step _ _ _ _ ptr).
    + split; [|done]. split; rewrite Hp; cbn [set_store set_location store location].
      * eapply frame_trans; [by apply (step_at_frame mem cfg front mini)|].
        eapply frame_trans; [by apply (step_at_frame_fresh mem cfg front mini new)|].
        eapply frame_trans; [by apply (step_at_frame mem cfg front mini)|]. by apply (step_at_frame_new mem cfg front mini new _ _ _ _ n').
      * rewrite Hloc. eapply handed_trans; [eapply handed_gone; [exact Hst1|by eapply owns_not_live]|].
        eapply handed_trans; [eapply handed_new; [exact Hst2|congruence]|].
        eapply handed_trans; [|by eapply handed_in_place]. eapply handed_other; [exact Hst3| |done].
        eapply (owns_not_live _ _ Held n); [|done]. apply (sa_owns _ _ _ _ _ _ Hst2); [|done]. intros ->. destruct Hown. congruence.
Qed.

Lemma move_tail_spec X (e : env) lf :
  entry_at e lf → movable (store e) (location e) → pointers (location e) ≠ [] →
  wp X (move_cache_page_to_tail mem cfg) (λ _ e', entry_at e' lf ∧ keeps e e') e.
Proof.
  intros (bn & p & He & Hp) Hmov Hptr. unfold move_cache_page_to_tail. wp_step.
  destruct (location e) as [ptr|ptr|o|] eqn:Hl; try done.
  - destruct Hp as (n & q & Hown & Hm & Hne & Hv). destruct Hmov as (n0 & q0 & Hown0 & HR0 & Hc).
    assert (n0 = n) as -> by (destruct Hown, Hown0; congruence).
    apply wp_bind. eapply wp_cache_page; [exact Hown|]. apply wp_bind. eapply begin_wp; [apply He|exact Hown| |].
    { intros s1 Hst1 Hlive. split; [|split; [|done]].
      - exists bn, p. split; [by apply (entry_with_step _ _ _ _ ptr)|]. cbn [location set_store store]. rewrite Hl. by exists n, q.
      - by apply (apart_in_place mem cfg front mini _ _ ptr); [rewrite Hl|..]. }
    intros s1 Hst1 Hheld. destruct (move_mini_spec s1 ptr n q q0 _ _ _ _ (sa_inv _ _ _ _ _ _ Hst1) Hheld Hm) as (r & s' & Hrun & Hr);
      [apply (en_offset _ _ _ _ _ _ _ _ He)|done|done|].
    eapply (move_finish X e lf ptr n bn p Mini); try done; [by rewrite Hl|..].
    + intros s2 Hlive. rewrite Hl. by exists n, q.
    + intros s2 new n' Hlive (q' & Hm' & Hne' & Hv'). exists n', q'. split_and!; try done. intros k. by rewrite Hv, Hv'.
  - destruct Hp as (n & q & Hown & Hm & Hne & Hv). pose proof (fi_size _ _ _ _ _ _ _ Hm) as Hs.
    apply wp_bind. eapply wp_cache_page; [exact Hown|]. apply wp_bind. eapply wp_lift; [by rewrite Hs, Z.eqb_refl|].
    apply wp_bind. eapply begin_wp; [apply He|exact Hown| |].
    { intros s1 Hst1 Hlive. split; [|split; [|done]].
      - exists bn, p. split; [by apply (entry_with_step _ _ _ _ ptr)|]. cbn [location set_store store]. rewrite Hl. by exists n, q.
      - by apply (apart_in_place mem cfg front mini _ _ ptr); [rewrite Hl|..]. }
    intros s1 Hst1 Hheld. destruct (move_full_spec s1 ptr n (sa_inv _ _ _ _ _ _ Hst1) Hheld Hs) as (r & s' & Hrun & Hr).
    eapply (move_finish X e lf ptr n bn p FullPage); try done; [by rewrite Hl|..].
    + intros s2 Hlive. rewrite Hl. by exists n, q.
    + intros s2 new n' Hlive <-. by exists n, q.
Qed.

(** The split flag: only the root leaf, as a base page with records, has it. *)
Lemma split_flag_spec X (e : env) lf :
  entry_at e lf → tmp_buffer e = None →
  wp X (entry_get_split_flag mem) (λ r e', ∃ b, r = inr b ∧ entry_at e' lf ∧ drop_entry e' = Ret (store e) ∧ (∃ t, e' = set_tmp e t) ∧
    (b = true → lf_low lf = [] ∧ lf_high lf = [] ∧
      (pointers (location e) = [] → tmp_buffer e' ≠ None ∧ ∀ n p, entry_with e' lf n p → leaf_get_split_flag n = true))) e.
Proof.
  intros (bn & p & He & Hp) Htmp. unfold entry_get_split_flag. wp_step. destruct (location e) as [ptr|ptr|o|] eqn:Hl; [| | |done].
  - destruct Hp as (n & q & Hown & Hm & Hne & Hv). apply wp_bind. eapply wp_cache_page; [exact Hown|]. wp_step.
    eexists. split; [done|]. split; [exists bn, p; rewrite Hl; split; [done|]; by exists n, q|].
    split; [unfold drop_entry; by rewrite Htmp|]. split; [exists (tmp_buffer e); by rewrite set_tmp_same|].
    by rewrite (mi_flag _ _ _ _ _ _ _ _ _ Hm).
  - destruct Hp as (n & q & Hown & Hm & Hne & Hv). apply wp_bind. eapply wp_cache_page; [exact Hown|]. wp_step.
    eexists. split; [done|]. split; [exists bn, p; rewrite Hl; split; [done|]; by exists n, q|].
    split; [unfold drop_entry; by rewrite Htmp|]. split; [exists (tmp_buffer e); by rewrite set_tmp_same|].
    intros Hfl. by destruct (fi_flag _ _ _ _ _ _ _ Hm Hfl).
  - destruct Hp as [-> Hv]. pose proof He as [_ _ (Hb & Hd)]. rewrite Htmp in Hd. apply wp_bind. unfold wp, load_base_page. rewrite Htmp. cbv zeta. rewrite <- Hd.
    assert (entry_with (set_tmp e (Some (mkTmp false bn))) lf bn p) as He'.
    { destruct He as [HI Ho _]. split; [done|done|]. split; [done|]. split; [done|]. intros _. exists p. cbn [set_tmp store]. by rewrite <- Hd. }
    eexists. split; [done|]. split; [exists bn, p; split; [done|]; cbn [location set_tmp]; by rewrite Hl|]. split; [done|]. split; [by eexists|].
    intros Hfl. destruct (bi_flag _ _ _ _ _ Hb Hfl) as (? & ? & _). split; [done|]. split; [done|]. intros _. split; [done|]. by intros n' p' [_ _ (_ & -> & _)].
Qed.

(** The number of a log record is not part of the contents. *)
Lemma update_lsn_spec X (e : env) lf l :
  entry_at e lf → wp X (update_lsn mem l) (λ r e', r = inr tt ∧ entry_at e' lf ∧ keeps e e' ∧ location e' = location e) e.
Proof.
  intros (bn & p & He & Hp). pose proof He as [HI Ho (Hb & _)]. unfold update_lsn. wp_step.
  destruct (location e) as [ptr|ptr|o|] eqn:Hl; [| | |done].
  - destruct Hp as (n & q & Hown & [] & Hne & Hv). apply wp_bind. eapply wp_cache_page; [exact Hown|]. unfold put_cache_page. wp_step.
    split; [done|]. split; [|split; [split; [|done]|done]].
    + exists bn, p. split; [by apply (entry_with_step _ _ _ _ ptr), store_cache_step|]. cbn [location set_store store]. rewrite Hl.
      exists (set_lsn n l), q. split; [by eapply store_cache_owns|]. split; [|done]. split; try done. by eapply repr_header; [exact mi_repr|..].
    + apply (apart_in_place mem cfg front mini _ _ ptr); [by rewrite Hl|done|by apply store_cache_step].
  - destruct Hp as (n & q & Hown & [] & Hne & Hv). apply wp_bind. eapply wp_cache_page; [exact Hown|]. unfold put_cache_page. wp_step.
    split; [done|]. split; [|split; [split; [|done]|done]].
    + exists bn, p. split; [by apply (entry_with_step _ _ _ _ ptr), store_cache_step|]. cbn [location set_store store]. rewrite Hl.
      exists (set_lsn n l), q. split; [by eapply store_cache_owns|]. split; [|done]. split; try done. by eapply repr_header; [exact fi_repr|..].
    + apply (apart_in_place mem cfg front mini _ _ ptr); [by rewrite Hl|done|by apply store_cache_step].
  - destruct Hp as [-> Hv]. apply wp_bind. eapply load_base_mut_spec; [exact He|by rewrite Hl|]. unfold put_base_page. wp_step. rewrite set_tmp_twice.
    split; [done|]. split; [|split; [apply keeps_tmp|done]]. exists (set_lsn bn l), p. split; [|cbn [location set_tmp]; by rewrite Hl].
    eapply (entry_with_put _ _ _ _ e lf bn p); [done|done|]. destruct Hb as [(HR & Hok) ? ? ? ?]. split; try done. split; [by eapply repr_header; [exact HR|..]|done].
Qed.
End move.
