(* ===== verification/EntryMerge.v ===== *)
(** Writing a cached page back to its base page: the merge of a full page, the merge of a mini page
    with and without a split of the base page, the move of a page to the tail of the buffer and
    the return of a base page as a full page (src/mini_page_op.rs). *)
From stdpp Require Import base numbers list sorting option gmap.
From Stdlib Require Import ZArith Lia.
From S2P Require Import Prelude Bits NodeMeta PageLayout InnerNode InnerRepr InnerSearch InnerInsert InnerSplit InnerTheorems LeafMeta LeafNode LeafOps LeafLayout Entries LeafRepr LeafSearch LeafInsert LeafInit LeafMerge LeafRebuild LeafSplit LeafTheorems SizeClasses LeafConvert SplitKey SplitKeyProofs Config CircularBuffer StateError Storage LeafEntry MergeSplit EntryInv EntryLeaf EntryInsert.

Lemma no_dirty_overlay ms es k : existsb (λ e, is_dirty (e_op e)) ms = false → overlay ms es k = visible (find_entry k es).
Proof.
  intros H. unfold overlay. destruct (find_entry k ms) as [e|] eqn:Hf; [|done]. destruct (is_dirty (e_op e)) eqn:Hd; [|done].
  apply find_entry_elem in Hf as [Hin _]. assert (existsb (λ e, is_dirty (e_op e)) ms = true) as Ht; [|congruence].
  apply existsb_exists. exists e. split; [by apply list_elem_of_In|done].
Qed.

Section merge.
Context {B T F : Type} {RB : RecordBound} `{HPB : PageBuffer B} `{HBL : !PageBufferLaws B} `{HPM : PageMap T} `{HML : !PageMapLaws T}.
Context (mem : memory) (cfg : @Config F) (front : list Z) (mini : Z).
Abbreviation P := (leaf_page_size cfg).
Abbreviation mfl := (max_fence_len cfg).
Abbreviation classes := (front ++ [mini; leaf_page_size cfg]).
Abbreviation storage := (LeafStorage B T).
Abbreviation env := (@env B T).
Abbreviation SInv := (SInv cfg front mini).
Abbreviation frame := (frame mem).
Abbreviation step_at := (step_at cfg front mini).
Abbreviation mini_inv := (mini_inv cfg front mini).
Abbreviation full_inv := (full_inv cfg).
Abbreviation base_inv := (base_inv cfg).
Abbreviation entry_at := (entry_at mem cfg front mini).
Abbreviation entry_with := (entry_with mem cfg front mini).
Abbreviation placed := (placed cfg front mini).
Abbreviation keeps := (keeps mem).

Hypothesis Hsetup : Setup mem cfg front mini.

Lemma change_to_base_wp X (e : env) ptr o n off (Q : TreeError + unit → env → Prop) :
  pointers (location e) = [ptr] → owns (store e) ptr o n → next_level n = off → next_level_is_null off = false →
  Q (inr tt) (set_location e (Base off)) → wp X change_to_base_loc Q e.
Proof.
  intros Hl Ho Hn Hnull HQ. unfold change_to_base_loc. wp_step.
  assert (∀ p, p = ptr → wp X (n0 ← cache_page p; offset ← lift (as_offset (next_level n0)); modify (λ e0 : env, set_location e0 (Base offset))) Q e) as Hrun.
  { intros p ->. apply wp_bind. eapply wp_cache_page; [exact Ho|]. apply wp_bind.
    eapply wp_lift; [unfold as_offset; rewrite Hn, Hnull; done|]. by wp_step. }
  destruct (location e); cbn in Hl; try done; injection Hl as ->; by apply Hrun.
Qed.

(** ** Full pages *)

(** The page that goes to the file. *)
Lemma full_to_base n q off es low high :
  full_inv n q off es low high → p_entries q ≠ [] → fence_in cfg low → fence_in cfg high →
  ∃ n1 q1, convert_cache_records_to_insert n = Ret n1 ∧ next_level n1 = off ∧
    base_inv (set_next_level (clear_snapshot_version_changed_flag n1) next_level_null) q1 low high ∧
    ∀ k, visible (find_entry k (p_entries q1)) = visible (find_entry k (p_entries q)).
Proof.
  intros [HR Hf Hmode Hnext Hsize Hsh Hflag Hv] Hne Hl Hh.
  destruct (to_insert_spec n q HR) as (n1 & q1 & Hrun & HR1 & Hf1 & He1 & Hh1 & _). pose proof Hh1 as (_ & Hn & _ & _ & Hs & _).
  exists n1, q1. split; [done|]. split; [by rewrite Hn|]. split.
  - split; [|..]; try done.
    + split_and!.
      * eapply repr_header; [exact HR1|done..].
      * unfold is_base_page. cbn -[is_cache_only_leaf]. by rewrite (same_header_mode _ _ Hh1), Hmode.
      * cbn. by rewrite Hs.
      * rewrite He1. apply dirtied_dirty.
      * by rewrite Hf1.
    + unfold within in *. rewrite He1. by apply Forall_map.
    + change (leaf_get_split_flag _) with (leaf_get_split_flag n1). rewrite (same_header_flag _ _ Hh1), He1. intros Hfl.
      destruct (Hflag Hfl). split; [done|]. split; [done|]. by destruct (p_entries q).
    + apply roomy_records. rewrite He1. by destruct (p_entries q).
  - intros k. rewrite He1. apply dirtied_visible.
Qed.

Lemma merge_full_page_spec X (e : env) lf ptr n q bn p o :
  entry_with e lf bn p → location e = FullPage ptr → tmp_buffer e = None → owns (store e) ptr o n →
  full_inv n q (lf_offset lf) (p_entries p) (lf_low lf) (lf_high lf) → p_entries q ≠ [] →
  (∀ k, lf_view lf k = visible (find_entry k (p_entries q))) →
  wp X (merge_full_page cfg ptr) (λ r e', r = inr tt ∧ ∃ s' b, e' = set_tmp (set_location (set_store e s') (Base (lf_offset lf))) b ∧
    entry_at e' lf ∧ step_at ptr (store e) s' ∧ circular_buffer s' = circular_buffer (store e) ∧ ∃ n', owns s' ptr o n') e.
Proof.
  intros He Hl Htmp Hown Hfull Hne Hv. pose proof He as [HI [Ho1 Ho2] (Hb & _)]. unfold merge_full_page.
  apply wp_bind. eapply wp_cache_page; [exact Hown|].
  apply wp_bind. eapply wp_lift; [rewrite (fi_size _ _ _ _ _ _ _ Hfull), Z.eqb_refl; done|].
  apply wp_bind. eapply wp_lift; [apply (need_merge_spec n q), Hfull|].
  assert (next_level n = lf_offset lf) as Hnx by apply Hfull.
  assert (pointers (location e) = [ptr]) as Hptr by by rewrite Hl.
  destruct (negb _ && _) eqn:Hneed.
  - eapply change_to_base_wp; [done|exact Hown|done..|]. split; [done|]. exists (store e), (tmp_buffer e).
    assert (set_tmp (set_location (set_store e (store e)) (Base (lf_offset lf))) (tmp_buffer e) = set_location e (Base (lf_offset lf))) as -> by done.
    split; [done|]. split; [|split; [by apply step_at_refl|by split; [|exists n]]].
    exists bn, p. split; [by apply entry_with_location|]. split; [done|]. intros k.
    apply andb_true_iff in Hneed as [Hneed%negb_true_iff _]. rewrite Hv, <- (fi_view _ _ _ _ _ _ _ Hfull). by apply no_dirty_overlay.
  - destruct (full_to_base n q _ _ _ _ Hfull Hne (bi_low _ _ _ _ _ Hb) (bi_high _ _ _ _ _ Hb)) as (n1 & q1 & Hconv & Hn1 & Hb1 & Hv1).
    apply wp_bind. eapply wp_lift; [exact Hconv|]. unfold put_cache_page. wp_step. apply wp_bind.
    pose proof (store_cache_owns _ ptr o n (clear_snapshot_version_changed_flag n1) Hown) as Hown1.
    eapply change_to_base_wp; [done|exact Hown1|done..|]. wp_step. cbn [tmp_buffer set_location set_store]. rewrite Htmp.
    apply wp_bind. eapply wp_lift; [done|]. unfold put_base_page. wp_step. split; [done|].
    eexists _, _. split; [done|]. split; [|split; [by apply store_cache_step|by split; [|eexists]]].
    eexists _, q1. split; [|split; [done|]; intros k; by rewrite Hv, Hv1].
    split; [by apply (store_cache_step cfg front mini)|done|]. split; [exact Hb1|]. by split.
Qed.

Lemma finish_entry (e : env) lf ptr n s1 :
  entry_at e lf → owns (store e) ptr Held n → step_at ptr (store e) s1 → pointers (location e) = [] → entry_at (set_store e s1) lf.
Proof.
  intros (bn & p & He & Hp) Hown Hst Hl. exists bn, p. split; [by apply (entry_with_step _ _ _ _ ptr)|].
  eapply placed_mono; [| |exact Hp]; [done|]. intros q n'. cbn. rewrite Hl. by intros ?%elem_of_nil.
Qed.

Lemma merge_full_and_dealloc_spec X (e : env) lf ptr :
  entry_at e lf → location e = FullPage ptr → tmp_buffer e = None →
  wp X (merge_full_page_and_dealloc cfg ptr) (λ r e', entry_at e' lf ∧ keeps e e' ∧
    match r with inl err => err = NeedRestart ∧ location e' = location e | inr _ => location e' = Base (lf_offset lf) end) e.
Proof.
  intros (bn & p & He & Hp) Hl Htmp. rewrite Hl in Hp. destruct Hp as (n & q & Hown & Hfull & Hne & Hv).
  unfold merge_full_page_and_dealloc. apply wp_bind. eapply begin_wp; [apply He|exact Hown| |].
  - intros s1 Hst1 Ho1. split_and!; try done.
    + exists bn, p. split; [by apply (entry_with_step _ _ _ _ ptr)|]. cbn [location set_store store]. rewrite Hl. by exists n, q.
    + split; [|done]. by apply (apart_in_place mem cfg front mini _ _ ptr); [rewrite Hl|..].
  - intros s1 Hst1 Hheld. apply wp_bind.
    eapply wp_mono; [eapply (merge_full_page_spec X (set_store e s1)); [by apply (entry_with_step _ _ _ _ ptr)|done..]|].
    intros r e2 (-> & s2 & b & -> & He2 & Hst2 & _ & n2 & Hown2). cbn [store set_store set_tmp set_location] in *.
    eapply finish_wp; [apply Hst2|exact Hown2|]. intros s3 Hst3 Hgone. cbn [store set_store set_tmp set_location] in Hst3.
    split; [by eapply (finish_entry _ lf ptr)|]. split; [|done]. split; [|done].
    apply (apart_gone mem cfg front mini _ _ ptr); [by rewrite Hl|done| |done]. eapply step_at_trans; [exact Hst1|]. by eapply step_at_trans.
Qed.

Section record.
Context (key value : bytes) (op : OpType).
Hypothesis Hok : entry_ok (mkEntry key op value).
Hypothesis Hlim : limits cfg key value.
Hypothesis Hdirty : is_dirty op = true.
Abbreviation new_value := (visible (Some (mkEntry key op value))).
Abbreviation insert_post := (insert_post mem cfg front mini key value op).

Lemma full_insert_done n q off es low high n' :
  full_inv n q off es low high → next_level_is_null off = false → insert_done n q key value op n' →
  ∃ q', full_inv n' q' off es low high ∧ p_entries q' ≠ [] ∧
    ∀ k, visible (find_entry k (p_entries q')) = view_insert (λ k, visible (find_entry k (p_entries q))) key new_value k.
Proof.
  intros Hm Ho (q' & HR' & Hf' & He' & Hh & _). exists q'. pose proof Hh as (_ & Hn & _ & _ & Hs & _).
  rewrite (full_not_base _ _ _ _ _ _ _ Hm Ho) in He'. destruct Hm as [HR Hf Hmode Hnext Hsize Hsh Hflag Hv].
  assert (∀ k, visible (find_entry k (p_entries q')) = view_insert (λ k, visible (find_entry k (p_entries q))) key new_value k) as Hview.
  { intros k. rewrite He'. unfold view_insert. case_bool_decide as Hk.
    + subst k. apply visible_apply_same, (re_order _ _ HR).
    + by rewrite find_apply_other. }
  assert (apply_op false key op value (p_entries q) = upsert key op value (p_entries q)) as Hup.
  { unfold apply_op. rewrite andb_false_r. by destruct (find_entry _ _). }
  split; [|split; [|done]].
  2:{ eapply (insert_filled key value op Hok q q'); [apply (re_order _ _ HR)|by rewrite He', Hup]. }
  split; try done.
  - by rewrite Hf'.
  - by rewrite (same_header_mode _ _ Hh).
  - by rewrite Hn.
  - by rewrite Hs.
  - unfold within. rewrite He', Hup. by apply (upsert_recs (limits cfg)).
  - by rewrite (same_header_flag _ _ Hh).
  - intros k. rewrite Hview, He', overlay_insert; [|apply (re_order _ _ HR)|intros Hd; congruence].
    unfold view_insert. by case_bool_decide.
Qed.

Lemma insert_full_spec X (e : env) lf ptr :
  entry_at e lf → location e = FullPage ptr → tmp_buffer e = None → in_bounds (lf_low lf) (lf_high lf) key →
  wp X (insert_full cfg ptr key value op) (insert_post e lf [NeedRestart]) e.
Proof.
  intros (bn & p & He & Hp) Hl Htmp Hk. rewrite Hl in Hp. destruct Hp as (n & q & Hown & Hfull & Hne & Hv).
  pose proof He as [HI [_ Ho] _]. unfold insert_full. apply wp_bind.
  destruct (insert_repr n q (fi_repr _ _ _ _ _ _ _ Hfull) key value op mfl) as (b & n' & Hrun & Hr).
  - by eapply full_range.
  - done.
  - apply Hsetup.
  - by intros ->.
  - eapply insert_cached_spec; [exact Hown|exact Hrun|].
    assert (step_at ptr (store e) (store_cache_page (store e) ptr n')) as Hst by by apply store_cache_step.
    assert (apart mem e (set_store e (store_cache_page (store e) ptr n'))) as Hap.
    { by apply (apart_in_place mem cfg front mini _ _ ptr); [rewrite Hl|..]. }
    destruct b.
    + destruct (full_insert_done n q _ _ _ _ n' Hfull Ho Hr) as (q' & Hfull' & Hne' & Hv'). wp_step.
      split; [|split; [by split|by cbn [location set_store]; rewrite Hl]].
      exists bn, p. split; [by apply entry_with_update, (entry_with_step _ _ _ _ ptr)|]. cbn [location set_store store]. rewrite Hl.
      exists n', q'. split; [by eapply store_cache_owns|]. split; [done|]. split; [done|]. intros k. rewrite Hv'. cbn. unfold view_insert.
      case_bool_decide; [done|apply Hv].
    + destruct Hr as [-> _]. apply wp_bind. eapply wp_mono; [eapply (merge_full_and_dealloc_spec X _ lf ptr); try done|].
      * exists bn, p. split; [by apply (entry_with_step _ _ _ _ ptr)|]. cbn [location set_store store]. rewrite Hl.
        exists n, q. split; [by eapply store_cache_owns|done].
      * intros r e2 (He2 & [Hf2 Hp2] & Hr2). assert (keeps e e2) as Hk2 by (split; [by eapply apart_trans|done]).
        destruct r as [err|[]]; [destruct Hr2 as [-> _]; split; [by left|done]|]. wp_step. split; [by left|done].
Qed.
End record.

(** ** Mini pages *)

(** The base page before a merge: a page with one record is consolidated. *)
Definition premerge (es : list entry) : list entry :=
  if (length es =? 1)%nat then consolidated OpInsert true None es else es.

(** A split of the base page succeeds: there are two records to distribute, and half of the records
    and one more fit in a page with its fences. *)
Definition can_split (ms es : list entry) : Prop :=
  let merged := merged_entries ms (premerge es) in
  (2 <= length merged)%nat ∧
  items_size (map entry_item (dirty_entries ms)) + items_size (map entry_item (premerge es)) < 2 ^ 15 ∧
  Forall (λ it, items_size merged + it.2 <= 2 * (P - LEAF_HEADER - 2 * KV_META_SIZE - mfl)) merged.

(** A merge succeeds: the records of the mini page [m] fit in the base page [bn], or it can be split. *)
Definition merge_ready (bn m : LeafNode) (ms es : list entry) : Prop :=
  ∀ n1, consolidate_single bn = Ret n1 → merge_mini_page n1 m mfl = Ret (false, n1) → can_split ms es.

Lemma dirty_no_phantom es : all_dirty es → Forall (λ e, e_op e ≠ OpPhantom) es.
Proof. intros H. eapply Forall_impl; [exact H|]. intros e He Hp. cbv beta in He. by rewrite Hp in He. Qed.

Lemma consolidate_single_spec n p low high :
  base_inv n p low high →
  ∃ n' p', consolidate_single n = Ret n' ∧ base_inv n' p' low high ∧ p_entries p' = premerge (p_entries p) ∧
    (∀ k, visible (find_entry k (p_entries p')) = visible (find_entry k (p_entries p))) ∧
    ((length (p_entries p') <= 1)%nat → P - LEAF_HEADER - 2 * KV_META_SIZE - total_need 0 (p_entries p') <=
       remaining_size (meta n') + zlen low + zlen high).
Proof.
  intros [(HR & Hb & Hs & Hd & l & h & Hf & Hl & Hh) Hsh H1 H2 Hflag Hroom]. unfold consolidate_single, premerge. destruct (repr_page n p HR) as (_ & Hdat & _).
  pose proof (zlen_nonneg low). pose proof (zlen_nonneg high).
  rewrite (records_count n p l h HR Hf). ret_step. unfold zlen. rewrite <- (length_map k_ent). fold (p_entries p).
  zcase (Z.of_nat (length (p_entries p)) =? 1).
  2:{ destruct (Nat.eqb_spec (length (p_entries p)) 1); [lia|]. exists n, p. split; [done|].
      split; [split; [|done..]; split_and!; try done; by exists l, h|]. split; [done|]. split; [done|]. intros Hlen.
      assert (p_entries p = []) as He by (apply length_zero_iff_nil; lia). rewrite He. cbn.
      pose proof (roomy_space n p l h (P - LEAF_HEADER - zlen low - zlen high) HR Hf He Hroom ltac:(rewrite Hdat, Hs; lia)). unfold zlen in *. lia. }
  destruct (Nat.eqb_spec (length (p_entries p)) 1); [|lia].
  pose proof Hb as Hb'. apply andb_true_iff in Hb' as [Hmode%negb_true_iff Hnull].
  pose proof (kept_value _ (entries_ok n p HR) (dirty_no_phantom _ Hd)) as Hval.
  destruct (consolidate_same_fences n p l h HR Hf (get_clean_snapshot_version n) Hval)
    as (n' & p' & l' & h' & Hrun & HR' & Hf' & Hl' & Hh' & He' & Hfr & Hrem).
  rewrite Hmode in Hrun. rewrite Hrun. ret_step. eexists _, p'. split; [done|]. split; [|split; [done|]].
  - destruct Hfr as (F1 & F2 & _ & _ & _ & F6 & F7 & _). split; [|..]; try done.
    + split_and!; [by apply set_snapshot_repr| |by cbn; rewrite F1|rewrite He'; apply consolidated_dirty|].
      * unfold is_base_page. cbn -[is_cache_only_leaf]. by rewrite F6, F2, Hmode.
      * exists l', h'. by rewrite Hl', Hh'.
    + unfold within in *. rewrite He'. by apply (consolidated_recs (limits cfg)).
    + change (leaf_get_split_flag _) with (get_split_flag (meta n')). by rewrite F7.
    + rewrite Hdat, Hs, <- Hl', <- Hh' in Hrem. rewrite <- Hl, <- Hh, <- Hl', <- Hh'. by eapply roomy_fresh.
  - split; [intros k; rewrite He'; apply consolidated_visible; [apply (re_order _ _ HR)|by apply dirty_no_phantom]|].
    intros Hlen. rewrite Hdat, Hs, Hl, Hh in Hrem. unfold page_need in Hrem. cbn [meta set_snapshot]. pose proof (common_prefix_len_bound low high).
    fold (zlen low) (zlen high).
    destruct (p_entries p') as [|e' [|]]; cbn in *; [lia| |lia]. unfold entry_need in *. lia.
Qed.

(** A merge that fits: the base page then answers for the leaf. *)
Lemma merge_fits_base n p m q off low high :
  base_inv n p low high → mini_inv m q off (p_entries p) low high →
  ∃ b n', merge_mini_page n m mfl = Ret (b, n') ∧
    if b then ∃ p', base_inv n' p' low high ∧
      ∀ k, visible (find_entry k (p_entries p')) = overlay (p_entries q) (p_entries p) k
    else n' = n.
Proof.
  intros [Hok Hsh H1 H2 Hflag Hroom] [HQ Hqf Hmode Hnext Hsize Hbnd Hqsh Hmf Hcl]. pose proof Hok as (HR & Hb & Hs & Hd & Hf).
  destruct (merge_repr m q HQ n p mfl HR Hb Hqf (su_fence _ _ _ _ Hsetup)) as (b & n' & Hrun & Hr).
  { intros e He _. apply (base_ok_range _ _ _ _ _ _ Hok). rewrite Forall_forall in Hbnd. by apply Hbnd. }
  exists b, n'. split; [done|]. destruct b; [|by destruct Hr]. destruct Hr as (p' & HR' & Hf' & He' & Hh). exists p'. split.
  - split; [|..]; try done.
    + pose proof Hh as (_ & Hn & _ & _ & Hns & _). split_and!; [done| |by rewrite Hns| |by rewrite Hf'].
      * by rewrite (same_header_base _ _ Hh).
      * rewrite He'. by apply merge_entries_dirty.
    + unfold within. rewrite He'. by apply (merge_entries_recs (limits cfg)).
    + rewrite (same_header_flag _ _ Hh), He'. intros Hfl. destruct (Hflag Hfl) as (? & ? & ?). split_and!; [done..|].
      by apply merge_entries_nonempty.
    + apply (roomy_kept _ p); [done| |done]. rewrite He'. intros H0. destruct (decide (p_entries p = [])) as [|Hne]; [done|]. by destruct (merge_entries_nonempty (p_entries q) _ Hne).
  - intros k. rewrite He'. apply merge_visible; [apply (re_order _ _ HQ)|apply (re_order _ _ HR)].
Qed.

(** ** Splitting *)
Definition left_leaf (lf : leaf) (key : bytes) : leaf :=
  mkLeaf (lf_offset lf) (λ k, if is_below key k then lf_view lf k else None) (lf_low lf) key.
Definition right_leaf (lf : leaf) (key : bytes) (off : Z) : leaf :=
  mkLeaf off (λ k, if is_below key k then None else lf_view lf k) key (lf_high lf).

(** There is room for a new leaf in the page table and in the file. *)
Definition growable (s : storage) : Prop :=
  map_room (page_table s) 1 ∧ next_available_offset s < USIZE_MAX ∧
  ∃ l, map_list (page_table s) l ∧ zlen l < 2 ^ 62.

(** Room for a number of steps, each of which may add a leaf and two inner nodes. *)
Definition page_step : Z := P + 2 * INNER_NODE_SIZE.
Definition budget (n : nat) (s : storage) : Prop :=
  map_room (page_table s) n ∧ next_available_offset s + Z.of_nat n * page_step <= USIZE_MAX ∧
  ∃ l, map_list (page_table s) l ∧ zlen l + Z.of_nat n <= 2 ^ 62.

Lemma page_step_pos : 0 < page_step.
Proof.
  pose proof (su_leaf _ _ _ _ Hsetup). pose proof (su_fence _ _ _ _ Hsetup).
  unfold page_step, LEAF_HEADER, KV_META_SIZE, INNER_NODE_SIZE in *. lia.
Qed.

Lemma budget_growable n s : budget (S n) s → growable s.
Proof.
  intros (Hr & Ho & l & Hl & Hlen). pose proof page_step_pos. split; [|split; [nia|exists l; split; [done|lia]]].
  induction n as [|n IH]; [done|]. apply IH; [by apply map_room_law|nia|lia].
Qed.

Lemma budget_grow n s s' loc :
  (∀ n, map_room (page_table s) (S n) → map_room (page_table s') n) →
  (∀ l, map_list (page_table s) l → map_list (page_table s') (l ++ [loc])) →
  next_available_offset s' <= next_available_offset s + page_step → budget (S n) s → budget n s'.
Proof.
  intros Hroom Hlist Hoff (Hr & Ho & l & Hl & Hlen). split; [by apply Hroom|]. split; [nia|]. exists (l ++ [loc]). split; [by apply Hlist|].
  rewrite zlen_app. unfold zlen in *. cbn. lia.
Qed.

Lemma budget_keep n s s' :
  page_table s' = page_table s → next_available_offset s' <= next_available_offset s → budget n s → budget n s'.
Proof. unfold budget. intros -> Ho (H1 & H2 & H3). split; [done|]. split; [lia|done]. Qed.

Lemma budget_less n s s' :
  page_table s' = page_table s → next_available_offset s' <= next_available_offset s + page_step → budget (S n) s → budget n s'.
Proof.
  unfold budget. intros -> Ho (H1 & H2 & l & Hl & Hlen). split; [by apply map_room_law|]. split; [nia|]. exists l. split; [done|lia].
Qed.

Lemma outside_none size n p low high k :
  base_ok size n p low high → ¬ in_bounds low high k → find_entry k (p_entries p) = None.
Proof.
  intros Hok Hout. apply find_entry_none. pose proof Hok as (HR & _).
  eapply Forall_impl; [apply (re_range _ _ HR)|]. intros e He <-. apply Hout. by apply (base_ok_range _ _ _ _ _ _ Hok).
Qed.

Lemma above_outside low key k : key ≠ [] → is_below key k = false → ¬ in_bounds low key k.
Proof. unfold is_below, in_bounds, bytes_lt. intros Hne Hb [_ [->|H]]; [done|by rewrite H in Hb]. Qed.

Lemma below_outside key high k : is_below key k = true → ¬ in_bounds key high k.
Proof.
  unfold is_below, in_bounds. intros Hb [H _]. destruct (cmp_bytes k key) eqn:E; try done.
  apply cmp_gt_lt in E. done.
Qed.

Lemma alloc_base_spec (s : storage) l :
  map_room (page_table s) 1 → map_list (page_table s) l →
  ∃ t sib, let off := next_available_offset s in
    alloc_base_page_mapping mem cfg s INVALID_SNAPSHOT_VERSION =
      Ret (zlen l, mkEnv (set_table (set_next_offset s (off + P)) t) (Base off) (Some (mkTmp true sib)) None) ∧
    (∀ l', map_list (page_table s) l' → zlen l' = zlen l ∧ map_list t (l' ++ [Base off])) ∧
    (∀ k, map_room (page_table s) (S k) → map_room t k) ∧ node_size (meta sib) = P ∧ zlen (data sib) = P - LEAF_HEADER ∧ bytes_ok (data sib).
Proof.
  intros Hroom Hl. unfold alloc_base_page_mapping, alloc_offset.
  destruct (map_insert_law _ l (Base (next_available_offset s)) Hl Hroom) as (t & Hins & Ht & Hkeep). cbn [page_table set_next_offset].
  rewrite Hins. ret_step. destruct (su_page _ _ _ _ Hsetup) as [Hd Hb]. pose proof (su_leaf _ _ _ _ Hsetup).
  pose proof (su_fence _ _ _ _ Hsetup).
  destruct (base_page_wf (fresh_page mem P) P INVALID_SNAPSHOT_VERSION) as (sib & sp & Hmk & HR & _ & _ & _ & Hs & _); [lia|done|done|].
  rewrite Hmk. ret_step. unfold tmp_from_leaf_node. rewrite Hs, Z.eqb_refl. ret_step. ret_step.
  exists t, sib. split; [done|]. split.
  { intros l' Hl'. destruct (map_insert_law _ l' (Base (next_available_offset s)) Hl' Hroom) as (t' & Hins' & Ht' & _).
    rewrite Hins in Hins'. by injection Hins' as -> ->. }
  split; [done|]. split; [done|]. destruct (repr_page sib sp HR) as (_ & -> & Hby). by rewrite Hs.
Qed.

(** The parent after an operation: as before, or told to split. *)
Definition parent_kept (e e' : env) : Prop :=
  parent_node e' = parent_node e ∨
  ∃ par key, parent_node e = Some par ∧ zlen key <= MAX_KEY_LEN ∧ have_space_for par key = false ∧
    parent_node e' = Some (InnerNode.set_meta par (set_split_flag (InnerNode.meta par))).

(** The base page has the contents of the leaf. *)
Definition merged_into (e : env) (lf : leaf) : Prop :=
  ∃ n p, entry_with e lf n p ∧ ∀ k, lf_view lf k = visible (find_entry k (p_entries p)).

(** The leaf was split at [key]: the entry stands for the left part, and a new entry of the page
    table and of the parent for the right part. *)
Record split_done (e e' : env) (lf : leaf) (key : bytes) : Prop := {
  sd_key : bytes_ok key ∧ zlen key <= MAX_KEY_LEN;
  sd_low : bytes_lt (lf_low lf) key;
  sd_high : lf_high lf = [] ∨ bytes_lt key (lf_high lf);
  sd_right : leaf_at mem cfg front mini (store e') (right_leaf lf key (next_available_offset (store e)))
    (Base (next_available_offset (store e)));
  sd_rest : untouched mem (pointers (location e)) [] (store e) (store e');
  sd_table : ∀ l, map_list (page_table (store e)) l →
    map_list (page_table (store e')) (l ++ [Base (next_available_offset (store e))]);
  sd_handed : handed (pointers (location e)) (pointers (location e')) (store e) (store e');
  sd_budget : ∀ n, budget (S n) (store e) → budget n (store e');
  sd_parent : ∃ id par par', (∀ l, map_list (page_table (store e)) l → zlen l = id) ∧ 0 <= id < 2 ^ 62 ∧
    parent_node e = Some par ∧ parent_node e' = Some par' ∧ InnerNode.insert par key (from_id id) = Ret (true, par');
}.

(** What the two halves answer for. *)
Lemma halves_view lf key lp rp n1 n2 ms es :
  bytes_lt (lf_low lf) key → base_ok P n1 lp (lf_low lf) key → base_ok P n2 rp key (lf_high lf) →
  (∀ k, lf_view lf k = overlay ms es k) →
  (∀ k, overlay ms es k = visible (if is_below key k then find_entry k (p_entries lp) else find_entry k (p_entries rp))) →
  (∀ k, (if is_below key k then lf_view lf k else None) = visible (find_entry k (p_entries lp))) ∧
  (∀ k, (if is_below key k then None else lf_view lf k) = visible (find_entry k (p_entries rp))).
Proof.
  intros Hlt H1 H2 Hv Ho. assert (key ≠ []) as Hne by (intros ->; by destruct (lf_low lf)).
  split; intros k; rewrite Hv, Ho; destruct (is_below key k) eqn:Hb; try done.
  - by rewrite (outside_none _ _ _ _ _ _ H1 (above_outside _ _ _ Hne Hb)).
  - by rewrite (outside_none _ _ _ _ _ _ H2 (below_outside _ _ _ Hb)).
Qed.

(** What a merge leaves, the page at [ptr] still being there. *)
Definition merge_post (e : env) (lf : leaf) (m : LeafNode) (q : page) (r : TreeError + MergeResult) (e' : env) : Prop :=
  location e' = location e ∧ cache_pages (store e') = cache_pages (store e) ∧
  circular_buffer (store e') = circular_buffer (store e) ∧
  match r with
  | inr NoSplit => merged_into e' lf ∧ store e' = store e ∧ parent_node e' = parent_node e
  | inr MergeAndSplit => ∃ key, split_done e e' lf key ∧ merged_into e' (left_leaf lf key)
  | inl err => err ∈ [Locked; NeedRestart] ∧ store e' = store e ∧ parent_kept e e' ∧
      ∃ n p, entry_with e' lf n p ∧ mini_inv m q (lf_offset lf) (p_entries p) (lf_low lf) (lf_high lf) ∧
        ∀ k, lf_view lf k = overlay (p_entries q) (p_entries p) k
  end.

(** The records that the mini page replaces do not matter. *)
Lemma replaced_overlay ms es k : ordered ms → overlay ms (map (replaced ms) es) k = overlay ms es k.
Proof.
  intros Ho. unfold overlay. destruct (find_entry k ms) as [e|] eqn:Hf.
  - destruct (is_dirty (e_op e)) eqn:Hd; [done|]. apply replaced_visible; [|done]. intros e'. rewrite Hf. by intros [= <-].
  - apply replaced_visible; [|done]. intros e'. by rewrite Hf.
Qed.

Lemma mini_inv_es m q off es es' low high :
  mini_inv m q off es low high →
  (∀ k, (∀ e, find_entry k (p_entries q) = Some e → is_dirty (e_op e) = false) →
    visible (find_entry k es') = visible (find_entry k es)) →
  mini_inv m q off es' low high.
Proof.
  intros [? ? ? ? ? ? ? ? Hcl] Hv. split; try done. intros k e Hf Hd. rewrite Hv; [by eapply Hcl|]. intros e'. rewrite Hf. by intros [= <-].
Qed.

(** The new leaf in the storage. *)
Lemma sibling_written lf s t key right rp :
  SInv s → growable s →
  base_inv right rp key (lf_high lf) →
  (∀ k, (if is_below key k then None else lf_view lf k) = visible (find_entry k (p_entries rp))) →
  let off := next_available_offset s in
  let s' := vfs_write (set_table (set_next_offset s (off + P)) t) off right in
  SInv s' ∧ leaf_at mem cfg front mini s' (right_leaf lf key off) (Base off) ∧
  (∀ o, o < off → vfs_read mem s' o = vfs_read mem s o) ∧ (∀ ptr o c, owns s ptr o c → owns s' ptr o c).
Proof.
  intros [Hi1 Hi2 Hi3] (_ & Hoff & _) Hb Hv off s'. pose proof (su_leaf _ _ _ _ Hsetup) as Hleaf.
  pose proof (su_fence _ _ _ _ Hsetup). assert (0 < P) as HP by (unfold LEAF_HEADER, KV_META_SIZE in *; lia).
  split; [split; cbn; try done; lia|]. split; [|split].
  - split; [split; cbn; [lia|]; unfold next_level_is_null; apply Z.eqb_neq; lia|]. exists rp. cbn [right_leaf lf_offset lf_low lf_high].
    unfold vfs_read, s', vfs_write. cbn [disk set_disk]. rewrite lookup_insert_eq. split; [done|]. by split.
  - intros o Ho. unfold vfs_read, s', vfs_write. cbn [disk set_disk set_table set_next_offset]. rewrite lookup_insert_ne by lia. done.
  - intros ptr o c [H1 H2]. by split.
Qed.

Section split.
Context (lf : leaf) (n m : LeafNode) (p q : page).
Abbreviation es := (p_entries p).
Abbreviation ms := (p_entries q).
Hypothesis Hbase : base_inv n p (lf_low lf) (lf_high lf).
Hypothesis Hmini : mini_inv m q (lf_offset lf) (p_entries p) (lf_low lf) (lf_high lf).
Hypothesis Hview : ∀ k, lf_view lf k = overlay (p_entries q) (p_entries p) k.
Hypothesis Htwo : (2 <= length (merged_entries (p_entries q) (p_entries p)))%nat.
Hypothesis Hsum : items_size (map entry_item (dirty_entries (p_entries q))) + items_size (map entry_item (p_entries p)) < 2 ^ 15.
Hypothesis Hhalf : Forall (λ it, items_size (merged_entries (p_entries q) (p_entries p)) + it.2 <=
  2 * (P - LEAF_HEADER - 2 * KV_META_SIZE - mfl)) (merged_entries (p_entries q) (p_entries p)).

Lemma dirty_in_range : Forall (λ e, in_range (p_fences p) (e_key e)) (dirty_entries ms).
Proof.
  apply Forall_forall. intros e [He _]%elem_of_dirty. apply (base_ok_range _ _ _ _ _ _ (bi_ok _ _ _ _ _ Hbase)).
  pose proof (mi_bounds _ _ _ _ _ _ _ _ _ Hmini) as Hb. rewrite Forall_forall in Hb. by apply Hb.
Qed.

Lemma merged_short : Forall (λ it, fence_in cfg it.1) (merged_entries ms es).
Proof.
  apply Forall_forall. intros it Hit. pose proof (bi_short _ _ _ _ _ Hbase) as H1. pose proof (mi_short _ _ _ _ _ _ _ _ _ Hmini) as H2.
  unfold within in *. rewrite Forall_forall in H1, H2.
  apply merged_sub in Hit as [H|H]; apply list_elem_of_fmap in H as (e & -> & He); cbn.
  - apply elem_of_dirty in He as [He _]. destruct (H2 e He) as ([_ ?] & ? & _). split; [done|by right].
  - destruct (H1 e He) as ([_ ?] & ? & _). split; [done|by right].
Qed.

(** The key and the page with the replaced records marked. *)
Lemma split_key_found :
  ∃ key d p1, get_merge_split_key n m = Ret (key, set_data n d) ∧ base_inv (set_data n d) p1 (lf_low lf) (lf_high lf) ∧
    p_entries p1 = map (replaced ms) es ∧ bytes_ok key ∧ zlen key <= MAX_KEY_LEN ∧ fence_in cfg key.
Proof.
  destruct Hbase as [(HR & Hb & Hs & Hd & l & h & Hf & Hl & Hh) Hsh H1 H2 Hflag Hroom].
  destruct (get_merge_split_key_spec n m p q l h HR (mi_repr _ _ _ _ _ _ _ _ _ Hmini) Hf dirty_in_range Hsum Htwo)
    as (key & d & p1 & Hkey & HR1 & Hf1 & He1 & Hbal & _). exists key, d, p1. split; [done|]. split; [|split; [done|]].
  - split; [|..]; try done; [|unfold within; rewrite He1; by apply (replaced_recs (limits cfg))| |apply (roomy_kept _ p); [done| |done]; rewrite He1; apply map_eq_nil].
    2:{ rewrite He1. intros Hfl. destruct (Hflag Hfl) as (? & ? & ?). split_and!; [done..|]. by destruct es. }
    split_and!; try done; [|rewrite Hf1, Hf; by exists l, h]. rewrite He1. apply Forall_map.
    eapply Forall_impl; [exact Hd|]. intros e He. unfold replaced. by destruct (bool_decide _).
  - destruct (balanced_elem _ _ Hbal) as (it & Hit & ->). pose proof merged_short as Hms. rewrite Forall_forall in Hms.
    pose proof (Hms it Hit) as [Hfi Hck]. pose proof (su_key _ _ _ _ Hsetup). split; [|split; [lia|done]].
    eapply (merged_key_ok n m p q HR (mi_repr _ _ _ _ _ _ _ _ _ Hmini) it Hit).
Qed.

Lemma split_halves sib :
  node_size (meta sib) = P → zlen (data sib) = P - LEAF_HEADER → bytes_ok (data sib) →
  ∃ key d halves metas left right lp rp,
    get_merge_split_key n m = Ret (key, set_data n d) ∧
    split_with_key (set_data n d) sib key false INVALID_SNAPSHOT_VERSION = Ret halves ∧
    meta_iter m = Ret metas ∧ foldM (merge_split_record cfg m key) halves metas = Ret (left, right) ∧
    base_inv left lp (lf_low lf) key ∧ base_inv right rp key (lf_high lf) ∧
    bytes_lt (lf_low lf) key ∧ (lf_high lf = [] ∨ bytes_lt key (lf_high lf)) ∧
    (∀ k, (if is_below key k then lf_view lf k else None) = visible (find_entry k (p_entries lp))) ∧
    (∀ k, (if is_below key k then None else lf_view lf k) = visible (find_entry k (p_entries rp))).
Proof.
  intros Hs1 Hs2 Hs3. pose proof (mi_repr _ _ _ _ _ _ _ _ _ Hmini) as HQ.
  destruct Hbase as [(HR & Hb & Hs & Hd & l & h & Hf & Hl & Hh) Hsh H1 H2 Hflag Hroom].
  destruct (repr_page n p HR) as (_ & Hdat & _). rewrite Hs in Hdat.
  destruct (merge_split_spec cfg n m p q l h (su_fence _ _ _ _ Hsetup) HR HQ Hf Hb Hd dirty_in_range)
    with (sib := sib) (version := INVALID_SNAPSHOT_VERSION)
    as (key & d & halves & [left right] & lp & rp & Hkey & Hsplit & Hloop & HL & HRt & Hlow & Hhigh & Hklen & _ & [Hgl Hgr] & [Hrl Hrr] & Hkeys & Hov).
  - split_and!; [rewrite Hl; apply H1|rewrite Hh; apply H2|eapply Forall_impl; [apply merged_short|by intros it [? _]]].
  - split; [by destruct (merged_bounds n m p q HR HQ Hsum) as (_ & _ & ?)|]. by rewrite Hdat.
  - done.
  - done.
  - by rewrite Hs.
  - by rewrite Hs1.
  - done.
  - cbn [fst snd] in *. rewrite Hs in HL, HRt. rewrite Hl in HL, Hlow. rewrite Hh in HRt, Hhigh.
    destruct split_key_found as (key' & d' & p1 & Hkey' & _ & _ & _ & _ & Hin). rewrite Hkey in Hkey'. injection Hkey' as <- _.
    exists key, d, halves, (map (rec_meta m) (p_recs q)), left, right, lp, rp.
    destruct (halves_view lf key lp rp left right ms es Hlow HL HRt Hview Hov) as [Hvl Hvr].
    destruct (Hkeys (limits cfg) (mi_short _ _ _ _ _ _ _ _ _ Hmini) Hsh) as [Hkl Hkr].
    split_and!; try done; [by apply repr_meta_iter|..].
    + rewrite Hdat, Hl in Hrl. split; [done..|by rewrite Hgl|done].
    + rewrite Hdat, Hh in Hrr. split; [done..|by rewrite Hgr|done].
Qed.

Lemma merge_and_split_spec X (e : env) race par :
  entry_with e lf n p → tmp_buffer e = Some (mkTmp true n) → growable (store e) → parent_node e = Some par → inner_wf par →
  wp X (merge_and_split mem cfg m n race) (merge_post e lf m q) e.
Proof.
  intros He Htmp Hgrow Hpar [r0 [rs Hwf]]. unfold merge_and_split, parent_upgrade. apply wp_bind.
  destruct (upgrade_ok race).
  2:{ wp_step. do 3 (split; [done|]). split; [by left|]. split; [done|]. split; [by left|]. by exists n, p. }
  wp_step. rewrite Hpar. apply (wp_lift _ _ par); [done|]. apply wp_bind.
  destruct split_key_found as (key & d & p1 & Hkey & Hb1 & He1 & Hkb & Hkl & _).
  eapply wp_lift; [exact Hkey|]. unfold put_base_page. wp_step.
  assert (entry_with (set_tmp e (Some (mkTmp true (set_data n d)))) lf (set_data n d) p1) as Hew by by eapply entry_with_put.
  destruct Hgrow as (Hroom & Hoff & l & Hl & Hpid).
  destruct (insert_cases par r0 rs key (from_id (zlen l)) Hwf Hkb Hkl) as [[Hsp _]|[Hsp (par' & rs' & Hins & _)]]; [by apply from_id_ok; pose proof (zlen_nonneg l); lia|rewrite Hsp..].
  { unfold parent_set_split_flag. wp_step. wp_step. do 3 (split; [done|]). split; [right; by left|]. split; [done|].
    split; [right; exists par, key; by rewrite Hpar|]. exists (set_data n d), p1. split; [by destruct Hew as [? ? ?]|]. rewrite He1.
    pose proof (re_order _ _ (mi_repr _ _ _ _ _ _ _ _ _ Hmini)) as Hord. split.
    - eapply mini_inv_es; [exact Hmini|]. intros k Hk. by apply replaced_visible.
    - intros k. rewrite replaced_overlay by done. apply Hview. }
  wp_step. destruct (alloc_base_spec (store e) l Hroom Hl) as (t & sib & Halloc & Ht & Hkeep & Hs1 & Hs2 & Hs3).
  destruct (split_halves sib Hs1 Hs2 Hs3) as (key' & d' & halves & metas & left & right & lp & rp & Hkey' & Hsplit & Hmetas & Hloop & HbL & HbR & Hlow & Hhigh & HvL & HvR).
  rewrite Hkey in Hkey'. injection Hkey' as <- Hd'.
  apply wp_bind. eapply wp_lift; [exact Halloc|]. wp_step. cbn [tmp_buffer store location].
  apply wp_bind. eapply wp_lift; [done|]. apply wp_bind. eapply wp_lift; [rewrite Hd'; exact Hsplit|].
  apply wp_bind. eapply wp_lift; [exact Hins|]. wp_step. apply wp_bind. eapply wp_lift; [exact Hmetas|].
  apply wp_bind. eapply wp_lift; [exact Hloop|]. wp_step. apply wp_bind. eapply wp_on_store'; [done|]. wp_step.
  cbn [set_store set_tmp set_parent store location tmp_buffer parent_node fst snd].
  destruct (sibling_written lf (store e) t key right rp (en_store _ _ _ _ _ _ _ _ He)) as (HI' & Hright & Hdisk & Howns); try done.
  { split_and!; try done. by exists l. }
  do 3 (split; [done|]). exists key. split; [split|].
  - done.
  - done.
  - done.
  - exact Hright.
  - split; [by intros; apply Howns|by intros; apply Hdisk|cbn; pose proof (su_leaf _ _ _ _ Hsetup); pose proof (su_fence _ _ _ _ Hsetup);
      unfold LEAF_HEADER, KV_META_SIZE in *; lia].
  - intros l' Hl'. by apply Ht.
  - exact (handed_refl _ (store e)).
  - intros k. eapply budget_grow; [done|intros l' Hl'; by apply Ht|]. cbn. unfold page_step, INNER_NODE_SIZE. lia.
  - exists (zlen l), par, par'. rewrite Hpar. split_and!; try done; [|apply zlen_nonneg]. intros l' Hl'. by apply Ht.
  - exists left, lp. split; [|exact HvL]. split; [done| |split; [exact HbL|by split]]. destruct He as [_ [Ho1 Ho2] _].
    split; [|done]. cbn. pose proof (su_leaf _ _ _ _ Hsetup); pose proof (su_fence _ _ _ _ Hsetup). unfold LEAF_HEADER, KV_META_SIZE in *; lia.
Qed.
End split.

Lemma merge_post_tmp (e : env) b lf m q r e' : merge_post (set_tmp e b) lf m q r e' → merge_post e lf m q r e'.
Proof.
  intros (H1 & H2 & H2' & H3). do 3 (split; [done|]). destruct r as [err|[|]]; [done|done|].
  destruct H3 as (key & [] & H3). exists key. by split.
Qed.

Lemma same_visible_overlay ms es es' k :
  (∀ k, visible (find_entry k es') = visible (find_entry k es)) → overlay ms es' k = overlay ms es k.
Proof. intros H. unfold overlay. by rewrite H. Qed.

Lemma try_merge_spec X (e : env) lf ptr o m q bn p race par :
  entry_with e lf bn p → location e = Mini ptr → owns (store e) ptr o m →
  mini_inv m q (lf_offset lf) (p_entries p) (lf_low lf) (lf_high lf) → (∀ k, lf_view lf k = overlay (p_entries q) (p_entries p) k) →
  merge_ready bn m (p_entries q) (p_entries p) → growable (store e) → parent_node e = Some par → inner_wf par →
  wp X (try_merge_mini_page mem cfg ptr race) (merge_post e lf m q) e.
Proof.
  intros He Hl Hown Hm Hv Hready Hgrow Hpar Hwf. pose proof He as [HI Ho (Hb & _)]. unfold try_merge_mini_page.
  destruct (version_ok race); cbn [negb].
  2:{ wp_step. do 3 (split; [done|]). split; [by left|]. split; [done|]. split; [by left|]. by exists bn, p. }
  apply wp_bind. eapply wp_cache_page; [exact Hown|].
  apply wp_bind. eapply wp_lift; [apply (need_merge_spec m q), Hm|]. destruct (negb _ && _) eqn:Hneed.
  { wp_step. do 3 (split; [done|]). split; [|done]. exists bn, p. split; [done|]. intros k.
    apply andb_true_iff in Hneed as [Hneed%negb_true_iff _]. rewrite Hv. by apply no_dirty_overlay. }
  apply wp_bind. eapply load_base_mut_spec; [done| |].
  { rewrite Hl. cbn. rewrite (owns_load _ _ _ _ Hown). ret_step. rewrite (mi_next _ _ _ _ _ _ _ _ _ Hm). unfold as_offset.
    by destruct Ho as [_ ->]. }
  destruct (consolidate_single_spec bn p _ _ Hb) as (n1 & p1 & Hcs & Hb1 & He1 & Hv1 & _).
  apply wp_bind. eapply wp_lift; [exact Hcs|]. unfold put_base_page. wp_step. rewrite set_tmp_twice. specialize (Hready n1 Hcs).
  assert (mini_inv m q (lf_offset lf) (p_entries p1) (lf_low lf) (lf_high lf)) as Hm1 by by eapply mini_inv_es.
  assert (∀ k, lf_view lf k = overlay (p_entries q) (p_entries p1) k) as Hview1.
  { intros k. rewrite Hv. symmetry. by apply same_visible_overlay. }
  destruct (merge_fits_base n1 p1 m q _ _ _ Hb1 Hm1) as (b & n2 & Hmerge & Hr).
  apply wp_bind. eapply wp_lift; [exact Hmerge|]. cbn [fst snd]. wp_step. rewrite set_tmp_twice. destruct b.
  - destruct Hr as (p2 & Hb2 & Hv2). wp_step. do 3 (split; [done|]). split; [|done]. exists n2, p2.
    split; [by eapply entry_with_put|]. intros k. by rewrite Hv2.
  - subst n2. destruct (Hready Hmerge) as (Htwo & Hsum & Hhalf). rewrite <- He1 in *. assert (entry_with (set_tmp e (Some (mkTmp true n1))) lf n1 p1) as Hew by by eapply entry_with_put.
    eapply wp_mono; [|apply merge_post_tmp].
    exact (merge_and_split_spec lf n1 m p1 q Hb1 Hm1 Hview1 Htwo Hsum Hhalf X _ race par Hew eq_refl Hgrow Hpar Hwf).
Qed.

(** Retiring the page of the leaf before and after does not matter for the split. *)
Lemma split_done_between (e e1 e2 e3 : env) ptr lf key :
  split_done e1 e2 lf key → pointers (location e) = [ptr] → location e1 = location e →
  parent_node e1 = parent_node e → parent_node e3 = parent_node e2 →
  step_at ptr (store e) (store e1) → frame [ptr] [] (store e2) (store e3) →
  handed (pointers (location e)) (pointers (location e3)) (store e) (store e3) → split_done e e3 lf key.
Proof.
  intros [H0 H1 H2 H3 H4 H5 _ H7 H6] Hp Hl Hpar1 Hpar3 Hst1 [Hfr3 Ht3 Ho3] Hhd. pose proof Hst1 as [_ _ Ho1 Ht1 _].
  rewrite Hl, Hp in H4. rewrite Ho1, Ht1, ?Hpar1 in *. split; try done.
  - eapply leaf_at_frame; [exact Hfr3| |by intros ? ?%elem_of_nil|exact H3]. apply not_elem_of_nil.
  - rewrite Hp. eapply untouched_trans; [by apply (step_at_frame mem cfg front mini ptr _ _ [] Hst1)|].
    by eapply untouched_trans; [exact H4|].
  - by rewrite Ht3.
  - intros n Hn. eapply budget_keep; [exact Ht3|lia|]. apply H7. eapply budget_keep; [exact Ht1|lia|done].
  - by rewrite Hpar3.
Qed.

Definition merge_done (e : env) (lf : leaf) (r : TreeError + unit) (e' : env) : Prop :=
  match r with
  | inl err => err ∈ [Locked; NeedRestart] ∧ entry_at e' lf ∧
      apart mem e e' ∧ parent_kept e e' ∧ location e' = location e
  | inr _ => location e' = Base (lf_offset lf) ∧
      ((merged_into e' lf ∧ keeps e e') ∨ ∃ key, split_done e e' lf key ∧ merged_into e' (left_leaf lf key))
  end.

Lemma merged_into_step (e : env) lf ptr s loc :
  merged_into e lf → step_at ptr (store e) s → merged_into (set_store (set_location e loc) s) lf.
Proof.
  intros (n & p & He & Hv) Hst. exists n, p. split; [|done]. by apply (entry_with_step _ _ _ _ ptr), Hst; apply entry_with_location.
Qed.

Lemma merge_and_dealloc_spec X (e : env) lf ptr m q bn p race par :
  entry_with e lf bn p → location e = Mini ptr → mini_at cfg front mini (store e) ptr Live m q (p_entries p) lf →
  merge_ready bn m (p_entries q) (p_entries p) → growable (store e) → parent_node e = Some par → inner_wf par →
  wp X (merge_mini_page_and_dealloc mem cfg ptr race) (merge_done e lf) e.
Proof.
  intros He Hl (Hown & Hm & Hne & Hv) Hready Hgrow Hpar Hwf. unfold merge_mini_page_and_dealloc. apply wp_bind.
  assert (pointers (location e) = [ptr]) as Hptr by by rewrite Hl.
  eapply begin_wp; [apply He|exact Hown| |].
  { intros s1 Hst1 Ho1. split; [right; by left|]. split; [|split; [by apply (apart_in_place mem cfg front mini _ _ ptr)|by split; [left|]]].
    exists bn, p. split; [by apply (entry_with_step _ _ _ _ ptr)|]. cbn [location set_store store]. rewrite Hl. by exists m, q. }
  intros s1 Hst1 Hheld. apply wp_bind. apply wp_on_error.
  assert (growable s1) as Hgrow1 by (destruct Hst1 as [_ _ Ho Ht _]; unfold growable; by rewrite Ho, Ht).
  eapply wp_mono; [eapply (try_merge_spec X (set_store e s1) lf ptr Held m q bn p race par); try done; by apply (entry_with_step _ _ _ _ ptr)|].
  intros r e2 (Hl2 & Hc2 & Hcb2 & Hr). cbn [set_store location store] in Hl2, Hc2, Hcb2.
  assert (owns (store e2) ptr Held m) as Hheld2 by (unfold owns; by rewrite Hc2, Hcb2). destruct r as [err|res].
  - destruct Hr as (Herr & Hs2 & Hpk & n2 & p2 & He2 & Hm2 & Hv2). cbn [set_store store] in Hs2.
    eapply release_wp; [apply He2|exact Hheld2|]. intros s3 Hst3 Hlive. rewrite Hs2 in Hst3. split; [done|].
    split; [|split; [|by split; [|cbn; rewrite Hl2]]].
    + exists n2, p2. split; [apply (entry_with_step _ _ _ _ ptr); [done|by rewrite Hs2]|]. cbn [location set_store store].
      rewrite Hl2, Hl. by exists m, q.
    + apply (apart_in_place mem cfg front mini _ _ ptr); [done|by cbn; rewrite Hl2|]. by eapply step_at_trans.
  - assert (SInv (store e2)) as HI2.
    { destruct res; [destruct Hr as ((n2 & p2 & He2 & _) & _)|destruct Hr as (key & _ & n2 & p2 & He2 & _)]; apply He2. }
    assert (next_level m = lf_offset lf) as Hnx by apply Hm. destruct (en_offset _ _ _ _ _ _ _ _ He) as [_ Hnull].
    apply wp_bind. eapply change_to_base_wp; [by rewrite Hl2|exact Hheld2|done|done|].
    eapply finish_wp; [exact HI2|exact Hheld2|]. cbn [set_location set_store store]. intros s3 Hst3 Hgone. split; [done|].
    destruct res as [|].
    + destruct Hr as (Hmi & Hs2 & Hp2). cbn [set_store store parent_node] in Hs2, Hp2. left.
      split; [by apply (merged_into_step e2 lf ptr)|]. split; [|done]. rewrite Hs2 in Hst3.
      apply (apart_gone mem cfg front mini _ _ ptr); [done|done| |done]. by eapply step_at_trans.
    + destruct Hr as (key & Hsd & Hmi). right. exists key. split; [|by apply (merged_into_step e2 _ ptr)].
      eapply (split_done_between e (set_store e s1) e2); try done; [by apply (step_at_frame mem cfg front mini)|].
      rewrite Hptr. eapply handed_trans; [eapply handed_gone; [exact Hst1|by eapply owns_not_live]|]. cbn [set_store set_location location store pointers].
      eapply handed_trans; [apply (handed_same _ _ (store e2)); by rewrite Hcb2|].
      eapply handed_other; [exact Hst3|by eapply owns_not_live|done].
Qed.

(** ** Full pages from base pages *)
Lemma clean_overlay ms es k : Forall (λ e, is_dirty (e_op e) = false) ms → overlay ms es k = visible (find_entry k es).
Proof.
  intros H. unfold overlay. destruct (find_entry k ms) as [e|] eqn:Hf; [|done]. apply find_entry_elem in Hf as [Hin _].
  rewrite Forall_forall in H. by rewrite (H e Hin).
Qed.

Lemma base_to_full n p low high off :
  base_inv n p low high →
  ∃ n1 q, covert_insert_records_to_cache n = Ret n1 ∧ full_inv (set_next_level n1 off) q off (p_entries p) low high ∧
    length (p_entries q) = length (p_entries p) ∧ ∀ k, visible (find_entry k (p_entries q)) = visible (find_entry k (p_entries p)).
Proof.
  intros [(HR & Hb & Hs & Hd & Hf) Hsh H1 H2 Hflag Hroom].
  destruct (to_cache_spec n p HR Hd) as (n1 & q & Hrun & HR1 & Hf1 & He1 & Hh1 & _). pose proof Hh1 as (_ & _ & _ & _ & Hs1 & _).
  apply andb_true_iff in Hb as [Hmode%negb_true_iff _].
  assert (∀ k, visible (find_entry k (p_entries q)) = visible (find_entry k (p_entries p))) as Hv by (intros k; rewrite He1; apply cached_visible).
  exists n1, q. split; [done|]. split; [|split; [by rewrite He1, length_map|done]]. split; try done.
  - by eapply repr_header; [exact HR1|..].
  - by rewrite Hf1.
  - cbn -[is_cache_only_leaf]. by rewrite (same_header_mode _ _ Hh1).
  - cbn. by rewrite Hs1.
  - unfold within in *. rewrite He1. by apply Forall_map.
  - change (leaf_get_split_flag _) with (leaf_get_split_flag n1). rewrite (same_header_flag _ _ Hh1). intros Hfl.
    by destruct (Hflag Hfl) as (? & ? & _).
  - intros k. rewrite Hv. apply clean_overlay. rewrite He1. apply Forall_map. eapply Forall_impl; [exact Hd|]. by intros [? [] ?].
Qed.

Lemma upgrade_full_spec X (e : env) lf n p off :
  entry_with e lf n p →
  wp X (upgrade_to_full_page mem cfg n off) (λ r e', ∃ s', e' = set_store e s' ∧
    match r with
    | inl err => err = CircularBufferFull ∧ ∀ ptr, step_at ptr (store e) s'
    | inr loc => ∃ ptr n' q, loc = FullPage ptr ∧ buf_owner (circular_buffer (store e)) ptr = None ∧ step_at ptr (store e) s' ∧
        owns s' ptr Live n' ∧ full_inv n' q off (p_entries p) (lf_low lf) (lf_high lf) ∧
        length (p_entries q) = length (p_entries p) ∧ ∀ k, visible (find_entry k (p_entries q)) = visible (find_entry k (p_entries p))
    end) e.
Proof.
  intros He. pose proof He as [HI Ho (Hb & _)]. unfold upgrade_to_full_page. apply wp_bind.
  assert (P ∈ classes) as HP by (apply elem_of_app; right; right; by left).
  destruct (alloc_page_spec mem cfg front mini (store e) P HI HP) as (r & s1 & Hrun & Hr).
  eapply wp_on_store; [exact Hrun|]. destruct r as [err|ptr]; [by exists s1|]. destruct Hr as (Hfree & Hst & Hown).
  apply wp_bind. eapply wp_lift; [destruct (bi_ok _ _ _ _ _ Hb) as (_ & _ & -> & _); by rewrite Z.eqb_refl|].
  destruct (base_to_full n p _ _ off Hb) as (n1 & q & Hconv & Hfull & Hlen & Hv).
  apply wp_bind. eapply wp_lift; [exact Hconv|]. unfold put_cache_page. wp_step. apply wp_bind.
  assert (step_at ptr (store e) (store_cache_page s1 ptr (set_next_level n1 off))) as Hst1.
  { eapply step_at_trans; [exact Hst|]. apply store_cache_step, Hst. }
  eapply publish_page_spec; [apply Hst1|by eapply store_cache_owns|]. intros s2 Hst2 Hlive. wp_step. exists s2. split; [done|].
  exists ptr, (set_next_level n1 off), q. split_and!; try done. by eapply step_at_trans.
Qed.

(** What an insertion that has to be repeated leaves: the same leaf, or its two parts. *)
Definition same_or_split (e : env) (lf : leaf) (e' : env) : Prop :=
  (entry_at e' lf ∧ apart mem e e' ∧ parent_kept e e') ∨
  ∃ key, split_done e e' lf key ∧ entry_at e' (left_leaf lf key).

(** The leaf that the entry stands for once the mini page is merged. *)
Definition now_leaf (e e1 : env) (lf lf1 : leaf) : Prop :=
  (lf1 = lf ∧ keeps e e1) ∨ ∃ key, lf1 = left_leaf lf key ∧ split_done e e1 lf key.

Lemma now_leaf_finish (e e1 e2 : env) lf lf1 ptr :
  now_leaf e e1 lf lf1 → SInv (store e) → pointers (location e) = [ptr] → pointers (location e1) = [] → apart mem e1 e2 →
  parent_node e2 = parent_node e1 →
  entry_at e2 lf1 → same_or_split e lf e2.
Proof.
  intros Hn HI Hp Hp1 Hap Hpar He. destruct Hn as [[-> [Hf Hpk]]|(key & -> & Hsd)].
  - left. split; [done|]. split; [by eapply (apart_trans _ e e1 e2)|]. left. congruence.
  - right. exists key. split; [|done]. destruct Hap as [Hfr Hhd]. rewrite Hp1 in Hfr, Hhd. pose proof (sd_handed _ _ _ _ Hsd) as Hhd1.
    eapply (split_done_between e e e1 e2 ptr); try done; [eapply frame_weaken; [| |exact Hfr]; [|done]; by intros ? ?%elem_of_nil|].
    rewrite Hp1 in Hhd1. by eapply handed_trans.
Qed.

Lemma merged_base (e : env) lf n p :
  entry_with e lf n p → (∀ k, lf_view lf k = visible (find_entry k (p_entries p))) → location e = Base (lf_offset lf) → entry_at e lf.
Proof. intros He Hv Hl. exists n, p. split; [done|]. rewrite Hl. by split. Qed.

(** The base page comes back as a full page, or stays. *)
Lemma load_full_spec X (e : env) lf n0 p0 err :
  entry_with e lf n0 p0 → (∀ k, lf_view lf k = visible (find_entry k (p_entries p0))) → location e = Base (lf_offset lf) →
  wp X (_ ← (offset ← lift (as_offset (lf_offset lf));
             base ← load_base_page mem offset;
             cnt ← lift (meta_count_without_fence (leaf_meta base));
             if cnt =? 0 then mret tt else l ← upgrade_to_full_page mem cfg base (lf_offset lf); create_cache_page_loc l);
        throw err)
    (λ (r : TreeError + unit) e', (r = inl err ∨ r = inl CircularBufferFull) ∧ entry_at e' lf ∧ apart mem e e' ∧
      parent_node e' = parent_node e) e.
Proof.
  intros He Hv Hl. pose proof He as [HI [Ho1 Ho2] (Hb & _)]. apply wp_bind, wp_bind.
  eapply wp_lift; [unfold as_offset; rewrite Ho2; done|]. apply wp_bind. eapply load_base_spec; [exact He|]. intros d Hed _.
  destruct (bi_ok _ _ _ _ _ Hb) as (HR & _ & _ & _ & l & h & Hf & _).
  apply wp_bind. eapply wp_lift; [apply (records_count n0 p0 l h HR Hf)|]. zcase (zlen (p_recs p0) =? 0).
  - wp_step. wp_step. split; [by left|]. split; [by eapply merged_base|]. apply keeps_tmp.
  - apply wp_bind. eapply wp_mono; [by apply (upgrade_full_spec X _ lf n0 p0 (lf_offset lf))|].
    intros r e2 (s2 & -> & Hr). destruct r as [err2|loc].
    + destruct Hr as [-> Hst]. split; [by right|]. pose proof (Hst 0) as Hst0. cbn [set_tmp store] in Hst, Hst0.
      split; [by eapply merged_base; [by apply (entry_with_step _ _ _ _ 0)|..]|].
      split; [by apply (apart_all mem cfg front mini)|done].
    + destruct Hr as (ptr & n' & q & -> & Hfree & Hst & Hlive & Hfull & Hlen & Hv'). cbn [set_tmp store] in Hst, Hfree.
      unfold create_cache_page_loc. wp_step. wp_step. split; [by left|]. split.
      * exists n0, p0. split; [by apply entry_with_location, (entry_with_step _ _ _ _ ptr)|]. exists n', q. split; [done|].
        split; [done|]. split; [|intros k; by rewrite Hv, Hv']. intros Hnil. rewrite Hnil in Hlen. unfold p_entries in Hlen.
        rewrite length_map in Hlen. unfold zlen in *. cbn in Hlen. lia.
      * split; [by apply (apart_new mem cfg front mini _ _ ptr); [rewrite Hl|..]|done].
Qed.

Lemma insert_merge_spec X (e : env) lf ptr m q bn p race par :
  entry_with e lf bn p → location e = Mini ptr → mini_at cfg front mini (store e) ptr Live m q (p_entries p) lf →
  merge_ready bn m (p_entries q) (p_entries p) → growable (store e) → parent_node e = Some par → inner_wf par →
  wp X (insert_merge mem cfg ptr race) (λ r e', ∃ err, r = inl err ∧ same_or_split e lf e') e.
Proof.
  intros He Hl Hat Hready Hgrow Hpar Hwf. pose proof Hat as (Hown & Hm & _). unfold insert_merge.
  apply wp_bind. eapply wp_cache_page; [exact Hown|]. rewrite (mi_next _ _ _ _ _ _ _ _ _ Hm).
  apply wp_bind. unfold expect_parent. wp_step. apply wp_bind. apply (wp_lift _ _ par); [by rewrite Hpar|]. wp_step.
  apply wp_bind. eapply wp_mono; [by eapply merge_and_dealloc_spec|].
  assert (pointers (location e) = [ptr]) as Hptr by by rewrite Hl.
  intros r e1 Hr. destruct r as [err|[]].
  { destruct Hr as (_ & He1 & Hfr & Hpk & _). exists err. split; [done|]. by left. }
  destruct Hr as [Hl1 Hr].
  assert (∃ lf1, lf_offset lf1 = lf_offset lf ∧ now_leaf e e1 lf lf1 ∧ merged_into e1 lf1) as (lf1 & Hoff & Hnow & n1 & p1 & He1 & Hv1).
  { destruct Hr as [[Hmi Hk]|(key & Hsd & Hmi)]; [exists lf|exists (left_leaf lf key)]; split_and!; try done; [by left|right; by exists key]. }
  rewrite <- Hoff in *. destruct (write_load_full_page cfg).
  - eapply wp_mono; [by eapply (load_full_spec X e1 lf1 n1 p1 NeedRestart)|].
    intros r e2 (Hr2 & He2 & Hfr & Hp2). destruct r as [err|[]]; [|by destruct Hr2]. exists err. split; [done|].
    eapply now_leaf_finish; try done; [apply He|by rewrite Hl1].
  - wp_step. wp_step. exists NeedRestart. split; [done|].
    eapply (now_leaf_finish e e1 e1); try done; [apply He|by rewrite Hl1|split; [apply frame_refl|apply handed_refl]|].
    by eapply merged_base.
Qed.

(** ** Insertion *)
Lemma store_cache_id (e : env) ptr o n : owns (store e) ptr o n → set_store e (store_cache_page (store e) ptr n) = e.
Proof.
  intros [Hc _]. destruct e as [[b c d no t] l tm pa]. unfold set_store, store_cache_page, set_cache. cbn in *.
  by rewrite insert_id.
Qed.

Section insertion.
Context (key value : bytes) (op : OpType).
Hypothesis Hok : entry_ok (mkEntry key op value).
Hypothesis Hlim : limits cfg key value.
Abbreviation new_value := (visible (Some (mkEntry key op value))).

(** The result of an insertion: the leaf has the new value; or it has to be repeated, on the
    same leaf or on one of its parts. *)
Definition inserted_or_not (e : env) (lf : leaf) (r : TreeError + unit) (e' : env) : Prop :=
  match r with
  | inr _ => entry_at e' (leaf_update lf key new_value) ∧ keeps e e' ∧ (is_dirty op = true → movable (store e') (location e'))
  | inl _ => same_or_split e lf e'
  end.

Lemma insert_post_weaken (e : env) lf errs r e' :
  insert_post mem cfg front mini key value op e lf errs r e' → inserted_or_not e lf r e'.
Proof. destruct r as [err|[]]; [|done]. intros (_ & He & Hf & Hp). left. split; [done|]. split; [done|]. by left. Qed.

(** Where a merge is needed it can be carried out. *)
Definition mergeable (e : env) (lf : leaf) : Prop :=
  ∀ ptr m q bn p, location e = Mini ptr → entry_with e lf bn p → mini_at cfg front mini (store e) ptr Live m q (p_entries p) lf →
    merge_ready bn m (p_entries q) (p_entries p).

(** A clean record is a copy of what the leaf holds, and a mini page has no record for the key. *)
Definition copy_ok (e : env) (lf : leaf) : Prop :=
  is_dirty op = false → new_value = lf_view lf key ∧
    ∀ ptr m q, location e = Mini ptr → owns (store e) ptr Live m → Repr m q → find_entry key (p_entries q) = None.

Lemma insert_mini_spec X (e : env) lf ptr race par :
  entry_at e lf → location e = Mini ptr → in_bounds (lf_low lf) (lf_high lf) key → copy_ok e lf →
  mergeable e lf → growable (store e) → parent_node e = Some par → inner_wf par →
  wp X (insert_mini mem cfg classes ptr key value op false race) (inserted_or_not e lf) e.
Proof.
  intros (bn & p & He & Hp) Hl Hk Hcopy Hready Hgrow Hpar Hwf. rewrite Hl in Hp. destruct Hp as (m & q & Hown & Hm & Hne & Hv).
  assert (mini_at cfg front mini (store e) ptr Live m q (p_entries p) lf) as Hat by done.
  pose proof He as [HI [Ho1 Ho2] _]. unfold insert_mini. wp_step. cbn [andb]. wp_step.
  apply wp_bind. eapply wp_cache_page; [exact Hown|]. apply wp_bind.
  eapply wp_lift; [by rewrite (mi_next _ _ _ _ _ _ _ _ _ Hm), Ho2|].
  assert (clean_ok key value op (p_entries q) (p_entries p)) as Hc.
  { intros Hd. destruct (Hcopy Hd) as [Hc1 Hc2]. specialize (Hc2 ptr m q Hl Hown (mi_repr _ _ _ _ _ _ _ _ _ Hm)).
    split; [done|]. rewrite Hc1, Hv. unfold overlay. by rewrite Hc2. }
  destruct (mini_insert cfg front mini key value op Hok Hlim m q _ _ _ _ Hm Ho2 Hk Hc) as (b & m' & Hins & Hb).
  apply wp_bind. eapply insert_cached_spec; [exact Hown|exact Hins|].
  assert (step_at ptr (store e) (store_cache_page (store e) ptr m')) as Hst by by apply store_cache_step.
  destruct b.
  - wp_step. destruct Hb as (q' & Hm' & [Hne' Hmv'] & Hv'). split; [|split].
    + exists bn, p. split; [by apply entry_with_update, (entry_with_step _ _ _ _ ptr)|]. cbn [location set_store store]. rewrite Hl.
      exists m', q'. split; [by eapply store_cache_owns|]. split; [done|]. split; [done|]. intros k. rewrite Hv'. cbn. unfold view_insert.
      case_bool_decide; [done|apply Hv].
    + split; [|done]. by apply (apart_in_place mem cfg front mini _ _ ptr); [rewrite Hl|..].
    + intros Hd. cbn [location set_store store]. rewrite Hl. exists m', q'. split; [by eapply store_cache_owns|].
      split; [apply Hm'|by apply Hmv'].
  - subst m'. rewrite (store_cache_id _ _ _ _ Hown).
    assert (0 <= key_value_physical_size key value) as Hnn.
    { unfold key_value_physical_size, KV_META_SIZE. pose proof (zlen_nonneg key). pose proof (zlen_nonneg value). lia. }
    destruct (new_size_spec front mini P (su_classes _ _ _ _ Hsetup) m _ Hnn (mi_size _ _ _ _ _ _ _ _ _ Hm)) as (r & Hns & Hr).
    apply wp_bind. eapply wp_lift; [exact Hns|]. destruct r as [size|].
    + destruct Hr as [Hs Hsize]. eapply wp_mono; [by eapply insert_upgrade_spec|]. intros r e'. apply insert_post_weaken.
    + eapply wp_mono; [eapply insert_merge_spec; try done; by eapply Hready|]. by intros r e' (err & -> & Hso).
Qed.

Lemma insert_root_location (e : env) r e' : insert_root_base mem cfg key value op e = Ret (r, e') → location e' = location e.
Proof.
  unfold insert_root_base, load_base_page_mut, mbind, SE_bind. intros H.
  destruct (tmp_buffer e) as [b|]; [|destruct (base_offset_of _ _); [|done]]; cbn [lift] in H; unfold lift in H;
    destruct (leaf_insert _ _ _ _ _) as [[[] n]|]; try done; by injection H as _ <-.
Qed.

(** Inserting in a leaf of the disk mode. *)
Lemma entry_insert_spec X (e : env) lf race :
  entry_at e lf → in_bounds (lf_low lf) (lf_high lf) key → copy_ok e lf → mergeable e lf → growable (store e) →
  (pointers (location e) = [] → parent_node e = None → is_dirty op = true ∧ lf_low lf = [] ∧ lf_high lf = []) →
  (∀ ptr, location e = FullPage ptr → tmp_buffer e = None ∧ is_dirty op = true) →
  (∀ ptr, location e = Mini ptr → parent_node e ≠ None) → (∀ par, parent_node e = Some par → inner_wf par) →
  wp X (entry_insert mem cfg classes key value op race) (λ r e', inserted_or_not e lf r e' ∧
    (pointers (location e) = [] → parent_node e = None → location e' = location e)) e.
Proof.
  intros He Hk Hcopy Hready Hgrow Hroot Hfull Hmini Hwf. unfold entry_insert. rewrite (su_disk_mode _ _ _ _ Hsetup). wp_step.
  destruct (location e) as [ptr|ptr|off|] eqn:Hl.
  - destruct (parent_node e) as [par|] eqn:Hpar; [|by destruct (Hmini ptr eq_refl)].
    eapply wp_mono; [eapply insert_mini_spec; try done; by apply Hwf|]. by intros r e' H.
  - destruct (Hfull ptr eq_refl) as [Htmp Hd]. eapply wp_mono; [by eapply insert_full_spec|]. intros r e' Hi. split; [by eapply insert_post_weaken|done].
  - pose proof He as (bn & p & _ & Hp). rewrite Hl in Hp. destruct Hp as [-> _]. destruct (parent_node e) eqn:Hpar.
    + eapply wp_mono; [eapply insert_base_spec; try done|intros r e' Hi; split; [by eapply insert_post_weaken|done]].
      intros Hd. by destruct (Hcopy Hd).
    + eapply wp_mono; [eapply wp_run; [eapply insert_root_base_spec; try done; by apply Hroot|apply insert_root_location]|].
      intros r e' [Hi Hloc]. split; [by eapply insert_post_weaken|]. intros _ _. by rewrite Hloc.
  - destruct He as (bn & p & _ & Hp). by rewrite Hl in Hp.
Qed.
End insertion.
End merge.
