(* ===== verification/TreeLeaves.v ===== *)
(** All the leaves of a tree in the storage: the page table lists them, and an operation on one of them
    under its lock leaves the others as they are. *)
From stdpp Require Import base numbers list sorting option gmap.
From Stdlib Require Import ZArith Lia.
From S2P Require Import Prelude NodeMeta LeafNode LeafOps Entries LeafRepr Config CircularBuffer StateError Storage LeafEntry EntryInv EntryLeaf EntryInsert EntryMerge.

Section leaves.
Context {B T F : Type} {RB : RecordBound} `{HPB : PageBuffer B} `{HBL : !PageBufferLaws B} `{HPM : PageMap T} `{HML : !PageMapLaws T}.
Context (mem : memory) (cfg : @Config F) (front : list Z) (mini : Z).
Abbreviation storage := (LeafStorage B T).
Abbreviation env := (@env B T).
Abbreviation SInv := (SInv cfg front mini).
Abbreviation leaf_at := (leaf_at mem cfg front mini).
Abbreviation entry_at := (entry_at mem cfg front mini).
Abbreviation untouched := (untouched mem).
Hypothesis Hsetup : Setup mem cfg front mini.

(** Every page in use belongs to a leaf, but for those of [exc], which are in use and belong to none. *)
Definition owned (exc : list Z) (s : storage) (locs : list PageLocation) : Prop :=
  (∀ p, buf_owner (circular_buffer s) p = Some Live → (p ∈ exc) ∨ ∃ i loc, locs !! i = Some loc ∧ p ∈ pointers loc) ∧
  ∀ p, p ∈ exc → buf_owner (circular_buffer s) p = Some Live ∧ ∀ i loc, locs !! i = Some loc → p ∉ pointers loc.

Record leaves_at (exc : list Z) (s : storage) (ls : list leaf) : Prop := {
  lv_inv : SInv s;
  lv_list : ∃ locs, map_list (page_table s) locs ∧ Forall2 (leaf_at s) ls locs ∧ owned exc s locs;
  lv_offsets : NoDup (map lf_offset ls);
}.

Implicit Types (s : storage) (lf : leaf).

Lemma offset_unique ls i j lf lf' :
  NoDup (map lf_offset ls) → ls !! i = Some lf → ls !! j = Some lf' → lf_offset lf = lf_offset lf' → i = j.
Proof.
  intros Hnd Hi Hj He. apply (NoDup_lookup _ i j (lf_offset lf) Hnd); rewrite list_lookup_fmap, ?Hi, ?Hj; [done|]. by rewrite He.
Qed.

(** A cached page knows its leaf. *)
Lemma pointer_offset s lf loc ptr :
  leaf_at s lf loc → ptr ∈ pointers loc → ∃ n, owns s ptr Live n ∧ next_level n = lf_offset lf.
Proof.
  intros (_ & p & _ & Hp) Hin. destruct loc as [q|q|o|]; cbn in Hin, Hp; try by apply elem_of_nil in Hin.
  - apply list_elem_of_singleton in Hin as ->. destruct Hp as (n & x & Ho & Hm & _). exists n. split; [done|apply Hm].
  - apply list_elem_of_singleton in Hin as ->. destruct Hp as (n & x & Ho & Hm & _). exists n. split; [done|apply Hm].
Qed.

Lemma pointer_unique s lf lf' loc loc' ptr :
  leaf_at s lf loc → leaf_at s lf' loc' → ptr ∈ pointers loc → ptr ∈ pointers loc' → lf_offset lf = lf_offset lf'.
Proof.
  intros H1 H2 Hp Hp'. destruct (pointer_offset _ _ _ _ H1 Hp) as (n & [Hn _] & <-).
  destruct (pointer_offset _ _ _ _ H2 Hp') as (n' & [Hn' _] & <-). congruence.
Qed.

(** The table is not part of a leaf. *)
Lemma leaf_at_table s lf loc t : leaf_at s lf loc → leaf_at (set_table s t) lf loc.
Proof. done. Qed.

Lemma leaves_lock exc s ls i lf :
  leaves_at exc s ls → ls !! i = Some lf →
  ∃ loc, leaf_at s lf loc ∧ ∀ par, get_entry s (Z.of_nat i) par = Ret (mkEnv s loc None par) ∧ entry_at (mkEnv s loc None par) lf.
Proof.
  intros [HI (locs & Hl & Hall & _) _] Hi. destruct (Forall2_lookup_l _ _ _ _ _ Hall Hi) as (loc & Hloc & Hat).
  exists loc. split; [done|]. intros par. split; [|by apply entry_at_get]. unfold get_entry.
  rewrite (map_get_law _ locs (Z.of_nat i) loc Hl) by (lia || by rewrite Nat2Z.id). by ret_step.
Qed.

(** What an operation on a locked leaf may leave: the leaf, with another contents, new leaves, and
    pages [left] that are in use and are no longer part of the leaf. *)
Record leaf_step (left : list Z) (s : storage) (loc : PageLocation) (lf : leaf) (e' : env) (lf' : leaf) (new : list leaf) : Prop := {
  ls_entry : entry_at e' lf';
  ls_offset : lf_offset lf' = lf_offset lf;
  ls_rest : untouched (pointers loc) [] s (store e');
  ls_handed : handed (pointers loc) (left ++ pointers (location e')) s (store e');
  ls_left : ∀ p, p ∈ left → buf_owner (circular_buffer (store e')) p = Some Live ∧ p ∉ pointers (location e');
  ls_table : ∀ l, map_list (page_table s) l → map_list (page_table (store e')) (l ++ map (λ x, Base (lf_offset x)) new);
  ls_new : Forall (λ x, leaf_at (store e') x (Base (lf_offset x)) ∧ next_available_offset s <= lf_offset x) new;
  ls_nodup : NoDup (map lf_offset new);
  ls_budget : ∀ n, budget cfg (S n) s → budget cfg n (store e');
}.

Lemma step_owned left s loc lf e' lf' new p :
  leaf_step left s loc lf e' lf' new → buf_owner (circular_buffer (store e')) p = Some Live →
  (p ∈ left) ∨ (p ∈ pointers (location e')) ∨ ((p ∉ pointers loc) ∧ buf_owner (circular_buffer s) p = Some Live).
Proof. intros [_ _ _ Hh _ _ _ _ _] Hp. destruct (Hh p) as [[[?|?]%elem_of_app|?] _]; auto. Qed.

(** The two outcomes of the operations on an entry. *)
Lemma leaf_step_apart e e' lf lf' :
  entry_at e' lf' → lf_offset lf' = lf_offset lf → apart mem e e' → leaf_step [] (store e) (location e) lf e' lf' [].
Proof.
  intros He Ho [[Hu Ht Hn] Hh]. split; try done; try by constructor.
  - by intros p ?%elem_of_nil.
  - intros l Hl. cbn. by rewrite app_nil_r, Ht.
  - intros n. apply budget_less; [done|]. pose proof (page_step_pos mem cfg front mini Hsetup). lia.
Qed.

Lemma leaf_step_split e e' lf key :
  entry_at e' (left_leaf lf key) → split_done mem cfg front mini e e' lf key →
  leaf_step [] (store e) (location e) lf e' (left_leaf lf key) [right_leaf lf key (next_available_offset (store e))].
Proof.
  intros He [_ _ _ Hr Hu Ht Hh Hb _]. split; try done; [by intros p ?%elem_of_nil|apply Forall_singleton; split; [done|cbn; lia]|apply NoDup_singleton].
Qed.

Section put.
Context (left exc : list Z) (s : storage) (ls : list leaf) (locs : list PageLocation) (i : nat) (lf : leaf) (loc : PageLocation).
Context (e' : env) (lf' : leaf) (new : list leaf) (s1 : storage).
Hypothesis Hall : Forall2 (leaf_at s) ls locs.
Hypothesis Hnd : NoDup (map lf_offset ls).
Hypothesis Hi : ls !! i = Some lf.
Hypothesis Hloc : locs !! i = Some loc.
Hypothesis Hstep : leaf_step left s loc lf e' lf' new.
Hypothesis Hs1 : leaf_at s1 lf' (location e').
Hypothesis Hframe : untouched [] [lf_offset lf] (store e') s1.
Abbreviation ls' := (<[i:=lf']> ls ++ new).
Abbreviation locs' := (<[i:=location e']> locs ++ map (λ x, Base (lf_offset x)) new).

Lemma old_at j x : ls !! j = Some x → ∃ xloc, locs !! j = Some xloc ∧ leaf_at s x xloc.
Proof. apply (Forall2_lookup_l _ _ _ _ _ Hall). Qed.

Lemma old_below x : x ∈ ls → lf_offset x < next_available_offset s.
Proof. intros [j Hj]%list_elem_of_lookup. destruct (old_at j x Hj) as (xloc & _ & [[Ho _] _]). lia. Qed.

Lemma old_kept j x xloc : ls !! j = Some x → j ≠ i → leaf_at s x xloc → leaf_at s1 x xloc.
Proof.
  intros Hj Hne Hx. assert (lf_offset x ≠ lf_offset lf) as Hoff by (intros He; apply Hne; by eapply offset_unique).
  destruct (old_at i lf Hi) as (loc' & Hloc' & Hat). rewrite Hloc in Hloc'. injection Hloc' as <-.
  eapply leaf_at_frame; [exact Hframe|by rewrite list_elem_of_singleton|intros ptr _; apply not_elem_of_nil|].
  eapply leaf_at_frame; [apply Hstep|apply not_elem_of_nil| |exact Hx].
  intros ptr Hp Hp'. apply Hoff. by eapply pointer_unique.
Qed.

Lemma all_kept : Forall2 (leaf_at s1) ls' locs'.
Proof.
  apply Forall2_app.
  - apply Forall2_same_length_lookup. split; [rewrite !length_insert; by eapply Forall2_length|]. intros j x xloc Hj Hxloc.
    destruct (decide (j = i)) as [->|Hne].
    + rewrite list_lookup_insert_eq in Hj by by eapply lookup_lt_Some. injection Hj as <-.
      rewrite list_lookup_insert_eq in Hxloc by by eapply lookup_lt_Some. by injection Hxloc as <-.
    + rewrite list_lookup_insert_ne in Hj by done. rewrite list_lookup_insert_ne in Hxloc by done. destruct (old_at j x Hj) as (xloc' & Hx' & Hat). rewrite Hxloc in Hx'.
      injection Hx' as <-. by eapply old_kept.
  - apply Forall2_fmap_r, Forall_Forall2_diag. pose proof (ls_new _ _ _ _ _ _ _ Hstep) as Hn. eapply Forall_impl; [exact Hn|].
    intros x [Hx Hge]. eapply leaf_at_frame; [exact Hframe| |intros ptr _; apply not_elem_of_nil|exact Hx].
    rewrite list_elem_of_singleton. pose proof (old_below lf (list_elem_of_lookup_2 _ _ _ Hi)). lia.
Qed.

Lemma offsets_kept : NoDup (map lf_offset ls').
Proof.
  rewrite map_app. assert (map lf_offset (<[i:=lf']> ls) = map lf_offset ls) as ->.
  { rewrite list_fmap_insert, (ls_offset _ _ _ _ _ _ _ Hstep). apply list_insert_id. by rewrite list_lookup_fmap, Hi. }
  apply NoDup_app. split; [done|]. split; [|apply Hstep]. intros o (x & -> & Hx)%list_elem_of_fmap (y & He & Hy)%list_elem_of_fmap.
  pose proof (ls_new _ _ _ _ _ _ _ Hstep) as Hn. rewrite Forall_forall in Hn. destruct (Hn y Hy) as [_ Hge].
  pose proof (old_below x Hx). lia.
Qed.

(** A page that is left, or was left before, is not in the new table. *)
Lemma not_in_table p :
  p ∉ pointers (location e') → (∀ j xloc, j ≠ i → locs !! j = Some xloc → p ∉ pointers xloc) → ∀ j xloc, locs' !! j = Some xloc → p ∉ pointers xloc.
Proof.
  intros Hp Hold j xloc. rewrite lookup_app_Some. intros [Hj|[_ Hj]].
  - destruct (decide (j = i)) as [->|Hne]; [|rewrite list_lookup_insert_ne in Hj by done; by eapply Hold].
    rewrite list_lookup_insert_eq in Hj by by eapply lookup_lt_Some. by injection Hj as <-.
  - apply list_elem_of_lookup_2, list_elem_of_fmap in Hj as (y & -> & _). apply not_elem_of_nil.
Qed.

Lemma left_apart p : circular_buffer s1 = circular_buffer (store e') → p ∈ left →
  buf_owner (circular_buffer s1) p = Some Live ∧ ∀ j xloc, locs' !! j = Some xloc → p ∉ pointers xloc.
Proof.
  intros Hcb Hp. destruct (ls_left _ _ _ _ _ _ _ Hstep p Hp) as [Hlive Hnew]. split; [by rewrite Hcb|]. apply not_in_table; [done|].
  intros j xloc Hne Hj Hin. destruct (Forall2_lookup_r _ _ _ _ _ Hall Hj) as (y & Hy & Hat). destruct (old_at i lf Hi) as (loc' & Hloc' & Hat').
  rewrite Hloc in Hloc'. injection Hloc' as <-. destruct (ls_handed _ _ _ _ _ _ _ Hstep p) as (_ & Hh & _).
  destruct Hh as [Hold|Hn]; [apply elem_of_app; by left| |].
  - apply Hne. eapply offset_unique; [done|exact Hy|exact Hi|]. by eapply pointer_unique.
  - destruct (pointer_offset _ _ _ _ Hat Hin) as (n & [_ Hl] & _). done.
Qed.

Lemma exc_apart p : circular_buffer s1 = circular_buffer (store e') → p ∈ exc → owned exc s locs →
  buf_owner (circular_buffer s1) p = Some Live ∧ ∀ j xloc, locs' !! j = Some xloc → p ∉ pointers xloc.
Proof.
  intros Hcb Hp [_ Hx]. destruct (Hx p Hp) as [Hlive Hout]. destruct (ls_handed _ _ _ _ _ _ _ Hstep p) as (_ & Hh & Hl). split.
  - rewrite Hcb. apply Hl; [by eapply Hout|done].
  - apply not_in_table; [|by eauto]. intros Hin. destruct Hh as [Hold|Hn]; [apply elem_of_app; by right|by eapply Hout|done].
Qed.

Lemma owned_kept : circular_buffer s1 = circular_buffer (store e') → owned exc s locs → owned (left ++ exc) s1 locs'.
Proof.
  intros Hcb [Ho Hx]. split; [|intros p [Hp|Hp]%elem_of_app; [by apply left_apart|by apply exc_apart]].
  intros p Hp. rewrite Hcb in Hp. destruct (step_owned _ _ _ _ _ _ _ _ Hstep Hp) as [Hin|[Hin|[Hout Hlive]]].
  - left. apply elem_of_app. by left.
  - right. exists i, (location e'). split; [|done]. rewrite lookup_app_l by (rewrite length_insert; by eapply lookup_lt_Some).
    by rewrite list_lookup_insert_eq by by eapply lookup_lt_Some.
  - destruct (Ho p Hlive) as [?|(j & xloc & Hj & Hin)]; [left; apply elem_of_app; by right|]. right. exists j, xloc. split; [|done].
    assert (j ≠ i) as Hne by (intros ->; congruence). rewrite lookup_app_l by (rewrite length_insert; by eapply lookup_lt_Some).
    by rewrite list_lookup_insert_ne.
Qed.
End put.

(** A write to the page table costs nothing. *)
Lemma budget_put s s' n l l' :
  budget cfg n s → next_available_offset s' = next_available_offset s → (∀ k, map_room (page_table s) k → map_room (page_table s') k) →
  map_list (page_table s) l → map_list (page_table s') l' → length l' = length l → budget cfg n s'.
Proof.
  intros (H1 & H2 & l0 & Hl0 & Hlen) Ho Hr Hl Hl' Heq. split; [by apply Hr|]. rewrite Ho. split; [done|]. exists l'. split; [done|].
  unfold zlen in *. rewrite Heq, (map_length_law _ _ _ Hl Hl0). done.
Qed.

(** The location of an entry is the one of the page table. *)
Lemma get_location s locs i loc loc' :
  map_list (page_table s) locs → locs !! i = Some loc' → (∀ par, get_entry s (Z.of_nat i) par = Ret (mkEnv s loc None par)) → loc' = loc.
Proof.
  intros Hl Hi Hget. specialize (Hget None). unfold get_entry in Hget.
  rewrite (map_get_law _ locs (Z.of_nat i) loc' Hl) in Hget by (lia || by rewrite Nat2Z.id). by injection Hget.
Qed.

(** The drop of the entry writes the leaf and its location back. *)
Lemma leaves_put left exc s ls i lf loc e' lf' new :
  leaves_at exc s ls → ls !! i = Some lf → (∀ par, get_entry s (Z.of_nat i) par = Ret (mkEnv s loc None par)) →
  leaf_at s lf loc → leaf_step left s loc lf e' lf' new →
  ∃ s', put_entry e' (Z.of_nat i) = Ret s' ∧ leaves_at (left ++ exc) s' (<[i:=lf']> ls ++ new) ∧
    circular_buffer s' = circular_buffer (store e') ∧ ∀ n, budget cfg (S n) s → budget cfg n s'.
Proof.
  intros [HI (locs & Hl & Hall & Ho) Hnd] Hi Hget Hat Hstep. destruct (Forall2_lookup_l _ _ _ _ _ Hall Hi) as (loc' & Hloc & Hat').
  pose proof (get_location s locs i loc loc' Hl Hloc Hget) as ->.
  destruct (drop_entry_spec mem cfg front mini e' lf' (ls_entry _ _ _ _ _ _ _ Hstep)) as (s1 & Hdrop & HI1 & Hs1 & [Hfr _] & Ht1 & Hc1 & Hb1 & Hn1).
  rewrite (ls_offset _ _ _ _ _ _ _ Hstep) in Hfr. unfold put_entry. rewrite Hdrop. ret_step.
  pose proof (ls_table _ _ _ _ _ _ _ Hstep _ Hl) as Hl1. rewrite <- Ht1 in Hl1.
  destruct (map_put_law _ _ (Z.of_nat i) (location e') Hl1) as (t & -> & Ht & Hroom).
  { apply lookup_lt_Some in Hloc. unfold zlen. rewrite length_app. lia. }
  ret_step. rewrite Nat2Z.id, insert_app_l in Ht by by eapply lookup_lt_Some. exists (set_table s1 t). split; [done|].
  split; [|split; [done|intros n Hn; eapply (budget_put (store e')); [by apply (ls_budget _ _ _ _ _ _ _ Hstep)|exact Hn1|by rewrite <- Ht1|rewrite <- Ht1; exact Hl1|exact Ht|by rewrite !length_app, length_insert]]].
  split; [by destruct HI1| |by eapply offsets_kept].
  eexists. split; [exact Ht|]. split; [by eapply (all_kept left s ls locs i lf loc e' lf' new s1)|by eapply owned_kept].
Qed.

(** The drop of an entry that has not changed. *)
Lemma leaves_reput exc s ls i lf loc e' :
  leaves_at exc s ls → ls !! i = Some lf → (∀ par, get_entry s (Z.of_nat i) par = Ret (mkEnv s loc None par)) →
  drop_entry e' = Ret s → location e' = loc →
  ∃ tb, put_entry e' (Z.of_nat i) = Ret (set_table s tb) ∧ leaves_at exc (set_table s tb) ls ∧
    ∀ n, budget cfg n s → budget cfg n (set_table s tb).
Proof.
  intros [HI (locs & Hl & Hall & Ho) Hnd] Hi Hget Hdrop Hloc. destruct (Forall2_lookup_l _ _ _ _ _ Hall Hi) as (loc' & Hloc' & _).
  pose proof (get_location s locs i loc loc' Hl Hloc' Hget) as ->.
  unfold put_entry. rewrite Hdrop. ret_step. rewrite Hloc.
  destruct (map_put_law _ _ (Z.of_nat i) loc Hl) as (tb & -> & Htb & Hroom); [apply lookup_lt_Some in Hloc'; unfold zlen; lia|].
  ret_step. exists tb. rewrite Nat2Z.id, list_insert_id in Htb by done. split; [done|].
  split; [split; [by destruct HI|by exists locs|done]|]. intros n Hn. by eapply (budget_put s).
Qed.

(** A reader drops its entry without a trace. *)
Lemma leaves_shared exc s ls i lf loc e' :
  leaves_at exc s ls → ls !! i = Some lf → (∀ par, get_entry s (Z.of_nat i) par = Ret (mkEnv s loc None par)) →
  leaf_step [] s loc lf e' lf [] → location e' = loc → drop_entry e' = Ret (store e') → leaves_at exc (store e') ls.
Proof.
  intros [HI (locs & Hl & Hall & Ho) Hnd] Hi Hget Hstep Hloc Hdrop. destruct (Forall2_lookup_l _ _ _ _ _ Hall Hi) as (loc' & Hloc' & _).
  pose proof (get_location s locs i loc loc' Hl Hloc' Hget) as ->.
  destruct (drop_entry_spec mem cfg front mini e' lf (ls_entry _ _ _ _ _ _ _ Hstep)) as (s1 & Hdrop' & HI1 & Hs1 & [Hfr _] & Ht1 & Hc1 & Hb1 & Hn1).
  rewrite Hdrop in Hdrop'. injection Hdrop' as <-.
  pose proof (all_kept [] s ls locs i lf loc e' lf [] (store e') Hall Hnd Hi Hloc' Hstep Hs1 Hfr) as Hall'.
  assert (owned ([] ++ exc) (store e') (<[i:=location e']> locs ++ map (λ x, Base (lf_offset x)) [])) as Ho' by by eapply owned_kept.
  cbn [map app] in Hall', Ho'. rewrite !app_nil_r, Hloc in Hall', Ho'. rewrite app_nil_r, (list_insert_id ls i lf), (list_insert_id locs i loc) in Hall' by done. rewrite (list_insert_id locs i loc) in Ho' by done.
  split; [done| |done]. exists locs. split; [|done].
  pose proof (ls_table _ _ _ _ _ _ _ Hstep _ Hl) as Hl1. by rewrite app_nil_r in Hl1.
Qed.
End leaves.
