(* ===== verification/EntryRoot.v ===== *)
(** The halves of the root leaf, when it is split into two base pages ([LeafNode::split] as [try_split] of
    src/tree.rs uses it). *)
From stdpp Require Import base numbers list sorting option gmap.
From Stdlib Require Import ZArith Lia.
From S2P Require Import Prelude Bits NodeMeta LeafMeta LeafNode LeafOps LeafLayout Entries LeafRepr LeafSearch LeafInsert LeafInit LeafMerge LeafRebuild LeafSplit LeafTheorems RootSplit SplitKey SplitKeyProofs Config CircularBuffer StateError Storage LeafEntry MergeSplit EntryInv EntryLeaf EntryInsert EntryMerge TreeLeaves.

Section root.
Context {B T F : Type} {RB : RecordBound} `{HPB : PageBuffer B} `{HBL : !PageBufferLaws B} `{HPM : PageMap T} `{HML : !PageMapLaws T}.
Context (mem : memory) (cfg : @Config F) (front : list Z) (mini : Z).
Abbreviation P := (leaf_page_size cfg).
Abbreviation mfl := (max_fence_len cfg).
Abbreviation storage := (LeafStorage B T).
Abbreviation env := (@env B T).
Abbreviation entry_with := (entry_with mem cfg front mini).
Abbreviation base_inv := (base_inv cfg).
Hypothesis Hsetup : Setup mem cfg front mini.

Lemma whole_visible es sk k :
  ordered es → all_dirty es →
  visible (find_entry k es) = visible (if is_below sk k
    then find_entry k (consolidated OpInsert true None (take (lb sk es) es))
    else find_entry k (consolidated OpInsert true None (drop (lb sk es) es))).
Proof.
  intros Ho Hd. pose proof (halves_visible [] es sk k) as H. cbn [map] in H. assert (map (replaced []) es = es) as He.
  { rewrite <- (map_id es) at 2. apply map_ext. done. }
  rewrite He in H. specialize (H ltac:(constructor) Ho Hd). exact H.
Qed.

(** A page with room for its part of the records. *)
Lemma root_halves n p sib :
  base_inv n p [] [] → p_entries p ≠ [] → node_size (meta sib) = P → zlen (data sib) = P - LEAF_HEADER → bytes_ok (data sib) →
  ∃ sk left right lp rp, LeafOps.split n sib false INVALID_SNAPSHOT_VERSION = Ret (sk, left, right) ∧
    base_inv left lp [] sk ∧ base_inv right rp sk [] ∧ sk ≠ [] ∧ bytes_ok sk ∧ zlen sk <= MAX_KEY_LEN ∧
    ∀ k, visible (find_entry k (p_entries p)) = visible (if is_below sk k then find_entry k (p_entries lp) else find_entry k (p_entries rp)).
Proof.
  intros [(HR & Hb & Hs & Hd & l & h & Hf & Hl & Hh) Hsh _ _ _ _] Hne Hs1 Hs2 Hs3. destruct (fences_ok n p HR l h Hf) as [Hfl Hfh].
  destruct l as [|? ?]; [|by destruct Hfl as (_ & ? & _)]. destruct h as [|? ?]; [|by destruct Hfh as (_ & ? & _)].
  destruct (repr_page n p HR) as (_ & Hdat & _). pose proof (su_record _ _ _ _ Hsetup). pose proof (su_margin _ _ _ _ Hsetup).
  pose proof (su_key _ _ _ _ Hsetup). pose proof (su_fence _ _ _ _ Hsetup).
  assert (Forall (λ e, e_key e ≠ [] ∧ zlen (e_key e) <= mfl / 2 ∧ entry_need 0 e <= cb_max_record_size cfg + KV_META_SIZE) (p_entries p)) as Hsmall.
  { eapply Forall_impl; [exact Hsh|]. intros e ([Hk1 _] & Hk2 & Hk3). split; [done|]. split; [apply Z.div_le_lower_bound; lia|]. unfold entry_need. lia. }
  destruct (root_split_spec n p (cb_max_record_size cfg + KV_META_SIZE) (mfl / 2) HR Hf Hb (dirty_no_phantom _ Hd) Hne Hsmall) with (sib := sib) (version := INVALID_SNAPSHOT_VERSION)
    as (e & left & right & lp & rp & l1 & h1 & l2 & h2 & Hin & Hrun & HRl & Hfl1 & Hl1 & Hh1 & Hel & HRr & Hfr & Hl2 & Hh2 & Her & Hhl & Hhr & Hreml & Hremr).
  { rewrite Hdat, Hs. pose proof (Z.mul_div_le mfl 2 ltac:(lia)). unfold LEAF_HEADER, KV_META_SIZE in *. lia. }
  { congruence. }
  { congruence. }
  { done. }
  assert (limits cfg (e_key e) (e_val e)) as ([Hk1 Hck] & Hk2 & _) by (by apply (proj1 (Forall_forall _ _) Hsh)).
  assert (bytes_ok (e_key e)) as Hkb by (by apply (proj1 (Forall_forall _ _) (entries_ok n p HR))).
  assert (next_level n = next_level_null) as Hnext by (apply andb_true_iff in Hb as [_ Hnull]; by apply Z.eqb_eq in Hnull).
  rewrite Hnext, Hs in Hhl. rewrite Hs in Hhr. destruct (fresh_is_base _ _ _ _ Hhl) as [Hbl Hsl]. destruct (fresh_is_base _ _ _ _ Hhr) as [Hbr Hsr].
  assert (fence_in cfg [] ∧ fence_in cfg (e_key e)) as [Hin0 Hin1] by (split; (split; [change (zlen []) with 0 || done; lia|]); [by left|by right]).
  exists (e_key e), left, right, lp, rp. split; [done|]. split; [|split; [|split_and!; try done; [lia|]]].
  - split; [| |done|done| |rewrite Hdat, Hs in Hreml; rewrite <- Hl1, <- Hh1 in Hreml |- *; by eapply roomy_fresh].
    + split_and!; [done..|rewrite Hel; apply consolidated_dirty|by exists l1, h1].
    + rewrite Hel. by apply (consolidated_recs (limits cfg)), Forall_take.
    + destruct Hhl as (_ & _ & _ & _ & _ & _ & Hflag & _). unfold leaf_get_split_flag. by rewrite Hflag.
  - split; [| |done|done| |rewrite Hdat, Hs in Hremr; rewrite <- Hl2, <- Hh2 in Hremr |- *; by eapply roomy_fresh].
    + split_and!; [done..|rewrite Her; apply consolidated_dirty|by exists l2, h2].
    + rewrite Her. by apply (consolidated_recs (limits cfg)), Forall_drop.
    + destruct Hhr as (_ & _ & _ & _ & _ & _ & Hflag & _). unfold leaf_get_split_flag. by rewrite Hflag.
  - intros k. rewrite Hel, Her. apply whole_visible; [apply (re_order _ _ HR)|done].
Qed.

(** The root leaf [lf] after its split: a left part under the lock and a new leaf. *)
Section entry.
Context (e : env) (lf : leaf) (n : LeafNode) (p : page).
Hypothesis Hentry : entry_with e lf n p.
Hypothesis Hlow : lf_low lf = [].
Hypothesis Hhigh : lf_high lf = [].
Hypothesis Hview : ∀ k, lf_view lf k = visible (find_entry k (p_entries p)).
Hypothesis Hloc : location e = Base (lf_offset lf).
Hypothesis Hgrow : growable (store e).
Hypothesis Hne : p_entries p ≠ [].
Abbreviation off := (next_available_offset (store e)).

Lemma root_split_entry :
  ∃ id t sib sk left right, let s1 := set_table (set_next_offset (store e) (off + P)) t in
    alloc_base_page_mapping mem cfg (store e) INVALID_SNAPSHOT_VERSION = Ret (id, mkEnv s1 (Base off) (Some (mkTmp true sib)) None) ∧
    LeafOps.split n sib false INVALID_SNAPSHOT_VERSION = Ret (sk, left, right) ∧ sk ≠ [] ∧ bytes_ok sk ∧ zlen sk <= MAX_KEY_LEN ∧
    (∀ l, map_list (page_table (store e)) l → zlen l = id) ∧ 0 <= id < 2 ^ 62 ∧
    ∀ size par, 0 <= size <= 2 * INNER_NODE_SIZE → let s2 := (alloc_offset (vfs_write s1 off right) size).2 in
      leaf_step mem cfg front mini [] (store e) (location e) lf (mkEnv s2 (location e) (Some (mkTmp true left)) par)
        (left_leaf lf sk) [right_leaf lf sk off].
Proof.
  pose proof Hentry as [HI [Ho1 Ho2] (Hb & _)]. pose proof Hgrow as (Hroom & _ & l & Hl & Hlen).
  destruct (alloc_base_spec mem cfg front mini Hsetup (store e) l Hroom Hl) as (t & sib & Halloc & Ht & Hkeep & Hs1 & Hs2 & Hs3).
  rewrite Hlow, Hhigh in Hb.
  destruct (root_halves n p sib Hb Hne Hs1 Hs2 Hs3) as (sk & left & right & lp & rp & Hsplit & HbL & HbR & Hsk & Hkb & Hkl & Hov).
  assert (bytes_lt (lf_low lf) sk) as Hlt by (rewrite Hlow; by destruct sk).
  exists (zlen l), t, sib, sk, left, right. cbv zeta. split; [done|]. do 4 (split; [done|]). split; [intros l' Hl'; by apply Ht|].
  split; [split; [apply zlen_nonneg|done]|]. intros size par Hsize.
  destruct (halves_view cfg lf sk lp rp left right [] (p_entries p) Hlt) as [HvL HvR];
    [rewrite Hlow; apply HbL|rewrite Hhigh; apply HbR|exact Hview|exact Hov|].
  destruct (sibling_written mem cfg front mini Hsetup lf (store e) t sk right rp HI Hgrow) as (HI' & Hright & Hdisk & Howns); [by rewrite Hhigh|done|].
  set (s1 := vfs_write _ _ right) in *. assert (0 < P) as HP.
  { pose proof (su_leaf _ _ _ _ Hsetup). pose proof (su_fence _ _ _ _ Hsetup). unfold LEAF_HEADER, KV_META_SIZE in *. lia. }
  split; try done.
  - exists left, lp. split; [|cbn [location]; rewrite Hloc; split; [done|exact HvL]]. split; [destruct HI' as [? ? ?]; split; cbn in *; try done; lia|split; [cbn; lia|done]|].
    split; [cbn; by rewrite Hlow|]. by split.
  - split; [by intros; apply Howns|by intros; apply Hdisk|cbn; lia].
  - exact (handed_refl _ (store e)).
  - by intros q ?%elem_of_nil.
  - intros l' Hl'. by apply Ht.
  - apply Forall_singleton. split; [|cbn; lia]. eapply (leaf_at_frame mem cfg front mini [] []); [|apply not_elem_of_nil|by intros ? ?%elem_of_nil|exact Hright].
    split; [done|done|cbn; lia].
  - apply NoDup_singleton.
  - intros k. eapply budget_grow; [exact Hkeep|intros l' Hl'; by apply Ht|]. cbn. unfold page_step. lia.
Qed.
End entry.
End root.
