(* ===== verification/SnapshotMgr.v ===== *)
(** The snapshot manager (src/snapshot.rs, [CPRSnapShotMgr]): the phases of a snapshot, the slots that
    protect the transactions of the user threads, and the thread that takes the snapshot.

    Every thread is at a point of the code between two accesses to shared words, and a step runs one thread
    over one access; what only the thread itself writes, it reads in the same step: the state of its slot, and
    for the thread that takes a snapshot the global state.  Accesses are interleaved and see the latest value,
    which is what the fences of the code are for.  The slot at which a search starts is random, a futex wait may
    return without a wake; both are arguments of the step.  What the snapshot thread does to pages and to its
    file while it sweeps and finalizes touches none of these words. *)
From stdpp Require Import base numbers list option.
From Stdlib Require Import ZArith Lia.
From S2P Require Import Prelude Bits.

Definition INVALID_SNAPSHOT_STATE : Z := 2 ^ 64 - 1.
Definition DEFAULT_MAX_SNAPSHOT_THREAD_NUM : nat := 64.
Definition SNAPSHOT_STATE_PHASE_ID_SHIFT : Z := 61.
Definition SNAPSHOT_STATE_PHASE_NUM : Z := 4.
Definition SNAPSHOT_STATE_PHASE_ID_MASK : Z := Z.shiftl 7 SNAPSHOT_STATE_PHASE_ID_SHIFT.
Definition SNAPSHOT_STATE_VERSION_MASK : Z := Z.shiftl 1 SNAPSHOT_STATE_PHASE_ID_SHIFT - 1.

Inductive PhaseId := Rest | Prepare | InProgress | Sweep.

Global Instance PhaseId_eq_dec : EqDecision PhaseId.
Proof. solve_decision. Defined.

Definition from_raw (value : Z) : outcome PhaseId :=
  match value with 0 => Ret Rest | 1 => Ret Prepare | 2 => Ret InProgress | 3 => Ret Sweep | _ => Panic end.

Definition as_raw (p : PhaseId) : Z := match p with Rest => 0 | Prepare => 1 | InProgress => 2 | Sweep => 3 end.

(** ** The global state *)
Definition new_snapshot_state (phase_id version : Z) : outcome Z :=
  _ ← assert_ (phase_id <? SNAPSHOT_STATE_PHASE_NUM);
  _ ← assert_ (version <? Z.shiftl 1 SNAPSHOT_STATE_PHASE_ID_SHIFT);
  Ret (Z.lor (Z.shiftl phase_id SNAPSHOT_STATE_PHASE_ID_SHIFT) version).

Definition state_version (state : Z) : Z := Z.land state SNAPSHOT_STATE_VERSION_MASK.
Definition state_phase (state : Z) : outcome PhaseId :=
  from_raw (Z.shiftr (Z.land state SNAPSHOT_STATE_PHASE_ID_MASK) SNAPSHOT_STATE_PHASE_ID_SHIFT).

(** The words that threads share. *)
Record CPRSnapShotMgr := mkMgr {
  global_state : Z;
  thread_slots : list bool;
  thread_local_states : list Z;
  pause_snapshot : bool;
  snapshot_in_progress : bool;
  phase_waiter : Z;
}.

Definition CPRSnapShotMgr_new (version : Z) : outcome CPRSnapShotMgr :=
  s ← new_snapshot_state 0 version;
  Ret (mkMgr s (replicate DEFAULT_MAX_SNAPSHOT_THREAD_NUM false)
         (replicate DEFAULT_MAX_SNAPSHOT_THREAD_NUM INVALID_SNAPSHOT_STATE) false false 0).

Definition set_global (m : CPRSnapShotMgr) (s : Z) : CPRSnapShotMgr :=
  mkMgr s (thread_slots m) (thread_local_states m) (pause_snapshot m) (snapshot_in_progress m) (phase_waiter m).
Definition set_slot (m : CPRSnapShotMgr) (tid : nat) (b : bool) : CPRSnapShotMgr :=
  mkMgr (global_state m) (<[tid := b]> (thread_slots m)) (thread_local_states m) (pause_snapshot m) (snapshot_in_progress m) (phase_waiter m).
Definition set_local (m : CPRSnapShotMgr) (tid : nat) (s : Z) : CPRSnapShotMgr :=
  mkMgr (global_state m) (thread_slots m) (<[tid := s]> (thread_local_states m)) (pause_snapshot m) (snapshot_in_progress m) (phase_waiter m).
Definition set_pause (m : CPRSnapShotMgr) (b : bool) : CPRSnapShotMgr :=
  mkMgr (global_state m) (thread_slots m) (thread_local_states m) b (snapshot_in_progress m) (phase_waiter m).
Definition set_in_progress (m : CPRSnapShotMgr) (b : bool) : CPRSnapShotMgr :=
  mkMgr (global_state m) (thread_slots m) (thread_local_states m) (pause_snapshot m) b (phase_waiter m).
Definition bump_waiter (m : CPRSnapShotMgr) : CPRSnapShotMgr :=
  mkMgr (global_state m) (thread_slots m) (thread_local_states m) (pause_snapshot m) (snapshot_in_progress m) ((phase_waiter m + 1) mod 2 ^ 32).

Definition get_global_version (m : CPRSnapShotMgr) : Z := state_version (global_state m).
Definition get_global_phase_id (m : CPRSnapShotMgr) : outcome PhaseId := state_phase (global_state m).

(** The state of a slot; an index past the end panics. *)
Definition get_local_state (m : CPRSnapShotMgr) (tid : nat) : outcome Z := unwrap (thread_local_states m !! tid).

Definition set_local_state (m : CPRSnapShotMgr) (tid : nat) (state : Z) : outcome CPRSnapShotMgr :=
  current_state ← get_local_state m tid;
  Ret (if current_state =? state then m else set_local m tid state).

Definition are_all_threads_in_next_version (m : CPRSnapShotMgr) : outcome bool :=
  if negb (snapshot_in_progress m) then Ret false
  else p ← get_global_phase_id m; Ret (bool_decide (p = Sweep) || bool_decide (p = Rest)).

Definition advance_global_state (m : CPRSnapShotMgr) : outcome (Z * CPRSnapShotMgr) :=
  phase_id ← get_global_phase_id m;
  let version := get_global_version m in
  new_state ← match phase_id with
              | Rest => new_snapshot_state (as_raw Prepare) version
              | Prepare => new_snapshot_state (as_raw InProgress) (version + 1)
              | InProgress => new_snapshot_state (as_raw Sweep) version
              | Sweep => new_snapshot_state (as_raw Rest) version
              end;
  Ret (new_state, set_global m new_state).

(** ** The threads *)

(** The locals of [snapshot]: the version of the snapshot, and the current global state and phase. *)
Record run := mkRun { snapshot_version : Z; current_global_state : Z; current_global_phase_id : PhaseId }.

(** Which of the checks of a loop is on its way: the one at its top, or the two of the wait below it, the second
    with the value of the waiter. *)
Inductive check := TopCheck | FirstCheck | SecondCheck (waiter_val : Z).

(** Where a thread is: in [reserve_thread_slot], under a guard, in [release_thread_slot], or in [snapshot].
    [freeze] tells the loop of [sweep] that waits for all slots from the loop of [snapshot]. *)
Inductive place :=
  | Out
  | LoadPause | Claim (i : nat) | LoadGlobal (tid : nat) | StoreLocal (tid : nat) (g : Z)
  | Recheck (tid : nat) (g : Z) | CheckPause (tid : nat) (g : Z)
  | Guarded (tid : nat) (g : Z)
  | LeaveStore (tid : nat) (reset : bool) | LeaveSlot (tid : nat) (reset : bool) | LeaveBump | LeaveWake
  | Enter | Opened
  | Scan (r : run) (freeze : bool) (c : check) (k : nat)
  | LoadWaiter (r : run) (freeze : bool) | FutexWait (r : run) (freeze : bool) (waiter_val : Z) | Asleep (r : run) (freeze : bool)
  | SetPause (r : run) | Frozen (r : run) | ClearPause (r : run) | SweepPages (r : run) | Finalize (r : run) | Finish.

(** *** [reserve_thread_slot] *)
Definition claim_slot (m : CPRSnapShotMgr) (i : nat) : outcome (CPRSnapShotMgr * place) :=
  if decide (i < 2 * DEFAULT_MAX_SNAPSHOT_THREAD_NUM)%nat then
    let tid := (i mod DEFAULT_MAX_SNAPSHOT_THREAD_NUM)%nat in
    taken ← unwrap (thread_slots m !! tid);
    Ret (if taken : bool then (m, Claim (S i)) else (set_slot m tid true, LoadGlobal tid))
  else Ret (m, Out).

(** The second load of the global state. *)
Definition recheck (m : CPRSnapShotMgr) (tid : nat) (g : Z) : outcome (CPRSnapShotMgr * place) :=
  local ← get_local_state m tid;
  Ret (m, if local =? global_state m then CheckPause tid g else LeaveStore tid true).

(** What the guard returns. *)
Definition guard_version (g : Z) : Z := state_version g.
Definition guard_phase (g : Z) : outcome PhaseId := state_phase g.

(** [release_thread_slot], and the way out of a failed reservation, which asserts that the slot is taken. *)
Definition leave_store (m : CPRSnapShotMgr) (tid : nat) (reset : bool) : outcome (CPRSnapShotMgr * place) :=
  m' ← set_local_state m tid INVALID_SNAPSHOT_STATE;
  Ret (m', LeaveSlot tid reset).

Definition leave_slot (m : CPRSnapShotMgr) (tid : nat) (reset : bool) : outcome (CPRSnapShotMgr * place) :=
  taken ← unwrap (thread_slots m !! tid);
  _ ← assert_ (negb reset || taken);
  Ret (set_slot m tid false, LeaveBump).

(** *** [snapshot] *)
Definition enter (m : CPRSnapShotMgr) : CPRSnapShotMgr * place :=
  if snapshot_in_progress m then (m, Out) else (set_in_progress m true, Opened).

(** A step of the global state, with the assertions that follow it. *)
Definition advance_to (m : CPRSnapShotMgr) (snapshot_version : Z) (phase : PhaseId) (version : Z) : outcome (CPRSnapShotMgr * place) :=
  a ← advance_global_state m;
  let '(state, m') := a in
  p ← get_global_phase_id m';
  _ ← assert_ (bool_decide (p = phase));
  _ ← assert_ (get_global_version m' =? version);
  Ret (m', Scan (mkRun snapshot_version state p) false (match phase with Prepare => TopCheck | _ => FirstCheck end) 0).

Definition start (m : CPRSnapShotMgr) : outcome (CPRSnapShotMgr * place) :=
  p ← get_global_phase_id m;
  _ ← assert_ (bool_decide (p = Rest));
  let v := get_global_version m in
  advance_to m v Prepare v.

(** What [check_if_phase_completed] waits for. *)
Definition goal (r : run) (freeze : bool) : Z := if freeze then INVALID_SNAPSHOT_STATE else current_global_state r.

(** After a check that succeeded. *)
Definition completed (m : CPRSnapShotMgr) (r : run) (freeze : bool) (c : check) : outcome (CPRSnapShotMgr * place) :=
  match c with
  | FirstCheck | SecondCheck _ => Ret (m, Scan r freeze TopCheck 0)
  | TopCheck =>
      if freeze then Ret (m, Frozen r)
      else
        match current_global_phase_id r with
        | Rest => Ret (m, Finalize r)
        | Prepare => advance_to m (snapshot_version r) InProgress (snapshot_version r + 1)
        | InProgress => advance_to m (snapshot_version r) Sweep (snapshot_version r + 1)
        | Sweep => Ret (m, SetPause r)
        end
  end.

Definition failed (r : run) (freeze : bool) (c : check) : place :=
  match c with
  | TopCheck => Scan r freeze FirstCheck 0
  | FirstCheck => LoadWaiter r freeze
  | SecondCheck w => FutexWait r freeze w
  end.

(** The look at slot [k]. *)
Definition check_slot (m : CPRSnapShotMgr) (r : run) (freeze : bool) (c : check) (k : nat) : outcome (CPRSnapShotMgr * place) :=
  local_state ← get_local_state m k;
  if negb (local_state =? INVALID_SNAPSHOT_STATE) && negb (local_state =? goal r freeze) then Ret (m, failed r freeze c)
  else if decide (S k = DEFAULT_MAX_SNAPSHOT_THREAD_NUM) then completed m r freeze c
  else Ret (m, Scan r freeze c (S k)).

Definition finish (m : CPRSnapShotMgr) : outcome (CPRSnapShotMgr * place) :=
  _ ← assert_ (snapshot_in_progress m);
  Ret (set_in_progress m false, Out).

(** ** Steps of the system *)
Record snap_system := mkSnap { mgr : CPRSnapShotMgr; places : list place }.

(** What the environment chooses: the call of a thread that is out, where a search starts, when a guard is dropped,
    and whether a wait returns by itself. *)
Inductive snap_choice := CallReserve | CallSnapshot | StartAt (i : nat) | Proceed | ReturnEarly.

Definition thread_step (m : CPRSnapShotMgr) (p : place) (c : snap_choice) : outcome (CPRSnapShotMgr * place) :=
  match p, c with
  | Out, CallReserve => Ret (m, LoadPause)
  | Out, CallSnapshot => Ret (m, Enter)
  | LoadPause, StartAt i =>
      Ret (m, if pause_snapshot m then Out else if decide (i < DEFAULT_MAX_SNAPSHOT_THREAD_NUM)%nat then Claim i else LoadPause)
  | Claim i, _ => claim_slot m i
  | LoadGlobal tid, _ => Ret (m, StoreLocal tid (global_state m))
  | StoreLocal tid g, _ => m' ← set_local_state m tid g; Ret (m', Recheck tid g)
  | Recheck tid g, _ => recheck m tid g
  | CheckPause tid g, _ => Ret (m, if pause_snapshot m then LeaveStore tid true else Guarded tid g)
  | Guarded tid _, Proceed => Ret (m, LeaveStore tid false)
  | LeaveStore tid reset, _ => leave_store m tid reset
  | LeaveSlot tid reset, _ => leave_slot m tid reset
  | LeaveBump, _ => Ret (bump_waiter m, LeaveWake)
  | Enter, _ => Ret (enter m)
  | Opened, Proceed => start m
  | Scan r freeze c k, _ => check_slot m r freeze c k
  | LoadWaiter r freeze, _ => Ret (m, Scan r freeze (SecondCheck (phase_waiter m)) 0)
  | FutexWait r freeze w, _ => Ret (m, if phase_waiter m =? w then Asleep r freeze else Scan r freeze FirstCheck 0)
  | Asleep r freeze, ReturnEarly => Ret (m, Scan r freeze FirstCheck 0)
  | SetPause r, _ => Ret (set_pause m true, Scan r true TopCheck 0)
  | Frozen r, Proceed => Ret (m, ClearPause r)
  | ClearPause r, _ => Ret (set_pause m false, SweepPages r)
  | SweepPages r, Proceed => advance_to m (snapshot_version r) Rest (snapshot_version r + 1)
  | Finalize r, Proceed => Ret (m, Finish)
  | Finish, _ => finish m
  | _, _ => Ret (m, p)
  end.

(** [wake_all] on the waiter. *)
Definition wake (p : place) : place := match p with Asleep r freeze => Scan r freeze FirstCheck 0 | _ => p end.

Definition snap_exec (st : snap_system) (i : nat) (c : snap_choice) : outcome snap_system :=
  match places st !! i with
  | None => Ret st
  | Some LeaveWake => Ret (mkSnap (mgr st) (wake <$> <[i := Out]> (places st)))
  | Some p =>
      r ← thread_step (mgr st) p c;
      Ret (mkSnap r.1 (<[i := r.2]> (places st)))
  end.

Fixpoint snap_run (st : snap_system) (sched : list (nat * snap_choice)) : outcome snap_system :=
  match sched with
  | [] => Ret st
  | (i, c) :: rest => st' ← snap_exec st i c; snap_run st' rest
  end.

(** [n] threads and a new manager. *)
Definition snap_initial (n : nat) (version : Z) : outcome snap_system :=
  m ← CPRSnapShotMgr_new version; Ret (mkSnap m (replicate n Out)).
