(* ===== verification/Tree.v ===== *)
(** The tree (src/tree.rs): the descent through the inner nodes with its splits, the operations on the
    leaf it ends at, eviction, and the retry loops of the public operations.

    Inner nodes are memory behind pointers of the allocator; the root word holds a pointer, or
    the number of the root leaf with a mask.  An operation runs by itself: what other threads
    do to it is that an attempt to lock an inner node, or to confirm that it did not change, may
    fail.  The answers of these attempts are a list in the state; the lock words themselves are
    the subject of InnerLock.v.  There is no snapshot manager.

    The log is used through the interface [WriteLog]. *)
From stdpp Require Import base numbers list option gmap.
From Stdlib Require Import ZArith Lia.
From S2P Require Import Prelude Bits SnapshotMgr NodeMeta LeafMeta LeafNode LeafOps InnerNode SplitKey SizeClasses Config CircularBuffer StateError Storage LeafEntry.

Abbreviation leaf_data := LeafNode.data.

(** [append_and_wait]: the number of the record of a write to the page at an offset. *)
Class WriteLog (W : Type) := {
  append_and_wait : W → bytes → bytes → OpType → Z → outcome (Z * W);
}.

(** The allocator of inner nodes: where the next node goes, and what its memory holds. *)
Record heap := mkHeap { fresh_ptr : gmap Z InnerNode → Z; fresh_node : Z → InnerNode }.

Section tree.
Context {B T W F : Type} `{PageBuffer B} `{PageMap T} `{WriteLog W}.
Context (mem : memory) (hp : heap) (cfg : @Config F) (size_classes : list Z).

Record BfTree := mkTree {
  root_page_id : Z;
  inner_nodes : gmap Z InnerNode;
  storage : LeafStorage B T;
  wal : option W;
  contention : list bool;
}.

Definition set_root_page_id (t : BfTree) (r : Z) : BfTree := mkTree r (inner_nodes t) (storage t) (wal t) (contention t).
Definition set_nodes (t : BfTree) (ns : gmap Z InnerNode) : BfTree := mkTree (root_page_id t) ns (storage t) (wal t) (contention t).
Definition set_storage (t : BfTree) (s : LeafStorage B T) : BfTree := mkTree (root_page_id t) (inner_nodes t) s (wal t) (contention t).
Definition set_wal (t : BfTree) (w : option W) : BfTree := mkTree (root_page_id t) (inner_nodes t) (storage t) w (contention t).
Definition set_contention (t : BfTree) (l : list bool) : BfTree := mkTree (root_page_id t) (inner_nodes t) (storage t) (wal t) l.

Abbreviation TM := (SE TreeError BfTree).
Abbreviation env := (@env B T).

(** Another thread may be in the way: the next answer, and success when there are no more. *)
Definition ask : TM bool := λ t,
  match contention t with
  | [] => Ret (inr true, t)
  | b :: l => Ret (inr b, set_contention t l)
  end.

Definition attempt : TM unit := ok ← ask; if ok : bool then mret tt else throw Locked.

(** ** Inner nodes *)
Definition node_at (t : BfTree) (ptr : Z) : outcome InnerNode := unwrap (inner_nodes t !! ptr).

Definition load_node (ptr : Z) : TM InnerNode := t ← get; lift (node_at t ptr).

Definition put_node (ptr : Z) (n : InnerNode) : TM unit := modify (λ t, set_nodes t (<[ptr := n]> (inner_nodes t))).

(** [ReadGuard::try_read] and [upgrade]. *)
Definition lock_read (ptr : Z) : TM InnerNode := _ ← attempt; load_node ptr.
Definition lock_upgrade (ptr : Z) : TM InnerNode := _ ← attempt; load_node ptr.

Definition root_page (t : BfTree) : PageID * bool := get_root_page (root_page_id t).

(** The macro [check_parent]. *)
Definition check_parent (node : PageID) (parent : option Z) : TM unit :=
  match parent with
  | Some _ => attempt
  | None => t ← get; if bool_decide (node = (root_page t).1) then mret tt else throw Locked
  end.

(** [InnerNodeBuilder::new] with a disk offset from the storage. *)
Definition new_builder : TM InnerNodeBuilder := λ t,
  let ptr := fresh_ptr hp (inner_nodes t) in
  let '(offset, s) := alloc_offset (storage t) INNER_NODE_SIZE in
  Ret (inr (builder_set_disk_offset (builder_new ptr (fresh_node hp ptr)) offset), set_storage t s).

Definition new_builder_in_memory : TM InnerNodeBuilder := λ t,
  let ptr := fresh_ptr hp (inner_nodes t) in
  Ret (inr (builder_new ptr (fresh_node hp ptr)), t).

(** The built node is at the pointer of its builder. *)
Definition build_node (b : InnerNodeBuilder) : TM PageID :=
  n ← lift (build b INVALID_SNAPSHOT_VERSION);
  _ ← put_node (raw_ptr b) n;
  mret (get_page_id b).

(** The root of a tree that has grown. *)
Definition install_root (b : InnerNodeBuilder) : TM unit :=
  _ ← build_node b;
  n ← load_node (raw_ptr b);
  _ ← put_node (raw_ptr b) (set_root n true);
  modify (λ t, set_root_page_id t (pid_raw (from_pointer (raw_ptr b)))).

(** ** Leaves under their locks

    The state of an operation on a locked leaf is its entry with the tree around it; the
    storage is in the entry. *)
Abbreviation LM := (SE TreeError (env * BfTree)).

Definition on_entry {A} (m : SE TreeError env A) : LM A := λ s,
  match m s.1 with Ret (r, e) => Ret (r, (e, s.2)) | Panic => Panic end.

Definition on_tree {A} (m : TM A) : LM A := λ s,
  match m s.2 with Ret (r, t) => Ret (r, (s.1, t)) | Panic => Panic end.

Definition parent_of (t : BfTree) (parent : option Z) : outcome (option InnerNode) :=
  match parent with Some ptr => n ← node_at t ptr; Ret (Some n) | None => Ret None end.

(** What an operation on the entry left of the tree. *)
Definition back (t : BfTree) (parent : option Z) (p : option InnerNode) (s : LeafStorage B T) : BfTree :=
  set_storage (match parent, p with Some ptr, Some n => set_nodes t (<[ptr := n]> (inner_nodes t)) | _, _ => t end) s.

(** [get_mut], an operation and the drop of the entry. *)
Definition locked {A} (pid : PageID) (parent : option Z) (m : LM A) : TM A := λ t,
  id ← as_id pid;
  p ← parent_of t parent;
  e ← get_entry (storage t) id p;
  r ← m (e, t);
  let '(res, (e', t')) := r in
  s ← put_entry e' id;
  Ret (res, back t' parent (parent_node e') s).

(** What the next two attempts to lock the parent give. *)
Definition draw_race : LM Race := a ← on_tree ask; b ← on_tree ask; mret (mkRace a b).

(** ** Splitting *)

(** The root leaf in cache-only mode.  The page of the root is in the entry. *)
Definition split_root_cache_only (cur_page_id : PageID) : LM bool :=
  new_ptr ← on_entry (λ e, match new_mini_page mem (leaf_page_size cfg) next_level_null true e with
                           | Ret (inl _, _) => Panic
                           | r => r
                           end);
  s ← get;
  t ← lift (insert_mini_page_mapping (store s.1) (Mini new_ptr));
  _ ← on_entry (modify (λ e, set_store e t.2));
  match location s.1 with
  | Mini ptr =>
      cur ← on_entry (cache_page ptr);
      sibling ← on_entry (cache_page new_ptr);
      r ← lift (LeafOps.split cur sibling true INVALID_SNAPSHOT_VERSION);
      let '(split_key, cur', sibling') := r in
      _ ← on_entry (put_cache_page ptr cur');
      _ ← on_entry (put_cache_page new_ptr sibling');
      b ← on_tree new_builder_in_memory;
      _ ← on_tree (install_root (add_record (set_children_is_leaf (set_left_most_page_id b cur_page_id) true)
                                   split_key (from_id t.1)));
      _ ← lift (assert_ (0 <? meta_count_with_fence (leaf_meta cur')));
      _ ← lift (assert_ (0 <? meta_count_with_fence (leaf_meta sibling')));
      _ ← on_entry (publish_page new_ptr);
      mret true
  | _ => lift Panic
  end.

(** The root leaf: its upper half goes to a new leaf, and an inner node above both is the root. *)
Definition split_root (cur_page_id : PageID) : LM bool :=
  s ← get;
  r ← lift (alloc_base_page_mapping mem cfg (store s.1) INVALID_SNAPSHOT_VERSION);
  let '(sibling_id, sibling) := r in
  _ ← on_entry (modify (λ e, set_store e (store sibling)));
  sibling_page ← lift (match tmp_buffer sibling with Some b => Ret (buffer_page b) | None => Panic end);
  leaf_node ← on_entry (load_base_page_mut mem);
  x ← lift (LeafOps.split leaf_node sibling_page false INVALID_SNAPSHOT_VERSION);
  let '(split_key, leaf_node', sibling_page') := x in
  _ ← on_entry (put_base_page leaf_node');
  _ ← on_entry (on_store' (λ s, drop_entry (mkEnv s (location sibling) (Some (mkTmp true sibling_page')) None)));
  s1 ← get;
  let '(offset, s2) := alloc_offset (store s1.1) INNER_NODE_SIZE in
  _ ← on_entry (modify (λ e, set_store e s2));
  b ← on_tree new_builder_in_memory;
  _ ← on_tree (install_root (add_record (set_children_is_leaf (set_left_most_page_id
                 (builder_set_disk_offset b offset) cur_page_id) true) split_key (from_id sibling_id)));
  mret true.

Definition try_split_leaf (cur_page_id : PageID) (parent : option Z) : TM bool :=
  _ ← lift (assert_ (is_id cur_page_id));
  locked cur_page_id parent (
    _ ← on_tree (check_parent cur_page_id parent);
    should_split ← on_entry (entry_get_split_flag mem);
    if negb should_split then mret false
    else
      match parent with
      | Some _ => lift Panic
      | None => if cache_only cfg then split_root_cache_only cur_page_id else split_root cur_page_id
      end).

(** An inner node below a parent. *)
Definition split_below (cur parent : Z) : TM bool :=
  x_cur ← lock_upgrade cur;
  x_parent ← lock_upgrade parent;
  split_key ← lift (InnerNode.get_split_key x_cur);
  b ← new_builder;
  r ← lift (InnerNode.insert x_parent split_key (get_page_id b));
  if negb r.1 then
    _ ← put_node parent (InnerNode.set_meta r.2 (set_split_flag (InnerNode.meta r.2)));
    throw NeedRestart
  else
    _ ← put_node parent r.2;
    x ← lift (InnerNode.split x_cur b INVALID_SNAPSHOT_VERSION);
    let '(_, x_cur', b') := x in
    _ ← put_node cur x_cur';
    _ ← build_node b';
    mret true.

(** The root, when it is an inner node.  Nobody else knows the new root, so that locking it
    succeeds. *)
Definition split_above (cur : Z) : TM bool :=
  x_cur ← lock_upgrade cur;
  b ← new_builder;
  x ← lift (InnerNode.split x_cur b INVALID_SNAPSHOT_VERSION);
  let '(split_key, x_cur', b') := x in
  _ ← put_node cur (set_root x_cur' false);
  _ ← build_node b';
  b2 ← new_builder;
  _ ← install_root (add_record (set_children_is_leaf (set_left_most_page_id b2 (from_pointer cur)) false)
                      split_key (get_page_id b'));
  mret true.

Definition try_split_inner (cur_page : PageID) (parent : option Z) : TM bool :=
  ptr ← lift (as_inner_node cur_page);
  cur_node ← lock_read ptr;
  _ ← check_parent cur_page parent;
  if negb (get_split_flag (InnerNode.meta cur_node)) then mret false
  else match parent with Some p => split_below ptr p | None => split_above ptr end.

(** ** The descent *)
Definition split_on_way (cur_page : PageID) (cur_is_leaf : bool) (parent : option Z) : TM unit :=
  b ← (if cur_is_leaf then
         if negb (is_inner_node_pointer cur_page) then try_split_leaf cur_page parent else mret false
       else try_split_inner cur_page parent);
  if b : bool then throw NeedRestart else mret tt.

(** The key of the separator after [pos], when there is one. *)
Definition next_separator (n : InnerNode) (pos : Z) (high_fence : bytes) : outcome bytes :=
  if as_u16 (pos + 1) <? InnerNode.count n then
    m ← InnerNode.get_kv_meta n (as_u16 (pos + 1)); InnerNode.get_full_key n m
  else Ret high_fence.

Fixpoint traverse (key : bytes) (aggressive_split return_high_fence_key : bool) (cur_page : PageID) (cur_is_leaf : bool)
    (parent : option Z) (high_fence : bytes) (fuel : nat) : TM (PageID * option Z * bytes) :=
  match fuel with
  | O => lift Panic
  | S fuel' =>
      _ ← (if aggressive_split then split_on_way cur_page cur_is_leaf parent else mret tt);
      if cur_is_leaf then mret (cur_page, parent, high_fence)
      else
        ptr ← lift (as_inner_node cur_page);
        next_node ← lock_read ptr;
        _ ← check_parent cur_page parent;
        pos ← lift (InnerNode.lower_bound next_node key);
        kv_meta ← lift (InnerNode.get_kv_meta next_node (as_u16 pos));
        child ← lift (InnerNode.get_value next_node kv_meta);
        high ← (if return_high_fence_key then lift (next_separator next_node pos high_fence) else mret high_fence);
        traverse key aggressive_split return_high_fence_key child (children_is_leaf (InnerNode.meta next_node)) (Some ptr) high fuel'
  end.

(** A path visits every inner node at most once. *)
Definition traverse_to_leaf (key : bytes) (aggressive_split return_high_fence_key : bool) : TM (PageID * option Z * bytes) :=
  t ← get;
  let '(root, is_leaf) := root_page t in
  traverse key aggressive_split return_high_fence_key root is_leaf None [] (S (S (size (inner_nodes t)))).
(** ** Writing *)

(** A leaf without a page, in cache-only mode. *)
Definition write_null (key value : bytes) (op : OpType) : SE TreeError env unit :=
  if negb (cache_only cfg) then lift Panic
  else if bool_decide (op = OpDelete) then mret tt
  else
    size ← lift (get_chain_size_hint (zlen key) (zlen value) size_classes (cache_only cfg));
    ptr ← new_mini_page mem size next_level_null true;
    _ ← create_cache_page_loc (Mini ptr);
    ok ← insert_cached ptr key value op 0;
    _ ← lift (assert_ ok);
    n ← cache_page ptr;
    _ ← lift (assert_ (0 <? meta_count_with_fence (leaf_meta n)));
    publish_page ptr.

Definition log_write (key value : bytes) (op : OpType) : LM unit :=
  s ← get;
  match wal s.2 with
  | None => mret tt
  | Some w =>
      offset ← on_entry get_disk_offset;
      r ← lift (append_and_wait w key value op offset);
      _ ← on_tree (modify (λ t, set_wal t (Some r.2)));
      on_entry (update_lsn mem r.1)
  end.

(** A page that is about to be evicted moves to the tail, when that is possible. *)
Definition keep_cached : SE TreeError env unit :=
  about ← cache_page_about_to_evict;
  if about : bool then ignore (move_cache_page_to_tail mem cfg) else mret tt.

Definition write_leaf (key value : bytes) (op : OpType) : LM unit :=
  s ← get;
  match location s.1 with
  | Null => on_entry (write_null key value op)
  | _ =>
      race ← draw_race;
      _ ← on_entry (entry_insert mem cfg size_classes key value op race);
      _ ← on_entry keep_cached;
      log_write key value op
  end.

Definition write_inner (key value : bytes) (op : OpType) (aggressive_split : bool) : TM unit :=
  x ← traverse_to_leaf key aggressive_split false;
  let '(pid, parent, _) := x in
  locked pid parent (_ ← on_tree (check_parent pid parent); write_leaf key value op).

(** ** Reading *)

(** [BfTree::upgrade_to_full_page]. *)
Definition promote_page (race : Race) : SE TreeError env unit :=
  e ← get;
  match location e with
  | Mini ptr =>
      mini ← cache_page ptr;
      _ ← on_store (λ s, begin_dealloc_mini_page s ptr);
      _ ← on_error (try_merge_mini_page mem cfg ptr race) (on_store' (λ s, release s ptr));
      _ ← change_to_base_loc;
      _ ← on_store' (λ s, finish_dealloc_mini_page s ptr);
      base ← load_base_page_from_buffer;
      l ← upgrade_to_full_page mem cfg base (next_level mini);
      create_cache_page_loc l
  | FullPage _ => mret tt
  | Base offset =>
      base ← load_base_page mem offset;
      l ← upgrade_to_full_page mem cfg base offset;
      create_cache_page_loc l
  | Null => lift Panic
  end.

(** Contention is not an error of a read. *)
Definition unless_locked (m : LM unit) : LM unit :=
  r ← result m;
  match r with inl Locked | inr _ => mret tt | inl err => throw err end.

(** The read under the shared lock; whether the lock was then upgraded to go on. *)
Definition read_shared (key out_buffer : bytes) (pid : PageID) (parent : option Z) (dice : Z) : LM (LeafRead * bytes * bool) :=
  _ ← on_tree (check_parent pid parent);
  out ← on_entry (entry_read mem key out_buffer (mini_page_binary_search cfg) (cache_only cfg));
  wanted ← match out.1 with
           | ReadMini _ | ReadFull _ => on_entry cache_page_about_to_evict
           | ReadBase (Found _) =>
               if cache_only cfg then lift Panic
               else mret (negb (bool_decide (parent = None)) && (dice <? read_promotion_rate cfg))
           | ReadBase _ => if cache_only cfg then lift Panic else mret false
           | ReadNone => mret false
           end;
  upgraded ← (if wanted : bool then on_tree ask else mret false);
  mret (out, upgraded).

(** What a read does under the exclusive lock. *)
Definition read_exclusive (key : bytes) (out : LeafRead * bytes) : LM unit :=
  match out.1 with
  | ReadMini _ | ReadFull _ => on_entry (ignore (move_cache_page_to_tail mem cfg))
  | ReadBase (Found v) =>
      race ← draw_race;
      unless_locked (on_entry (
        if read_record_cache cfg
        then entry_insert mem cfg size_classes key (take (Z.to_nat v) out.2) OpCache race
        else promote_page race))
  | _ => mret tt
  end.

(** The shared lock is dropped without a trace on the entry; the exclusive one as in [locked]. *)
Definition read_leaf (key out_buffer : bytes) (pid : PageID) (parent : option Z) (dice : Z) : TM (LeafReadResult * bytes) := λ t,
  id ← as_id pid;
  p ← parent_of t parent;
  e ← get_entry (storage t) id p;
  r ← read_shared key out_buffer pid parent dice (e, t);
  match r with
  | (inl err, (e1, t1)) => Ret (inl err, set_storage t1 (store e1))
  | (inr (out, false), (e1, t1)) => Ret (inr (result_of out.1, out.2), set_storage t1 (store e1))
  | (inr (out, true), st) =>
      r' ← read_exclusive key out st;
      let '(res, (e2, t2)) := r' in
      s ← put_entry e2 id;
      let t3 := back t2 parent (parent_node e2) s in
      Ret (match res with inl err => inl err | inr _ => inr (result_of out.1, out.2) end, t3)
  end.

Definition read_inner (key out_buffer : bytes) (aggressive_split : bool) (dice : Z) : TM (LeafReadResult * bytes) :=
  x ← traverse_to_leaf key aggressive_split false;
  let '(pid, parent, _) := x in
  read_leaf key out_buffer pid parent dice.

(** ** Eviction *)

(** [eviction_callback]: the page behind the handle goes to its base page, or in cache-only mode
    away. *)
Definition evict_leaf (ptr : Z) (parent : option Z) : LM unit :=
  s ← get;
  match location s.1 with
  | Mini p =>
      if negb (p =? ptr) then throw NeedRestart
      else
        _ ← lift (unwrap parent);
        _ ← on_tree attempt;
        if cache_only cfg then on_entry change_to_null_loc
        else
          race ← draw_race;
          _ ← on_entry (try_merge_mini_page mem cfg ptr race);
          on_entry change_to_base_loc
  | FullPage p => if negb (p =? ptr) then throw NeedRestart else on_entry (merge_full_page cfg ptr)
  | Base _ | Null => throw NeedRestart
  end.

Definition eviction_callback (ptr : Z) : TM unit :=
  t ← get;
  n ← lift (load_cache_page (storage t) ptr);
  key ← (if cache_only cfg then
           k ← lift (try_get_key_to_reach_this_node n);
           match k with Some k => mret k | None => throw NeedRestart end
         else lift (get_key_to_reach_this_node n));
  x ← traverse_to_leaf key true false;
  let '(pid, parent, _) := x in
  locked pid parent (evict_leaf ptr parent).

Definition on_buffer {A} (f : B → outcome (A * B)) : TM A := λ t,
  r ← f (circular_buffer (storage t)); Ret (inr r.1, set_storage t (set_buffer (storage t) r.2)).
Definition on_buffer' (f : B → outcome B) : TM unit := on_buffer (λ b, b' ← f b; Ret (tt, b')).

(** A loop that waits has ended, or is still waiting. *)
Inductive progress (A : Type) := Done (a : A) | Waiting.
Arguments Done {A} a.
Arguments Waiting {A}.

(** The loop of [evict_one], [fuel] rounds of it. *)
Fixpoint evict_rounds (start : Z) (fuel : nat) : TM (progress unit) :=
  match fuel with
  | O => mret Waiting
  | S fuel' =>
      c ← on_buffer (λ b, buf_claim b start);
      match c with
      | Claimed ptr =>
          r ← result (eviction_callback ptr);
          match r with
          | inr _ =>
              _ ← on_buffer' (λ b, buf_evict b start);
              _ ← modify (λ t, set_storage t (set_cache (storage t) (delete ptr (cache_pages (storage t)))));
              mret (Done tt)
          | inl _ => _ ← on_buffer' (λ b, buf_refuse b start); evict_rounds start fuel'
          end
      | Gone => mret (Done tt)
      | Busy => evict_rounds start fuel'
      end
  end.

(** [evict_from_buffer]: the number of bytes of the block that was evicted. *)
Definition evict_from_buffer (fuel : nat) : TM (progress Z) :=
  r ← on_buffer buf_reserve;
  match r with
  | None => mret (Done 0)
  | Some (start, finish) =>
      d ← evict_rounds start fuel;
      match d with
      | Waiting => mret Waiting
      | Done _ => _ ← on_buffer' buf_bump; mret (Done (as_u32 (finish - start)))
      end
  end.

Definition TARGET_EVICT_SIZE : Z := 1024.

Fixpoint evict_more (evicted : Z) (retries fuel : nat) : TM (progress Z) :=
  match retries with
  | O => mret (Done evicted)
  | S retries' =>
      if evicted <? TARGET_EVICT_SIZE then
        n ← evict_from_buffer fuel;
        match n with
        | Waiting => mret Waiting
        | Done n => evict_more (evicted + n) retries' fuel
        end
      else mret (Done evicted)
  end.

Definition evict_from_circular_buffer (fuel : nat) : TM (progress Z) := evict_more 0 10 fuel.

(** ** The public operations *)
Inductive LeafInsertResult := Success | InvalidKV.

Definition key_too_large (key : bytes) : bool := (max_fence_len cfg / 2 <? zlen key) || (MAX_KEY_LEN <? zlen key).

Definition invalid_kv (key value : bytes) : bool :=
  key_too_large key || (zlen key =? 0) ||
  ((MAX_VALUE_LEN <? zlen value) || (cb_max_record_size cfg <? zlen key + zlen value)) ||
  (zlen key + zlen value <? cb_min_record_size cfg).

(** After an error the operation starts over; a full buffer is evicted from first. *)
Definition after_error {A} (err : TreeError) (restart : TM (progress A)) (fuel : nat) : TM (progress A) :=
  match err with
  | CircularBufferFull =>
      r ← result (evict_from_circular_buffer fuel);
      match r with inr Waiting => mret Waiting | _ => restart end
  | _ => restart
  end.

Fixpoint insert_loop (key value : bytes) (aggressive_split : bool) (fuel : nat) : TM (progress LeafInsertResult) :=
  match fuel with
  | O => mret Waiting
  | S fuel' =>
      r ← result (write_inner key value OpInsert aggressive_split);
      match r with
      | inr _ => mret (Done Success)
      | inl err => after_error err (insert_loop key value (match err with Locked => aggressive_split | _ => true end) fuel') fuel'
      end
  end.

Definition tree_insert (key value : bytes) (fuel : nat) : TM (progress LeafInsertResult) :=
  if invalid_kv key value then mret (Done InvalidKV) else insert_loop key value false fuel.

(** [dice] are the random choices of the attempts. *)
Fixpoint read_loop (key out_buffer : bytes) (aggressive_split : bool) (dice : list Z) (fuel : nat) :
    TM (progress (LeafReadResult * bytes)) :=
  match fuel with
  | O => mret Waiting
  | S fuel' =>
      r ← result (read_inner key out_buffer aggressive_split (default 0 (head dice)));
      match r with
      | inr v => mret (Done v)
      | inl err => after_error err (read_loop key out_buffer true (tail dice) fuel') fuel'
      end
  end.

Definition tree_read (key out_buffer : bytes) (dice : list Z) (fuel : nat) : TM (progress (LeafReadResult * bytes)) :=
  if key_too_large key || (zlen key =? 0) then mret (Done (InvalidKey, out_buffer))
  else read_loop key out_buffer false dice fuel.

Fixpoint delete_loop (key : bytes) (aggressive_split : bool) (fuel : nat) : TM (progress unit) :=
  match fuel with
  | O => mret Waiting
  | S fuel' =>
      r ← result (write_inner key [] OpDelete aggressive_split);
      match r with
      | inr _ => mret (Done tt)
      | inl err => after_error err (delete_loop key true fuel') fuel'
      end
  end.

Definition tree_delete (key : bytes) (fuel : nat) : TM (progress unit) :=
  if key_too_large key || (zlen key =? 0) then mret (Done tt) else delete_loop key false fuel.

(** ** A new tree over the storage [s], whose memory and file are fresh *)

(** The version of the guard of a new manager, when there is one. *)
Definition root_version : outcome Z :=
  if use_snapshot cfg then m ← CPRSnapShotMgr_new (Config.snapshot_version cfg); Ret (get_global_version m)
  else Ret INVALID_SNAPSHOT_VERSION.

Definition new_root_page (s : LeafStorage B T) : outcome (Z * LeafStorage B T) :=
  version ← root_version;
  if cache_only cfg then
    r ← alloc_mini_page mem s (leaf_page_size cfg);
    match r with
    | (inl _, _) => Panic
    | (inr ptr, s1) =>
        n ← load_cache_page s1 ptr;
        n1 ← initialize_mini_page n (leaf_page_size cfg) next_level_null true version;
        r ← insert_mini_page_mapping (store_cache_page s1 ptr n1) (Mini ptr);
        s2 ← publish r.2 ptr;
        Ret (r.1, s2)
    end
  else
    r ← alloc_base_page_mapping mem cfg s version;
    s1 ← drop_entry r.2;
    Ret (r.1, s1).

Definition with_config (s : LeafStorage B T) (w : option W) : outcome (ConfigError + BfTree) :=
  v ← validate cfg;
  match v with
  | Some err => Ret (inl err)
  | None =>
      r ← new_root_page s;
      let '(root_id, s1) := r in
      _ ← assert_ (root_id =? 0);
      Ret (inr (mkTree (Z.lor (pid_raw (from_id root_id)) ROOT_IS_LEAF_MASK) ∅ s1 w []))
  end.
End tree.
Arguments BfTree : clear implicits.
Arguments Done {A} a.
Arguments Waiting {A}.
