(* ===== verification/TreeShape.v ===== *)
(** The shape of a tree (src/tree.rs): its inner nodes form levels, each a list of children with the
    lowest keys they answer for; the root is the first level, the leaves are the last one. *)
From stdpp Require Import base numbers list sorting option gmap.
From Stdlib Require Import ZArith Lia.
From S2P Require Import Prelude Bits NodeMeta PageLayout InnerNode InnerRepr InnerSearch InnerInsert InnerSplit InnerTheorems EntryLeaf.

(** The children of a level, with the lowest key of each. *)
Abbreviation level := (list (bytes * PageID)).

(** The key at which a list of children starts, when [hi] comes after them. *)
Definition next_low (L : level) (hi : bytes) : bytes := match L with (low, _) :: _ => low | [] => hi end.

Lemma next_low_app L1 L2 hi : next_low (L1 ++ L2) hi = next_low L1 (next_low L2 hi).
Proof. by destruct L1 as [|[low pid] L1]. Qed.

Lemma bytes_lt_nonempty a b : bytes_lt a b → b ≠ [].
Proof. intros H ->. by destruct a. Qed.

(** ** Leaves *)
Section leaves.
Implicit Types (ls : list leaf) (m : bytes → option bytes) (L : level).

(** The child [pid] is a leaf that agrees with [m] between its bounds. *)
Definition leaf_is ls m (low hi : bytes) (pid : PageID) : Prop :=
  ∃ i lf, pid = from_id (Z.of_nat i) ∧ Z.of_nat i < 2 ^ 62 ∧ ls !! i = Some lf ∧ lf_low lf = low ∧ lf_high lf = hi ∧
    ∀ k, in_bounds low hi k → lf_view lf k = m k.

(** The leaves of the last level answer for all keys from its first one up to [hi]. *)
Fixpoint tiled ls m L (hi : bytes) : Prop :=
  match L with
  | [] => True
  | (low, pid) :: L' => leaf_is ls m low (next_low L' hi) pid ∧ tiled ls m L' hi
  end.

Lemma tiled_app ls m L1 L2 hi : tiled ls m (L1 ++ L2) hi ↔ tiled ls m L1 (next_low L2 hi) ∧ tiled ls m L2 hi.
Proof.
  induction L1 as [|[low pid] L1 IH]; cbn; [by split; [split|intros []]|]. rewrite IH, next_low_app. tauto.
Qed.

Lemma tiled_mono ls m ls' m' L hi :
  (∀ L1 low pid L2, L = L1 ++ (low, pid) :: L2 → leaf_is ls m low (next_low L2 hi) pid → leaf_is ls' m' low (next_low L2 hi) pid) →
  tiled ls m L hi → tiled ls' m' L hi.
Proof.
  induction L as [|[low pid] L IH]; intros Hm; [done|]. cbn. intros [H1 H2]. split; [by apply (Hm [] low pid L)|].
  apply IH; [|done]. intros L1 a q L2 ->. by apply (Hm ((low, pid) :: L1)).
Qed.

Lemma sorted_mid (L1 : level) low pid L2 :
  sorted (L1 ++ (low, pid) :: L2) → Forall (λ x, bytes_lt x.1 low) L1 ∧ Forall (λ x, bytes_lt low x.1) L2.
Proof.
  unfold sorted. intros Hs. split; [by apply sorted_app_inv, Forall_map in Hs|].
  rewrite map_app in Hs. apply StronglySorted_app_1_r in Hs. cbn in Hs. apply StronglySorted_inv in Hs as [_ Hs]. by apply (Forall_fmap fst (bytes_lt low) L2) in Hs.
Qed.

Lemma below_mid (L1 : level) a q L2 low pid L3 k :
  sorted ((L1 ++ (a, q) :: L2) ++ (low, pid) :: L3) → in_bounds a (next_low L2 low) k → bytes_lt k low.
Proof.
  intros Hs [_ Hk]. rewrite <- app_assoc in Hs. cbn in Hs. pose proof (proj2 (sorted_mid _ _ _ _ Hs)) as Ha.
  destruct L2 as [|[b r] L2]; cbn in *.
  - apply Forall_cons in Ha as [Ha _]. cbn in Ha. by destruct Hk as [->|Hk]; [destruct a|].
  - apply Forall_cons in Ha as [Ha1 _]. cbn in Ha1. destruct Hk as [->|Hk]; [by destruct a|].
    eapply cmp_lt_trans; [exact Hk|]. rewrite (cons_middle _ L1), app_assoc in Hs.
    assert (sorted ((L1 ++ [(a, q)]) ++ (b, r) :: (L2 ++ (low, pid) :: L3))) as Hs' by by rewrite <- !app_assoc in *.
    apply sorted_mid in Hs' as [_ Hs']. apply Forall_app in Hs' as [_ Hs']. by apply Forall_cons in Hs' as [? _].
Qed.

Lemma above_mid (L1 : level) low pid L2 a q L3 hi k :
  sorted (L1 ++ (low, pid) :: L2 ++ (a, q) :: L3) → in_bounds a hi k → ¬ in_bounds low (next_low (L2 ++ (a, q) :: L3) []) k.
Proof.
  intros Hs [Hk _] [_ Hn]. pose proof (proj2 (sorted_mid _ _ _ _ Hs)) as Ha. destruct L2 as [|[b r] L2]; cbn in *.
  - apply Forall_cons in Ha as [Ha _]. cbn in Ha. destruct Hn as [->|Hn]; [by destruct low|].
    apply (bytes_lt_irrefl k). by eapply cmp_lt_le_trans.
  - apply Forall_cons in Ha as [Ha _]. cbn in Ha. destruct Hn as [->|Hn]; [by destruct low|].
    assert (bytes_lt b a) as Hba.
    { rewrite (cons_middle _ L1), app_assoc in Hs. apply sorted_mid in Hs as [_ Hs]. apply Forall_app in Hs as [_ Hs].
      by apply Forall_cons in Hs as [? _]. }
    apply (bytes_lt_irrefl k). eapply cmp_lt_le_trans; [|exact Hk]. by eapply cmp_lt_trans.
Qed.

(** The other leaves notice neither a change of the leaf [i] nor of [m] between its bounds. *)
Lemma tiled_others ls m ls' m' L1 low i L2 lf :
  tiled ls m (L1 ++ (low, from_id (Z.of_nat i)) :: L2) [] → sorted (L1 ++ (low, from_id (Z.of_nat i)) :: L2) →
  ls !! i = Some lf → lf_low lf = low →
  (∀ j x, j ≠ i → ls !! j = Some x → ls' !! j = Some x) → (∀ k, ¬ in_bounds low (next_low L2 []) k → m' k = m k) →
  tiled ls' m' L1 low ∧ tiled ls' m' L2 [].
Proof.
  intros [H1 [_ H2]]%tiled_app Hs Hi Hlow Hls Hm. split.
  - eapply tiled_mono; [|exact H1]. intros A a q B' -> (j & x & -> & Hj & Hx & Ha & Hb & Hv). exists j, x. split_and!; try done.
    + apply Hls; [|done]. intros ->. rewrite Hi in Hx. injection Hx as ->. rewrite Hlow in Ha. subst a.
      apply sorted_mid in Hs as [Hs _]. apply Forall_app in Hs as [_ Hs]. apply Forall_cons in Hs as [Hs _]. by eapply bytes_lt_irrefl.
    + intros k Hk. rewrite Hm; [by apply Hv|]. intros [Hlk _]. apply (bytes_lt_irrefl k). eapply cmp_lt_le_trans; [|exact Hlk].
      by eapply below_mid.
  - eapply tiled_mono; [|exact H2]. intros A a q B' -> (j & x & -> & Hj & Hx & Ha & Hb & Hv). exists j, x. split_and!; try done.
    + apply Hls; [|done]. intros ->. rewrite Hi in Hx. injection Hx as ->. rewrite Hlow in Ha. subst a.
      apply sorted_mid in Hs as [_ Hs]. apply Forall_app in Hs as [_ Hs]. apply Forall_cons in Hs as [Hs _]. by eapply bytes_lt_irrefl.
    + intros k Hk. rewrite Hm; [by apply Hv|]. by eapply above_mid.
Qed.
End leaves.

(** ** Nodes *)

(** An inner node without wasted space; when it is told to split it can. *)
Record node_ok (n : InnerNode) (r0 : irec) (rs : list irec) : Prop := {
  no_repr : IRepr n r0 rs;
  no_space : remaining_size (meta n) = max_data_size - 16 - space_of (map ir_pair rs);
  no_keys : Forall (λ r, zlen (ir_key r) <= MAX_KEY_LEN) rs;
  no_flag : get_split_flag (meta n) = true → 2 <= count n;
}.

(** Where a separator between two neighbours goes. *)
Lemma put_between sk c (kvs1 kvs2 : level) :
  Forall (λ x, bytes_lt x.1 sk) kvs1 → Forall (λ x, bytes_lt sk x.1) kvs2 → put sk c (kvs1 ++ kvs2) = kvs1 ++ (sk, c) :: kvs2.
Proof.
  induction kvs1 as [|[k v] kvs1 IH]; cbn.
  - intros _ H2. destruct kvs2 as [|[k v] kvs2]; [done|]. apply Forall_cons in H2 as [H2 _]. cbn in *.
    by rewrite (proj2 (cmp_gt_lt k sk) H2).
  - intros [H1 H1']%Forall_cons H2. cbn in H1. rewrite H1. by rewrite IH.
Qed.

Lemma put_after sk c low left (kvs : level) L1 x L2 :
  (low, left) :: kvs = L1 ++ x :: L2 → sorted kvs → bytes_lt x.1 sk → Forall (λ y, bytes_lt sk y.1) L2 →
  (low, left) :: put sk c kvs = L1 ++ x :: (sk, c) :: L2 ∧ sk ∉ map fst kvs.
Proof.
  intros He Hs Hx H2. assert (∃ k1, kvs = k1 ++ L2 ∧ (low, left) :: k1 = L1 ++ [x] ∧ Forall (λ y, bytes_lt y.1 sk) k1) as (k1 & -> & Hk & H1).
  { destruct L1 as [|y L1]; injection He as <- ->; [by exists []|]. exists (L1 ++ [x]). split; [by rewrite <- app_assoc|].
    split; [done|]. destruct x as [xk xv]. apply sorted_mid in Hs as [Hs _]. apply Forall_app. split; [|by apply Forall_singleton].
    eapply Forall_impl; [exact Hs|]. intros z Hz. eapply cmp_lt_trans; [exact Hz|done]. }
  split.
  - rewrite put_between by done. change ((low, left) :: k1 ++ (sk, c) :: L2) with (((low, left) :: k1) ++ (sk, c) :: L2).
    by rewrite Hk, <- app_assoc.
  - rewrite map_app. intros Hin. apply elem_of_app in Hin as [(y & -> & Hy)%list_elem_of_fmap|(y & -> & Hy)%list_elem_of_fmap].
    + rewrite Forall_forall in H1. by eapply bytes_lt_irrefl, (H1 y).
    + rewrite Forall_forall in H2. by eapply bytes_lt_irrefl, (H2 y).
Qed.

Lemma space_perm (l1 l2 : level) : l1 ≡ₚ l2 → space_of l1 = space_of l2.
Proof. induction 1 as [|x l l' _ IH|x y l|l1 l2 l3 _ IH1 _ IH2]; unfold space_of in *; cbn [foldr]; lia. Qed.

Section node.
Context (n : InnerNode) (r0 : irec) (rs : list irec).
Hypothesis Hok : node_ok n r0 rs.
Abbreviation kvs := (map ir_pair rs).

Lemma full_has_two key : zlen key <= MAX_KEY_LEN → have_space_for n key = false → 2 <= count n.
Proof.
  intros Hk Hsp. rewrite (inner_count _ _ _ (no_repr _ _ _ Hok)). destruct rs as [|r rs']; [|rewrite zlen_cons; pose proof (zlen_nonneg rs'); lia].
  pose proof (no_space _ _ _ Hok) as Hr. unfold have_space_for in Hsp. apply Z.leb_gt in Hsp. exfalso. revert Hsp.
  rewrite Hr. unfold as_u16, required_len, post_key_len, PAGE_ID_SIZE, KV_META_SIZE, KEY_LOOK_AHEAD_SIZE.
  unfold MAX_KEY_LEN in Hk. pose proof (zlen_nonneg key). change (space_of (map ir_pair [])) with 0.
  change max_data_size with 4064. unfold U16. rewrite Z.mod_small by lia. lia.
Qed.

(** An insertion of a new separator, or the report that there is no room. *)
Lemma insert_node key child :
  bytes_ok key → zlen key <= MAX_KEY_LEN → pid_ok child → key ∉ map fst kvs →
  (insert n key child = Ret (false, n) ∧ 2 <= count n) ∨
  ∃ n' rs', insert n key child = Ret (true, n') ∧ node_ok n' r0 rs' ∧ map ir_pair rs' = put key child kvs ∧ same_inner n n'.
Proof.
  intros Hb Hk Hc Hnew. pose proof (no_repr _ _ _ Hok) as HR. destruct (short_key key Hb Hk) as [Hik Hreq].
  pose proof (inner_insert_repr n r0 rs HR key child Hik ltac:(lia) Hc) as Hins. cbv zeta in Hins.
  zcase (remaining_size (meta n) <? required_len key).
  - left. split; [done|]. apply (full_has_two key Hk). unfold have_space_for. rewrite as_u16_id by lia. apply Z.leb_gt. lia.
  - right. destruct Hins as (n' & rs' & Hrun & HR' & Hp & Hs & Hrem). exists n', rs'. split_and!; try done.
    assert (map ir_pair rs' ≡ₚ (key, child) :: kvs) as Hperm.
    { rewrite Hp, put_new by (done || apply (ir_sorted _ _ _ HR)). apply insert_at_perm. }
    split; [done| | |].
    + rewrite Hrem, (no_space _ _ _ Hok), (space_perm _ _ Hperm) by done. cbn [space_of foldr fst]. fold (space_of kvs). lia.
    + apply (Forall_fmap ir_pair (λ x, zlen x.1 <= MAX_KEY_LEN) rs'). unfold fmap, list_fmap. rewrite Hperm. constructor; [done|].
      apply (Forall_fmap ir_pair (λ x, zlen x.1 <= MAX_KEY_LEN) rs), Hok.
    + intros Hf. destruct Hs as (_ & _ & _ & _ & Hfl & _). rewrite Hfl in Hf. apply Permutation_length in Hperm.
      pose proof (no_flag _ _ _ Hok Hf) as H2. rewrite (inner_count _ _ _ HR) in H2. rewrite (inner_count _ _ _ HR').
      unfold zlen in *. rewrite !length_map in Hperm. cbn in Hperm. rewrite length_map in Hperm. lia.
Qed.

(** The search finds the child that answers for the key, and the separator after it. *)
Lemma node_descend low hi key :
  in_bounds low hi key →
  ∃ pos d c1 x c2, lower_bound n key = Ret pos ∧ get_kv_meta n (as_u16 pos) = Ret d ∧ get_value n d = Ret x.2 ∧
    (low, ir_child r0) :: kvs = c1 ++ x :: c2 ∧ in_bounds x.1 (next_low c2 hi) key ∧
    ∀ hf, (if as_u16 (pos + 1) <? count n then d ← get_kv_meta n (as_u16 (pos + 1)); get_full_key n d else Ret hf) = Ret (next_low c2 hf).
Proof.
  intros [Hlow Hhi]. pose proof (no_repr _ _ _ Hok) as HR. pose proof (inner_count _ _ _ HR) as Hcnt.
  pose proof (playout_fits _ _ _ (ir_layout _ _ _ HR)) as (_ & _ & Hmax). rewrite (inner_slots_len r0 rs) in Hmax.
  set (j := rank key kvs). pose proof (rank_length key kvs) as Hj. rewrite length_map in Hj. fold j in Hj.
  destruct (lookup_lt_is_Some_2 (r0 :: rs) j) as [r Hr]; [cbn; lia|].
  set (full := (low, ir_child r0) :: kvs).
  assert (∃ x, full !! j = Some x ∧ x.2 = ir_child r ∧ cmp_bytes x.1 key ≠ Gt) as (x & Hx & Hxc & Hxk).
  { destruct j as [|i] eqn:Ej; [injection Hr as <-; by exists (low, ir_child r0)|]. change (rs !! i = Some r) in Hr.
    exists (ir_pair r). split; [change (kvs !! i = Some (ir_pair r)); by rewrite list_lookup_fmap, Hr|]. split; [done|].
    apply (rank_below key kvs i _ (ir_child r)); [by rewrite list_lookup_fmap, Hr|lia]. }
  exists (Z.of_nat j), (s_meta (ir_slot r)), (take j full), x, (drop (S j) full).
  split; [apply (inner_lower_bound n r0 rs HR)|]. unfold U16, zlen in *. rewrite as_u16_id by (unfold U16; lia).
  split; [by apply (inner_get n r0 rs HR)|]. split; [rewrite Hxc; by apply (inner_value n r0 rs HR j)|].
  split; [by rewrite take_drop_middle|]. rewrite as_u16_id by (unfold U16; lia).
  assert (drop (S j) full = drop j kvs) as -> by done.
  destruct (drop j kvs) as [|[k c] rest] eqn:Hd; cbn [next_low].
  - split; [by split|]. intros hf. assert (length rs <= j)%nat by (apply (f_equal length) in Hd; rewrite length_drop, length_map in Hd; cbn in Hd; lia).
    zcase (Z.of_nat j + 1 <? count n); [lia|done].
  - assert (kvs !! j = Some (k, c)) as Hk by (rewrite <- (Nat.add_0_r j), <- lookup_drop, Hd; done).
    split; [split; [done|]; right; apply cmp_gt_lt; by eapply rank_split|]. intros hf.
    rewrite list_lookup_fmap in Hk. destruct (rs !! j) as [r'|] eqn:Hr'; [|done]. injection Hk as <- <-.
    pose proof (lookup_lt_Some _ _ _ Hr'). zcase (Z.of_nat j + 1 <? count n); [|lia].
    replace (Z.of_nat j + 1) with (Z.of_nat (S j)) by lia. rewrite (inner_get n r0 rs HR (S j) r') by done. ret_step.
    by rewrite (inner_key n r0 rs HR (S j) r').
Qed.
End node.

(** Telling a node to split. *)
Abbreviation flagged n := (set_meta n (set_split_flag (meta n))).

Lemma flag_node n r0 rs :
  node_ok n r0 rs → 2 <= count n → node_ok (flagged n) r0 rs ∧ children_is_leaf (meta (flagged n)) = children_is_leaf (meta n).
Proof.
  intros Hok H2. destruct Hok as [[HL Hd Hr Hs Hn] Hrem Hkeys Hfl].
  destruct (set_split_flag_spec (meta n) (lo_word _ _ HL)) as (F1 & _ & F3 & _ & F5 & _). split; [|done]. split; try done.
  - split; try done. destruct HL. split; try done. cbn -[meta_count_with_fence]. by rewrite F3.
  - intros _. unfold count in *. cbn -[meta_count_with_fence]. by rewrite F3.
Qed.

(** ** Levels *)
Section levels.
Implicit Types (ns : gmap Z InnerNode) (L M : level) (x y : bytes * PageID).

(** The child [x] of a level is an inner node with the children [cs]. *)
Definition node_is ns (b : bool) x (cs : level) : Prop :=
  ∃ ptr n r0 rs, x.2 = from_pointer ptr ∧ 0 <= ptr < 2 ^ 62 ∧ ns !! ptr = Some n ∧ node_ok n r0 rs ∧
    children_is_leaf (meta n) = b ∧ cs = (x.1, ir_child r0) :: map ir_pair rs.

(** The children of a level are the next one. *)
Fixpoint expands ns (b : bool) L L' : Prop :=
  match L with
  | [] => L' = []
  | x :: L2 => ∃ cs B, L' = cs ++ B ∧ node_is ns b x cs ∧ expands ns b L2 B
  end.

Lemma expands_app ns b L1 L2 L' : expands ns b (L1 ++ L2) L' ↔ ∃ A B, L' = A ++ B ∧ expands ns b L1 A ∧ expands ns b L2 B.
Proof.
  revert L'. induction L1 as [|x L1 IH]; intros L'; cbn; [by split; [intros H; exists [], L'|intros (A & B & -> & -> & H)]|]. split.
  - intros (cs & R & -> & Hx & (A & B & -> & HA & HB)%IH). exists (cs ++ A), B. rewrite <- app_assoc. split; [done|].
    split; [by exists cs, A|done].
  - intros (A' & B & -> & (cs & A & -> & Hx & HA) & HB). exists cs, (A ++ B). rewrite <- app_assoc. split; [done|].
    split; [done|]. apply IH. by exists A, B.
Qed.

Lemma expands_next ns b L L' hi : expands ns b L L' → next_low L' hi = next_low L hi.
Proof.
  destruct L as [|[low pid] L]; cbn; [by intros ->|]. by intros (cs & B & -> & (? & ? & ? & ? & _ & _ & _ & _ & _ & ->) & _).
Qed.

Lemma node_is_frame ns ns' b x cs : (∀ ptr, x.2 = from_pointer ptr → ns' !! ptr = ns !! ptr) → node_is ns b x cs → node_is ns' b x cs.
Proof. intros Hf (ptr & n & r0 & rs & Hp & Hr & Hn & H). exists ptr, n, r0, rs. by rewrite Hf. Qed.

Lemma expands_frame ns ns' b L L' :
  (∀ x ptr, x ∈ L → x.2 = from_pointer ptr → ns' !! ptr = ns !! ptr) → expands ns b L L' → expands ns' b L L'.
Proof.
  revert L'. induction L as [|x L IH]; intros L' Hf; [done|]. cbn. intros (cs & B & -> & Hx & HB). exists cs, B.
  split; [done|]. split; [eapply node_is_frame; [|exact Hx]; intros; eapply Hf; [left|done]|]. apply IH; [|done].
  intros; eapply Hf; [by right|done].
Qed.

(** The child [x] of the next level is one of the children of [y]. *)
Definition link ns b L1 y L2 M1 x M2 : Prop :=
  ∃ A c1 c2 B, M1 = A ++ c1 ∧ M2 = c2 ++ B ∧ expands ns b L1 A ∧ node_is ns b y (c1 ++ x :: c2) ∧ expands ns b L2 B.

Lemma link_expands ns b L1 y L2 M1 x M2 : link ns b L1 y L2 M1 x M2 → expands ns b (L1 ++ y :: L2) (M1 ++ x :: M2).
Proof.
  intros (A & c1 & c2 & B & -> & -> & HA & Hy & HB). apply expands_app. exists A, ((c1 ++ x :: c2) ++ B).
  split; [by rewrite <- !app_assoc|]. split; [done|]. by exists (c1 ++ x :: c2), B.
Qed.
End levels.

(** ** The tree *)
Section shape.
Implicit Types (ns : gmap Z InnerNode) (L M : level) (x y : bytes * PageID) (lv : list level).

(** The nodes of the levels above the leaves. *)
Definition inner_ids lv : list PageID := map snd (concat (take (pred (length lv)) lv)).

Record shape ns (root : PageID) lv : Prop := {
  sh_root : lv !! 0%nat = Some [([], root)];
  sh_step : ∀ h L L', lv !! h = Some L → lv !! S h = Some L' → expands ns (bool_decide (S (S h) = length lv)) L L';
  sh_sorted : Forall sorted lv;
  sh_ids : NoDup (inner_ids lv);
}.

(** The child [x] at the level [h] has the parent that the descent has come from. *)
Definition under ns lv (h : nat) (parent : option Z) L1 x L2 : Prop :=
  match h, parent with
  | O, None => True
  | S h', Some p => ∃ M1 y M2, lv !! h' = Some (M1 ++ y :: M2) ∧ y.2 = from_pointer p ∧
      link ns (bool_decide (S (S h') = length lv)) M1 y M2 L1 x L2
  | _, _ => False
  end.

(** The descent for [key] has come to [x]. *)
Record cursor ns lv (key : bytes) (h : nat) (parent : option Z) L1 x L2 : Prop := {
  cu_at : lv !! h = Some (L1 ++ x :: L2);
  cu_key : in_bounds x.1 (next_low L2 []) key;
  cu_under : under ns lv h parent L1 x L2;
}.

Lemma cursor_root ns root lv key : shape ns root lv → cursor ns lv key 0 None [] ([], root) [].
Proof. intros Hs. split; [apply Hs| |done]. split; [by destruct key|by left]. Qed.

Lemma expands_mid ns b L1 x L2 L' :
  expands ns b (L1 ++ x :: L2) L' → ∃ A cs B, L' = A ++ cs ++ B ∧ expands ns b L1 A ∧ node_is ns b x cs ∧ expands ns b L2 B.
Proof. intros (A & R & -> & HA & cs & B & -> & Hx & HB)%expands_app. by exists A, cs, B. Qed.

Lemma cursor_step ns root lv key h parent L1 x L2 :
  shape ns root lv → cursor ns lv key h parent L1 x L2 → (S h < length lv)%nat →
  ∃ ptr n r0 rs pos d c1 x' c2 A B,
    x.2 = from_pointer ptr ∧ 0 <= ptr < 2 ^ 62 ∧ ns !! ptr = Some n ∧ node_ok n r0 rs ∧
    children_is_leaf (meta n) = bool_decide (S (S h) = length lv) ∧
    lower_bound n key = Ret pos ∧ get_kv_meta n (as_u16 pos) = Ret d ∧ get_value n d = Ret x'.2 ∧
    cursor ns lv key (S h) (Some ptr) (A ++ c1) x' (c2 ++ B) ∧
    (if as_u16 (pos + 1) <? count n then d ← get_kv_meta n (as_u16 (pos + 1)); get_full_key n d else Ret (next_low L2 [])) = Ret (next_low (c2 ++ B) []).
Proof.
  intros Hs [Hat Hk Hu] Hh. destruct (lookup_lt_is_Some_2 lv (S h) Hh) as [L' HL'].
  destruct (expands_mid _ _ _ _ _ _ (sh_step _ _ _ Hs h _ _ Hat HL')) as (A & cs & B & -> & HA & Hx & HB).
  pose proof Hx as (ptr & n & r0 & rs & Hp & Hr & Hn & Hok & Hb & Hcs).
  destruct (node_descend n r0 rs Hok x.1 (next_low L2 []) key Hk) as (pos & d & c1 & x' & c2 & H1 & H2 & H3 & H4 & H5 & H6).
  exists ptr, n, r0, rs, pos, d, c1, x', c2, A, B. do 8 (split; [done|]). rewrite H4 in Hcs. subst cs.
  assert (next_low (c2 ++ B) [] = next_low c2 (next_low L2 [])) as Hnext by by rewrite next_low_app, (expands_next _ _ _ _ [] HB).
  split; [split|by rewrite Hnext].
  - rewrite HL'. by rewrite <- !app_assoc.
  - by rewrite Hnext.
  - exists L1, x, L2. split; [done|]. split; [done|]. by exists A, c1, c2, B.
Qed.

(** ** Which nodes are distinct *)
Lemma ids_split lv h L : lv !! h = Some L → (S h < length lv)%nat →
  ∃ A B, inner_ids lv = map snd (A ++ L ++ B) ∧ ∀ k M, lv !! k = Some M → (S k < length lv)%nat → k ≠ h → M ⊆ A ++ B.
Proof.
  intros HL Hh. unfold inner_ids. set (l := take (pred (length lv)) lv). assert (∀ k, (S k < length lv)%nat → l !! k = lv !! k) as Hl.
  { intros k Hk. unfold l. rewrite lookup_take. rewrite decide_True; [done|lia]. }
  rewrite <- Hl in HL by done. exists (concat (take h l)), (concat (drop (S h) l)). split.
  - by rewrite <- (take_drop_middle l h L HL) at 1; rewrite concat_app.
  - intros k M HM Hk Hne y Hy. rewrite <- Hl in HM by done. apply elem_of_app.
    destruct (decide (k < h)%nat).
    + left. apply list_elem_of_In, in_concat. exists M. rewrite <- !list_elem_of_In. split; [|done]. apply (list_elem_of_lookup_2 _ k). rewrite lookup_take. by rewrite decide_True.
    + right. apply list_elem_of_In, in_concat. exists M. rewrite <- !list_elem_of_In. split; [|done]. apply (list_elem_of_lookup_2 _ (k - S h)). rewrite lookup_drop.
      by replace (S h + (k - S h))%nat with k by lia.
Qed.

Lemma ids_distinct ns root lv h L1 x L2 :
  shape ns root lv → lv !! h = Some (L1 ++ x :: L2) → (S h < length lv)%nat →
  (∀ y, y ∈ L1 ++ L2 → y.2 ≠ x.2) ∧
  ∀ k M y, lv !! k = Some M → (S k < length lv)%nat → k ≠ h → y ∈ M → y.2 ≠ x.2.
Proof.
  intros Hs HL Hh. destruct (ids_split lv h _ HL Hh) as (A & B & He & Hother). pose proof (sh_ids _ _ _ Hs) as Hnd. rewrite He in Hnd.
  assert (map snd (A ++ (L1 ++ x :: L2) ++ B) ≡ₚ x.2 :: map snd ((L1 ++ L2) ++ (A ++ B))) as Hp.
  { change (x.2 :: map snd ((L1 ++ L2) ++ (A ++ B))) with (map snd (x :: (L1 ++ L2) ++ (A ++ B))). apply Permutation_map.
    rewrite <- (Permutation_middle L1 L2 x). solve_Permutation. }
  rewrite Hp in Hnd. apply NoDup_cons in Hnd as [Hnot _]. split.
  - intros y Hy Heq. apply Hnot. rewrite <- Heq. apply list_elem_of_fmap_2, elem_of_app. by left.
  - intros k M y HM Hk Hne Hy Heq. apply Hnot. rewrite <- Heq. apply list_elem_of_fmap_2, elem_of_app. right. by eapply Hother.
Qed.
(** ** Changes *)

(** Nodes with the same children. *)
Lemma expands_mono ns ns' b L L' :
  (∀ x cs, node_is ns b x cs → node_is ns' b x cs) → expands ns b L L' → expands ns' b L L'.
Proof.
  intros Hm. revert L'. induction L as [|x L IH]; intros L'; [done|]. cbn. intros (cs & B & -> & Hx & HB). exists cs, B. auto.
Qed.

Lemma shape_mono ns ns' root lv :
  (∀ b x cs, node_is ns b x cs → node_is ns' b x cs) → shape ns root lv → shape ns' root lv.
Proof. intros Hm [H1 H2 H3 H4]. split; try done. intros h L L' HL HL'. eapply expands_mono; [|by apply H2]. intros x cs. apply Hm. Qed.

(** Another level at [h], with its nodes and those of the parents. *)
Lemma shape_replace ns ns' root lv h L Lnew :
  shape ns root lv → lv !! S h = Some L → sorted Lnew → NoDup (inner_ids (<[S h:=Lnew]> lv)) →
  (∀ k M y ptr, lv !! k = Some M → k ≠ h → k ≠ S h → (S k < length lv)%nat → y ∈ M → y.2 = from_pointer ptr → ns' !! ptr = ns !! ptr) →
  (∀ M, lv !! h = Some M → expands ns' (bool_decide (S (S h) = length lv)) M Lnew) →
  (∀ N, lv !! S (S h) = Some N → expands ns' (bool_decide (S (S (S h)) = length lv)) Lnew N) →
  shape ns' root (<[S h:=Lnew]> lv).
Proof.
  intros Hs HL Hsort Hnd Hframe Hup Hdown. pose proof (lookup_lt_Some _ _ _ HL) as Hlen. split.
  - rewrite list_lookup_insert_ne by done. apply Hs.
  - intros k M N HM HN. rewrite length_insert. destruct (decide (k = h)) as [->|Hk].
    + rewrite list_lookup_insert_eq in HN by done. injection HN as <-. rewrite list_lookup_insert_ne in HM by lia. by apply Hup.
    + rewrite (list_lookup_insert_ne lv (S h) (S k)) in HN by congruence. destruct (decide (k = S h)) as [->|Hk'].
      * rewrite list_lookup_insert_eq in HM by done. injection HM as <-. by apply Hdown.
      * rewrite list_lookup_insert_ne in HM by done. eapply expands_frame; [|by eapply (sh_step _ _ _ Hs)].
        intros x ptr Hx Hp. apply (Hframe k M x ptr); try done. apply lookup_lt_Some in HN. lia.
  - apply Forall_insert; [apply Hs|done].
  - done.
Qed.

Lemma inner_ids_leaf lv h Lnew : length lv = S h → inner_ids (<[h:=Lnew]> lv) = inner_ids lv.
Proof. intros Hl. unfold inner_ids. rewrite length_insert, Hl. cbn. by rewrite take_insert_ge. Qed.

Lemma inner_ids_inner lv h L1 x L2 y :
  lv !! h = Some (L1 ++ x :: L2) → (S h < length lv)%nat → inner_ids (<[h:=L1 ++ x :: y :: L2]> lv) ≡ₚ y.2 :: inner_ids lv.
Proof.
  intros HL Hh. unfold inner_ids. rewrite length_insert, take_insert_lt by lia. set (l := take _ lv).
  assert (l !! h = Some (L1 ++ x :: L2)) as Hl by (unfold l; rewrite lookup_take, decide_True by lia; done).
  change (y.2 :: map snd (concat l)) with (map snd (y :: concat l)). apply Permutation_map.
  rewrite insert_take_drop by by eapply lookup_lt_Some. rewrite <- (take_drop_middle l h _ Hl) at 3.
  rewrite !concat_app. cbn [concat]. rewrite <- !app_assoc. cbn [app]. rewrite <- !Permutation_middle. solve_Permutation.
Qed.

Lemma above_all M1 x M2 sk :
  sorted (M1 ++ x :: M2) → bytes_lt x.1 sk → (next_low M2 [] = [] ∨ bytes_lt sk (next_low M2 [])) → Forall (λ z, bytes_lt sk z.1) M2.
Proof.
  intros Hs Hlow Hhigh. destruct x as [xk xc], M2 as [|[k v] R]; [done|]. cbn in Hhigh. pose proof (sorted_mid _ _ _ _ Hs) as [_ Hk].
  apply Forall_cons in Hk as [Hk _]. destruct Hhigh as [->|Hhigh]; [by destruct xk|]. constructor; [done|].
  rewrite (cons_middle (xk, xc)), app_assoc in Hs. apply sorted_mid in Hs as [_ Hs].
  eapply Forall_impl; [exact Hs|]. intros z Hz. by eapply cmp_lt_trans.
Qed.

(** A new child after [x]: its parent gets a separator, or has no room for it. *)
Lemma link_insert ns b L1 y L2 M1 x M2 p n sk c :
  link ns b L1 y L2 M1 x M2 → y.2 = from_pointer p → ns !! p = Some n → sorted (M1 ++ x :: M2) →
  bytes_lt x.1 sk → (next_low M2 [] = [] ∨ bytes_lt sk (next_low M2 [])) → bytes_ok sk → zlen sk <= MAX_KEY_LEN → pid_ok c →
  (insert n sk c = Ret (false, n) ∧ 2 <= count n) ∨
  ∃ n', insert n sk c = Ret (true, n') ∧
    ∀ ns', ns' !! p = Some n' → (∀ z ptr, z ∈ L1 ++ L2 → z.2 = from_pointer ptr → ns' !! ptr = ns !! ptr) →
      expands ns' b (L1 ++ y :: L2) (M1 ++ x :: (sk, c) :: M2).
Proof.
  intros (A & c1 & c2 & B & -> & -> & HA & Hy & HB) Hp Hn Hs Hlow Hhigh Hb Hlen Hc.
  destruct Hy as (p' & n0 & r0 & rs & Hp' & Hr & Hn' & Hok & Hcl & Hcs). rewrite Hp in Hp'. injection Hp' as <-.
  rewrite Hn in Hn'. injection Hn' as <-.
  pose proof (above_all _ _ _ _ Hs Hlow Hhigh) as Habove.
  apply Forall_app in Habove as [Habove _]. pose proof (ir_sorted _ _ _ (no_repr _ _ _ Hok)) as Hsort. symmetry in Hcs.
  destruct (put_after sk c _ _ _ c1 x c2 Hcs Hsort Hlow Habove) as [Hput Hnew].
  destruct (insert_node n r0 rs Hok sk c Hb Hlen Hc Hnew) as [Hins|(n' & rs' & Hins & Hok' & Hpairs & Hsame)]; [by left|].
  right. exists n'. split; [done|]. intros ns' Hn' Hother. apply expands_app. exists A, ((c1 ++ x :: (sk, c) :: c2) ++ B).
  split; [by rewrite <- !app_assoc|]. split.
  { eapply expands_frame; [|exact HA]. intros z ptr Hz. apply Hother, elem_of_app. by left. }
  exists (c1 ++ x :: (sk, c) :: c2), B. split; [done|]. split.
  - exists p, n', r0, rs'. do 4 (split; [done|]). destruct Hsame as (_ & _ & _ & _ & _ & Hcl' & _). split; [congruence|].
    by rewrite Hpairs, <- Hput.
  - eapply expands_frame; [|exact HB]. intros z ptr Hz. apply Hother, elem_of_app. by right.
Qed.

(** A level with a new child is sorted. *)
Lemma sorted_insert M1 x M2 sk c :
  sorted (M1 ++ x :: M2) → bytes_lt x.1 sk → (next_low M2 [] = [] ∨ bytes_lt sk (next_low M2 [])) → sorted (M1 ++ x :: (sk, c) :: M2).
Proof.
  intros Hs Hlow Hhigh. pose proof (above_all _ _ _ _ Hs Hlow Hhigh) as Habove.
  assert (Forall (λ z, bytes_lt z.1 sk) (M1 ++ [x])) as Hbelow.
  { destruct x as [xk xc]. apply sorted_mid in Hs as [Hs _]. apply Forall_app. split; [|by apply Forall_singleton].
    eapply Forall_impl; [exact Hs|]. intros z Hz. eapply cmp_lt_trans; [exact Hz|done]. }
  rewrite (cons_middle x), app_assoc in Hs |- *. rewrite <- (put_between sk c (M1 ++ [x]) M2) by done. by apply put_sorted.
Qed.

Lemma shape_leaf_split ns root lv h p n n' L1 x L2 sk c :
  shape ns root lv → length lv = S (S h) → lv !! S h = Some (L1 ++ x :: L2) → under ns lv (S h) (Some p) L1 x L2 → ns !! p = Some n →
  bytes_lt x.1 sk → (next_low L2 [] = [] ∨ bytes_lt sk (next_low L2 [])) → bytes_ok sk → zlen sk <= MAX_KEY_LEN → pid_ok c →
  insert n sk c = Ret (true, n') → shape (<[p:=n']> ns) root (<[S h:=L1 ++ x :: (sk, c) :: L2]> lv).
Proof.
  intros Hs Hlen HL (M1 & y & M2 & HM & Hp & Hlink) Hn Hlow Hhigh Hb Hk Hc Hins.
  pose proof (Forall_lookup_1 _ _ _ _ (sh_sorted _ _ _ Hs) HL) as Hsort.
  destruct (ids_distinct _ _ _ h M1 y M2 Hs HM ltac:(lia)) as [Hd1 Hd2].
  destruct (link_insert _ _ _ _ _ _ _ _ p n sk c Hlink Hp Hn Hsort Hlow Hhigh Hb Hk Hc) as [[Hf _]|(n2 & Hins' & Hex)]; [congruence|].
  rewrite Hins in Hins'. injection Hins' as <-. eapply shape_replace; try done; [by apply sorted_insert| | | |].
  - rewrite inner_ids_leaf by done. apply Hs.
  - intros k M z ptr HM' Hk1 _ Hk2 Hz Hzp. rewrite lookup_insert_ne; [done|]. intros <-. apply (Hd2 k M z HM' Hk2 Hk1 Hz). congruence.
  - intros M HM'. rewrite HM in HM'. injection HM' as <-. apply Hex; [by rewrite lookup_insert_eq|].
    intros z ptr Hz Hzp. rewrite lookup_insert_ne; [done|]. intros <-. apply (Hd1 z Hz). congruence.
  - intros N HN. apply lookup_lt_Some in HN. lia.
Qed.

Lemma node_ok_version n r0 rs w : node_ok n r0 rs → node_ok (set_version_word n w) r0 rs.
Proof. intros [H1 H2 H3 H4]. split; try done. by apply set_version_repr. Qed.

(** The halves of a node. *)
Lemma split_node n r0 rs b version :
  node_ok n r0 rs → 2 <= count n → records b = [] → raw_ok (raw_node b) → 0 <= version < 2 ^ 63 →
  ∃ sk n' b' right r0' rs1 q0 qs, get_split_key n = Ret sk ∧ split n b version = Ret (sk, n', b') ∧ build b' version = Ret right ∧
    raw_ptr b' = raw_ptr b ∧ node_ok n' r0' rs1 ∧ node_ok right q0 qs ∧
    children_is_leaf (meta n') = children_is_leaf (meta n) ∧ children_is_leaf (meta right) = children_is_leaf (meta n) ∧
    bytes_ok sk ∧ zlen sk <= MAX_KEY_LEN ∧ ir_child r0' = ir_child r0 ∧
    map ir_pair rs = map ir_pair rs1 ++ (sk, ir_child q0) :: map ir_pair qs.
Proof.
  intros [HR Hsp Hkeys Hflag] Hcnt Hb Hraw Hv. destruct (split_at_middle n r0 rs HR Hcnt) as (rs1 & r & rs2 & -> & Hlen).
  destruct (split_repr n r0 rs1 r rs2 b version HR Hlen Hb Hv) as
    (n' & r0' & rs' & b' & Hrun & HR' & Hl & Hp & _ & _ & _ & _ & Hcl & Hrec & Hlm & Hbl & _ & Hptr & Hrn & Hrem & Hfl).
  pose proof (ir_sorted _ _ _ HR) as Hs. rewrite map_app in Hs. cbn [map] in Hs.
  pose proof (repr_pairs_ok _ _ _ HR) as Hok. rewrite map_app in Hok. cbn [map] in Hok. apply Forall_app in Hok as [_ [Hr Hok]%Forall_cons].
  pose proof (repr_space _ _ _ HR) as Hspace. rewrite map_app, space_app in Hspace. pose proof (lo_rem _ _ (ir_layout _ _ _ HR)).
  change (space_of (map ir_pair (r :: rs2))) with (required_len (ir_key r) + space_of (map ir_pair rs2)) in Hspace.
  pose proof (space_nonneg (map ir_pair rs1)). pose proof (required_pos (ir_key r)).
  destruct (build_repr b' (ir_child r) (children_is_leaf (meta n)) version) as
    (right & q0 & qs & Hbuild & HRq & Hql & Hqp & _ & _ & _ & _ & Hqcl & Hqrem & Hqfl);
    rewrite ?Hrec, ?Hrn; auto; [apply Hr|by eapply (sorted_suffix (map ir_pair rs1 ++ [ir_pair r])); rewrite <- app_assoc|lia|].
  apply Forall_app in Hkeys as [Hk1 [Hkr Hk2]%Forall_cons].
  assert (∀ l l' : list irec, map ir_pair l = map ir_pair l' → Forall (λ r, zlen (ir_key r) <= MAX_KEY_LEN) l' →
    Forall (λ r, zlen (ir_key r) <= MAX_KEY_LEN) l) as Hkeys.
  { intros l l' He H'. apply (Forall_map ir_pair (λ x, zlen x.1 <= MAX_KEY_LEN)). rewrite He. by apply Forall_map. }
  exists (ir_key r), n', b', right, r0', rs', q0, qs. split; [|split; [done|]; split; [done|]; split; [done|]].
  { assert ((r0 :: rs1 ++ r :: rs2) !! S (length rs1) = Some r) as Hi by by apply list_lookup_middle.
    unfold get_split_key. replace (count n - count n / 2) with (Z.of_nat (S (length rs1))) by (unfold zlen in Hlen; lia).
    rewrite (inner_get _ _ _ HR _ _ Hi). ret_step. apply (inner_key _ _ _ HR _ _ Hi). }
  split; [split; [done|by rewrite Hrem, Hp|by eapply Hkeys|by rewrite Hfl]|].
  split; [split; [done|by rewrite Hqrem, Hqp|eapply Hkeys; [|exact Hk2]; by rewrite Hqp|by rewrite Hqfl]|].
  split_and!; try done; [apply Hr|]. by rewrite map_app, Hp, Hql, Hqp, Hrec.
Qed.

(** The key of the split lies between the neighbours. *)
Lemma split_key_between (A B : level) low (c : PageID) kvs1 sk c' kvs2 hi :
  sorted (A ++ ((low, c) :: kvs1 ++ (sk, c') :: kvs2) ++ B) → next_low B [] = hi → bytes_lt low sk ∧ (hi = [] ∨ bytes_lt sk hi).
Proof.
  intros Hs <-. split.
  - assert (sorted (A ++ (low, c) :: (kvs1 ++ (sk, c') :: kvs2 ++ B))) as H' by by list_simplifier.
    apply sorted_mid in H' as [_ H']. apply Forall_app in H' as [_ H']. by apply Forall_cons in H' as [? _].
  - destruct B as [|[k v] B]; [by left|]. right. cbn.
    assert (sorted ((A ++ (low, c) :: kvs1) ++ (sk, c') :: (kvs2 ++ (k, v) :: B))) as H' by by list_simplifier.
    apply sorted_mid in H' as [_ H']. apply Forall_app in H' as [_ H']. by apply Forall_cons in H' as [? _].
Qed.

(** A level in which a node has been replaced by its halves. *)
Lemma halves_expand ns ns' b L1 x L2 A cs1 y cs2 B :
  expands ns b L1 A → expands ns b L2 B → node_is ns' b x cs1 → node_is ns' b y cs2 →
  (∀ z ptr, z ∈ L1 ++ L2 → z.2 = from_pointer ptr → ns' !! ptr = ns !! ptr) →
  expands ns' b (L1 ++ x :: y :: L2) (A ++ (cs1 ++ cs2) ++ B).
Proof.
  intros HA HB Hx Hy Hf. apply expands_app. exists A, ((cs1 ++ cs2) ++ B). split; [done|]. split.
  { eapply expands_frame; [|exact HA]. intros z ptr Hz. apply Hf, elem_of_app. by left. }
  exists cs1, (cs2 ++ B). rewrite <- app_assoc. split; [done|]. split; [done|]. exists cs2, B. split; [done|]. split; [done|].
  eapply expands_frame; [|exact HB]. intros z ptr Hz. apply Hf, elem_of_app. by right.
Qed.

Lemma expands_pointer ns b L L' z ptr : expands ns b L L' → z ∈ L → z.2 = from_pointer ptr → is_Some (ns !! ptr).
Proof.
  revert L'. induction L as [|x L IH]; intros L' He Hz Hp; [by apply elem_of_nil in Hz|]. destruct He as (cs & B & -> & Hx & HB).
  apply elem_of_cons in Hz as [->|Hz]; [|by eapply IH]. destruct Hx as (ptr' & n & r0 & rs & Hp' & _ & Hn & _).
  rewrite Hp in Hp'. injection Hp' as ->. by exists n.
Qed.

Lemma shape_pointer ns root lv h L z ptr :
  shape ns root lv → lv !! h = Some L → (S h < length lv)%nat → z ∈ L → z.2 = from_pointer ptr → is_Some (ns !! ptr).
Proof.
  intros Hs HL Hh Hz Hp. destruct (lookup_lt_is_Some_2 lv (S h) Hh) as [L' HL']. eapply expands_pointer; [|exact Hz|exact Hp].
  by eapply (sh_step _ _ _ Hs).
Qed.

Lemma fresh_id ns root lv new : shape ns root lv → ns !! new = None → from_pointer new ∉ inner_ids lv.
Proof.
  intros Hs Hnew Hin. apply list_elem_of_fmap in Hin as (z & Hz & Hin). apply list_elem_of_In, in_concat in Hin as (L & HL & Hin).
  apply list_elem_of_In, list_elem_of_lookup in HL as [h HL]. apply list_elem_of_In in Hin.
  rewrite lookup_take in HL. case_decide as Hh; [|done]. destruct (shape_pointer _ _ _ h L z new Hs HL ltac:(lia) Hin) as [? ?]; [done|congruence].
Qed.

(** A node has one list of children. *)
Lemma node_is_view ns b x cs ptr n r0 rs :
  node_is ns b x cs → x.2 = from_pointer ptr → ns !! ptr = Some n → IRepr n r0 rs →
  cs = (x.1, ir_child r0) :: map ir_pair rs ∧ children_is_leaf (meta n) = b ∧ 0 <= ptr < 2 ^ 62.
Proof.
  intros (ptr' & n' & r0' & rs' & Hp' & Hr & Hn' & Hok & Hcl & ->) Hp Hn HR. rewrite Hp in Hp'. injection Hp' as <-.
  rewrite Hn in Hn'. injection Hn' as <-. pose proof (view_repr _ _ _ (no_repr _ _ _ Hok)) as Hv. rewrite (view_repr _ _ _ HR) in Hv.
  by injection Hv as -> ->.
Qed.

Lemma shape_flag ns root lv p n r0 rs :
  shape ns root lv → ns !! p = Some n → node_ok n r0 rs → 2 <= count n → shape (<[p:=flagged n]> ns) root lv.
Proof.
  intros Hs Hp Hok H2. destruct (flag_node n r0 rs Hok H2) as [Hok' Hcl]. eapply shape_mono; [|exact Hs].
  intros b y cs Hy. pose proof Hy as (q & n' & q0 & qs & Hq & Hrq & Hnq & Hokq & Hb & Hcs). destruct (decide (q = p)) as [->|Hne].
  - destruct (node_is_view _ _ _ _ p n r0 rs Hy Hq Hp (no_repr _ _ _ Hok)) as (-> & Hb' & _).
    exists p, (flagged n), r0, rs. split_and!; try done; [lia..|by rewrite lookup_insert_eq|congruence].
  - exists q, n', q0, qs. split_and!; try done; [lia..|by rewrite lookup_insert_ne].
Qed.

(** What the split of a node leaves in its place. *)
Record halved (nc nl nr : InnerNode) (sk : bytes) : Prop := {
  ha_key : bytes_ok sk ∧ zlen sk <= MAX_KEY_LEN;
  ha_leaf : children_is_leaf (meta nl) = children_is_leaf (meta nc) ∧ children_is_leaf (meta nr) = children_is_leaf (meta nc);
  ha_nodes : ∃ r0 rs r0' rs1 q0 qs, node_ok nc r0 rs ∧ node_ok nl r0' rs1 ∧ node_ok nr q0 qs ∧ ir_child r0' = ir_child r0 ∧
    map ir_pair rs = map ir_pair rs1 ++ (sk, ir_child q0) :: map ir_pair qs;
}.

Lemma halved_level ns b L1 low cur L2 L' nc nl nr sk new :
  expands ns b (L1 ++ (low, from_pointer cur) :: L2) L' → sorted L' → ns !! cur = Some nc → halved nc nl nr sk → 0 <= new < 2 ^ 62 →
  (bytes_lt low sk ∧ (next_low L2 [] = [] ∨ bytes_lt sk (next_low L2 []))) ∧
  ∀ ns', ns' !! cur = Some nl → ns' !! new = Some nr → (∀ z ptr, z ∈ L1 ++ L2 → z.2 = from_pointer ptr → ns' !! ptr = ns !! ptr) →
    expands ns' b (L1 ++ (low, from_pointer cur) :: (sk, from_pointer new) :: L2) L'.
Proof.
  intros (A & cs & B & -> & HA & Hx & HB)%expands_mid Hsort Hcur [_ [Hl1 Hl2] (r0 & rs & r0' & rs1 & q0 & qs & Hok & Hokl & Hokr & Hc & Hpairs)] Hnew.
  destruct (node_is_view _ _ _ _ cur nc r0 rs Hx eq_refl Hcur (no_repr _ _ _ Hok)) as (-> & Hb & Hr). cbn [fst] in *. rewrite Hpairs in *. split.
  - eapply split_key_between; [exact Hsort|]. by eapply expands_next.
  - intros ns' H1 H2 Hf. rewrite <- Hc. change ((low, ir_child r0') :: map ir_pair rs1 ++ (sk, ir_child q0) :: map ir_pair qs)
      with (((low, ir_child r0') :: map ir_pair rs1) ++ (sk, ir_child q0) :: map ir_pair qs).
    eapply halves_expand; try done; [exists cur, nl, r0', rs1|exists new, nr, q0, qs]; by rewrite ?Hl1, ?Hl2.
Qed.

Lemma shape_inner_split ns root lv h p n n' L1 low cur L2 sk nc nl nr new :
  shape ns root lv → (S (S h) < length lv)%nat → lv !! S h = Some (L1 ++ (low, from_pointer cur) :: L2) →
  under ns lv (S h) (Some p) L1 (low, from_pointer cur) L2 → ns !! p = Some n → ns !! cur = Some nc → halved nc nl nr sk →
  ns !! new = None → 0 <= new < 2 ^ 62 → insert n sk (from_pointer new) = Ret (true, n') →
  shape (<[new:=nr]> (<[cur:=nl]> (<[p:=n']> ns))) root (<[S h:=L1 ++ (low, from_pointer cur) :: (sk, from_pointer new) :: L2]> lv).
Proof.
  intros Hs Hh HL (M1 & y & M2 & HM & Hp & Hlink) Hn Hcur Hhalf Hnew Hrange Hins. set (ns' := <[new:=nr]> _).
  pose proof (Forall_lookup_1 _ _ _ _ (sh_sorted _ _ _ Hs) HL) as Hsort.
  destruct (lookup_lt_is_Some_2 lv (S (S h)) Hh) as [N HN].
  destruct (halved_level _ _ _ _ _ _ _ nc nl nr sk new (sh_step _ _ _ Hs (S h) _ _ HL HN)
    (Forall_lookup_1 _ _ _ _ (sh_sorted _ _ _ Hs) HN) Hcur Hhalf Hrange) as [[Hlow Hhigh] Hdown].
  destruct (ids_distinct _ _ _ h M1 y M2 Hs HM ltac:(lia)) as [Hd1 Hd2].
  destruct (ids_distinct _ _ _ (S h) L1 _ L2 Hs HL Hh) as [Hc1 Hc2]. cbn [snd] in *.
  assert (∀ k M z ptr, lv !! k = Some M → (S k < length lv)%nat → z ∈ M → z.2 = from_pointer ptr → ptr ≠ new) as Hfresh.
  { intros k M z ptr HM' Hk Hz Hzp ->. destruct (shape_pointer _ _ _ _ _ _ _ Hs HM' Hk Hz Hzp) as [? ?]. congruence. }
  assert (p ≠ cur) as Hpc.
  { intros ->. eapply (Hc2 h _ y HM); [lia|lia|apply elem_of_app; right; left|done]. }
  assert (p ≠ new) as Hpn by (intros ->; congruence). assert (cur ≠ new) as Hcn by (intros ->; congruence).
  destruct (link_insert _ _ _ _ _ _ _ _ p n sk (from_pointer new) Hlink Hp Hn Hsort Hlow Hhigh) as [[Hf _]|(n2 & Hins' & Hex)];
    [apply Hhalf..|by apply from_pointer_ok|congruence|]. rewrite Hins in Hins'. injection Hins' as <-.
  assert (∀ ptr, ptr ≠ new → ptr ≠ cur → ptr ≠ p → ns' !! ptr = ns !! ptr) as Hother by (intros; unfold ns'; by rewrite !lookup_insert_ne).
  eapply shape_replace; try done; [by apply sorted_insert| | | |].
  - rewrite inner_ids_inner by done. constructor; [by eapply fresh_id|apply Hs].
  - intros k M z ptr HM' Hk1 Hk2 Hk3 Hz Hzp. apply Hother; [by eapply Hfresh| |].
    + intros ->. by eapply (Hc2 k M z).
    + intros ->. eapply (Hd2 k M z); try done. congruence.
  - intros M HM'. rewrite HM in HM'. injection HM' as <-. apply Hex; [unfold ns'; by rewrite lookup_insert_ne, lookup_insert_ne, lookup_insert_eq|].
    intros z ptr Hz Hzp. assert (z ∈ M1 ++ y :: M2) as Hz' by (rewrite elem_of_app, elem_of_cons in *; tauto). apply Hother.
    + eapply (Hfresh h _ z); try done. lia.
    + intros ->. eapply (Hc2 h _ z); try done; lia.
    + intros ->. apply (Hd1 z Hz). congruence.
  - intros N' HN'. rewrite HN in HN'. injection HN' as <-. apply Hdown; [unfold ns'; by rewrite lookup_insert_ne, lookup_insert_eq|unfold ns'; by rewrite lookup_insert_eq|].
    intros z ptr Hz Hzp. assert (z ∈ L1 ++ (low, from_pointer cur) :: L2) as Hz' by (rewrite elem_of_app, elem_of_cons in *; tauto). apply Hother.
    + by eapply (Hfresh (S h) _ z).
    + intros ->. by apply (Hc1 z Hz).
    + intros ->. eapply (Hd2 (S h) _ z); try done. congruence.
Qed.

(** ** A new root *)
Definition root_over (nt : InnerNode) (b : bool) (left : PageID) (sk : bytes) (right : PageID) : Prop :=
  ∃ t0 ts, node_ok nt t0 ts ∧ children_is_leaf (meta nt) = b ∧ ir_child t0 = left ∧ map ir_pair ts = [(sk, right)].

Lemma root_over_expands ns top nt b left sk right :
  root_over nt b left sk right → 0 <= top < 2 ^ 62 → ns !! top = Some nt →
  expands ns b [([], from_pointer top)] [([], left); (sk, right)].
Proof.
  intros (t0 & ts & Hok & Hb & <- & Hp) Hr Hn. exists [([], ir_child t0); (sk, right)], []. split; [done|]. split; [|done].
  exists top, nt, t0, ts. by rewrite Hp.
Qed.

Lemma two_sorted (a b : PageID) sk : sk ≠ [] → sorted [([], a); (sk, b)].
Proof. intros H. unfold sorted. cbn. repeat constructor. by destruct sk. Qed.

Lemma shape_root_leaf ns ns' top nt pid sk sib :
  root_over nt true pid sk sib → 0 <= top < 2 ^ 62 → ns' = <[top:=nt]> ns → sk ≠ [] →
  shape ns' (from_pointer top) [[([], from_pointer top)]; [([], pid); (sk, sib)]].
Proof.
  intros Hroot Hr -> Hsk. split; [done| | |].
  - intros [|[|h]] L L' HL HL'; [|done|by destruct h]. injection HL as <-. injection HL' as <-.
    eapply root_over_expands; [exact Hroot|done|]. apply lookup_insert_eq.
  - constructor; [by repeat constructor|]. constructor; [by apply two_sorted|done].
  - apply NoDup_singleton.
Qed.

Lemma shape_root_inner ns lv cur nc nl nr sk new top nt :
  shape ns (from_pointer cur) lv → (1 < length lv)%nat → ns !! cur = Some nc → halved nc nl nr sk →
  ns !! new = None → 0 <= new < 2 ^ 62 → ns !! top = None → top ≠ new → 0 <= top < 2 ^ 62 →
  root_over nt false (from_pointer cur) sk (from_pointer new) →
  shape (<[top:=nt]> (<[new:=nr]> (<[cur:=nl]> ns))) (from_pointer top)
    ([([], from_pointer top)] :: [([], from_pointer cur); (sk, from_pointer new)] :: tail lv).
Proof.
  intros Hs Hlen Hcur Hhalf Hnew Hrange Htop Hne Hrt Hroot. destruct lv as [|L0 [|L1 lv]]; cbn in Hlen; try lia. cbn [tail].
  pose proof (sh_root _ _ _ Hs) as H0. cbn in H0. injection H0 as ->. set (ns' := <[top:=nt]> _).
  assert (cur ≠ new) as Hcn by (intros ->; congruence). assert (cur ≠ top) as Hct by (intros ->; congruence).
  pose proof (sh_sorted _ _ _ Hs) as Hsort. apply Forall_cons in Hsort as [_ Hsort]. pose proof Hsort as [Hs1 _]%Forall_cons.
  destruct (halved_level ns _ [] [] cur [] L1 nc nl nr sk new (sh_step _ _ _ Hs 0 _ _ eq_refl eq_refl) Hs1 Hcur Hhalf Hrange) as [[Hlow _] Hdown].
  destruct (ids_distinct _ _ _ 0 [] ([], from_pointer cur) [] Hs eq_refl ltac:(cbn; lia)) as [_ Hd].
  assert (∀ k, bool_decide (S (S k) = length ([([], from_pointer top)] :: [([], from_pointer cur); (sk, from_pointer new)] :: L1 :: lv)) =
    bool_decide (S k = length ([([], from_pointer cur)] :: L1 :: lv))) as Hflag by (intros k; apply bool_decide_ext; cbn; lia).
  split; [done| | |].
  - intros k M N HM HN. rewrite Hflag. revert HM HN. destruct k as [|[|k]]; intros HM HN.
    + injection HM as <-. injection HN as <-. rewrite bool_decide_eq_false_2 by (cbn; lia). eapply root_over_expands; [exact Hroot|done|apply lookup_insert_eq].
    + injection HM as <-. injection HN as <-. apply Hdown; unfold ns'.
      * by rewrite lookup_insert_ne, lookup_insert_ne, lookup_insert_eq.
      * by rewrite lookup_insert_ne, lookup_insert_eq.
      * intros z ptr Hz. by apply elem_of_nil in Hz.
    + pose proof (sh_step _ _ _ Hs (S k) M N HM HN) as He. eapply expands_frame; [|exact He]. intros z ptr Hz Hzp.
      assert (S (S k) < length ([([], from_pointer cur)] :: L1 :: lv))%nat as Hk by (apply lookup_lt_Some in HN; cbn in *; lia).
      destruct (shape_pointer _ _ _ (S k) M z ptr Hs HM Hk Hz Hzp) as [n' Hn'].
      assert (ptr ≠ cur) by (intros ->; by eapply (Hd (S k) M z)).
      unfold ns'. rewrite !lookup_insert_ne; [done|congruence..].
  - constructor; [by repeat constructor|]. constructor; [|done]. apply two_sorted. by eapply bytes_lt_nonempty.
  - assert (inner_ids ([([], from_pointer top)] :: [([], from_pointer cur); (sk, from_pointer new)] :: L1 :: lv) ≡ₚ
      from_pointer top :: from_pointer new :: inner_ids ([([], from_pointer cur)] :: L1 :: lv)) as ->.
    { unfold inner_ids. cbn. constructor. constructor. }
    pose proof (fresh_id _ _ _ _ Hs Hnew) as Hn1. pose proof (fresh_id _ _ _ _ Hs Htop) as Hn2. constructor; [|constructor; [done|apply Hs]].
    intros [Heq|Hin]%elem_of_cons; [|done]. by injection Heq.
Qed.

(** ** The depth of a tree *)
Lemma level_nonempty ns root lv h L : shape ns root lv → lv !! h = Some L → L ≠ [].
Proof.
  intros Hs. revert L. induction h as [|h IH]; intros L HL; [rewrite (sh_root _ _ _ Hs) in HL; by injection HL as <-|].
  destruct (lookup_lt_is_Some_2 lv h) as [M HM]; [apply lookup_lt_Some in HL; lia|]. pose proof (IH M HM) as Hne.
  pose proof (sh_step _ _ _ Hs h M L HM HL) as He. destruct M as [|x M]; [done|].
  destruct He as (cs & R & -> & (? & ? & ? & ? & _ & _ & _ & _ & _ & ->) & _). done.
Qed.

Lemma concat_length (l : list level) : Forall (λ L, L ≠ []) l → (length l <= length (concat l))%nat.
Proof.
  induction 1 as [|L l HL _ IH]; [done|]. cbn. rewrite length_app. destruct L; [done|]. cbn. lia.
Qed.

Lemma depth_bound ns root lv : shape ns root lv → (length lv <= S (size ns))%nat.
Proof.
  intros Hs. set (ids := map pid_value (inner_ids lv)).
  assert (NoDup ids) as Hnd.
  { apply NoDup_fmap_2_strong; [|apply Hs]. intros [] [] _ _. cbn. by intros ->. }
  assert (∀ p, p ∈ ids → p ∈ dom ns) as Hin.
  { intros p (pid & -> & (z & -> & Hz)%list_elem_of_fmap)%list_elem_of_fmap. apply list_elem_of_In, in_concat in Hz as (L & HL & Hz).
    apply list_elem_of_In, list_elem_of_lookup in HL as [h HL]. apply list_elem_of_In in Hz. rewrite lookup_take in HL. case_decide as Hh; [|done].
    apply elem_of_dom. eapply (shape_pointer ns root lv h L z); try done; [lia|]. by destruct z.2. }
  assert (length ids <= size (dom ns))%nat as Hle.
  { rewrite <- (size_list_to_set (C:=gset Z) ids) by done. apply subseteq_size. intros p Hp%elem_of_list_to_set. by apply Hin. }
  rewrite size_dom in Hle. assert (pred (length lv) <= length ids)%nat; [|lia]. unfold ids, inner_ids. rewrite !length_map.
  etrans; [|apply concat_length]; [rewrite length_take; lia|]. apply Forall_take, Forall_lookup_2. intros h L HL. by eapply level_nonempty.
Qed.
End shape.
