(* ===== verification/TreeInv.v ===== *)
(** What a tree (src/tree.rs) represents: a map from keys to values.  The invariant ties the inner nodes, the
    leaves and the pages in use together; the rules are those for operations on a tree and on a
    leaf under its lock. *)
From stdpp Require Import base numbers list sorting option gmap.
From Stdlib Require Import ZArith Lia.
From S2P Require Import Prelude Bits NodeMeta PageLayout InnerNode InnerRepr InnerSearch InnerInsert InnerSplit InnerTheorems LeafMeta LeafNode LeafOps Entries LeafRepr LeafSplit MergeSplit Config CircularBuffer StateError Storage LeafEntry EntryInv EntryLeaf EntryInsert EntryMove EntryMerge TreeLeaves Tree TreeShape.

(** What is known of a log: an append returns. *)
Class WriteLogLaws (W : Type) `{WriteLog W} := {
  log_inv : W → Prop;
  log_serves : W → bytes → bytes → Prop;
  append_law w key value op offset : log_inv w → log_serves w key value → 0 <= offset < 2 ^ 64 →
    ∃ l w', append_and_wait w key value op offset = Ret (l, w') ∧ log_inv w' ∧ ∀ k v, log_serves w' k v ↔ log_serves w k v;
}.

(** What is known of the allocator, up to a number of nodes: memory that is not in use. *)
Record heap_ok (hp : heap) (limit : nat) : Prop := {
  he_fresh : ∀ ns, (size ns < limit)%nat → ns !! fresh_ptr hp ns = None ∧ 0 <= fresh_ptr hp ns < 2 ^ 62;
  he_memory : ∀ ptr, raw_ok (fresh_node hp ptr);
}.

Section tree.
Context {B T W F : Type} {RB : RecordBound} `{HPB : PageBuffer B} `{HBL : !PageBufferLaws B} `{HPM : PageMap T} `{HML : !PageMapLaws T}
  `{HWL : WriteLog W} `{HLL : !WriteLogLaws W}.
Context (mem : memory) (cfg : @Config F) (front : list Z) (mini : Z).
Abbreviation env := (@env B T).
Abbreviation tree := (BfTree B T W).
Abbreviation leaves_at := (leaves_at mem cfg front mini).
Abbreviation leaf_at := (leaf_at mem cfg front mini).
Abbreviation entry_at := (entry_at mem cfg front mini).
Hypothesis Hsetup : Setup mem cfg front mini.
Implicit Types (t : tree) (e : env) (ls : list leaf) (lv : list level) (m : bytes → option bytes).

(** The pages [exc] are in use and belong to no leaf. *)
Record tree_at (exc : list Z) t ls lv m : Prop := {
  ta_leaves : leaves_at exc (storage t) ls;
  ta_shape : shape (inner_nodes t) (root_page t).1 lv;
  ta_kind : (root_page t).2 = bool_decide (length lv = 1%nat);
  ta_tiled : ∃ L, lv !! pred (length lv) = Some L ∧ tiled ls m L [] ∧ ((1 < length lv)%nat → (2 <= length L)%nat);
  ta_single : length lv = 1%nat → ∀ p, buf_owner (circular_buffer (storage t)) p ≠ Some Live;
  ta_log : ∀ w, wal t = Some w → log_inv w ∧ ∀ k v, limits cfg k v → log_serves w k v;
}.

Definition represents (exc : list Z) t m : Prop := ∃ ls lv, tree_at exc t ls lv m.

(** The same tree, but for the representation of the page table and the answers of other threads. *)
Record same_tree t t' : Prop := {
  st_root : root_page_id t' = root_page_id t;
  st_nodes : inner_nodes t' = inner_nodes t;
  st_storage : storage t' = set_table (storage t) (page_table (storage t'));
  st_wal : wal t' = wal t;
}.

(** ** Rules *)
Lemma wp_on_entry {A} X (m : SE TreeError env A) Q e t :
  wp X m (λ r e', Q r (e', t)) e → wp X (on_entry m) Q (e, t).
Proof. unfold wp, on_entry. cbn. by destruct (m e) as [[r e']|]. Qed.

Lemma wp_on_tree {A} X (m : SE TreeError tree A) Q e t :
  wp X m (λ r t', Q r (e, t')) t → wp X (on_tree m) Q (e, t).
Proof. unfold wp, on_tree. cbn. by destruct (m t) as [[r t']|]. Qed.

Lemma wp_ask X Q t : (∀ b l, Q (inr b) (set_contention t l)) → wp X ask Q t.
Proof.
  intros H. unfold wp, ask. destruct (contention t) as [|b l] eqn:Hc; [|apply H].
  specialize (H true []). unfold set_contention in H. rewrite <- Hc in H. by destruct t.
Qed.

Lemma wp_attempt X Q t : (∀ l, Q (inr tt) (set_contention t l) ∧ Q (inl Locked) (set_contention t l)) → wp X attempt Q t.
Proof. intros H. unfold attempt. apply wp_bind, wp_ask. intros [] l; [apply wp_ret|apply wp_throw]; apply H. Qed.

Lemma wp_draw_race X (Q : TreeError + Race → env * tree → Prop) e t :
  (∀ race l, Q (inr race) (e, set_contention t l)) → wp X draw_race Q (e, t).
Proof.
  intros H. unfold draw_race. apply wp_bind, wp_on_tree, wp_ask. intros a l. apply wp_bind, wp_on_tree, wp_ask. intros b l'.
  apply wp_ret. apply H.
Qed.

(** An operation on a locked leaf. *)
Lemma wp_locked {A} X pid parent (m : SE TreeError (env * tree) A) Q t id p e :
  as_id pid = Ret id → parent_of t parent = Ret p → get_entry (storage t) id p = Ret e →
  wp X m (λ r s, ∃ st, put_entry s.1 id = Ret st ∧ Q r (back s.2 parent (parent_node s.1) st)) (e, t) →
  wp X (locked pid parent m) Q t.
Proof.
  intros H1 H2 H3 H. unfold wp, locked in *. rewrite H1. ret_step. rewrite H2. ret_step. rewrite H3. ret_step.
  destruct (m (e, t)) as [[r [e' t']]|]; [|done]. destruct H as (st & Hput & HQ). cbn [fst snd] in *. ret_step. cbv iota. rewrite Hput. by ret_step.
Qed.

(** ** A leaf under its lock *)

(** The descent for [key] has come to the leaf [lf], the number [i] of the page table. *)
Record at_leaf exc t ls lv m (key : bytes) (parent : option Z) (L1 : level) (x : bytes * PageID) (L2 : level)
    (i : nat) (lf : leaf) (loc : PageLocation) (par : option InnerNode) : Prop := {
  al_tree : tree_at exc t ls lv m;
  al_cursor : cursor (inner_nodes t) lv key (pred (length lv)) parent L1 x L2;
  al_pid : x.2 = from_id (Z.of_nat i) ∧ Z.of_nat i < 2 ^ 62;
  al_leaf : ls !! i = Some lf;
  al_bounds : lf_low lf = x.1 ∧ lf_high lf = next_low L2 [];
  al_view : ∀ k, in_bounds (lf_low lf) (lf_high lf) k → lf_view lf k = m k;
  al_loc : leaf_at (storage t) lf loc;
  al_get : ∀ p, get_entry (storage t) (Z.of_nat i) p = Ret (mkEnv (storage t) loc None p) ∧ entry_at (mkEnv (storage t) loc None p) lf;
  al_parent : parent_of t parent = Ret par;
  al_node : ∀ n, par = Some n → ∃ p r0 rs, parent = Some p ∧ inner_nodes t !! p = Some n ∧ node_ok n r0 rs ∧ (1 < length lv)%nat;
  al_root : par = None → length lv = 1%nat ∧ parent = None ∧ pointers loc = [];
}.

Lemma lock_leaf exc t ls lv m key parent L1 x L2 :
  tree_at exc t ls lv m → cursor (inner_nodes t) lv key (pred (length lv)) parent L1 x L2 →
  ∃ i lf loc par, at_leaf exc t ls lv m key parent L1 x L2 i lf loc par.
Proof.
  intros Ht Hc. pose proof Ht as [Hl Hs Hk (L & HL & Htile & Htwo) Hone Hlog]. pose proof Hc as [Hat Hkey Hu].
  rewrite HL in Hat. injection Hat as ->. destruct x as [low pid].
  apply tiled_app in Htile as [_ [(i & lf & Hpid & Hi & Hlf & Hlow & Hhigh & Hv) _]].
  destruct (leaves_lock mem cfg front mini exc _ _ _ _ Hl Hlf) as (loc & Hloc & Hget). pose proof (lookup_lt_Some _ _ _ HL) as Hlen.
  destruct (pred (length lv)) as [|h] eqn:Hh, parent as [p|]; cbn [under] in Hu; try done.
  - exists i, lf, loc, None. split; try done; [by rewrite Hh|by rewrite Hlow, Hhigh|]. intros _. split; [lia|]. split; [done|].
    destruct (pointers loc) as [|q qs] eqn:Hq; [done|]. destruct (pointer_offset mem cfg front mini _ lf loc q Hloc) as (n & [_ Hn] & _).
    { rewrite Hq. left. }
    by destruct (Hone ltac:(lia) q).
  - destruct Hu as (M1 & y & M2 & HM & Hp & A & c1 & c2 & R & _ & _ & _ & Hy & _).
    destruct Hy as (p' & n & r0 & rs & Hp' & Hr & Hn & Hok & _ & _). rewrite Hp in Hp'. injection Hp' as <-.
    exists i, lf, loc, (Some n). split; try done; [by rewrite Hh|by rewrite Hlow, Hhigh| |].
    + cbn. unfold node_at. rewrite Hn. cbn. by ret_step.
    + intros n' [= <-]. exists p, r0, rs. split_and!; try done. lia.
Qed.

Definition log_ready t : Prop := ∀ w, wal t = Some w → log_inv w ∧ ∀ k v, limits cfg k v → log_serves w k v.

(** The tree around the entry: its nodes are as they were. *)
Definition around t t' : Prop := root_page_id t' = root_page_id t ∧ inner_nodes t' = inner_nodes t ∧ log_ready t'.

(** What a step may take of the room: that of a leaf and of two inner nodes. *)
Definition spends t t' : Prop :=
  (∀ n, budget cfg (S n) (storage t) → budget cfg n (storage t')) ∧ (size (inner_nodes t') <= 2 + size (inner_nodes t))%nat.

(** What the halves of a leaf answer for. *)
Lemma left_view (lf : leaf) sk m :
  (∀ k, in_bounds (lf_low lf) (lf_high lf) k → lf_view lf k = m k) → bytes_lt (lf_low lf) sk → (lf_high lf = [] ∨ bytes_lt sk (lf_high lf)) →
  ∀ k, in_bounds (lf_low lf) sk k → lf_view (left_leaf lf sk) k = m k.
Proof.
  intros Hv Hlow Hhigh k Hk. cbn. destruct (is_below sk k) eqn:Hb.
  - apply Hv. destruct Hk as [Hk [->|Hk']]; [by destruct (lf_low lf)|]. split; [done|]. destruct Hhigh; [by left|right]. by eapply cmp_lt_trans.
  - exfalso. eapply above_outside; [|exact Hb|exact Hk]. by eapply bytes_lt_nonempty.
Qed.

Lemma right_view (lf : leaf) sk off m :
  (∀ k, in_bounds (lf_low lf) (lf_high lf) k → lf_view lf k = m k) → bytes_lt (lf_low lf) sk →
  ∀ k, in_bounds sk (lf_high lf) k → lf_view (right_leaf lf sk off) k = m k.
Proof.
  intros Hv Hlow k Hk. cbn. destruct (is_below sk k) eqn:Hb; [by destruct (below_outside sk (lf_high lf) k)|].
  apply Hv. destruct Hk as [Hk Hk']. split; [|done]. intros Hgt. apply cmp_gt_lt in Hgt. apply (bytes_lt_irrefl k).
  eapply cmp_lt_trans; [exact Hgt|]. by eapply cmp_lt_le_trans.
Qed.

Section locked.
Context (exc : list Z) (t : tree) (ls : list leaf) (lv : list level) (m : bytes → option bytes) (key : bytes).
Context (parent : option Z) (L1 : level) (x : bytes * PageID) (L2 : level) (i : nat) (lf : leaf) (loc : PageLocation) (par : option InnerNode).
Hypothesis Hal : at_leaf exc t ls lv m key parent L1 x L2 i lf loc par.
Abbreviation e0 := (mkEnv (storage t) loc None par).

Lemma al_leaves : leaves_at exc (storage t) ls.
Proof. apply (ta_leaves _ _ _ _ _ (al_tree _ _ _ _ _ _ _ _ _ _ _ _ _ _ Hal)). Qed.

(** The parent as it was, or told to split. *)
Lemma back_shape t' s e' :
  root_page_id t' = root_page_id t → inner_nodes t' = inner_nodes t → parent_kept e0 e' →
  let t2 := back t' parent (parent_node e') s in
  shape (inner_nodes t2) (root_page t2).1 lv ∧ (root_page t2).2 = bool_decide (length lv = 1%nat) ∧ storage t2 = s ∧ wal t2 = wal t'.
Proof.
  intros Hr Hn Hk t2. pose proof (al_tree _ _ _ _ _ _ _ _ _ _ _ _ _ _ Hal) as [_ Hs Hkind _ _ _].
  assert (root_page t2 = root_page t) as Hroot.
  { unfold root_page, t2, back. destruct parent as [p|], (parent_node e'); cbn; by rewrite Hr. }
  rewrite Hroot. split; [|split; [done|]; unfold t2, back; by destruct parent, (parent_node e')].
  destruct par as [n|] eqn:Hpar.
  2:{ destruct (al_root _ _ _ _ _ _ _ _ _ _ _ _ _ _ Hal eq_refl) as (_ & -> & _). unfold t2, back. cbn. by rewrite Hn. }
  destruct (al_node _ _ _ _ _ _ _ _ _ _ _ _ _ _ Hal n eq_refl) as (p & r0 & rs & -> & Hp & Hok & _).
  destruct Hk as [Hk|(n' & key' & Hk1 & Hk2 & Hk3 & Hk)]; unfold t2, back; rewrite Hk; cbn; rewrite Hn.
  - by rewrite insert_id.
  - injection Hk1 as <-. eapply shape_flag; try done. by eapply full_has_two.
Qed.

Lemma back_size t' s e' : inner_nodes t' = inner_nodes t → size (inner_nodes (back t' parent (parent_node e') s)) = size (inner_nodes t).
Proof.
  intros Hn. unfold back. destruct parent as [p|] eqn:Hp, (parent_node e') as [n|]; cbn; rewrite Hn; try done.
  apply map_size_insert_Some. pose proof (al_parent _ _ _ _ _ _ _ _ _ _ _ _ _ _ Hal) as Hpar. cbn in Hpar.
  unfold node_at in Hpar. by destruct (inner_nodes t !! p).
Qed.

Lemma back_storage t' s e' : storage (back t' parent (parent_node e') s) = s.
Proof. unfold back. by destruct parent, (parent_node e'). Qed.

Lemma put_spends t' s e' :
  inner_nodes t' = inner_nodes t → (∀ n, budget cfg (S n) (storage t) → budget cfg n s) → spends t (back t' parent (parent_node e') s).
Proof. intros Hn Hb. split; [by rewrite back_storage|]. rewrite back_size by done. lia. Qed.

(** The same leaf, with another contents. *)
Lemma put_same left e' lf' m' t' :
  leaf_step mem cfg front mini left (storage t) loc lf e' lf' [] → lf_low lf' = lf_low lf → lf_high lf' = lf_high lf →
  (∀ k, in_bounds (lf_low lf) (lf_high lf) k → lf_view lf' k = m' k) → (∀ k, ¬ in_bounds (lf_low lf) (lf_high lf) k → m' k = m k) →
  parent_kept e0 e' → (par = None → pointers (location e') = [] ∧ left = []) → around t t' →
  ∃ s, put_entry e' (Z.of_nat i) = Ret s ∧ circular_buffer s = circular_buffer (store e') ∧
    tree_at (left ++ exc) (back t' parent (parent_node e') s) (<[i:=lf']> ls) lv m' ∧ spends t (back t' parent (parent_node e') s).
Proof.
  intros Hstep Hlow Hhigh Hv Hm Hk Hroot (Hr & Hn & Hlog). pose proof Hal as [[_ _ _ (L & HL & Htile & Htwo) Hone _] [Hat _ _] [Hpid Hi] Hlf [Hb1 Hb2] _ Hloc Hget _ _ _].
  destruct (leaves_put mem cfg front mini left exc _ _ i lf loc e' lf' [] al_leaves Hlf (λ p, proj1 (Hget p)) Hloc Hstep) as (s & Hput & Hls & Hcb & Hsp).
  rewrite app_nil_r in Hls. exists s. split; [done|]. split; [done|]. split; [|by apply put_spends].
  destruct (back_shape t' s e' Hr Hn Hk) as (Hs' & Hkind & Hst & Hwal). split; [by rewrite Hst|done|done| | |by rewrite Hwal].
  - exists L. split; [done|]. split; [|done]. rewrite HL in Hat. injection Hat as ->. destruct x as [low pid]. cbn in Hpid, Hb1. subst pid low.
    pose proof (Forall_lookup_1 _ _ _ _ (sh_sorted _ _ _ Hs') HL) as Hsort.
    destruct (tiled_others ls m (<[i:=lf']> ls) m' L1 (lf_low lf) i L2 lf Htile Hsort Hlf eq_refl) as [H1 H2].
    + intros j y Hj Hy. by rewrite list_lookup_insert_ne.
    + intros k Hk'. apply Hm. by rewrite Hb2.
    + apply tiled_app. split; [done|]. split; [|done]. exists i, lf'. rewrite <- Hb2. split_and!; try done.
      by rewrite list_lookup_insert_eq by by eapply lookup_lt_Some.
  - intros Hlen p Hp. rewrite Hst, Hcb in Hp. assert (par = None) as Hnone.
    { destruct par as [n|] eqn:Hpar; [|done]. destruct (al_node _ _ _ _ _ _ _ _ _ _ _ _ _ _ Hal n eq_refl) as (? & ? & ? & _ & _ & _ & ?). lia. }
    destruct (Hroot Hnone) as [Hptr ->]. destruct (step_owned mem cfg front mini _ _ _ _ _ _ _ p Hstep Hp) as [Hin|[Hin|[_ Hin]]].
    + by apply elem_of_nil in Hin.
    + rewrite Hptr in Hin. by apply elem_of_nil in Hin.
    + by apply (Hone Hlen p).
Qed.

(** The leaf is split at [sk], with a new leaf at the end of the page table. *)
Lemma put_split left e' sk off n n' t' :
  leaf_step mem cfg front mini left (storage t) loc lf e' (left_leaf lf sk) [right_leaf lf sk off] →
  bytes_ok sk → zlen sk <= MAX_KEY_LEN → bytes_lt (lf_low lf) sk → (lf_high lf = [] ∨ bytes_lt sk (lf_high lf)) →
  Z.of_nat (length ls) < 2 ^ 62 → par = Some n → parent_node e' = Some n' →
  InnerNode.insert n sk (from_id (Z.of_nat (length ls))) = Ret (true, n') → around t t' →
  ∃ s, put_entry e' (Z.of_nat i) = Ret s ∧ circular_buffer s = circular_buffer (store e') ∧
    represents (left ++ exc) (back t' parent (parent_node e') s) m ∧ spends t (back t' parent (parent_node e') s).
Proof.
  intros Hstep Hkb Hkl Hlow Hhigh Hlen Hpar Hpar' Hins (Hr & Hn & Hlog).
  pose proof Hal as [[_ Hs Hkind (L & HL & Htile & Htwo) _ _] [Hat _ Hu] [Hpid Hi] Hlf [Hb1 Hb2] Hv Hloc Hget _ Hnode _].
  destruct (leaves_put mem cfg front mini left exc _ _ i lf loc e' _ _ al_leaves Hlf (λ p, proj1 (Hget p)) Hloc Hstep) as (s & Hput & Hls & Hcb & Hsp).
  exists s. split; [done|]. split; [done|]. split; [|by apply put_spends]. destruct (Hnode n Hpar) as (p & r0 & rs & Hp & Hnp & Hok & Hlv).
  destruct (pred (length lv)) as [|h] eqn:Hh; [lia|]. rewrite HL in Hat. injection Hat as ->. destruct x as [low pid]. cbn in Hpid, Hb1. subst pid low.
  set (c := from_id (Z.of_nat (length ls))). set (Lnew := L1 ++ (lf_low lf, from_id (Z.of_nat i)) :: (sk, c) :: L2).
  rewrite Hp in Hu. pose proof Hhigh as Hhigh'. rewrite Hb2 in Hhigh'.
  pose proof (shape_leaf_split _ _ lv h p n n' L1 _ L2 sk c Hs ltac:(lia) HL Hu Hnp Hlow Hhigh' Hkb Hkl
    (from_id_ok (Z.of_nat (length ls)) ltac:(lia)) Hins) as Hs'. fold Lnew in Hs'.
  exists (<[i:=left_leaf lf sk]> ls ++ [right_leaf lf sk off]), (<[S h:=Lnew]> lv). rewrite Hpar', Hp. unfold back. split; cbn.
  - done.
  - unfold root_page. cbn. by rewrite Hr, Hn.
  - unfold root_page in *. cbn. by rewrite Hr, length_insert.
  - exists Lnew. rewrite length_insert, Hh. split; [by rewrite list_lookup_insert_eq by lia|]. split.
    + pose proof (Forall_lookup_1 _ _ _ _ (sh_sorted _ _ _ Hs) HL) as Hsort.
      destruct (tiled_others ls m (<[i:=left_leaf lf sk]> ls ++ [right_leaf lf sk off]) m L1 (lf_low lf) i L2 lf Htile Hsort Hlf eq_refl) as [H1 H2].
      * intros j y Hj Hy. rewrite lookup_app_l by (rewrite length_insert; by eapply lookup_lt_Some). by rewrite list_lookup_insert_ne.
      * done.
      * apply tiled_app. split; [done|]. split; [|split; [|done]].
        -- exists i, (left_leaf lf sk). split_and!; try done.
           ++ rewrite lookup_app_l by (rewrite length_insert; by eapply lookup_lt_Some). by rewrite list_lookup_insert_eq by by eapply lookup_lt_Some.
           ++ by apply (left_view lf sk m).
        -- exists (length ls), (right_leaf lf sk off). split_and!; try done.
           ++ rewrite lookup_app_r by (rewrite length_insert; lia). rewrite length_insert, Nat.sub_diag. done.
           ++ by rewrite <- Hb2; apply (right_view lf sk off m).
    + intros _. unfold Lnew. rewrite length_app. cbn. lia.
  - rewrite length_insert. lia.
  - done.
Qed.

(** An entry that has not changed. *)
Lemma put_unchanged e' l :
  drop_entry e' = Ret (storage t) → location e' = loc → parent_node e' = par →
  ∃ s, put_entry e' (Z.of_nat i) = Ret s ∧ let t' := back (set_contention t l) parent (parent_node e') s in
    same_tree t t' ∧ tree_at exc t' ls lv m ∧ ∀ n, budget cfg n (storage t) → budget cfg n (storage t').
Proof.
  intros Hdrop Hl Hp. pose proof Hal as [[_ _ _ Htile Hone Hlog] _ _ Hlf _ _ _ Hget _ Hnode Hroot].
  destruct (leaves_reput mem cfg front mini exc _ _ i lf loc e' al_leaves Hlf (λ p, proj1 (Hget p)) Hdrop Hl) as (tb & Hput & Hls & Hbud).
  exists (set_table (storage t) tb). split; [done|]. intros t'. destruct (back_shape (set_contention t l) (set_table (storage t) tb) e' eq_refl eq_refl)
    as (Hs & Hk & Hst & Hw); [by left|]. fold t' in Hs, Hk, Hst, Hw. rewrite Hst. split; [|split].
  - split; [by unfold t', back; destruct parent, (parent_node e')| |by rewrite Hst|done]. unfold t', back. rewrite Hp. destruct par as [n|].
    + destruct (Hnode n eq_refl) as (p & r0 & rs & -> & Hnp & _). cbn. by rewrite insert_id.
    + by destruct parent.
  - split; [by rewrite Hst|done|done|done| |by rewrite Hw]. rewrite Hst. done.
  - done.
Qed.

Lemma table_length l : map_list (page_table (storage t)) l → zlen l = Z.of_nat (length ls).
Proof.
  intros Hl. destruct al_leaves as [_ (locs & Hl' & Hall & _) _]. unfold zlen.
  by rewrite (map_length_law _ _ _ Hl Hl'), (Forall2_length _ _ _ Hall).
Qed.

(** The two parts of the leaf, which an operation up to [e1] has made. *)
Lemma put_parts left e1 e' sk t' :
  split_done mem cfg front mini e0 e1 lf sk → parent_node e' = parent_node e1 →
  leaf_step mem cfg front mini left (storage t) loc lf e' (left_leaf lf sk) [right_leaf lf sk (next_available_offset (storage t))] →
  growable (storage t) → around t t' →
  ∃ s, put_entry e' (Z.of_nat i) = Ret s ∧ circular_buffer s = circular_buffer (store e') ∧
    represents (left ++ exc) (back t' parent (parent_node e') s) m ∧ spends t (back t' parent (parent_node e') s).
Proof.
  intros [[Hkb Hkl] Hlow Hhigh _ _ _ _ _ (id & n & n' & Hid & Hidr & Hp & Hp' & Hins)] Hpar Hstep Hgrow Hta.
  pose proof Hgrow as (Hr & Ho & l & Hl & Hlen). cbn [parent_node store] in *. rewrite (Hid l Hl) in Hlen.
  assert (id = Z.of_nat (length ls)) as -> by (rewrite <- (Hid l Hl); by apply table_length).
  rewrite Hp' in Hpar. by apply (put_split left e' sk _ n n' t' Hstep).
Qed.

(** What an operation leaves that has to be repeated. *)
Lemma put_failed e' t' :
  same_or_split mem cfg front mini e0 lf e' → (par = None → pointers (location e') = []) → growable (storage t) → around t t' →
  ∃ s, put_entry e' (Z.of_nat i) = Ret s ∧ circular_buffer s = circular_buffer (store e') ∧
    represents exc (back t' parent (parent_node e') s) m ∧ spends t (back t' parent (parent_node e') s).
Proof.
  intros Hso Hroot Hgrow Hta. destruct Hso as [(He & Hap & Hk)|(sk & Hsd & He)].
  - destruct (put_same [] e' lf m t') as (s & Hput & Hcb & Ht' & Hsp); try done; [by apply (leaf_step_apart mem cfg front mini Hsetup e0)|apply Hal|by intros H; split; [apply Hroot|]|].
    exists s. do 2 (split; [done|]). split; [|done]. eexists _, _. exact Ht'.
  - by apply (put_parts [] e' e' sk t' Hsd eq_refl (leaf_step_split mem cfg front mini e0 e' lf sk He Hsd)).
Qed.
End locked.
End tree.
