(* ===== verification/TreeSplit.v ===== *)
(** The splits on the way down (src/tree.rs): an inner node below a parent, the root, and the root leaf.
    None of them changes what the tree represents. *)
From stdpp Require Import base numbers list sorting option gmap.
From Stdlib Require Import ZArith Lia.
From S2P Require Import Prelude Bits NodeMeta PageLayout InnerNode InnerRepr InnerSearch InnerInsert InnerSplit InnerTheorems LeafMeta LeafNode LeafOps Entries LeafRepr LeafSplit MergeSplit Config CircularBuffer StateError Storage LeafEntry EntryInv EntryLeaf EntryInsert EntryMove EntryMerge TreeLeaves EntryRoot Tree TreeShape TreeInv.

(** One more node, or a node in the place of another. *)
Lemma size_grow (ns : gmap Z InnerNode) p n : (size (<[p:=n]> ns) <= S (size ns))%nat.
Proof. rewrite map_size_insert. destruct (ns !! p); cbn; lia. Qed.

Section split.
Context {B T W F : Type} {RB : RecordBound} `{HPB : PageBuffer B} `{HBL : !PageBufferLaws B} `{HPM : PageMap T} `{HML : !PageMapLaws T}
  `{HWL : WriteLog W} `{HLL : !WriteLogLaws W}.
Context (mem : memory) (hp : heap) (limit : nat) (cfg : @Config F) (front : list Z) (mini : Z).
Hypothesis Hsetup : Setup mem cfg front mini.
Hypothesis Hheap : heap_ok hp limit.
Abbreviation env := (@env B T).
Abbreviation tree := (BfTree B T W).
Abbreviation leaves_at := (leaves_at mem cfg front mini).
Abbreviation leaf_at := (leaf_at mem cfg front mini).
Abbreviation entry_at := (entry_at mem cfg front mini).
Abbreviation tree_at := (tree_at mem cfg front mini).
Abbreviation represents := (represents mem cfg front mini).
Implicit Types (t : tree) (e : env) (ls : list leaf) (lv : list level) (m : bytes → option bytes).

(** There is room for a number of steps. *)
Definition room (n : nat) t : Prop := budget cfg n (storage t) ∧ (2 * n + size (inner_nodes t) <= limit)%nat.

Lemma room_growable n t : room (S n) t → growable (storage t) ∧ (2 + size (inner_nodes t) <= limit)%nat.
Proof. intros [Hb Hs]. split; [by eapply (budget_growable mem cfg front mini Hsetup)|lia]. Qed.

Lemma room_spend n t t' : spends cfg t t' → room (S n) t → room n t'.
Proof. intros [H1 H2] [Hb Hs]. split; [by apply H1|lia]. Qed.

Lemma room_less n t : room (S n) t → room n t.
Proof.
  intros [Hb Hs]. split; [|lia]. eapply budget_less; [done| |exact Hb]. pose proof (page_step_pos mem cfg front mini Hsetup). lia.
Qed.

(** The buffer is not involved, and the room that was taken is that of one step. *)
Definition modest t t' : Prop := circular_buffer (storage t') = circular_buffer (storage t) ∧ spends cfg t t'.

Lemma modest_same t t' : circular_buffer (storage t') = circular_buffer (storage t) → inner_nodes t' = inner_nodes t →
  (∀ n, budget cfg n (storage t) → budget cfg n (storage t')) → modest t t'.
Proof.
  intros Hb Hn Hs. split; [done|]. split; [|rewrite Hn; lia]. intros n Hg. apply Hs. eapply budget_less; [done| |exact Hg].
  pose proof (page_step_pos mem cfg front mini Hsetup). lia.
Qed.

Lemma modest_contention t l : modest t (set_contention t l).
Proof. by apply modest_same. Qed.

Lemma wp_load_node X ptr n (Q : TreeError + InnerNode → tree → Prop) t :
  inner_nodes t !! ptr = Some n → Q (inr n) t → wp X (load_node ptr) Q t.
Proof. intros Hn HQ. unfold load_node. wp_step. by eapply wp_lift; [unfold node_at; rewrite Hn|]. Qed.

Lemma wp_lock X ptr n (Q : TreeError + InnerNode → tree → Prop) t :
  inner_nodes t !! ptr = Some n → (∀ l, Q (inl Locked) (set_contention t l)) → (∀ l, Q (inr n) (set_contention t l)) →
  wp X (_ ← attempt; load_node ptr) Q t.
Proof.
  intros Hn H1 H2. apply wp_bind, wp_attempt. intros l. split; [|apply H1]. by eapply wp_load_node; [|apply H2].
Qed.

Lemma wp_check_parent X exc t ls lv m key h parent L1 x L2 (Q : TreeError + unit → tree → Prop) :
  tree_at exc t ls lv m → cursor (inner_nodes t) lv key h parent L1 x L2 →
  (∀ l, Q (inl Locked) (set_contention t l)) → (∀ l, Q (inr tt) (set_contention t l)) → wp X (check_parent x.2 parent) Q t.
Proof.
  intros Ht Hc H1 H2. unfold check_parent. destruct parent as [p|]; [apply wp_attempt; intros l; split; [apply H2|apply H1]|].
  wp_step. destruct Hc as [Hat _ Hu]. destruct h; [|done]. rewrite (sh_root _ _ _ (ta_shape _ _ _ _ _ _ _ _ _ Ht)) in Hat.
  destruct L1 as [|? [|]]; try done. injection Hat as <- <-. cbn [snd]. rewrite bool_decide_eq_true_2 by done. apply wp_ret.
  specialize (H2 (contention t)). by destruct t.
Qed.

Lemma tree_contention exc t ls lv m l : tree_at exc t ls lv m → tree_at exc (set_contention t l) ls lv m.
Proof. intros []. by split. Qed.

(** Other nodes above the same leaves. *)
Lemma tree_nodes exc t t' ls lv lv' m :
  tree_at exc t ls lv m → (1 < length lv)%nat → (1 < length lv')%nat → lv' !! pred (length lv') = lv !! pred (length lv) →
  shape (inner_nodes t') (root_page t').1 lv' → (root_page t').2 = false → leaves_at exc (storage t') ls → wal t' = wal t →
  tree_at exc t' ls lv' m.
Proof.
  intros [_ _ _ (L & HL & Htile & Htwo) _ Hlog] H1 H2 Hlast Hs Hk Hl Hw. split; try done.
  - rewrite Hk. symmetry. apply bool_decide_eq_false. lia.
  - exists L. rewrite Hlast. by split_and!; [..|intros _; apply Htwo].
  - lia.
  - by rewrite Hw.
Qed.

(** A larger file. *)
Lemma leaves_grow exc s ls size : leaves_at exc s ls → 0 <= size → leaves_at exc (alloc_offset s size).2 ls.
Proof.
  intros [[HI1 HI2 HI3] (locs & Hl & Hall & Ho) Hnd] Hs. split; [split; cbn; [done|done|lia]| |done]. exists locs. split; [done|]. split; [|done].
  eapply Forall2_impl; [exact Hall|]. intros lf loc Hat. eapply (leaf_at_frame mem cfg front mini [] []); [|apply not_elem_of_nil|intros ? _; apply not_elem_of_nil|exact Hat].
  split; [done|done|cbn; lia].
Qed.

Lemma under_parent ns lv h p L1 x L2 : under ns lv (S h) (Some p) L1 x L2 → ∃ n r0 rs, ns !! p = Some n ∧ node_ok n r0 rs.
Proof.
  intros (M1 & y & M2 & _ & Hp & A & c1 & c2 & R & _ & _ & _ & (p' & n & r0 & rs & Hp' & _ & Hn & Hok & _) & _).
  rewrite Hp in Hp'. injection Hp' as ->. by exists n, r0, rs.
Qed.

Lemma wp_new_builder X (Q : TreeError + InnerNodeBuilder → tree → Prop) t :
  (let ptr := fresh_ptr hp (inner_nodes t) in
   let s := (alloc_offset (storage t) INNER_NODE_SIZE).2 in
   Q (inr (builder_set_disk_offset (builder_new ptr (fresh_node hp ptr)) (next_available_offset (storage t)))) (set_storage t s)) →
  wp X (new_builder hp) Q t.
Proof. done. Qed.

Definition version_fits : 0 <= INVALID_SNAPSHOT_VERSION < 2 ^ 63.
Proof. unfold INVALID_SNAPSHOT_VERSION. lia. Qed.

(** What a split leaves: the same map and the same buffer. *)
Definition split_post exc t m (r : TreeError + bool) t' : Prop := r ≠ inr false ∧ represents exc t' m ∧ modest t t'.

Lemma split_finish exc t t' ls lv lv' m :
  tree_at exc t ls lv m → (1 < length lv)%nat → (1 < length lv')%nat → lv' !! pred (length lv') = lv !! pred (length lv) →
  shape (inner_nodes t') (root_page t').1 lv' → (root_page t').2 = false → wal t' = wal t →
  (∃ d, 0 <= d <= 2 * INNER_NODE_SIZE ∧ storage t' = (alloc_offset (storage t) d).2) → (size (inner_nodes t') <= 2 + size (inner_nodes t))%nat →
  represents exc t' m ∧ modest t t'.
Proof.
  intros Ht H1 H2 Hlast Hs Hk Hw (d & Hd & Hst) Hsize. split; [|split; [by rewrite Hst|split; [|done]]].
  - exists ls, lv'. eapply tree_nodes; try done. rewrite Hst. apply leaves_grow; [apply Ht|lia].
  - intros n. rewrite Hst. apply budget_less; [done|]. cbn. pose proof (su_leaf _ _ _ _ Hsetup). pose proof (su_fence _ _ _ _ Hsetup).
    unfold page_step, LEAF_HEADER, KV_META_SIZE in *. lia.
Qed.

Lemma split_below_spec X exc t ls lv m key h cur p L1 low L2 nc :
  tree_at exc t ls lv m → room 1 t → cursor (inner_nodes t) lv key (S h) (Some p) L1 (low, from_pointer cur) L2 → (S (S h) < length lv)%nat →
  inner_nodes t !! cur = Some nc → (∃ r0 rs, node_ok nc r0 rs) → get_split_flag (InnerNode.meta nc) = true →
  wp X (split_below hp cur p) (split_post exc t m) t.
Proof.
  intros Ht [Hg Hroom]%room_growable Hc Hh Hcur (r0 & rs & Hok) Hflag. pose proof Ht as [Hls Hs Hk _ _ _]. pose proof Hc as [Hat _ Hu].
  destruct (under_parent _ _ _ _ _ _ _ Hu) as (n & p0 & ps & Hn & Hokp).
  assert ((root_page t).2 = false) as Hk' by (rewrite Hk; apply bool_decide_eq_false; lia).
  unfold split_below. apply wp_bind. eapply wp_lock; [exact Hcur| |]; intros l.
  { split; [done|]. split; [|apply modest_contention]. exists ls, lv. by apply tree_contention. }
  apply wp_bind. eapply wp_lock; [exact Hn| |]; intros l2.
  { split; [done|]. split; [|apply (modest_contention t l2)]. exists ls, lv. by repeat apply tree_contention. }
  destruct (he_fresh _ _ Hheap (inner_nodes t)) as [Hfree Hrange]; [lia|]. set (new := fresh_ptr hp (inner_nodes t)) in *.
  set (b := builder_set_disk_offset (builder_new new (fresh_node hp new)) (next_available_offset (storage t))).
  destruct (split_node nc r0 rs b INVALID_SNAPSHOT_VERSION Hok (no_flag _ _ _ Hok Hflag) eq_refl (he_memory _ _ Hheap new) version_fits)
    as (sk & nl & b' & nr & r0' & rs1 & q0 & qs & Hkey & Hsplit & Hbuild & Hptr & Hokl & Hokr & Hcl & Hcr & Hkb & Hkl & Hc0 & Hpairs).
  assert (halved nc nl nr sk) as Hhalf by (split; [done|done|]; by exists r0, rs, r0', rs1, q0, qs).
  apply wp_bind. eapply wp_lift; [exact Hkey|]. apply wp_bind, wp_new_builder. cbv zeta. fold new. fold b.
  pose proof Hu as (M1 & y & M2 & HM & Hp & Hlink). destruct (lookup_lt_is_Some_2 lv (S (S h)) Hh) as [N HN].
  destruct (halved_level _ _ _ _ _ _ _ nc nl nr sk new (sh_step _ _ _ Hs (S h) _ _ Hat HN)
    (Forall_lookup_1 _ _ _ _ (sh_sorted _ _ _ Hs) HN) Hcur Hhalf Hrange) as [[Hlow Hhigh] _].
  destruct (link_insert _ _ _ _ _ _ _ _ p n sk (from_pointer new) Hlink Hp Hn (Forall_lookup_1 _ _ _ _ (sh_sorted _ _ _ Hs) Hat) Hlow Hhigh
    Hkb Hkl (from_pointer_ok _ Hrange)) as [[Hins H2]|(n' & Hins & _)]; (apply wp_bind; eapply wp_lift; [exact Hins|]; cbn [fst snd negb]).
  - apply wp_bind, wp_modify, wp_throw. split; [done|]. eapply (split_finish exc t _ ls lv lv); try done; [lia..| | |].
    + cbn. by eapply shape_flag.
    + exists INNER_NODE_SIZE. done.
    + cbn. rewrite map_size_insert_Some by by exists n. lia.
  - apply wp_bind, wp_modify. apply wp_bind. eapply wp_lift; [exact Hsplit|]. apply wp_bind, wp_modify. apply wp_bind. unfold build_node.
    apply wp_bind. eapply wp_lift; [exact Hbuild|]. apply wp_bind, wp_modify, wp_ret. apply wp_ret. rewrite Hptr. split; [done|].
    eapply (split_finish exc t _ ls lv (<[S h:=L1 ++ (low, from_pointer cur) :: (sk, from_pointer new) :: L2]> lv));
      [exact Ht|lia|rewrite length_insert; lia|by rewrite length_insert, list_lookup_insert_ne by lia|by eapply shape_inner_split|done|done| |].
    + by exists INNER_NODE_SIZE.
    + cbn. etransitivity; [apply size_grow|]. rewrite map_size_insert_Some by by apply lookup_insert_is_Some'; right; exists nc.
      rewrite map_size_insert_Some by by exists n. lia.
Qed.

Lemma wp_install_root X b left sk right is_leaf (Q : TreeError + unit → tree → Prop) t :
  left_most_page_id b = Some left → b_children_is_leaf b = Some is_leaf → records b = [(sk, right)] → raw_ok (raw_node b) →
  pid_ok left → pid_ok right → bytes_ok sk → zlen sk <= MAX_KEY_LEN →
  (∀ nt, root_over nt is_leaf left sk right →
    Q (inr tt) (set_root_page_id (set_nodes t (<[raw_ptr b:=nt]> (inner_nodes t))) (pid_raw (from_pointer (raw_ptr b))))) →
  wp X (install_root b) Q t.
Proof.
  intros Hlm Hcl Hrec Hraw Hl Hr Hkb Hkl HQ. destruct (short_key sk Hkb Hkl) as [Hik Hreq].
  assert (required_len sk + 16 <= InnerNode.max_data_size) as Hsp.
  { unfold required_len, post_key_len, PAGE_ID_SIZE, KV_META_SIZE, KEY_LOOK_AHEAD_SIZE, MAX_KEY_LEN in *. pose proof (zlen_nonneg sk).
    change InnerNode.max_data_size with 4064. lia. }
  destruct (build_repr b left is_leaf INVALID_SNAPSHOT_VERSION Hlm Hcl Hraw Hl) as (n & r0 & rs & Hbuild & HR & Hc & Hp & _ & _ & _ & _ & Hleaf & Hrem & Hfl);
    [rewrite Hrec; apply Forall_singleton; split; [done|split; [cbn [fst]; lia|done]]|rewrite Hrec; unfold InnerRepr.sorted; cbn; by repeat constructor|rewrite Hrec; cbn; lia|exact version_fits|].
  rewrite Hrec in Hp. unfold install_root, build_node. apply wp_bind, wp_bind. eapply wp_lift; [exact Hbuild|]. apply wp_bind, wp_modify, wp_ret.
  apply wp_bind. eapply wp_load_node; [cbn; apply lookup_insert_eq|]. apply wp_bind, wp_modify, wp_modify. cbn. rewrite insert_insert_eq.
  apply HQ. exists r0, rs. split; [|by split_and!]. unfold set_root. apply node_ok_version. split; try done.
  - by rewrite Hrem, Hrec, Hp.
  - apply (Forall_map ir_pair (λ x, zlen x.1 <= MAX_KEY_LEN)). rewrite Hp. by apply Forall_singleton.
  - by rewrite Hfl.
Qed.

Lemma split_above_spec X exc t ls lv m cur nc :
  tree_at exc t ls lv m → room 1 t → (root_page t).1 = from_pointer cur → (1 < length lv)%nat →
  inner_nodes t !! cur = Some nc → (∃ r0 rs, node_ok nc r0 rs) → 0 <= cur < 2 ^ 62 → get_split_flag (InnerNode.meta nc) = true →
  wp X (split_above hp cur) (split_post exc t m) t.
Proof.
  intros Ht [Hg Hroom]%room_growable Hroot Hh Hcur (r0 & rs & Hok) Hcr Hflag. pose proof Ht as [Hls Hs Hk _ _ _]. rewrite Hroot in Hs.
  unfold split_above. apply wp_bind. eapply wp_lock; [exact Hcur| |]; intros l.
  { split; [done|]. split; [|apply modest_contention]. exists ls, lv. by apply tree_contention. }
  destruct (he_fresh _ _ Hheap (inner_nodes t)) as [Hfree Hrange]; [lia|]. apply wp_bind, wp_new_builder. cbv zeta. cbn [set_contention inner_nodes storage].
  set (new := fresh_ptr hp (inner_nodes t)) in *.
  set (b := builder_set_disk_offset _ _).
  destruct (split_node nc r0 rs b INVALID_SNAPSHOT_VERSION Hok (no_flag _ _ _ Hok Hflag) eq_refl (he_memory _ _ Hheap new) version_fits)
    as (sk & nl & b' & nr & r0' & rs1 & q0 & qs & Hkey & Hsplit & Hbuild & Hptr & Hokl & Hokr & Hcl & Hcr' & Hkb & Hkl & Hc0 & Hpairs).
  assert (halved nc (set_root nl false) nr sk) as Hhalf.
  { split; [done|done|]. exists r0, rs, r0', rs1, q0, qs. split_and!; try done. by apply node_ok_version. }
  apply wp_bind. eapply wp_lift; [exact Hsplit|]. apply wp_bind, wp_modify. apply wp_bind. unfold build_node.
  apply wp_bind. eapply wp_lift; [exact Hbuild|]. apply wp_bind, wp_modify, wp_ret. rewrite Hptr. apply wp_bind, wp_new_builder. cbv zeta.
  cbn [set_nodes set_storage set_contention inner_nodes storage]. set (ns2 := <[new:=nr]> (<[cur:=set_root nl false]> (inner_nodes t))).
  destruct (he_fresh _ _ Hheap ns2) as [Htop Htr].
  { unfold ns2. rewrite map_size_insert_None by (rewrite lookup_insert_ne; [done|congruence]). rewrite map_size_insert_Some by by exists nc. lia. }
  set (top := fresh_ptr hp ns2) in *. assert (top ≠ new ∧ inner_nodes t !! top = None) as [Hne Hfree2].
  { unfold ns2 in Htop. apply lookup_insert_None in Htop as [Htop Hne]. apply lookup_insert_None in Htop as [Htop Hne']. done. }
  apply wp_bind. eapply wp_install_root; try done; [apply Hheap|by apply from_pointer_ok|unfold get_page_id; rewrite Hptr; by apply from_pointer_ok|].
  intros nt Hnt. apply wp_ret. unfold get_page_id in Hnt. rewrite Hptr in Hnt. cbn [raw_ptr add_record set_children_is_leaf set_left_most_page_id builder_set_disk_offset builder_new].
  destruct (get_root_page_inner top Htr) as [Hgr _]. split; [done|].
  eapply (split_finish exc t _ ls lv ([([], from_pointer top)] :: [([], from_pointer cur); (sk, from_pointer new)] :: tail lv));
    [exact Ht|lia|cbn; lia| | | |done| |].
  - destruct lv as [|? [|? lv']]; cbn in Hh |- *; try lia. done.
  - unfold root_page. cbn -[get_root_page pid_raw from_pointer]. fold ns2. fold top. rewrite Hgr. by eapply shape_root_inner.
  - unfold root_page. cbn -[get_root_page pid_raw from_pointer]. fold ns2. fold top. by rewrite Hgr.
  - exists (INNER_NODE_SIZE + INNER_NODE_SIZE). split; [done|]. unfold alloc_offset, set_next_offset. cbn. by rewrite Z.add_assoc.
  - cbn. fold ns2. fold top. etransitivity; [apply size_grow|]. unfold ns2. apply le_n_S. etransitivity; [apply size_grow|].
    by rewrite map_size_insert_Some by by exists nc.
Qed.

(** The check of a node on the way: nothing changes, or the tree is another one with the same map. *)
Definition way_post exc t ls lv m (r : TreeError + bool) t' : Prop :=
  match r with
  | inr false => tree_at exc t' ls lv m ∧ same_tree t t' ∧ ∀ n, budget cfg n (storage t) → budget cfg n (storage t')
  | _ => represents exc t' m ∧ modest t t'
  end.

Lemma same_tree_modest t t' : same_tree t t' → (∀ n, budget cfg n (storage t) → budget cfg n (storage t')) → modest t t'.
Proof. intros [_ Hn Hst _]. apply modest_same; [by rewrite Hst|done]. Qed.

Lemma same_tree_contention t l : same_tree t (set_contention t l).
Proof. split; try done. cbn. by destruct (storage t). Qed.

Lemma try_split_inner_spec X exc t ls lv m key h parent L1 x L2 :
  tree_at exc t ls lv m → room 1 t → cursor (inner_nodes t) lv key h parent L1 x L2 → (S h < length lv)%nat →
  wp X (try_split_inner hp x.2 parent) (way_post exc t ls lv m) t.
Proof.
  intros Ht Hroom Hc Hh. pose proof Ht as [_ Hs _ _ _ _].
  destruct (cursor_step _ _ _ _ _ _ _ _ _ Hs Hc Hh) as (cur & nc & r0 & rs & _ & _ & _ & _ & _ & _ & _ & Hx & Hcr & Hcur & Hok & _).
  unfold try_split_inner. apply wp_bind. eapply wp_lift; [rewrite Hx; by apply get_root_page_inner|].
  assert (∀ l, way_post exc t ls lv m (inl Locked) (set_contention t l)) as Herr.
  { intros l. split; [|apply modest_contention]. exists ls, lv. by apply tree_contention. }
  apply wp_bind. eapply wp_lock; [exact Hcur|done|]. intros l.
  apply wp_bind. eapply (wp_check_parent X exc (set_contention t l) ls lv m key h parent L1 x L2); [by apply tree_contention|done|intros l2; apply Herr|].
  intros l2. destruct (get_split_flag (InnerNode.meta nc)) eqn:Hfl; cbn [negb].
  2:{ apply wp_ret. split; [by repeat apply tree_contention|]. split; [apply (same_tree_contention t l2)|done]. }
  destruct parent as [p|].
  - destruct h as [|h]; [by destruct Hc|]. destruct x as [low pid]. cbn in Hx. subst pid.
    eapply wp_mono; [eapply (split_below_spec X exc _ ls lv m key h cur p L1 low L2 nc)|by intros [|[]] ? (? & ? & ?)]; try done.
    + by repeat apply tree_contention.
    + by exists r0, rs.
  - destruct h as [|h]; [|by destruct Hc]. pose proof (cu_at _ _ _ _ _ _ _ _ Hc) as Hat. rewrite (sh_root _ _ _ Hs) in Hat.
    destruct L1 as [|? [|]]; try done. injection Hat as <- <-. cbn in Hx.
    eapply wp_mono; [eapply (split_above_spec X exc _ ls lv m cur nc)|by intros [|[]] ? (? & ? & ?)]; try done.
    + by repeat apply tree_contention.
    + by exists r0, rs.
Qed.

(** ** The root leaf *)
Section root_leaf.
Context (exc : list Z) (t : tree) (ls : list leaf) (lv : list level) (m : bytes → option bytes) (key : bytes).
Context (parent : option Z) (L1 : level) (x : bytes * PageID) (L2 : level) (i : nat) (lf : leaf) (loc : PageLocation).
Hypothesis Hal : at_leaf mem cfg front mini exc t ls lv m key parent L1 x L2 i lf loc None.
Hypothesis Hroom : room 1 t.

Lemma root_level : lv = [[([], from_id (Z.of_nat i))]] ∧ x = ([], from_id (Z.of_nat i)) ∧ L2 = [].
Proof.
  pose proof Hal as [[_ Hs _ _ _ _] [Hat _ _] [Hpid _] _ _ _ _ _ _ _ Hroot]. destruct (Hroot eq_refl) as (Hlen & _ & _).
  destruct lv as [|L [|]]; try done. pose proof (sh_root _ _ _ Hs) as H0. cbn in H0, Hat. rewrite H0 in Hat. injection H0 as ->.
  destruct L1 as [|? [|]]; try done. injection Hat as <- <-. cbn in Hpid. by rewrite Hpid.
Qed.

(** The tree of two leaves. *)
Lemma two_leaves s t' sk off top nt :
  leaves_at exc s (<[i:=left_leaf lf sk]> ls ++ [right_leaf lf sk off]) → Z.of_nat (length ls) < 2 ^ 62 → sk ≠ [] → wal t' = wal t →
  0 <= top < 2 ^ 62 → root_over nt true (from_id (Z.of_nat i)) sk (from_id (Z.of_nat (length ls))) →
  storage t' = s → root_page_id t' = pid_raw (from_pointer top) → inner_nodes t' = <[top:=nt]> (inner_nodes t) → represents exc t' m.
Proof.
  intros Hls Hlen Hsk Hw Htop Hnt Hst Hr Hn. pose proof Hal as [[_ _ _ _ _ Hlog] _ [Hpid Hi] Hlf [Hb1 Hb2] Hv _ _ _ _ _].
  destruct root_level as (_ & -> & ->). cbn in Hb1, Hb2. destruct (get_root_page_inner top Htop) as [Hgr _].
  assert (bytes_lt (lf_low lf) sk) as Hlt by (rewrite Hb1; by destruct sk).
  exists (<[i:=left_leaf lf sk]> ls ++ [right_leaf lf sk off]), [[([], from_pointer top)]; [([], from_id (Z.of_nat i)); (sk, from_id (Z.of_nat (length ls)))]].
  assert (root_page t' = (from_pointer top, false)) as Hrp by (unfold root_page; by rewrite Hr). pose proof (lookup_lt_Some _ _ _ Hlf).
  split; [by rewrite Hst| | | |done|by rewrite Hw].
  - rewrite Hrp. by eapply shape_root_leaf.
  - by rewrite Hrp.
  - eexists. split; [done|]. split; [|done]. split; [|split; [|done]].
    + exists i, (left_leaf lf sk). split_and!; try done; [rewrite lookup_app_l, list_lookup_insert_eq by (rewrite ?length_insert; lia); done|].
      rewrite <- Hb1. apply (left_view lf sk m); [done|done|by rewrite Hb2; left].
    + exists (length ls), (right_leaf lf sk off). split_and!; try done.
      * rewrite lookup_app_r by (rewrite length_insert; lia). by rewrite length_insert, Nat.sub_diag.
      * cbn [next_low]. rewrite <- Hb2. by apply (right_view lf sk off m).
Qed.

Lemma split_root_spec X e l :
  entry_at e lf → (∃ b, e = set_tmp (mkEnv (storage t) loc None None) (Some b)) → lf_low lf = [] → lf_high lf = [] →
  (∀ n p, entry_with mem cfg front mini e lf n p → leaf_get_split_flag n = true) →
  wp X (split_root mem hp cfg x.2) (λ r st, ∃ s, put_entry st.1 (Z.of_nat i) = Ret s ∧
    r = inr true ∧ let t' := back st.2 parent (parent_node st.1) s in represents exc t' m ∧ modest t t') (e, set_contention t l).
Proof.
  intros (n & p & He & Hp) [b ->] Hlow Hhigh Hflag. pose proof Hal as [_ _ [Hpid Hi] Hlf _ _ Hloc Hget _ _ Hroot].
  destruct (Hroot eq_refl) as (_ & Hpar & Hptr). cbn [location set_tmp store] in *.
  assert (loc = Base (lf_offset lf) ∧ ∀ k, lf_view lf k = visible (find_entry k (p_entries p))) as [Hbase Hv].
  { clear -Hp Hptr. destruct loc; try done. by destruct Hp as [-> Hv]. }
  pose proof He as [HI Ho (Hb & Hn & _)]. cbn in Hn.
  destruct (bi_flag _ _ _ _ _ Hb (Hflag n p He)) as (_ & _ & Hne). destruct (room_growable _ _ Hroom) as [Hgrow Hsize].
  destruct (root_split_entry mem cfg front mini Hsetup _ lf n p He Hlow Hhigh Hv Hbase Hgrow Hne)
    as (id & tb & sib & sk & left & right & Halloc & Hsplit & Hsk & Hkb & Hkl & Hid & Hidr & Hstep). cbn [store location set_tmp] in *.
  unfold split_root. apply wp_bind, wp_get. cbn [fst snd store set_tmp]. apply wp_bind. eapply wp_lift; [exact Halloc|].
  apply wp_bind, wp_on_entry, wp_modify. apply wp_bind. eapply wp_lift; [done|]. apply wp_bind, wp_on_entry.
  unfold load_base_page_mut. unfold wp at 1. cbn [tmp_buffer set_tmp set_store buffer_page]. rewrite <- Hn.
  apply wp_bind. eapply wp_lift; [exact Hsplit|]. apply wp_bind, wp_on_entry, wp_modify. apply wp_bind, wp_on_entry. eapply wp_on_store'; [done|].
  apply wp_bind, wp_get. cbn [fst snd store set_tmp set_store]. apply wp_bind, wp_on_entry, wp_modify.
  unfold new_builder_in_memory. apply wp_bind, wp_on_tree. unfold wp at 1. cbn [inner_nodes set_contention].
  destruct (he_fresh _ _ Hheap (inner_nodes t)) as [Hfree Hrange]; [lia|]. set (top := fresh_ptr hp (inner_nodes t)) in *.
  apply wp_bind, wp_on_tree. eapply wp_install_root; try done; [apply Hheap|rewrite Hpid; apply from_id_ok; lia|by apply from_id_ok|].
  intros nt Hnt. apply wp_ret. cbn [fst snd parent_node set_tmp set_store].
  destruct (leaves_put mem cfg front mini [] exc _ _ i lf loc _ _ _ (al_leaves _ _ _ _ _ _ _ _ _ _ _ _ _ _ _ _ _ _ Hal) Hlf
    (λ q, proj1 (Hget q)) Hloc (Hstep INNER_NODE_SIZE None ltac:(done))) as (s & Hput & Hls & Hcb & Hsp).
  exists s. split; [exact Hput|]. split; [done|]. cbv zeta. assert (id = Z.of_nat (length ls)) as ->.
  { destruct Hgrow as (Hr & Hoff & l' & Hl' & Hlen). rewrite <- (Hid l' Hl'). apply (table_length mem cfg front mini _ _ _ _ _ _ _ _ _ _ _ _ _ _ Hal). done. }
  rewrite Hpar. split; [|split; [cbn; by rewrite Hcb|split; [exact Hsp|cbn; etransitivity; [apply size_grow|lia]]]]. eapply (two_leaves s _ sk _ top nt); try done; [lia|]. by rewrite <- Hpid.
Qed.
End root_leaf.

(** A leaf below a parent has a bound. *)
Lemma child_bounded exc t ls lv m key parent L1 x L2 i lf loc n :
  at_leaf mem cfg front mini exc t ls lv m key parent L1 x L2 i lf loc (Some n) → lf_low lf = [] → lf_high lf = [] → False.
Proof.
  intros [[_ Hs _ (L & HL & _ & Htwo) _ _] [Hat _ _] _ _ [Hb1 Hb2] _ _ _ _ Hnode _] Hlow Hhigh.
  destruct (Hnode n eq_refl) as (_ & _ & _ & _ & _ & _ & Hlen). specialize (Htwo Hlen). rewrite HL in Hat. injection Hat as ->.
  pose proof (Forall_lookup_1 _ _ _ _ (sh_sorted _ _ _ Hs) HL) as Hsort. destruct x as [low pid]. cbn in Hb1. subst low.
  rewrite Hlow in Hsort. apply sorted_mid in Hsort as [H1 H2]. rewrite length_app in Htwo. cbn in Htwo.
  destruct L1 as [|[k v] L1]; [|apply Forall_cons in H1 as [H1 _]; by destruct k].
  destruct L2 as [|[k v] L2]; [cbn in Htwo; lia|]. apply Forall_cons in H2 as [H2 _]. cbn in Hb2, H2. rewrite Hhigh in Hb2. by subst k.
Qed.

Lemma try_split_leaf_spec X exc t ls lv m key parent L1 x L2 :
  tree_at exc t ls lv m → room 1 t → cursor (inner_nodes t) lv key (pred (length lv)) parent L1 x L2 →
  wp X (try_split_leaf mem hp cfg x.2 parent) (way_post exc t ls lv m) t.
Proof.
  intros Ht Hroom Hc. destruct (lock_leaf mem cfg front mini _ _ _ _ _ _ _ _ _ _ Ht Hc) as (i & lf & loc & par & Hal).
  pose proof Hal as [_ _ [Hpid Hi] _ _ _ _ Hget Hpar _ _]. destruct (Hget par) as [Hg He].
  unfold try_split_leaf. apply wp_bind. eapply wp_lift; [by rewrite Hpid, from_id_is_id|].
  eapply wp_locked; [rewrite Hpid; apply as_id_from_id; lia|exact Hpar|exact Hg|].
  apply wp_bind, wp_on_tree. eapply (wp_check_parent X exc t ls lv m); [done|exact Hc| |]; intros l.
  { destruct (put_unchanged mem cfg front mini _ _ _ _ _ _ _ _ _ _ _ _ _ _ Hal (mkEnv (storage t) loc None par) l eq_refl eq_refl eq_refl) as (s & Hput & Hsame & Ht' & Hgr).
    exists s. split; [done|]. split; [by exists ls, lv|]. by apply same_tree_modest. }
  apply wp_bind, wp_on_entry. eapply wp_mono; [by apply (split_flag_spec mem cfg front mini X)|]. cbn [location store parent_node]. intros r e' (b & -> & He' & Hdrop & [tb ->] & Hb).
  destruct b; cbn [negb].
  2:{ apply wp_ret. destruct (put_unchanged mem cfg front mini _ _ _ _ _ _ _ _ _ _ _ _ _ _ Hal _ l Hdrop eq_refl eq_refl) as (s & Hput & Hsame & Ht' & Hgr).
      by exists s. }
  destruct (Hb eq_refl) as (Hlow & Hhigh & Hfl). destruct par as [n|]; [by destruct (child_bounded _ _ _ _ _ _ _ _ _ _ _ _ _ _ Hal)|].
  destruct (al_root _ _ _ _ _ _ _ _ _ _ _ _ _ _ _ _ _ _ Hal eq_refl) as (_ & -> & Hptr). rewrite (su_disk_mode _ _ _ _ Hsetup).
  eapply wp_mono; [eapply (split_root_spec exc t ls lv m key None L1 x L2 i lf loc Hal Hroom)|]; try done.
  - destruct (Hfl Hptr) as [Htb _]. destruct tb as [b|]; [by exists b|done].
  - by apply Hfl.
  - intros r st (s & Hput & -> & Hrep & Hsb). exists s. by split.
Qed.
End split.
