(* ===== verification/TreeDescent.v ===== *)
(** The descent from the root to the leaf of a key ([traverse_to_leaf] of src/tree.rs). *)
From stdpp Require Import base numbers list sorting option gmap.
From Stdlib Require Import ZArith Lia.
From S2P Require Import Prelude Bits NodeMeta PageLayout InnerNode InnerRepr InnerSearch InnerInsert InnerSplit InnerTheorems LeafMeta LeafNode LeafOps Entries LeafRepr LeafSplit MergeSplit Config CircularBuffer StateError Storage LeafEntry EntryInv EntryLeaf EntryInsert EntryMove EntryMerge TreeLeaves EntryRoot Tree TreeShape TreeInv TreeSplit.

Section descent.
Context {B T W F : Type} {RB : RecordBound} `{HPB : PageBuffer B} `{HBL : !PageBufferLaws B} `{HPM : PageMap T} `{HML : !PageMapLaws T}
  `{HWL : WriteLog W} `{HLL : !WriteLogLaws W}.
Context (mem : memory) (hp : heap) (limit : nat) (cfg : @Config F) (front : list Z) (mini : Z).
Hypothesis Hsetup : Setup mem cfg front mini.
Hypothesis Hheap : heap_ok hp limit.
Abbreviation tree := (BfTree B T W).
Abbreviation tree_at := (tree_at mem cfg front mini).
Abbreviation represents := (represents mem cfg front mini).
Abbreviation room := (room limit cfg).
Abbreviation modest := (modest cfg).
Implicit Types (t : tree) (ls : list leaf) (lv : list level) (m : bytes → option bytes).

(** The same tree, with the same room. *)
Definition unmoved exc t ls lv m t' : Prop := tree_at exc t' ls lv m ∧ same_tree t t' ∧ ∀ n, budget cfg n (storage t) → budget cfg n (storage t').

Lemma unmoved_refl exc t ls lv m : tree_at exc t ls lv m → unmoved exc t ls lv m t.
Proof. intros Ht. split; [done|]. split; [|done]. split; try done. by destruct (storage t). Qed.

Lemma unmoved_contention exc t ls lv m l : tree_at exc t ls lv m → unmoved exc t ls lv m (set_contention t l).
Proof. intros Ht. split; [by apply tree_contention|]. split; [apply same_tree_contention|done]. Qed.

Lemma unmoved_trans exc t1 t2 t3 ls lv m : unmoved exc t1 ls lv m t2 → unmoved exc t2 ls lv m t3 → unmoved exc t1 ls lv m t3.
Proof.
  intros (_ & [R1 N1 S1 W1] & G1) (H2 & [R2 N2 S2 W2] & G2). split; [done|]. split; [|by auto]. split; try congruence.
  rewrite S2. rewrite S1 at 1. done.
Qed.

Lemma unmoved_room n exc t ls lv m t' : unmoved exc t ls lv m t' → room n t → room n t'.
Proof. intros (_ & [_ Hn _ _] & Hg) [H1 H2]. split; [by apply Hg|]. by rewrite Hn. Qed.

Lemma unmoved_cursor exc t ls lv m t' key h parent L1 x L2 :
  unmoved exc t ls lv m t' → cursor (inner_nodes t) lv key h parent L1 x L2 → cursor (inner_nodes t') lv key h parent L1 x L2.
Proof. intros (_ & [_ -> _ _] & _). done. Qed.

Definition failed exc t m t' : Prop := represents exc t' m ∧ modest t t'.

Lemma failed_after exc t t' t'' ls lv m : unmoved exc t ls lv m t' → failed exc t' m t'' → failed exc t m t''.
Proof.
  intros (_ & [_ Hn Hst _] & Hg) [H1 [Hb [Hg' Hsz]]]. split; [done|]. rewrite Hst, Hn in *. split; [done|]. split; [|done].
  intros n H. by apply Hg', Hg.
Qed.

Lemma unmoved_spends exc t t' t'' ls lv m : unmoved exc t ls lv m t' → spends cfg t' t'' → spends cfg t t''.
Proof. intros (_ & [_ Hn _ _] & Hg) [Hg' Hsz]. rewrite Hn in Hsz. split; [|done]. intros n H. by apply Hg', Hg. Qed.

Lemma unmoved_failed exc t t' ls lv m : unmoved exc t ls lv m t' → failed exc t m t'.
Proof. intros (Ht & Hs & Hg). split; [by exists ls, lv|by apply (same_tree_modest mem cfg front mini Hsetup)]. Qed.

Lemma split_on_way_spec X exc t ls lv m key h parent L1 x L2 :
  tree_at exc t ls lv m → room 1 t → cursor (inner_nodes t) lv key h parent L1 x L2 → (h < length lv)%nat →
  wp X (split_on_way mem hp cfg x.2 (bool_decide (S h = length lv)) parent)
    (λ r t', match r with inr _ => unmoved exc t ls lv m t' | inl _ => failed exc t m t' end) t.
Proof.
  intros Ht Hroom Hc Hh. unfold split_on_way. apply wp_bind.
  assert (∀ r t', way_post mem cfg front mini exc t ls lv m r t' → match r with
    | inr a => wp X (if a then throw NeedRestart else mret tt) (λ r t', match r with inr _ => unmoved exc t ls lv m t' | inl _ => failed exc t m t' end) t'
    | inl _ => failed exc t m t' end) as Hpost.
  { intros [err|[]] t' H; [done|apply wp_throw|apply wp_ret]; done. }
  case_bool_decide as Hl.
  - replace h with (pred (length lv)) in Hc by lia. destruct (lock_leaf mem cfg front mini _ _ _ _ _ _ _ _ _ _ Ht Hc) as (i & lf & loc & par & Hal).
    destruct (al_pid _ _ _ _ _ _ _ _ _ _ _ _ _ _ _ _ _ _ Hal) as [Hpid _]. rewrite is_pointer_not_id, Hpid, from_id_is_id. cbn [negb]. rewrite <- Hpid.
    eapply wp_mono; [by eapply (try_split_leaf_spec mem hp limit cfg front mini Hsetup Hheap X exc t ls lv m)|]. apply Hpost.
  - eapply wp_mono; [eapply (try_split_inner_spec mem hp limit cfg front mini Hsetup Hheap X exc t ls lv m); try done; lia|]. apply Hpost.
Qed.

(** Where a descent ends: at the leaf of the key, with the bound of the leaf when it was asked for. *)
Definition descent_post exc t ls lv m (key : bytes) (bound : bool) (r : TreeError + PageID * option Z * bytes) t' : Prop :=
  match r with
  | inr (pid, parent, high) => unmoved exc t ls lv m t' ∧
      ∃ L1 x L2, cursor (inner_nodes t') lv key (pred (length lv)) parent L1 x L2 ∧ pid = x.2 ∧ (bound = true → high = next_low L2 [])
  | inl _ => failed exc t m t'
  end.

Lemma descent_after exc t t' ls lv m key bound r t'' :
  unmoved exc t ls lv m t' → descent_post exc t' ls lv m key bound r t'' → descent_post exc t ls lv m key bound r t''.
Proof.
  intros Hu. destruct r as [err|[[pid parent] high]]; [by eapply failed_after|]. intros [Hu' H]. split; [by eapply unmoved_trans|done].
Qed.

Section traverse.
Context (X : Prop) (exc : list Z) (ls : list leaf) (lv : list level) (m : bytes → option bytes) (key : bytes) (aggressive bound : bool).

(** One step of the descent, when the node is not split. *)
Lemma traverse_step t h parent L1 x L2 high fuel :
  tree_at exc t ls lv m → cursor (inner_nodes t) lv key h parent L1 x L2 → (S h < length lv)%nat → (bound = true → high = next_low L2 []) →
  (∀ t' p M1 y M2 high', unmoved exc t ls lv m t' → cursor (inner_nodes t') lv key (S h) (Some p) M1 y M2 →
    (bound = true → high' = next_low M2 []) →
    wp X (traverse mem hp cfg key aggressive bound y.2 (bool_decide (S (S h) = length lv)) (Some p) high' fuel)
      (descent_post exc t' ls lv m key bound) t') →
  wp X (ptr ← lift (as_inner_node x.2);
        next_node ← lock_read ptr;
        _ ← check_parent x.2 parent;
        pos ← lift (InnerNode.lower_bound next_node key);
        kv_meta ← lift (InnerNode.get_kv_meta next_node (as_u16 pos));
        child ← lift (InnerNode.get_value next_node kv_meta);
        high ← (if bound then lift (next_separator next_node pos high) else mret high);
        traverse mem hp cfg key aggressive bound child (children_is_leaf (InnerNode.meta next_node)) (Some ptr) high fuel)
    (descent_post exc t ls lv m key bound) t.
Proof.
  intros Ht Hc Hh Hhigh Hrec. pose proof (ta_shape _ _ _ _ _ _ _ _ _ Ht) as Hs.
  destruct (cursor_step _ _ _ _ _ _ _ _ _ Hs Hc Hh) as (ptr & n & r0 & rs & pos & d & c1 & y & c2 & A & R & Hx & Hr & Hn & Hok & Hleaf & Hpos & Hd & Hy & Hc' & Hsep).
  apply wp_bind. eapply wp_lift; [rewrite Hx; by apply get_root_page_inner|].
  assert (∀ l, descent_post exc t ls lv m key bound (inl Locked) (set_contention t l)) as Herr.
  { intros l. by apply (unmoved_failed exc t (set_contention t l) ls lv m), unmoved_contention. }
  apply wp_bind. eapply wp_lock; [exact Hn|done|]. intros l.
  apply wp_bind. eapply (wp_check_parent mem cfg front mini X exc (set_contention t l) ls lv m key h parent L1 x L2); [by apply tree_contention|done|intros l2; apply Herr|].
  intros l2. apply wp_bind. eapply wp_lift; [exact Hpos|]. apply wp_bind. eapply wp_lift; [exact Hd|]. apply wp_bind. eapply wp_lift; [exact Hy|].
  assert (unmoved exc t ls lv m (set_contention (set_contention t l) l2)) as Hu by by apply (unmoved_contention exc t ls lv m l2).
  rewrite Hleaf. apply wp_bind. destruct bound eqn:Hb.
  - eapply wp_lift; [unfold next_separator; rewrite (Hhigh eq_refl); exact Hsep|].
    eapply wp_mono; [by eapply Hrec|]. intros r t'. by apply descent_after.
  - apply wp_ret. eapply wp_mono; [by eapply Hrec|]. intros r t'. by apply descent_after.
Qed.

Lemma traverse_spec fuel : ∀ t h parent L1 x L2 high,
  tree_at exc t ls lv m → (aggressive = true → room 1 t) → cursor (inner_nodes t) lv key h parent L1 x L2 → (h < length lv)%nat →
  (length lv - h <= fuel)%nat → (bound = true → high = next_low L2 []) →
  wp X (traverse mem hp cfg key aggressive bound x.2 (bool_decide (S h = length lv)) parent high fuel) (descent_post exc t ls lv m key bound) t.
Proof.
  induction fuel as [|fuel IH]; intros t h parent L1 x L2 high Ht Hroom Hc Hh Hfuel Hhigh; [lia|]. cbn [traverse]. apply wp_bind.
  assert (∀ t', unmoved exc t ls lv m t' → wp X (if bool_decide (S h = length lv) then mret (x.2, parent, high) else
    ptr ← lift (as_inner_node x.2); next_node ← lock_read ptr; _ ← check_parent x.2 parent; pos ← lift (InnerNode.lower_bound next_node key);
    kv_meta ← lift (InnerNode.get_kv_meta next_node (as_u16 pos)); child ← lift (InnerNode.get_value next_node kv_meta);
    high ← (if bound then lift (next_separator next_node pos high) else mret high);
    traverse mem hp cfg key aggressive bound child (children_is_leaf (InnerNode.meta next_node)) (Some ptr) high fuel)
    (descent_post exc t ls lv m key bound) t') as Hgo.
  { intros t' Hu. pose proof (unmoved_cursor _ _ _ _ _ _ _ _ _ _ _ _ Hu Hc) as Hc'. case_bool_decide as Hl.
    - apply wp_ret. split; [done|]. exists L1, x, L2. replace (pred (length lv)) with h by lia. done.
    - eapply wp_mono; [eapply (traverse_step t' h parent L1 x L2); try done; [apply Hu|lia|]|intros r t''; by apply descent_after].
      intros t2 p M1 y M2 high' Hu2 Hc2 Hhigh2. apply (IH t2 (S h) (Some p) M1 y M2 high'); try done; [apply Hu2| |lia|lia].
      intros Ha. eapply unmoved_room; [exact Hu2|]. eapply unmoved_room; [exact Hu|by apply Hroom]. }
  destruct aggressive.
  - eapply wp_mono; [eapply (split_on_way_spec X exc t ls lv m); try done; by apply Hroom|]. intros [err|[]] t' H; [done|by apply Hgo].
  - apply wp_ret. by apply Hgo, unmoved_refl.
Qed.
End traverse.

(** The descent ends at the leaf that answers for the key, or the operation starts over. *)
Lemma traverse_to_leaf_spec X exc t ls lv m key aggressive bound :
  tree_at exc t ls lv m → (aggressive = true → room 1 t) →
  wp X (traverse_to_leaf mem hp cfg key aggressive bound) (descent_post exc t ls lv m key bound) t.
Proof.
  intros Ht Hroom. pose proof Ht as [_ Hs Hk _ _ _]. unfold traverse_to_leaf. apply wp_bind, wp_get.
  destruct (root_page t) as [root leaf] eqn:Hr. cbn in Hs, Hk. subst leaf. pose proof (depth_bound _ _ _ Hs) as Hd.
  pose proof (lookup_lt_Some _ _ _ (sh_root _ _ _ Hs)) as Hlen.
  replace (bool_decide (length lv = 1%nat)) with (bool_decide (1%nat = length lv)) by (apply bool_decide_ext; lia).
  apply (traverse_spec X exc ls lv m key aggressive bound _ t 0 None [] ([], root) []); try done; [by eapply cursor_root|lia].
Qed.
End descent.
