(* ===== verification/TreeWrite.v ===== *)
(** Writing to the tree ([write_inner] of src/tree.rs): one attempt changes the value of the key, or leaves
    the map as it was and is repeated. *)
From stdpp Require Import base numbers list sorting option gmap.
From Stdlib Require Import ZArith Lia.
From S2P Require Import Prelude Bits NodeMeta PageLayout InnerNode InnerRepr InnerSearch InnerInsert InnerSplit InnerTheorems LeafMeta LeafNode LeafOps Entries LeafRepr LeafSplit MergeSplit Config CircularBuffer StateError Storage LeafEntry EntryInv EntryLeaf EntryInsert EntryMove EntryMerge TreeLeaves EntryRoot Tree TreeShape TreeInv TreeSplit TreeDescent.

Section write.
Context {B T W F : Type} {RB : RecordBound} `{HPB : PageBuffer B} `{HBL : !PageBufferLaws B} `{HPM : PageMap T} `{HML : !PageMapLaws T}
  `{HWL : WriteLog W} `{HLL : !WriteLogLaws W}.
Context (mem : memory) (hp : heap) (limit : nat) (cfg : @Config F) (front : list Z) (mini : Z).
Abbreviation classes := (front ++ [mini; leaf_page_size cfg]).
Hypothesis Hsetup : Setup mem cfg front mini.
Hypothesis Hheap : heap_ok hp limit.
Abbreviation env := (@env B T).
Abbreviation tree := (BfTree B T W).
Abbreviation entry_at := (entry_at mem cfg front mini).
Abbreviation tree_at := (tree_at mem cfg front mini).
Abbreviation represents := (represents mem cfg front mini).
Abbreviation room := (room limit cfg).
Implicit Types (t : tree) (e : env) (ls : list leaf) (lv : list level) (m : bytes → option bytes).

(** The entry of a leaf when its lock is taken, or after a read. *)
Definition consulted (s : LeafStorage B T) (loc : PageLocation) (par : option InnerNode) e : Prop :=
  e = mkEnv s loc None par ∨ ∃ key out bin r, entry_read mem key out bin false (mkEnv s loc None par) = Ret (r, e).

(** Every mini page can be merged into its base page; the page table does not matter. *)
Definition merges (s : LeafStorage B T) : Prop :=
  ∀ lf loc par tb e, leaf_at mem cfg front mini s lf loc → consulted (set_table s tb) loc par e → mergeable mem cfg front mini e lf.

(** What a step of the tree relies on. *)
Definition ready t : Prop := room 1 t ∧ merges (storage t).

Lemma ready_growable t : ready t → growable (storage t).
Proof. intros [Hr _]. by eapply (room_growable mem limit cfg front mini Hsetup 0). Qed.

Lemma merges_at s lf loc par e : merges s → leaf_at mem cfg front mini s lf loc → consulted s loc par e → mergeable mem cfg front mini e lf.
Proof. intros Hm Hat Hc. apply (Hm lf loc par (page_table s) e Hat). by destruct s. Qed.

Lemma unmoved_ready exc t ls lv m t' : unmoved mem cfg front mini exc t ls lv m t' → ready t → ready t'.
Proof.
  intros Hu [Hr Hm]. split; [by eapply unmoved_room|]. destruct Hu as (_ & [_ _ Hst _] & _). rewrite Hst.
  intros lf loc par tb e Hat Hc. by apply (Hm lf loc par tb e).
Qed.

Section locked.
Context (exc : list Z) (t : tree) (ls : list leaf) (lv : list level) (m : bytes → option bytes) (key : bytes).
Context (parent : option Z) (L1 : level) (x : bytes * PageID) (L2 : level) (i : nat) (lf : leaf) (loc : PageLocation) (par : option InnerNode).
Hypothesis Hal : at_leaf mem cfg front mini exc t ls lv m key parent L1 x L2 i lf loc par.
Hypothesis Hready : ready t.
Abbreviation e0 := (mkEnv (storage t) loc None par).

Lemma key_in_leaf : in_bounds (lf_low lf) (lf_high lf) key.
Proof. destruct Hal as [_ [_ Hk _] _ _ [-> ->] _ _ _ _ _ _]. done. Qed.

Lemma root_unbounded : par = None → lf_low lf = [] ∧ lf_high lf = [].
Proof.
  intros Hpar. pose proof Hal as Hal'. rewrite Hpar in Hal'. destruct (root_level mem cfg front mini _ _ _ _ _ _ _ _ _ _ _ _ _ Hal') as (_ & Hx & ->).
  destruct (al_bounds _ _ _ _ _ _ _ _ _ _ _ _ _ _ _ _ _ _ Hal) as [-> ->]. by rewrite Hx.
Qed.

Lemma parent_wf n : par = Some n → inner_wf n.
Proof. intros Hn. destruct (al_node _ _ _ _ _ _ _ _ _ _ _ _ _ _ _ _ _ _ Hal n Hn) as (_ & r0 & rs & _ & _ & Hok & _). exists r0, rs. apply Hok. Qed.

Section record.
Context (value : bytes) (op : OpType).
Hypothesis Hok : entry_ok (mkEntry key op value).
Hypothesis Hlim : limits cfg key value.
Abbreviation new_value := (visible (Some (mkEntry key op value))).

(** Inserting in the leaf, when its lock has just been taken or after a read. *)
Lemma insert_at_leaf X e race :
  consulted (storage t) loc par e → entry_at e lf → location e = loc → parent_node e = par → growable (store e) →
  copy_ok key value op e lf → (is_dirty op = true ∨ par ≠ None ∧ ∀ ptr, loc ≠ FullPage ptr) → (∀ ptr, loc = FullPage ptr → tmp_buffer e = None) →
  wp X (entry_insert mem cfg classes key value op race) (λ r e',
    inserted_or_not mem cfg front mini key value op e lf r e' ∧ (par = None → pointers (location e') = [])) e.
Proof.
  intros Hcons He Hl Hp Hgrow Hcopy Hop Htmp. pose proof (al_root _ _ _ _ _ _ _ _ _ _ _ _ _ _ _ _ _ _ Hal) as Hroot.
  eapply wp_mono; [eapply (entry_insert_spec mem cfg front mini Hsetup key value op Hok Hlim X e lf race); try done|].
  - apply key_in_leaf.
  - eapply merges_at; [apply Hready|apply Hal|exact Hcons].
  - rewrite Hp. intros _ Hnone. split; [by destruct Hop as [?|[? _]]|by apply root_unbounded].
  - intros ptr. rewrite Hl. intros Hf. split; [by eapply Htmp|]. destruct Hop as [?|[_ Hn]]; [done|by destruct (Hn ptr)].
  - intros ptr. rewrite Hl, Hp. intros Hm Hnone. destruct (Hroot Hnone) as (_ & _ & Hptr). by rewrite Hm in Hptr.
  - intros n. rewrite Hp. apply parent_wf.
  - intros r e' [Hi Hsame]. split; [done|]. intros Hnone. destruct (Hroot Hnone) as (_ & _ & Hptr). rewrite Hsame; [by rewrite Hl|by rewrite Hl|by rewrite Hp].
Qed.

(** The leaf with the new value, from its insertion to the end of the operation. *)
Definition settled (lf' : leaf) e : Prop := entry_at e lf' ∧ keeps mem e0 e ∧ (par = None → pointers (location e) = []).

Lemma settled_step lf' e e' :
  settled lf' e → entry_at e' lf' → keeps mem e e' → (pointers (location e) = [] → pointers (location e') = []) → settled lf' e'.
Proof.
  intros (_ & [Ha Hp] & Hr) He [Ha' Hp'] Hl. split; [done|]. split; [split; [by eapply apart_trans|congruence]|]. auto.
Qed.

Lemma keep_cached_spec X lf' e : settled lf' e → movable (store e) (location e) → wp X (keep_cached mem cfg) (λ r e', r = inr tt ∧ settled lf' e') e.
Proof.
  intros Hs Hmov. pose proof Hs as (He & _). unfold keep_cached, cache_page_about_to_evict. apply wp_bind. wp_step.
  assert (pointers (location e) ≠ [] → wp X (ignore (move_cache_page_to_tail mem cfg)) (λ r e', r = inr tt ∧ settled lf' e') e) as Hmove.
  { intros Hptr. apply wp_ignore. eapply wp_mono; [by apply (move_tail_spec mem cfg front mini Hsetup X e lf')|].
    intros r e' [He' Hk]. split; [done|]. by eapply settled_step. }
  destruct He as (bn & p & _ & Hp). destruct (location e) as [ptr|ptr|o|] eqn:Hl; [| | |done]; wp_step; [destruct (mini_page_copy_on_access _ _)..|];
    by (apply Hmove || wp_step).
Qed.

Lemma log_write_spec X lf' e t' :
  settled lf' e → around cfg t t' → wp X (log_write mem key value op) (λ r s, r = inr tt ∧ settled lf' s.1 ∧ around cfg t s.2) (e, t').
Proof.
  intros Hs Ha. pose proof Ha as (Hr & Hn & Hlog). pose proof Hs as (He & _). unfold log_write. wp_step. cbn [snd].
  destruct (wal t') as [w|] eqn:Hw; [|by wp_step]. apply wp_bind, wp_on_entry. unfold get_disk_offset. wp_step.
  destruct He as (bn & p & Hew & Hp). pose proof (en_offset _ _ _ _ _ _ _ _ Hew) as Ho.
  eapply wp_lift; [by eapply base_offset_spec|]. destruct (Hlog w Hw) as [Hinv Hserve].
  assert (0 <= lf_offset lf' < 2 ^ 64) as Hoff.
  { destruct Hs as (_ & [[[_ _ Hsame] _] _] & _). cbn [store] in Hsame. destruct (ready_growable t Hready) as (_ & Hmax & _).
    destruct Ho as [Ho _]. unfold USIZE_MAX in Hmax. lia. }
  destruct (append_law w key value op (lf_offset lf') Hinv (Hserve _ _ Hlim) Hoff) as (l & w' & Happ & Hinv' & Hserve').
  apply wp_bind. eapply wp_lift; [exact Happ|]. apply wp_bind, wp_on_tree, wp_modify. apply wp_on_entry.
  eapply wp_mono; [apply (update_lsn_spec mem cfg front mini X e lf'); by exists bn, p|]. intros r e' (-> & He' & Hk & Hl). split; [done|].
  split; [apply (settled_step lf' e e'); [done..|by rewrite Hl]|]. split; [done|]. split; [done|]. intros w0 [= <-]. split; [done|]. intros k v Hkv. by apply Hserve', Hserve.
Qed.

(** The map after the write, and the tree with it. *)
Definition written (r : TreeError + unit) : bytes → option bytes :=
  match r with inr _ => view_insert m key new_value | inl _ => m end.

Definition put_back (r : TreeError + unit) (st : env * tree) : Prop :=
  ∃ s, put_entry st.1 (Z.of_nat i) = Ret s ∧ let t' := back st.2 parent (parent_node st.1) s in represents exc t' (written r) ∧ spends cfg t t'.

Lemma write_leaf_spec X t' :
  is_dirty op = true → around cfg t t' → wp X (write_leaf mem cfg classes key value op) put_back (e0, t').
Proof.
  intros Hdirty (Hr0 & Hn0 & Hlog). pose proof (al_get _ _ _ _ _ _ _ _ _ _ _ _ _ _ _ _ _ _ Hal par) as [_ He0].
  assert (loc ≠ Null) as Hnull by (intros ->; by destruct He0 as (? & ? & _ & ?)).
  unfold write_leaf. wp_step. cbn [fst location].
  assert (wp X (race ← draw_race; _ ← on_entry (entry_insert mem cfg classes key value op race); _ ← on_entry (keep_cached mem cfg); log_write mem key value op)
    put_back (e0, t')) as H; [|by destruct loc]. apply wp_bind, wp_draw_race. intros race l.
  assert (around cfg t (set_contention t' l)) as Ha by done.
  apply wp_bind, wp_on_entry. eapply wp_mono; [eapply (insert_at_leaf X e0 race); try done; [by left|by apply ready_growable|by unfold copy_ok; rewrite Hdirty|by left]|].
  intros r e1 [Hi Hl1]. destruct r as [err|[]].
  - destruct (put_failed mem cfg front mini Hsetup _ _ _ _ _ _ _ _ _ _ _ _ _ _ Hal e1 (set_contention t' l)) as (s & Hput & _ & Ht); try done; [by apply ready_growable|].
    by exists s.
  - destruct Hi as (He1 & Hk & Hmov). specialize (Hmov Hdirty).
    assert (settled (leaf_update lf key new_value) e1) as Hs by done.
    apply wp_bind, wp_on_entry. eapply wp_mono; [by apply (keep_cached_spec X _ e1 Hs)|]. intros r e2 [-> Hs2].
    eapply wp_mono; [by apply (log_write_spec X _ e2 _ Hs2)|]. intros r [e3 t3] (-> & (He3 & [Hap Hp] & Hl3) & Ha3). cbn [fst snd] in *.
    destruct (put_same mem cfg front mini _ _ _ _ _ _ _ _ _ _ _ _ _ _ Hal [] e3 (leaf_update lf key new_value) (view_insert m key new_value) t3)
      as (s & Hput & _ & Ht & Hsp); try done; [by apply (leaf_step_apart mem cfg front mini Hsetup e0)|..].
    + intros k Hkb. cbn. unfold view_insert. case_bool_decide; [done|by apply (al_view _ _ _ _ _ _ _ _ _ _ _ _ _ _ _ _ _ _ Hal)].
    + intros k Hkb. unfold view_insert. case_bool_decide as Heq; [|done]. subst k. by destruct (Hkb key_in_leaf).
    + by left.
    + intros Hnone. by split; [apply Hl3|].
    + exists s. split; [done|]. split; [by eexists _, _|done].
Qed.
End record.
End locked.

Lemma log_around exc t ls lv m l : tree_at exc t ls lv m → around cfg t (set_contention t l).
Proof. intros [_ _ _ _ _ Hlog]. by split_and!. Qed.

(** An attempt to write changes the value of the key, or it fails and the map is as it was. *)
Lemma write_inner_spec X exc t m key value op aggressive :
  represents exc t m → ready t → entry_ok (mkEntry key op value) → limits cfg key value → is_dirty op = true →
  wp X (write_inner mem hp cfg classes key value op aggressive) (λ r t', represents exc t' (written m key value op r) ∧ spends cfg t t') t.
Proof.
  intros (ls & lv & Ht) Hready Hok Hlim Hd. unfold write_inner. apply wp_bind.
  eapply wp_mono; [eapply (traverse_to_leaf_spec mem hp limit cfg front mini Hsetup Hheap X exc t ls lv m); [done|intros _; apply Hready]|].
  intros [err|[[pid parent] high]] t1; [by intros [H [_ Hs]]|]. intros (Hu & L1 & x & L2 & Hc & -> & _).
  pose proof (unmoved_ready _ _ _ _ _ _ Hu Hready) as Hready1. pose proof Hu as [Ht1 _].
  destruct (lock_leaf mem cfg front mini _ _ _ _ _ _ _ _ _ _ Ht1 Hc) as (i & lf & loc & par & Hal).
  pose proof Hal as [_ _ [Hpid Hi] _ _ _ _ Hget Hpar _ _]. destruct (Hget par) as [Hg He].
  eapply wp_locked; [rewrite Hpid; apply as_id_from_id; lia|exact Hpar|exact Hg|].
  apply wp_bind, wp_on_tree. eapply (wp_check_parent mem cfg front mini X exc t1 ls lv m); [done|exact Hc| |]; intros l.
  - destruct (put_unchanged mem cfg front mini _ _ _ _ _ _ _ _ _ _ _ _ _ _ Hal (mkEnv (storage t1) loc None par) l eq_refl eq_refl eq_refl) as (s & Hput & Hsame & Ht' & Hbud).
    exists s. split; [done|]. split; [by exists ls, lv|]. eapply unmoved_spends; [exact Hu|]. by apply (same_tree_modest mem cfg front mini Hsetup).
  - eapply wp_mono; [eapply (write_leaf_spec _ _ _ _ _ _ _ _ _ _ _ _ _ _ Hal); try done; by eapply log_around|].
    intros r st (s & Hput & Hrep & Hsp). exists s. split; [done|]. split; [done|]. by eapply unmoved_spends.
Qed.
End write.
