(* ===== verification/TreeRead.v ===== *)
(** Reading from the tree ([read_inner] of src/tree.rs): the answer is the value of the map, and the map is
    as it was, also when the read moves a page or caches a record. *)
From stdpp Require Import base numbers list sorting option gmap.
From Stdlib Require Import ZArith Lia.
From S2P Require Import Prelude Bits NodeMeta PageLayout InnerNode InnerRepr InnerSearch InnerInsert InnerSplit InnerTheorems LeafMeta LeafNode LeafOps Entries LeafRepr LeafSplit MergeSplit Config CircularBuffer StateError Storage LeafEntry EntryInv EntryLeaf EntryInsert EntryMove EntryMerge TreeLeaves EntryRoot Tree TreeShape TreeInv TreeSplit TreeDescent TreeWrite.

Section read.
Context {B T W F : Type} {RB : RecordBound} `{HPB : PageBuffer B} `{HBL : !PageBufferLaws B} `{HPM : PageMap T} `{HML : !PageMapLaws T}
  `{HWL : WriteLog W} `{HLL : !WriteLogLaws W}.
Context (mem : memory) (hp : heap) (limit : nat) (cfg : @Config F) (front : list Z) (mini : Z).
Abbreviation classes := (front ++ [mini; leaf_page_size cfg]).
Hypothesis Hsetup : Setup mem cfg front mini.
Hypothesis Hheap : heap_ok hp limit.
Abbreviation env := (@env B T).
Abbreviation tree := (BfTree B T W).
Abbreviation entry_at := (entry_at mem cfg front mini).
Abbreviation tree_at := (tree_at mem cfg front mini).
Abbreviation represents := (represents mem cfg front mini).
Abbreviation ready := (ready mem limit cfg front mini).
Implicit Types (t : tree) (e : env) (ls : list leaf) (lv : list level) (m : bytes → option bytes).

(** ** The records of a leaf *)
Lemma visible_limits (n : LeafNode) (p : page) k v :
  Repr n p → within cfg (p_entries p) → visible (find_entry k (p_entries p)) = Some v →
  entry_ok (mkEntry k OpCache v) ∧ limits cfg k v.
Proof.
  intros HR Hw Hv. destruct (find_entry k (p_entries p)) as [x|] eqn:Hf; [|done]. apply find_entry_elem in Hf as [Hin <-].
  unfold within in Hw. rewrite Forall_forall in Hw. pose proof (re_recs _ _ HR) as Hr. apply list_elem_of_fmap in Hin as (r & -> & Hr').
  rewrite Forall_forall in Hr. destruct (Hr r Hr') as [_ (H1 & H2 & H3 & H4 & H5)]. cbn in Hv.
  assert (e_val (k_ent r) = v ∧ is_absent (e_op (k_ent r)) = false) as [<- Hop] by (destruct (is_absent _); [done|by injection Hv]).
  split; [|apply Hw; apply list_elem_of_fmap; by exists r]. split_and!; try done. cbn. by destruct (e_op (k_ent r)).
Qed.

Lemma view_limits e lf k v : entry_at e lf → lf_view lf k = Some v → entry_ok (mkEntry k OpCache v) ∧ limits cfg k v.
Proof.
  intros (n & p & [_ _ ([(HR & _) Hw _ _ _] & _)] & Hp) Hv. destruct (location e) as [ptr|ptr|o|]; cbn in Hp; [| | |done].
  - destruct Hp as (n' & q & _ & Hm & _ & Hov). rewrite Hov in Hv. unfold overlay in Hv.
    destruct (find_entry k (p_entries q)) as [x|] eqn:Hf; [|by eapply visible_limits].
    destruct (is_dirty (e_op x)); [|by eapply visible_limits]. eapply (visible_limits n' q); [apply Hm|apply Hm|by rewrite Hf].
  - destruct Hp as (n' & q & _ & Hm & _ & Hov). rewrite Hov in Hv. eapply (visible_limits n' q); [apply Hm|apply Hm|done].
  - destruct Hp as [_ Hov]. rewrite Hov in Hv. by eapply visible_limits.
Qed.

(** ** A leaf under its lock *)

(** A split after an operation that kept the leaf. *)
Lemma same_or_split_after (e e1 e2 : env) lf :
  keeps mem e e1 → location e1 = location e → next_available_offset (store e1) = next_available_offset (store e) →
  same_or_split mem cfg front mini e1 lf e2 → same_or_split mem cfg front mini e lf e2.
Proof.
  intros [Ha Hp] Hl Ho Hs. pose proof Ha as [[Hu Ht _] Hh]. destruct Hs as [(He & Ha' & Hk)|(sk & [H1 H2 H3 H4 H5 H6 H7 H9 H8] & He)].
  - left. split; [done|]. split; [by eapply apart_trans|]. unfold parent_kept in *. by rewrite <- Hp.
  - right. exists sk. split; [|done]. rewrite Hl, Ho, Ht, Hp in *. split; try done; [by eapply untouched_trans|by eapply handed_trans|].
    intros n Hn. apply H9. eapply budget_keep; [done|lia|done].
Qed.

Section locked.
Context (exc : list Z) (t : tree) (ls : list leaf) (lv : list level) (m : bytes → option bytes) (key : bytes).
Context (parent : option Z) (L1 : level) (x : bytes * PageID) (L2 : level) (i : nat) (lf : leaf) (loc : PageLocation) (par : option InnerNode).
Hypothesis Hal : at_leaf mem cfg front mini exc t ls lv m key parent L1 x L2 i lf loc par.
Abbreviation e0 := (mkEnv (storage t) loc None par).

(** A reader leaves the pages as they are, but for the marks of its hits. *)
Lemma share_tree e1 t' :
  entry_at e1 lf → apart mem e0 e1 → location e1 = loc → drop_entry e1 = Ret (store e1) → around cfg t t' →
  tree_at exc (set_storage t' (store e1)) ls lv m ∧ spends cfg t (set_storage t' (store e1)).
Proof.
  intros He Ha Hl Hdrop (Hr & Hn & Hlog). pose proof Hal as [[Hls Hs Hk Htile Hone _] _ _ Hlf _ _ _ Hget _ _ Hroot].
  pose proof (leaf_step_apart mem cfg front mini Hsetup e0 e1 lf lf He eq_refl Ha) as Hstep.
  split; [|split; [apply (ls_budget _ _ _ _ _ _ _ _ _ _ _ Hstep)|cbn; rewrite Hn; lia]].
  split; unfold root_page in *; cbn; rewrite ?Hr, ?Hn; try done.
  - by eapply (leaves_shared mem cfg front mini exc (storage t) ls i lf loc e1 Hls Hlf (λ p, proj1 (Hget p))).
  - intros Hlen p Hp. destruct (step_owned mem cfg front mini _ _ _ _ _ _ _ p Hstep Hp) as [Hin|[Hin|[_ Hin]]]; [by apply elem_of_nil in Hin| |by apply (Hone Hlen p)].
    rewrite Hl in Hin. destruct par as [n|] eqn:Hpar.
    + destruct (al_node _ _ _ _ _ _ _ _ _ _ _ _ _ _ _ _ _ _ Hal n eq_refl) as (? & ? & ? & _ & _ & _ & ?). lia.
    + destruct (Hroot eq_refl) as (_ & _ & Hptr). rewrite Hptr in Hin. by apply elem_of_nil in Hin.
Qed.

(** The same map, with the leaf as it was or split. *)
Definition kept (st : env * tree) : Prop :=
  ∃ s, put_entry st.1 (Z.of_nat i) = Ret s ∧ let t' := back st.2 parent (parent_node st.1) s in represents exc t' m ∧ spends cfg t t'.

Lemma kept_same e1 t' lf' :
  entry_at e1 lf' → keeps mem e0 e1 → (par = None → pointers (location e1) = []) → lf_offset lf' = lf_offset lf → lf_low lf' = lf_low lf → lf_high lf' = lf_high lf →
  (∀ k, lf_view lf' k = lf_view lf k) → around cfg t t' → kept (e1, t').
Proof.
  intros He [Ha Hp] Hroot Ho Hlow Hhigh Hv Hta.
  destruct (put_same mem cfg front mini _ _ _ _ _ _ _ _ _ _ _ _ _ _ Hal [] e1 lf' m t') as (s & Hput & _ & Ht & Hsp); try done.
  - by apply (leaf_step_apart mem cfg front mini Hsetup e0).
  - intros k Hk. rewrite Hv. by apply (al_view _ _ _ _ _ _ _ _ _ _ _ _ _ _ _ _ _ _ Hal).
  - by left.
  - intros Hnone. by split; [apply Hroot|].
  - exists s. split; [done|]. split; [by eexists _, _|done].
Qed.

(** What a read has found, before it goes on under the exclusive lock. *)
Record has_read (out0 : bytes) (out : LeafRead * bytes) e1 : Prop := {
  hr_post : read_post mem cfg front mini e0 lf key out0 (inr out) e1;
  hr_run : consulted mem (storage t) loc par e1;
}.

Lemma has_read_spec X out0 bin :
  buffer_fits (m key) out0 → wp X (entry_read mem key out0 bin false) (λ r e1, ∃ out, r = inr out ∧ has_read out0 out e1) e0.
Proof.
  intros Hbuf. pose proof Hal as [_ _ _ _ _ Hv _ Hget _ _ _]. pose proof (key_in_leaf mem cfg front mini _ _ _ _ _ _ _ _ _ _ _ _ _ _ Hal) as Hk.
  rewrite <- (Hv key Hk) in Hbuf. eapply wp_mono; [apply wp_run with (R := λ r e1, entry_read mem key out0 bin false e0 = Ret (r, e1)); [|done]|].
  - by apply (entry_read_spec mem cfg front mini X e0 lf key out0 bin); [apply Hget|..].
  - intros r e1 [Hp Hrun]. pose proof Hp as (res & buf & -> & _). exists (res, buf). split; [done|]. split; [done|]. right. by eexists _, _, _, _.
Qed.

(** A record that was found on the base page goes to the mini page as a clean copy. *)
Lemma cache_record_spec X out0 v out e1 race t' :
  has_read out0 (ReadBase (Found v), out) e1 → par ≠ None → ready t → around cfg t t' →
  wp X (entry_insert mem cfg classes key (take (Z.to_nat v) out) OpCache race) (λ _ e2, kept (e2, t')) e1.
Proof.
  intros [(res & buf & [= <- <-] & Hans & He & Hk & Hl & Ho & _ & Hnf & Hmiss) Hrun] Hpar Hready Ha. cbn [result_of location] in Hans, Hl.
  destruct (lf_view lf key) as [val|] eqn:Hval; cbn in Hans; [|by destruct Hans as [[?|?] _]]. destruct Hans as [[= ->] ->].
  replace (take (Z.to_nat (zlen val)) (val ++ drop (length val) out0)) with val.
  2:{ unfold zlen. rewrite Nat2Z.id. by rewrite take_app_length. }
  destruct (view_limits e1 lf key val He Hval) as [Hok Hlim]. pose proof Hk as [[[Hu Htab _] Hh] Hp].
  assert (growable (store e1)) as Hgrow by (pose proof (ready_growable mem limit cfg front mini Hsetup _ Hready) as Hg; unfold growable in *; cbn [store] in *; by rewrite Ho, Htab).
  eapply wp_mono; [eapply (insert_at_leaf mem limit cfg front mini Hsetup _ _ _ _ _ _ _ _ _ _ _ _ _ _ Hal Hready val OpCache Hok Hlim X e1 race); try done|].
  - right. split; [done|]. intros ptr. rewrite <- Hl. apply Hnf.
  - intros ptr. rewrite <- Hl. intros Hf. by destruct (Hnf ptr).
  - intros r e2 [Hi Hr]. destruct r as [err|[]].
    + destruct (put_failed mem cfg front mini Hsetup _ _ _ _ _ _ _ _ _ _ _ _ _ _ Hal e2 t') as (s & Hput & _ & Ht); try done; [|by apply (ready_growable mem limit cfg front mini Hsetup)|by exists s].
      by eapply same_or_split_after.
    + destruct Hi as (He2 & [Hk1 Hk2] & _). eapply (kept_same e2 t' (leaf_update lf key (Some val))); try done.
      * split; [destruct Hk; by eapply apart_trans|by rewrite Hk2].
      * intros k. cbn. unfold view_insert. case_bool_decide; [by subst|done].
Qed.

(** What a read that goes on to cache a record relies on. *)
Definition may_cache : Prop := par ≠ None ∧ ready t ∧ read_record_cache cfg = true.

Lemma read_exclusive_spec X out0 out e1 t' :
  has_read out0 out e1 → (match out.1 with ReadBase _ => may_cache | _ => True end) → around cfg t t' →
  wp X (read_exclusive mem cfg classes key out) (λ _ st, kept st) (e1, t').
Proof.
  intros Hrd Hpar Ha. pose proof (hr_post _ _ _ Hrd) as (res & buf & [= ->] & _ & He & Hk & Hl & _ & _ & Hkind).
  pose proof (al_root _ _ _ _ _ _ _ _ _ _ _ _ _ _ _ _ _ _ Hal) as Hroot. cbn [location] in Hl.
  assert (∀ e2, entry_at e2 lf → keeps mem e1 e2 → pointers (location e1) ≠ [] → kept (e2, t')) as Hmoved.
  { intros e2 He2 [Hk1 Hk2] Hptr. eapply (kept_same e2 t' lf); try done; [split; [destruct Hk; by eapply apart_trans|destruct Hk; congruence]|].
    intros Hnone. rewrite Hl in Hptr. by destruct (Hroot Hnone) as (_ & _ & ?). }
  assert (kept (e1, t')) as Hsame.
  { eapply (kept_same e1 t' lf); try done. intros Hnone. rewrite Hl. by destruct (Hroot Hnone) as (_ & _ & ?). }
  assert (movable (store e1) (location e1) ∧ pointers (location e1) ≠ [] →
    wp X (on_entry (ignore (move_cache_page_to_tail mem cfg))) (λ _ st, kept st) (e1, t')) as Hmove.
  { intros [Hmov Hptr]. apply wp_on_entry, wp_ignore. eapply wp_mono; [by apply (move_tail_spec mem cfg front mini Hsetup X e1 lf)|].
    intros _ e2 [He2 Hk2]. by apply Hmoved. }
  unfold read_exclusive. cbn [fst snd] in *. destruct res as [r|r|r|]; cbn [read_kind] in Hkind; [by apply Hmove|by apply Hmove| |done].
  destruct Hpar as (Hpar & Hready & Hcached).
  destruct r as [| |v|]; try by apply wp_ret. apply wp_bind, wp_draw_race. intros race l. unfold unless_locked. rewrite Hcached.
  apply wp_bind, wp_result, wp_on_entry. eapply wp_mono; [by apply (cache_record_spec X out0 v buf e1 race (set_contention t' l))|].
  intros r e2 Hk2. destruct r as [[]|[]]; by wp_step.
Qed.

(** The part under the shared lock; a record of a base page is promoted when the draw says so. *)
Definition shared_post (out0 : bytes) (dice : Z) (r : TreeError + LeafRead * bytes * bool) (st : env * tree) : Prop :=
  around cfg t st.2 ∧
  match r with
  | inl _ => st.1 = e0
  | inr (out, upgraded) => has_read out0 out st.1 ∧ (upgraded = true → match out.1 with ReadBase _ => par ≠ None ∧ dice < read_promotion_rate cfg | _ => True end)
  end.

Lemma read_shared_spec X out0 dice :
  buffer_fits (m key) out0 → wp X (read_shared mem cfg key out0 x.2 parent dice) (shared_post out0 dice) (e0, t).
Proof.
  intros Hbuf. pose proof Hal as [Ht Hc _ _ _ _ _ _ _ _ Hroot]. unfold read_shared. rewrite (su_disk_mode _ _ _ _ Hsetup).
  apply wp_bind, wp_on_tree. eapply (wp_check_parent mem cfg front mini X exc t ls lv m); [done|exact Hc| |]; intros l.
  { split; [|done]. by eapply log_around. }
  apply wp_bind, wp_on_entry. eapply wp_mono; [by apply (has_read_spec X out0)|]. intros r e1 (out & -> & Hrd).
  assert (∀ l', around cfg t (set_contention t l')) as Ha by (intros l'; by eapply log_around).
  assert (∀ wanted : bool, (wanted = true → match out.1 with ReadBase _ => par ≠ None ∧ dice < read_promotion_rate cfg | _ => True end) →
    wp X (upgraded ← (if wanted then on_tree ask else mret false); mret (out, upgraded)) (shared_post out0 dice) (e1, set_contention t l)) as Hask.
  { intros wanted Hw. apply wp_bind. destruct wanted; [apply wp_on_tree, wp_ask; intros b l'|wp_step]; wp_step.
    - split; [apply (Ha l')|]. split; [done|]. by intros _; apply Hw.
    - split; [apply (Ha l)|]. by split. }
  pose proof (hr_post _ _ _ Hrd) as (res & buf & [= ->] & _ & (bn & p & _ & Hp) & _). cbn [fst] in *. apply wp_bind. destruct res as [r|r|r|].
  - apply wp_on_entry. unfold cache_page_about_to_evict. wp_step. destruct (location e1) as [a|a|a|];
      [by apply wp_ret, (Hask (mini_page_copy_on_access (store e1) a))..|by apply wp_ret, (Hask false)|done].
  - apply wp_on_entry. unfold cache_page_about_to_evict. wp_step. destruct (location e1) as [a|a|a|];
      [by apply wp_ret, (Hask (mini_page_copy_on_access (store e1) a))..|by apply wp_ret, (Hask false)|done].
  - assert (negb (bool_decide (parent = None)) && (dice <? read_promotion_rate cfg) = true → par ≠ None ∧ dice < read_promotion_rate cfg) as Hpar.
    { intros [Hn%negb_true_iff Hd%Z.ltb_lt]%andb_true_iff. split; [|done]. intros Hnone. destruct (Hroot Hnone) as (_ & -> & _). by rewrite bool_decide_eq_true_2 in Hn. }
    destruct r; [by apply wp_ret, (Hask false)..|apply wp_ret, (Hask (_ && _)), Hpar|by apply wp_ret, (Hask false)].
  - by apply wp_ret, (Hask false).
Qed.

Lemma read_leaf_spec X out0 dice :
  buffer_fits (m key) out0 → (dice < read_promotion_rate cfg → ready t ∧ read_record_cache cfg = true) →
  wp X (read_leaf mem cfg classes key out0 x.2 parent dice) (λ r t', represents exc t' m ∧ spends cfg t t' ∧
    match r with inr (res, buf) => answers (m key) out0 res buf | inl _ => True end) t.
Proof.
  intros Hbuf Hcache. pose proof Hal as [Ht _ [Hpid Hi] _ _ Hv _ Hget Hpar _ _]. destruct (Hget par) as [Hg He].
  pose proof (Hv key (key_in_leaf mem cfg front mini _ _ _ _ _ _ _ _ _ _ _ _ _ _ Hal)) as Hvk.
  pose proof (read_shared_spec X out0 dice Hbuf) as Hsh. unfold wp, read_leaf in *. rewrite Hpid in *. rewrite as_id_from_id by lia. ret_step. rewrite Hpar. ret_step.
  rewrite Hg. ret_step. destruct (read_shared _ _ _ _ _ _ _ _) as [[r [e1 t1]]|]; [|done]. ret_step. destruct Hsh as [Ha Hsh]. cbn [fst snd] in *.
  destruct r as [err|[out upgraded]].
  - subst e1. destruct (share_tree e0 t1) as [Ht' Hsp]; try done; [split; [apply frame_refl|apply handed_refl]|]. split; [by exists ls, lv|done].
  - destruct Hsh as [Hrd Hup]. pose proof (hr_post _ _ _ Hrd) as (res & buf & [= ->] & Hans & He1 & [Hk _] & Hl & _ & Hdrop & _).
    rewrite Hvk in Hans. cbn [fst snd] in *. destruct upgraded.
    + assert (match res with ReadBase _ => may_cache | _ => True end) as Hmay.
      { specialize (Hup eq_refl). clear -Hup Hcache. destruct res; try done. destruct Hup as [? Hd]. split; [done|]. by apply Hcache. }
      pose proof (read_exclusive_spec X out0 (res, buf) e1 t1 Hrd Hmay Ha) as Hx. unfold wp in Hx.
      destruct (read_exclusive _ _ _ _ _ _) as [[r [e2 t2]]|]; [|done]. ret_step. destruct Hx as (s & Hput & Hrep & Hsp). cbn [fst snd] in *. rewrite Hput. ret_step.
      split; [done|]. split; [done|]. by destruct r.
    + destruct (share_tree e1 t1) as [Ht' Hsp]; try done; [by apply Hdrop|]. split; [by exists ls, lv|done].
Qed.
End locked.

(** An attempt to read answers with the value of the map, and never changes the map.  Only a descent that splits and a
    promotion rely on more than the tree itself. *)
Lemma read_inner_spec X exc t m key out0 aggressive dice :
  represents exc t m → (aggressive = true → room limit cfg 1 t) → (dice < read_promotion_rate cfg → ready t ∧ read_record_cache cfg = true) →
  buffer_fits (m key) out0 →
  wp X (read_inner mem hp cfg classes key out0 aggressive dice) (λ r t', represents exc t' m ∧ spends cfg t t' ∧
    match r with inr (res, buf) => answers (m key) out0 res buf | inl _ => True end) t.
Proof.
  intros (ls & lv & Ht) Hroom Hcache Hbuf. unfold read_inner. apply wp_bind.
  eapply wp_mono; [eapply (traverse_to_leaf_spec mem hp limit cfg front mini Hsetup Hheap X exc t ls lv m); done|].
  intros [err|[[pid parent] high]] t1; [by intros [H [_ Hs]]|]. intros (Hu & L1 & x & L2 & Hc & -> & _).
  pose proof Hu as [Ht1 _].
  destruct (lock_leaf mem cfg front mini _ _ _ _ _ _ _ _ _ _ Ht1 Hc) as (i & lf & loc & par & Hal).
  eapply wp_mono; [eapply read_leaf_spec; [exact Hal|done|]|].
  { intros [Hready Hc']%Hcache. split; [by eapply unmoved_ready|done]. }
  intros r t2 (H1 & H2 & H3). split; [done|]. split; [by eapply unmoved_spends|done].
Qed.
End read.
