(* ===== verification/TreeEvict.v ===== *)
(** Eviction ([eviction_callback] and [evict_from_circular_buffer] of src/tree.rs): the records of a cached page go to
    its base page, and the page leaves the buffer; the map is as it was. *)
From stdpp Require Import base numbers list sorting option gmap.
From Stdlib Require Import ZArith Lia.
From S2P Require Import Prelude Bits NodeMeta PageLayout InnerNode InnerRepr InnerSearch InnerInsert InnerSplit InnerTheorems LeafMeta LeafNode LeafOps Entries LeafRepr LeafSplit MergeSplit Config CircularBuffer StateError Storage LeafEntry EntryInv EntryLeaf EntryInsert EntryMove EntryMerge TreeLeaves EntryRoot Tree TreeShape TreeInv TreeSplit TreeDescent TreeWrite TreeRead.

Section evict.
Context {B T W F : Type} {RB : RecordBound} `{HPB : PageBuffer B} `{HBL : !PageBufferLaws B} `{HPM : PageMap T} `{HML : !PageMapLaws T}
  `{HWL : WriteLog W} `{HLL : !WriteLogLaws W}.
Context (mem : memory) (hp : heap) (limit : nat) (cfg : @Config F) (front : list Z) (mini : Z).
Abbreviation classes := (front ++ [mini; leaf_page_size cfg]).
Hypothesis Hsetup : Setup mem cfg front mini.
Hypothesis Hheap : heap_ok hp limit.
Abbreviation env := (@env B T).
Abbreviation tree := (BfTree B T W).
Abbreviation entry_at := (entry_at mem cfg front mini).
Abbreviation tree_at := (tree_at mem cfg front mini).
Abbreviation represents := (represents mem cfg front mini).
Abbreviation ready := (ready mem limit cfg front mini).
Implicit Types (t : tree) (e : env) (ls : list leaf) (lv : list level) (m : bytes → option bytes).
Implicit Types (s : LeafStorage B T).

(** ** A page that is no longer part of its leaf *)
Lemma leaf_step_left ptr s loc lf e' lf' new :
  entry_at e' lf' → lf_offset lf' = lf_offset lf → untouched mem [ptr] [] s (store e') → circular_buffer (store e') = circular_buffer s →
  pointers loc = [ptr] → pointers (location e') = [] → buf_owner (circular_buffer s) ptr = Some Live →
  (∀ l, map_list (page_table s) l → map_list (page_table (store e')) (l ++ map (λ x, Base (lf_offset x)) new)) →
  Forall (λ x, leaf_at mem cfg front mini (store e') x (Base (lf_offset x)) ∧ next_available_offset s <= lf_offset x) new →
  NoDup (map lf_offset new) → (∀ n, budget cfg (S n) s → budget cfg n (store e')) → leaf_step mem cfg front mini [ptr] s loc lf e' lf' new.
Proof.
  intros He Ho Hu Hb Hp Hp' Hlive Ht Hn Hnd Hbud. split; try done; rewrite ?Hp, ?Hp'; try done.
  - apply handed_same. intros q. by rewrite Hb.
  - intros p ->%list_elem_of_singleton. rewrite Hb. split; [done|apply not_elem_of_nil].
Qed.

Section locked.
Context (t : tree) (ls : list leaf) (lv : list level) (m : bytes → option bytes) (key : bytes).
Context (parent : option Z) (L1 : level) (x : bytes * PageID) (L2 : level) (i : nat) (lf : leaf) (loc : PageLocation) (par : option InnerNode).
Hypothesis Hal : at_leaf mem cfg front mini [] t ls lv m key parent L1 x L2 i lf loc par.
Hypothesis Hready : ready t.
Abbreviation e0 := (mkEnv (storage t) loc None par).

(** What the callback leaves: on success the page belongs to no leaf. *)
Definition evicted (ptr : Z) {A} (r : TreeError + A) (st : env * tree) : Prop :=
  ∃ s, put_entry st.1 (Z.of_nat i) = Ret s ∧ circular_buffer s = circular_buffer (storage t) ∧
    let t' := back st.2 parent (parent_node st.1) s in represents (match r with inr _ => [ptr] | inl _ => [] end) t' m ∧ spends cfg t t'.

Lemma evicted_not ptr {A} (err : TreeError) e1 t' :
  entry_at e1 lf → apart mem e0 e1 → parent_kept e0 e1 → location e1 = loc → circular_buffer (store e1) = circular_buffer (storage t) →
  around cfg t t' → evicted ptr (A:=A) (inl err) (e1, t').
Proof.
  intros He Ha Hk Hl Hb Hta.
  destruct (put_failed mem cfg front mini Hsetup _ _ _ _ _ _ _ _ _ _ _ _ _ _ Hal e1 t') as (s & Hput & Hcb & Ht); try done;
    [by left| |by apply (ready_growable mem limit cfg front mini Hsetup)|].
  - rewrite Hl. intros Hnone. by destruct (al_root _ _ _ _ _ _ _ _ _ _ _ _ _ _ _ _ _ _ Hal Hnone) as (_ & _ & ?).
  - exists s. by rewrite Hcb.
Qed.

Lemma evicted_same ptr e1 t' :
  leaf_step mem cfg front mini [ptr] (storage t) loc lf e1 lf [] → par ≠ None → parent_node e1 = par →
  circular_buffer (store e1) = circular_buffer (storage t) → around cfg t t' → evicted ptr (inr tt) (e1, t').
Proof.
  intros Hstep Hpar Hp Hb Hta. destruct (put_same mem cfg front mini _ _ _ _ _ _ _ _ _ _ _ _ _ _ Hal [ptr] e1 lf m t') as (s & Hput & Hcb & Ht & Hsp); try done.
  - apply (al_view _ _ _ _ _ _ _ _ _ _ _ _ _ _ _ _ _ _ Hal).
  - by left.
  - exists s. split; [done|]. split; [by rewrite Hcb|]. split; [by eexists _, _|done].
Qed.

Lemma base_location e1 lf1 o : merged_into mem cfg front mini e1 lf1 → lf_offset lf1 = o → entry_at (set_location e1 (Base o)) lf1.
Proof. intros (n & p & He & Hv) Ho. exists n, p. split; [by apply entry_with_location|]. by split. Qed.

(** The mini page [ptr] of the leaf is merged into the base page. *)
Lemma evict_mini_spec X ptr race t' :
  loc = Mini ptr → around cfg t t' →
  wp X (_ ← try_merge_mini_page mem cfg ptr race; change_to_base_loc) (λ r e1, evicted ptr r (e1, t')) e0.
Proof.
  intros Hl Ha. pose proof Hal as [_ _ _ _ _ _ Hloc Hget _ Hnode Hroot]. destruct (Hget par) as [_ (bn & p & He & Hp)]. cbn [location store] in Hp.
  rewrite Hl in Hp. destruct Hp as (n & q & Hown & Hm & Hne & Hv). destruct (en_offset _ _ _ _ _ _ _ _ He) as [_ Hnull].
  assert (par ≠ None) as Hpar by (intros Hnone; destruct (Hroot Hnone) as (_ & _ & Hptr); by rewrite Hl in Hptr).
  destruct (not_eq_None_Some par) as [H1 _]. destruct (H1 Hpar) as [nd Hnd].
  assert (pointers loc = [ptr]) as Hptr by by rewrite Hl.
  apply wp_bind. eapply wp_mono; [eapply (try_merge_spec mem cfg front mini Hsetup X _ lf ptr Live n q bn p race nd); try done|].
  - eapply (merges_at mem cfg front mini); [apply Hready|exact Hloc|by left|done|exact He|done].
  - by apply (ready_growable mem limit cfg front mini Hsetup).
  - by eapply (parent_wf mem cfg front mini _ _ _ _ _ _ _ _ _ _ _ _ _ _ Hal).
  - intros r e1 (Hl1 & Hc1 & Hb1 & Hr). cbn [location store] in *. destruct r as [err|res].
    + destruct Hr as (_ & Hs1 & Hk & n1 & p1 & He1 & Hm1 & Hv1). cbn [store] in Hs1. apply evicted_not; try done; [|..].
      * exists n1, p1. split; [done|]. rewrite Hl1, Hl, Hs1. by exists n, q.
      * split; rewrite Hs1, ?Hl1; [apply frame_refl|apply handed_refl].
    + assert (owns (store e1) ptr Live n) as Hown1 by (unfold owns; by rewrite Hc1, Hb1).
      eapply change_to_base_wp; [by rewrite Hl1|exact Hown1|apply Hm|done|]. destruct res.
      * destruct Hr as (Hmi & Hs1 & Hp1). cbn [store] in Hs1. apply evicted_same; try done.
        apply leaf_step_left; [by apply base_location|done| |done|done|done|apply Hown| |by constructor|by constructor|]; cbn; rewrite Hs1; [done|..].
        -- intros l. by rewrite app_nil_r.
        -- intros k. apply budget_less; [done|]. pose proof (page_step_pos mem cfg front mini Hsetup). lia.
      * destruct Hr as (sk & Hsd & Hmi). cbn [store] in *.
        destruct (put_parts mem cfg front mini _ _ _ _ _ _ _ _ _ _ _ _ _ _ Hal [ptr] e1 (set_location e1 (Base (lf_offset lf))) sk t' Hsd) as (s & Hput & Hcb & Ht); try done.
        -- destruct Hsd as [_ _ _ Hright Hrest Htab _ Hbud _]. cbn [store location] in *. rewrite Hptr in Hrest.
           apply leaf_step_left; try done; [by apply base_location|apply Hown|apply Forall_singleton; split; [done|cbn; lia]|apply NoDup_singleton].
        -- by apply (ready_growable mem limit cfg front mini Hsetup).
        -- exists s. split; [done|]. by rewrite Hcb.
Qed.

Lemma evict_full_spec X ptr t' :
  loc = FullPage ptr → around cfg t t' → wp X (merge_full_page cfg ptr) (λ r e1, evicted ptr r (e1, t')) e0.
Proof.
  intros Hl Ha. pose proof Hal as [_ _ _ _ _ _ Hloc Hget _ Hnode Hroot]. destruct (Hget par) as [_ (bn & p & He & Hp)]. cbn [location store] in Hp.
  rewrite Hl in Hp. destruct Hp as (n & q & Hown & Hm & Hne & Hv).
  assert (par ≠ None) as Hpar by (intros Hnone; destruct (Hroot Hnone) as (_ & _ & Hptr); by rewrite Hl in Hptr).
  eapply wp_mono; [eapply (merge_full_page_spec mem cfg front mini X e0 lf ptr n q bn p Live); done|].
  intros r e1 (-> & s1 & b & -> & He1 & Hst & Hb & _). cbn [store] in *. apply evicted_same; try done.
  apply leaf_step_left; [done|done| |done|by rewrite Hl|done|apply Hown| |by constructor|by constructor|]; cbn.
  - by apply (step_at_frame mem cfg front mini ptr _ _ [] Hst).
  - intros l. by rewrite app_nil_r, (sa_table _ _ _ _ _ _ Hst).
  - intros k. destruct Hst as [_ _ Ho Ht _]. apply budget_less; [done|]. pose proof (page_step_pos mem cfg front mini Hsetup). lia.
Qed.

Lemma evict_leaf_spec X ptr : wp X (evict_leaf mem cfg ptr parent) (evicted ptr) (e0, t).
Proof.
  pose proof Hal as [Ht _ _ _ _ _ _ Hget _ Hnode Hroot]. destruct (Hget par) as [_ He].
  assert (∀ l, around cfg t (set_contention t l)) as Ha by (intros l; by eapply log_around).
  assert (∀ l, evicted ptr (A:=unit) (inl NeedRestart) (e0, set_contention t l) ∧ evicted ptr (A:=unit) (inl Locked) (e0, set_contention t l)) as Hnot.
  { intros l. split; apply evicted_not; try done; [split; [apply frame_refl|apply handed_refl]|by left|split; [apply frame_refl|apply handed_refl]|by left]. }
  assert (evicted ptr (A:=unit) (inl NeedRestart) (e0, t)) as Hnow by (destruct (Hnot (contention t)) as [H _]; by destruct t).
  assert (around cfg t t) as Hat by (specialize (Ha (contention t)); by destruct t).
  unfold evict_leaf. wp_step. cbn [fst location]. assert (∃ l, l = loc) as [l0 Hl] by by exists loc. rewrite <- Hl at 1. symmetry in Hl.
  destruct l0 as [p|p|o|]; [| |by wp_step..].
  - destruct (p =? ptr) eqn:Hp; cbn [negb]; [apply Z.eqb_eq in Hp; subst p|by wp_step].
    assert (∃ pp, parent = Some pp) as [pp Hpp].
    { destruct par as [nd|]; [destruct (Hnode nd eq_refl) as (pp & _ & _ & Hpp & _); by exists pp|]. destruct (Hroot eq_refl) as (_ & _ & Hptr). by rewrite Hl in Hptr. }
    apply wp_bind. apply (wp_lift _ _ pp); [by rewrite Hpp|]. rewrite (su_disk_mode _ _ _ _ Hsetup). apply wp_bind, wp_on_tree, wp_attempt. intros l. split; [|apply Hnot].
    apply wp_bind, wp_draw_race. intros race l'. pose proof (evict_mini_spec X ptr race (set_contention t l') Hl (Ha l')) as Hrun.
    unfold wp, on_entry, mbind, SE_bind in *. cbn [fst snd]. destruct (try_merge_mini_page _ _ _ _ _) as [[[err|a] e1]|]; [done| |done].
    cbn [fst snd]. by destruct (change_to_base_loc e1) as [[r e2]|].
  - destruct (p =? ptr) eqn:Hp; cbn [negb]; [apply Z.eqb_eq in Hp; subst p|by wp_step]. by apply wp_on_entry, evict_full_spec.
Qed.
End locked.

(** ** The callback *)
Lemma reach_key (n : LeafNode) (q : page) : Repr n q → p_entries q ≠ [] → ∃ key, get_key_to_reach_this_node n = Ret key.
Proof.
  intros HR Hne. destruct (p_recs q) as [|r rs] eqn:Hr; [unfold p_entries in Hne; by rewrite Hr in Hne|].
  assert (p_recs q !! 0%nat = Some r) as H0 by by rewrite Hr. exists (k_key r). unfold get_key_to_reach_this_node.
  rewrite (repr_first n q HR). pose proof (repr_get n q HR 0 r H0) as Hg. rewrite Nat.add_0_r in Hg. rewrite Hg. ret_step. by apply (repr_full_key n q HR 0).
Qed.

(** A page in use is the page of a leaf, and has a key to reach it. *)
Lemma live_page t ls lv m ptr :
  tree_at [] t ls lv m → buf_owner (circular_buffer (storage t)) ptr = Some Live →
  ∃ n key, load_cache_page (storage t) ptr = Ret n ∧ get_key_to_reach_this_node n = Ret key.
Proof.
  intros [[_ (locs & _ & Hall & [Ho _]) _] _ _ _ _ _] Hlive. destruct (Ho ptr Hlive) as [Hin|(j & loc & Hj & Hin)]; [by apply elem_of_nil in Hin|].
  destruct (Forall2_lookup_r _ _ _ _ _ Hall Hj) as (lf & _ & _ & p & _ & Hp).
  destruct loc as [a|a|a|]; cbn in Hin, Hp; try by apply elem_of_nil in Hin.
  - apply list_elem_of_singleton in Hin as ->. destruct Hp as (n & q & Hown & Hm & Hne & _).
    destruct (reach_key n q) as [key Hkey]; [apply Hm|done|]. exists n, key. split; [by eapply owns_load|done].
  - apply list_elem_of_singleton in Hin as ->. destruct Hp as (n & q & Hown & Hm & Hne & _).
    destruct (reach_key n q) as [key Hkey]; [apply Hm|done|]. exists n, key. split; [by eapply owns_load|done].
Qed.

Definition callback_post t m ptr {A} (r : TreeError + A) t' : Prop :=
  circular_buffer (storage t') = circular_buffer (storage t) ∧ represents (match r with inr _ => [ptr] | inl _ => [] end) t' m ∧ spends cfg t t'.

Lemma eviction_callback_spec X t m ptr :
  represents [] t m → ready t → buf_owner (circular_buffer (storage t)) ptr = Some Live →
  wp X (eviction_callback mem hp cfg ptr) (callback_post t m ptr) t.
Proof.
  intros (ls & lv & Ht) Hready Hlive. destruct (live_page t ls lv m ptr Ht Hlive) as (n & key & Hn & Hkey).
  unfold eviction_callback. wp_step. apply wp_bind. eapply wp_lift; [exact Hn|]. rewrite (su_disk_mode _ _ _ _ Hsetup).
  apply wp_bind. eapply wp_lift; [exact Hkey|]. apply wp_bind.
  eapply wp_mono; [eapply (traverse_to_leaf_spec mem hp limit cfg front mini Hsetup Hheap X [] t ls lv m); [done|intros _; apply Hready]|].
  intros [err|[[pid parent] high]] t1; [by intros [H1 [H2 H3]]|]. intros (Hu & L1 & x & L2 & Hc & -> & _).
  pose proof (unmoved_ready _ _ _ _ _ _ _ _ _ _ _ Hu Hready) as Hready1. pose proof Hu as (Ht1 & [_ _ Hst _] & _).
  destruct (lock_leaf mem cfg front mini _ _ _ _ _ _ _ _ _ _ Ht1 Hc) as (i & lf & loc & par & Hal).
  pose proof Hal as [_ _ [Hpid Hi] _ _ _ _ Hget Hpar _ _]. destruct (Hget par) as [Hg _].
  eapply wp_locked; [rewrite Hpid; apply as_id_from_id; lia|exact Hpar|exact Hg|].
  eapply wp_mono; [by eapply (evict_leaf_spec _ _ _ _ _ _ _ _ _ _ _ _ _ Hal)|].
  intros r [e1 t2] (s & Hput & Hcb & Hrep & Hsp). exists s. split; [done|]. split; [|split; [done|by eapply unmoved_spends]]. cbn [fst snd].
  transitivity (circular_buffer s); [by unfold back; destruct parent, (parent_node e1)|]. by rewrite Hcb, Hst.
Qed.

(** ** The buffer *)
Definition rebuffer t b : tree := set_storage t (set_buffer (storage t) b).

Lemma wp_on_buffer {A} X (f : B → outcome (A * B)) Q t a b :
  f (circular_buffer (storage t)) = Ret (a, b) → Q (inr a) (rebuffer t b) → wp X (on_buffer f) Q t.
Proof. intros Hf HQ. unfold wp, on_buffer. rewrite Hf. by ret_step. Qed.

Lemma wp_on_buffer' X (f : B → outcome B) Q t b :
  f (circular_buffer (storage t)) = Ret b → Q (inr tt) (rebuffer t b) → wp X (on_buffer' f) Q t.
Proof. intros Hf HQ. unfold on_buffer'. eapply wp_on_buffer; [by rewrite Hf; ret_step|done]. Qed.

(** The storage after a step of the buffer that hands over no page in use, but for those of [gone]. *)
Lemma leaves_buffer (exc exc' gone : list Z) s s' ls :
  leaves_at mem cfg front mini exc s ls → SInv cfg front mini s' → page_table s' = page_table s → disk s' = disk s →
  next_available_offset s' = next_available_offset s → gone ⊆ exc → exc ⊆ gone ++ exc' → exc' ⊆ exc →
  (∀ q, q ∉ gone → cache_pages s' !! q = cache_pages s !! q ∧ buf_owner (circular_buffer s') q = buf_owner (circular_buffer s) q) →
  (∀ q, q ∈ gone → buf_owner (circular_buffer s') q ≠ Some Live) → (∀ q, q ∈ exc' → q ∉ gone) → leaves_at mem cfg front mini exc' s' ls.
Proof.
  intros [_ (locs & Hl & Hall & [Ho Hx]) Hnd] HI Ht Hd Hn Hg1 Hg2 Hg3 Hsame Hgone Hsep. split; [done| |done]. exists locs. rewrite Ht. split; [done|]. split; [|split].
  - eapply Forall2_same_length_lookup_2; [by eapply Forall2_length|]. intros j lf loc Hj Hloc. pose proof (Forall2_lookup_lr _ _ _ _ _ _ Hall Hj Hloc) as Hat.
    eapply (leaf_at_frame mem cfg front mini gone []); [|apply not_elem_of_nil| |exact Hat].
    + split; [|by intros; unfold vfs_read; rewrite Hd|lia]. intros q n Hq [H1 H2]. destruct (Hsame q Hq) as [H3 H4]. split; congruence.
    + intros q Hq Hin. by destruct (Hx q (Hg1 _ Hin)) as [_ Hout]; apply (Hout j loc Hloc).
  - intros q Hq. destruct (decide (q ∈ gone)) as [Hin|Hout]; [by destruct (Hgone q Hin)|]. rewrite (proj2 (Hsame q Hout)) in Hq.
    destruct (Ho q Hq) as [Hin|?]; [|by right]. left. apply Hg2, elem_of_app in Hin as [?|?]; done.
  - intros q Hq. destruct (Hx q (Hg3 _ Hq)) as [Hlive Hout]. rewrite (proj2 (Hsame q (Hsep q Hq))). done.
Qed.

Lemma sinv_buffer s b :
  SInv cfg front mini s → buf_inv b → (∀ z, buf_serves b z ↔ buf_serves (circular_buffer s) z) → SInv cfg front mini (set_buffer s b).
Proof. intros [H1 H2 H3] Hb Hs. split; try done. eapply Forall_impl; [exact H2|]. intros z. cbn. by rewrite Hs. Qed.

(** Pages in use stay in use. *)
Lemma represents_buffer exc t m b :
  represents exc t m → buf_inv b → (∀ z, buf_serves b z ↔ buf_serves (circular_buffer (storage t)) z) →
  (∀ q, buf_owner b q = buf_owner (circular_buffer (storage t)) q) → represents exc (rebuffer t b) m.
Proof.
  intros (ls & lv & [Hl Hs Hk Htile Hone Hlog]) Hb Hv Ho. exists ls, lv. split; try done.
  - eapply (leaves_buffer exc exc []); [exact Hl|by apply sinv_buffer; [apply Hl|..]|done..|by apply list_subseteq_nil|done|done| | |].
    + intros q _. split; [done|apply Ho].
    + by intros q ?%elem_of_nil.
    + intros q _. apply not_elem_of_nil.
  - intros Hlen p. cbn. rewrite Ho. by apply Hone.
Qed.

(** The page that the callback has merged leaves the buffer. *)
Lemma represents_gone t m ptr b :
  represents [ptr] t m → buf_inv b → (∀ z, buf_serves b z ↔ buf_serves (circular_buffer (storage t)) z) →
  (∀ q, buf_owner b q = if decide (q = ptr) then None else buf_owner (circular_buffer (storage t)) q) →
  represents [] (set_storage (rebuffer t b) (set_cache (storage (rebuffer t b)) (delete ptr (cache_pages (storage (rebuffer t b)))))) m.
Proof.
  intros (ls & lv & [Hl Hs Hk Htile Hone Hlog]) Hb Hv Ho. exists ls, lv. split; try done.
  - eapply (leaves_buffer [ptr] [] [ptr]); [exact Hl|by apply (sinv_buffer (set_cache (storage t) _)); [destruct Hl as [[] _ _]|..]|done..|by apply list_subseteq_nil| | |].
    + intros q Hq. rewrite list_elem_of_singleton in Hq. cbn. rewrite lookup_delete_ne by done. split; [done|]. rewrite Ho. by rewrite decide_False.
    + intros q ->%list_elem_of_singleton. cbn. rewrite Ho. by rewrite decide_True.
    + by intros q ?%elem_of_nil.
  - intros Hlen p. cbn. rewrite Ho. destruct (decide (p = ptr)); [done|]. by apply Hone.
Qed.
End evict.
