(* ===== verification/TreeLoops.v ===== *)
(** The loops of src/tree.rs: eviction until enough has left the buffer, and the operations of the tree, which
    start over until they succeed.  Each of them returns, and none of them changes the map but for
    the record that is written. *)
From stdpp Require Import base numbers list sorting option gmap.
From Stdlib Require Import ZArith Lia.
From S2P Require Import Prelude Bits NodeMeta PageLayout InnerNode InnerRepr InnerSearch InnerInsert InnerSplit InnerTheorems LeafMeta LeafNode LeafOps Entries LeafRepr LeafSplit MergeSplit Config CircularBuffer StateError Storage LeafEntry EntryInv EntryLeaf EntryInsert EntryMove EntryMerge TreeLeaves EntryRoot Tree TreeShape TreeInv TreeSplit TreeDescent TreeWrite TreeRead TreeEvict.

Section loops.
Context {B T W F : Type} {RB : RecordBound} `{HPB : PageBuffer B} `{HBL : !PageBufferLaws B} `{HPM : PageMap T} `{HML : !PageMapLaws T}
  `{HWL : WriteLog W} `{HLL : !WriteLogLaws W}.
Context (mem : memory) (hp : heap) (limit : nat) (cfg : @Config F) (front : list Z) (mini : Z).
Abbreviation classes := (front ++ [mini; leaf_page_size cfg]).
Hypothesis Hsetup : Setup mem cfg front mini.
Hypothesis Hheap : heap_ok hp limit.
Abbreviation env := (@env B T).
Abbreviation tree := (BfTree B T W).
Abbreviation entry_at := (entry_at mem cfg front mini).
Abbreviation tree_at := (tree_at mem cfg front mini).
Abbreviation represents := (represents mem cfg front mini).
Abbreviation ready := (ready mem limit cfg front mini).
Implicit Types (t : tree) (e : env) (ls : list leaf) (lv : list level) (m : bytes → option bytes).

(** In this configuration a merge can always be carried out: the records fit in the base page, or it can be split. *)
Definition merge_always : Prop := ∀ bn p n q off low high,
  base_inv cfg bn p low high → mini_inv cfg front mini n q off (p_entries p) low high → merge_ready cfg bn n (p_entries q) (p_entries p).

Hypothesis Hmerge : merge_always.

Lemma room_ready k t : room limit cfg (S k) t → ready t.
Proof.
  intros Hr. split.
  - induction k as [|k IH]; [done|]. by apply IH, (room_less mem limit cfg front mini Hsetup).
  - intros lf loc par tb e _ _ ptr n q bn p _ [_ _ [Hb _]] (_ & Hm & _). by eapply Hmerge.
Qed.

(** What a number of steps may take. *)
Definition costs (k : nat) t t' : Prop := ∀ n, room limit cfg (k + n) t → room limit cfg n t'.

Lemma costs_spend t t' : spends cfg t t' → costs 1 t t'.
Proof. intros H n Hr. by eapply room_spend. Qed.

Lemma costs_trans j k t t' t'' : costs j t t' → costs k t' t'' → costs (j + k) t t''.
Proof. intros H1 H2 n Hr. apply H2, H1. by rewrite Nat.add_assoc. Qed.

Lemma room_more j k t : (j <= k)%nat → room limit cfg k t → room limit cfg j t.
Proof. induction 1 as [|k _ IH]; [done|]. intros H. by apply IH, (room_less mem limit cfg front mini Hsetup). Qed.

Lemma costs_more j k t t' : (j <= k)%nat → costs j t t' → costs k t t'.
Proof. intros Hle H n Hr. apply H. eapply room_more; [|exact Hr]. lia. Qed.

Lemma costs_free t t' : inner_nodes t' = inner_nodes t → page_table (storage t') = page_table (storage t) →
  next_available_offset (storage t') = next_available_offset (storage t) → costs 0 t t'.
Proof. intros Hn Ht Ho n [H1 H2]. split; [|by rewrite Hn]. eapply budget_keep; [exact Ht|lia|done]. Qed.

(** ** Eviction *)

(** A loop that leaves the map as it is; it costs at most [k] steps. *)
Definition harmless {A} (k : nat) t m (r : TreeError + A) t' : Prop := (∃ a, r = inr a) ∧ represents [] t' m ∧ costs k t t'.

Lemma evict_rounds_spec X m start fuel : ∀ t,
  represents [] t m → room limit cfg fuel t → buf_reserved (circular_buffer (storage t)) start →
  wp X (evict_rounds mem hp cfg start fuel) (harmless fuel t m) t.
Proof.
  induction fuel as [|fuel IH]; intros t Hrep Hroom Hres; cbn [evict_rounds].
  { wp_step. split; [by eexists|]. split; [done|]. by intros n. }
  pose proof Hrep as (ls & lv & Ht). destruct (ta_leaves _ _ _ _ _ _ _ _ _ Ht) as [[Hbi _ _] _ _].
  destruct (buf_claim_law _ start Hbi Hres) as (c & b1 & Hc & Hb1 & Hs1 & Ho1 & Hcl). apply wp_bind. eapply wp_on_buffer; [exact Hc|].
  pose proof (represents_buffer mem cfg front mini [] t m b1 Hrep Hb1 Hs1 Ho1) as Hrep1.
  assert (costs 0 t (rebuffer t b1)) as Hc0 by by apply costs_free. pose proof (Hc0 _ Hroom) as Hroom1.
  assert (∀ (r : TreeError + progress unit) t', harmless fuel (rebuffer t b1) m r t' → harmless (S fuel) t m r t') as Hlift.
  { intros r t' (H1 & H2 & H3). split; [done|]. split; [done|]. eapply (costs_more fuel); [lia|]. by eapply (costs_trans 0). }
  destruct c as [ptr| |].
  - destruct Hcl as [Hcl Hlive]. apply wp_bind, wp_result. eapply wp_mono.
    { eapply (eviction_callback_spec mem hp limit cfg front mini Hsetup Hheap X _ m ptr Hrep1); [by eapply room_ready|by cbn; rewrite Ho1]. }
    intros r t2 (Hb2 & Hrep2 & Hsp). cbn in Hb2. destruct r as [err|[]].
    + destruct (buf_refuse_law b1 start ptr Hb1 Hcl) as (b3 & Hr3 & Hb3 & Hs3 & Ho3 & Hres3). apply wp_bind.
      eapply wp_on_buffer'; [by rewrite Hb2|]. eapply wp_mono; [apply IH|].
      * apply represents_buffer; [done|done|by rewrite Hb2|by rewrite Hb2].
      * apply (costs_free t2); [done..|]. by apply (costs_spend _ _ Hsp).
      * done.
      * intros r t' (H1 & H2 & H3). split; [done|]. split; [done|]. eapply (costs_trans 1); [|exact H3].
        eapply (costs_trans 0 1); [exact Hc0|]. eapply (costs_trans 1 0); [by apply costs_spend|by apply costs_free].
    + destruct (buf_evict_law b1 start ptr Hb1 Hcl) as (b3 & Hr3 & Hb3 & Hs3 & Ho3). apply wp_bind.
      eapply wp_on_buffer'; [by rewrite Hb2|]. wp_step. wp_step. split; [by eexists|]. split.
      * apply represents_gone; [done|done|by rewrite Hb2|by rewrite Hb2].
      * eapply (costs_more 1); [lia|]. eapply (costs_trans 0 1); [exact Hc0|]. eapply (costs_trans 1 0); [by apply costs_spend|by apply costs_free].
  - wp_step. split; [by eexists|]. split; [done|]. eapply (costs_more 0); [lia|done].
  - eapply wp_mono; [apply IH; [done|by eapply room_more; [|exact Hroom1]; lia|done]|apply Hlift].
Qed.

Lemma evict_from_buffer_spec X t m fuel :
  represents [] t m → room limit cfg fuel t → wp X (evict_from_buffer mem hp cfg fuel) (harmless fuel t m) t.
Proof.
  intros Hrep Hroom. pose proof Hrep as (ls & lv & Ht). destruct (ta_leaves _ _ _ _ _ _ _ _ _ Ht) as [[Hbi _ _] _ _].
  destruct (buf_reserve_law _ Hbi) as (r & b1 & Hc & Hb1 & Hs1 & Ho1 & Hr). unfold evict_from_buffer. apply wp_bind. eapply wp_on_buffer; [exact Hc|].
  pose proof (represents_buffer mem cfg front mini [] t m b1 Hrep Hb1 Hs1 Ho1) as Hrep1.
  assert (costs 0 t (rebuffer t b1)) as Hc0 by by apply costs_free. destruct r as [[start finish]|].
  2:{ wp_step. split; [by eexists|]. split; [done|]. eapply (costs_more 0); [lia|done]. }
  apply wp_bind. eapply wp_mono; [apply evict_rounds_spec; [done|by apply Hc0|apply Hr]|].
  intros r t2 ([d ->] & Hrep2 & Hc2). destruct d as [[]|].
  2:{ wp_step. split; [by eexists|]. split; [done|]. by eapply (costs_trans 0). }
  pose proof Hrep2 as (ls2 & lv2 & Ht2). destruct (ta_leaves _ _ _ _ _ _ _ _ _ Ht2) as [[Hbi2 _ _] _ _].
  destruct (buf_bump_law _ Hbi2) as (b3 & Hr3 & Hb3 & Hs3 & Ho3). apply wp_bind. eapply wp_on_buffer'; [exact Hr3|]. wp_step. split; [by eexists|].
  split; [by apply represents_buffer|]. eapply (costs_trans 0 fuel); [exact Hc0|]. replace fuel with (fuel + 0)%nat by lia.
  eapply costs_trans; [exact Hc2|by apply costs_free].
Qed.

Lemma evict_more_spec X m fuel retries : ∀ t evicted,
  represents [] t m → room limit cfg (retries * fuel) t → wp X (evict_more mem hp cfg evicted retries fuel) (harmless (retries * fuel) t m) t.
Proof.
  induction retries as [|retries IH]; intros t evicted Hrep Hroom; cbn [evict_more].
  { wp_step. split; [by eexists|]. split; [done|]. by intros n. }
  assert (costs (S retries * fuel) t t) as Hc0 by (eapply (costs_more 0); [lia|by intros n]).
  destruct (evicted <? TARGET_EVICT_SIZE); [|wp_step; split; [by eexists|done]].
  apply wp_bind. eapply wp_mono; [apply evict_from_buffer_spec; [done|eapply room_more; [|exact Hroom]; lia]|].
  intros r t2 ([d ->] & Hrep2 & Hc2). destruct d as [n|].
  - eapply wp_mono; [apply IH; [done|by apply Hc2]|]. intros r t3 (H1 & H2 & H3). split; [done|]. split; [done|]. by eapply (costs_trans fuel).
  - wp_step. split; [by eexists|]. split; [done|]. eapply (costs_more fuel); [lia|done].
Qed.

(** ** The operations of the tree *)

(** The steps of a loop of [fuel] rounds: each of them an attempt and an eviction. *)
Fixpoint work (fuel : nat) : nat := match fuel with O => O | S f => (1 + 10 * f + work f)%nat end.

(** A loop that has ended with [Q], or waits with the map [m] as it was. *)
Definition loop_post {A} (k : nat) t m (Q : A → tree → Prop) (r : TreeError + progress A) t' : Prop :=
  costs k t t' ∧ match r with inr (Done a) => Q a t' | inr Waiting => represents [] t' m | inl _ => False end.

(** Starting over after an error. *)
Lemma after_error_spec {A} X t t1 m err (restart : SE TreeError tree (progress A)) fuel (Q : A → tree → Prop) :
  represents [] t1 m → spends cfg t t1 → room limit cfg (work (S fuel)) t →
  (∀ t2, represents [] t2 m → room limit cfg (work fuel) t2 → wp X restart (loop_post (work fuel) t2 m Q) t2) →
  wp X (after_error mem hp cfg err restart fuel) (loop_post (work (S fuel)) t m Q) t1.
Proof.
  intros Hrep Hsp Hroom Hrest. pose proof (costs_spend _ _ Hsp) as Hc1.
  assert (∀ t2, represents [] t2 m → costs (10 * fuel) t1 t2 → wp X restart (loop_post (work (S fuel)) t m Q) t2) as Hgo.
  { intros t2 Hrep2 Hc2. assert (costs (1 + 10 * fuel) t t2) as Hc by by eapply costs_trans.
    eapply wp_mono; [apply Hrest; [done|by apply Hc]|]. intros r t3 [Hc3 Hr]. split; [|done]. by eapply (costs_trans (1 + 10 * fuel)). }
  assert (wp X restart (loop_post (work (S fuel)) t m Q) t1) as Hnow by (apply Hgo; [done|eapply (costs_more 0); [lia|by intros n]]).
  unfold after_error. destruct err; [done| |done]. apply wp_bind, wp_result. unfold evict_from_circular_buffer.
  eapply wp_mono; [apply (evict_more_spec X m fuel 10 t1 0); [done|]|].
  - apply (room_more _ (10 * fuel + work fuel)); [lia|]. by apply Hc1.
  - intros r t2 ([d ->] & Hrep2 & Hc2). destruct d as [z|]; [by apply Hgo|]. wp_step. split; [|done].
    eapply (costs_more (1 + 10 * fuel)); [cbn; lia|]. by eapply costs_trans.
Qed.

Lemma insert_loop_spec X m key value fuel :
  entry_ok (mkEntry key OpInsert value) → limits cfg key value → ∀ t aggressive,
  represents [] t m → room limit cfg (work fuel) t →
  wp X (insert_loop mem hp cfg classes key value aggressive fuel)
    (loop_post (work fuel) t m (λ r t', r = Success ∧ represents [] t' (view_insert m key (Some value)))) t.
Proof.
  intros Hok Hlim. induction fuel as [|fuel IH]; intros t aggressive Hrep Hroom; cbn [insert_loop].
  { wp_step. split; [by intros n|done]. }
  apply wp_bind, wp_result. eapply wp_mono; [eapply (write_inner_spec mem hp limit cfg front mini Hsetup Hheap X [] t m key value OpInsert); try done; by apply (room_ready (10 * fuel + work fuel))|].
  intros r t1 [Hrep1 Hsp]. destruct r as [err|[]].
  - eapply after_error_spec; [exact Hrep1|done|done|]. intros t2 Hrep2 Hroom2. by apply IH.
  - wp_step. split; [|done]. eapply (costs_more 1); [cbn; lia|by apply costs_spend].
Qed.

Lemma delete_loop_spec X m key fuel :
  entry_ok (mkEntry key OpDelete []) → limits cfg key [] → ∀ t aggressive,
  represents [] t m → room limit cfg (work fuel) t →
  wp X (delete_loop mem hp cfg classes key aggressive fuel)
    (loop_post (work fuel) t m (λ _ t', represents [] t' (view_insert m key None))) t.
Proof.
  intros Hok Hlim. induction fuel as [|fuel IH]; intros t aggressive Hrep Hroom; cbn [delete_loop].
  { wp_step. split; [by intros n|done]. }
  apply wp_bind, wp_result. eapply wp_mono; [eapply (write_inner_spec mem hp limit cfg front mini Hsetup Hheap X [] t m key [] OpDelete); try done; by apply (room_ready (10 * fuel + work fuel))|].
  intros r t1 [Hrep1 Hsp]. destruct r as [err|[]].
  - eapply after_error_spec; [exact Hrep1|done|done|]. intros t2 Hrep2 Hroom2. by apply IH.
  - wp_step. split; [|done]. eapply (costs_more 1); [cbn; lia|by apply costs_spend].
Qed.

Lemma read_loop_spec X m key out0 fuel :
  read_record_cache cfg = true → buffer_fits (m key) out0 → ∀ t aggressive dice,
  represents [] t m → room limit cfg (work fuel) t →
  wp X (read_loop mem hp cfg classes key out0 aggressive dice fuel)
    (loop_post (work fuel) t m (λ v t', represents [] t' m ∧ answers (m key) out0 v.1 v.2)) t.
Proof.
  intros Hcache Hbuf. induction fuel as [|fuel IH]; intros t aggressive dice Hrep Hroom; cbn [read_loop].
  { wp_step. split; [by intros n|done]. }
  apply wp_bind, wp_result. eapply wp_mono; [eapply (read_inner_spec mem hp limit cfg front mini Hsetup Hheap X [] t m key out0); try done; pose proof (room_ready (10 * fuel + work fuel) t Hroom) as Hready;
    [intros _; apply Hready|by split]|].
  intros r t1 (Hrep1 & Hsp & Hans). destruct r as [err|[res buf]].
  - eapply after_error_spec; [exact Hrep1|done|done|]. intros t2 Hrep2 Hroom2. by apply IH.
  - wp_step. split; [|done]. eapply (costs_more 1); [cbn; lia|by apply costs_spend].
Qed.
End loops.
