(* ===== verification/WalInstance.v ===== *)
(** The write-ahead log as the log of a tree: [append_and_wait] of src/wal/mod.rs by a worker that runs with the
    background job alone, and the laws that the tree relies on. *)
From stdpp Require Import base numbers list option gmap.
From Stdlib Require Import ZArith Lia.
From S2P Require Import Prelude LeafMeta Wal WalTheorems Storage LeafEntry Tree TreeInv.

Section log.
Implicit Types w : WriteAheadLogInner.

(** While the worker waits, the background job takes its turn. *)
Definition append_retry w (e : WriteOp) (page_offset : Z) : outcome (Z * WriteAheadLogInner) :=
  r ← append w e page_offset;
  match r with
  | (Some l, w1) => Ret (l, w1)
  | (None, w1) =>
      w2 ← background_flush_job w1 false;
      r2 ← append w2 e page_offset;
      match r2 with (Some l, w3) => Ret (l, w3) | (None, _) => Panic end
  end.

Definition wait_flushed w (l : Z) : outcome WriteAheadLogInner :=
  if acknowledged w l then Ret w else w' ← background_flush_job w true; _ ← assert_ (acknowledged w' l); Ret w'.

Definition wal_append_and_wait w (key value : bytes) (op : OpType) (page_offset : Z) : outcome (Z * WriteAheadLogInner) :=
  r ← append_retry w (mkWriteOp key value op) page_offset;
  w' ← wait_flushed r.2 r.1;
  Ret (r.1, w').
End log.

#[export] Instance wal_log : WriteLog WriteAheadLogInner := { append_and_wait := wal_append_and_wait }.

(** ** Its laws *)

(** The entries of the buffer have numbers. *)
Definition wal_ready (w : WriteAheadLogInner) : Prop :=
  0 <= buffer_cursor w <= buffer_size w ∧ 0 <= next_lsn w ∧ (buffer_cursor w ≠ 0 → 0 < next_lsn w).

(** A record that a half of the buffer can hold. *)
Definition wal_serves (w : WriteAheadLogInner) (key value : bytes) : Prop :=
  zlen key < U16 ∧ zlen value < U16 ∧ LogHeader_size + 5 + zlen key + zlen value <= buffer_size w / 2.

Lemma wal_new_ready mem : wal_ready (WriteAheadLog_new mem).
Proof. unfold wal_ready, WriteAheadLog_new, buffer_size. cbn. pose proof (zlen_nonneg mem). lia. Qed.

Lemma append_returns w e p :
  wal_ready w → write_op_ok e →
  let req := LogHeader_size + zlen (payload e) in
  if buffer_size w - buffer_cursor w <? req
  then ∃ w', append w e p = Ret (None, w') ∧ need_flush w' = true ∧ wal_ready w' ∧
    buffer_cursor w' = buffer_cursor w ∧ buffer_size w' = buffer_size w
  else ∃ w', append w e p = Ret (Some (next_lsn w), w') ∧ next_lsn w' = next_lsn w + 1 ∧ wal_ready w' ∧ 0 < buffer_cursor w' ∧ buffer_size w' = buffer_size w.
Proof.
  intros (Hc & Hn & Hpos) Hok req. destruct (payload_size e Hok) as [Hps Hp0]. unfold append. rewrite Hps. ret_step.
  rewrite subu_ok by lia. ret_step. fold req. assert (0 < LogHeader_size) by done.
  zcase (buffer_size w - buffer_cursor w <? req).
  { eexists. split; [done|]. split; [done|]. done. }
  unfold alloc_buffer, alloc_lsn, buffer_size in *. cbn [buffer buffer_cursor].
  rewrite assert_true by (apply Z.leb_le; lia). ret_step. ret_step.
  cbn [buffer buffer_cursor file file_offset next_lsn flushed_lsn need_flush].
  rewrite slice_ok by (unfold req in *; lia). ret_step.
  set (h := LogHeader_as_slice (mkLogHeader req (next_lsn w) p)). assert (zlen h = LogHeader_size) as Hh by apply zlen_header.
  assert (zlen (sub_bytes (buffer w) (buffer_cursor w) req) = req) as Hm by (rewrite zlen_sub; unfold req in *; lia).
  rewrite blit_ok by (rewrite ?Hm; unfold req; lia). ret_step.
  rewrite slice_from_ok by (rewrite zlen_splice; rewrite ?Hm; unfold req; lia). ret_step.
  rewrite (payload_write e) by (done || (rewrite zlen_drop; rewrite zlen_splice; rewrite ?Hm; unfold req; lia)). ret_step.
  set (bs := take _ _ ++ _). assert (zlen bs = req) as Hbs.
  { unfold bs. rewrite zlen_app, zlen_take by (rewrite zlen_splice; rewrite ?Hm; unfold req; lia). unfold req. lia. }
  rewrite blit_ok by (rewrite ?Hbs; lia). ret_step. eexists. split; [done|]. cbn.
  unfold wal_ready, buffer_size. cbn. rewrite zlen_splice by (rewrite ?Hbs; lia). unfold req in *. lia.
Qed.

Lemma flush_returns w :
  wal_ready w → ∃ w', flush w = Ret w' ∧ wal_ready w' ∧ buffer_size w' = buffer_size w ∧ next_lsn w' = next_lsn w ∧
    (buffer_cursor w ≠ 0 → flushed_lsn w' = next_lsn w - 1) ∧ buffer_cursor w' <= buffer_size w / 2.
Proof.
  intros (Hc & Hn & Hpos). pose proof (zlen_nonneg (buffer w)) as Hz. unfold flush. zcase (buffer_cursor w =? 0).
  { exists w. split; [done|]. split; [done|]. split; [done|]. split; [done|]. split; [done|]. unfold buffer_size in *. dlia. }
  assert (∃ b, clear_next_header w = Ret (mkWal b (file w) (buffer_cursor w) (file_offset w) (next_lsn w) (flushed_lsn w) (need_flush w)) ∧
    zlen b = zlen (buffer w)) as (b & -> & Hb).
  { unfold clear_next_header, buffer_size in *. zcase (buffer_cursor w + 8 <=? zlen (buffer w)).
    - rewrite blit_ok by (change (zlen (replicate 8 0)) with 8; lia). ret_step. eexists. split; [done|].
      apply zlen_splice; change (zlen (replicate 8 0)) with 8; lia.
    - exists (buffer w). split; [by destruct w|done]. }
  ret_step. unfold should_inplace_flush, wal_ready, buffer_size in *. cbn [buffer buffer_cursor file file_offset next_lsn]. rewrite Hb.
  zcase (buffer_cursor w <? zlen (buffer w) / 2); rewrite subu_ok by lia; ret_step; eexists; (split; [done|]); cbn; rewrite Hb; dlia.
Qed.

Lemma append_retry_returns w e p :
  wal_ready w → write_op_ok e → LogHeader_size + zlen (payload e) <= buffer_size w / 2 →
  ∃ l w', append_retry w e p = Ret (l, w') ∧ wal_ready w' ∧ buffer_size w' = buffer_size w ∧ 0 < buffer_cursor w' ∧ next_lsn w' = l + 1.
Proof.
  intros Hw Hok Hfit. pose proof (zlen_nonneg (buffer w)) as Hz. unfold append_retry. pose proof (append_returns w e p Hw Hok) as Ha. cbv zeta in Ha.
  destruct (buffer_size w - buffer_cursor w <? LogHeader_size + zlen (payload e)).
  - destruct Ha as (w1 & -> & Hn1 & Hw1 & Hc1 & Hs1). ret_step. unfold background_flush_job. rewrite Hn1. cbn [orb].
    destruct (flush_returns w1 Hw1) as (w2 & -> & Hw2 & Hs2 & Hl2 & _ & Hc2). ret_step.
    pose proof (append_returns w2 e p Hw2 Hok) as Hb. cbv zeta in Hb. rewrite Hs2, Hs1 in *.
    assert ((buffer_size w - buffer_cursor w2 <? LogHeader_size + zlen (payload e)) = false) as Hno by (apply Z.ltb_ge; unfold buffer_size in *; dlia).
    rewrite Hno in Hb. destruct Hb as (w3 & -> & H1 & H2 & H3 & H4). ret_step. by exists (next_lsn w2), w3.
  - destruct Ha as (w1 & -> & H1 & H2 & H3 & H4). ret_step. by exists (next_lsn w), w1.
Qed.

Lemma wait_flushed_returns w l :
  wal_ready w → 0 < buffer_cursor w → next_lsn w = l + 1 →
  ∃ w', wait_flushed w l = Ret w' ∧ wal_ready w' ∧ buffer_size w' = buffer_size w ∧ acknowledged w' l = true.
Proof.
  intros Hw Hc Hl. unfold wait_flushed. destruct (acknowledged w l) eqn:Ha; [by exists w|]. unfold background_flush_job. rewrite orb_true_r.
  destruct (flush_returns w Hw) as (w' & -> & Hw' & Hs & _ & Hf & _). ret_step.
  assert (acknowledged w' l = true) as Ha'.
  { unfold acknowledged. apply negb_true_iff, Z.ltb_ge. rewrite (Hf ltac:(lia)). lia. }
  rewrite assert_true by done. ret_step. by exists w'.
Qed.

#[export] Program Instance wal_log_laws : WriteLogLaws WriteAheadLogInner := { log_inv := wal_ready; log_serves := wal_serves }.
Next Obligation.
  intros w key value op offset Hw (Hk & Hv & Hfit) _. unfold append_and_wait, wal_log, wal_append_and_wait.
  destruct (append_retry_returns w (mkWriteOp key value op) offset Hw) as (l & w1 & -> & Hw1 & Hs1 & Hc1 & Hl1).
  { by split. }
  { change (payload _) with (write_op_bytes (mkWriteOp key value op)). rewrite write_op_len. unfold WriteOp_log_size. cbn. lia. }
  ret_step. cbn [fst snd]. destruct (wait_flushed_returns w1 l Hw1 Hc1 Hl1) as (w2 & -> & Hw2 & Hs2 & _). ret_step.
  exists l, w2. split; [done|]. split; [done|]. intros k v. unfold wal_serves. by rewrite Hs2, Hs1.
Qed.
