(* ===== verification/TreeMerges.v ===== *)
(** Which workloads can always merge: the bounds on keys and records under which the records of a mini page fit
    in their base page, or in the two pages that it is split into (src/mini_page_op.rs, [try_merge_mini_page]). *)
From stdpp Require Import base numbers list sorting option gmap.
From Stdlib Require Import ZArith Lia.
From S2P Require Import Prelude Bits NodeMeta PageLayout LeafMeta LeafNode LeafOps Entries LeafRepr LeafInsert LeafMerge LeafRebuild RootSplit SizeClasses SplitKey SplitKeyProofs MergeSplit Config CircularBuffer StateError Storage LeafEntry EntryInv EntryLeaf EntryInsert EntryMove EntryMerge TreeLeaves Tree TreeLoops.

(** ** Sizes *)
Lemma entry_items_cons e es :
  items_size (map entry_item (e :: es)) = entry_need 0 e + items_size (map entry_item es) ∧ 0 <= entry_need 0 e.
Proof.
  pose proof (zlen_nonneg (e_key e)). pose proof (zlen_nonneg (e_val e)). unfold entry_need, KV_META_SIZE. split; [|lia].
  change (items_size (map entry_item (e :: es))) with (zlen (e_key e) + zlen (e_val e) + KV_META_SIZE + items_size (map entry_item es)). unfold KV_META_SIZE. lia.
Qed.

Lemma total_need_items es : total_need 0 es = items_size (map entry_item es).
Proof. induction es as [|e es IH]; [done|]. destruct (entry_items_cons e es) as [-> _]. rewrite <- IH. apply total_need_cons. Qed.

Lemma total_need_shift pl es : total_need 0 es = total_need pl es + pl * zlen es.
Proof.
  induction es as [|e es IH]; [unfold zlen; cbn; lia|]. rewrite !total_need_cons, IH, zlen_cons. unfold entry_need. lia.
Qed.

Lemma total_need_count pl short es :
  Forall (λ e, pl <= zlen (e_key e) ∧ short <= zlen (e_key e)) es → (KV_META_SIZE + Z.max 0 (short - pl)) * zlen es <= total_need pl es.
Proof.
  induction 1 as [|e es He Hes IH]; [unfold zlen; cbn; lia|]. rewrite total_need_cons, zlen_cons. unfold entry_need.
  pose proof (zlen_nonneg (e_val e)). lia.
Qed.

Lemma dirty_items_le es : items_size (map entry_item (dirty_entries es)) <= items_size (map entry_item es).
Proof.
  induction es as [|e es IH]; [done|]. destruct (entry_items_cons e es) as [-> He]. unfold dirty_entries in *. cbn [List.filter].
  destruct (is_dirty (e_op e)); [|lia]. destruct (entry_items_cons e (List.filter (λ e, is_dirty (e_op e)) es)) as [-> _]. lia.
Qed.

Lemma merge_need_dirty rs : merge_need rs <= items_size (map entry_item (dirty_entries (map k_ent rs))).
Proof.
  induction rs as [|r rs IH]; [done|]. unfold dirty_entries in *. cbn [List.filter map merge_need foldr]. fold (merge_need rs).
  destruct (entry_items_cons (k_ent r) (List.filter (λ e, is_dirty (e_op e)) (map k_ent rs))) as [Hc He].
  unfold op_eqb. case_bool_decide as Ho.
  - rewrite Ho. cbn [is_dirty]. rewrite Hc. unfold rec_need, entry_need, k_key, k_val in *. lia.
  - destruct (is_dirty _); [|lia]. lia.
Qed.

(** Merging loses no key. *)
Lemma merged_length ms : ∀ bs, (length ms <= length (merged_items ms bs) ∧ length bs <= length (merged_items ms bs))%nat.
Proof.
  induction ms as [|m ms IH]; intros bs; cbn [merged_items]; [cbn; lia|].
  destruct (IH (drop_equal m.1 (drop (below m.1 bs) bs))) as [H1 H2]. rewrite length_app. cbn [length].
  assert (length (drop (below m.1 bs) bs) <= S (length (drop_equal m.1 (drop (below m.1 bs) bs))))%nat as Hd.
  { unfold drop_equal. destruct (drop _ bs); [cbn; lia|]. destruct (cmp_bytes _ _); cbn; lia. }
  rewrite length_drop in Hd. rewrite length_take. lia.
Qed.

(** ** The condition *)
Section merges.
Context {F : Type} {RB : RecordBound} (mem : memory) (cfg : @Config F) (front : list Z) (mini : Z).
Hypothesis Hsetup : Setup mem cfg front mini.
Abbreviation P := (leaf_page_size cfg).
Abbreviation mfl := (max_fence_len cfg).
Abbreviation page_room := (P - LEAF_HEADER - 2 * KV_META_SIZE).

Section condition.
Context (shared shortest : Z).

(** The most that the records of a base page take once the prefix that their keys share is written out, when two
    keys share at most [shared] bytes and have at least [shortest]. *)
Definition base_records : Z := page_room + shared * (page_room / (KV_META_SIZE + Z.max 0 (shortest - shared))).

(** Twice the space of a page takes the records of a base page and of a mini page, and one more. *)
Record merges_fit : Prop := {
  mf_shared : ∀ k k', client_key k → client_key k' → k ≠ k' → common_prefix_len k k' <= shared;
  mf_shortest : ∀ k, client_key k → shortest <= zlen k;
  mf_nonneg : 0 <= shared;
  mf_halves : mini - LEAF_HEADER + base_records + (record_bound + KV_META_SIZE) <= 2 * (page_room - mfl);
  mf_sum : mini - LEAF_HEADER + base_records < 2 ^ 15;
}.

(** The prefix of a page that has a record is shared by two keys of records. *)
Lemma prefix_shared n p low high e :
  merges_fit → base_inv cfg n p low high → e ∈ p_entries p → prefix_len n <= shared.
Proof.
  intros [Hsh _ Hz _ _] [Hok _ [_ Hlow] [_ Hhigh] _ _] He. pose proof Hok as (HR & _ & _ & _ & l & h & Hf & Hl & Hh).
  rewrite (fence_pl n p HR l h Hf), Hl, Hh. pose proof (common_prefix_len_bound low high) as Hb.
  destruct Hlow as [->|Hlow]; [change (zlen []) with 0 in Hb; lia|]. destruct Hhigh as [->|Hhigh]; [change (zlen []) with 0 in Hb; lia|].
  destruct (decide (high = [])) as [->|Hne]; [change (zlen []) with 0 in Hb; lia|].
  apply Hsh; [done..|]. intros <-. pose proof (re_range _ _ HR) as Hr. rewrite Forall_forall in Hr.
  destruct (proj1 (base_ok_range _ _ _ _ _ _ Hok) (Hr e He)) as [Hge [->|Hlt]]; [done|].
  pose proof (cmp_le_lt_trans _ _ _ Hge Hlt) as Hrefl. unfold bytes_lt in Hrefl. by rewrite cmp_refl in Hrefl.
Qed.

Lemma base_records_bound n p low high :
  merges_fit → base_inv cfg n p low high → items_size (map entry_item (p_entries p)) <= base_records.
Proof.
  intros Hfit Hb. pose proof Hfit as [_ Hshort Hnn _ _]. pose proof (su_leaf _ _ _ _ Hsetup) as Hleaf. pose proof (su_fence _ _ _ _ Hsetup).
  assert (0 <= shared * (page_room / (KV_META_SIZE + Z.max 0 (shortest - shared)))) as Hpos.
  { apply Z.mul_nonneg_nonneg; [done|]. apply Z.div_pos; unfold KV_META_SIZE in *; lia. }
  destruct (p_entries p) as [|e0 es0] eqn:Hes; [unfold base_records; cbn; lia|].
  assert (prefix_len n <= shared) as Hp2 by (eapply prefix_shared; [done..|]; rewrite Hes; by left). rewrite <- Hes. clear Hes e0 es0.
  revert Hb.
  intros [(HR & _ & Hs & _ & l & h & Hf & Hl & Hh) Hsh H1 H2 _ _]. destruct (repr_page n p HR) as (_ & Hdat & _).
  pose proof (page_usage n p HR) as Hu. rewrite Hf in Hu. cbn [fence_need] in Hu. pose proof (fence_pl_bound n p HR l h Hf) as Hpl.
  pose proof (lo_rem _ _ (re_layout _ _ HR)) as Hrem. pose proof (zlen_nonneg (fence_key l)). rewrite Hl in *.
  assert (Forall (λ e, prefix_len n <= zlen (e_key e) ∧ shortest <= zlen (e_key e)) (p_entries p)) as Hk.
  { apply Forall_and. split; [apply Forall_map, Forall_lookup_2; intros i r Hi; apply (repr_prefix_bound n p HR i r Hi)|].
    eapply Forall_impl; [exact Hsh|]. intros e [[_ Hc] _]. by apply Hshort. }
  apply total_need_count in Hk. rewrite <- total_need_items, (total_need_shift (prefix_len n)).
  pose proof (zlen_nonneg (p_entries p)) as Hz. rewrite Hdat, Hs in Hu.
  assert (zlen (p_entries p) <= page_room / (KV_META_SIZE + Z.max 0 (shortest - shared))) as Hcount.
  { apply Z.div_le_lower_bound; [unfold KV_META_SIZE in *; lia|]. etransitivity; [apply Z.mul_le_mono_nonneg_r; [done|]|]; [|etransitivity; [exact Hk|unfold KV_META_SIZE in *; lia]]. lia. }
  unfold base_records. pose proof (Z.mul_le_mono_nonneg _ _ _ _ (proj1 Hpl) Hp2 Hz Hcount). lia.
Qed.

End condition.

Lemma mini_class_le s : s ∈ front ++ [mini] → s <= mini.
Proof.
  pose proof (su_classes _ _ _ _ Hsetup) as Hasc. intros [Hs| ->%list_elem_of_singleton]%elem_of_app; [|lia].
  pose proof (StronglySorted_app_1_elem_of _ _ _ _ _ Hasc Hs ltac:(by left)). lia.
Qed.

Lemma mini_records_bound n q off es low high :
  mini_inv cfg front mini n q off es low high → items_size (map entry_item (dirty_entries (p_entries q))) <= mini - LEAF_HEADER.
Proof.
  intros [HR Hf _ _ Hs _ _ _ _]. destruct (repr_page n q HR) as (_ & Hdat & _). pose proof (page_usage n q HR) as Hu.
  rewrite Hf in Hu. cbn [fence_need] in Hu. rewrite (mini_prefix n q HR Hf), total_need_items in Hu. pose proof (dirty_items_le (p_entries q)).
  pose proof (lo_rem _ _ (re_layout _ _ HR)). apply mini_class_le in Hs. lia.
Qed.

Lemma few_records (es : list entry) :
  (length es <= 1)%nat → within cfg es → items_size (map entry_item es) <= Z.max 0 (cb_max_record_size cfg + KV_META_SIZE).
Proof.
  intros Hlen Hsh. destruct es as [|e [|]]; cbn in Hlen; [cbn; lia| |lia]. apply Forall_singleton in Hsh as (_ & _ & Hr & _).
  destruct (entry_items_cons e []) as [-> _]. unfold entry_need. cbn. lia.
Qed.

(** A merge with one record in all has room. *)
Lemma never_alone p1 q n1 n p low high off :
  base_inv cfg n1 p1 low high → mini_inv cfg front mini n q off (p_entries p) low high →
  (length (dirty_entries (p_entries q)) <= 1)%nat → (length (p_entries p1) <= 1)%nat →
  P - LEAF_HEADER - 2 * KV_META_SIZE - total_need 0 (p_entries p1) <= remaining_size (meta n1) + zlen low + zlen high →
  merge_mini_page n1 n mfl = Ret (false, n1) → False.
Proof.
  intros Hb Hm Hq Hp Hroom Hfail. pose proof Hb as [Hok Hsh _ _ _ _]. pose proof Hok as (HR & Hbase & Hs & _ & l & h & Hf & Hl & Hh).
  pose proof Hm as [HQ Hqf _ _ _ Hbnd Hqsh _ _].
  destruct (merge_repr n q HQ n1 p1 mfl HR Hbase Hqf (su_fence _ _ _ _ Hsetup)) as (b & n' & Hrun & Hr).
  { intros e He _. apply (base_ok_range _ _ _ _ _ _ Hok). rewrite Forall_forall in Hbnd. by apply Hbnd. }
  rewrite Hfail in Hrun. injection Hrun as <- <-. destruct Hr as [_ Hfull].
  pose proof (merge_need_nonneg (p_recs q)) as Hnn. rewrite (full_spec n1 p1 HR) in Hfull by (apply (su_fence _ _ _ _ Hsetup) || done).
  injection Hfull as Hfull. pose proof (few_records _ Hp Hsh) as Hp1. rewrite <- total_need_items in Hp1.
  assert (within cfg (dirty_entries (p_entries q))) as Hdsh.
  { apply Forall_forall. intros e [He _]%elem_of_dirty. unfold within in Hqsh. rewrite Forall_forall in Hqsh. by apply Hqsh. }
  pose proof (few_records _ Hq Hdsh) as Hq1. pose proof (merge_need_dirty (p_recs q)) as Hneed. fold (p_entries q) in Hneed.
  pose proof (su_margin _ _ _ _ Hsetup). pose proof (su_record _ _ _ _ Hsetup). pose proof (su_leaf _ _ _ _ Hsetup). pose proof (su_fence _ _ _ _ Hsetup).
  pose proof (proj1 (bi_low _ _ _ _ _ Hb)). pose proof (proj1 (bi_high _ _ _ _ _ Hb)). unfold fence_bytes in Hfull. rewrite Hf, Hl, Hh in Hfull.
  apply orb_true_iff in Hfull as [Hfull%Z.ltb_lt|[_ Hfull%Z.ltb_lt]%andb_true_iff]; lia.
Qed.

Lemma small_records_merge shared shortest : merges_fit shared shortest → merge_always cfg front mini.
Proof.
  intros Hwl bn p n q off low high Hb Hm n1 Hc Hfail. pose proof Hwl as [_ _ _ Hfit Hsum]. unfold can_split. cbv zeta.
  destruct (consolidate_single_spec cfg bn p low high Hb) as (n1' & p1 & Hc' & Hb1 & He1 & _ & Hroom).
  rewrite Hc in Hc'. injection Hc' as <-. rewrite <- He1. 
  pose proof (mini_records_bound _ _ _ _ _ _ Hm) as Hms. pose proof (base_records_bound _ _ _ _ _ _ Hwl Hb1) as Hes.
  pose proof (merged_length (map entry_item (dirty_entries (p_entries q))) (map entry_item (p_entries p1))) as [Hl1 Hl2]. rewrite !length_map in *.
  split; [|split; [lia|]].
  - destruct (Nat.le_gt_cases 2 (length (merged_entries (p_entries q) (p_entries p1)))) as [|Hfew]; [done|]. exfalso. 
    eapply (never_alone p1 q n1 n p); [done|exact Hm|..|apply Hroom|exact Hfail]; unfold merged_entries in Hfew; lia.
  - destruct (merged_size _ _ (entry_items_positive (dirty_entries (p_entries q))) (entry_items_positive (p_entries p1))) as [_ Hsz].
    apply Forall_forall. intros it Hit. enough (it.2 <= record_bound + KV_META_SIZE) by (unfold merged_entries in *; lia).
    pose proof (mi_short _ _ _ _ _ _ _ _ _ Hm) as H1. pose proof (bi_short _ _ _ _ _ Hb1) as H2. unfold within in *. rewrite Forall_forall in H1, H2.
    apply merged_sub in Hit as [H|H]; apply list_elem_of_fmap in H as (e & -> & He); cbn.
    + apply elem_of_dirty in He as [He _]. destruct (H1 e He) as (_ & _ & _ & ?). lia.
    + destruct (H2 e He) as (_ & _ & _ & ?). lia.
Qed.
End merges.
