(* ===== verification/TreeInit.v ===== *)
(** A new tree ([BfTree::with_config] of src/tree.rs): the configuration is checked, the size classes are
    those of the checked configuration, and the tree is an empty root leaf, which represents the empty map. *)
From stdpp Require Import base numbers list sorting option gmap.
From Stdlib Require Import ZArith Lia.
From S2P Require Import Prelude Bits NodeMeta PageLayout InnerNode InnerRepr InnerSearch InnerInsert InnerSplit InnerTheorems LeafMeta LeafNode LeafOps Entries LeafRepr LeafSplit LeafTheorems SizeClasses MergeSplit Config CircularBuffer StateError Storage LeafEntry EntryInv EntryLeaf EntryInsert EntryMove EntryMerge TreeLeaves EntryRoot Tree TreeShape TreeInv TreeSplit TreeDescent TreeWrite TreeRead TreeEvict TreeLoops.

(** ** The sizes of a checked configuration *)
Lemma valid_setup {F} (mem : memory) (cfg : @Config F) :
  let mini := max_mini_of (cb_max_record_size cfg) (leaf_page_size cfg) (max_fence_len cfg) (cache_only cfg) in
  sizes_unsigned cfg → validate cfg = Ret None → cache_only cfg = false →
  max_fence_len cfg / 2 < cb_max_record_size cfg → max_fence_len cfg <= 2 * MAX_KEY_LEN →
  cb_max_record_size cfg + KV_META_SIZE + LEAF_HEADER ≠ mini →
  (∀ p s, LEAF_HEADER <= s → zlen (leaf_data (fresh_block mem p s)) = s - LEAF_HEADER ∧ bytes_ok (leaf_data (fresh_block mem p s))) →
  zlen (fresh_page mem (leaf_page_size cfg)) = leaf_page_size cfg - LEAF_HEADER ∧ bytes_ok (fresh_page mem (leaf_page_size cfg)) →
  ∃ front, create_mem_page_size_classes (cb_min_record_size cfg) (cb_max_record_size cfg) (leaf_page_size cfg) (max_fence_len cfg) (cache_only cfg) =
      Ret (front ++ [mini; leaf_page_size cfg]) ∧ Setup mem cfg front mini.
Proof.
  intros mini Hu Hval Hdisk Hkey Hfence Hne Hblock Hpage. destruct (validated cfg Hu Hval Hkey) as [HP _].
  destruct (classes_spec _ _ _ _ _ HP) as (front & Hc & Ha & Ho & Hb). destruct (mini_bounds _ _ _ _ _ HP) as (_ & _ & Hmin & H0 & Hfit & Hlt).
  pose proof HP as [Hm Hf Hh Hl Hcnt Hln Hr]. unfold mini in *. rewrite Hdisk in *. exists front. split; [done|].
  split; try done; try lia.
  - assert (CACHE_LINE_SIZE < leaf_page_size cfg) as Hbig by (unfold CACHE_LINE_SIZE, DISK_PAGE_SIZE in *; dlia).
    specialize (Hb Hbig). apply Forall_forall. intros x Hx. rewrite Forall_forall in Hb, Ho. specialize (Hb x Hx). specialize (Ho x Hx).
    unfold on_line, CACHE_LINE_SIZE, LEAF_HEADER in *. cbv beta in Hb. dlia.
  - unfold MAX_KEY_LEN in *. lia.
Qed.

Section init.
Context {B T W F : Type} {RB : RecordBound} `{HPB : PageBuffer B} `{HBL : !PageBufferLaws B} `{HPM : PageMap T} `{HML : !PageMapLaws T}
  `{HWL : WriteLog W} `{HLL : !WriteLogLaws W}.
Context (mem : memory) (cfg : @Config F) (front : list Z) (mini : Z).
Abbreviation classes := (front ++ [mini; leaf_page_size cfg]).
Hypothesis Hsetup : Setup mem cfg front mini.
Abbreviation env := (@env B T).
Abbreviation tree := (BfTree B T W).
Abbreviation entry_at := (entry_at mem cfg front mini).
Abbreviation tree_at := (tree_at mem cfg front mini).
Abbreviation represents := (represents mem cfg front mini).
Implicit Types (t : tree) (e : env) (ls : list leaf) (lv : list level) (m : bytes → option bytes).

(** ** The root leaf *)
Lemma empty_root (s : LeafStorage B T) l version :
  map_list (page_table s) l → map_room (page_table s) 1 →
  ∃ tb sib sp, let off := next_available_offset s in
    alloc_base_page_mapping mem cfg s version =
      Ret (zlen l, mkEnv (set_table (set_next_offset s (off + leaf_page_size cfg)) tb) (Base off) (Some (mkTmp true sib)) None) ∧
    map_list tb (l ++ [Base off]) ∧ (∀ k, map_room (page_table s) (S k) → map_room tb k) ∧
    base_inv cfg sib sp [] [] ∧ p_entries sp = [] ∧ remaining_size (meta sib) = leaf_page_size cfg - LEAF_HEADER - 2 * KV_META_SIZE ∧
    make_base_page (fresh_page mem (leaf_page_size cfg)) (leaf_page_size cfg) version = Ret sib.
Proof.
  intros Hl Hroom. pose proof (su_leaf _ _ _ _ Hsetup). pose proof (su_fence _ _ _ _ Hsetup). destruct (su_page _ _ _ _ Hsetup) as [Hd Hb].
  destruct (base_page_wf (fresh_page mem (leaf_page_size cfg)) (leaf_page_size cfg) version) as (n & p & Hmk & HR & Hre & Hf & Hbase & Hs & _ & Hrem & Hfl); [lia|done|done|].
  assert (p_entries p = []) as He by (unfold p_entries; by rewrite Hre).
  destruct (map_insert_law _ l (Base (next_available_offset s)) Hl Hroom) as (tb & Hins & Htb & Hkeep).
  exists tb, n, p. cbv zeta. split; [|split; [done|]; split; [done|]].
  - unfold alloc_base_page_mapping, alloc_offset. cbn [page_table set_next_offset]. rewrite Hins. ret_step. rewrite Hmk. ret_step.
    unfold tmp_from_leaf_node. rewrite Hs, Z.eqb_refl. by repeat ret_step.
  - assert (fence_in cfg []) as Hin by (split; [change (zlen []) with 0; lia|by left]).
    split; [|done]. split; [|unfold within; rewrite He; apply Forall_nil_2|done|done|by rewrite Hfl|by intros _ l' h' off' key'; rewrite Hf; intros [= <- <-] [?|?]].
    split_and!; [done|done|done|unfold all_dirty; rewrite He; apply Forall_nil_2|]. by exists FInf, FInf.
Qed.

Definition empty_map : bytes → option bytes := λ _, None.

(** A tree over a storage without leaves. *)
Lemma with_config_spec (s : LeafStorage B T) w version :
  validate cfg = Ret None → root_version cfg = Ret version → SInv cfg front mini s → map_list (page_table s) [] → growable s →
  (∀ p, buf_owner (circular_buffer s) p ≠ Some Live) → (∀ w', w = Some w' → log_inv w' ∧ ∀ k v, limits cfg k v → log_serves w' k v) →
  ∃ t lf sib sp, with_config mem cfg s w = Ret (inr t) ∧ tree_at [] t [lf] [[([], from_id 0)]] empty_map ∧
    (∀ n, budget cfg (S n) s → budget cfg n (storage t)) ∧ inner_nodes t = ∅ ∧ contention t = [] ∧ wal t = w ∧
    map_list (page_table (storage t)) [Base (lf_offset lf)] ∧ vfs_read mem (storage t) (lf_offset lf) = sib ∧
    base_inv cfg sib sp [] [] ∧ p_entries sp = [] ∧ remaining_size (meta sib) = leaf_page_size cfg - LEAF_HEADER - 2 * KV_META_SIZE ∧
    make_base_page (fresh_page mem (leaf_page_size cfg)) (leaf_page_size cfg) version = Ret sib.
Proof.
  intros Hval Hver HI Hl Hgrow Hlive Hlog. pose proof Hgrow as (Hroom & Hoff & _).
  destruct (empty_root s [] version Hl Hroom) as (tb & sib & sp & Halloc & Htb & Hkeep & Hb & He & Hrem). cbv zeta in Halloc.
  set (off := next_available_offset s) in *.
  set (s1 := vfs_write (set_table (set_next_offset s (off + leaf_page_size cfg)) tb) off sib).
  set (t := mkTree (W:=W) (Z.lor (pid_raw (from_id 0)) ROOT_IS_LEAF_MASK) ∅ s1 w []).
  set (lf := right_leaf (mkLeaf off empty_map [] []) [] off).
  destruct (sibling_written mem cfg front mini Hsetup (mkLeaf off empty_map [] []) s tb [] sib sp HI Hgrow Hb) as (HI1 & Hat & _ & _).
  { intros k. rewrite He. cbn. by destruct (is_below [] k). }
  exists t, lf, sib, sp. split; [|split; [|split; [|do 3 (split; [done|]); split; [exact Htb|split; [|done]]]]].
  - unfold with_config. rewrite Hval. ret_step. unfold new_root_page. rewrite Hver. ret_step. rewrite (su_disk_mode _ _ _ _ Hsetup), Halloc. ret_step. by repeat ret_step.
  - assert (root_page t = (from_id 0, true)) as Hroot by (unfold root_page; by apply get_root_page_leaf).
    split; rewrite ?Hroot; try done.
    + split; [done| |cbn; apply NoDup_singleton]. exists [Base off]. split; [exact Htb|]. split; [by constructor|].
      split; [intros p Hp; by destruct (Hlive p)|by intros p ?%elem_of_nil].
    + split; [done|by intros [|h] L L' _ ?|apply Forall_singleton; cbn; by repeat constructor|by constructor].
    + eexists. split; [done|]. split; [|cbn; lia]. split; [|done]. exists 0%nat, lf. split_and!; try done. intros k _. cbn. by destruct (is_below [] k).
  - intros n. apply (budget_grow cfg n s s1 (Base off)); [exact Hkeep| |].
    + intros l' Hl'. by destruct l' as [|]; [|pose proof (map_length_law _ _ _ Hl Hl')].
    + cbn. unfold page_step, INNER_NODE_SIZE. lia.
  - cbn. unfold vfs_read, s1, vfs_write. cbn. by rewrite lookup_insert_eq.
Qed.
End init.
