(* ===== verification/TreeCalm.v ===== *)
(** Operations that no other thread disturbs (src/tree.rs): a read answers at its first attempt, and so does
    an insertion into a root leaf with room. *)
From stdpp Require Import base numbers list sorting option gmap.
From Stdlib Require Import ZArith Lia.
From S2P Require Import Prelude Bits NodeMeta PageLayout InnerNode InnerRepr InnerSearch InnerInsert InnerSplit InnerTheorems LeafMeta LeafNode LeafOps Entries LeafRepr LeafInsert LeafSplit MergeSplit Config CircularBuffer StateError Storage LeafEntry EntryInv EntryLeaf EntryInsert EntryMove EntryMerge TreeLeaves EntryRoot Tree TreeShape TreeInv TreeSplit TreeDescent TreeWrite TreeRead TreeEvict TreeLoops TreeInit.

Section calm.
Context {B T W F : Type} {RB : RecordBound} `{HPB : PageBuffer B} `{HBL : !PageBufferLaws B} `{HPM : PageMap T} `{HML : !PageMapLaws T}
  `{HWL : WriteLog W} `{HLL : !WriteLogLaws W}.
Context (mem : memory) (hp : heap) (limit : nat) (cfg : @Config F) (front : list Z) (mini : Z).
Abbreviation classes := (front ++ [mini; leaf_page_size cfg]).
Hypothesis Hsetup : Setup mem cfg front mini.
Hypothesis Hheap : heap_ok hp limit.
Abbreviation env := (@env B T).
Abbreviation tree := (BfTree B T W).
Abbreviation entry_at := (entry_at mem cfg front mini).
Abbreviation tree_at := (tree_at mem cfg front mini).
Abbreviation represents := (represents mem cfg front mini).
Abbreviation ready := (ready mem limit cfg front mini).
Implicit Types (t : tree) (e : env) (ls : list leaf) (lv : list level) (m : bytes → option bytes).

Lemma wp_and {E S A} X (p : SE E S A) (Q Q' : E + A → S → Prop) s : wp X p Q s → wp X p Q' s → wp X p (λ r s', Q r s' ∧ Q' r s') s.
Proof. unfold wp. destruct (p s) as [[r s']|]; [|done]. auto. Qed.

Lemma ask_calm X t Q : contention t = [] → Q (inr true) t → wp X ask Q t.
Proof. intros Hc HQ. unfold wp, ask. by rewrite Hc. Qed.

Lemma attempt_calm X t Q : contention t = [] → Q (inr tt) t → wp X attempt Q t.
Proof. intros Hc HQ. unfold attempt. apply wp_bind, ask_calm; [done|]. by apply wp_ret. Qed.

Lemma check_parent_calm X t node parent Q :
  contention t = [] → (parent = None → node = (root_page t).1) → Q (inr tt) t → wp X (check_parent node parent) Q t.
Proof.
  intros Hc Hn HQ. unfold check_parent. destruct parent as [p|]; [by apply attempt_calm|]. wp_step.
  rewrite bool_decide_eq_true_2 by by apply Hn. by apply wp_ret.
Qed.

Lemma draw_race_calm X e t (Q : TreeError + Race → env * tree → Prop) :
  contention t = [] → Q (inr (mkRace true true)) (e, t) → wp X draw_race Q (e, t).
Proof.
  intros Hc HQ. unfold draw_race. apply wp_bind, wp_on_tree, ask_calm; [done|]. apply wp_bind, wp_on_tree, ask_calm; [done|]. by apply wp_ret.
Qed.

(** A descent that splits nothing. *)
Lemma traverse_calm key bound fuel : ∀ t cur leaf parent high,
  contention t = [] → (parent = None → cur = (root_page t).1) →
  wp True (traverse mem hp cfg key false bound cur leaf parent high fuel) (λ r t', t' = t ∧ ∃ a, r = inr a) t.
Proof.
  induction fuel as [|fuel IH]; intros t cur leaf parent high Hc Hn; cbn [traverse]; [done|].
  wp_step. destruct leaf; [wp_step; split; [done|by eexists]|].
  assert (∀ {A B'} (o : outcome A) (f : A → SE TreeError tree B') Q, (∀ a, wp True (f a) Q t) → wp True (a ← lift o; f a) Q t) as Hlift.
  { intros A B' o f Q Hf. apply wp_bind. unfold wp, lift. destruct o; [apply Hf|done]. }
  apply Hlift. intros ptr. apply wp_bind, wp_bind, attempt_calm; [done|]. unfold load_node. wp_step.
  unfold wp at 1, lift. destruct (node_at t ptr) as [n|]; [|done].
  apply wp_bind, check_parent_calm; [done|done|]. apply Hlift. intros pos. apply Hlift. intros kv. apply Hlift. intros child.
  apply wp_bind. destruct bound; [unfold wp at 1, lift; destruct (next_separator _ _ _); [|done]|apply wp_ret]; by apply IH.
Qed.

Lemma descent_calm X exc t ls lv m key bound :
  tree_at exc t ls lv m → contention t = [] →
  wp X (traverse_to_leaf mem hp cfg key false bound) (λ r t', t' = t ∧ ∃ parent high L1 x L2,
    r = inr (x.2, parent, high) ∧ cursor (inner_nodes t) lv key (pred (length lv)) parent L1 x L2) t.
Proof.
  intros Ht Hc. eapply wp_mono; [eapply wp_run; [eapply (traverse_to_leaf_spec mem hp limit cfg front mini Hsetup Hheap X exc t ls lv m key false bound); done|]|].
  - intros r t' Hrun. exact Hrun.
  - intros r t' [Hd Hrun]. assert (t' = t ∧ ∃ a, r = inr a) as [-> [[[pid parent] high] ->]].
    { unfold traverse_to_leaf, mbind, SE_bind, get in Hrun. destruct (root_page t) as [root leaf] eqn:Hr.
      pose proof (traverse_calm key bound (S (S (size (inner_nodes t)))) t root leaf None [] Hc ltac:(by rewrite Hr)) as Hw.
      unfold wp in Hw. by rewrite Hrun in Hw. }
    split; [done|]. destruct Hd as (_ & L1 & x & L2 & Hcur & -> & _). by exists parent, high, L1, x, L2.
Qed.

(** The root is at the end of a descent without a parent. *)
Lemma cursor_top exc t ls lv m key h parent L1 x L2 :
  tree_at exc t ls lv m → cursor (inner_nodes t) lv key h parent L1 x L2 → parent = None → x.2 = (root_page t).1.
Proof.
  intros Ht [Hat _ Hu] ->. destruct h; [|done]. rewrite (sh_root _ _ _ (ta_shape _ _ _ _ _ _ _ _ _ Ht)) in Hat.
  destruct L1 as [|? [|]]; try done. by injection Hat as <- <-.
Qed.

Section locked.
Context (exc : list Z) (t : tree) (ls : list leaf) (lv : list level) (m : bytes → option bytes) (key : bytes).
Context (parent : option Z) (L1 : level) (x : bytes * PageID) (L2 : level) (i : nat) (lf : leaf) (loc : PageLocation) (par : option InnerNode).
Hypothesis Hal : at_leaf mem cfg front mini exc t ls lv m key parent L1 x L2 i lf loc par.
Hypothesis Hcalm : contention t = [].
Abbreviation e0 := (mkEnv (storage t) loc None par).

Lemma parent_calm : parent = None → x.2 = (root_page t).1.
Proof. destruct Hal as [Ht Hc _ _ _ _ _ _ _ _ _]. by eapply cursor_top. Qed.

(** ** Reading *)

(** A read that does not cache what it has found on a base page. *)
Lemma read_shared_calm X out0 dice :
  buffer_fits (m key) out0 → read_promotion_rate cfg <= dice →
  wp X (read_shared mem cfg key out0 x.2 parent dice) (λ r _, ∃ out up, r = inr (out, up) ∧
    (up = true → match out.1 with ReadMini _ | ReadFull _ => True | _ => False end)) (e0, t).
Proof.
  intros Hbuf Hdice. unfold read_shared. rewrite (su_disk_mode _ _ _ _ Hsetup).
  apply wp_bind, wp_on_tree, check_parent_calm; [done|apply parent_calm|].
  apply wp_bind, wp_on_entry. eapply wp_mono; [by apply (has_read_spec mem cfg front mini _ _ _ _ _ _ _ _ _ _ _ _ _ _ Hal X out0)|]. intros r e1 (out & -> & Hrd).
  pose proof (hr_post _ _ _ _ _ _ _ _ _ _ _ _ Hrd) as (res & buf & [= ->] & _ & (bn & p & _ & Hp) & _). cbn [fst] in *. apply wp_bind.
  assert (∀ wanted : bool, (wanted = true → match res with ReadMini _ | ReadFull _ => True | _ => False end) →
    wp X (upgraded ← (if wanted then on_tree ask else mret false); mret ((res, buf), upgraded)) (λ r _, ∃ out up, r = inr (out, up) ∧
    (up = true → match out.1 with ReadMini _ | ReadFull _ => True | _ => False end)) (e1, t)) as Hask.
  { intros wanted Hw. apply wp_bind. destruct wanted; [apply wp_on_tree, ask_calm; [done|]|wp_step]; wp_step; eexists _, _; split; [done| |done|done]. intros _. by apply Hw. }
  assert ((dice <? read_promotion_rate cfg) = false) as Hno by (apply Z.ltb_ge; lia).
  destruct res as [r|r|r|].
  - apply wp_on_entry. unfold cache_page_about_to_evict. wp_step. destruct (location e1) as [a|a|a|];
      [by apply wp_ret, (Hask (mini_page_copy_on_access (store e1) a))..|by apply wp_ret, (Hask false)|done].
  - apply wp_on_entry. unfold cache_page_about_to_evict. wp_step. destruct (location e1) as [a|a|a|];
      [by apply wp_ret, (Hask (mini_page_copy_on_access (store e1) a))..|by apply wp_ret, (Hask false)|done].
  - destruct r; try by apply wp_ret, (Hask false). rewrite Hno, andb_false_r. by apply wp_ret, (Hask false).
  - by apply wp_ret, (Hask false).
Qed.

Lemma read_leaf_calm X out0 dice :
  buffer_fits (m key) out0 → read_promotion_rate cfg <= dice →
  wp X (read_leaf mem cfg classes key out0 x.2 parent dice) (λ r _, ∃ v, r = inr v) t.
Proof.
  intros Hbuf Hdice. pose proof (read_leaf_spec mem limit cfg front mini Hsetup _ _ _ _ _ _ _ _ _ _ _ _ _ _ Hal X out0 dice Hbuf ltac:(lia)) as Hspec.
  pose proof (read_shared_calm X out0 dice Hbuf Hdice) as Hsh. pose proof Hal as [_ _ [Hpid Hi] _ _ _ _ Hget Hpar _ _]. destruct (Hget par) as [Hg _].
  unfold wp, read_leaf in *. rewrite Hpid in *. rewrite as_id_from_id in * by lia. revert Hspec. ret_step. rewrite Hpar. ret_step. rewrite Hg. ret_step.
  destruct (read_shared _ _ _ _ _ _ _ _) as [[r [e1 t1]]|]; [|done]. ret_step. destruct Hsh as ([res buf] & up & -> & Hup).
  destruct up; [|intros _; by eexists]. specialize (Hup eq_refl). cbn [fst snd] in *.
  assert (read_exclusive mem cfg classes key (res, buf) = on_entry (ignore (move_cache_page_to_tail mem cfg))) as -> by by destruct res.
  unfold on_entry, ignore, result, mbind, SE_bind. cbn [fst snd]. destruct (move_cache_page_to_tail mem cfg e1) as [[r e2]|]; [|done].
  cbn. destruct (put_entry e2 _); [|done]. intros _. by eexists.
Qed.

(** ** Writing to the root leaf *)
Section record.
Context (value : bytes) (op : OpType).
Hypothesis Hok : entry_ok (mkEntry key op value).
Hypothesis Hlim : limits cfg key value.
Hypothesis Hdirty : is_dirty op = true.
Hypothesis Hroot : par = None.

(** The base page has room for the record and for two fences. *)
Hypothesis Hfits : zlen key + zlen value + KV_META_SIZE + max_fence_len cfg <= remaining_size (meta (vfs_read mem (storage t) (lf_offset lf))).

Lemma insert_root_calm X race : wp X (entry_insert mem cfg classes key value op race) (λ r _, r = inr tt) e0.
Proof.
  pose proof Hal as [_ _ _ _ _ _ _ Hget _ _ Hr]. destruct (Hget par) as [_ (bn & p & He & Hp)]. destruct (Hr Hroot) as (_ & _ & Hptr).
  assert (∃ o, loc = Base o) as [o Hl] by (clear -Hp Hptr; cbn in Hp; destruct loc as [| |o|]; try done; by exists o).
  pose proof He as [HI Ho (Hb & Hn)]. cbn [tmp_buffer store] in Hn. pose proof (bi_ok _ _ _ _ _ Hb) as Hbok. pose proof Hbok as (HR & _).
  pose proof (su_fence _ _ _ _ Hsetup). pose proof (zlen_nonneg key). pose proof (zlen_nonneg value).
  unfold entry_insert. rewrite (su_disk_mode _ _ _ _ Hsetup). wp_step. cbn [location]. rewrite Hl. cbn [parent_node]. rewrite Hroot. unfold insert_root_base.
  apply wp_bind. eapply load_base_mut_spec; [rewrite <- Hl, <- Hroot; exact He|..].
  { cbn [store location]. rewrite Hl in Hp. destruct Hp as [-> _]. done. }
  assert (in_range (p_fences p) key) as Hkey by (apply (base_ok_range _ _ _ _ _ _ Hbok); by apply (key_in_leaf mem cfg front mini _ _ _ _ _ _ _ _ _ _ _ _ _ _ Hal)).
  destruct (insert_fits bn p key value op (max_fence_len cfg) HR) as (n' & Hins & _); try done.
  - intros ->. done.
  - right. rewrite <- Hn in Hfits. destruct (key_bounds bn p HR key value op Hkey Hok) as (Hpl & _). unfold kv_size, KV_META_SIZE in *.
    assert (0 <= fence_bytes p) as Hfb.
    { unfold fence_bytes. destruct (p_fences p) as [[l h]|]; [|done]. pose proof (zlen_nonneg (fence_key l)). pose proof (zlen_nonneg (fence_key h)). lia. }
    lia.
  - apply wp_bind. eapply wp_lift; [exact Hins|]. cbn [fst snd]. by unfold put_base_page; wp_step.
Qed.

Lemma write_leaf_calm X : ready t → wp X (write_leaf mem cfg classes key value op) (λ r st, r = inr tt ∧ around cfg t st.2) (e0, t).
Proof.
  intros Hready. pose proof Hal as [Ht _ _ _ _ _ _ Hget _ _ Hr]. destruct (Hget par) as [_ He]. destruct (Hr Hroot) as (_ & _ & Hptr).
  assert (∃ o, loc = Base o) as [o Hl].
  { destruct He as (? & ? & _ & Hp). clear -Hp Hptr. cbn in Hp. destruct loc as [| |o|]; try done. by exists o. }
  unfold write_leaf. wp_step. cbn [fst location]. rewrite Hl at 1. apply wp_bind, draw_race_calm; [done|].
  apply wp_bind, wp_on_entry. eapply wp_mono; [apply wp_and; [apply (insert_root_calm X)|]|].
  - eapply (insert_at_leaf mem limit cfg front mini Hsetup _ _ _ _ _ _ _ _ _ _ _ _ _ _ Hal Hready value op Hok Hlim X e0); try done;
      [by left|by apply (ready_growable mem limit cfg front mini Hsetup)|by unfold copy_ok; rewrite Hdirty|by left].
  - intros r e1 [-> [(He1 & Hk & Hmov) Hp1]].
    assert (settled mem cfg front mini t loc par (leaf_update lf key (visible (Some (mkEntry key op value)))) e1) as Hs by done.
    apply wp_bind, wp_on_entry. eapply wp_mono; [by apply (keep_cached_spec mem cfg front mini Hsetup _ _ _ X _ e1 Hs), Hmov|]. intros r e2 [-> Hs2].
    eapply wp_mono; [eapply (log_write_spec mem limit cfg front mini Hsetup t key loc par Hready value op Hlim X _ e2 _ Hs2)|by intros r st (-> & _ & ?)].
    destruct Ht as [_ _ _ _ _ Hlog]. by split_and!.
Qed.
End record.
End locked.

(** The leaf of a tree of one leaf has no mini page, so that there is nothing to merge. *)
Lemma read_base_location key out off e r e' : read_base mem key out off e = Ret (r, e') → location e' = location e.
Proof.
  unfold read_base, load_base_page, mbind, SE_bind, lift. destruct (tmp_buffer e);
    destruct (read_by_key _ _ _); cbn; try done; by intros [= _ <-].
Qed.

Lemma single_ready exc t ls lv m : tree_at exc t ls lv m → length lv = 1%nat → room limit cfg 1 t → ready t.
Proof.
  intros Ht Hone Hroom. pose proof (ta_single _ _ _ _ _ _ _ _ _ Ht Hone) as Hno. split; [done|].
  intros lf loc par tb e (_ & p & _ & Hp) Hcons ptr n q bn p' Hl _ _. exfalso.
  assert (∃ o, loc = Base o) as [o ->].
  { destruct loc as [ptr'|ptr'|o|]; cbn in Hp; [destruct Hp as (? & ? & [_ Hown] & _); by destruct (Hno ptr')..|by exists o|done]. }
  destruct Hcons as [->|(key & out & bin & r & Hrun)]; [done|]. unfold entry_read, mbind, SE_bind, get in Hrun. cbn [location] in Hrun.
  destruct (read_base _ _ _ _ _) as [[[err|v] e']|] eqn:Hb; [..|done]; injection Hrun as _ <-; by rewrite (read_base_location _ _ _ _ _ _ Hb) in Hl.
Qed.

(** An insertion into a tree of one leaf, whose page has room for the record. *)
Lemma write_inner_calm X exc t lf m key value op :
  tree_at exc t [lf] [[([], from_id 0)]] m → ready t → contention t = [] → entry_ok (mkEntry key op value) → limits cfg key value →
  is_dirty op = true →
  zlen key + zlen value + KV_META_SIZE + max_fence_len cfg <= remaining_size (meta (vfs_read mem (storage t) (lf_offset lf))) →
  wp X (write_inner mem hp cfg classes key value op false) (λ r t', r = inr tt ∧ represents exc t' (written m key value op r) ∧ spends cfg t t' ∧
    root_page_id t' = root_page_id t) t.
Proof.
  intros Ht Hready Hc Hok Hlim Hd Hroom. unfold write_inner. apply wp_bind.
  eapply wp_mono; [by apply (descent_calm X exc t [lf] [[([], from_id 0)]] m key false)|].
  intros r t' (-> & parent & high & L1 & x & L2 & -> & Hcur). destruct (lock_leaf mem cfg front mini _ _ _ _ _ _ _ _ _ _ Ht Hcur) as (i & lf' & loc & par & Hal).
  pose proof Hal as [_ _ [Hpid Hi] Hlf _ _ _ Hget Hpar Hnode _]. destruct (Hget par) as [Hg _].
  assert (lf' = lf) as -> by (destruct i as [|[|]]; [by injection Hlf|done..]).
  assert (par = None) as Hroot by (destruct par as [n|]; [destruct (Hnode n eq_refl) as (? & ? & ? & _ & _ & _ & Hl); cbn in Hl; lia|done]).
  eapply wp_locked; [rewrite Hpid; apply as_id_from_id; lia|exact Hpar|exact Hg|].
  apply wp_bind, wp_on_tree, check_parent_calm; [done|by eapply cursor_top|].
  eapply wp_mono; [apply wp_and|].
  - by eapply (write_leaf_spec mem limit cfg front mini Hsetup _ _ _ _ _ _ _ _ _ _ _ _ _ _ Hal); try done; destruct Ht as [_ _ _ _ _ Hlog]; split_and!.
  - by apply (write_leaf_calm _ _ _ _ _ _ _ _ _ _ _ _ _ _ Hal).
  - intros r st [(s & Hput & Hrep & Hsp) [-> (Hr & _)]]. exists s. do 4 (split; [done|]).
    destruct (proj2 (al_root _ _ _ _ _ _ _ _ _ _ _ _ _ _ _ _ _ _ Hal Hroot)) as [-> _]. exact Hr.
Qed.

Lemma read_inner_calm X exc t m key out0 dice :
  represents exc t m → contention t = [] → buffer_fits (m key) out0 → read_promotion_rate cfg <= dice →
  wp X (read_inner mem hp cfg classes key out0 false dice) (λ r t', represents exc t' m ∧ spends cfg t t' ∧
    ∃ res buf, r = inr (res, buf) ∧ answers (m key) out0 res buf) t.
Proof.
  intros Hrep Hc Hbuf Hdice. pose proof Hrep as (ls & lv & Ht). eapply wp_mono; [apply wp_and|].
  - apply (read_inner_spec mem hp limit cfg front mini Hsetup Hheap X exc t m key out0 false dice); [done..|lia|done].
  - unfold read_inner. apply wp_bind. eapply wp_mono; [by apply (descent_calm X exc t ls lv m key false)|].
    intros r t' (-> & parent & high & L1 & x & L2 & -> & Hcur). destruct (lock_leaf mem cfg front mini _ _ _ _ _ _ _ _ _ _ Ht Hcur) as (i & lf & loc & par & Hal).
    by eapply (read_leaf_calm _ _ _ _ _ _ _ _ _ _ _ _ _ _ Hal).
  - intros r t' [(H1 & H2 & H3) [[res buf] ->]]. split; [done|]. split; [done|]. by eexists _, _.
Qed.
End calm.
