(* ===== verification/TreeTheorems.v ===== *)
(** The tree as its clients see it (src/tree.rs): a new tree serves insertions, deletions and reads as a map
    from keys to values does, whatever the other threads do to its locks. *)
From stdpp Require Import base numbers list sorting option gmap.
From Stdlib Require Import ZArith Lia.
From S2P Require Import Prelude Bits NodeMeta PageLayout InnerNode InnerRepr InnerSearch InnerInsert InnerSplit InnerTheorems LeafMeta LeafNode LeafOps Entries LeafRepr LeafInsert LeafSplit SizeClasses MergeSplit Config CircularBuffer CircularSystem CircularTheorems MappingTable Wal StateError Storage StorageInstances LeafEntry EntryInv EntryLeaf EntryInsert EntryMove EntryMerge TreeLeaves EntryRoot Tree TreeShape TreeInv TreeSplit TreeDescent TreeWrite TreeRead TreeEvict TreeLoops WalInstance TreeMerges TreeInit TreeCalm.

(** ** Clients *)
Inductive request :=
| RInsert (key value : bytes)
| RDelete (key : bytes)
| RRead (key out_buffer : bytes) (dice : list Z).

Inductive response :=
| AInsert (r : progress LeafInsertResult)
| ADelete (r : progress unit)
| ARead (r : progress (LeafReadResult * bytes)).

(** A call with what the other threads do to the locks meanwhile, and how long it may keep trying. *)
Record call := mkCall { c_request : request; c_contention : list bool; c_fuel : nat }.

Section client.
Context {B T W F : Type} {RB : RecordBound} `{HPB : PageBuffer B} `{HBL : !PageBufferLaws B} `{HPM : PageMap T} `{HML : !PageMapLaws T}
  `{HWL : WriteLog W} `{HLL : !WriteLogLaws W}.
Context (mem : memory) (hp : heap) (limit : nat) (cfg : @Config F).
Abbreviation tree := (BfTree B T W).
Implicit Types (t : tree) (m : bytes → option bytes).

Definition answered {A} (p : SE TreeError tree A) (f : A → response) t : outcome (response * tree) :=
  r ← p t;
  match r with (inr a, t') => Ret (f a, t') | (inl _, _) => Panic end.

Definition perform (classes : list Z) (c : call) t : outcome (response * tree) :=
  let t0 := set_contention t (c_contention c) in
  match c_request c with
  | RInsert key value => answered (tree_insert mem hp cfg classes key value (c_fuel c)) AInsert t0
  | RDelete key => answered (tree_delete mem hp cfg classes key (c_fuel c)) ADelete t0
  | RRead key out_buffer dice => answered (tree_read mem hp cfg classes key out_buffer dice (c_fuel c)) ARead t0
  end.

Fixpoint perform_all (classes : list Z) (cs : list call) t : outcome (list response * tree) :=
  match cs with
  | [] => Ret ([], t)
  | c :: cs' => r ← perform classes c t; rs ← perform_all classes cs' r.2; Ret (r.1 :: rs.1, rs.2)
  end.

(** What a map answers, and the map afterwards; a call that still waits has done nothing. *)
Definition map_answer m (q : request) (a : response) (m' : bytes → option bytes) : Prop :=
  match q, a with
  | RInsert key value, AInsert (Done r) =>
      if invalid_kv cfg key value then r = InvalidKV ∧ m' = m else r = Success ∧ m' = view_insert m key (Some value)
  | RDelete key, ADelete (Done _) =>
      if key_too_large cfg key || (zlen key =? 0) then m' = m else m' = view_insert m key None
  | RRead key out _, ARead (Done (r, buf)) =>
      m' = m ∧ if key_too_large cfg key || (zlen key =? 0) then r = InvalidKey ∧ buf = out else answers (m key) out r buf
  | RInsert _ _, AInsert Waiting | RDelete _, ADelete Waiting | RRead _ _ _, ARead Waiting => m' = m
  | _, _ => False
  end.

Fixpoint map_answers m (cs : list call) (rs : list response) (m' : bytes → option bytes) : Prop :=
  match cs, rs with
  | [], [] => m' = m
  | c :: cs', r :: rs' => ∃ m1, map_answer m (c_request c) r m1 ∧ map_answers m1 cs' rs' m'
  | _, _ => False
  end.

(** A call with a key or a value that the tree refuses is always allowed.  One that it accepts has a key of the workload,
    a record within the bound and, as [debug_assert!] of [LeafNode::insert] wants it, a value that is not empty; the
    buffer of a read takes every value. *)
Definition call_ok (c : call) : Prop :=
  match c_request c with
  | RInsert key value => invalid_kv cfg key value = false →
      bytes_ok key ∧ client_key key ∧ bytes_ok value ∧ value ≠ [] ∧ zlen key + zlen value <= record_bound
  | RDelete key => key_too_large cfg key || (zlen key =? 0) = false → bytes_ok key ∧ client_key key ∧ zlen key <= record_bound
  | RRead key out_buffer _ => record_bound <= zlen out_buffer
  end.

Definition calls_work (cs : list call) : nat := foldr (λ c n, work (c_fuel c) + n)%nat O cs.

Definition short_values m : Prop := ∀ k v, m k = Some v → zlen v <= record_bound.

(** ** One call *)
Context (front : list Z) (mini : Z).
Hypothesis Hsetup : Setup mem cfg front mini.
Hypothesis Hheap : heap_ok hp limit.
Hypothesis Hmerge : merge_always cfg front mini.
Hypothesis Hcached : read_record_cache cfg = true.
Hypothesis Hkeys : max_fence_len cfg / 2 <= cb_max_record_size cfg.
Abbreviation classes := (front ++ [mini; leaf_page_size cfg]).
Abbreviation represents := (represents mem cfg front mini []).

Lemma represents_contention t m l : represents t m → represents (set_contention t l) m.
Proof. intros (ls & lv & Ht). exists ls, lv. by apply (tree_contention mem cfg front mini). Qed.

Lemma answered_spec {A} (p : SE TreeError tree A) f t (Q : response → tree → Prop) :
  wp False p (λ r t', ∃ a, r = inr a ∧ Q (f a) t') t → ∃ a t', answered p f t = Ret (a, t') ∧ Q a t'.
Proof.
  unfold wp, answered. destruct (p t) as [[r t']|]; [|done]. intros (a & -> & HQ). ret_step. by exists (f a), t'.
Qed.

Lemma valid_key key : key_too_large cfg key || (zlen key =? 0) = false → zlen key <= max_fence_len cfg / 2 ∧ zlen key <= MAX_KEY_LEN ∧ key ≠ [].
Proof.
  unfold key_too_large. intros [[H1%Z.ltb_ge H2%Z.ltb_ge]%orb_false_iff H3%Z.eqb_neq]%orb_false_iff. split; [done|]. split; [done|]. by intros ->.
Qed.

Lemma insert_valid key value :
  invalid_kv cfg key value = false → bytes_ok key → client_key key → bytes_ok value → value ≠ [] → zlen key + zlen value <= record_bound →
  entry_ok (mkEntry key OpInsert value) ∧ limits cfg key value.
Proof.
  unfold invalid_kv. intros [[Hk [H1%Z.ltb_ge H2%Z.ltb_ge]%orb_false_iff]%orb_false_iff _]%orb_false_iff Hb1 Hck Hb2 Hv Hr.
  destruct (valid_key key Hk) as (H3 & H4 & H5). pose proof (zlen_nonneg key). unfold MAX_KEY_LEN, MAX_VALUE_LEN in *.
  split; [split_and!; cbn; try done; [lia|lia|]|].
  - destruct value; [done|]. rewrite zlen_cons. pose proof (zlen_nonneg value). apply negb_true_iff, Z.eqb_neq. lia.
  - pose proof (Z.mul_div_le (max_fence_len cfg) 2 ltac:(lia)). split; [by split|]. split; [lia|]. by split.
Qed.

(** What a call leaves behind: the answer of the map, and room for [n] more steps. *)
Definition call_served (n : nat) m (q : request) (r : response) t' : Prop :=
  ∃ m', map_answer m q r m' ∧ represents t' m' ∧ short_values m' ∧ room limit cfg n t'.

Lemma short_insert m key v : short_values m → (∀ x, v = Some x → zlen x <= record_bound) → short_values (view_insert m key v).
Proof. intros Hm Hv k x. unfold view_insert. case_bool_decide; [apply Hv|apply Hm]. Qed.

Lemma insert_served X n t m key value fuel :
  call_ok (mkCall (RInsert key value) (contention t) fuel) → represents t m → short_values m → room limit cfg (work fuel + n) t →
  wp X (tree_insert mem hp cfg classes key value fuel) (λ r t', ∃ a, r = inr a ∧ call_served n m (RInsert key value) (AInsert a) t') t.
Proof.
  intros Hcall Hrep Hsv Hroom. unfold tree_insert. destruct (invalid_kv cfg key value) eqn:Hinv.
  { wp_step. eexists. split; [done|]. exists m. cbn. rewrite Hinv. split_and!; try done. eapply (room_more mem limit cfg front mini Hsetup); [|exact Hroom]. lia. }
  destruct (Hcall Hinv) as (Hb1 & Hck & Hb2 & Hv & Hr). destruct (insert_valid key value Hinv) as [Hok Hlim]; [done..|].
  eapply wp_mono; [eapply (insert_loop_spec mem hp limit cfg front mini Hsetup Hheap Hmerge X m key value fuel); try done;
    eapply (room_more mem limit cfg front mini Hsetup); [|exact Hroom]; lia|].
  intros r t' [Hc Hr']. destruct r as [|[a|]]; [done|destruct Hr' as [-> Hrep']|]; eexists; (split; [done|]); eexists; cbn; rewrite ?Hinv.
  - split; [done|]. split; [done|]. split; [|by apply Hc]. apply short_insert; [done|]. intros x [= <-]. pose proof (zlen_nonneg key). lia.
  - split; [done|]. split; [done|]. split; [done|by apply Hc].
Qed.

Lemma delete_served X n t m key fuel :
  call_ok (mkCall (RDelete key) (contention t) fuel) → represents t m → short_values m → room limit cfg (work fuel + n) t →
  wp X (tree_delete mem hp cfg classes key fuel) (λ r t', ∃ a, r = inr a ∧ call_served n m (RDelete key) (ADelete a) t') t.
Proof.
  intros Hcall Hrep Hsv Hroom. unfold tree_delete. destruct (key_too_large cfg key || (zlen key =? 0)) eqn:Hinv.
  { wp_step. eexists. split; [done|]. exists m. cbn. rewrite Hinv. split_and!; try done. eapply (room_more mem limit cfg front mini Hsetup); [|exact Hroom]. lia. }
  destruct (Hcall Hinv) as (Hb & Hck & Hr). destruct (valid_key key Hinv) as (H3 & H4 & H5).
  pose proof (Z.mul_div_le (max_fence_len cfg) 2 ltac:(lia)). unfold MAX_KEY_LEN in *.
  assert (entry_ok (mkEntry key OpDelete [])) as Hok by (split_and!; cbn; try done; [lia|constructor]).
  assert (limits cfg key []) as Hlim by (split; [by split|]; split; [lia|]; change (zlen []) with 0; lia).
  eapply wp_mono; [eapply (delete_loop_spec mem hp limit cfg front mini Hsetup Hheap Hmerge X m key fuel); try done;
    eapply (room_more mem limit cfg front mini Hsetup); [|exact Hroom]; lia|].
  intros r t' [Hc Hr']. destruct r as [|[a|]]; [done| |]; eexists; (split; [done|]); eexists; cbn; rewrite ?Hinv.
  - split; [done|]. split; [done|]. split; [|by apply Hc]. by apply short_insert.
  - split; [done|]. split; [done|]. split; [done|by apply Hc].
Qed.

Lemma read_served X n t m key out dice fuel :
  record_bound <= zlen out → represents t m → short_values m → room limit cfg (work fuel + n) t →
  wp X (tree_read mem hp cfg classes key out dice fuel) (λ r t', ∃ a, r = inr a ∧ call_served n m (RRead key out dice) (ARead a) t') t.
Proof.
  intros Hout Hrep Hsv Hroom. unfold tree_read. destruct (key_too_large cfg key || (zlen key =? 0)) eqn:Hinv.
  { wp_step. eexists. split; [done|]. exists m. cbn. rewrite Hinv. split_and!; try done. eapply (room_more mem limit cfg front mini Hsetup); [|exact Hroom]. lia. }
  assert (buffer_fits (m key) out) as Hbuf by (unfold buffer_fits; destruct (m key) as [v|] eqn:Hk; [specialize (Hsv _ _ Hk); lia|done]).
  eapply wp_mono; [eapply (read_loop_spec mem hp limit cfg front mini Hsetup Hheap Hmerge X m key out fuel); try done;
    eapply (room_more mem limit cfg front mini Hsetup); [|exact Hroom]; lia|].
  intros r t' [Hc Hr']. destruct r as [|[[res buf]|]]; [done|destruct Hr' as [Hrep' Hans]|]; eexists; (split; [done|]); exists m; cbn; rewrite ?Hinv.
  - split; [done|]. split; [done|]. split; [done|by apply Hc].
  - split; [done|]. split; [done|]. split; [done|by apply Hc].
Qed.

Lemma perform_spec c t m n :
  call_ok c → represents t m → short_values m → room limit cfg (work (c_fuel c) + n) t →
  ∃ r t', perform classes c t = Ret (r, t') ∧ call_served n m (c_request c) r t'.
Proof.
  intros Hok Hrep%(represents_contention _ _ (c_contention c)) Hsv Hroom. unfold perform, call_ok in *. destruct (c_request c) as [key value|key|key out dice].
  - apply answered_spec. by apply insert_served.
  - apply answered_spec. by apply delete_served.
  - apply answered_spec. by apply read_served.
Qed.

Lemma perform_all_spec cs : ∀ t m,
  Forall call_ok cs → represents t m → short_values m → room limit cfg (calls_work cs) t →
  ∃ rs t' m', perform_all classes cs t = Ret (rs, t') ∧ map_answers m cs rs m' ∧ represents t' m'.
Proof.
  induction cs as [|c cs IH]; intros t m Hok Hrep Hsv Hroom; [by exists [], t, m|]. apply Forall_cons_1 in Hok as [Hc Hcs].
  destruct (perform_spec c t m (calls_work cs) Hc Hrep Hsv Hroom) as (r & t1 & Hrun & m1 & Ha & Hrep1 & Hsv1 & Hroom1).
  destruct (IH t1 m1 Hcs Hrep1 Hsv1 Hroom1) as (rs & t2 & m2 & Hruns & Has & Hrep2).
  cbn [perform_all]. rewrite Hrun. ret_step. cbn [fst snd]. rewrite Hruns. ret_step. exists (r :: rs), t2, m2. cbn. split; [done|]. split; [|done].
  by exists m1.
Qed.
End client.

(** ** A tree of a checked configuration *)
Section deployment.
Context {B T W F : Type} {RB : RecordBound} `{HPB : PageBuffer B} `{HBL : !PageBufferLaws B} `{HPM : PageMap T} `{HML : !PageMapLaws T}
  `{HWL : WriteLog W} `{HLL : !WriteLogLaws W}.
Context (mem : memory) (hp : heap) (limit : nat) (cfg : @Config F) (classes : list Z).
Abbreviation tree := (BfTree B T W).
Abbreviation mini := (max_mini_of (cb_max_record_size cfg) (leaf_page_size cfg) (max_fence_len cfg) (cache_only cfg)).
Implicit Types (t : tree) (m : bytes → option bytes).

(** A configuration that is accepted, on disk, without a snapshot manager and with the record cache.  The last three
    conditions are those that [Config::validate] leaves to the assertions of the size classes and of the pages. *)
Record usable : Prop := {
  us_unsigned : sizes_unsigned cfg;
  us_valid : validate cfg = Ret None;
  us_disk : cache_only cfg = false;
  us_plain : use_snapshot cfg = false;
  us_cached : read_record_cache cfg = true;
  us_key : max_fence_len cfg / 2 < cb_max_record_size cfg;
  us_fence : max_fence_len cfg <= 2 * MAX_KEY_LEN;
  us_record : cb_max_record_size cfg + KV_META_SIZE + LEAF_HEADER ≠ mini;
}.

(** Memory is of the size that was asked for. *)
Record memory_ok : Prop := {
  mo_block : ∀ p s, LEAF_HEADER <= s → zlen (leaf_data (fresh_block mem p s)) = s - LEAF_HEADER ∧ bytes_ok (leaf_data (fresh_block mem p s));
  mo_page : zlen (fresh_page mem (leaf_page_size cfg)) = leaf_page_size cfg - LEAF_HEADER ∧ bytes_ok (fresh_page mem (leaf_page_size cfg));
}.

(** A storage without leaves, whose buffer serves the size classes. *)
Record fresh_storage (s : LeafStorage B T) : Prop := {
  fs_buffer : buf_inv (circular_buffer s);
  fs_serves : Forall (buf_serves (circular_buffer s)) classes;
  fs_offset : 0 <= next_available_offset s;
  fs_table : map_list (page_table s) [];
  fs_unused : ∀ p, buf_owner (circular_buffer s) p ≠ Some Live;
}.

Definition log_serves_all (w : option W) : Prop := ∀ w', w = Some w' → log_inv w' ∧ ∀ k v, limits cfg k v → log_serves w' k v.

Hypothesis Hus : usable.
Hypothesis Hmem : memory_ok.
Hypothesis Hclasses : create_mem_page_size_classes (cb_min_record_size cfg) (cb_max_record_size cfg) (leaf_page_size cfg) (max_fence_len cfg) (cache_only cfg) = Ret classes.

Lemma usable_setup : ∃ front, classes = front ++ [mini; leaf_page_size cfg] ∧ Setup mem cfg front mini.
Proof.
  destruct Hus as [H1 H2 H3 _ _ H4 H5 H6], Hmem as [H7 H8].
  destruct (valid_setup mem cfg H1 H2 H3 H4 H5 H6 H7 H8) as (front & Hc & Hs). rewrite Hc in Hclasses. injection Hclasses as <-. by exists front.
Qed.

Lemma new_tree front s w n :
  classes = front ++ [mini; leaf_page_size cfg] → Setup mem cfg front mini →
  fresh_storage s → log_serves_all w → budget cfg (S n) s → (2 * n <= limit)%nat →
  ∃ t lf, with_config mem cfg s w = Ret (inr t) ∧ tree_at mem cfg front mini [] t [lf] [[([], from_id 0)]] empty_map ∧ room limit cfg n t ∧ contention t = [] ∧
    remaining_size (meta (vfs_read mem (storage t) (lf_offset lf))) = leaf_page_size cfg - LEAF_HEADER - 2 * KV_META_SIZE.
Proof.
  intros Hcl Hsetup [H1 H2 H3 H4 H5] Hlog Hbud Hlim.
  destruct (with_config_spec mem cfg front mini Hsetup s w INVALID_SNAPSHOT_VERSION) as (t & lf & sib & sp & Hrun & Ht & Hcost & Hn & Hc & _ & _ & Hread & _ & _ & Hrem & _); try done.
  - apply Hus.
  - unfold root_version. by rewrite (us_plain Hus).
  - split; [done| |done]. by rewrite <- Hcl.
  - by eapply (budget_growable mem cfg front mini Hsetup).
  - exists t, lf. split; [done|]. split; [done|]. split; [|by rewrite Hread]. split; [by apply Hcost|]. rewrite Hn, map_size_empty. lia.
Qed.
End deployment.

(** C1: a tree of a usable configuration (validated, on disk, with the record cache; the default is one) serves a
    sequence of insertions, deletions and reads as the empty map does: no call panics, whatever the other threads do
    to the locks it takes, every call that is done has the answer of the map, and a call that still waits has changed
    nothing.  The workload keeps merges possible ([merges_fit]: distinct keys share a short enough prefix for the size
    of the records), inserts no empty value and reads into buffers that take every value ([call_ok]); the file, the
    page numbers and the heap last for the steps of the calls. *)
Theorem tree_refines_map {B T W F : Type} {RB : RecordBound} `{HPB : PageBuffer B} `{HBL : !PageBufferLaws B} `{HPM : PageMap T} `{HML : !PageMapLaws T}
    `{HWL : WriteLog W} `{HLL : !WriteLogLaws W} (mem : memory) (hp : heap) (limit : nat) (cfg : @Config F) (classes : list Z) (s : LeafStorage B T) (w : option W)
    (shared shortest : Z) (cs : list call) :
  usable cfg → merges_fit cfg (max_mini_of (cb_max_record_size cfg) (leaf_page_size cfg) (max_fence_len cfg) (cache_only cfg)) shared shortest →
  memory_ok mem cfg → heap_ok hp limit →
  create_mem_page_size_classes (cb_min_record_size cfg) (cb_max_record_size cfg) (leaf_page_size cfg) (max_fence_len cfg) (cache_only cfg) = Ret classes →
  fresh_storage classes s → log_serves_all cfg w → Forall (call_ok cfg) cs → budget cfg (S (calls_work cs)) s → (2 * calls_work cs <= limit)%nat →
  ∃ t rs t' m', with_config mem cfg s w = Ret (inr t) ∧ perform_all mem hp cfg classes cs t = Ret (rs, t') ∧ map_answers cfg empty_map cs rs m'.
Proof.
  intros Hus Hm Hmem Hheap Hclasses Hfresh Hlog Hcs Hbud Hlim. destruct (usable_setup mem cfg classes Hus Hmem Hclasses) as (front & Hcl & Hsetup).
  destruct (new_tree mem limit cfg classes Hus front s w _ Hcl Hsetup Hfresh Hlog Hbud Hlim) as (t & lf & Hnew & Ht & Hroom & _).
  pose proof Hus as [_ _ _ _ Hcached Hk _ _].
  destruct (perform_all_spec mem hp limit cfg front _ Hsetup Hheap (small_records_merge mem cfg front _ Hsetup _ _ Hm) Hcached ltac:(lia) cs t empty_map Hcs) as (rs & t' & m' & Hrun & Ha & _).
  - by eexists _, _.
  - done.
  - done.
  - exists t, rs, t', m'. rewrite Hcl. done.
Qed.

(** An undisturbed read that does not cache what it finds, in the form of a result. *)
Lemma read_at_once {B T W F : Type} {RB : RecordBound} `{HPB : PageBuffer B} `{HBL : !PageBufferLaws B} `{HPM : PageMap T} `{HML : !PageMapLaws T}
    `{HWL : WriteLog W} `{HLL : !WriteLogLaws W} mem hp limit (cfg : @Config F) front mini (t : BfTree B T W) m key out d dice fuel :
  Setup mem cfg front mini → heap_ok hp limit → represents mem cfg front mini [] t m → contention t = [] →
  key_too_large cfg key || (zlen key =? 0) = false → buffer_fits (m key) out → read_promotion_rate cfg <= d →
  ∃ r buf t', tree_read mem hp cfg (front ++ [mini; leaf_page_size cfg]) key out (d :: dice) (S fuel) t = Ret (inr (Done (r, buf)), t') ∧
    answers (m key) out r buf ∧ represents mem cfg front mini [] t' m ∧ spends cfg t t'.
Proof.
  intros Hsetup Hheap Hrep Hcalm Hkey Hbuf Hd. unfold tree_read. rewrite Hkey. cbn [read_loop head default].
  pose proof (read_inner_calm mem hp limit cfg front mini Hsetup Hheap False [] t m key out d Hrep Hcalm Hbuf Hd) as Hwp.
  unfold wp in Hwp. unfold mbind, SE_bind, result. change (default 0 (Some d)) with d.
  destruct (read_inner _ _ _ _ _ _ _ _ _) as [[r t']|]; [|done].
  destruct Hwp as (H1 & H2 & res & buf & -> & Hans). by exists res, buf, t'.
Qed.

(** C3: in any state of a tree on disk, a read of a valid key that no other thread disturbs, that draws no promotion and
    whose buffer takes the value, is done at its first attempt, with the answer of the map, which the tree still
    represents. *)
Theorem undisturbed_read {B T W F : Type} {RB : RecordBound} `{HPB : PageBuffer B} `{HBL : !PageBufferLaws B} `{HPM : PageMap T} `{HML : !PageMapLaws T}
    `{HWL : WriteLog W} `{HLL : !WriteLogLaws W} (mem : memory) (hp : heap) (limit : nat) (cfg : @Config F) (front : list Z) (mini : Z)
    (t : BfTree B T W) m key out d dice fuel :
  Setup mem cfg front mini → heap_ok hp limit → represents mem cfg front mini [] t m → contention t = [] →
  key_too_large cfg key || (zlen key =? 0) = false → buffer_fits (m key) out → read_promotion_rate cfg <= d →
  ∃ r buf t', tree_read mem hp cfg (front ++ [mini; leaf_page_size cfg]) key out (d :: dice) (S fuel) t = Ret (inr (Done (r, buf)), t') ∧
    answers (m key) out r buf ∧ represents mem cfg front mini [] t' m.
Proof.
  intros Hsetup Hheap Hrep Hcalm Hkey Hbuf Hd.
  destruct (read_at_once mem hp limit cfg front mini t m key out d dice fuel) as (r & buf & t' & Hrun & Ha & Hrep' & _); try done.
  by exists r, buf, t'.
Qed.

(** An undisturbed insertion into a root leaf with room, in the form of a result. *)
Lemma insert_at_once {B T W F : Type} {RB : RecordBound} `{HPB : PageBuffer B} `{HBL : !PageBufferLaws B} `{HPM : PageMap T} `{HML : !PageMapLaws T}
    `{HWL : WriteLog W} `{HLL : !WriteLogLaws W} mem hp limit (cfg : @Config F) front mini (t : BfTree B T W) lf m key value fuel :
  Setup mem cfg front mini → heap_ok hp limit → tree_at mem cfg front mini [] t [lf] [[([], from_id 0)]] m → room limit cfg 1 t → contention t = [] →
  invalid_kv cfg key value = false → entry_ok (mkEntry key OpInsert value) → limits cfg key value →
  zlen key + zlen value + KV_META_SIZE + max_fence_len cfg <= remaining_size (meta (vfs_read mem (storage t) (lf_offset lf))) →
  ∃ t', tree_insert mem hp cfg (front ++ [mini; leaf_page_size cfg]) key value (S fuel) t = Ret (inr (Done Success), t') ∧
    represents mem cfg front mini [] t' (view_insert m key (Some value)) ∧ spends cfg t t' ∧ root_page_id t' = root_page_id t.
Proof.
  intros Hsetup Hheap Ht Hroom Hcalm Hinv Hok Hlims Hfit. unfold tree_insert. rewrite Hinv. cbn [insert_loop].
  pose proof (write_inner_calm mem hp limit cfg front mini Hsetup Hheap False [] t lf m key value OpInsert Ht (single_ready mem limit cfg front mini [] t _ _ m Ht eq_refl Hroom)
    Hcalm Hok Hlims eq_refl Hfit) as Hwp.
  unfold wp in Hwp. unfold mbind, SE_bind, result. destruct (write_inner _ _ _ _ _ _ _ _ _) as [[r t']|]; [|done].
  destruct Hwp as (-> & H1 & H2 & H3). by exists t'.
Qed.

(** Every record that the configuration accepts. *)
Definition any_record {F} (cfg : @Config F) : RecordBound := {| record_bound := cb_max_record_size cfg; client_key _ := True |}.

(** C2: what is inserted into a new tree of a usable configuration is read back: undisturbed, the insertion of a valid
    key and a value that is not empty is done at its first attempt, and so is the read, which returns the value when its
    buffer takes it and no promotion is drawn. *)
Theorem fresh_insert_read {B T W F : Type} `{HPB : PageBuffer B} `{HBL : !PageBufferLaws B} `{HPM : PageMap T} `{HML : !PageMapLaws T}
    `{HWL : WriteLog W} `{HLL : !WriteLogLaws W} (mem : memory) (hp : heap) (limit : nat) (cfg : @Config F) (classes : list Z) (s : LeafStorage B T) (w : option W)
    key value out d fuel :
  usable cfg → memory_ok mem cfg → heap_ok hp limit →
  create_mem_page_size_classes (cb_min_record_size cfg) (cb_max_record_size cfg) (leaf_page_size cfg) (max_fence_len cfg) (cache_only cfg) = Ret classes →
  fresh_storage classes s → log_serves_all (RB := any_record cfg) cfg w → budget cfg 2 s → (2 <= limit)%nat →
  invalid_kv cfg key value = false → bytes_ok key → bytes_ok value → value ≠ [] → zlen value <= zlen out → read_promotion_rate cfg <= d →
  ∃ t t', with_config mem cfg s w = Ret (inr t) ∧
    perform_all mem hp cfg classes [mkCall (RInsert key value) [] (S fuel); mkCall (RRead key out [d]) [] (S fuel)] t =
      Ret ([AInsert (Done Success); ARead (Done (Found (zlen value), value ++ drop (length value) out))], t').
Proof.
  intros Hus Hmem Hheap Hclasses Hfresh Hlog Hbud Hlim Hinv Hb1 Hb2 Hv Hout Hd. destruct (usable_setup mem cfg classes Hus Hmem Hclasses) as (front & Hcl & Hsetup).
  destruct (new_tree (RB := any_record cfg) mem limit cfg classes Hus front s w 1 Hcl Hsetup Hfresh Hlog Hbud ltac:(lia)) as (t & lf & Hnew & Ht & Hroom & Hcalm & Hrem).
  assert (zlen key + zlen value <= cb_max_record_size cfg) as Hr.
  { pose proof Hinv as Hsize. unfold invalid_kv in Hsize. rewrite !orb_false_iff, !Z.ltb_ge in Hsize. lia. }
  destruct (insert_valid (RB := any_record cfg) cfg key value Hinv Hb1 I Hb2 Hv Hr) as [Hok Hlims].
  destruct (insert_at_once (RB := any_record cfg) mem hp limit cfg front _ t lf empty_map key value fuel Hsetup Hheap Ht Hroom) as (t1 & Hrun1 & Hrep1 & _); try done.
  { rewrite Hrem. pose proof (su_margin _ _ _ _ Hsetup). pose proof (su_record _ _ _ _ Hsetup).
    pose proof (zlen_nonneg key). pose proof (zlen_nonneg value). unfold LEAF_HEADER, KV_META_SIZE in *. lia. }
  unfold invalid_kv in Hinv. apply orb_false_iff in Hinv as [[Hkey _]%orb_false_iff _].
  destruct (read_at_once (RB := any_record cfg) mem hp limit cfg front _ (set_contention t1 []) (view_insert empty_map key (Some value)) key out d [] fuel Hsetup Hheap)
    as (r & buf & t2 & Hrun2 & Ha & _); try done.
  { by apply represents_contention. }
  { unfold view_insert. by rewrite bool_decide_eq_true_2. }
  exists t, t2. split; [done|]. rewrite Hcl. cbn [perform_all]. unfold perform, answered. cbn [c_request c_contention c_fuel].
  assert (set_contention t [] = t) as -> by (unfold set_contention; rewrite <- Hcalm; by destruct t). rewrite Hrun1. cbn [mbind outcome_bind fst snd].
  rewrite Hrun2. cbn [mbind outcome_bind fst snd]. unfold view_insert in Ha. rewrite bool_decide_eq_true_2 in Ha by done. by destruct Ha as [-> ->].
Qed.

(** ** A tree of the components themselves *)

(** The default configuration, with keys of four bytes padded to the sixteen of the default, and records of at most a
    kilobyte. *)
Definition sample_bound : RecordBound := {| record_bound := 1024; client_key k := zlen k = 16 ∧ drop 4 k = replicate 12 0 |}.
Definition sample_config : @Config unit := Config_default tt true.
Definition sample_key (a b c d : Z) : bytes := [a; b; c; d] ++ replicate 12 0.
Definition sample_memory : memory :=
  mkMemory (λ p s, mkLeafNode (mkNodeMeta 0 s 0) 0 0 0 0 (replicate (Z.to_nat (s - LEAF_HEADER)) 0))
    (λ s, replicate (Z.to_nat (s - LEAF_HEADER)) 0) (λ _, mkLeafNode (mkNodeMeta 0 0 0) 0 0 0 0 []).

(** The lowest address that is not in use. *)
Definition lowest_free (ns : gmap Z InnerNode) : Z :=
  default 0 (head (filter (λ i, ns !! i = None) (seqZ 0 (Z.of_nat (S (size ns)))))).
Definition sample_heap : heap :=
  mkHeap lowest_free (λ _, mkInnerNode (mkNodeMeta 0 0 0) 0 0 0 (replicate (Z.to_nat InnerNode.max_data_size) 0)).

Lemma sample_heap_ok : heap_ok sample_heap 1000.
Proof.
  split.
  - intros ns Hs. cbn. unfold lowest_free. destruct (filter _ _) as [|i l] eqn:Hf.
    + exfalso. assert (list_to_set (seqZ 0 (Z.of_nat (S (size ns)))) ⊆ dom ns) as Hsub.
      { intros i Hi%elem_of_list_to_set. apply elem_of_dom. destruct (ns !! i) eqn:Hn; [done|].
        assert (i ∈ filter (λ i, ns !! i = None) (seqZ 0 (Z.of_nat (S (size ns))))) as Hin by by apply list_elem_of_filter. rewrite Hf in Hin. by apply elem_of_nil in Hin. }
      apply subseteq_size in Hsub. rewrite size_list_to_set, length_seqZ, size_dom in Hsub by apply NoDup_seqZ. lia.
    + assert (i ∈ filter (λ i, ns !! i = None) (seqZ 0 (Z.of_nat (S (size ns))))) as Hin by (rewrite Hf; by left).
      apply list_elem_of_filter in Hin as [Hn Hi%elem_of_seqZ]. cbn. split; [done|]. lia.
  - intros ptr. split; [vm_compute; reflexivity|]. apply Forall_replicate. done.
Qed.

Definition sample_buffer : sys :=
  start_of match CircularBuffer_new 33554432 30198988 4 1952 4096 32 4096 false with
           | Ret b => b
           | Panic => mkCB (mkStates 0 0 0) 0 0 (FreeList.mkFreeList [] []) 0 ∅ ∅
           end.
Definition sample_storage : LeafStorage sys (MappingTable PageLocation) :=
  mkStorage sample_buffer ∅ ∅ DISK_PAGE_SIZE (MappingTable_new 4096).
Definition sample_log : WriteAheadLogInner := WriteAheadLog_new (replicate 4096 0).
Definition sample_classes : list Z := match create_mem_page_size_classes 4 1952 4096 32 false with Ret l => l | Panic => [] end.

#[local] Existing Instance sample_bound.
#[local] Instance sample_sys : PageBuffer sys := sys_buffer false.
#[local] Instance sample_sys_laws : PageBufferLaws sys := sys_buffer_laws false.
#[local] Instance sample_map : PageMap (MappingTable PageLocation) := table_map.
#[local] Instance sample_map_laws : PageMapLaws (MappingTable PageLocation) := table_map_laws.

Lemma sample_usable : usable sample_config.
Proof. split; try (vm_compute; (reflexivity || done)); try (split_and!; vm_compute; (reflexivity || done)). all: vm_compute; lia. Qed.

Lemma sample_merges : merges_fit sample_config 2048 3 16.
Proof.
  split; [|by intros k [-> _]|done|vm_compute; congruence|vm_compute; reflexivity].
  intros k k' [_ Hk] [_ Hk'] Hne. apply Z.nlt_ge. intros Hlt. apply Hne. rewrite <- (take_drop 4 k), <- (take_drop 4 k'), Hk, Hk'. f_equal.
  pose proof (common_prefix_take k k') as Hp. apply (f_equal (take 4)) in Hp. rewrite !take_take in Hp.
  by replace (4 `min` Z.to_nat (common_prefix_len k k'))%nat with 4%nat in Hp by lia.
Qed.

Lemma sample_memory_ok : memory_ok sample_memory sample_config.
Proof.
  split.
  - intros p s Hs. cbn. split; [unfold zlen; rewrite length_replicate; lia|by apply Forall_replicate].
  - cbn. split; [vm_compute; reflexivity|by apply Forall_replicate].
Qed.

Lemma sample_fresh : fresh_storage sample_classes sample_storage.
Proof.
  split.
  - apply reachable_sys. eexists. split; [|apply rtc_refl]. exists 33554432, 30198988, 4, 1952, 4096, 32, 4096, false.
    split; [vm_compute; reflexivity|]. split_and!; reflexivity.
  - apply Forall_forall. intros x Hx. assert (Forall (λ x, CircularSystem.served (buf sample_buffer) x = true) sample_classes) as Ha.
    { vm_compute. repeat constructor. }
    rewrite Forall_forall in Ha. by apply Ha.
  - done.
  - split; [done|]. by apply new_repr.
  - intros p. cbn. unfold sys_owner. cbn. by rewrite !decide_False by set_solver.
Qed.

Lemma sample_log_serves (RB : RecordBound) : record_bound <= 1952 → log_serves_all sample_config (Some sample_log).
Proof.
  intros Hb w [= <-]. split; [apply wal_new_ready|]. intros k v (_ & Hk & _ & Hr). unfold log_serves, wal_log_laws, wal_serves.
  pose proof (zlen_nonneg k). pose proof (zlen_nonneg v). change (buffer_size sample_log / 2) with 2048. unfold LogHeader_size, U16. lia.
Qed.

Lemma sample_log_ok : log_serves_all sample_config (Some sample_log).
Proof. apply sample_log_serves. vm_compute. congruence. Qed.

Lemma sample_budget n : Z.of_nat n <= 1000 → budget sample_config n sample_storage.
Proof.
  intros Hn. split; [|split].
  - change (0 + Z.of_nat n <= MAX_BATCHES * 4096). unfold MAX_BATCHES. lia.
  - change (DISK_PAGE_SIZE + Z.of_nat n * (4096 + 2 * INNER_NODE_SIZE) <= USIZE_MAX). unfold USIZE_MAX, DISK_PAGE_SIZE, INNER_NODE_SIZE. lia.
  - exists []. split; [split; [done|by apply new_repr]|]. unfold zlen. cbn [length]. lia.
Qed.

(** Two insertions, one of which meets a taken lock, a deletion and a read. *)
Definition sample_calls : list call :=
  [mkCall (RInsert (sample_key 1 2 3 4) [7; 7]) [] 2; mkCall (RInsert (sample_key 1 2 3 5) [8]) [false] 3;
   mkCall (RDelete (sample_key 1 2 3 4)) [] 2; mkCall (RRead (sample_key 1 2 3 5) (replicate 1024 0) [0; 0]) [] 2].

Lemma tree_refines_map_witness :
  ∃ t rs t' m', with_config sample_memory sample_config sample_storage (Some sample_log) = Ret (inr t) ∧
    perform_all sample_memory sample_heap sample_config sample_classes sample_calls t = Ret (rs, t') ∧
    map_answers sample_config empty_map sample_calls rs m'.
Proof.
  apply (tree_refines_map sample_memory sample_heap 1000 sample_config sample_classes sample_storage (Some sample_log) 3 16 sample_calls).
  - exact sample_usable.
  - exact sample_merges.
  - exact sample_memory_ok.
  - exact sample_heap_ok.
  - vm_compute. reflexivity.
  - exact sample_fresh.
  - exact sample_log_ok.
  - repeat constructor; vm_compute; congruence.
  - apply sample_budget. vm_compute. congruence.
  - apply Nat.leb_le. vm_compute. reflexivity.
Defined.

Lemma fresh_insert_read_witness :
  ∃ t t', with_config sample_memory sample_config sample_storage (Some sample_log) = Ret (inr t) ∧
    perform_all sample_memory sample_heap sample_config sample_classes
      [mkCall (RInsert [1; 2; 3; 4] [7; 7]) [] 1; mkCall (RRead [1; 2; 3; 4] [0; 0; 0] [99]) [] 1] t =
      Ret ([AInsert (Done Success); ARead (Done (Found 2, [7; 7; 0]))], t').
Proof.
  apply (fresh_insert_read sample_memory sample_heap 1000 sample_config sample_classes sample_storage (Some sample_log) [1; 2; 3; 4] [7; 7] [0; 0; 0] 99 0).
  - exact sample_usable.
  - exact sample_memory_ok.
  - exact sample_heap_ok.
  - vm_compute. reflexivity.
  - exact sample_fresh.
  - exact (sample_log_serves (any_record sample_config) ltac:(vm_compute; congruence)).
  - apply sample_budget. vm_compute. congruence.
  - lia.
  - vm_compute. reflexivity.
  - repeat constructor; vm_compute; congruence.
  - repeat constructor; vm_compute; congruence.
  - discriminate.
  - vm_compute. congruence.
  - vm_compute. congruence.
Defined.

(** A tree of the components with a record. *)
Definition one_record : bytes → option bytes := view_insert empty_map (sample_key 1 2 3 4) (Some [7; 7]).

Lemma sample_tree :
  ∃ front (t : BfTree sys (MappingTable PageLocation) WriteAheadLogInner), Setup sample_memory sample_config front 2048 ∧
    represents sample_memory sample_config front 2048 [] t one_record ∧ contention t = [] ∧ (root_page t).2 = true.
Proof.
  destruct (usable_setup sample_memory sample_config sample_classes sample_usable sample_memory_ok ltac:(vm_compute; reflexivity)) as (front & Hcl & Hsetup).
  destruct (new_tree sample_memory 1000 sample_config sample_classes sample_usable front sample_storage (Some sample_log) 1 Hcl Hsetup sample_fresh sample_log_ok
    (sample_budget 2 ltac:(lia)) ltac:(lia)) as (t & lf & _ & Ht & Hroom & Hcalm & Hrem).
  destruct (insert_at_once sample_memory sample_heap 1000 sample_config front _ t lf empty_map (sample_key 1 2 3 4) [7; 7] 0 Hsetup sample_heap_ok) as (t1 & _ & Hrep & _ & Hroot).
  all: try done.
  - split_and!; try done; repeat constructor; done.
  - rewrite Hrem. vm_compute. congruence.
  - exists front, (set_contention t1 []). split; [done|]. apply (represents_contention sample_memory sample_config front _ t1 _ []) in Hrep.
    split; [done|]. split; [done|]. unfold root_page. cbn [root_page_id set_contention]. rewrite Hroot. apply (ta_kind _ _ _ _ _ _ _ _ _ Ht).
Qed.

Lemma undisturbed_read_witness :
  ∃ (t : BfTree sys (MappingTable PageLocation) WriteAheadLogInner) front t',
    tree_read sample_memory sample_heap sample_config (front ++ [2048; 4096]) (sample_key 1 2 3 4) [0; 0; 0] [99] 1 t = Ret (inr (Done (Found 2, [7; 7; 0])), t').
Proof.
  destruct sample_tree as (front & t & Hsetup & Hrep & Hcalm & _).
  destruct (undisturbed_read sample_memory sample_heap 1000 sample_config front 2048 t one_record (sample_key 1 2 3 4) [0; 0; 0] 99 [] 0) as (r & buf & t' & Hrun & Ha & _).
  - exact Hsetup.
  - exact sample_heap_ok.
  - exact Hrep.
  - exact Hcalm.
  - reflexivity.
  - vm_compute. congruence.
  - vm_compute. congruence.
  - exists t, front, t'. change (r = Found 2 ∧ buf = [7; 7; 0]) in Ha. destruct Ha as [-> ->]. exact Hrun.
Defined.
