(* ===== verification/Recovery.v ===== *)
(** Recovery from the log ([BfTree::recovery] of src/snapshot.rs): the writes of a log file are inserted into the
    tree of a snapshot.  The reader takes a log entry for what the tree has written as a bare write. *)
From stdpp Require Import base numbers list option gmap.
From Stdlib Require Import ZArith Lia.
From S2P Require Import Prelude LeafMeta Config CircularSystem MappingTable Wal WalTheorems StateError Storage StorageInstances LeafEntry Tree WalInstance TreeTheorems.

Section recovery.
Context {B T W F : Type} `{PageBuffer B} `{PageMap T} `{WriteLog W}.
Context (mem : memory) (hp : heap) (cfg : @Config F) (size_classes : list Z).
Abbreviation tree := (BfTree B T W).
Implicit Types t : tree.

(** The result of the insertion is dropped; [fuel] bounds its attempts. *)
Definition replay_entry (fuel : nat) t (e : LogHeader * bytes) : outcome tree :=
  log_entry ← LogEntry_read_from_buffer e.2;
  match log_entry with
  | Write op => r ← tree_insert mem hp cfg size_classes (wkey op) (wvalue op) fuel t; Ret r.2
  | Split => Panic
  end.

Definition replay_segment (fuel : nat) t (seg : bytes) : outcome tree :=
  es ← read_segment seg;
  foldM (replay_entry fuel) t es.

(** [t] is the tree of the snapshot; the segments of the log are taken to have 4096 bytes. *)
Definition recovery t (wal_file : bytes) (fuel : nat) : outcome tree :=
  segs ← segment_iter wal_file 4096 0 (S (length wal_file));
  foldM (replay_segment fuel) t segs.

(** The first byte of a write is the low byte of the length of its key: it is taken for the tag of a split, which is not
    implemented, or for none. *)
Lemma untagged_write fuel t h e : write_op_ok e → zlen (wkey e) mod 256 ≠ 0 → replay_entry fuel t (h, write_op_bytes e) = Panic.
Proof.
  intros [Hk _] Hlow. unfold replay_entry, LogEntry_read_from_buffer, write_op_bytes. cbn [snd]. pose proof (zlen_nonneg (wkey e)).
  set (rest := _ ++ [_] ++ _). assert (∃ l, le_bytes 2 (zlen (wkey e)) ++ rest = zlen (wkey e) mod 256 :: l) as [l ->] by by eexists.
  rewrite slice_ok by (rewrite ?zlen_cons; pose proof (zlen_nonneg l); lia). ret_step.
  change (sub_bytes (?x :: l) 0 1) with [x]. cbn [le_val]. rewrite Z.mul_0_r, Z.add_0_r.
  zcase (zlen (wkey e) mod 256 =? 0); [lia|]. by zcase (zlen (wkey e) mod 256 =? 1).
Qed.

Lemma foldM_stops {A A'} (f : A' → A → outcome A') x l : x ∈ l → (∀ a, f a x = Panic) → ∀ a, foldM f a l = Panic.
Proof.
  intros Hx Hf. induction l as [|y l IH]; intros a; [by apply elem_of_nil in Hx|]. cbn [foldM].
  apply elem_of_cons in Hx as [<-|Hx]; [by rewrite Hf|]. destruct (f a y) as [a'|]; [|done]. by apply IH.
Qed.

Lemma mapM_Ret_elem {A A'} (f : A → outcome A') l l' y : mapM f l = Ret l' → y ∈ l' → ∃ x, x ∈ l ∧ f x = Ret y.
Proof.
  revert l'. induction l as [|x l IH]; intros l' Hrun Hy; cbn [mapM] in Hrun; [injection Hrun as <-; by apply elem_of_nil in Hy|].
  apply bind_Ret_inv in Hrun as (z & Hz & Hrun). apply bind_Ret_inv in Hrun as (zs & Hzs & Hrun). injection Hrun as <-. apply elem_of_cons in Hy as [->|Hy].
  - exists x. split; [left|done].
  - destruct (IH zs Hzs Hy) as (x' & Hx' & Hf). exists x'. split; [by right|done].
Qed.

(** One such record stops the replay. *)
Lemma replay_stops fuel (x : LogHeader * bytes) segs (ess : list (list (LogHeader * bytes))) :
  mapM read_segment segs = Ret ess → x ∈ mjoin ess → (∀ t, replay_entry fuel t x = Panic) → ∀ t, foldM (replay_segment fuel) t segs = Panic.
Proof.
  intros Hes (es & Hx & Hin)%list_elem_of_join Hbad. destruct (mapM_Ret_elem _ _ _ _ Hes Hin) as (seg & Hseg & Hread). apply (foldM_stops _ seg); [done|]. intros t. unfold replay_segment. rewrite Hread. ret_step.
  by apply (foldM_stops _ x).
Qed.
End recovery.

(** C10: the tree logs its writes bare, and recovery reads log entries with a tag.  A log of writes, in the segments of 4096
    bytes that recovery assumes, is flushed and read back record for record; but when one of its keys has a length that
    is not a multiple of 256, recovery panics on it, whatever tree the snapshot gives. *)
Theorem recovery_rejects_writes {B T W F : Type} `{PageBuffer B} `{PageMap T} `{WriteLog W} (mem : memory) (hp : heap) (cfg : @Config F) (size_classes : list Z)
    (t : BfTree B T W) (buf : bytes) (os : list (wal_op (E := WriteOp))) w log l p e fuel :
  zlen buf = 4096 → Forall (wal_op_ok (ok := write_op_ok)) os → Z.of_nat (length os) < U64 →
  wal_run (WriteAheadLog_new buf, []) os = Ret (w, log) → (l, p, e) ∈ log → zlen (wkey e) mod 256 ≠ 0 →
  ∃ w' es, flush w = Ret w' ∧ read_log (file w') 4096 = Ret es ∧ Forall2 reads_as es log ∧
    recovery mem hp cfg size_classes t (file w') fuel = Panic.
Proof.
  intros Hbuf Hok Hlen Hrun Hin Hlow.
  destruct (wal_run_inv (zlen buf) (WriteAheadLog_new buf, []) os) as (s & Hr & Hinv); [rewrite Hbuf; done|rewrite Hbuf; done|done|done|apply start_run_inv|].
  rewrite Hrun in Hr. injection Hr as <-. rewrite Hbuf in Hinv. pose proof Hinv as (Hlog & _).
  destruct (run_inv_flush (E := WriteOp) 4096 (w, log) ltac:(done) Hinv) as (w' & Hfl & Hread & Hent). cbn [fst snd] in *.
  exists w', (to_entry <$> log). split_and!; [done..|]. unfold recovery. unfold read_log in Hread.
  destruct (segment_iter (file w') 4096 0 _) as [segs|]; [|done]. cbn [mbind outcome_bind] in Hread |- *.
  destruct (mapM read_segment segs) as [ess|] eqn:Hs; [|done]. injection Hread as Hj.
  apply (replay_stops _ _ _ _ _ (to_entry (l, p, e)) segs ess Hs).
  - rewrite Hj. by apply list_elem_of_fmap_2.
  - intros t'. rewrite Forall_forall in Hlog. by apply untagged_write; [apply (Hlog _ Hin)|].
Qed.

Definition logged_write : list (wal_op (E := WriteOp)) := [OAppend (make_insert [1; 2] [3]) 4096].

Lemma recovery_rejects_writes_witness :
  ∃ w, wal_run (WriteAheadLog_new (replicate 4096 0), []) logged_write = Ret (w, [(0, 4096, make_insert [1; 2] [3])]) ∧
    ∃ w', flush w = Ret w' ∧
      recovery (H := sys_buffer false) (H0 := table_map) sample_memory sample_heap sample_config sample_classes
        (mkTree 0 ∅ sample_storage (Some sample_log) []) (file w') 1 = Panic.
Proof.
  destruct (wal_run (WriteAheadLog_new (replicate 4096 0), []) logged_write) as [[w log]|] eqn:Hr; [|vm_compute in Hr; discriminate Hr].
  assert (log = [(0, 4096, make_insert [1; 2] [3])]) as -> by (vm_compute in Hr; injection Hr as _ <-; reflexivity).
  exists w. split; [reflexivity|].
  destruct (recovery_rejects_writes (H := sys_buffer false) (H0 := table_map) sample_memory sample_heap sample_config sample_classes
    (mkTree 0 ∅ sample_storage (Some sample_log) []) (replicate 4096 0) logged_write w [(0, 4096, make_insert [1; 2] [3])] 0 4096 (make_insert [1; 2] [3]) 1) as (w' & es & Hf & _ & _ & Hp).
  - vm_compute. reflexivity.
  - repeat constructor; vm_compute; congruence.
  - vm_compute. reflexivity.
  - exact Hr.
  - left.
  - vm_compute. congruence.
  - exists w'. exact (conj Hf Hp).
Defined.
