(* ===== verification/RangeScan.v ===== *)
(** Range scans (src/range_scan.rs and the entry points of src/tree.rs): iterators that keep a leaf locked
    while they return its records one by one, and then move to the leaf on its right.

    A scan draws its random choices from [dice], one for each attempt to lock a leaf; the draws never end.  A loop that has no
    bound of its own in the code has one here, [fuel], and reports [Waiting] when it is reached. *)
From stdpp Require Import base numbers list option gmap.
From Stdlib Require Import ZArith Lia.
From S2P Require Import Prelude Bits NodeMeta InnerNode LeafMeta LeafNode LeafOps Config CircularBuffer StateError Storage LeafEntry Tree.

(** The random draws to come. *)
Definition draws := nat → Z.
Definition drawn (dice : draws) : Z := dice O.
Definition later (dice : draws) : draws := λ i, dice (S i).

Inductive ScanIterError := CacheOnlyMode | InvalidStartKey | InvalidEndKey | InvalidCount | InvalidKeyRange.

(** A locked leaf: its number, and its location and copy of the base page under the lock.  An exclusive lock
    writes the location through to the page table. *)
Record ScanLock := mkScanLock { l_id : Z; l_loc : PageLocation; l_tmp : option TmpBuffer; l_exclusive : bool }.

(** [ScanIter]; [next_key] is the upper bound of the leaf in cache-only mode. *)
Record ScanIter := mkScanIter {
  scan_cnt : Z;
  scan_position : ScanPosition;
  leaf_lock : ScanLock;
  scan_field : ScanReturnField;
  end_key : option bytes;
  next_key : bytes;
}.

Definition set_scan_cnt (it : ScanIter) (c : Z) : ScanIter :=
  mkScanIter c (scan_position it) (leaf_lock it) (scan_field it) (end_key it) (next_key it).
Definition set_scan_position (it : ScanIter) (p : ScanPosition) : ScanIter :=
  mkScanIter (scan_cnt it) p (leaf_lock it) (scan_field it) (end_key it) (next_key it).
Definition set_scan_leaf (it : ScanIter) (p : ScanPosition) (l : ScanLock) (k : bytes) : ScanIter :=
  mkScanIter (scan_cnt it) p l (scan_field it) (end_key it) k.
Definition set_leaf_lock (it : ScanIter) (l : ScanLock) : ScanIter :=
  mkScanIter (scan_cnt it) (scan_position it) l (scan_field it) (end_key it) (next_key it).
Definition set_end_key (it : ScanIter) (k : bytes) : ScanIter :=
  mkScanIter (scan_cnt it) (scan_position it) (leaf_lock it) (scan_field it) (Some k) (next_key it).

Definition move_to_next (p : ScanPosition) : outcome ScanPosition :=
  match p with
  | ScanBase o => o' ← add32 o 1; Ret (ScanBase o')
  | ScanFull o => o' ← add32 o 1; Ret (ScanFull o')
  | ScanMini o => o' ← add32 o 1; Ret (ScanMini o')
  | ScanNull => Panic
  end.

Section scan.
Context {B T W F : Type} `{PageBuffer B} `{PageMap T} `{WriteLog W}.
Context (mem : memory) (hp : heap) (cfg : @Config F).
Abbreviation tree := (BfTree B T W).
Abbreviation env := (@env B T).
Abbreviation TM := (SE TreeError tree).
Abbreviation LM := (SE TreeError (env * tree)).

Definition should_promote_scan_page (dice : Z) : bool := dice <? scan_promotion_rate cfg.

(** ** Locked leaves *)

(** An operation on the locked leaf. *)
Definition with_lock {A} (l : ScanLock) (m : SE TreeError env A) : TM (A * ScanLock) := λ t,
  r ← m (mkEnv (storage t) (l_loc l) (l_tmp l) None);
  let '(res, e) := r in
  Ret (match res with inl err => inl err | inr a => inr (a, mkScanLock (l_id l) (location e) (tmp_buffer e) (l_exclusive l)) end,
       set_storage t (store e)).

(** The drop of the lock: an exclusive one writes a changed base page. *)
Definition unlock (l : ScanLock) : TM unit := λ t,
  if l_exclusive l then
    s ← put_entry (mkEnv (storage t) (l_loc l) (l_tmp l) None) (l_id l);
    Ret (inr tt, set_storage t s)
  else Ret (inr tt, t).

(** The lock that an operation on an entry leaves behind. *)
Definition keep_lock (id : Z) (exclusive : bool) (parent : option Z) (e : env) (t : tree) : outcome (ScanLock * tree) :=
  if exclusive then
    tb ← map_put (page_table (store e)) id (location e);
    Ret (mkScanLock id (location e) (tmp_buffer e) true, back t parent (parent_node e) (set_table (store e) tb))
  else Ret (mkScanLock id (location e) (tmp_buffer e) false, set_storage t (store e)).

(** ** The leaf of a key *)

(** A base page with a record becomes a full page. *)
Definition promote_base (base : LeafNode) (offset : Z) (key : bytes) : SE TreeError env ScanPosition :=
  pos ← lift (LeafNode.lower_bound base key);
  c ← lift (meta_count_without_fence (leaf_meta base));
  if 0 <? c then
    l ← upgrade_to_full_page mem cfg base offset;
    _ ← create_cache_page_loc l;
    mret (ScanFull (as_u32 pos))
  else mret (ScanBase (as_u32 pos)).

Definition promote_or_merge_mini_page (key : bytes) (dice : Z) : LM ScanPosition :=
  s ← get;
  match location s.1 with
  | FullPage _ => lift Panic
  | Base offset =>
      base ← on_entry load_base_page_from_buffer;
      on_entry (promote_base base offset key)
  | Mini ptr =>
      mini ← on_entry (cache_page ptr);
      _ ← on_entry (on_store (λ s, begin_dealloc_mini_page s ptr));
      race ← draw_race;
      r ← on_entry (on_error (try_merge_mini_page mem cfg ptr race) (on_store' (λ s, release s ptr)));
      _ ← on_entry change_to_base_loc;
      _ ← on_entry (on_store' (λ s, finish_dealloc_mini_page s ptr));
      match r with
      | NoSplit =>
          base ← on_entry load_base_page_from_buffer;
          if should_promote_scan_page dice then
            on_entry (promote_base base (next_level mini) key)
          else
            pos ← lift (LeafNode.lower_bound base key);
            mret (ScanBase (as_u32 pos))
      | MergeAndSplit => throw NeedRestart
      end
  | Null => lift Panic
  end.

(** The scan under the shared lock: where it stands, or the lock was upgraded to go on. *)
Definition scan_shared (key : bytes) (pid : PageID) (parent : option Z) (dice : Z) : LM (option ScanPosition) :=
  _ ← on_tree (check_parent pid parent);
  p ← on_entry (get_scan_position mem key (cache_only cfg));
  let go_on := (ok ← on_tree ask; if ok : bool then mret None else throw Locked) in
  match p with
  | inr (ScanBase o) =>
      if bool_decide (parent = None) || negb (should_promote_scan_page dice) then mret (Some (ScanBase o)) else go_on
  | inr (ScanMini o) => _ ← lift (assert_ (cache_only cfg)); mret (Some (ScanMini o))
  | inr p => mret (Some p)
  | inl NeedMergeMiniPage => go_on
  end.

Definition lock_scanned (key : bytes) (pid : PageID) (parent : option Z) (dice : Z) : TM (ScanPosition * ScanLock) := λ t,
  id ← as_id pid;
  p ← parent_of t parent;
  e ← get_entry (storage t) id p;
  r ← scan_shared key pid parent dice (e, t);
  match r with
  | (inl err, (e1, t1)) => Ret (inl err, set_storage t1 (store e1))
  | (inr (Some pos), (e1, t1)) =>
      k ← keep_lock id false parent e1 t1;
      Ret (inr (pos, k.1), k.2)
  | (inr None, st) =>
      _ ← unwrap parent;
      r' ← promote_or_merge_mini_page key dice st;
      match r' with
      | (inl err, (e2, t2)) =>
          s ← put_entry e2 id;
          Ret (inl err, back t2 parent (parent_node e2) s)
      | (inr pos, (e2, t2)) =>
          k ← keep_lock id true parent e2 t2;
          Ret (inr (pos, k.1), k.2)
      end
  end.

Definition move_cursor_to_leaf (key : bytes) (aggressive_split : bool) (dice : Z) : TM (ScanPosition * ScanLock * bytes) :=
  x ← traverse_to_leaf mem hp cfg key aggressive_split (cache_only cfg);
  let '(pid, parent, high) := x in
  r ← lock_scanned key pid parent dice;
  mret (r, high).

(** The scan of a client that may write: the leaf is locked exclusively. *)
Definition scan_exclusive (key : bytes) (pid : PageID) (parent : option Z) (dice : Z) : LM ScanPosition :=
  _ ← on_tree (check_parent pid parent);
  p ← on_entry (get_scan_position mem key false);
  let go_on := (_ ← lift (unwrap parent); promote_or_merge_mini_page key dice) in
  match p with
  | inr (ScanBase o) => if negb (should_promote_scan_page dice) then mret (ScanBase o) else go_on
  | inr (ScanFull o) => mret (ScanFull o)
  | inr _ => lift Panic
  | inl NeedMergeMiniPage => go_on
  end.

Definition lock_scanned_mut (key : bytes) (pid : PageID) (parent : option Z) (dice : Z) : TM (ScanPosition * ScanLock) := λ t,
  id ← as_id pid;
  p ← parent_of t parent;
  e ← get_entry (storage t) id p;
  r ← scan_exclusive key pid parent dice (e, t);
  match r with
  | (inl err, (e1, t1)) =>
      s ← put_entry e1 id;
      Ret (inl err, back t1 parent (parent_node e1) s)
  | (inr pos, (e1, t1)) =>
      k ← keep_lock id true parent e1 t1;
      Ret (inr (pos, k.1), k.2)
  end.

Definition move_cursor_to_leaf_mut (key : bytes) (aggressive_split : bool) (dice : Z) : TM (ScanPosition * ScanLock) :=
  x ← traverse_to_leaf mem hp cfg key aggressive_split false;
  let '(pid, parent, _) := x in
  lock_scanned_mut key pid parent dice.

(** ** The loops *)

(** Moving on to the leaf of [key] while the lock of the last leaf is held: a full buffer is not evicted from. *)
Fixpoint next_leaf (key : bytes) (aggressive_split : bool) (dice : draws) (fuel : nat) :
    TM (progress (ScanPosition * ScanLock * bytes * draws)) :=
  match fuel with
  | O => mret Waiting
  | S fuel' =>
      r ← result (move_cursor_to_leaf key aggressive_split (drawn dice));
      match r with
      | inr v => mret (Done (v, later dice))
      | inl Locked => next_leaf key aggressive_split (later dice) fuel'
      | inl _ => next_leaf key true (later dice) fuel'
      end
  end.

(** The first leaf of a scan. *)
Fixpoint first_leaf (key : bytes) (aggressive_split : bool) (dice : draws) (fuel : nat) :
    TM (progress (ScanPosition * ScanLock * bytes * draws)) :=
  match fuel with
  | O => mret Waiting
  | S fuel' =>
      r ← result (move_cursor_to_leaf key aggressive_split (drawn dice));
      match r with
      | inr v => mret (Done (v, later dice))
      | inl Locked => first_leaf key aggressive_split (later dice) fuel'
      | inl NeedRestart => first_leaf key true (later dice) fuel'
      | inl CircularBufferFull =>
          _ ← result (evict_from_circular_buffer mem hp cfg fuel');
          first_leaf key true (later dice) fuel'
      end
  end.

Definition new_with_scan_count (start_key : bytes) (cnt : Z) (field : ScanReturnField) (dice : draws) (fuel : nat) :
    TM (progress (ScanIter * draws)) :=
  r ← first_leaf start_key false dice fuel;
  match r with
  | Done (pos, lock, high, dice') => mret (Done (mkScanIter cnt pos lock field None high, dice'))
  | Waiting => mret Waiting
  end.

Definition new_with_end_key (start_key end_key : bytes) (field : ScanReturnField) (dice : draws) (fuel : nat) :
    TM (progress (ScanIter * draws)) :=
  r ← new_with_scan_count start_key USIZE_MAX field dice fuel;
  match r with
  | Done (it, dice') => mret (Done (set_end_key it end_key, dice'))
  | Waiting => mret Waiting
  end.

(** What [next] returns: the lengths of the record it has copied, and the iterator and the buffer afterwards. *)
Record ScanNext := mkNext { n_found : option (Z * Z); n_buffer : bytes; n_iter : ScanIter; n_dice : draws }.

Fixpoint next (it : ScanIter) (out_buffer : bytes) (dice : draws) (fuel : nat) : TM (progress ScanNext) :=
  match fuel with
  | O => mret Waiting
  | S fuel' =>
      if (scan_cnt it =? 0) && bool_decide (end_key it = None) then mret (Done (mkNext None out_buffer it dice))
      else
        r ← with_lock (leaf_lock it) (scan_record_by_pos_with_bound (scan_position it) out_buffer (scan_field it) (end_key it));
        let '((res, buf), lock) := r in
        let it1 := set_leaf_lock it lock in
        match res with
        | ScanDeleted =>
            pos ← lift (move_to_next (scan_position it));
            next (set_scan_position it1 pos) buf dice fuel'
        | ScanFound key_len value_len =>
            pos ← lift (move_to_next (scan_position it));
            cnt ← lift (subu (scan_cnt it) 1);
            mret (Done (mkNext (Some (key_len, value_len)) buf (set_scan_cnt (set_scan_position it1 pos) cnt) dice))
        | EndOfLeaf =>
            sib ← (if negb (cache_only cfg) then with_lock lock (get_right_sibling mem) else mret (next_key it, lock));
            let '(right_sibling, lock2) := sib in
            let it2 := set_leaf_lock it1 lock2 in
            if zlen right_sibling =? 0 then mret (Done (mkNext None buf (set_scan_cnt it2 0) dice))
            else
              m ← next_leaf right_sibling false dice fuel';
              match m with
              | Waiting => mret Waiting
              | Done (pos, lock3, high, dice') =>
                  _ ← unlock lock2;
                  next (set_scan_leaf it2 pos lock3 high) buf dice' fuel'
              end
        | BoundKeyExceeded => mret (Done (mkNext None buf (set_scan_cnt it1 0) dice))
        end
  end.

(** ** Scans that may write *)
Fixpoint next_leaf_mut (key : bytes) (aggressive_split : bool) (dice : draws) (fuel : nat) :
    TM (progress (ScanPosition * ScanLock * draws)) :=
  match fuel with
  | O => mret Waiting
  | S fuel' =>
      r ← result (move_cursor_to_leaf_mut key aggressive_split (drawn dice));
      match r with
      | inr v => mret (Done (v, later dice))
      | inl Locked => next_leaf_mut key aggressive_split (later dice) fuel'
      | inl _ => next_leaf_mut key true (later dice) fuel'
      end
  end.

Fixpoint first_leaf_mut (key : bytes) (aggressive_split : bool) (dice : draws) (fuel : nat) :
    TM (progress (ScanPosition * ScanLock * draws)) :=
  match fuel with
  | O => mret Waiting
  | S fuel' =>
      r ← result (move_cursor_to_leaf_mut key aggressive_split (drawn dice));
      match r with
      | inr v => mret (Done (v, later dice))
      | inl Locked => first_leaf_mut key aggressive_split (later dice) fuel'
      | inl NeedRestart => first_leaf_mut key true (later dice) fuel'
      | inl CircularBufferFull =>
          _ ← result (evict_from_circular_buffer mem hp cfg fuel');
          first_leaf_mut key true (later dice) fuel'
      end
  end.

(** [ScanIterMut] has no [next_key]. *)
Definition mut_new_with_scan_count (start_key : bytes) (cnt : Z) (field : ScanReturnField) (dice : draws) (fuel : nat) :
    TM (progress (ScanIter * draws)) :=
  r ← first_leaf_mut start_key false dice fuel;
  match r with
  | Done (pos, lock, dice') => mret (Done (mkScanIter cnt pos lock field None [], dice'))
  | Waiting => mret Waiting
  end.

Definition mut_new_with_end_key (start_key end_key : bytes) (field : ScanReturnField) (dice : draws) (fuel : nat) :
    TM (progress (ScanIter * draws)) :=
  r ← mut_new_with_scan_count start_key USIZE_MAX field dice fuel;
  match r with
  | Done (it, dice') => mret (Done (set_end_key it end_key, dice'))
  | Waiting => mret Waiting
  end.

(** The page of a record that was returned may be written to. *)
Definition mark_dirty : SE TreeError env unit :=
  e ← get;
  match location e with
  | Base _ => _ ← load_base_page_mut mem; mret tt
  | FullPage _ => mret tt
  | Mini _ | Null => lift Panic
  end.

Fixpoint mut_next (it : ScanIter) (out_buffer : bytes) (dice : draws) (fuel : nat) : TM (progress ScanNext) :=
  match fuel with
  | O => mret Waiting
  | S fuel' =>
      if (scan_cnt it =? 0) && bool_decide (end_key it = None) then mret (Done (mkNext None out_buffer it dice))
      else
        r ← with_lock (leaf_lock it) (scan_record_by_pos_with_bound (scan_position it) out_buffer (scan_field it) (end_key it));
        let '((res, buf), lock) := r in
        let it1 := set_leaf_lock it lock in
        match res with
        | ScanDeleted =>
            pos ← lift (move_to_next (scan_position it));
            mut_next (set_scan_position it1 pos) buf dice fuel'
        | ScanFound key_len value_len =>
            pos ← lift (move_to_next (scan_position it));
            cnt ← lift (subu (scan_cnt it) 1);
            d ← with_lock lock mark_dirty;
            mret (Done (mkNext (Some (key_len, value_len)) buf (set_scan_cnt (set_scan_position (set_leaf_lock it1 d.2) pos) cnt) dice))
        | EndOfLeaf =>
            sib ← with_lock lock (get_right_sibling mem);
            let '(right_sibling, lock2) := sib in
            let it2 := set_leaf_lock it1 lock2 in
            if zlen right_sibling =? 0 then mret (Done (mkNext None buf (set_scan_cnt it2 0) dice))
            else
              m ← next_leaf_mut right_sibling false dice fuel';
              match m with
              | Waiting => mret Waiting
              | Done (pos, lock3, dice') =>
                  _ ← unlock lock2;
                  mut_next (set_scan_leaf it2 pos lock3 []) buf dice' fuel'
              end
        | BoundKeyExceeded => mret (Done (mkNext None buf (set_scan_cnt it1 0) dice))
        end
  end.

(** ** The entry points *)
Definition scan_with_count (key : bytes) (cnt : Z) (field : ScanReturnField) (dice : draws) (fuel : nat) :
    TM (ScanIterError + progress (ScanIter * draws)) :=
  if key_too_large cfg key then mret (inl InvalidStartKey)
  else if zlen key =? 0 then mret (inl InvalidStartKey)
  else if cnt =? 0 then mret (inl InvalidCount)
  else r ← new_with_scan_count key cnt field dice fuel; mret (inr r).

Definition scan_with_end_key (start_key end_key : bytes) (field : ScanReturnField) (dice : draws) (fuel : nat) :
    TM (ScanIterError + progress (ScanIter * draws)) :=
  if key_too_large cfg start_key then mret (inl InvalidStartKey)
  else if zlen start_key =? 0 then mret (inl InvalidStartKey)
  else if key_too_large cfg end_key then mret (inl InvalidEndKey)
  else if zlen end_key =? 0 then mret (inl InvalidEndKey)
  else if bool_decide (cmp_bytes start_key end_key = Gt) then mret (inl InvalidKeyRange)
  else r ← new_with_end_key start_key end_key field dice fuel; mret (inr r).

Definition scan_mut_with_count (key : bytes) (cnt : Z) (field : ScanReturnField) (dice : draws) (fuel : nat) :
    TM (ScanIterError + progress (ScanIter * draws)) :=
  if cache_only cfg then mret (inl CacheOnlyMode)
  else if key_too_large cfg key then mret (inl InvalidStartKey)
  else if cnt =? 0 then mret (inl InvalidCount)
  else r ← mut_new_with_scan_count key cnt field dice fuel; mret (inr r).

Definition scan_mut_with_end_key (start_key end_key : bytes) (field : ScanReturnField) (dice : draws) (fuel : nat) :
    TM (ScanIterError + progress (ScanIter * draws)) :=
  if cache_only cfg then mret (inl CacheOnlyMode)
  else if key_too_large cfg start_key then mret (inl InvalidStartKey)
  else if key_too_large cfg end_key then mret (inl InvalidEndKey)
  else r ← mut_new_with_end_key start_key end_key field dice fuel; mret (inr r).
End scan.
