(* ===== verification/RangeScanTheorems.v ===== *)
(** Range scans that no other thread disturbs (src/range_scan.rs): the records of the range come out in the
    order of their keys, each once, across the leaves of the tree. *)
From stdpp Require Import base numbers list sorting option gmap.
From Stdlib Require Import ZArith Lia.
From S2P Require Import Prelude Bits NodeMeta PageLayout InnerNode InnerRepr InnerSearch InnerInsert InnerSplit InnerTheorems LeafMeta LeafNode LeafOps LeafLayout Entries LeafRepr LeafSearch LeafInsert LeafRebuild LeafSplit SizeClasses MergeSplit Config CircularBuffer CircularSystem MappingTable Wal StateError Storage StorageInstances LeafEntry EntryInv EntryLeaf EntryInsert EntryMove EntryMerge TreeLeaves EntryRoot Tree TreeShape TreeInv TreeSplit TreeDescent TreeWrite TreeRead TreeEvict TreeLoops WalInstance TreeMerges TreeInit TreeCalm TreeTheorems RangeScan.

(** ** Order *)
Lemma bytes_le_trans a b c : cmp_bytes a b ≠ Gt → cmp_bytes b c ≠ Gt → cmp_bytes a c ≠ Gt.
Proof. intros H1 H2 H3. apply cmp_gt_lt in H3. apply H2, cmp_gt_lt. by eapply cmp_lt_le_trans. Qed.

Lemma exceeds_mono b k k' : exceeds b k = true → cmp_bytes k k' ≠ Gt → exceeds b k' = true.
Proof.
  destruct b as [b|]; [|done]. cbn. destruct (cmp_bytes k b) eqn:E; [done..|]. intros _ H.
  apply cmp_gt_lt in E. assert (bytes_lt b k') as Hb by by eapply cmp_lt_le_trans. by apply cmp_gt_lt in Hb as ->.
Qed.

Global Instance in_bounds_dec low high k : Decision (in_bounds low high k).
Proof. unfold in_bounds, bytes_lt. apply _. Defined.

(** The keys from a position of a page on are the ones at or above its key. *)
Lemma keys_from es j e k : ordered es → es !! j = Some e → k ∈ map e_key (drop j es) → k = e_key e ∨ bytes_lt (e_key e) k.
Proof.
  intros Hs He (e' & -> & Hin)%list_elem_of_fmap. apply list_elem_of_lookup in Hin as [i Hi]. rewrite lookup_drop in Hi.
  destruct i; [rewrite Nat.add_0_r, He in Hi; injection Hi as ->; by left|]. right. pose proof (lb_compare (e_key e) es j e Hs He) as Hlb.
  rewrite cmp_refl in Hlb. eapply lb_above; [done| |done]. lia.
Qed.

Lemma keys_above key es k : ordered es → k ∈ map e_key es → k ∈ map e_key (drop (lb key es) es) ↔ cmp_bytes key k ≠ Gt.
Proof.
  intros Hs (e & -> & [i Hi]%list_elem_of_lookup)%list_elem_of_fmap. pose proof (lb_compare key es i e Hs Hi) as Hlb. split.
  - intros (e' & Hk & [j Hj]%list_elem_of_lookup)%list_elem_of_fmap Hgt. rewrite lookup_drop in Hj.
    apply cmp_gt_lt in Hgt. rewrite Hk in Hgt. pose proof (lb_compare key es _ e' Hs Hj) as Hlb'. rewrite Hgt in Hlb'. lia.
  - intros Hle. apply list_elem_of_fmap. exists e. split; [done|]. apply list_elem_of_lookup. exists (i - lb key es)%nat. rewrite lookup_drop.
    rewrite <- Hi. f_equal. destruct (cmp_bytes (e_key e) key) eqn:E; [lia| |lia]. by apply cmp_gt_lt in E.
Qed.

Lemma find_entry_at es e : ordered es → e ∈ es → find_entry (e_key e) es = Some e.
Proof.
  intros Hs [i Hi]%list_elem_of_lookup. rewrite find_entry_lb by done. pose proof (lb_compare (e_key e) es i e Hs Hi) as Hlb.
  rewrite cmp_refl in Hlb. rewrite Hlb, Hi. by rewrite (proj2 (key_eqb_eq _ _)).
Qed.

Section calm.
Context {B T W F : Type} {RB : RecordBound} `{HPB : PageBuffer B} `{HBL : !PageBufferLaws B} `{HPM : PageMap T} `{HML : !PageMapLaws T}
  `{HWL : WriteLog W} `{HLL : !WriteLogLaws W}.
Context (mem : memory) (hp : heap) (limit : nat) (cfg : @Config F) (front : list Z) (mini : Z).
Hypothesis Hsetup : Setup mem cfg front mini.
Hypothesis Hheap : heap_ok hp limit.
Abbreviation env := (@env B T).
Abbreviation tree := (BfTree B T W).
Abbreviation tree_at := (tree_at mem cfg front mini).
Abbreviation at_leaf := (at_leaf mem cfg front mini).
Implicit Types (t : tree) (ls : list leaf) (lv : list level) (m : bytes → option bytes).

(** No leaf has a mini page. *)
Definition no_mini t : Prop :=
  ∃ locs, map_list (page_table (storage t)) locs ∧ Forall (λ l, ∀ ptr, l ≠ Mini ptr) locs.

Lemma no_mini_entry exc t ls i lf loc :
  leaves_at mem cfg front mini exc (storage t) ls → no_mini t → ls !! i = Some lf → get_entry (storage t) (Z.of_nat i) None = Ret (mkEnv (storage t) loc None None) →
  ∀ ptr, loc ≠ Mini ptr.
Proof.
  intros [_ (locs & Hl & H2 & _) _] (locs' & Hl' & Hno) Hi Hg ptr. pose proof (map_length_law _ _ _ Hl Hl') as Hlen.
  apply Forall2_length in H2. apply lookup_lt_Some in Hi. destruct (lookup_lt_is_Some_2 locs' i) as [l Hli]; [lia|].
  unfold get_entry in Hg. rewrite (map_get_law _ _ _ l Hl') in Hg by (rewrite ?Nat2Z.id; done || lia). revert Hg. ret_step. intros [= <-].
  by apply (Forall_lookup_1 _ _ _ _ Hno Hli).
Qed.

(** A tree of one leaf has none. *)
Lemma single_no_mini exc t m : represents mem cfg front mini exc t m → (root_page t).2 = true → no_mini t.
Proof.
  intros (ls & lv & [[HI (locs & Hl & H2 & _) _] _ Hk _ Hone _]) Hr. rewrite Hr in Hk. symmetry in Hk. apply bool_decide_eq_true in Hk.
  exists locs. split; [done|]. apply Forall_lookup. intros i loc Hi ptr ->. destruct (Forall2_lookup_r _ _ _ _ _ H2 Hi) as (lf & _ & (_ & p & _ & n & q & [_ Ho] & _)).
  by apply (Hone Hk ptr).
Qed.

(** The scan promotes no page to the buffer. *)
Definition no_promotion (dice : draws) : Prop := ∀ i, scan_promotion_rate cfg <= dice i.

Lemma no_promotion_head dice : no_promotion dice → should_promote_scan_page cfg (drawn dice) = false.
Proof. intros H. apply Z.ltb_ge, H. Qed.

Lemma no_promotion_later dice : no_promotion dice → no_promotion (later dice).
Proof. intros H i. apply H. Qed.

(** ** A locked leaf *)

(** The lock [l] is on a leaf whose records are on the page [n], and the scan is at its position [o]. *)
Definition standing t (l : ScanLock) (pos : ScanPosition) (n : LeafNode) (o : Z) : Prop :=
  l_exclusive l = false ∧
  ((∃ off, l_loc l = Base off ∧ l_tmp l = Some (mkTmp false n) ∧ is_base_page n = true ∧ pos = ScanBase o) ∨
   (∃ ptr, l_loc l = FullPage ptr ∧ load_cache_page (storage t) ptr = Ret n ∧ pos = ScanFull o)).

Lemma storage_same t : set_storage t (storage t) = t.
Proof. by destruct t. Qed.

(** An operation that only looks. *)
Lemma with_lock_look {A} t l (p : SE TreeError env A) a :
  wp False p (λ r e, r = inr a ∧ e = mkEnv (storage t) (l_loc l) (l_tmp l) None) (mkEnv (storage t) (l_loc l) (l_tmp l) None) →
  with_lock l p t = Ret (inr (a, l), t).
Proof.
  intros (r & e & Hrun & -> & ->)%wp_Ret. unfold with_lock. rewrite Hrun. ret_step. cbn [store location tmp_buffer]. rewrite storage_same. by destruct l.
Qed.

Lemma wp_load_cached (e : env) ptr n (Q : TreeError + LeafNode → env → Prop) :
  load_cache_page (store e) ptr = Ret n → Q (inr n) e → wp False (cache_page ptr) Q e.
Proof. intros Hn HQ. unfold cache_page. wp_step. by eapply wp_lift. Qed.

Lemma standing_record t l pos n o out field bound r :
  standing t l pos n o → get_record_by_pos_with_bound n o out field bound = Ret r →
  with_lock l (scan_record_by_pos_with_bound pos out field bound) t = Ret (inr (r, l), t).
Proof.
  intros [_ H] Hr. apply with_lock_look. unfold scan_record_by_pos_with_bound. wp_step.
  destruct H as [(off & Hl & Ht & Hb & ->)|(ptr & Hl & Hn & ->)]; cbn [location].
  - apply wp_bind. unfold wp at 1, load_base_page_from_buffer. cbn [tmp_buffer]. rewrite Ht. cbn [buffer_page]. rewrite Hb. by eapply wp_lift.
  - rewrite Hl. apply wp_bind. eapply wp_load_cached; [exact Hn|]. by eapply wp_lift.
Qed.

Lemma standing_sibling t l pos n o k :
  standing t l pos n o → get_high_fence_key n = Ret k → with_lock l (get_right_sibling mem) t = Ret (inr (k, l), t).
Proof.
  intros [_ H] Hr. apply with_lock_look. unfold get_right_sibling. wp_step.
  destruct H as [(off & Hl & Ht & Hb & ->)|(ptr & Hl & Hn & ->)]; cbn [location]; rewrite Hl; apply wp_bind.
  - unfold wp at 1, load_base_page. cbn [tmp_buffer]. rewrite Ht. by eapply wp_lift.
  - eapply wp_load_cached; [exact Hn|]. by eapply wp_lift.
Qed.

Lemma standing_next t l pos n o :
  standing t l pos n o → o + 1 < 2 ^ 32 → ∃ pos', move_to_next pos = Ret pos' ∧ standing t l pos' n (o + 1).
Proof.
  intros [He H] Ho. assert (add32 o 1 = Ret (o + 1)) as Ha by (unfold add32; zcase (o + 1 <? 2 ^ 32); [done|lia]).
  destruct H as [(off & Hl & Ht & Hb & ->)|(ptr & Hl & Hn & ->)]; cbn; rewrite Ha; ret_step; eexists; (split; [done|]); split; try done; [left|right]; by eexists.
Qed.

Lemma page_count (n : LeafNode) p : Repr n p → count n < 2 ^ 16.
Proof.
  intros HR. pose proof (layout_fits _ _ (re_layout _ _ HR)) as (_ & _ & H). rewrite (layout_count _ _ (re_layout _ _ HR)). lia.
Qed.

(** The page [n] with the records [p] holds the map between two keys. *)
Record page_shows m (low high : bytes) (n : LeafNode) (p : page) : Prop := {
  ps_repr : Repr n p;
  ps_high : get_high_fence_key n = Ret high;
  ps_range : ∀ k, in_bounds low high k → in_range (p_fences p) k;
  ps_keys : ∀ k, k ∈ map e_key (p_entries p) → in_bounds low high k;
  ps_view : ∀ k, in_bounds low high k → m k = visible (find_entry k (p_entries p));
}.

Lemma page_shows_intro m low high n p l h :
  Repr n p → p_fences p = Some (l, h) → fence_key l = low → fence_key h = high →
  (∀ k, in_bounds low high k → m k = visible (find_entry k (p_entries p))) → page_shows m low high n p.
Proof.
  intros HR Hf <- <- Hv. destruct (fences_ok n p HR l h Hf) as [Hl Hh].
  assert (∀ k, in_range (p_fences p) k ↔ in_bounds (fence_key l) (fence_key h) k) as Hr.
  { intros k. rewrite Hf. cbn. by rewrite above_low_key, below_high_key. }
  split; try done; [by rewrite (high_fence_key n p HR l h Hf)|intros k; apply Hr|].
  intros k (e & -> & He)%list_elem_of_fmap. apply Hr. pose proof (re_range _ _ HR) as Ha. rewrite Forall_forall in Ha. by apply Ha.
Qed.

(** The scan of a leaf without a mini page. *)
Lemma get_scan_position_calm X t lf loc par key m :
  entry_at mem cfg front mini (mkEnv (storage t) loc None par) lf → (∀ ptr, loc ≠ Mini ptr) →
  in_bounds (lf_low lf) (lf_high lf) key → (∀ k, in_bounds (lf_low lf) (lf_high lf) k → lf_view lf k = m k) →
  wp X (get_scan_position mem key false) (λ r e, ∃ pos n p, r = inr (inr pos) ∧ store e = storage t ∧ location e = loc ∧ page_shows m (lf_low lf) (lf_high lf) n p ∧
    match pos with ScanBase _ | ScanFull _ => True | _ => False end ∧
    ∀ i, standing t (mkScanLock i (location e) (tmp_buffer e) false) pos n (first_meta_pos_after_fence n + Z.of_nat (lb key (p_entries p))))
    (mkEnv (storage t) loc None par).
Proof.
  intros (bn & p & [HI Ho (Hb & Hn)] & Hp) Hmini Hkey Hm. cbn in Hn, Hp.
  assert (∀ n p, page_shows m (lf_low lf) (lf_high lf) n p →
    LeafNode.lower_bound n key = Ret (first_meta_pos_after_fence n + Z.of_nat (lb key (p_entries p))) ∧
    as_u32 (first_meta_pos_after_fence n + Z.of_nat (lb key (p_entries p))) = first_meta_pos_after_fence n + Z.of_nat (lb key (p_entries p))) as Hlb.
  { intros n q [HR _ Hr _ _]. split; [by apply lower_bound_lb, Hr|]. apply as_u32_id. pose proof (lb_bound key (p_entries q)). pose proof (count_split n q HR). pose proof (repr_first n q HR). pose proof (page_count n q HR). lia. }
  unfold get_scan_position. wp_step. cbn [location]. destruct loc as [ptr|ptr|o|]; [by destruct (Hmini ptr)| | |done].
  - cbn in Hp. destruct Hp as (n & q & Hown & Hq & _ & Hv). destruct (fi_fences _ _ _ _ _ _ _ Hq) as (l & h & Hf & Hl & Hh).
    assert (page_shows m (lf_low lf) (lf_high lf) n q) as Hs.
    { eapply page_shows_intro; [apply Hq|done..|]. intros k Hk. by rewrite <- Hm, Hv. }
    destruct (Hlb _ _ Hs) as [Hlb' Hu]. apply wp_bind. eapply wp_cache_page; [exact Hown|]. apply wp_bind. eapply wp_lift; [done|].
    wp_step. eexists _, n, q. rewrite Hu. split_and!; try done. intros i. split; [done|]. right. exists ptr. split_and!; try done. by eapply owns_load.
  - cbn in Hp. destruct Hp as [-> Hv]. pose proof (bi_ok _ _ _ _ _ Hb) as (HR & Hbase & _ & _ & l & h & Hf & Hl & Hh).
    assert (page_shows m (lf_low lf) (lf_high lf) bn p) as Hs.
    { eapply page_shows_intro; [done|done..|]. intros k Hk. by rewrite <- Hm, Hv. }
    destruct (Hlb _ _ Hs) as [Hlb' Hu]. apply wp_bind. unfold wp at 1, load_base_page. cbn. rewrite <- Hn. apply wp_bind. eapply wp_lift; [done|].
    wp_step. eexists _, bn, p. rewrite Hu. split_and!; try done. intros i. split; [done|]. left. by exists (lf_offset lf).
Qed.

(** ** The cursor *)
Section tree.
Context (exc : list Z) (t : tree) (ls : list leaf) (lv : list level) (m : bytes → option bytes).
Hypothesis Ht : tree_at exc t ls lv m.
Hypothesis Hcalm : contention t = [].
Hypothesis Hmini0 : no_mini t.

(** The scan with the lock [l] is at the [j]-th record of the page [n] of the leaf before [L2]. *)
Record on_leaf (l : ScanLock) (pos : ScanPosition) (L2 : level) (n : LeafNode) (p : page) (j : nat) : Prop := {
  ol_level : ∃ L1 x, lv !! pred (length lv) = Some (L1 ++ x :: L2) ∧ page_shows m x.1 (next_low L2 []) n p;
  ol_standing : standing t l pos n (first_meta_pos_after_fence n + Z.of_nat j);
}.

(** The keys that are still to come. *)
Definition to_come (L2 : level) (p : page) (j : nat) (k : bytes) : Prop :=
  k ∈ map e_key (drop j (p_entries p)) ∨ (next_low L2 [] ≠ [] ∧ cmp_bytes (next_low L2 []) k ≠ Gt).

Lemma shows_from low L2 n p key k v :
  page_shows m low (next_low L2 []) n p → in_bounds low (next_low L2 []) key → m k = Some v →
  to_come L2 p (lb key (p_entries p)) k ↔ cmp_bytes key k ≠ Gt.
Proof.
  intros Hs [Hkl Hkh] Hk. pose proof (re_order _ _ (ps_repr _ _ _ _ _ Hs)) as Hord. unfold to_come. split.
  - intros [Hin|[Hne Hle]].
    + apply (keys_above key (p_entries p) k Hord); [|done]. apply list_elem_of_fmap in Hin as (e & -> & Hin).
      apply list_elem_of_fmap. exists e. split; [done|]. by eapply subseteq_drop.
    + destruct Hkh as [Hkh|Hkh]; [done|]. eapply bytes_le_trans; [|exact Hle]. intros H. apply cmp_gt_lt in H.
      by eapply bytes_lt_irrefl, cmp_lt_trans.
  - intros Hle. destruct (decide (in_bounds low (next_low L2 []) k)) as [Hin|Hout].
    + left. rewrite (ps_view _ _ _ _ _ Hs k Hin) in Hk. destruct (find_entry k (p_entries p)) as [e|] eqn:Hf; [|done].
      apply find_entry_elem in Hf as [Hel <-]. apply keys_above; [done| |done]. apply list_elem_of_fmap. by exists e.
    + right. destruct (decide (next_low L2 [] = [])) as [Hnil|Hne].
      { destruct Hout. split; [by eapply bytes_le_trans|by left]. }
      split; [done|]. intros H. apply cmp_gt_lt in H. destruct Hout. split; [by eapply bytes_le_trans|by right].
Qed.

(** The leaf of [key], with all records from [key] on to come. *)
Lemma move_cursor_calm key d :
  should_promote_scan_page cfg d = false →
  ∃ pos l high L2 n p, move_cursor_to_leaf mem hp cfg key false d t = Ret (inr (pos, l, high), t) ∧
    on_leaf l pos L2 n p (lb key (p_entries p)) ∧ (∃ L1 x, lv !! pred (length lv) = Some (L1 ++ x :: L2) ∧ in_bounds x.1 (next_low L2 []) key) ∧
    ∀ k v, m k = Some v → to_come L2 p (lb key (p_entries p)) k ↔ cmp_bytes key k ≠ Gt.
Proof.
  intros Hd. destruct (wp_Ret _ _ _ (descent_calm mem hp limit cfg front mini Hsetup Hheap False exc t ls lv m key (cache_only cfg) Ht Hcalm))
    as (r & t' & Hrun & -> & parent & high & L1 & x & L2 & -> & Hcur).
  destruct (lock_leaf mem cfg front mini exc t ls lv m key parent L1 x L2 Ht Hcur) as (i & lf & loc & par & Hal).
  pose proof Hal as [_ _ [Hpid Hi] Hlf [Hlow Hhigh] Hview Hloc Hget Hpar _ _]. destruct (Hget par) as [Hg He].
  assert (∀ ptr, loc ≠ Mini ptr) as Hmini. { eapply no_mini_entry; [apply Ht|done|exact Hlf|apply Hget]. }
  pose proof (cu_key _ _ _ _ _ _ _ _ Hcur) as Hkey. pose proof Hkey as Hkey'. rewrite <- Hlow, <- Hhigh in Hkey'.
  destruct (wp_Ret _ _ _ (get_scan_position_calm False t lf loc par key m He Hmini Hkey' Hview))
    as (r & e1 & Hscan & pos & n & p & -> & Hst & Hloc1 & Hs & Hpos & Hstand).
  rewrite Hlow, Hhigh in Hs. eexists pos, (mkScanLock (Z.of_nat i) (location e1) (tmp_buffer e1) false), high, L2, n, p. split.
  - unfold move_cursor_to_leaf, mbind, SE_bind. rewrite Hrun. unfold lock_scanned. rewrite Hpid, as_id_from_id by lia. ret_step.
    rewrite Hpar. ret_step. rewrite Hg. ret_step.
    assert (scan_shared mem cfg key x.2 parent d (mkEnv (storage t) loc None par, t) = Ret (inr (Some pos), (e1, t))) as Hsh.
    { enough (wp False (scan_shared mem cfg key x.2 parent d) (λ r s, r = inr (Some pos) ∧ s = (e1, t)) (mkEnv (storage t) loc None par, t))
        as (? & ? & H & -> & ->)%wp_Ret by done. unfold scan_shared.
      apply wp_bind, wp_on_tree, check_parent_calm; [done|by eapply cursor_top|..]. rewrite (su_disk_mode _ _ _ _ Hsetup).
      apply wp_bind, wp_on_entry. unfold wp at 1. rewrite Hscan. destruct pos; try done.
      rewrite Hd, orb_true_r. by apply wp_ret. }
    rewrite <- Hpid, Hsh. ret_step. cbn [keep_lock fst snd]. ret_step. rewrite Hst, storage_same. done.
  - split; [split; [by exists L1, x; split; [apply Hcur|]|apply Hstand]|]. split; [exists L1, x; by split; [apply Hcur|]|].
    intros k v. by apply (shows_from x.1 L2 n p key).
Qed.

(** The records of the tree are as large as a client may write them. *)
Lemma record_limits k v : m k = Some v → limits cfg k v.
Proof.
  intros Hk. destruct (wp_Ret _ _ _ (descent_calm mem hp limit cfg front mini Hsetup Hheap False exc t ls lv m k (cache_only cfg) Ht Hcalm))
    as (r & t' & _ & _ & parent & high & L1 & x & L2 & _ & Hcur).
  destruct (lock_leaf mem cfg front mini exc t ls lv m k parent L1 x L2 Ht Hcur) as (i & lf & loc & par & Hal).
  pose proof Hal as [_ _ _ _ [Hlow Hhigh] Hview _ Hget _ _ _]. destruct (Hget par) as [_ He].
  eapply (view_limits mem cfg front mini); [exact He|]. rewrite Hview; [done|]. rewrite Hlow, Hhigh. apply Hcur.
Qed.

(** Moving on at the upper bound of a leaf gets nearer to the end. *)
Lemma later_leaf L1 x L2 L1' x' L2' :
  lv !! pred (length lv) = Some (L1 ++ x :: L2) → lv !! pred (length lv) = Some (L1' ++ x' :: L2') → next_low L2 [] ≠ [] →
  in_bounds x'.1 (next_low L2' []) (next_low L2 []) → (length L2' < length L2)%nat.
Proof.
  intros H1 H2 Hne Hin. pose proof (Forall_lookup_1 _ _ _ _ (sh_sorted _ _ _ (ta_shape _ _ _ _ _ _ _ _ _ Ht)) H2) as Hs.
  rewrite H1 in H2. injection H2 as H2. rewrite (cons_middle x), (cons_middle x'), !app_assoc in H2.
  destruct L2 as [|[a q] L2]; [done|]. cbn in Hin. destruct x' as [low pid].
  assert (∀ A, L2' ≠ A ++ (a, q) :: L2) as Hno.
  { intros A ->. eapply (above_mid L1' low pid A a q L2 []); [exact Hs|split; [|by left]|exact Hin]. by rewrite cmp_refl. }
  destruct (app_eq_inv _ _ _ _ H2) as [(A & _ & HA)|(A & _ & HA)]; [by destruct (Hno A)|].
  destruct A as [|y A]; [by destruct (Hno [])|]. rewrite HA, length_app. cbn. lia.
Qed.

Lemma to_come_S L2 p j e k : p_entries p !! j = Some e → to_come L2 p j k ↔ k = e_key e ∨ to_come L2 p (S j) k.
Proof. intros He. unfold to_come. rewrite (drop_S _ _ _ He). cbn [map]. rewrite elem_of_cons. tauto. Qed.

Lemma to_come_end L2 p j k : p_entries p !! j = None → to_come L2 p j k ↔ next_low L2 [] ≠ [] ∧ cmp_bytes (next_low L2 []) k ≠ Gt.
Proof.
  intros He%lookup_ge_None. unfold to_come. rewrite drop_ge by done. cbn. split; [|by right]. intros [H|H]; [by apply elem_of_nil in H|done].
Qed.

Section leaf.
Context (l : ScanLock) (pos : ScanPosition) (L2 : level) (n : LeafNode) (p : page) (j : nat).
Hypothesis Hon : on_leaf l pos L2 n p j.

Lemma to_come_above e k : p_entries p !! j = Some e → to_come L2 p j k → k = e_key e ∨ bytes_lt (e_key e) k.
Proof.
  destruct Hon as [(L1 & x & Hlv & Hs) _]. pose proof (re_order _ _ (ps_repr _ _ _ _ _ Hs)) as Hord.
  intros He [Hin|[Hne Hle]]; [by eapply keys_from|]. right.
  destruct (ps_keys _ _ _ _ _ Hs (e_key e)) as [_ [Hk|Hk]]; [|done|by eapply cmp_lt_le_trans].
  apply list_elem_of_fmap. exists e. split; [done|]. by eapply list_elem_of_lookup_2.
Qed.

Lemma to_come_past e : p_entries p !! j = Some e → ¬ to_come L2 p (S j) (e_key e).
Proof.
  destruct Hon as [(L1 & x & Hlv & Hs) _]. pose proof (re_order _ _ (ps_repr _ _ _ _ _ Hs)) as Hord. intros He [Hin|[Hne Hle]].
  - apply list_elem_of_fmap in Hin as (e' & Hk & [i Hi]%list_elem_of_lookup). rewrite lookup_drop in Hi.
    pose proof (lb_compare (e_key e) _ _ _ Hord He) as H1. pose proof (lb_compare (e_key e) _ _ _ Hord Hi) as H2.
    rewrite <- Hk, cmp_refl in H2. rewrite cmp_refl in H1. lia.
  - destruct (ps_keys _ _ _ _ _ Hs (e_key e)) as [_ [Hk|Hk]]; [|done|].
    + apply list_elem_of_fmap. exists e. split; [done|]. by eapply list_elem_of_lookup_2.
    + by eapply bytes_lt_irrefl, cmp_lt_le_trans.
Qed.

Lemma entry_shown e : p_entries p !! j = Some e → m (e_key e) = visible (Some e).
Proof.
  destruct Hon as [(L1 & x & Hlv & Hs) _]. intros He%list_elem_of_lookup_2. rewrite (ps_view _ _ _ _ _ Hs).
  - by rewrite find_entry_at; [|apply (ps_repr _ _ _ _ _ Hs)|].
  - apply (ps_keys _ _ _ _ _ Hs), list_elem_of_fmap. by exists e.
Qed.

Lemma step_position : is_Some (p_entries p !! j) → ∃ pos', move_to_next pos = Ret pos' ∧ on_leaf l pos' L2 n p (S j).
Proof.
  intros [e He]. destruct Hon as [(L1 & x & Hlv & Hs) Hst]. pose proof (ps_repr _ _ _ _ _ Hs) as HR.
  pose proof (page_count n p HR). pose proof (count_split n p HR). apply lookup_lt_Some in He. pose proof (repr_first n p HR).
  destruct (standing_next _ _ _ _ _ Hst) as (pos' & Hm & Hst'); [lia|]. exists pos'. split; [done|]. split; [by exists L1, x|].
  by replace (first_meta_pos_after_fence n + Z.of_nat (S j)) with (first_meta_pos_after_fence n + Z.of_nat j + 1) by lia.
Qed.
End leaf.

(** ** [next] *)

(** What [next] does when the keys [todo] are to come: it returns the least of them, or there is none in the range. *)
Definition next_good (it : ScanIter) (todo : bytes → Prop) (out : bytes) (nx : ScanNext) : Prop :=
  match n_found nx with
  | None => ∀ k v, m k = Some v → todo k → exceeds (end_key it) k = true
  | Some lens => ∃ k v L2 n p j,
      m k = Some v ∧ todo k ∧ exceeds (end_key it) k = false ∧
      (∀ k' v', m k' = Some v' → todo k' → k' = k ∨ bytes_lt k k') ∧
      lens = field_lens (scan_field it) (mkEntry k OpInsert v) ∧
      n_buffer nx = field_bytes (scan_field it) (mkEntry k OpInsert v) ++ drop (length (field_bytes (scan_field it) (mkEntry k OpInsert v))) out ∧
      on_leaf (leaf_lock (n_iter nx)) (scan_position (n_iter nx)) L2 n p j ∧
      (∀ k' v', m k' = Some v' → to_come L2 p j k' ↔ todo k' ∧ k' ≠ k) ∧
      scan_cnt (n_iter nx) = scan_cnt it - 1 ∧ end_key (n_iter nx) = end_key it ∧ scan_field (n_iter nx) = scan_field it ∧
      no_promotion (n_dice nx)
  end.

Lemma next_good_mono it it' (todo todo' : bytes → Prop) out nx :
  (∀ k v, m k = Some v → todo k ↔ todo' k) → end_key it' = end_key it → scan_field it' = scan_field it → scan_cnt it' = scan_cnt it →
  next_good it' todo' out nx → next_good it todo out nx.
Proof.
  intros Hiff He Hf Hc. unfold next_good. destruct (n_found nx) as [lens|]; rewrite He, ?Hf, ?Hc.
  - intros (k & v & L2 & n & p & j & Hk & Hto & Hex & Hleast & H1 & H2 & H3 & H4 & H5). exists k, v, L2, n, p, j.
    split_and!; try done; [by apply (Hiff k v)|intros k' v' Hk' Hto'; eapply Hleast; [done|by apply (Hiff k' v')]|
      intros k' v' Hk'; rewrite (H4 k' v' Hk'); by rewrite (Hiff k' v' Hk')|apply H5..].
  - intros H k v Hk Hto. eapply H; [done|]. by apply (Hiff k v).
Qed.

(** A client whose buffer has room for every record. *)
Definition room_for (field : ScanReturnField) (out : bytes) : Prop :=
  ∀ k v, m k = Some v → zlen (field_bytes field (mkEntry k OpInsert v)) <= zlen out.

Definition served (it : ScanIter) (todo : bytes → Prop) (out : bytes) (dice : draws) : Prop :=
  ∃ nx f0, next_good it todo out nx ∧ ∀ fuel, (f0 <= fuel)%nat → next mem hp cfg it out dice fuel t = Ret (inr (Done nx), t).

(** The leaf has another record. *)
Lemma next_in_leaf it L2 n p j e out dice :
  on_leaf (leaf_lock it) (scan_position it) L2 n p j → p_entries p !! j = Some e → 1 <= scan_cnt it → room_for (scan_field it) out →
  no_promotion dice →
  (∀ pos, on_leaf (leaf_lock it) pos L2 n p (S j) → served (set_scan_position it pos) (to_come L2 p (S j)) out dice) →
  served it (to_come L2 p j) out dice.
Proof.
  intros Hon He Hcnt Hroom Hdice Hnext. destruct (step_position _ _ _ _ _ _ Hon) as (pos' & Hmove & Hon'); [by eexists|].
  destruct (Hnext pos' Hon') as (nx & f0 & Hgood & Hf0). pose proof (entry_shown _ _ _ _ _ _ Hon e He) as Hm. pose proof (to_come_above _ _ _ _ _ _ Hon e) as Habove.
  assert (get_record_by_pos_with_bound n (first_meta_pos_after_fence n + Z.of_nat j) out (scan_field it) (end_key it) =
    Ret (scan_entry (p_entries p) j out (scan_field it) (end_key it))) as Hrec.
  { destruct Hon as [(L1 & x & _ & Hs) _]. apply (scan_entry_spec n p (ps_repr _ _ _ _ _ Hs)). intros e' He' Hop _.
    rewrite He in He'. injection He' as <-. cbn in Hm. rewrite Hop in Hm. pose proof (Hroom _ _ Hm). by destruct (scan_field it). }
  assert (set_leaf_lock it (leaf_lock it) = it) as Hsame by by destruct it.
  assert (((scan_cnt it =? 0) && bool_decide (end_key it = None)) = false) as Hgo by (rewrite (proj2 (Z.eqb_neq _ _)); [done|lia]).
  pose proof (standing_record _ _ _ _ _ _ _ _ _ (ol_standing _ _ _ _ _ _ Hon) Hrec) as Hlock.
  unfold scan_entry in Hlock. rewrite He in Hlock. cbn in Hm. destruct (is_absent (e_op e)) eqn:Hop.
  - exists nx, (S f0). split.
    2:{ intros [|fuel] Hfuel; [lia|]. cbn [next]. rewrite Hgo. unfold mbind, SE_bind. rewrite Hlock. unfold lift. rewrite Hmove, Hsame. apply Hf0. lia. }
    eapply next_good_mono; [|done..|exact Hgood]. intros k v Hk. rewrite (to_come_S _ _ _ _ _ He). split; [|by right]. intros [->|H]; [|done]. by rewrite Hm in Hk.
  - destruct (exceeds (end_key it) (e_key e)) eqn:Hex.
    + eexists _, 1%nat. split.
      2:{ intros [|fuel] Hfuel; [lia|]. cbn [next]. rewrite Hgo. unfold mbind, SE_bind. rewrite Hlock. done. }
      cbn. intros k v Hk Hto. destruct (Habove k He Hto) as [->|Hlt]; [done|].
      eapply exceeds_mono; [exact Hex|]. by rewrite Hlt.
    + eexists _, 1%nat. split.
      2:{ intros [|fuel] Hfuel; [lia|]. cbn [next]. rewrite Hgo. unfold mbind, SE_bind. rewrite Hlock. unfold lift. rewrite Hmove.
          unfold subu. zcase (1 <=? scan_cnt it); [|lia]. rewrite Hsame. done. }
      cbn [next_good n_found n_buffer n_iter n_dice]. exists (e_key e), (e_val e), L2, n, p, (S j). rewrite <- surjective_pairing.
      split_and!; try done; try by destruct (scan_field it).
      * apply (to_come_S _ _ _ _ _ He). by left.
      * intros k' v' _ Hto. by apply Habove.
      * intros k' v' _. rewrite (to_come_S _ _ _ _ _ He). split; [|intros [[->|H] Hne]; done]. intros H. split; [by right|].
        intros ->. by apply (to_come_past _ _ _ _ _ _ Hon e He).
Qed.

(** The leaf has no more records. *)
Lemma next_leaf_calm key dice :
  no_promotion dice → ∃ pos l high L2 n p,
    (∀ fuel, (1 <= fuel)%nat → next_leaf mem hp cfg key false dice fuel t = Ret (inr (Done (pos, l, high, later dice)), t) ∧
      first_leaf mem hp cfg key false dice fuel t = Ret (inr (Done (pos, l, high, later dice)), t)) ∧
    on_leaf l pos L2 n p (lb key (p_entries p)) ∧ (∃ L1 x, lv !! pred (length lv) = Some (L1 ++ x :: L2) ∧ in_bounds x.1 (next_low L2 []) key) ∧
    ∀ k v, m k = Some v → to_come L2 p (lb key (p_entries p)) k ↔ cmp_bytes key k ≠ Gt.
Proof.
  intros Hd%no_promotion_head. destruct (move_cursor_calm key _ Hd) as (pos & l & high & L2 & n & p & Hrun & H).
  exists pos, l, high, L2, n, p. split; [|done]. intros [|fuel] Hf; [lia|]. cbn [next_leaf first_leaf]. unfold mbind, SE_bind, result. by rewrite Hrun.
Qed.

Lemma next_at_end it L2 n p j out dice :
  on_leaf (leaf_lock it) (scan_position it) L2 n p j → p_entries p !! j = None → 1 <= scan_cnt it → no_promotion dice →
  (∀ it' L2' n' p' j', (length L2' < length L2)%nat → on_leaf (leaf_lock it') (scan_position it') L2' n' p' j' →
     end_key it' = end_key it → scan_field it' = scan_field it → scan_cnt it' = scan_cnt it → served it' (to_come L2' p' j') out (later dice)) →
  served it (to_come L2 p j) out dice.
Proof.
  intros Hon He Hcnt Hdice Hnext. pose proof Hon as [(L1 & x & Hlv & Hs) Hst].
  assert (get_record_by_pos_with_bound n (first_meta_pos_after_fence n + Z.of_nat j) out (scan_field it) (end_key it) = Ret (EndOfLeaf, out)) as Hrec.
  { rewrite (scan_entry_spec n p (ps_repr _ _ _ _ _ Hs)); [unfold scan_entry|]; rewrite He; done. }
  assert (set_leaf_lock it (leaf_lock it) = it) as Hsame by by destruct it.
  assert (((scan_cnt it =? 0) && bool_decide (end_key it = None)) = false) as Hgo by (rewrite (proj2 (Z.eqb_neq _ _)); [done|lia]).
  pose proof (standing_record _ _ _ _ _ _ _ _ _ Hst Hrec) as Hlock.
  pose proof (standing_sibling _ _ _ _ _ _ Hst (ps_high _ _ _ _ _ Hs)) as Hsib. pose proof (su_disk_mode _ _ _ _ Hsetup) as Hdisk.
  destruct (decide (next_low L2 [] = [])) as [Hnil|Hne].
  - eexists _, 1%nat. split.
    2:{ intros [|fuel] Hfuel; [lia|]. cbn [next]. rewrite Hgo. unfold mbind, SE_bind. rewrite Hlock, Hdisk. cbn [negb]. rewrite Hsib, Hnil. done. }
    cbn. intros k v _ Hto. by apply (to_come_end _ _ _ _ He) in Hto as [].
  - assert ((zlen (next_low L2 []) =? 0) = false) as Hlen by (destruct (next_low L2 []); [done|]; apply Z.eqb_neq; rewrite zlen_cons; pose proof (zlen_nonneg l); lia).
    destruct (next_leaf_calm (next_low L2 []) dice Hdice) as (pos & l & high & L2' & n' & p' & Hleaf & Hon' & (L1' & x' & Hlv' & Hin) & Hfrom).
    destruct (Hnext (set_scan_leaf it pos l high) L2' n' p' _ (later_leaf _ _ _ _ _ _ Hlv Hlv' Hne Hin) Hon') as (nx & f0 & Hgood & Hf0); [done..|].
    exists nx, (S (S f0)). split.
    2:{ intros [|fuel] Hfuel; [lia|]. cbn [next]. rewrite Hgo. unfold mbind, SE_bind. rewrite Hlock, Hdisk. cbn [negb]. rewrite Hsib, Hlen.
      rewrite (proj1 (Hleaf fuel ltac:(lia))). unfold unlock. destruct Hst as [-> _]. rewrite !Hsame. apply Hf0. lia. }
    eapply next_good_mono; [|done..|exact Hgood]. intros k v Hk. rewrite (to_come_end _ _ _ _ He), (Hfrom k v Hk). tauto.
Qed.

(** Every call of [next] returns: the least record to come, or nothing when there is none in the range. *)
Lemma next_spec : ∀ N M it L2 n p j out dice,
  (length L2 <= N)%nat → (length (p_entries p) - j <= M)%nat → on_leaf (leaf_lock it) (scan_position it) L2 n p j →
  1 <= scan_cnt it → room_for (scan_field it) out → no_promotion dice → served it (to_come L2 p j) out dice.
Proof.
  induction N as [N IHN] using lt_wf_ind. induction M as [|M IHM]; intros it L2 n p j out dice HN HM Hon Hcnt Hroom Hdice.
  - eapply next_at_end; [done|apply lookup_ge_None; lia|done..|]. intros it' L2' n' p' j' Hlen Hon' He Hf Hc.
    eapply (IHN (length L2')); [lia|done..| | |by apply no_promotion_later]; rewrite ?Hc, ?Hf; done.
  - destruct (p_entries p !! j) as [e|] eqn:He.
    + eapply next_in_leaf; [done..|]. intros pos Hon'. apply (IHM _ _ n); try done. lia.
    + eapply next_at_end; [done..|]. intros it' L2' n' p' j' Hlen Hon' He' Hf Hc.
      eapply (IHN (length L2')); [lia|done..| | |by apply no_promotion_later]; rewrite ?Hc, ?Hf; done.
Qed.

(** ** A whole scan *)

(** What a client keeps of a record: the two lengths and the bytes. *)
Definition row (field : ScanReturnField) (kv : bytes * bytes) : Z * Z * bytes :=
  (field_lens field (mkEntry kv.1 OpInsert kv.2), field_bytes field (mkEntry kv.1 OpInsert kv.2)).

(** A client that calls [next] at most [num] times, with the same buffer each time. *)
Fixpoint collect (num : nat) (it : ScanIter) (out : bytes) (dice : draws) (fuel : nat) : SE TreeError tree (progress (list (Z * Z * bytes))) :=
  match num with
  | O => mret (Done [])
  | S num' =>
      r ← next mem hp cfg it out dice fuel;
      match r with
      | Waiting => mret Waiting
      | Done nx =>
          match n_found nx with
          | None => mret (Done [])
          | Some (kl, vl) =>
              rest ← collect num' (n_iter nx) out (n_dice nx) fuel;
              match rest with
              | Waiting => mret Waiting
              | Done rows => mret (Done ((kl, vl, take (Z.to_nat (kl + vl)) (n_buffer nx)) :: rows))
              end
          end
      end
  end.

(** The records of a range, in order. *)
Definition records_of (todo : bytes → Prop) (bound : option bytes) (records : list (bytes * bytes)) : Prop :=
  StronglySorted bytes_lt (map fst records) ∧ ∀ k v, (k, v) ∈ records ↔ m k = Some v ∧ todo k ∧ exceeds bound k = false.

Lemma records_of_nil todo bound records :
  records_of todo bound records → (∀ k v, m k = Some v → todo k → exceeds bound k = true) → records = [].
Proof.
  intros [_ H] Hno. destruct records as [|[k v] records]; [done|]. destruct (H k v) as [(H1 & H2 & H3) _]; [left|].
  by rewrite (Hno k v) in H3.
Qed.

Lemma records_of_cons (todo todo' : bytes → Prop) bound records k v :
  records_of todo bound records → m k = Some v → todo k → exceeds bound k = false →
  (∀ k' v', m k' = Some v' → todo k' → k' = k ∨ bytes_lt k k') → (∀ k' v', m k' = Some v' → todo' k' ↔ todo k' ∧ k' ≠ k) →
  ∃ rest, records = (k, v) :: rest ∧ records_of todo' bound rest.
Proof.
  intros [Hs H] Hk Hto Hex Hleast Hiff. destruct records as [|[k0 v0] rest].
  { assert ((k, v) ∈ @nil (bytes * bytes)) as Hin by by apply H. by apply elem_of_nil in Hin. }
  destruct (proj1 (H k0 v0)) as (H1 & H2 & H3); [left|]. cbn in Hs. apply StronglySorted_inv in Hs as [Hs Hs'].
  apply (Forall_fmap fst (bytes_lt k0) rest) in Hs'. rewrite Forall_forall in Hs'.
  assert (k0 = k) as ->.
  { destruct (Hleast k0 v0 H1 H2) as [|Hlt]; [done|]. pose proof (proj2 (H k v) ltac:(done)) as Hin. apply elem_of_cons in Hin as [[= -> ->]|Hin]; [done|].
    apply Hs' in Hin. cbn in Hin. by destruct (bytes_lt_irrefl k); eapply cmp_lt_trans. }
  rewrite Hk in H1. injection H1 as <-. exists rest. split; [done|]. split; [done|].
  intros k' v'. split.
  - intros Hin. destruct (proj1 (H k' v')) as (Hk' & Hto' & Hex'); [by right|]. split_and!; try done. apply (Hiff k' v' Hk'). split; [done|].
    intros ->. apply Hs' in Hin. by eapply bytes_lt_irrefl.
  - intros (Hk' & Hto' & Hex'). apply (Hiff k' v' Hk') in Hto' as [Hto' Hne]. pose proof (proj2 (H k' v') ltac:(done)) as Hin.
    apply elem_of_cons in Hin as [[= -> ->]|Hin]; done.
Qed.

Lemma row_of_buffer field kv out : 
  let '(kl, vl) := field_lens field (mkEntry kv.1 OpInsert kv.2) in
  let bs := field_bytes field (mkEntry kv.1 OpInsert kv.2) in
  (kl, vl, take (Z.to_nat (kl + vl)) (bs ++ drop (length bs) out)) = row field kv.
Proof.
  assert (∀ bs r : bytes, take (Z.to_nat (zlen bs)) (bs ++ r) = bs) as H by (intros bs r; unfold zlen; rewrite Nat2Z.id; apply take_app_length).
  unfold row. destruct field; cbn [field_lens field_bytes]; f_equal; rewrite ?Z.add_0_r, ?Z.add_0_l, <- ?zlen_app; apply H.
Qed.

(** After as many records as were asked for, a scan without an upper bound is over. *)
Lemma next_exhausted it out dice fuel :
  scan_cnt it = 0 → end_key it = None → (1 <= fuel)%nat → next mem hp cfg it out dice fuel t = Ret (inr (Done (mkNext None out it dice)), t).
Proof. intros Hc He Hf. destruct fuel as [|fuel]; [lia|]. cbn [next]. by rewrite Hc, He. Qed.

Lemma scan_collect_spec num : ∀ it L2 n p j out dice records,
  on_leaf (leaf_lock it) (scan_position it) L2 n p j → 0 <= scan_cnt it → (end_key it = None ∨ Z.of_nat num <= scan_cnt it) →
  room_for (scan_field it) out → no_promotion dice → records_of (to_come L2 p j) (end_key it) records →
  ∃ f0, ∀ fuel, (f0 <= fuel)%nat →
    collect num it out dice fuel t = Ret (inr (Done (map (row (scan_field it)) (take (min num (Z.to_nat (scan_cnt it))) records))), t).
Proof.
  induction num as [|num IH]; intros it L2 n p j out dice records Hon Hpos Hcnt Hroom Hdice Hrec; [by exists 0%nat|].
  destruct (decide (scan_cnt it = 0)) as [Hzero|Hnz].
  { exists 1%nat. intros fuel Hfuel. cbn [collect]. unfold mbind, SE_bind. rewrite next_exhausted by (lia || (destruct Hcnt; [done|lia])).
    by rewrite Hzero. }
  destruct (next_spec _ _ _ _ _ _ _ _ _ (le_n _) (le_n _) Hon ltac:(lia) Hroom Hdice) as (nx & f0 & Hgood & Hf0).
  unfold next_good in Hgood. destruct (n_found nx) as [lens|] eqn:Hfound.
  - destruct Hgood as (k & v & L2' & n' & p' & j' & Hk & Hto & Hex & Hleast & Hlens & Hbuf & Hon' & Hiff & Hc' & He' & Hf' & Hd').
    destruct (records_of_cons _ _ _ _ _ _ Hrec Hk Hto Hex Hleast Hiff) as (rest & -> & Hrest). rewrite <- He' in Hrest.
    destruct (IH (n_iter nx) L2' n' p' j' out (n_dice nx) rest) as [f1 Hf1]; [done|lia|rewrite He'; destruct Hcnt; [by left|right; lia]|by rewrite Hf'|done..|].
    exists (max f0 f1). intros fuel Hfuel. cbn [collect]. unfold mbind, SE_bind. rewrite Hf0 by lia. rewrite Hfound.
    pose proof (row_of_buffer (scan_field it) (k, v) out) as Hrow. cbn [fst snd] in Hrow. rewrite <- Hlens in Hrow.
    destruct lens as [kl vl]. rewrite Hf1 by lia. rewrite Hbuf, Hc'. replace (Z.to_nat (scan_cnt it)) with (S (Z.to_nat (scan_cnt it - 1))) by lia.
    cbn [Nat.min take map]. unfold mret, SE_ret. by rewrite <- Hrow, Hf'.
  - exists f0. intros fuel Hfuel. cbn [collect]. unfold mbind, SE_bind. rewrite Hf0, Hfound by lia.
    rewrite (records_of_nil _ _ _ Hrec Hgood). by rewrite take_nil.
Qed.

(** ** The records of a range *)
Lemma records_of_iff (todo todo' : bytes → Prop) bound records :
  (∀ k v, m k = Some v → todo k ↔ todo' k) → records_of todo' bound records → records_of todo bound records.
Proof.
  intros Hiff [Hs H]. split; [done|]. intros k v. rewrite H. split; intros (Hk & Ht' & Hex); (split_and!; [done|by apply (Hiff k v Hk)|done]).
Qed.

Lemma records_of_put (todo todo' : bytes → Prop) bound rest k v :
  m k = Some v → todo k → exceeds bound k = false → (∀ k' v', m k' = Some v' → todo k' → k' = k ∨ bytes_lt k k') →
  (∀ k' v', m k' = Some v' → todo' k' ↔ todo k' ∧ k' ≠ k) → records_of todo' bound rest → records_of todo bound ((k, v) :: rest).
Proof.
  intros Hk Hto Hex Hleast Hiff [Hs H]. split.
  - cbn. constructor; [done|]. apply (Forall_fmap fst (bytes_lt k) rest), Forall_forall. intros [k' v'] Hin. cbn.
    apply H in Hin as (Hk' & Hto' & _). apply (Hiff k' v' Hk') in Hto' as [Hto' Hne]. by destruct (Hleast k' v' Hk' Hto').
  - intros k' v'. rewrite elem_of_cons, H. split.
    + intros [[= -> ->]|(Hk' & Hto' & Hex')]; [done|]. split_and!; try done. by apply (Hiff k' v' Hk').
    + intros (Hk' & Hto' & Hex'). destruct (decide (k' = k)) as [->|Hne]; [left; rewrite Hk in Hk'; by injection Hk' as ->|].
      right. split_and!; try done. by apply (Hiff k' v' Hk').
Qed.

(** One step of the enumeration of the records: the next one in the leaf, or the next leaf. *)
Lemma records_in_leaf bound l pos L2 n p j e :
  on_leaf l pos L2 n p j → p_entries p !! j = Some e → (∃ rest, records_of (to_come L2 p (S j)) bound rest) →
  ∃ records, records_of (to_come L2 p j) bound records.
Proof.
  intros Hon He [rest Hrest]. pose proof (entry_shown _ _ _ _ _ _ Hon e He) as Hm. cbn in Hm. destruct (is_absent (e_op e)).
  - exists rest. eapply records_of_iff; [|exact Hrest]. intros k v Hk. rewrite (to_come_S _ _ _ _ _ He).
    split; [|by right]. intros [->|H]; [|done]. by rewrite Hm in Hk.
  - destruct (exceeds bound (e_key e)) eqn:Hex.
    + exists []. split; [constructor|]. intros k v. split; [by intros ?%elem_of_nil|]. intros (_ & Hto & Hno).
      destruct (to_come_above _ _ _ _ _ _ Hon e k He Hto) as [->|Hlt]; [by rewrite Hex in Hno|].
      rewrite (exceeds_mono _ _ k Hex) in Hno; [done|]. by rewrite Hlt.
    + exists ((e_key e, e_val e) :: rest). eapply records_of_put; try done.
      * apply (to_come_S _ _ _ _ _ He). by left.
      * intros k' v' _ Hto. by eapply to_come_above.
      * intros k' v' _. rewrite (to_come_S _ _ _ _ _ He). split; [|intros [[->|H] Hne]; done]. intros H. split; [by right|].
        intros ->. by apply (to_come_past _ _ _ _ _ _ Hon e He).
Qed.

Lemma records_at_end bound l pos L2 n p j :
  on_leaf l pos L2 n p j → p_entries p !! j = None →
  (∀ l' pos' L2' n' p' j', (length L2' < length L2)%nat → on_leaf l' pos' L2' n' p' j' → ∃ rest, records_of (to_come L2' p' j') bound rest) →
  ∃ records, records_of (to_come L2 p j) bound records.
Proof.
  intros [(L1 & x & Hlv & Hs) _] He Hnext. destruct (decide (next_low L2 [] = [])) as [Hnil|Hne].
  - exists []. split; [constructor|]. intros k v. split; [by intros ?%elem_of_nil|]. intros (_ & Hto & _). by apply (to_come_end _ _ _ _ He) in Hto as [].
  - assert (should_promote_scan_page cfg (scan_promotion_rate cfg) = false) as Hd by apply Z.ltb_irrefl.
    destruct (move_cursor_calm (next_low L2 []) _ Hd) as (pos' & l' & high & L2' & n' & p' & _ & Hon' & (L1' & x' & Hlv' & Hin) & Hfrom).
    destruct (Hnext _ _ _ _ _ _ (later_leaf _ _ _ _ _ _ Hlv Hlv' Hne Hin) Hon') as [rest Hrest]. exists rest.
    eapply records_of_iff; [|exact Hrest]. intros k v Hk. rewrite (to_come_end _ _ _ _ He), (Hfrom k v Hk). tauto.
Qed.

Lemma records_exist bound : ∀ N M l pos L2 n p j,
  (length L2 <= N)%nat → (length (p_entries p) - j <= M)%nat → on_leaf l pos L2 n p j → ∃ records, records_of (to_come L2 p j) bound records.
Proof.
  induction N as [N IHN] using lt_wf_ind. induction M as [|M IHM]; intros l pos L2 n p j HN HM Hon.
  - eapply records_at_end; [done|apply lookup_ge_None; lia|]. intros l' pos' L2' n' p' j' Hlen Hon'. by eapply (IHN (length L2')); [lia|..].
  - destruct (p_entries p !! j) as [e|] eqn:He.
    + eapply records_in_leaf; [done..|]. destruct (step_position _ _ _ _ _ _ Hon) as (pos' & _ & Hon'); [by eexists|]. eapply (IHM _ _ _ n); [done|lia|done].
    + eapply records_at_end; [done..|]. intros l' pos' L2' n' p' j' Hlen Hon'. by eapply (IHN (length L2')); [lia|..].
Qed.
End tree.

(** ** Clients *)
Inductive scan_range := ScanCount (cnt : Z) | ScanUpTo (end_key : bytes).

Definition bound_of (r : scan_range) : option bytes := match r with ScanCount _ => None | ScanUpTo e => Some e end.
Definition count_of (r : scan_range) : Z := match r with ScanCount cnt => cnt | ScanUpTo _ => USIZE_MAX end.

(** The arguments that the entry points accept. *)
Definition range_valid (start : bytes) (r : scan_range) : Prop :=
  key_too_large cfg start = false ∧ start ≠ [] ∧
  match r with ScanCount cnt => 1 <= cnt | ScanUpTo e => key_too_large cfg e = false ∧ e ≠ [] ∧ cmp_bytes start e ≠ Gt end.

Definition open_scan (start : bytes) (r : scan_range) (field : ScanReturnField) (dice : draws) (fuel : nat) :
    SE TreeError tree (ScanIterError + progress (ScanIter * draws)) :=
  match r with
  | ScanCount cnt => scan_with_count mem hp cfg start cnt field dice fuel
  | ScanUpTo e => scan_with_end_key mem hp cfg start e field dice fuel
  end.

(** A scan and at most [num] calls of [next]. *)
Definition run_scan (num : nat) (start : bytes) (r : scan_range) (field : ScanReturnField) (out : bytes) (dice : draws) (fuel : nat) :
    SE TreeError tree (ScanIterError + progress (list (Z * Z * bytes))) :=
  o ← open_scan start r field dice fuel;
  match o with
  | inl err => mret (inl err)
  | inr Waiting => mret (inr Waiting)
  | inr (Done (it, dice')) => rows ← collect num it out dice' fuel; mret (inr rows)
  end.

Lemma zlen_nonempty (k : bytes) : k ≠ [] → (zlen k =? 0) = false.
Proof. destruct k; [done|]. intros _. apply Z.eqb_neq. rewrite zlen_cons. pose proof (zlen_nonneg k). lia. Qed.

Lemma open_scan_calm exc t ls lv m start r field dice :
  tree_at exc t ls lv m → contention t = [] → no_mini t → no_promotion dice → range_valid start r →
  ∃ it L2 n p j, on_leaf t lv m (leaf_lock it) (scan_position it) L2 n p j ∧
    (∀ k v, m k = Some v → to_come L2 p j k ↔ cmp_bytes start k ≠ Gt) ∧
    scan_cnt it = count_of r ∧ end_key it = bound_of r ∧ scan_field it = field ∧
    ∀ fuel, (1 <= fuel)%nat → open_scan start r field dice fuel t = Ret (inr (inr (Done (it, later dice))), t).
Proof.
  intros Ht Hcalm Hset Hdice (Hlarge & Hne & Hr). apply zlen_nonempty in Hne as Hlen.
  destruct (next_leaf_calm exc t ls lv m Ht Hcalm Hset start dice Hdice) as (pos & l & high & L2 & n & p & Hleaf & Hon & _ & Hfrom).
  exists (mkScanIter (count_of r) pos l field (bound_of r) high), L2, n, p, (lb start (p_entries p)). do 5 (split; [done|]).
  intros fuel Hfuel. destruct (Hleaf fuel Hfuel) as [_ Hfirst]. destruct r as [cnt|e]; cbn [open_scan].
  - unfold scan_with_count, new_with_scan_count. rewrite Hlarge, Hlen, (proj2 (Z.eqb_neq cnt 0)) by lia. unfold mbind, SE_bind. by rewrite Hfirst.
  - destruct Hr as (Hl2 & Hne2%zlen_nonempty & Hle). unfold scan_with_end_key, new_with_end_key, new_with_scan_count.
    rewrite Hlarge, Hlen, Hl2, Hne2, bool_decide_eq_false_2 by done. unfold mbind, SE_bind. by rewrite Hfirst.
Qed.
End calm.

(** C4: a scan that no other thread disturbs, over a tree whose leaves have no mini pages and without promotions,
    returns exactly the records of its range: in the order of their keys, each once, across all leaves, and as many
    as are asked for; the tree stays as it is. *)
Theorem undisturbed_scan {B T W F : Type} {RB : RecordBound} `{HPB : PageBuffer B} `{HBL : !PageBufferLaws B} `{HPM : PageMap T} `{HML : !PageMapLaws T}
    `{HWL : WriteLog W} `{HLL : !WriteLogLaws W} (mem : memory) (hp : heap) (limit : nat) (cfg : @Config F) (front : list Z) (mini : Z)
    exc (t : BfTree B T W) m start r field out dice num :
  Setup mem cfg front mini → heap_ok hp limit → represents mem cfg front mini exc t m → contention t = [] → no_mini t → no_promotion cfg dice →
  range_valid cfg start r → cb_max_record_size cfg <= zlen out → Z.of_nat num <= USIZE_MAX →
  ∃ records, records_of m (λ k, cmp_bytes start k ≠ Gt) (bound_of r) records ∧
    ∃ f0, ∀ fuel, (f0 <= fuel)%nat →
      run_scan mem hp cfg num start r field out dice fuel t =
        Ret (inr (inr (Done (map (row field) (take (min num (Z.to_nat (count_of r))) records)))), t).
Proof.
  intros Hsetup Hheap (ls & lv & Ht) Hcalm Hmini Hdice Hr Hout Hnum.
  destruct (open_scan_calm mem hp limit cfg front mini Hsetup Hheap exc t ls lv m start r field dice) as (it & L2 & n & p & j & Hon & Hfrom & Hc & He & Hf & Hopen); try done.
  destruct (records_exist mem hp limit cfg front mini Hsetup Hheap exc t ls lv m Ht Hcalm Hmini (bound_of r) _ _ _ _ _ _ _ _ (le_n _) (le_n _) Hon) as [records Hrec].
  exists records. split; [eapply records_of_iff; [|exact Hrec]; intros k v Hk; symmetry; by apply (Hfrom k v)|].
  assert (room_for m (scan_field it) out) as Hroom.
  { intros k v Hk. destruct (record_limits mem hp limit cfg front mini Hsetup Hheap exc t ls lv m Ht Hcalm k v Hk) as (_ & _ & Hkv & _).
    pose proof (zlen_nonneg k). pose proof (zlen_nonneg v). destruct (scan_field it); cbn; rewrite ?zlen_app; lia. }
  destruct (scan_collect_spec mem hp limit cfg front mini Hsetup Hheap exc t ls lv m Ht Hcalm Hmini num it L2 n p j out (later dice) records Hon) as [f0 Hf0].
  - rewrite Hc. destruct r as [cnt|e]; cbn; [destruct Hr as (_ & _ & Hr); lia|unfold USIZE_MAX; lia].
  - rewrite He, Hc. destruct r; cbn; [by left|right; lia].
  - done.
  - by apply no_promotion_later.
  - by rewrite He.
  - exists (S f0). intros fuel Hfuel. unfold run_scan, mbind, SE_bind. rewrite Hopen by lia. rewrite Hf0, Hc, Hf by lia. done.
Qed.

(** The location under the lock of a root leaf is a base page. *)
Lemma root_position {B T W F : Type} {RB : RecordBound} `{HPB : PageBuffer B} `{HBL : !PageBufferLaws B} `{HPM : PageMap T} `{HML : !PageMapLaws T}
    `{HWL : WriteLog W} `{HLL : !WriteLogLaws W} mem hp limit (cfg : @Config F) front mini exc (t : BfTree B T W) ls lv m key parent L1 x L2 :
  Setup mem cfg front mini → heap_ok hp limit → tree_at mem cfg front mini exc t ls lv m → length lv = 1%nat →
  cursor (inner_nodes t) lv key (pred (length lv)) parent L1 x L2 →
  ∃ i lf e o e1, as_id x.2 = Ret (Z.of_nat i) ∧ parent = None ∧ get_entry (storage t) (Z.of_nat i) None = Ret e ∧ ls !! i = Some lf ∧
    get_scan_position mem key false e = Ret (inr (inr (ScanBase o)), e1).
Proof.
  intros Hsetup Hheap Ht Hlen Hcur. destruct (lock_leaf mem cfg front mini exc t ls lv m key parent L1 x L2 Ht Hcur) as (i & lf & loc & par & Hal).
  pose proof Hal as [_ _ [Hpid Hi] Hlf [Hlow Hhigh] Hview Hloc Hget Hpar Hnode Hroot].
  assert (par = None) as Hp by (destruct par as [n|]; [destruct (Hnode n eq_refl) as (? & ? & ? & _ & _ & _ & Hl); lia|done]).
  destruct (Hroot Hp) as (_ & -> & Hptr). rewrite Hp in *. destruct (Hget None) as [Hg He].
  assert (∀ ptr, loc ≠ Mini ptr) as Hmini by (intros ptr ->; done).
  pose proof (cu_key _ _ _ _ _ _ _ _ Hcur) as Hkey. rewrite <- Hlow, <- Hhigh in Hkey.
  destruct (wp_Ret _ _ _ (get_scan_position_calm mem cfg front mini False t lf loc None key m He Hmini Hkey Hview))
    as (r & e1 & Hscan & pos & n & p & -> & Hst & Hloc1 & Hs & Hpos & Hstand).
  destruct (Hstand 0) as [_ [(off & _ & _ & _ & ->)|(ptr & Hl & _)]].
  - exists i, lf, (mkEnv (storage t) loc None None). eexists _, e1. rewrite Hpid, as_id_from_id by lia. done.
  - exfalso. cbn in Hl. rewrite Hloc1 in Hl. by rewrite Hl in Hptr.
Qed.

(** C11: a scan that may write, over a tree of one leaf, panics when it draws a promotion: there is no parent
    to promote the root under.  A scan that only reads checks for that. *)
Theorem scan_mut_root_panics {B T W F : Type} {RB : RecordBound} `{HPB : PageBuffer B} `{HBL : !PageBufferLaws B} `{HPM : PageMap T} `{HML : !PageMapLaws T}
    `{HWL : WriteLog W} `{HLL : !WriteLogLaws W} (mem : memory) (hp : heap) (limit : nat) (cfg : @Config F) (front : list Z) (mini : Z)
    exc (t : BfTree B T W) m key cnt field dice fuel :
  Setup mem cfg front mini → heap_ok hp limit → represents mem cfg front mini exc t m → contention t = [] → (root_page t).2 = true →
  key_too_large cfg key = false → cnt ≠ 0 → drawn dice < scan_promotion_rate cfg →
  scan_mut_with_count mem hp cfg key cnt field dice (S fuel) t = Panic.
Proof.
  intros Hsetup Hheap (ls & lv & Ht) Hcalm Hroot Hkey Hcnt Hd.
  assert (length lv = 1%nat) as Hlen. { pose proof (ta_kind _ _ _ _ _ _ _ _ _ Ht) as Hk. rewrite Hroot in Hk. by apply symmetry, bool_decide_eq_true in Hk. }
  destruct (wp_Ret _ _ _ (descent_calm mem hp limit cfg front mini Hsetup Hheap False exc t ls lv m key false Ht Hcalm))
    as (r & t' & Hrun & -> & parent & high & L1 & x & L2 & -> & Hcur).
  destruct (root_position mem hp limit cfg front mini exc t ls lv m key parent L1 x L2 Hsetup Hheap Ht Hlen Hcur) as (i & lf & e & o & e1 & Hid & -> & Hg & _ & Hscan).
  assert (scan_exclusive mem cfg key x.2 None (drawn dice) (e, t) = Panic) as Hex.
  { unfold scan_exclusive, mbind, SE_bind, on_tree, on_entry, check_parent, get. cbn [fst snd].
    unfold mbind, SE_bind, get. rewrite bool_decide_eq_true_2 by by eapply cursor_top. cbn [mret SE_ret fst snd]. rewrite Hscan.
    unfold should_promote_scan_page. by rewrite (proj2 (Z.ltb_lt _ _) Hd). }
  unfold scan_mut_with_count. rewrite (su_disk_mode _ _ _ _ Hsetup), Hkey, (proj2 (Z.eqb_neq _ _) Hcnt).
  unfold mut_new_with_scan_count. cbn [first_leaf_mut head]. unfold mbind, SE_bind, result, move_cursor_to_leaf_mut, lock_scanned_mut.
  unfold mbind, SE_bind. rewrite Hrun, Hid. cbn [parent_of]. cbn [outcome_bind]. rewrite Hg. cbn [outcome_bind]. by rewrite Hex.
Qed.

(** ** A tree of the components, with a record *)
#[local] Existing Instance sample_bound.
#[local] Existing Instance sample_sys.
#[local] Existing Instance sample_sys_laws.
#[local] Existing Instance sample_map.
#[local] Existing Instance sample_map_laws.

(** The only record of the tree is the only one of the range. *)
Lemma one_record_range records :
  records_of one_record (λ k, cmp_bytes [1] k ≠ Gt) (Some [2]) records → [(sample_key 1 2 3 4, [7; 7])] = records.
Proof.
  intros Hrec. assert (∀ k v, one_record k = Some v → k = sample_key 1 2 3 4) as Hone.
  { intros k v. unfold one_record, view_insert, empty_map. case_bool_decide; [by intros _|done]. }
  destruct (records_of_cons one_record _ (λ _, False) (Some [2]) records (sample_key 1 2 3 4) [7; 7] Hrec) as (rest & -> & Hrest); try done.
  - intros k v Hk _. left. by eapply Hone.
  - intros k v Hk. split; [done|]. intros [_ Hne]. by destruct Hne; eapply Hone.
  - by rewrite (records_of_nil one_record _ _ rest Hrest).
Qed.

Lemma undisturbed_scan_witness :
  ∃ (t : BfTree sys (MappingTable PageLocation) WriteAheadLogInner) f0, ∀ fuel, (f0 <= fuel)%nat →
    run_scan sample_memory sample_heap sample_config 10 [1] (ScanUpTo [2]) FieldKeyAndValue (replicate 1952 0) (λ _, 99) fuel t =
      Ret (inr (inr (Done [(16, 2, sample_key 1 2 3 4 ++ [7; 7])])), t).
Proof.
  destruct sample_tree as (front & t & Hsetup & Hrep & Hcalm & Hroot).
  destruct (undisturbed_scan sample_memory sample_heap 1000 sample_config front 2048 [] t one_record [1] (ScanUpTo [2]) FieldKeyAndValue (replicate 1952 0) (λ _, 99) 10)
    as (records & Hrec & f0 & Hrun).
  - exact Hsetup.
  - exact sample_heap_ok.
  - exact Hrep.
  - exact Hcalm.
  - exact (single_no_mini sample_memory sample_config front _ _ _ _ Hrep Hroot).
  - intros i. vm_compute. congruence.
  - split_and!; [reflexivity|discriminate|reflexivity|discriminate|discriminate].
  - vm_compute. congruence.
  - vm_compute. congruence.
  - exists t, f0. destruct (one_record_range records Hrec). exact Hrun.
Defined.

Lemma scan_mut_root_panics_witness :
  ∃ t : BfTree sys (MappingTable PageLocation) WriteAheadLogInner,
    scan_mut_with_count sample_memory sample_heap sample_config [1] 10 FieldKey (λ _, 0) 1 t = Panic.
Proof.
  destruct sample_tree as (front & t & Hsetup & Hrep & Hcalm & Hroot).
  exists t. apply (scan_mut_root_panics sample_memory sample_heap 1000 sample_config front 2048 [] t one_record [1] 10 FieldKey (λ _, 0) 0).
  - exact Hsetup.
  - exact sample_heap_ok.
  - exact Hrep.
  - exact Hcalm.
  - exact Hroot.
  - reflexivity.
  - discriminate.
  - vm_compute. reflexivity.
Defined.
