(* ===== verification/SnapshotTheorems.v ===== *)
(** Correctness of the snapshot manager (SnapshotMgr.v): the guards of the user threads keep pace with the
    global state, the sweep finds no guard, no assertion fails, and the snapshot thread is not left asleep. *)
From stdpp Require Import base numbers list option.
From Stdlib Require Import ZArith Lia.
From S2P Require Import Prelude Bits SnapshotMgr.

(** ** The packed state *)
Definition state_of (ph : PhaseId) (v : Z) : Z := as_raw ph * 2 ^ 61 + v.

Definition version_ok (v : Z) : Prop := 0 <= v < 2 ^ 61.

Lemma new_state ph v : version_ok v → new_snapshot_state (as_raw ph) v = Ret (state_of ph v).
Proof.
  intros Hv. unfold new_snapshot_state, SNAPSHOT_STATE_PHASE_NUM, SNAPSHOT_STATE_PHASE_ID_SHIFT.
  rewrite !assert_true; [|by destruct ph|apply Z.ltb_lt; apply Hv]. ret_step. ret_step.
  rewrite Z.shiftl_mul_pow2, lor_low by (done || apply Hv). done.
Qed.

Lemma version_of_state ph v : version_ok v → state_version (state_of ph v) = v.
Proof.
  intros Hv. unfold state_version, SNAPSHOT_STATE_VERSION_MASK, SNAPSHOT_STATE_PHASE_ID_SHIFT, state_of.
  rewrite Z.shiftl_1_l, land_low by done. rewrite Z.add_comm, Z_mod_plus_full. by apply Z.mod_small.
Qed.

Lemma phase_of_state ph v : version_ok v → state_phase (state_of ph v) = Ret ph.
Proof.
  intros Hv. unfold state_phase, SNAPSHOT_STATE_PHASE_ID_MASK, SNAPSHOT_STATE_PHASE_ID_SHIFT, state_of.
  assert (Z.shiftr (Z.land (as_raw ph * 2 ^ 61 + v) (Z.shiftl 7 61)) 61 = as_raw ph) as ->; [|by destruct ph].
  rewrite Z.shiftr_land, Z.shiftr_shiftl_l, Z.shiftl_0_r by done. rewrite Z.shiftr_div_pow2 by done.
  unfold version_ok in Hv. rewrite Z.div_add_l, Z.div_small, Z.add_0_r by lia. by destruct ph.
Qed.

Lemma state_valid ph v : version_ok v → state_of ph v ≠ INVALID_SNAPSHOT_STATE.
Proof. unfold version_ok, state_of, INVALID_SNAPSHOT_STATE. destruct ph; cbn [as_raw]; lia. Qed.

Lemma state_inj ph v ph' v' : version_ok v → version_ok v' → state_of ph v = state_of ph' v' → ph = ph' ∧ v = v'.
Proof.
  intros Hv Hv' He. split.
  - pose proof (phase_of_state ph v Hv) as H. rewrite He, phase_of_state in H by done. by injection H.
  - pose proof (version_of_state ph v Hv) as H. by rewrite He, version_of_state in H.
Qed.

(** The order of the phases. *)
Definition next_phase (ph : PhaseId) : PhaseId :=
  match ph with Rest => Prepare | Prepare => InProgress | InProgress => Sweep | Sweep => Rest end.
Definition next_version (ph : PhaseId) (v : Z) : Z := match ph with Prepare => v + 1 | _ => v end.

(** [g] is the state before [g']. *)
Definition follows (g g' : Z) : Prop :=
  ∃ ph v, version_ok v ∧ version_ok (next_version ph v) ∧ g = state_of ph v ∧ g' = state_of (next_phase ph) (next_version ph v).

Lemma advance_spec m ph v :
  global_state m = state_of ph v → version_ok v → version_ok (next_version ph v) →
  advance_global_state m = Ret (state_of (next_phase ph) (next_version ph v), set_global m (state_of (next_phase ph) (next_version ph v))).
Proof.
  intros Hg Hv Hv'. unfold advance_global_state, get_global_phase_id, get_global_version. rewrite Hg, phase_of_state, version_of_state by done. ret_step.
  destruct ph; cbn [next_phase next_version] in *; rewrite new_state by done; by ret_step.
Qed.

(** ** Classes of places *)
Definition owner (p : place) : option nat :=
  match p with
  | LoadGlobal t | StoreLocal t _ | Recheck t _ | CheckPause t _ | Guarded t _ | LeaveStore t _ | LeaveSlot t _ => Some t
  | _ => None
  end.

(** Places at which the slot may have a state, and the state where it is known. *)
Definition holding (p : place) : option nat :=
  match p with Recheck t _ | CheckPause t _ | Guarded t _ | LeaveStore t _ => Some t | _ => None end.
Definition carries (p : place) : option (nat * Z) :=
  match p with Recheck t g | CheckPause t g | Guarded t g => Some (t, g) | _ => None end.

(** Past the second look at the global state; under a guard. *)
Definition committed (p : place) : option (nat * Z) := match p with CheckPause t g | Guarded t g => Some (t, g) | _ => None end.
Definition guarding (p : place) : option (nat * Z) := match p with Guarded t g => Some (t, g) | _ => None end.

(** About to bump the waiter. *)
Definition will_bump (p : place) : bool :=
  match p with Recheck _ _ | CheckPause _ _ | Guarded _ _ | LeaveStore _ _ | LeaveSlot _ _ | LeaveBump => true | _ => false end.
Definition will_wake (p : place) : bool := match p with LeaveWake => true | _ => will_bump p end.

(** In [snapshot], past the exchange that lets one thread in. *)
Definition snapshotting (p : place) : bool :=
  match p with
  | Opened | Scan _ _ _ _ | LoadWaiter _ _ | FutexWait _ _ _ | Asleep _ _ | SetPause _ | Frozen _ | ClearPause _ | SweepPages _ | Finalize _ | Finish => true
  | _ => false
  end.

(** A slot that the snapshot thread has not seen in the current phase. *)
Definition unsettled (p : place) (tid : nat) : Prop :=
  match p with
  | Scan _ false _ k => (k <= tid)%nat
  | LoadWaiter _ false | FutexWait _ false _ | Asleep _ false => True
  | _ => False
  end.

(** A slot it has seen without a state while the reservations pause. *)
Definition seen_free (p : place) (tid : nat) : Prop :=
  match p with Scan _ true _ k => (tid < k)%nat | Frozen _ | ClearPause _ => True | _ => False end.

Lemma unsettled_scan r f c k tid : unsettled (Scan r f c k) tid ↔ f = false ∧ (k <= tid)%nat.
Proof. split; [destruct f; [by intros []|by split]|by intros [-> H]]. Qed.

Lemma seen_scan r f c k tid : seen_free (Scan r f c k) tid ↔ f = true ∧ (tid < k)%nat.
Proof. split; [destruct f; [by split|by intros []]|by intros [-> H]]. Qed.

Definition pausing (p : place) : bool :=
  match p with Scan _ true _ _ | LoadWaiter _ true | FutexWait _ true _ | Asleep _ true | Frozen _ | ClearPause _ => true | _ => false end.

(** ** The invariant *)
Abbreviation SLOTS := DEFAULT_MAX_SNAPSHOT_THREAD_NUM.

Definition some_thread (f : place → bool) (ths : list place) : Prop := ∃ i p, ths !! i = Some p ∧ f p = true.

(** The slots: taken by one thread each; a slot without a holder has no state. *)
Record SlotInv (m : CPRSnapShotMgr) (ths : list place) : Prop := {
  sl_slots : length (thread_slots m) = SLOTS;
  sl_locals : length (thread_local_states m) = SLOTS;
  sl_taken : ∀ i p tid, ths !! i = Some p → owner p = Some tid → thread_slots m !! tid = Some true;
  sl_one : ∀ i j p q tid, ths !! i = Some p → ths !! j = Some q → owner p = Some tid → owner q = Some tid → i = j;
  sl_free : ∀ tid s, thread_local_states m !! tid = Some s → s = INVALID_SNAPSHOT_STATE ∨ ∃ i p, ths !! i = Some p ∧ holding p = Some tid;
  sl_state : ∀ i p tid g, ths !! i = Some p → carries p = Some (tid, g) → thread_local_states m !! tid = Some g;
}.

(** The version of the global state during a snapshot. *)
Definition run_version (r : run) : Z := match current_global_phase_id r with Prepare => snapshot_version r | _ => snapshot_version r + 1 end.

Definition run_ok (m : CPRSnapShotMgr) (r : run) : Prop :=
  current_global_state r = global_state m ∧ version_ok (run_version r) ∧ global_state m = state_of (current_global_phase_id r) (run_version r).

Definition at_rest (m : CPRSnapShotMgr) : Prop := ∃ v, version_ok v ∧ global_state m = state_of Rest v.

(** What the snapshot thread knows at its place. *)
Definition snapshot_ok (m : CPRSnapShotMgr) (ths : list place) (p : place) : Prop :=
  match p with
  | Opened | Finish => at_rest m
  | Finalize r => run_ok m r ∧ current_global_phase_id r = Rest
  | Scan r freeze c k =>
      (k < SLOTS)%nat ∧ run_ok m r ∧ (freeze = true → current_global_phase_id r = Sweep) ∧
      match c with SecondCheck w => w <= phase_waiter m | _ => True end
  | LoadWaiter r freeze => run_ok m r ∧ (freeze = true → current_global_phase_id r = Sweep)
  | FutexWait r freeze w =>
      run_ok m r ∧ (freeze = true → current_global_phase_id r = Sweep) ∧ w <= phase_waiter m ∧ (w = phase_waiter m → some_thread will_bump ths)
  | Asleep r freeze => run_ok m r ∧ (freeze = true → current_global_phase_id r = Sweep) ∧ some_thread will_wake ths
  | SetPause r | Frozen r | ClearPause r | SweepPages r => run_ok m r ∧ current_global_phase_id r = Sweep
  | _ => True
  end.

Record SnapInv (v0 k : Z) (st : snap_system) : Prop := {
  sn_slots : SlotInv (mgr st) (places st);
  sn_global : ∃ ph v, global_state (mgr st) = state_of ph v ∧ 0 <= v <= v0 + k;
  sn_waiter : 0 <= phase_waiter (mgr st) <= k;
  sn_idle : snapshot_in_progress (mgr st) = false → at_rest (mgr st);
  sn_flag : ∀ i p, places st !! i = Some p → snapshotting p = true → snapshot_in_progress (mgr st) = true;
  sn_one : ∀ i j p q, places st !! i = Some p → places st !! j = Some q → snapshotting p = true → snapshotting q = true → i = j;
  sn_pause : ∀ i p, places st !! i = Some p → pausing p = true → pause_snapshot (mgr st) = true;
  sn_thread : ∀ i p, places st !! i = Some p → snapshot_ok (mgr st) (places st) p;
  sn_commit : ∀ i p tid g, places st !! i = Some p → committed p = Some (tid, g) →
    g = global_state (mgr st) ∨ follows g (global_state (mgr st)) ∧ ∃ j q, places st !! j = Some q ∧ unsettled q tid;
  sn_frozen : ∀ i p j q tid g, places st !! i = Some p → places st !! j = Some q → guarding p = Some (tid, g) → ¬ seen_free q tid;
}.

(** ** Moves of one thread *)
Lemma moved (ths : list place) i q j x : <[i := q]> ths !! j = Some x → j = i ∧ x = q ∨ j ≠ i ∧ ths !! j = Some x.
Proof. intros H. apply list_lookup_insert_Some in H as [(-> & -> & _)|[H1 H2]]; [by left|by right; split; [intros ->|]]. Qed.

Section move.
Context (ths : list place) (i : nat) (p q : place).
Hypothesis Hi : ths !! i = Some p.

Lemma moved_at : <[i := q]> ths !! i = Some q.
Proof. apply list_lookup_insert_eq. by eapply lookup_lt_Some. Qed.

Lemma moved_other j x : ths !! j = Some x → j ≠ i → <[i := q]> ths !! j = Some x.
Proof. intros Hj Hne. by rewrite list_lookup_insert_ne. Qed.

Lemma some_moved f : (f p = true → f q = true) → some_thread f ths → some_thread f (<[i := q]> ths).
Proof.
  intros Hf (j & x & Hj & Hx). destruct (decide (j = i)) as [->|Hne]; [|exists j, x; by rewrite list_lookup_insert_ne].
  rewrite Hi in Hj. injection Hj as <-. exists i, q. split; [apply moved_at|auto].
Qed.

Lemma some_here f : f q = true → some_thread f (<[i := q]> ths).
Proof. intros Hf. exists i, q. split; [apply moved_at|done]. Qed.

(** *** The slots *)
Section slots.
Context (m m' : CPRSnapShotMgr).
Hypothesis Hs : SlotInv m ths.

(** The thread keeps its slot, and what it says of it. *)
Lemma slots_same :
  thread_slots m' = thread_slots m → thread_local_states m' = thread_local_states m →
  owner q = owner p → holding q = holding p → (carries q = None ∨ carries q = carries p) → SlotInv m' (<[i := q]> ths).
Proof.
  intros H1 H2 Ho Hh Hc. destruct Hs as [Hl1 Hl2 Ht Hone Hf Hst]. split; rewrite ?H1, ?H2; try done.
  - intros j x tid [[-> ->]|[_ Hj]]%moved Hx; [|by eapply Ht]. apply (Ht i p); [done|]. by rewrite <- Ho.
  - intros j j' x y tid [[-> ->]|[Hn Hj]]%moved [[-> ->]|[Hn' Hj']]%moved Hx Hy; [done|rewrite Ho in Hx|rewrite Ho in Hy|]; by eapply Hone.
  - intros tid s Hl. destruct (Hf tid s Hl) as [|(j & x & Hj & Hx)]; [by left|]. right. destruct (decide (j = i)) as [->|Hne].
    + rewrite Hi in Hj. injection Hj as <-. exists i, q. split; [apply moved_at|by rewrite Hh].
    + exists j, x. by split; [apply moved_other|].
  - intros j x tid g [[-> ->]|[_ Hj]]%moved Hx; [|by eapply Hst]. destruct Hc as [Hc|Hc]; rewrite Hc in Hx; [done|]. by eapply Hst.
Qed.

(** A free slot is taken. *)
Lemma slots_claim tid :
  thread_slots m !! tid = Some false → thread_slots m' = <[tid := true]> (thread_slots m) → thread_local_states m' = thread_local_states m →
  owner p = None → holding p = None → owner q = Some tid → holding q = None → carries q = None → SlotInv m' (<[i := q]> ths).
Proof.
  intros Hfree H1 H2 Ho Hh Hq Hhq Hcq. destruct Hs as [Hl1 Hl2 Ht Hone Hf Hst].
  assert (∀ j x, ths !! j = Some x → owner x ≠ Some tid) as Hnone. { intros j x Hj Hx. specialize (Ht j x tid Hj Hx). by rewrite Hfree in Ht. }
  split; rewrite ?H1, ?H2, ?length_insert; try done.
  - intros j x t [[-> ->]|[_ Hj]]%moved Hx.
    + rewrite Hq in Hx. injection Hx as <-. apply list_lookup_insert_eq. by eapply lookup_lt_Some.
    + rewrite list_lookup_insert_ne; [by eapply Ht|]. intros ->. by eapply Hnone.
  - intros j j' x y t [[-> ->]|[Hn Hj]]%moved [[-> ->]|[Hn' Hj']]%moved Hx Hy; [done| | |by eapply Hone].
    + rewrite Hq in Hx. injection Hx as <-. by destruct (Hnone _ _ Hj').
    + rewrite Hq in Hy. injection Hy as <-. by destruct (Hnone _ _ Hj).
  - intros t s Hl. destruct (Hf t s Hl) as [|(j & x & Hj & Hx)]; [by left|]. right. exists j, x. split; [|done]. apply moved_other; [done|].
    intros ->. rewrite Hi in Hj. injection Hj as <-. by rewrite Hh in Hx.
  - intros j x t g [[-> ->]|[_ Hj]]%moved Hx; [by rewrite Hcq in Hx|by eapply Hst].
Qed.

(** The owner of a slot writes its state. *)
Lemma slots_write tid s :
  owner p = Some tid → owner q = Some tid → thread_slots m' = thread_slots m → thread_local_states m' = <[tid := s]> (thread_local_states m) →
  (s = INVALID_SNAPSHOT_STATE ∨ holding q = Some tid) → (∀ t, holding p = Some t → t = tid) → (∀ t g, carries q = Some (t, g) → t = tid ∧ g = s) →
  SlotInv m' (<[i := q]> ths).
Proof.
  intros Ho Hq H1 H2 Hh Hhp Hc. destruct Hs as [Hl1 Hl2 Ht Hone Hf Hst].
  assert (tid < length (thread_local_states m))%nat as Hlt by (rewrite Hl2, <- Hl1; by eapply lookup_lt_Some, Ht).
  assert (∀ x, carries x = None ∨ ∃ t g, carries x = Some (t, g) ∧ owner x = Some t) as Hco by (intros []; cbn; eauto).
  assert (∀ x t, holding x = Some t → owner x = Some t) as Hho by (intros []; cbn; congruence).
  split; rewrite ?H1, ?H2, ?length_insert; try done.
  - intros j x t [[-> ->]|[_ Hj]]%moved Hx; [|by eapply Ht]. rewrite Hq in Hx. injection Hx as <-. by eapply Ht.
  - intros j j' x y t [[-> ->]|[Hn Hj]]%moved [[-> ->]|[Hn' Hj']]%moved Hx Hy; [done|rewrite Hq, <- Ho in Hx|rewrite Hq, <- Ho in Hy|]; by eapply Hone.
  - intros t s' Hl. destruct (decide (t = tid)) as [->|Hne].
    + rewrite list_lookup_insert_eq in Hl by done. injection Hl as <-. destruct Hh as [|Hh]; [by left|]. right. exists i, q. split; [apply moved_at|done].
    + rewrite list_lookup_insert_ne in Hl by done. destruct (Hf t s' Hl) as [|(j & x & Hj & Hx)]; [by left|]. right. exists j, x. split; [|done].
      apply moved_other; [done|]. intros ->. rewrite Hi in Hj. injection Hj as <-. by apply Hhp in Hx.
  - intros j x t g [[-> ->]|[Hn Hj]]%moved Hx; [apply Hc in Hx as [-> ->]; by apply list_lookup_insert_eq|].
    rewrite list_lookup_insert_ne; [by eapply Hst|]. intros ->. destruct (Hco x) as [Hno|(t' & g' & Hx' & Hxo)]; [by rewrite Hno in Hx|].
    rewrite Hx in Hx'. injection Hx' as <- <-. apply Hn. by eapply (Hone j i).
Qed.

(** The owner gives up a slot without a state. *)
Lemma slots_release tid :
  owner p = Some tid → holding p = None → owner q = None → thread_slots m' = <[tid := false]> (thread_slots m) →
  thread_local_states m' = thread_local_states m → SlotInv m' (<[i := q]> ths).
Proof.
  intros Ho Hh Hq H1 H2. destruct Hs as [Hl1 Hl2 Ht Hone Hf Hst].
  assert (holding q = None ∧ carries q = None) as [Hhq Hcq] by by destruct q.
  split; rewrite ?H1, ?H2, ?length_insert; try done.
  - intros j x t [[-> ->]|[Hn Hj]]%moved Hx; [by rewrite Hq in Hx|]. rewrite list_lookup_insert_ne; [by eapply Ht|]. intros ->. apply Hn. by eapply Hone.
  - intros j j' x y t [[-> ->]|[Hn Hj]]%moved [[-> ->]|[Hn' Hj']]%moved Hx Hy; [done|by rewrite Hq in Hx|by rewrite Hq in Hy|by eapply Hone].
  - intros t s Hl. destruct (Hf t s Hl) as [|(j & x & Hj & Hx)]; [by left|]. right. exists j, x. split; [|done]. apply moved_other; [done|].
    intros ->. rewrite Hi in Hj. injection Hj as <-. by rewrite Hh in Hx.
  - intros j x t g [[-> ->]|[_ Hj]]%moved Hx; [by rewrite Hcq in Hx|by eapply Hst].
Qed.
End slots.
End move.

(** *** The whole invariant *)
Lemma not_snapshotting p : snapshotting p = false →
  pausing p = false ∧ (∀ tid, ¬ unsettled p tid ∧ ¬ seen_free p tid) ∧ (∀ m ths, snapshot_ok m ths p).
Proof. destruct p; cbn; try done; intros _; split_and!; try done; intros; split; tauto. Qed.

Lemma snapshotting_quiet p : snapshotting p = true → owner p = None ∧ holding p = None ∧ carries p = None ∧ committed p = None ∧ guarding p = None.
Proof. by destruct p. Qed.

Lemma snapshot_ok_mono m m' ths ths' p :
  global_state m' = global_state m → phase_waiter m <= phase_waiter m' →
  (phase_waiter m' = phase_waiter m → some_thread will_bump ths → some_thread will_bump ths') →
  (∀ r f, p = Asleep r f → some_thread will_wake ths → some_thread will_wake ths') → snapshot_ok m ths p → snapshot_ok m' ths' p.
Proof.
  intros Hg Hw Hb Hk. assert (∀ r, run_ok m r → run_ok m' r) as Hr by (unfold run_ok; intros r; by rewrite Hg).
  assert (at_rest m → at_rest m') as Ha by (unfold at_rest; by rewrite Hg).
  destruct p as [| | | | | | | | | | | | | |r f c j|r f|r f w|r f|r|r|r|r|r|]; cbn; try tauto.
  - intros (H1 & H2 & H3 & H4). split_and!; auto. destruct c; try done. lia.
  - intros (H1 & H2). split; auto.
  - intros (H1 & H2 & H3 & H4). split_and!; auto; [lia|]. intros ->. apply Hb; [lia|]. apply H4. lia.
  - intros (H1 & H2 & H3). split_and!; auto. by eapply Hk.
  - intros (H1 & H2). split; auto.
  - intros (H1 & H2). split; auto.
  - intros (H1 & H2). split; auto.
  - intros (H1 & H2). split; auto.
  - intros (H1 & H2). split; auto.
Qed.

Section steps.
Context (v0 k : Z) (m : CPRSnapShotMgr) (ths : list place) (i : nat) (p q : place).
Hypothesis Hinv : SnapInv v0 k (mkSnap m ths).
Hypothesis Hi : ths !! i = Some p.

(** A step of a user thread. *)
Lemma user_move m' :
  snapshotting p = false → snapshotting q = false → SlotInv m' (<[i := q]> ths) →
  global_state m' = global_state m → snapshot_in_progress m' = snapshot_in_progress m → pause_snapshot m' = pause_snapshot m →
  phase_waiter m <= phase_waiter m' <= k + 1 → (phase_waiter m' = phase_waiter m → will_bump p = true → will_bump q = true) →
  (will_wake p = true → will_wake q = true) ∨ (∀ j r f, ths !! j ≠ Some (Asleep r f)) →
  (∀ tid g, committed q = Some (tid, g) → committed p = Some (tid, g) ∨ g = global_state m) →
  (∀ tid g, guarding q = Some (tid, g) → guarding p = Some (tid, g) ∨ pause_snapshot m = false) →
  SnapInv v0 (k + 1) (mkSnap m' (<[i := q]> ths)).
Proof.
  intros Hp Hq Hslots Hg Hf Hpa Hw Hb Hk Hc Hgu. destruct Hinv as [_ (ph & v & Hgl & Hv) Hwt Hidle Hflag Hone Hpause Hth Hcom Hfr]. cbn [mgr places] in *.
  destruct (not_snapshotting q Hq) as (Hqp & Hqu & Hqs).
  assert (∀ j x, <[i := q]> ths !! j = Some x → snapshotting x = true → ths !! j = Some x) as Hold
    by (intros j x [[-> ->]|[_ Hj]]%moved Hx; [by rewrite Hq in Hx|done]).
  split; cbn [mgr places]; rewrite ?Hg, ?Hf, ?Hpa.
  - done.
  - exists ph, v. split; [done|lia].
  - lia.
  - intros Hx. destruct (Hidle Hx) as (v' & Hv' & He). exists v'. by rewrite Hg.
  - intros j x Hj Hx. by eapply Hflag; [apply Hold|].
  - intros j j' x y Hj Hj' Hx Hy. by eapply Hone; [apply Hold|apply Hold|..].
  - intros j x [[-> ->]|[_ Hj]]%moved Hx; [by rewrite Hqp in Hx|by eapply Hpause].
  - intros j x [[-> ->]|[_ Hj]]%moved; [apply Hqs|]. apply (snapshot_ok_mono m m' ths); [done|lia| | |by eapply Hth].
    + intros He. apply some_moved with (p := p); [done|by apply Hb].
    + intros r f ->. destruct Hk as [Hk|Hk]; [by apply some_moved with (p := p)|by destruct (Hk j r f)].
  - assert (∀ j x tid g, ths !! j = Some x → committed x = Some (tid, g) → g = global_state m ∨ follows g (global_state m) ∧
      ∃ j' y, <[i := q]> ths !! j' = Some y ∧ unsettled y tid) as Hcom'.
    { intros j x tid g Hj Hx. destruct (Hcom j x tid g Hj Hx) as [|(Hfo & j' & y & Hj' & Hy)]; [by left|]. right. split; [done|].
      exists j', y. split; [|done]. apply moved_other; [done|]. intros ->. rewrite Hi in Hj'. injection Hj' as <-. by apply (not_snapshotting p Hp) in Hy. }
    intros j x tid g [[-> ->]|[_ Hj]]%moved Hx; [|by eapply Hcom']. destruct (Hc _ _ Hx) as [Hx'|]; [by eapply Hcom'|by left].
  - intros j x j' y tid g Hj Hj' Hx Hy. destruct (moved _ _ _ _ _ Hj') as [[-> ->]|[_ Hj0]]; [by apply Hqu in Hy|].
    destruct (moved _ _ _ _ _ Hj) as [[-> ->]|[_ Hj1]]; [|by eapply (Hfr j x j' y)]. destruct (Hgu _ _ Hx) as [Hx'|Hno]; [by eapply (Hfr i p j' y)|].
    assert (pausing y = true) as Hpy by (destruct y as [| | | | | | | | | | | | | |r [] c j0|r [] |r [] w|r []|r|r|r|r|r|]; done).
    by rewrite (Hpause _ _ Hj0 Hpy) in Hno.
Qed.

(** A step of the snapshot thread. *)
Lemma snapshot_move m' :
  (snapshotting p = true ∨ owner p = None ∧ holding p = None ∧ snapshot_in_progress m = false) → committed p = None → guarding p = None → owner q = None →
  thread_slots m' = thread_slots m → thread_local_states m' = thread_local_states m → phase_waiter m' = phase_waiter m →
  (snapshotting q = true → snapshot_in_progress m' = true) → (snapshot_in_progress m' = false → at_rest m') →
  (∃ ph v, global_state m' = state_of ph v ∧ 0 <= v <= v0 + (k + 1)) → (pausing q = true → pause_snapshot m' = true) →
  snapshot_ok m' (<[i := q]> ths) q →
  (∀ j x tid g, ths !! j = Some x → committed x = Some (tid, g) → g = global_state m' ∨ follows g (global_state m') ∧ unsettled q tid) →
  (∀ j x tid g, ths !! j = Some x → guarding x = Some (tid, g) → ¬ seen_free q tid) →
  SnapInv v0 (k + 1) (mkSnap m' (<[i := q]> ths)).
Proof.
  intros Hp Hpc Hpg Hqo H1 H2 H3 Hq Hrest Hgl Hpa Hok Hcom Hfr. destruct Hinv as [Hslots _ Hwt Hidle Hflag Hone Hpause Hth _ _]. cbn [mgr places] in *.
  assert (owner p = None ∧ holding p = None) as [Hpo Hph] by (destruct Hp as [Hp|(? & ? & _)]; [by apply snapshotting_quiet in Hp as (? & ? & _)|done]).
  assert (holding q = None ∧ carries q = None ∧ committed q = None ∧ guarding q = None) as (Hqh & Hqc & Hqm & Hqg) by by destruct q.
  assert (∀ j x, <[i := q]> ths !! j = Some x → j = i ∧ x = q ∨ ths !! j = Some x ∧ snapshotting x = false) as Hothers.
  { intros j x [[-> ->]|[Hn Hj]]%moved; [by left|]. right. split; [done|]. destruct (snapshotting x) eqn:Hx; [|done]. exfalso.
    destruct Hp as [Hp|(_ & _ & Hp)]; [by apply Hn; eapply Hone|]. by rewrite (Hflag _ _ Hj Hx) in Hp. }
  split; cbn [mgr places].
  - eapply slots_same; [done|exact Hslots|done|done|by rewrite Hpo|by rewrite Hph|by left].
  - done.
  - rewrite H3. lia.
  - done.
  - intros j x [[-> ->]|[_ Hx']]%Hothers Hx; [auto|]. by rewrite Hx' in Hx.
  - intros j j' x y [[-> ->]|[_ Hx']]%Hothers [[-> ->]|[_ Hy']]%Hothers Hx Hy; [done|by rewrite Hy' in Hy|by rewrite Hx' in Hx..].
  - intros j x [[-> ->]|[_ Hx']]%Hothers Hx; [auto|]. apply not_snapshotting in Hx' as (Hx' & _). by rewrite Hx' in Hx.
  - intros j x [[-> ->]|[_ Hx']]%Hothers; [done|]. apply (proj2 (proj2 (not_snapshotting x Hx'))).
  - intros j x tid g [[-> ->]|[_ Hj]]%moved Hx; [by rewrite Hqm in Hx|]. destruct (Hcom j x tid g Hj Hx) as [|[Hf Hu]]; [by left|]. right. split; [done|].
    exists i, q. split; [by eapply moved_at|done].
  - intros j x j' y tid g Hj [[-> ->]|[_ Hy']]%Hothers Hx; [|by apply not_snapshotting]. apply moved in Hj as [[-> ->]|[_ Hj]]; [by rewrite Hqg in Hx|by eapply Hfr].
Qed.
End steps.

(** ** Every step keeps the invariant *)
Section preservation.
Context (v0 k : Z) (m : CPRSnapShotMgr) (ths : list place) (i : nat).
Hypothesis Hk : k + 1 < 2 ^ 32.
Hypothesis Hv0 : v0 + 2 ^ 32 <= 2 ^ 61.
Hypothesis Hinv : SnapInv v0 k (mkSnap m ths).

Definition keeps_inv (p : place) (r : outcome (CPRSnapShotMgr * place)) : Prop :=
  ∃ m' q, r = Ret (m', q) ∧ SnapInv v0 (k + 1) (mkSnap m' (<[i := q]> ths)).

Lemma keeps_ret p m' q : SnapInv v0 (k + 1) (mkSnap m' (<[i := q]> ths)) → keeps_inv p (Ret (m', q)).
Proof. intros H. by exists m', q. Qed.

Lemma stays p : ths !! i = Some p → keeps_inv p (Ret (m, p)).
Proof.
  intros Hi. apply keeps_ret. rewrite list_insert_id by done. destruct Hinv as [H1 (ph & v & H2 & H2') H3 H4 H5 H6 H7 H8 H9 H10].
  split; try done; [|cbn in *; lia]. exists ph, v. split; [done|lia].
Qed.

Abbreviation slots_kept := (sn_slots v0 k (mkSnap m ths) Hinv).

(** A user thread moves on and keeps what it has. *)
Lemma user_same p q :
  ths !! i = Some p → snapshotting p = false → snapshotting q = false → owner q = owner p → holding q = holding p → (carries q = None ∨ carries q = carries p) →
  (will_bump p = true → will_bump q = true) → (will_wake p = true → will_wake q = true) →
  (∀ tid g, committed q = Some (tid, g) → committed p = Some (tid, g) ∨ g = global_state m) →
  (∀ tid g, guarding q = Some (tid, g) → guarding p = Some (tid, g) ∨ pause_snapshot m = false) → keeps_inv p (Ret (m, q)).
Proof.
  intros Hi Hp Hq Ho Hh Hc Hb Hw Hcm Hg. pose proof (sn_waiter _ _ _ Hinv) as Hwt. cbn in Hwt. apply keeps_ret.
  eapply user_move; try done; [|lia|by left]. by eapply slots_same; [|exact slots_kept|..].
Qed.

Ltac user_place := first [done | by left | by right | by intros | naive_solver].
Ltac slot_place := first [exact slots_kept | done | by left | by right | by intros ? [= <-] | by intros ? ? [= <- <-]].

Lemma slot_exists tid : (tid < SLOTS)%nat → (∃ b, thread_slots m !! tid = Some b) ∧ ∃ s, thread_local_states m !! tid = Some s.
Proof.
  intros Ht. destruct slots_kept as [H1 H2 _ _ _ _]. cbn [mgr] in *.
  split; [destruct (lookup_lt_is_Some_2 (thread_slots m) tid) as [b ->]|destruct (lookup_lt_is_Some_2 (thread_local_states m) tid) as [s ->]]; by eauto; lia.
Qed.

Lemma owned_slot p tid : ths !! i = Some p → owner p = Some tid → (tid < SLOTS)%nat.
Proof. intros Hi Ho. destruct slots_kept as [H1 _ Ht _ _ _]. rewrite <- H1. by eapply lookup_lt_Some, Ht. Qed.

Lemma claim_keeps j : ths !! i = Some (Claim j) → keeps_inv (Claim j) (claim_slot m j).
Proof.
  intros Hi. pose proof (sn_waiter _ _ _ Hinv) as Hwt. cbn in Hwt. unfold claim_slot. case_decide; [|by apply user_same; user_place].
  set (tid := (j mod SLOTS)%nat). assert (tid < SLOTS)%nat as Ht by (apply Nat.mod_upper_bound; done).
  destruct (slot_exists tid Ht) as [[b Hb] _]. rewrite Hb. cbn [unwrap]. ret_step. destruct b; [by apply user_same; user_place|].
  apply keeps_ret. eapply user_move; try done; [|cbn; lia|by left].
  by eapply slots_claim; [|exact slots_kept|exact Hb|..].
Qed.

Lemma store_local_keeps tid g : ths !! i = Some (StoreLocal tid g) →
  keeps_inv (StoreLocal tid g) (m' ← set_local_state m tid g; Ret (m', Recheck tid g)).
Proof.
  intros Hi. pose proof (sn_waiter _ _ _ Hinv) as Hwt. cbn in Hwt. destruct (slot_exists tid (owned_slot _ tid Hi eq_refl)) as [_ [s Hs]].
  unfold set_local_state, get_local_state. rewrite Hs. cbn [unwrap]. ret_step. zcase (s =? g).
  - ret_step. apply keeps_ret. eapply user_move; try done; [|lia|by left]. eapply slots_write with (tid := tid) (s := g); try slot_place.
    cbn. rewrite list_insert_id; [done|]. rewrite Hs. by f_equal.
  - ret_step. apply keeps_ret. eapply user_move; try done; [|cbn; lia|by left]. eapply slots_write with (tid := tid) (s := g); slot_place.
Qed.

Lemma recheck_keeps tid g : ths !! i = Some (Recheck tid g) → keeps_inv (Recheck tid g) (recheck m tid g).
Proof.
  intros Hi. pose proof (sl_state _ _ slots_kept i _ tid g Hi eq_refl) as Hs. cbn in Hs. unfold recheck, get_local_state. rewrite Hs. cbn [unwrap]. ret_step.
  zcase (g =? global_state m); apply user_same; user_place.
Qed.

Lemma leave_store_keeps tid reset : ths !! i = Some (LeaveStore tid reset) → keeps_inv (LeaveStore tid reset) (leave_store m tid reset).
Proof.
  intros Hi. pose proof (sn_waiter _ _ _ Hinv) as Hwt. cbn in Hwt. destruct (slot_exists tid (owned_slot _ tid Hi eq_refl)) as [_ [s Hs]].
  unfold leave_store, set_local_state, get_local_state. rewrite Hs. cbn [unwrap]. ret_step. zcase (s =? INVALID_SNAPSHOT_STATE); ret_step; apply keeps_ret.
  - eapply user_move; try done; [|lia|by left]. eapply slots_write with (tid := tid) (s := s); try slot_place.
    cbn. by rewrite list_insert_id.
  - eapply user_move; try done; [|cbn; lia|by left]. eapply slots_write with (tid := tid) (s := INVALID_SNAPSHOT_STATE); slot_place.
Qed.

Lemma leave_slot_keeps tid reset : ths !! i = Some (LeaveSlot tid reset) → keeps_inv (LeaveSlot tid reset) (leave_slot m tid reset).
Proof.
  intros Hi. pose proof (sn_waiter _ _ _ Hinv) as Hwt. cbn in Hwt. pose proof (sl_taken _ _ slots_kept i _ tid Hi eq_refl) as Ht. cbn in Ht.
  unfold leave_slot. rewrite Ht. cbn [unwrap]. ret_step. rewrite orb_true_r. cbn [assert_]. ret_step. apply keeps_ret.
  eapply user_move; try done; [|cbn; lia|by left]. by eapply slots_release; [|exact slots_kept|..].
Qed.

Lemma leave_bump_keeps : ths !! i = Some LeaveBump → keeps_inv LeaveBump (Ret (bump_waiter m, LeaveWake)).
Proof.
  intros Hi. pose proof (sn_waiter _ _ _ Hinv) as Hwt. cbn in Hwt. apply keeps_ret.
  assert (phase_waiter (bump_waiter m) = phase_waiter m + 1) as Hb by (cbn; apply Z.mod_small; lia).
  eapply user_move; try done; [by eapply slots_same; [|exact slots_kept|..]; try done; left|rewrite Hb; lia|rewrite Hb; lia|by left].
Qed.

(** *** The snapshot thread *)
Lemma global_bound : ∃ ph v, global_state m = state_of ph v ∧ version_ok v ∧ version_ok (next_version ph v) ∧ 0 <= v <= v0 + k.
Proof.
  destruct (sn_global _ _ _ Hinv) as (ph & v & Hg & Hv). exists ph, v. unfold version_ok, next_version. cbn in Hg. split_and!; try done; try lia; destruct ph; lia.
Qed.

Lemma bad_slot tid s : thread_local_states m !! tid = Some s → s ≠ INVALID_SNAPSHOT_STATE → some_thread will_bump ths.
Proof. intros Hs Hne. destruct (sl_free _ _ slots_kept tid s Hs) as [|(j & x & Hj & Hx)]; [done|]. exists j, x. split; [done|by destruct x]. Qed.

Section thread.
Context (p : place).
Hypothesis Hi : ths !! i = Some p.
Hypothesis Hp : snapshotting p = true.

Lemma only_here j x : ths !! j = Some x → snapshotting x = true → j = i ∧ x = p.
Proof. intros Hj Hx. assert (j = i) as -> by by eapply (sn_one _ _ _ Hinv). rewrite Hi in Hj. by injection Hj as <-. Qed.

Lemma commit_here j x tid g : ths !! j = Some x → committed x = Some (tid, g) → g = global_state m ∨ follows g (global_state m) ∧ unsettled p tid.
Proof.
  intros Hj Hx. destruct (sn_commit _ _ _ Hinv j x tid g Hj Hx) as [|(Hf & j' & y & Hj' & Hy)]; [by left|]. right. split; [done|].
  destruct (only_here j' y Hj') as [_ ->]; [|done]. by destruct (snapshotting y) eqn:Hsy; [|apply not_snapshotting in Hsy as (_ & Hn & _); apply Hn in Hy].
Qed.

(** A committed thread is in the slot with its state. *)
Lemma commit_slot j x tid g : ths !! j = Some x → committed x = Some (tid, g) →
  thread_local_states m !! tid = Some g ∧ g ≠ INVALID_SNAPSHOT_STATE ∧ (tid < SLOTS)%nat.
Proof.
  intros Hj Hx. assert (carries x = Some (tid, g)) as Hc by by destruct x.
  pose proof (sl_state _ _ slots_kept j x tid g Hj Hc) as Hs. split; [done|]. split.
  - destruct global_bound as (ph & v & Hg & Hv & _). destruct (commit_here j x tid g Hj Hx) as [->|[(ph' & v' & Hv' & _ & -> & _) _]]; [rewrite Hg|]; by apply state_valid.
  - rewrite <- (sl_locals _ _ slots_kept). by eapply lookup_lt_Some.
Qed.

(** The thread looks around. *)
Lemma snapshot_same q :
  snapshotting q = true → (pausing q = true → pausing p = true) → snapshot_ok m (<[i := q]> ths) q →
  (∀ j x tid g, ths !! j = Some x → committed x = Some (tid, g) → unsettled p tid → g = global_state m ∨ unsettled q tid) →
  (∀ j x tid g, ths !! j = Some x → guarding x = Some (tid, g) → seen_free q tid → seen_free p tid) → keeps_inv p (Ret (m, q)).
Proof.
  intros Hq Hpa Hok Hc Hf. apply keeps_ret. pose proof Hinv as [_ (ph & v & Hg & Hv) _ Hidle Hflag _ Hpause _ _ Hfr]. cbn [mgr places] in *.
  destruct (snapshotting_quiet p Hp) as (_ & _ & _ & Hpc & Hpg). destruct (snapshotting_quiet q Hq) as (Hqo & _).
  eapply snapshot_move; try done; [by left|by intros _; eapply Hflag| |by intros Hx; eapply Hpause; [|auto]| |].
  - exists ph, v. split; [done|lia].
  - intros j x tid g Hj Hx. destruct (commit_here j x tid g Hj Hx) as [|[Hfo Hu]]; [by left|]. destruct (Hc j x tid g Hj Hx Hu); [by left|by right].
  - intros j x tid g Hj Hx Hs. eapply (Hfr j x i p); [done..|]. by eapply Hf.
Qed.

(** The next phase begins when all guards have the state of this one. *)
Lemma advance_keeps sv ph v :
  version_ok v → global_state m = state_of ph v → (∀ j x tid g, ths !! j = Some x → committed x = Some (tid, g) → g = global_state m) →
  next_version ph v = (match next_phase ph with Prepare => sv | _ => sv + 1 end) →
  keeps_inv p (advance_to m sv (next_phase ph) (next_version ph v)).
Proof.
  intros Hv Hg Hall Hsv. destruct global_bound as (ph' & v' & Hg' & Hv' & Hn' & Hb).
  assert (ph' = ph ∧ v' = v) as [-> ->] by (apply state_inj; [done..|by rewrite <- Hg', <- Hg]).
  unfold advance_to. rewrite (advance_spec m ph v Hg Hv' Hn'). ret_step. unfold get_global_phase_id, get_global_version. cbn [global_state set_global].
  rewrite phase_of_state, version_of_state by done. ret_step. rewrite bool_decide_eq_true_2 by done. cbn [assert_]. ret_step. rewrite Z.eqb_refl. cbn [assert_]. ret_step.
  destruct (snapshotting_quiet p Hp) as (_ & _ & _ & Hpc & Hpg). apply keeps_ret. eapply snapshot_move; try done; [by left|..].
  - intros _. by eapply (sn_flag _ _ _ Hinv).
  - cbn. intros Hx. pose proof (sn_flag _ _ _ Hinv i p Hi Hp) as Hf. cbn in Hf. by rewrite Hf in Hx.
  - exists (next_phase ph), (next_version ph v). split; [done|]. unfold next_version. destruct ph; lia.
  - cbn. split; [by apply Nat.ltb_lt|]. split; [split; [done|]; unfold run_version; cbn; by rewrite <- Hsv|]. split; [done|]. by destruct ph.
  - intros j x tid g Hj Hx. right. rewrite (Hall j x tid g Hj Hx), Hg. split; [by exists ph, v|]. cbn. lia.
  - intros j x tid g _ _ [].
Qed.
End thread.

Lemma enter_keeps : ths !! i = Some Enter → keeps_inv Enter (Ret (enter m)).
Proof.
  intros Hi. unfold enter. destruct (snapshot_in_progress m) eqn:Hf; [apply user_same; user_place|]. apply keeps_ret.
  pose proof Hinv as [_ (ph & v & Hg & Hv) _ Hidle Hflag _ _ _ Hcom _]. cbn [mgr places] in *.
  eapply snapshot_move; try done; [by right|..].
  - exists ph, v. split; [done|lia].
  - cbn. destruct (Hidle Hf) as (v' & Hv' & He). by exists v'.
  - intros j x tid g Hj Hx. destruct (Hcom j x tid g Hj Hx) as [|(_ & j' & y & Hj' & Hy)]; [by left|]. exfalso.
    destruct (snapshotting y) eqn:Hsy; [by rewrite (Hflag _ _ Hj' Hsy) in Hf|]. apply not_snapshotting in Hsy as (_ & Hn & _). by apply Hn in Hy.
  - intros j x tid g _ _ [].
Qed.

Lemma start_keeps : ths !! i = Some Opened → keeps_inv Opened (start m).
Proof.
  intros Hi. destruct (sn_thread _ _ _ Hinv i _ Hi) as (v & Hv & Hg). cbn in Hg. unfold start, get_global_phase_id, get_global_version.
  rewrite Hg, phase_of_state, version_of_state by done. ret_step. rewrite bool_decide_eq_true_2 by done. cbn [assert_]. ret_step.
  apply (advance_keeps Opened Hi eq_refl v Rest v Hv Hg); [|done]. intros j x tid g Hj Hx. by destruct (commit_here _ Hi eq_refl j x tid g Hj Hx) as [|[_ []]].
Qed.

(** *** The checks *)
Section scan.
Context (r : run) (freeze : bool) (c : check) (j : nat).
Abbreviation here := (Scan r freeze c j).
Hypothesis Hi : ths !! i = Some here.

Lemma scan_known : (j < SLOTS)%nat ∧ run_ok m r ∧ (freeze = true → current_global_phase_id r = Sweep) ∧ match c with SecondCheck w => w <= phase_waiter m | _ => True end.
Proof. exact (sn_thread _ _ _ Hinv i here Hi). Qed.

(** The slot that was looked at. *)
Section good.
Context (s : Z).
Hypothesis Hs : thread_local_states m !! j = Some s.
Hypothesis Hgood : s = INVALID_SNAPSHOT_STATE ∨ s = goal r freeze.

Lemma good_commit i' x tid g : ths !! i' = Some x → committed x = Some (tid, g) → freeze = false → (tid <= j)%nat → g = global_state m.
Proof.
  intros Hx Hc Hf Ht. destruct (commit_here here Hi eq_refl i' x tid g Hx Hc) as [|[_ Hu]]; [done|]. apply unsettled_scan in Hu as [_ Hu]. assert (tid = j) as -> by lia.
  destruct (commit_slot here Hi eq_refl i' x j g Hx Hc) as (Hl & Hne & _). rewrite Hs in Hl. injection Hl as ->. destruct Hgood as [|Hg]; [done|].
  rewrite Hg, Hf. cbn. by destruct scan_known as (_ & [-> _] & _).
Qed.

Lemma good_guard i' x tid g : ths !! i' = Some x → guarding x = Some (tid, g) → freeze = true → (j < tid)%nat.
Proof.
  intros Hx Hg Hf. pose proof (sn_frozen _ _ _ Hinv i' x i here tid g Hx Hi Hg) as Hno. rewrite seen_scan in Hno.
  assert (committed x = Some (tid, g)) as Hc by by destruct x. destruct (commit_slot here Hi eq_refl i' x tid g Hx Hc) as (Hl & Hne & _).
  destruct (decide (tid = j)) as [->|]; [|by destruct (decide (j < tid)%nat); [|destruct Hno; split; [done|lia]]]. rewrite Hs in Hl. injection Hl as ->. rewrite Hf in Hgood. by destruct Hgood.
Qed.

Lemma next_slot_keeps : (S j < SLOTS)%nat → keeps_inv here (Ret (m, Scan r freeze c (S j))).
Proof.
  intros Hlt. destruct scan_known as (_ & Hr & Hf & Hc). apply (snapshot_same here Hi eq_refl); try done.
  - intros i' x tid g Hx Hcm [Hfr Hu]%unsettled_scan. destruct (decide (tid = j)) as [->|Hne]; [left; by eapply good_commit|right].
    apply unsettled_scan. split; [done|lia].
  - intros i' x tid g Hx Hg [Hfr Hse]%seen_scan. pose proof (good_guard i' x tid g Hx Hg Hfr). lia.
Qed.

Lemma restart_keeps c' : match c' with SecondCheck _ => False | _ => True end → keeps_inv here (Ret (m, Scan r freeze c' 0)).
Proof.
  intros Hc'. destruct scan_known as (_ & Hr & Hf & _). apply (snapshot_same here Hi eq_refl); try done.
  - cbn. split; [by apply Nat.ltb_lt|]. split; [done|]. split; [done|]. by destruct c'.
  - intros i' x tid g Hx Hcm [Hfr Hu]%unsettled_scan. right. apply unsettled_scan. split; [done|lia].
  - intros i' x tid g Hx Hg [_ Hse]%seen_scan. lia.
Qed.

Lemma frozen_keeps : S j = SLOTS → freeze = true → keeps_inv here (Ret (m, Frozen r)).
Proof.
  intros Hlast Hfr. destruct scan_known as (_ & Hr & Hfs & _). apply (snapshot_same here Hi eq_refl); try done; [by intros _; cbn; rewrite Hfr|by split; [|apply Hfs]|..].
  - intros i' x tid g Hx Hcm [Hno _]%unsettled_scan. by rewrite Hfr in Hno.
  - intros i' x tid g Hx Hg _. exfalso. assert (committed x = Some (tid, g)) as Hc by by destruct x.
    destruct (commit_slot here Hi eq_refl i' x tid g Hx Hc) as (_ & _ & Ht). pose proof (good_guard i' x tid g Hx Hg Hfr). lia.
Qed.

Lemma phase_done_keeps : S j = SLOTS → freeze = false → keeps_inv here (completed m r false TopCheck).
Proof.
  intros Hlast Hfr. destruct scan_known as (_ & Hr & _ & _). pose proof Hr as (_ & Hv & Hg).
  assert (∀ i' x tid g, ths !! i' = Some x → committed x = Some (tid, g) → g = global_state m) as Hall.
  { intros i' x tid g Hx Hc. destruct (commit_slot here Hi eq_refl i' x tid g Hx Hc) as (_ & _ & Ht). eapply good_commit; [done..|lia]. }
  unfold completed. unfold run_version in *. destruct (current_global_phase_id r) eqn:Hph.
  - apply (snapshot_same here Hi eq_refl); try done. intros i' x tid g Hx Hc _. left. by eapply Hall.
  - by apply (advance_keeps here Hi eq_refl (snapshot_version r) Prepare (snapshot_version r)).
  - by apply (advance_keeps here Hi eq_refl (snapshot_version r) InProgress (snapshot_version r + 1)).
  - apply (snapshot_same here Hi eq_refl); try done. intros i' x tid g Hx Hc _. left. by eapply Hall.
Qed.
End good.

End scan.

Lemma failed_keeps r freeze c j s :
  ths !! i = Some (Scan r freeze c j) → thread_local_states m !! j = Some s → s ≠ INVALID_SNAPSHOT_STATE →
  keeps_inv (Scan r freeze c j) (Ret (m, failed r freeze c)).
Proof.
  intros Hi Hs Hbad. destruct (scan_known r freeze c j Hi) as (_ & Hr & Hfs & Hw). destruct c as [| |w]; cbn [failed].
  - by apply restart_keeps.
  - apply (snapshot_same _ Hi eq_refl); try done. intros i' x tid g Hx Hc [Hfr _]%unsettled_scan. right. by rewrite Hfr.
  - apply (snapshot_same _ Hi eq_refl); try done.
    + split; [done|]. split; [done|]. split; [done|]. intros _. eapply some_moved; [exact Hi|done|]. by eapply bad_slot.
    + intros i' x tid g Hx Hc [Hfr _]%unsettled_scan. right. by rewrite Hfr.
Qed.

Lemma check_slot_keeps r freeze c j : ths !! i = Some (Scan r freeze c j) → keeps_inv (Scan r freeze c j) (check_slot m r freeze c j).
Proof.
  intros Hi. destruct (scan_known r freeze c j Hi) as (Hj & _). destruct (slot_exists j Hj) as [_ [s Hs]].
  unfold check_slot, get_local_state. rewrite Hs. cbn [unwrap]. ret_step.
  zcase (s =? INVALID_SNAPSHOT_STATE); cbn [negb andb]; [|zcase (s =? goal r freeze); cbn [negb andb]; [|by eapply failed_keeps]].
  all: case_decide as Hlast; [|by eapply next_slot_keeps; eauto; lia].
  all: destruct c; [|by eapply restart_keeps..].
  all: destruct freeze; [by eapply frozen_keeps; eauto|by eapply phase_done_keeps; eauto].
Qed.

Lemma waiting_keeps r freeze p : ths !! i = Some p →
  p = LoadWaiter r freeze ∨ (∃ w, p = FutexWait r freeze w ∧ phase_waiter m ≠ w) ∨ p = Asleep r freeze →
  ∀ c, match c with SecondCheck w => w <= phase_waiter m | _ => True end → keeps_inv p (Ret (m, Scan r freeze c 0)).
Proof.
  intros Hi Hp c Hc. pose proof (sn_thread _ _ _ Hinv i p Hi) as Hok.
  assert (snapshotting p = true) as Hsn by (destruct Hp as [->|[(w & -> & _)| ->]]; done).
  assert (run_ok m r ∧ (freeze = true → current_global_phase_id r = Sweep)) as [Hr Hfs] by (destruct Hp as [->|[(w & -> & _)| ->]]; cbn in Hok; tauto).
  assert (pausing p = freeze) as Hpa by (destruct Hp as [->|[(w & -> & _)| ->]]; by destruct freeze).
  apply (snapshot_same _ Hi Hsn); try done.
  - rewrite Hpa. intros H. cbn in H. by destruct freeze.
  - cbn. split; [by apply Nat.ltb_lt|]. done.
  - intros i' x tid g Hx Hcm Hu. right. apply unsettled_scan. split; [|lia]. destruct Hp as [->|[(w & -> & _)| ->]]; by destruct freeze.
  - intros i' x tid g Hx Hg [_ Hse]%seen_scan. lia.
Qed.

Lemma futex_keeps r freeze w : ths !! i = Some (FutexWait r freeze w) →
  keeps_inv (FutexWait r freeze w) (Ret (m, if phase_waiter m =? w then Asleep r freeze else Scan r freeze FirstCheck 0)).
Proof.
  intros Hi. zcase (phase_waiter m =? w); [|by eapply waiting_keeps; [done|right; left; by eexists|]].
  destruct (sn_thread _ _ _ Hinv i _ Hi) as (Hr & Hfs & Hw & Hb). apply (snapshot_same _ Hi eq_refl); try done.
  - split; [done|]. split; [done|]. destruct Hb as (j & x & Hj & Hx); [done|]. cbn [places] in Hj. exists j, x.
    split; [apply moved_other; [done|]; intros ->; rewrite Hi in Hj; injection Hj as <-; done|by destruct x].
  - intros i' x tid g Hx Hcm Hu. right. exact Hu.
Qed.

(** Places after a completed sweep phase: all guards have the current state. *)
Lemma swept p q m' : ths !! i = Some p → (snapshotting p = true ∧ ∀ tid, ¬ unsettled p tid) →
  thread_slots m' = thread_slots m → thread_local_states m' = thread_local_states m → phase_waiter m' = phase_waiter m → global_state m' = global_state m →
  (snapshotting q = true → snapshot_in_progress m' = true) → owner q = None → (snapshot_in_progress m' = false → at_rest m') →
  (pausing q = true → pause_snapshot m' = true) → snapshot_ok m' (<[i := q]> ths) q → (∀ tid, ¬ seen_free q tid) ∨ (∀ tid, seen_free p tid) →
  keeps_inv p (Ret (m', q)).
Proof.
  intros Hi [Hsn Hun] H1 H2 H3 H4 Hq Hqo Hrest Hpa Hok Hse. apply keeps_ret. destruct (snapshotting_quiet p Hsn) as (_ & _ & _ & Hpc & Hpg).
  eapply snapshot_move; try done; [by left|..]; rewrite ?H4.
  - destruct (sn_global _ _ _ Hinv) as (ph & v & Hg & Hv). exists ph, v. split; [done|lia].
  - intros j x tid g Hj Hx. left. destruct (commit_here p Hi Hsn j x tid g Hj Hx) as [|[_ Hu]]; [done|]. by apply Hun in Hu.
  - intros j x tid g Hj Hx Hs. destruct Hse as [Hse|Hse]; [by apply Hse in Hs|]. exact (sn_frozen _ _ _ Hinv j x i p tid g Hj Hi Hx (Hse tid)).
Qed.

Lemma thread_step_keeps p c : ths !! i = Some p → p ≠ LeaveWake → keeps_inv p (thread_step m p c).
Proof.
  intros Hi Hne. pose proof (sn_thread _ _ _ Hinv i p Hi) as Hok. cbn [mgr places] in Hok.
  assert (snapshotting p = true → snapshot_in_progress m = true) as Hflag by by apply (sn_flag _ _ _ Hinv i p Hi).
  destruct p as [| |j|tid|tid g|tid g|tid g|tid g|tid b|tid b| | | | |r f ck j|r f|r f w|r f|r|r|r|r|r|]; cbn [thread_step].
  - destruct c; try (by apply stays); apply user_same; user_place.
  - destruct c; try (by apply stays). destruct (pause_snapshot m); [|case_decide]; apply user_same; user_place.
  - by apply claim_keeps.
  - apply user_same; user_place.
  - by apply store_local_keeps.
  - by apply recheck_keeps.
  - destruct (pause_snapshot m) eqn:Hp; apply user_same; user_place.
  - destruct c; try (by apply stays). apply user_same; user_place.
  - by apply leave_store_keeps.
  - by apply leave_slot_keeps.
  - by apply leave_bump_keeps.
  - done.
  - by apply enter_keeps.
  - destruct c; try (by apply stays). by apply start_keeps.
  - by apply check_slot_keeps.
  - eapply waiting_keeps; [done|by left|done].
  - by apply futex_keeps.
  - destruct c; try (by apply stays). eapply waiting_keeps; [done|by right; right|done].
  - destruct Hok as [Hr Hs]. eapply swept; try done; [|by intros Hx; cbn in Hx; rewrite Hflag in Hx|by cbn; split; [by apply Nat.ltb_lt|]|left; intros tid [_ H]%seen_scan; lia].
    split; [done|by intros tid []].
  - destruct c; try (by apply stays). eapply swept; try done; [|by intros Hx; cbn in Hx; rewrite Hflag in Hx|by intros _; eapply (sn_pause _ _ _ Hinv i _ Hi)|by right].
    split; [done|by intros tid []].
  - eapply swept; try done; [|by intros Hx; cbn in Hx; rewrite Hflag in Hx|by left; intros tid []]. split; [done|by intros tid []].
  - destruct c; try (by apply stays). destruct Hok as [(_ & Hv & Hg) Hs]. rewrite Hs in Hg. unfold run_version in *. rewrite Hs in *.
    apply (advance_keeps _ Hi eq_refl (snapshot_version r) Sweep (snapshot_version r + 1)); try done.
    intros j x tid g Hj Hx. by destruct (commit_here _ Hi eq_refl j x tid g Hj Hx) as [|[_ []]].
  - destruct Hok as [(_ & Hv & Hg) Hs]. rewrite Hs in Hg. assert (at_rest m) as Hrest by by exists (run_version r).
    destruct c; try (by apply stays). eapply swept; try done; [|by left; intros tid []]. split; [done|by intros tid []].
  - unfold finish. rewrite Hflag by done. cbn [assert_]. ret_step. eapply swept; try done; [|by left; intros tid []]. split; [done|by intros tid []].
Qed.

(** *** [wake_all] *)
Lemma wake_kept x : owner (wake x) = owner x ∧ holding (wake x) = holding x ∧ carries (wake x) = carries x ∧ committed (wake x) = committed x ∧
  guarding (wake x) = guarding x ∧ snapshotting (wake x) = snapshotting x ∧ pausing (wake x) = pausing x ∧ will_bump (wake x) = will_bump x.
Proof. by destruct x as [| | | | | | | | | | | | | | | | |r []| | | | | |]. Qed.

Lemma woken j x : (wake <$> ths) !! j = Some x → ∃ y, ths !! j = Some y ∧ x = wake y.
Proof. rewrite list_lookup_fmap. destruct (ths !! j) as [y|]; [|done]. intros [= <-]. by exists y. Qed.

Lemma wake_snapshot_ok x : snapshot_ok m ths x → snapshot_ok m (wake <$> ths) (wake x).
Proof.
  assert (∀ y, (∀ r f, y ≠ Asleep r f) → snapshot_ok m ths y → snapshot_ok m (wake <$> ths) y) as Hmono.
  { intros y Hy. apply snapshot_ok_mono; [done|lia| |by intros r f ->; destruct (Hy r f)].
    intros _ (j & z & Hj & Hz). exists j, (wake z). rewrite list_lookup_fmap, Hj. split; [done|]. by destruct (wake_kept z) as (_ & _ & _ & _ & _ & _ & _ & ->). }
  destruct x; try (by apply Hmono). cbn. intros (Hr & Hf & _). split; [by apply Nat.ltb_lt|]. done.
Qed.

Lemma wake_at j y : ths !! j = Some y → (wake <$> ths) !! j = Some (wake y).
Proof. intros Hj. by rewrite list_lookup_fmap, Hj. Qed.

Ltac wake_classes y :=
  let E := fresh "E" in pose proof (wake_kept y) as E; destruct E as (? & ? & ? & ? & ? & ? & ? & ?);
  repeat match goal with H : _ (wake y) = _ |- _ => rewrite H in *; clear H end.

Lemma wake_slots : SlotInv m (wake <$> ths).
Proof.
  destruct slots_kept as [L1 L2 L3 L4 L5 L6]. cbn [mgr places] in *. split; try done.
  - intros j x tid (y & Hy & ->)%woken Hx. wake_classes y. by eapply L3.
  - intros j j' x x' tid (y & Hy & ->)%woken (y' & Hy' & ->)%woken Hx Hx'. wake_classes y. wake_classes y'. by eapply L4.
  - intros tid s Hs. destruct (L5 tid s Hs) as [|(j & y & Hj & Hy)]; [by left|]. right. exists j, (wake y). split; [by apply wake_at|]. by wake_classes y.
  - intros j x tid g (y & Hy & ->)%woken Hx. wake_classes y. by eapply L6.
Qed.

Lemma wake_inv : SnapInv v0 k (mkSnap m (wake <$> ths)).
Proof.
  pose proof Hinv as [_ Hgl Hwt Hidle Hflag Hone Hpause Hth Hcom Hfr]. cbn [mgr places] in *. split; cbn [mgr places]; try done.
  - apply wake_slots.
  - intros j x (y & Hy & ->)%woken Hx. wake_classes y. by eapply Hflag.
  - intros j j' x x' (y & Hy & ->)%woken (y' & Hy' & ->)%woken Hx Hx'. wake_classes y. wake_classes y'. by eapply Hone.
  - intros j x (y & Hy & ->)%woken Hx. wake_classes y. by eapply Hpause.
  - intros j x (y & Hy & ->)%woken. by eapply wake_snapshot_ok, Hth.
  - intros j x tid g (y & Hy & ->)%woken Hx. wake_classes y. destruct (Hcom j y tid g Hy Hx) as [|(Hf & j' & z & Hj' & Hz)]; [by left|]. right.
    split; [done|]. exists j', (wake z). split; [by apply wake_at|]. destruct z as [| | | | | | | | | | | | | | | | |r []| | | | | |]; try done. cbn. lia.
  - intros j x j' x' tid g (y & Hy & ->)%woken (y' & Hy' & ->)%woken Hx Hs. wake_classes y. eapply (Hfr j y j' y'); [done..|].
    destruct y' as [| | | | | | | | | | | | | | | | |r []| | | | | |]; try done. cbn in Hs. lia.
Qed.

Lemma no_sleeper j r f : (wake <$> ths) !! j ≠ Some (Asleep r f).
Proof. intros (y & _ & Hy)%woken. by destruct y. Qed.
End preservation.

Lemma leave_wake_keeps v0 k m ths i :
  k + 1 < 2 ^ 32 → SnapInv v0 k (mkSnap m ths) → ths !! i = Some LeaveWake → SnapInv v0 (k + 1) (mkSnap m (wake <$> <[i := Out]> ths)).
Proof.
  intros Hk Hinv Hi. rewrite list_fmap_insert. cbn [wake]. pose proof (wake_inv v0 k m ths Hinv) as Hw. pose proof (sn_waiter _ _ _ Hw) as Hwt. cbn in Hwt.
  apply (user_move v0 k m (wake <$> ths) i LeaveWake Out Hw); try done; [by rewrite list_lookup_fmap, Hi|..].
  - eapply (slots_same _ _ LeaveWake); [by rewrite list_lookup_fmap, Hi|apply (sn_slots _ _ _ Hw)|done..|by left].
  - lia.
  - right. apply no_sleeper.
Qed.

Lemma snap_exec_inv v0 k st i c :
  k + 1 < 2 ^ 32 → v0 + 2 ^ 32 <= 2 ^ 61 → SnapInv v0 k st → ∃ st', snap_exec st i c = Ret st' ∧ SnapInv v0 (k + 1) st'.
Proof.
  intros Hk Hv Hinv. destruct st as [m ths]. unfold snap_exec. cbn [places mgr]. destruct (ths !! i) as [p|] eqn:Hi.
  2:{ eexists. split; [done|]. destruct Hinv as [H1 (ph & v & H2 & H2') H3 H4 H5 H6 H7 H8 H9 H10]. split; try done; [|cbn in *; lia]. exists ph, v. split; [done|lia]. }
  assert (p = LeaveWake ∨ p ≠ LeaveWake) as [->|Hne] by (destruct p; (by left) || by right); [by eexists; split; [|apply leave_wake_keeps]|].
  destruct (thread_step_keeps v0 k m ths i Hk Hv Hinv p c Hi Hne) as (m' & q & Hrun & Hinv').
  exists (mkSnap m' (<[i := q]> ths)). split; [|done]. destruct p; try done; by rewrite Hrun.
Qed.

(** ** Any interleaving *)
Lemma snap_run_inv v0 sched : ∀ k st,
  k + Z.of_nat (length sched) < 2 ^ 32 → v0 + 2 ^ 32 <= 2 ^ 61 → SnapInv v0 k st →
  ∃ st', snap_run st sched = Ret st' ∧ SnapInv v0 (k + Z.of_nat (length sched)) st'.
Proof.
  induction sched as [|[i c] sched IH]; intros k st Hk Hv Hinv; cbn [snap_run length] in *; [exists st; by rewrite Z.add_0_r|].
  destruct (snap_exec_inv v0 k st i c) as (st1 & -> & Hinv1); [lia|done..|]. ret_step.
  destruct (IH (k + 1) st1) as (st2 & Hrun & Hinv2); [lia|done..|]. exists st2. split; [done|].
  by replace (k + Z.of_nat (S (length sched))) with (k + 1 + Z.of_nat (length sched)) by lia.
Qed.

Lemma snap_initial_inv n v0 : version_ok v0 → ∃ st, snap_initial n v0 = Ret st ∧ SnapInv v0 0 st.
Proof.
  intros Hv. unfold snap_initial, CPRSnapShotMgr_new. pose proof (new_state Rest v0 Hv) as Hn. cbn [as_raw] in Hn. rewrite Hn. ret_step. eexists. split; [done|].
  assert (∀ i p, replicate n Out !! i = Some p → p = Out) as Hout by (intros i p [-> _]%lookup_replicate_1; done).
  split; cbn [mgr places global_state phase_waiter snapshot_in_progress pause_snapshot]; try done.
  - split; cbn [thread_slots thread_local_states]; [by rewrite length_replicate..| | | |].
    + by intros i p tid ->%Hout.
    + by intros i j p q tid ->%Hout.
    + intros tid s [-> _]%lookup_replicate_1. by left.
    + by intros i p tid g ->%Hout.
  - exists Rest, v0. unfold version_ok in Hv. split; [done|lia].
  - intros _. by exists v0.
  - by intros i p ->%Hout.
  - by intros i j p q ->%Hout.
  - by intros i p ->%Hout.
  - by intros i p ->%Hout.
  - by intros i p tid g ->%Hout.
  - by intros i p j q tid g ->%Hout.
Qed.

Lemma snap_reachable_inv n v0 sched :
  0 <= v0 → v0 + 2 ^ 32 <= 2 ^ 61 → Z.of_nat (length sched) < 2 ^ 32 →
  ∃ st0 st, snap_initial n v0 = Ret st0 ∧ snap_run st0 sched = Ret st ∧ SnapInv v0 (Z.of_nat (length sched)) st.
Proof.
  intros H0 Hv Hs. destruct (snap_initial_inv n v0) as (st0 & Hi & Hinv); [unfold version_ok; lia|]. destruct (snap_run_inv v0 sched 0 st0) as (st & Hr & Hinv'); [lia|done..|].
  by exists st0, st.
Qed.

(** Thread [i] has a guard on the slot [tid] that was taken in the phase [ph] at the version [v]. *)
Definition has_guard (st : snap_system) (i tid : nat) (ph : PhaseId) (v : Z) : Prop :=
  ∃ g, places st !! i = Some (Guarded tid g) ∧ guard_phase g = Ret ph ∧ guard_version g = v.

Definition in_global_state (st : snap_system) (ph : PhaseId) (v : Z) : Prop :=
  get_global_phase_id (mgr st) = Ret ph ∧ get_global_version (mgr st) = v.

Lemma guard_state v0 k st i tid ph v : SnapInv v0 k st → v0 + k < 2 ^ 61 → has_guard st i tid ph v →
  ∃ g, places st !! i = Some (Guarded tid g) ∧ g = state_of ph v ∧ version_ok v.
Proof.
  intros Hinv Hb (g & Hg & Hph & Hv). exists g. split; [done|]. destruct (sn_global _ _ _ Hinv) as (ph0 & w0 & Hgl & Hw0).
  assert (∃ ph' v', version_ok v' ∧ g = state_of ph' v') as (ph' & v' & Hv' & ->).
  { destruct (sn_commit _ _ _ Hinv i _ tid g Hg eq_refl) as [->|[(ph' & v' & Hv' & _ & -> & _) _]]; [exists ph0, w0|by exists ph', v'].
    split; [unfold version_ok; lia|done]. }
  unfold guard_phase, guard_version in *. rewrite phase_of_state in Hph by done. rewrite version_of_state in Hv by done. injection Hph as ->. by subst v'.
Qed.

(** C6: for any number of threads and any interleaving of reservations, releases and snapshots, no assertion of the
    snapshot manager fails; every guard is of the current phase and version or of the one before, and no two
    guards are on the same slot.  The interleaving has fewer than 2{^32} steps, so that the 32-bit counter that the
    snapshot thread waits on does not wrap around, and the versions stay within their 61 bits. *)
Theorem snapshot_guards_in_step n v0 sched :
  0 <= v0 → v0 + 2 ^ 32 <= 2 ^ 61 → Z.of_nat (length sched) < 2 ^ 32 →
  ∃ st0 st ph v, snap_initial n v0 = Ret st0 ∧ snap_run st0 sched = Ret st ∧ in_global_state st ph v ∧
    (∀ i tid ph' v', has_guard st i tid ph' v' → ph' = ph ∧ v' = v ∨ ph = next_phase ph' ∧ v = next_version ph' v') ∧
    (∀ i j tid ph1 v1 ph2 v2, has_guard st i tid ph1 v1 → has_guard st j tid ph2 v2 → i = j).
Proof.
  intros H0 Hv Hs. destruct (snap_reachable_inv n v0 sched H0 Hv Hs) as (st0 & st & Hi & Hr & Hinv).
  destruct (sn_global _ _ _ Hinv) as (ph & v & Hg & Hvb). assert (version_ok v) as Hvo by (unfold version_ok; lia).
  exists st0, st, ph, v. split; [done|]. split; [done|]. split; [|split].
  - unfold in_global_state, get_global_phase_id, get_global_version. by rewrite Hg, phase_of_state, version_of_state.
  - intros i tid ph' v' Hgu. destruct (guard_state _ _ _ _ _ _ _ Hinv ltac:(lia) Hgu) as (g & Hp & -> & Hv').
    destruct (sn_commit _ _ _ Hinv i _ tid _ Hp eq_refl) as [He|[(ph1 & v1 & Hv1 & Hn1 & He & He') _]].
    + left. rewrite Hg in He. by apply state_inj.
    + right. apply state_inj in He as [<- <-]; [|done..]. rewrite Hg in He'. by apply state_inj.
  - intros i j tid ph1 v1 ph2 v2 (g1 & H1 & _) (g2 & H2 & _). by eapply (sl_one _ _ (sn_slots _ _ _ Hinv) i j).
Qed.

(** A place between the end of the wait for a phase and the next phase. *)
Definition settled_in (st : snap_system) (r : run) (ph : PhaseId) : Prop :=
  ∃ j p, places st !! j = Some p ∧
    match p with SetPause r' | Frozen r' | ClearPause r' | SweepPages r' => r' = r ∧ ph = Sweep | Finalize r' => r' = r ∧ ph = Rest | _ => False end.

(** C7: when the snapshot thread sweeps, every guard is of the sweep phase and of the version after the snapshot's, and
    when it finalizes, of the rest phase of that version: no transaction of the old version is left.  While it
    traverses the inner nodes, no thread has a guard.  The interleaving has fewer than 2{^32} steps. *)
Theorem sweep_sees_no_old_guard n v0 sched :
  0 <= v0 → v0 + 2 ^ 32 <= 2 ^ 61 → Z.of_nat (length sched) < 2 ^ 32 →
  ∃ st0 st, snap_initial n v0 = Ret st0 ∧ snap_run st0 sched = Ret st ∧
    (∀ r ph i tid ph' v', settled_in st r ph → has_guard st i tid ph' v' → ph' = ph ∧ v' = snapshot_version r + 1) ∧
    (∀ j r i tid ph' v', places st !! j = Some (Frozen r) → ¬ has_guard st i tid ph' v').
Proof.
  intros H0 Hv Hs. destruct (snap_reachable_inv n v0 sched H0 Hv Hs) as (st0 & st & Hi & Hr & Hinv). exists st0, st. split; [done|]. split; [done|]. split.
  - intros r ph i tid ph' v' (j & p & Hj & Hp) Hgu. destruct (guard_state _ _ _ _ _ _ _ Hinv ltac:(lia) Hgu) as (g & Hgp & -> & Hv').
    assert (snapshotting p = true ∧ (∀ t, ¬ unsettled p t) ∧ run_ok (mgr st) r ∧ current_global_phase_id r = ph ∧ ph ≠ Prepare) as (Hsn & Hun & (_ & Hrv & Hg) & Hph & Hne).
    { pose proof (sn_thread _ _ _ Hinv j p Hj) as Hok. destruct p; try done; destruct Hp as [-> ->]; destruct Hok; split_and!; try done; by intros t []. }
    destruct st as [m ths]. cbn [mgr places] in *. destruct (commit_here _ _ _ _ _ Hinv p Hj Hsn i _ tid _ Hgp eq_refl) as [He|[_ Hu]]; [|by apply Hun in Hu].
    rewrite Hg in He. apply state_inj in He as [He1 He2]; [|done..]. unfold run_version in He2. rewrite He1, He2, Hph. split; [done|]. by destruct ph.
  - intros j r i tid ph' v' Hj (g & Hg & _). exact (sn_frozen _ _ _ Hinv i _ j _ tid g Hg Hj eq_refl I).
Qed.

(** C8: the snapshot thread is not left asleep: whenever it sleeps, another thread is between a reservation and the wake
    of its release.  This holds for interleavings of fewer than 2{^32} steps: the thread sleeps while a 32-bit counter has
    the value it last saw, and a counter that wraps around could have that value again after the wake it waits for. *)
Theorem snapshot_thread_woken n v0 sched :
  0 <= v0 → v0 + 2 ^ 32 <= 2 ^ 61 → Z.of_nat (length sched) < 2 ^ 32 →
  ∃ st0 st, snap_initial n v0 = Ret st0 ∧ snap_run st0 sched = Ret st ∧
    ∀ i r freeze, places st !! i = Some (Asleep r freeze) → ∃ j p, places st !! j = Some p ∧ will_wake p = true.
Proof.
  intros H0 Hv Hs. destruct (snap_reachable_inv n v0 sched H0 Hv Hs) as (st0 & st & Hi & Hr & Hinv). exists st0, st. split; [done|]. split; [done|].
  intros i r f Hp. by destruct (sn_thread _ _ _ Hinv i _ Hp) as (_ & _ & H).
Qed.

(** C12: there is a schedule of two threads after which, between the entry of a snapshot and its first phase, the manager
    reports that all threads are in the next version, while a thread still has a guard of the current one and no version
    has ended. *)
Theorem next_version_reported_early :
  ∃ sched st0 st g, snap_initial 2 0 = Ret st0 ∧ snap_run st0 sched = Ret st ∧ are_all_threads_in_next_version (mgr st) = Ret true ∧
    places st = [Guarded 0 g; Opened] ∧ guard_version g = 0 ∧ get_global_version (mgr st) = 0.
Proof.
  exists ((0%nat, CallReserve) :: (0%nat, StartAt 0) :: replicate 5 (0%nat, StartAt 0) ++ [(1%nat, CallSnapshot); (1%nat, Proceed)]).
  eexists _, _, 0. split; [vm_compute; reflexivity|]. split; [vm_compute; reflexivity|]. split; [vm_compute; reflexivity|]. split_and!; vm_compute; reflexivity.
Qed.

(** *** Sample schedules *)
Definition reserve_at (i s : nat) : list (nat * snap_choice) := (i, CallReserve) :: replicate 6 (i, StartAt s).

Definition snapshot_for (i k : nat) : list (nat * snap_choice) := (i, CallSnapshot) :: replicate k (i, Proceed).

Definition places_after (n : nat) (v0 : Z) (sched : list (nat * snap_choice)) : outcome (list place) :=
  st0 ← snap_initial n v0; st ← snap_run st0 sched; Ret (places st).

(** A reservation before the snapshot enters its first phase and one after. *)
Definition two_guards : list (nat * snap_choice) := reserve_at 0 7 ++ snapshot_for 1 2 ++ reserve_at 2 9.

Lemma snapshot_guards_in_step_witness :
  (∃ p, places_after 3 3 two_guards = Ret [Guarded 7 (state_of Rest 3); p; Guarded 9 (state_of Prepare 3)]) ∧
  ∃ st0 st ph v, snap_initial 3 3 = Ret st0 ∧ snap_run st0 two_guards = Ret st ∧ in_global_state st ph v ∧
    (∀ i tid ph' v', has_guard st i tid ph' v' → ph' = ph ∧ v' = v ∨ ph = next_phase ph' ∧ v = next_version ph' v') ∧
    (∀ i j tid ph1 v1 ph2 v2, has_guard st i tid ph1 v1 → has_guard st j tid ph2 v2 → i = j).
Proof.
  split; [eexists; vm_compute; reflexivity|].
  apply (snapshot_guards_in_step 3 3 two_guards); [lia|lia|vm_compute; reflexivity].
Defined.

(** A snapshot up to its sweep, and a reservation during it. *)
Definition guard_in_sweep : list (nat * snap_choice) := snapshot_for 1 389 ++ reserve_at 0 7.

Lemma sweep_sees_no_old_guard_witness :
  (∃ r, places_after 2 3 guard_in_sweep = Ret [Guarded 7 (state_of Sweep 4); SweepPages r] ∧ snapshot_version r = 3) ∧
  ∃ st0 st, snap_initial 2 3 = Ret st0 ∧ snap_run st0 guard_in_sweep = Ret st ∧
    (∀ r ph i tid ph' v', settled_in st r ph → has_guard st i tid ph' v' → ph' = ph ∧ v' = snapshot_version r + 1) ∧
    (∀ j r i tid ph' v', places st !! j = Some (Frozen r) → ¬ has_guard st i tid ph' v').
Proof.
  split; [eexists; split; vm_compute; reflexivity|].
  apply (sweep_sees_no_old_guard 2 3 guard_in_sweep); [lia|lia|vm_compute; reflexivity].
Defined.

(** A snapshot that waits for a guard. *)
Definition waiting_snapshot : list (nat * snap_choice) := reserve_at 0 7 ++ snapshot_for 1 30.

Lemma snapshot_thread_woken_witness :
  (∃ r freeze, places_after 2 3 waiting_snapshot = Ret [Guarded 7 (state_of Rest 3); Asleep r freeze]) ∧
  ∃ st0 st, snap_initial 2 3 = Ret st0 ∧ snap_run st0 waiting_snapshot = Ret st ∧
    ∀ i r freeze, places st !! i = Some (Asleep r freeze) → ∃ j p, places st !! j = Some p ∧ will_wake p = true.
Proof.
  split; [eexists _, _; vm_compute; reflexivity|].
  apply (snapshot_thread_woken 2 3 waiting_snapshot); [lia|lia|vm_compute; reflexivity].
Defined.
