(* ===== verification/SnapshotFile.v ===== *)
(** The snapshot file (src/snapshot.rs, src/fs/std_vfs.rs): a file of bytes with an allocator of offsets, the copies of
    pages that the threads of a snapshot put in it, the mappings from pages to their copies, and the header with the
    configuration of the tree.

    Numbers are little-endian.  The bytes of padding in a copy of a struct are an argument, as is the order in which a
    hash map lists its entries; a floating point number is stored as its bits.  Reads and writes of the file are
    complete: a read stops only at the end of the file. *)
From stdpp Require Import base numbers list sorting option gmap strings.
From Stdlib Require Import ZArith Lia.
From S2P Require Import Prelude Bits NodeMeta LeafMeta LeafNode InnerNode Config SnapshotMgr.

Definition NULL_PAGE_LOCATION_OFFSET : Z := 2 ^ 64 - 1.
Definition META_DATA_PAGE_OFFSET : Z := 0.
Definition SECTOR_SIZE : Z := 512.
Definition BF_TREE_MAGIC_BEGIN : bytes := [66; 70; 45; 84; 82; 69; 69; 45; 86; 48; 45; 66; 69; 71; 73; 78].
Definition BF_TREE_MAGIC_END : bytes := [66; 70; 45; 84; 82; 69; 69; 45; 86; 48; 45; 69; 78; 68].

(** ** The file *)
Definition write_at (f : bytes) (offset : Z) (buf : bytes) : bytes :=
  splice (f ++ replicate (Z.to_nat (offset + zlen buf - zlen f)) 0) offset buf.

(** What is past the end of the file stays as it was in the buffer. *)
Definition read_at (f : bytes) (offset : Z) (buf : bytes) : bytes :=
  let n := Z.min (zlen buf) (Z.max 0 (zlen f - offset)) in
  sub_bytes f offset n ++ drop (Z.to_nat n) buf.

Record StdVfs := mkVfs { file : bytes; offset_alloc : Z }.

Definition first_offset (len : Z) : Z := if len <? DISK_PAGE_SIZE then DISK_PAGE_SIZE else len.
Definition StdVfs_open (contents : bytes) : StdVfs := mkVfs contents (first_offset (zlen contents)).
Definition StdVfs_reset (v : StdVfs) : StdVfs := mkVfs [] (first_offset 0).
Definition StdVfs_alloc_offset (v : StdVfs) (size : Z) : Z * StdVfs := (offset_alloc v, mkVfs (file v) (offset_alloc v + size)).
Definition StdVfs_write (v : StdVfs) (offset : Z) (buf : bytes) : StdVfs := mkVfs (write_at (file v) offset buf) (offset_alloc v).
Definition StdVfs_read (v : StdVfs) (offset : Z) (buf : bytes) : bytes := read_at (file v) offset buf.

(** ** Vectors in the file *)
Definition align_to_sector_size (n : Z) : Z := Z.land (n + SECTOR_SIZE - 1) (not64 (SECTOR_SIZE - 1)).

Definition pages_of (size : Z) : list Z := map (Z.mul DISK_PAGE_SIZE) (seqZ 0 ((size + DISK_PAGE_SIZE - 1) / DISK_PAGE_SIZE)).

Definition chunks (slice : bytes) : list bytes :=
  map (λ i, sub_bytes slice i DISK_PAGE_SIZE) (pages_of (zlen slice)).

Definition write_chunk (st : option Z * StdVfs) (chunk : bytes) : option Z * StdVfs :=
  let '(offset, v) := StdVfs_alloc_offset st.2 DISK_PAGE_SIZE in
  (Some (default offset st.1), StdVfs_write v offset chunk).

Definition serialize_u8_slice_to_disk (slice : bytes) (v : StdVfs) : outcome (Z * StdVfs) :=
  let r := foldl write_chunk (None, v) (chunks slice) in
  start_offset ← unwrap r.1; Ret (start_offset, r.2).

(** The entries of a mapping are pairs of 64-bit numbers. *)
Definition entry_bytes (e : Z * Z) : bytes := le_bytes 8 e.1 ++ le_bytes 8 e.2.
Definition entry_of (b : bytes) (i : Z) : Z * Z := (le_val (sub_bytes b (16 * i) 8), le_val (sub_bytes b (16 * i + 8) 8)).

Definition serialize_vec_to_disk (l : list (Z * Z)) (v : StdVfs) : outcome (Z * Z * StdVfs) :=
  match l with
  | [] => Ret (0, 0, v)
  | _ =>
      let raw := mjoin (map entry_bytes l) in
      let unaligned_size := zlen raw in
      let aligned := raw ++ replicate (Z.to_nat (align_to_sector_size unaligned_size - unaligned_size)) 0 in
      r ← serialize_u8_slice_to_disk aligned v;
      Ret (r.1, unaligned_size, r.2)
  end.

(** The buffer is used again for the next page. *)
Definition read_page (v : StdVfs) (offset : Z) (st : bytes * bytes) (i : Z) : bytes * bytes :=
  let buffer := StdVfs_read v (offset + i) st.2 in (st.1 ++ buffer, buffer).

Definition read_u8_slice_from_disk (offset size : Z) (v : StdVfs) : bytes :=
  (foldl (read_page v offset) ([], replicate (Z.to_nat DISK_PAGE_SIZE) 0) (pages_of size)).1.

Definition read_vec_from_offset (offset size : Z) (v : StdVfs) : outcome (list (Z * Z)) :=
  _ ← assert_ (0 <? size);
  let slice := read_u8_slice_from_disk offset size v in
  Ret (map (entry_of slice) (seqZ 0 (size / 16))).

(** A vector that may be empty. *)
Definition read_mapping (offset size : Z) (v : StdVfs) : outcome (list (Z * Z)) :=
  if 0 <? size then read_vec_from_offset offset size v else Ret [].

(** ** Pages as bytes *)
Definition leaf_image (n : LeafNode) : bytes :=
  le_bytes 2 (encoded (LeafNode.meta n)) ++ le_bytes 2 (node_size (LeafNode.meta n)) ++ le_bytes 2 (remaining_size (LeafNode.meta n)) ++
  le_bytes 2 (prefix_len n) ++ le_bytes 8 (next_level n) ++ le_bytes 8 (lsn n) ++ le_bytes 8 (LeafNode.snapshot_version n) ++ LeafNode.data n.

Definition leaf_of_bytes (raw : bytes) : LeafNode :=
  mkLeafNode (mkNodeMeta (le_val (sub_bytes raw 0 2)) (le_val (sub_bytes raw 2 2)) (le_val (sub_bytes raw 4 2)))
    (le_val (sub_bytes raw 6 2)) (le_val (sub_bytes raw 8 8)) (le_val (sub_bytes raw 16 8)) (le_val (sub_bytes raw 24 8))
    (drop 32 raw).

(** The slice of a page has the length that its header says. *)
Definition page_slice (n : LeafNode) : outcome bytes := slice (leaf_image n) 0 (node_size (LeafNode.meta n)).

(** ** The header *)
Section header.
Context {F : Type} (to_bits : F → Z) (of_bits : Z → F) (pad : Z → Z → bytes).

Record BfTreeMeta := mkBfTreeMeta {
  magic_begin : bytes;
  m_root_id : Z;
  inner_offset : Z; inner_size : Z;
  mini_offset : Z; mini_size : Z;
  mini_size_offset : Z; mini_size_size : Z;
  base_offset : Z; base_size : Z;
  file_size : Z;
  leaf_page_num : Z;
  m_cb_size_byte : Z;
  m_snapshot_version : Z;
  m_cache_only : bool;
  m_read_promotion_rate : Z;
  m_scan_promotion_rate : Z;
  m_cb_min_record_size : Z;
  m_cb_max_record_size : Z;
  m_leaf_page_size : Z;
  m_cb_max_key_len : Z;
  m_max_fence_len : Z;
  m_cb_copy_on_access_ratio : F;
  m_read_record_cache : bool;
  m_max_mini_page_size : Z;
  m_mini_page_binary_search : bool;
  m_write_load_full_page : bool;
  magic_end : bytes;
}.

(** The size of the struct, which is aligned to a sector. *)
Definition BF_TREE_META_SIZE : Z := 512.

Definition bool_byte (b : bool) : Z := if b then 1 else 0.

Definition words (l : list Z) : bytes := mjoin (map (le_bytes 8) l).

Definition BfTreeMeta_as_slice (m : BfTreeMeta) : bytes :=
  magic_begin m ++
  words [m_root_id m; inner_offset m; inner_size m; mini_offset m; mini_size m; mini_size_offset m; mini_size_size m;
         base_offset m; base_size m; file_size m; leaf_page_num m; m_cb_size_byte m; m_snapshot_version m] ++
  [bool_byte (m_cache_only m)] ++ pad 121 7 ++
  words [m_read_promotion_rate m; m_scan_promotion_rate m; m_cb_min_record_size m; m_cb_max_record_size m; m_leaf_page_size m;
         m_cb_max_key_len m; m_max_fence_len m; to_bits (m_cb_copy_on_access_ratio m)] ++
  [bool_byte (m_read_record_cache m)] ++ pad 193 7 ++
  words [m_max_mini_page_size m] ++
  [bool_byte (m_mini_page_binary_search m); bool_byte (m_write_load_full_page m)] ++ magic_end m ++ pad 224 288.

Definition word_at (raw : bytes) (i : Z) : Z := le_val (sub_bytes raw i 8).
Definition bool_at (raw : bytes) (i : Z) : bool := negb (le_val (sub_bytes raw i 1) =? 0).

Definition meta_of_bytes (raw : bytes) : BfTreeMeta :=
  mkBfTreeMeta (sub_bytes raw 0 16) (word_at raw 16) (word_at raw 24) (word_at raw 32) (word_at raw 40) (word_at raw 48)
    (word_at raw 56) (word_at raw 64) (word_at raw 72) (word_at raw 80) (word_at raw 88) (word_at raw 96) (word_at raw 104)
    (word_at raw 112) (bool_at raw 120) (word_at raw 128) (word_at raw 136) (word_at raw 144) (word_at raw 152) (word_at raw 160)
    (word_at raw 168) (word_at raw 176) (of_bits (word_at raw 184)) (bool_at raw 192) (word_at raw 200) (bool_at raw 208)
    (bool_at raw 209) (sub_bytes raw 210 14).

Definition check_magic (m : BfTreeMeta) : outcome unit :=
  _ ← assert_ (bool_decide (magic_begin m = BF_TREE_MAGIC_BEGIN));
  assert_ (bool_decide (magic_end m = BF_TREE_MAGIC_END)).

(** [Config::new_from_snapshot]; [base] is the default configuration. *)
Definition Config_new_from_snapshot (base : Config F) (m : BfTreeMeta) : Config F :=
  set_cb_size_byte (set_write_load_full_page (set_mini_page_binary_search (set_max_mini_page_size (set_read_record_cache
    (set_cb_copy_on_access_ratio (set_max_fence_len (set_cb_max_key_len (set_leaf_page_size (set_cb_max_record_size
      (set_cb_min_record_size (set_scan_promotion_rate (set_read_promotion_rate (set_cache_only
        (Config.set_snapshot_version base (m_snapshot_version m + 1)) (m_cache_only m)) (m_read_promotion_rate m))
        (m_scan_promotion_rate m)) (m_cb_min_record_size m)) (m_cb_max_record_size m)) (m_leaf_page_size m)) (m_cb_max_key_len m))
      (m_max_fence_len m)) (m_cb_copy_on_access_ratio m)) (m_read_record_cache m)) (m_max_mini_page_size m))
    (m_mini_page_binary_search m)) (m_write_load_full_page m)) (m_cb_size_byte m).
End header.
Arguments BfTreeMeta : clear implicits.

(** ** The copies of pages *)

(** What the manager has besides the words of SnapshotMgr.v: for every slot the mappings of its thread, the root, and the
    file.  A page is known by its number or its pointer as a 64-bit word. *)
Record SnapshotData := mkData {
  thread_local_inner_mappings : list (list (Z * Z));
  thread_local_base_mappings : list (list (Z * Z));
  thread_local_mini_mappings : list (list (Z * Z));
  thread_local_mini_size_mappings : list (list (Z * Z));
  root_id : Z;
  vfs : StdVfs;
}.

Definition set_vfs (d : SnapshotData) (v : StdVfs) : SnapshotData :=
  mkData (thread_local_inner_mappings d) (thread_local_base_mappings d) (thread_local_mini_mappings d)
    (thread_local_mini_size_mappings d) (root_id d) v.

Definition set_root_id (d : SnapshotData) (r : Z) : SnapshotData :=
  mkData (thread_local_inner_mappings d) (thread_local_base_mappings d) (thread_local_mini_mappings d)
    (thread_local_mini_size_mappings d) r (vfs d).

(** [reset] *)
Definition data_reset (d : SnapshotData) : SnapshotData :=
  let empty := replicate DEFAULT_MAX_SNAPSHOT_THREAD_NUM [] in mkData empty empty empty empty 0 (vfs d).

Definition snapshot_page (d : SnapshotData) (ptr : bytes) (size : Z) : Z * SnapshotData :=
  let '(offset, v) := StdVfs_alloc_offset (vfs d) size in
  (offset, set_vfs d (StdVfs_write v offset ptr)).

(** [mappings[thread_slot_id].push(entry)] *)
Definition push_at (mappings : list (list (Z * Z))) (thread_slot_id : nat) (entry : Z * Z) : outcome (list (list (Z * Z))) :=
  l ← unwrap (mappings !! thread_slot_id); Ret (<[thread_slot_id := l ++ [entry]]> mappings).

Definition snapshot_inner_node (d : SnapshotData) (ptr : Z) (image : bytes) (thread_slot_id : nat) : outcome SnapshotData :=
  let '(offset, d1) := snapshot_page d image INNER_NODE_SIZE in
  m ← push_at (thread_local_inner_mappings d1) thread_slot_id (ptr, offset);
  Ret (mkData m (thread_local_base_mappings d1) (thread_local_mini_mappings d1) (thread_local_mini_size_mappings d1) (root_id d1) (vfs d1)).

Definition snapshot_mini_page (d : SnapshotData) (id : Z) (ptr : bytes) (size : Z) (thread_slot_id : nat) : outcome SnapshotData :=
  let '(offset, d1) := if size =? 0 then (NULL_PAGE_LOCATION_OFFSET, d) else snapshot_page d ptr size in
  m ← push_at (thread_local_mini_mappings d1) thread_slot_id (id, offset);
  s ← push_at (thread_local_mini_size_mappings d1) thread_slot_id (id, size);
  l1 ← unwrap (m !! thread_slot_id);
  l2 ← unwrap (s !! thread_slot_id);
  _ ← assert_ (bool_decide (length l1 = length l2));
  Ret (mkData (thread_local_inner_mappings d1) (thread_local_base_mappings d1) m s (root_id d1) (vfs d1)).

Definition snapshot_base_page (d : SnapshotData) (id : Z) (ptr : bytes) (size : Z) (thread_slot_id : nat) : outcome SnapshotData :=
  let '(offset, d1) := snapshot_page d ptr size in
  m ← push_at (thread_local_base_mappings d1) thread_slot_id (id, offset);
  Ret (mkData (thread_local_inner_mappings d1) m (thread_local_mini_mappings d1) (thread_local_mini_size_mappings d1) (root_id d1) (vfs d1)).

Definition snapshot_root_page (d : SnapshotData) (root : Z) : outcome SnapshotData :=
  _ ← assert_ ((root_id d =? 0) || (root_id d =? root));
  Ret (set_root_id d root).

(** ** The end of a snapshot *)
Section finalize.
Context {F : Type} (to_bits : F → Z) (pad : Z → Z → bytes) (hash_order : gmap Z Z → list (Z * Z)).
Context (cfg : Config F).

(** [entry(k).or_insert(v)]: what is there stays. *)
Definition or_insert (m : gmap Z Z) (e : Z * Z) : gmap Z Z :=
  match m !! e.1 with Some _ => m | None => <[e.1 := e.2]> m end.

(** A page that is nowhere has the size zero, and no other has. *)
Definition null_ok (offset size : Z) : bool := if offset =? NULL_PAGE_LOCATION_OFFSET then size =? 0 else 0 <? size.

Definition merge_mini_entry (acc : gmap Z Z * gmap Z Z) (p : (Z * Z) * (Z * Z)) : outcome (gmap Z Z * gmap Z Z) :=
  let '((k, offset), (k', size)) := p in
  _ ← assert_ (k =? k');
  _ ← assert_ (null_ok offset size);
  match acc.1 !! k with
  | Some _ => Ret acc
  | None =>
      let m := <[k := offset]> acc.1 in
      let s := <[k' := size]> acc.2 in
      _ ← assert_ (bool_decide (base.size m = base.size s));
      Ret (m, s)
  end.

Definition merge_mini_thread (acc : gmap Z Z * gmap Z Z) (p : list (Z * Z) * list (Z * Z)) : outcome (gmap Z Z * gmap Z Z) :=
  _ ← assert_ (bool_decide (length p.1 = length p.2));
  foldM merge_mini_entry acc (zip p.1 p.2).

Definition sanity_check (m s : gmap Z Z) : outcome unit :=
  _ ← assert_ (bool_decide (base.size m = base.size s));
  foldM (λ _ (e : Z * Z), sz ← unwrap (s !! e.1); assert_ (null_ok e.2 sz)) tt (hash_order m).

Definition merge_sweep_size (m : gmap Z Z) (e : Z * Z) : outcome (gmap Z Z) :=
  match m !! e.1 with
  | None => Ret (<[e.1 := e.2]> m)
  | Some v => _ ← assert_ (cache_only cfg || (e.2 =? v)); Ret m
  end.

(** Pages in the order of their numbers. *)
Definition page_le (x y : Z * Z) : Prop := Z.land x.1 (not64 ID_MASK) <= Z.land y.1 (not64 ID_MASK).
Global Instance page_le_dec : RelDecision page_le.
Proof. intros x y. unfold page_le. apply _. Defined.

(** The key function of the sort is called when there are two elements to compare. *)
Definition by_page_id (l : list (Z * Z)) : outcome (list (Z * Z)) :=
  _ ← (if decide (length l < 2)%nat then Ret tt else foldM (λ _ (e : Z * Z), assert_ (is_id (NodeMeta.from_raw e.1))) tt l);
  Ret (merge_sort page_le l).

(** The end of the file after a vector. *)
Definition file_end (current : Z) (at_ : Z * Z) : Z := if at_.1 =? 0 then current else at_.1 + align_to_sector_size at_.2.

(** What the sweep has copied. *)
Record sweep_mappings := mkSweep {
  sweep_inner : list (Z * Z);
  sweep_mini : list (Z * Z);
  sweep_mini_size : list (Z * Z);
  sweep_base : list (Z * Z);
}.

(** The mappings of the threads and of the sweep without duplicates: inner nodes, mini pages, their sizes, base pages. *)
Definition merge_mappings (d : SnapshotData) (w : sweep_mappings) : outcome (gmap Z Z * gmap Z Z * gmap Z Z * gmap Z Z) :=
  threads ← foldM merge_mini_thread (∅, ∅) (zip (thread_local_mini_mappings d) (thread_local_mini_size_mappings d));
  let inner := foldl or_insert ∅ (mjoin (thread_local_inner_mappings d)) in
  let base := foldl or_insert ∅ (mjoin (thread_local_base_mappings d)) in
  _ ← sanity_check threads.1 threads.2;
  let inner' := foldl or_insert inner (sweep_inner w) in
  let mini := foldl or_insert threads.1 (sweep_mini w) in
  sizes ← foldM merge_sweep_size threads.2 (sweep_mini_size w);
  let base' := foldl or_insert base (sweep_base w) in
  _ ← sanity_check mini sizes;
  _ ← assert_ (if cache_only cfg then bool_decide (base' = ∅) else bool_decide (base.size mini <= base.size base')%nat);
  Ret (inner', mini, sizes, base').

(** Where the mappings are: offsets and sizes of those of inner nodes, mini pages, sizes of mini pages and base pages. *)
Definition header_of (root snapshot_version : Z) (inner mini sizes base : Z * Z) (file_size leaf_page_num : Z) : BfTreeMeta F :=
  mkBfTreeMeta BF_TREE_MAGIC_BEGIN root inner.1 inner.2 mini.1 mini.2 sizes.1 sizes.2 base.1 base.2 file_size leaf_page_num
    (cb_size_byte cfg) snapshot_version (cache_only cfg) (read_promotion_rate cfg) (scan_promotion_rate cfg) (cb_min_record_size cfg)
    (cb_max_record_size cfg) (leaf_page_size cfg) (cb_max_key_len cfg) (max_fence_len cfg) (cb_copy_on_access_ratio cfg)
    (read_record_cache cfg) (max_mini_page_size cfg) (mini_page_binary_search cfg) (write_load_full_page cfg) BF_TREE_MAGIC_END.

Definition finalize (d : SnapshotData) (snapshot_version : Z) (w : sweep_mappings) (leaf_count_upper : Z) : outcome SnapshotData :=
  maps ← merge_mappings d w;
  let '(inner, mini, sizes, base) := maps in
  base_list ← (if cache_only cfg then Ret [] else by_page_id (hash_order base));
  leaf_page_num ← (if cache_only cfg then Ret leaf_count_upper
                   else _ ← assert_ (zlen base_list <=? leaf_count_upper); Ret (zlen base_list));
  r1 ← serialize_vec_to_disk (hash_order inner) (vfs d);
  let '(inner_at, v1) := r1 in
  r2 ← serialize_vec_to_disk (hash_order mini) v1;
  let '(mini_at, v2) := r2 in
  r3 ← serialize_vec_to_disk (hash_order sizes) v2;
  let '(sizes_at, v3) := r3 in
  r4 ← serialize_vec_to_disk base_list v3;
  let '(base_at, v4) := r4 in
  let file_size := foldl file_end BF_TREE_META_SIZE [inner_at; mini_at; sizes_at; base_at] in
  let metadata := header_of (root_id d) snapshot_version inner_at mini_at sizes_at base_at file_size leaf_page_num in
  Ret (data_reset (set_vfs d (StdVfs_write v4 META_DATA_PAGE_OFFSET (BfTreeMeta_as_slice to_bits pad metadata)))).
End finalize.
