(* ===== verification/SnapshotFormat.v ===== *)
(** The snapshot file (SnapshotFile.v): what has been written to it stays where it is, and is read back: pages,
    mappings and the header. *)
From stdpp Require Import base numbers list sorting option gmap.
From Stdlib Require Import ZArith Lia.
From S2P Require Import Prelude Bits NodeMeta LeafMeta LeafNode InnerNode Config SnapshotMgr SnapshotFile.

(** ** Reading and writing *)

(** The file has the bytes [b] from the offset [off] on. *)
Definition has (f : bytes) (off : Z) (b : bytes) : Prop := 0 <= off ∧ off + zlen b <= zlen f ∧ sub_bytes f off (zlen b) = b.

Lemma zlen_write f off b : 0 <= off → zlen (write_at f off b) = Z.max (zlen f) (off + zlen b).
Proof.
  intros Ho. unfold write_at. rewrite zlen_splice; rewrite ?zlen_app; unfold zlen in *; rewrite ?length_replicate; lia.
Qed.

Lemma sub_app_l (a b : bytes) off len : 0 <= off → off + len <= zlen a → sub_bytes (a ++ b) off len = sub_bytes a off len.
Proof.
  intros Ho Hl. apply list_eq. intros i. rewrite !sub_lookup. case_decide; [|done]. rewrite lookup_app_l; [done|]. unfold zlen in *. lia.
Qed.

Lemma write_has f off b : 0 <= off → has (write_at f off b) off b.
Proof.
  intros Ho. split; [done|]. rewrite zlen_write by done. split; [lia|]. unfold write_at. apply sub_splice_same; [done|].
  rewrite zlen_app. unfold zlen in *. rewrite length_replicate. lia.
Qed.

Lemma write_keeps f off b off' b' : 0 <= off → off' + zlen b' <= off ∨ off + zlen b <= off' → has f off' b' → has (write_at f off b) off' b'.
Proof.
  intros Ho Hd (H1 & H2 & H3). split; [done|]. rewrite zlen_write by done. split; [lia|]. unfold write_at.
  rewrite sub_splice_out; [by rewrite sub_app_l|done| |done|lia]. rewrite zlen_app. unfold zlen in *. rewrite length_replicate. lia.
Qed.

Lemma has_sub f off b o len : has f off b → 0 <= o → 0 <= len → o + len <= zlen b → has f (off + o) (sub_bytes b o len).
Proof.
  intros (H1 & H2 & H3) Ho Hl Hb. split; [lia|]. rewrite zlen_sub by lia. split; [lia|]. rewrite <- H3. by rewrite sub_sub by lia.
Qed.

Lemma has_head f off a b : has f off (a ++ b) → has f off a.
Proof.
  intros H. pose proof (zlen_nonneg a). pose proof (zlen_nonneg b). apply (has_sub _ _ _ 0 (zlen a)) in H; [|lia|lia|rewrite zlen_app; lia].
  by rewrite Z.add_0_r, sub_head in H.
Qed.

Lemma read_has f off b buf : has f off b → zlen buf = zlen b → read_at f off buf = b.
Proof.
  intros (H1 & H2 & H3) Hl. pose proof (zlen_nonneg b). unfold read_at. rewrite Z.max_r, Z.min_l by lia. rewrite Hl, H3.
  rewrite drop_ge by (unfold zlen in *; lia). apply app_nil_r.
Qed.

(** ** The allocator of offsets *)
Record vfs_ok (v : StdVfs) : Prop := {
  vo_start : DISK_PAGE_SIZE <= offset_alloc v;
  vo_end : zlen (file v) <= offset_alloc v;
}.

(** The bytes [b] have been written to a place of their own. *)
Definition stored (v : StdVfs) (off : Z) (b : bytes) : Prop :=
  has (file v) off b ∧ DISK_PAGE_SIZE <= off ∧ off + zlen b <= offset_alloc v.

(** The file grows by at most [k] bytes and keeps what is stored. *)
Record grown (k : Z) (v v' : StdVfs) : Prop := {
  gr_ok : vfs_ok v';
  gr_next : offset_alloc v <= offset_alloc v' <= offset_alloc v + k;
  gr_file : zlen (file v) <= zlen (file v');
  gr_keeps : ∀ off b, stored v off b → stored v' off b;
}.

Lemma grown_refl k v : 0 <= k → vfs_ok v → grown k v v.
Proof. by split; [|lia..|]. Qed.

Lemma file_grown_trans k1 k2 k v1 v2 v3 : grown k1 v1 v2 → grown k2 v2 v3 → k1 + k2 <= k → grown k v1 v3.
Proof. intros [H1 H2 H3 H4] [G1 G2 G3 G4] Hk. split; [done|lia|lia|]. auto. Qed.

Lemma grown_weaken k k' v v' : grown k v v' → k <= k' → grown k' v v'.
Proof. intros [H1 H2 H3 H4] Hk. by split; [|lia..|]. Qed.

Lemma reset_ok v : vfs_ok (StdVfs_reset v).
Proof. split; [done|]. unfold StdVfs_reset, first_offset. cbn. done. Qed.

(** Bytes in space that has just been allocated. *)
Lemma write_grown v size b : vfs_ok v → zlen b <= size →
  let v' := StdVfs_write (StdVfs_alloc_offset v size).2 (offset_alloc v) b in
  grown size v v' ∧ stored v' (offset_alloc v) b ∧ offset_alloc v' = offset_alloc v + size ∧
  zlen (file v') = Z.max (zlen (file v)) (offset_alloc v + zlen b).
Proof.
  intros [H1 H2] Hb. assert (0 < DISK_PAGE_SIZE) by done. cbn. pose proof (zlen_nonneg b).
  assert (zlen (write_at (file v) (offset_alloc v) b) = Z.max (zlen (file v)) (offset_alloc v + zlen b)) as Hl by (apply zlen_write; lia).
  split; [|split; [|done]].
  - split; cbn; [split; cbn; lia|lia|lia|]. intros off b' (Hh & Ho & He). split; [|cbn; lia]. apply write_keeps; [lia|lia|done].
  - split; [apply write_has; lia|cbn; lia].
Qed.

Lemma snapshot_page_spec d b size : vfs_ok (vfs d) → zlen b = size →
  ∃ v', snapshot_page d b size = (offset_alloc (vfs d), set_vfs d v') ∧ grown size (vfs d) v' ∧ stored v' (offset_alloc (vfs d)) b ∧
    offset_alloc v' = offset_alloc (vfs d) + size.
Proof.
  intros Hv Hb. unfold snapshot_page. eexists. split; [done|].
  destruct (write_grown (vfs d) size b Hv ltac:(lia)) as (H1 & H2 & H3 & _). done.
Qed.

(** ** Vectors *)
Lemma has_app f off a b : has f off a → has f (off + zlen a) b → has f off (a ++ b).
Proof.
  intros (H1 & H2 & H3) (G1 & G2 & G3). split; [done|]. rewrite zlen_app. split; [lia|].
  pose proof (zlen_nonneg a). pose proof (zlen_nonneg b). rewrite sub_app by lia. by rewrite H3, G3.
Qed.

Lemma align_spec n : 0 <= n < 2 ^ 63 → n <= align_to_sector_size n < n + SECTOR_SIZE.
Proof.
  intros Hn. unfold align_to_sector_size, SECTOR_SIZE. change (not64 (512 - 1)) with (2 ^ 64 - 2 ^ 9).
  rewrite land_high by lia. change (2 ^ 9) with 512. dlia.
Qed.

(** The pages of a slice: all but the last are full. *)
Fixpoint paged (cs : list bytes) : Prop :=
  match cs with
  | [] => True
  | c :: cs' => zlen c <= DISK_PAGE_SIZE ∧ (cs' ≠ [] → zlen c = DISK_PAGE_SIZE) ∧ paged cs'
  end.

Lemma pages_join s a k : mjoin (map (λ i, sub_bytes s i DISK_PAGE_SIZE) (map (Z.mul DISK_PAGE_SIZE) (seqZ (Z.of_nat a) (Z.of_nat k)))) =
  sub_bytes s (DISK_PAGE_SIZE * Z.of_nat a) (DISK_PAGE_SIZE * Z.of_nat k).
Proof.
  revert a. induction k as [|k IH]; intros a; [done|]. rewrite seqZ_cons by lia. cbn [map mjoin list_join].
  replace (Z.succ (Z.of_nat a)) with (Z.of_nat (S a)) by lia. replace (Z.pred (Z.of_nat (S k))) with (Z.of_nat k) by lia. unfold mjoin in IH. rewrite IH.
  unfold sub_bytes. unfold DISK_PAGE_SIZE. replace (Z.to_nat (4096 * Z.of_nat (S k))) with (Z.to_nat 4096 + Z.to_nat (4096 * Z.of_nat k))%nat by lia.
  replace (Z.to_nat (4096 * Z.of_nat (S a))) with (Z.to_nat (4096 * Z.of_nat a) + Z.to_nat 4096)%nat by lia. by rewrite <- take_take_drop, drop_drop.
Qed.

Lemma pages_full s a k : DISK_PAGE_SIZE * (Z.of_nat a + Z.of_nat k - 1) <= zlen s →
  paged (map (λ i, sub_bytes s i DISK_PAGE_SIZE) (map (Z.mul DISK_PAGE_SIZE) (seqZ (Z.of_nat a) (Z.of_nat k)))).
Proof.
  revert a. induction k as [|k IH]; intros a Hs; [done|]. rewrite seqZ_cons by lia. cbn [map paged].
  replace (Z.succ (Z.of_nat a)) with (Z.of_nat (S a)) by lia. replace (Z.pred (Z.of_nat (S k))) with (Z.of_nat k) by lia.
  split; [unfold sub_bytes, zlen, DISK_PAGE_SIZE; rewrite length_take; lia|]. split; [|apply IH; lia].
  destruct k; [done|]. intros _. apply zlen_sub; unfold DISK_PAGE_SIZE in *; lia.
Qed.

Lemma whole_pages n : 0 < n → let k := Z.to_nat ((n + DISK_PAGE_SIZE - 1) / DISK_PAGE_SIZE) in
  (0 < k)%nat ∧ pages_of n = map (Z.mul DISK_PAGE_SIZE) (seqZ (Z.of_nat 0) (Z.of_nat k)) ∧
  n <= DISK_PAGE_SIZE * Z.of_nat k < n + DISK_PAGE_SIZE.
Proof. intros Hn k. unfold pages_of, k, DISK_PAGE_SIZE in *. split; [dlia|]. split; [|dlia]. by rewrite Z2Nat.id by dlia. Qed.

Lemma chunks_spec s : s ≠ [] → chunks s ≠ [] ∧ mjoin (chunks s) = s ∧ paged (chunks s) ∧ DISK_PAGE_SIZE * zlen (chunks s) < zlen s + DISK_PAGE_SIZE.
Proof.
  intros Hs. assert (0 < zlen s) as Hl by (destruct s; [done|]; rewrite zlen_cons; pose proof (zlen_nonneg s); lia).
  destruct (whole_pages (zlen s) Hl) as (Hk & Hp & Hn1 & Hn2). set (k := Z.to_nat _) in *. unfold chunks. rewrite Hp. split_and!.
  - intros He%(f_equal length). rewrite !length_map, length_seqZ in He. cbn in He. lia.
  - rewrite pages_join. unfold sub_bytes. rewrite Z.mul_0_r, drop_0. apply take_ge. unfold zlen in *. lia.
  - apply pages_full. lia.
  - unfold zlen at 1. rewrite !length_map, length_seqZ. lia.
Qed.

Lemma write_chunks cs s v : vfs_ok v → paged cs →
  ∃ v', foldl write_chunk (Some s, v) cs = (Some s, v') ∧ grown (DISK_PAGE_SIZE * zlen cs) v v' ∧
    offset_alloc v' = offset_alloc v + DISK_PAGE_SIZE * zlen cs ∧
    (cs ≠ [] → stored v' (offset_alloc v) (mjoin cs) ∧ zlen (file v') = offset_alloc v + zlen (mjoin cs)).
Proof.
  revert v. induction cs as [|c cs IH]; intros v Hv Hp; cbn [foldl].
  { exists v. split; [done|]. split; [by apply grown_refl|]. split; [unfold zlen; cbn; lia|done]. }
  destruct Hp as (Hc & Hfull & Hp). destruct (write_grown v DISK_PAGE_SIZE c Hv Hc) as (Hg & Hst & Hn & Hl). cbv zeta in *.
  set (v1 := StdVfs_write _ _ _) in *. destruct (IH v1 (gr_ok _ _ _ Hg) Hp) as (v' & Hrun & Hg' & Hn' & Hst'). exists v'.
  rewrite zlen_cons. split; [exact Hrun|]. split; [eapply file_grown_trans; [exact Hg|exact Hg'|lia]|]. split; [rewrite Hn', Hn; lia|]. intros _.
  change (mjoin (c :: cs)) with (c ++ mjoin cs). destruct cs as [|c' cs'].
  { cbn in Hrun. injection Hrun as <-. change (mjoin []) with (@nil Z). rewrite app_nil_r. split; [done|]. rewrite Hl. destruct Hv. pose proof (zlen_nonneg c). lia. }
  destruct (Hst' ltac:(done)) as [(Hh & Ho & He) Hl']. rewrite Hn, <- (Hfull ltac:(done)) in Hh, He, Hl'.
  destruct (gr_keeps _ _ _ Hg' _ _ Hst) as (Hh0 & Ho0 & He0). split.
  - split; [by apply has_app|]. rewrite zlen_app. lia.
  - rewrite Hl', zlen_app. lia.
Qed.

Definition entries (l : list (Z * Z)) : bytes := mjoin (map entry_bytes l).

Lemma zlen_le n z : zlen (le_bytes n z) = Z.of_nat n.
Proof. unfold zlen. by rewrite length_le_bytes. Qed.

Lemma zlen_entry e : zlen (entry_bytes e) = 16.
Proof. unfold entry_bytes. by rewrite zlen_app, !zlen_le. Qed.

Lemma entries_app l1 l2 : entries (l1 ++ l2) = entries l1 ++ entries l2.
Proof. unfold entries. by rewrite map_app, join_app. Qed.

Lemma zlen_entries l : zlen (entries l) = 16 * zlen l.
Proof.
  induction l as [|e l IH]; [done|]. change (entries (e :: l)) with (entry_bytes e ++ entries l). rewrite zlen_app, zlen_entry, zlen_cons. lia.
Qed.

Lemma serialize_slice_spec s v : vfs_ok v → s ≠ [] →
  ∃ v', serialize_u8_slice_to_disk s v = Ret (offset_alloc v, v') ∧ grown (zlen s + DISK_PAGE_SIZE) v v' ∧
    stored v' (offset_alloc v) s ∧ zlen (file v') = offset_alloc v + zlen s.
Proof.
  intros Hv Hs. destruct (chunks_spec s Hs) as (Hne & Hj & Hp & Hlen).
  destruct (write_chunks (chunks s) (offset_alloc v) v Hv Hp) as (v' & Hrun & [G1 G2 G3 G4] & Hn & Hst).
  destruct (Hst Hne) as [Hst' Hl]. rewrite Hj in Hst', Hl. exists v'. split; [|split; [split; [done|lia|done|done]|done]].
  unfold serialize_u8_slice_to_disk. assert (foldl write_chunk (None, v) (chunks s) = (Some (offset_alloc v), v')) as ->; [|done].
  rewrite <- Hrun. by destruct (chunks s).
Qed.

(** A vector in the file; an empty one is not written. *)
Lemma serialize_vec_spec l v : vfs_ok v → zlen l < 2 ^ 58 →
  ∃ off v', serialize_vec_to_disk l v = Ret (off, 16 * zlen l, v') ∧ grown (16 * zlen l + 2 * DISK_PAGE_SIZE) v v' ∧
    if decide (l = []) then off = 0 ∧ v' = v
    else stored v' off (entries l) ∧ off = offset_alloc v ∧ zlen (file v') = off + align_to_sector_size (16 * zlen l).
Proof.
  intros Hv Hb. pose proof (zlen_nonneg l). destruct l as [|e l]; [exists 0, v; split; [done|]; split; [by apply grown_refl|done]|].
  cbn [decide]. set (l' := e :: l) in *. unfold serialize_vec_to_disk. fold (entries l'). rewrite zlen_entries.
  assert (0 < zlen l') by (unfold l'; rewrite zlen_cons; pose proof (zlen_nonneg l); lia).
  destruct (align_spec (16 * zlen l') ltac:(lia)) as [Ha1 Ha2]. set (al := align_to_sector_size (16 * zlen l')) in *.
  set (z := replicate (Z.to_nat (al - 16 * zlen l')) 0). assert (zlen z = al - 16 * zlen l') as Hz by (unfold z, zlen at 1; rewrite length_replicate; lia).
  assert (zlen (entries l' ++ z) = al) as Hal by (rewrite zlen_app, zlen_entries, Hz; lia).
  destruct (serialize_slice_spec (entries l' ++ z) v Hv) as (v' & Hrun & [G1 G2 G3 G4] & Hst & Hl).
  { intros He. rewrite He in Hal. change (zlen []) with 0 in Hal. lia. }
  rewrite Hal in G2, Hl. exists (offset_alloc v), v'. change (match l' with [] => ?a | _ => ?b end) with b. rewrite Hrun. ret_step. cbn [fst snd].
  unfold SECTOR_SIZE, DISK_PAGE_SIZE in *. split; [done|]. split; [split; [done|lia|done|done]|]. rewrite decide_False by done. split; [|done].
  destruct Hst as (Hh & Ho & He). split; [by eapply has_head|]. rewrite zlen_app in He. pose proof (zlen_nonneg z). lia.
Qed.

(** *** Reading a vector *)
Lemma read_at_lookup f off buf : 0 <= off →
  length (read_at f off buf) = length buf ∧
  ∀ j, (j < length buf)%nat → off + Z.of_nat j < zlen f → read_at f off buf !! j = f !! (Z.to_nat off + j)%nat.
Proof.
  intros Ho. unfold read_at. set (n := Z.min _ _). assert (0 <= n <= zlen buf) as Hn by (unfold n; pose proof (zlen_nonneg buf); lia).
  assert (length (sub_bytes f off n) = Z.to_nat n) as Hl.
  { unfold sub_bytes. rewrite length_take, length_drop. unfold n, zlen in *. lia. }
  split; [rewrite length_app, length_drop, Hl; unfold zlen in *; lia|]. intros j Hj Hf.
  rewrite lookup_app_l by (rewrite Hl; unfold n, zlen in *; lia). rewrite sub_lookup. rewrite decide_True; [done|]. unfold n, zlen in *. lia.
Qed.

Lemma read_pages v off : 0 <= off → ∀ k a acc buf, zlen buf = DISK_PAGE_SIZE →
  ∃ rest, (foldl (read_page v off) (acc, buf) (map (Z.mul DISK_PAGE_SIZE) (seqZ (Z.of_nat a) (Z.of_nat k)))).1 = acc ++ rest ∧
    zlen rest = DISK_PAGE_SIZE * Z.of_nat k ∧
    ∀ j, Z.of_nat j < DISK_PAGE_SIZE * Z.of_nat k → off + DISK_PAGE_SIZE * Z.of_nat a + Z.of_nat j < zlen (file v) →
      rest !! j = file v !! (Z.to_nat (off + DISK_PAGE_SIZE * Z.of_nat a) + j)%nat.
Proof.
  intros Ho. induction k as [|k IH]; intros a acc buf Hb.
  { exists []. cbn. rewrite app_nil_r. split; [done|]. split; [done|]. intros j Hj. lia. }
  rewrite seqZ_cons by lia. cbn [map foldl].
  replace (Z.succ (Z.of_nat a)) with (Z.of_nat (S a)) by lia. replace (Z.pred (Z.of_nat (S k))) with (Z.of_nat k) by lia.
  destruct (read_at_lookup (file v) (off + DISK_PAGE_SIZE * Z.of_nat a) buf) as [Hl Hlook]; [unfold DISK_PAGE_SIZE; lia|].
  set (page := read_at _ _ buf) in *. change (read_page v off (acc, buf) (DISK_PAGE_SIZE * Z.of_nat a)) with (acc ++ page, page).
  assert (zlen page = DISK_PAGE_SIZE) as Hp by (unfold zlen in *; lia).
  destruct (IH (S a) (acc ++ page) page Hp) as (rest & -> & Hr & Hrest). exists (page ++ rest). rewrite app_assoc. split; [done|].
  rewrite zlen_app. split; [lia|]. intros j Hj Hf. unfold DISK_PAGE_SIZE in *. destruct (decide (j < length page)%nat).
  - rewrite lookup_app_l by done. rewrite Hlook by (unfold zlen in *; lia). done.
  - rewrite lookup_app_r by lia. rewrite Hrest by (unfold zlen in *; lia). f_equal. unfold zlen in *. lia.
Qed.

Lemma read_slice v off b : has (file v) off b → b ≠ [] → ∃ rest, read_u8_slice_from_disk off (zlen b) v = b ++ rest.
Proof.
  intros (H1 & H2 & H3) Hb. assert (0 < zlen b) as Hl by (destruct b; [done|]; rewrite zlen_cons; pose proof (zlen_nonneg b); lia).
  destruct (whole_pages (zlen b) Hl) as (Hk & Hp & Hn1 & Hn2). set (k := Z.to_nat _) in *. unfold read_u8_slice_from_disk. rewrite Hp.
  destruct (read_pages v off H1 k 0 [] (replicate (Z.to_nat DISK_PAGE_SIZE) 0)) as (rest & Hrest & Hr & Hlook).
  { unfold zlen. rewrite length_replicate. done. }
  rewrite Hrest. exists (drop (length b) rest). rewrite app_nil_l. rewrite <- (take_drop (length b) rest) at 1. f_equal.
  apply list_eq. intros j. rewrite <- H3 at 2. rewrite sub_lookup. case_decide as Hj.
  - rewrite lookup_take_lt by (unfold zlen in *; lia). rewrite Hlook by lia. f_equal. lia.
  - apply lookup_take_ge. unfold zlen in *. lia.
Qed.

Definition words_ok (l : list (Z * Z)) : Prop := Forall (λ e, 0 <= e.1 < 2 ^ 64 ∧ 0 <= e.2 < 2 ^ 64) l.

Lemma pairs_read l rest : words_ok l → map (entry_of (entries l ++ rest)) (seqZ 0 (zlen l)) = l.
Proof.
  intros Hok. apply list_eq. intros i. rewrite list_lookup_fmap. destruct (decide (i < length l)%nat) as [Hi|Hi].
  - destruct (lookup_lt_is_Some_2 l i Hi) as [e He]. rewrite He. rewrite lookup_seqZ_lt by (unfold zlen; lia). cbn. f_equal.
    destruct (proj1 (Forall_forall _ _) Hok e) as [H1 H2]; [by eapply list_elem_of_lookup_2|].
    apply list_elem_of_split_length in He as (l1 & l2 & -> & ->). rewrite entries_app. change (entries (e :: l2)) with (entry_bytes e ++ entries l2).
    pose proof (zlen_entries l1) as Hz. unfold zlen at 2 in Hz. destruct e as [x y]. unfold entry_of, entry_bytes. cbn [fst snd] in *. rewrite <- !app_assoc. f_equal.
    + rewrite sub_skip by lia. rewrite sub_head by (rewrite ?zlen_le; lia). by apply (le_val_bytes 8).
    + rewrite sub_skip by lia. rewrite sub_skip by (rewrite zlen_le; lia). rewrite sub_head by (rewrite ?zlen_le; lia). by apply (le_val_bytes 8).
  - rewrite (lookup_ge_None_2 l) by lia. rewrite lookup_ge_None_2; [done|]. rewrite length_seqZ. unfold zlen. lia.
Qed.

Lemma read_mapping_spec v off l : (l ≠ [] → has (file v) off (entries l)) → words_ok l → read_mapping off (16 * zlen l) v = Ret l.
Proof.
  intros Hh Hok. unfold read_mapping. destruct (decide (l = [])) as [->|Hne]; [done|].
  assert (0 < zlen l) by (destruct l; [done|]; rewrite zlen_cons; pose proof (zlen_nonneg l); lia). zcase (0 <? 16 * zlen l); [|lia].
  unfold read_vec_from_offset. rewrite assert_true by (apply Z.ltb_lt; lia). ret_step. f_equal.
  destruct (read_slice v off (entries l) (Hh Hne)) as (rest & Hr).
  { intros He. pose proof (zlen_entries l) as Hz. rewrite He in Hz. change (zlen []) with 0 in Hz. lia. }
  rewrite zlen_entries in Hr. rewrite Hr. rewrite (Z.mul_comm 16), Z.div_mul by done. by apply pairs_read.
Qed.

(** ** Pages *)

(** The fields of a page are machine integers. *)
Record leaf_fields (n : LeafNode) : Prop := {
  lf_word : 0 <= encoded (LeafNode.meta n) < U16;
  lf_node : 0 <= node_size (LeafNode.meta n) < U16;
  lf_rem : 0 <= remaining_size (LeafNode.meta n) < U16;
  lf_prefix : 0 <= prefix_len n < U16;
  lf_next : 0 <= next_level n < 2 ^ 64;
  lf_lsn : 0 <= lsn n < 2 ^ 64;
  lf_version : 0 <= LeafNode.snapshot_version n < 2 ^ 64;
}.

Lemma leaf_image_roundtrip n : leaf_fields n → zlen (leaf_image n) = LEAF_HEADER + zlen (LeafNode.data n) ∧ leaf_of_bytes (leaf_image n) = n.
Proof.
  destruct n as [[e ns r] p nx l sv dd]. intros [H1 H2 H3 H4 H5 H6 H7]. cbn [LeafNode.meta encoded node_size remaining_size prefix_len next_level lsn
    LeafNode.snapshot_version LeafNode.data] in *. unfold leaf_image, leaf_of_bytes. cbn [LeafNode.meta encoded node_size remaining_size prefix_len next_level lsn
    LeafNode.snapshot_version LeafNode.data]. split; [rewrite !zlen_app, !zlen_le; unfold LEAF_HEADER; lia|].
  assert (∀ n z, length (le_bytes n z) = n) as Hlen by apply length_le_bytes.
  f_equal; [f_equal|..]; try (repeat (rewrite sub_skip by (rewrite ?zlen_le; lia); rewrite ?zlen_le);
    rewrite sub_head by (rewrite ?zlen_le; lia); by apply le_val_bytes).
Qed.

Lemma page_slice_spec n : leaf_fields n → node_size (LeafNode.meta n) = LEAF_HEADER + zlen (LeafNode.data n) → page_slice n = Ret (leaf_image n).
Proof.
  intros Hf Hs. destruct (leaf_image_roundtrip n Hf) as [Hl _]. unfold page_slice. rewrite Hs, <- Hl. pose proof (zlen_nonneg (leaf_image n)).
  rewrite slice_ok by lia. by rewrite sub_all.
Qed.

(** ** The header *)
Section header.
Context {F : Type} (to_bits : F → Z) (of_bits : Z → F) (pad : Z → Z → bytes).
Hypothesis Hbits : ∀ x, 0 <= to_bits x < 2 ^ 64 ∧ of_bits (to_bits x) = x.
Hypothesis Hpad : ∀ i n, 0 <= n → zlen (pad i n) = n.

Definition header_words (m : BfTreeMeta F) : list Z :=
  [m_root_id m; inner_offset m; inner_size m; mini_offset m; mini_size m; mini_size_offset m; mini_size_size m; base_offset m; base_size m;
   file_size m; leaf_page_num m; m_cb_size_byte m; m_snapshot_version m; m_read_promotion_rate m; m_scan_promotion_rate m;
   m_cb_min_record_size m; m_cb_max_record_size m; m_leaf_page_size m; m_cb_max_key_len m; m_max_fence_len m; m_max_mini_page_size m].

Lemma bool_byte_read b : negb (le_val [bool_byte b] =? 0) = b.
Proof. by destruct b. Qed.

Lemma header_length m : magic_begin m = BF_TREE_MAGIC_BEGIN → magic_end m = BF_TREE_MAGIC_END →
  zlen (BfTreeMeta_as_slice to_bits pad m) = BF_TREE_META_SIZE.
Proof.
  intros H1 H2. unfold BfTreeMeta_as_slice, words. rewrite H1, H2. cbn [map mjoin list_join]. rewrite !zlen_app, !Hpad, !zlen_le by lia. done.
Qed.

Lemma zlen_words l : zlen (words l) = 8 * zlen l.
Proof. induction l as [|z l IH]; [done|]. change (words (z :: l)) with (le_bytes 8 z ++ words l). rewrite zlen_app, zlen_le, zlen_cons. lia. Qed.

Lemma word_in A l R i k z : zlen A + 8 * Z.of_nat k = i → l !! k = Some z → 0 <= z < 2 ^ 64 → word_at (A ++ words l ++ R) i = z.
Proof.
  intros <- Hk Hz. unfold word_at. rewrite sub_skip by lia. apply list_elem_of_split_length in Hk as (l1 & l2 & -> & ->).
  assert (words (l1 ++ z :: l2) = words l1 ++ le_bytes 8 z ++ words l2) as -> by (unfold words; by rewrite map_app, join_app).
  rewrite <- !app_assoc. pose proof (zlen_words l1) as Hw. unfold zlen at 2 in Hw. rewrite sub_skip by lia.
  rewrite sub_head by (rewrite ?zlen_le; lia). by apply (le_val_bytes 8).
Qed.

Lemma bool_in A b R i : zlen A = i → bool_at (A ++ bool_byte b :: R) i = b.
Proof.
  intros <-. unfold bool_at. rewrite sub_skip by lia. rewrite Z.sub_diag. change (bool_byte b :: R) with ([bool_byte b] ++ R).
  rewrite sub_head by done. apply bool_byte_read.
Qed.

Lemma bytes_in A b R i n : zlen A = i → zlen b = n → sub_bytes (A ++ b ++ R) i n = b.
Proof. intros <- <-. rewrite sub_skip by lia. rewrite Z.sub_diag. by apply sub_head. Qed.

Ltac header_len := rewrite ?zlen_app, ?zlen_words, ?Hpad by lia; reflexivity.

(** What has been written as the header is read as the header. *)
Lemma header_roundtrip m rest : magic_begin m = BF_TREE_MAGIC_BEGIN → magic_end m = BF_TREE_MAGIC_END →
  Forall (λ z, 0 <= z < 2 ^ 64) (header_words m) → meta_of_bytes of_bits (BfTreeMeta_as_slice to_bits pad m ++ rest) = m.
Proof.
  intros H1 H2 Hw. destruct (Hbits (m_cb_copy_on_access_ratio m)) as [Hb1 Hb2]. unfold header_words in Hw.
  repeat (apply Forall_cons in Hw as [? Hw]). unfold BfTreeMeta_as_slice, meta_of_bytes. rewrite <- !app_assoc. rewrite H1, H2.
  set (A1 := BF_TREE_MAGIC_BEGIN). set (L1 := [m_root_id m; _; _; _; _; _; _; _; _; _; _; _; _]).
  set (L2 := [m_read_promotion_rate m; _; _; _; _; _; _; _]). set (L3 := [m_max_mini_page_size m]). set (E := BF_TREE_MAGIC_END).
  set (B1 := [bool_byte (m_cache_only m)]). set (B2 := [bool_byte (m_read_record_cache m)]).
  set (R3 := [_; _] ++ E ++ pad 224 288 ++ rest). set (R2 := B2 ++ pad 193 7 ++ words L3 ++ R3). set (R1 := B1 ++ pad 121 7 ++ words L2 ++ R2).
  set (A2 := A1 ++ words L1 ++ B1 ++ pad 121 7). set (A3 := A2 ++ words L2 ++ B2 ++ pad 193 7).
  assert (A1 ++ words L1 ++ R1 = A2 ++ words L2 ++ R2) as E2 by (unfold A2, R1; by rewrite <- !app_assoc).
  assert (A1 ++ words L1 ++ R1 = A3 ++ words L3 ++ R3) as E3 by (rewrite E2; unfold A3, R2; by rewrite <- !app_assoc).
  assert (zlen A1 = 16) as Z1 by done. assert (zlen A2 = 128) as Z2 by (unfold A2; header_len). assert (zlen A3 = 200) as Z3 by (unfold A3; rewrite zlen_app, Z2; header_len).
  pose proof (λ i k z, word_in A1 L1 R1 i k z) as W1.
  pose proof (λ i k z, word_in A2 L2 R2 i k z) as W2. rewrite <- E2 in W2. pose proof (λ i k z, word_in A3 L3 R3 i k z) as W3. rewrite <- E3 in W3. rewrite Z1 in W1. rewrite Z2 in W2. rewrite Z3 in W3.
  rewrite (W1 16 0%nat (m_root_id m)), (W1 24 1%nat (inner_offset m)), (W1 32 2%nat (inner_size m)), (W1 40 3%nat (mini_offset m)), (W1 48 4%nat (mini_size m)),
    (W1 56 5%nat (mini_size_offset m)), (W1 64 6%nat (mini_size_size m)), (W1 72 7%nat (base_offset m)), (W1 80 8%nat (base_size m)), (W1 88 9%nat (file_size m)),
    (W1 96 10%nat (leaf_page_num m)), (W1 104 11%nat (m_cb_size_byte m)), (W1 112 12%nat (m_snapshot_version m)) by done.
  rewrite (W2 128 0%nat (m_read_promotion_rate m)), (W2 136 1%nat (m_scan_promotion_rate m)), (W2 144 2%nat (m_cb_min_record_size m)), (W2 152 3%nat (m_cb_max_record_size m)),
    (W2 160 4%nat (m_leaf_page_size m)), (W2 168 5%nat (m_cb_max_key_len m)), (W2 176 6%nat (m_max_fence_len m)), (W2 184 7%nat (to_bits (m_cb_copy_on_access_ratio m))) by done.
  rewrite (W3 200 0%nat (m_max_mini_page_size m)), Hb2 by done.
  assert (bool_at (A1 ++ words L1 ++ R1) 120 = m_cache_only m) as ->.
  { unfold R1, B1. rewrite app_assoc. apply bool_in. header_len. }
  assert (bool_at (A1 ++ words L1 ++ R1) 192 = m_read_record_cache m) as ->.
  { rewrite E2. unfold R2, B2. rewrite app_assoc. apply bool_in. rewrite zlen_app, Z2. header_len. }
  assert (bool_at (A1 ++ words L1 ++ R1) 208 = m_mini_page_binary_search m) as ->.
  { rewrite E3. unfold R3. rewrite app_assoc. apply bool_in. rewrite zlen_app, Z3. header_len. }
  assert (bool_at (A1 ++ words L1 ++ R1) 209 = m_write_load_full_page m) as ->.
  { rewrite E3. unfold R3. rewrite (app_assoc A3). change ([?x; ?y] ++ ?r) with ([x] ++ y :: r). rewrite app_assoc. apply bool_in. rewrite !zlen_app, Z3. header_len. }
  assert (sub_bytes (A1 ++ words L1 ++ R1) 210 14 = E) as ->.
  { rewrite E3. unfold R3. rewrite (app_assoc A3), (app_assoc (A3 ++ words L3)). apply bytes_in; [|done]. rewrite !zlen_app, Z3. header_len. }
  rewrite sub_head by done. unfold A1, E. rewrite <- H1, <- H2. by destruct m.
Qed.
End header.
