(* ===== verification/SnapshotTree.v ===== *)
(** Snapshots of a tree (src/snapshot.rs): the sweep that copies its pages to the snapshot file, and the recovery of a
    tree from the file.

    The sweep runs by itself: the inner nodes are frozen while they are copied, and no other thread is at work on the
    leaves.  The storage is made anew by its constructors, which are used through the interface [StorageNew].  A tree
    in disk mode that has been recovered keeps the snapshot file as its file of base pages. *)
From stdpp Require Import base numbers list option gmap strings.
From Stdlib Require Import ZArith Lia.
From S2P Require Import Prelude Bits NodeMeta InnerNode LeafMeta LeafNode LeafOps SizeClasses Config CircularBuffer StateError Storage LeafEntry Tree SnapshotMgr SnapshotFile.

(** [CircularBuffer::new], [PageTable::new_from_mapping] and [peek_next_id]. *)
Class StorageNew (B T F : Type) := {
  buffer_of : Config F → outcome B;
  table_of : list (Z * PageLocation) → outcome T;
  table_next_id : T → Z;
}.

(** ** The nodes of a tree in breadth-first order (src/utils/mod.rs) *)
Inductive NodeInfo := LeafInfo (level : Z) (page_id : PageID) | InnerInfo (level : Z) (ptr : Z).

Definition NodeInfo_new (level : Z) (page_id : PageID) (is_leaf : bool) : outcome NodeInfo :=
  if is_leaf then Ret (LeafInfo level page_id) else ptr ← as_inner_node page_id; Ret (InnerInfo level ptr).

Section sweep.
Context {B T W F : Type} `{PageBuffer B} `{PageMap T} `{WriteLog W} `{StorageNew B T F}.
Context (mem : memory) (cfg : Config F) (to_bits : F → Z) (pad : Z → Z → bytes) (hash_order : gmap Z Z → list (Z * Z)).
Abbreviation tree := (BfTree B T W).
Implicit Types t : tree.

Definition BfsVisitor_new t : outcome (list NodeInfo) :=
  let root := root_page t in n ← NodeInfo_new 0 root.1 root.2; Ret [n].

Definition BfsVisitor_next t (inner_nodes_only : bool) (node_queue : list NodeInfo) : outcome (option (NodeInfo * list NodeInfo)) :=
  match node_queue with
  | [] => Ret None
  | LeafInfo l p :: q => Ret (Some (LeafInfo l p, q))
  | InnerInfo l ptr :: q =>
      inner ← node_at t ptr;
      let child_is_leaf := children_is_leaf (InnerNode.meta inner) in
      if inner_nodes_only && child_is_leaf then Ret (Some (InnerInfo l ptr, q))
      else
        children ← get_child_iter inner;
        infos ← mapM (λ c, NodeInfo_new (l + 1) c child_is_leaf) children;
        Ret (Some (InnerInfo l ptr, q ++ infos))
  end.

(** ** The sweep: what it has copied, and the file *)
Abbreviation swept := (sweep_mappings * SnapshotData)%type.

Definition add_inner (w : sweep_mappings) (e : Z * Z) : sweep_mappings :=
  mkSweep (sweep_inner w ++ [e]) (sweep_mini w) (sweep_mini_size w) (sweep_base w).
Definition add_mini (w : sweep_mappings) (pid offset size : Z) : sweep_mappings :=
  mkSweep (sweep_inner w) (sweep_mini w ++ [(pid, offset)]) (sweep_mini_size w ++ [(pid, size)]) (sweep_base w).
Definition add_base (w : sweep_mappings) (e : Z * Z) : sweep_mappings :=
  mkSweep (sweep_inner w) (sweep_mini w) (sweep_mini_size w) (sweep_base w ++ [e]).

Definition copy_leaf (d : SnapshotData) (n : LeafNode) : outcome (Z * SnapshotData) :=
  s ← page_slice n; Ret (snapshot_page d s (node_size (LeafNode.meta n))).

Definition sweep_base_page (pid : Z) (n : LeafNode) (st : swept) : outcome swept :=
  c ← copy_leaf st.2 n; Ret (add_base st.1 (pid, c.1), c.2).

Definition sweep_mini_page (pid : Z) (n : LeafNode) (st : swept) : outcome swept :=
  c ← copy_leaf st.2 n; Ret (add_mini st.1 pid c.1 (node_size (LeafNode.meta n)), c.2).

Definition older_leaf (n : LeafNode) (version : Z) : bool := LeafOps.get_clean_snapshot_version n <? version.
Definition older_node (n : InnerNode) (version : Z) : bool := InnerNode.get_clean_snapshot_version n <? version.

Definition sweep_inner_node t (version ptr : Z) (st : swept) : outcome (bool * swept) :=
  inner ← node_at t ptr;
  if older_node inner version then
    let '(offset, d) := snapshot_page st.2 (as_slice (pad ptr 2) inner) INNER_NODE_SIZE in
    Ret (true, (add_inner st.1 (ptr, offset), d))
  else Ret (false, st).

Definition mark_root (root : Z) (r : bool * swept) : outcome swept :=
  if r.1 : bool then d ← snapshot_root_page r.2.2 root; Ret (r.2.1, d) else Ret r.2.

Definition sweep_root_leaf t (version : Z) (rid : PageID) (st : swept) : outcome (bool * swept) :=
  id ← as_id rid;
  loc ← map_get (page_table (storage t)) id;
  match loc with
  | Base offset =>
      let n := vfs_read mem (storage t) offset in
      if older_leaf n version then st' ← sweep_base_page (pid_raw rid) n st; Ret (true, st') else Ret (false, st)
  | Mini ptr =>
      _ ← assert_ (cache_only cfg);
      n ← load_cache_page (storage t) ptr;
      if older_leaf n version then st' ← sweep_mini_page (pid_raw rid) n st; Ret (true, st') else Ret (false, st)
  | _ => Panic
  end.

Definition sweep_root t (version : Z) (st : swept) : outcome swept :=
  let '(rid, is_leaf) := root_page t in
  r ← (if is_leaf then sweep_root_leaf t version rid st else ptr ← as_inner_node rid; sweep_inner_node t version ptr st);
  mark_root (pid_raw rid) r.

Definition sweep_node t (version : Z) (node : NodeInfo) (st : swept) : outcome swept :=
  match node with
  | InnerInfo _ ptr => r ← sweep_inner_node t version ptr st; Ret r.2
  | LeafInfo level _ => _ ← assert_ (level =? 0); Ret st
  end.

(** [fuel] bounds the number of nodes that are visited. *)
Fixpoint sweep_nodes t (version : Z) (node_queue : list NodeInfo) (st : swept) (fuel : nat) : outcome swept :=
  match fuel with
  | O => Panic
  | S fuel' =>
      r ← BfsVisitor_next t true node_queue;
      match r with
      | None => Ret st
      | Some (node, q) => st' ← sweep_node t version node st; sweep_nodes t version q st' fuel'
      end
  end.

Definition sweep_leaf t (version : Z) (st : swept) (id : Z) : outcome swept :=
  let pid := pid_raw (from_id id) in
  loc ← map_get (page_table (storage t)) id;
  match loc with
  | Base offset =>
      let n := vfs_read mem (storage t) offset in
      if older_leaf n version then sweep_base_page pid n st else Ret st
  | FullPage ptr =>
      n ← load_cache_page (storage t) ptr;
      if older_leaf n version then sweep_base_page pid (set_next_level n next_level_null) st else Ret st
  | Mini ptr =>
      n ← load_cache_page (storage t) ptr;
      if older_leaf n version then
        st1 ← sweep_mini_page pid n st;
        if cache_only cfg then Ret st1
        else
          offset ← as_offset (next_level n);
          let base := vfs_read mem (storage t) offset in
          _ ← assert_ (older_leaf base version);
          sweep_base_page pid base st1
      else Ret st
  | Null =>
      if cache_only cfg then Ret (add_mini st.1 pid NULL_PAGE_LOCATION_OFFSET 0, st.2) else Ret st
  end.

(** The number of leaves is returned as well. *)
Definition sweep t (version : Z) (st : swept) (fuel : nat) : outcome (Z * swept) :=
  st1 ← sweep_root t version st;
  q ← BfsVisitor_new t;
  st2 ← sweep_nodes t version q st1 fuel;
  let high_id := table_next_id (page_table (storage t)) in
  st3 ← foldM (sweep_leaf t version) st2 (seqZ 0 high_id);
  Ret (high_id, st3).

(** [snapshot] between its waits: the file is made anew, the sweep copies the pages of the version and of those
    before it, and the mappings and the header follow. *)
Definition snapshot_tree t (snapshot_version : Z) (d : SnapshotData) (fuel : nat) : outcome SnapshotData :=
  let d1 := set_vfs d (StdVfs_reset (vfs d)) in
  r ← sweep t (snapshot_version + 1) (mkSweep [] [] [] [], d1) fuel;
  let '(leaf_count_upper, (w, d2)) := r in
  finalize to_bits pad hash_order cfg d2 snapshot_version w leaf_count_upper.
End sweep.

(** ** Recovery *)
Section recover.
Context {B T W F : Type} `{PageBuffer B} `{PageMap T} `{WriteLog W} `{StorageNew B T F}.
Context (mem : memory) (hp : heap) (of_bits : Z → F) (default_ratio : F) (debug : bool).
Abbreviation tree := (BfTree B T W).
Abbreviation storage := (LeafStorage B T).

(** *** Inner nodes: the buffer of the reads, the nodes so far, and those whose children are still to come *)
Record inner_state := mkInnerState { page_buffer : bytes; loaded : gmap Z InnerNode; resolve_queue : list Z }.

Definition read_node (v : StdVfs) (buffer : bytes) (offset ptr : Z) : outcome (bytes * InnerNode) :=
  let raw := StdVfs_read v offset buffer in
  n ← build_from_slice (builder_new ptr (fresh_node hp ptr)) raw;
  Ret (raw, n).

Definition count_root (v : StdVfs) (acc : Z * bytes) (e : Z * Z) : outcome (Z * bytes) :=
  r ← read_node v acc.2 e.2 (fresh_ptr hp ∅);
  Ret (if is_root r.2 then acc.1 + 1 else acc.1, r.1).

(** The copy of a node at a new pointer; it has no place on disk. *)
Definition load_copy (v : StdVfs) (st : inner_state) (offset : Z) : outcome (Z * inner_state) :=
  let ptr := fresh_ptr hp (loaded st) in
  r ← read_node v (page_buffer st) offset ptr;
  Ret (ptr, mkInnerState r.1 (<[ptr := set_disk_offset r.2 INVALID_DISK_OFFSET]> (loaded st)) (resolve_queue st)).

Definition resolve_child (v : StdVfs) (inner_map : gmap Z Z) (inner_ptr : Z) (st : inner_state) (c : Z * PageID) : outcome inner_state :=
  old ← as_inner_node c.2;
  offset ← unwrap (inner_map !! old);
  r ← load_copy v st offset;
  let '(new, st1) := r in
  inner ← unwrap (loaded st1 !! inner_ptr);
  inner' ← update_at_pos inner c.1 (from_pointer new);
  Ret (mkInnerState (page_buffer st1) (<[inner_ptr := inner']> (loaded st1)) (resolve_queue st1 ++ [new])).

(** [fuel] bounds the number of nodes. *)
Fixpoint resolve (v : StdVfs) (inner_map : gmap Z Z) (st : inner_state) (fuel : nat) : outcome inner_state :=
  match fuel with
  | O => Panic
  | S fuel' =>
      match resolve_queue st with
      | [] => Ret st
      | inner_ptr :: q =>
          let st1 := mkInnerState (page_buffer st) (loaded st) q in
          inner ← unwrap (loaded st1 !! inner_ptr);
          if children_is_leaf (InnerNode.meta inner) then resolve v inner_map st1 fuel'
          else
            children ← get_child_iter inner;
            st2 ← foldM (resolve_child v inner_map inner_ptr) st1 (zip (seqZ 0 (zlen children)) children);
            resolve v inner_map st2 fuel'
      end
  end.

Definition recover_inner (v : StdVfs) (m : BfTreeMeta F) (fuel : nat) : outcome (PageID * gmap Z InnerNode) :=
  let root := NodeMeta.from_raw (m_root_id m) in
  if is_inner_node_pointer root then
    inner_mapping ← read_vec_from_offset (inner_offset m) (inner_size m) v;
    c ← foldM (count_root v) (0, replicate (Z.to_nat INNER_NODE_SIZE) 0) inner_mapping;
    _ ← assert_ (c.1 =? 1);
    let inner_map : gmap Z Z := foldl (λ im (e : Z * Z), <[e.1 := e.2]> im) ∅ inner_mapping in
    old ← as_inner_node root;
    offset ← unwrap (inner_map !! old);
    r ← load_copy v (mkInnerState c.2 ∅ []) offset;
    let '(root_page, st) := r in
    n ← unwrap (loaded st !! root_page);
    let st1 := mkInnerState (page_buffer st) (<[root_page := set_root n true]> (loaded st)) [root_page] in
    st2 ← resolve v inner_map st1 fuel;
    Ret (from_pointer root_page, loaded st2)
  else Ret (root, ∅).

(** *** Leaves *)

(** Every number up to the largest one has a place; those without a base page are [Null]. *)
Definition dense_step (acc : list (Z * Z) * list (Z * PageLocation)) (raw_pid : Z) : outcome (list (Z * Z) * list (Z * PageLocation)) :=
  match acc.1 with
  | [] => Ret ([], acc.2 ++ [(raw_pid, Null)])
  | (next_pid, offset) :: rest =>
      id ← as_id (NodeMeta.from_raw next_pid);
      Ret (if id =? raw_pid then (rest, acc.2 ++ [(raw_pid, Base offset)]) else (acc.1, acc.2 ++ [(raw_pid, Null)]))
  end.

Definition dense_mapping (base_mapping : list (Z * Z)) : outcome (list (Z * PageLocation)) :=
  sorted ← by_page_id base_mapping;
  match last sorted with
  | None => Ret []
  | Some e =>
      max_pid ← as_id (NodeMeta.from_raw e.1);
      r ← foldM dense_step (sorted, []) (seqZ 0 (max_pid + 1));
      Ret r.2
  end.

(** The pages of the file that have been there before. *)
Definition recovered_memory (v : StdVfs) (leaf_page_size : Z) : memory :=
  mkMemory (fresh_block mem) (fresh_page mem)
    (λ offset, leaf_of_bytes (StdVfs_read v offset (fresh_page mem leaf_page_size ++ replicate (Z.to_nat LEAF_HEADER) 0))).

Definition read_mini (v : StdVfs) (offset size : Z) : LeafNode :=
  leaf_of_bytes (StdVfs_read v offset (replicate (Z.to_nat size) 0)).

(** The new page is in its place when its pointer is dropped. *)
Definition place_mini (s : storage) (id ptr : Z) (n : LeafNode) : outcome storage :=
  tb ← map_put (page_table s) id (Mini ptr);
  publish (set_table (store_cache_page s ptr n) tb) ptr.

Definition recover_mini (v : StdVfs) (sizes : gmap Z Z) (s : storage) (e : Z * Z) : outcome (ConfigError + storage) :=
  mini_size ← unwrap (sizes !! e.1);
  r ← alloc_mini_page mem s mini_size;
  match r with
  | (inl _, _) => Ret (inl CircularBufferSize)
  | (inr ptr, s1) =>
      let mini_page := read_mini v e.2 mini_size in
      id ← as_id (NodeMeta.from_raw e.1);
      loc ← map_get (page_table s1) id;
      match loc with
      | Base off => s2 ← place_mini s1 id ptr (set_next_level mini_page off); Ret (inr s2)
      | _ => Panic
      end
  end.

Definition recover_cached (v : StdVfs) (sizes : gmap Z Z) (s : storage) (e : Z * Z) : outcome storage :=
  mini_size ← unwrap (sizes !! e.1);
  if e.2 =? NULL_PAGE_LOCATION_OFFSET then Ret s
  else
    r ← alloc_mini_page mem s mini_size;
    match r with
    | (inl _, _) => Panic
    | (inr ptr, s1) =>
        let mini_page := read_mini v e.2 mini_size in
        id ← as_id (NodeMeta.from_raw e.1);
        loc ← map_get (page_table s1) id;
        match loc with
        | Null => place_mini s1 id ptr (set_next_level mini_page next_level_null)
        | _ => Panic
        end
    end.

(** A loop whose body may return an error. *)
Fixpoint try_fold {A E S} (f : S → A → outcome (E + S)) (s : S) (l : list A) : outcome (E + S) :=
  match l with
  | [] => Ret (inr s)
  | x :: l' => r ← f s x; match r with inl e => Ret (inl e) | inr s' => try_fold f s' l' end
  end.

Definition size_map (l : list (Z * Z)) : gmap Z Z := foldl (λ (m : gmap Z Z) (e : Z * Z), <[e.1 := e.2]> m) ∅ l.

Definition recover_disk (v : StdVfs) (m : BfTreeMeta F) (cfg : Config F) : outcome (ConfigError + storage) :=
  base_mapping ← read_mapping (base_offset m) (base_size m) v;
  dense ← dense_mapping base_mapping;
  pt ← table_of dense;
  b ← buffer_of cfg;
  mini_mapping ← read_mapping (mini_offset m) (mini_size m) v;
  mini_size_mapping ← read_mapping (mini_size_offset m) (mini_size_size m) v;
  let s := mkStorage b ∅ ∅ (offset_alloc v) pt in
  try_fold (recover_mini v (size_map mini_size_mapping)) s mini_mapping.

Definition recover_cache_only (v : StdVfs) (m : BfTreeMeta F) (cfg : Config F) : outcome storage :=
  mini_mapping ← read_mapping (mini_offset m) (mini_size m) v;
  mini_size_mapping ← read_mapping (mini_size_offset m) (mini_size_size m) v;
  pt ← table_of (map (λ pid, (pid, Null)) (seqZ 0 (leaf_page_num m)));
  b ← buffer_of cfg;
  let s := mkStorage b ∅ ∅ 0 pt in
  foldM (recover_cached v (size_map mini_size_mapping)) s mini_mapping.

(** *** The configuration *)
Definition recovered_config (m : BfTreeMeta F) (path : string) (use_snapshot : bool) (buffer_size : option Z)
    (wal_config : option WalConfig) : Config F :=
  let c1 := Config_new_from_snapshot (Config_default default_ratio debug) m in
  let c2 := if cache_only c1 then set_storage_backend c1 Memory else set_storage_backend (set_file_path c1 path) Std in
  let c3 := set_use_snapshot c2 use_snapshot in
  let c4 := match buffer_size with Some size => set_cb_size_byte c3 size | None => c3 end in
  match wal_config with Some w => enable_write_ahead_log c4 w | None => c4 end.

(** The tree with its configuration and the size classes of its pages; [recovery] is the file when there is one at the
    path, and [w] the log of [wal_config]. *)
Definition new_from_snapshot (recovery : option bytes) (path : string) (use_snapshot : bool) (buffer_size : option Z)
    (wal_config : option WalConfig) (w : option W) (fuel : nat) : outcome (ConfigError + Config F * list Z * tree) :=
  match recovery with
  | None => Ret (inl SnapshotFileInvalid)
  | Some contents =>
      let bf_meta := meta_of_bytes of_bits (read_at contents 0 (replicate (Z.to_nat DISK_PAGE_SIZE) 0)) in
      _ ← check_magic bf_meta;
      _ ← assert_ (zlen contents =? file_size bf_meta);
      let cfg := recovered_config bf_meta path use_snapshot buffer_size wal_config in
      _ ← (if use_snapshot then _ ← CPRSnapShotMgr_new (Config.snapshot_version cfg); Ret tt else Ret tt);
      classes ← create_mem_page_size_classes (cb_min_record_size cfg) (cb_max_record_size cfg) (leaf_page_size cfg) (max_fence_len cfg) (cache_only cfg);
      e ← validate cfg;
      match e with
      | Some e => Ret (inl e)
      | None =>
          let v := StdVfs_open contents in
          r ← recover_inner v bf_meta fuel;
          let '(root_page_id, ns) := r in
          let raw_root_id := if is_id root_page_id then Z.lor (pid_raw root_page_id) ROOT_IS_LEAF_MASK else pid_raw root_page_id in
          s ← (if m_cache_only bf_meta then s ← recover_cache_only v bf_meta cfg; Ret (inr s) else recover_disk v bf_meta cfg);
          match s with
          | inl e => Ret (inl e)
          | inr s => Ret (inr (cfg, classes, mkTree raw_root_id ns s w []))
          end
      end
  end.
End recover.
