(* ===== verification/SnapshotMerge.v ===== *)
(** The copies that threads and sweep make of pages, and the end of a snapshot (SnapshotFile.v, [finalize]): of several
    copies of a page the first one counts, those of the threads before that of the sweep; the header and the mappings
    are read back from the file. *)
From stdpp Require Import base numbers list sorting option gmap fin_maps.
From Stdlib Require Import ZArith Lia.
From S2P Require Import Prelude Bits NodeMeta LeafMeta LeafNode LeafOps InnerNode Config SnapshotMgr SnapshotFile SnapshotFormat SnapshotTree.

(** ** Several copies *)
Fixpoint first (k : Z) (l : list (Z * Z)) : option Z :=
  match l with [] => None | e :: l' => if decide (e.1 = k) then Some e.2 else first k l' end.

Lemma first_app k l1 l2 : first k (l1 ++ l2) = match first k l1 with Some v => Some v | None => first k l2 end.
Proof. induction l1 as [|e l1 IH]; [done|]. cbn. by case_decide. Qed.

Lemma first_elem k l v : first k l = Some v → (k, v) ∈ l.
Proof. induction l as [|[k' v'] l IH]; [done|]. cbn. case_decide as He; [intros [= ->]; subst; by left|]. intros H. right. auto. Qed.

Lemma first_none k l : first k l = None ↔ k ∉ l.*1.
Proof.
  induction l as [|e l IH]; cbn; [by split; [intros _ ?%elem_of_nil|]|]. rewrite not_elem_of_cons, <- IH. case_decide; naive_solver.
Qed.

Lemma or_insert_lookup m e k : or_insert m e !! k = match m !! k with Some v => Some v | None => if decide (e.1 = k) then Some e.2 else None end.
Proof.
  unfold or_insert. destruct (decide (e.1 = k)) as [<-|Hne].
  - destruct (m !! e.1) eqn:Hm; [by rewrite Hm|]. by rewrite lookup_insert_eq.
  - destruct (m !! e.1); [|rewrite lookup_insert_ne by done]; by destruct (m !! k).
Qed.

Lemma fold_first m l k : foldl or_insert m l !! k = match m !! k with Some v => Some v | None => first k l end.
Proof.
  revert m. induction l as [|e l IH]; intros m; cbn; [by destruct (m !! k)|]. rewrite IH, or_insert_lookup. destruct (m !! k); [done|]. by case_decide.
Qed.

(** The offsets and the sizes of mini pages are about the same pages. *)
Definition twins (l1 l2 : list (Z * Z)) : Prop := Forall2 (λ e1 e2, e1.1 = e2.1 ∧ null_ok e1.2 e2.2 = true) l1 l2.

Definition twin (m s : gmap Z Z) : Prop := ∀ k,
  match m !! k, s !! k with Some o, Some z => null_ok o z = true | None, None => True | _, _ => False end.

Lemma twin_size m s : twin m s → base.size m = base.size s.
Proof.
  intros H. rewrite <- !(size_dom (D := gset Z)). f_equal. apply set_eq. intros k. rewrite !elem_of_dom. specialize (H k).
  unfold is_Some. destruct (m !! k), (s !! k); naive_solver.
Qed.

Lemma twin_or_insert m s k o z : twin m s → null_ok o z = true → twin (or_insert m (k, o)) (or_insert s (k, z)).
Proof.
  intros H Hn j. rewrite !or_insert_lookup. specialize (H j). cbn. destruct (m !! j), (s !! j); try done. by case_decide.
Qed.

Lemma twin_fold m s l1 l2 : twin m s → twins l1 l2 → twin (foldl or_insert m l1) (foldl or_insert s l2).
Proof.
  intros H Ht. revert m s H. induction Ht as [|[k o] [k' z] l1 l2 [Hk Hn] Ht IH]; intros m s H; [done|]. cbn in *. subst k'. by apply IH, twin_or_insert.
Qed.

Lemma merge_entries m s l1 l2 : twin m s → twins l1 l2 →
  foldM merge_mini_entry (m, s) (zip l1 l2) = Ret (foldl or_insert m l1, foldl or_insert s l2).
Proof.
  intros H Ht. revert m s H. induction Ht as [|[k o] [k' z] l1 l2 [Hk Hn] Ht IH]; intros m s H; [done|]. cbn in Hk, Hn. subst k'.
  pose proof (twin_or_insert m s k o z H Hn) as H'. cbn [zip_with foldM foldl]. assert (merge_mini_entry (m, s) (k, o, (k, z)) = Ret (or_insert m (k, o), or_insert s (k, z))) as ->.
  { unfold merge_mini_entry. rewrite Z.eqb_refl, Hn. ret_step. ret_step. cbn [fst snd]. pose proof (H k) as Hk. pose proof (twin_size _ _ H') as Hs. revert Hs. unfold or_insert. cbn [fst snd].
    destruct (m !! k), (s !! k); try done. intros Hs. rewrite bool_decide_eq_true_2 by done. by ret_step. }
  ret_step. by apply IH.
Qed.

Lemma merge_threads m s A C : twin m s → Forall2 twins A C →
  foldM merge_mini_thread (m, s) (zip A C) = Ret (foldl or_insert m (mjoin A), foldl or_insert s (mjoin C)).
Proof.
  intros H Ht. revert m s H. induction Ht as [|l1 l2 A C Hl Ht IH]; intros m s H; [done|]. cbn [zip_with foldM].
  assert (merge_mini_thread (m, s) (l1, l2) = Ret (foldl or_insert m l1, foldl or_insert s l2)) as ->.
  { unfold merge_mini_thread. cbn [fst snd]. rewrite bool_decide_eq_true_2 by by eapply Forall2_length. ret_step. by apply merge_entries. }
  ret_step. rewrite IH by by apply twin_fold. change (mjoin (l1 :: A)) with (l1 ++ mjoin A). change (mjoin (l2 :: C)) with (l2 ++ mjoin C). by rewrite !foldl_app.
Qed.

Section merge.
Context {F : Type} (hash_order : gmap Z Z → list (Z * Z)) (cfg : Config F).
Hypothesis Hhash : ∀ m, hash_order m ≡ₚ map_to_list m.

Lemma hash_elem m k v : (k, v) ∈ hash_order m ↔ m !! k = Some v.
Proof. rewrite Hhash. apply elem_of_map_to_list. Qed.

Lemma sanity_ok m s : twin m s → sanity_check hash_order m s = Ret tt.
Proof.
  intros H. unfold sanity_check. rewrite (bool_decide_eq_true_2 _ (twin_size _ _ H)). ret_step.
  assert (∀ e, e ∈ hash_order m → m !! e.1 = Some e.2) as Hin by by intros [k v] ?%hash_elem.
  induction (hash_order m) as [|e l IH]; [done|]. cbn [foldM]. pose proof (H e.1) as He. rewrite (Hin e ltac:(left)) in He.
  destruct (s !! e.1) as [z|]; [|done]. cbn [unwrap]. ret_step. rewrite He. ret_step. apply IH. intros e' He'. apply Hin. by right.
Qed.

Lemma sweep_sizes s l : (∀ k z z', (k, z) ∈ l → foldl or_insert s l !! k = Some z' → cache_only cfg = true ∨ z = z') →
  foldM (merge_sweep_size cfg) s l = Ret (foldl or_insert s l).
Proof.
  revert s. induction l as [|[k z] l IH]; intros s Hs; [done|]. cbn [foldM foldl].
  assert (merge_sweep_size cfg s (k, z) = Ret (or_insert s (k, z))) as ->.
  { unfold merge_sweep_size, or_insert. cbn [fst snd]. destruct (s !! k) as [v|] eqn:Hk; [|done].
    destruct (Hs k z v ltac:(left)) as [->|<-]; [cbn [foldl]; rewrite fold_first, or_insert_lookup, Hk; done| |]; rewrite ?Z.eqb_refl, ?orb_true_r; by ret_step. }
  ret_step. apply IH. intros k' z1 z2 Hin Hl. apply (Hs k'); [by right|done].
Qed.

(** All the copies of a kind, in the order in which they count. *)
Definition inner_copies (d : SnapshotData) (w : sweep_mappings) : list (Z * Z) := mjoin (thread_local_inner_mappings d) ++ sweep_inner w.
Definition mini_copies (d : SnapshotData) (w : sweep_mappings) : list (Z * Z) := mjoin (thread_local_mini_mappings d) ++ sweep_mini w.
Definition mini_sizes (d : SnapshotData) (w : sweep_mappings) : list (Z * Z) := mjoin (thread_local_mini_size_mappings d) ++ sweep_mini_size w.
Definition base_copies (d : SnapshotData) (w : sweep_mappings) : list (Z * Z) := mjoin (thread_local_base_mappings d) ++ sweep_base w.

(** What the threads and the sweep have left: every copy of a mini page has its size, which is the same for all copies
    in disk mode, where a mini page has a base page and in cache-only mode nothing has. *)
Record copies_ok (d : SnapshotData) (w : sweep_mappings) : Prop := {
  co_threads : Forall2 twins (thread_local_mini_mappings d) (thread_local_mini_size_mappings d);
  co_sweep : twins (sweep_mini w) (sweep_mini_size w);
  co_sizes : ∀ k z z', (k, z) ∈ mini_sizes d w → (k, z') ∈ mini_sizes d w → cache_only cfg = true ∨ z = z';
  co_base : if cache_only cfg then base_copies d w = [] else ∀ k, k ∈ (mini_copies d w).*1 → k ∈ (base_copies d w).*1;
}.

Lemma merge_first d w : copies_ok d w →
  ∃ inner mini sizes base, merge_mappings hash_order cfg d w = Ret (inner, mini, sizes, base) ∧ twin mini sizes ∧
    ∀ k, inner !! k = first k (inner_copies d w) ∧ mini !! k = first k (mini_copies d w) ∧
      sizes !! k = first k (mini_sizes d w) ∧ base !! k = first k (base_copies d w).
Proof.
  intros [H1 H2 H3 H4]. assert (twin ∅ ∅) as He by (intros k; by rewrite !lookup_empty).
  assert (∀ l l' k, foldl or_insert (foldl or_insert ∅ l) l' !! k = first k (l ++ l')) as Hfirst.
  { intros l l' k. by rewrite <- foldl_app, fold_first, lookup_empty. }
  assert (twin (foldl or_insert ∅ (mjoin (thread_local_mini_mappings d))) (foldl or_insert ∅ (mjoin (thread_local_mini_size_mappings d)))) as Ht.
  { apply twin_fold; [done|]. clear -H1. induction H1; [by constructor|]. cbn. by apply Forall2_app. }
  pose proof (twin_fold _ _ _ _ Ht H2) as Ht'. unfold merge_mappings. rewrite merge_threads by done. ret_step. cbn [fst snd]. rewrite sanity_ok by done. ret_step.
  rewrite sweep_sizes.
  2:{ intros k z z' Hin Hl. rewrite Hfirst in Hl. eapply H3; [|by apply first_elem in Hl]. apply elem_of_app. by right. }
  ret_step. rewrite sanity_ok by done. ret_step. rewrite assert_true; [ret_step; eexists _, _, _, _; split; [done|]; split; [done|]; intros k; by rewrite !Hfirst|].
  destruct (cache_only cfg).
  - apply bool_decide_eq_true_2. apply map_eq. intros k. rewrite Hfirst. fold (base_copies d w). by rewrite H4, lookup_empty.
  - apply bool_decide_eq_true_2. rewrite <- !(size_dom (D := gset Z)). apply subseteq_size. intros k. rewrite !elem_of_dom, !Hfirst.
    fold (mini_copies d w) (base_copies d w). rewrite <- !not_eq_None_Some. rewrite !first_none. intros Hk Hn. apply Hn, H4. destruct (decide (k ∈ (mini_copies d w).*1)); [done|]. by destruct Hk.
Qed.
End merge.

(** ** The copies that are made while a snapshot is taken *)

(** A thread that is about to change a page of an older version copies it first: a base page by itself, a mini page with
    its base page.  It then marks the page with its own version; here any copies may be made, also several of a page. *)
Section copying.
Context {F : Type} (cfg : Config F) (version : Z).
Abbreviation swept := (sweep_mappings * SnapshotData)%type.

Definition thread_copies_base (pid : Z) (n : LeafNode) (slot : nat) (d : SnapshotData) : outcome (LeafNode * SnapshotData) :=
  s ← page_slice n;
  d1 ← snapshot_base_page d pid s (node_size (LeafNode.meta n)) slot;
  Ret (LeafOps.set_snapshot_version n version false, d1).

Definition thread_copies_mini (pid : Z) (mini base : LeafNode) (slot : nat) (d : SnapshotData) : outcome (LeafNode * SnapshotData) :=
  s ← page_slice mini;
  d1 ← snapshot_mini_page d pid s (node_size (LeafNode.meta mini)) slot;
  let mini' := LeafOps.set_snapshot_version mini version (negb (cache_only cfg)) in
  if cache_only cfg then Ret (mini', d1)
  else
    _ ← assert_ (older_leaf base version);
    s' ← page_slice base;
    d2 ← snapshot_base_page d1 pid s' (node_size (LeafNode.meta base)) slot;
    Ret (mini', d2).

Definition sweep_copies_mini (pid : Z) (mini base : LeafNode) (st : swept) : outcome swept :=
  st1 ← sweep_mini_page pid mini st;
  if cache_only cfg then Ret st1 else _ ← assert_ (older_leaf base version); sweep_base_page pid base st1.

(** The copies by the thread of a slot and by the sweep; in cache-only mode the sweep notes the leaves that are gone. *)
Inductive copying :=
| ThreadInner (slot : nat) (ptr : Z) (image : bytes)
| ThreadBase (slot : nat) (pid : Z) (n : LeafNode)
| ThreadMini (slot : nat) (pid : Z) (mini base : LeafNode)
| SweepInner (ptr : Z) (image : bytes)
| SweepBase (pid : Z) (n : LeafNode)
| SweepMini (pid : Z) (mini base : LeafNode)
| SweepNull (pid : Z).

Definition copy_step (st : swept) (c : copying) : outcome swept :=
  match c with
  | ThreadInner slot ptr image => d ← snapshot_inner_node st.2 ptr image slot; Ret (st.1, d)
  | ThreadBase slot pid n => r ← thread_copies_base pid n slot st.2; Ret (st.1, r.2)
  | ThreadMini slot pid mini base => r ← thread_copies_mini pid mini base slot st.2; Ret (st.1, r.2)
  | SweepInner ptr image => let '(offset, d) := snapshot_page st.2 image INNER_NODE_SIZE in Ret (add_inner st.1 (ptr, offset), d)
  | SweepBase pid n => sweep_base_page pid n st
  | SweepMini pid mini base => sweep_copies_mini pid mini base st
  | SweepNull pid => Ret (add_mini st.1 pid NULL_PAGE_LOCATION_OFFSET 0, st.2)
  end.

(** A page in memory, whose header gives its size. *)
Definition image_ok (n : LeafNode) : Prop := leaf_fields n ∧ node_size (LeafNode.meta n) = LEAF_HEADER + zlen (LeafNode.data n).

(** In disk mode, a base page is not of a later version than its mini page. *)
Definition base_ready (base : LeafNode) : Prop := image_ok base ∧ (cache_only cfg = false → older_leaf base version = true).

Definition copying_ok (c : copying) : Prop :=
  match c with
  | ThreadInner slot _ image => (slot < DEFAULT_MAX_SNAPSHOT_THREAD_NUM)%nat ∧ zlen image = INNER_NODE_SIZE
  | ThreadBase slot _ n => (slot < DEFAULT_MAX_SNAPSHOT_THREAD_NUM)%nat ∧ image_ok n ∧ cache_only cfg = false
  | ThreadMini slot _ mini base => (slot < DEFAULT_MAX_SNAPSHOT_THREAD_NUM)%nat ∧ image_ok mini ∧ base_ready base
  | SweepInner _ image => zlen image = INNER_NODE_SIZE
  | SweepBase _ n => image_ok n ∧ cache_only cfg = false
  | SweepMini _ mini base => image_ok mini ∧ base_ready base
  | SweepNull _ => cache_only cfg = true
  end.

(** The pages that are copied, and how much of the file they take. *)
Definition inner_images (c : copying) : list (Z * bytes) :=
  match c with ThreadInner _ ptr image | SweepInner ptr image => [(ptr, image)] | _ => [] end.
Definition mini_images (c : copying) : list (Z * bytes) :=
  match c with ThreadMini _ pid mini _ | SweepMini pid mini _ => [(pid, leaf_image mini)] | _ => [] end.
Definition base_images (c : copying) : list (Z * bytes) :=
  match c with
  | ThreadBase _ pid n | SweepBase pid n => [(pid, leaf_image n)]
  | ThreadMini _ pid _ base | SweepMini pid _ base => if cache_only cfg then [] else [(pid, leaf_image base)]
  | _ => []
  end.
Definition copying_size (c : copying) : Z :=
  foldr (λ (e : Z * bytes) n, zlen e.2 + n) 0 (inner_images c ++ mini_images c ++ base_images c).

(** ** The mappings of one kind: every entry leads to a copy, and every copy has an entry *)
Definition leads (imgs : list (Z * bytes)) (v : StdVfs) (e : Z * Z) : Prop := ∃ b, (e.1, b) ∈ imgs ∧ stored v e.2 b.

Record mapped (imgs : list (Z * bytes)) (v : StdVfs) (T : list (list (Z * Z))) (S : list (Z * Z)) : Prop := {
  ma_slots : length T = DEFAULT_MAX_SNAPSHOT_THREAD_NUM;
  ma_threads : Forall (Forall (leads imgs v)) T;
  ma_sweep : Forall (leads imgs v) S;
  ma_all : ∀ e, e ∈ imgs → e.1 ∈ (mjoin T ++ S).*1;
}.

(** An entry for a mini page and the entry for its size. *)
Definition pairs (imgs : list (Z * bytes)) (v : StdVfs) (e s : Z * Z) : Prop :=
  (e.1 = s.1 ∧ null_ok e.2 s.2 = true) ∧
  (cache_only cfg = true ∧ e.2 = NULL_PAGE_LOCATION_OFFSET ∧ s.2 = 0 ∨ ∃ b, (e.1, b) ∈ imgs ∧ stored v e.2 b ∧ s.2 = zlen b).

Record paired (imgs : list (Z * bytes)) (v : StdVfs) (T TS : list (list (Z * Z))) (S SS : list (Z * Z)) : Prop := {
  pa_slots : length T = DEFAULT_MAX_SNAPSHOT_THREAD_NUM;
  pa_threads : Forall2 (Forall2 (pairs imgs v)) T TS;
  pa_sweep : Forall2 (pairs imgs v) S SS;
  pa_all : ∀ e, e ∈ imgs → e.1 ∈ (mjoin T ++ S).*1;
}.

Lemma leads_mono imgs imgs' k v v' e : grown k v v' → leads imgs v e → leads (imgs ++ imgs') v' e.
Proof. intros Hg (b & Hb & Hs). exists b. split; [apply elem_of_app; by left|]. by apply (gr_keeps _ _ _ Hg). Qed.

Lemma pairs_mono imgs imgs' k v v' e s : grown k v v' → pairs imgs v e s → pairs (imgs ++ imgs') v' e s.
Proof.
  intros Hg [H1 [H2|(b & Hb & Hs & Hz)]]; (split; [done|]); [by left|]. right. exists b. split; [apply elem_of_app; by left|].
  split; [by apply (gr_keeps _ _ _ Hg)|done].
Qed.

Lemma join_push (T : list (list (Z * Z))) i l (e x : Z * Z) : T !! i = Some l → x ∈ mjoin (<[i := l ++ [e]]> T) ↔ x ∈ mjoin T ∨ x = e.
Proof.
  intros Hl. pose proof (lookup_lt_Some _ _ _ Hl) as Hlt. rewrite insert_take_drop by done. rewrite <- (take_drop_middle T i l Hl) at 3.
  unfold mjoin. rewrite !join_app. cbn. rewrite !elem_of_app, list_elem_of_singleton. tauto.
Qed.

Lemma all_push imgs (T : list (list (Z * Z))) S i l k b o :
  T !! i = Some l → (∀ e, e ∈ imgs → e.1 ∈ (mjoin T ++ S).*1) → ∀ e : Z * bytes, e ∈ imgs ++ [(k, b)] → e.1 ∈ (mjoin (<[i := l ++ [(k, o)]]> T) ++ S).*1.
Proof.
  intros Hl Hall e. rewrite elem_of_app, list_elem_of_singleton. setoid_rewrite list_elem_of_fmap in Hall. setoid_rewrite list_elem_of_fmap.
  intros [He| ->].
  - destruct (Hall e He) as (x & Hx & Hin). exists x. split; [done|]. rewrite elem_of_app, join_push by done. apply elem_of_app in Hin. tauto.
  - exists (k, o). split; [done|]. rewrite elem_of_app, join_push by done. tauto.
Qed.

Lemma all_sweep imgs (T : list (list (Z * Z))) S k b o :
  (∀ e, e ∈ imgs → e.1 ∈ (mjoin T ++ S).*1) → ∀ e : Z * bytes, e ∈ imgs ++ [(k, b)] → e.1 ∈ (mjoin T ++ S ++ [(k, o)]).*1.
Proof.
  intros Hall e. rewrite elem_of_app, list_elem_of_singleton, app_assoc, fmap_app, elem_of_app. intros [He| ->]; [left; by apply Hall|]. right. by left.
Qed.

Lemma mapped_grown imgs k v v' T S : grown k v v' → mapped imgs v T S → mapped imgs v' T S.
Proof.
  intros Hg [H1 H2 H3 H4]. rewrite <- (app_nil_r imgs). split; [done| | |by rewrite app_nil_r].
  - eapply Forall_impl; [exact H2|]. intros l Hl. eapply Forall_impl; [exact Hl|]. intros e. by eapply leads_mono.
  - eapply Forall_impl; [exact H3|]. intros e. by eapply leads_mono.
Qed.

Lemma paired_grown imgs k v v' T TS S SS : grown k v v' → paired imgs v T TS S SS → paired imgs v' T TS S SS.
Proof.
  intros Hg [H1 H2 H3 H4]. rewrite <- (app_nil_r imgs). split; [done| | |by rewrite app_nil_r].
  - eapply Forall2_impl; [exact H2|]. intros l l' Hl. eapply Forall2_impl; [exact Hl|]. intros e s. by eapply pairs_mono.
  - eapply Forall2_impl; [exact H3|]. intros e s. by eapply pairs_mono.
Qed.

(** A copy that has just been written gets an entry of its thread or of the sweep. *)
Lemma mapped_push imgs n v v' T S i l k b o :
  mapped imgs v T S → grown n v v' → stored v' o b → T !! i = Some l → mapped (imgs ++ [(k, b)]) v' (<[i := l ++ [(k, o)]]> T) S.
Proof.
  intros [H1 H2 H3 H4] Hg Hs Hl. assert (leads (imgs ++ [(k, b)]) v' (k, o)) as Hnew by (exists b; split; [apply elem_of_app; right; by left|done]).
  assert (∀ l, Forall (leads imgs v) l → Forall (leads (imgs ++ [(k, b)]) v') l) as Hm by (intros x Hx; eapply Forall_impl; [exact Hx|]; intros e; by eapply leads_mono).
  split; [by rewrite length_insert| |by apply Hm|by eapply all_push].
  apply Forall_insert; [by eapply Forall_impl|]. apply Forall_app. split; [|by apply Forall_singleton]. apply Hm. by eapply Forall_lookup_1 in H2.
Qed.

Lemma mapped_sweep imgs n v v' T S k b o :
  mapped imgs v T S → grown n v v' → stored v' o b → mapped (imgs ++ [(k, b)]) v' T (S ++ [(k, o)]).
Proof.
  intros [H1 H2 H3 H4] Hg Hs. assert (leads (imgs ++ [(k, b)]) v' (k, o)) as Hnew by (exists b; split; [apply elem_of_app; right; by left|done]).
  assert (∀ l, Forall (leads imgs v) l → Forall (leads (imgs ++ [(k, b)]) v') l) as Hm by (intros x Hx; eapply Forall_impl; [exact Hx|]; intros e; by eapply leads_mono).
  split; [done|by eapply Forall_impl| |by apply all_sweep]. apply Forall_app. split; [by apply Hm|by apply Forall_singleton].
Qed.

Lemma new_pair imgs v k b o :
  stored v o b → 0 < zlen b → offset_alloc v <= NULL_PAGE_LOCATION_OFFSET → pairs (imgs ++ [(k, b)]) v (k, o) (k, zlen b).
Proof.
  intros Hs Hb Hv. pose proof Hs as (_ & _ & Hend). split; [split; [done|]|right; exists b; split; [apply elem_of_app; right; by left|done]].
  unfold null_ok. cbn [fst snd]. rewrite (proj2 (Z.eqb_neq _ _)) by lia. by apply Z.ltb_lt.
Qed.

Lemma paired_push imgs n v v' T TS S SS i l ls k b o :
  paired imgs v T TS S SS → grown n v v' → stored v' o b → 0 < zlen b → offset_alloc v' <= NULL_PAGE_LOCATION_OFFSET → T !! i = Some l → TS !! i = Some ls →
  paired (imgs ++ [(k, b)]) v' (<[i := l ++ [(k, o)]]> T) (<[i := ls ++ [(k, zlen b)]]> TS) S SS.
Proof.
  intros [H1 H2 H3 H4] Hg Hs Hb Hv Hl Hls. pose proof (new_pair imgs v' k b o Hs Hb Hv) as Hnew.
  assert (∀ l l', Forall2 (pairs imgs v) l l' → Forall2 (pairs (imgs ++ [(k, b)]) v') l l') as Hm by (intros x y Hx; eapply Forall2_impl; [exact Hx|]; intros e s; by eapply pairs_mono).
  split; [by rewrite length_insert| |by apply Hm|by eapply all_push].
  apply Forall2_insert; [by eapply Forall2_impl|]. apply Forall2_app; [apply Hm; by eapply Forall2_lookup_lr|constructor; [done|constructor]].
Qed.

Lemma paired_sweep imgs n v v' T TS S SS k b o :
  paired imgs v T TS S SS → grown n v v' → stored v' o b → 0 < zlen b → offset_alloc v' <= NULL_PAGE_LOCATION_OFFSET →
  paired (imgs ++ [(k, b)]) v' T TS (S ++ [(k, o)]) (SS ++ [(k, zlen b)]).
Proof.
  intros [H1 H2 H3 H4] Hg Hs Hb Hv. pose proof (new_pair imgs v' k b o Hs Hb Hv) as Hnew.
  assert (∀ l l', Forall2 (pairs imgs v) l l' → Forall2 (pairs (imgs ++ [(k, b)]) v') l l') as Hm by (intros x y Hx; eapply Forall2_impl; [exact Hx|]; intros e s; by eapply pairs_mono).
  split; [done|by eapply Forall2_impl| |by apply all_sweep]. apply Forall2_app; [by apply Hm|constructor; [done|constructor]].
Qed.

(** ** What a number of copies leaves *)
Record kept (II MI BI : list (Z * bytes)) (st : swept) : Prop := {
  ke_vfs : vfs_ok (vfs st.2);
  ke_inner : mapped II (vfs st.2) (thread_local_inner_mappings st.2) (sweep_inner st.1);
  ke_mini : paired MI (vfs st.2) (thread_local_mini_mappings st.2) (thread_local_mini_size_mappings st.2) (sweep_mini st.1) (sweep_mini_size st.1);
  ke_base : mapped BI (vfs st.2) (thread_local_base_mappings st.2) (sweep_base st.1);
}.

(** The state after a step that has written [n] bytes. *)
Definition stepped (r : outcome swept) (st : swept) (n : Z) (II MI BI : list (Z * bytes)) : Prop :=
  ∃ st', r = Ret st' ∧ offset_alloc (vfs st'.2) = offset_alloc (vfs st.2) + n ∧ kept II MI BI st'.

Lemma push_at_ok (T : list (list (Z * Z))) i e : (i < length T)%nat → ∃ l, T !! i = Some l ∧ push_at T i e = Ret (<[i := l ++ [e]]> T).
Proof. intros Hi. destruct (lookup_lt_is_Some_2 T i Hi) as [l Hl]. exists l. split; [done|]. unfold push_at. by rewrite Hl. Qed.

Lemma image_slice n : image_ok n → page_slice n = Ret (leaf_image n) ∧ zlen (leaf_image n) = node_size (LeafNode.meta n) ∧ 0 < zlen (leaf_image n).
Proof.
  intros [Hf Hs]. destruct (leaf_image_roundtrip n Hf) as [Hl _]. pose proof (zlen_nonneg (LeafNode.data n)).
  split; [by apply page_slice_spec|]. unfold LEAF_HEADER in *. lia.
Qed.

Ltac fields := cbn [fst snd vfs set_vfs thread_local_inner_mappings thread_local_base_mappings thread_local_mini_mappings thread_local_mini_size_mappings
  add_inner add_mini add_base sweep_inner sweep_mini sweep_mini_size sweep_base].

Section steps.
Context (II MI BI : list (Z * bytes)) (st : swept).
Hypothesis Hkept : kept II MI BI st.
Abbreviation v := (vfs st.2).

Lemma thread_inner_step slot ptr b : (slot < DEFAULT_MAX_SNAPSHOT_THREAD_NUM)%nat → zlen b = INNER_NODE_SIZE →
  stepped (d ← snapshot_inner_node st.2 ptr b slot; Ret (st.1, d)) st (zlen b) (II ++ [(ptr, b)]) MI BI.
Proof.
  intros Hslot Hb. destruct Hkept as [H1 H2 H3 H4]. destruct (snapshot_page_spec st.2 b INNER_NODE_SIZE H1 Hb) as (v' & Hp & Hg & Hs & Ho).
  unfold snapshot_inner_node. rewrite Hp. destruct (push_at_ok (thread_local_inner_mappings st.2) slot (ptr, offset_alloc v)) as (l & Hl & Hpush); [by rewrite (ma_slots _ _ _ _ H2)|].
  cbn [thread_local_inner_mappings set_vfs]. rewrite Hpush. ret_step. ret_step. eexists. split; [done|]. split; [cbn [snd vfs set_vfs]; lia|].
  split; fields; [apply Hg|by eapply mapped_push|by eapply paired_grown|by eapply mapped_grown].
Qed.

Lemma thread_base_step slot pid n : (slot < DEFAULT_MAX_SNAPSHOT_THREAD_NUM)%nat → image_ok n →
  stepped (r ← thread_copies_base pid n slot st.2; Ret (st.1, r.2)) st (zlen (leaf_image n)) II MI (BI ++ [(pid, leaf_image n)]).
Proof.
  intros Hslot Hn. destruct (image_slice n Hn) as (Hsl & Hz & _). destruct Hkept as [H1 H2 H3 H4].
  destruct (snapshot_page_spec st.2 (leaf_image n) _ H1 Hz) as (v' & Hp & Hg & Hs & Ho).
  unfold thread_copies_base, snapshot_base_page. rewrite Hsl. ret_step. rewrite Hp.
  destruct (push_at_ok (thread_local_base_mappings st.2) slot (pid, offset_alloc v)) as (l & Hl & Hpush); [by rewrite (ma_slots _ _ _ _ H4)|].
  cbn [thread_local_base_mappings set_vfs]. rewrite Hpush. ret_step. ret_step. eexists. split; [done|]. split; [cbn [snd vfs set_vfs]; lia|].
  split; fields; [apply Hg|by eapply mapped_grown|by eapply paired_grown|by eapply mapped_push].
Qed.

Lemma thread_mini_step slot pid n : (slot < DEFAULT_MAX_SNAPSHOT_THREAD_NUM)%nat → image_ok n → offset_alloc v + zlen (leaf_image n) <= NULL_PAGE_LOCATION_OFFSET →
  stepped (s ← page_slice n; d ← snapshot_mini_page st.2 pid s (node_size (LeafNode.meta n)) slot; Ret (st.1, d)) st (zlen (leaf_image n)) II (MI ++ [(pid, leaf_image n)]) BI.
Proof.
  intros Hslot Hn Hnull. destruct (image_slice n Hn) as (Hsl & Hz & Hpos). destruct Hkept as [H1 H2 H3 H4].
  destruct (snapshot_page_spec st.2 (leaf_image n) _ H1 Hz) as (v' & Hp & Hg & Hs & Ho). unfold snapshot_mini_page. rewrite Hsl. ret_step.
  rewrite (proj2 (Z.eqb_neq (node_size (LeafNode.meta n)) 0)), Hp by lia. pose proof (Forall2_length _ _ _ (pa_threads _ _ _ _ _ _ H3)) as Hlen. pose proof (pa_slots _ _ _ _ _ _ H3) as Hsl3.
  destruct (push_at_ok (thread_local_mini_mappings st.2) slot (pid, offset_alloc v)) as (l & Hl & Hpush); [lia|].
  destruct (push_at_ok (thread_local_mini_size_mappings st.2) slot (pid, node_size (LeafNode.meta n))) as (ls & Hls & Hpush'); [lia|].
  cbn [thread_local_mini_mappings thread_local_mini_size_mappings set_vfs]. rewrite Hpush. ret_step. rewrite Hpush'. ret_step.
  rewrite !list_lookup_insert_eq by lia. cbn [unwrap]. do 2 ret_step. rewrite assert_true by (apply bool_decide_eq_true_2; rewrite !length_app;
    by rewrite (Forall2_length _ _ _ (Forall2_lookup_lr _ _ _ _ _ _ (pa_threads _ _ _ _ _ _ H3) Hl Hls))).
  ret_step. ret_step. eexists. split; [done|]. split; [cbn [snd vfs set_vfs]; lia|].
  split; fields; [apply Hg|by eapply mapped_grown|rewrite <- Hz; eapply paired_push; try done; lia|by eapply mapped_grown].
Qed.

Lemma sweep_inner_step ptr b : zlen b = INNER_NODE_SIZE →
  stepped (let '(offset, d) := snapshot_page st.2 b INNER_NODE_SIZE in Ret (add_inner st.1 (ptr, offset), d)) st (zlen b) (II ++ [(ptr, b)]) MI BI.
Proof.
  intros Hb. destruct Hkept as [H1 H2 H3 H4]. destruct (snapshot_page_spec st.2 b INNER_NODE_SIZE H1 Hb) as (v' & Hp & Hg & Hs & Ho). rewrite Hp.
  eexists. split; [done|]. split; [cbn [snd vfs set_vfs]; lia|]. split; fields; [apply Hg|by eapply mapped_sweep|by eapply paired_grown|by eapply mapped_grown].
Qed.

Lemma sweep_base_step pid n : image_ok n → stepped (sweep_base_page pid n st) st (zlen (leaf_image n)) II MI (BI ++ [(pid, leaf_image n)]).
Proof.
  intros Hn. destruct (image_slice n Hn) as (Hsl & Hz & _). destruct Hkept as [H1 H2 H3 H4].
  destruct (snapshot_page_spec st.2 (leaf_image n) _ H1 Hz) as (v' & Hp & Hg & Hs & Ho). unfold sweep_base_page, copy_leaf. rewrite Hsl. ret_step. rewrite Hp. ret_step.
  eexists. split; [done|]. split; [cbn [snd vfs set_vfs]; lia|]. split; fields; [apply Hg|by eapply mapped_grown|by eapply paired_grown|by eapply mapped_sweep].
Qed.

Lemma sweep_mini_step pid n : image_ok n → offset_alloc v + zlen (leaf_image n) <= NULL_PAGE_LOCATION_OFFSET →
  stepped (sweep_mini_page pid n st) st (zlen (leaf_image n)) II (MI ++ [(pid, leaf_image n)]) BI.
Proof.
  intros Hn Hnull. destruct (image_slice n Hn) as (Hsl & Hz & Hpos). destruct Hkept as [H1 H2 H3 H4].
  destruct (snapshot_page_spec st.2 (leaf_image n) _ H1 Hz) as (v' & Hp & Hg & Hs & Ho). unfold sweep_mini_page, copy_leaf. rewrite Hsl. ret_step. rewrite Hp. ret_step.
  eexists. split; [done|]. split; [cbn [snd vfs set_vfs]; lia|].
  split; fields; [apply Hg|by eapply mapped_grown|rewrite <- Hz; eapply paired_sweep; try done; lia|by eapply mapped_grown].
Qed.

Lemma sweep_null_step pid : cache_only cfg = true → stepped (Ret (add_mini st.1 pid NULL_PAGE_LOCATION_OFFSET 0, st.2)) st 0 II MI BI.
Proof.
  intros Hc. destruct Hkept as [H1 H2 [P1 P2 P3 P4] H4]. eexists. split; [done|]. split; [cbn [snd vfs set_vfs]; lia|]. split; fields; [done|done| |done]. split; [done|done| |].
  - apply Forall2_app; [done|]. constructor; [|constructor]. split; [done|]. by left.
  - intros e He. rewrite app_assoc, fmap_app, elem_of_app. left. by apply P4.
Qed.
End steps.

Lemma step_thread_mini II MI BI st slot pid mini base :
  kept II MI BI st → (slot < DEFAULT_MAX_SNAPSHOT_THREAD_NUM)%nat → image_ok mini → base_ready base →
  offset_alloc (vfs st.2) + zlen (leaf_image mini) <= NULL_PAGE_LOCATION_OFFSET →
  stepped (copy_step st (ThreadMini slot pid mini base)) st (copying_size (ThreadMini slot pid mini base)) II (MI ++ [(pid, leaf_image mini)])
    (BI ++ base_images (ThreadMini slot pid mini base)).
Proof.
  intros Hk Hslot Hm [Hb Hold] Hnull. destruct (thread_mini_step II MI BI st Hk slot pid mini Hslot Hm Hnull) as (st1 & Hrun & Ho & Hk1).
  unfold copying_size. cbn [copy_step inner_images mini_images base_images]. unfold thread_copies_mini. destruct (page_slice mini) as [s|]; [|done]. revert Hrun. ret_step. ret_step.
  destruct (snapshot_mini_page _ _ _ _ _) as [d1|]; [|done]. do 2 ret_step. intros [= <-]. destruct (cache_only cfg) eqn:Hc.
  - eexists. split; [done|]. cbn [foldr app fst snd] in *. split; [lia|]. by rewrite app_nil_r.
  - destruct (thread_base_step II _ BI _ Hk1 slot pid base Hslot Hb) as (st2 & Hrun2 & Ho2 & Hk2). cbn [fst snd] in *. exists st2.
    rewrite (Hold eq_refl). ret_step. unfold thread_copies_base in Hrun2. destruct (page_slice base) as [s'|]; [|done]. revert Hrun2. ret_step. ret_step.
    destruct (snapshot_base_page _ _ _ _ _); [|done]. do 4 ret_step. intros Hrun2. split; [done|]. cbn [foldr app fst snd].
    split; [lia|done].
Qed.

Lemma step_sweep_mini II MI BI st pid mini base :
  kept II MI BI st → image_ok mini → base_ready base → offset_alloc (vfs st.2) + zlen (leaf_image mini) <= NULL_PAGE_LOCATION_OFFSET →
  stepped (copy_step st (SweepMini pid mini base)) st (copying_size (SweepMini pid mini base)) II (MI ++ [(pid, leaf_image mini)])
    (BI ++ base_images (SweepMini pid mini base)).
Proof.
  intros Hk Hm [Hb Hold] Hnull. destruct (sweep_mini_step II MI BI st Hk pid mini Hm Hnull) as (st1 & Hrun & Ho & Hk1).
  unfold copying_size. cbn [copy_step inner_images mini_images base_images]. unfold sweep_copies_mini. rewrite Hrun. ret_step. destruct (cache_only cfg) eqn:Hc.
  - eexists. split; [done|]. cbn [foldr app fst snd] in *. split; [lia|]. by rewrite app_nil_r.
  - destruct (sweep_base_step II _ BI _ Hk1 pid base Hb) as (st2 & Hrun2 & Ho2 & Hk2). exists st2. rewrite (Hold eq_refl). ret_step. split; [done|]. cbn [foldr app fst snd].
    split; [lia|done].
Qed.

Lemma copy_step_spec II MI BI st c :
  kept II MI BI st → copying_ok c → offset_alloc (vfs st.2) + copying_size c <= NULL_PAGE_LOCATION_OFFSET →
  stepped (copy_step st c) st (copying_size c) (II ++ inner_images c) (MI ++ mini_images c) (BI ++ base_images c).
Proof.
  intros Hk Hok Hnull. assert (∀ n II' MI' BI', stepped (copy_step st c) st n II' MI' BI' → n = copying_size c → II' = II ++ inner_images c → MI' = MI ++ mini_images c →
    BI' = BI ++ base_images c → stepped (copy_step st c) st (copying_size c) (II ++ inner_images c) (MI ++ mini_images c) (BI ++ base_images c)) as Hfit by (by intros; subst).
  assert (∀ pid mini, mini_images c = [(pid, leaf_image mini)] → inner_images c = [] → offset_alloc (vfs st.2) + zlen (leaf_image mini) <= NULL_PAGE_LOCATION_OFFSET) as Hmini.
  { intros pid mini Hm Hi. unfold copying_size in Hnull. rewrite Hm, Hi in Hnull. cbn [foldr app snd] in Hnull.
    assert (∀ l : list (Z * bytes), 0 <= foldr (λ (e : Z * bytes) n, zlen e.2 + n) 0 l) as Hnn by (induction l as [|e l IH]; cbn; [lia|pose proof (zlen_nonneg e.2); lia]).
    specialize (Hnn (base_images c)). lia. }
  assert (∀ b : bytes, zlen b = foldr (λ (e : Z * bytes) n, zlen e.2 + n) 0 [(0, b)]) as Hone by (intros b; cbn; lia).
  unfold copying_size in *. destruct c as [slot ptr b|slot pid n|slot pid mini base|ptr b|pid n|pid mini base|pid]; cbn [inner_images mini_images base_images app copying_ok] in *.
  - destruct Hok as [H1 H2]. eapply Hfit; [by apply thread_inner_step|by rewrite ?app_nil_r; rewrite ?(Hone b)..].
  - destruct Hok as (H1 & H2 & _). eapply Hfit; [by apply thread_base_step|by rewrite ?app_nil_r; rewrite ?(Hone (leaf_image n))..].
  - destruct Hok as (H1 & H2 & H3). eapply Hfit; [apply step_thread_mini; try done; by apply (Hmini pid mini)|by rewrite ?app_nil_r..].
  - eapply Hfit; [by apply sweep_inner_step|by rewrite ?app_nil_r; rewrite ?(Hone b)..].
  - destruct Hok as [H1 _]. eapply Hfit; [by apply sweep_base_step|by rewrite ?app_nil_r; rewrite ?(Hone (leaf_image n))..].
  - destruct Hok as [H1 H2]. eapply Hfit; [apply step_sweep_mini; try done; by apply (Hmini pid mini)|by rewrite ?app_nil_r..].
  - eapply Hfit; [by apply sweep_null_step|by rewrite ?app_nil_r..].
Qed.

Definition copies_size (cs : list copying) : Z := foldr (λ c n, copying_size c + n) 0 cs.

Lemma copying_size_nonneg c : 0 <= copying_size c.
Proof. unfold copying_size. induction (_ ++ _) as [|e l IH]; cbn; [lia|]. pose proof (zlen_nonneg e.2). lia. Qed.

Lemma copy_all_spec cs : ∀ II MI BI st,
  kept II MI BI st → Forall copying_ok cs → offset_alloc (vfs st.2) + copies_size cs <= NULL_PAGE_LOCATION_OFFSET →
  ∃ st', foldM copy_step st cs = Ret st' ∧ kept (II ++ flat_map inner_images cs) (MI ++ flat_map mini_images cs) (BI ++ flat_map base_images cs) st'.
Proof.
  induction cs as [|c cs IH]; intros II MI BI st Hk Hok Hsize; [exists st; by rewrite !app_nil_r|]. apply Forall_cons_1 in Hok as [Hc Hcs]. cbn [foldM flat_map copies_size foldr] in *.
  fold (copies_size cs) in Hsize. assert (0 <= copies_size cs) as Hnn by (clear; induction cs as [|x cs IH]; [done|]; change (0 <= copying_size x + copies_size cs); pose proof (copying_size_nonneg x); lia).
  destruct (copy_step_spec II MI BI st c Hk Hc ltac:(lia)) as (st1 & -> & Ho & Hk1). ret_step. rewrite !app_assoc. apply IH; [done|done|lia].
Qed.

(** ** The maps that are made of the mappings *)

(** Every page that was copied is in the map, which leads to a copy of it. *)
Definition holds (imgs : list (Z * bytes)) (v : StdVfs) (m : gmap Z Z) : Prop := ∀ k,
  match m !! k with Some o => leads imgs v (k, o) | None => k ∉ imgs.*1 end.
Definition holds_sized (imgs : list (Z * bytes)) (v : StdVfs) (m sizes : gmap Z Z) : Prop := ∀ k,
  match m !! k, sizes !! k with Some o, Some z => pairs imgs v (k, o) (k, z) | None, None => k ∉ imgs.*1 | _, _ => False end.

Lemma absent imgs (l : list (Z * Z)) k : (∀ e : Z * bytes, e ∈ imgs → e.1 ∈ l.*1) → first k l = None → k ∉ imgs.*1.
Proof. intros Hall Hn%first_none (e & -> & He)%list_elem_of_fmap. by apply Hn, Hall. Qed.

Lemma mapped_holds imgs v T S (m : gmap Z Z) : mapped imgs v T S → (∀ k, m !! k = first k (mjoin T ++ S)) → holds imgs v m.
Proof.
  intros [_ H2 H3 H4] Hm k. rewrite Hm. destruct (first k (mjoin T ++ S)) as [o|] eqn:Hf; [|by eapply absent].
  apply first_elem in Hf. assert (Forall (leads imgs v) (mjoin T ++ S)) as Hall by (apply Forall_app; split; [by apply Forall_join|done]).
  rewrite Forall_forall in Hall. by apply Hall.
Qed.

Lemma first_pairs imgs v l1 l2 k : Forall2 (pairs imgs v) l1 l2 →
  match first k l1, first k l2 with Some o, Some z => pairs imgs v (k, o) (k, z) | None, None => True | _, _ => False end.
Proof.
  induction 1 as [|[k1 o] [k2 z] l1 l2 Hp _ IH]; [done|]. pose proof Hp as [[Hk _] _]. cbn in Hk. subst k2. cbn [first fst snd]. by case_decide as Hd; [subst k1|].
Qed.

Lemma paired_holds imgs v T TS S SS (m s : gmap Z Z) : paired imgs v T TS S SS →
  (∀ k, m !! k = first k (mjoin T ++ S)) → (∀ k, s !! k = first k (mjoin TS ++ SS)) → holds_sized imgs v m s.
Proof.
  intros [_ H2 H3 H4] Hm Hs k. rewrite Hm, Hs. assert (Forall2 (pairs imgs v) (mjoin T ++ S) (mjoin TS ++ SS)) as Hall.
  { apply Forall2_app; [|done]. clear -H2. induction H2; [constructor|]. cbn. by apply Forall2_app. }
  pose proof (first_pairs imgs v _ _ k Hall) as Hp. destruct (first k (mjoin T ++ S)) as [o|] eqn:Hf, (first k (mjoin TS ++ SS)); try done. by eapply absent.
Qed.

(** In disk mode a mini page is copied with its base page; in cache-only mode there are no base pages. *)
Lemma base_images_of cs : Forall copying_ok cs →
  if cache_only cfg then flat_map base_images cs = [] else ∀ k b, (k, b) ∈ flat_map mini_images cs → k ∈ (flat_map base_images cs).*1.
Proof.
  induction 1 as [|c cs Hc _ IH]; [destruct (cache_only cfg); [done|by intros k b ?%elem_of_nil]|]. cbn [flat_map].
  destruct (cache_only cfg) eqn:Hm.
  - rewrite IH, app_nil_r. unfold base_images. rewrite Hm. destruct c; try done; cbn in Hc; destruct_and?; congruence.
  - intros k b. rewrite fmap_app, !elem_of_app. intros [Hk|Hk]; [left|right; by eapply IH]. unfold base_images. rewrite Hm.
    destruct c; cbn in Hk |- *; try by apply elem_of_nil in Hk. all: apply list_elem_of_singleton in Hk as [= -> _]; by left.
Qed.

Lemma kept_copies_ok cs st :
  kept (flat_map inner_images cs) (flat_map mini_images cs) (flat_map base_images cs) st → Forall copying_ok cs →
  (∀ k b b', (k, b) ∈ flat_map mini_images cs → (k, b') ∈ flat_map mini_images cs → cache_only cfg = true ∨ zlen b = zlen b') →
  copies_ok cfg st.2 st.1.
Proof.
  intros [_ _ [_ H2 H3 _] [_ B2 B3 B4]] Hok Hsizes. set (imgs := flat_map mini_images cs) in *. apply base_images_of in Hok.
  assert (Forall2 (pairs imgs (vfs st.2)) (mini_copies st.2 st.1) (mini_sizes st.2 st.1)) as Hall.
  { apply Forall2_app; [|done]. clear -H2. induction H2; [constructor|]. cbn. by apply Forall2_app. }
  split.
  - eapply Forall2_impl; [exact H2|]. intros l l' Hl. eapply Forall2_impl; [exact Hl|]. by intros e s [? _].
  - eapply Forall2_impl; [exact H3|]. by intros e s [? _].
  - assert (∀ k z, (k, z) ∈ mini_sizes st.2 st.1 → cache_only cfg = true ∨ ∃ b, (k, b) ∈ imgs ∧ z = zlen b) as Hz.
    { intros k z Hin. apply list_elem_of_lookup in Hin as [i Hi]. destruct (Forall2_lookup_r _ _ _ _ _ Hall Hi) as ([k' o] & _ & [Hk _] & Hp). cbn in Hk, Hp. subst k'.
      destruct Hp as [[? _]|(b & Hb & _ & Hz)]; [by left|right; by exists b]. }
    intros k z z' [?|(b & Hb & ->)]%Hz [?|(b' & Hb' & ->)]%Hz; [by left..|]. by eapply Hsizes.
  - assert (Forall (leads (flat_map base_images cs) (vfs st.2)) (base_copies st.2 st.1)) as Hbase by (apply Forall_app; split; [by apply Forall_join|done]).
    destruct (cache_only cfg) eqn:Hc.
    + destruct (base_copies _ _) as [|e l]; [done|]. apply Forall_cons_1 in Hbase as [(b & Hb & _) _]. rewrite Hok in Hb. by apply elem_of_nil in Hb.
    + intros k ([k' o] & -> & Hin)%list_elem_of_fmap. apply list_elem_of_lookup in Hin as [i Hi]. destruct (Forall2_lookup_l _ _ _ _ _ Hall Hi) as (z & _ & _ & Hp).
      destruct Hp as [[Hcon _]|(b & Hb & _)]; [congruence|]. apply Hok, list_elem_of_fmap in Hb as (e & He & Hin'). cbn in He |- *. rewrite He. by apply B4.
Qed.

Lemma kept_start d : vfs_ok (vfs d) → kept [] [] [] (mkSweep [] [] [] [], data_reset d).
Proof.
  intros Hv. split; [done|..]; (split; [done| |constructor|by intros e ?%elem_of_nil]); cbn [fst snd data_reset thread_local_inner_mappings thread_local_base_mappings thread_local_mini_mappings
    thread_local_mini_size_mappings]; repeat constructor.
Qed.
End copying.


(** Inner node 3 and the leaf 7 are copied by threads before the sweep comes to them; the leaf 8 has no mini page. *)
Definition copied_page (size : Z) : LeafNode := mkLeafNode (mkNodeMeta 0 size 0) 0 0 0 0 (replicate (Z.to_nat (size - LEAF_HEADER)) 0).
Definition copied_inner : bytes := replicate (Z.to_nat INNER_NODE_SIZE) 0.
Definition some_copies : list copying :=
  [ThreadInner 5 3 copied_inner; ThreadMini 2 7 (copied_page 512) (copied_page 4096); SweepInner 3 copied_inner; SweepInner 4 copied_inner;
   SweepMini 7 (copied_page 512) (copied_page 4096); SweepBase 8 (copied_page 4096)].


(** ** The header and the mappings *)

(** A vector at the place [a]. *)
Definition vector_at (v : StdVfs) (l : list (Z * Z)) (a : Z * Z) : Prop :=
  a.2 = 16 * zlen l ∧ 0 <= a.1 <= offset_alloc v ∧ (l ≠ [] → stored v a.1 (entries l)).

Lemma vector_kept k v v' l a : grown k v v' → vector_at v l a → vector_at v' l a.
Proof. intros [H1 H2 H3 H4] (G1 & G2 & G3). split; [done|]. split; [lia|]. auto. Qed.

Lemma write_vector l v : vfs_ok v → zlen l < 2 ^ 58 →
  ∃ a v', serialize_vec_to_disk l v = Ret (a, v') ∧ grown (16 * zlen l + 2 * DISK_PAGE_SIZE) v v' ∧ vector_at v' l a ∧
    (l ≠ [] → ∀ current, file_end current a = zlen (file v')).
Proof.
  intros Hv Hl. destruct (serialize_vec_spec l v Hv Hl) as (off & v' & Hrun & Hg & Hst). exists (off, 16 * zlen l), v'. split; [done|]. split; [done|].
  pose proof (gr_next _ _ _ Hg). pose proof (vo_start _ Hv). assert (0 < DISK_PAGE_SIZE) by done. case_decide as Hne.
  - destruct Hst as [-> ->]. split; [|done]. split; [done|]. split; [cbn; lia|done].
  - destruct Hst as (Hst & -> & Hf). split; [split; [done|]; split; [cbn; lia|done]|]. intros _ c. unfold file_end. cbn [fst snd].
    zcase (offset_alloc v =? 0); [lia|done].
Qed.

Lemma write_mappings li lm ls lb v : vfs_ok v → zlen li + zlen lm + zlen ls + zlen lb < 2 ^ 58 → lb ≠ [] →
  ∃ ai v1 am v2 asz v3 ab v4, serialize_vec_to_disk li v = Ret (ai, v1) ∧ serialize_vec_to_disk lm v1 = Ret (am, v2) ∧
    serialize_vec_to_disk ls v2 = Ret (asz, v3) ∧ serialize_vec_to_disk lb v3 = Ret (ab, v4) ∧
    grown (16 * (zlen li + zlen lm + zlen ls + zlen lb) + 8 * DISK_PAGE_SIZE) v v4 ∧
    vector_at v4 li ai ∧ vector_at v4 lm am ∧ vector_at v4 ls asz ∧ vector_at v4 lb ab ∧ DISK_PAGE_SIZE <= zlen (file v4) ∧
    foldl file_end BF_TREE_META_SIZE [ai; am; asz; ab] = zlen (file v4).
Proof.
  intros Hv Hl Hne. pose proof (zlen_nonneg li). pose proof (zlen_nonneg lm). pose proof (zlen_nonneg ls). pose proof (zlen_nonneg lb).
  destruct (write_vector li v Hv ltac:(lia)) as (ai & v1 & R1 & G1 & V1 & _). destruct (write_vector lm v1 (gr_ok _ _ _ G1) ltac:(lia)) as (am & v2 & R2 & G2 & V2 & _).
  destruct (write_vector ls v2 (gr_ok _ _ _ G2) ltac:(lia)) as (asz & v3 & R3 & G3 & V3 & _). destruct (write_vector lb v3 (gr_ok _ _ _ G3) ltac:(lia)) as (ab & v4 & R4 & G4 & V4 & E4).
  exists ai, v1, am, v2, asz, v3, ab, v4. do 4 (split; [done|]). split.
  { eapply file_grown_trans; [exact G1|eapply file_grown_trans; [exact G2|eapply file_grown_trans; [exact G3|exact G4|reflexivity]|reflexivity]|lia]. }
  split; [eapply vector_kept; [exact G4|]; eapply vector_kept; [exact G3|]; by eapply vector_kept|].
  split; [eapply vector_kept; [exact G4|]; by eapply vector_kept|]. split; [by eapply vector_kept|]. split; [done|]. split; [|cbn [foldl]; by apply E4].
  destruct V4 as (_ & _ & Hst). destruct (Hst Hne) as ((_ & Hh & _) & Ho & _). pose proof (zlen_nonneg (entries lb)). lia.
Qed.

Lemma by_page_id_spec l : Forall (λ e, is_id (NodeMeta.from_raw e.1) = true) l → by_page_id l = Ret (merge_sort page_le l).
Proof.
  intros Hl. unfold by_page_id. assert (foldM (λ _ (e : Z * Z), assert_ (is_id (NodeMeta.from_raw e.1))) tt l = Ret tt) as ->; [|by case_decide].
  induction Hl as [|e l He Hl IH]; [done|]. cbn [foldM]. rewrite He. by ret_step.
Qed.

Definition config_words {F} (cfg : Config F) : list Z :=
  [cb_size_byte cfg; read_promotion_rate cfg; scan_promotion_rate cfg; cb_min_record_size cfg; cb_max_record_size cfg; leaf_page_size cfg;
   cb_max_key_len cfg; max_fence_len cfg; max_mini_page_size cfg].

Section finalize.
Context {F : Type} (to_bits : F → Z) (of_bits : Z → F) (pad : Z → Z → bytes) (hash_order : gmap Z Z → list (Z * Z)) (cfg : Config F).
Hypothesis Hbits : ∀ x, 0 <= to_bits x < 2 ^ 64 ∧ of_bits (to_bits x) = x.
Hypothesis Hpad : ∀ i n, 0 <= n → zlen (pad i n) = n.
Hypothesis Hhash : ∀ m, hash_order m ≡ₚ map_to_list m.
Hypothesis Hdisk : cache_only cfg = false.
Hypothesis Hcfg : Forall (λ z, 0 <= z < 2 ^ 64) (config_words cfg).

(** The header and the mappings of a finished file. *)
Record finished (f : bytes) (m : BfTreeMeta F) (li lm ls lb : list (Z * Z)) : Prop := {
  fn_header : meta_of_bytes of_bits (read_at f 0 (replicate (Z.to_nat DISK_PAGE_SIZE) 0)) = m;
  fn_size : zlen f = file_size m;
  fn_long : DISK_PAGE_SIZE <= zlen f;
  fn_inner : li ≠ [] → has f (inner_offset m) (entries li);
  fn_inner_size : inner_size m = 16 * zlen li;
  fn_mini : lm ≠ [] → has f (mini_offset m) (entries lm);
  fn_mini_size : mini_size m = 16 * zlen lm;
  fn_sizes : ls ≠ [] → has f (mini_size_offset m) (entries ls);
  fn_sizes_size : mini_size_size m = 16 * zlen ls;
  fn_base : lb ≠ [] → has f (base_offset m) (entries lb);
  fn_base_size : base_size m = 16 * zlen lb;
}.

Lemma hash_length m : zlen (hash_order m) = Z.of_nat (base.size m).
Proof. unfold zlen. by rewrite Hhash, length_map_to_list. Qed.

Lemma finalize_spec d sv w n inner mini sizes base :
  merge_mappings hash_order cfg d w = Ret (inner, mini, sizes, base) → vfs_ok (vfs d) → base ≠ ∅ → Z.of_nat (base.size base) <= n →
  (∀ k, is_Some (base !! k) → is_id (NodeMeta.from_raw k) = true) → 0 <= root_id d < 2 ^ 64 → 0 <= sv < 2 ^ 64 →
  offset_alloc (vfs d) + 16 * Z.of_nat (base.size inner + base.size mini + base.size sizes + base.size base) < 2 ^ 60 →
  ∃ d' m, let f := file (vfs d') in let lb := merge_sort page_le (hash_order base) in
    finalize to_bits pad hash_order cfg d sv w n = Ret d' ∧
    finished f m (hash_order inner) (hash_order mini) (hash_order sizes) lb ∧
    (∃ ai am asz ab e k, m = header_of cfg (root_id d) sv ai am asz ab e k) ∧ (∀ off b, stored (vfs d) off b → has f off b) ∧ d' = data_reset d'.
Proof.
  intros Hm Hv Hne Hn Hid Hr Hsv Hbound. set (lb := merge_sort page_le (hash_order base)).
  assert (lb ≡ₚ hash_order base) as Hperm by apply merge_sort_Permutation.
  assert (zlen lb = Z.of_nat (base.size base)) as Hlb by (unfold zlen; rewrite Hperm; apply hash_length).
  assert (lb ≠ []) as Hlne. { intros He. apply Hne, map_size_empty_inv. rewrite He in Hlb. unfold zlen in Hlb. cbn in Hlb. lia. }
  pose proof (vo_start _ Hv). assert (DISK_PAGE_SIZE = 4096) as HP by done.
  destruct (write_mappings (hash_order inner) (hash_order mini) (hash_order sizes) lb (vfs d) Hv) as
    (ai & v1 & am & v2 & asz & v3 & ab & v4 & R1 & R2 & R3 & R4 & Hg & V1 & V2 & V3 & V4 & Hlong & Hend); [rewrite !hash_length, Hlb; lia|done|].
  rewrite !hash_length, Hlb in Hg. set (e := foldl file_end BF_TREE_META_SIZE [ai; am; asz; ab]) in *.
  set (m := header_of cfg (root_id d) sv ai am asz ab e (zlen lb)). set (h := BfTreeMeta_as_slice to_bits pad m).
  assert (zlen h = BF_TREE_META_SIZE) as Hh by by apply header_length.
  set (f := write_at (file v4) META_DATA_PAGE_OFFSET h). pose proof (gr_next _ _ _ Hg) as Hnext. pose proof (vo_end _ (gr_ok _ _ _ Hg)) as Hvend.
  assert (zlen f = zlen (file v4)) as Hlen by (unfold f, META_DATA_PAGE_OFFSET; rewrite zlen_write, Hh by lia; unfold BF_TREE_META_SIZE; lia).
  assert (∀ off b, stored v4 off b → has f off b) as Hkeep.
  { intros off b (H1 & H2 & H3). apply write_keeps; [done| |done]. right. rewrite Hh. unfold META_DATA_PAGE_OFFSET, BF_TREE_META_SIZE. lia. }
  assert (∀ l a, vector_at v4 l a → l ≠ [] → has f a.1 (entries l)) as Hvec by (intros l a (_ & _ & H1) H2; auto).
  exists (data_reset (set_vfs d (mkVfs f (offset_alloc v4)))), m. cbv zeta. split_and!.
  - unfold finalize. rewrite Hm. ret_step. cbv iota. rewrite Hdisk. rewrite by_page_id_spec.
    2:{ apply Forall_forall. intros [k o] Hin%(hash_elem hash_order Hhash). by apply Hid. }
    ret_step. fold lb. rewrite assert_true by (apply Z.leb_le; lia). ret_step. ret_step. rewrite R1. ret_step. cbv iota beta. rewrite R2. ret_step. cbv iota beta. rewrite R3. ret_step. cbv iota beta. rewrite R4. by ret_step.
  - pose proof V1 as (S1 & O1 & _). pose proof V2 as (S2 & O2 & _). pose proof V3 as (S3 & O3 & _). pose proof V4 as (S4 & O4 & _). cbn [file vfs data_reset set_vfs].
    split; try done; try (by apply Hvec); [|rewrite Hlen; symmetry; exact Hend|by rewrite Hlen].
    assert (∃ rest, read_at f 0 (replicate (Z.to_nat DISK_PAGE_SIZE) 0) = h ++ rest) as [rest ->].
    { destruct (write_has (file v4) META_DATA_PAGE_OFFSET h ltac:(done)) as (_ & _ & Hhead). fold f in Hhead. rewrite Hh in Hhead.
      exists (sub_bytes f (0 + 512) 3584). rewrite <- Hhead. unfold META_DATA_PAGE_OFFSET, BF_TREE_META_SIZE. rewrite <- (sub_app f 0 512 3584) by lia.
      apply read_has; [|rewrite zlen_sub by lia; done]. split; [done|]. rewrite zlen_sub by lia. split; [lia|done]. }
    apply header_roundtrip; try done. pose proof Hcfg as Hc. unfold config_words in Hc. repeat (apply Forall_cons in Hc as [? Hc]).
    rewrite hash_length in S1, S2, S3. rewrite Hlb in S4. unfold header_words, m, header_of.
    cbn [m_root_id inner_offset inner_size mini_offset mini_size mini_size_offset mini_size_size base_offset base_size file_size leaf_page_num m_cb_size_byte m_snapshot_version
      m_read_promotion_rate m_scan_promotion_rate m_cb_min_record_size m_cb_max_record_size m_leaf_page_size m_cb_max_key_len m_max_fence_len m_max_mini_page_size].
    rewrite S1, S2, S3, S4, Hend, Hlb. repeat (apply Forall_cons_2; [lia|]). done.
  - by eexists _, _, _, _, _, _.
  - intros off b Hst. apply Hkeep. by apply (gr_keeps _ _ _ Hg).
  - done.
Qed.
End finalize.
