(* ===== verification/SnapshotSweep.v ===== *)
(** The sweep of a snapshot (SnapshotTree.v): on a tree of old pages it visits every inner node and every leaf, and
    a copy of each is in the file. *)
From stdpp Require Import base numbers list sorting option gmap fin_maps.
From Stdlib Require Import ZArith Lia.
From S2P Require Import Prelude Bits NodeMeta PageLayout InnerNode InnerRepr InnerSearch InnerInsert InnerSplit InnerTheorems LeafMeta LeafNode LeafOps Entries LeafLayout LeafRepr LeafSplit MergeSplit SizeClasses Config CircularBuffer StateError Storage LeafEntry EntryInv EntryLeaf EntryMerge TreeLeaves Tree TreeShape TreeInv SnapshotMgr SnapshotFile SnapshotFormat SnapshotMerge SnapshotTree.

(** ** What is copied *)

(** The fields of an inner node are machine integers. *)
Record node_fields (n : InnerNode) : Prop := {
  nf_lock : 0 <= version_lock n < 2 ^ 64;
  nf_disk : 0 <= disk_offset n < 2 ^ 64;
  nf_version : 0 <= InnerNode.snapshot_version n < 2 ^ 64;
}.

(** Pages of the version [v] or an older one. *)
Definition old_leaf (v : Z) (n : LeafNode) : Prop := leaf_fields n ∧ LeafOps.get_clean_snapshot_version n <= v.
Definition old_node (v : Z) (n : InnerNode) : Prop := node_fields n ∧ InnerNode.get_clean_snapshot_version n <= v.

(** The copies [l] of the pages with the images [P], which have been written while the file grew from [v] to [v']. *)
Record copies (v v' : StdVfs) (P : Z → bytes → Prop) (l : list (Z * Z)) : Prop := {
  cp_stored : Forall (λ e, ∃ b, P e.1 b ∧ stored v' e.2 b) l;
  cp_range : Forall (λ e, offset_alloc v <= e.2 < offset_alloc v') l;
  cp_apart : NoDup l.*2;
}.

Lemma copies_nil v v' P : copies v v' P [].
Proof. split; constructor. Qed.

Lemma copies_grown k v v' v'' P l : copies v v' P l → grown k v' v'' → copies v v'' P l.
Proof.
  intros [H1 H2 H3] Hg. pose proof (gr_next _ _ _ Hg). split; [| |done].
  - eapply Forall_impl; [exact H1|]. intros e (b & Hb & Hs). exists b. split; [done|]. by apply (gr_keeps _ _ _ Hg).
  - eapply Forall_impl; [exact H2|]. cbn. lia.
Qed.

Lemma copies_later k v v' v'' P l : grown k v v' → copies v' v'' P l → copies v v'' P l.
Proof. intros Hg [H1 H2 H3]. pose proof (gr_next _ _ _ Hg). split; [done| |done]. eapply Forall_impl; [exact H2|]. cbn. lia. Qed.

Lemma copies_app k k' v v' v'' P l l' : copies v v' P l → copies v' v'' P l' → grown k v v' → grown k' v' v'' → copies v v'' P (l ++ l').
Proof.
  intros H H' Hg Hg'. pose proof (copies_grown _ _ _ _ _ _ H Hg') as [H1 H2 H3]. pose proof (copies_later _ _ _ _ _ _ Hg H') as [H1' H2' H3'].
  split; [by apply Forall_app|by apply Forall_app|]. rewrite fmap_app. apply NoDup_app. split; [done|]. split; [|done].
  intros o Ho Ho'. apply list_elem_of_fmap in Ho as (e & -> & He). apply list_elem_of_fmap in Ho' as (e' & Heq & He').
  apply (proj1 (Forall_forall _ _) (cp_range _ _ _ _ H)) in He. apply (proj1 (Forall_forall _ _) (cp_range _ _ _ _ H')) in He'. lia.
Qed.

(** A page that has just been copied. *)
Lemma copy_page d (P : Z → bytes → Prop) b size k : vfs_ok (vfs d) → zlen b = size → 0 < size → P k b →
  ∃ v', snapshot_page d b size = (offset_alloc (vfs d), set_vfs d v') ∧ grown size (vfs d) v' ∧ copies (vfs d) v' P [(k, offset_alloc (vfs d))].
Proof.
  intros Hv Hb Hs HP. destruct (snapshot_page_spec d b size Hv Hb) as (v' & H1 & H2 & H3 & H4). exists v'. split; [done|]. split; [done|].
  split; [|apply Forall_singleton; cbn; lia|apply NoDup_singleton]. apply Forall_singleton. by exists b.
Qed.

(** What a part of the sweep has copied, and the file. *)
Definition joined (w a : sweep_mappings) : sweep_mappings :=
  mkSweep (sweep_inner w ++ sweep_inner a) (sweep_mini w ++ sweep_mini a) (sweep_mini_size w ++ sweep_mini_size a) (sweep_base w ++ sweep_base a).
Definition after (a : sweep_mappings) (vf : StdVfs) (st : sweep_mappings * SnapshotData) : sweep_mappings * SnapshotData :=
  (joined st.1 a, set_vfs st.2 vf).
Definition no_copies : sweep_mappings := mkSweep [] [] [] [].
Definition inner_only (l : list (Z * Z)) : sweep_mappings := mkSweep l [] [] [].

Lemma after_again a a' v v' st : after a' v' (after a v st) = after (joined a a') v' st.
Proof. unfold after, joined. cbn. by rewrite <- !app_assoc. Qed.

Lemma after_none st : after no_copies (vfs st.2) st = st.
Proof. destruct st as [[] []]. unfold after, joined. cbn. by rewrite !app_nil_r. Qed.

Lemma children_spec n r0 rs : IRepr n r0 rs → get_child_iter n = Ret (map ir_child (r0 :: rs)).
Proof.
  intros HR. pose proof (inner_count _ _ _ HR) as Hc. pose proof (playout_fits _ _ _ (ir_layout _ _ _ HR)) as (_ & _ & Hmax). rewrite (inner_slots_len r0 rs) in Hmax.
  unfold get_child_iter. replace (InnerNode.count n) with (zlen (map ir_child (r0 :: rs))) by (unfold zlen in *; rewrite length_map; cbn [length]; lia).
  apply mapM_seqZ. intros j c Hj. rewrite list_lookup_fmap in Hj. destruct ((r0 :: rs) !! j) as [r|] eqn:Hr; [|done]. injection Hj as <-.
  pose proof (lookup_lt_Some _ _ _ Hr) as Hlt. cbn [length] in Hlt. unfold U16, zlen in *. rewrite Z.add_0_l, as_u16_id by (unfold U16; lia).
  rewrite (inner_get _ _ _ HR j r Hr). ret_step. by apply (inner_value _ _ _ HR j).
Qed.

Section inner.
Context {B T W F : Type} `{HPB : PageBuffer B} `{HPM : PageMap T} `{HWL : WriteLog W} `{HSN : StorageNew B T F}.
Context (pad : Z → Z → bytes).
Hypothesis Hpad : ∀ i n, 0 <= n → zlen (pad i n) = n.
Abbreviation tree := (BfTree B T W).
Context (t : tree) (v : Z).
Abbreviation ns := (inner_nodes t).
Hypothesis Hold : ∀ ptr n, ns !! ptr = Some n → old_node v n.

Definition node_image (ptr : Z) (b : bytes) : Prop := ∃ n, ns !! ptr = Some n ∧ b = as_slice (pad ptr 2) n.

Lemma node_image_length n r0 rs p : IRepr n r0 rs → zlen p = 2 → zlen (as_slice p n) = INNER_NODE_SIZE.
Proof.
  intros HR Hp. destruct (repr_raw_ok _ _ _ HR) as [Hd _]. unfold as_slice. rewrite !zlen_app, Hp, Hd. unfold zlen. by rewrite !length_le_bytes.
Qed.

Lemma sweep_inner_node_spec ptr n r0 rs st : ns !! ptr = Some n → IRepr n r0 rs → vfs_ok (vfs st.2) →
  ∃ vf l, sweep_inner_node pad t (v + 1) ptr st = Ret (true, after (inner_only l) vf st) ∧
    grown INNER_NODE_SIZE (vfs st.2) vf ∧ copies (vfs st.2) vf node_image l ∧ l.*1 = [ptr].
Proof.
  intros Hn HR Hv. destruct (Hold ptr n Hn) as [Hf Hver].
  destruct (copy_page st.2 node_image (as_slice (pad ptr 2) n) INNER_NODE_SIZE ptr Hv) as (vf & Hrun & Hg & Hc); [apply (node_image_length n r0 rs); [done|by apply Hpad]|done|by exists n|].
  exists vf, [(ptr, offset_alloc (vfs st.2))]. split_and!; try done.
  unfold sweep_inner_node, node_at. rewrite Hn. cbn [unwrap]. ret_step. unfold older_node. zcase (InnerNode.get_clean_snapshot_version n <? v + 1); [|lia]. rewrite Hrun.
  unfold after, joined, add_inner. cbn. by rewrite !app_nil_r.
Qed.

Definition infos (k : Z) (L : level) : list NodeInfo := map (λ x, InnerInfo k (pid_value x.2)) L.

Lemma infos_children k (L : level) : Forall (λ x, ∃ ptr, x.2 = from_pointer ptr ∧ 0 <= ptr < 2 ^ 62) L →
  mapM (λ c, NodeInfo_new k c false) (map snd L) = Ret (infos k L).
Proof.
  intros HL. apply mapM_map_fmap. intros x Hx. apply (proj1 (Forall_forall _ _) HL) in Hx as (ptr & -> & Hb). unfold NodeInfo_new.
  rewrite (proj2 (get_root_page_inner ptr Hb)). by ret_step.
Qed.

(** Visiting the nodes of a level: their children come next. *)
Lemma sweep_level (b : bool) k L : ∀ L' q st fuel, expands ns b L L' → vfs_ok (vfs st.2) →
  (b = false → Forall (λ x, ∃ ptr, x.2 = from_pointer ptr ∧ 0 <= ptr < 2 ^ 62) L') →
  ∃ l vf, sweep_nodes pad t (v + 1) (infos k L ++ q) st (length L + fuel) =
      sweep_nodes pad t (v + 1) (q ++ if b then [] else infos (k + 1) L') (after (inner_only l) vf st) fuel ∧
    grown (INNER_NODE_SIZE * zlen L) (vfs st.2) vf ∧ copies (vfs st.2) vf node_image l ∧ l.*1 = map (pid_value ∘ snd) L.
Proof.
  induction L as [|x L IH]; intros L' q st fuel He Hv Hin.
  { exists [], (vfs st.2). cbn in He. subst L'. cbn [infos map app length Nat.add]. change (inner_only []) with no_copies. rewrite after_none.
    split; [by destruct b; rewrite ?app_nil_r|]. split; [by apply grown_refl|]. split; [apply copies_nil|done]. }
  destruct He as (cs & R & -> & (ptr & n & r0 & rs & Hp & Hr & Hn & Hok & Hleaf & ->) & HR). pose proof (no_repr _ _ _ Hok) as Hrep.
  destruct (sweep_inner_node_spec ptr n r0 rs st Hn Hrep Hv) as (v1 & l1 & Hrun1 & Hg1 & Hc1 & Hk1).
  set (cs := (x.1, ir_child r0) :: map ir_pair rs) in *.
  destruct (IH R (q ++ if b then [] else infos (k + 1) cs) (after (inner_only l1) v1 st) fuel HR (gr_ok _ _ _ Hg1)) as (l2 & vf & Hrun & Hg & Hc & Hkeys).
  { intros Hb. by apply Forall_app in Hin as [_ ?]. }
  exists (l1 ++ l2), vf. split; [|split; [|split]].
  - cbn [infos map app length Nat.add sweep_nodes BfsVisitor_next]. rewrite Hp. cbn [pid_value from_pointer PageID_new]. unfold node_at. rewrite Hn. cbn [unwrap]. ret_step.
    rewrite Hleaf. assert ((if true && b then Ret (Some (InnerInfo k ptr, infos k L ++ q))
      else children ← get_child_iter n; infos0 ← mapM (λ c, NodeInfo_new (k + 1) c b) children; Ret (Some (InnerInfo k ptr, (infos k L ++ q) ++ infos0))) =
      Ret (Some (InnerInfo k ptr, infos k L ++ q ++ if b then [] else infos (k + 1) cs))) as Hnext.
    { destruct b; cbn [andb]; [by rewrite app_nil_r|]. rewrite (children_spec _ _ _ Hrep). ret_step.
      assert (map ir_child (r0 :: rs) = map snd cs) as -> by (unfold cs; cbn; f_equal; rewrite map_map; by apply map_ext).
      rewrite infos_children by by (apply Forall_app in Hin as [? _]). ret_step. by rewrite <- app_assoc. }
    unfold infos in Hnext |- *. rewrite Hnext. ret_step. unfold sweep_node. rewrite Hrun1. ret_step. ret_step. cbn [snd]. unfold infos in Hrun. rewrite Hrun. rewrite <- app_assoc.
    replace ((if b then [] else map (λ x0 : bytes * PageID, InnerInfo (k + 1) (pid_value x0.2)) cs) ++ (if b then [] else map (λ x0 : bytes * PageID, InnerInfo (k + 1) (pid_value x0.2)) R))
      with (if b then [] else map (λ x0 : bytes * PageID, InnerInfo (k + 1) (pid_value x0.2)) (cs ++ R)) by (destruct b; [done|]; by rewrite map_app).
    by rewrite after_again.
  - eapply file_grown_trans; [exact Hg1|exact Hg|]. rewrite zlen_cons. lia.
  - by eapply copies_app.
  - rewrite fmap_app, Hk1, Hkeys. cbn. by rewrite Hp.
Qed.

Lemma expands_pointers b L L' : expands ns b L L' → Forall (λ x, ∃ ptr, x.2 = from_pointer ptr ∧ 0 <= ptr < 2 ^ 62) L.
Proof.
  revert L'. induction L as [|x L IH]; intros L'; [constructor|]. cbn. intros (cs & R & _ & (ptr & n & r0 & rs & Hp & Hr & _) & HR).
  constructor; [by exists ptr|by eapply IH].
Qed.

(** The levels from [h] on. *)
Lemma sweep_levels root lv n : ∀ h L st fuel, shape ns root lv → lv !! h = Some L → length lv = (2 + h + n)%nat → vfs_ok (vfs st.2) →
  let R := concat (drop h (take (pred (length lv)) lv)) in
  ∃ l vf, sweep_nodes pad t (v + 1) (infos (Z.of_nat h) L) st (length R + S fuel) = Ret (after (inner_only l) vf st) ∧
    grown (INNER_NODE_SIZE * zlen R) (vfs st.2) vf ∧ copies (vfs st.2) vf node_image l ∧ l.*1 = map (pid_value ∘ snd) R.
Proof.
  induction n as [|n IH]; intros h L st fuel Hs HL Hlen Hv; cbv zeta; destruct (lookup_lt_is_Some_2 lv (S h) ltac:(lia)) as [L' HL'];
    pose proof (sh_step _ _ _ Hs h L L' HL HL') as Hexp; set (inn := take (pred (length lv)) lv);
    (assert (inn !! h = Some L) as Hin by (unfold inn; rewrite lookup_take, decide_True by lia; done));
    rewrite (drop_S inn L h Hin); cbn [concat]; set (R := concat (drop (S h) inn)); rewrite length_app, <- Nat.add_assoc.
  - assert (R = []) as -> by (unfold R, inn; rewrite drop_ge; [done|]; rewrite length_take; lia).
    rewrite bool_decide_eq_true_2 in Hexp by lia. destruct (sweep_level true (Z.of_nat h) L L' [] st (S fuel) Hexp Hv ltac:(done)) as (l & vf & Hrun & Hg & Hc & Hk).
    exists l, vf. rewrite app_nil_r in *. cbn [length Nat.add]. rewrite Hrun. by rewrite app_nil_r.
  - rewrite bool_decide_eq_false_2 in Hexp by lia. destruct (lookup_lt_is_Some_2 lv (S (S h)) ltac:(lia)) as [L'' HL''].
    destruct (sweep_level false (Z.of_nat h) L L' [] st (length R + S fuel) Hexp Hv) as (l1 & v1 & Hrun1 & Hg1 & Hc1 & Hk1).
    { intros _. eapply expands_pointers. by apply (sh_step _ _ _ Hs (S h) L' L''). }
    destruct (IH (S h) L' (after (inner_only l1) v1 st) fuel Hs HL' ltac:(lia) (gr_ok _ _ _ Hg1)) as (l2 & vf & Hrun & Hg & Hc & Hk).
    fold inn in Hrun, Hg, Hk. fold R in Hrun, Hg, Hk. exists (l1 ++ l2), vf. rewrite app_nil_r in Hrun1. split_and!.
    + rewrite Hrun1. cbn [app]. replace (Z.of_nat h + 1) with (Z.of_nat (S h)) by lia. rewrite Hrun. by rewrite after_again.
    + eapply file_grown_trans; [exact Hg1|exact Hg|]. rewrite zlen_app. lia.
    + by eapply copies_app.
    + by rewrite fmap_app, Hk1, Hk, map_app.
Qed.
End inner.

(** ** The leaves *)

(** The numbers of the pages in the mappings. *)
Definition raw_id (i : nat) : Z := pid_raw (from_id (Z.of_nat i)).
Arguments raw_id : simpl never.

Section leaves.
Context {B T W F : Type} {RB : RecordBound} `{HPB : PageBuffer B} `{HBL : !PageBufferLaws B} `{HPM : PageMap T} `{HML : !PageMapLaws T}
  `{HWL : WriteLog W} `{HSN : StorageNew B T F}.
Context (mem : memory) (cfg : @Config F) (front : list Z) (mini : Z) (t : BfTree B T W) (ls : list leaf) (locs : list PageLocation) (v : Z).
Abbreviation s := (Tree.storage t).
Abbreviation base_page lf := (vfs_read mem s (lf_offset lf)).
Hypothesis Hdisk : cache_only cfg = false.
Hypothesis Hlist : map_list (page_table s) locs.
Hypothesis Hat : Forall2 (leaf_at mem cfg front mini s) ls locs.
Hypothesis Hbase : Forall (λ lf, old_leaf v (base_page lf)) ls.
Hypothesis Hmini : ∀ ptr n, owns s ptr Live n → old_leaf v n.
Hypothesis Hfull : ∀ i ptr, (i < length ls)%nat → map_get (page_table s) (Z.of_nat i) ≠ Ret (FullPage ptr).

Definition base_image (k : Z) (b : bytes) : Prop := ∃ i lf, k = raw_id i ∧ ls !! i = Some lf ∧ b = leaf_image (base_page lf).
Definition mini_page (i : nat) (n : LeafNode) : Prop := ∃ ptr, locs !! i = Some (Mini ptr) ∧ owns s ptr Live n.
Definition mini_image (k : Z) (b : bytes) : Prop := ∃ i n, k = raw_id i ∧ mini_page i n ∧ b = leaf_image n.
Definition mini_sized (k z : Z) : Prop := ∃ i n, k = raw_id i ∧ mini_page i n ∧ z = node_size (LeafNode.meta n).

(** What is copied of the leaves [ix]. *)
Record leaf_copies (v0 v1 : StdVfs) (a : sweep_mappings) (ix : list nat) : Prop := {
  lc_inner : sweep_inner a = [];
  lc_base : copies v0 v1 base_image (sweep_base a);
  lc_base_keys : (sweep_base a).*1 = map raw_id ix;
  lc_mini : copies v0 v1 mini_image (sweep_mini a);
  lc_mini_keys : ∀ i n, i ∈ ix → mini_page i n → raw_id i ∈ (sweep_mini a).*1;
  lc_sizes : (sweep_mini_size a).*1 = (sweep_mini a).*1 ∧ Forall (λ e, mini_sized e.1 e.2) (sweep_mini_size a);
}.

Lemma leaf_copies_nil v0 v1 : leaf_copies v0 v1 no_copies [].
Proof. split; try done; [apply copies_nil|apply copies_nil|by intros i n ?%elem_of_nil]. Qed.

Lemma leaf_copies_app k k' v0 v1 v2 a a' ix ix' : grown k v0 v1 → grown k' v1 v2 →
  leaf_copies v0 v1 a ix → leaf_copies v1 v2 a' ix' → leaf_copies v0 v2 (joined a a') (ix ++ ix').
Proof.
  intros Hg Hg' [H1 H2 H3 H4 H5 [H6 H7]] [H1' H2' H3' H4' H5' [H6' H7']]. split; cbn.
  - by rewrite H1, H1'.
  - by eapply copies_app.
  - by rewrite fmap_app, H3, H3', map_app.
  - by eapply copies_app.
  - intros i n [Hi|Hi]%elem_of_app Hn; rewrite fmap_app; apply elem_of_app; [left; by eapply H5|right; by eapply H5'].
  - split; [by rewrite !fmap_app, H6, H6'|by apply Forall_app].
Qed.

(** A page that can be copied. *)
Lemma page_copied (P : Z → bytes → Prop) d n p k : Repr n p → old_leaf v n → P k (leaf_image n) → vfs_ok (vfs d) →
  ∃ vf, copy_leaf d n = Ret (offset_alloc (vfs d), set_vfs d vf) ∧ grown MAX_LEAF_PAGE_SIZE (vfs d) vf ∧
    copies (vfs d) vf P [(k, offset_alloc (vfs d))] ∧ older_leaf n (v + 1) = true.
Proof.
  intros HR [Hf Hver] HP Hv. pose proof (re_layout _ _ HR) as [Hs Hd _ _ _ _ _ _ _ _]. change PAGE_HEADER with LEAF_HEADER in *.
  assert (node_size (LeafNode.meta n) = LEAF_HEADER + zlen (LeafNode.data n)) as Hz by lia. destruct (leaf_image_roundtrip n Hf) as [Hl _].
  destruct (copy_page d P (leaf_image n) (node_size (LeafNode.meta n)) k Hv) as (vf & Hrun & Hg & Hc); [lia|unfold LEAF_HEADER in *; lia|done|].
  exists vf. split; [|split; [|split; [done|]]].
  - unfold copy_leaf. rewrite (page_slice_spec n Hf Hz). ret_step. by rewrite Hrun.
  - eapply grown_weaken; [exact Hg|lia].
  - unfold older_leaf. zcase (LeafOps.get_clean_snapshot_version n <? v + 1); [done|lia].
Qed.

Lemma sweep_base_spec i lf st p low high : ls !! i = Some lf → base_inv cfg (base_page lf) p low high → vfs_ok (vfs st.2) →
  ∃ a vf, sweep_base_page (raw_id i) (base_page lf) st = Ret (after a vf st) ∧ grown MAX_LEAF_PAGE_SIZE (vfs st.2) vf ∧
    a = mkSweep [] [] [] (sweep_base a) ∧ (sweep_base a).*1 = [raw_id i] ∧ copies (vfs st.2) vf base_image (sweep_base a) ∧ older_leaf (base_page lf) (v + 1) = true.
Proof.
  intros Hi Hb Hv. destruct (page_copied base_image st.2 (base_page lf) p (raw_id i)) as (vf & Hrun & Hg & Hc & Ho); [apply Hb|by eapply Forall_lookup_1 in Hbase|by exists i, lf|done|].
  eexists (mkSweep [] [] [] [(raw_id i, _)]), vf. split_and!; try done. unfold sweep_base_page. rewrite Hrun. ret_step. unfold after, add_base, joined. cbn. by rewrite !app_nil_r.
Qed.

Lemma sweep_leaf_spec i lf loc st : ls !! i = Some lf → locs !! i = Some loc → vfs_ok (vfs st.2) →
  ∃ a vf, sweep_leaf mem cfg t (v + 1) st (Z.of_nat i) = Ret (after a vf st) ∧ grown (2 * MAX_LEAF_PAGE_SIZE) (vfs st.2) vf ∧ leaf_copies (vfs st.2) vf a [i].
Proof.
  intros Hi Hloc Hv. assert (map_get (page_table s) (Z.of_nat i) = Ret loc) as Hget by (apply (map_get_law _ locs); [done|lia|by rewrite Nat2Z.id]).
  destruct (Forall2_lookup_lr _ _ _ _ _ _ Hat Hi Hloc) as ([_ Hnull] & p & Hb & Hp). unfold sweep_leaf. rewrite Hget. ret_step.
  change (pid_raw (from_id (Z.of_nat i))) with (raw_id i). destruct loc as [ptr|ptr|o|]; cbn in Hp; [|by destruct (Hfull i ptr (lookup_lt_Some _ _ _ Hi))| |done].
  - destruct Hp as (n & q & Ho & Hm & _). rewrite (owns_load _ _ _ _ Ho). ret_step.
    destruct (page_copied mini_image st.2 n q (raw_id i)) as (v1 & Hrun1 & Hg1 & Hc1 & Hold1); [apply Hm|by eapply Hmini|exists i, n; split_and!; [done| |done]; by exists ptr|done|].
    set (a1 := mkSweep [] [(raw_id i, offset_alloc (vfs st.2))] [(raw_id i, node_size (LeafNode.meta n))] []).
    destruct (sweep_base_spec i lf (after a1 v1 st) p _ _ Hi Hb (gr_ok _ _ _ Hg1)) as (a2 & vf & Hrun2 & Hg2 & Ha2 & Hk2 & Hc2 & Hold2).
    exists (joined a1 a2), vf. split; [|split].
    + rewrite Hold1. unfold sweep_mini_page. rewrite Hrun1. ret_step. ret_step. rewrite Hdisk. unfold as_offset. rewrite (mi_next _ _ _ _ _ _ _ _ _ Hm), Hnull. cbn [negb]. ret_step. ret_step.
      change (assert_ true) with (Ret tt). do 2 ret_step. rewrite Hold2. ret_step. rewrite <- (after_again a1 a2 v1 vf st), <- Hrun2. f_equal. unfold after, joined, add_mini. cbn. by rewrite !app_nil_r.
    + eapply file_grown_trans; [exact Hg1|exact Hg2|lia].
    + rewrite Ha2. split; cbn; rewrite ?app_nil_r; try done; [by eapply copies_later|by eapply copies_grown|by intros j m ->%list_elem_of_singleton _; left|].
      split; [done|]. apply Forall_singleton. exists i, n. split_and!; [done| |done]. by exists ptr.
  - destruct Hp as [-> _]. destruct (sweep_base_spec i lf st p _ _ Hi Hb Hv) as (a & vf & Hrun & Hg & Ha & Hk & Hc & Hold).
    exists a, vf. rewrite Hold. split; [done|]. split; [eapply grown_weaken; [exact Hg|unfold MAX_LEAF_PAGE_SIZE; lia]|].
    rewrite Ha in *. split; try done; [apply copies_nil|]. intros j n ->%list_elem_of_singleton (ptr & Hl & _). cbn in *. congruence.
Qed.

Lemma sweep_leaves_from rest j : ∀ st, drop j ls = rest → (j <= length ls)%nat → vfs_ok (vfs st.2) →
  ∃ a vf, foldM (sweep_leaf mem cfg t (v + 1)) st (seqZ (Z.of_nat j) (zlen rest)) = Ret (after a vf st) ∧
    grown (2 * MAX_LEAF_PAGE_SIZE * zlen rest) (vfs st.2) vf ∧ leaf_copies (vfs st.2) vf a (seq j (length rest)).
Proof.
  revert j. induction rest as [|lf rest IH]; intros j st Hr Hj Hv.
  { exists no_copies, (vfs st.2). cbn. rewrite after_none. split; [done|]. split; [by apply grown_refl|apply leaf_copies_nil]. }
  assert (ls !! j = Some lf) as Hlf by (rewrite <- (Nat.add_0_r j), <- lookup_drop, Hr; done). pose proof (lookup_lt_Some _ _ _ Hlf).
  destruct (lookup_lt_is_Some_2 locs j) as [loc Hloc]; [by rewrite <- (Forall2_length _ _ _ Hat)|].
  destruct (sweep_leaf_spec j lf loc st Hlf Hloc Hv) as (a1 & v1 & Hrun1 & Hg1 & Hc1).
  destruct (IH (S j) (after a1 v1 st)) as (a2 & vf & Hrun2 & Hg2 & Hc2); [rewrite (drop_S ls lf j Hlf) in Hr; by injection Hr|lia|apply (gr_ok _ _ _ Hg1)|].
  exists (joined a1 a2), vf. split; [|split].
  - rewrite zlen_cons, seqZ_cons by (pose proof (zlen_nonneg rest); lia). cbn [foldM]. rewrite Hrun1. ret_step.
    replace (Z.succ (Z.of_nat j)) with (Z.of_nat (S j)) by lia. replace (Z.pred (1 + zlen rest)) with (zlen rest) by lia. by rewrite Hrun2, after_again.
  - eapply file_grown_trans; [exact Hg1|exact Hg2|]. rewrite zlen_cons. lia.
  - cbn [length seq]. by apply (leaf_copies_app _ _ _ _ _ _ _ [j] _ Hg1 Hg2).
Qed.
End leaves.

(** ** The whole tree *)

(** What is known of a storage that has been made anew: [new_table] says for how many pages a table can be made, and
    [new_buffer] from which configurations a buffer. *)
Class StorageNewLaws (B T F : Type) `{PageBuffer B} `{!PageBufferLaws B} `{PageMap T} `{!PageMapLaws T} `{StorageNew B T F} := {
  new_table : nat → Prop;
  new_buffer : Config F → Prop;
  next_id_law t l : map_list t l → table_next_id t = zlen l;
  table_of_law l : new_table (length l) →
    ∃ t, table_of (zip (seqZ 0 (zlen l)) l) = Ret t ∧ map_list t l ∧ ∀ n, new_table (length l + n) → map_room t n;
  buffer_of_law cfg : new_buffer cfg →
    ∃ b, buffer_of cfg = Ret b ∧ buf_inv b ∧ (∀ p, buf_owner b p = None) ∧
      ∀ l, create_mem_page_size_classes (cb_min_record_size cfg) (cb_max_record_size cfg) (leaf_page_size cfg) (max_fence_len cfg) (cache_only cfg) = Ret l →
        Forall (buf_serves b) l;
}.

Section tree.
Context {B T W F : Type} {RB : RecordBound} `{HPB : PageBuffer B} `{HBL : !PageBufferLaws B} `{HPM : PageMap T} `{HML : !PageMapLaws T}
  `{HWL : WriteLog W} `{HLL : !WriteLogLaws W} `{HSN : StorageNew B T F} `{HSL : !StorageNewLaws B T F}.
Context (mem : memory) (cfg : @Config F) (front : list Z) (mini : Z) (pad : Z → Z → bytes).
Hypothesis Hpad : ∀ i n, 0 <= n → zlen (pad i n) = n.
Hypothesis Hdisk : cache_only cfg = false.
Abbreviation tree := (BfTree B T W).
Implicit Types (t : tree).

(** A tree that the sweep copies as it is: pages of old versions, and no full pages. *)
Record quiet (v : Z) t (ls : list leaf) : Prop := {
  qu_nodes : ∀ ptr n, inner_nodes t !! ptr = Some n → old_node v n;
  qu_bases : Forall (λ lf, old_leaf v (vfs_read mem (storage t) (lf_offset lf))) ls;
  qu_minis : ∀ ptr n, owns (storage t) ptr Live n → old_leaf v n;
  qu_full : ∀ i ptr, (i < length ls)%nat → map_get (page_table (storage t)) (Z.of_nat i) ≠ Ret (FullPage ptr);
}.

Context (t : tree) (ls : list leaf) (locs : list PageLocation) (lv : list level) (m : bytes → option bytes) (v : Z).
Hypothesis Htree : tree_at mem cfg front mini [] t ls lv m.
Hypothesis Hquiet : quiet v t ls.
Hypothesis Hlist : map_list (page_table (storage t)) locs.
Hypothesis Hat : Forall2 (leaf_at mem cfg front mini (storage t)) ls locs.
Abbreviation node_image := (node_image pad t).
Abbreviation leaf_copies := (leaf_copies mem t ls locs).

(** The root is copied and marked. *)
Lemma sweep_root_spec st : vfs_ok (vfs st.2) → root_id st.2 = 0 →
  ∃ li al ix vf, sweep_root mem cfg pad t (v + 1) st =
      Ret (joined st.1 (joined (inner_only li) al), set_root_id (set_vfs st.2 vf) (pid_raw (root_page t).1)) ∧
    grown MAX_LEAF_PAGE_SIZE (vfs st.2) vf ∧ copies (vfs st.2) vf node_image li ∧ li.*1 ⊆ map pid_value (inner_ids lv) ∧ leaf_copies (vfs st.2) vf al ix.
Proof.
  intros Hv Hr. pose proof Htree as [Hl Hs Hk (L & HL & Htile & _) Hone _]. pose proof (sh_root _ _ _ Hs) as Hroot.
  unfold sweep_root. destruct (root_page t) as [rid is_leaf] eqn:Hrp. cbn [fst snd] in *. destruct (decide (length lv = 1%nat)) as [H1|H1].
  - rewrite bool_decide_eq_true_2 in Hk by done. subst is_leaf. rewrite H1 in HL. cbn [pred] in HL. rewrite Hroot in HL. injection HL as <-.
    destruct Htile as [(i & lf & -> & Hi & Hlf & _) _]. destruct (Forall2_lookup_l _ _ _ _ _ Hat Hlf) as (loc & Hloc & (Hoff & p & Hb & Hp)).
    destruct (sweep_base_spec mem cfg t ls v (qu_bases _ _ _ Hquiet) i lf st p _ _ Hlf Hb Hv) as (a & vf & Hrun & Hg & Ha & Hkey & Hc & Hold).
    exists [], a, [i], vf. split; [|split; [done|split; [apply copies_nil|split; [by intros k ?%elem_of_nil|]]]].
    + unfold sweep_root_leaf. rewrite as_id_from_id by lia. ret_step. rewrite (map_get_law _ locs _ loc) by (done || lia || by rewrite Nat2Z.id). ret_step.
      destruct loc as [ptr|ptr|o|]; cbn in Hp; [| | |done].
      * destruct Hp as (n & q & [_ Ho] & _). by destruct (Hone H1 ptr).
      * by destruct (qu_full _ _ _ Hquiet i ptr (lookup_lt_Some _ _ _ Hlf)); apply (map_get_law _ locs); [done|lia|rewrite Nat2Z.id].
      * destruct Hp as [-> _]. rewrite Hold. fold (raw_id i). rewrite Hrun. ret_step. ret_step. unfold mark_root, snapshot_root_page. cbn. rewrite Hr. cbn. by ret_step.
    + rewrite Ha in *. split; try done; [apply copies_nil|]. intros j n ->%list_elem_of_singleton (ptr & Hl' & [_ Ho]). by destruct (Hone H1 ptr).
  - rewrite bool_decide_eq_false_2 in Hk by done. subst is_leaf. destruct (lookup_lt_is_Some_2 lv 1) as [L' HL']; [apply lookup_lt_Some in Hroot; lia|].
    destruct (sh_step _ _ _ Hs 0%nat _ _ Hroot HL') as (cs & R & _ & (ptr & n & r0 & rs & Hp & Hr' & Hn & Hok & _) & _). cbn in Hp. subst rid.
    destruct (sweep_inner_node_spec pad Hpad t v (qu_nodes _ _ _ Hquiet) ptr n r0 rs st Hn (no_repr _ _ _ Hok) Hv) as (vf & l & Hrun & Hg & Hc & Hkey).
    exists l, no_copies, [], vf. split; [|split; [eapply grown_weaken; [exact Hg|done]|split; [done|split; [|apply leaf_copies_nil]]]].
    2:{ rewrite Hkey. intros k ->%list_elem_of_singleton. change ptr with (pid_value (from_pointer ptr)). apply list_elem_of_fmap_2. unfold inner_ids.
      destruct lv as [|L0 [|L1 lv']]; [done|done|]. injection Hroot as ->. cbn. left. }
    rewrite (proj2 (get_root_page_inner ptr Hr')). ret_step. rewrite Hrun. ret_step. unfold mark_root, snapshot_root_page. cbn. rewrite Hr. cbn. ret_step.
    unfold joined. cbn. by rewrite !app_nil_r.
Qed.

Definition inner_count_of : nat := length (inner_ids lv).

Lemma sweep_inner_spec st fuel : vfs_ok (vfs st.2) → (S inner_count_of < fuel)%nat →
  ∃ q l vf, BfsVisitor_new t = Ret q ∧ sweep_nodes pad t (v + 1) q st fuel = Ret (after (inner_only l) vf st) ∧
    grown (INNER_NODE_SIZE * Z.of_nat inner_count_of) (vfs st.2) vf ∧ copies (vfs st.2) vf node_image l ∧ l.*1 = map pid_value (inner_ids lv).
Proof.
  intros Hv Hf. pose proof Htree as [Hl Hs Hk _ _ _]. pose proof (sh_root _ _ _ Hs) as Hroot. pose proof (lookup_lt_Some _ _ _ Hroot) as Hlen.
  unfold BfsVisitor_new. destruct (decide (length lv = 1%nat)) as [H1|H1].
  - rewrite Hk, bool_decide_eq_true_2 by done. exists [LeafInfo 0 (root_page t).1], [], (vfs st.2). unfold inner_count_of, inner_ids in *. rewrite H1 in *. cbn [pred take concat map length] in *.
    change (inner_only []) with no_copies. rewrite after_none. split; [done|]. split; [|split; [by apply grown_refl|split; [apply copies_nil|done]]].
    destruct fuel as [|[|fuel]]; [lia|lia|done].
  - destruct (lookup_lt_is_Some_2 lv 1) as [L' HL']; [lia|].
    destruct (sh_step _ _ _ Hs 0%nat _ _ Hroot HL') as (cs & R & _ & (ptr & n & r0 & rs & Hp & Hr' & _) & _). cbn [snd] in Hp.
    destruct (sweep_levels pad Hpad t v (qu_nodes _ _ _ Hquiet) (root_page t).1 lv (length lv - 2) 0 _ st (fuel - S inner_count_of) Hs Hroot ltac:(lia) Hv) as (l & vf & Hrun & Hg & Hc & Hkeys).
    rewrite drop_0 in *. exists (infos 0 [([], (root_page t).1)]), l, vf. rewrite Hk, bool_decide_eq_false_2 by done. unfold NodeInfo_new. rewrite Hp, (proj2 (get_root_page_inner ptr Hr')).
    split; [by repeat ret_step|]. unfold inner_count_of, inner_ids, zlen in *. rewrite map_map, length_map in *. rewrite <- Hp.
    split; [|done]. rewrite <- Hrun. f_equal. lia.
Qed.

Lemma pointers_known x : x ∈ inner_ids lv → ∃ ptr, x = from_pointer ptr ∧ 0 <= ptr < 2 ^ 62 ∧ is_Some (inner_nodes t !! ptr).
Proof.
  intros Hx. pose proof (ta_shape _ _ _ _ _ _ _ _ _ Htree) as Hs. unfold inner_ids in Hx. apply list_elem_of_fmap in Hx as (y & -> & Hy).
  apply list_elem_of_In, in_concat in Hy as (L & HL & Hy). apply list_elem_of_In, list_elem_of_lookup in HL as (h & HL). apply lookup_take_Some in HL as [HL Hh].
  destruct (lookup_lt_is_Some_2 lv (S h) ltac:(lia)) as [L' HL']. apply list_elem_of_In in Hy. apply list_elem_of_split in Hy as (L1 & L2 & ->).
  destruct (expands_mid _ _ _ _ _ _ (sh_step _ _ _ Hs h _ _ HL HL')) as (A & cs & R & _ & _ & (ptr & n & r0 & rs & Hp & Hr & Hn & _) & _).
  exists ptr. split; [done|]. by split; [|exists n].
Qed.

Lemma inner_count_nodes : (inner_count_of <= size (inner_nodes t))%nat.
Proof.
  rewrite <- (size_dom (D := gset Z)). unfold inner_count_of. rewrite <- (length_map pid_value (inner_ids lv)), <- (size_list_to_set (C := gset Z)).
  - apply subseteq_size. intros k Hk. apply elem_of_list_to_set, list_elem_of_fmap in Hk as (x & -> & Hx). apply pointers_known in Hx as (ptr & -> & _ & Hn).
    by apply elem_of_dom.
  - apply NoDup_fmap_2; [by intros [] [] [= ->]|]. apply (sh_ids _ _ _ (ta_shape _ _ _ _ _ _ _ _ _ Htree)).
Qed.

Definition sweep_growth : Z :=
  MAX_LEAF_PAGE_SIZE + INNER_NODE_SIZE * Z.of_nat (size (inner_nodes t)) + 2 * MAX_LEAF_PAGE_SIZE * zlen ls.

Lemma sweep_spec d fuel : vfs_ok (vfs d) → root_id d = 0 → (S (size (inner_nodes t)) < fuel)%nat →
  ∃ li al ix vf, sweep mem cfg pad t (v + 1) (no_copies, d) fuel =
      Ret (zlen ls, (joined (inner_only li) al, set_root_id (set_vfs d vf) (pid_raw (root_page t).1))) ∧
    grown sweep_growth (vfs d) vf ∧ copies (vfs d) vf node_image li ∧ (∀ k, k ∈ li.*1 ↔ k ∈ map pid_value (inner_ids lv)) ∧
    leaf_copies (vfs d) vf al ix ∧ seq 0 (length ls) ⊆ ix.
Proof.
  intros Hv Hr Hf. pose proof inner_count_nodes as Hcount.
  destruct (sweep_root_spec (no_copies, d) Hv Hr) as (l1 & a1 & ix & v1 & R1 & G1 & C1 & K1 & LC1). cbn [fst snd] in *. set (d1 := set_root_id (set_vfs d v1) (pid_raw (root_page t).1)) in *.
  destruct (sweep_inner_spec (joined no_copies (joined (inner_only l1) a1), d1) fuel (gr_ok _ _ _ G1) ltac:(lia)) as (q & l2 & v2 & Q & R2 & G2 & C2 & K2). cbn [fst snd vfs d1 set_root_id set_vfs] in G2, C2.
  set (st2 := after (inner_only l2) v2 _) in R2.
  destruct (sweep_leaves_from mem cfg front mini t ls locs v Hdisk Hlist Hat (qu_bases _ _ _ Hquiet) (qu_minis _ _ _ Hquiet) (qu_full _ _ _ Hquiet) ls 0 st2) as (a3 & v3 & R3 & G3 & LC3);
    [by rewrite drop_0|lia|apply (gr_ok _ _ _ G2)|]. cbn [vfs st2 after snd set_vfs] in G3, LC3.
  exists (l1 ++ l2), (joined a1 a3), (ix ++ seq 0 (length ls)), v3. split; [|split; [|split; [|split; [|split]]]].
  - unfold sweep. rewrite R1. ret_step. rewrite Q. ret_step. rewrite R2. ret_step. rewrite (next_id_law _ locs Hlist).
    assert (zlen locs = zlen ls) as -> by (unfold zlen; by rewrite (Forall2_length _ _ _ Hat)). change (Z.of_nat 0) with 0 in R3. rewrite R3. ret_step.
    destruct LC1 as [Hin1 _ _ _ _ _], LC3 as [Hin3 _ _ _ _ _]. unfold st2, after, joined, d1. cbn. by rewrite Hin1, Hin3, !app_nil_r.
  - eapply file_grown_trans; [exact G1|eapply file_grown_trans; [exact G2|exact G3|reflexivity]|]. unfold sweep_growth, INNER_NODE_SIZE in *. lia.
  - eapply copies_app; [exact C1| |exact G1|by eapply file_grown_trans; [exact G2|exact G3|reflexivity]]. by eapply copies_grown.
  - intros k. rewrite fmap_app, K2, elem_of_app. split; [intros [?|?]; [by apply K1|done]|by right].
  - eapply (leaf_copies_app mem t ls locs _ _ (vfs d) v2 v3); [by eapply file_grown_trans; [exact G1|exact G2|reflexivity]|exact G3| |exact LC3].
    rewrite <- (app_nil_r ix). replace a1 with (joined a1 no_copies) by (unfold joined; cbn; rewrite !app_nil_r; by destruct a1).
    eapply leaf_copies_app; [exact G1|exact G2|exact LC1|apply leaf_copies_nil].
  - intros i Hi. apply elem_of_app. by right.
Qed.
End tree.

(** ** What a snapshot leaves in its file: the pages of the tree, each once, and the mappings that lead to them *)

(** ** Numbers of pages *)
Lemma raw_id_spec i : Z.of_nat i < 2 ^ 62 →
  0 <= raw_id i < 2 ^ 64 ∧ NodeMeta.from_raw (raw_id i) = from_id (Z.of_nat i) ∧ Z.land (raw_id i) (not64 ID_MASK) = Z.of_nat i.
Proof.
  intros Hi. pose proof (as_id_from_id (Z.of_nat i) ltac:(lia)) as Has. unfold as_id in Has. rewrite from_id_is_id in Has. cbn in Has. injection Has as Has.
  split; [|done]. unfold raw_id, pid_raw, from_id. cbn [pid_value PageID_new]. split; [apply Z.lor_nonneg; split; [lia|done]|].
  change ID_MASK with (2 ^ 62). pose proof (Z.add_lor_land (Z.of_nat i) (2 ^ 62)). assert (Z.land (Z.of_nat i) (2 ^ 62) = 0); [|lia].
  apply Z.bits_inj'. intros k Hk. rewrite Z.land_spec, Z.pow2_bits_eqb, Z.bits_0 by lia. destruct (decide (k = 62)) as [->|]; [|rewrite (proj2 (Z.eqb_neq 62 k)) by lia; by rewrite andb_false_r].
  rewrite (Z.bits_above_log2 (Z.of_nat i) 62); [done|lia|]. destruct (decide (Z.of_nat i = 0)) as [->|]; [done|]. apply Z.log2_lt_pow2; lia.
Qed.

Lemma raw_id_inj i j : Z.of_nat i < 2 ^ 62 → Z.of_nat j < 2 ^ 62 → raw_id i = raw_id j → i = j.
Proof. intros Hi Hj He. destruct (raw_id_spec i Hi) as (_ & _ & H1), (raw_id_spec j Hj) as (_ & _ & H2). rewrite He in H1. lia. Qed.

Lemma map_size_list (m : gmap Z Z) (l : list Z) : (∀ k, is_Some (m !! k) → k ∈ l) → (size m <= length l)%nat.
Proof.
  intros H. rewrite <- (size_dom (D := gset Z)). transitivity (size (list_to_set l : gset Z)).
  - apply subseteq_size. intros k Hk%elem_of_dom. by apply elem_of_list_to_set, H.
  - clear. induction l as [|x l IH]; [done|]. cbn. rewrite size_union_alt, size_singleton.
    pose proof (subseteq_size (list_to_set l ∖ {[x]} : gset Z) (list_to_set l)) as Hs. specialize (Hs ltac:(set_solver)). lia.
Qed.

(** ** Sorted mappings *)
Definition base_list (offs : list Z) : list (Z * Z) := zip (map raw_id (seq 0 (length offs))) offs.

Lemma base_list_lookup offs i off : offs !! i = Some off → base_list offs !! i = Some (raw_id i, off).
Proof.
  intros Hi. unfold base_list. apply lookup_zip_Some. split; [|done]. rewrite list_lookup_fmap, lookup_seq_lt by by eapply lookup_lt_Some. done.
Qed.

Lemma base_list_elem offs k off : (k, off) ∈ base_list offs ↔ ∃ i, offs !! i = Some off ∧ k = raw_id i.
Proof.
  split.
  - intros (i & Hi)%list_elem_of_lookup. exists i. unfold base_list in Hi. apply lookup_zip_Some in Hi as [H1 H2]. split; [done|].
    rewrite list_lookup_fmap, lookup_seq_lt in H1 by by eapply lookup_lt_Some. by injection H1.
  - intros (i & Hi & ->). apply (list_elem_of_lookup_2 _ i). by apply base_list_lookup.
Qed.

Global Instance page_le_trans : Transitive page_le.
Proof. intros x y z. unfold page_le. lia. Qed.
Global Instance page_le_total : Total page_le.
Proof. intros x y. unfold page_le. lia. Qed.

Lemma base_list_sorted offs : zlen offs < 2 ^ 62 → StronglySorted page_le (base_list offs).
Proof.
  intros Hn. assert (∀ a n, Z.of_nat (a + n) < 2 ^ 62 → ∀ o, length o = n → StronglySorted page_le (zip (map raw_id (seq a n)) o)) as H.
  2:{ apply H; [unfold zlen in Hn; lia|done]. }
  intros a n. revert a. induction n as [|n IH]; intros a Ha o Ho; [constructor|]. destruct o as [|x o]; [done|]. cbn [seq map zip zip_with]. constructor; [apply IH; [lia|by injection Ho]|].
  apply Forall_forall. intros [k y] (j & Hj)%list_elem_of_lookup. apply lookup_zip_Some in Hj as [Hj _]. rewrite list_lookup_fmap in Hj.
  destruct (seq (S a) n !! j) as [i|] eqn:Hs; [|done]. apply lookup_seq in Hs as [-> Hlt]. injection Hj as <-.
  unfold page_le. cbn [fst]. destruct (raw_id_spec a ltac:(lia)) as (_ & _ & ->), (raw_id_spec (S (a + j)) ltac:(lia)) as (_ & _ & ->). lia.
Qed.

(** The pages of the numbers below a bound in the order of a hash map: the sort brings them in the order of their numbers. *)
Lemma sort_base offs l : zlen offs < 2 ^ 62 → l ≡ₚ base_list offs → merge_sort page_le l = base_list offs.
Proof.
  intros Hn Hp. apply (StronglySorted_unique_strong page_le).
  - intros [k x] [k' y] Hx Hy H1 H2. rewrite merge_sort_Permutation, Hp in Hx. apply base_list_elem in Hx as (i & Hi & ->), Hy as (j & Hj & ->).
    unfold page_le in H1, H2. cbn [fst] in *. pose proof (lookup_lt_Some _ _ _ Hi). pose proof (lookup_lt_Some _ _ _ Hj). unfold zlen in Hn.
    destruct (raw_id_spec i ltac:(lia)) as (_ & _ & E1), (raw_id_spec j ltac:(lia)) as (_ & _ & E2). rewrite E1, E2 in H1, H2. assert (i = j) as -> by lia. congruence.
  - apply StronglySorted_merge_sort; apply _.
  - by apply base_list_sorted.
  - by rewrite merge_sort_Permutation.
Qed.

Lemma nodup_fst_lookup {A} (l : list (Z * A)) k a b : NoDup l.*1 → (k, a) ∈ l → (k, b) ∈ l → a = b.
Proof.
  intros Hnd (i & Hi)%list_elem_of_lookup (j & Hj)%list_elem_of_lookup. assert (i = j) as ->; [|congruence].
  eapply NoDup_lookup; [exact Hnd|rewrite list_lookup_fmap, Hi; done|rewrite list_lookup_fmap, Hj; done].
Qed.

Lemma base_list_nodup offs : zlen offs < 2 ^ 62 → NoDup (base_list offs).
Proof.
  intros Hn. apply (NoDup_fmap_1 fst). unfold base_list. rewrite fst_zip by by rewrite length_map, length_seq.
  apply NoDup_fmap_2_strong; [|apply NoDup_seq]. intros i j Hi%elem_of_seq Hj%elem_of_seq. apply raw_id_inj; unfold zlen in Hn; lia.
Qed.

Lemma first_in k l : k ∈ l.*1 → is_Some (first k l).
Proof. intros Hk. apply not_eq_None_Some. rewrite first_none. auto. Qed.

Lemma join_empty n : mjoin (replicate n ([] : list (Z * Z))) = [].
Proof. induction n; [done|]. by cbn. Qed.

Section saved.
Context {B T W F : Type} {RB : RecordBound} `{HPB : PageBuffer B} `{HBL : !PageBufferLaws B} `{HPM : PageMap T} `{HML : !PageMapLaws T}
  `{HWL : WriteLog W} `{HLL : !WriteLogLaws W} `{HSN : StorageNew B T F} `{HSL : !StorageNewLaws B T F}.
Context (mem : memory) (cfg : @Config F).
Context (to_bits : F → Z) (of_bits : Z → F) (pad : Z → Z → bytes) (hash_order : gmap Z Z → list (Z * Z)).
Hypothesis Hbits : ∀ x, 0 <= to_bits x < 2 ^ 64 ∧ of_bits (to_bits x) = x.
Hypothesis Hpad : ∀ i n, 0 <= n → zlen (pad i n) = n.
Hypothesis Hhash : ∀ m, hash_order m ≡ₚ map_to_list m.
Hypothesis Hdisk : cache_only cfg = false.
Hypothesis Hcfg : Forall (λ z, 0 <= z < 2 ^ 64) (config_words cfg).
Abbreviation tree := (BfTree B T W).
Context (t : tree) (ls : list leaf) (locs : list PageLocation) (lv : list level) (v : Z).
Abbreviation base_page lf := (vfs_read mem (storage t) (lf_offset lf)).

(** Every page is in the file once, at a place of its own: the base pages in the order of their numbers at [offs]. *)
Record saved (f : bytes) (h : BfTreeMeta F) (li lm lz : list (Z * Z)) (offs : list Z) : Prop := {
  sv_finished : finished of_bits f h li lm lz (base_list offs);
  sv_header : ∃ ai am asz ab e k, h = header_of cfg (pid_raw (root_page t).1) v ai am asz ab e k;
  sv_words : words_ok li ∧ words_ok lm ∧ words_ok lz ∧ words_ok (base_list offs);
  sv_inner : ∀ ptr off, (ptr, off) ∈ li → ∃ n, inner_nodes t !! ptr = Some n ∧ has f off (as_slice (pad ptr 2) n);
  sv_inner_all : NoDup li.*1 ∧ ∀ k, k ∈ li.*1 ↔ k ∈ map pid_value (inner_ids lv);
  sv_base : NoDup offs ∧ ∀ off, off ∈ offs → DISK_PAGE_SIZE <= off < 2 ^ 60;
  sv_bases : Forall2 (λ lf off, has f off (leaf_image (base_page lf))) ls offs;
  sv_mini : ∀ k off, (k, off) ∈ lm → ∃ i n, k = raw_id i ∧ mini_page t locs i n ∧ has f off (leaf_image n) ∧ (k, node_size (LeafNode.meta n)) ∈ lz;
  sv_mini_all : NoDup lm.*1 ∧ NoDup lz.*1 ∧ ∀ i n, mini_page t locs i n → raw_id i ∈ lm.*1;
}.

Hypothesis Hlocs : length locs = length ls.
Hypothesis Hsmall : Z.of_nat (size (inner_nodes t) + length ls) < 2 ^ 40.
Hypothesis Hsizes : ∀ i n, mini_page t locs i n → 0 < node_size (LeafNode.meta n) < U16.

(** What the sweep has left is fit to be merged. *)
Section merged.
Context (d : SnapshotData) (li : list (Z * Z)) (al : sweep_mappings) (ix : list nat) (v0 v1 : StdVfs).
Hypothesis Hreset : ∃ v r, d = set_root_id (data_reset (set_vfs d v)) r.
Hypothesis Hal : leaf_copies mem t ls locs v0 v1 al ix.
Hypothesis Hix : seq 0 (length ls) ⊆ ix.
Hypothesis Hend : offset_alloc v1 < 2 ^ 60.
Abbreviation w := (joined (inner_only li) al).

Lemma all_copies : inner_copies d w = li ∧ mini_copies d w = sweep_mini al ∧ mini_sizes d w = sweep_mini_size al ∧ base_copies d w = sweep_base al.
Proof.
  destruct Hreset as (v' & r & ->). unfold inner_copies, mini_copies, mini_sizes, base_copies. cbn -[replicate]. rewrite !join_empty. cbn.
  by rewrite (lc_inner _ _ _ _ _ _ _ _ Hal), app_nil_r.
Qed.

Lemma mini_page_unique i n n' : mini_page t locs i n → mini_page t locs i n' → n = n'.
Proof. intros (p & H1 & [H2 _]) (p' & H1' & [H2' _]). congruence. Qed.

Lemma mini_page_small i n : mini_page t locs i n → (i < length ls)%nat ∧ Z.of_nat i < 2 ^ 40.
Proof. intros (p & H1 & _). apply lookup_lt_Some in H1. lia. Qed.

Lemma sized_elem k z : (k, z) ∈ sweep_mini_size al → mini_sized t locs k z.
Proof. intros Hin. by apply (proj1 (Forall_forall _ _) (proj2 (lc_sizes _ _ _ _ _ _ _ _ Hal))) in Hin. Qed.

Lemma size_of_mini i z : (raw_id i, z) ∈ sweep_mini_size al → ∀ n, mini_page t locs i n → z = node_size (LeafNode.meta n).
Proof.
  intros Hin n Hn. apply sized_elem in Hin as (j & n' & Hk & Hn' & ->).
  destruct (mini_page_small _ _ Hn), (mini_page_small _ _ Hn'). apply raw_id_inj in Hk as ->; [|lia..]. by rewrite (mini_page_unique _ _ _ Hn Hn').
Qed.

Lemma swept_copies_ok : copies_ok cfg d w.
Proof.
  destruct all_copies as (_ & E2 & E3 & E4). pose proof Hal as [_ Hb Hbk Hm Hmk [Hsk Hs]]. split.
  - destruct Hreset as (v' & r & ->). cbn -[replicate]. apply Forall2_replicate. constructor.
  - cbn. apply Forall2_same_length_lookup_2; [by rewrite <- (length_fmap fst), <- Hsk, length_fmap|]. intros i [k o] [k' z] Hi Hi'.
    assert (k = k') as <-. { pose proof (f_equal (lookup i) Hsk) as He. rewrite !list_lookup_fmap, Hi, Hi' in He. by injection He. }
    split; [done|]. pose proof (sized_elem k z (list_elem_of_lookup_2 _ _ _ Hi')) as (j & n & -> & Hn & ->). pose proof (Forall_lookup_1 _ _ _ _ (cp_range _ _ _ _ Hm) Hi) as Ho. cbn [fst snd] in *.
    unfold null_ok, NULL_PAGE_LOCATION_OFFSET. destruct (Hsizes _ _ Hn). zcase (o =? 2 ^ 64 - 1); [lia|]. by apply Z.ltb_lt.
  - intros k z z' Hz Hz'. right. rewrite E3 in Hz, Hz'. pose proof (sized_elem _ _ Hz) as (j & n & -> & Hn & ->).
    symmetry. by apply (size_of_mini j).
  - rewrite Hdisk. intros k Hk. rewrite E2 in Hk. rewrite E4, Hbk. rewrite <- Hsk in Hk. apply list_elem_of_fmap in Hk as ([k' z] & -> & Hz).
    apply sized_elem in Hz as (j & n & -> & Hn & _). cbn [fst]. apply list_elem_of_fmap_2. apply Hix, elem_of_seq. apply mini_page_small in Hn. lia.
Qed.

Context (inner mm sizes bm : gmap Z Z).
Hypothesis Htwin : twin mm sizes.
Hypothesis Hli : copies v0 v1 (node_image pad t) li.
Hypothesis Hmaps : ∀ k, inner !! k = first k (inner_copies d w) ∧ mm !! k = first k (mini_copies d w) ∧
  sizes !! k = first k (mini_sizes d w) ∧ bm !! k = first k (base_copies d w).

Lemma inner_entry ptr off : inner !! ptr = Some off → ∃ n, inner_nodes t !! ptr = Some n ∧ stored v1 off (as_slice (pad ptr 2) n).
Proof.
  intros H. destruct (Hmaps ptr) as (E & _). rewrite (proj1 all_copies) in E. rewrite E in H. apply first_elem in H.
  apply (proj1 (Forall_forall _ _) (cp_stored _ _ _ _ Hli)) in H as (b & (n & Hn & ->) & Hst). by exists n.
Qed.

Lemma base_entry k off : bm !! k = Some off → ∃ i lf, k = raw_id i ∧ ls !! i = Some lf ∧ stored v1 off (leaf_image (base_page lf)).
Proof.
  intros H. destruct (Hmaps k) as (_ & _ & _ & E). destruct all_copies as (_ & _ & _ & E'). rewrite E, E' in H. apply first_elem in H.
  apply (proj1 (Forall_forall _ _) (cp_stored _ _ _ _ (lc_base _ _ _ _ _ _ _ _ Hal))) in H as (b & (i & lf & Hk & Hi & ->) & Hst). by exists i, lf.
Qed.

Lemma mini_entry k off : mm !! k = Some off → ∃ i n, k = raw_id i ∧ mini_page t locs i n ∧ stored v1 off (leaf_image n) ∧ sizes !! k = Some (node_size (LeafNode.meta n)).
Proof.
  intros H. pose proof (Htwin k) as Ht. rewrite H in Ht. destruct (sizes !! k) as [z|] eqn:Hz; [|done]. destruct (Hmaps k) as (_ & E & Ez & _).
  destruct all_copies as (_ & E' & Ez' & _). rewrite E, E' in H. rewrite Ez, Ez' in Hz. apply first_elem in H, Hz.
  apply (proj1 (Forall_forall _ _) (cp_stored _ _ _ _ (lc_mini _ _ _ _ _ _ _ _ Hal))) in H as (b & (i & n & Hk & Hn & ->) & Hst). cbn [fst snd] in *. subst k.
  exists i, n. split_and!; try done. f_equal. by apply (size_of_mini i).
Qed.

Lemma base_known i : (i < length ls)%nat → is_Some (bm !! raw_id i).
Proof.
  intros Hi. destruct (Hmaps (raw_id i)) as (_ & _ & _ & ->). destruct all_copies as (_ & _ & _ & ->). apply first_in. rewrite (lc_base_keys _ _ _ _ _ _ _ _ Hal).
  apply list_elem_of_fmap_2. apply Hix, elem_of_seq. lia.
Qed.

Lemma mini_known i n : mini_page t locs i n → is_Some (mm !! raw_id i).
Proof.
  intros Hn. destruct (Hmaps (raw_id i)) as (_ & -> & _ & _). destruct all_copies as (_ & -> & _ & _). apply first_in. eapply (lc_mini_keys _ _ _ _ _ _ _ _ Hal); [|exact Hn].
  apply Hix, elem_of_seq. apply mini_page_small in Hn. lia.
Qed.

Lemma map_sizes : (size inner <= size (inner_nodes t) ∧ size mm <= length ls ∧ size sizes <= length ls ∧ size bm <= length ls)%nat.
Proof.
  assert (∀ m : gmap Z Z, (∀ k, is_Some (m !! k) → ∃ i, k = raw_id i ∧ (i < length ls)%nat) → (size m <= length ls)%nat) as Hids.
  { intros m Hm. replace (length ls) with (length (map raw_id (seq 0 (length ls)))) by (by rewrite length_map, length_seq). apply map_size_list. intros k (i & -> & Hi)%Hm. apply list_elem_of_fmap_2, elem_of_seq. lia. }
  split_and!.
  - rewrite <- (size_dom (D := gset Z) (inner_nodes t)), <- (size_dom (D := gset Z) inner). apply subseteq_size. intros k [off Hk]%elem_of_dom.
    apply inner_entry in Hk as (n & Hn & _). apply elem_of_dom. by exists n.
  - apply Hids. intros k [off Hk]. apply mini_entry in Hk as (i & n & -> & Hn & _). exists i. split; [done|]. apply (mini_page_small _ _ Hn).
  - rewrite <- (twin_size _ _ Htwin). apply Hids. intros k [off Hk]. apply mini_entry in Hk as (i & n & -> & Hn & _). exists i. split; [done|]. apply (mini_page_small _ _ Hn).
  - apply Hids. intros k [off Hk]. apply base_entry in Hk as (i & lf & -> & Hi & _). exists i. split; [done|]. by apply lookup_lt_Some in Hi.
Qed.

(** The base pages in the order of their numbers. *)
Lemma base_order : ∃ offs, length offs = length ls ∧ (∀ i off, offs !! i = Some off ↔ (i < length ls)%nat ∧ bm !! raw_id i = Some off) ∧
  merge_sort page_le (hash_order bm) = base_list offs.
Proof.
  set (offs := map (λ i, default 0 (bm !! raw_id i)) (seq 0 (length ls))). assert (length offs = length ls) as Hlen by (unfold offs; by rewrite length_map, length_seq).
  assert (∀ i off, offs !! i = Some off ↔ (i < length ls)%nat ∧ bm !! raw_id i = Some off) as Hl.
  { intros i off. unfold offs. rewrite list_lookup_fmap. destruct (decide (i < length ls)%nat) as [Hi|Hi].
    - rewrite lookup_seq_lt by done. cbn. destruct (base_known i Hi) as [o ->]. cbn. by split; [|intros [_ ?]].
    - rewrite lookup_seq_ge by lia. cbn. split; [done|]. intros [? _]. lia. }
  exists offs. split; [done|]. split; [done|]. apply sort_base; [unfold zlen; lia|]. rewrite Hhash. apply NoDup_Permutation; [apply NoDup_map_to_list|apply base_list_nodup; unfold zlen; lia|].
  intros [k off]. rewrite elem_of_map_to_list, base_list_elem. split.
  - intros Hk. destruct (base_entry _ _ Hk) as (i & lf & -> & Hi & _). exists i. split; [|done]. apply Hl. split; [by apply lookup_lt_Some in Hi|done].
  - intros (i & Hi & ->). apply (proj1 (Hl i off) Hi).
Qed.

(** Different pages are at different places. *)
Lemma base_apart k k' off : bm !! k = Some off → bm !! k' = Some off → k = k'.
Proof.
  destruct all_copies as (_ & _ & _ & E). destruct (Hmaps k) as (_ & _ & _ & ->), (Hmaps k') as (_ & _ & _ & ->). rewrite E.
  intros (i & Hi)%first_elem%list_elem_of_lookup (j & Hj)%first_elem%list_elem_of_lookup. assert (i = j) as ->; [|congruence].
  eapply NoDup_lookup; [apply (cp_apart _ _ _ _ (lc_base _ _ _ _ _ _ _ _ Hal))| |]; rewrite list_lookup_fmap, ?Hi, ?Hj; done.
Qed.
End merged.

Lemma hash_nodup (m : gmap Z Z) : NoDup (hash_order m).*1.
Proof. rewrite Hhash. apply NoDup_fst_map_to_list. Qed.

Lemma hash_key (m : gmap Z Z) k : is_Some (m !! k) → k ∈ (hash_order m).*1.
Proof. intros [o Ho]. apply list_elem_of_fmap. exists (k, o). split; [done|]. by apply (hash_elem hash_order Hhash). Qed.

Lemma hash_words (m : gmap Z Z) : (∀ k o, m !! k = Some o → 0 <= k < 2 ^ 64 ∧ 0 <= o < 2 ^ 64) → words_ok (hash_order m).
Proof. intros Hm. apply Forall_forall. intros [k o] Hin%(hash_elem hash_order Hhash). by apply Hm. Qed.

Context (front : list Z) (mini : Z) (m : bytes → option bytes).
Hypothesis Htree : tree_at mem cfg front mini [] t ls lv m.
Hypothesis Hquiet : quiet mem v t ls.
Hypothesis Hlist : map_list (page_table (storage t)) locs.
Hypothesis Hat : Forall2 (leaf_at mem cfg front mini (storage t)) ls locs.
Hypothesis Hptrs : ∀ ptr, is_Some (inner_nodes t !! ptr) → 0 <= ptr < 2 ^ 62.
Hypothesis Hversion : 0 <= v < 2 ^ 64.

Lemma root_word : 0 <= pid_raw (root_page t).1 < 2 ^ 64.
Proof.
  destruct Htree as [_ Hs _ (L & HL & Htile & _) _ _]. pose proof (sh_root _ _ _ Hs) as Hroot. destruct (decide (length lv = 1%nat)) as [H1|H1].
  - rewrite H1 in HL. cbn [pred] in HL. rewrite Hroot in HL. injection HL as <-. destruct Htile as [(i & lf & Hp & Hi & _) _].
    assert ((root_page t).1 = from_id (Z.of_nat i)) as -> by exact Hp. apply (raw_id_spec i Hi).
  - destruct (lookup_lt_is_Some_2 lv 1) as [L' HL']; [apply lookup_lt_Some in Hroot; lia|].
    destruct (sh_step _ _ _ Hs 0%nat _ _ Hroot HL') as (cs & R & _ & (ptr & n & r0 & rs & Hp & Hr & _) & _). cbn [snd] in Hp. rewrite Hp. unfold pid_raw, from_pointer. cbn. lia.
Qed.

Lemma some_leaf : (0 < length ls)%nat.
Proof.
  destruct Htree as [_ Hs _ (L & HL & Htile & Htwo) _ _]. destruct L as [|[low pid] L].
  - pose proof (sh_root _ _ _ Hs) as Hroot. destruct (decide (length lv = 1%nat)) as [H1|H1].
    + rewrite H1 in HL. cbn [pred] in HL. by rewrite Hroot in HL.
    + apply lookup_lt_Some in Hroot. specialize (Htwo ltac:(lia)). cbn in Htwo. lia.
  - destruct Htile as [(i & lf & _ & _ & Hi & _) _]. apply lookup_lt_Some in Hi. lia.
Qed.

Lemma snapshot_tree_spec d fuel : d = data_reset d → (S (size (inner_nodes t)) < fuel)%nat →
  ∃ d' h li lm lz offs, snapshot_tree mem cfg to_bits pad hash_order t v d fuel = Ret d' ∧ d' = data_reset d' ∧ saved (file (vfs d')) h li lm lz offs.
Proof.
  intros Hd Hf. set (d1 := set_vfs d (StdVfs_reset (vfs d))). assert (root_id d1 = 0) as Hr by (unfold d1; by rewrite Hd). pose proof root_word as Hroot.
  destruct (sweep_spec mem cfg front mini pad Hpad Hdisk t ls locs lv m v Htree Hquiet Hlist Hat d1 fuel (reset_ok _) Hr Hf) as (li & al & ix & vf & Hrun & Hg & Hli & Hkeys & Hal & Hix).
  set (d2 := set_root_id (set_vfs d1 vf) (pid_raw (root_page t).1)) in *. change (vfs d1) with (StdVfs_reset (vfs d)) in *. set (v0 := StdVfs_reset (vfs d)) in *.
  assert (offset_alloc vf < 2 ^ 58) as Hend.
  { pose proof (gr_next _ _ _ Hg) as Hn. change (offset_alloc v0) with 4096 in Hn. unfold sweep_growth, MAX_LEAF_PAGE_SIZE, INNER_NODE_SIZE, zlen in Hn. lia. }
  assert (∃ v r, d2 = set_root_id (data_reset (set_vfs d2 v)) r) as Hreset by (exists vf, (pid_raw (root_page t).1); unfold d2, d1; by rewrite Hd).
  pose proof (swept_copies_ok d2 li al ix v0 vf Hreset Hal Hix ltac:(lia)) as Hok. destruct (merge_first hash_order cfg Hhash d2 _ Hok) as (inner & mm & sizes & bm & Hmerge & Htwin & Hmaps).
  pose proof (inner_entry d2 li al ix v0 vf Hreset Hal inner mm sizes bm Hli Hmaps) as Hinner. pose proof (base_entry d2 li al ix v0 vf Hreset Hal inner mm sizes bm Hmaps) as Hbase.
  pose proof (mini_entry d2 li al ix v0 vf Hreset Hal inner mm sizes bm Htwin Hmaps) as Hmini.
  destruct (map_sizes d2 li al ix v0 vf Hreset Hal inner mm sizes bm Htwin Hli Hmaps) as (S1 & S2 & S3 & S4).
  destruct (base_order d2 li al ix v0 vf Hreset Hal Hix inner mm sizes bm Hmaps) as (offs & Hlen & Hoffs & Hsort).
  destruct (finalize_spec to_bits of_bits pad hash_order cfg Hbits Hpad Hhash Hdisk Hcfg d2 v _ (zlen ls) inner mm sizes bm Hmerge (gr_ok _ _ _ Hg)) as (d' & h & Hfin & Hfinished & Hhead & Hkept & Hclean).
  { intros ->. pose proof some_leaf. destruct (lookup_lt_is_Some_2 offs 0 ltac:(lia)) as [off Ho]. by apply Hoffs in Ho as [_ ?]. }
  { unfold zlen. lia. }
  { intros k [o Ho]. apply Hbase in Ho as (i & lf & -> & Hi & _). apply lookup_lt_Some in Hi. destruct (raw_id_spec i ltac:(lia)) as (_ & -> & _). apply from_id_is_id. }
  { exact Hroot. }
  { exact Hversion. }
  { change (vfs d2) with vf. lia. }
  assert (∀ off b, stored vf off b → 0 <= off < 2 ^ 60) as Hplace by (intros off b ((H1 & _) & _ & H3); pose proof (zlen_nonneg b); lia).
  rewrite Hsort in Hfinished. exists d', h, (hash_order inner), (hash_order mm), (hash_order sizes), offs. split; [|split].
  - unfold snapshot_tree. cbv zeta. change (set_vfs d (StdVfs_reset (vfs d))) with d1. fold no_copies. rewrite Hrun. ret_step. by cbv iota beta.
  - done.
  - split; try done.
    + split_and!; [apply hash_words..|].
      * intros k o Ho. apply Hinner in Ho as (n & Hn & Hst). pose proof (Hptrs k ltac:(by exists n)). apply Hplace in Hst. lia.
      * intros k o Ho. apply Hmini in Ho as (i & n & -> & Hn & Hst & _). apply mini_page_small in Hn as [_ Hi]. destruct (raw_id_spec i ltac:(lia)) as [? _]. apply Hplace in Hst. lia.
      * intros k z Hz. pose proof (Htwin k) as Ht. rewrite Hz in Ht. destruct (mm !! k) as [o|] eqn:Ho; [|done]. apply Hmini in Ho as (i & n & -> & Hn & _ & Hz').
        pose proof (Hsizes _ _ Hn). apply mini_page_small in Hn as [_ Hi]. destruct (raw_id_spec i ltac:(lia)) as [? _]. rewrite Hz in Hz'. injection Hz' as ->. unfold U16 in *. lia.
      * apply Forall_forall. intros [k o] (i & Hi & ->)%base_list_elem. apply Hoffs in Hi as [Hi Ho]. apply Hbase in Ho as (? & ? & _ & _ & Hst). destruct (raw_id_spec i ltac:(lia)) as [? _]. apply Hplace in Hst. cbn. lia.
    + intros ptr off Hin%(hash_elem hash_order Hhash). apply Hinner in Hin as (n & Hn & Hst). exists n. auto.
    + split; [apply hash_nodup|]. intros k. rewrite <- Hkeys. pose proof (proj1 (all_copies d2 li al ix v0 vf Hreset Hal)) as Hcopies. split.
      * intros ([k' o] & -> & Hin)%list_elem_of_fmap. apply (hash_elem hash_order Hhash) in Hin. destruct (Hmaps k') as (E & _). rewrite E, Hcopies in Hin. apply first_elem in Hin. by apply (list_elem_of_fmap_2 fst) in Hin.
      * intros Hk. apply hash_key. destruct (Hmaps k) as (-> & _). rewrite Hcopies. by apply first_in.
    + split.
      * apply NoDup_alt. intros i j off Hi Hj. apply Hoffs in Hi as [Hi Hi'], Hj as [Hj Hj']. eapply raw_id_inj; [lia|lia|]. by eapply (base_apart d2 li al ix v0 vf).
      * intros off (i & Hi)%list_elem_of_lookup. apply Hoffs in Hi as [_ Ho]. apply Hbase in Ho as (? & ? & _ & _ & Hst). pose proof (Hplace _ _ Hst). destruct Hst as (_ & ? & _). lia.
    + apply Forall2_same_length_lookup_2; [done|]. intros i lf off Hi Ho. apply Hoffs in Ho as [_ Ho]. apply Hbase in Ho as (j & lf' & Hk & Hj & Hst).
      pose proof (lookup_lt_Some _ _ _ Hi). pose proof (lookup_lt_Some _ _ _ Hj). apply raw_id_inj in Hk as ->; [|lia|lia]. rewrite Hi in Hj. injection Hj as <-. auto.
    + intros k off Hin%(hash_elem hash_order Hhash). apply Hmini in Hin as (i & n & -> & Hn & Hst & Hz). exists i, n. split_and!; [done|done|auto|]. by apply (hash_elem hash_order Hhash).
    + split; [apply hash_nodup|]. split; [apply hash_nodup|]. intros i n Hn. apply hash_key. by eapply (mini_known d2 li al ix v0 vf).
Qed.
End saved.
