(* ===== verification/SnapshotRestore.v ===== *)
(** The recovery of a tree from its snapshot (SnapshotTree.v): the nodes are read level by level and every pointer of the
    snapshot is replaced by that of the new node, the mini pages are placed in a new buffer, and the tree that results
    has the contents of the one that was saved. *)
From stdpp Require Import base numbers list sorting option gmap fin_maps strings.
From Stdlib Require Import ZArith Lia.
From S2P Require Import Prelude Bits NodeMeta PageLayout InnerNode InnerRepr InnerSearch InnerInsert InnerSplit InnerTheorems LeafMeta LeafNode LeafOps Entries LeafLayout LeafRepr LeafSplit MergeSplit SizeClasses Config FreeList CircularBuffer CircularSystem CircularTheorems MappingTable Wal StateError Storage StorageInstances LeafEntry EntryInv EntryLeaf EntryMerge TreeLeaves Tree TreeShape TreeInv WalInstance TreeInit TreeTheorems SnapshotMgr SnapshotFile SnapshotFormat SnapshotMerge SnapshotTree SnapshotSweep.

(** A node with the same records. *)
Definition same_node (n n' : InnerNode) : Prop := InnerNode.meta n' = InnerNode.meta n ∧ InnerNode.data n' = InnerNode.data n.

Lemma same_node_ok n n' r0 rs : same_node n n' → node_ok n r0 rs → node_ok n' r0 rs.
Proof.
  intros [Hm Hd] [[H1 H2 H3 H4 H5] H6 H7 H8]. split; [split|..]; rewrite ?Hm, ?Hd; try done. unfold InnerNode.count in *. by rewrite Hm.
Qed.

Lemma space_keys (l l' : level) : map fst l = map fst l' → space_of l = space_of l'.
Proof.
  revert l'. induction l as [|[k c] l IH]; intros [|[k' c'] l']; try done. cbn [map fst]. intros [= -> Hl]. specialize (IH _ Hl). unfold space_of in *. cbn. lia.
Qed.

(** Redirecting a child keeps a node well formed. *)
Lemma redirect_ok n r0 rs pos child : node_ok n r0 rs → 0 <= pos < InnerNode.count n → pid_ok child →
  ∃ n' r0' rs', update_at_pos n pos child = Ret n' ∧ node_ok n' r0' rs' ∧ InnerNode.meta n' = InnerNode.meta n ∧
    map ir_key rs' = map ir_key rs ∧ map ir_child (r0' :: rs') = <[Z.to_nat pos := child]> (map ir_child (r0 :: rs)).
Proof.
  intros [HR Hs Hk Hf] Hp Hc. destruct (update_at_pos_repr n r0 rs pos child HR Hp Hc) as (n' & r0' & rs' & Hrun & HR' & Hm & _ & Hkeys & Hch).
  exists n', r0', rs'. split; [done|]. split; [|done]. split; [done|..].
  - rewrite Hm, Hs. f_equal. apply space_keys. rewrite !map_map. symmetry. exact Hkeys.
  - rewrite <- (Forall_fmap ir_key (λ k, zlen k <= MAX_KEY_LEN)) in *. change (ir_key <$> rs') with (map ir_key rs'). by rewrite Hkeys.
  - rewrite Hm. unfold InnerNode.count in *. by rewrite Hm.
Qed.

Lemma expands_pointers_at (ns : gmap Z InnerNode) b (L L' : level) z : expands ns b L L' → z ∈ L → ∃ p, z.2 = from_pointer p ∧ is_Some (ns !! p).
Proof.
  intros He Hz. apply list_elem_of_split in Hz as (L1 & L2 & ->). apply expands_mid in He as (A & cs & R & _ & _ & (p & n & _ & _ & Hp & _ & Hn & _) & _). exists p. split; [done|by exists n].
Qed.

Section nodes.
Context (hp : heap) (limit : nat) (pad : Z → Z → bytes).
Hypothesis Hheap : heap_ok hp limit.
Hypothesis Hpad : ∀ i n, 0 <= n → zlen (pad i n) = n.
Context (ns0 : gmap Z InnerNode) (vf : StdVfs) (inner_map : gmap Z Z).
Hypothesis Hfields : ∀ ptr n, ns0 !! ptr = Some n → node_fields n.
Implicit Types (ns : gmap Z InnerNode) (L M : level) (x y : bytes * PageID).

(** The copy of a node is at its place in the file. *)
Definition filed x : Prop := ∃ ptr n off, x.2 = from_pointer ptr ∧ 0 <= ptr < 2 ^ 62 ∧ ns0 !! ptr = Some n ∧ inner_map !! ptr = Some off ∧
  has (file vf) off (as_slice (pad ptr 2) n).

(** [y] is the new node for [x], with the children of the snapshot. *)
Definition pending ns x y : Prop := x.1 = y.1 ∧ ∃ p q n n', x.2 = from_pointer p ∧ y.2 = from_pointer q ∧ 0 <= q < 2 ^ 62 ∧
  ns0 !! p = Some n ∧ ns !! q = Some n' ∧ same_node n n'.

Definition ptrs L : list Z := map (pid_value ∘ snd) L.

Lemma read_node_spec n r0 rs off ptr k buf : ns0 !! k = Some n → node_ok n r0 rs → has (file vf) off (as_slice (pad k 2) n) → zlen buf = INNER_NODE_SIZE →
  read_node hp vf buf off ptr = Ret (as_slice (pad k 2) n, set_lock n 0) ∧ zlen (as_slice (pad k 2) n) = INNER_NODE_SIZE.
Proof.
  intros Hn Hok Hh Hb. destruct (Hfields _ _ Hn) as [F1 F2 F3].
  destruct (image_read (pad k 2) n r0 rs (builder_new ptr (fresh_node hp ptr)) (no_repr _ _ _ Hok) ltac:(by apply Hpad) F1 F2 F3) as [Hl Hbuild].
  split; [|done]. unfold read_node, StdVfs_read. rewrite (read_has _ _ _ _ Hh) by by rewrite Hb, Hl. rewrite Hbuild. by ret_step.
Qed.

Lemma load_copy_spec st x b cs : filed x → node_is ns0 b x cs → zlen (page_buffer st) = INNER_NODE_SIZE → (size (loaded st) < limit)%nat →
  ∃ p n off q buf n', x.2 = from_pointer p ∧ ns0 !! p = Some n ∧ inner_map !! p = Some off ∧ 0 <= p < 2 ^ 62 ∧
    load_copy hp vf st off = Ret (q, mkInnerState buf (<[q := n']> (loaded st)) (resolve_queue st)) ∧ zlen buf = INNER_NODE_SIZE ∧
    loaded st !! q = None ∧ 0 <= q < 2 ^ 62 ∧ same_node n n'.
Proof.
  intros (p & n & off & Hp & Hr & Hn & Hoff & Hh) (p' & n1 & r0 & rs & Hp' & _ & Hn1 & Hok & _) Hb Hsize. rewrite Hp in Hp'. injection Hp' as <-.
  rewrite Hn in Hn1. injection Hn1 as <-. destruct (he_fresh _ _ Hheap _ Hsize) as [Hfree Hq].
  destruct (read_node_spec n r0 rs off (fresh_ptr hp (loaded st)) p (page_buffer st) Hn Hok Hh Hb) as [Hrun Hl].
  exists p, n, off, (fresh_ptr hp (loaded st)), (as_slice (pad p 2) n), (set_disk_offset (set_lock n 0) INVALID_DISK_OFFSET).
  split_and!; try done; try lia. unfold load_copy. rewrite Hrun. by ret_step.
Qed.

Definition known x : Prop := filed x ∧ ∃ b cs, node_is ns0 b x cs.

Lemma pending_frame ns ns' L M : (∀ q, q ∈ ptrs M → is_Some (ns !! q) → ns' !! q = ns !! q) → Forall2 (pending ns) L M → Forall2 (pending ns') L M.
Proof.
  intros Hf HL. induction HL as [|x y L M Hxy HL IH]; constructor.
  - destruct Hxy as (Hk & p & q & n & n' & Hp & Hq & Hr & Hn & Hn' & Hs). split; [done|]. exists p, q, n, n'. split_and!; try done; try lia.
    rewrite Hf; [done| |by exists n']. cbn. rewrite Hq. left.
  - apply IH. intros q Hq. apply Hf. by right.
Qed.

Lemma pending_known ns L M q : Forall2 (pending ns) L M → q ∈ ptrs M → is_Some (ns !! q).
Proof.
  induction 1 as [|x y L M (_ & p & q' & n & n' & _ & Hq & _ & _ & Hn' & _) HL IH]; [by intros ?%elem_of_nil|]. cbn. rewrite Hq.
  intros [->|?]%elem_of_cons; [by exists n'|auto].
Qed.

(** The children of the node at [q] from the position of [rest] on. *)
Lemma resolve_children q rest : ∀ st n r0 rs done,
  loaded st !! q = Some n → node_ok n r0 rs → map ir_child (r0 :: rs) = done ++ map snd rest → Forall known rest →
  zlen (page_buffer st) = INNER_NODE_SIZE → (size (loaded st) + length rest <= limit)%nat →
  ∃ st' n' r0' rs' rest', foldM (resolve_child hp vf inner_map q) st (zip (seqZ (zlen done) (zlen rest)) (map snd rest)) = Ret st' ∧
    loaded st' !! q = Some n' ∧ node_ok n' r0' rs' ∧ InnerNode.meta n' = InnerNode.meta n ∧ map ir_key rs' = map ir_key rs ∧
    map ir_child (r0' :: rs') = done ++ map snd rest' ∧ Forall2 (pending (loaded st')) rest rest' ∧
    resolve_queue st' = resolve_queue st ++ ptrs rest' ∧ NoDup (ptrs rest') ∧ (∀ p, p ∈ ptrs rest' → loaded st !! p = None) ∧
    (∀ p, p ≠ q → is_Some (loaded st !! p) → loaded st' !! p = loaded st !! p) ∧
    size (loaded st') = (size (loaded st) + length rest)%nat ∧ zlen (page_buffer st') = INNER_NODE_SIZE.
Proof.
  induction rest as [|x rest IH]; intros st n r0 rs don Hq Hok Hch Hkn Hb Hsize.
  { exists st, n, r0, rs, []. cbn [ptrs map] in *. rewrite app_nil_r in Hch. rewrite !app_nil_r. do 8 (split; [done || by constructor|]). split; [apply NoDup_nil_2|]. split; [by intros p ?%elem_of_nil|]. split; [done|]. split; [cbn; lia|done]. }
  apply Forall_cons in Hkn as [(Hfil & bb & cs & Hnode) Hkn]. cbn [length] in Hsize.
  destruct (load_copy_spec st x bb cs Hfil Hnode Hb ltac:(lia)) as (p & nx & off & new & buf & nx' & Hp & Hnx & Hoff & Hpr & Hload & Hbuf & Hnone & Hnew & Hsame).
  assert (q ≠ new) as Hqn by (intros ->; congruence).
  assert (zlen don < InnerNode.count n) as Hpos.
  { rewrite (inner_count _ _ _ (no_repr _ _ _ Hok)). apply (f_equal length) in Hch. rewrite length_map, length_app in Hch. unfold zlen. cbn in Hch. lia. }
  destruct (redirect_ok n r0 rs (zlen don) (from_pointer new) Hok ltac:(pose proof (zlen_nonneg don); lia) ltac:(by apply from_pointer_ok)) as (n1 & r01 & rs1 & Hup & Hok1 & Hm1 & Hk1 & Hc1).
  assert (map ir_child (r01 :: rs1) = (don ++ [from_pointer new]) ++ map snd rest) as Hch1.
  { rewrite Hc1, Hch. unfold zlen. rewrite Nat2Z.id. cbn [map]. rewrite insert_app_r_alt, Nat.sub_diag by lia. by rewrite <- app_assoc. }
  set (st1 := mkInnerState buf (<[q := n1]> (<[new := nx']> (loaded st))) (resolve_queue st ++ [new])).
  assert (size (loaded st1) = S (size (loaded st))) as Hs1.
  { cbn. rewrite map_size_insert_Some by (rewrite lookup_insert_ne by done; by exists n). by rewrite map_size_insert_None. }
  destruct (IH st1 n1 r01 rs1 (don ++ [from_pointer new])) as (st' & n' & r0' & rs' & rest' & Hrun & R1 & R2 & R3 & R4 & R5 & R6 & R7 & R8 & R9 & R10 & R11 & R12); try done.
  { apply lookup_insert_eq. }
  { lia. }
  exists st', n', r0', rs', ((x.1, from_pointer new) :: rest'). split_and!; try done; try congruence.
  - rewrite zlen_cons, seqZ_cons by (pose proof (zlen_nonneg rest); lia). cbn [map zip zip_with foldM].
    assert (resolve_child hp vf inner_map q st (zlen don, x.2) = Ret st1) as ->.
    { unfold resolve_child. cbn [fst snd]. rewrite Hp, (proj2 (get_root_page_inner p Hpr)). ret_step. rewrite Hoff. cbn [unwrap]. ret_step. rewrite Hload. ret_step. cbv iota beta.
      cbn [loaded]. rewrite lookup_insert_ne, Hq by done. cbn [unwrap]. ret_step. rewrite Hup. by ret_step. }
    ret_step. rewrite <- Hrun. unfold st1. cbn [page_buffer loaded resolve_queue]. replace (Z.pred (1 + zlen rest)) with (zlen rest) by lia. rewrite zlen_app. by replace (zlen don + zlen [from_pointer new]) with (Z.succ (zlen don)) by (unfold zlen; cbn; lia).
  - rewrite R5, <- app_assoc. done.
  - constructor; [|done]. split; [done|]. exists p, new, nx, nx'. split_and!; try done; try lia. rewrite R10 by (done || (cbn; rewrite lookup_insert_ne, lookup_insert_eq by done; by eexists)).
    cbn. rewrite lookup_insert_ne by done. by rewrite lookup_insert_eq.
  - rewrite R7. cbn. by rewrite <- app_assoc.
  - cbn. constructor; [|done]. intros Hin. apply R9 in Hin. cbn in Hin. rewrite lookup_insert_ne, lookup_insert_eq in Hin by done. done.
  - intros p' [->|Hin]%elem_of_cons; [done|]. apply R9 in Hin. cbn in Hin. destruct (decide (p' = q)) as [->|]; [by rewrite lookup_insert_eq in Hin|]. rewrite lookup_insert_ne in Hin by done.
    destruct (decide (p' = new)) as [->|]; [done|]. by rewrite lookup_insert_ne in Hin.
  - intros p' Hne Hs. assert (p' ≠ new) by (intros ->; by destruct Hs; congruence). rewrite R10; [|done|]; cbn; rewrite !lookup_insert_ne by done; done.
  - rewrite R11, Hs1. cbn. lia.
Qed.

Lemma level_ext (L M : level) : map fst L = map fst M → map snd L = map snd M → L = M.
Proof. revert M. induction L as [|[k c] L IH]; intros [|[k' c'] M]; try done. cbn. intros [= -> H1] [= -> H2]. by rewrite (IH M). Qed.

Lemma pending_keys ns L M : Forall2 (pending ns) L M → map fst L = map fst M.
Proof. induction 1 as [|x y L M [Hk _] HL IH]; [done|]. cbn. by rewrite Hk, IH. Qed.

(** What the steps keep: the nodes that are not in [qs]. *)
Definition kept (qs : list Z) ns ns' : Prop := ∀ p, p ∉ qs → is_Some (ns !! p) → ns' !! p = ns !! p.

(** A node whose children are inner nodes: they are read, and come last in the queue. *)
Lemma resolve_node st x y cs q fuel : pending (loaded st) x y → node_is ns0 false x cs → Forall known cs →
  resolve_queue st = pid_value y.2 :: q → zlen (page_buffer st) = INNER_NODE_SIZE → (size (loaded st) + length cs <= limit)%nat →
  ∃ st' cs', resolve hp vf inner_map st (S fuel) = resolve hp vf inner_map st' fuel ∧ resolve_queue st' = q ++ ptrs cs' ∧
    node_is (loaded st') false y cs' ∧ Forall2 (pending (loaded st')) cs cs' ∧ NoDup (ptrs cs') ∧ (∀ p, p ∈ ptrs cs' → loaded st !! p = None) ∧
    kept [pid_value y.2] (loaded st) (loaded st') ∧ size (loaded st') = (size (loaded st) + length cs)%nat ∧ zlen (page_buffer st') = INNER_NODE_SIZE.
Proof.
  intros (Hxy & p & qq & n & n' & Hp & Hq & Hqr & Hn & Hn' & Hsame) (p1 & n1 & r0 & rs & Hp1 & _ & Hn1 & Hok & Hleaf & ->) Hkn Hqueue Hb Hsize.
  rewrite Hp in Hp1. injection Hp1 as <-. rewrite Hn in Hn1. injection Hn1 as <-. rewrite Hq in *. cbn [pid_value from_pointer PageID_new] in *.
  pose proof (same_node_ok _ _ _ _ Hsame Hok) as Hok'. set (cs := (x.1, ir_child r0) :: map ir_pair rs) in *.
  assert (map ir_child (r0 :: rs) = map snd cs) as Hch by (unfold cs; cbn; f_equal; rewrite map_map; by apply map_ext).
  destruct (resolve_children qq cs (mkInnerState (page_buffer st) (loaded st) q) n' r0 rs []) as (st' & n2 & r0' & rs' & cs' & Hrun & R1 & R2 & R3 & R4 & R5 & R6 & R7 & R8 & R9 & R10 & R11 & R12); try done.
  exists st', cs'. split_and!; try done.
  - cbn [resolve]. rewrite Hqueue. cbn [loaded]. rewrite Hn'. cbn [unwrap]. ret_step. rewrite (proj1 Hsame), Hleaf, (children_spec _ _ _ (no_repr _ _ _ Hok')). ret_step.
    rewrite Hch. assert (zlen (map snd cs) = zlen cs) as -> by (unfold zlen; by rewrite length_map). change (zlen []) with 0 in Hrun. rewrite Hrun. by ret_step.
  - exists qq, n2, r0', rs'. split_and!; try done; try lia; [by rewrite R3, (proj1 Hsame)|]. apply level_ext.
    + rewrite <- (pending_keys _ _ _ R6). cbn. rewrite !map_map, Hxy. f_equal. symmetry. exact R4.
    + cbn [app] in R5. rewrite <- R5. cbn. f_equal. rewrite map_map. by apply map_ext.
  - intros p' Hp' Hs. apply R10; [|done]. intros ->. apply Hp'. left.
Qed.

(** The nodes above the leaves keep their children. *)
Lemma resolve_bottom L : ∀ M L' st q fuel, expands ns0 true L L' → Forall2 (pending (loaded st)) L M → resolve_queue st = ptrs M ++ q →
  resolve hp vf inner_map st (length L + fuel) = resolve hp vf inner_map (mkInnerState (page_buffer st) (loaded st) q) fuel ∧ expands (loaded st) true M L'.
Proof.
  induction L as [|x L IH]; intros M L' st q fuel He HM Hq.
  { inversion HM; subst. cbn in He, Hq |- *. subst. by destruct st. }
  inversion HM as [|? y ? M' Hxy HM']; subst. destruct He as (cs & R & -> & (p1 & n1 & r0 & rs & Hp1 & _ & Hn1 & Hok & Hleaf & ->) & HR).
  destruct Hxy as (Hk & p & qq & n & n' & Hp & Hqq & Hqr & Hn & Hn' & Hsame). rewrite Hp in Hp1. injection Hp1 as <-. rewrite Hn in Hn1. injection Hn1 as <-.
  cbn [ptrs map app] in Hq. destruct (IH M' R (mkInnerState (page_buffer st) (loaded st) (ptrs M' ++ q)) q fuel HR HM' eq_refl) as [Hrun Hexp]. split.
  - cbn [length Nat.add resolve]. rewrite Hq. cbn. rewrite Hqq. cbn. rewrite Hn'. cbn [unwrap]. ret_step. by rewrite (proj1 Hsame), Hleaf.
  - exists ((x.1, ir_child r0) :: map ir_pair rs), R. split; [done|]. split; [|done]. exists qq, n', r0, rs. split_and!; try done; try lia; [by eapply same_node_ok|by rewrite (proj1 Hsame)|by rewrite Hk].
Qed.

Lemma resolve_level L : ∀ M L' st q fuel, expands ns0 false L L' → Forall2 (pending (loaded st)) L M → NoDup (ptrs M) → Forall known L' →
  resolve_queue st = ptrs M ++ q → zlen (page_buffer st) = INNER_NODE_SIZE → (size (loaded st) + length L' <= limit)%nat →
  ∃ st' M', resolve hp vf inner_map st (length L + fuel) = resolve hp vf inner_map st' fuel ∧ resolve_queue st' = q ++ ptrs M' ∧
    expands (loaded st') false M M' ∧ Forall2 (pending (loaded st')) L' M' ∧ NoDup (ptrs M') ∧ (∀ p, p ∈ ptrs M' → loaded st !! p = None) ∧
    kept (ptrs M) (loaded st) (loaded st') ∧ size (loaded st') = (size (loaded st) + length L')%nat ∧ zlen (page_buffer st') = INNER_NODE_SIZE.
Proof.
  induction L as [|x L IH]; intros M L' st q fuel He HM Hnd Hkn Hq Hb Hsize.
  { inversion HM; subst. cbn in He. subst L'. exists st, []. cbn in Hq |- *. rewrite app_nil_r. split_and!; try done; try lia; try apply NoDup_nil_2; by intros p ?%elem_of_nil. }
  inversion HM as [|? y ? M1 Hxy HM1]; subst. destruct He as (cs & R & -> & Hx & HR). apply Forall_app in Hkn as [Hkc HkR]. rewrite length_app in Hsize.
  cbn [ptrs map] in Hnd. apply NoDup_cons in Hnd as [Hny Hnd]. set (py := pid_value y.2) in *. fold (ptrs M1) in Hny, Hnd.
  destruct (resolve_node st x y cs (ptrs M1 ++ q) (length L + fuel) Hxy Hx Hkc Hq Hb ltac:(lia)) as (st1 & cs' & Hrun1 & Q1 & N1 & P1 & D1 & F1 & K1 & S1 & B1). fold py in K1.
  assert (∀ p, p ∈ ptrs M1 → is_Some (loaded st !! p)) as HinM by (intros p; by apply (pending_known _ L M1)).
  assert (∀ p, p ∈ ptrs M1 → p ∉ ptrs cs') as Hapart by (intros p Hp Hp'; apply HinM in Hp as [? Hp]; apply F1 in Hp'; congruence).
  destruct (IH M1 R st1 (q ++ ptrs cs') fuel HR) as (st' & R' & Hrun2 & Q2 & N2 & P2 & D2 & F2 & K2 & S2 & B2); try done.
  { eapply pending_frame; [|exact HM1]. intros p Hp Hs. apply K1; [|done]. intros ->%list_elem_of_singleton. done. }
  { by rewrite Q1, app_assoc. }
  { lia. }
  assert (∀ p, p ∈ ptrs cs' → is_Some (loaded st1 !! p)) as Hin1 by (intros p; by apply (pending_known _ cs)).
  assert (∀ p, is_Some (loaded st !! p) → is_Some (loaded st1 !! p)) as Hmono.
  { intros p Hs. destruct (decide (p = py)) as [->|Hne]; [|rewrite K1; [done|by intros ?%list_elem_of_singleton|done]].
    destruct N1 as (pp & nn & _ & _ & Hpp & _ & Hnn & _). unfold py. rewrite Hpp. by exists nn. }
  exists st', (cs' ++ R'). split_and!.
  - cbn [length Nat.add]. by rewrite Hrun1.
  - rewrite Q2, <- app_assoc. unfold ptrs. by rewrite map_app.
  - exists cs', R'. split; [done|]. split; [|done]. eapply node_is_frame; [|exact N1]. intros ptr Hptr. apply K2; [|destruct N1 as (pp & nn & _ & _ & Hpp & _ & Hnn & _); rewrite Hpp in Hptr; injection Hptr as <-; by exists nn].
    assert (ptr = py) as -> by (unfold py; by rewrite Hptr). done.
  - apply Forall2_app; [|done]. eapply pending_frame; [|exact P1]. intros p Hp Hs. apply K2; [|done]. intros Hp'. by apply (Hapart p).
  - unfold ptrs. rewrite map_app. apply NoDup_app. split; [done|]. split; [|done]. intros p Hp Hp'. apply F2 in Hp'. destruct (Hin1 p Hp). congruence.
  - intros p Hp. unfold ptrs in Hp. rewrite map_app in Hp. apply elem_of_app in Hp as [Hp|Hp]; [by apply F1|]. apply F2 in Hp.
    destruct (loaded st !! p) eqn:E; [|done]. destruct (Hmono p); [by eexists|]. congruence.
  - intros p Hp Hs. cbn in Hp. fold py (ptrs M1) in Hp. apply not_elem_of_cons in Hp as [Hp1 Hp2]. rewrite K2; [|done|by apply Hmono]. apply K1; [by intros ?%list_elem_of_singleton|done].
  - rewrite S2, S1, length_app. lia.
  - done.
Qed.

(** *** All levels *)
Fixpoint descends ns (lvs : list level) : Prop :=
  match lvs with
  | [] => True
  | L :: rest =>
      match rest with [] => True | L' :: tl => expands ns (match tl with [] => true | _ :: _ => false end) L L' end ∧ descends ns rest
  end.

Definition uppers (lvs : list level) : level := concat (take (pred (length lvs)) lvs).

Lemma descends_steps ns lvs : descends ns lvs ↔ ∀ h L L', lvs !! h = Some L → lvs !! S h = Some L' → expands ns (bool_decide (S (S h) = length lvs)) L L'.
Proof.
  induction lvs as [|L lvs IH]; [done|]. cbn [descends]. rewrite IH. split.
  - intros [Hhead Htail] [|h] L1 L2 H1 H2.
    + injection H1 as <-. destruct lvs as [|L' [|? ?]]; [done|..]; injection H2 as <-; done.
    + specialize (Htail h L1 L2 H1 H2). cbn [length]. destruct (decide (S (S h) = length lvs)) as [E|E]; [rewrite !bool_decide_eq_true_2 in * by congruence|rewrite !bool_decide_eq_false_2 in * by congruence]; done.
  - intros H. split.
    + destruct lvs as [|L' [|L'' tl]]; [done|..]; apply (H 0%nat L L' eq_refl eq_refl).
    + intros h L1 L2 H1 H2. specialize (H (S h) L1 L2 H1 H2). cbn [length] in H.
      destruct (decide (S (S h) = length lvs)) as [E|E]; [rewrite !bool_decide_eq_true_2 in * by congruence|rewrite !bool_decide_eq_false_2 in * by congruence]; done.
Qed.

Lemma ptrs_app L M : ptrs (L ++ M) = ptrs L ++ ptrs M.
Proof. apply map_app. Qed.

Lemma resolve_levels tl : ∀ L L' M st fuel, descends ns0 (L :: L' :: tl) → Forall known (uppers (L' :: tl)) → Forall2 (pending (loaded st)) L M → NoDup (ptrs M) →
  resolve_queue st = ptrs M → zlen (page_buffer st) = INNER_NODE_SIZE → (size (loaded st) + length (uppers (L' :: tl)) <= limit)%nat →
  ∃ st' M' tl', resolve hp vf inner_map st (length (uppers (L :: L' :: tl)) + S fuel) = Ret st' ∧ descends (loaded st') (M :: M' :: tl') ∧
    Forall2 (λ A C, map fst A = map fst C) (L' :: tl) (M' :: tl') ∧ last (M' :: tl') = last (L' :: tl) ∧ NoDup (ptrs (uppers (M :: M' :: tl'))) ∧
    (∀ p, p ∈ ptrs (uppers (M' :: tl')) → loaded st !! p = None) ∧ kept (ptrs M) (loaded st) (loaded st').
Proof.
  induction tl as [|L'' tl IH]; intros L L' M st fuel [Hexp Hdesc] Hkn HM Hnd Hq Hb Hsize.
  - destruct (resolve_bottom L M L' st [] (S fuel) Hexp HM) as [Hrun HexpM]; [by rewrite app_nil_r|].
    exists (mkInnerState (page_buffer st) (loaded st) []), L', []. change (uppers [L; L']) with (L ++ []). change (uppers [M; L']) with (M ++ []). rewrite !app_nil_r.
    split_and!; try done; [repeat constructor|by intros p ?%elem_of_nil].
  - change (uppers (L' :: L'' :: tl)) with (L' ++ uppers (L'' :: tl)) in *. apply Forall_app in Hkn as [Hk1 Hk2]. rewrite length_app in Hsize.
    destruct (resolve_level L M L' st [] (length (L' ++ uppers (L'' :: tl)) + S fuel) Hexp HM Hnd Hk1) as (st1 & M' & Hrun1 & Q1 & N1 & P1 & D1 & F1 & K1 & S1 & B1); [by rewrite app_nil_r|done|lia|].
    destruct (IH L' L'' M' st1 fuel Hdesc Hk2 P1 D1 Q1 B1 ltac:(lia)) as (st2 & M'' & tl' & Hrun2 & N2 & Hkeys & Hlast & D2 & F2 & K2).
    assert (∀ p, p ∈ ptrs M → is_Some (loaded st !! p)) as HinM by (intros p; by apply (pending_known _ L)).
    assert (∀ p, is_Some (loaded st !! p) → is_Some (loaded st1 !! p)) as Hmono.
    { intros p Hs. destruct (decide (p ∈ ptrs M)) as [Hin|Hnin]; [|by rewrite K1]. apply list_elem_of_fmap in Hin as (z & -> & Hz). cbn.
      pose proof (expands_pointers_at _ _ _ _ _ N1 Hz) as (q' & Hq' & Hs'). rewrite Hq'. done. }
    exists st2, M', (M'' :: tl'). change (uppers (L :: L' :: L'' :: tl)) with (L ++ L' ++ uppers (L'' :: tl)). change (uppers (M :: M' :: M'' :: tl')) with (M ++ uppers (M' :: M'' :: tl')).
    split_and!; try done.
    + rewrite length_app, <- Nat.add_assoc, Hrun1. exact Hrun2.
    + split; [|done]. eapply expands_frame; [|exact N1]. intros z ptr Hz Hptr. apply K2; [|by eapply expands_pointer].
      intros Hin. apply F1 in Hin. destruct (HinM ptr); [|congruence]. unfold ptrs. apply list_elem_of_fmap. exists z. split; [|done]. cbn. by rewrite Hptr.
    + constructor; [|done]. by eapply pending_keys.
    + rewrite ptrs_app. apply NoDup_app. split; [done|]. split; [|done]. intros p Hp Hp'. change (uppers (M' :: M'' :: tl')) with (M' ++ uppers (M'' :: tl')) in Hp'. rewrite ptrs_app in Hp'.
      apply HinM in Hp. apply elem_of_app in Hp' as [Hp'|Hp']; [apply F1 in Hp'; destruct Hp; congruence|]. apply F2 in Hp'. destruct (Hmono p Hp). congruence.
    + intros p Hp. change (uppers (M' :: M'' :: tl')) with (M' ++ uppers (M'' :: tl')) in Hp. rewrite ptrs_app in Hp. apply elem_of_app in Hp as [Hp|Hp]; [by apply F1|].
      apply F2 in Hp. destruct (loaded st !! p) eqn:E; [|done]. destruct (Hmono p); [by eexists|]. congruence.
    + intros p Hp Hs. rewrite K2; [by apply K1| |by apply Hmono]. intros Hin. apply F1 in Hin. destruct Hs. congruence.
Qed.
End nodes.

(** ** The inner nodes of the new tree *)
Lemma fold_insert (l : list (Z * Z)) (m : gmap Z Z) k o :
  NoDup l.*1 → (k, o) ∈ l → foldl (λ (im : gmap Z Z) (e : Z * Z), <[e.1 := e.2]> im) m l !! k = Some o.
Proof.
  assert (∀ l (m : gmap Z Z), k ∉ l.*1 → foldl (λ (im : gmap Z Z) (e : Z * Z), <[e.1 := e.2]> im) m l !! k = m !! k) as Hother.
  { clear. induction l as [|e l IH]; intros m Hk; [done|]. cbn in *. apply not_elem_of_cons in Hk as [H1 H2]. rewrite IH by done. by rewrite lookup_insert_ne. }
  revert m. induction l as [|e l IH]; intros m Hnd Hin; [by apply elem_of_nil in Hin|]. cbn in *. apply NoDup_cons in Hnd as [Hn Hnd].
  apply elem_of_cons in Hin as [<-|Hin]; [|by apply IH]. cbn in *. rewrite Hother by done. by rewrite lookup_insert_eq.
Qed.

Section inner.
Context {F : Type} (hp : heap) (limit : nat) (pad : Z → Z → bytes) (vf : StdVfs) (m : BfTreeMeta F).
Hypothesis Hheap : heap_ok hp limit.
Hypothesis Hpad : ∀ i n, 0 <= n → zlen (pad i n) = n.
Context (ns0 : gmap Z InnerNode) (root : PageID) (lv : list level) (li : list (Z * Z)).
Hypothesis Hfields : ∀ ptr n, ns0 !! ptr = Some n → node_fields n.
Hypothesis Hshape : shape ns0 root lv.
Hypothesis Hlong : (1 < length lv)%nat.
Hypothesis Hfile : ∀ ptr off, (ptr, off) ∈ li → ∃ n, ns0 !! ptr = Some n ∧ has (file vf) off (as_slice (pad ptr 2) n).
Hypothesis Hli : NoDup li.*1 ∧ ∀ k, k ∈ li.*1 ↔ k ∈ map pid_value (inner_ids lv).
Hypothesis Hrooted : ∀ ptr n, ns0 !! ptr = Some n → is_root n = bool_decide (from_pointer ptr = root).
Hypothesis Hread : read_vec_from_offset (inner_offset m) (inner_size m) vf = Ret li.
Hypothesis Hroot : m_root_id m = pid_raw root.
Hypothesis Hlimit : (length (inner_ids lv) <= limit)%nat.
Abbreviation im := (foldl (λ (im : gmap Z Z) (e : Z * Z), <[e.1 := e.2]> im) ∅ li).

Lemma above_known x : x ∈ uppers lv → known pad ns0 vf im x.
Proof.
  intros Hx. pose proof Hx as Hx'. unfold uppers in Hx. apply list_elem_of_In, in_concat in Hx as (L & HL & Hx). apply list_elem_of_In, list_elem_of_lookup in HL as (h & HL). apply lookup_take_Some in HL as [HL Hh].
  destruct (lookup_lt_is_Some_2 lv (S h) ltac:(lia)) as [L' HL']. apply list_elem_of_In, list_elem_of_split in Hx as (L1 & L2 & ->).
  destruct (expands_mid _ _ _ _ _ _ (sh_step _ _ _ Hshape h _ _ HL HL')) as (A & cs & R & _ & _ & Hnode & _). split; [|by eexists _, cs].
  destruct Hnode as (ptr & n & r0 & rs & Hp & Hr & Hn & _). assert (ptr ∈ li.*1) as Hin.
  { apply Hli. change ptr with (pid_value (from_pointer ptr)). rewrite <- Hp. apply list_elem_of_fmap_2. unfold inner_ids. apply (list_elem_of_fmap_2 snd). exact Hx'. }
  apply list_elem_of_fmap in Hin as ([k off] & Hk & Hin). cbn in Hk. subst k. destruct (Hfile _ _ Hin) as (n' & Hn' & Hh'). rewrite Hn in Hn'. injection Hn' as <-.
  exists ptr, n, off. split_and!; try done; try lia. apply fold_insert; [apply Hli|done].
Qed.

Lemma copied_node ptr off : (ptr, off) ∈ li → ∃ n r0 rs, ns0 !! ptr = Some n ∧ node_ok n r0 rs ∧ has (file vf) off (as_slice (pad ptr 2) n).
Proof.
  intros Hin. destruct (Hfile _ _ Hin) as (n & Hn & Hh). assert (ptr ∈ li.*1) as Hk by by apply (list_elem_of_fmap_2 fst) in Hin.
  apply Hli, list_elem_of_fmap in Hk as (x & -> & Hx). unfold inner_ids in Hx. apply list_elem_of_fmap in Hx as (y & -> & Hy).
  apply above_known in Hy as [_ (b & cs & p & n' & r0 & rs & Hp & _ & Hn' & Hok & _)]. rewrite Hp in Hn, Hh |- *. cbn [pid_value from_pointer PageID_new] in Hn, Hh |- *. rewrite Hn in Hn'. injection Hn' as <-. by exists n, r0, rs.
Qed.

(** One of the copies is that of the root. *)
Lemma count_roots l : ∀ c buf, l ⊆ li → zlen buf = INNER_NODE_SIZE →
  ∃ buf', foldM (count_root hp vf) (c, buf) l = Ret (c + zlen (filter (λ e : Z * Z, from_pointer e.1 = root) l), buf') ∧ zlen buf' = INNER_NODE_SIZE.
Proof.
  induction l as [|[ptr off] l IH]; intros c buf Hl Hb; [exists buf; cbn; by rewrite Z.add_0_r|].
  destruct (copied_node ptr off ltac:(apply Hl; left)) as (n & r0 & rs & Hn & Hok & Hh).
  destruct (read_node_spec hp pad Hpad ns0 vf Hfields n r0 rs off (fresh_ptr hp ∅) ptr buf Hn Hok Hh Hb) as [Hrun Hlen].
  destruct (IH (if is_root (set_lock n 0) then c + 1 else c) (as_slice (pad ptr 2) n)) as (buf' & Hrest & Hb'); [intros e He; apply Hl; by right|done|].
  exists buf'. split; [|done]. cbn [foldM].
  assert (count_root hp vf (c, buf) (ptr, off) = Ret (if is_root (set_lock n 0) then c + 1 else c, as_slice (pad ptr 2) n)) as -> by (unfold count_root; cbn [fst snd]; rewrite Hrun; by ret_step).
  ret_step. rewrite Hrest. f_equal. f_equal.
  change (is_root (set_lock n 0)) with (is_root n). rewrite (Hrooted _ _ Hn), filter_cons. cbn [fst]. case_decide as E; [rewrite bool_decide_eq_true_2 by done; rewrite zlen_cons; lia|by rewrite bool_decide_eq_false_2].
Qed.

Lemma one_root : zlen (filter (λ e : Z * Z, from_pointer e.1 = root) li) = 1.
Proof.
  assert (∃ p, root = from_pointer p ∧ p ∈ li.*1) as (p & -> & Hin).
  { destruct (lookup_lt_is_Some_2 lv 1 Hlong) as [L' HL']. destruct (sh_step _ _ _ Hshape 0%nat _ _ (sh_root _ _ _ Hshape) HL') as (cs & R & _ & (ptr & n & r0 & rs & Hp & _) & _).
    exists ptr. split; [done|]. apply Hli. change ptr with (pid_value (from_pointer ptr)). apply list_elem_of_fmap_2. cbn [snd] in Hp. rewrite <- Hp. unfold inner_ids.
    pose proof (sh_root _ _ _ Hshape) as H0. clear -H0 Hlong. destruct lv as [|L0 [|L1 l]]; [done|cbn in Hlong; lia|]. injection H0 as ->. cbn. left. }
  destruct Hli as [Hnd _]. clear -Hnd Hin. induction li as [|[k o] l IH]; [by apply elem_of_nil in Hin|]. cbn in Hnd, Hin. apply NoDup_cons in Hnd as [Hk Hnd].
  rewrite filter_cons. cbn [fst]. case_decide as E.
  - injection E as ->. assert (filter (λ e : Z * Z, from_pointer e.1 = from_pointer p) l = []) as ->; [|done].
    destruct (filter _ l) as [|[k' o'] l'] eqn:Ef; [done|]. assert ((k', o') ∈ filter (λ e : Z * Z, from_pointer e.1 = from_pointer p) l) as Hf by (rewrite Ef; left).
    apply list_elem_of_filter in Hf as [[= ->] Hin']. destruct Hk. by apply (list_elem_of_fmap_2 fst) in Hin'.
  - apply elem_of_cons in Hin as [->|Hin]; [done|by apply IH].
Qed.

Lemma recover_inner_spec fuel : (length (inner_ids lv) < fuel)%nat →
  ∃ q ns' lv', recover_inner hp vf m fuel = Ret (from_pointer q, ns') ∧ 0 <= q < 2 ^ 62 ∧ shape ns' (from_pointer q) lv' ∧
    length lv' = length lv ∧ last lv' = last lv.
Proof.
  intros Hfuel. set (x0 := ([] : bytes, root)). assert (∃ L' tl, lv = [x0] :: L' :: tl) as (L' & tl & Hlv).
  { pose proof (sh_root _ _ _ Hshape) as H0. clear -H0 Hlong. destruct lv as [|L0 [|L' tl]]; [done|cbn in Hlong; lia|]. injection H0 as ->. by exists L', tl. }
  assert (uppers lv = x0 :: uppers (L' :: tl)) as Hup by by rewrite Hlv.
  destruct (above_known x0) as [Hfil (b & cs & Hnode)]; [rewrite Hup; left|].
  destruct (count_roots li 0 (replicate (Z.to_nat INNER_NODE_SIZE) 0) ltac:(done) ltac:(done)) as (buf & Hcount & Hb). rewrite one_root in Hcount.
  assert (1 <= length (inner_ids lv))%nat as Hone by (unfold inner_ids; fold (uppers lv); rewrite Hup; cbn; lia).
  assert (size (∅ : gmap Z InnerNode) < limit)%nat as Hsize by (rewrite map_size_empty; lia).
  destruct (load_copy_spec hp limit pad Hheap Hpad ns0 vf im Hfields (mkInnerState buf ∅ []) x0 b cs Hfil Hnode Hb Hsize)
    as (p & n & off & q & buf1 & n' & Hp & Hn & Hoff & Hpr & Hload & Hb1 & _ & Hq & Hsame). cbn [snd x0] in Hp.
  set (st1 := mkInnerState buf1 (<[q := set_root n' true]> (<[q := n']> (∅ : gmap Z InnerNode))) [q]).
  destruct (resolve_levels hp limit pad Hheap Hpad ns0 vf im Hfields tl [x0] L' [([], from_pointer q)] st1 (fuel - S (length (inner_ids lv)))) as (st' & M' & tl' & Hrun & Hdesc & Hkeys & Hlast & Hnd & _).
  { apply descends_steps. rewrite <- Hlv. apply (sh_step _ _ _ Hshape). }
  { apply Forall_forall. intros x Hx. apply above_known. rewrite Hup. by right. }
  { constructor; [|done]. split; [done|]. exists p, q, n, (set_root n' true). split_and!; try done; try lia. cbn. by rewrite lookup_insert_eq. }
  { apply NoDup_singleton. }
  { done. }
  { done. }
  { cbn [loaded st1]. rewrite insert_insert_eq, map_size_insert_None, map_size_empty by done. unfold inner_ids in Hlimit. fold (uppers lv) in Hlimit. rewrite length_map, Hup in Hlimit. cbn [length] in Hlimit. lia. }
  exists q, (loaded st'), ([([], from_pointer q)] :: M' :: tl'). split; [|split; [done|split; [|split]]].
  - unfold recover_inner. rewrite Hroot. assert (NodeMeta.from_raw (pid_raw root) = root) as -> by by destruct root.
    assert (is_inner_node_pointer root = true) as ->.
    { pose proof (proj2 (get_root_page_inner p Hpr)) as Has. unfold as_inner_node in Has. rewrite Hp. by destruct (is_inner_node_pointer (from_pointer p)). }
    rewrite Hread. ret_step. rewrite Hcount. ret_step. cbn [fst snd]. ret_step. rewrite Hp, (proj2 (get_root_page_inner p Hpr)). ret_step. rewrite Hoff. cbn [unwrap]. ret_step. rewrite Hload. ret_step. cbv iota beta.
    cbn [loaded page_buffer]. rewrite lookup_insert_eq. cbn [unwrap]. ret_step. fold st1. replace fuel with (length (uppers ([x0] :: L' :: tl)) + S (fuel - S (length (inner_ids lv))))%nat; [rewrite Hrun; by ret_step|].
    rewrite <- Hlv. unfold inner_ids. fold (uppers lv). rewrite length_map. unfold inner_ids in Hfuel. fold (uppers lv) in Hfuel. rewrite length_map in Hfuel. lia.
  - split; [done|by apply descends_steps| |].
    + pose proof (sh_sorted _ _ _ Hshape) as Hs. rewrite Hlv in Hs. apply Forall_cons in Hs as [_ Hs]. constructor; [repeat constructor|]. clear -Hs Hkeys.
      induction Hkeys as [|A C l l' HAC Hl IH]; [done|]. apply Forall_cons in Hs as [H1 H2]. constructor; [|by apply IH]. unfold sorted in *. by rewrite <- HAC.
    + unfold inner_ids. fold (uppers ([([], from_pointer q)] :: M' :: tl')). apply (NoDup_fmap_1 pid_value). change (pid_value <$> ?l) with (map pid_value l). rewrite map_map. exact Hnd.
  - rewrite Hlv. cbn. apply Forall2_length in Hkeys. cbn in Hkeys. lia.
  - rewrite Hlv. exact Hlast.
Qed.
End inner.

(** ** The page table *)
Lemma dense_steps rest : ∀ j acc, Z.of_nat (j + length rest) < 2 ^ 62 →
  foldM dense_step (zip (map raw_id (seq j (length rest))) rest, acc) (seqZ (Z.of_nat j) (zlen rest)) =
    Ret ([], acc ++ zip (seqZ (Z.of_nat j) (zlen rest)) (map Base rest)).
Proof.
  induction rest as [|o rest IH]; intros j acc Hj; [cbn; by rewrite app_nil_r|]. cbn [length] in Hj.
  rewrite zlen_cons, seqZ_cons by (pose proof (zlen_nonneg rest); lia). replace (Z.pred (1 + zlen rest)) with (zlen rest) by lia. replace (Z.succ (Z.of_nat j)) with (Z.of_nat (S j)) by lia.
  cbn [length seq map zip zip_with foldM].
  assert (∀ l, dense_step ((raw_id j, o) :: l, acc) (Z.of_nat j) = Ret (l, acc ++ [(Z.of_nat j, Base o)])) as Hstep.
  { intros l. unfold dense_step. cbn [fst snd]. destruct (raw_id_spec j ltac:(lia)) as (_ & -> & _). rewrite as_id_from_id by lia. ret_step. by rewrite Z.eqb_refl. }
  rewrite Hstep. ret_step. rewrite (IH (S j)) by lia. by rewrite <- app_assoc.
Qed.

Lemma dense_spec offs : zlen offs < 2 ^ 62 → dense_mapping (base_list offs) = Ret (zip (seqZ 0 (zlen (map Base offs))) (map Base offs)).
Proof.
  intros Hn. unfold dense_mapping. rewrite by_page_id_spec.
  2:{ apply Forall_forall. intros [k o] (i & Hi & ->)%base_list_elem. apply lookup_lt_Some in Hi. cbn [fst]. destruct (raw_id_spec i ltac:(unfold zlen in Hn; lia)) as (_ & -> & _). apply from_id_is_id. }
  ret_step. rewrite (sort_base offs) by done. assert (zlen (map Base offs) = zlen offs) as -> by (unfold zlen; by rewrite length_map).
  rewrite last_lookup. assert (length (base_list offs) = length offs) as Hlen by (unfold base_list; rewrite length_zip_with, length_map, length_seq; lia).
  rewrite Hlen. destruct (decide (offs = [])) as [->|Hne]; [done|]. assert (0 < length offs)%nat by (destruct offs; [done|cbn; lia]).
  destruct (lookup_lt_is_Some_2 offs (pred (length offs)) ltac:(lia)) as [o Ho]. rewrite (base_list_lookup _ _ _ Ho). cbn [fst].
  destruct (raw_id_spec (pred (length offs)) ltac:(unfold zlen in Hn; lia)) as (_ & -> & _). rewrite as_id_from_id by (unfold zlen in Hn; lia). ret_step.
  replace (Z.of_nat (pred (length offs)) + 1) with (zlen offs) by (unfold zlen; lia). unfold base_list.
  pose proof (dense_steps offs 0 [] ltac:(unfold zlen in Hn; lia)) as Hrun. change (Z.of_nat 0) with 0 in Hrun. rewrite Hrun. by ret_step.
Qed.

(** ** The mini pages *)
Section minis.
Context {B T F : Type} `{HPB : PageBuffer B} `{HBL : !PageBufferLaws B} `{HPM : PageMap T} `{HML : !PageMapLaws T}.
Context (mem : memory) (cfg : @Config F) (front : list Z) (mini : Z) (vf : StdVfs) (offs : list Z).
Context (mp : nat → LeafNode → Prop) (room_for : nat → Prop) (lm : list (Z * Z)) (sizes : gmap Z Z).
Abbreviation storage := (LeafStorage B T).
Hypothesis Hsmall : zlen offs < 2 ^ 62.

(** The mini pages that are to be loaded. *)
Record to_load (e : Z * Z) (i : nat) (n : LeafNode) : Prop := {
  tl_key : e.1 = raw_id i;
  tl_known : (i < length offs)%nat;
  tl_page : mp i n;
  tl_fields : leaf_fields n;
  tl_size : node_size (LeafNode.meta n) = LEAF_HEADER + zlen (LeafNode.data n);
  tl_class : node_size (LeafNode.meta n) ∈ front ++ [mini];
  tl_file : has (file vf) e.2 (leaf_image n);
  tl_sizes : sizes !! e.1 = Some (node_size (LeafNode.meta n));
}.
Hypothesis Hload : ∀ e, e ∈ lm → ∃ i n, to_load e i n.

(** The storage after the mini pages of [don] have been loaded: they are over their base pages, which the others are. *)
Record minis_at (don : list Z) (s : storage) (locs : list PageLocation) : Prop := {
  ma_inv : SInv cfg front mini s;
  ma_disk : disk s = ∅;
  ma_next : next_available_offset s = offset_alloc vf;
  ma_list : map_list (page_table s) locs;
  ma_room : ∀ n, room_for n → map_room (page_table s) n;
  ma_length : length locs = length offs;
  ma_at : ∀ i off, offs !! i = Some off →
    ((raw_id i ∉ don) ∧ locs !! i = Some (Base off)) ∨
    (raw_id i ∈ don ∧ ∃ ptr n, mp i n ∧ locs !! i = Some (Mini ptr) ∧ owns s ptr Live (set_next_level n off));
  ma_owned : ∀ p, buf_owner (circular_buffer s) p = Some Live → ∃ i n, mp i n ∧ locs !! i = Some (Mini p);
}.

Lemma recovered_mini_read e i n : to_load e i n → read_mini vf e.2 (node_size (LeafNode.meta n)) = n.
Proof.
  intros [_ _ _ Hf Hs _ Hh _]. destruct (leaf_image_roundtrip n Hf) as [Hl Hr]. unfold read_mini, StdVfs_read. rewrite (read_has _ _ _ _ Hh); [done|].
  rewrite Hl, Hs. pose proof (zlen_nonneg (LeafNode.data n)). unfold zlen, LEAF_HEADER in *. rewrite length_replicate. lia.
Qed.

(** The new page takes the place of its base page. *)
Lemma place_mini_spec s i ptr n locs : SInv cfg front mini s → map_list (page_table s) locs → (i < length locs)%nat → (∃ n0, owns s ptr New n0) →
  ∃ s', place_mini s (Z.of_nat i) ptr n = Ret s' ∧ SInv cfg front mini s' ∧ disk s' = disk s ∧ next_available_offset s' = next_available_offset s ∧
    map_list (page_table s') (<[i := Mini ptr]> locs) ∧ (∀ k, map_room (page_table s) k → map_room (page_table s') k) ∧ owns s' ptr Live n ∧
    ∀ q, q ≠ ptr → cache_pages s' !! q = cache_pages s !! q ∧ buf_owner (circular_buffer s') q = buf_owner (circular_buffer s) q.
Proof.
  intros [H1 H2 H3] Hl Hi [n0 Hown]. destruct (map_put_law _ locs (Z.of_nat i) (Mini ptr) Hl) as (tb & Hput & Htb & Hroom); [unfold zlen; lia|]. rewrite Nat2Z.id in Htb.
  set (s1 := set_table (store_cache_page s ptr n) tb). destruct (publish_spec cfg front mini s1 ptr n) as (s2 & Hpub & Hst & Hlive); [by split|by apply (store_cache_owns s ptr New n0)|].
  exists s2. split; [unfold place_mini; rewrite Hput; ret_step; exact Hpub|]. destruct Hst as [HI Hd Ho Ht Hq]. split; [done|]. split; [done|]. split; [done|].
  split; [by rewrite Ht|]. split; [intros k Hk; rewrite Ht; by apply Hroom|]. split; [done|]. intros q Hne. destruct (Hq q Hne) as [-> ->]. cbn. by rewrite lookup_insert_ne.
Qed.

Lemma recover_step don s locs e : minis_at don s locs → e ∈ lm → e.1 ∉ don →
  recover_mini mem vf sizes s e = Ret (inl CircularBufferSize) ∨
  ∃ s' locs', recover_mini mem vf sizes s e = Ret (inr s') ∧ minis_at (e.1 :: don) s' locs'.
Proof.
  intros [M1 M2 M3 M4 M5 M6 M7 M8] He Hnew. destruct (Hload e He) as (i & n & Htl). pose proof (recovered_mini_read e i n Htl) as Hrd. destruct Htl as [Hk Hi Hmp Hf Hs Hc Hh Hsz]. rewrite Hk in Hnew.
  destruct (lookup_lt_is_Some_2 offs i Hi) as [off Hoff]. destruct (M7 i off Hoff) as [[_ Hloc]|[Hin _]]; [|done].
  destruct (alloc_page_spec mem cfg front mini s (node_size (LeafNode.meta n)) M1) as (r & s1 & Halloc & Hr).
  { apply elem_of_app in Hc as [?|Hc%list_elem_of_singleton]; apply elem_of_app; [by left|right]. rewrite Hc. left. }
  unfold recover_mini. rewrite Hsz. cbn [unwrap]. ret_step. rewrite Halloc. ret_step. destruct r as [err|ptr]; [by left|right]. destruct Hr as (Hfree & [HI1 Hd1 Ho1 Ht1 Hq1] & Hown).
  rewrite Hrd, Hk. unfold zlen in Hsmall. destruct (raw_id_spec i ltac:(lia)) as (_ & -> & _). rewrite as_id_from_id by lia. ret_step.
  rewrite Ht1, (map_get_law _ locs (Z.of_nat i) (Base off)) by (done || lia || by rewrite Nat2Z.id). ret_step. cbv iota beta.
  destruct (place_mini_spec s1 i ptr (set_next_level n off) locs HI1) as (s2 & Hplace & HI2 & Hd2 & Ho2 & Ht2 & Hroom & Hlive & Hq2); [by rewrite Ht1|lia|by eexists|].
  exists s2, (<[i := Mini ptr]> locs). rewrite Hplace. split; [by ret_step|]. split; [done|congruence|congruence|done|intros k Hk'; apply Hroom; rewrite Ht1; auto|by rewrite length_insert|..].
  - intros j o Hj. destruct (decide (j = i)) as [->|Hne].
    + right. split; [left|]. exists ptr, n. rewrite list_lookup_insert_eq by lia. rewrite Hoff in Hj. injection Hj as <-. done.
    + pose proof (lookup_lt_Some _ _ _ Hj). assert (raw_id j ≠ raw_id i) as Hne' by (intros E; apply Hne; eapply raw_id_inj; [lia|lia|exact E]).
      destruct (M7 j o Hj) as [[Hd Hl]|(Hd & p & n' & Hmp' & Hl & Ho')]; [left|right].
      * split; [by apply not_elem_of_cons|]. by rewrite list_lookup_insert_ne.
      * split; [by right|]. exists p, n'. rewrite list_lookup_insert_ne by done. split_and!; try done. assert (p ≠ ptr) as Hpp by (intros ->; destruct Ho'; congruence).
        destruct Ho' as [O1 O2], (Hq1 p Hpp) as [E1 E2], (Hq2 p Hpp) as [E3 E4]. split; congruence.
  - intros p Hp. destruct (decide (p = ptr)) as [->|Hpp]; [exists i, n; by rewrite list_lookup_insert_eq by lia|].
    destruct (Hq1 p Hpp) as [_ E2], (Hq2 p Hpp) as [_ E4]. rewrite E4, E2 in Hp. destruct (M8 p Hp) as (j & n' & Hmp' & Hl). exists j, n'. rewrite list_lookup_insert_ne; [done|]. intros ->. congruence.
Qed.

Lemma recover_minis l : ∀ don s locs, l ⊆ lm → NoDup l.*1 → (∀ k, k ∈ l.*1 → k ∉ don) → minis_at don s locs →
  (try_fold (recover_mini mem vf sizes) s l = Ret (inl CircularBufferSize) ∧ l ≠ []) ∨
  ∃ s' locs' don', try_fold (recover_mini mem vf sizes) s l = Ret (inr s') ∧ minis_at don' s' locs' ∧ ∀ k, k ∈ don' ↔ k ∈ l.*1 ∨ k ∈ don.
Proof.
  induction l as [|e l IH]; intros don s locs Hl Hnd Hnew Hm.
  { right. exists s, locs, don. split; [done|]. split; [done|]. intros k. split; [by right|by intros [?%elem_of_nil|?]]. }
  cbn in Hnd. apply NoDup_cons in Hnd as [Hne Hnd]. cbn [try_fold].
  destruct (recover_step don s locs e Hm) as [Hrun|(s1 & locs1 & Hrun & Hm1)]; [apply Hl; left|apply Hnew; left|left|]; rewrite Hrun; ret_step; [done|].
  destruct (IH (e.1 :: don) s1 locs1) as [[Hrest _]|(s2 & locs2 & don2 & Hrest & Hm2 & Hd2)]; [intros x Hx; apply Hl; by right|done| |done|by left|].
  { intros k Hk. apply not_elem_of_cons. split; [by intros ->|]. apply Hnew. by right. }
  right. exists s2, locs2, don2. split; [done|]. split; [done|]. intros k. rewrite Hd2. cbn. rewrite !elem_of_cons. tauto.
Qed.
End minis.

(** ** Configurations with the same sizes *)
Record same_sizes {F} (cfg cfg' : Config F) : Prop := {
  ss_leaf : leaf_page_size cfg' = leaf_page_size cfg;
  ss_fence : max_fence_len cfg' = max_fence_len cfg;
  ss_min : cb_min_record_size cfg' = cb_min_record_size cfg;
  ss_max : cb_max_record_size cfg' = cb_max_record_size cfg;
  ss_mode : cache_only cfg' = cache_only cfg;
}.

(** The same pages, and the same memory for new ones. *)
Record same_blocks (P : Z) (mem mem' : memory) : Prop := {
  sb_block : fresh_block mem' = fresh_block mem;
  sb_page : fresh_page mem' P = fresh_page mem P;
}.

Section sizes.
Context {F : Type} {RB : RecordBound} (cfg cfg' : Config F) (mem mem' : memory) (front : list Z) (mini : Z).
Hypothesis Hsame : same_sizes cfg cfg'.

Lemma same_limits k v : limits cfg k v ↔ limits cfg' k v.
Proof. destruct Hsame as [H1 H2 H3 H4 H5]. unfold limits. by rewrite H2, H4. Qed.

Lemma same_within es : within cfg es → within cfg' es.
Proof. unfold within. intros H. eapply Forall_impl; [exact H|]. intros e. apply same_limits. Qed.

Lemma same_base n p low high : base_inv cfg n p low high → base_inv cfg' n p low high.
Proof.
  intros [H1 H2 H3 H4 H5 H6]. pose proof Hsame as [S1 S2 S3 S4 S5]. unfold fence_in in *. split; unfold fence_in; rewrite ?S1, ?S2; try done. by apply same_within.
Qed.

Lemma same_mini n q off es low high : mini_inv cfg front mini n q off es low high → mini_inv cfg' front mini n q off es low high.
Proof. intros [H1 H2 H3 H4 H5 H6 H7 H8 H9]. split; try done. by apply same_within. Qed.

Lemma same_setup : same_blocks (leaf_page_size cfg) mem mem' → Setup mem cfg front mini → Setup mem' cfg' front mini.
Proof.
  intros [B1 B2] [H1 H2 H3 H4 H5 H6 H7 H8 H9 H10]. pose proof Hsame as [S1 S2 S3 S4 S5]. split; rewrite ?S1, ?S2, ?S4, ?S5, ?B1, ?B2; done.
Qed.
End sizes.

(** A mini page over a base page at another place. *)
Lemma moved_mini {F} {RB : RecordBound} (cfg : Config F) front mini n q off off' es low high :
  mini_inv cfg front mini n q off es low high → mini_inv cfg front mini (set_next_level n off') q off' es low high.
Proof. intros [[R1 R2 R3 R4 R5 R6 R7] H2 H3 H4 H5 H6 H7 H8 H9]. by split. Qed.

(** ** The tree of a snapshot *)
Section restore.
Context {B T W F : Type} {RB : RecordBound} `{HPB : PageBuffer B} `{HBL : !PageBufferLaws B} `{HPM : PageMap T} `{HML : !PageMapLaws T}
  `{HWL : WriteLog W} `{HLL : !WriteLogLaws W} `{HSN : StorageNew B T F} `{HSL : !StorageNewLaws B T F}.
Context (mem : memory) (cfg : @Config F) (front : list Z) (mini : Z) (of_bits : Z → F) (pad : Z → Z → bytes).
Hypothesis Hsetup : Setup mem cfg front mini.
Hypothesis Hclasses : create_mem_page_size_classes (cb_min_record_size cfg) (cb_max_record_size cfg) (leaf_page_size cfg) (max_fence_len cfg) (cache_only cfg) =
  Ret (front ++ [mini; leaf_page_size cfg]).
Abbreviation tree := (BfTree B T W).
Context (t : tree) (ls : list leaf) (locs : list PageLocation) (lv : list level) (m : bytes → option bytes) (v : Z).
Hypothesis Htree : tree_at mem cfg front mini [] t ls lv m.
Hypothesis Hquiet : quiet mem v t ls.
Hypothesis Hlist : map_list (page_table (storage t)) locs.
Hypothesis Hat : Forall2 (leaf_at mem cfg front mini (storage t)) ls locs.
Hypothesis Hcount : Z.of_nat (length ls) < 2 ^ 40.
Abbreviation base_page lf := (vfs_read mem (storage t) (lf_offset lf)).

(** The mini page of a leaf. *)
Lemma mini_of i n : mini_page t locs i n → ∃ lf p q, ls !! i = Some lf ∧ base_inv cfg (base_page lf) p (lf_low lf) (lf_high lf) ∧
  mini_inv cfg front mini n q (lf_offset lf) (p_entries p) (lf_low lf) (lf_high lf) ∧ p_entries q ≠ [] ∧ ∀ k, lf_view lf k = overlay (p_entries q) (p_entries p) k.
Proof.
  intros (ptr & Hloc & [Hn _]). destruct (Forall2_lookup_r _ _ _ _ _ Hat Hloc) as (lf & Hlf & _ & p & Hb & n' & q & [Hn' _] & Hm & Hne & Hv).
  rewrite Hn in Hn'. injection Hn' as <-. by exists lf, p, q.
Qed.

Lemma mini_sizes_ok i n : mini_page t locs i n → node_size (LeafNode.meta n) = LEAF_HEADER + zlen (LeafNode.data n) ∧ 0 < node_size (LeafNode.meta n) < U16 ∧
  node_size (LeafNode.meta n) ∈ front ++ [mini] ∧ leaf_fields n.
Proof.
  intros Hn. destruct (mini_of i n Hn) as (lf & p & q & _ & _ & [HR _ _ _ Hs _ _ _ _] & _). destruct Hn as (ptr & _ & Ho). destruct (qu_minis _ _ _ _ Hquiet _ _ Ho) as [Hf _].
  destruct (re_layout _ _ HR) as [Hsz Hd _ _ _ _ _ _ _ _]. change PAGE_HEADER with LEAF_HEADER in *. pose proof (lf_node _ Hf). unfold LEAF_HEADER in *. split_and!; try done; lia.
Qed.

Context (f : bytes) (h : BfTreeMeta F) (li lm lz : list (Z * Z)) (offs : list Z) (cfg' : Config F).
Hypothesis Hsaved : saved mem cfg of_bits pad t ls locs lv v f h li lm lz offs.
Hypothesis Hsame : same_sizes cfg cfg'.
Hypothesis Hbuffer : new_buffer cfg'.
Hypothesis Htable : new_table (length ls).
Abbreviation vf := (StdVfs_open f).
Abbreviation mem' := (recovered_memory mem vf (leaf_page_size cfg)).
Abbreviation room_for := (λ n, new_table (length ls + n)).

Lemma offs_length : length offs = length ls.
Proof. symmetry. apply (Forall2_length _ _ _ (sv_bases _ _ _ _ _ _ _ _ _ _ _ _ _ _ _ Hsaved)). Qed.

Lemma file_next : offset_alloc vf = zlen f.
Proof. unfold StdVfs_open, first_offset. cbn [offset_alloc]. pose proof (fn_long _ _ _ _ _ _ _ (sv_finished _ _ _ _ _ _ _ _ _ _ _ _ _ _ _ Hsaved)). zcase (zlen f <? DISK_PAGE_SIZE); [lia|done]. Qed.

Lemma same_memory : same_blocks (leaf_page_size cfg) mem mem'.
Proof. done. Qed.

(** A base page is read from the file. *)
Lemma read_base (s : LeafStorage B T) i lf off p low high : disk s = ∅ → ls !! i = Some lf → offs !! i = Some off → base_inv cfg (base_page lf) p low high →
  vfs_read mem' s off = base_page lf.
Proof.
  intros Hd Hlf Hoff Hb. pose proof (Forall2_lookup_lr _ _ _ _ _ _ (sv_bases _ _ _ _ _ _ _ _ _ _ _ _ _ _ _ Hsaved) Hlf Hoff) as Hh.
  destruct (Forall_lookup_1 _ _ _ _ (qu_bases _ _ _ _ Hquiet) Hlf) as [Hf _]. destruct (leaf_image_roundtrip _ Hf) as [Hl Hr].
  unfold vfs_read at 1. rewrite Hd, lookup_empty. cbn [default recovered_memory unwritten]. unfold StdVfs_read. rewrite (read_has _ _ _ _ Hh); [done|].
  rewrite zlen_app, Hl. destruct (su_page _ _ _ _ Hsetup) as [-> _]. destruct (bi_ok _ _ _ _ _ Hb) as (HR & _ & Hs & _). destruct (re_layout _ _ HR) as [_ Hdd _ _ _ _ _ _ _ _].
  change PAGE_HEADER with LEAF_HEADER in *. unfold zlen at 1. rewrite length_replicate. unfold LEAF_HEADER in *. lia.
Qed.

Lemma to_load_all e : e ∈ lm → ∃ i n, to_load front mini vf offs (mini_page t locs) (size_map lz) e i n.
Proof.
  destruct e as [k off]. intros Hin. destruct (sv_mini _ _ _ _ _ _ _ _ _ _ _ _ _ _ _ Hsaved k off Hin) as (i & n & -> & Hn & Hh & Hz). exists i, n.
  destruct (mini_sizes_ok i n Hn) as (S1 & S2 & S3 & S4). split; try done.
  - rewrite offs_length. destruct (mini_of i n Hn) as (lf & _ & _ & Hlf & _). by apply lookup_lt_Some in Hlf.
  - unfold size_map. apply fold_insert; [|done]. apply (sv_mini_all _ _ _ _ _ _ _ _ _ _ _ _ _ _ _ Hsaved).
Qed.

(** The leaves of the new tree. *)
Definition moved_leaves : list leaf := zip_with (λ lf off, mkLeaf off (lf_view lf) (lf_low lf) (lf_high lf)) ls offs.

Lemma moved_leaf i x : moved_leaves !! i = Some x → ∃ lf off, ls !! i = Some lf ∧ offs !! i = Some off ∧ x = mkLeaf off (lf_view lf) (lf_low lf) (lf_high lf).
Proof. intros Hx. apply lookup_zip_with_Some in Hx as (lf & off & -> & H1 & H2). by exists lf, off. Qed.

Section leaves.
Context (don : list Z) (s : LeafStorage B T) (locs' : list PageLocation).
Hypothesis Hs : minis_at cfg' front mini vf offs (mini_page t locs) room_for don s locs'.
Hypothesis Hdon : ∀ k, k ∈ don ↔ k ∈ lm.*1.

Lemma recovered_offset i lf off : ls !! i = Some lf → offs !! i = Some off → offset_ok s off.
Proof.
  intros Hlf Hoff. pose proof (Forall2_lookup_lr _ _ _ _ _ _ (sv_bases _ _ _ _ _ _ _ _ _ _ _ _ _ _ _ Hsaved) Hlf Hoff) as (H1 & H2 & _).
  destruct (sv_base _ _ _ _ _ _ _ _ _ _ _ _ _ _ _ Hsaved) as [_ Hr]. specialize (Hr off (list_elem_of_lookup_2 _ _ _ Hoff)). destruct (Forall_lookup_1 _ _ _ _ (qu_bases _ _ _ _ Hquiet) Hlf) as [Hf _].
  destruct (leaf_image_roundtrip _ Hf) as [Hl _]. pose proof (zlen_nonneg (LeafNode.data (base_page lf))). unfold LEAF_HEADER in *. split.
  - rewrite (ma_next _ _ _ _ _ _ _ _ _ _ Hs), file_next. cbn [file StdVfs_open] in H2. lia.
  - unfold next_level_is_null, USIZE_MAX. apply Z.eqb_neq. lia.
Qed.

Lemma recovered_leaf i x loc : moved_leaves !! i = Some x → locs' !! i = Some loc → leaf_at mem' cfg' front mini s x loc.
Proof.
  intros (lf & off & Hlf & Hoff & ->)%moved_leaf Hloc. destruct (Forall2_lookup_l _ _ _ _ _ Hat Hlf) as (loc0 & Hloc0 & _ & p & Hb & Hp).
  split; [by apply (recovered_offset i lf)|]. exists p. cbn [lf_offset lf_low lf_high]. rewrite (read_base s i lf off p _ _ (ma_disk _ _ _ _ _ _ _ _ _ _ Hs) Hlf Hoff Hb).
  split; [by apply (same_base cfg cfg' Hsame)|]. destruct (ma_at _ _ _ _ _ _ _ _ _ _ Hs i off Hoff) as [[Hnot Hl]|(Hin & ptr & n & Hn & Hl & Ho)]; rewrite Hl in Hloc; injection Hloc as <-.
  - split; [done|]. cbn [lf_view]. destruct loc0 as [ptr|ptr|o|]; cbn in Hp; [| |by destruct Hp|done].
    + destruct Hp as (n & q & Ho & _). destruct Hnot. apply Hdon. apply (sv_mini_all _ _ _ _ _ _ _ _ _ _ _ _ _ _ _ Hsaved) with (n := n). by exists ptr.
    + destruct (qu_full _ _ _ _ Hquiet i ptr (lookup_lt_Some _ _ _ Hlf)). apply (map_get_law _ locs); [done|lia|by rewrite Nat2Z.id].
  - destruct (mini_of i n Hn) as (lf1 & p1 & q & Hlf1 & Hb1 & Hm & Hne & Hv). rewrite Hlf in Hlf1. injection Hlf1 as <-. destruct Hn as (ptr0 & Hl0 & Ho0). rewrite Hloc0 in Hl0. injection Hl0 as ->.
    destruct Hp as (n2 & q2 & [Hc2 _] & Hm2 & Hne2 & Hv2). destruct Ho0 as [Hc0 _]. rewrite Hc0 in Hc2. injection Hc2 as <-.
    exists (set_next_level n off), q2. split; [done|]. split; [by eapply moved_mini, (same_mini cfg cfg')|]. by split.
Qed.

Lemma recovered_leaves : leaves_at mem' cfg' front mini [] s moved_leaves.
Proof.
  pose proof offs_length as Hlen. assert (length moved_leaves = length offs) as Hml by (unfold moved_leaves; rewrite length_zip_with; lia). split.
  - apply Hs.
  - exists locs'. split; [apply Hs|]. split.
    + apply Forall2_same_length_lookup_2; [by rewrite (ma_length _ _ _ _ _ _ _ _ _ _ Hs)|]. intros i x loc. apply recovered_leaf.
    + split; [|by intros p ?%elem_of_nil]. intros p Hp. right. destruct (ma_owned _ _ _ _ _ _ _ _ _ _ Hs p Hp) as (i & n & _ & Hl). exists i, (Mini p). split; [done|]. left.
  - assert (map lf_offset moved_leaves = offs) as ->; [|apply (sv_base _ _ _ _ _ _ _ _ _ _ _ _ _ _ _ Hsaved)]. unfold moved_leaves. clear -Hlen. revert offs Hlen.
    induction ls as [|lf l IH]; intros [|o os] Hl; try done. cbn. f_equal. apply IH. by injection Hl.
Qed.
End leaves.

Lemma read_vectors : read_mapping (base_offset h) (base_size h) vf = Ret (base_list offs) ∧ read_mapping (mini_offset h) (mini_size h) vf = Ret lm ∧
  read_mapping (mini_size_offset h) (mini_size_size h) vf = Ret lz.
Proof.
  destruct (sv_finished _ _ _ _ _ _ _ _ _ _ _ _ _ _ _ Hsaved) as [_ _ _ _ _ H1 H2 H3 H4 H5 H6]. destruct (sv_words _ _ _ _ _ _ _ _ _ _ _ _ _ _ _ Hsaved) as (_ & W2 & W3 & W4).
  rewrite H2, H4, H6. split_and!; by apply read_mapping_spec.
Qed.

Lemma recover_disk_spec :
  (recover_disk mem vf h cfg' = Ret (inl CircularBufferSize) ∧ ∃ i ptr, 0 <= i < zlen ls ∧ map_get (page_table (storage t)) i = Ret (Mini ptr)) ∨
  ∃ don s locs', recover_disk mem vf h cfg' = Ret (inr s) ∧ minis_at cfg' front mini vf offs (mini_page t locs) room_for don s locs' ∧ ∀ k, k ∈ don ↔ k ∈ lm.*1.
Proof.
  destruct read_vectors as (R1 & R2 & R3). pose proof offs_length as Hlen. assert (zlen offs < 2 ^ 62) as Hsmall by (unfold zlen; lia).
  destruct (table_of_law (map Base offs)) as (tb & Htb & Hl & Hroom); [by rewrite length_map, Hlen|]. destruct (buffer_of_law cfg' Hbuffer) as (b & Hb & Hbi & Hbo & Hbs).
  set (s0 := mkStorage b ∅ ∅ (offset_alloc vf) tb).
  assert (minis_at cfg' front mini vf offs (mini_page t locs) room_for [] s0 (map Base offs)) as H0.
  { split; try done.
    - split; [done| |change (0 <= offset_alloc vf); rewrite file_next; apply zlen_nonneg]. destruct Hsame as [E1 E2 E3 E4 E5]. apply Hbs. rewrite E1, E2, E3, E4, E5. exact Hclasses.
    - intros n Hn. apply Hroom. by rewrite length_map, Hlen.
    - by rewrite length_map.
    - intros i off Hi. left. split; [by apply not_elem_of_nil|]. by rewrite list_lookup_fmap, Hi.
    - intros p Hp. cbn in Hp. by rewrite Hbo in Hp. }
  assert (recover_disk mem vf h cfg' = try_fold (recover_mini mem vf (size_map lz)) s0 lm) as Hrun.
  { unfold recover_disk. rewrite R1. ret_step. rewrite dense_spec by done. ret_step. rewrite Htb. ret_step. rewrite Hb. ret_step. rewrite R2. ret_step. rewrite R3. by ret_step. }
  rewrite Hrun. destruct (sv_mini_all _ _ _ _ _ _ _ _ _ _ _ _ _ _ _ Hsaved) as (Hnd & _ & _).
  destruct (recover_minis mem cfg' front mini vf offs (mini_page t locs) room_for lm (size_map lz) Hsmall to_load_all lm [] s0 (map Base offs)) as [[Hfail Hne]|(s & locs' & don & Hok & Hm & Hd)];
    [done|done|by intros k _ ?%elem_of_nil|done|left|right].
  - split; [done|]. destruct lm as [|[k off] l] eqn:Elm; [done|]. destruct (sv_mini _ _ _ _ _ _ _ _ _ _ _ _ _ _ _ Hsaved k off) as (i & n & _ & (ptr & Hloc & _) & _); [left|].
    exists (Z.of_nat i), ptr. split; [unfold zlen; rewrite (Forall2_length _ _ _ Hat); apply lookup_lt_Some in Hloc; lia|]. apply (map_get_law _ locs); [done|lia|by rewrite Nat2Z.id].
  - exists don, s, locs'. split; [done|]. split; [done|]. intros k. rewrite Hd. split; [by intros [?|?%elem_of_nil]|by left].
Qed.

Context (hp : heap) (limit fuel : nat).
Hypothesis Hheap : heap_ok hp limit.
Hypothesis Hpad : ∀ i n, 0 <= n → zlen (pad i n) = n.
Hypothesis Hrooted : ∀ ptr n, inner_nodes t !! ptr = Some n → is_root n = bool_decide (from_pointer ptr = (root_page t).1).
Hypothesis Hlimit : (size (inner_nodes t) <= limit)%nat.
Hypothesis Hfuel : (size (inner_nodes t) < fuel)%nat.

Definition raw_root (root : PageID) : Z := if is_id root then Z.lor (pid_raw root) ROOT_IS_LEAF_MASK else pid_raw root.

Lemma header_root : m_root_id h = pid_raw (root_page t).1 ∧ m_cache_only h = cache_only cfg.
Proof. by destruct (sv_header _ _ _ _ _ _ _ _ _ _ _ _ _ _ _ Hsaved) as (ai & am & asz & ab & e & k & ->). Qed.

Lemma recover_nodes : ∃ root ns' lv', recover_inner hp vf h fuel = Ret (root, ns') ∧ shape ns' root lv' ∧ length lv' = length lv ∧ last lv' = last lv ∧
  get_root_page (raw_root root) = (root, bool_decide (length lv = 1%nat)).
Proof.
  pose proof Htree as [_ Hs _ (L & HL & Htile & _) _ _]. pose proof (sh_root _ _ _ Hs) as H0. destruct header_root as [Hr _]. destruct (decide (length lv = 1%nat)) as [H1|H1].
  - rewrite H1 in HL. cbn [pred] in HL. rewrite H0 in HL. injection HL as <-. destruct Htile as [(i & lf & Hroot & Hi & _) _].
    exists (root_page t).1, ∅, lv. rewrite bool_decide_eq_true_2 by done. split_and!; try done.
    + unfold recover_inner. rewrite Hr. assert (NodeMeta.from_raw (pid_raw (root_page t).1) = (root_page t).1) as -> by by destruct (root_page t).1.
      rewrite is_pointer_not_id. assert (is_id (root_page t).1 = true) as ->; [|done]. replace ((root_page t).1) with (from_id (Z.of_nat i)) by (symmetry; exact Hroot). apply from_id_is_id.
    + destruct Hs as [_ _ S3 S4]. split; try done. intros hh L1 L2 _ HL2. apply lookup_lt_Some in HL2. lia.
    + unfold raw_root. replace ((root_page t).1) with (from_id (Z.of_nat i)) by (symmetry; exact Hroot). rewrite from_id_is_id. by apply get_root_page_leaf; lia.
  - pose proof (lookup_lt_Some _ _ _ H0) as Hlt. destruct (sv_finished _ _ _ _ _ _ _ _ _ _ _ _ _ _ _ Hsaved) as [_ _ _ F1 F2 _ _ _ _ _ _]. destruct (sv_words _ _ _ _ _ _ _ _ _ _ _ _ _ _ _ Hsaved) as (W1 & _).
    pose proof (inner_count_nodes mem cfg front mini t ls lv m Htree) as Hcnt. unfold inner_count_of in Hcnt.
    assert (li ≠ []) as Hne by (intros ->; pose proof (one_root h (inner_nodes t) (root_page t).1 lv [] Hs ltac:(lia) (sv_inner_all _ _ _ _ _ _ _ _ _ _ _ _ _ _ _ Hsaved) Hrooted Hr) as E; done).
    assert (read_vec_from_offset (inner_offset h) (inner_size h) vf = Ret li) as Hread.
    { pose proof (read_mapping_spec vf (inner_offset h) li F1 W1) as E. rewrite <- F2 in E. unfold read_mapping in E. destruct (decide (0 < inner_size h)) as [Hp|Hp].
      - by rewrite (proj2 (Z.ltb_lt 0 (inner_size h)) Hp) in E.
      - exfalso. rewrite F2 in Hp. destruct li as [|e0 l0]; [done|]. rewrite zlen_cons in Hp. pose proof (zlen_nonneg l0). lia. }
    destruct (recover_inner_spec hp limit pad vf h Hheap Hpad (inner_nodes t) (root_page t).1 lv li) with (fuel := fuel) as (q & ns' & lv' & Hrun & Hq & Hsh & Hlen & Hlast); try done; try lia.
    + intros ptr n Hn. apply (qu_nodes _ _ _ _ Hquiet _ _ Hn).
    + apply (sv_inner _ _ _ _ _ _ _ _ _ _ _ _ _ _ _ Hsaved).
    + apply (sv_inner_all _ _ _ _ _ _ _ _ _ _ _ _ _ _ _ Hsaved).
    + exists (from_pointer q), ns', lv'. rewrite bool_decide_eq_false_2 by done. split_and!; try done. unfold raw_root.
      destruct (get_root_page_inner q Hq) as [Hg Has]. unfold as_inner_node in Has. rewrite is_pointer_not_id in Has. by destruct (is_id (from_pointer q)).
Qed.

Lemma restored_tree don s locs' root ns' lv' (w : option W) :
  minis_at cfg' front mini vf offs (mini_page t locs) room_for don s locs' → (∀ k, k ∈ don ↔ k ∈ lm.*1) →
  shape ns' root lv' → length lv' = length lv → last lv' = last lv → get_root_page (raw_root root) = (root, bool_decide (length lv = 1%nat)) →
  (∀ w', w = Some w' → log_inv w' ∧ ∀ k v, limits cfg' k v → log_serves w' k v) →
  tree_at mem' cfg' front mini [] (mkTree (raw_root root) ns' s w []) moved_leaves lv' m.
Proof.
  intros Hs Hdon Hsh Hlen Hlast Hroot Hlog. pose proof Htree as [_ _ _ (L & HL & Htile & Htwo) Hone _].
  split; unfold root_page; cbn [root_page_id Tree.storage inner_nodes wal]; rewrite ?Hroot; cbn [fst snd]; try done.
  - by eapply recovered_leaves.
  - by rewrite Hlen.
  - exists L. split; [by rewrite <- last_lookup, Hlast, last_lookup|]. split; [|by rewrite Hlen]. eapply tiled_mono; [|exact Htile].
    intros L1 low pid L2 _ (i & lf & Hp & Hi & Hlf & Hlow & Hhigh & Hv). destruct (lookup_lt_is_Some_2 offs i) as [off Hoff]; [rewrite offs_length; by eapply lookup_lt_Some|].
    eexists i, _. split; [done|]. split; [done|]. split; [unfold moved_leaves; rewrite lookup_zip_with, Hlf; cbn; rewrite Hoff; done|]. done.
  - rewrite Hlen. intros H1 p Hp. destruct (ma_owned _ _ _ _ _ _ _ _ _ _ Hs p Hp) as (i & n & (ptr & _ & [_ Ho]) & _). by destruct (Hone H1 ptr).
Qed.
End restore.

(** The configuration of a tree that is recovered from a snapshot of version [v] of a tree with the configuration [cfg]. *)
Definition rebuilt_config {F} (default_ratio : F) (debug : bool) (cfg : Config F) (v : Z) (path : string) (use_snapshot : bool) (buffer_size : option Z)
    (wal_config : option WalConfig) : Config F :=
  recovered_config default_ratio debug (header_of cfg 0 v (0, 0) (0, 0) (0, 0) (0, 0) 0 0) path use_snapshot buffer_size wal_config.

Lemma rebuilt_sizes {F} (default_ratio : F) debug cfg v path use_snapshot buffer_size wal_config :
  same_sizes cfg (rebuilt_config default_ratio debug cfg v path use_snapshot buffer_size wal_config).
Proof. unfold rebuilt_config, recovered_config. split; destruct buffer_size, wal_config; cbn; destruct (cache_only cfg) eqn:E; cbn; by rewrite ?E. Qed.

(** A tree that a snapshot of version [v] finds: pages of that version or older ones, of which none is a full page, one
    root among its nodes, and fewer than 2^40 nodes and leaves. *)
Record at_rest {B T W} `{HPB : PageBuffer B} `{HBL : !PageBufferLaws B} `{HPM : PageMap T} (mem : memory) (v : Z) (t : BfTree B T W) (ls : list leaf) : Prop := {
  ar_quiet : quiet mem v t ls;
  ar_nodes : ∀ ptr n, inner_nodes t !! ptr = Some n → 0 <= ptr < 2 ^ 62 ∧ is_root n = bool_decide (from_pointer ptr = (root_page t).1);
  ar_small : Z.of_nat (size (inner_nodes t) + length ls) < 2 ^ 40;
}.

(** C5: a snapshot of a tree at rest, in disk mode and without full pages in the buffer, returns, and from its file a tree
    with the same contents is recovered; the only other outcome is that the buffer has no room for the mini pages, which
    is reported as an error. *)
Theorem snapshot_restores {B T W F : Type} {RB : RecordBound} `{HPB : PageBuffer B} `{HBL : !PageBufferLaws B} `{HPM : PageMap T} `{HML : !PageMapLaws T}
    `{HWL : WriteLog W} `{HLL : !WriteLogLaws W} `{HSN : StorageNew B T F} `{HSL : !StorageNewLaws B T F}
    (mem : memory) (hp : heap) (limit : nat) (cfg : @Config F) (front : list Z) (mini : Z)
    (to_bits : F → Z) (of_bits : Z → F) (pad : Z → Z → bytes) (hash_order : gmap Z Z → list (Z * Z)) (default_ratio : F) (debug : bool)
    (t : BfTree B T W) (ls : list leaf) (lv : list level) (m : bytes → option bytes) (v : Z) (d : SnapshotData) (fuel : nat)
    (path : string) (use_snapshot : bool) (buffer_size : option Z) (wal_config : option WalConfig) (w : option W) :
  let cfg' := rebuilt_config default_ratio debug cfg v path use_snapshot buffer_size wal_config in
  (∀ x, 0 <= to_bits x < 2 ^ 64 ∧ of_bits (to_bits x) = x) → (∀ i n, 0 <= n → zlen (pad i n) = n) → (∀ m, hash_order m ≡ₚ map_to_list m) →
  Setup mem cfg front mini → Forall (λ z, 0 <= z < 2 ^ 64) (config_words cfg) →
  create_mem_page_size_classes (cb_min_record_size cfg) (cb_max_record_size cfg) (leaf_page_size cfg) (max_fence_len cfg) (cache_only cfg) = Ret (front ++ [mini; leaf_page_size cfg]) →
  heap_ok hp limit → (size (inner_nodes t) <= limit)%nat → (S (size (inner_nodes t)) < fuel)%nat →
  tree_at mem cfg front mini [] t ls lv m → at_rest mem v t ls → 0 <= v < 2 ^ 61 - 1 → d = data_reset d →
  validate cfg' = Ret None → new_buffer cfg' → new_table (length ls) →
  (∀ w', w = Some w' → log_inv w' ∧ ∀ k v, limits cfg' k v → log_serves w' k v) →
  ∃ d' r, snapshot_tree mem cfg to_bits pad hash_order t v d fuel = Ret d' ∧
    new_from_snapshot mem hp of_bits default_ratio debug (Some (file (vfs d'))) path use_snapshot buffer_size wal_config w fuel = Ret r ∧
    match r with
    | inl e => e = CircularBufferSize ∧ ∃ i ptr, 0 <= i < zlen ls ∧ map_get (page_table (storage t)) i = Ret (Mini ptr)
    | inr (c, classes, t') => c = cfg' ∧ classes = front ++ [mini; leaf_page_size cfg] ∧ wal t' = w ∧
        represents (recovered_memory mem (StdVfs_open (file (vfs d'))) (leaf_page_size cfg)) cfg' front mini [] t' m
    end.
Proof.
  intros cfg' Hbits Hpad Hhash Hsetup Hwords Hclasses Hheap Hlimit Hfuel Htree [Hquiet Hnodes Hsmall] Hv Hd Hval Hbuf Htab Hlog.
  pose proof (lv_list _ _ _ _ _ _ _ (ta_leaves _ _ _ _ _ _ _ _ _ Htree)) as (locs & Hlist & Hat & _).
  pose proof (rebuilt_sizes default_ratio debug cfg v path use_snapshot buffer_size wal_config) as Hsame. fold cfg' in Hsame.
  destruct (snapshot_tree_spec mem cfg to_bits of_bits pad hash_order Hbits Hpad Hhash (su_disk_mode _ _ _ _ Hsetup) Hwords t ls locs lv v) with (front := front) (mini := mini) (m := m) (d := d) (fuel := fuel)
    as (d' & h & li & lm & lz & offs & Hsnap & _ & Hsaved); try done.
  { symmetry. by eapply Forall2_length. }
  { intros i n Hn. by apply (mini_sizes_ok mem cfg front mini t ls locs v Hquiet Hat i n). }
  { intros ptr [n Hn]. by apply (Hnodes _ _ Hn). }
  { lia. }
  destruct (recover_nodes mem cfg front mini of_bits pad t ls locs lv m v Htree Hquiet (file (vfs d')) h li lm lz offs Hsaved hp limit fuel Hheap Hpad) as (root & ns' & lv' & Hin & Hsh & Hlen & Hlast & Hroot);
    [intros ptr n Hn; apply (Hnodes _ _ Hn)|done|lia|].
  assert (recovered_config default_ratio debug h path use_snapshot buffer_size wal_config = cfg' ∧ check_magic h = Ret tt ∧ m_cache_only h = false ∧ Config.snapshot_version cfg' = v + 1) as (Hc & Hmagic & Hmode & Hver).
  { destruct (sv_header _ _ _ _ _ _ _ _ _ _ _ _ _ _ _ Hsaved) as (ai & am & asz & ab & e & k & ->). split; [done|]. split; [done|]. split; [apply Hsetup|].
    unfold cfg', rebuilt_config, recovered_config. destruct buffer_size, wal_config; cbn; by destruct (cache_only cfg). }
  assert (∀ r, recover_disk mem (StdVfs_open (file (vfs d'))) h cfg' = Ret r →
    new_from_snapshot mem hp of_bits default_ratio debug (Some (file (vfs d'))) path use_snapshot buffer_size wal_config w fuel =
      Ret match r with inl e => inl e | inr s => inr (cfg', front ++ [mini; leaf_page_size cfg], mkTree (raw_root root) ns' s w []) end) as Hrun.
  { intros r Hr. pose proof (sv_finished _ _ _ _ _ _ _ _ _ _ _ _ _ _ _ Hsaved) as Hfin. unfold new_from_snapshot. cbv zeta. rewrite (fn_header _ _ _ _ _ _ _ Hfin), Hmagic. ret_step.
    rewrite assert_true by (apply Z.eqb_eq, (fn_size _ _ _ _ _ _ _ Hfin)). ret_step. rewrite Hc. assert ((if use_snapshot then _ ← CPRSnapShotMgr_new (Config.snapshot_version cfg'); Ret tt else Ret tt) = Ret tt) as ->.
    { destruct use_snapshot; [|done]. unfold CPRSnapShotMgr_new, new_snapshot_state. rewrite Hver. cbn [Z.ltb Z.compare]. ret_step. change (Z.shiftl 1 SNAPSHOT_STATE_PHASE_ID_SHIFT) with (2 ^ 61).
      rewrite assert_true by (apply Z.ltb_lt; lia). by repeat ret_step. }
    ret_step. destruct Hsame as [E1 E2 E3 E4 E5]. rewrite E1, E2, E3, E4, E5, Hclasses. ret_step. rewrite Hval. ret_step. cbv iota. rewrite Hin. ret_step. cbv iota beta. rewrite Hmode, Hr. ret_step. by destruct r. }
  destruct (recover_disk_spec mem cfg front mini of_bits pad Hclasses t ls locs lv v Hquiet Hlist Hat ltac:(lia) (file (vfs d')) h li lm lz offs cfg' Hsaved Hsame Hbuf Htab) as [[Hdisk Hmini]|(don & s & locs' & Hdisk & Hs & Hdon)].
  - eexists d', _. split; [done|]. split; [by apply Hrun|]. done.
  - eexists d', _. split; [done|]. split; [by apply Hrun|]. split_and!; try done. eexists _, lv'.
    by eapply (restored_tree mem cfg front mini of_bits pad Hsetup t ls locs lv m v Htree Hquiet Hlist Hat (file (vfs d')) h li lm lz offs cfg' Hsaved Hsame).
Qed.

(** ** The storage of the components themselves *)
Section new_storage.
Context {F : Type} (contended : bool) (rpb : Z) (threshold : F → Z → Z) (ptr : Z).

(** [threshold] is the product of the copy-on-access ratio with the capacity, and [ptr] the address of the memory. *)
Definition new_sys (cfg : Config F) : outcome sys :=
  b ← CircularBuffer_new (cb_size_byte cfg) (threshold (cb_copy_on_access_ratio cfg) (cb_size_byte cfg)) (cb_min_record_size cfg) (cb_max_record_size cfg)
        (leaf_page_size cfg) (max_fence_len cfg) ptr (cache_only cfg);
  Ret (start_of b).

Definition sys_storage_new : StorageNew sys (MappingTable PageLocation) F := {|
  buffer_of := new_sys;
  table_of := new_from_iter rpb;
  table_next_id := peek_next_id;
|}.

Hypothesis Hrpb : 0 < rpb.
Hypothesis Hptr : 0 < ptr.
Hypothesis Halign : ptr mod 8 = 0.

Lemma ascending_bounds (l : list Z) x lo hi : ascending l → head l = Some lo → last l = Some hi → x ∈ l → lo <= x <= hi.
Proof.
  intros Hs Hlo Hhi Hx. destruct l as [|y l]; [done|]. injection Hlo as ->. split.
  - apply elem_of_cons in Hx as [->|Hx]; [lia|]. inversion_clear Hs as [|? ? _ Hall]. rewrite Forall_forall in Hall. specialize (Hall _ Hx). lia.
  - apply last_Some in Hhi as [l' Hl]. rewrite Hl in Hs, Hx. apply elem_of_app in Hx as [Hx|?%list_elem_of_singleton]; [|lia].
    clear Hl. induction l' as [|z l' IH]; [by apply elem_of_nil in Hx|]. cbn in Hs. inversion_clear Hs as [|? ? Hs' Hall]. apply elem_of_cons in Hx as [->|Hx]; [|by apply IH].
    rewrite Forall_forall in Hall. assert (z < hi); [|lia]. apply Hall, elem_of_app. right. by left.
Qed.

Definition sys_can_start (cfg : Config F) : Prop := (∃ s, new_sys cfg = Ret s) ∧ CACHE_LINE_SIZE < leaf_page_size cfg.

Lemma new_sys_law cfg : sys_can_start cfg →
  ∃ s, new_sys cfg = Ret s ∧ sys_inv s ∧ (∀ p, sys_owner s p = None) ∧
    ∀ l, create_mem_page_size_classes (cb_min_record_size cfg) (cb_max_record_size cfg) (leaf_page_size cfg) (max_fence_len cfg) (cache_only cfg) = Ret l → Forall (sys_serves s) l.
Proof.
  intros [[s Hs] Hleaf]. exists s. split; [done|]. unfold new_sys in Hs. apply bind_Ret_inv in Hs as (b & Hb & [= <-]). split; [|split].
  - apply reachable_sys. exists b. split; [|apply rtc_refl]. by eexists _, _, _, _, _, _, _, _.
  - intros p. unfold sys_owner. cbn. by rewrite !decide_False by set_solver.
  - intros l Hl. apply Forall_forall. intros x Hx. destruct (classes_spec _ _ _ _ _ (classes_inv _ _ _ _ _ _ Hl)) as (front & Hl' & Hasc & _). rewrite Hl in Hl'. injection Hl' as ->.
    unfold sys_serves, CircularSystem.served. cbn [buf start_of]. unfold CircularBuffer_new in Hb. apply assert_inv in Hb as [_ Hb]. apply assert_inv in Hb as [_ Hb].
    unfold FreeList_new, create_free_list_size_classes in Hb. rewrite Hl in Hb. injection Hb as <-. cbn [free_list size_classes]. rewrite last_reverse, head_reverse.
    destruct (head _) as [lo|] eqn:Hlo; [|by destruct front]. destruct (last _) as [hi|] eqn:Hhi; [|by apply last_None in Hhi; destruct front].
    pose proof (ascending_bounds _ x lo hi Hasc Hlo Hhi Hx). apply andb_true_intro. split; apply Z.leb_le; lia.
Qed.

Lemma new_table_law l : Z.of_nat (length l) <= MAX_BATCHES * rpb →
  ∃ t, new_from_iter rpb (zip (seqZ 0 (zlen l)) l) = Ret t ∧ table_list t l ∧ ∀ n, Z.of_nat (length l + n) <= MAX_BATCHES * rpb → table_room t n.
Proof.
  intros Hl. destruct (insert_all_spec rpb (MappingTable_new rpb) [] l Hrpb (new_repr rpb Hrpb)) as (t & _ & Ht & Hf); [rewrite zlen_nil; unfold zlen; lia|].
  exists t. split; [exact Hf|]. pose proof (h_rpb _ _ _ (proj1 Ht)) as Hr. split; [split; by rewrite Hr|].
  intros n Hn. unfold table_room. rewrite Hr, (proj2 Ht). unfold zlen. cbn [app]. lia.
Qed.

Definition sys_storage_new_laws : @StorageNewLaws _ _ F (sys_buffer contended) (sys_buffer_laws contended) table_map table_map_laws sys_storage_new :=
  @Build_StorageNewLaws _ _ F (sys_buffer contended) (sys_buffer_laws contended) table_map table_map_laws sys_storage_new
    (λ n, Z.of_nat n <= MAX_BATCHES * rpb) sys_can_start (λ t l H, proj2 (proj2 H)) new_table_law new_sys_law.
End new_storage.

(** ** A new tree is saved and recovered *)
#[local] Existing Instance sample_bound.
#[local] Instance kept_sys : PageBuffer sys := sys_buffer false.
#[local] Instance kept_sys_laws : PageBufferLaws sys := sys_buffer_laws false.
#[local] Instance kept_map : PageMap (MappingTable PageLocation) := table_map.
#[local] Instance kept_map_laws : PageMapLaws (MappingTable PageLocation) := table_map_laws.
#[local] Instance kept_new : StorageNew sys (MappingTable PageLocation) unit := sys_storage_new 4096 (λ _ _, 30198988) 4096.
#[local] Instance kept_new_laws : StorageNewLaws sys (MappingTable PageLocation) unit :=
  sys_storage_new_laws false 4096 (λ _ _, 30198988) 4096 eq_refl eq_refl eq_refl.

Definition kept_config : Config unit := set_use_snapshot (Config.set_snapshot_version sample_config 5) true.
Definition kept_mini : Z := max_mini_of (cb_max_record_size kept_config) (leaf_page_size kept_config) (max_fence_len kept_config) false.
Definition kept_front : list Z := take (length sample_classes - 2) sample_classes.
Definition kept_pad (i n : Z) : bytes := replicate (Z.to_nat n) 0.
Definition kept_data : SnapshotData := data_reset (mkData [] [] [] [] 0 (StdVfs_open [])).

Lemma kept_setup : Setup sample_memory kept_config kept_front kept_mini ∧
  create_mem_page_size_classes (cb_min_record_size kept_config) (cb_max_record_size kept_config) (leaf_page_size kept_config) (max_fence_len kept_config) false =
    Ret (kept_front ++ [kept_mini; leaf_page_size kept_config]).
Proof.
  pose proof sample_usable as [H1 H2 H3 _ _ H4 H5 H6]. pose proof sample_memory_ok as [H7 H8].
  destruct (valid_setup sample_memory kept_config H1 H2 H3 H4 H5 H6 H7 H8) as (front & Hc & Hs). change (cache_only kept_config) with false in Hc, Hs. fold kept_mini in Hc, Hs.
  assert (front = kept_front) as ->; [|split; [exact Hs|exact Hc]].
  assert (create_mem_page_size_classes 4 1952 4096 32 false = Ret (kept_front ++ [kept_mini; 4096])) as Hk by (vm_compute; reflexivity).
  change (create_mem_page_size_classes 4 1952 4096 32 false = Ret (front ++ [kept_mini; 4096])) in Hc. rewrite Hc in Hk.
  assert (∀ l l' : list Z, Ret l = Ret l' → l = l') as Hinj by congruence. apply Hinj in Hk. by apply app_inv_tail in Hk.
Qed.

Lemma kept_tree : ∃ t lf, with_config sample_memory kept_config sample_storage (None : option WriteAheadLogInner) = Ret (inr t) ∧
  tree_at sample_memory kept_config kept_front kept_mini [] t [lf] [[([], from_id 0)]] empty_map ∧ at_rest sample_memory 5 t [lf] ∧ inner_nodes t = ∅ ∧
  map_get (page_table (storage t)) 0 = Ret (Base (lf_offset lf)).
Proof.
  destruct kept_setup as [Hsetup Hclasses]. pose proof sample_fresh as [F1 F2 F3 F4 F5].
  destruct (with_config_spec sample_memory kept_config kept_front kept_mini Hsetup sample_storage (None : option WriteAheadLogInner) 5) as (t & lf & sib & sp & Hrun & Ht & _ & Hn & _ & _ & Hl & Hread & _ & _ & _ & Hpage).
  - apply sample_usable.
  - vm_compute. reflexivity.
  - split; [exact F1| |done]. replace (kept_front ++ _) with sample_classes by (vm_compute; reflexivity). exact F2.
  - exact F4.
  - apply (budget_growable sample_memory kept_config kept_front kept_mini Hsetup) with (n := 0%nat). exact (sample_budget 1 ltac:(lia)).
  - exact F5.
  - done.
  - exists t, lf. split; [done|]. split; [done|]. split; [|split; [done|by apply (map_get_law _ _ _ _ Hl)]]. split; [|by rewrite Hn|by rewrite Hn, map_size_empty].
    split.
    + by rewrite Hn.
    + apply Forall_singleton. rewrite Hread.
      assert (match make_base_page (fresh_page sample_memory 4096) 4096 5 with Ret n => forallb (λ '(x, b), (0 <=? x) && (x <? b))
         [(encoded (LeafNode.meta n), U16); (node_size (LeafNode.meta n), U16); (remaining_size (LeafNode.meta n), U16); (prefix_len n, U16); (next_level n, 2 ^ 64);
          (LeafNode.lsn n, 2 ^ 64); (LeafNode.snapshot_version n, 2 ^ 64); (LeafOps.get_clean_snapshot_version n, 6)] | Panic => false end = true) as Hc by (vm_compute; reflexivity).
      change (make_base_page (fresh_page sample_memory 4096) 4096 5 = Ret sib) in Hpage. rewrite Hpage in Hc. cbn [forallb] in Hc. rewrite !andb_true_iff in Hc.
      repeat match goal with H : _ ∧ _ |- _ => destruct H end. zbool. split; [split; lia|lia].
    + intros ptr n [_ Ho]. by destruct (ta_single _ _ _ _ _ _ _ _ _ Ht eq_refl ptr).
    + intros [|i] ptr Hi; [|cbn in Hi; lia]. by rewrite (map_get_law _ _ (Z.of_nat 0) (Base (lf_offset lf)) Hl).
Qed.

Lemma snapshot_restores_witness :
  ∃ t d r, with_config sample_memory kept_config sample_storage (None : option WriteAheadLogInner) = Ret (inr t) ∧
    snapshot_tree sample_memory kept_config (λ _, 0) kept_pad map_to_list t 5 kept_data 2 = Ret d ∧
    new_from_snapshot sample_memory sample_heap (λ _, tt) tt true (Some (file (vfs d))) "bftree" true None None None 2 = Ret (inr r) ∧
    r.1.1 = rebuilt_config tt true kept_config 5 "bftree" true None None ∧ r.1.2 = sample_classes ∧
    represents (recovered_memory sample_memory (StdVfs_open (file (vfs d))) 4096) r.1.1 kept_front kept_mini [] r.2 empty_map.
Proof.
  destruct kept_tree as (t & lf & Hnew & Ht & Hrest & Hn & Hbase). destruct kept_setup as [Hsetup Hclasses].
  destruct (snapshot_restores sample_memory sample_heap 1000 kept_config kept_front kept_mini (λ _, 0) (λ _, tt) kept_pad map_to_list tt true
    t [lf] [[([], from_id 0)]] empty_map 5 kept_data 2 "bftree" true None None None) as (d & r & Hsnap & Hrun & Hr).
  - intros []. split; [lia|reflexivity].
  - intros i n Hi. unfold kept_pad, zlen. rewrite length_replicate. lia.
  - done.
  - exact Hsetup.
  - apply Forall_forall. intros z Hz. assert (forallb (λ z, (0 <=? z) && (z <? 2 ^ 64)) (config_words kept_config) = true) as Hall by (vm_compute; reflexivity).
    rewrite forallb_forall in Hall. apply list_elem_of_In in Hz. apply Hall in Hz. zbool. lia.
  - exact Hclasses.
  - exact sample_heap_ok.
  - rewrite Hn, map_size_empty. lia.
  - rewrite Hn, map_size_empty. lia.
  - exact Ht.
  - exact Hrest.
  - lia.
  - done.
  - vm_compute. reflexivity.
  - split; [|vm_compute; reflexivity]. eexists. vm_compute. reflexivity.
  - vm_compute. congruence.
  - done.
  - destruct r as [e|[[c classes] t']].
    + destruct Hr as (_ & i & ptr & Hi & Hget). change (zlen [lf]) with 1 in Hi. assert (i = 0) as -> by lia. by rewrite Hbase in Hget.
    + destruct Hr as (-> & -> & _ & Hrep). eexists t, d, _. do 3 (split; [done|]). split; [done|]. split; [vm_compute; reflexivity|exact Hrep].
Defined.
